(* ===== verification/_CoqProject ===== *)
-Q . S2P
Prelude.v
BitVector.v
BinaryHeap.v
Double.v
Date.v
DispatchData.v
TransformBase.v
TransformUtf.v
Transform.v
BigNumber.v
Storage.v
StorageSpec.v
StorageOps.v
StorageInsert.v
StorageBranch.v
StorageFrozen.v
StorageRoot.v
StorageGrow.v
StorageShare.v
StorageUse.v
StorageRead.v
StorageCopy.v
StorageWrite.v
StoragePut.v
StorageProgram.v
StorageBugs.v
Kernel.v
Semaphore.v
Group.v
Lock.v
Once.v
Apply.v
ApplyEntry.v
Sort.v
SortBlocks.v
SortPhases.v
SortConcurrent.v
SortArray.v
ApplyUse.v
Tree.v
TreeSpec.v
TreeOps.v
TreeRelease.v
TreeUse.v
BasicHash.v
HashPrimes.v
HashProbe.v
HashSpec.v
HashFind.v
HashOps.v
HashChange.v
HashUse.v
HashProgram.v
HashTypes.v
HashRead.v
HashCopy.v
Collections.v
CollectionsUse.v
CollectionsCreate.v
Time.v
