(* ===== verification/Prelude.v ===== *)
(** * Verification of the C code bundled in WGFcodeNotes

    The repository is a collection of notes with copies of the sources they
    discuss.  Its C code is CoreFoundation (src/SourceCode/CFRunLoopRef/, called
    CF below) and libdispatch (src/SourceCode/GCD源码/libdispatch-libdispatch-1502.0.1/src/,
    called GCD).  This library is about their data structures, codecs, sorting,
    times and synchronisation.  The rest (property lists, bundles, streams, the run
    loop, the queues) is listed at the end with the reason it is left out.

    ** How the code is represented

    - Integers are [Z]; wrap-around is written out with [u8] ... [u64] of this
      file and the signed versions of the components, where the C type is
      narrower than the value.
    - A buffer is a list; [zget], [zset], [zsub] and [zwrite] give [None] for an
      access outside it.  [None] is always a failure of the C code: a crash, a
      [HALT], an undefined shift, memory that is not there, or a loop that used
      up its fuel.  Theorems therefore say that the result is [Some].
    - Objects with identity (dispatch_data, CFTree) live in a store, a finite map
      from addresses, with their reference counts; sharing is sharing there.
    - Concurrent code is a system of threads: a shared state, the local state of
      each thread (where it is in the code, with its local variables), and a step
      function in which every atomic operation, call of a client's function and
      call on the kernel is one step of one thread.  Theorems are by induction on
      the sequences of such steps, for any number of threads.

    ** The parts

    CF data structures:
    - BitVector.v: CFBitVector.c.  Record [CFBitVector]; abstract view [bits].
    - BinaryHeap.v: CFBinaryHeap.c.  Abstract view: a multiset of values; the
      [retain] and [release] calls are logged.  Class [Storage] is realloc.
    - Storage.v: CFStorage.c, the 2-3 tree of shared leaves behind a mutable
      array, as actions on the storage and a heap of counted nodes.
      StorageSpec.v has total correctness of actions, the ghost trees, the
      invariant of the counts and the frame lemmas; StorageOps.v leaves, release
      and what may be relied on between operations; StorageInsert.v,
      StorageBranch.v, StorageFrozen.v and StorageRoot.v insertion in leaves, in
      branches, in shared nodes and in any node; StorageGrow.v the root and the
      storages of a heap; StorageShare.v two storages made of the same values, and
      a checker of what the theorems ask of a heap; StorageUse.v
      CFStorageInsertValues; StorageRead.v
      reading and the cache; StorageCopy.v, StorageWrite.v and StoragePut.v the
      copies on the way to a write, and CFStorageReplaceValues; StorageProgram.v
      the end of a storage and a program on one; StorageBugs.v what goes wrong
      when storages share nodes, and with large values.
    - Double.v, Date.v: the calendar of CFDate.c on whole seconds, with its int64
      day numbers and int32 years.  Double.v has the doubles that hold whole
      numbers: every operation rounds to 53 bits, to even.
    - BigNumber.v: CFBigNumber.c.  Abstract view [value], an integer.
    - Sort.v, SortBlocks.v, SortPhases.v, SortConcurrent.v, SortArray.v:
      CFSortFunctions.c.  Sort.v has the merge sort of indexes, SortBlocks.v the
      concurrent sort over the interface [DispatchApply], SortPhases.v why odd-even
      merging of blocks sorts, SortConcurrent.v that the arrays follow it,
      SortArray.v the public functions.
    - Tree.v: CFTree.c with the retain and release of CFRuntime.c.  TreeSpec.v is
      the abstract state (nodes with lists of children), TreeOps.v and
      TreeRelease.v relate the operations to it, TreeUse.v has the properties.
    - BasicHash.v: CFBasicHash.c with its template CFBasicHashFindBucket.m, the
      hash table behind dictionaries, sets and bags.  Abstract view: a list of
      entries up to order.  HashPrimes.v checks the tables of sizes, HashProbe.v
      the three probe sequences; HashSpec.v has the laws of the callbacks (class
      [Lawful]) and the invariant, HashFind.v the search, HashOps.v the writes
      and rehashing, HashChange.v adding, replacing and removing, HashUse.v the
      operations on entries, HashProgram.v whole programs, HashTypes.v the ranges
      of the fields, HashRead.v what goes through all buckets, HashCopy.v the copy.
    - Collections.v: CFDictionary.c, CFSet.c and CFBag.c, the clients of
      CFBasicHash, as the one template they are.  CollectionsUse.v relates them
      to finite maps, CollectionsCreate.v to the lists they are made from.

    libdispatch data (GCD data.c, transform.c):
    - DispatchData.v: immutable byte ropes.  Abstract view: the bytes an object
      stands for.  Its regions are what the transforms run on.
    - TransformBase.v, TransformUtf.v, Transform.v: the base 32, base 64, UTF-8
      and UTF-16 codecs over any list of regions, and the choice between them.
      Class [Beyond] is the memory after a mapping that is read past its end.

    libdispatch times (GCD time.c, shims/time.h):
    - Time.v: the 64-bit words for times of the three clocks, their making,
      reading and arithmetic, for given readings of the clocks.

    libdispatch synchronisation (GCD semaphore.c, once.c, apply.c, shims/lock.h,
    shims/lock.c):
    - Kernel.v: the interfaces [Sema4] (kernel semaphore) and [Futex] (wait on an
      address) with an instance each.
    - Lock.v: the lock words and thread names, class [Threads].
    - Semaphore.v, Group.v: semaphore.c.
    - Once.v: once.c with its gate of lock.h and lock.c.
    - Apply.v, ApplyEntry.v, ApplyUse.v: apply.c.  Apply.v has the threads of one
      call, using for each gate the specification Once.v proves of it
      ([once_enter], [once_leave]); ApplyEntry.v the way to them (class
      [Parallelism] is what the system offers); ApplyUse.v the properties and the
      instance [scheduled_apply] of [DispatchApply]: the concurrent sort of
      CFSortFunctions.c runs on the dispatch_apply of apply.c.

    Interfaces with more than one side: [Allocator] below (BitVector,
    DispatchData, the transforms), [Futex] (Group, Once), [DispatchApply] (SortBlocks
    is its client, ApplyUse its implementation), [Scratch] (malloc of the sorts),
    [Client] (callbacks of CFTree, its instance in TreeUse.v), [Lawful]
    (callbacks of CFBasicHash, instances by [lawful_through]).  Each hypothesis a
    theorem takes on one of them has a concrete instance in its witness.

    ** What the theorems show

    - Refinement: each operation of the bit vector, the heap, the ropes and the
      trees is an operation on its abstract view, on every branch; its invariant
      is preserved, and what is released or freed is exactly what nobody holds.
    - Equivalence and round trips: encoders write the text of RFC 4648 and
      decoders read it back, for every cut in regions; UTF-8 and UTF-16 likewise;
      decimal text of big numbers; the calendar; the sorts give the one stable
      order of their comparator, whatever the processors and schedules.
    - CFStorage: each operation proved is an operation on the bytes of its
      storage, in a heap of any number of storages that share nodes, and leaves
      the bytes of the others; a write needs the cached leaf to be frozen or the
      storage's own.  Deletion and the making of a storage from a part
      of another are modelled, and only their failures are theorems.
    - CFBasicHash: each program on a new table does what it does to a list of
      entries, and keeps every field in its C type; probing visits every bucket; what is retained is released or held;
      listing, comparing and copying are functions of the entries.
    - Dictionaries, sets and bags: any calls on a new one answer as a finite map
      of values and counts does, by the theorems of CFBasicHash only.
    - Invariants, safety and liveness of the synchronisation: permits and enters
      are accounted for in every interleaving, the continuations of a group, each
      an own step of the thread that captured their list, are submitted once and in
      the order of that list, no wake-up is lost, the function
      of dispatch_once runs once, dispatch_apply calls each index once and
      returns after the last call has ended.
    - Times: addition saturates at both ends of a clock, a deadline made from now
      is reached after its delay and not before; where wall clock words at the
      limits and monotonic words are misread.
    - Errors and bounds: the crashes of the code, the limits of its counters and
      buffers.  Where the code does not do what its documents say, the theorem
      states what it does; the names end in what goes wrong.

    ** Fuel

    A recursion that is not structural takes fuel, and a theorem shows that
    enough is given: the nesting of ropes is two (subranges, releases,
    application, region copies), so fuel 2 is enough; the paths of a CFStorage
    are shorter than its heap, whose size is the fuel; merging takes
    [cnt1 + cnt2 + 1] turns; sorting recurses less than its number of elements;
    the loops over children take their number; the release of a tree has some
    fuel that is enough (it terminates on every heap that represents a forest);
    the loops over the buckets of a hash table take their number, the choice of a
    size the 64 entries of the tables, the widening of a count its four widths;
    the serial loop of apply takes its iterations; a scheduled run the bound on
    the steps of its threads; other loops the length of their buffer.

    ** Choices of platform

    64-bit, little endian, macOS lock words ([HAVE_UL_UNFAIR_LOCK]), x86 for
    dispatch_once (no quiescent counter) and no folding in CFBasicHash, whose hash
    cache is as on macOS, release builds (assertions of
    CoreFoundation do nothing).  Units of the clocks are nanoseconds, as on x86.
    Garbage collection of CF is off.

    ** What is not modelled

    - Code that is only system calls or wraps them: the reading of the clocks (and
      the scaling of host times where a unit is not a nanosecond), CFStream, CFRunLoop and its
      ports, CFSocket, bundles and plug-ins, preferences, dispatch_io, mach.c,
      voucher.c, firehose; in lock.c the wrappers themselves (Kernel.v is what
      they promise).
    - Code over data that is not in the repository: the Unicode tables of
      CFString and CFCharacterSet, ICU for locales, calendars and formatters, the
      time zone files; parsers of property lists, XML and URLs work on CFString.
    - Memory layout rather than values: the blocks runtime, allocator.c,
      CFBurstTrie; the size in memory and the description of a CFBasicHash.
    - Queues, sources and workloops (queue.c, source.c, event/): apply.c's use of
      the width bits of a queue is in ApplyEntry.v, the rest is not.
    - The Objective-C, C++ and Swift copies, and the notes' own application.

    ** Plan

    Deletion and sharing of CFStorage against its ghost trees, CFArray on it;
    unfair locks and thread events of lock.c; CFData and CFUUID; the
    reference counts of CFRuntime.c in full; then what is missing of the partly
    modelled parts (the difference of dates, the rest of data.c, the state word
    of a queue). *)
From stdpp Require Export base decidable option list numbers relations.
From Stdlib Require Export ZArith Lia Bool.
Open Scope Z_scope.

(** ** Machine words and bytes *)

Definition u8 (x : Z) : Z := x mod 2 ^ 8.
Definition u16 (x : Z) : Z := x mod 2 ^ 16.
Definition u32 (x : Z) : Z := x mod 2 ^ 32.
Definition u64 (x : Z) : Z := x mod 2 ^ 64.

Definition is_byte (x : Z) : Prop := 0 ≤ x < 256.
#[export] Instance is_byte_dec x : Decision (is_byte x).
Proof. unfold is_byte. apply _. Defined.

(** ** Arrays in memory: a buffer is a list, an access outside it is [None] *)

Definition zlen {A} (l : list A) : Z := Z.of_nat (length l).

Definition zget {A} (l : list A) (i : Z) : option A :=
  if decide (0 ≤ i) then l !! Z.to_nat i else None.

Definition zupd {A} (l : list A) (i : Z) (x : A) : list A := <[Z.to_nat i := x]> l.

Definition zset {A} (l : list A) (i : Z) (x : A) : option (list A) :=
  if decide (0 ≤ i < zlen l) then Some (zupd l i x) else None.

(** [zsub l i n]: the [n] elements from index [i] on, [None] outside the buffer. *)
Definition zsub {A} (l : list A) (i n : Z) : option (list A) :=
  if decide (0 ≤ i ∧ 0 ≤ n ∧ i + n ≤ zlen l)
  then Some (take (Z.to_nat n) (drop (Z.to_nat i) l)) else None.

(** [zwrite l i src]: [memmove] of [src] to index [i] of [l]. *)
Definition zwrite {A} (l : list A) (i : Z) (src : list A) : option (list A) :=
  if decide (0 ≤ i ∧ i + zlen src ≤ zlen l)
  then Some (take (Z.to_nat i) l ++ src ++ drop (Z.to_nat i + length src) l) else None.

Declare Scope cf_scope.
Delimit Scope cf_scope with cf.
Notation "l '.[' i ']'" := (zget l i) (at level 1, left associativity, format "l .[ i ]") : cf_scope.
Notation "l '.[' i ':=' x ']'" := (zset l i x)
  (at level 1, left associativity, format "l .[ i  :=  x ]") : cf_scope.
Open Scope cf_scope.

(** [CFRange] *)
Record CFRange := CFRangeMake { location : Z; range_length : Z }.

Definition kCFNotFound : Z := -1.

(** ** The memory allocator

    The C code obtains storage from a [CFAllocator] or from [malloc].  The
    components are proved against this interface: a request may fail, and
    otherwise yields a buffer of the requested size with unspecified bytes. *)
Class Allocator := {
  alloc : Z → option (list Z);
  instance_ok : Z → bool;
  alloc_len n b : alloc n = Some b → 0 ≤ n → zlen b = n;
  alloc_bytes n b : alloc n = Some b → Forall is_byte b;
}.

(** [CFAllocatorReallocate]: the old contents, cut or extended to [n] bytes. *)
Definition realloc `{Allocator} (old : list Z) (n : Z) : option (list Z) :=
  b ← alloc n;
  Some (take (Z.to_nat n) old ++ drop (length old) b).

(** An allocator that never fails and hands out bytes of a fixed value. *)
#[export] Program Instance fill_allocator (junk : Z) (Hj : is_byte junk) : Allocator := {|
  alloc n := Some (replicate (Z.to_nat n) junk);
  instance_ok _ := true;
|}.
Next Obligation. intros junk Hj n b [= <-] ?. unfold zlen. rewrite length_replicate. lia. Qed.
Next Obligation. intros junk Hj n b [= <-]. by apply Forall_replicate. Qed.

(** ** Tactics *)

Ltac zbool :=
  repeat match goal with
  | H : (_ <? _) = true |- _ => apply Z.ltb_lt in H
  | H : (_ <? _) = false |- _ => apply Z.ltb_ge in H
  | H : (_ <=? _) = true |- _ => apply Z.leb_le in H
  | H : (_ <=? _) = false |- _ => apply Z.leb_gt in H
  | H : (_ =? _) = true |- _ => apply Z.eqb_eq in H
  | H : (_ =? _) = false |- _ => apply Z.eqb_neq in H
  | H : (_ && _)%bool = true |- _ => apply andb_true_iff in H as [? ?]
  | H : (_ || _)%bool = false |- _ => apply orb_false_iff in H as [? ?]
  | H : negb _ = true |- _ => apply negb_true_iff in H
  | H : negb _ = false |- _ => apply negb_false_iff in H
  end.

(** Case analysis on the comparisons of the goal, closing what [lia] can. *)
Ltac zcases :=
  repeat match goal with
  | |- context [?a <? ?b] => destruct (Z.ltb_spec a b)
  | |- context [?a <=? ?b] => destruct (Z.leb_spec a b)
  | |- context [?a =? ?b] => destruct (Z.eqb_spec a b)
  end; cbn [andb orb negb]; try lia.

(** Prove a decidable proposition by evaluating it. *)
Ltac by_decide := apply (bool_decide_unpack _); vm_compute; exact I.

(** [lia] with quotients and remainders turned into equations. *)
Ltac zdiv := Z.to_euclidean_division_equations; lia.

(** ** Bounded case analysis: prove a claim for every integer of [lo, hi) by
    evaluating a boolean on each. *)
Lemma forall_range (f : Z → bool) lo hi :
  forallb f (seqZ lo (hi - lo)) = true → ∀ i, lo ≤ i < hi → f i = true.
Proof.
  intros Hf i Hi. rewrite forallb_forall in Hf. apply Hf.
  apply list_elem_of_In, elem_of_seqZ. lia.
Qed.

(** ** Lemmas on buffers *)
Section buffers.
Context {A : Type}.
Implicit Types (l : list A) (i : Z).

Lemma zlen_nonneg l : 0 ≤ zlen l.
Proof. unfold zlen. lia. Qed.
Lemma zlen_nil : zlen (@nil A) = 0.
Proof. done. Qed.
Lemma zlen_cons x l : zlen (x :: l) = zlen l + 1.
Proof. unfold zlen. cbn [length]. lia. Qed.
Lemma zlen_app l1 l2 : zlen (l1 ++ l2) = zlen l1 + zlen l2.
Proof. unfold zlen. rewrite length_app. lia. Qed.

Lemma zget_Some l i x : l.[i] = Some x → 0 ≤ i < zlen l.
Proof.
  unfold zget, zlen. case_decide; [|done]. intros ?%lookup_lt_Some. lia.
Qed.
Lemma zget_is_Some l i : 0 ≤ i < zlen l → ∃ x, l.[i] = Some x.
Proof.
  unfold zget, zlen. intros. rewrite decide_True by lia.
  apply lookup_lt_is_Some. lia.
Qed.
Lemma zget_None l i : l.[i] = None ↔ ¬ (0 ≤ i < zlen l).
Proof.
  unfold zget, zlen. case_decide.
  - rewrite lookup_ge_None. lia.
  - split; [lia | done].
Qed.
Lemma zget_app_l l1 l2 i : i < zlen l1 → (l1 ++ l2).[i] = l1.[i].
Proof. unfold zget, zlen. case_decide; [|done]. intros. rewrite lookup_app_l; [done|lia]. Qed.
Lemma zget_app_r l1 l2 i : zlen l1 ≤ i → (l1 ++ l2).[i] = l2.[i - zlen l1].
Proof.
  unfold zget, zlen. intros. rewrite !decide_True by lia.
  rewrite lookup_app_r by lia. f_equal. lia.
Qed.
Lemma zget_take l n i : i < Z.of_nat n → (take n l).[i] = l.[i].
Proof. unfold zget. intros. case_decide as E; [|done]. apply lookup_take_lt. lia. Qed.
Lemma zget_drop l n i : 0 ≤ i → (drop n l).[i] = l.[Z.of_nat n + i].
Proof.
  unfold zget. intros. rewrite !decide_True by lia. rewrite lookup_drop. f_equal. lia.
Qed.
Lemma zlen_take l n : zlen (take n l) = Z.min (Z.of_nat n) (zlen l).
Proof. unfold zlen. rewrite length_take. lia. Qed.
Lemma zlen_drop l n : zlen (drop n l) = Z.max 0 (zlen l - Z.of_nat n).
Proof. unfold zlen. rewrite length_drop. lia. Qed.
Lemma zlen_replicate n (x : A) : zlen (replicate n x) = Z.of_nat n.
Proof. unfold zlen. by rewrite length_replicate. Qed.

Lemma zset_ok l i x : 0 ≤ i < zlen l → l.[i := x] = Some (zupd l i x).
Proof. intros. unfold zset. by rewrite decide_True. Qed.
Lemma zlen_zupd l i x : zlen (zupd l i x) = zlen l.
Proof. unfold zlen, zupd. by rewrite length_insert. Qed.
Lemma zget_zupd l i j x :
  0 ≤ i < zlen l → (zupd l i x).[j] = if decide (j = i) then Some x else l.[j].
Proof.
  unfold zget, zupd, zlen. intros. case_decide.
  - case_decide as E.
    + subst. rewrite list_lookup_insert_eq; [done|lia].
    + rewrite list_lookup_insert_ne; [done|lia].
  - rewrite decide_False; [done|lia].
Qed.
Lemma zupd_id l i x : l.[i] = Some x → zupd l i x = l.
Proof. unfold zget, zupd. case_decide; [|done]. apply list_insert_id. Qed.

Lemma zget_ext l1 l2 :
  zlen l1 = zlen l2 → (∀ i, 0 ≤ i < zlen l1 → l1.[i] = l2.[i]) → l1 = l2.
Proof.
  intros Hlen H. eapply (list_eq_same_length l1 l2 (length l1)); [unfold zlen in Hlen; lia..|].
  - intros i x y Hi Hx Hy. specialize (H (Z.of_nat i)). unfold zget, zlen in H.
    rewrite !decide_True, Nat2Z.id in H by lia. rewrite H in Hx by lia. congruence.
Qed.

Lemma Forall_zget (P : A → Prop) l : Forall P l ↔ ∀ i x, l.[i] = Some x → P x.
Proof.
  rewrite Forall_lookup. split.
  - intros H i x. unfold zget. case_decide; [|done]. apply H.
  - intros H i x Hi. apply (H (Z.of_nat i)). unfold zget.
    rewrite decide_True by lia. by rewrite Nat2Z.id.
Qed.
Lemma Forall_zupd (P : A → Prop) l i x : Forall P l → P x → Forall P (zupd l i x).
Proof. intros. unfold zupd. by apply Forall_insert. Qed.
Lemma zsub_app l1 l2 l3 : zsub (l1 ++ l2 ++ l3) (zlen l1) (zlen l2) = Some l2.
Proof.
  pose proof (zlen_nonneg l1). pose proof (zlen_nonneg l2). pose proof (zlen_nonneg l3).
  unfold zsub. rewrite decide_True by (rewrite !zlen_app; lia). unfold zlen.
  by rewrite !Nat2Z.id, drop_app_length, take_app_length.
Qed.
Lemma zget_middle l x l2 : (l ++ x :: l2).[zlen l] = Some x.
Proof. rewrite zget_app_r, Z.sub_diag by lia. done. Qed.
Lemma zset_middle l x l2 y : (l ++ x :: l2).[zlen l := y] = Some (l ++ y :: l2).
Proof.
  pose proof (zlen_nonneg l). pose proof (zlen_nonneg l2).
  rewrite zset_ok by (rewrite zlen_app, zlen_cons; lia). unfold zupd, zlen.
  rewrite Nat2Z.id. f_equal. by rewrite insert_app_r_alt, Nat.sub_diag by lia.
Qed.
End buffers.

Lemma zget_split {A} (l : list A) i x : l.[i] = Some x →
  ∃ l1 l2, l = l1 ++ x :: l2 ∧ zlen l1 = i ∧ ∀ y, zupd l i y = l1 ++ y :: l2.
Proof.
  intros Hi. pose proof (zget_Some _ _ _ Hi) as Hr. unfold zget in Hi.
  rewrite decide_True in Hi by lia.
  destruct (list_elem_of_split_length l (Z.to_nat i) x Hi) as (l1 & l2 & -> & Hl).
  exists l1, l2. split; [done|]. split; [unfold zlen; lia|].
  intros y. unfold zupd. by rewrite Hl, insert_app_r_alt, Nat.sub_diag by lia.
Qed.

Lemma zget_fmap {A B} (f : A → B) l i : (f <$> l).[i] = f <$> l.[i].
Proof. unfold zget. case_decide; [apply list_lookup_fmap|done]. Qed.

Lemma zupd_fmap {A B} (f : A → B) l i x : zupd (f <$> l) i (f x) = f <$> zupd l i x.
Proof. unfold zupd. symmetry. apply list_fmap_insert. Qed.

Lemma zlen_fmap {A B} (f : A → B) l : zlen (f <$> l) = zlen l.
Proof. unfold zlen. by rewrite length_fmap. Qed.

Lemma zget_cons_S {A} (x : A) l b : 0 ≤ b → (x :: l).[b + 1] = l.[b].
Proof.
  intros Hb. unfold zget. rewrite !decide_True by lia.
  by replace (Z.to_nat (b + 1)) with (S (Z.to_nat b)) by lia.
Qed.

Create Rewrite HintDb zlen.
#[export] Hint Rewrite @zlen_zupd @zlen_app @zlen_cons @zlen_take @zlen_drop
  @zlen_replicate @zlen_nil : zlen.

(** ** Bits of bytes *)

Lemma u8_byte x : is_byte (u8 x).
Proof. unfold u8, is_byte. apply (Z.mod_pos_bound x (2 ^ 8)). lia. Qed.

Lemma u8_id x : is_byte x → u8 x = x.
Proof. unfold u8, is_byte. intros. apply Z.mod_small. lia. Qed.

Lemma testbit_u8 x k : 0 ≤ k → Z.testbit (u8 x) k = (k <? 8) && Z.testbit x k.
Proof.
  intros. unfold u8. destruct (Z.ltb_spec k 8).
  - rewrite Z.mod_pow2_bits_low by lia. done.
  - rewrite Z.mod_pow2_bits_high by lia. done.
Qed.

Lemma byte_testbit_high v k : is_byte v → 8 ≤ k → Z.testbit v k = false.
Proof.
  intros Hv Hk. rewrite <- (u8_id v Hv), testbit_u8 by lia. zcases.
Qed.

Lemma byte_ext v w :
  is_byte v → is_byte w → (∀ k, 0 ≤ k < 8 → Z.testbit v k = Z.testbit w k) → v = w.
Proof.
  intros Hv Hw H. apply Z.bits_inj'. intros k Hk. destruct (decide (k < 8)).
  - apply H. lia.
  - rewrite !byte_testbit_high by (done || lia). done.
Qed.

Lemma land_7 x : 0 ≤ x → Z.land x 7 = x mod 8.
Proof. intros. change 7 with (Z.ones 3). by rewrite Z.land_ones by lia. Qed.

(** Counting the integers of [lo, lo + n) that satisfy a boolean. *)
Fixpoint zcount (f : Z → bool) (lo : Z) (n : nat) : Z :=
  match n with
  | O => 0
  | S n => Z.b2z (f lo) + zcount f (lo + 1) n
  end.

Lemma zcount_app f lo n m : zcount f lo (n + m) = zcount f lo n + zcount f (lo + Z.of_nat n) m.
Proof.
  revert lo. induction n as [|n IH]; intros lo; cbn [zcount Nat.add].
  - by rewrite Z.add_0_r.
  - rewrite IH, Nat2Z.inj_succ. replace (lo + 1 + Z.of_nat n) with (lo + Z.succ (Z.of_nat n)) by lia. lia.
Qed.

Lemma zcount_ext f g lo n :
  (∀ i, lo ≤ i < lo + Z.of_nat n → f i = g i) → zcount f lo n = zcount g lo n.
Proof.
  revert lo. induction n as [|n IH]; intros lo H; cbn [zcount]; [done|].
  rewrite (H lo) by lia. rewrite (IH (lo + 1)); [done|]. intros. apply H. lia.
Qed.

Lemma zcount_false f lo n : (∀ i, lo ≤ i < lo + Z.of_nat n → f i = false) → zcount f lo n = 0.
Proof.
  revert lo. induction n as [|n IH]; intros lo H; cbn [zcount]; [done|].
  rewrite (H lo) by lia. rewrite (IH (lo + 1)); [done|]. intros. apply H. lia.
Qed.

(** The integers of [lo, lo + n) that lie in [p, q). *)
Lemma zcount_window f lo n p q :
  lo ≤ p ≤ q → q ≤ lo + Z.of_nat n →
  zcount (λ i, (p <=? i) && (i <? q) && f i) lo n = zcount f p (Z.to_nat (q - p)).
Proof.
  intros Hp Hq.
  replace n with (Z.to_nat (p - lo) + (Z.to_nat (q - p) + Z.to_nat (lo + Z.of_nat n - q)))%nat by lia.
  rewrite !zcount_app.
  rewrite (zcount_false _ lo), (zcount_false _ (_ + _ + _)).
  - rewrite Z.add_0_r, Z.add_0_l. replace (lo + Z.of_nat (Z.to_nat (p - lo))) with p by lia.
    apply zcount_ext. intros i Hi. zcases. done.
  - intros i Hi. zcases.
  - intros i Hi. zcases.
Qed.

Lemma zcount_range f lo n : 0 ≤ zcount f lo n ≤ Z.of_nat n.
Proof.
  revert lo. induction n as [|n IH]; intros lo; cbn [zcount]; [lia|].
  specialize (IH (lo + 1)). destruct (f lo); cbn; lia.
Qed.

Lemma zcount_0 f lo n : zcount f lo n = 0 ↔ ∀ i, lo ≤ i < lo + Z.of_nat n → f i = false.
Proof.
  split; [|apply zcount_false]. revert lo. induction n as [|n IH]; intros lo; cbn [zcount]; [lia|].
  pose proof (zcount_range f (lo + 1) n). destruct (f lo) eqn:E; cbn; [lia|]. intros H0 i Hi.
  destruct (decide (i = lo)) as [->|]; [done|]. apply (IH (lo + 1)); lia.
Qed.

(** The threads of a system after a step of one of them. *)
Lemma lookup_step {A} (l : list A) i x y j : l !! i = Some x → <[i := y]> l !! j = if decide (j = i) then Some y else l !! j.
Proof.
  intros Hi. case_decide as E; [subst; by eapply list_lookup_insert_eq, lookup_lt_Some|by apply list_lookup_insert_ne].
Qed.

Lemma lookup_step_eq {A} (l : list A) i x y : l !! i = Some x → <[i := y]> l !! i = Some y.
Proof. intros Hi. by rewrite (lookup_step l i x y i Hi), decide_True. Qed.

(** ** Sums over the threads of a system *)
Section sums.
Context {A : Type}.
Implicit Types (l : list A) (f : A → Z).

Fixpoint zsum f l : Z := match l with [] => 0 | x :: l => f x + zsum f l end.

Lemma zsum_insert f l i x y :
  l !! i = Some x → zsum f (<[i := y]> l) = zsum f l - f x + f y.
Proof.
  revert i. induction l as [|z l IH]; intros [|i] Hi; try discriminate.
  - injection Hi as ->. cbn. lia.
  - change (<[S i := y]> (z :: l)) with (z :: <[i := y]> l). cbn [zsum]. rewrite (IH i Hi). lia.
Qed.
Lemma zsum_nonneg f l : (∀ x, 0 ≤ f x) → 0 ≤ zsum f l.
Proof. intros Hf. induction l as [|x l IH]; cbn; [done|]. specialize (Hf x). lia. Qed.
Lemma zsum_elem f l i x : (∀ x, 0 ≤ f x) → l !! i = Some x → f x ≤ zsum f l.
Proof.
  intros Hf. revert i. induction l as [|z l IH]; intros [|i] Hi; try discriminate; cbn in Hi |- *.
  - injection Hi as ->. pose proof (zsum_nonneg f l Hf). lia.
  - specialize (IH i Hi). specialize (Hf z). lia.
Qed.
Lemma zsum_le_len f l : (∀ x, f x ≤ 1) → zsum f l ≤ zlen l.
Proof.
  intros Hf. induction l as [|x l IH]; [done|]. rewrite zlen_cons. cbn. specialize (Hf x).
  lia.
Qed.
Lemma zsum_le f g l : (∀ x, f x ≤ g x) → zsum f l ≤ zsum g l.
Proof. intros Hf. induction l as [|x l IH]; cbn; [done|]. specialize (Hf x). lia. Qed.
Lemma zsum_0 f l : (∀ i x, l !! i = Some x → f x = 0) → zsum f l = 0.
Proof.
  induction l as [|x l IH]; intros Hf; [done|]. cbn. rewrite (Hf 0%nat x) by done.
  apply IH. intros i. apply (Hf (S i)).
Qed.
Lemma zsum_pos f l : 0 < zsum f l → ∃ i x, l !! i = Some x ∧ 0 < f x.
Proof.
  induction l as [|x l IH]; cbn; [lia|]. intros H. destruct (Z.ltb_spec 0 (f x)).
  - by exists 0%nat, x.
  - destruct IH as (i & y & Hi & Hy); [lia|]. by exists (S i), y.
Qed.
End sums.

(** Conversion to a signed type of [n] bits. *)
Definition sint (n x : Z) : Z := (x + 2 ^ (n - 1)) mod 2 ^ n - 2 ^ (n - 1).
Lemma sint_id n x : 0 < n → - 2 ^ (n - 1) ≤ x < 2 ^ (n - 1) → sint n x = x.
Proof.
  intros Hn Hx. unfold sint.
  assert (2 ^ n = 2 * 2 ^ (n - 1)) by (rewrite <- Z.pow_succ_r by lia; f_equal; lia).
  rewrite Z.mod_small by lia. lia.
Qed.

(** ** Systems of threads: partial functions that do one action *)
Section systems.
Context {A S : Type} (act : A → S → option S).

Definition steps_to (st st' : S) : Prop := ∃ a, act a st = Some st'.

(** A given interleaving. *)
Fixpoint run (acts : list A) (st : S) : option S :=
  match acts with [] => Some st | a :: acts => st ← act a st; run acts st end.

Lemma run_reaches acts st st' : run acts st = Some st' → rtc steps_to st st'.
Proof.
  revert st. induction acts as [|a acts IH]; intros st; cbn; [by intros [= ->]|].
  destruct (act a st) as [st1|] eqn:Ha; [|done]. intros Hr. eapply rtc_l; [by exists a|by apply IH].
Qed.

(** A predicate that every action keeps holds in every reachable state. *)
Lemma steps_invariant (P : S → Prop) st st' :
  (∀ a st1 st2, P st1 → act a st1 = Some st2 → P st2) → P st → rtc steps_to st st' → P st'.
Proof. intros Hstep Hst Hr. induction Hr as [|x y z [a Ha] _ IH]; [done|]. by apply IH, (Hstep a x). Qed.
End systems.

(** ** Times of libdispatch

    Any [dispatch_time_t] other than the two constants is [DISPATCH_TIME_AT]. *)
Inductive dispatch_time_t := DISPATCH_TIME_NOW | DISPATCH_TIME_FOREVER | DISPATCH_TIME_AT.
