(* ===== verification/BitVector.v ===== *)
(** * CFBitVector (SourceCode/CFRunLoopRef/CFBitVector.c)

    A growable vector of bits packed into bytes, bit 0 being the most
    significant bit of byte 0.  The state is the record [CFBitVector]; every
    operation is a function on it in the option monad, [None] standing for an
    access outside the allocated buckets (or the explicit [HALT]).  The
    abstract view is [bits]: the list of the first [_count] booleans. *)
From S2P Require Import Prelude.
Open Scope Z_scope.

Definition __CF_BITS_PER_BYTE : Z := 8.
Definition __CF_BITS_PER_BYTE_MASK : Z := 0x07.
Definition __CF_BITS_PER_BUCKET : Z := 8.
Definition __CF_BITS_PER_BUCKET_MASK : Z := 0x07.

Definition __CFBitVectorRoundUpCapacity (capacity : Z) : Z :=
  let capacity := if 0 =? capacity then 1 else capacity in
  ((capacity + 63) ÷ 64) * 64.

Definition __CFBitVectorNumBucketsForCapacity (capacity : Z) : Z :=
  capacity ÷ __CF_BITS_PER_BUCKET
  + (if Z.land capacity __CF_BITS_PER_BUCKET_MASK =? 0 then 0 else 1).

Inductive variety := kCFBitVectorImmutable | kCFBitVectorMutable.

Record CFBitVector := {
  _count : Z;
  _capacity : Z;
  _buckets : list Z;
  _variety : variety;
}.

Definition __CFBitVectorSetCount (bv : CFBitVector) (v : Z) : CFBitVector :=
  {| _count := v; _capacity := _capacity bv; _buckets := _buckets bv; _variety := _variety bv |}.
Definition __CFBitVectorSetCapacity (bv : CFBitVector) (v : Z) : CFBitVector :=
  {| _count := _count bv; _capacity := v; _buckets := _buckets bv; _variety := _variety bv |}.
Definition set_buckets (bv : CFBitVector) (b : list Z) : CFBitVector :=
  {| _count := _count bv; _capacity := _capacity bv; _buckets := b; _variety := _variety bv |}.

Definition __CFBitVectorNumBuckets (bv : CFBitVector) : Z :=
  _capacity bv ÷ __CF_BITS_PER_BUCKET + 1.

Definition __CFBitBucketMask (bottomBit topBit : Z) : Z :=
  let shiftL := __CF_BITS_PER_BUCKET - topBit + bottomBit - 1 in
  let result := u8 (Z.lnot 0) in
  let result := u8 (Z.shiftl result shiftL) in
  u8 (Z.shiftr result bottomBit).

Definition __CFBitVectorBit (buckets : list Z) (idx : Z) : option Z :=
  let bucketIdx := idx ÷ __CF_BITS_PER_BUCKET in
  let bitOfBucket := Z.land idx (__CF_BITS_PER_BUCKET - 1) in
  b ← buckets.[bucketIdx];
  Some (Z.land (Z.shiftr b (__CF_BITS_PER_BUCKET - 1 - bitOfBucket)) 0x1).

Definition __CFSetBitVectorBit (buckets : list Z) (idx value : Z) : option (list Z) :=
  let bucketIdx := idx ÷ __CF_BITS_PER_BUCKET in
  let bitOfBucket := Z.land idx (__CF_BITS_PER_BUCKET - 1) in
  let one := Z.shiftl 1 (__CF_BITS_PER_BUCKET - 1 - bitOfBucket) in
  b ← buckets.[bucketIdx];
  buckets.[bucketIdx := u8 (if value =? 0 then Z.land b (Z.lnot one) else Z.lor b one)].

Definition __CFFlipBitVectorBit (buckets : list Z) (idx : Z) : option (list Z) :=
  let bucketIdx := idx ÷ __CF_BITS_PER_BUCKET in
  let bitOfBucket := Z.land idx (__CF_BITS_PER_BUCKET - 1) in
  b ← buckets.[bucketIdx];
  buckets.[bucketIdx :=
    u8 (Z.lxor b (Z.shiftl 1 (__CF_BITS_PER_BUCKET - 1 - bitOfBucket)))].

(** [for (idx = 0; idx < (cnt / 8) + 1; idx++)], [n] iterations left. *)
Fixpoint equal_loop (b1 b2 : list Z) (idx : Z) (n : nat) : option bool :=
  match n with
  | O => Some true
  | S n =>
      val1 ← b1.[idx]; val2 ← b2.[idx];
      if val1 =? val2 then equal_loop b1 b2 (idx + 1) n else Some false
  end.

Definition __CFBitVectorEqual (bv1 bv2 : CFBitVector) : option bool :=
  let cnt := _count bv1 in
  if negb (cnt =? _count bv2) then Some false
  else if 0 =? cnt then Some true
  else equal_loop (_buckets bv1) (_buckets bv2) 0
         (Z.to_nat (cnt ÷ __CF_BITS_PER_BUCKET + 1)).

Definition __CFBitVectorHash (bv : CFBitVector) : Z := _count bv.

(** [__CFBitVectorInternalMap]: the mapper receives the bucket's value, the
    mask of the bits concerned and a context, and gives the new value. *)
Section InternalMap.
Context {C : Type} (mapper : Z → Z → C → option (Z * C)).

(** One bucket of which only the bits of the mask change. *)
Definition map_masked (bs : list Z) (bucketIdx bucketValMask : Z) (context : C)
    : option (list Z * C) :=
  v ← bs.[bucketIdx];
  '(newBucketVal, context) ← mapper v bucketValMask context;
  bs ← bs.[bucketIdx :=
    u8 (Z.lor (Z.land v (Z.lnot bucketValMask)) (Z.land newBucketVal bucketValMask))];
  Some (bs, context).

(** [while (nBuckets--)]: whole buckets. *)
Fixpoint map_whole (bs : list Z) (bucketIdx : Z) (context : C) (nBuckets : nat)
    : option (list Z * Z * C) :=
  match nBuckets with
  | O => Some (bs, bucketIdx, context)
  | S n =>
      v ← bs.[bucketIdx];
      '(newBucketVal, context) ← mapper v (u8 (Z.lnot 0)) context;
      bs ← bs.[bucketIdx := newBucketVal];
      map_whole bs (bucketIdx + 1) context n
  end.

Definition __CFBitVectorInternalMap (bs : list Z) (range : CFRange) (context : C)
    : option (list Z * C) :=
  if 0 =? range_length range then Some (bs, context) else
  let bucketIdx := location range ÷ __CF_BITS_PER_BUCKET in
  let bitOfBucket := Z.land (location range) (__CF_BITS_PER_BUCKET - 1) in
  let '(bucketValMask, len) :=
    if bitOfBucket + range_length range <? __CF_BITS_PER_BUCKET
    then (__CFBitBucketMask bitOfBucket (bitOfBucket + range_length range - 1), 0)
    else (__CFBitBucketMask bitOfBucket (__CF_BITS_PER_BUCKET - 1),
          range_length range - (__CF_BITS_PER_BUCKET - bitOfBucket)) in
  '(bs, context) ← map_masked bs bucketIdx bucketValMask context;
  let bucketIdx := bucketIdx + 1 in
  let nBuckets := len ÷ __CF_BITS_PER_BUCKET in
  let len := len - nBuckets * __CF_BITS_PER_BUCKET in
  '(bs, bucketIdx, context) ← map_whole bs bucketIdx context (Z.to_nat nBuckets);
  if negb (0 =? len)
  then map_masked bs bucketIdx (__CFBitBucketMask 0 (len - 1)) context
  else Some (bs, context).
End InternalMap.

Record occursContext := { oc_value : Z; oc_count : Z }.

Definition __CFNibbleBitCount : list Z := [0; 1; 1; 2; 1; 2; 2; 3; 1; 2; 2; 3; 2; 3; 3; 4].

Fixpoint nibble_loop (n : nat) (val count : Z) : option Z :=
  match n with
  | O => Some count
  | S n => k ← __CFNibbleBitCount.[Z.land val 0xF]; nibble_loop n (Z.shiftr val 4) (count + k)
  end.

Definition __CFBitVectorCountBits (bucketValue bucketValueMask : Z) (context : occursContext)
    : option (Z * occursContext) :=
  let val := if negb (oc_value context =? 0)
             then u8 (Z.land bucketValue bucketValueMask)
             else u8 (Z.land (Z.lnot bucketValue) bucketValueMask) in
  count ← nibble_loop 2 val (oc_count context);
  Some (bucketValue, {| oc_value := oc_value context; oc_count := count |}).

Definition CFBitVectorGetCountOfBit (bv : CFBitVector) (range : CFRange) (value : Z) : option Z :=
  if 0 =? range_length range then Some 0 else
  '(_, context) ← __CFBitVectorInternalMap __CFBitVectorCountBits (_buckets bv) range
                    {| oc_value := value; oc_count := 0 |};
  Some (oc_count context).

Definition CFBitVectorContainsBit (bv : CFBitVector) (range : CFRange) (value : Z) : option bool :=
  n ← CFBitVectorGetCountOfBit bv range value;
  Some (negb (n =? 0)).

Definition CFBitVectorGetBitAtIndex (bv : CFBitVector) (idx : Z) : option Z :=
  __CFBitVectorBit (_buckets bv) idx.

Definition CFBitVectorGetCount (bv : CFBitVector) : Z := _count bv.

(** [CFBitVectorGetBits]: [curByte] is an index into the caller's buffer. *)
Record getBitsContext := {
  gb_bytes : list Z;
  gb_curByte : Z;
  gb_initBits : Z;
  gb_totalBits : Z;
  gb_ignoreFirstInitBits : bool;
}.

Definition getBitsContext_step (ctx : getBitsContext) (bytes : list Z)
    (curByte totalBits : Z) (ignore : bool) : getBitsContext :=
  {| gb_bytes := bytes; gb_curByte := curByte; gb_initBits := gb_initBits ctx;
     gb_totalBits := totalBits; gb_ignoreFirstInitBits := ignore |}.

(** [while (__CF_BITS_PER_BYTE <= nBits)] *)
Fixpoint getBits_loop (n : nat) (val nBits : Z) (ctx : getBitsContext)
    : option (Z * Z * getBitsContext) :=
  match n with
  | O => Some (val, nBits, ctx)
  | S n =>
      bytes ← (gb_bytes ctx).[gb_curByte ctx :=
        u8 (Z.shiftr val (__CF_BITS_PER_BUCKET - __CF_BITS_PER_BYTE))];
      getBits_loop n 0 (nBits - __CF_BITS_PER_BYTE)
        (getBitsContext_step ctx bytes (gb_curByte ctx + 1)
           (gb_totalBits ctx - gb_initBits ctx) (gb_ignoreFirstInitBits ctx))
  end.

Definition __CFBitVectorGetBits (bucketValue bucketValueMask : Z) (context : getBitsContext)
    : option (Z * getBitsContext) :=
  let val := u8 (Z.land bucketValue bucketValueMask) in
  let nBits := Z.min (__CF_BITS_PER_BUCKET - gb_initBits context) (gb_totalBits context) in
  '(val, context) ←
    (if 0 <? gb_initBits context then
       context ←
         (if negb (gb_ignoreFirstInitBits context) then
            b ← (gb_bytes context).[gb_curByte context];
            bytes ← (gb_bytes context).[gb_curByte context :=
              u8 (Z.lor b (u8 (Z.shiftr val (__CF_BITS_PER_BUCKET - gb_initBits context))))];
            Some (getBitsContext_step context bytes (gb_curByte context + 1)
                    (gb_totalBits context - gb_initBits context) false)
          else Some context);
       Some (u8 (Z.shiftl val (gb_initBits context)), context)
     else Some (val, context));
  '(val, nBits, context) ← getBits_loop (Z.to_nat (nBits ÷ __CF_BITS_PER_BYTE)) val nBits context;
  context ←
    (if 0 <? nBits then
       bytes ← (gb_bytes context).[gb_curByte context :=
         u8 (Z.shiftr val (__CF_BITS_PER_BUCKET - __CF_BITS_PER_BYTE))];
       Some (getBitsContext_step context bytes (gb_curByte context)
               (gb_totalBits context - nBits) (gb_ignoreFirstInitBits context))
     else Some context);
  Some (bucketValue, context).

Definition CFBitVectorGetBits (bv : CFBitVector) (range : CFRange) (bytes : list Z)
    : option (list Z) :=
  if 0 =? range_length range then Some bytes else
  '(_, context) ← __CFBitVectorInternalMap __CFBitVectorGetBits (_buckets bv) range
    {| gb_bytes := bytes; gb_curByte := 0;
       gb_initBits := Z.land (location range) (__CF_BITS_PER_BUCKET - 1);
       gb_totalBits := range_length range; gb_ignoreFirstInitBits := true |};
  Some (gb_bytes context).

Fixpoint first_index_loop (bv : CFBitVector) (loc value idx : Z) (n : nat) : option Z :=
  match n with
  | O => Some kCFNotFound
  | S n =>
      b ← CFBitVectorGetBitAtIndex bv (loc + idx);
      if value =? b then Some (loc + idx) else first_index_loop bv loc value (idx + 1) n
  end.

Definition CFBitVectorGetFirstIndexOfBit (bv : CFBitVector) (range : CFRange) (value : Z)
    : option Z :=
  first_index_loop bv (location range) value 0 (Z.to_nat (range_length range)).

(** [for (idx = range.length; idx--;)]: the body sees [idx - 1]. *)
Fixpoint last_index_loop (bv : CFBitVector) (loc value : Z) (n : nat) : option Z :=
  match n with
  | O => Some kCFNotFound
  | S n =>
      b ← CFBitVectorGetBitAtIndex bv (loc + Z.of_nat n);
      if value =? b then Some (loc + Z.of_nat n) else last_index_loop bv loc value n
  end.

Definition CFBitVectorGetLastIndexOfBit (bv : CFBitVector) (range : CFRange) (value : Z)
    : option Z :=
  last_index_loop bv (location range) value (Z.to_nat (range_length range)).

Definition __CFBitVectorZeroBits (bucketValue bucketValueMask : Z) (context : unit)
    : option (Z * unit) := Some (0, context).
Definition __CFBitVectorOneBits (bucketValue bucketValueMask : Z) (context : unit)
    : option (Z * unit) := Some (u8 (Z.lnot 0), context).
Definition __CFBitVectorFlipBits (bucketValue bucketValueMask : Z) (context : unit)
    : option (Z * unit) := Some (u8 (Z.lxor (u8 (Z.lnot 0)) bucketValue), context).

Definition map_range (bv : CFBitVector) (range : CFRange)
    (mapper : Z → Z → unit → option (Z * unit)) : option CFBitVector :=
  '(b, _) ← __CFBitVectorInternalMap mapper (_buckets bv) range tt;
  Some (set_buckets bv b).

Definition CFBitVectorFlipBitAtIndex (bv : CFBitVector) (idx : Z) : option CFBitVector :=
  b ← __CFFlipBitVectorBit (_buckets bv) idx; Some (set_buckets bv b).

Definition CFBitVectorFlipBits (bv : CFBitVector) (range : CFRange) : option CFBitVector :=
  if 0 =? range_length range then Some bv else map_range bv range __CFBitVectorFlipBits.

Definition CFBitVectorSetBitAtIndex (bv : CFBitVector) (idx value : Z) : option CFBitVector :=
  b ← __CFSetBitVectorBit (_buckets bv) idx value; Some (set_buckets bv b).

Definition CFBitVectorSetBits (bv : CFBitVector) (range : CFRange) (value : Z)
    : option CFBitVector :=
  if 0 =? range_length range then Some bv
  else if negb (value =? 0) then map_range bv range __CFBitVectorOneBits
  else map_range bv range __CFBitVectorZeroBits.

Definition CFBitVectorSetAllBits (bv : CFBitVector) (value : Z) : option CFBitVector :=
  let nBuckets := _count bv ÷ __CF_BITS_PER_BUCKET in
  let leftover := _count bv - nBuckets * __CF_BITS_PER_BUCKET in
  bv ← (if 0 <? leftover then
          let range := CFRangeMake (nBuckets * __CF_BITS_PER_BUCKET) leftover in
          if negb (value =? 0) then map_range bv range __CFBitVectorOneBits
          else map_range bv range __CFBitVectorZeroBits
        else Some bv);
  b ← zwrite (_buckets bv) 0
        (replicate (Z.to_nat nBuckets) (u8 (if negb (value =? 0) then Z.lnot 0 else 0)));
  Some (set_buckets bv b).

Section allocating.
Context `{Allocator}.

(** [Some None] is the [NULL] result of a failed allocation. *)
Definition __CFBitVectorInit (flags : variety) (capacity : Z) (bytes : option (list Z))
    (numBits : Z) : option (option CFBitVector) :=
  if negb (instance_ok 24) then Some None else
  let cap := __CFBitVectorRoundUpCapacity numBits in
  let memory := {| _count := 0; _capacity := cap; _buckets := []; _variety := flags |} in
  match alloc (__CFBitVectorNumBuckets memory) with
  | None => Some None
  | Some b =>
      let b := replicate (Z.to_nat (__CFBitVectorNumBuckets memory)) 0 in
      b ← (match bytes with
           | Some bytes =>
               src ← zsub bytes 0 (numBits ÷ __CF_BITS_PER_BYTE
                       + (if Z.land numBits __CF_BITS_PER_BYTE_MASK =? 0 then 0 else 1));
               zwrite b 0 src
           | None => Some b
           end);
      Some (Some {| _count := numBits; _capacity := cap; _buckets := b; _variety := flags |})
  end.

Definition CFBitVectorCreate (bytes : option (list Z)) (numBits : Z) :=
  __CFBitVectorInit kCFBitVectorImmutable numBits bytes numBits.

Definition CFBitVectorCreateMutable (capacity : Z) :=
  __CFBitVectorInit kCFBitVectorMutable capacity None 0.

Definition CFBitVectorCreateCopy (bv : CFBitVector) :=
  __CFBitVectorInit kCFBitVectorImmutable (_count bv) (Some (_buckets bv)) (_count bv).

Definition CFBitVectorCreateMutableCopy (capacity : Z) (bv : CFBitVector) :=
  __CFBitVectorInit kCFBitVectorMutable capacity (Some (_buckets bv)) (_count bv).

Definition __CFBitVectorGrow (bv : CFBitVector) (numNewValues : Z) : option CFBitVector :=
  let oldCount := _count bv in
  let capacity := __CFBitVectorRoundUpCapacity (oldCount + numNewValues) in
  let bv := __CFBitVectorSetCapacity bv capacity in
  b ← realloc (_buckets bv) (__CFBitVectorNumBuckets bv);
  Some (set_buckets bv b).

Definition CFBitVectorSetCount (bv : CFBitVector) (count : Z) : option CFBitVector :=
  let cnt := _count bv in
  bv ← match _variety bv with
       | kCFBitVectorMutable =>
           if cnt <? count then __CFBitVectorGrow bv (count - cnt) else Some bv
       | kCFBitVectorImmutable => Some bv
       end;
  bv ← (if cnt <? count
        then map_range bv (CFRangeMake cnt (count - cnt)) __CFBitVectorZeroBits
        else Some bv);
  Some (__CFBitVectorSetCount bv count).
End allocating.

(** ** Bits of the buckets *)

Definition bit_at (bs : list Z) (i : Z) : bool :=
  match bs.[i / 8] with Some v => Z.testbit v (7 - i mod 8) | None => false end.

Definition bits (bv : CFBitVector) : list bool :=
  bit_at (_buckets bv) <$> seqZ 0 (_count bv).

(** The invariant of every operation. *)
Definition wf (bv : CFBitVector) : Prop :=
  0 ≤ _count bv ≤ _capacity bv ∧ _capacity bv mod 8 = 0 ∧
  zlen (_buckets bv) = _capacity bv / 8 + 1 ∧ Forall is_byte (_buckets bv).

(** The precondition the C code asserts in debug builds. *)
Definition valid_range (bv : CFBitVector) (r : CFRange) : Prop :=
  0 ≤ location r ∧ 0 ≤ range_length r ∧ location r + range_length r ≤ _count bv.

Definition in_range (r : CFRange) (i : Z) : bool :=
  (location r <=? i) && (i <? location r + range_length r).

Section masks.
Lemma mask_byte b t : is_byte (__CFBitBucketMask b t).
Proof. apply u8_byte. Qed.

Lemma mask_bit b t k :
  0 ≤ b ≤ t → t < 8 → 0 ≤ k < 8 →
  Z.testbit (__CFBitBucketMask b t) (7 - k) = (b <=? k) && (k <=? t).
Proof.
  intros Hb Ht Hk.
  set (f := λ b t k, negb (b <=? t) ||
    eqb (Z.testbit (__CFBitBucketMask b t) (7 - k)) ((b <=? k) && (k <=? t))).
  enough (f b t k = true) as E.
  { unfold f in E. apply orb_prop in E as [E|E]; [zbool; lia|]. by apply eqb_prop in E. }
  revert k Hk. apply forall_range.
  assert (Ht' : 0 ≤ t < 8) by lia. revert t Ht' Ht Hb. 
  assert (Hall : forallb (λ b, forallb (λ t, forallb (f b t) (seqZ 0 8)) (seqZ 0 8)) (seqZ 0 8) = true)
    by (vm_compute; reflexivity).
  intros t Ht' Ht Hb.
  assert (Hb' : 0 ≤ b < 8) by lia.
  pose proof (forall_range _ 0 8 Hall b Hb') as H1. cbv beta in H1.
  exact (forall_range _ 0 8 H1 t Ht').
Qed.

Lemma mask_all : u8 (Z.lnot 0) = __CFBitBucketMask 0 7.
Proof. reflexivity. Qed.
End masks.

Definition blend (v newv mask : Z) : Z :=
  u8 (Z.lor (Z.land v (Z.lnot mask)) (Z.land newv mask)).

Lemma blend_bit v nv m k :
  0 ≤ k < 8 → Z.testbit (blend v nv m) k = if Z.testbit m k then Z.testbit nv k else Z.testbit v k.
Proof.
  intros Hk. unfold blend. rewrite testbit_u8 by lia.
  rewrite Z.lor_spec, !Z.land_spec, Z.lnot_spec by lia.
  rewrite (proj2 (Z.ltb_lt k 8)) by lia.
  destruct (Z.testbit m k), (Z.testbit v k), (Z.testbit nv k); done.
Qed.

Lemma blend_whole v nv : is_byte v → is_byte nv → blend v nv (u8 (Z.lnot 0)) = nv.
Proof.
  intros Hv Hn. apply byte_ext; [apply u8_byte|done|]. intros k Hk.
  rewrite blend_bit by done. rewrite mask_all.
  replace k with (7 - (7 - k)) at 1 by lia. rewrite mask_bit by lia. zcases. done.
Qed.

Lemma blend_same v m : is_byte v → blend v v m = v.
Proof.
  intros Hv. apply byte_ext; [apply u8_byte|done|]. intros k Hk.
  rewrite blend_bit by done. by destruct (Z.testbit m k).
Qed.

Lemma bit_at_upd bs idx x i :
  0 ≤ idx < zlen bs → 
  bit_at (zupd bs idx x) i = if decide (i / 8 = idx) then Z.testbit x (7 - i mod 8) else bit_at bs i.
Proof.
  intros Hi. unfold bit_at. rewrite zget_zupd by done. by case_decide.
Qed.

(** ** The traversal of a range, as a loop rule

    [P p bs c] is the invariant when the bits of the range before [p] are done;
    one step handles the bits [p, q) of bucket [idx]. *)
Section map_rule.
Context {C : Type} (mapper : Z → Z → C → option (Z * C)) (bs0 : list Z) (lo hi : Z).
Variable P : Z → list Z → C → Prop.

Definition map_step : Prop := ∀ idx p q bs c,
  8 * idx ≤ p < q → q ≤ 8 * idx + 8 → lo ≤ p → q ≤ hi → (p = lo ∨ p = 8 * idx) →
  (q = hi ∨ q = 8 * idx + 8) → zlen bs = zlen bs0 → Forall is_byte bs → P p bs c →
  ∃ v nv c', bs.[idx] = Some v ∧
    mapper v (__CFBitBucketMask (p - 8 * idx) (q - 1 - 8 * idx)) c = Some (nv, c') ∧
    is_byte nv ∧
    P q (zupd bs idx (blend v nv (__CFBitBucketMask (p - 8 * idx) (q - 1 - 8 * idx)))) c'.

Hypothesis Hstep : map_step.
Hypothesis Hlen : hi ≤ 8 * zlen bs0.
Hypothesis Hlo : 0 ≤ lo.

Definition good (p : Z) (bs : list Z) (c : C) : Prop :=
  zlen bs = zlen bs0 ∧ Forall is_byte bs ∧ P p bs c.

Lemma map_masked_ok idx p q bs c mask :
  8 * idx ≤ p < q → q ≤ 8 * idx + 8 → lo ≤ p → q ≤ hi → (p = lo ∨ p = 8 * idx) →
  (q = hi ∨ q = 8 * idx + 8) → mask = __CFBitBucketMask (p - 8 * idx) (q - 1 - 8 * idx) →
  good p bs c →
  ∃ bs' c', map_masked mapper bs idx mask c = Some (bs', c') ∧ good q bs' c'.
Proof.
  intros ?????? -> (HL & HB & HP).
  destruct (Hstep idx p q bs c) as (v & nv & c' & Hv & Hm & Hn & HP'); try done.
  unfold map_masked. rewrite Hv. cbn. rewrite Hm. cbn.
  pose proof (zget_Some _ _ _ Hv). rewrite zset_ok by done. cbn.
  eexists _, _. split; [done|]. split; [by rewrite zlen_zupd|].
  split; [|done]. apply Forall_zupd; [done|apply u8_byte].
Qed.

Lemma map_whole_ok n idx bs c :
  (n = O ∨ lo ≤ 8 * idx) → 8 * idx + 8 * Z.of_nat n ≤ hi → good (8 * idx) bs c →
  ∃ bs' c', map_whole mapper bs idx c n = Some (bs', idx + Z.of_nat n, c') ∧
    good (8 * (idx + Z.of_nat n)) bs' c'.
Proof.
  revert idx bs c. induction n as [|n IH]; intros idx bs c Hl Hh Hg; cbn [map_whole].
  { eexists _, _. rewrite Z.add_0_r. done. }
  destruct Hl as [|Hl]; [done|]. destruct Hg as (HL & HB & HP).
  destruct (Hstep idx (8 * idx) (8 * idx + 8) bs c) as (v & nv & c' & Hv & Hm & Hn & HP');
    try done; try lia.
  replace (8 * idx - 8 * idx) with 0 in * by lia.
  replace (8 * idx + 8 - 1 - 8 * idx) with 7 in * by lia.
  rewrite <- mask_all in *. rewrite Hv. cbn [mbind option_bind]. rewrite Hm.
  cbn [mbind option_bind]. pose proof (zget_Some _ _ _ Hv).
  rewrite zset_ok by done. cbn [mbind option_bind].
  assert (is_byte v) by (by apply (proj1 (Forall_zget _ _) HB _ _ Hv)).
  rewrite blend_whole in HP' by done.
  replace (idx + Z.of_nat (S n)) with (idx + 1 + Z.of_nat n) by lia.
  apply IH; [lia|lia|]. replace (8 * (idx + 1)) with (8 * idx + 8) by lia.
  split; [by rewrite zlen_zupd|]. split; [|done]. by apply Forall_zupd.
Qed.

Lemma InternalMap_rule c0 :
  lo < hi → good lo bs0 c0 →
  ∃ bs' c', __CFBitVectorInternalMap mapper bs0 (CFRangeMake lo (hi - lo)) c0 = Some (bs', c') ∧
    good hi bs' c'.
Proof.
  intros Hlt Hg. unfold __CFBitVectorInternalMap.
  cbn [location range_length]. unfold __CF_BITS_PER_BUCKET in *.
  rewrite (proj2 (Z.eqb_neq 0 (hi - lo))) by lia.
  change (8 - 1) with 7. rewrite land_7, Z.quot_div_nonneg by lia.
  pose proof (Z.div_mod lo 8 ltac:(lia)) as Hd. pose proof (Z.mod_pos_bound lo 8 ltac:(lia)).
  set (i := lo / 8) in *. set (b := lo mod 8) in *.
  destruct (Z.ltb_spec (b + (hi - lo)) 8) as [Hs|Hs].
  - destruct (map_masked_ok i lo hi bs0 c0 (__CFBitBucketMask b (b + (hi - lo) - 1)))
      as (bs1 & c1 & -> & Hg1); try done; try lia; [f_equal; lia|].
    cbn. eexists _, _. done.
  - destruct (map_masked_ok i lo (8 * i + 8) bs0 c0 (__CFBitBucketMask b 7))
      as (bs1 & c1 & -> & Hg1); try done; try lia; [f_equal; lia|].
    cbn [mbind option_bind].
    set (rest := hi - lo - (8 - b)). rewrite (Z.quot_div_nonneg rest) by lia.
    pose proof (Z.div_mod rest 8 ltac:(lia)). pose proof (Z.mod_pos_bound rest 8 ltac:(lia)).
    set (nb := rest / 8) in *.
    destruct (map_whole_ok (Z.to_nat nb) (i + 1) bs1 c1) as (bs2 & c2 & -> & Hg2);
      [lia|lia| by replace (8 * (i + 1)) with (8 * i + 8) by lia|].
    cbn [mbind option_bind]. rewrite Z2Nat.id in * by lia.
    destruct (Z.eqb_spec 0 (rest - nb * 8)) as [E|E]; cbn [negb].
    + eexists _, _. split; [done|]. by replace hi with (8 * (i + 1 + nb)) by lia.
    + apply (map_masked_ok _ (8 * (i + 1 + nb)) hi); try done; try lia. f_equal; lia.
Qed.
End map_rule.

(** ** Mappers that act on each bit alone *)
Section pure_mapper.
Context (g : Z → Z) (h : bool → bool).
Hypothesis g_byte : ∀ v, is_byte v → is_byte (g v).
Hypothesis g_bit : ∀ v k, is_byte v → 0 ≤ k < 8 → Z.testbit (g v) k = h (Z.testbit v k).

Lemma pure_map_ok bs r :
  Forall is_byte bs → 0 ≤ location r → 0 < range_length r →
  location r + range_length r ≤ 8 * zlen bs →
  ∃ bs', __CFBitVectorInternalMap (λ v _ c, Some (g v, c)) bs r tt = Some (bs', tt) ∧
    zlen bs' = zlen bs ∧ Forall is_byte bs' ∧
    ∀ i, 0 ≤ i < 8 * zlen bs →
      bit_at bs' i = if in_range r i then h (bit_at bs i) else bit_at bs i.
Proof.
  intros HB Hl Hn Hle. destruct r as [lo len]. cbn [location range_length] in *.
  set (P := λ p bs' (_ : unit), ∀ i, 0 ≤ i < 8 * zlen bs →
    bit_at bs' i = if (lo <=? i) && (i <? p) then h (bit_at bs i) else bit_at bs i).
  destruct (InternalMap_rule (λ v _ c, Some (g v, c)) bs lo (lo + len) P)
    with (c0 := tt) as (bs' & [] & Hr & HL & HB' & HP); try lia.
  - intros idx p q bs1 [] ? ? ? ? ? ? HL1 HB1 HP1.
    destruct (zget_is_Some bs1 idx) as [v Hv]; [lia|].
    assert (Hvb : is_byte v) by (by apply (proj1 (Forall_zget _ _) HB1 _ _ Hv)).
    exists v, (g v), tt. split; [done|]. split; [done|]. split; [by apply g_byte|].
    intros i Hi. rewrite bit_at_upd by lia.
    specialize (HP1 i Hi). pose proof (Z.div_mod i 8 ltac:(lia)).
    pose proof (Z.mod_pos_bound i 8 ltac:(lia)). case_decide as Hidx.
    + rewrite blend_bit by lia. replace (7 - i mod 8) with (7 - (i - 8 * idx)) by lia.
      rewrite mask_bit by lia. unfold bit_at in HP1 at 1. rewrite Hidx, Hv in HP1.
      replace (7 - i mod 8) with (7 - (i - 8 * idx)) in HP1 by lia.
      rewrite g_bit, HP1 by (done || lia). zcases; done.
    + rewrite HP1. zcases; done.
  - split; [done|]. split; [done|]. intros i Hi. zcases; done.
  - replace (lo + len - lo) with len in Hr by lia. eauto 10.
Qed.
End pure_mapper.

Lemma u8_ones_bit k : 0 ≤ k < 8 → Z.testbit (u8 (Z.lnot 0)) k = true.
Proof. intros. rewrite testbit_u8, Z.lnot_spec, Z.testbit_0_l by lia. by zcases. Qed.

(** The value of bit [i] of the abstract list. *)
Lemma bits_lookup bv i : 0 ≤ i < _count bv → (bits bv).[i] = Some (bit_at (_buckets bv) i).
Proof.
  intros Hi. unfold bits, zget. rewrite decide_True by lia.
  rewrite list_lookup_fmap, lookup_seqZ_lt by lia. cbn. do 2 f_equal. lia.
Qed.

Lemma bits_length bv : 0 ≤ _count bv → zlen (bits bv) = _count bv.
Proof. intros. unfold bits, zlen. rewrite length_fmap, length_seqZ. lia. Qed.

Lemma bits_ext bv l :
  0 ≤ _count bv → zlen l = _count bv →
  (∀ i, 0 ≤ i < _count bv → l.[i] = Some (bit_at (_buckets bv) i)) → bits bv = l.
Proof.
  intros Hc Hl H. apply zget_ext; [by rewrite bits_length|].
  rewrite bits_length by done. intros i Hi. by rewrite bits_lookup, H.
Qed.

(** Mapping a function over the elements of a list whose index is in a range. *)
Definition map_in_range (r : CFRange) (h : bool → bool) (l : list bool) : list bool :=
  imap (λ i b, if in_range r (Z.of_nat i) then h b else b) l.

Lemma map_in_range_get r h l i :
  (map_in_range r h l).[i] = (λ b, if in_range r i then h b else b) <$> l.[i].
Proof.
  unfold map_in_range, zget. case_decide; [|done].
  rewrite list_lookup_imap. by rewrite Z2Nat.id.
Qed.

Lemma zlen_map_in_range r h l : zlen (map_in_range r h l) = zlen l.
Proof. unfold map_in_range, zlen. by rewrite length_imap. Qed.

Lemma wf_bytes bv : wf bv → _count bv ≤ 8 * zlen (_buckets bv) - 8.
Proof. intros (H1 & H2 & -> & _). pose proof (Z.div_mod (_capacity bv) 8). lia. Qed.

Lemma map_range_ok bv r g h :
  wf bv → 0 ≤ location r → 0 < range_length r →
  location r + range_length r ≤ _capacity bv →
  (∀ v, is_byte v → is_byte (g v)) →
  (∀ v k, is_byte v → 0 ≤ k < 8 → Z.testbit (g v) k = h (Z.testbit v k)) →
  ∃ bv', map_range bv r (λ v _ c, Some (g v, c)) = Some bv' ∧ wf bv' ∧
    _count bv' = _count bv ∧ _capacity bv' = _capacity bv ∧ _variety bv' = _variety bv ∧
    (∀ i, 0 ≤ i < 8 * zlen (_buckets bv) → bit_at (_buckets bv') i =
       if in_range r i then h (bit_at (_buckets bv) i) else bit_at (_buckets bv) i) ∧
    bits bv' = map_in_range r h (bits bv).
Proof.
  intros Hwf ??? Hg Hh. pose proof Hwf as (Hc & Hm & HL & HB).
  destruct (pure_map_ok g h Hg Hh (_buckets bv) r) as (bs' & Hr & HL' & HB' & Hbit);
    try done; [pose proof (Z.div_mod (_capacity bv) 8); lia|].
  exists (set_buckets bv bs'). unfold map_range. rewrite Hr. cbn [mbind option_bind].
  assert (Hwf' : wf (set_buckets bv bs')) by (split; [done|split; [done|split; [cbn; by rewrite HL'|done]]]).
  pose proof (wf_bytes _ Hwf). split; [done|]. do 5 (split; [done|]).
  apply bits_ext; [cbn; lia| |].
  - by rewrite zlen_map_in_range, bits_length by lia.
  - intros i Hi. cbn in Hi. rewrite map_in_range_get, bits_lookup by done. cbn.
    rewrite Hbit by lia. done.
Qed.

(** ** Counting *)

Definition bit_value (value : Z) (b : bool) : bool := eqb b (negb (value =? 0)).

Lemma nibble_loop_acc n val count : nibble_loop n val count = Z.add count <$> nibble_loop n val 0.
Proof.
  revert val count. induction n as [|n IH]; intros val count; cbn [nibble_loop].
  { cbn. f_equal. lia. }
  destruct (zget _ _) as [k|]; cbn [mbind option_bind]; [|done].
  rewrite (IH _ (count + k)), (IH _ (0 + k)). destruct (nibble_loop n _ 0); cbn; [|done].
  f_equal. lia.
Qed.

Lemma nibble_popcount val count :
  is_byte val → nibble_loop 2 val count = Some (count + zcount (λ k, Z.testbit val k) 0 8).
Proof.
  intros Hv.
  assert (E : nibble_loop 2 val 0 = Some (zcount (λ k, Z.testbit val k) 0 8)).
  { enough (bool_decide (nibble_loop 2 val 0 = Some (zcount (λ k, Z.testbit val k) 0 8)) = true)
      as E by (by apply bool_decide_eq_true in E).
    revert val Hv. apply (forall_range (λ val, bool_decide (nibble_loop 2 val 0 = Some (zcount (λ k, Z.testbit val k) 0 8))) 0 256).
    vm_compute. reflexivity. }
  rewrite nibble_loop_acc, E. done.
Qed.

Lemma zcount_rev8 f : zcount f 0 8 = zcount (λ k, f (7 - k)) 0 8.
Proof.
  cbn [zcount]. repeat match goal with
  | |- context [f ?x] => progress (let y := eval vm_compute in x in change (f x) with (f y))
  end. lia.
Qed.

Lemma zcount_shift f d lo n : zcount f (lo + d) n = zcount (λ k, f (k + d)) lo n.
Proof.
  revert lo. induction n as [|n IH]; intros lo; cbn [zcount]; [done|].
  rewrite <- IH. do 2 f_equal. lia.
Qed.

Lemma CountBits_step v idx p q ctx bs :
  8 * idx ≤ p < q → q ≤ 8 * idx + 8 → bs.[idx] = Some v → is_byte v → 
  __CFBitVectorCountBits v (__CFBitBucketMask (p - 8 * idx) (q - 1 - 8 * idx)) ctx =
  Some (v, {| oc_value := oc_value ctx; oc_count := oc_count ctx +
    zcount (λ i, bit_value (oc_value ctx) (bit_at bs i)) p (Z.to_nat (q - p)) |}).
Proof.
  intros Hp Hq Hv Hb. unfold __CFBitVectorCountBits.
  set (m := __CFBitBucketMask _ _). set (val := if negb _ then _ else _).
  rewrite nibble_popcount by (unfold val; case_match; apply u8_byte). cbn [mbind option_bind].
  do 4 f_equal. rewrite zcount_rev8.
  rewrite <- (zcount_window (λ i, bit_value (oc_value ctx) (bit_at bs i)) (0 + 8 * idx) 8) by lia.
  rewrite zcount_shift. apply zcount_ext. intros k Hk.
  assert (Hbit : bit_at bs (k + 8 * idx) = Z.testbit v (7 - k)).
  { unfold bit_at. replace ((k + 8 * idx) / 8) with idx by zdiv. rewrite Hv. f_equal. zdiv. }
  rewrite Hbit. unfold val, bit_value.
  assert (Hm : Z.testbit m (7 - k) = (p <=? k + 8 * idx) && (k + 8 * idx <? q)).
  { unfold m. rewrite mask_bit by lia. by zcases. }
  rewrite <- Hm. destruct (oc_value ctx =? 0); cbn [negb];
    rewrite testbit_u8, Z.land_spec, ?Z.lnot_spec by lia; zcases;
    by destruct (Z.testbit v (7 - k)), (Z.testbit m (7 - k)).
Qed.

Lemma GetCountOfBit_ok bv r value :
  wf bv → valid_range bv r →
  CFBitVectorGetCountOfBit bv r value =
  Some (zcount (λ i, bit_value value (bit_at (_buckets bv) i)) (location r)
          (Z.to_nat (range_length r))).
Proof.
  intros Hwf (? & ? & ?). pose proof (wf_bytes _ Hwf). destruct Hwf as (_ & _ & _ & HB).
  destruct r as [lo len]; cbn [location range_length] in *. unfold CFBitVectorGetCountOfBit.
  cbn [range_length]. destruct (Z.eqb_spec 0 len) as [<-|Hne]; [done|].
  set (bs := _buckets bv) in *.
  destruct (InternalMap_rule __CFBitVectorCountBits bs lo (lo + len) (λ p bs' c, bs' = bs ∧
      c = {| oc_value := value; oc_count :=
        zcount (λ i, bit_value value (bit_at bs i)) lo (Z.to_nat (p - lo)) |}))
    with (c0 := {| oc_value := value; oc_count := 0 |})
    as (bs' & c' & Hr & _ & _ & -> & ->); try lia.
  - intros idx p q bs1 c ? ? ? ? ? ? ? HB1 [-> ->].
    destruct (zget_is_Some bs idx) as [v Hv]; [lia|].
    assert (Hvb : is_byte v) by (by apply (proj1 (Forall_zget _ _) HB _ _ Hv)).
    eexists v, v, _. split; [done|]. split; [by apply CountBits_step|].
    split; [done|]. split; [by rewrite blend_same, zupd_id|].
    cbn [oc_value oc_count]. f_equal.
    replace (Z.to_nat (q - lo)) with (Z.to_nat (p - lo) + Z.to_nat (q - p))%nat by lia.
    rewrite zcount_app. do 2 f_equal. lia.
  - split; [done|]. split; [done|]. split; [done|]. by rewrite Z.sub_diag.
  - replace (lo + len - lo) with len in * by lia. by rewrite Hr.
Qed.

Lemma zcount_take l lo n :
  0 ≤ lo → 
  (∀ i, lo ≤ i < lo + Z.of_nat n → is_Some (l.[i])) → ∀ value f,
  (∀ i, lo ≤ i < lo + Z.of_nat n → l.[i] = Some (f i)) →
  zcount (λ i, bit_value value (f i)) lo n =
  zlen (filter (λ b, bit_value value b = true) (take n (drop (Z.to_nat lo) l))).
Proof.
  intros Hlo Hl value f. revert lo Hlo Hl. induction n as [|n IH]; intros lo Hlo Hl Hf; [done|].
  cbn [zcount]. specialize (Hf lo ltac:(lia)) as Hlo'.
  assert (Hd : drop (Z.to_nat lo) l = f lo :: drop (Z.to_nat (lo + 1)) l).
  { unfold zget in Hlo'. case_decide; [|done]. replace (Z.to_nat (lo + 1)) with (S (Z.to_nat lo)) by lia.
    by apply drop_S. }
  rewrite Hd. cbn [take]. rewrite filter_cons. rewrite (IH (lo + 1)); [| lia | |].
  - case_decide as E; cbn [zlen length].
    + rewrite E. rewrite zlen_cons. cbn. lia.
    + apply not_true_is_false in E. by rewrite E.
  - intros. apply Hl. lia.
  - intros. apply Hf. lia.
Qed.

(** ** Single bits *)

Lemma bit_split bv i :
  wf bv → 0 ≤ i < _count bv → 
  ∃ v, (_buckets bv).[i ÷ 8] = Some v ∧ is_byte v ∧ Z.land i 7 = i mod 8 ∧ i ÷ 8 = i / 8 ∧
    0 ≤ i / 8 < zlen (_buckets bv) ∧ 0 ≤ i mod 8 < 8 ∧ Z.testbit v (7 - i mod 8) = bit_at (_buckets bv) i.
Proof.
  intros Hwf Hi. pose proof (wf_bytes _ Hwf). destruct Hwf as (_ & _ & _ & HB).
  rewrite land_7, Z.quot_div_nonneg by lia.
  assert (0 ≤ i / 8 < zlen (_buckets bv)) by zdiv.
  destruct (zget_is_Some (_buckets bv) (i / 8)) as [v Hv]; [done|].
  exists v. split; [done|]. split; [by apply (proj1 (Forall_zget _ _) HB _ _ Hv)|].
  repeat split; try lia; try zdiv. unfold bit_at. by rewrite Hv.
Qed.

Lemma get_bit_ok bv i :
  wf bv → 0 ≤ i < _count bv →
  CFBitVectorGetBitAtIndex bv i = Some (Z.b2z (bit_at (_buckets bv) i)).
Proof.
  intros Hwf Hi. destruct (bit_split bv i Hwf Hi) as (v & Hv & Hb & Hl & Hq & ? & ? & Hbit).
  unfold CFBitVectorGetBitAtIndex, __CFBitVectorBit, __CF_BITS_PER_BUCKET.
  change (8 - 1) with 7. rewrite Hl, Hv. cbn [mbind option_bind]. f_equal. rewrite <- Hbit.
  change 1 with (Z.ones 1). rewrite Z.land_ones by lia. change (2 ^ 1) with 2.
  rewrite Z.testbit_spec' by lia. by rewrite Z.shiftr_div_pow2 by lia.
Qed.

(** Replacing the byte of bit [i] by one that differs at most there. *)
Lemma set_bit_bits bv i x b :
  wf bv → 0 ≤ i < _count bv → is_byte x →
  (∀ k, 0 ≤ k < 8 → Z.testbit x (7 - k) = if decide (k = i mod 8) then b
                    else bit_at (_buckets bv) (8 * (i / 8) + k)) →
  let bv' := set_buckets bv (zupd (_buckets bv) (i / 8) x) in
  wf bv' ∧ bits bv' = zupd (bits bv) i b.
Proof.
  intros Hwf Hi Hx Hk bv'. destruct (bit_split bv i Hwf Hi) as (v & _ & _ & _ & _ & ? & ? & _).
  pose proof Hwf as (H1 & H2 & H3 & H4). split.
  - unfold bv'. split; [done|]. split; [done|]. cbn. split; [by rewrite zlen_zupd|]. by apply Forall_zupd.
  - apply bits_ext; [cbn; lia|rewrite zlen_zupd, bits_length by lia; done|]. intros j Hj. cbn in Hj.
    rewrite zget_zupd by (rewrite bits_length; lia). cbn. rewrite bit_at_upd by done.
    pose proof (Z.div_mod j 8 ltac:(lia)). pose proof (Z.mod_pos_bound j 8 ltac:(lia)).
    pose proof (Z.div_mod i 8 ltac:(lia)).
    rewrite bits_lookup by done. destruct (decide (j = i)) as [->|Hne].
    + rewrite decide_True, Hk by lia. by rewrite decide_True by done.
    + case_decide as Hb; [|done]. rewrite Hk by lia. rewrite decide_False by lia. do 2 f_equal. lia.
Qed.

Lemma testbit_one a k : 0 ≤ k → 0 ≤ a → Z.testbit (Z.shiftl 1 a) k = bool_decide (k = a).
Proof.
  intros. rewrite Z.shiftl_1_l, Z.pow2_bits_eqb by lia.
  destruct (Z.eqb_spec a k); symmetry; [by apply bool_decide_eq_true|apply bool_decide_eq_false; lia].
Qed.

Lemma bit_at_same_byte bs v i k :
  bs.[i / 8] = Some v → 0 ≤ k < 8 → bit_at bs (8 * (i / 8) + k) = Z.testbit v (7 - k).
Proof.
  intros Hv Hk. unfold bit_at. replace ((8 * (i / 8) + k) / 8) with (i / 8) by zdiv.
  rewrite Hv. f_equal. zdiv.
Qed.

Lemma update_bit bv i x b (Hwf : wf bv) (Hi : 0 ≤ i < _count bv) :
  (∀ v k, (_buckets bv).[i ÷ 8] = Some v → 0 ≤ k < 8 → Z.testbit (x v) k =
     if decide (k = 7 - i mod 8) then b (Z.testbit v k) else Z.testbit v k) →
  ∃ bv',
    (b' ← (v ← (_buckets bv).[i ÷ 8]; (_buckets bv).[i ÷ 8 := u8 (x v)]); Some (set_buckets bv b')) = Some bv'
    ∧ wf bv' ∧ _count bv' = _count bv ∧ bits bv' = zupd (bits bv) i (b (bit_at (_buckets bv) i)).
Proof.
  intros Hx. destruct (bit_split bv i Hwf Hi) as (v & Hv & Hb & Hl & Hq & ? & ? & Hbit).
  specialize (Hx v). rewrite Hq in Hx, Hv |- *. rewrite Hv. cbn [mbind option_bind].
  rewrite zset_ok by done. cbn [mbind option_bind].
  destruct (set_bit_bits bv i (u8 (x v)) (b (bit_at (_buckets bv) i))) as [H1 H2]; try done.
  - apply u8_byte.
  - intros k Hk. rewrite testbit_u8, Hx by (done || lia).
    rewrite (bit_at_same_byte _ v) by done. rewrite (proj2 (Z.ltb_lt _ _)) by lia. cbn [andb].
    rewrite <- Hbit. case_decide; case_decide; try lia; [by subst|done].
  - eauto.
Qed.

(** ** Properties *)

(** [CFBitVectorGetBitAtIndex], [CFBitVectorSetBitAtIndex] and
    [CFBitVectorFlipBitAtIndex] read, write and flip exactly element [i] of the
    list of bits, never leave the buckets, and keep the invariant. *)
Theorem bit_index_operations bv i value
    (Hwf : wf bv) (Hi : 0 ≤ i < _count bv) :
  (∃ b, (bits bv).[i] = Some b ∧ CFBitVectorGetBitAtIndex bv i = Some (Z.b2z b)) ∧
  (∃ bv', CFBitVectorSetBitAtIndex bv i value = Some bv' ∧ wf bv' ∧
     bits bv' = zupd (bits bv) i (negb (value =? 0))) ∧
  (∃ bv' b, CFBitVectorFlipBitAtIndex bv i = Some bv' ∧ wf bv' ∧
     (bits bv).[i] = Some b ∧ bits bv' = zupd (bits bv) i (negb b)).
Proof.
  destruct (bit_split bv i Hwf Hi) as (_ & _ & _ & Hl & _ & _ & ? & _).
  split; [|split].
  - exists (bit_at (_buckets bv) i). by rewrite bits_lookup, get_bit_ok.
  - destruct (update_bit bv i (λ v, let one := Z.shiftl 1 (7 - i mod 8) in
        if value =? 0 then Z.land v (Z.lnot one) else Z.lor v one) (λ _, negb (value =? 0)) Hwf Hi)
      as (bv' & E & ? & _ & ?).
    + intros v k _ Hk. cbv zeta. destruct (value =? 0);
        rewrite ?Z.land_spec, ?Z.lor_spec, ?Z.lnot_spec, testbit_one by lia;
        case_decide; case_bool_decide; try done; destruct (Z.testbit v k); done.
    + exists bv'. split; [|done]. rewrite <- E.
      unfold CFBitVectorSetBitAtIndex, __CFSetBitVectorBit, __CF_BITS_PER_BUCKET.
      change (8 - 1) with 7. by rewrite Hl.
  - destruct (update_bit bv i (λ v, Z.lxor v (Z.shiftl 1 (7 - i mod 8))) negb Hwf Hi)
      as (bv' & E & ? & _ & ?).
    + intros v k _ Hk. rewrite Z.lxor_spec, testbit_one by lia.
      case_decide; case_bool_decide; try done; by destruct (Z.testbit v k).
    + exists bv', (bit_at (_buckets bv) i). split; [|by rewrite bits_lookup]. rewrite <- E.
      unfold CFBitVectorFlipBitAtIndex, __CFFlipBitVectorBit, __CF_BITS_PER_BUCKET.
      change (8 - 1) with 7. by rewrite Hl.
Qed.

(** ** Range operations *)

Lemma map_in_range_empty r h l : range_length r ≤ 0 → map_in_range r h l = l.
Proof.
  intros Hr. apply zget_ext; [by rewrite zlen_map_in_range|]. intros i _.
  rewrite map_in_range_get. unfold in_range.
  destruct l.[i]; cbn; [|done]. f_equal. by zcases.
Qed.

Lemma zero_bit k : Z.testbit 0 k = false.
Proof. apply Z.testbit_0_l. Qed.

Lemma flip_byte_bit v k :
  is_byte v → 0 ≤ k < 8 → Z.testbit (u8 (Z.lxor (u8 (Z.lnot 0)) v)) k = negb (Z.testbit v k).
Proof.
  intros. rewrite testbit_u8, Z.lxor_spec, u8_ones_bit by lia. zcases. by destruct (Z.testbit v k).
Qed.

Section fill.
Context (bv : CFBitVector) (r : CFRange) (value : Z).
Hypotheses (Hwf : wf bv) (Hlo : 0 ≤ location r) (Hlen : 0 < range_length r)
  (Hhi : location r + range_length r ≤ _capacity bv).

Lemma fill_ok :
  ∃ bv', (if negb (value =? 0) then map_range bv r __CFBitVectorOneBits
          else map_range bv r __CFBitVectorZeroBits) = Some bv' ∧ wf bv' ∧
    _count bv' = _count bv ∧ _capacity bv' = _capacity bv ∧ _variety bv' = _variety bv ∧
    (∀ i, 0 ≤ i < 8 * zlen (_buckets bv) → bit_at (_buckets bv') i =
       if in_range r i then negb (value =? 0) else bit_at (_buckets bv) i) ∧
    bits bv' = map_in_range r (λ _, negb (value =? 0)) (bits bv).
Proof.
  destruct (value =? 0); cbn [negb].
  - apply (map_range_ok bv r (λ _, 0) (λ _, false)); try done. intros. apply zero_bit.
  - apply (map_range_ok bv r (λ _, u8 (Z.lnot 0)) (λ _, true)); try done.
    intros. by apply u8_ones_bit.
Qed.
End fill.

Lemma set_bits_ok bv r value :
  wf bv → valid_range bv r →
  ∃ bv', CFBitVectorSetBits bv r value = Some bv' ∧ wf bv' ∧
    bits bv' = map_in_range r (λ _, negb (value =? 0)) (bits bv).
Proof.
  intros Hwf (? & ? & ?). pose proof Hwf as (? & _). unfold CFBitVectorSetBits.
  destruct (Z.eqb_spec 0 (range_length r)).
  - exists bv. by rewrite map_in_range_empty by lia.
  - destruct (fill_ok bv r value) as (bv' & -> & ? & _ & _ & _ & _ & ?); try done; try lia. eauto.
Qed.

Lemma flip_bits_ok bv r :
  wf bv → valid_range bv r →
  ∃ bv', CFBitVectorFlipBits bv r = Some bv' ∧ wf bv' ∧ bits bv' = map_in_range r negb (bits bv).
Proof.
  intros Hwf (? & ? & ?). pose proof Hwf as (? & _). unfold CFBitVectorFlipBits.
  destruct (Z.eqb_spec 0 (range_length r)).
  - exists bv. by rewrite map_in_range_empty by lia.
  - destruct (map_range_ok bv r (λ v, u8 (Z.lxor (u8 (Z.lnot 0)) v)) negb)
      as (bv' & E & ? & _ & _ & _ & _ & ?); try done; try lia.
    + intros. apply u8_byte.
    + intros. by apply flip_byte_bit.
    + exists bv'. done.
Qed.

Lemma zwrite_ok {A} (l : list A) i src :
  0 ≤ i → i + zlen src ≤ zlen l →
  ∃ l', zwrite l i src = Some l' ∧ zlen l' = zlen l ∧
    ∀ j, l'.[j] = if decide (i ≤ j < i + zlen src) then src.[j - i] else l.[j].
Proof.
  intros Hi Hl. unfold zwrite. rewrite decide_True by lia. eexists. split; [done|]. split.
  - autorewrite with zlen. unfold zlen in *. lia.
  - intros j. unfold zlen in *. destruct (decide (j < i)).
    + rewrite decide_False, zget_app_l, zget_take by (autorewrite with zlen; unfold zlen; lia). done.
    + rewrite zget_app_r by (autorewrite with zlen; unfold zlen; lia).
      replace (zlen (take (Z.to_nat i) l)) with i by (autorewrite with zlen; unfold zlen; lia).
      case_decide.
      * by rewrite zget_app_l by (unfold zlen; lia).
      * rewrite zget_app_r by (unfold zlen; lia).
        rewrite zget_drop by (unfold zlen; lia). f_equal. unfold zlen. lia.
Qed.

Lemma bit_at_replicate l i n x :
  (∀ j, l.[j] = if decide (0 ≤ j < Z.of_nat n) then (replicate n x).[j - 0] else l.[j]) →
  0 ≤ i < 8 * Z.of_nat n → bit_at l i = Z.testbit x (7 - i mod 8).
Proof.
  intros H Hi. unfold bit_at. rewrite H, decide_True by zdiv.
  destruct (zget_is_Some (replicate n x) (i / 8 - 0)) as [y Hy]; [rewrite zlen_replicate; zdiv|].
  rewrite Hy. unfold zget in Hy. case_decide; [|done]. by apply lookup_replicate in Hy as [-> _].
Qed.

Lemma set_all_bits_ok bv value :
  wf bv →
  ∃ bv', CFBitVectorSetAllBits bv value = Some bv' ∧ wf bv' ∧
    bits bv' = replicate (Z.to_nat (_count bv)) (negb (value =? 0)).
Proof.
  intros Hwf. pose proof Hwf as (Hc & Hm & HL & HB). unfold CFBitVectorSetAllBits.
  unfold __CF_BITS_PER_BUCKET. rewrite Z.quot_div_nonneg by lia. set (nb := _count bv / 8).
  pose proof (Z.div_mod (_count bv) 8 ltac:(lia)) as Hd. fold nb in Hd.
  pose proof (Z.mod_pos_bound (_count bv) 8 ltac:(lia)).
  assert (Hstep : ∃ bv1, (if 0 <? _count bv - nb * 8 then
      if negb (value =? 0) then map_range bv (CFRangeMake (nb * 8) (_count bv - nb * 8)) __CFBitVectorOneBits
      else map_range bv (CFRangeMake (nb * 8) (_count bv - nb * 8)) __CFBitVectorZeroBits
      else Some bv) = Some bv1 ∧ wf bv1 ∧ _count bv1 = _count bv ∧ zlen (_buckets bv1) = zlen (_buckets bv) ∧
      ∀ i, 8 * nb ≤ i < _count bv → bit_at (_buckets bv1) i = negb (value =? 0)).
  { destruct (Z.ltb_spec 0 (_count bv - nb * 8)).
    - destruct (fill_ok bv (CFRangeMake (nb * 8) (_count bv - nb * 8)) value)
        as (bv1 & -> & Hwf1 & Hc1 & Hcap & _ & Hbit & _); cbn [location range_length]; try done; try lia.
      exists bv1. split; [done|]. split; [done|]. split; [done|].
      destruct Hwf1 as (_ & _ & HL1 & _). rewrite HL1, HL, Hcap. split; [done|].
      intros i Hi. pose proof (wf_bytes _ Hwf). rewrite Hbit by lia. unfold in_range. cbn. by zcases.
    - exists bv. repeat (split; [done|]). lia. }
  destruct Hstep as (bv1 & -> & Hwf1 & Hc1 & HL1 & Hbit1). cbn [mbind option_bind].
  pose proof (wf_bytes _ Hwf). pose proof Hwf1 as (Hc1' & Hm1 & HL1' & HB1).
  set (x := u8 (if negb (value =? 0) then Z.lnot 0 else 0)).
  destruct (zwrite_ok (_buckets bv1) 0 (replicate (Z.to_nat nb) x)) as (l & -> & HLl & Hget);
    [done|rewrite zlen_replicate; lia|]. cbn [mbind option_bind].
  rewrite zlen_replicate in Hget. replace (0 + Z.of_nat (Z.to_nat nb)) with (Z.of_nat (Z.to_nat nb)) in Hget by lia.
  exists (set_buckets bv1 l). split; [done|]. split.
  - split; [done|]. split; [done|]. cbn. split; [lia|]. apply Forall_zget. intros i y.
    rewrite Hget. case_decide; [|apply Forall_zget; done]. unfold zget. case_decide; [|done].
    intros [-> _]%lookup_replicate. apply u8_byte.
  - apply bits_ext; [cbn; lia|rewrite zlen_replicate; cbn; lia|]. cbn. intros i Hi. rewrite Hc1 in Hi.
    unfold zget. rewrite decide_True by lia. rewrite lookup_replicate_2 by lia. f_equal. symmetry.
    destruct (decide (i < 8 * nb)).
    + rewrite (bit_at_replicate _ _ (Z.to_nat nb) x); [|intros j|lia].
      * unfold x. destruct (value =? 0); cbn [negb]; [apply zero_bit|]. apply u8_ones_bit. zdiv.
      * rewrite Hget. by repeat case_decide.
    + unfold bit_at. rewrite Hget, decide_False by zdiv. apply Hbit1. lia.
Qed.

(** C29. [CFBitVectorSetBits] and [CFBitVectorFlipBits] change exactly the bits of
    the range, whatever its alignment; [CFBitVectorSetAllBits] changes every
    bit of the vector.  None of them leaves the buckets. *)
Theorem range_mutators bv r value
    (Hwf : wf bv) (Hr : valid_range bv r) :
  (∃ bv', CFBitVectorSetBits bv r value = Some bv' ∧ wf bv' ∧
     bits bv' = map_in_range r (λ _, negb (value =? 0)) (bits bv)) ∧
  (∃ bv', CFBitVectorFlipBits bv r = Some bv' ∧ wf bv' ∧
     bits bv' = map_in_range r negb (bits bv)) ∧
  (∃ bv', CFBitVectorSetAllBits bv value = Some bv' ∧ wf bv' ∧
     bits bv' = replicate (Z.to_nat (_count bv)) (negb (value =? 0))).
Proof.
  split; [|split]; [by apply set_bits_ok|by apply flip_bits_ok|by apply set_all_bits_ok].
Qed.

(** [CFBitVectorGetCountOfBit] counts the bits of the range equal to [value],
    and [CFBitVectorContainsBit] tells whether there is one. *)
Theorem count_of_bit bv r value
    (Hwf : wf bv) (Hr : valid_range bv r) :
  let slice := take (Z.to_nat (range_length r)) (drop (Z.to_nat (location r)) (bits bv)) in
  CFBitVectorGetCountOfBit bv r value = Some (zlen (filter (λ b, bit_value value b = true) slice)) ∧
  CFBitVectorContainsBit bv r value = Some (existsb (bit_value value) slice).
Proof.
  intros slice. pose proof Hr as (? & ? & ?). pose proof Hwf as (? & _).
  assert (E : CFBitVectorGetCountOfBit bv r value =
    Some (zlen (filter (λ b, bit_value value b = true) slice))).
  { rewrite GetCountOfBit_ok by done. f_equal. apply zcount_take; [done| |];
      intros i Hi; rewrite bits_lookup by lia; eauto. }
  split; [done|]. unfold CFBitVectorContainsBit. rewrite E. cbn. f_equal.
  clearbody slice. clear. induction slice as [|b l IH]; [done|].
  rewrite filter_cons. cbn [existsb]. rewrite <- IH. clear IH. case_decide as Hb.
  - rewrite Hb, zlen_cons. pose proof (zlen_nonneg (filter (λ b, bit_value value b = true) l)).
    destruct (Z.eqb_spec (zlen (filter (λ b, bit_value value b = true) l) + 1) 0); [lia|done].
  - apply not_true_is_false in Hb. by rewrite Hb.
Qed.

(** ** Searching *)

Lemma first_index_loop_ok bv loc value idx n :
  wf bv → 0 ≤ loc + idx → loc + idx + Z.of_nat n ≤ _count bv →
  ∃ k, first_index_loop bv loc value idx n = Some k ∧
    ((k = kCFNotFound ∧ ∀ i, loc + idx ≤ i < loc + idx + Z.of_nat n →
        value ≠ Z.b2z (bit_at (_buckets bv) i)) ∨
     (loc + idx ≤ k < loc + idx + Z.of_nat n ∧ value = Z.b2z (bit_at (_buckets bv) k) ∧
        ∀ i, loc + idx ≤ i < k → value ≠ Z.b2z (bit_at (_buckets bv) i))).
Proof.
  intros Hwf. revert idx. induction n as [|n IH]; intros idx H0 H1; cbn [first_index_loop].
  { eexists. split; [done|]. left. split; [done|lia]. }
  rewrite get_bit_ok by (done || lia). cbn [mbind option_bind].
  destruct (Z.eqb_spec value (Z.b2z (bit_at (_buckets bv) (loc + idx)))) as [E|E].
  { eexists. split; [done|]. right. split; [lia|]. split; [done|lia]. }
  destruct (IH (idx + 1)) as (k & -> & Hk); [lia|lia|]. exists k. split; [done|].
  assert (Hfirst : ∀ i, loc + idx ≤ i → ¬ (loc + (idx + 1) ≤ i) → value ≠ Z.b2z (bit_at (_buckets bv) i)).
  { intros i ? ?. by replace i with (loc + idx) by lia. }
  destruct Hk as [[-> Hk]|(Hk1 & Hk2 & Hk3)]; [left|right].
  - split; [done|]. intros i Hi. destruct (decide (loc + (idx + 1) ≤ i)); [apply Hk; lia|apply Hfirst; lia].
  - split; [lia|]. split; [done|]. intros i Hi.
    destruct (decide (loc + (idx + 1) ≤ i)); [apply Hk3; lia|apply Hfirst; lia].
Qed.

Lemma last_index_loop_ok bv loc value n :
  wf bv → 0 ≤ loc → loc + Z.of_nat n ≤ _count bv →
  ∃ k, last_index_loop bv loc value n = Some k ∧
    ((k = kCFNotFound ∧ ∀ i, loc ≤ i < loc + Z.of_nat n →
        value ≠ Z.b2z (bit_at (_buckets bv) i)) ∨
     (loc ≤ k < loc + Z.of_nat n ∧ value = Z.b2z (bit_at (_buckets bv) k) ∧
        ∀ i, k < i < loc + Z.of_nat n → value ≠ Z.b2z (bit_at (_buckets bv) i))).
Proof.
  intros Hwf H0. induction n as [|n IH]; intros H1; cbn [last_index_loop].
  { eexists. split; [done|]. left. split; [done|lia]. }
  rewrite get_bit_ok by (done || lia). cbn [mbind option_bind].
  destruct (Z.eqb_spec value (Z.b2z (bit_at (_buckets bv) (loc + Z.of_nat n)))) as [E|E].
  { eexists. split; [done|]. right. split; [lia|]. split; [done|lia]. }
  destruct IH as (k & -> & Hk); [lia|]. exists k. split; [done|].
  assert (Hlast : ∀ i, i < loc + Z.of_nat (S n) → ¬ (i < loc + Z.of_nat n) →
    value ≠ Z.b2z (bit_at (_buckets bv) i)).
  { intros i ? ?. by replace i with (loc + Z.of_nat n) by lia. }
  destruct Hk as [[-> Hk]|(Hk1 & Hk2 & Hk3)]; [left|right].
  - split; [done|]. intros i Hi. destruct (decide (i < loc + Z.of_nat n)); [apply Hk; lia|apply Hlast; lia].
  - split; [lia|]. split; [done|]. intros i Hi.
    destruct (decide (i < loc + Z.of_nat n)); [apply Hk3; lia|apply Hlast; lia].
Qed.

(** [CFBitVectorGetFirstIndexOfBit] and [CFBitVectorGetLastIndexOfBit] give
    the least and the greatest index of the range that holds [value], and
    [kCFNotFound] exactly when no bit of the range does. *)
Theorem index_of_bit bv r value
    (Hwf : wf bv) (Hr : valid_range bv r) :
  let holds i := (bits bv).[i] = Some (negb (value =? 0)) ∧ value = Z.b2z (negb (value =? 0)) in
  let within i := location r ≤ i < location r + range_length r in
  (∃ k, CFBitVectorGetFirstIndexOfBit bv r value = Some k ∧
     ((k = kCFNotFound ∧ ∀ i, within i → ¬ holds i) ∨
      (within k ∧ holds k ∧ ∀ i, within i → i < k → ¬ holds i))) ∧
  (∃ k, CFBitVectorGetLastIndexOfBit bv r value = Some k ∧
     ((k = kCFNotFound ∧ ∀ i, within i → ¬ holds i) ∨
      (within k ∧ holds k ∧ ∀ i, within i → k < i → ¬ holds i))).
Proof.
  intros holds within. destruct r as [lo len]. destruct Hr as (? & ? & ?).
  cbn [location range_length] in *. pose proof Hwf as (? & _).
  assert (Hholds : ∀ i, within i → holds i ↔ value = Z.b2z (bit_at (_buckets bv) i)).
  { intros i Hi. unfold within, holds in *. rewrite bits_lookup by lia.
    destruct (bit_at (_buckets bv) i); split; [intros [[=] ->]|intros ->|intros [[=] ->]|intros ->]; cbn; try done;
      by destruct (value =? 0). }
  split.
  - destruct (first_index_loop_ok bv lo value 0 (Z.to_nat len)) as (k & Hk & H3); [done|lia|lia|].
    exists k. split; [done|]. rewrite Z2Nat.id, Z.add_0_r in H3 by lia.
    destruct H3 as [[-> H3]|(H3 & H4 & H5)]; [left|right].
    + split; [done|]. intros i Hi. rewrite Hholds by done. by apply H3.
    + split; [done|]. rewrite Hholds by done. split; [done|]. intros i Hi Hlt.
      rewrite Hholds by done. apply H5. unfold within in Hi. lia.
  - destruct (last_index_loop_ok bv lo value (Z.to_nat len)) as (k & Hk & H3); [done|lia|lia|].
    exists k. split; [done|]. rewrite Z2Nat.id in H3 by lia.
    destruct H3 as [[-> H3]|(H3 & H4 & H5)]; [left|right].
    + split; [done|]. intros i Hi. rewrite Hholds by done. by apply H3.
    + split; [done|]. rewrite Hholds by done. split; [done|]. intros i Hi Hlt.
      rewrite Hholds by done. apply H5. unfold within in Hi. lia.
Qed.

(** ** Changing the count *)

Lemma round_up_ok n :
  0 ≤ n → let c := __CFBitVectorRoundUpCapacity n in n ≤ c ∧ 0 < c ∧ c mod 8 = 0 ∧ c ÷ 8 = c / 8.
Proof.
  intros Hn c. unfold c, __CFBitVectorRoundUpCapacity.
  destruct (Z.eqb_spec 0 n); [subst; repeat split; try done; lia|].
  rewrite (Z.quot_div_nonneg (n + 63)) by lia. set (k := (n + 63) / 64).
  assert (n ≤ k * 64 ∧ 0 < k) as [? ?] by (unfold k; zdiv).
  repeat split; try lia; [zdiv|]. by rewrite Z.quot_div_nonneg by lia.
Qed.

Section resizing.
Context `{Allocator}.

Lemma realloc_ok old n :
  0 ≤ n → is_Some (alloc n) → Forall is_byte old →
  ∃ b, realloc old n = Some b ∧ zlen b = n ∧ Forall is_byte b ∧
    ∀ i, i < n → i < zlen old → b.[i] = old.[i].
Proof.
  intros Hn [b Hb] Hold. unfold realloc. rewrite Hb. cbn. eexists. split; [done|].
  pose proof (alloc_len _ _ Hb Hn). pose proof (alloc_bytes _ _ Hb). split; [|split].
  - autorewrite with zlen. unfold zlen in *. lia.
  - apply Forall_app. split; [by apply Forall_take|by apply Forall_drop].
  - intros i ? ?. rewrite zget_app_l, zget_take by (autorewrite with zlen; lia). done.
Qed.

Lemma grow_ok bv n :
  wf bv → 0 < n → is_Some (alloc (__CFBitVectorRoundUpCapacity (_count bv + n) / 8 + 1)) →
  ∃ bv', __CFBitVectorGrow bv n = Some bv' ∧ wf bv' ∧ _count bv' = _count bv ∧
    _count bv + n ≤ _capacity bv' ∧ _variety bv' = _variety bv ∧
    ∀ i, 0 ≤ i < _count bv → bit_at (_buckets bv') i = bit_at (_buckets bv) i.
Proof.
  intros Hwf Hn Ha. pose proof (wf_bytes _ Hwf). destruct Hwf as (? & ? & HL & HB).
  destruct (round_up_ok (_count bv + n)) as (Hc1 & Hc2 & Hc3 & Hc4); [lia|].
  unfold __CFBitVectorGrow, __CFBitVectorNumBuckets, __CF_BITS_PER_BUCKET.
  cbn [_capacity _buckets __CFBitVectorSetCapacity]. set (c := __CFBitVectorRoundUpCapacity _) in *.
  rewrite Hc4. destruct (realloc_ok (_buckets bv) (c / 8 + 1)) as (b & -> & Hb1 & Hb2 & Hb3);
    [zdiv|done|done|]. cbn [mbind option_bind].
  eexists. split; [done|]. split; [|split; [done|split; [cbn; lia|split; [done|]]]].
  - split; [cbn; lia|]. split; [done|]. split; [done|]. done.
  - intros i Hi. cbn. unfold bit_at. rewrite Hb3; [done|zdiv|zdiv].
Qed.

(** [CFBitVectorSetCount] on a mutable vector: shrinking keeps the first
    [count] bits; growing keeps every bit and appends zeros, whatever bytes
    the reallocation left in the new buckets. *)
Theorem set_count bv count
    (Hwf : wf bv) (Hm : _variety bv = kCFBitVectorMutable) (Hc : 0 ≤ count)
    (Ha : _count bv < count → is_Some (alloc (__CFBitVectorRoundUpCapacity count / 8 + 1))) :
  ∃ bv', CFBitVectorSetCount bv count = Some bv' ∧ wf bv' ∧ _variety bv' = kCFBitVectorMutable ∧
    bits bv' = take (Z.to_nat count) (bits bv) ++ replicate (Z.to_nat (count - _count bv)) false.
Proof.
  unfold CFBitVectorSetCount. rewrite Hm. pose proof Hwf as (Hcnt & Hmod & HL & HB).
  assert (Hbits : ∀ bv', _count bv' = count →
    (∀ i, 0 ≤ i < count → bit_at (_buckets bv') i =
      if i <? _count bv then bit_at (_buckets bv) i else false) →
    bits bv' = take (Z.to_nat count) (bits bv) ++ replicate (Z.to_nat (count - _count bv)) false).
  { intros bv' Hc' Hb. pose proof (bits_length bv ltac:(lia)) as Hlen.
    apply bits_ext; [lia|autorewrite with zlen; rewrite Hlen; lia|]. rewrite Hc'. intros i Hi. rewrite Hb by done.
    destruct (Z.ltb_spec i (_count bv)).
    - rewrite zget_app_l, zget_take by (autorewrite with zlen; lia). apply bits_lookup. lia.
    - rewrite zget_app_r by (autorewrite with zlen; lia). autorewrite with zlen.
      rewrite Hlen. unfold zget. rewrite decide_True by lia. apply lookup_replicate_2. lia. }
  destruct (Z.ltb_spec (_count bv) count) as [Hlt|Hge].
  - destruct (grow_ok bv (count - _count bv)) as (bv1 & -> & Hwf1 & Hc1 & Hcap1 & Hv1 & Hb1);
      [done|lia|by replace (_count bv + (count - _count bv)) with count by lia; apply Ha|].
    cbn [mbind option_bind].
    destruct (map_range_ok bv1 (CFRangeMake (_count bv) (count - _count bv)) (λ _, 0) (λ _, false))
      as (bv2 & E & Hwf2 & Hc2 & Hcap2 & Hv2 & Hb2 & _); cbn [location range_length]; try done; try lia.
    { intros. apply zero_bit. }
    change (map_range bv1 (CFRangeMake (_count bv) (count - _count bv)) __CFBitVectorZeroBits)
      with (map_range bv1 (CFRangeMake (_count bv) (count - _count bv)) (λ _ _ c, Some (0, c))).
    rewrite E. cbn [mbind option_bind]. eexists. split; [done|]. split; [|split; [cbn; congruence|]].
    + destruct Hwf2 as (? & ? & ? & ?). split; [cbn; lia|done].
    + apply Hbits; [done|]. cbn. intros i Hi. pose proof (wf_bytes _ Hwf1). 
      assert (count ≤ 8 * zlen (_buckets bv1)) by (destruct Hwf1 as (_ & ? & -> & _); zdiv).
      rewrite Hb2 by lia. unfold in_range. cbn. zcases; try done. apply Hb1. lia.
  - cbn [mbind option_bind]. eexists. split; [done|]. split; [|split; [done|]].
    + split; [cbn; lia|done].
    + apply Hbits; [done|]. cbn. intros i Hi. by zcases.
Qed.

Definition creation_ok (n : Z) : Prop :=
  instance_ok 24 = true ∧ is_Some (alloc (__CFBitVectorRoundUpCapacity n / 8 + 1)).

Lemma bytes_for n : 0 ≤ n →
  n ÷ __CF_BITS_PER_BYTE + (if Z.land n __CF_BITS_PER_BYTE_MASK =? 0 then 0 else 1) = (n + 7) / 8.
Proof.
  intros. unfold __CF_BITS_PER_BYTE, __CF_BITS_PER_BYTE_MASK. rewrite land_7 by done.
  rewrite Z.quot_div_nonneg by lia. destruct (Z.eqb_spec (n mod 8) 0); zdiv.
Qed.

Lemma init_ok flags cap n bytes :
  0 ≤ n → (n + 7) / 8 ≤ zlen bytes → Forall is_byte bytes → creation_ok n →
  ∃ bv, __CFBitVectorInit flags cap (Some bytes) n = Some (Some bv) ∧ wf bv ∧
    _variety bv = flags ∧ _count bv = n ∧
    ∀ i, 0 ≤ i < n → bit_at (_buckets bv) i = bit_at bytes i.
Proof.
  intros Hn Hlen HB [Hi [b Ha]]. unfold __CFBitVectorInit. rewrite Hi. cbn [negb].
  destruct (round_up_ok n Hn) as (Hc1 & Hc2 & Hc3 & Hc4).
  unfold __CFBitVectorNumBuckets, __CF_BITS_PER_BUCKET. cbn [_capacity].
  set (c := __CFBitVectorRoundUpCapacity n) in *. rewrite Hc4, Ha. rewrite bytes_for by done.
  unfold zsub. rewrite decide_True by (split; [done|split; [zdiv|lia]]). cbn [mbind option_bind].
  set (src := take (Z.to_nat ((n + 7) / 8)) (drop (Z.to_nat 0) bytes)).
  assert (Hsrc : zlen src = (n + 7) / 8) by (unfold src; autorewrite with zlen; zdiv).
  destruct (zwrite_ok (replicate (Z.to_nat (c / 8 + 1)) 0) 0 src) as (l & -> & Hl & Hget);
    [done|rewrite Hsrc; autorewrite with zlen; zdiv|]. cbn [mbind option_bind].
  assert (Hlb : Forall is_byte l).
  { apply Forall_zget. intros i x. rewrite Hget. case_decide.
    - apply Forall_zget. apply Forall_take. by rewrite drop_0.
    - unfold zget. case_decide; [|done]. by intros [-> _]%lookup_replicate. }
  eexists. split; [done|]. split; [|split; [done|split; [done|]]].
  - split; [cbn; lia|]. split; [done|]. cbn. split; [|done].
    rewrite Hl. autorewrite with zlen. zdiv.
  - intros i Hi'. cbn. unfold bit_at. rewrite Hget, decide_True by (rewrite Hsrc; zdiv).
    unfold src. rewrite Z.sub_0_r, zget_take, drop_0 by zdiv. done.
Qed.

(** [CFBitVectorCreate] holds the first [numBits] bits of the bytes given,
    and both copying functions preserve the bits of the source; they need
    only the bytes that hold those bits. *)
Theorem create_and_copy bytes numBits capacity bv
    (Hn : 0 ≤ numBits) (Hlen : (numBits + 7) / 8 ≤ zlen bytes) (HB : Forall is_byte bytes)
    (Ha : creation_ok numBits) (Hwf : wf bv) (Hac : creation_ok (_count bv)) :
  (∃ b, CFBitVectorCreate (Some bytes) numBits = Some (Some b) ∧ wf b ∧
     bits b = bit_at bytes <$> seqZ 0 numBits) ∧
  (∃ b, CFBitVectorCreateCopy bv = Some (Some b) ∧ wf b ∧ bits b = bits bv ∧
     _variety b = kCFBitVectorImmutable) ∧
  (∃ b, CFBitVectorCreateMutableCopy capacity bv = Some (Some b) ∧ wf b ∧ bits b = bits bv ∧
     _variety b = kCFBitVectorMutable).
Proof.
  pose proof Hwf as (? & ? & HLc & HBc). pose proof (wf_bytes _ Hwf).
  assert (Hmap : ∀ b f n, 0 ≤ n → _count b = n → (∀ i, 0 ≤ i < n → bit_at (_buckets b) i = f i) →
    bits b = f <$> seqZ 0 n).
  { intros b f n Hn' Hcn Hb. apply bits_ext; [lia|unfold zlen; rewrite length_fmap, length_seqZ; lia|].
    intros i Hi. unfold zget. rewrite decide_True by lia. rewrite list_lookup_fmap, lookup_seqZ_lt by lia.
    cbn. f_equal. rewrite Hb by lia. f_equal. lia. }
  split; [|split].
  - destruct (init_ok kCFBitVectorImmutable numBits numBits bytes) as (b & ? & ? & ? & ? & ?); try done. eauto.
  - destruct (init_ok kCFBitVectorImmutable (_count bv) (_count bv) (_buckets bv)) as (b & ? & ? & ? & ? & ?);
      try done; [lia|zdiv|]. exists b. split; [done|]. split; [done|]. split; [|done]. by apply Hmap; [lia|..].
  - destruct (init_ok kCFBitVectorMutable capacity (_count bv) (_buckets bv)) as (b & ? & ? & ? & ? & ?);
      try done; [lia|zdiv|]. exists b. split; [done|]. split; [done|]. split; [|done]. by apply Hmap; [lia|..].
Qed.
End resizing.

(** ** Reading a range out *)

Lemma GetBits_step v m ctx :
  gb_initBits ctx = 0 → 0 ≤ gb_curByte ctx < zlen (gb_bytes ctx) → 0 < gb_totalBits ctx →
  __CFBitVectorGetBits v m ctx =
  Some (v, getBitsContext_step ctx (zupd (gb_bytes ctx) (gb_curByte ctx) (u8 (Z.land v m)))
             (if 8 <=? gb_totalBits ctx then gb_curByte ctx + 1 else gb_curByte ctx)
             (if 8 <=? gb_totalBits ctx then gb_totalBits ctx else 0)
             (gb_ignoreFirstInitBits ctx)).
Proof.
  intros Hi Hc Ht. unfold __CFBitVectorGetBits, __CF_BITS_PER_BUCKET, __CF_BITS_PER_BYTE.
  rewrite Hi. cbn [Z.ltb Z.compare mbind option_bind]. rewrite Z.sub_0_r.
  assert (Hs : u8 (Z.shiftr (u8 (Z.land v m)) (8 - 8)) = u8 (Z.land v m))
    by (rewrite Z.shiftr_0_r; apply u8_id, u8_byte).
  destruct (Z.leb_spec 8 (gb_totalBits ctx)).
  - rewrite Z.min_l by lia. change (Z.to_nat (8 ÷ 8)) with 1%nat. cbn [getBits_loop].
    unfold __CF_BITS_PER_BUCKET, __CF_BITS_PER_BYTE.
    rewrite Hs, zset_ok by done. cbn [mbind option_bind].
    change (0 <? 8 - 8) with false. cbn [mbind option_bind]. by rewrite Hi, Z.sub_0_r.
  - rewrite Z.min_r by lia. rewrite Z.quot_div_nonneg by lia.
    replace (Z.to_nat (gb_totalBits ctx / 8)) with 0%nat by zdiv. cbn [getBits_loop mbind option_bind].
    rewrite (proj2 (Z.ltb_lt _ _)) by lia. rewrite Hs, zset_ok by done. cbn [mbind option_bind].
    by rewrite Z.sub_diag.
Qed.

(** [CFBitVectorGetBits] on a range that starts at a byte boundary: the bits of
    the range arrive packed from the first output byte on, the last byte padded
    with zeros, and no other output byte is touched. *)
Theorem get_bits_aligned bv r bytes
    (Hwf : wf bv) (Hr : valid_range bv r) (Hal : location r mod 8 = 0)
    (Hout : (range_length r + 7) / 8 ≤ zlen bytes) :
  ∃ out, CFBitVectorGetBits bv r bytes = Some out ∧ zlen out = zlen bytes ∧
    (∀ i, 0 ≤ i < 8 * ((range_length r + 7) / 8) → bit_at out i =
       (i <? range_length r) && bit_at (_buckets bv) (location r + i)) ∧
    (∀ j, (range_length r + 7) / 8 ≤ j → out.[j] = bytes.[j]).
Proof.
  destruct r as [lo len], Hr as (? & ? & ?). cbn [location range_length] in *.
  pose proof (wf_bytes _ Hwf). destruct Hwf as (_ & _ & _ & HB). set (bs := _buckets bv) in *.
  unfold CFBitVectorGetBits. cbn [location range_length].
  destruct (Z.eqb_spec 0 len) as [<-|Hne].
  { exists bytes. split; [done|]. split; [done|]. split; [intros i Hi; exfalso; revert Hi; zdiv|done]. }
  unfold __CF_BITS_PER_BUCKET. change (8 - 1) with 7. rewrite land_7, Hal by done.
  set (ctx0 := {| gb_bytes := bytes |}).
  destruct (InternalMap_rule __CFBitVectorGetBits bs lo (lo + len) (λ p bs' c, bs' = bs ∧
      gb_initBits c = 0 ∧ zlen (gb_bytes c) = zlen bytes ∧
      (p < lo + len → gb_curByte c = (p - lo) / 8 ∧ gb_totalBits c = len) ∧
      (∀ i, 0 ≤ i < 8 * ((p - lo + 7) / 8) → bit_at (gb_bytes c) i = (i <? p - lo) && bit_at bs (lo + i)) ∧
      (∀ j, (p - lo + 7) / 8 ≤ j → (gb_bytes c).[j] = bytes.[j])))
    with (c0 := ctx0) as (bs' & c' & Hr & _ & _ & _ & _ & HL' & _ & Hb' & Hrest); try lia.
  - intros idx p q bs1 c ? ? ? ? Hp ? ? HB1 (-> & Hinit & HL & Hcur & Hbits & Hj).
    assert (p = 8 * idx) as -> by (destruct Hp; [zdiv|done]).
    destruct (Hcur ltac:(lia)) as [Hc Ht]. clear Hcur Hp.
    destruct (zget_is_Some bs idx) as [v Hv]; [lia|].
    assert (Hvb : is_byte v) by (by apply (proj1 (Forall_zget _ _) HB _ _ Hv)).
    assert (Hcr : 0 ≤ gb_curByte c < zlen (gb_bytes c)) by (rewrite Hc, HL; zdiv).
    eexists v, v, _. split; [done|]. split; [by apply GetBits_step; [..|lia]|].
    split; [done|]. split; [by rewrite blend_same, zupd_id|]. cbn. split; [done|].
    split; [by rewrite zlen_zupd|]. split; [|split].
    + intros Hq. rewrite Ht, Hc. zcases; split; zdiv.
    + intros i Hi. rewrite bit_at_upd by done. case_decide as Hd.
      * rewrite testbit_u8, Z.land_spec by zdiv.
        replace (7 - i mod 8) with (7 - (lo + i - 8 * idx)) by (rewrite Hc in Hd; zdiv).
        assert (0 ≤ lo + i - 8 * idx < 8) by (rewrite Hc in Hd; zdiv).
        rewrite mask_bit by lia. unfold bit_at. replace ((lo + i) / 8) with idx by zdiv.
        rewrite Hv. replace (7 - (lo + i) mod 8) with (7 - (lo + i - 8 * idx)) by zdiv.
        rewrite andb_comm. zcases; by rewrite ?andb_true_r, ?andb_false_r.
      * assert (i < 8 * idx - lo) by (rewrite Hc in Hd; zdiv). rewrite Hbits by zdiv. by zcases.
    + intros j Hj'. rewrite zget_zupd by done. rewrite decide_False by (rewrite Hc; zdiv).
      apply Hj. zdiv.
  - split; [done|]. split; [done|]. split; [done|]. cbn. split; [done|]. split; [done|].
    split; [intros _; by rewrite Z.sub_diag|]. split; [|done]. rewrite Z.sub_diag. intros i Hi.
    exfalso. revert Hi. zdiv.
  - replace (lo + len - lo) with len in * by lia. fold bs. rewrite Hr. cbn [mbind option_bind]. eauto.
Qed.

(** On a range that starts inside a byte [CFBitVectorGetBits] loses bits:
    [ignoreFirstInitBits] is never cleared, so the leading bits of every later
    bucket are dropped and [curByte] never moves.  Twelve one bits read from
    offset 4 come back as the two bytes F0 and (untouched) 00. *)
Theorem get_bits_unaligned_loses_bits :
  ∃ bv, wf bv ∧ bits bv = replicate 16 true ∧ valid_range bv (CFRangeMake 4 12) ∧
    CFBitVectorGetBits bv (CFRangeMake 4 12) [0; 0] = Some [0xF0; 0].
Proof.
  exists {| _count := 16; _capacity := 64; _buckets := [255; 255; 0; 0; 0; 0; 0; 0; 0];
            _variety := kCFBitVectorMutable |}.
  split; [|split; [reflexivity|split; [|reflexivity]]].
  - unfold wf. by_decide.
  - unfold valid_range. by_decide.
Qed.

(** ** Equality *)

Lemma equal_loop_ok b1 b2 idx n :
  0 ≤ idx → idx + Z.of_nat n ≤ zlen b1 → idx + Z.of_nat n ≤ zlen b2 →
  ∃ b, equal_loop b1 b2 idx n = Some b ∧
    (b = true ↔ ∀ i, idx ≤ i < idx + Z.of_nat n → b1.[i] = b2.[i]).
Proof.
  revert idx. induction n as [|n IH]; intros idx H0 H1 H2; cbn [equal_loop].
  { eexists. split; [done|]. split; [lia|done]. }
  destruct (zget_is_Some b1 idx) as [x Hx]; [lia|]. destruct (zget_is_Some b2 idx) as [y Hy]; [lia|].
  rewrite Hx, Hy. cbn [mbind option_bind]. destruct (Z.eqb_spec x y) as [->|Hne].
  - destruct (IH (idx + 1)) as (b & -> & Hb); [lia..|]. exists b. split; [done|]. rewrite Hb. split.
    + intros H i Hi. destruct (decide (i = idx)) as [->|]; [congruence|]. apply H. lia.
    + intros H i Hi. apply H. lia.
  - eexists. split; [done|]. split; [done|]. intros H. specialize (H idx). rewrite Hx, Hy in H.
    destruct Hne. specialize (H ltac:(lia)). congruence.
Qed.

(** [__CFBitVectorEqual] compares the counts and the buckets up to and including
    the one that holds bit [_count]: when it answers [true] the two vectors
    hold the same bits. *)
Theorem equal_sound bv1 bv2 (Hwf1 : wf bv1) (Hwf2 : wf bv2) :
  ∃ b, __CFBitVectorEqual bv1 bv2 = Some b ∧
    (b = true ↔ _count bv1 = _count bv2 ∧ (_count bv1 ≠ 0 →
       ∀ j, 0 ≤ j ≤ _count bv1 / 8 → (_buckets bv1).[j] = (_buckets bv2).[j])) ∧
    (b = true → bits bv1 = bits bv2).
Proof.
  pose proof (wf_bytes _ Hwf1). pose proof (wf_bytes _ Hwf2).
  pose proof Hwf1 as (? & _). unfold __CFBitVectorEqual.
  destruct (Z.eqb_spec (_count bv1) (_count bv2)) as [Hc|Hc]; cbn [negb].
  2: { exists false. split; [done|]. split; [|done]. split; [done|]. by intros [? _]. }
  assert (Hbits : (∀ j, 0 ≤ j → 8 * j < _count bv1 → (_buckets bv1).[j] = (_buckets bv2).[j]) →
    bits bv1 = bits bv2).
  { intros Hj. apply bits_ext; [lia|by rewrite bits_length by lia|]. intros i Hi.
    rewrite bits_lookup by lia. f_equal. unfold bit_at. rewrite Hj; [done|zdiv|zdiv]. }
  destruct (Z.eqb_spec 0 (_count bv1)) as [Hz|Hz].
  { exists true. split; [done|]. split; [|intros _; apply Hbits; lia]. split; [done|]. done. }
  unfold __CF_BITS_PER_BUCKET. rewrite Z.quot_div_nonneg by lia.
  destruct (equal_loop_ok (_buckets bv1) (_buckets bv2) 0 (Z.to_nat (_count bv1 / 8 + 1)))
    as (b & -> & Hb); [lia|zdiv|zdiv|]. exists b. split; [done|].
  assert (Hb' : b = true ↔ ∀ j, 0 ≤ j ≤ _count bv1 / 8 → (_buckets bv1).[j] = (_buckets bv2).[j]).
  { rewrite Hb. split; intros Hj j Hj'; apply Hj; zdiv. }
  split.
  - rewrite Hb'. split; [intros Hj; done|]. intros [_ Hj]. by apply Hj.
  - intros Ht. apply Hbits. intros j ? ?. apply Hb'; [done|zdiv].
Qed.

(** The converse fails: [CFBitVectorCreate] keeps the bits of the last input
    byte beyond [numBits], and [__CFBitVectorEqual] compares them, so two
    vectors of the same four bits are reported different. *)
Theorem equal_not_complete :
  let A := fill_allocator 0 (conj (Z.le_refl 0) eq_refl) in
  ∃ b1 b2, @CFBitVectorCreate A (Some [0xFF]) 4 = Some (Some b1) ∧
    @CFBitVectorCreate A (Some [0xF0]) 4 = Some (Some b2) ∧
    bits b1 = bits b2 ∧ __CFBitVectorEqual b1 b2 = Some false.
Proof. eexists _, _. repeat split; reflexivity. Qed.

(** ** Witnesses *)

Definition sample : CFBitVector :=
  {| _count := 20; _capacity := 64; _buckets := [0xA5; 0x0F; 0xF3; 0; 0; 0; 0; 0; 0];
     _variety := kCFBitVectorMutable |}.

Lemma byte_AA : is_byte 0xAA.
Proof. by_decide. Qed.

Definition sample_allocator : Allocator := fill_allocator 0xAA byte_AA.

Lemma sample_wf : wf sample.
Proof. unfold wf. by_decide. Qed.

Lemma bit_index_operations_witness :
  ∃ bv' b, CFBitVectorFlipBitAtIndex sample 17 = Some bv' ∧ wf bv' ∧
    (bits sample).[17] = Some b ∧ bits bv' = zupd (bits sample) 17 (negb b).
Proof. apply (bit_index_operations sample 17 1 sample_wf). split; vm_compute; congruence. Defined.

Lemma range_mutators_witness :
  ∃ bv', CFBitVectorSetBits sample (CFRangeMake 3 14) 1 = Some bv' ∧ wf bv' ∧
    bits bv' = map_in_range (CFRangeMake 3 14) (λ _, negb (1 =? 0)) (bits sample).
Proof.
  apply (range_mutators sample (CFRangeMake 3 14) 1 sample_wf). unfold valid_range. by_decide.
Defined.

Lemma count_of_bit_witness :
  CFBitVectorGetCountOfBit sample (CFRangeMake 3 14) 1 = Some 7.
Proof.
  rewrite (proj1 (count_of_bit sample (CFRangeMake 3 14) 1 sample_wf
    ltac:(unfold valid_range; by_decide))).
  reflexivity.
Defined.

Lemma index_of_bit_witness :
  ∃ k, CFBitVectorGetFirstIndexOfBit sample (CFRangeMake 8 12) 1 = Some k.
Proof.
  destruct (proj1 (index_of_bit sample (CFRangeMake 8 12) 1 sample_wf
    ltac:(unfold valid_range; by_decide))) as (k & Hk & _). exists k. exact Hk.
Defined.

Lemma set_count_witness :
  ∃ bv', @CFBitVectorSetCount sample_allocator sample 90 = Some bv' ∧ wf bv' ∧
    _variety bv' = kCFBitVectorMutable ∧
    bits bv' = take 90 (bits sample) ++ replicate 70 false.
Proof.
  apply (@set_count sample_allocator sample 90 sample_wf eq_refl); [lia|].
  intros _. eexists. reflexivity.
Defined.

Lemma create_and_copy_witness :
  ∃ b, @CFBitVectorCreate sample_allocator (Some [0xFF; 0x80]) 9 = Some (Some b) ∧ wf b ∧
    bits b = bit_at [0xFF; 0x80] <$> seqZ 0 9.
Proof.
  apply (@create_and_copy sample_allocator [0xFF; 0x80] 9 0 sample); [lia|by_decide|by_decide| |exact sample_wf|];
    (split; [reflexivity|eexists; reflexivity]).
Defined.

Lemma get_bits_aligned_witness :
  ∃ out, CFBitVectorGetBits sample (CFRangeMake 8 12) [1; 2; 3] = Some out ∧ zlen out = 3.
Proof.
  destruct (get_bits_aligned sample (CFRangeMake 8 12) [1; 2; 3] sample_wf
    ltac:(unfold valid_range; by_decide) eq_refl ltac:(by_decide)) as (out & H & H' & _).
  exists out. exact (conj H H').
Defined.

Lemma equal_sound_witness :
  ∃ b, __CFBitVectorEqual sample sample = Some b ∧ b = true.
Proof.
  destruct (equal_sound sample sample sample_wf sample_wf) as (b & H & H' & _).
  exists b. split; [exact H|]. apply H'. split; [reflexivity|]. intros _ j _. reflexivity.
Defined.
