(* ===== verification/BinaryHeap.v ===== *)
(** * CFBinaryHeap (SourceCode/CFRunLoopRef/CFBinaryHeap.c)

    A binary min-heap of pointers in a growable array.  Values are the pointer
    words; the callbacks are fields of the heap as in the C structure.  The
    calls of the [retain] and [release] callbacks are recorded in [_events],
    newest first.  [None] is an access outside the array, a [HALT], an
    undefined shift or a loop that runs out of fuel.  Garbage collection
    (the write barriers and the weak-memory bit) is not modelled. *)
From S2P Require Import Prelude.
From Stdlib Require Import Sorted.
Open Scope Z_scope.

(** Storage for an array of pointers: a request may fail, and otherwise gives
    cells of unspecified contents. *)
Class Storage := {
  storage : Z → option (list Z);
  storage_len n b : storage n = Some b → 0 ≤ n → zlen b = n;
}.

(** Function pointers are compared by address. *)
Record CFBinaryHeapCallBacks := {
  cb_retain : option (Z → Z);
  cb_release : bool;
  cb_compare : option (Z * (Z → Z → comparison));
}.

Definition no_callbacks : CFBinaryHeapCallBacks :=
  {| cb_retain := None; cb_release := false; cb_compare := None |}.

Inductive event := Retained (v : Z) | Released (v : Z).

Record CFBinaryHeap := {
  _count : Z;
  _capacity : Z;
  _callbacks : CFBinaryHeapCallBacks;
  _buckets : list Z;
  _events : list event;
}.

(** [flsl]: one more than the position of the highest bit set. *)
Definition flsl (x : Z) : Z := if x =? 0 then 0 else Z.log2 x + 1.

(** [1 << flsl(capacity)] is an [int] shift: undefined from 31 on. *)
Definition __CFBinaryHeapRoundUpCapacity (capacity : Z) : option Z :=
  if capacity <? 4 then Some 4
  else if flsl capacity <? 31 then Some (Z.shiftl 1 (flsl capacity)) else None.

Definition __CFBinaryHeapNumBucketsForCapacity (capacity : Z) : Z := capacity.

Definition __CFBinaryHeapSetNumBucketsUsed (h : CFBinaryHeap) (v : Z) : CFBinaryHeap :=
  {| _count := v; _capacity := _capacity h; _callbacks := _callbacks h;
     _buckets := _buckets h; _events := _events h |}.
Definition __CFBinaryHeapSetNumBuckets (h : CFBinaryHeap) (v : Z) : CFBinaryHeap :=
  {| _count := _count h; _capacity := v; _callbacks := _callbacks h;
     _buckets := _buckets h; _events := _events h |}.
Definition set_buckets (h : CFBinaryHeap) (b : list Z) : CFBinaryHeap :=
  {| _count := _count h; _capacity := _capacity h; _callbacks := _callbacks h;
     _buckets := b; _events := _events h |}.
Definition add_events (h : CFBinaryHeap) (e : list event) : CFBinaryHeap :=
  {| _count := _count h; _capacity := _capacity h; _callbacks := _callbacks h;
     _buckets := _buckets h; _events := e ++ _events h |}.

(** [(!compare && a > b) || (compare && kCFCompareGreaterThan == compare(a, b))] *)
Definition greater (cb : CFBinaryHeapCallBacks) (a b : Z) : bool :=
  match cb_compare cb with
  | None => b <? a
  | Some (_, f) => match f a b with Gt => true | _ => false end
  end.

(** [value == item || (compare && kCFCompareEqualTo == compare(value, item))] *)
Definition same (cb : CFBinaryHeapCallBacks) (value item : Z) : bool :=
  (value =? item) ||
  match cb_compare cb with
  | None => false
  | Some (_, f) => match f value item with Eq => true | _ => false end
  end.

Definition CFBinaryHeapGetCount (h : CFBinaryHeap) : Z := _count h.

Fixpoint count_loop (h : CFBinaryHeap) (value idx cnt : Z) (n : nat) : option Z :=
  match n with
  | O => Some cnt
  | S n =>
      item ← (_buckets h).[idx];
      count_loop h value (idx + 1) (if same (_callbacks h) value item then cnt + 1 else cnt) n
  end.

Definition CFBinaryHeapGetCountOfValue (h : CFBinaryHeap) (value : Z) : option Z :=
  count_loop h value 0 0 (Z.to_nat (_count h)).

Fixpoint contains_loop (h : CFBinaryHeap) (value idx : Z) (n : nat) : option bool :=
  match n with
  | O => Some false
  | S n =>
      item ← (_buckets h).[idx];
      if same (_callbacks h) value item then Some true else contains_loop h value (idx + 1) n
  end.

Definition CFBinaryHeapContainsValue (h : CFBinaryHeap) (value : Z) : option bool :=
  contains_loop h value 0 (Z.to_nat (_count h)).

Definition CFBinaryHeapGetMinimum (h : CFBinaryHeap) : option Z :=
  if 0 <? _count h then (_buckets h).[0] else Some 0.

(** The Boolean result with the value stored through the pointer. *)
Definition CFBinaryHeapGetMinimumIfPresent (h : CFBinaryHeap) : option (option Z) :=
  if 0 =? _count h then Some None else v ← (_buckets h).[0]; Some (Some v).

(** The sift-up loop of [CFBinaryHeapAddValue]; [fuel] bounds its iterations. *)
Fixpoint up_loop (cb : CFBinaryHeapCallBacks) (value : Z) (b : list Z) (idx pidx : Z)
    (fuel : nat) : option (list Z * Z) :=
  if 0 <? idx then
    match fuel with
    | O => None
    | S fuel =>
        item ← b.[pidx];
        if negb (greater cb item value) then Some (b, idx) else
        b ← b.[idx := item];
        let idx := pidx in
        let pidx := Z.shiftr (idx - 1) 1 in
        up_loop cb value b idx pidx fuel
    end
  else Some (b, idx).

(** The sift-down loop of [CFBinaryHeapRemoveMinimumValue]. *)
Fixpoint down_loop (cb : CFBinaryHeapCallBacks) (val : Z) (b : list Z) (count idx cidx : Z)
    (fuel : nat) : option (list Z * Z) :=
  if cidx <? count then
    match fuel with
    | O => None
    | S fuel =>
        item ← b.[cidx];
        '(cidx, item) ←
          (if cidx + 1 <? count then
             item2 ← b.[cidx + 1];
             Some (if greater cb item item2 then (cidx + 1, item2) else (cidx, item))
           else Some (cidx, item));
        if greater cb item val then Some (b, idx) else
        b ← b.[idx := item];
        let idx := cidx in
        let cidx := Z.shiftl idx 1 + 1 in
        down_loop cb val b count idx cidx fuel
    end
  else Some (b, idx).

Definition CFBinaryHeapRemoveMinimumValue (h : CFBinaryHeap) : option CFBinaryHeap :=
  let cnt := _count h in
  if 0 =? cnt then Some h else
  let idx := 0 in
  let h := __CFBinaryHeapSetNumBucketsUsed h (cnt - 1) in
  h ← (if cb_release (_callbacks h)
       then v ← (_buckets h).[idx]; Some (add_events h [Released v]) else Some h);
  val ← (_buckets h).[cnt - 1];
  let cidx := Z.shiftl idx 1 + 1 in
  '(b, idx) ← down_loop (_callbacks h) val (_buckets h) (_count h) idx cidx (Z.to_nat cnt);
  b ← b.[idx := val];
  Some (set_buckets h b).

Fixpoint release_loop (h : CFBinaryHeap) (idx : Z) (n : nat) : option CFBinaryHeap :=
  match n with
  | O => Some h
  | S n =>
      v ← (_buckets h).[idx];
      release_loop (add_events h [Released v]) (idx + 1) n
  end.

Definition CFBinaryHeapRemoveAllValues (h : CFBinaryHeap) : option CFBinaryHeap :=
  let cnt := _count h in
  h ← (if cb_release (_callbacks h) then release_loop h 0 (Z.to_nat cnt) else Some h);
  Some (__CFBinaryHeapSetNumBucketsUsed h 0).

Section allocating.
Context `{Storage}.

(** [_CFAllocatorReallocateGC] on the array, then [HALT] when it fails. *)
Definition __CFBinaryHeapGrow (h : CFBinaryHeap) (numNewValues : Z) : option CFBinaryHeap :=
  let oldCount := _count h in
  capacity ← __CFBinaryHeapRoundUpCapacity (oldCount + numNewValues);
  let h := __CFBinaryHeapSetNumBuckets h (__CFBinaryHeapNumBucketsForCapacity capacity) in
  fresh ← storage (_capacity h);
  Some (set_buckets h
    (take (Z.to_nat (_capacity h)) (_buckets h) ++ drop (length (_buckets h)) fresh)).

Definition CFBinaryHeapAddValue (h : CFBinaryHeap) (value : Z) : option CFBinaryHeap :=
  h ← (if _count h =? _capacity h then __CFBinaryHeapGrow h 1 else Some h);
  let cnt := _count h in
  let idx := cnt in
  let h := __CFBinaryHeapSetNumBucketsUsed h (cnt + 1) in
  let pidx := Z.shiftr (idx - 1) 1 in
  '(b, idx) ← up_loop (_callbacks h) value (_buckets h) idx pidx (Z.to_nat idx);
  match cb_retain (_callbacks h) with
  | Some retain =>
      b ← b.[idx := retain value];
      Some (add_events (set_buckets h b) [Retained value])
  | None => b ← b.[idx := value]; Some (set_buckets h b)
  end.

Fixpoint add_all (h : CFBinaryHeap) (values : list Z) (idx : Z) (n : nat) : option CFBinaryHeap :=
  match n with
  | O => Some h
  | S n =>
      v ← values.[idx];
      h ← CFBinaryHeapAddValue h v;
      add_all h values (idx + 1) n
  end.

(** [Some None] is the [NULL] result of a failed allocation. *)
Definition __CFBinaryHeapInit (values : list Z) (numValues : Z)
    (callBacks : option CFBinaryHeapCallBacks) : option (option CFBinaryHeap) :=
  capacity ← __CFBinaryHeapRoundUpCapacity 1;
  match storage (__CFBinaryHeapNumBucketsForCapacity capacity) with
  | None => Some None
  | Some b =>
      let memory := {| _count := 0; _capacity := __CFBinaryHeapNumBucketsForCapacity capacity;
        _callbacks := match callBacks with Some cb => cb | None => no_callbacks end;
        _buckets := b; _events := [] |} in
      h ← add_all memory values 0 (Z.to_nat numValues);
      Some (Some h)
  end.

Definition CFBinaryHeapCreate (callBacks : option CFBinaryHeapCallBacks) :=
  __CFBinaryHeapInit [] 0 callBacks.

Definition CFBinaryHeapCreateCopy (h : CFBinaryHeap) :=
  __CFBinaryHeapInit (_buckets h) (_count h) (Some (_callbacks h)).

(** [while (0 < __CFBinaryHeapCount(heapCopy))]: the values in the order removed. *)
Fixpoint drain (copy : CFBinaryHeap) (fuel : nat) : option (list Z) :=
  if 0 <? _count copy then
    match fuel with
    | O => None
    | S fuel =>
        value ← CFBinaryHeapGetMinimum copy;
        copy ← CFBinaryHeapRemoveMinimumValue copy;
        rest ← drain copy fuel;
        Some (value :: rest)
    end
  else Some [].

(** [CFBinaryHeapGetValues] stores the values drained from a copy in the
    caller's buffer. *)
Definition CFBinaryHeapGetValues (h : CFBinaryHeap) (values : list Z) : option (list Z) :=
  let cnt := _count h in
  if 0 =? cnt then Some values else
  copy ← CFBinaryHeapCreateCopy h;
  copy ← copy;
  out ← drain copy (Z.to_nat (_count copy));
  zwrite values 0 out.

(** [CFBinaryHeapApplyFunction]: the applier is called on the same values, in
    the same order; [st] is the state the applier changes. *)
Definition CFBinaryHeapApplyFunction {S} (h : CFBinaryHeap) (applier : Z → S → S) (st : S)
    : option S :=
  let cnt := _count h in
  if 0 =? cnt then Some st else
  copy ← CFBinaryHeapCreateCopy h;
  copy ← copy;
  out ← drain copy (Z.to_nat (_count copy));
  Some (fold_left (λ s v, applier v s) out st).

(** The comparison of [__CFBinaryHeapEqual] (the buffers are on the stack up
    to 128 values; what they hold at first does not matter): [compare] is called on the values
    of the two lists, [!compare(...)] being true when it returns 0, equality. *)
Fixpoint equal_values (compare : option (Z * (Z → Z → comparison))) (l1 l2 : list Z) (idx : Z)
    (n : nat) : option bool :=
  match n with
  | O => Some true
  | S n =>
      val1 ← l1.[idx]; val2 ← l2.[idx];
      if negb (val1 =? val2) then
        match compare with
        | None => Some false
        | Some (_, f) =>
            match f val1 val2 with
            | Eq => Some false
            | _ => equal_values compare l1 l2 (idx + 1) n
            end
        end
      else equal_values compare l1 l2 (idx + 1) n
  end.

Definition __CFBinaryHeapEqual (heap1 heap2 : CFBinaryHeap) : option bool :=
  let cnt := _count heap1 in
  if negb (cnt =? _count heap2) then Some false else
  let compare := cb_compare (_callbacks heap1) in
  if negb (bool_decide (fst <$> compare = fst <$> cb_compare (_callbacks heap2)))
  then Some false else
  if 0 =? cnt then Some true else
  buffer ← (if cnt <=? 128 then Some (replicate 256 0) else storage (2 * cnt));
  let half := if cnt <=? 128 then 128 else cnt in
  list1 ← CFBinaryHeapGetValues heap1 (take (Z.to_nat half) buffer);
  list2 ← CFBinaryHeapGetValues heap2 (drop (Z.to_nat half) buffer);
  equal_values compare list1 list2 0 (Z.to_nat cnt).

Definition __CFBinaryHeapHash (h : CFBinaryHeap) : Z := _count h.
End allocating.

(** ** Heap order *)

(** What a comparison callback must satisfy: [greater] is the strict part of a
    total preorder. *)
Class Ordered (cb : CFBinaryHeapCallBacks) : Prop := {
  greater_asym a b : greater cb a b = true → greater cb b a = false;
  greater_trans a b c : greater cb a b = false → greater cb b c = false → greater cb a c = false;
}.

#[export] Instance no_compare_ordered cb : cb_compare cb = None → Ordered cb.
Proof.
  intros E. split; unfold greater; rewrite E; intros; zbool; apply Z.ltb_ge; lia.
Qed.

Definition cell (b : list Z) (i : Z) : Z := default 0 b.[i].

Lemma cell_get b i : 0 ≤ i < zlen b → b.[i] = Some (cell b i).
Proof. intros [x Hx]%zget_is_Some. unfold cell. by rewrite Hx. Qed.

Lemma cell_upd b i j x : 0 ≤ i < zlen b → cell (zupd b i x) j = if decide (j = i) then x else cell b j.
Proof. intros. unfold cell. rewrite zget_zupd by done. by case_decide. Qed.

(** Moving a hole: the value at [i] is replaced, then the one at [j]. *)
Lemma swap_hole (b : list Z) i j v :
  0 ≤ i < zlen b → 0 ≤ j < zlen b → i ≠ j →
  zupd (zupd b i (cell b j)) j v ≡ₚ zupd b i v.
Proof.
  intros Hi Hj Hne. set (b2 := zupd b i v).
  assert (Hb : zupd (zupd b i (cell b j)) j v = <[Z.to_nat j := v]> (<[Z.to_nat i := cell b j]> b2)).
  { unfold b2, zupd. by rewrite list_insert_insert_eq. }
  rewrite Hb. apply Permutation_insert_swap.
  - unfold b2, zupd. apply list_lookup_insert_eq. unfold zlen in Hi. lia.
  - unfold b2, zupd. rewrite list_lookup_insert_ne by lia.
    pose proof (cell_get b j Hj) as E. unfold zget in E. case_decide; [done|lia].
Qed.

Section order.
Context (cb : CFBinaryHeapCallBacks) `{!Ordered cb}.

Definition leq (a b : Z) : Prop := greater cb a b = false.

(** Every cell below [n] is at least its parent. *)
Definition heap_ordered (b : list Z) (n : Z) : Prop :=
  ∀ i, 0 < i < n → leq (cell b ((i - 1) / 2)) (cell b i).

Lemma leq_refl a : leq a a.
Proof.
  unfold leq. destruct (greater cb a a) eqn:E; [|done]. by rewrite (greater_asym _ _ E) in E.
Qed.

Lemma leq_trans a b c : leq a b → leq b c → leq a c.
Proof. apply greater_trans. Qed.

Lemma greater_leq a b : greater cb a b = true → leq b a.
Proof. apply greater_asym. Qed.

(** The root is a minimum. *)
Lemma root_least b n i : heap_ordered b n → 0 ≤ i < n → leq (cell b 0) (cell b i).
Proof.
  intros Hh [H0 H1]. revert H1. pattern i. apply Zlt_0_ind; [clear i H0|done].
  intros i IH H0 H1. destruct (decide (i = 0)) as [->|]; [apply leq_refl|].
  apply leq_trans with (cell b ((i - 1) / 2)); [|apply Hh; lia].
  apply IH; zdiv.
Qed.

(** A value that the comparison does not tell from another. *)
Definition like (r v : Z) : Prop :=
  ∀ x, greater cb r x = greater cb v x ∧ greater cb x r = greater cb x v.

(** A hole at [idx] on its way up: [v] will be stored there. *)
Definition up_inv (b : list Z) (idx v n : Z) : Prop :=
  0 ≤ idx < n ∧ n ≤ zlen b ∧
  (∀ i, 0 < i < n → i ≠ idx → (i - 1) / 2 ≠ idx → leq (cell b ((i - 1) / 2)) (cell b i)) ∧
  (∀ i, 0 < i < n → (i - 1) / 2 = idx →
     leq v (cell b i) ∧ (0 < idx → leq (cell b ((idx - 1) / 2)) (cell b i))).

Lemma up_done b idx v n r :
  up_inv b idx v n → (0 < idx → leq (cell b ((idx - 1) / 2)) v) → like r v →
  heap_ordered (zupd b idx r) n.
Proof.
  intros (Hi & Hn & Ha & Hb) Hp Hr i Hi'. unfold leq in *. rewrite !cell_upd by lia.
  assert ((i - 1) / 2 < i) by zdiv.
  destruct (decide (i = idx)) as [->|Hne].
  - rewrite decide_False by lia. rewrite (proj2 (Hr _)). apply Hp. lia.
  - case_decide as Hpi; [|by apply Ha]. rewrite (proj1 (Hr _)). by apply Hb.
Qed.

Lemma up_step b idx v n :
  up_inv b idx v n → 0 < idx → greater cb (cell b ((idx - 1) / 2)) v = true →
  up_inv (zupd b idx (cell b ((idx - 1) / 2))) ((idx - 1) / 2) v n.
Proof.
  intros (Hi & Hn & Ha & Hb) H0 Hg. set (p := (idx - 1) / 2) in *.
  assert (Hp : 0 ≤ p < idx) by (unfold p; zdiv). pose proof (greater_leq _ _ Hg) as Hvp.
  assert (Hpp : 0 < p → leq (cell b ((p - 1) / 2)) (cell b p)).
  { intros. apply Ha; [lia|lia|zdiv]. }
  split; [lia|]. split; [by rewrite zlen_zupd|]. split.
  - intros i Hi' Hne Hpne. rewrite !cell_upd by lia.
    destruct (decide (i = idx)) as [->|]; [done|].
    case_decide as E; [by apply Hb|by apply Ha].
  - intros i Hi' Hpi. rewrite !cell_upd by lia.
    destruct (decide (i = idx)) as [->|Hne].
    + split; [done|]. intros. rewrite decide_False by zdiv. by apply Hpp.
    + assert (Hs : leq (cell b p) (cell b i)) by (rewrite <- Hpi at 1; apply Ha; [lia|done|lia]).
      split; [by apply leq_trans with (cell b p)|]. intros. rewrite decide_False by zdiv.
      apply leq_trans with (cell b p); [by apply Hpp|done].
Qed.

Lemma shiftr_half x : Z.shiftr x 1 = x / 2.
Proof. by rewrite Z.shiftr_div_pow2 by lia. Qed.

Lemma up_loop_ok b idx v n fuel :
  up_inv b idx v n → idx ≤ Z.of_nat fuel →
  ∃ b' idx', up_loop cb v b idx (Z.shiftr (idx - 1) 1) fuel = Some (b', idx') ∧
    0 ≤ idx' < n ∧ zlen b' = zlen b ∧ (∀ j, n ≤ j → b'.[j] = b.[j]) ∧
    (∀ w, zupd b' idx' w ≡ₚ zupd b idx w) ∧
    (∀ r, like r v → heap_ordered (zupd b' idx' r) n).
Proof.
  revert b idx. induction fuel as [|fuel IH]; intros b idx Hinv Hf; pose proof Hinv as (Hi & Hn & _).
  { assert (idx = 0) as -> by lia. cbn. eexists _, _. split; [done|].
    split; [done|]. split; [done|]. split; [done|]. split; [done|]. intros r Hr.
    apply up_done with v; [done|lia|done]. }
  cbn [up_loop]. destruct (Z.ltb_spec 0 idx).
  2: { assert (idx = 0) as -> by lia. eexists _, _. split; [done|].
    split; [done|]. split; [done|]. split; [done|]. split; [done|]. intros r Hr.
    apply up_done with v; [done|lia|done]. }
  rewrite shiftr_half. set (p := (idx - 1) / 2). assert (Hp : 0 ≤ p < idx) by (unfold p; zdiv).
  rewrite cell_get by lia. cbn [mbind option_bind]. destruct (greater cb (cell b p) v) eqn:Hg; cbn [negb].
  - rewrite zset_ok by lia. cbn [mbind option_bind].
    destruct (IH (zupd b idx (cell b p)) p) as (b' & idx' & E & ? & Hlen & Htail & Hperm & Hord);
      [by apply up_step|lia|].
    exists b', idx'. split; [done|]. split; [done|]. split; [by rewrite Hlen, zlen_zupd|].
    split; [|split; [|done]].
    + intros j Hj. rewrite Htail, zget_zupd by lia. by rewrite decide_False by lia.
    + intros w. rewrite Hperm. apply swap_hole; lia.
  - eexists _, _. split; [done|]. split; [done|]. split; [done|]. split; [done|]. split; [done|].
    intros r Hr. apply up_done with v; [done| |done]. intros _. exact Hg.
Qed.

(** A hole on its way down. *)
Definition down_inv (b : list Z) (idx v n : Z) : Prop :=
  0 ≤ idx < Z.max n 1 ∧ Z.max n 1 ≤ zlen b ∧
  (∀ i, 0 < i < n → i ≠ idx → (i - 1) / 2 ≠ idx → leq (cell b ((i - 1) / 2)) (cell b i)) ∧
  (0 < idx → leq (cell b ((idx - 1) / 2)) v) ∧
  (∀ i, 0 < i < n → (i - 1) / 2 = idx → 0 < idx → leq (cell b ((idx - 1) / 2)) (cell b i)).

Lemma down_done b idx v n :
  down_inv b idx v n → (∀ i, 0 < i < n → (i - 1) / 2 = idx → leq v (cell b i)) →
  heap_ordered (zupd b idx v) n.
Proof.
  intros (Hi & Hn & Ha & Hb & _) Hc i Hi'. rewrite !cell_upd by lia.
  assert ((i - 1) / 2 < i) by zdiv.
  destruct (decide (i = idx)) as [->|Hne].
  - rewrite decide_False by lia. apply Hb. lia.
  - case_decide as Hpi; [by apply Hc|by apply Ha].
Qed.

Lemma down_step b idx v n c :
  down_inv b idx v n → 0 < c < n → (c - 1) / 2 = idx →
  (∀ i, 0 < i < n → (i - 1) / 2 = idx → leq (cell b c) (cell b i)) →
  leq (cell b c) v → down_inv (zupd b idx (cell b c)) c v n.
Proof.
  intros (Hi & Hn & Ha & Hb & Hcc) Hc Hpc Hmin Hle.
  assert (idx < c) by zdiv.
  split; [lia|]. split; [by rewrite zlen_zupd|]. split; [|split].
  - intros i Hi' Hne Hpne. rewrite !cell_upd by lia.
    destruct (decide (i = idx)) as [->|].
    + rewrite decide_False by zdiv. apply Hcc; [done|done|lia].
    + case_decide as E; [by apply Hmin|by apply Ha].
  - intros _. rewrite cell_upd by lia. by rewrite decide_True.
  - intros i Hi' Hpi _. rewrite !cell_upd by lia. rewrite decide_True by done.
    rewrite decide_False by zdiv. rewrite <- Hpi at 1. apply Ha; [done|zdiv|lia].
Qed.

Lemma down_loop_ok b idx v n fuel :
  down_inv b idx v n → n - idx ≤ Z.of_nat fuel →
  ∃ b' idx', down_loop cb v b n idx (Z.shiftl idx 1 + 1) fuel = Some (b', idx') ∧
    0 ≤ idx' < Z.max n 1 ∧ zlen b' = zlen b ∧ (∀ j, Z.max n 1 ≤ j → b'.[j] = b.[j]) ∧
    zupd b' idx' v ≡ₚ zupd b idx v ∧ heap_ordered (zupd b' idx' v) n.
Proof.
  revert b idx. induction fuel as [|fuel IH]; intros b idx Hinv Hf; pose proof Hinv as (Hi & Hn & _);
    cbn [down_loop]; rewrite Z.shiftl_mul_pow2 by lia; change (2 ^ 1) with 2;
    (destruct (Z.ltb_spec (idx * 2 + 1) n) as [Hlt|Hge];
      [|eexists _, _; split; [done|]; do 4 (split; [done|]); apply down_done; [done|]; intros i Hi' Hpi; exfalso; zdiv]).
  { lia. }
  rewrite (cell_get b (idx * 2 + 1)) by lia. cbn [mbind option_bind].
  set (c1 := idx * 2 + 1) in *.
  (* the smaller child *)
  assert (∃ c, (if c1 + 1 <? n then item2 ← b.[c1 + 1];
      Some (if greater cb (cell b c1) item2 then (c1 + 1, item2) else (c1, cell b c1))
    else Some (c1, cell b c1)) = Some (c, cell b c) ∧ (c1 ≤ c ≤ c1 + 1) ∧ c < n ∧
    ∀ i, 0 < i < n → (i - 1) / 2 = idx → leq (cell b c) (cell b i)) as (c & -> & Hc & Hcn & Hmin).
  { assert (Hch : ∀ i, (i - 1) / 2 = idx → i = c1 ∨ i = c1 + 1) by (intros; unfold c1; zdiv).
    destruct (Z.ltb_spec (c1 + 1) n).
    - rewrite cell_get by lia. cbn [mbind option_bind].
      destruct (greater cb (cell b c1) (cell b (c1 + 1))) eqn:Hg; eexists; split; try done;
        (split; [lia|split; [lia|]]); intros i _ [->| ->]%Hch;
        try apply leq_refl; [by apply greater_leq|done].
    - eexists; split; [done|]. split; [lia|]. split; [lia|]. intros i Hi' [->| ->]%Hch; [apply leq_refl|lia]. }
  cbn [mbind option_bind]. assert ((c - 1) / 2 = idx) by (unfold c1 in *; zdiv).
  destruct (greater cb (cell b c) v) eqn:Hg.
  - eexists _, _. split; [done|]. do 4 (split; [done|]). apply down_done; [done|].
    intros i Hi' Hpi. apply leq_trans with (cell b c); [by apply greater_leq|by apply Hmin].
  - rewrite zset_ok by lia. cbn [mbind option_bind].
    destruct (IH (zupd b idx (cell b c)) c) as (b' & idx' & E & ? & Hlen & Htail & Hperm & Hord);
      [apply down_step; try done; lia|lia|].
    exists b', idx'. split; [done|]. split; [done|]. split; [by rewrite Hlen, zlen_zupd|].
    split; [|split; [|done]].
    + intros j Hj. rewrite Htail, zget_zupd by lia. by rewrite decide_False by lia.
    + rewrite Hperm. apply swap_hole; lia.
Qed.
End order.

(** ** The operations *)

Definition contents (h : CFBinaryHeap) : list Z := take (Z.to_nat (_count h)) (_buckets h).

Definition wf (h : CFBinaryHeap) : Prop :=
  0 ≤ _count h ≤ _capacity h ∧ zlen (_buckets h) = _capacity h ∧ 4 ≤ _capacity h.

(** The invariant: a well-formed array whose used part is in heap order. *)
Definition is_heap (h : CFBinaryHeap) : Prop :=
  wf h ∧ heap_ordered (_callbacks h) (_buckets h) (_count h).

Definition retained (cb : CFBinaryHeapCallBacks) (v : Z) : Z :=
  match cb_retain cb with Some retain => retain v | None => v end.

Definition retain_event (cb : CFBinaryHeapCallBacks) (v : Z) : list event :=
  match cb_retain cb with Some _ => [Retained v] | None => [] end.
Definition release_event (cb : CFBinaryHeapCallBacks) (v : Z) : list event :=
  if cb_release cb then [Released v] else [].

Lemma contents_cell h i : wf h → 0 ≤ i < _count h → (contents h).[i] = Some (cell (_buckets h) i).
Proof.
  intros (? & ? & ?) Hi. unfold contents. rewrite zget_take by lia. apply cell_get. lia.
Qed.

Lemma contents_len h : wf h → zlen (contents h) = _count h.
Proof. intros (? & ? & ?). unfold contents. rewrite zlen_take. lia. Qed.

(** Two permuted arrays with the same tail have permuted prefixes. *)
Lemma perm_prefix (l1 l2 : list Z) n :
  0 ≤ n → l1 ≡ₚ l2 → (∀ j, n ≤ j → l1.[j] = l2.[j]) →
  take (Z.to_nat n) l1 ≡ₚ take (Z.to_nat n) l2.
Proof.
  intros Hn Hp Ht.
  assert (Hd : drop (Z.to_nat n) l1 = drop (Z.to_nat n) l2).
  { apply zget_ext.
    - apply Permutation_length in Hp. rewrite !zlen_drop. unfold zlen. lia.
    - intros i Hi. rewrite !zget_drop by lia. apply Ht. lia. }
  apply (Permutation_app_inv_r (drop (Z.to_nat n) l1)). rewrite Hd at 2. by rewrite !take_drop.
Qed.

Lemma take_snoc (l : list Z) n x :
  0 ≤ n → l.[n] = Some x → take (Z.to_nat (n + 1)) l = take (Z.to_nat n) l ++ [x].
Proof.
  intros Hn Hx. unfold zget in Hx. case_decide; [|done].
  replace (Z.to_nat (n + 1)) with (S (Z.to_nat n)) by lia. by apply take_S_r.
Qed.

Lemma take_zupd_ge (l : list Z) n i x : n ≤ i → take (Z.to_nat n) (zupd l i x) = take (Z.to_nat n) l.
Proof. intros. unfold zupd. apply take_insert_ge. lia. Qed.

Lemma round_up_spec n :
  n < 2 ^ 30 → ∃ c, __CFBinaryHeapRoundUpCapacity n = Some c ∧ n ≤ c ∧ 4 ≤ c.
Proof.
  intros Hn. unfold __CFBinaryHeapRoundUpCapacity. destruct (Z.ltb_spec n 4).
  { exists 4. split; [done|lia]. }
  unfold flsl. rewrite (proj2 (Z.eqb_neq n 0)) by lia.
  pose proof (Z.log2_spec n ltac:(lia)) as [Hlo Hhi].
  assert (Z.log2 n < 30) by (apply Z.log2_lt_pow2; lia).
  rewrite (proj2 (Z.ltb_lt _ _)) by lia. eexists. split; [done|].
  rewrite Z.shiftl_1_l. rewrite <- Z.add_1_r in Hhi. split; [lia|]. lia.
Qed.

Section removing.
Context (h : CFBinaryHeap) `{!Ordered (_callbacks h)}.

Lemma remove_min_ok :
  is_heap h → 0 < _count h →
  ∃ h' m, CFBinaryHeapGetMinimum h = Some m ∧ CFBinaryHeapRemoveMinimumValue h = Some h' ∧
    is_heap h' ∧ _callbacks h' = _callbacks h ∧ _count h' = _count h - 1 ∧
    contents h ≡ₚ m :: contents h' ∧
    Forall (leq (_callbacks h) m) (contents h) ∧
    _events h' = release_event (_callbacks h) m ++ _events h.
Proof.
  intros [Hwf Hord] Hpos. pose proof Hwf as (Hc & Hlen & H4).
  set (b := _buckets h) in *. set (n := _count h - 1).
  unfold CFBinaryHeapGetMinimum, CFBinaryHeapRemoveMinimumValue. fold b.
  rewrite (proj2 (Z.ltb_lt _ _)) by lia. rewrite (proj2 (Z.eqb_neq _ _)) by lia.
  rewrite (cell_get b 0) by lia. fold n.
  assert (Hrel : (if cb_release (_callbacks (__CFBinaryHeapSetNumBucketsUsed h n))
     then v ← (_buckets (__CFBinaryHeapSetNumBucketsUsed h n)).[0];
          Some (add_events (__CFBinaryHeapSetNumBucketsUsed h n) [Released v])
     else Some (__CFBinaryHeapSetNumBucketsUsed h n)) =
    Some (add_events (__CFBinaryHeapSetNumBucketsUsed h n)
            (release_event (_callbacks h) (cell b 0)))).
  { cbn [_callbacks __CFBinaryHeapSetNumBucketsUsed _buckets]. unfold release_event. fold b.
    destruct (cb_release _); [by rewrite (cell_get b 0) by lia|done]. }
  rewrite Hrel. clear Hrel. cbn [mbind option_bind add_events __CFBinaryHeapSetNumBucketsUsed
    _buckets _callbacks _count]. fold b.
  rewrite (cell_get b n) by lia. cbn [mbind option_bind]. set (val := cell b n).
  assert (Hinv : down_inv (_callbacks h) b 0 val n).
  { split; [lia|]. split; [lia|]. split; [|split; [lia|lia]]. intros i Hi _ _. apply Hord. lia. }
  destruct (down_loop_ok _ b 0 val n (Z.to_nat (_count h)) Hinv) as
    (b' & idx' & -> & Hidx & Hlen' & Htail & Hperm & Hord'); [lia|].
  cbn [mbind option_bind]. rewrite zset_ok by lia. cbn [mbind option_bind].
  eexists _, _. split; [done|]. split; [done|].
  assert (Hcont : contents h ≡ₚ cell b 0 :: take (Z.to_nat n) (zupd b' idx' val)).
  { unfold contents. fold b. destruct (decide (n = 0)) as [Hn0|Hn0].
    - replace (_count h) with (0 + 1) by lia. rewrite (take_snoc b 0 (cell b 0)) by (lia || (apply cell_get; lia)).
      rewrite Hn0. by rewrite !take_0.
    - rewrite (perm_prefix _ (zupd b 0 val) n) by
        (lia || done || (intros j Hj; rewrite !zget_zupd, Htail by lia; by rewrite !decide_False by lia)).
      replace (_count h) with (n + 1) by lia. rewrite (take_snoc b n val) by (lia || (apply cell_get; lia)).
      destruct b as [|m t]; [rewrite zlen_nil in Hlen; lia|]. change (cell (m :: t) 0) with m. replace (Z.to_nat n) with (S (Z.to_nat (n - 1))) by lia.
      change (zupd (m :: t) 0 val) with (val :: t). cbn [take app].
      by rewrite Permutation_app_comm. }
  split; [|split; [done|split; [done|split; [done|split; [|done]]]]].
  - split; [|done]. split; [cbn; lia|]. cbn. split; [|done]. rewrite zlen_zupd. lia.
  - apply Forall_zget. intros i x Hx. pose proof (zget_Some _ _ _ Hx) as Hi.
    rewrite contents_len in Hi by done. rewrite contents_cell in Hx by done. injection Hx as <-.
    by apply root_least with (_count h).
Qed.
End removing.

Section adding.
Context `{Storage}.

Lemma heap_grow_ok h :
  wf h → _count h = _capacity h → _count h + 1 < 2 ^ 30 → (∀ n, 0 < n → is_Some (storage n)) →
  ∃ h', __CFBinaryHeapGrow h 1 = Some h' ∧ wf h' ∧ _count h' = _count h ∧ _count h < _capacity h' ∧
    _callbacks h' = _callbacks h ∧ _events h' = _events h ∧
    ∀ i, 0 ≤ i < _count h → (_buckets h').[i] = (_buckets h).[i].
Proof.
  intros (? & Hlen & ?) Hfull Hb Hs. unfold __CFBinaryHeapGrow.
  destruct (round_up_spec (_count h + 1)) as (c & -> & ? & ?); [done|]. cbn [mbind option_bind].
  unfold __CFBinaryHeapNumBucketsForCapacity. cbn [_capacity __CFBinaryHeapSetNumBuckets _buckets].
  destruct (Hs c) as [fresh Hf]; [lia|]. rewrite Hf. cbn [mbind option_bind].
  pose proof (storage_len _ _ Hf ltac:(lia)) as Hfl.
  eexists. split; [done|]. split; [|split; [done|split; [cbn; lia|split; [done|split; [done|]]]]].
  - split; [cbn; lia|]. cbn. split; [|done]. autorewrite with zlen. unfold zlen in *. lia.
  - intros i Hi. cbn. rewrite zget_app_l, zget_take by (autorewrite with zlen; lia). done.
Qed.

Lemma add_value_ok h v :
  Ordered (_callbacks h) → is_heap h → _count h + 1 < 2 ^ 30 →
  (_count h = _capacity h → ∀ n, 0 < n → is_Some (storage n)) →
  like (_callbacks h) (retained (_callbacks h) v) v →
  ∃ h', CFBinaryHeapAddValue h v = Some h' ∧ is_heap h' ∧ _callbacks h' = _callbacks h ∧
    _count h' = _count h + 1 ∧
    contents h' ≡ₚ retained (_callbacks h) v :: contents h ∧
    _events h' = retain_event (_callbacks h) v ++ _events h.
Proof.
  intros HO [Hwf Hord] Hb Hs Hlike. unfold CFBinaryHeapAddValue.
  assert (∃ h1, (if _count h =? _capacity h then __CFBinaryHeapGrow h 1 else Some h) = Some h1 ∧
    wf h1 ∧ _count h1 = _count h ∧ _count h < _capacity h1 ∧ _callbacks h1 = _callbacks h ∧
    _events h1 = _events h ∧
    ∀ i, 0 ≤ i < _count h → (_buckets h1).[i] = (_buckets h).[i])
    as (h1 & -> & Hwf1 & Hc1 & Hcap & Hcb & Hev & Hsame).
  { destruct (Z.eqb_spec (_count h) (_capacity h)); [apply heap_grow_ok; auto|].
    exists h. destruct Hwf as (? & ? & ?). split; [done|]. repeat split; try done; lia. }
  cbn [mbind option_bind]. cbn [__CFBinaryHeapSetNumBucketsUsed _callbacks _buckets _count].
  rewrite Hc1, Hcb. pose proof Hwf1 as (Hcnt & Hlen & Hcap4). rewrite Hc1 in Hcnt.
  set (b := _buckets h1) in *. set (n := _count h) in *.
  assert (Hcell : ∀ i, 0 ≤ i < n → cell b i = cell (_buckets h) i) by (intros; unfold cell; by rewrite Hsame).
  assert (Hinv : up_inv (_callbacks h) b n v (n + 1)).
  { split; [lia|]. split; [lia|]. split; [|intros; exfalso; zdiv].
    intros i Hi ? ?. rewrite !Hcell by zdiv. apply Hord. lia. }
  destruct (up_loop_ok _ b n v (n + 1) (Z.to_nat n) Hinv) as
    (b' & idx' & -> & Hidx & Hlen' & Htail & Hperm & Hord'); [lia|]. cbn [mbind option_bind].
  set (r := retained (_callbacks h) v). specialize (Hord' r Hlike).
  assert (Hcont : take (Z.to_nat (n + 1)) (zupd b' idx' r) ≡ₚ r :: contents h).
  { rewrite (perm_prefix _ (zupd b n r) (n + 1)) by
      (lia || apply Hperm || (intros j Hj; rewrite !zget_zupd, Htail by lia; by rewrite !decide_False by lia)).
    rewrite (take_snoc _ n r), take_zupd_ge by (lia || (rewrite zget_zupd by lia; by rewrite decide_True)).
    rewrite Permutation_app_comm. cbn. f_equiv. unfold contents. fold n.
    replace (take (Z.to_nat n) (_buckets h)) with (take (Z.to_nat n) b); [done|].
    destruct Hwf as (? & ? & ?). apply zget_ext.
    - rewrite !zlen_take. lia.
    - intros i. rewrite zlen_take. intros Hi. rewrite !zget_take by lia. apply Hsame. lia. }
  assert (Hfinal : ∃ h', (match cb_retain (_callbacks h) with
      | Some retain => b ← b'.[idx' := retain v];
          Some (add_events (set_buckets (__CFBinaryHeapSetNumBucketsUsed h1 (n + 1)) b) [Retained v])
      | None => b ← b'.[idx' := v]; Some (set_buckets (__CFBinaryHeapSetNumBucketsUsed h1 (n + 1)) b)
      end) = Some h' ∧ _buckets h' = zupd b' idx' r ∧ _count h' = n + 1 ∧ _capacity h' = _capacity h1 ∧
      _callbacks h' = _callbacks h ∧ _events h' = retain_event (_callbacks h) v ++ _events h).
  { unfold r, retained, retain_event. destruct (cb_retain (_callbacks h)) as [rt|];
      rewrite zset_ok by lia; cbn [mbind option_bind]; eexists; (split; [done|]); cbn; rewrite Hev; done. }
  destruct Hfinal as (h' & E & Hb' & Hc' & Hcap' & Hcb' & Hev').
  exists h'. unfold contents at 1. rewrite Hb', Hc'. split; [exact E|].
  split; [|done]. split; [|by rewrite Hb', Hc', Hcb'].
  split; [lia|]. rewrite Hb', zlen_zupd. lia.
Qed.

Lemma take_S_zget (l : list Z) i n v :
  0 ≤ i → l.[i] = Some v → take (S n) (drop (Z.to_nat i) l) = v :: take n (drop (Z.to_nat (i + 1)) l).
Proof.
  intros Hi Hv. unfold zget in Hv. case_decide; [|done].
  rewrite (drop_S _ _ _ Hv). replace (Z.to_nat (i + 1)) with (S (Z.to_nat i)) by lia. done.
Qed.

Lemma add_all_ok values n : ∀ h idx,
  Ordered (_callbacks h) → is_heap h → _count h + Z.of_nat n < 2 ^ 30 →
  (∀ n, 0 < n → is_Some (storage n)) → (∀ v, like (_callbacks h) (retained (_callbacks h) v) v) →
  0 ≤ idx → idx + Z.of_nat n ≤ zlen values →
  ∃ h', add_all h values idx n = Some h' ∧ is_heap h' ∧ _callbacks h' = _callbacks h ∧
    _count h' = _count h + Z.of_nat n ∧
    contents h' ≡ₚ (retained (_callbacks h) <$> take n (drop (Z.to_nat idx) values)) ++ contents h.
Proof.
  induction n as [|n IH]; intros h idx HO Hh Hb Hs Hl Hi Hv; cbn [add_all].
  { exists h. rewrite Z.add_0_r. done. }
  rewrite (cell_get values idx) by lia. cbn [mbind option_bind]. set (v := cell values idx).
  destruct (add_value_ok h v) as (h1 & -> & Hh1 & Hcb1 & Hc1 & Hcont1 & _); try done; [lia|].
  cbn [mbind option_bind].
  destruct (IH h1 (idx + 1)) as (h2 & E & Hh2 & Hcb2 & Hc2 & Hcont2); try done; rewrite ?Hcb1; try done; try lia.
  exists h2. split; [done|]. split; [done|]. split; [congruence|]. split; [lia|].
  rewrite Hcont2, Hcont1, Hcb1, (take_S_zget values idx n v) by (done || (apply cell_get; lia)).
  cbn. by rewrite Permutation_middle.
Qed.

Lemma heap_init_ok values n cbs :
  let cb := match cbs with Some cb => cb | None => no_callbacks end in
  Ordered cb → (∀ n, 0 < n → is_Some (storage n)) → (∀ v, like cb (retained cb v) v) →
  0 ≤ n < 2 ^ 30 → n ≤ zlen values →
  ∃ h, __CFBinaryHeapInit values n cbs = Some (Some h) ∧ is_heap h ∧ _callbacks h = cb ∧
    _count h = n ∧ contents h ≡ₚ retained cb <$> take (Z.to_nat n) values.
Proof.
  intros cb HO Hs Hl Hn Hv. unfold __CFBinaryHeapInit, __CFBinaryHeapRoundUpCapacity.
  cbn [Z.ltb Z.compare Pos.compare Pos.compare_cont mbind option_bind].
  unfold __CFBinaryHeapNumBucketsForCapacity. destruct (Hs 4) as [b Hb]; [lia|]. rewrite Hb.
  set (h0 := {| _count := 0; _capacity := 4; _callbacks := match cbs with Some cb => cb | None => no_callbacks end; _buckets := b; _events := [] |}).
  pose proof (storage_len _ _ Hb ltac:(lia)) as Hbl.
  destruct (add_all_ok values (Z.to_nat n) h0 0) as (h & E & Hh & Hcb & Hc & Hcont); cbn; try done; try lia.
  { split; [split; [cbn; lia|done]|]. intros i Hi. cbn in Hi. lia. }
  cbn [mbind option_bind] in *. rewrite E. cbn. exists h. split; [done|]. split; [done|]. split; [done|].
  split; [cbn in Hc; lia|]. rewrite Hcont. unfold contents at 1. cbn. by rewrite app_nil_r.
Qed.
End adding.

Lemma drain_ok fuel : ∀ h, Ordered (_callbacks h) → is_heap h → _count h ≤ Z.of_nat fuel →
  ∃ out, drain h fuel = Some out ∧ out ≡ₚ contents h ∧ StronglySorted (leq (_callbacks h)) out.
Proof.
  assert (Hnil : ∀ h, is_heap h → _count h ≤ 0 → contents h = []).
  { intros h [Hwf _] ?. pose proof Hwf as (? & _). apply contents_len in Hwf. destruct (contents h); [done|].
    rewrite zlen_cons in Hwf. pose proof (zlen_nonneg l). lia. }
  induction fuel as [|fuel IH]; intros h HO Hh Hf; cbn [drain]; destruct (Z.ltb_spec 0 (_count h)); try lia.
  - exists []. rewrite Hnil by (done || lia). split; [done|]. split; [done|constructor].
  - destruct (remove_min_ok h) as (h' & m & -> & -> & Hh' & Hcb & Hc & Hcont & Hmin & _); try done.
    cbn [mbind option_bind]. destruct (IH h') as (out & -> & Hp & Hsort); rewrite ?Hcb; try done; try lia.
    cbn [mbind option_bind]. exists (m :: out). split; [done|]. split; [by rewrite Hcont, Hp|].
    constructor; [by rewrite Hcb in Hsort|]. apply Forall_forall. intros x Hx.
    rewrite Forall_forall in Hmin. apply Hmin. rewrite Hcont. right. by rewrite <- Hp.
  - exists []. rewrite Hnil by (done || lia). split; [done|]. split; [done|constructor].
Qed.

(** ** Properties *)

(** C28. [CFBinaryHeapAddValue] on a heap: it terminates within the fuel, grows the
    array when it is full, restores the heap order, and the contents gain
    exactly the value the retain callback returned. *)
Theorem add_value_refines `{Storage} h v
    (HO : Ordered (_callbacks h)) (Hh : is_heap h) (Hb : _count h + 1 < 2 ^ 30)
    (Hs : _count h = _capacity h → ∀ n, 0 < n → is_Some (storage n))
    (Hl : like (_callbacks h) (retained (_callbacks h) v) v) :
  ∃ h', CFBinaryHeapAddValue h v = Some h' ∧ is_heap h' ∧ _callbacks h' = _callbacks h ∧
    contents h' ≡ₚ retained (_callbacks h) v :: contents h ∧
    _events h' = retain_event (_callbacks h) v ++ _events h.
Proof.
  destruct (add_value_ok h v HO Hh Hb Hs Hl) as (h' & ? & ? & ? & _ & ? & ?). eauto 10.
Qed.

(** C27. [CFBinaryHeapGetMinimum] gives a least element, and
    [CFBinaryHeapRemoveMinimumValue] removes exactly that occurrence, restores
    the heap order and releases exactly the value removed. *)
Theorem remove_minimum_refines h
    (HO : Ordered (_callbacks h)) (Hh : is_heap h) (Hpos : 0 < _count h) :
  ∃ h' m, CFBinaryHeapGetMinimum h = Some m ∧ CFBinaryHeapRemoveMinimumValue h = Some h' ∧
    is_heap h' ∧ contents h ≡ₚ m :: contents h' ∧
    Forall (λ x, greater (_callbacks h) m x = false) (contents h) ∧
    _events h' = release_event (_callbacks h) m ++ _events h.
Proof.
  destruct (remove_min_ok h Hh Hpos) as (h' & m & ? & ? & ? & _ & _ & ? & ? & ?).
  exists h', m. do 4 (split; [done|]). done.
Qed.

Section sorting.
Context `{Storage}.

Lemma copy_drain_ok h :
  Ordered (_callbacks h) → wf h → _count h < 2 ^ 30 → (∀ n, 0 < n → is_Some (storage n)) →
  (∀ v, like (_callbacks h) (retained (_callbacks h) v) v) →
  ∃ copy out, CFBinaryHeapCreateCopy h = Some (Some copy) ∧
    drain copy (Z.to_nat (_count copy)) = Some out ∧
    out ≡ₚ retained (_callbacks h) <$> contents h ∧
    StronglySorted (leq (_callbacks h)) out.
Proof.
  intros HO (Hc & Hlen & ?) Hb Hs Hl. unfold CFBinaryHeapCreateCopy.
  destruct (heap_init_ok (_buckets h) (_count h) (Some (_callbacks h))) as (copy & E & Hh & Hcb & Hcc & Hcont);
    try done; try lia.
  destruct (drain_ok (Z.to_nat (_count copy)) copy) as (out & Ed & Hp & Hsort); rewrite ?Hcb; try done; try lia.
  exists copy, out. split; [done|]. split; [done|]. split; [by rewrite Hp, Hcont|].
  by rewrite Hcb in Hsort.
Qed.

(** [CFBinaryHeapGetValues] writes the values of the heap in increasing order
    at the start of the caller's buffer and leaves the rest of it alone;
    [CFBinaryHeapApplyFunction] applies the function in that same order.  The
    heap itself need not be changed, nor even be in heap order. *)
Theorem get_values_sorted {S} h values (applier : Z → S → S) st
    (HO : Ordered (_callbacks h)) (Hwf : wf h) (Hb : _count h < 2 ^ 30)
    (Hs : ∀ n, 0 < n → is_Some (storage n))
    (Hl : ∀ v, like (_callbacks h) (retained (_callbacks h) v) v)
    (Hv : _count h ≤ zlen values) :
  ∃ out, out ≡ₚ retained (_callbacks h) <$> contents h ∧
    StronglySorted (λ a b, greater (_callbacks h) a b = false) out ∧
    CFBinaryHeapGetValues h values = Some (out ++ drop (length out) values) ∧
    CFBinaryHeapApplyFunction h applier st = Some (fold_left (λ s v, applier v s) out st).
Proof.
  pose proof (contents_len h Hwf) as Hcl. pose proof Hwf as (Hc & _).
  unfold CFBinaryHeapGetValues, CFBinaryHeapApplyFunction.
  destruct (Z.eqb_spec 0 (_count h)) as [Hz|Hz].
  - exists []. destruct (contents h) as [|x l].
    + split; [done|]. split; [constructor|done].
    + rewrite zlen_cons in Hcl. pose proof (zlen_nonneg l). lia.
  - destruct (copy_drain_ok h HO Hwf Hb Hs Hl) as (copy & out & -> & E & Hp & Hsort).
    cbn [mbind option_bind]. rewrite E. cbn [mbind option_bind].
    exists out. split; [done|]. split; [done|]. split; [|done].
    assert (zlen out = _count h).
    { rewrite <- Hcl. unfold zlen. rewrite Hp. by rewrite length_fmap. }
    unfold zwrite. by rewrite decide_True by lia.
Qed.
End sorting.

Definition numeric (a b : Z) : comparison := a ?= b.
Definition numeric_callbacks : CFBinaryHeapCallBacks :=
  {| cb_retain := None; cb_release := true; cb_compare := Some (0x1000, numeric) |}.

(** Ten times the tens digit orders first: 12 and 17 compare equal. *)
Definition by_tens (a b : Z) : comparison := a / 10 ?= b / 10.

#[export] Program Instance zero_storage : Storage := {| storage n := Some (replicate (Z.to_nat n) 0) |}.
Next Obligation. intros n b [= <-] ?. rewrite zlen_replicate. lia. Qed.

Definition singleton_heap (f : Z → Z → comparison) (v : Z) : CFBinaryHeap :=
  {| _count := 1; _capacity := 4;
     _callbacks := {| cb_retain := None; cb_release := false; cb_compare := Some (0x1000, f) |};
     _buckets := [v; 0; 0; 0]; _events := [] |}.

(** [__CFBinaryHeapEqual] has its test the wrong way round: [compare] returns
    0 when its arguments are equal, so two heaps of one different pointer each
    are reported equal exactly when the comparison callback says that the
    values are NOT equal. *)
Theorem equal_inverted f v1 v2 (Hne : v1 ≠ v2) :
  __CFBinaryHeapEqual (singleton_heap f v1) (singleton_heap f v2) =
  Some (match f v1 v2 with Eq => false | _ => true end).
Proof.
  assert (Hg : ∀ v l, CFBinaryHeapGetValues (singleton_heap f v) (0 :: l) = Some (v :: l)).
  { intros v l. unfold CFBinaryHeapGetValues.
    change (CFBinaryHeapCreateCopy (singleton_heap f v)) with (Some (Some (singleton_heap f v))).
    cbn [_count singleton_heap Z.eqb mbind option_bind].
    change (drain (singleton_heap f v) _) with (Some [v]).
    cbn [mbind option_bind]. unfold zwrite. rewrite decide_True; [done|].
    unfold zlen. cbn [length]. lia. }
  unfold __CFBinaryHeapEqual. cbn [_count singleton_heap _callbacks cb_compare].
  rewrite Z.eqb_refl. cbn [negb]. rewrite bool_decide_eq_true_2 by done. cbn [negb].
  cbn [Z.eqb Z.leb Z.compare Pos.compare Pos.compare_cont mbind option_bind].
  change (take (Z.to_nat 128) (replicate 256 0)) with (0 :: replicate 127 0).
  change (drop (Z.to_nat 128) (replicate 256 0)) with (0 :: replicate 127 0).
  rewrite !Hg. cbn [mbind option_bind]. change (Z.to_nat 1) with 1%nat. cbn [equal_values].
  change ((v1 :: replicate 127 0).[0]) with (Some v1).
  change ((v2 :: replicate 127 0).[0]) with (Some v2). cbn [mbind option_bind].
  rewrite (proj2 (Z.eqb_neq _ _) Hne). cbn [negb]. by destruct (f v1 v2).
Qed.

(** ** Witnesses *)

Definition sample_heap : CFBinaryHeap :=
  {| _count := 4; _capacity := 4; _callbacks := numeric_callbacks;
     _buckets := [2; 5; 3; 9]; _events := [] |}.

#[export] Instance numeric_ordered cb :
  snd <$> cb_compare cb = Some numeric → Ordered cb.
Proof.
  intros E. split; unfold greater; destruct (cb_compare cb) as [[a f]|]; try discriminate E; injection E as ->;
    unfold numeric; intros a' b'; [|intros c'];
    repeat match goal with |- context [?x ?= ?y] => destruct (Z.compare_spec x y) end; (done || lia).
Qed.

Lemma sample_ordered : Ordered (_callbacks sample_heap).
Proof. by apply numeric_ordered. Qed.

Lemma sample_is_heap : is_heap sample_heap.
Proof.
  split; [split; [cbn; lia|split; [done|cbn; lia]]|]. intros i Hi. cbn in Hi.
  assert (i = 1 ∨ i = 2 ∨ i = 3) as [->|[->| ->]] by lia; reflexivity.
Qed.

Lemma add_value_refines_witness :
  ∃ h', CFBinaryHeapAddValue sample_heap 1 = Some h' ∧ is_heap h' ∧ contents h' ≡ₚ [1; 2; 5; 3; 9].
Proof.
  destruct (add_value_refines sample_heap 1 sample_ordered sample_is_heap) as (h' & H1 & H2 & _ & H3 & _).
  - cbn. lia.
  - intros _ n _. eexists. reflexivity.
  - intros x. split; reflexivity.
  - exists h'. exact (conj H1 (conj H2 H3)).
Defined.

Lemma remove_minimum_refines_witness :
  ∃ h', CFBinaryHeapRemoveMinimumValue sample_heap = Some h' ∧ is_heap h' ∧
    _events h' = [Released 2].
Proof.
  destruct (remove_minimum_refines sample_heap sample_ordered sample_is_heap eq_refl)
    as (h' & m & Hm & H1 & H2 & _ & _ & H3).
  exists h'. injection Hm as <-. exact (conj H1 (conj H2 H3)).
Defined.

Lemma get_values_sorted_witness :
  ∃ out, CFBinaryHeapGetValues sample_heap [0; 0; 0; 0; 7] = Some (out ++ drop (length out) [0; 0; 0; 0; 7]).
Proof.
  destruct (get_values_sorted sample_heap [0; 0; 0; 0; 7] (λ v s, v :: s) [] sample_ordered
    (proj1 sample_is_heap)) as (out & _ & _ & H1 & _).
  - cbn. lia.
  - intros n _. eexists. reflexivity.
  - intros v x. split; reflexivity.
  - by_decide.
  - exists out. exact H1.
Defined.

Lemma equal_inverted_witness :
  __CFBinaryHeapEqual (singleton_heap by_tens 12) (singleton_heap by_tens 17) = Some false ∧
  __CFBinaryHeapEqual (singleton_heap numeric 12) (singleton_heap numeric 17) = Some true.
Proof.
  split; [rewrite (equal_inverted by_tens 12 17 ltac:(lia))|rewrite (equal_inverted numeric 12 17 ltac:(lia))];
    reflexivity.
Defined.
