(* ===== verification/Double.v ===== *)
(** * Doubles whose values are whole numbers

    The arithmetic of [double] that the code uses on whole numbers: sums and
    products round to 53 bits, halves to even, and so does a quotient before its
    [floor].  Up to 2^53 all of it is exact. *)
From S2P Require Import Prelude.
Open Scope Z_scope.

(** [p / q] rounded to a whole number, halves to even. *)
Definition round_div (p q : Z) : Z :=
  let n := (2 * p + q) / (2 * q) in
  if ((2 * p + q) mod (2 * q) =? 0) && Z.odd n then n - 1 else n.

(** [x] in a format of [prec] bits. *)
Definition round_to (prec x : Z) : Z :=
  if Z.abs x <=? 2 ^ prec then x
  else let e := Z.log2 (Z.abs x) - (prec - 1) in round_div x (2 ^ e) * 2 ^ e.

Definition to_double (x : Z) : Z := round_to 53 x.
Definition to_float (x : Z) : Z := round_to 24 x.
Definition dadd (x y : Z) : Z := to_double (x + y).
Definition dsub (x y : Z) : Z := to_double (x - y).
Definition dmul (x y : Z) : Z := to_double (x * y).

(** The exponent [e] for which [p / q] has 53 bits before the point in units of
    [2 ^ e], and [p / q] in these units as a quotient. *)
Definition scaled (p q e : Z) : Z * Z := (p * 2 ^ Z.max 0 (- e), q * 2 ^ Z.max 0 e).
Definition exponent (p q : Z) : Z :=
  let e := Z.log2 (Z.abs p) - Z.log2 q - 52 in
  let (n, d) := scaled (Z.abs p) q e in
  if 2 ^ 52 * d <=? n then e else e - 1.

(** [floor (p / q)] where the quotient is a double. *)
Definition dfloor_div (p q : Z) : Z :=
  if p =? 0 then 0
  else
    let e := exponent p q in
    let (n, d) := scaled p q e in
    round_div n d * 2 ^ Z.max 0 e / 2 ^ Z.max 0 (- e).

(** The conversion to [int64_t] of a value outside it is undefined. *)
Definition to_int64 (x : Z) : option Z := if (- 2 ^ 63 <=? x) && (x <? 2 ^ 63) then Some x else None.
(** Signed arithmetic of 32 bits, undefined beyond. *)
Definition int32 (x : Z) : option Z := if (- 2 ^ 31 <=? x) && (x <? 2 ^ 31) then Some x else None.

Lemma to_double_exact x : Z.abs x ≤ 2 ^ 53 → to_double x = x.
Proof. intros Hx. unfold to_double, round_to. by rewrite (proj2 (Z.leb_le _ _) Hx). Qed.
Lemma to_float_exact x : Z.abs x ≤ 2 ^ 24 → to_float x = x.
Proof. intros Hx. unfold to_float, round_to. by rewrite (proj2 (Z.leb_le _ _) Hx). Qed.
Lemma dadd_exact x y : Z.abs (x + y) ≤ 2 ^ 53 → dadd x y = x + y.
Proof. apply to_double_exact. Qed.
Lemma dsub_exact x y : Z.abs (x - y) ≤ 2 ^ 53 → dsub x y = x - y.
Proof. apply to_double_exact. Qed.
Lemma dmul_exact x y : Z.abs (x * y) ≤ 2 ^ 53 → dmul x y = x * y.
Proof. apply to_double_exact. Qed.
Lemma to_int64_ok x : - 2 ^ 63 ≤ x < 2 ^ 63 → to_int64 x = Some x.
Proof. intros Hx. unfold to_int64. by rewrite (proj2 (Z.leb_le _ x)), (proj2 (Z.ltb_lt x _)) by lia. Qed.
Lemma int32_ok x : - 2 ^ 31 ≤ x < 2 ^ 31 → int32 x = Some x.
Proof. intros Hx. unfold int32. by rewrite (proj2 (Z.leb_le _ x)), (proj2 (Z.ltb_lt x _)) by lia. Qed.

(** Rounding moves by a half at most and not past a whole number. *)
Lemma round_div_bounds p q : 0 < q → 2 * p - q ≤ 2 * q * round_div p q ≤ 2 * p + q.
Proof.
  intros Hq. unfold round_div. pose proof (Z.div_mod (2 * p + q) (2 * q) ltac:(lia)) as Hd.
  pose proof (Z.mod_pos_bound (2 * p + q) (2 * q) ltac:(lia)) as Hm.
  destruct (Z.eqb_spec ((2 * p + q) mod (2 * q)) 0) as [E|E]; cbn [andb]; [|lia].
  destruct (Z.odd _); lia.
Qed.
Lemma round_div_above p q k : 0 < q → k * q ≤ p → k ≤ round_div p q.
Proof. intros Hq Hk. pose proof (round_div_bounds p q Hq). nia. Qed.

Lemma log2_around x : 0 < x → 2 ^ Z.log2 x ≤ x < 2 ^ (Z.log2 x + 1).
Proof. intros Hx. pose proof (Z.log2_spec x Hx). lia. Qed.

(** The quotient has its 53 bits. *)
Lemma exponent_scale p q : p ≠ 0 → 0 < q →
  2 ^ 52 * (q * 2 ^ Z.max 0 (exponent p q)) ≤ Z.abs p * 2 ^ Z.max 0 (- exponent p q).
Proof.
  intros Hp Hq. unfold exponent, scaled. set (e := Z.log2 (Z.abs p) - Z.log2 q - 52).
  destruct (Z.leb_spec (2 ^ 52 * (q * 2 ^ Z.max 0 e)) (Z.abs p * 2 ^ Z.max 0 (- e))) as [H|_]; [exact H|].
  pose proof (log2_around (Z.abs p) ltac:(lia)) as [Hlp _]. pose proof (log2_around q Hq) as [_ Hlq].
  pose proof (Z.log2_nonneg q). pose proof (Z.log2_nonneg (Z.abs p)).
  set (a := Z.max 0 (- (e - 1))). set (b := Z.max 0 (e - 1)).
  transitivity (2 ^ 52 * (2 ^ (Z.log2 q + 1) * 2 ^ b)).
  { apply Z.mul_le_mono_nonneg_l; [lia|]. apply Z.mul_le_mono_nonneg_r; [apply Z.pow_nonneg|]; lia. }
  transitivity (2 ^ Z.log2 (Z.abs p) * 2 ^ a).
  { rewrite <- !Z.pow_add_r by lia. apply Z.pow_le_mono_r; lia. }
  apply Z.mul_le_mono_nonneg_r; [apply Z.pow_nonneg|]; lia.
Qed.

(** Below 2^53 the [floor] of a rounded quotient is the quotient rounded down: a
    quotient that is not whole is further below the next whole number than
    rounding moves it. *)
Lemma dfloor_div_exact p q : 0 < q → Z.abs p < 2 ^ 53 → dfloor_div p q = p / q.
Proof.
  intros Hq Hp. unfold dfloor_div. destruct (Z.eqb_spec p 0) as [->|Hp0]; [by rewrite Z.div_0_l by lia|].
  pose proof (exponent_scale p q Hp0 Hq) as Hs. set (e := exponent p q) in *. unfold scaled.
  assert (He : e ≤ 0).
  { destruct (Z.le_gt_cases e 0) as [|He]; [done|]. exfalso.
    rewrite (Z.max_l 0 (- e)), (Z.max_r 0 e), Z.mul_1_r in Hs by lia.
    assert (2 ≤ 2 ^ e) by (apply (Z.pow_le_mono_r 2 1 e); lia). nia. }
  rewrite (Z.max_l 0 e), (Z.max_r 0 (- e)) in * by lia. rewrite Z.pow_0_r, !Z.mul_1_r in *.
  set (M := 2 ^ (- e)) in *. assert (HM : 0 < M) by (apply Z.pow_pos_nonneg; lia).
  assert (Hqm : q < 2 * M) by nia. pose proof (Z.div_mod p q ltac:(lia)) as Hd.
  pose proof (Z.mod_pos_bound p q Hq) as Hr. symmetry. apply (Z.div_unique_pos _ _ _ (round_div (p * M) q - M * (p / q))); [|lia].
  pose proof (round_div_bounds (p * M) q Hq) as [_ Hup].
  assert (p / q * M ≤ round_div (p * M) q) by (apply round_div_above; [done|nia]).
  split; [lia|]. assert (Hlt : 2 * q * round_div (p * M) q < 2 * q * (M * (p / q) + M)); [|nia].
  assert (p ≤ q * (p / q) + (q - 1)) by lia. nia.
Qed.

Example halves_to_even : to_double (2 ^ 53 + 1) = 2 ^ 53 ∧ to_double (2 ^ 53 + 3) = 2 ^ 53 + 4.
Proof. split; reflexivity. Qed.
(** Just below a whole number, above 2^53, the quotient is rounded up to it. *)
Example floor_of_large_quotient : dfloor_div (86400 * 2 ^ 40 - 2) 86400 = 2 ^ 40.
Proof. reflexivity. Qed.
