(* ===== verification/Date.v ===== *)
(** * CFDate (SourceCode/CFRunLoopRef/CFDate.c)

    The Gregorian calendar arithmetic: conversions between an absolute day
    (day 0 is 1 January 2001, year 0 is 2001) and year, month and day, between
    an absolute time and a [CFGregorianDate], the addition of Gregorian units,
    and the day and week numbers.

    A [CFAbsoluteTime] is a [double]; the times are whole numbers of seconds, and
    the arithmetic is that of Double.v, which rounds beyond 2^53.  [int64_t] and
    [int8_t] results wrap; [int] sums and conversions to [int64_t] that overflow
    are undefined.  [while] loops take fuel; [None] is an undefined operation, a
    loop that has used up its fuel or an access outside a table. *)
From S2P Require Import Prelude Double.
Open Scope Z_scope.

Abbreviation i64 := (sint 64).
Abbreviation i32 := (sint 32).
Abbreviation i8 := (sint 8).

Definition daysInMonth : list Z := [0; 31; 28; 31; 30; 31; 30; 31; 31; 30; 31; 30; 31; 0; 0; 0].
Definition daysBeforeMonth : list Z :=
  [0; 0; 31; 59; 90; 120; 151; 181; 212; 243; 273; 304; 334; 365; 0; 0].
Definition daysAfterMonth : list Z :=
  [365; 334; 306; 275; 245; 214; 184; 153; 122; 92; 61; 31; 0; 0; 0; 0].

(** For a year below the last of [int64_t], whose successor overflows. *)
Definition isleap (year : Z) : bool :=
  let y := Z.rem (year + 1) 400 in
  let y := if y <? 0 then - y else y in
  (0 =? Z.land y 3) && negb (100 =? y) && negb (200 =? y) && negb (300 =? y).

Definition __CFDaysInMonth (month year : Z) (leap : bool) : option Z :=
  d ← daysInMonth.[month]; Some (u8 (d + Z.b2z ((2 =? month) && leap))).

Definition __CFDaysBeforeMonth (month year : Z) (leap : bool) : option Z :=
  d ← daysBeforeMonth.[month]; Some (u16 (d + Z.b2z ((2 <? month) && leap))).

Definition __CFDaysAfterMonth (month year : Z) (leap : bool) : option Z :=
  d ← daysAfterMonth.[month]; Some (u16 (d + Z.b2z ((month <? 2) && leap))).

(** [while (absolute < 0)] *)
Fixpoint back_loop (fuel : nat) (absolute y : Z) : option (Z * Z) :=
  if absolute <? 0 then
    match fuel with
    | O => None
    | S fuel =>
        let y := i64 (y - 1) in
        ydays ← __CFDaysAfterMonth 0 y (isleap y);
        back_loop fuel (i64 (absolute + ydays)) y
    end
  else Some (absolute, y).

(** [while (ydays <= absolute)] *)
Fixpoint forward_loop (fuel : nat) (absolute y ydays : Z) : option (Z * Z) :=
  if ydays <=? absolute then
    match fuel with
    | O => None
    | S fuel =>
        let y := i64 (y + 1) in
        let absolute := i64 (absolute - ydays) in
        ydays ← __CFDaysAfterMonth 0 y (isleap y);
        forward_loop fuel absolute y ydays
    end
  else Some (absolute, y).

(** [while (__CFDaysBeforeMonth(m + 1, y, leap) <= absolute) m++] *)
Fixpoint month_loop (fuel : nat) (m y : Z) (leap : bool) (absolute : Z) : option Z :=
  before ← __CFDaysBeforeMonth (i8 (m + 1)) y leap;
  if before <=? absolute then
    match fuel with O => None | S fuel => month_loop fuel (i8 (m + 1)) y leap absolute end
  else Some m.

(** The remainder by 146097 is less than 401 years of 365 days. *)
Definition year_fuel : nat := 402.
Definition month_fuel : nat := 12.

Definition __CFYMDFromAbsolute (absolute : Z) : option (Z * Z * Z) :=
  let b := absolute ÷ 146097 in
  let y := i64 (b * 400) in
  let absolute := i64 (absolute - i64 (b * 146097)) in
  '(absolute, y) ← back_loop year_fuel absolute y;
  ydays ← __CFDaysAfterMonth 0 y (isleap y);
  '(absolute, y) ← forward_loop year_fuel absolute y ydays;
  let m := i8 (absolute ÷ 33 + 1) in
  let leap := isleap y in
  m ← month_loop month_fuel m y leap absolute;
  before ← __CFDaysBeforeMonth m y leap;
  Some (y, m, i8 (absolute - before + 1)).

(** [for (idx = year; idx < 0; idx++)] and [for (idx = 0; idx < year; idx++)], with
    [absolute] a double. *)
Fixpoint sum_years (n : nat) (idx absolute sign : Z) : option Z :=
  match n with
  | O => Some absolute
  | S n =>
      ydays ← __CFDaysAfterMonth 0 idx (isleap idx);
      sum_years n (idx + 1) (dadd absolute (sign * ydays)) sign
  end.

Definition __CFAbsoluteFromYMD (year month day : Z) : option Z :=
  let b := year ÷ 400 in
  let absolute := dadd 0 (dmul (to_double b) 146097) in
  let year := i64 (year - i64 (b * 400)) in
  absolute ← (if year <? 0
              then sum_years (Z.to_nat (- year)) year absolute (-1)
              else sum_years (Z.to_nat year) 0 absolute 1);
  before ← __CFDaysBeforeMonth month year (isleap year);
  Some (dadd absolute (before + day - 1)).

(** The remainder is whole already, so the second [floor] does nothing. *)
Definition __CFDoubleModToInt (d modulus : Z) : Z :=
  let result := i32 (to_float (dsub d (dmul (dfloor_div d modulus) modulus))) in
  if result <? 0 then result + modulus else result.

Definition __CFDoubleMod (d modulus : Z) : Z :=
  let result := dsub d (dmul (dfloor_div d modulus) modulus) in
  if result <? 0 then dadd result modulus else result.

Record CFGregorianDate := {
  year : Z; month : Z; day : Z; hour : Z; minute : Z; second : Z;
}.

Record CFGregorianUnits := {
  years : Z; months : Z; days : Z; hours : Z; minutes : Z; seconds : Z;
}.

Definition kCFGregorianUnitsYears : Z := 1.
Definition kCFGregorianUnitsMonths : Z := 2.
Definition kCFGregorianUnitsDays : Z := 4.
Definition kCFGregorianUnitsHours : Z := 8.
Definition kCFGregorianUnitsMinutes : Z := 16.
Definition kCFGregorianUnitsSeconds : Z := 32.

Definition has_flag (unitFlags f : Z) : bool := negb (Z.land unitFlags f =? 0).

Definition CFGregorianDateIsValid (g : CFGregorianDate) (unitFlags : Z) : option bool :=
  if has_flag unitFlags kCFGregorianUnitsYears && (year g <=? 0) then Some false else
  if has_flag unitFlags kCFGregorianUnitsMonths && ((month g <? 1) || (12 <? month g)) then Some false else
  if has_flag unitFlags kCFGregorianUnitsDays && ((day g <? 1) || (31 <? day g)) then Some false else
  if has_flag unitFlags kCFGregorianUnitsHours && ((hour g <? 0) || (23 <? hour g)) then Some false else
  if has_flag unitFlags kCFGregorianUnitsMinutes && ((minute g <? 0) || (59 <? minute g)) then Some false else
  if has_flag unitFlags kCFGregorianUnitsSeconds && ((second g <? 0) || (60 <=? second g)) then Some false else
  if has_flag unitFlags kCFGregorianUnitsDays && has_flag unitFlags kCFGregorianUnitsMonths
     && has_flag unitFlags kCFGregorianUnitsYears
  then d ← __CFDaysInMonth (month g) (year g - 2001) (isleap (year g - 2001));
       Some (negb (d <? day g))
  else Some true.

Section time_zone.
(** [CFTimeZoneGetSecondsFromGMT] of the time zone, or no time zone. *)
Context (tz : option (Z → Z)).

Definition fixed_at (at' : Z) : Z :=
  dadd at' match tz with Some offset => offset at' | None => 0 end.

Definition CFGregorianDateGetAbsoluteTime (g : CFGregorianDate) : option Z :=
  y ← int32 (year g - 2001);
  absolute ← __CFAbsoluteFromYMD y (month g) (day g);
  let at' := dmul 86400 absolute in
  let at' := dadd at' (dadd (dadd (dmul 3600 (hour g)) (dmul 60 (minute g))) (second g)) in
  Some match tz with
       | Some offset =>
           let offset0 := offset at' in
           let offset1 := offset (dsub at' offset0) in
           dsub at' offset1
       | None => at'
       end.

Definition INT32_MAX : Z := 2147483647.

Definition CFAbsoluteTimeGetGregorianDate (at' : Z) : option CFGregorianDate :=
  let fixedat := fixed_at at' in
  absolute ← to_int64 (dfloor_div fixedat 86400);
  '(y, m, d) ← __CFYMDFromAbsolute absolute;
  let y := if INT32_MAX - 2001 <? y then INT32_MAX - 2001 else y in
  Some {| year := i32 (y + 2001); month := m; day := d;
          hour := i8 (__CFDoubleModToInt (dfloor_div fixedat 3600) 24);
          minute := i8 (__CFDoubleModToInt (dfloor_div fixedat 60) 60);
          second := __CFDoubleMod fixedat 60 |}.

(** [while (12 < working.months)] *)
Fixpoint months_down (fuel : nat) (y m : Z) : option (Z * Z) :=
  if 12 <? m then
    match fuel with O => None | S fuel => m ← int32 (m - 12); y ← int32 (y + 1); months_down fuel y m end
  else Some (y, m).

(** [while (working.months < 1)] *)
Fixpoint months_up (fuel : nat) (y m : Z) : option (Z * Z) :=
  if m <? 1 then
    match fuel with O => None | S fuel => m ← int32 (m + 12); y ← int32 (y - 1); months_up fuel y m end
  else Some (y, m).

(** [while (monthdays < working.days)] *)
Fixpoint days_down (fuel : nat) (y m d monthdays : Z) : option (Z * Z * Z) :=
  if monthdays <? d then
    match fuel with
    | O => None
    | S fuel =>
        let m := m + 1 in
        '(y, m) ← (if 12 <? m then y ← int32 (y + 1); Some (y, m - 12) else Some (y, m));
        let d := d - monthdays in
        y0 ← int32 (y - 2001);
        monthdays ← __CFDaysInMonth m y0 (isleap y0);
        days_down fuel y m d monthdays
    end
  else Some (y, m, d).

(** [while (working.days < 1)] *)
Fixpoint days_up (fuel : nat) (y m d : Z) : option (Z * Z * Z) :=
  if d <? 1 then
    match fuel with
    | O => None
    | S fuel =>
        let m := m - 1 in
        '(y, m) ← (if m <? 1 then y ← int32 (y - 1); Some (y, m + 12) else Some (y, m));
        y0 ← int32 (y - 2001);
        monthdays ← __CFDaysInMonth m y0 (isleap y0);
        days_up fuel y m (d + monthdays)
    end
  else Some (y, m, d).

(** The arguments of [__CFDaysInMonth] are in range after the loops. *)
Definition CFAbsoluteTimeAddGregorianUnits (at' : Z) (units : CFGregorianUnits) : option Z :=
  gdate ← CFAbsoluteTimeGetGregorianDate at';
  y ← int32 (year gdate + years units);
  m ← int32 (month gdate + months units);
  let d := day gdate in
  '(y, m) ← months_down (Z.to_nat m) y m;
  '(y, m) ← months_up (Z.to_nat (1 - m)) y m;
  y0 ← int32 (y - 2001);
  monthdays ← __CFDaysInMonth m y0 (isleap y0);
  let d := if monthdays <? d then monthdays else d in
  d ← int32 (d + days units);
  '(y, m, d) ← days_down (Z.to_nat d) y m d monthdays;
  '(y, m, d) ← days_up (Z.to_nat (1 - d)) y m d;
  candidate_at0 ← CFGregorianDateGetAbsoluteTime
    {| year := y; month := m; day := d;
       hour := hour gdate; minute := minute gdate; second := second gdate |};
  Some (dadd (dadd (dadd candidate_at0 (dmul 3600 (hours units))) (dmul 60 (minutes units))) (seconds units)).

Definition CFAbsoluteTimeGetDayOfWeek (at' : Z) : option Z :=
  absolute ← to_int64 (dfloor_div (fixed_at at') 86400);
  Some (if absolute <? 0 then Z.rem (absolute + 1) 7 + 7 else Z.rem absolute 7 + 1).

Definition CFAbsoluteTimeGetDayOfYear (at' : Z) : option Z :=
  absolute ← to_int64 (dfloor_div (fixed_at at') 86400);
  '(y, m, d) ← __CFYMDFromAbsolute absolute;
  before ← __CFDaysBeforeMonth m y (isleap y);
  Some (before + d).

(** The two tests for the first three and the last three days of a year. *)
Definition in_previous_year (m d dow0101 : Z) : bool :=
  (1 =? m) && (d <? 4) &&
  (((d <? 4) && (5 =? dow0101)) || ((d <? 3) && (6 =? dow0101)) || ((d <? 2) && (7 =? dow0101))).
Definition in_next_year (d dow20101 : Z) : bool :=
  ((28 <? d) && (4 =? dow20101)) || ((29 <? d) && (3 =? dow20101)) || ((30 <? d) && (2 =? dow20101)).

Definition CFAbsoluteTimeGetWeekOfYear (at' : Z) : option Z :=
  absolute ← to_int64 (dfloor_div (fixed_at at') 86400);
  '(y, m, d) ← __CFYMDFromAbsolute absolute;
  absolute0101 ← __CFAbsoluteFromYMD y 1 1;
  let dow0101 := __CFDoubleModToInt absolute0101 7 + 1 in
  let week :=
    before ← __CFDaysBeforeMonth m y (isleap y);
    Some ((before + d + Z.rem (dow0101 - 11) 7 + 2) ÷ 7 + 1) in
  if in_previous_year m d dow0101 then Some 53 else
  if (12 =? m) && (28 <? d) then
    absolute20101 ← __CFAbsoluteFromYMD (y + 1) 1 1;
    let dow20101 := __CFDoubleModToInt absolute20101 7 + 1 in
    if in_next_year d dow20101 then Some 1 else week
  else week.
End time_zone.

(** ** The Gregorian calendar *)

(** The rule of the calendar, on the year of the common era. *)
Definition gregorian_leap (Y : Z) : bool :=
  (Y mod 4 =? 0) && (negb (Y mod 100 =? 0) || (Y mod 400 =? 0)).

(** Days from 1 January 2001 to 1 January of [year + 2001]. *)
Definition days_before_year (year : Z) : Z := 365 * year + year / 4 - year / 100 + year / 400.

Definition year_length (year : Z) : Z := 365 + Z.b2z (isleap year).

Definition month_length (m : Z) (leap : bool) : Z :=
  default 0 daysInMonth.[m] + Z.b2z ((2 =? m) && leap).
Definition before_month (m : Z) (leap : bool) : Z :=
  default 0 daysBeforeMonth.[m] + Z.b2z ((2 <? m) && leap).

Definition valid_ymd (y m d : Z) : Prop := 1 ≤ m ≤ 12 ∧ 1 ≤ d ≤ month_length m (isleap y).

(** The absolute day of a date. *)
Definition absolute_day (y m d : Z) : Z := days_before_year y + before_month m (isleap y) + d - 1.

Lemma rem_400 y :
  let r := (y + 1) mod 400 in
  (if Z.rem (y + 1) 400 <? 0 then - Z.rem (y + 1) 400 else Z.rem (y + 1) 400) = r ∨
  (if Z.rem (y + 1) 400 <? 0 then - Z.rem (y + 1) 400 else Z.rem (y + 1) 400) = (400 - r) ∧ r ≠ 0.
Proof.
  intros r. unfold r. destruct (Z.ltb_spec (Z.rem (y + 1) 400) 0); [right|left]; zdiv.
Qed.

Lemma isleap_gregorian y : isleap y = gregorian_leap (y + 2001).
Proof.
  set (r := (y + 1) mod 400). pose proof (Z.mod_pos_bound (y + 1) 400 ltac:(lia)) as Hr. fold r in Hr.
  set (leap_of := λ y', (0 =? Z.land y' 3) && negb (100 =? y') && negb (200 =? y') && negb (300 =? y')).
  assert (Hg : gregorian_leap (y + 2001) = gregorian_leap r).
  { unfold gregorian_leap, r.
    replace ((y + 2001) mod 4) with (((y + 1) mod 400) mod 4) by zdiv.
    replace ((y + 2001) mod 100) with (((y + 1) mod 400) mod 100) by zdiv.
    by replace ((y + 2001) mod 400) with (((y + 1) mod 400) mod 400) by zdiv. }
  rewrite Hg. change (isleap y) with (leap_of (if Z.rem (y + 1) 400 <? 0 then - Z.rem (y + 1) 400 else Z.rem (y + 1) 400)).
  assert (Hall : forallb (λ r, eqb (leap_of r) (gregorian_leap r) &&
    ((r =? 0) || eqb (leap_of (400 - r)) (gregorian_leap r))) (seqZ 0 (400 - 0)) = true)
    by (vm_compute; reflexivity).
  pose proof (forall_range _ 0 400 Hall r Hr) as Hc. cbv beta in Hc.
  apply andb_prop in Hc as [H1 H2]. apply eqb_prop in H1.
  destruct (rem_400 y) as [->|[-> Hne]]; fold r; [done|].
  apply orb_prop in H2 as [H2|H2]; [apply Z.eqb_eq in H2; done|]. by apply eqb_prop in H2.
Qed.

Lemma days_before_year_period q y : days_before_year (400 * q + y) = 146097 * q + days_before_year y.
Proof. unfold days_before_year. zdiv. Qed.

(** The closed form counts the leap days. *)
Lemma days_before_year_succ y : days_before_year (y + 1) = days_before_year y + year_length y.
Proof.
  unfold year_length. rewrite isleap_gregorian.
  set (q := (y + 1) / 400). set (r := (y + 1) mod 400).
  pose proof (Z.div_mod (y + 1) 400 ltac:(lia)) as Hd. fold q r in Hd.
  pose proof (Z.mod_pos_bound (y + 1) 400 ltac:(lia)) as Hr. fold r in Hr.
  rewrite Hd. replace y with (400 * q + (r - 1)) at 1 by lia. rewrite !days_before_year_period.
  assert (Hg : gregorian_leap (y + 2001) = gregorian_leap r).
  { replace (y + 2001) with (400 * (q + 5) + r) by lia. unfold gregorian_leap.
    replace ((400 * (q + 5) + r) mod 4) with (r mod 4) by zdiv.
    replace ((400 * (q + 5) + r) mod 100) with (r mod 100) by zdiv.
    by replace ((400 * (q + 5) + r) mod 400) with (r mod 400) by zdiv. }
  rewrite Hg.
  assert (Hall : forallb (λ r, days_before_year r =? days_before_year (r - 1) + (365 + Z.b2z (gregorian_leap r)))
    (seqZ 0 (400 - 0)) = true) by (vm_compute; reflexivity).
  pose proof (forall_range _ 0 400 Hall r Hr) as Hc. cbv beta in Hc. apply Z.eqb_eq in Hc. lia.
Qed.

Lemma days_after_year y : __CFDaysAfterMonth 0 y (isleap y) = Some (year_length y).
Proof. unfold year_length. by destruct (isleap y). Qed.

Lemma year_length_bounds y : 365 ≤ year_length y ≤ 366.
Proof. unfold year_length. destruct (isleap y); cbn; lia. Qed.

(** Far enough from the ends of [int64_t]. *)
Definition modest (x : Z) : Prop := - 2 ^ 62 ≤ x ≤ 2 ^ 62.
Lemma i64_id x : - 2 ^ 63 ≤ x < 2 ^ 63 → i64 x = x.
Proof. by apply (sint_id 64). Qed.

Lemma back_loop_ok fuel absolute y :
  - 365 * Z.of_nat fuel ≤ absolute → modest absolute → modest y → modest (y - Z.of_nat fuel) →
  ∃ a y', back_loop fuel absolute y = Some (a, y') ∧ 0 ≤ a ∧ y - Z.of_nat fuel ≤ y' ≤ y ∧
    a + days_before_year y' = absolute + days_before_year y ∧ (0 ≤ absolute ∧ a = absolute ∨ a < 366).
Proof.
  unfold modest. revert absolute y. induction fuel as [|fuel IH]; intros absolute y Hf Ha Hy Hyf; cbn [back_loop];
    destruct (Z.ltb_spec absolute 0); try lia; try (eexists _, _; split; [done|]; lia).
  rewrite (i64_id (y - 1)) by lia. rewrite days_after_year. cbn [mbind option_bind]. pose proof (year_length_bounds (y - 1)).
  rewrite (i64_id (absolute + _)) by lia.
  destruct (IH (absolute + year_length (y - 1)) (y - 1)) as (a & y' & -> & ? & ? & Hinv & Hb); [lia..|].
  pose proof (days_before_year_succ (y - 1)) as Hs. replace (y - 1 + 1) with y in Hs by lia.
  exists a, y'. split; [done|]. split; [done|]. split; [lia|]. split; [lia|]. right. lia.
Qed.

Lemma forward_loop_ok fuel absolute y :
  0 ≤ absolute ≤ 365 * Z.of_nat fuel → modest absolute → modest y → modest (y + Z.of_nat fuel) →
  ∃ a y', forward_loop fuel absolute y (year_length y) = Some (a, y') ∧ 0 ≤ a < year_length y' ∧
    a + days_before_year y' = absolute + days_before_year y.
Proof.
  unfold modest. revert absolute y. induction fuel as [|fuel IH]; intros absolute y Hf Ha Hy Hyf; cbn [forward_loop];
    pose proof (year_length_bounds y); destruct (Z.leb_spec (year_length y) absolute); try lia;
    try (eexists _, _; split; [done|]; lia).
  rewrite (i64_id (y + 1)), (i64_id (absolute - _)) by lia. rewrite days_after_year. cbn [mbind option_bind].
  destruct (IH (absolute - year_length y) (y + 1)) as (a & y' & -> & ? & Hinv); [lia..|].
  rewrite days_before_year_succ in Hinv. exists a, y'. split; [done|]. split; [done|]. lia.
Qed.

(** Every day of a year, leap or not, and every month: by evaluation. *)
Definition month_check (leap : bool) (a : Z) : bool :=
  match month_loop month_fuel (i8 (a ÷ 33 + 1)) 0 leap a with
  | Some m => (1 <=? m) && (m <=? 12) && (before_month m leap <=? a)
              && (a - before_month m leap + 1 <=? month_length m leap)
              && (i8 (a - before_month m leap + 1) =? a - before_month m leap + 1)
              && bool_decide (__CFDaysBeforeMonth m 0 leap = Some (before_month m leap))
  | None => false
  end.

Lemma month_loop_year fuel m y leap a : month_loop fuel m y leap a = month_loop fuel m 0 leap a.
Proof.
  revert m. induction fuel as [|fuel IH]; intros m; cbn [month_loop];
    change (__CFDaysBeforeMonth (i8 (m + 1)) y leap) with (__CFDaysBeforeMonth (i8 (m + 1)) 0 leap);
    destruct (__CFDaysBeforeMonth (i8 (m + 1)) 0 leap); cbn; try done; case_match; done.
Qed.

Lemma month_loop_ok y leap a :
  0 ≤ a < 365 + Z.b2z leap →
  ∃ m, month_loop month_fuel (i8 (a ÷ 33 + 1)) y leap a = Some m ∧ 1 ≤ m ≤ 12 ∧
    __CFDaysBeforeMonth m y leap = Some (before_month m leap) ∧
    1 ≤ a - before_month m leap + 1 ≤ month_length m leap ∧
    i8 (a - before_month m leap + 1) = a - before_month m leap + 1.
Proof.
  intros Ha. rewrite month_loop_year.
  change (__CFDaysBeforeMonth) with (λ m (_ : Z) leap, __CFDaysBeforeMonth m 0 leap). cbv beta.
  assert (H : month_check leap a = true).
  { destruct leap; revert a Ha; cbn [Z.b2z]; [apply (forall_range (month_check true) 0 366)|
      apply (forall_range (month_check false) 0 365)]; vm_compute; reflexivity. }
  unfold month_check in H. destruct (month_loop _ _ _ _ _) as [m|]; [|done].
  apply andb_prop in H as [H H5]. apply bool_decide_eq_true in H5. zbool.
  exists m. split; [done|]. split; [lia|]. split; [done|]. lia.
Qed.

Lemma before_month_ok m y leap :
  1 ≤ m ≤ 12 → __CFDaysBeforeMonth m y leap = Some (before_month m leap).
Proof.
  intros Hm. change (__CFDaysBeforeMonth m 0 leap = Some (before_month m leap)).
  apply (bool_decide_unpack _), Is_true_true. revert m Hm.
  assert (H : ∀ m, 1 ≤ m < 13 → bool_decide (__CFDaysBeforeMonth m 0 leap = Some (before_month m leap)) = true).
  { apply (forall_range (λ m, bool_decide (__CFDaysBeforeMonth m 0 leap = Some (before_month m leap))) 1 13).
    destruct leap; vm_compute; reflexivity. }
  intros. apply H. lia.
Qed.

Lemma days_in_month_ok m y leap :
  1 ≤ m ≤ 12 → __CFDaysInMonth m y leap = Some (month_length m leap) ∧ 28 ≤ month_length m leap ≤ 31.
Proof.
  intros Hm. change (__CFDaysInMonth m 0 leap = Some (month_length m leap) ∧ 28 ≤ month_length m leap ≤ 31).
  apply (bool_decide_unpack _), Is_true_true. revert m Hm.
  set (f := λ m, bool_decide (__CFDaysInMonth m 0 leap = Some (month_length m leap) ∧ 28 ≤ month_length m leap ≤ 31)).
  assert (H : ∀ m, 1 ≤ m < 13 → f m = true) by (apply forall_range; destruct leap; vm_compute; reflexivity).
  intros. apply H. lia.
Qed.

(** [before_month] sums the month lengths, and the twelve fill the year. *)
Lemma before_month_succ m leap :
  1 ≤ m < 12 → before_month (m + 1) leap = before_month m leap + month_length m leap.
Proof.
  intros Hm. apply Z.eqb_eq. revert m Hm.
  apply (forall_range (λ m, before_month (m + 1) leap =? before_month m leap + month_length m leap)).
  destruct leap; vm_compute; reflexivity.
Qed.

Lemma before_month_year y : before_month 12 (isleap y) + month_length 12 (isleap y) = year_length y.
Proof. unfold year_length. by destruct (isleap y). Qed.

Lemma before_month_bound m leap : 1 ≤ m ≤ 12 → 0 ≤ before_month m leap ∧
  before_month m leap + month_length m leap ≤ 365 + Z.b2z leap.
Proof.
  intros Hm. apply (bool_decide_unpack _), Is_true_true. revert m Hm.
  set (f := λ m, bool_decide (0 ≤ before_month m leap ∧ before_month m leap + month_length m leap ≤ 365 + Z.b2z leap)).
  assert (H : ∀ m, 1 ≤ m < 13 → f m = true) by (apply forall_range; destruct leap; vm_compute; reflexivity).
  intros. apply H. lia.
Qed.

Lemma before_month_mono m1 m2 leap :
  1 ≤ m1 < m2 → m2 ≤ 12 → before_month m1 leap + month_length m1 leap ≤ before_month m2 leap.
Proof.
  intros Hm Hm2. apply Z.leb_le. 
  assert (H : forallb (λ m1, forallb (λ m2, negb (m1 <? m2) ||
    (before_month m1 leap + month_length m1 leap <=? before_month m2 leap)) (seqZ 1 (13 - 1))) (seqZ 1 (13 - 1)) = true)
    by (destruct leap; vm_compute; reflexivity).
  pose proof (forall_range _ 1 13 H m1 ltac:(lia)) as H1. cbv beta in H1.
  pose proof (forall_range _ 1 13 H1 m2 ltac:(lia)) as H2. cbv beta in H2.
  rewrite (proj2 (Z.ltb_lt m1 m2)) in H2 by lia. done.
Qed.

(** ** The two conversions *)

Lemma ymd_from_absolute_ok absolute : - 2 ^ 63 ≤ absolute < 2 ^ 63 →
  ∃ y m d, __CFYMDFromAbsolute absolute = Some (y, m, d) ∧ valid_ymd y m d ∧
    absolute_day y m d = absolute.
Proof.
  intros Habs. unfold __CFYMDFromAbsolute. set (b := absolute ÷ 146097).
  assert (Hb : - 146097 < absolute - b * 146097 < 146097) by (unfold b; zdiv).
  assert (Hb' : absolute ≤ b * 146097 ≤ 0 ∨ 0 ≤ b * 146097 ≤ absolute) by (unfold b; zdiv).
  rewrite (i64_id (b * 146097)), (i64_id (b * 400)), (i64_id (absolute - _)) by lia.
  destruct (back_loop_ok year_fuel (absolute - b * 146097) (b * 400)) as (a1 & y1 & -> & Ha1 & Hy1 & Hi1 & Hs1);
    [unfold year_fuel, modest; lia..|]. cbn [mbind option_bind].
  rewrite days_after_year. cbn [mbind option_bind].
  destruct (forward_loop_ok year_fuel a1 y1) as (a2 & y & -> & Ha2 & Hi2); [unfold year_fuel, modest in *; lia..|].
  cbn [mbind option_bind].
  destruct (month_loop_ok y (isleap y) a2) as (m & -> & Hm & Hbm & Hd & Hi8); [exact Ha2|].
  cbn [mbind option_bind]. rewrite Hbm. cbn [mbind option_bind]. rewrite Hi8.
  eexists _, _, _. split; [done|]. split; [done|]. unfold absolute_day.
  replace (b * 400) with (400 * b + 0) in Hi1 by lia. rewrite days_before_year_period in Hi1.
  change (days_before_year 0) with 0 in Hi1. lia.
Qed.

(** The sums are exact while they stay within 2^53. *)
Lemma sum_years_ok n idx absolute sign : sign = 1 ∨ sign = -1 →
  (∀ i, 0 ≤ i ≤ Z.of_nat n → Z.abs (absolute + sign * (days_before_year (idx + i) - days_before_year idx)) ≤ 2 ^ 53) →
  sum_years n idx absolute sign =
  Some (absolute + sign * (days_before_year (idx + Z.of_nat n) - days_before_year idx)).
Proof.
  intros Hsign. revert idx absolute. induction n as [|n IH]; intros idx absolute Hb; cbn [sum_years].
  { f_equal. rewrite Z.add_0_r. lia. }
  rewrite days_after_year. cbn [mbind option_bind].
  pose proof (Hb 1 ltac:(lia)) as H1. rewrite days_before_year_succ in H1.
  rewrite dadd_exact by (destruct Hsign as [->| ->]; lia). rewrite IH; clear IH.
  - rewrite days_before_year_succ. replace (idx + 1 + Z.of_nat n) with (idx + Z.of_nat (S n)) by lia. f_equal. lia.
  - intros i Hi. pose proof (Hb (i + 1) ltac:(lia)) as H2. rewrite days_before_year_succ.
    replace (idx + 1 + i) with (idx + (i + 1)) by lia. destruct Hsign as [->| ->]; lia.
Qed.

Lemma days_before_year_monotone y1 y2 : y1 ≤ y2 → days_before_year y1 ≤ days_before_year y2.
Proof. intros Hle. unfold days_before_year. zdiv. Qed.

Lemma absolute_from_ymd_ok y m d :
  1 ≤ m ≤ 12 → 0 ≤ d ≤ 31 → Z.abs (days_before_year y) ≤ 2 ^ 53 - 500 →
  __CFAbsoluteFromYMD y m d = Some (absolute_day y m d).
Proof.
  intros Hm Hd Hbig. unfold __CFAbsoluteFromYMD. set (b := y ÷ 400). set (r := y - b * 400).
  assert (Hy : y = 400 * b + r) by lia. assert (Hr : - 400 < r < 400) by (unfold r, b; zdiv).
  assert (Hside : 0 ≤ b ∧ 0 ≤ r ∨ b ≤ 0 ∧ r ≤ 0) by (unfold r, b; zdiv).
  assert (Hbounds : Z.abs (146097 * b) ≤ 2 ^ 53 - 500).
  { pose proof (days_before_year_period b 0) as E. change (days_before_year 0) with 0 in E. rewrite !Z.add_0_r in E.
    rewrite <- E. destruct Hside as [[? ?]|[? ?]];
      [pose proof (days_before_year_monotone (400 * b) y)|pose proof (days_before_year_monotone y (400 * b))];
      [pose proof (days_before_year_monotone 0 (400 * b))|pose proof (days_before_year_monotone (400 * b) 0)];
      change (days_before_year 0) with 0 in *; lia. }
  assert (Hleap : isleap r = isleap y).
  { rewrite !isleap_gregorian, Hy. unfold gregorian_leap.
    replace ((400 * b + r + 2001) mod 4) with ((r + 2001) mod 4) by zdiv.
    replace ((400 * b + r + 2001) mod 100) with ((r + 2001) mod 100) by zdiv.
    by replace ((400 * b + r + 2001) mod 400) with ((r + 2001) mod 400) by zdiv. }
  rewrite (i64_id (b * 400)), (i64_id (y - _)) by lia. fold r.
  rewrite (to_double_exact b), dmul_exact, dadd_exact, Z.add_0_l by lia.
  assert (Hsum : (if r <? 0 then sum_years (Z.to_nat (- r)) r (b * 146097) (-1)
    else sum_years (Z.to_nat r) 0 (b * 146097) 1) = Some (days_before_year y)).
  { rewrite Hy, days_before_year_period in Hbig |- *.
    destruct (Z.ltb_spec r 0); rewrite sum_years_ok; [f_equal| | |f_equal| |]; try lia.
    - replace (r + Z.of_nat (Z.to_nat (- r))) with 0 by lia. change (days_before_year 0) with 0. lia.
    - intros i Hi. pose proof (days_before_year_monotone r (r + i)). pose proof (days_before_year_monotone (r + i) 0).
      change (days_before_year 0) with 0 in *. lia.
    - replace (0 + Z.of_nat (Z.to_nat r)) with r by lia. change (days_before_year 0) with 0. lia.
    - intros i Hi. pose proof (days_before_year_monotone 0 (0 + i)). pose proof (days_before_year_monotone (0 + i) r).
      change (days_before_year 0) with 0 in *. lia. }
  rewrite Hsum. cbn [mbind option_bind]. rewrite Hleap, before_month_ok by done. cbn [mbind option_bind].
  pose proof (before_month_bound m (isleap y) Hm). assert (Z.b2z (isleap y) ≤ 1) by (by destruct (isleap y)).
  assert (0 ≤ month_length m (isleap y)) by (pose proof (days_in_month_ok m 0 (isleap y) Hm); lia).
  f_equal. unfold absolute_day. rewrite dadd_exact; lia.
Qed.

(** A date is determined by its absolute day. *)
Lemma days_before_year_mono y1 y2 : y1 < y2 → days_before_year y1 + year_length y1 ≤ days_before_year y2.
Proof.
  intros Hlt. rewrite <- days_before_year_succ. unfold days_before_year. zdiv.
Qed.

Lemma absolute_day_inj y1 m1 d1 y2 m2 d2 :
  valid_ymd y1 m1 d1 → valid_ymd y2 m2 d2 → absolute_day y1 m1 d1 = absolute_day y2 m2 d2 →
  y1 = y2 ∧ m1 = m2 ∧ d1 = d2.
Proof.
  intros [Hm1 Hd1] [Hm2 Hd2] He. unfold absolute_day in He.
  pose proof (before_month_bound m1 (isleap y1) Hm1). pose proof (before_month_bound m2 (isleap y2) Hm2).
  fold (year_length y1) in *. fold (year_length y2) in *.
  assert (y1 = y2) as ->.
  { destruct (Z.lt_total y1 y2) as [Hlt|[->|Hlt]]; [|done|];
      apply days_before_year_mono in Hlt; lia. }
  assert (m1 = m2) as ->.
  { destruct (Z.lt_total m1 m2) as [Hlt|[->|Hlt]]; [|done|].
    - pose proof (before_month_mono m1 m2 (isleap y2)). lia.
    - pose proof (before_month_mono m2 m1 (isleap y2)). lia. }
  split; [done|]. split; [done|]. lia.
Qed.

(** ** Times and dates *)

(** Numbers on which all of the arithmetic is exact: [2^18] is more than three days
    of seconds. *)
Definition exact (x : Z) : Prop := Z.abs x ≤ 2 ^ 53 - 2 ^ 18.

Lemma remainder_exact d m : 0 < m ≤ 2 ^ 17 → exact d → dsub d (dmul (dfloor_div d m) m) = d mod m.
Proof.
  unfold exact. intros Hm Hd. rewrite dfloor_div_exact by lia. pose proof (Z.mod_pos_bound d m ltac:(lia)).
  pose proof (Z.div_mod d m ltac:(lia)). rewrite dmul_exact, dsub_exact by lia. lia.
Qed.
Lemma mod_to_int d m : 0 < m ≤ 2 ^ 17 → exact d → __CFDoubleModToInt d m = d mod m.
Proof.
  intros Hm Hd. unfold __CFDoubleModToInt. rewrite remainder_exact by done. pose proof (Z.mod_pos_bound d m ltac:(lia)).
  rewrite to_float_exact, (sint_id 32) by lia. by rewrite (proj2 (Z.ltb_ge _ _)) by lia.
Qed.
Lemma double_mod d m : 0 < m ≤ 2 ^ 17 → exact d → __CFDoubleMod d m = d mod m.
Proof.
  intros Hm Hd. unfold __CFDoubleMod. rewrite remainder_exact by done. pose proof (Z.mod_pos_bound d m ltac:(lia)).
  by rewrite (proj2 (Z.ltb_ge _ _)) by lia.
Qed.
Lemma day_of_exact f : exact f → to_int64 (dfloor_div f 86400) = Some (f / 86400) ∧ - 2 ^ 37 ≤ f / 86400 ≤ 2 ^ 37.
Proof.
  unfold exact. intros Hf. assert (- 2 ^ 37 ≤ f / 86400 ≤ 2 ^ 37) by zdiv.
  rewrite dfloor_div_exact, to_int64_ok by lia. done.
Qed.

(** Seconds of the day. *)
Definition time_of_day (g : CFGregorianDate) : Z := 3600 * hour g + 60 * minute g + second g.

Definition valid_time (g : CFGregorianDate) : Prop :=
  0 ≤ hour g < 24 ∧ 0 ≤ minute g < 60 ∧ 0 ≤ second g < 60.

Definition valid_date (g : CFGregorianDate) : Prop :=
  valid_ymd (year g - 2001) (month g) (day g) ∧ valid_time g.

(** The day number of the date. *)
Definition date_day (g : CFGregorianDate) : Z := absolute_day (year g - 2001) (month g) (day g).

Lemma year_of_day y m d :
  valid_ymd y m d → 365 * y ≤ absolute_day y m d + Z.max 0 (- y) ∧ absolute_day y m d ≤ 366 * Z.max y 0 + 366.
Proof.
  intros [Hm Hd]. pose proof (before_month_bound m (isleap y) Hm).
  unfold absolute_day, days_before_year. destruct (isleap y); cbn [Z.b2z] in *; split; zdiv.
Qed.

Lemma year_bounds y m d D : valid_ymd y m d → 0 ≤ D → Z.abs (absolute_day y m d) ≤ D →
  Z.abs (days_before_year y) ≤ D + 366 ∧ Z.abs y ≤ D / 365 + 2.
Proof.
  intros [Hm Hd] HD Ha. pose proof (before_month_bound m (isleap y) Hm).
  assert (Z.b2z (isleap y) ≤ 1) by (by destruct (isleap y)). unfold absolute_day in Ha.
  assert (Hdby : Z.abs (days_before_year y) ≤ D + 366) by lia. split; [done|].
  unfold days_before_year in *. zdiv.
Qed.

Lemma get_date_ok tz t :
  exact (fixed_at tz t) →
  ∃ g, CFAbsoluteTimeGetGregorianDate tz t = Some g ∧ valid_date g ∧
    fixed_at tz t = 86400 * date_day g + time_of_day g ∧ - 2 ^ 30 ≤ year g ≤ 2 ^ 30.
Proof.
  intros Hb. unfold CFAbsoluteTimeGetGregorianDate. set (f := fixed_at tz t) in *.
  destruct (day_of_exact f Hb) as [-> Hday]. cbn [mbind option_bind].
  destruct (ymd_from_absolute_ok (f / 86400)) as (y & m & d & -> & Hv & Ha); [lia|]. cbn [mbind option_bind].
  destruct (year_bounds y m d (2 ^ 37) Hv) as [_ Hy]; [lia|lia|]. change (2 ^ 37 / 365 + 2) with 376545080 in Hy.
  rewrite (proj2 (Z.ltb_ge (INT32_MAX - 2001) y)) by (unfold INT32_MAX; lia).
  rewrite (sint_id 32 (y + 2001)) by lia. unfold exact in Hb.
  rewrite !dfloor_div_exact by lia. rewrite !mod_to_int, double_mod by (unfold exact; zdiv).
  pose proof (Z.mod_pos_bound (f / 3600) 24). pose proof (Z.mod_pos_bound (f / 60) 60).
  rewrite !(sint_id 8) by lia.
  eexists. split; [done|]. unfold valid_date, valid_time, date_day, time_of_day.
  cbn [year month day hour minute second]. replace (y + 2001 - 2001) with y by lia. rewrite Ha.
  split; [split; [done|]|split; [|lia]]; [repeat split; try apply Z.mod_pos_bound; lia|]. zdiv.
Qed.

Lemma get_absolute_ok tz g :
  valid_date g → exact (86400 * date_day g + time_of_day g) →
  CFGregorianDateGetAbsoluteTime tz g =
  let local := 86400 * date_day g + time_of_day g in
  Some match tz with Some o => dsub local (o (dsub local (o local))) | None => local end.
Proof.
  unfold exact. intros [Hd (Hh & Hmi & Hs)] Hb. unfold CFGregorianDateGetAbsoluteTime.
  assert (Htod : 0 ≤ time_of_day g < 86400) by (unfold time_of_day; lia).
  destruct (year_bounds _ _ _ (2 ^ 37) Hd) as [Hdby Hy]; [lia|fold (date_day g); lia|].
  change (2 ^ 37 / 365 + 2) with 376545080 in Hy. rewrite int32_ok by lia. cbn [mbind option_bind].
  pose proof Hd as [Hm Hday]. pose proof (days_in_month_ok (month g) 0 (isleap (year g - 2001)) Hm) as [_ Hlen].
  rewrite absolute_from_ymd_ok by lia. cbn [mbind option_bind]. fold (date_day g).
  rewrite (dmul_exact 86400), (dmul_exact 3600), (dmul_exact 60) by lia.
  rewrite (dadd_exact (3600 * _)), (dadd_exact (3600 * _ + _)) by lia. fold (time_of_day g).
  rewrite dadd_exact by lia. by destruct tz.
Qed.

Lemma date_unique g1 g2 :
  valid_date g1 → valid_date g2 →
  86400 * date_day g1 + time_of_day g1 = 86400 * date_day g2 + time_of_day g2 → g1 = g2.
Proof.
  intros [Hd1 Ht1] [Hd2 Ht2] He. destruct Ht1 as (? & ? & ?), Ht2 as (? & ? & ?).
  unfold time_of_day in He. assert (date_day g1 = date_day g2) as Hday by lia.
  pose proof (absolute_day_inj _ _ _ _ _ _ Hd1 Hd2 Hday) as (Ey & Em & Ed).
  destruct g1, g2; cbn in *. f_equal; lia.
Qed.

(** ** Adding units *)

(** The loops do not overflow: [y] changes by one where [m] or [d] changes by more. *)
Lemma months_down_ok fuel y m :
  m - 12 ≤ Z.of_nat fuel → - 2 ^ 30 ≤ y → y + Z.max 0 m < 2 ^ 31 → - 2 ^ 31 ≤ m < 2 ^ 31 →
  ∃ y' m', months_down fuel y m = Some (y', m') ∧ m' ≤ 12 ∧ (m' = m ∨ 1 ≤ m') ∧ 12 * y' + m' = 12 * y + m.
Proof.
  revert y m. induction fuel as [|fuel IH]; intros y m Hf Hy Hym Hm; cbn [months_down];
    destruct (Z.ltb_spec 12 m); try lia; try (eexists _, _; split; [done|]; lia).
  rewrite (int32_ok (m - 12)), (int32_ok (y + 1)) by lia. cbn [mbind option_bind].
  destruct (IH (y + 1) (m - 12)) as (y' & m' & -> & ? & ? & ?); [lia..|]. eexists _, _. split; [done|]. lia.
Qed.

Lemma months_up_ok fuel y m :
  1 - m ≤ Z.of_nat fuel → m ≤ 12 → y < 2 ^ 30 → - 2 ^ 31 ≤ y + Z.min 0 (m - 1) → - 2 ^ 31 ≤ m →
  ∃ y' m', months_up fuel y m = Some (y', m') ∧ 1 ≤ m' ≤ 12 ∧ 12 * y' + m' = 12 * y + m.
Proof.
  revert y m. induction fuel as [|fuel IH]; intros y m Hf Hm Hy Hym Hlow; cbn [months_up];
    destruct (Z.ltb_spec m 1); try lia; try (eexists _, _; split; [done|]; lia).
  rewrite (int32_ok (m + 12)), (int32_ok (y - 1)) by lia. cbn [mbind option_bind].
  destruct (IH (y - 1) (m + 12)) as (y' & m' & -> & ? & ?); [lia..|]. eexists _, _. split; [done|]. lia.
Qed.

(** Moving to the next month: the absolute day of a date whose day number is
    beyond the end of its month. *)
Lemma next_month y m d :
  1 ≤ m ≤ 12 →
  absolute_day y m d =
  absolute_day (if 12 <? m + 1 then y + 1 else y) (if 12 <? m + 1 then m + 1 - 12 else m + 1)
    (d - month_length m (isleap y)).
Proof.
  intros Hm. unfold absolute_day. destruct (Z.ltb_spec 12 (m + 1)).
  - assert (m = 12) as -> by lia. rewrite days_before_year_succ.
    pose proof (before_month_year y). replace (12 + 1 - 12) with 1 by lia.
    assert (before_month 1 (isleap (y + 1)) = 0) as -> by (by destruct (isleap (y + 1))). lia.
  - rewrite before_month_succ by lia. lia.
Qed.

Lemma days_down_ok fuel y m d :
  d ≤ Z.of_nat fuel → 1 ≤ m ≤ 12 → - 2 ^ 30 ≤ y → y + Z.max 0 d < 2 ^ 31 →
  ∃ y' m' d', days_down fuel y m d (month_length m (isleap (y - 2001))) = Some (y', m', d') ∧
    1 ≤ m' ≤ 12 ∧ d' ≤ month_length m' (isleap (y' - 2001)) ∧ (d' = d ∧ y' = y ∨ 1 ≤ d' ∧ y ≤ y' ≤ y + Z.max 0 d) ∧
    absolute_day (y' - 2001) m' d' = absolute_day (y - 2001) m d.
Proof.
  revert y m d. induction fuel as [|fuel IH]; intros y m d Hf Hm Hy Hyd; cbn [days_down];
    destruct (days_in_month_ok m 0 (isleap (y - 2001)) Hm) as [_ Hlen];
    destruct (Z.ltb_spec (month_length m (isleap (y - 2001))) d); try lia;
    try (eexists _, _, _; split; [done|]; split; [done|]; split; [done|]; split; [by left|done]).
  rewrite (next_month _ m d Hm). destruct (Z.ltb_spec 12 (m + 1)).
  - rewrite (int32_ok (y + 1)) by lia. cbn [mbind option_bind]. rewrite (int32_ok (y + 1 - 2001)) by lia. cbn [mbind option_bind].
    destruct (days_in_month_ok (m + 1 - 12) (y + 1 - 2001) (isleap (y + 1 - 2001))) as [-> _]; [lia|].
    cbn [mbind option_bind].
    destruct (IH (y + 1) (m + 1 - 12) (d - month_length m (isleap (y - 2001)))) as (y' & m' & d' & E & ? & ? & ? & Ha);
      [lia..|]. rewrite E. eexists _, _, _. split; [done|]. split; [done|]. split; [done|].
    split; [lia|]. rewrite Ha. f_equal. lia.
  - cbn [mbind option_bind]. rewrite (int32_ok (y - 2001)) by lia. cbn [mbind option_bind].
    destruct (days_in_month_ok (m + 1) (y - 2001) (isleap (y - 2001))) as [-> _]; [lia|].
    cbn [mbind option_bind].
    destruct (IH y (m + 1) (d - month_length m (isleap (y - 2001)))) as (y' & m' & d' & E & ? & ? & ? & Ha);
      [lia..|]. rewrite E. eexists _, _, _. split; [done|]. split; [done|]. split; [done|].
    split; [lia|]. done.
Qed.

Lemma days_up_ok fuel y m d :
  1 - d ≤ Z.of_nat fuel → 1 ≤ m ≤ 12 → d ≤ month_length m (isleap (y - 2001)) → y < 2 ^ 31 → - 2 ^ 31 + 4000 ≤ y + Z.min 0 (d - 1) →
  ∃ y' m' d', days_up fuel y m d = Some (y', m', d') ∧ valid_ymd (y' - 2001) m' d' ∧
    absolute_day (y' - 2001) m' d' = absolute_day (y - 2001) m d.
Proof.
  revert y m d. induction fuel as [|fuel IH]; intros y m d Hf Hm Hd Hy Hyd; cbn [days_up];
    destruct (Z.ltb_spec d 1); try lia;
    try (eexists _, _, _; split; [done|]; split; [split; [done|lia]|done]).
  destruct (Z.ltb_spec (m - 1) 1).
  - assert (m = 1) as -> by lia. change (1 - 1 + 12) with 12.
    rewrite (int32_ok (y - 1)) by lia. cbn [mbind option_bind]. rewrite (int32_ok (y - 1 - 2001)) by lia. cbn [mbind option_bind].
    destruct (days_in_month_ok 12 (y - 1 - 2001) (isleap (y - 1 - 2001))) as [-> Hl]; [lia|].
    cbn [mbind option_bind].
    destruct (IH (y - 1) 12 (d + month_length 12 (isleap (y - 1 - 2001)))) as (y' & m' & d' & E & ? & Ha); [lia..|].
    rewrite E. eexists _, _, _. split; [done|]. split; [done|]. rewrite Ha.
    rewrite next_month by lia. change (12 <? 12 + 1) with true. cbv iota. f_equal; lia.
  - cbn [mbind option_bind]. rewrite (int32_ok (y - 2001)) by lia. cbn [mbind option_bind].
    destruct (days_in_month_ok (m - 1) (y - 2001) (isleap (y - 2001))) as [-> Hl]; [lia|].
    cbn [mbind option_bind].
    destruct (IH y (m - 1) (d + month_length (m - 1) (isleap (y - 2001)))) as (y' & m' & d' & E & ? & Ha); [lia..|].
    rewrite E. eexists _, _, _. split; [done|]. split; [done|]. rewrite Ha.
    rewrite next_month by lia. rewrite (proj2 (Z.ltb_ge _ _)) by lia. f_equal; lia.
Qed.

Definition shifted_month (g : CFGregorianDate) (u : CFGregorianUnits) : Z :=
  (month g + months u - 1) mod 12 + 1.
Definition shifted_year (g : CFGregorianDate) (u : CFGregorianUnits) : Z :=
  year g + years u + (month g + months u - 1) / 12.

(** The local time the code computes: the day clamped to the month reached by
    the years and months, then the days. *)
Definition shifted_day (g : CFGregorianDate) (u : CFGregorianUnits) : Z :=
  absolute_day (shifted_year g u - 2001) (shifted_month g u)
    (Z.min (day g) (month_length (shifted_month g u) (isleap (shifted_year g u - 2001)))) + days u.

(** Units within about thirty million years, for which no sum overflows or rounds. *)
Record units_ok (u : CFGregorianUnits) : Prop := {
  units_years : Z.abs (years u) ≤ 2 ^ 25;
  units_months : Z.abs (months u) ≤ 2 ^ 28;
  units_days : Z.abs (days u) ≤ 2 ^ 30;
  units_hours : Z.abs (hours u) ≤ 2 ^ 31;
  units_minutes : Z.abs (minutes u) ≤ 2 ^ 31;
  units_seconds : Z.abs (seconds u) ≤ 2 ^ 51;
}.

Lemma fixed_at_none t : Z.abs t ≤ 2 ^ 53 → fixed_at None t = t.
Proof. intros Ht. unfold fixed_at. rewrite dadd_exact; lia. Qed.

(** The year of a time in seconds. *)
Lemma year_of_time g t : valid_date g → t = 86400 * date_day g + time_of_day g → Z.abs t ≤ 2 ^ 51 →
  Z.abs (year g) ≤ 2 ^ 27.
Proof.
  intros [Hd (Hh & Hm & Hs)] -> Ht. assert (Htod : 0 ≤ time_of_day g < 86400) by (unfold time_of_day; lia).
  destruct (year_bounds _ _ _ (2 ^ 35) Hd) as [_ Hy]; [lia|fold (date_day g); lia|].
  change (2 ^ 35 / 365 + 2) with 94136271 in Hy. lia.
Qed.

(** The day reached is within the exact range. *)
Lemma shifted_day_bounds g u : valid_date g → units_ok u → Z.abs (year g) ≤ 2 ^ 27 →
  Z.abs (shifted_day g u) ≤ 2 ^ 36 + 2 ^ 33.
Proof.
  intros [[Hm Hd] _] [U1 U2 U3 _ _ _] Hy. unfold shifted_day.
  set (m2 := shifted_month g u). set (y2 := shifted_year g u - 2001).
  assert (Hm2 : 1 ≤ m2 ≤ 12) by (unfold m2, shifted_month; zdiv).
  assert (Hy2 : Z.abs y2 ≤ 2 ^ 27 + 2 ^ 25 + 2 ^ 25) by (unfold y2, shifted_year; zdiv).
  pose proof (before_month_bound m2 (isleap y2) Hm2). assert (Z.b2z (isleap y2) ≤ 1) by (by destruct (isleap y2)).
  destruct (days_in_month_ok m2 0 (isleap y2) Hm2) as [_ Hl].
  assert (Z.abs (days_before_year y2) ≤ 366 * (2 ^ 27 + 2 ^ 26) + 366) by (unfold days_before_year; zdiv).
  unfold absolute_day. fold y2. lia.
Qed.

Lemma roll_in c h m s : Z.abs c ≤ 67 * 10 ^ 14 → Z.abs h ≤ 2 ^ 31 → Z.abs m ≤ 2 ^ 31 → Z.abs s ≤ 2 ^ 51 →
  dadd (dadd (dadd c (dmul 3600 h)) (dmul 60 m)) s = c + 3600 * h + 60 * m + s.
Proof.
  intros. rewrite (dmul_exact 3600), (dmul_exact 60) by lia.
  rewrite (dadd_exact c), (dadd_exact (c + _)), dadd_exact by lia. lia.
Qed.

Lemma add_units_ok t u :
  Z.abs t ≤ 2 ^ 51 → units_ok u →
  ∃ g, CFAbsoluteTimeGetGregorianDate None t = Some g ∧ valid_date g ∧
    t = 86400 * date_day g + time_of_day g ∧
    CFAbsoluteTimeAddGregorianUnits None t u =
    Some (86400 * shifted_day g u + time_of_day g + 3600 * hours u + 60 * minutes u + seconds u).
Proof.
  intros Hb Hu. pose proof (fixed_at_none t ltac:(lia)) as Hfix.
  destruct (get_date_ok None t) as (g & Hg & Hv & Ht & _); [rewrite Hfix; unfold exact; lia|].
  exists g. split; [done|]. split; [done|]. rewrite Hfix in Ht. split; [done|].
  pose proof (year_of_time g t Hv Ht Hb) as Hyg. pose proof (shifted_day_bounds g u Hv Hu Hyg) as Hsd.
  destruct Hu as [U1 U2 U3 U4 U5 U6]. pose proof Hv as [[Hmg Hdg] Hvt].
  destruct (days_in_month_ok (month g) 0 (isleap (year g - 2001)) Hmg) as [_ Hlg].
  unfold CFAbsoluteTimeAddGregorianUnits. rewrite Hg. cbn [mbind option_bind].
  rewrite (int32_ok (year g + _)), (int32_ok (month g + _)) by lia. cbn [mbind option_bind].
  destruct (months_down_ok (Z.to_nat (month g + months u)) (year g + years u) (month g + months u))
    as (y1 & m1 & -> & ? & ? & E1); [lia..|]. cbn [mbind option_bind].
  destruct (months_up_ok (Z.to_nat (1 - m1)) y1 m1) as (y2 & m2 & -> & Hm2 & E2); [lia..|].
  cbn [mbind option_bind]. rewrite (int32_ok (y2 - 2001)) by lia. cbn [mbind option_bind].
  assert (m2 = shifted_month g u) as Em by (unfold shifted_month; zdiv).
  assert (y2 = shifted_year g u) as Ey by (unfold shifted_year; zdiv).
  destruct (days_in_month_ok m2 (y2 - 2001) (isleap (y2 - 2001)) Hm2) as [-> Hlen]. cbn [mbind option_bind].
  set (len := month_length m2 (isleap (y2 - 2001))) in *.
  replace (if len <? day g then len else day g) with (Z.min (day g) len) by (destruct (Z.ltb_spec len (day g)); lia).
  rewrite (int32_ok (Z.min _ _ + _)) by lia. cbn [mbind option_bind].
  destruct (days_down_ok (Z.to_nat (Z.min (day g) len + days u)) y2 m2 (Z.min (day g) len + days u))
    as (y3 & m3 & d3 & Hd & Hm3 & Hd3 & Hy3 & Ha3); [lia..|].
  fold len in Hd. rewrite Hd. cbn [mbind option_bind].
  destruct (days_up_ok (Z.to_nat (1 - d3)) y3 m3 d3) as (y4 & m4 & d4 & -> & Hv4 & Ha4); [lia..|].
  cbn [mbind option_bind]. set (g' := Build_CFGregorianDate _ _ _ _ _ _).
  assert (Hdd : date_day g' = shifted_day g u).
  { unfold date_day, g'. cbn [year month day]. rewrite Ha4, Ha3. unfold shifted_day. rewrite <- Em, <- Ey.
    fold len. unfold absolute_day. lia. }
  assert (Htod : time_of_day g' = time_of_day g) by done. assert (Hrange : 0 ≤ time_of_day g < 86400) by (unfold time_of_day, valid_time in *; lia).
  rewrite get_absolute_ok; [|done|unfold exact; rewrite Hdd, Htod; lia]. cbn zeta. cbn [mbind option_bind]. rewrite Hdd, Htod.
  apply f_equal, roll_in; [lia|exact U4|exact U5|exact U6].
Qed.

(** ** Weeks (ISO 8601)

    The week of a day is that of its Thursday, numbered in the year of that
    Thursday. *)
Definition thursday (absolute : Z) : Z := absolute - absolute mod 7 + 3.
Definition iso_week (absolute week : Z) : Prop :=
  ∃ y, days_before_year y ≤ thursday absolute < days_before_year (y + 1) ∧
    week = (thursday absolute - days_before_year y) / 7 + 1.

Lemma day_of_year_january y d : before_month 1 (isleap y) + d - 1 = d - 1.
Proof. assert (before_month 1 (isleap y) = 0) as -> by (by destruct (isleap y)). lia. Qed.

Lemma january_length leap : month_length 1 leap = 31.
Proof. by destruct leap. Qed.
Lemma december_length leap : month_length 12 leap = 31.
Proof. by destruct leap. Qed.

Lemma first_january y : Z.abs (days_before_year y) ≤ 2 ^ 53 - 500 → __CFAbsoluteFromYMD y 1 1 = Some (days_before_year y).
Proof.
  intros Hy. rewrite absolute_from_ymd_ok by (done || lia). unfold absolute_day. f_equal.
  pose proof (day_of_year_january y 1). lia.
Qed.

(** The week number when the Thursday falls in the year of the day. *)
Lemma week_in_year n B k :
  0 ≤ n → k = B mod 7 → ¬ (n - (B + n) mod 7 + 3 < 0) →
  (n + 1 + Z.rem (k + 1 - 11) 7 + 2) ÷ 7 + 1 = (thursday (B + n) - B) / 7 + 1.
Proof.
  intros Hn Hk Hin. unfold thursday. f_equal.
  assert (k = 0 ∨ k = 1 ∨ k = 2 ∨ k = 3 ∨ k = 4 ∨ k = 5 ∨ k = 6) as Hc by (subst k; zdiv).
  destruct Hc as [->|[->|[->|[->|[->|[->| ->]]]]]]; 
  match goal with |- context [Z.rem ?a 7] => let r := eval vm_compute in (Z.rem a 7) in change (Z.rem a 7) with r end;
  zdiv.
Qed.

Lemma in_previous_year_iff m d k :
  in_previous_year m d (k + 1) = true ↔ m = 1 ∧ (k = 4 ∧ d < 4 ∨ k = 5 ∧ d < 3 ∨ k = 6 ∧ d < 2).
Proof. unfold in_previous_year. lia. Qed.

Lemma in_next_year_iff d k :
  in_next_year d (k + 1) = true ↔ k = 3 ∧ 28 < d ∨ k = 2 ∧ 29 < d ∨ k = 1 ∧ 30 < d.
Proof. unfold in_next_year. lia. Qed.

Lemma week_ok tz t : exact (fixed_at tz t) →
  let absolute := fixed_at tz t / 86400 in
  ∃ w, CFAbsoluteTimeGetWeekOfYear tz t = Some w ∧
    (iso_week absolute w ∨
     w = 53 ∧ iso_week absolute 52 ∧
     ∃ y d, absolute = absolute_day y 1 d ∧ (absolute_day y 1 1 mod 7 = 5 ∧ 1 ≤ d ≤ 2 ∨ absolute_day y 1 1 mod 7 = 6 ∧ d = 1)).
Proof.
  intros Hexact a. unfold CFAbsoluteTimeGetWeekOfYear. destruct (day_of_exact _ Hexact) as [-> Hrange]. fold a in Hrange |- *.
  cbn [mbind option_bind].
  destruct (ymd_from_absolute_ok a) as (y & m & d & -> & Hv & Ha); [lia|]. cbn [mbind option_bind].
  destruct (year_bounds y m d (2 ^ 37) Hv) as [Hdby _]; [lia|lia|]. pose proof Hv as [Hm Hd].
  rewrite (first_january y) by lia. cbn [mbind option_bind]. rewrite mod_to_int by (unfold exact; lia). cbv zeta.
  rewrite before_month_ok by done. cbn [mbind option_bind].
  set (B := days_before_year y) in *. set (n := before_month m (isleap y) + d - 1).
  assert (Han : a = B + n) by (unfold n; rewrite <- Ha; unfold absolute_day, B; lia).
  pose proof (before_month_bound m (isleap y) Hm) as [Hb1 Hb2]. fold (year_length y) in Hb2.
  replace (before_month m (isleap y) + d) with (n + 1) by (unfold n; lia).
  pose proof (days_before_year_succ y) as Hs. fold B in Hs.
  pose proof (days_before_year_succ (y - 1)) as Hp. replace (y - 1 + 1) with y in Hp by lia. fold B in Hp.
  pose proof (year_length_bounds y). pose proof (year_length_bounds (y - 1)).
  assert (Hjan : m = 1 → n = d - 1) by (intros ->; apply day_of_year_january).
  assert (Hdec : m = 12 → n = year_length y - 31 + d - 1).
  { intros ->. pose proof (before_month_year y) as Hy. rewrite december_length in Hy. unfold n. lia. }
  assert (H31 : m ≠ 1 → 31 ≤ n).
  { intros. pose proof (before_month_mono 1 m (isleap y)) as Hx. rewrite january_length in Hx.
    pose proof (before_month_bound 1 (isleap y)). lia. }
  assert (H32 : m ≠ 12 → n ≤ year_length y - 32).
  { intros. pose proof (before_month_mono m 12 (isleap y)) as Hx. pose proof (before_month_year y) as Hy.
    rewrite december_length in Hy. lia. }
  set (k := B mod 7). assert (Hk : 0 ≤ k < 7) by (unfold k; zdiv).
  assert (Hin : ¬ (n - (B + n) mod 7 + 3 < 0) → thursday (B + n) < B + year_length y →
    iso_week a ((n + 1 + Z.rem (k + 1 - 11) 7 + 2) ÷ 7 + 1)).
  { intros Hge Hlt. exists y. rewrite Han. fold B. split; [unfold thursday in *; lia|].
    apply week_in_year; [unfold n; lia|done|done]. }
  destruct (in_previous_year m d (k + 1)) eqn:Hc1.
  { eexists. split; [done|]. apply in_previous_year_iff in Hc1 as [-> Hf]. specialize (Hjan eq_refl).
    assert (Ht : thursday a = B - k + 3) by (unfold thursday; rewrite Han; unfold k in *; zdiv).
    assert (Hw : iso_week a ((year_length (y - 1) + 3 - k) / 7 + 1)).
    { exists (y - 1). replace (y - 1 + 1) with y by lia. fold B. rewrite Ht, Hp. split; [lia|]. f_equal. f_equal. lia. }
    assert (HB : absolute_day y 1 1 = B) by (unfold absolute_day; pose proof (day_of_year_january y 1); fold B; lia).
    destruct Hf as [[Hk4 Hd4]|[[Hk5 Hd5]|[Hk6 Hd6]]].
    - left. rewrite Hk4 in Hw. replace 53 with ((year_length (y - 1) + 3 - 4) / 7 + 1) by zdiv. done.
    - rewrite Hk5 in Hw. destruct (decide (year_length (y - 1) = 366)) as [E|E]; [left|right].
      + rewrite E in Hw. exact Hw.
      + replace ((year_length (y - 1) + 3 - 5) / 7 + 1) with 52 in Hw by zdiv. split; [done|]. split; [done|].
        exists y, d. rewrite HB. fold k. split; [done|]. lia.
    - rewrite Hk6 in Hw. right. replace ((year_length (y - 1) + 3 - 6) / 7 + 1) with 52 in Hw by zdiv.
      split; [done|]. split; [done|]. exists y, d. rewrite HB. fold k. split; [done|]. lia. }
  assert (Hge : ¬ (n - (B + n) mod 7 + 3 < 0)).
  { intros Hneg. assert (m = 1) by (destruct (decide (m = 1)); [done|]; zdiv).
    subst m. specialize (Hjan eq_refl). 
    assert ((B + n) mod 7 = k + n) by (unfold k in *; zdiv).
    assert (in_previous_year 1 d (k + 1) = true); [|congruence].
    apply in_previous_year_iff. pose proof (Z.mod_pos_bound (B + n) 7). lia. }
  destruct ((12 =? m) && (28 <? d)) eqn:Hc2.
  - rewrite first_january by lia. cbn [mbind option_bind]. rewrite mod_to_int by (unfold exact; lia). cbv zeta. zbool.
    assert (m = 12) as -> by lia. specialize (Hdec eq_refl). rewrite december_length in Hd.
    set (k2 := days_before_year (y + 1) mod 7). assert (Hk2 : k2 = (B + year_length y) mod 7) by (unfold k2; by rewrite Hs).
    destruct (in_next_year d (k2 + 1)) eqn:Hc3.
    + eexists. split; [done|]. left. apply in_next_year_iff in Hc3.
      pose proof (days_before_year_succ (y + 1)). pose proof (year_length_bounds (y + 1)).
      exists (y + 1). unfold thursday. rewrite Han, Hdec. rewrite Hs in *. split; zdiv.
    + eexists. split; [done|]. left. apply Hin; [done|]. unfold thursday.
      apply not_true_iff_false in Hc3. rewrite in_next_year_iff in Hc3. zdiv.
  - eexists. split; [done|]. left. apply Hin; [done|]. unfold thursday.
    destruct (decide (m = 12)) as [->|Hne]; [|specialize (H32 Hne); zdiv].
    specialize (Hdec eq_refl). assert (d ≤ 28).
    { apply andb_false_iff in Hc2 as [Hc2|Hc2]; zbool; lia. }
    zdiv.
Qed.

(** ** Properties *)

(** C33. Converting an absolute day of [int64_t] always succeeds within the fuel and
    gives the one valid date of that day, before 2001 and far in the future alike
    (the day of a date is a closed form in floor divisions).  The way back, which
    returns a double, gives the same day up to a thousand days short of 2^53; the
    day after 2^53 it cannot give. *)
Theorem ymd_round_trip :
  (∀ absolute, - 2 ^ 63 ≤ absolute < 2 ^ 63 →
     ∃ y m d, __CFYMDFromAbsolute absolute = Some (y, m, d) ∧ valid_ymd y m d ∧ absolute_day y m d = absolute ∧
       (Z.abs absolute ≤ 2 ^ 53 - 1000 → __CFAbsoluteFromYMD y m d = Some absolute)) ∧
  (∀ y m d, valid_ymd y m d → - 2 ^ 63 ≤ absolute_day y m d < 2 ^ 63 →
     __CFYMDFromAbsolute (absolute_day y m d) = Some (y, m, d) ∧
     (Z.abs (absolute_day y m d) ≤ 2 ^ 53 - 1000 → __CFAbsoluteFromYMD y m d = Some (absolute_day y m d))) ∧
  (∃ y m d, __CFYMDFromAbsolute (2 ^ 53 + 1) = Some (y, m, d) ∧ __CFAbsoluteFromYMD y m d ≠ Some (2 ^ 53 + 1)).
Proof.
  assert (Hback : ∀ y m d, valid_ymd y m d → Z.abs (absolute_day y m d) ≤ 2 ^ 53 - 1000 →
    __CFAbsoluteFromYMD y m d = Some (absolute_day y m d)).
  { intros y m d Hv Hb. destruct (year_bounds y m d (2 ^ 53 - 1000) Hv) as [Hy _]; [lia|done|].
    pose proof Hv as [Hm Hd]. destruct (days_in_month_ok m 0 (isleap y) Hm) as [_ Hl]. apply absolute_from_ymd_ok; lia. }
  split; [|split].
  - intros a Ha. destruct (ymd_from_absolute_ok a Ha) as (y & m & d & E & Hv & Hday).
    exists y, m, d. split_and!; [done|done|done|]. intros Hb. rewrite <- Hday. apply Hback; [done|by rewrite Hday].
  - intros y m d Hv Ha. split; [|by apply Hback].
    destruct (ymd_from_absolute_ok (absolute_day y m d) Ha) as (y' & m' & d' & -> & Hv' & Ha').
    by destruct (absolute_day_inj _ _ _ _ _ _ Hv' Hv Ha') as (-> & -> & ->).
  - eexists _, _, _. split; [vm_compute; reflexivity|]. vm_compute. discriminate.
Qed.

(** [isleap] is the Gregorian rule, and the table look-ups for a year agree
    with it: consecutive first of Januaries are 365 or 366 days apart. *)
Theorem isleap_is_gregorian y :
  isleap y = gregorian_leap (y + 2001) ∧
  __CFDaysAfterMonth 0 y (isleap y) = Some (days_before_year (y + 1) - days_before_year y).
Proof.
  split; [apply isleap_gregorian|]. rewrite days_after_year, days_before_year_succ. f_equal. lia.
Qed.

(** [CFAbsoluteTimeGetGregorianDate] gives a valid date, and
    [CFGregorianDateGetAbsoluteTime] takes it back to the time it came from,
    in any time zone with offsets below 2^20 seconds whose offset at the time
    recomputed from the local time is the offset at the time itself (no transition
    in between). *)
Theorem date_time_round_trip tz t
    (Hb : Z.abs t ≤ 2 ^ 52) (Hoff : ∀ o x, tz = Some o → Z.abs (o x) ≤ 2 ^ 20)
    (Htz : ∀ o, tz = Some o → o (t + o t - o (t + o t)) = o t) :
  ∃ g, CFAbsoluteTimeGetGregorianDate tz t = Some g ∧ valid_date g ∧
    CFGregorianDateGetAbsoluteTime tz g = Some t.
Proof.
  assert (Hfix : fixed_at tz t = t + match tz with Some o => o t | None => 0 end).
  { unfold fixed_at. apply dadd_exact. destruct tz as [o|]; [specialize (Hoff o t eq_refl)|]; lia. }
  assert (Hex : exact (fixed_at tz t)).
  { rewrite Hfix. unfold exact. destruct tz as [o|]; [specialize (Hoff o t eq_refl)|]; lia. }
  destruct (get_date_ok tz t Hex) as (g & E & Hv & Ht & _). exists g. split; [done|]. split; [done|].
  rewrite get_absolute_ok by (done || by rewrite <- Ht). cbn zeta. rewrite <- Ht, Hfix. f_equal.
  destruct tz as [o|]; [|lia]. pose proof (Hoff o t eq_refl). pose proof (Hoff o (t + o t) eq_refl).
  rewrite (dsub_exact (t + o t) (o (t + o t))), Htz by (done || lia). rewrite dsub_exact; lia.
Qed.

(** Without a time zone the converse holds as well: a valid date survives the
    trip through an absolute time. *)
Theorem time_date_round_trip g
    (Hv : valid_date g) (Hb : exact (86400 * date_day g + time_of_day g)) :
  ∃ t, CFGregorianDateGetAbsoluteTime None g = Some t ∧ CFAbsoluteTimeGetGregorianDate None t = Some g.
Proof.
  rewrite get_absolute_ok by done. cbn zeta. eexists. split; [done|]. set (t := 86400 * date_day g + time_of_day g) in *.
  pose proof (fixed_at_none t ltac:(unfold exact in Hb; lia)) as Hfix.
  destruct (get_date_ok None t) as (g' & E & Hv' & Ht & _); [by rewrite Hfix|].
  rewrite E. f_equal. apply date_unique; [done|done|]. by rewrite Hfix in Ht.
Qed.

(** [CFAbsoluteTimeAddGregorianUnits] without a time zone: the years and months
    are added first with carry into the year, the day is clamped once to the
    length of the month reached, the days are then added across month ends, and
    the rest is added as seconds.  Adding no years or months adds exactly the
    days, hours, minutes and seconds, of either sign. *)
Theorem add_units_spec t u (Hb : Z.abs t ≤ 2 ^ 51) (Hu : units_ok u) :
  ∃ g, CFAbsoluteTimeGetGregorianDate None t = Some g ∧
    CFAbsoluteTimeAddGregorianUnits None t u =
      Some (86400 * shifted_day g u + time_of_day g + 3600 * hours u + 60 * minutes u + seconds u) ∧
    (years u = 0 → months u = 0 → CFAbsoluteTimeAddGregorianUnits None t u =
      Some (t + 86400 * days u + 3600 * hours u + 60 * minutes u + seconds u)).
Proof.
  destruct (add_units_ok t u Hb Hu) as (g & Hg & Hv & Ht & E). exists g. split; [done|]. split; [done|].
  intros Hy Hm. rewrite E. f_equal. destruct Hv as [[Hmg Hd] _].
  assert (E1 : shifted_month g u = month g) by (unfold shifted_month; rewrite Hm; zdiv).
  assert (E2 : shifted_year g u = year g) by (unfold shifted_year; rewrite Hy, Hm; zdiv).
  assert (shifted_day g u = date_day g + days u); [|lia].
  unfold shifted_day, date_day. rewrite E1, E2, Z.min_l by lia. lia.
Qed.

(** [CFAbsoluteTimeGetDayOfWeek] numbers the days from Monday, day 0 being one,
    before 2001 as after; [CFAbsoluteTimeGetDayOfYear] counts from 1 January. *)
Theorem day_numbers tz t (Hb : exact (fixed_at tz t)) :
  let absolute := fixed_at tz t / 86400 in
  CFAbsoluteTimeGetDayOfWeek tz t = Some (absolute mod 7 + 1) ∧
  ∃ y n, CFAbsoluteTimeGetDayOfYear tz t = Some n ∧ 1 ≤ n ≤ year_length y ∧
    absolute = days_before_year y + n - 1.
Proof.
  intros a. unfold CFAbsoluteTimeGetDayOfWeek, CFAbsoluteTimeGetDayOfYear.
  destruct (day_of_exact _ Hb) as [-> Hrange]. fold a in Hrange |- *. cbn [mbind option_bind]. split.
  - f_equal. destruct (Z.ltb_spec a 0); zdiv.
  - destruct (ymd_from_absolute_ok a) as (y & m & d & -> & [Hm Hd] & Ha); [lia|]. cbn [mbind option_bind].
    rewrite before_month_ok by done. cbn [mbind option_bind]. exists y. eexists. split; [done|].
    pose proof (before_month_bound m (isleap y) Hm). fold (year_length y) in *.
    unfold absolute_day in Ha. lia.
Qed.

(** [CFAbsoluteTimeGetWeekOfYear] is the ISO 8601 week number, except on a first
    or second of January that still belongs to the last week of the year before:
    there the code answers 53 although the week can be number 52. *)
Theorem week_of_year tz t (Hb : exact (fixed_at tz t)) :
  let absolute := fixed_at tz t / 86400 in
  ∃ w, CFAbsoluteTimeGetWeekOfYear tz t = Some w ∧
    (iso_week absolute w ∨
     w = 53 ∧ iso_week absolute 52 ∧
     ∃ y d, absolute = absolute_day y 1 d ∧
       (absolute_day y 1 1 mod 7 = 5 ∧ 1 ≤ d ≤ 2 ∨ absolute_day y 1 1 mod 7 = 6 ∧ d = 1)).
Proof. exact (week_ok tz t Hb). Qed.

(** 1 January 2006 is in week 52 of 2005, but the code answers 53. *)
Theorem week_of_year_wrong :
  CFAbsoluteTimeGetWeekOfYear None (86400 * absolute_day 5 1 1) = Some 53 ∧
  iso_week (absolute_day 5 1 1) 52.
Proof. split; [reflexivity|]. exists 4. by_decide. Qed.

(** ** Witnesses *)

(** 29 February 2000. *)
Lemma ymd_round_trip_witness :
  valid_ymd (-1) 2 29 ∧ __CFYMDFromAbsolute (-307) = Some (-1, 2, 29) ∧ __CFAbsoluteFromYMD (-1) 2 29 = Some (-307).
Proof.
  assert (Hv : valid_ymd (-1) 2 29) by (unfold valid_ymd; by_decide). split; [exact Hv|].
  destruct ymd_round_trip as (_ & H & _). destruct (H (-1) 2 29 Hv) as [H1 H2]; [by_decide|].
  split; [exact H1|]. apply H2. by_decide.
Defined.

Lemma date_time_round_trip_witness :
  ∃ g, CFAbsoluteTimeGetGregorianDate (Some (λ _, 3600)) (-1) = Some g ∧ valid_date g ∧
    CFGregorianDateGetAbsoluteTime (Some (λ _, 3600)) g = Some (-1).
Proof.
  apply (date_time_round_trip (Some (λ _, 3600)) (-1)); [by_decide| |].
  - intros o x E. injection E as <-. by_decide.
  - intros o E. injection E as <-. reflexivity.
Defined.

Definition leap_second_of_february : CFGregorianDate :=
  {| year := 2000; month := 2; day := 29; hour := 23; minute := 59; second := 59 |}.

Lemma time_date_round_trip_witness :
  ∃ t, CFGregorianDateGetAbsoluteTime None leap_second_of_february = Some t ∧
    CFAbsoluteTimeGetGregorianDate None t = Some leap_second_of_february.
Proof.
  apply (time_date_round_trip leap_second_of_february); [unfold valid_date, valid_ymd, valid_time; by_decide|].
  unfold exact. by_decide.
Defined.

Definition back_45_days : CFGregorianUnits :=
  {| years := 0; months := 0; days := -45; hours := 2; minutes := 0; seconds := 5 |}.
Lemma add_units_spec_witness :
  CFAbsoluteTimeAddGregorianUnits None 0 back_45_days = Some (0 + 86400 * -45 + 3600 * 2 + 60 * 0 + 5).
Proof.
  destruct (add_units_spec 0 back_45_days) as (g & _ & _ & H); [by_decide|split; by_decide|].
  exact (H eq_refl eq_refl).
Defined.

Lemma day_numbers_witness : CFAbsoluteTimeGetDayOfWeek None (-86400) = Some 7.
Proof. destruct (day_numbers None (-86400)) as [H _]; [unfold exact; by_decide|]. exact H. Defined.

Lemma week_of_year_witness : ∃ w, CFAbsoluteTimeGetWeekOfYear None 0 = Some w.
Proof. destruct (week_of_year None 0) as (w & H & _); [unfold exact; by_decide|]. exists w. exact H. Defined.
