(* ===== verification/DispatchData.v ===== *)
(** * dispatch_data (libdispatch src/data.c, src/data_internal.h)

    Immutable byte ropes with sharing.  Objects live in a store, as in the C
    heap: a leaf holds its memory, a composite a list of records (leaf, from,
    length).  Objects are named by addresses, carry a reference count, and are
    disposed of when it reaches zero; [_events] logs the destructors called,
    newest first.  [None] is a crash of the C code: a [DISPATCH_INTERNAL_CRASH],
    a dangling address, an access outside a buffer, a recursion deeper than the
    fuel, or the use of a [NULL] object after a failed allocation. *)
From S2P Require Import Prelude.
From stdpp Require Import gmap.
Open Scope Z_scope.

Inductive destructor :=
  | DESTRUCTOR_DEFAULT | DESTRUCTOR_FREE | DESTRUCTOR_NONE | DESTRUCTOR_INLINE
  | DESTRUCTOR_VM_DEALLOCATE | DESTRUCTOR_BLOCK (b : Z).

Record range_record := { data_object : Z; from : Z; length_ : Z }.

Record data_s := {
  buf : option (list Z);
  destruct_ : destructor;
  size : Z;
  records : list range_record;
  refs : Z;
}.

Record store := {
  objects : gmap Z data_s;
  next : Z;
  _events : list (destructor * Z);
}.

(** The immortal empty object. *)
Definition dispatch_data_empty : Z := 0.
Definition empty_object : data_s :=
  {| buf := None; destruct_ := DESTRUCTOR_NONE; size := 0; records := []; refs := 1 |}.

Definition _dispatch_data_leaf (dd : data_s) : bool := bool_decide (records dd = []).

Definition _dispatch_data_num_records (dd : data_s) : Z :=
  if zlen (records dd) =? 0 then 1 else zlen (records dd).

Definition put (s : store) (a : Z) (o : data_s) : store :=
  {| objects := <[a := o]> (objects s); next := next s; _events := _events s |}.
Definition log (s : store) (e : destructor * Z) : store :=
  {| objects := objects s; next := next s; _events := e :: _events s |}.
Definition with_refs (o : data_s) (n : Z) : data_s :=
  {| buf := buf o; destruct_ := destruct_ o; size := size o; records := records o; refs := n |}.
Definition with_buf (o : data_s) (b : option (list Z)) : data_s :=
  {| buf := b; destruct_ := destruct_ o; size := size o; records := records o; refs := refs o |}.

(** [dispatch_retain]; the empty object is immortal. *)
Definition _dispatch_data_retain (s : store) (a : Z) : option store :=
  if a =? dispatch_data_empty then Some s else
  o ← objects s !! a; Some (put s a (with_refs o (refs o + 1))).

Fixpoint retain_records (s : store) (l : list range_record) : option store :=
  match l with
  | [] => Some s
  | r :: l => s ← _dispatch_data_retain s (data_object r); retain_records s l
  end.

(** The custom destructors run; [DESTRUCTOR_NONE] does nothing. *)
Definition _dispatch_data_destroy_buffer (s : store) (sz : Z) (d : destructor) : store :=
  match d with DESTRUCTOR_NONE => s | _ => log s (d, sz) end.

Section release.
(** [dispatch_release] of a record's object, which may dispose of it in turn. *)
Variable release : store → Z → option store.

Fixpoint release_records (s : store) (l : list range_record) : option store :=
  match l with
  | [] => Some s
  | r :: l => s ← release s (data_object r); release_records s l
  end.

Definition _dispatch_data_dispose (s : store) (o : data_s) : option store :=
  if _dispatch_data_leaf o
  then Some (_dispatch_data_destroy_buffer s (size o) (destruct_ o))
  else
    s ← release_records s (records o);
    Some (match buf o with Some _ => log s (DESTRUCTOR_FREE, size o) | None => s end).
End release.

(** The last release removes the object, then disposes of what it holds. *)
Fixpoint _dispatch_data_release (fuel : nat) (s : store) (a : Z) : option store :=
  match fuel with
  | O => None
  | S fuel =>
      if a =? dispatch_data_empty then Some s else
      o ← objects s !! a;
      if 1 <? refs o then Some (put s a (with_refs o (refs o - 1)))
      else
        let s := {| objects := delete a (objects s); next := next s; _events := _events s |} in
        _dispatch_data_dispose (_dispatch_data_release fuel) s o
  end.

Section allocating.
(** Whether [_dispatch_data_alloc(n, extra)] succeeds: no overflow of the size
    and memory available; and whether [malloc] does. *)
Context (data_alloc_ok : Z → Z → bool) (malloc_ok : Z → bool).

(** The new object is owned by the caller: one reference. *)
Definition _dispatch_data_alloc (s : store) (n extra : Z) (o : data_s) : option (Z * store) :=
  if data_alloc_ok n extra then
    Some (next s, {| objects := <[next s := with_refs o 1]> (objects s); next := next s + 1;
                     _events := _events s |})
  else None.

Definition leaf_object (b : list Z) (sz : Z) (d : destructor) : data_s :=
  {| buf := Some b; destruct_ := d; size := sz; records := []; refs := 1 |}.
Definition composite_object (sz : Z) (l : list range_record) : data_s :=
  {| buf := None; destruct_ := DESTRUCTOR_NONE; size := sz; records := l; refs := 1 |}.

(** The empty object is returned instead, the destructor called at once
    ([DESTRUCTOR_DEFAULT] is the null block). *)
Definition destroy_unused (s : store) (sz : Z) (d : destructor) : store :=
  match d with DESTRUCTOR_DEFAULT => s | _ => _dispatch_data_destroy_buffer s sz d end.

(** [buffer] is the memory at the caller's pointer, [None] for [NULL]; the
    [NULL] returned when [malloc] fails is [Some None]. *)
Definition dispatch_data_create (s : store) (buffer : option (list Z)) (sz : Z) (d : destructor)
    : option (option Z * store) :=
  match buffer with
  | Some b =>
      if sz =? 0 then Some (Some dispatch_data_empty, destroy_unused s sz d) else
      b ← zsub b 0 sz;
      match d with
      | DESTRUCTOR_DEFAULT =>
          if negb (malloc_ok sz) then Some (None, s) else
          '(a, s) ← _dispatch_data_alloc s 0 0 (leaf_object b sz DESTRUCTOR_FREE); Some (Some a, s)
      | DESTRUCTOR_INLINE =>
          '(a, s) ← _dispatch_data_alloc s 0 sz (leaf_object b sz DESTRUCTOR_NONE); Some (Some a, s)
      | _ =>
          '(a, s) ← _dispatch_data_alloc s 0 0 (leaf_object b sz d); Some (Some a, s)
      end
  | None => Some (Some dispatch_data_empty, destroy_unused s sz d)
  end.

Definition dispatch_data_get_size (s : store) (dd : Z) : option Z :=
  o ← objects s !! dd; Some (size o).

(** The records a concatenation takes over from one side. *)
Definition concat_records (a : Z) (o : data_s) : list range_record :=
  if _dispatch_data_leaf o then [{| data_object := a; from := 0; length_ := size o |}]
  else records o.

Definition dispatch_data_create_concat (s : store) (dd1 dd2 : Z) : option (Z * store) :=
  o1 ← objects s !! dd1;
  o2 ← objects s !! dd2;
  if size o1 =? 0 then s ← _dispatch_data_retain s dd2; Some (dd2, s) else
  if size o2 =? 0 then s ← _dispatch_data_retain s dd1; Some (dd1, s) else
  let n := _dispatch_data_num_records o1 + _dispatch_data_num_records o2 in
  if 2 ^ 64 <=? n then None else
  let recs := concat_records dd1 o1 ++ concat_records dd2 o2 in
  '(data, s) ← _dispatch_data_alloc s n 0 (composite_object (u64 (size o1 + size o2)) recs);
  s ← retain_records s recs;
  Some (data, s).

(** [while (i < dd_num_records && offset >= dd->records[i].length)]: the index
    of the record that holds the offset, and the offset within it. *)
Fixpoint find_record (l : list range_record) (i offset : Z) : option (Z * Z) :=
  match l with
  | [] => None
  | r :: l => if length_ r <=? offset then find_record l (i + 1) (offset - length_ r)
              else Some (i, offset)
  end.

(** The loop over the records from [i + count] on, until the one that holds the
    end; running past the last record is a crash. *)
Fixpoint find_last (l : list range_record) (count last_length : Z) : option (Z * Z) :=
  match l with
  | [] => None
  | r :: l =>
      let count := count + 1 in
      if last_length <=? length_ r then Some (count, last_length)
      else find_last l count (last_length - length_ r)
  end.

Definition find_end (l : list range_record) (last_length : Z) : option (Z * Z) :=
  match l with [] => Some (1, last_length) | _ => find_last l 1 last_length end.

Definition set_first (offset : Z) (l : list range_record) : list range_record :=
  match l with
  | r :: l => {| data_object := data_object r; from := from r + offset; length_ := length_ r - offset |} :: l
  | [] => []
  end.

(** The records of a range that starts in record [i], of which [ri] is the
    value, and does not end there. *)
Definition subrange_records (l : list range_record) (ri : range_record)
    (i offset length : Z) (to_the_end : bool) : option (list range_record) :=
  '(count, last_length) ←
    (if to_the_end then Some (zlen l - i, 0)
     else find_end (drop (Z.to_nat (i + 1)) l) (length - (length_ ri - offset)));
  recs ← zsub l i count;
  let recs := if negb (offset =? 0) then set_first offset recs else recs in
  if negb to_the_end then
    r ← recs.[count - 1];
    recs.[count - 1 := {| data_object := data_object r; from := from r; length_ := last_length |}]
  else Some recs.

Fixpoint dispatch_data_create_subrange (fuel : nat) (s : store) (dd offset length : Z)
    : option (Z * store) :=
  match fuel with
  | O => None
  | S fuel =>
      o ← objects s !! dd;
      if (size o <=? offset) || (length =? 0) then Some (dispatch_data_empty, s)
      else if (size o - offset <? length) || negb (length =? size o) then
        let length := if size o - offset <? length then size o - offset else length in
        if _dispatch_data_leaf o then
          '(data, s) ← _dispatch_data_alloc s 1 0
            (composite_object length [{| data_object := dd; from := offset; length_ := length |}]);
          s ← _dispatch_data_retain s dd;
          Some (data, s)
        else
          let to_the_end := offset + length =? size o in
          '(i, offset) ← find_record (records o) 0 offset;
          ri ← (records o).[i];
          if offset + length <=? length_ ri then
            dispatch_data_create_subrange fuel s (data_object ri) (from ri + offset) length
          else
            recs ← subrange_records (records o) ri i offset length to_the_end;
            '(data, s) ← _dispatch_data_alloc s (zlen recs) 0 (composite_object length recs);
            s ← retain_records s recs;
            Some (data, s)
      else s ← _dispatch_data_retain s dd; Some (dd, s)
  end.

(** [_dispatch_data_map_direct]: the contiguous memory of a leaf, of a trivial
    subrange or of a flattened object, from [offset] on, with the object seen
    through a trivial subrange and the offset in it. *)
Definition _dispatch_data_map_direct (s : store) (dd offset : Z)
    : option (option (list Z) * Z * Z) :=
  o ← objects s !! dd;
  '(dd, o, offset) ←
    (if negb (_dispatch_data_leaf o) && (_dispatch_data_num_records o =? 1) then
       r ← (records o).[0];
       o' ← objects s !! data_object r;
       Some (data_object r, o', offset + from r)
     else Some (dd, o, offset));
  match buf o with
  | Some b => if decide (0 ≤ offset ≤ zlen b) then Some (Some (drop (Z.to_nat offset) b), dd, offset) else None
  | None => if _dispatch_data_leaf o then None else Some (None, dd, offset)
  end.

Section apply.
Context {C : Type} (applier : C → Z → Z → list Z → bool * C).

(** The loop over the records, each applied by [apply]. *)
Fixpoint apply_records (apply : Z → Z → Z → Z → C → option (bool * C)) (l : list range_record)
    (offset : Z) (result : bool) (ctxt : C) : option (bool * C) :=
  match l with
  | r :: l =>
      if result then
        '(result, ctxt) ← apply (data_object r) offset (from r) (length_ r) ctxt;
        apply_records apply l (offset + length_ r) result ctxt
      else Some (result, ctxt)
  | [] => Some (result, ctxt)
  end.

(** [_dispatch_data_apply]: the applier gets the region's object, its offset in
    the whole, and its bytes; it is not called again once it returns false. *)
Fixpoint _dispatch_data_apply (fuel : nat) (s : store) (dd offset from' size' : Z) (ctxt : C)
    : option (bool * C) :=
  match fuel with
  | O => None
  | S fuel =>
      '(buffer, _, _) ← _dispatch_data_map_direct s dd 0;
      match buffer with
      | Some b => bytes ← zsub b from' size'; Some (applier ctxt dd offset bytes)
      | None =>
          o ← objects s !! dd;
          apply_records (_dispatch_data_apply fuel s) (records o) offset true ctxt
      end
  end.

Definition dispatch_data_apply (s : store) (dd : Z) (ctxt : C) : option (bool * C) :=
  o ← objects s !! dd;
  if size o =? 0 then Some (true, ctxt) else
  _dispatch_data_apply 2 s dd 0 0 (size o) ctxt.
End apply.

(** [_dispatch_data_flatten]: each region is copied to its offset. *)
Definition _dispatch_data_flatten (s : store) (dd : Z) : option (option (list Z)) :=
  o ← objects s !! dd;
  if negb (malloc_ok (size o)) then Some None else
  '(_, buffer) ← dispatch_data_apply
    (λ buffer _ off bytes, (true, b ← buffer; zwrite b off bytes)) s dd
    (Some (replicate (Z.to_nat (size o)) 0));
  b ← buffer; Some (Some b).

Definition dispatch_data_create_map (s : store) (dd : Z)
    : option (option Z * option (list Z) * Z * store) :=
  o ← objects s !! dd;
  if size o =? 0 then Some (Some dispatch_data_empty, None, 0, s) else
  '(buffer, _, _) ← _dispatch_data_map_direct s dd 0;
  match buffer with
  | Some b =>
      b ← zsub b 0 (size o);
      s ← _dispatch_data_retain s dd; Some (Some dd, Some b, size o, s)
  | None =>
      buffer ← _dispatch_data_flatten s dd;
      match buffer with
      | Some b =>
          '(data, s) ← dispatch_data_create s (Some b) (size o) DESTRUCTOR_FREE;
          Some (data, Some b, size o, s)
      | None => Some (None, None, 0, s)
      end
  end.

(** [dispatch_data_get_flattened_bytes_4libxpc]: the flat copy is kept in the
    object; [None] inside is [NULL]. *)
Definition dispatch_data_get_flattened_bytes (s : store) (dd : Z)
    : option (option (list Z) * store) :=
  o ← objects s !! dd;
  if size o =? 0 then Some (None, s) else
  '(buffer, dd, offset) ← _dispatch_data_map_direct s dd 0;
  match buffer with
  | Some b => Some (Some b, s)
  | None =>
      flatbuf ← _dispatch_data_flatten s dd;
      match flatbuf with
      | Some flat =>
          o ← objects s !! dd;
          let '(buffer, s) := match buf o with
            | Some other => (other, s)
            | None => (flat, put s dd (with_buf o (Some flat)))
            end in
          Some (Some (drop (Z.to_nat offset) buffer), s)
      | None => Some (None, s)
      end
  end.

(** The loop of [_dispatch_data_copy_region] over the records: the record that
    holds the location, with the new [from], length, offset and location. *)
Fixpoint region_record (l : list range_record) (from' offset location : Z)
    : option (range_record * Z * Z * Z) :=
  match l with
  | [] => None
  | r :: l =>
      let len := length_ r in
      if len <=? from' then region_record l (from' - len) offset location
      else
        let len := len - from' in
        if offset + len <=? location then region_record l 0 (offset + len) location
        else Some (r, from' + from r, len, offset)
  end.

Fixpoint _dispatch_data_copy_region (fuel : nat) (s : store) (dd from' size' location offset : Z)
    : option (Z * Z * store) :=
  match fuel with
  | O => None
  | S fuel =>
      o ← objects s !! dd;
      let reusable := (from' =? 0) && (size' =? size o) in
      '(buffer, dd', from'') ← _dispatch_data_map_direct s dd from';
      match buffer with
      | Some _ =>
          if reusable then s ← _dispatch_data_retain s dd; Some (dd, offset, s) else
          s ← _dispatch_data_retain s dd';
          o' ← objects s !! dd';
          if (from'' =? 0) && (size' =? size o') then Some (dd', offset, s) else
          '(data, s) ← _dispatch_data_alloc s 1 0
            (composite_object size' [{| data_object := dd'; from := from''; length_ := size' |}]);
          Some (data, offset, s)
      | None =>
          '(r, from', len, off) ← region_record (records o) from' 0 location;
          _dispatch_data_copy_region fuel s (data_object r) from' len (location - off) (offset + off)
      end
  end.

Definition dispatch_data_copy_region (s : store) (dd location : Z) : option (Z * Z * store) :=
  o ← objects s !! dd;
  if size o <=? location then Some (dispatch_data_empty, size o, s) else
  _dispatch_data_copy_region 2 s dd 0 (size o) location 0.
End allocating.

(** ** What an object stands for, and the invariant of the store *)

(** The documented invariants: a composite's records point to live leaves, no
    record is empty or exceeds its leaf; a leaf has its memory; a flat copy is
    the contents, and a trivial subrange never has one. *)
Definition record_bytes (m : gmap Z data_s) (r : range_record) : list Z :=
  take (Z.to_nat (length_ r)) (drop (Z.to_nat (from r)) (default [] (m !! data_object r ≫= buf))).

Definition object_bytes (m : gmap Z data_s) (o : data_s) : list Z :=
  if _dispatch_data_leaf o then default [] (buf o) else flat_map (record_bytes m) (records o).

Definition bytes (s : store) (a : Z) : option (list Z) :=
  object_bytes (objects s) <$> objects s !! a.

Fixpoint total (l : list range_record) : Z :=
  match l with [] => 0 | r :: l => length_ r + total l end.

(** The number of records of [l] that point to [a]; of all records in the store. *)
Fixpoint refcount (a : Z) (l : list range_record) : Z :=
  match l with [] => 0 | r :: l => Z.b2z (data_object r =? a) + refcount a l end.

Definition incoming (m : gmap Z data_s) (a : Z) : Z :=
  map_fold (λ _ o n, refcount a (records o) + n) 0 m.

Definition wf_record (m : gmap Z data_s) (r : range_record) : Prop :=
  data_object r ≠ dispatch_data_empty ∧ 0 ≤ from r ∧ 0 < length_ r ∧
  ∃ o b, m !! data_object r = Some o ∧ records o = [] ∧ buf o = Some b ∧
         from r + length_ r ≤ zlen b.

Definition wf_object (m : gmap Z data_s) (o : data_s) : Prop :=
  0 < size o < 2 ^ 64 ∧
  if _dispatch_data_leaf o then ∃ b, buf o = Some b ∧ zlen b = size o
  else Forall (wf_record m) (records o) ∧ size o = total (records o) ∧
       ∀ b, buf o = Some b → zlen (records o) ≠ 1 ∧ object_bytes m o = b.

(** [own a]: the references to [a] held outside the store.  Every count is
    exact, so no object is freed while in use and none is leaked. *)
Record inv (own : Z → Z) (s : store) : Prop := {
  inv_empty : objects s !! dispatch_data_empty = Some empty_object;
  inv_dom a o : objects s !! a = Some o → 0 ≤ a < next s;
  inv_obj a o : objects s !! a = Some o → a ≠ dispatch_data_empty → wf_object (objects s) o;
  inv_refs a o : objects s !! a = Some o → a ≠ dispatch_data_empty →
    refs o = own a + incoming (objects s) a ∧ 0 < refs o;
  inv_own a : 0 ≤ own a;
  inv_dead a : objects s !! a = None → own a = 0;
}.

Definition gain (own : Z → Z) (a : Z) : Z → Z := λ x, own x + Z.b2z (x =? a).
Definition lose (own : Z → Z) (a : Z) : Z → Z := λ x, own x - Z.b2z (x =? a).

Lemma refcount_nonneg a l : 0 ≤ refcount a l.
Proof. induction l as [|r l IH]; cbn; [lia|]. destruct (_ =? _); cbn; lia. Qed.

Lemma refcount_zero a l : Forall (λ r, data_object r ≠ a) l → refcount a l = 0.
Proof.
  induction 1 as [|r l Hr Hl IH]; cbn [refcount]; [done|].
  destruct (Z.eqb_spec (data_object r) a); [done|]. cbn. lia.
Qed.

Lemma incoming_records m a : incoming m a = map_fold (λ _ l n, refcount a l + n) 0 (records <$> m).
Proof. unfold incoming. by rewrite map_fold_fmap. Qed.

Lemma incoming_ext m m' a :
  (∀ x, records <$> m !! x = records <$> m' !! x) → incoming m a = incoming m' a.
Proof.
  intros H. rewrite !incoming_records. f_equal. apply map_eq. intros x. by rewrite !lookup_fmap.
Qed.

Lemma incoming_insert m i o a :
  m !! i = None → incoming (<[i := o]> m) a = refcount a (records o) + incoming m a.
Proof. intros H. unfold incoming. rewrite map_fold_insert_L; [done|intros; lia|done]. Qed.

Lemma incoming_delete m i o a :
  m !! i = Some o → incoming m a = refcount a (records o) + incoming (delete i m) a.
Proof.
  intros H. rewrite <- (insert_delete_id m i o H) at 1.
  apply incoming_insert, lookup_delete_eq.
Qed.

Lemma incoming_nonneg m a : 0 ≤ incoming m a.
Proof.
  induction m as [|i o m Hi IH] using map_ind; [done|].
  rewrite incoming_insert by done. pose proof (refcount_nonneg a (records o)). lia.
Qed.

Lemma incoming_zero m a :
  (∀ b o, m !! b = Some o → refcount a (records o) = 0) → incoming m a = 0.
Proof.
  induction m as [|i o m Hi IH] using map_ind; intros H; [done|].
  rewrite incoming_insert by done. rewrite (H i o) by (by rewrite lookup_insert_eq).
  rewrite IH; [done|]. intros b o' Hb. apply (H b). rewrite lookup_insert_ne; congruence.
Qed.

(** Nobody points at [a] when [incoming] is 0. *)
Lemma incoming_0_inv m a b o :
  incoming m a = 0 → m !! b = Some o → Forall (λ r, data_object r ≠ a) (records o).
Proof.
  intros H Hb. rewrite (incoming_delete m b o a Hb) in H.
  pose proof (incoming_nonneg (delete b m) a). pose proof (refcount_nonneg a (records o)).
  assert (Hz : refcount a (records o) = 0) by lia. clear -Hz.
  induction (records o) as [|r l IH]; [done|]. cbn in Hz. pose proof (refcount_nonneg a l).
  destruct (Z.eqb_spec (data_object r) a); cbn in Hz; [lia|]. constructor; [done|]. apply IH. lia.
Qed.

(** ** Preservation of records, objects and counts *)

Definition same_leaf (m m' : gmap Z data_s) (a : Z) : Prop :=
  ∀ o, m !! a = Some o → records o = [] →
  ∃ o', m' !! a = Some o' ∧ records o' = [] ∧ buf o' = buf o.

Lemma record_mono m m' r :
  same_leaf m m' (data_object r) → wf_record m r →
  wf_record m' r ∧ record_bytes m' r = record_bytes m r.
Proof.
  intros Hm (H0 & Hf & Hl & o & b & Ho & Hr & Hb & Hle).
  destruct (Hm o Ho Hr) as (o' & Ho' & Hr' & Hb'). split.
  - split_and!; [done..|]. exists o', b. by rewrite Hb'.
  - unfold record_bytes. rewrite Ho, Ho'. cbn. by rewrite Hb'.
Qed.

Lemma records_mono m m' l :
  Forall (λ r, same_leaf m m' (data_object r)) l → Forall (wf_record m) l →
  Forall (wf_record m') l ∧ flat_map (record_bytes m') l = flat_map (record_bytes m) l.
Proof.
  induction 1 as [|r l Hr Hl IH]; [done|]. intros [Hw Hws]%Forall_cons.
  destruct (record_mono _ _ _ Hr Hw) as [Hw' E]. destruct (IH Hws) as [Hws' Es].
  split; [by constructor|]. cbn. by rewrite E, Es.
Qed.

Lemma object_mono m m' o o' :
  Forall (λ r, same_leaf m m' (data_object r)) (records o) → wf_object m o →
  size o' = size o → records o' = records o → buf o' = buf o →
  wf_object m' o' ∧ object_bytes m' o' = object_bytes m o.
Proof.
  unfold wf_object, object_bytes, _dispatch_data_leaf. intros Hl [Hs Hw] -> -> ->.
  case_bool_decide as E; [done|]. destruct Hw as (Hw & Ht & Hb).
  destruct (records_mono _ _ _ Hl Hw) as [Hw' Em]. rewrite Em. done.
Qed.

Lemma record_bytes_len m r : wf_record m r → zlen (record_bytes m r) = length_ r.
Proof.
  intros (H0 & Hf & Hl & o & b & Ho & Hr & Hb & Hle). unfold record_bytes.
  rewrite Ho. cbn. rewrite Hb. cbn. autorewrite with zlen. lia.
Qed.

Lemma records_bytes_len m l : Forall (wf_record m) l → zlen (flat_map (record_bytes m) l) = total l.
Proof.
  induction 1 as [|r l Hr Hl IH]; [done|]. cbn. autorewrite with zlen.
  rewrite record_bytes_len by done. lia.
Qed.

Lemma object_bytes_len m o : wf_object m o → zlen (object_bytes m o) = size o.
Proof.
  unfold wf_object, object_bytes. intros [Hs Hw]. destruct (_dispatch_data_leaf o).
  - by destruct Hw as (b & -> & ?).
  - destruct Hw as (Hw & -> & _). by apply records_bytes_len.
Qed.

Lemma bytes_Some s a x : bytes s a = Some x →
  ∃ o, objects s !! a = Some o ∧ object_bytes (objects s) o = x.
Proof. intros (o & Ho & ->)%fmap_Some. by exists o. Qed.

Lemma bytes_len own s a o :
  inv own s → objects s !! a = Some o → zlen (object_bytes (objects s) o) = size o.
Proof.
  intros I Ho. destruct (decide (a = dispatch_data_empty)) as [->|Ha].
  - rewrite (inv_empty _ _ I) in Ho. injection Ho as <-. done.
  - by apply object_bytes_len, (inv_obj _ _ I a).
Qed.

Lemma total_nonneg m l : Forall (wf_record m) l → 0 ≤ zlen l ≤ total l.
Proof.
  induction 1 as [|r l (?&?&?&?) Hl IH]; [done|]. cbn. autorewrite with zlen. lia.
Qed.

Lemma wf_record_live m r : wf_record m r → is_Some (m !! data_object r).
Proof. intros (_ & _ & _ & o & b & -> & _). by eexists. Qed.

Lemma inv_records own s a o :
  inv own s → objects s !! a = Some o → Forall (wf_record (objects s)) (records o).
Proof.
  intros I Ho. destruct (decide (a = dispatch_data_empty)) as [->|Ha].
  - rewrite (inv_empty _ _ I) in Ho. injection Ho as <-. constructor.
  - destruct (inv_obj _ _ I a o Ho Ha) as [_ Hw]. unfold _dispatch_data_leaf in Hw.
    case_bool_decide as E; [rewrite E; constructor | by destruct Hw].
Qed.

Lemma refcount_dead m l a : Forall (wf_record m) l → m !! a = None → refcount a l = 0.
Proof.
  intros Hl Ha. apply refcount_zero. eapply Forall_impl; [exact Hl|].
  intros r Hr <-. destruct (wf_record_live _ _ Hr) as [o Ho]. congruence.
Qed.

Lemma incoming_dead own s a : inv own s → objects s !! a = None → incoming (objects s) a = 0.
Proof.
  intros I Ha. apply incoming_zero. intros b o Hb.
  eapply refcount_dead; [by eapply inv_records | done].
Qed.

Lemma refcount_empty m l : Forall (wf_record m) l → refcount dispatch_data_empty l = 0.
Proof. intros H. apply refcount_zero. eapply Forall_impl; [exact H|]. by intros r []. Qed.

(** ** Retaining and creating *)

Lemma with_refs_id o n : n = refs o → with_refs o n = o.
Proof. intros ->. by destruct o. Qed.

Lemma retain_ok s a o :
  objects s !! a = Some o → a ≠ dispatch_data_empty →
  _dispatch_data_retain s a = Some (put s a (with_refs o (refs o + 1))).
Proof.
  intros Ho Ha. unfold _dispatch_data_retain. destruct (Z.eqb_spec a dispatch_data_empty); [done|].
  by rewrite Ho.
Qed.

Lemma retain_records_ok s l :
  Forall (λ r, data_object r ≠ dispatch_data_empty ∧ is_Some (objects s !! data_object r)) l →
  ∃ s', retain_records s l = Some s' ∧ next s' = next s ∧ _events s' = _events s ∧
    ∀ a, objects s' !! a = (λ o, with_refs o (refs o + refcount a l)) <$> objects s !! a.
Proof.
  revert s. induction l as [|r l IH]; intros s Hl; cbn [retain_records].
  - exists s. split_and!; [done..|]. intros a. destruct (objects s !! a) eqn:E; cbn; [|done].
    by rewrite with_refs_id by lia.
  - apply Forall_cons in Hl as [[H0 [o Ho]] Hl]. rewrite (retain_ok s _ o Ho H0). cbn.
    set (s1 := put s _ _).
    assert (Hs1 : ∀ a, objects s1 !! a = (λ o, with_refs o (refs o + Z.b2z (data_object r =? a))) <$> objects s !! a).
    { intros a. cbn. destruct (Z.eqb_spec (data_object r) a) as [<-|Hn].
      - by rewrite lookup_insert_eq, Ho.
      - rewrite lookup_insert_ne by done. destruct (objects s !! a); cbn; [|done].
        by rewrite with_refs_id by lia. }
    destruct (IH s1) as (s' & E & Hn & He & Hs').
    { eapply Forall_impl; [exact Hl|]. intros r' [? [o' Ho']]. split; [done|].
      rewrite Hs1, Ho'. by eexists. }
    exists s'. split_and!; [done..|]. intros a. rewrite Hs', Hs1.
    destruct (objects s !! a) as [o'|]; cbn; [|done]. unfold with_refs. cbn.
    do 2 f_equal. lia.
Qed.

(** A new object at the next address, its records' objects retained. *)
Lemma inv_new own s s' n :
  inv own s → wf_object (objects s) n → Forall (wf_record (objects s)) (records n) → refs n = 1 →
  next s' = next s + 1 →
  (∀ a, objects s' !! a =
    if decide (a = next s) then Some n
    else (λ o, with_refs o (refs o + refcount a (records n))) <$> objects s !! a) →
  inv (gain own (next s)) s' ∧ bytes s' (next s) = Some (object_bytes (objects s) n) ∧
  ∀ a o, objects s !! a = Some o → bytes s' a = bytes s a.
Proof.
  intros I Hn Hl H1 Hnext Hs'.
  assert (Hlive : ∀ a o, objects s !! a = Some o →
    objects s' !! a = Some (with_refs o (refs o + refcount a (records n)))).
  { intros a o Ho. rewrite Hs', Ho. pose proof (inv_dom _ _ I a o Ho).
    rewrite decide_False by lia. done. }
  assert (Hdead : objects s !! next s = None).
  { destruct (objects s !! next s) as [o|] eqn:E; [|done]. pose proof (inv_dom _ _ I _ _ E). lia. }
  assert (Hsame : ∀ a, same_leaf (objects s) (objects s') a).
  { intros a o Ho Hr. rewrite (Hlive a o Ho). by eexists. }
  assert (Hinc : ∀ a, incoming (objects s') a = refcount a (records n) + incoming (objects s) a).
  { intros a. rewrite <- (incoming_insert _ (next s) n) by done. apply incoming_ext. intros x.
    rewrite Hs'. case_decide as E; [by rewrite E, lookup_insert_eq|].
    rewrite lookup_insert_ne by done. by destruct (objects s !! x). }
  assert (Hobj : ∀ a o, objects s !! a = Some o → a ≠ dispatch_data_empty →
    wf_object (objects s') (with_refs o (refs o + refcount a (records n)))
    ∧ object_bytes (objects s') (with_refs o (refs o + refcount a (records n))) = object_bytes (objects s) o).
  { intros a o Ho Ha. eapply object_mono; [|by apply (inv_obj _ _ I a)|done..].
    apply Forall_forall. intros r _. apply Hsame. }
  destruct (object_mono (objects s) (objects s') n n) as [Hn' En]; [|done..|].
  { apply Forall_forall. intros r _. apply Hsame. }
  pose proof (inv_dom _ _ I _ _ (inv_empty _ _ I)) as H0.
  split_and!.
  - split.
    + rewrite (Hlive _ _ (inv_empty _ _ I)), (refcount_empty _ _ Hl). done.
    + intros a o. rewrite Hs'. case_decide as E; [lia|]. intros (o' & Ho' & ->)%fmap_Some.
      pose proof (inv_dom _ _ I a o' Ho'). lia.
    + intros a o. rewrite Hs'. case_decide as E; [by intros [= <-]|].
      intros (o' & Ho' & ->)%fmap_Some Ha. by apply Hobj.
    + intros a o. rewrite Hs', Hinc. unfold gain. case_decide as E.
      * intros [= <-] _. subst a. rewrite Z.eqb_refl, (inv_dead _ _ I _ Hdead), H1.
        rewrite (refcount_dead _ _ _ Hl Hdead), (incoming_dead _ _ _ I Hdead). done.
      * intros (o' & Ho' & ->)%fmap_Some Ha. destruct (inv_refs _ _ I a o' Ho' Ha).
        pose proof (refcount_nonneg a (records n)). rewrite (proj2 (Z.eqb_neq a _) E). cbn. lia.
    + intros a. unfold gain. pose proof (inv_own _ _ I a). destruct (_ =? _); cbn; lia.
    + intros a. rewrite Hs'. case_decide as E; [done|]. intros Ha%fmap_None.
      unfold gain. rewrite (inv_dead _ _ I a Ha), (proj2 (Z.eqb_neq a _) E). done.
  - unfold bytes. rewrite Hs', decide_True by done. cbn. by rewrite En.
  - intros a o Ho. unfold bytes. rewrite (Hlive a o Ho), Ho. cbn.
    destruct (decide (a = dispatch_data_empty)) as [->|Ha].
    + rewrite (inv_empty _ _ I) in Ho. by injection Ho as <-.
    + f_equal. by apply Hobj.
Qed.

(** [d] is a new reference to the bytes [x]; other objects are as they were. *)
Definition created (own : Z → Z) (s : store) (d : Z) (s' : store) (x : list Z) : Prop :=
  inv (gain own d) s' ∧ bytes s' d = Some x ∧ _events s' = _events s ∧
  ∀ a o, objects s !! a = Some o → bytes s' a = bytes s a.

(** Stores that differ in reference counts only. *)
Definition same_shape (m m' : gmap Z data_s) : Prop :=
  ∀ a, (λ o, with_refs o 0) <$> m' !! a = (λ o, with_refs o 0) <$> m !! a.

Lemma same_shape_lookup m m' a o' : same_shape m m' → m' !! a = Some o' →
  ∃ o, m !! a = Some o ∧ o' = with_refs o (refs o').
Proof.
  intros H Ha. specialize (H a). rewrite Ha in H. destruct (m !! a) as [o|]; [|done].
  exists o. split; [done|]. destruct o, o'. cbv in H. by simplify_eq.
Qed.

Lemma same_shape_sym m m' : same_shape m m' → same_shape m' m.
Proof. intros H a. by rewrite H. Qed.

Lemma same_shape_leaf m m' a : same_shape m m' → same_leaf m m' a.
Proof.
  intros H o Ho Hr.
  destruct (same_shape_lookup m' m a o (same_shape_sym _ _ H) Ho) as (o' & Ho' & E).
  exists o'. rewrite E in Hr |- *. done.
Qed.

Lemma same_shape_incoming m m' a : same_shape m m' → incoming m' a = incoming m a.
Proof.
  intros H. apply incoming_ext. intros x. specialize (H x).
  destruct (m !! x), (m' !! x); try done. unfold with_refs in H. cbn in *. congruence.
Qed.

Lemma inv_recount own own' s s' :
  inv own s → next s' = next s → same_shape (objects s) (objects s') →
  objects s' !! dispatch_data_empty = Some empty_object →
  (∀ a o o', objects s !! a = Some o → objects s' !! a = Some o' → a ≠ dispatch_data_empty →
     refs o' - refs o = own' a - own a ∧ 0 < refs o') →
  (∀ a, 0 ≤ own' a) → (∀ a, objects s !! a = None → own' a = 0) →
  inv own' s' ∧ ∀ a, bytes s' a = bytes s a.
Proof.
  intros I Hn Hsh H0 Hr Ho Hd.
  assert (Hobj : ∀ a o o', objects s !! a = Some o → objects s' !! a = Some o' →
    a ≠ dispatch_data_empty → wf_object (objects s') o' ∧
    object_bytes (objects s') o' = object_bytes (objects s) o).
  { intros a o o' E E' Ha. destruct (same_shape_lookup _ _ _ _ Hsh E') as (o1 & E1 & Eq).
    rewrite E in E1. injection E1 as <-.
    eapply object_mono; [|by apply (inv_obj _ _ I a)|by rewrite Eq..].
    apply Forall_forall. intros r _. by apply same_shape_leaf. }
  split; [split|].
  - done.
  - intros a o E. destruct (same_shape_lookup _ _ _ _ Hsh E) as (o1 & E1 & _).
    rewrite Hn. by apply (inv_dom _ _ I a o1).
  - intros a o E Ha. destruct (same_shape_lookup _ _ _ _ Hsh E) as (o1 & E1 & _).
    by apply (Hobj a o1 o).
  - intros a o E Ha. destruct (same_shape_lookup _ _ _ _ Hsh E) as (o1 & E1 & _).
    rewrite (same_shape_incoming _ _ a Hsh). destruct (inv_refs _ _ I a o1 E1 Ha).
    destruct (Hr a o1 o E1 E Ha). lia.
  - done.
  - intros a E. apply Hd. specialize (Hsh a). rewrite E in Hsh. by destruct (objects s !! a).
  - intros a. unfold bytes. destruct (objects s' !! a) as [o'|] eqn:E.
    + destruct (same_shape_lookup _ _ _ _ Hsh E) as (o & Eo & _). rewrite Eo. cbn. f_equal.
      destruct (decide (a = dispatch_data_empty)) as [->|Ha]; [|by apply (Hobj a)].
      rewrite (inv_empty _ _ I) in Eo. rewrite H0 in E. injection E as <-. by injection Eo as <-.
    + specialize (Hsh a). rewrite E in Hsh. by destruct (objects s !! a).
Qed.

Lemma put_same_shape s a o n :
  objects s !! a = Some o → same_shape (objects s) (objects (put s a (with_refs o n))).
Proof.
  intros Ho x. cbn. destruct (decide (x = a)) as [->|].
  - by rewrite lookup_insert_eq, Ho.
  - by rewrite lookup_insert_ne by done.
Qed.

Lemma inv_gain_empty own s : inv own s → inv (gain own dispatch_data_empty) s.
Proof.
  intros I. destruct I as [I1 I2 I3 I4 I5 I6]. split; [done..| | |].
  - intros a o Ho Ha. unfold gain. rewrite (proj2 (Z.eqb_neq a _) Ha). cbn. rewrite Z.add_0_r. by apply I4.
  - intros a. unfold gain. specialize (I5 a). destruct (_ =? _); cbn; lia.
  - intros a Ha. unfold gain. rewrite I6 by done. destruct (Z.eqb_spec a dispatch_data_empty); [congruence|done].
Qed.

Lemma created_empty own s : inv own s → created own s dispatch_data_empty s [].
Proof.
  intros I. split_and!; [by apply inv_gain_empty| |done..].
  unfold bytes. by rewrite (inv_empty _ _ I).
Qed.

Lemma retain_created own s a o : inv own s → objects s !! a = Some o →
  ∃ s', _dispatch_data_retain s a = Some s' ∧ created own s a s' (object_bytes (objects s) o).
Proof.
  intros I Ho. destruct (decide (a = dispatch_data_empty)) as [->|Ha].
  - exists s. split; [done|]. rewrite (inv_empty _ _ I) in Ho. injection Ho as <-.
    by apply created_empty.
  - exists (put s a (with_refs o (refs o + 1))). split; [by apply retain_ok|].
    destruct (inv_recount own (gain own a) s (put s a (with_refs o (refs o + 1))))
      as [I' Hb]; [done|done|by apply put_same_shape|..].
    + cbn. rewrite lookup_insert_ne by done. apply (inv_empty _ _ I).
    + intros x o1 o2 E1. cbn. unfold gain. destruct (decide (x = a)) as [->|Hx].
      * rewrite lookup_insert_eq, Z.eqb_refl. intros [= <-] _. cbn.
        destruct (inv_refs _ _ I a o1 E1 Ha). rewrite Ho in E1. injection E1 as <-. lia.
      * rewrite lookup_insert_ne by done. intros E2 Hx0. rewrite (proj2 (Z.eqb_neq x a) Hx). cbn.
        destruct (inv_refs _ _ I x o1 E1 Hx0). rewrite E1 in E2. injection E2 as <-. lia.
    + intros x. unfold gain. pose proof (inv_own _ _ I x). destruct (_ =? _); cbn; lia.
    + intros x E. unfold gain. rewrite (inv_dead _ _ I x E).
      destruct (Z.eqb_spec x a); [congruence|done].
    + split_and!; [done| |done|by intros; apply Hb]. rewrite Hb. unfold bytes. by rewrite Ho.
Qed.

Section creating.
Context (data_alloc_ok : Z → Z → bool) (malloc_ok : Z → bool).

Lemma composite_wf m sz l :
  Forall (wf_record m) l → l ≠ [] → sz = total l → 0 < sz < 2 ^ 64 →
  wf_object m (composite_object sz l)
  ∧ object_bytes m (composite_object sz l) = flat_map (record_bytes m) l.
Proof.
  intros Hl Hne Hsz Hr. unfold wf_object, object_bytes, _dispatch_data_leaf. cbn.
  rewrite bool_decide_false by done. done.
Qed.

(** Allocating a composite and retaining its records' objects. *)
Lemma new_composite own s n sz l :
  inv own s → data_alloc_ok n 0 = true →
  Forall (wf_record (objects s)) l → l ≠ [] → sz = total l → 0 < sz < 2 ^ 64 →
  ∃ s1 s', _dispatch_data_alloc data_alloc_ok s n 0 (composite_object sz l) = Some (next s, s1) ∧
  retain_records s1 l = Some s' ∧
  created own s (next s) s' (flat_map (record_bytes (objects s)) l).
Proof.
  intros I Hok Hl Hne Hsz Hr. destruct (composite_wf _ _ _ Hl Hne Hsz Hr) as [Hw Hb].
  unfold _dispatch_data_alloc. rewrite Hok. set (s1 := {| objects := _ |}).
  assert (Hd : ∀ r, r ∈ l → data_object r ≠ next s).
  { intros r Hin E. eapply Forall_forall in Hl; [|exact Hin].
    destruct (wf_record_live _ _ Hl) as [o Ho]. pose proof (inv_dom _ _ I _ _ Ho). lia. }
  destruct (retain_records_ok s1 l) as (s' & E & Hn & He & Hs').
  { apply Forall_forall. intros r Hin. specialize (Hd r Hin).
    eapply Forall_forall in Hl; [|exact Hin]. split; [by apply Hl|]. cbn.
    rewrite lookup_insert_ne by done. by apply wf_record_live. }
  exists s1, s'. split_and!; [done..|].
  destruct (inv_new own s s' (composite_object sz l)) as (I' & Eb & Hf); [done..| |].
  { intros a. rewrite Hs'. cbn. case_decide as Ea.
    - subst a. rewrite lookup_insert_eq. cbn. f_equal.
      rewrite refcount_zero; [done|]. by apply Forall_forall.
    - by rewrite lookup_insert_ne by done. }
  split_and!; [done|by rewrite Eb, Hb|by rewrite He|done].
Qed.

Lemma concat_records_ok own s a o :
  inv own s → objects s !! a = Some o → size o ≠ 0 →
  Forall (wf_record (objects s)) (concat_records a o) ∧
  total (concat_records a o) = size o ∧ concat_records a o ≠ [] ∧
  zlen (concat_records a o) = _dispatch_data_num_records o ∧
  flat_map (record_bytes (objects s)) (concat_records a o) = object_bytes (objects s) o.
Proof.
  intros I Ho Hsz. assert (Ha : a ≠ dispatch_data_empty).
  { intros ->. rewrite (inv_empty _ _ I) in Ho. by injection Ho as <-. }
  destruct (inv_obj _ _ I a o Ho Ha) as [Hs Hw].
  unfold concat_records, object_bytes, _dispatch_data_num_records, _dispatch_data_leaf in *.
  case_bool_decide as E.
  - destruct Hw as (b & Hb & Hlen). split_and!; cbn; [|lia|done|by rewrite E|].
    + constructor; [|done]. split_and!; cbn; [done|lia|lia|]. exists o, b. split_and!; [done..|lia].
    + unfold record_bytes. cbn. rewrite Ho. cbn. rewrite Hb. cbn. rewrite app_nil_r, drop_0.
      apply take_ge. unfold zlen in Hlen. lia.
  - destruct Hw as (Hw & Ht & _). split_and!; [done..| |done].
    destruct (Z.eqb_spec (zlen (records o)) 0) as [Hz|]; [|done]. destruct (records o); [done|].
    rewrite zlen_cons in Hz. pose proof (zlen_nonneg l). lia.
Qed.

Lemma total_app l1 l2 : total (l1 ++ l2) = total l1 + total l2.
Proof. induction l1; cbn; lia. Qed.

(** [dispatch_data_create_concat]: the result stands for the bytes of both
    arguments; it retains the leaves it points to, once per record. *)
Theorem concat_refines own s a b oa ob :
  inv own s → objects s !! a = Some oa → objects s !! b = Some ob →
  size oa + size ob < 2 ^ 64 →
  data_alloc_ok (_dispatch_data_num_records oa + _dispatch_data_num_records ob) 0 = true →
  ∃ d s', dispatch_data_create_concat data_alloc_ok s a b = Some (d, s') ∧
    created own s d s' (object_bytes (objects s) oa ++ object_bytes (objects s) ob).
Proof.
  intros I Ha Hb Hlt Hok. unfold dispatch_data_create_concat. rewrite Ha, Hb. cbn.
  assert (Hnil : ∀ x o, objects s !! x = Some o → size o = 0 → object_bytes (objects s) o = []).
  { intros x o Ho Hz. pose proof (bytes_len _ _ _ _ I Ho) as H. rewrite Hz in H.
    destruct (object_bytes _ _); [done|]. rewrite zlen_cons in H. pose proof (zlen_nonneg l). lia. }
  destruct (Z.eqb_spec (size oa) 0) as [Ea|Ea].
  { destruct (retain_created own s b ob I Hb) as (s' & -> & Hc). exists b, s'.
    by rewrite (Hnil a oa). }
  destruct (Z.eqb_spec (size ob) 0) as [Eb|Eb].
  { destruct (retain_created own s a oa I Ha) as (s' & -> & Hc). exists a, s'.
    by rewrite (Hnil b ob), app_nil_r. }
  destruct (concat_records_ok own s a oa I Ha Ea) as (Hwa & Hta & Hna & Hla & <-).
  destruct (concat_records_ok own s b ob I Hb Eb) as (Hwb & Htb & Hnb & Hlb & <-).
  pose proof (total_nonneg _ _ Hwa). pose proof (total_nonneg _ _ Hwb).
  destruct (Z.leb_spec (2 ^ 64) (_dispatch_data_num_records oa + _dispatch_data_num_records ob)); [lia|].
  assert (Hu : u64 (size oa + size ob) = size oa + size ob) by (apply Z.mod_small; lia).
  destruct (new_composite own s _ (u64 (size oa + size ob)) (concat_records a oa ++ concat_records b ob) I Hok)
    as (s1 & s' & -> & Hr & Hc).
  - by apply Forall_app.
  - by destruct (concat_records a oa).
  - rewrite total_app. lia.
  - rewrite Hu. lia.
  - cbn. rewrite Hr. cbn. rewrite flat_map_app in Hc. by exists (next s), s'.
Qed.

Lemma find_record_ok m l i off :
  Forall (wf_record m) l → 0 ≤ off < total l →
  ∃ l1 r l2, l = l1 ++ r :: l2 ∧ 0 ≤ off - total l1 < length_ r ∧
    find_record l i off = Some (i + zlen l1, off - total l1).
Proof.
  revert i off. induction l as [|r l IH]; intros i off Hl Hoff; [cbn in Hoff; lia|].
  apply Forall_cons in Hl as [Hr Hl]. cbn in *. destruct (Z.leb_spec (length_ r) off).
  - destruct (IH (i + 1) (off - length_ r) Hl) as (l1 & r' & l2 & -> & Hb & ->); [lia|].
    exists (r :: l1), r', l2. cbn. rewrite zlen_cons. split_and!; [done|lia|lia|]. do 2 f_equal; lia.
  - exists [], r, l. cbn [total app]. change (zlen (@nil range_record)) with 0. rewrite Z.add_0_r, Z.sub_0_r. split_and!; [done|lia..|done].
Qed.

Lemma find_last_ok m l c last :
  Forall (wf_record m) l → 0 < last ≤ total l →
  ∃ l1 r l2, l = l1 ++ r :: l2 ∧ 0 < last - total l1 ≤ length_ r ∧
    find_last l c last = Some (c + zlen l1 + 1, last - total l1).
Proof.
  revert c last. induction l as [|r l IH]; intros c last Hl Hlast; [cbn in Hlast; lia|].
  apply Forall_cons in Hl as [Hr Hl]. cbn in *. destruct (Z.leb_spec last (length_ r)).
  - exists [], r, l. cbn [total app]. change (zlen (@nil range_record)) with 0. rewrite Z.add_0_r, Z.sub_0_r. split_and!; [done|lia..|done].
  - destruct (IH (c + 1) (last - length_ r) Hl) as (l1 & r' & l2 & -> & Hb & ->); [lia|].
    exists (r :: l1), r', l2. cbn. rewrite zlen_cons. split_and!; [done|lia|lia|]. do 2 f_equal; lia.
Qed.

(** A record cut at its start and at its end. *)
Lemma cut_record m r o n :
  wf_record m r → 0 ≤ o → 0 < n → o + n ≤ length_ r →
  let r' := {| data_object := data_object r; from := from r + o; length_ := n |} in
  wf_record m r' ∧
  record_bytes m r' = take (Z.to_nat n) (drop (Z.to_nat o) (record_bytes m r)).
Proof.
  intros (H0 & Hf & Hl & ob & b & Ho & Hr & Hb & Hle) Ho' Hn Hon. cbn. split.
  - split_and!; cbn; [done|lia|lia|]. exists ob, b. split_and!; [done..|lia].
  - unfold record_bytes. cbn. rewrite Ho. cbn. rewrite Hb. cbn.
    rewrite skipn_firstn_comm, take_take, drop_drop. f_equal; [lia|]. f_equal. lia.
Qed.

(** The bytes from inside [r] to inside [r']. *)
Lemma window_bytes m l1 r mid r' l2 o n :
  Forall (wf_record m) (l1 ++ r :: mid ++ r' :: l2) →
  0 ≤ o < length_ r → 0 < n ≤ length_ r' →
  take (Z.to_nat (length_ r - o + total mid + n))
    (drop (Z.to_nat (total l1 + o)) (flat_map (record_bytes m) (l1 ++ r :: mid ++ r' :: l2)))
  = drop (Z.to_nat o) (record_bytes m r) ++ flat_map (record_bytes m) mid
    ++ take (Z.to_nat n) (record_bytes m r').
Proof.
  intros Hw Ho Hn. apply Forall_app in Hw as [H1 [Hr [Hm [Hr' _]%Forall_cons]%Forall_app]%Forall_cons].
  rewrite flat_map_app. cbn [flat_map]. rewrite flat_map_app. cbn [flat_map].
  pose proof (records_bytes_len m l1 H1) as E1. pose proof (records_bytes_len m mid Hm) as Em.
  pose proof (record_bytes_len m r Hr) as Er. pose proof (record_bytes_len m r' Hr') as Er'.
  pose proof (total_nonneg _ _ H1). pose proof (total_nonneg _ _ Hm).
  pose proof (zlen_nonneg l1). pose proof (zlen_nonneg mid). unfold zlen in E1, Em, Er, Er'.
  rewrite drop_app_ge by lia.
  replace (Z.to_nat (total l1 + o) - _)%nat with (Z.to_nat o) by lia.
  rewrite drop_app_le by lia.
  rewrite take_app_ge by (rewrite length_drop; lia). f_equal.
  rewrite take_app_ge by (rewrite length_drop; lia). f_equal.
  rewrite take_app_le by (rewrite length_drop; lia). f_equal. rewrite length_drop. lia.
Qed.

Lemma subrange_leaf own s a o b off len f :
  inv own s → objects s !! a = Some o → a ≠ dispatch_data_empty →
  records o = [] → buf o = Some b → data_alloc_ok 1 0 = true →
  0 ≤ off → 0 < len → off + len ≤ size o →
  ∃ d s', dispatch_data_create_subrange data_alloc_ok (S f) s a off len = Some (d, s') ∧
    created own s d s' (take (Z.to_nat len) (drop (Z.to_nat off) b)).
Proof.
  intros I Ho Ha Hr Hb Hok Hoff Hlen Hsz.
  destruct (inv_obj _ _ I a o Ho Ha) as [Hs Hw]. unfold _dispatch_data_leaf in Hw.
  rewrite bool_decide_true in Hw by done. destruct Hw as (b' & Hb' & Hlb).
  assert (b' = b) as -> by congruence.
  cbn [dispatch_data_create_subrange]. rewrite Ho. cbn [mbind option_bind].
  replace ((size o <=? off) || (len =? 0)) with false by by zcases.
  unfold _dispatch_data_leaf. rewrite (bool_decide_true (records o = [])) by done.
  destruct ((size o - off <? len) || negb (len =? size o)) eqn:E.
  - assert (Hl : (if size o - off <? len then size o - off else len) = len) by zcases.
    cbv zeta. rewrite !Hl. set (r := {| data_object := a |}).
    assert (Hwr : wf_record (objects s) r).
    { split_and!; cbn; [done|lia|lia|]. exists o, b. split_and!; [done..|lia]. }
    destruct (new_composite own s 1 len [r] I Hok) as (s1 & s' & -> & Hret & Hc);
      [by constructor|done|cbn; lia|lia|].
    cbn in Hret |- *. destruct (_dispatch_data_retain s1 a) as [s2|]; [|done].
    cbn in Hret |- *. injection Hret as <-. exists (next s), s2. split; [done|].
    unfold record_bytes in Hc. cbn in Hc. rewrite Ho in Hc. cbn in Hc. by rewrite Hb, app_nil_r in Hc.
  - apply orb_false_iff in E as [E1 E2]. zbool.
    destruct (retain_created own s a o I Ho) as (s' & -> & Hc). exists a, s'. split; [done|].
    unfold object_bytes, _dispatch_data_leaf in Hc. rewrite bool_decide_true, Hb in Hc by done.
    cbn in Hc. replace off with 0 by lia. rewrite drop_0, take_ge; [done|].
    unfold zlen in Hlb. lia.
Qed.

Definition cut (r : range_record) (o n : Z) : range_record :=
  {| data_object := data_object r; from := from r + o; length_ := n |}.

Lemma cut_all r o n : o = 0 → n = length_ r → cut r o n = r.
Proof. intros -> ->. unfold cut. rewrite Z.add_0_r. by destruct r. Qed.

Lemma subrange_records_shape m l1 r l2 o len te :
  Forall (wf_record m) (l1 ++ r :: l2) → 0 ≤ o < length_ r → length_ r - o < len →
  len ≤ length_ r - o + total l2 → te = (len =? length_ r - o + total l2) →
  ∃ mid r' l3 n, l2 = mid ++ r' :: l3 ∧ 0 < n ≤ length_ r' ∧ len = length_ r - o + total mid + n ∧
    subrange_records (l1 ++ r :: l2) r (zlen l1) o len te
    = Some (cut r o (length_ r - o) :: mid ++ [cut r' 0 n]).
Proof.
  intros Hw Ho Hlen Hle Hte. apply Forall_app in Hw as [H1 [Hr H2]%Forall_cons].
  assert (Hl2 : l2 ≠ []) by (intros ->; cbn in *; lia).
  assert (Hfirst : ∀ l, (if negb (o =? 0) then set_first o (r :: l) else r :: l)
                        = cut r o (length_ r - o) :: l).
  { intros l. destruct (Z.eqb_spec o 0); cbn; [|done]. by rewrite cut_all by lia. }
  unfold subrange_records. destruct te.
  - symmetry in Hte. apply Z.eqb_eq in Hte.
    destruct (exists_last Hl2) as (mid & r' & ->). exists mid, r', [], (length_ r').
    apply Forall_app in H2 as [_ [(_&_&?&_) _]%Forall_cons]. rewrite total_app in Hte. cbn in Hte.
    split_and!; [done|lia..|]. cbn [mbind option_bind].
    replace (zlen _ - zlen l1) with (zlen (r :: mid ++ [r'])) by (rewrite (zlen_app l1); lia).
    rewrite <- (app_nil_r (r :: mid ++ [r'])) at 1. rewrite zsub_app. cbn [mbind option_bind negb].
    by rewrite Hfirst, (cut_all r' 0) by lia.
  - rewrite cons_middle, app_assoc, drop_app_length'
      by (rewrite length_app; cbn; unfold zlen; lia).
    destruct (find_last_ok m l2 1 (len - (length_ r - o)) H2) as (mid & r' & l3 & -> & Hb & E); [lia|].
    exists mid, r', l3, (len - (length_ r - o) - total mid). split_and!; [done|lia..|].
    assert (Ee : find_end (mid ++ r' :: l3) (len - (length_ r - o))
      = Some (zlen (r :: mid) + 1, len - (length_ r - o) - total mid)).
    { unfold find_end. destruct (mid ++ r' :: l3) eqn:Em; [by destruct mid|]. rewrite E, zlen_cons.
      do 2 f_equal. lia. }
    rewrite Ee. cbn [mbind option_bind]. rewrite <- app_assoc. cbn [app].
    replace (r :: mid ++ r' :: l3) with ((r :: mid ++ [r']) ++ l3) by (cbn; by rewrite <- app_assoc).
    replace (zlen (r :: mid) + 1) with (zlen (r :: mid ++ [r']))
      by (rewrite !zlen_cons, zlen_app; change (zlen [r']) with 1; lia).
    rewrite zsub_app. cbn [mbind option_bind negb]. rewrite Hfirst.
    replace (zlen (r :: mid ++ [r']) - 1) with (zlen (cut r o (length_ r - o) :: mid))
      by (rewrite !zlen_cons, zlen_app; change (zlen [r']) with 1; lia).
    rewrite app_comm_cons, zget_middle. cbn [mbind option_bind].
    rewrite zset_middle. unfold cut. by rewrite Z.add_0_r.
Qed.

Lemma subrange_records_ok m l1 r l2 o len te :
  Forall (wf_record m) (l1 ++ r :: l2) → 0 ≤ o < length_ r → length_ r - o < len →
  len ≤ length_ r - o + total l2 → te = (len =? length_ r - o + total l2) →
  ∃ recs, subrange_records (l1 ++ r :: l2) r (zlen l1) o len te = Some recs ∧
    Forall (wf_record m) recs ∧ recs ≠ [] ∧ len = total recs ∧
    zlen recs ≤ zlen (l1 ++ r :: l2) ∧
    flat_map (record_bytes m) recs
    = take (Z.to_nat len) (drop (Z.to_nat (total l1 + o)) (flat_map (record_bytes m) (l1 ++ r :: l2))).
Proof.
  intros Hw Ho Hlen Hle Hte.
  destruct (subrange_records_shape m l1 r l2 o len te Hw Ho Hlen Hle Hte)
    as (mid & r' & l3 & n & -> & Hn & -> & E).
  eexists. split; [exact E|]. rewrite window_bytes by done.
  apply Forall_app in Hw as [H1 [Hr [Hm [Hr' _]%Forall_cons]%Forall_app]%Forall_cons].
  destruct (cut_record m r o (length_ r - o) Hr) as [Hw1 Eb1]; [lia..|].
  destruct (cut_record m r' 0 n Hr') as [Hw2 Eb2]; [lia..|].
  split_and!.
  - constructor; [done|]. apply Forall_app. split; [done|]. by constructor.
  - done.
  - cbn. rewrite total_app. cbn. lia.
  - pose proof (zlen_nonneg l1). pose proof (zlen_nonneg l3). autorewrite with zlen. lia.
  - cbn [flat_map]. rewrite flat_map_app. cbn [flat_map]. unfold cut.
    rewrite Eb1, Eb2, app_nil_r, drop_0. f_equal. apply take_ge. rewrite length_drop.
    pose proof (record_bytes_len m r Hr) as Er. unfold zlen in Er. lia.
Qed.

Lemma num_records_ge o :
  1 ≤ _dispatch_data_num_records o ∧ zlen (records o) ≤ _dispatch_data_num_records o.
Proof.
  unfold _dispatch_data_num_records. pose proof (zlen_nonneg (records o)).
  destruct (Z.eqb_spec (zlen (records o)) 0); lia.
Qed.

Lemma single_bytes m l1 r l2 o n :
  Forall (wf_record m) (l1 ++ r :: l2) → 0 ≤ o → 0 ≤ n → o + n ≤ length_ r →
  take (Z.to_nat n) (drop (Z.to_nat (total l1 + o)) (flat_map (record_bytes m) (l1 ++ r :: l2)))
  = take (Z.to_nat n) (drop (Z.to_nat o) (record_bytes m r)).
Proof.
  intros [H1 [Hr H2]%Forall_cons]%Forall_app Ho Hn Hon. rewrite flat_map_app. cbn [flat_map].
  pose proof (records_bytes_len m l1 H1) as E1. pose proof (record_bytes_len m r Hr) as Er.
  pose proof (total_nonneg _ _ H1). unfold zlen in E1, Er.
  rewrite drop_app_ge by lia.
  replace (Z.to_nat (total l1 + o) - _)%nat with (Z.to_nat o) by lia.
  rewrite drop_app_le by lia. apply take_app_le. rewrite length_drop. lia.
Qed.

(** The composite case, past the clamping of the length. *)
Lemma subrange_composite own s o off L f :
  inv own s → Forall (wf_record (objects s)) (records o) → size o = total (records o) →
  size o < 2 ^ 64 → 0 ≤ off → 0 < L → off + L ≤ size o →
  (∀ n, 0 < n ≤ _dispatch_data_num_records o → data_alloc_ok n 0 = true) →
  ∃ d s',
    ('(i, offset) ← find_record (records o) 0 off;
     ri ← (records o).[i];
     if offset + L <=? length_ ri then
       dispatch_data_create_subrange data_alloc_ok (S f) s (data_object ri) (from ri + offset) L
     else
       recs ← subrange_records (records o) ri i offset L (off + L =? size o);
       '(data, s) ← _dispatch_data_alloc data_alloc_ok s (zlen recs) 0 (composite_object L recs);
       s ← retain_records s recs;
       Some (data, s)) = Some (d, s') ∧
    created own s d s'
      (take (Z.to_nat L) (drop (Z.to_nat off) (flat_map (record_bytes (objects s)) (records o)))).
Proof.
  intros I Hw Ht Hs Hoff HL Hle Hok. pose proof (num_records_ge o) as [Hn1 Hn2].
  destruct (find_record_ok _ (records o) 0 off Hw) as (l1 & r & l2 & El2 & Hbd & E); [lia|].
  rewrite E. cbn [mbind option_bind]. rewrite Z.add_0_l in *. rewrite El2, zget_middle in *.
  cbn [mbind option_bind]. rewrite total_app in Ht. cbn in Ht.
  pose proof Hw as [H1 [Hr H2]%Forall_cons]%Forall_app.
  assert (Hoffs : Z.to_nat off = Z.to_nat (total l1 + (off - total l1))) by (f_equal; lia).
  rewrite Hoffs.
  destruct (Z.leb_spec (off - total l1 + L) (length_ r)) as [Hin|Hout].
  - rewrite single_bytes by (done || lia).
    destruct (cut_record _ r (off - total l1) L Hr) as [_ Eb]; [lia..|]. rewrite <- Eb.
    destruct Hr as (Hr0 & Hf0 & Hl0 & ob & b & Hob & Hrb & Hbb & Hlb).
    destruct (inv_obj _ _ I _ ob Hob Hr0) as [_ Hwb]. unfold _dispatch_data_leaf in Hwb.
    rewrite bool_decide_true in Hwb by done. destruct Hwb as (b' & ? & Hlen').
    assert (b' = b) as -> by congruence.
    destruct (subrange_leaf own s (data_object r) ob b (from r + (off - total l1)) L f I Hob Hr0 Hrb Hbb)
      as (d & s' & Ed & Hc); [apply Hok; lia|lia..|].
    exists d, s'. split; [done|]. unfold record_bytes. cbn. by rewrite Hob; cbn; rewrite Hbb.
  - destruct (subrange_records_ok _ l1 r l2 (off - total l1) L (off + L =? size o) Hw)
      as (recs & Er & Hwr & Hne & HLt & Hlen & Eb); [lia|lia|lia| |].
    { apply eq_true_iff_eq. rewrite !Z.eqb_eq. lia. }
    rewrite Er. cbn [mbind option_bind]. rewrite <- Eb.
    destruct (new_composite own s (zlen recs) L recs I) as (s1 & s' & -> & Hret & Hc);
      [apply Hok; destruct recs; [done|]; rewrite zlen_cons in *; pose proof (zlen_nonneg recs); lia
      |done..|lia|].
    cbn [mbind option_bind]. rewrite Hret. cbn. by exists (next s), s'.
Qed.

(** C25. [dispatch_data_create_subrange]: the result stands for the slice of the
    bytes, clamped to the object; two levels of recursion are enough. *)
Theorem subrange_refines own s a o off len :
  inv own s → objects s !! a = Some o → 0 ≤ off → 0 ≤ len →
  (∀ n, 0 < n ≤ _dispatch_data_num_records o → data_alloc_ok n 0 = true) →
  ∃ d s', dispatch_data_create_subrange data_alloc_ok 2 s a off len = Some (d, s') ∧
    created own s d s' (take (Z.to_nat len) (drop (Z.to_nat off) (object_bytes (objects s) o))).
Proof.
  intros I Ho Hoff Hlen Hok. pose proof (bytes_len own s a o I Ho) as Hb. unfold zlen in Hb.
  remember 1%nat as f eqn:Hf. cbn [dispatch_data_create_subrange]. rewrite Ho. cbn [mbind option_bind].
  destruct ((size o <=? off) || (len =? 0)) eqn:E1.
  { exists dispatch_data_empty, s. split; [done|].
    replace (take _ _) with (@nil Z); [by apply created_empty|]. apply orb_true_iff in E1 as [E1|E1]; zbool.
    - by rewrite drop_ge, take_nil by lia.
    - by subst len. }
  zbool. assert (Ha : a ≠ dispatch_data_empty).
  { intros ->. rewrite (inv_empty _ _ I) in Ho. injection Ho as <-. cbn in *. lia. }
  destruct ((size o - off <? len) || negb (len =? size o)) eqn:E2; last first.
  { zbool. destruct (retain_created own s a o I Ho) as (s' & -> & Hc). exists a, s'. split; [done|].
    replace off with 0 by lia. by rewrite drop_0, take_ge by lia. }
  cbv zeta. set (L := if size o - off <? len then size o - off else len).
  assert (HL : 0 < L ∧ off + L ≤ size o ∧ L ≤ len ∧ (L = len ∨ off + L = size o)).
  { unfold L. destruct (Z.ltb_spec (size o - off) len); lia. }
  replace (take (Z.to_nat len) _) with (take (Z.to_nat L) (drop (Z.to_nat off) (object_bytes (objects s) o)));
    last first.
  { destruct HL as (? & ? & ? & [->|Hend]); [done|]. rewrite !take_ge; [done|rewrite length_drop; lia..]. }
  destruct HL as (HL & Hle & _ & _). clearbody L. clear E2.
  destruct (inv_obj _ _ I a o Ho Ha) as [Hs Hw].
  unfold object_bytes in *. destruct (_dispatch_data_leaf o) eqn:El.
  - destruct Hw as (b & Eb & Hlb). set (r := {| data_object := a |}).
    assert (Hwr : wf_record (objects s) r).
    { apply bool_decide_eq_true in El. split_and!; cbn; [done|lia..|]. exists o, b. split_and!; [done..|lia]. }
    pose proof (num_records_ge o).
    destruct (new_composite own s 1 L [r] I) as (s1 & s' & -> & Hret & Hc);
      [apply Hok; lia|by constructor|done|cbn; lia|lia|].
    cbn in Hret |- *. destruct (_dispatch_data_retain s1 a) as [s2|]; [|done].
    cbn in Hret |- *. injection Hret as <-. exists (next s), s2. split; [done|].
    unfold record_bytes in Hc. cbn in Hc. rewrite Ho in Hc. cbn in Hc. by rewrite app_nil_r in Hc.
  - destruct Hw as (Hw & Ht & _). subst f. apply subrange_composite; [done..|lia|done|lia|lia|done].
Qed.
End creating.

(** ** Releasing *)

(** The memory an object frees when it is disposed of; of a whole store. *)
Definition held (o : data_s) : option (destructor * Z) :=
  if _dispatch_data_leaf o then
    match destruct_ o with DESTRUCTOR_NONE => None | d => Some (d, size o) end
  else match buf o with Some _ => Some (DESTRUCTOR_FREE, size o) | None => None end.

Definition memory (m : gmap Z data_s) : list (destructor * Z) := omap held (map_to_list m).*2.

(** What a release leaves: the surviving objects stand for the same bytes, and
    the memory of the others is freed exactly once. *)
Record released (s s' : store) : Prop := {
  released_next : next s' = next s;
  released_bytes x o' : objects s' !! x = Some o' →
    ∃ o, objects s !! x = Some o ∧ o' = with_refs o (refs o') ∧ bytes s' x = bytes s x;
  released_memory : ∃ freed, _events s' = freed ++ _events s ∧
    memory (objects s) ≡ₚ freed ++ memory (objects s');
}.

Lemma released_trans s1 s2 s3 : released s1 s2 → released s2 s3 → released s1 s3.
Proof.
  intros [N1 B1 (f1 & E1 & M1)] [N2 B2 (f2 & E2 & M2)]. split.
  - congruence.
  - intros x o3 H3. destruct (B2 x o3 H3) as (o2 & H2 & Eq2 & Eb2).
    destruct (B1 x o2 H2) as (o1 & H1 & Eq1 & Eb1). exists o1. split_and!; [done| |congruence].
    rewrite Eq2, Eq1. done.
  - exists (f2 ++ f1). split; [by rewrite E2, E1, app_assoc|]. rewrite M1, M2.
    rewrite !app_assoc. by rewrite (Permutation_app_comm f1 f2).
Qed.

Lemma held_refs o n : held (with_refs o n) = held o.
Proof. done. Qed.

Lemma memory_delete m a o :
  m !! a = Some o → memory m ≡ₚ option_list (held o) ++ memory (delete a m).
Proof.
  intros H. unfold memory. rewrite <- (map_to_list_delete m a o H). cbn.
  by destruct (held o).
Qed.

Lemma memory_put s a o n :
  objects s !! a = Some o → memory (objects (put s a (with_refs o n))) ≡ₚ memory (objects s).
Proof.
  intros H. rewrite (memory_delete _ a (with_refs o n)) by (cbn; by rewrite lookup_insert_eq).
  rewrite (memory_delete (objects s) a o H), held_refs. cbn. by rewrite delete_insert_eq.
Qed.

Lemma inv_ext own own' s : (∀ a, own a = own' a) → inv own s → inv own' s.
Proof.
  intros E [I1 I2 I3 I4 I5 I6]. split; [done..| | |]; intros; rewrite <- E; eauto.
Qed.

Lemma inv_live own s a : inv own s → 0 < own a → is_Some (objects s !! a).
Proof.
  intros I H. destruct (objects s !! a) eqn:E; [by eexists|]. rewrite (inv_dead _ _ I a E) in H. lia.
Qed.

(** Dropping one of several references. *)
Lemma release_decrement own s a o :
  inv own s → objects s !! a = Some o → a ≠ dispatch_data_empty → 0 < own a → 1 < refs o →
  let s' := put s a (with_refs o (refs o - 1)) in inv (lose own a) s' ∧ released s s'.
Proof.
  intros I Ho Ha Hown Hr s'.
  destruct (inv_recount own (lose own a) s s') as [I' Hb]; [done|done|by apply put_same_shape|..].
  - cbn. rewrite lookup_insert_ne by done. apply (inv_empty _ _ I).
  - intros x o1 o2 E1. cbn. unfold lose. destruct (decide (x = a)) as [->|Hx].
    + rewrite lookup_insert_eq, Z.eqb_refl. intros [= <-] _. cbn.
      rewrite Ho in E1. injection E1 as <-. lia.
    + rewrite lookup_insert_ne by done. intros E2 Hx0. rewrite (proj2 (Z.eqb_neq x a) Hx). cbn.
      destruct (inv_refs _ _ I x o1 E1 Hx0). rewrite E1 in E2. injection E2 as <-. lia.
  - intros x. unfold lose. pose proof (inv_own _ _ I x). destruct (Z.eqb_spec x a); cbn; subst; lia.
  - intros x E. unfold lose. rewrite (inv_dead _ _ I x E).
    destruct (Z.eqb_spec x a); [congruence|done].
  - split; [done|]. split; [done| |].
    + intros x o' E. destruct (same_shape_lookup _ _ _ _ (put_same_shape s a o _ Ho) E) as (o1 & E1 & Eq).
      exists o1. by rewrite Hb.
    + exists []. split; [done|]. symmetry. by apply memory_put.
Qed.

(** Dropping the last reference: the object's records become the releaser's. *)
Lemma release_last own s a o (e : list (destructor * Z)) :
  inv own s → objects s !! a = Some o → a ≠ dispatch_data_empty → 0 < own a → refs o ≤ 1 →
  let s' := {| objects := delete a (objects s); next := next s; _events := e |} in
  inv (λ x, lose own a x + refcount x (records o)) s' ∧
  ∀ x o', objects s' !! x = Some o' → objects s !! x = Some o' ∧ bytes s' x = bytes s x.
Proof.
  intros I Ho Ha Hown Hr s'. destruct (inv_refs _ _ I a o Ho Ha) as [Hcount _].
  pose proof (incoming_nonneg (objects s) a).
  assert (Hinc : incoming (objects s) a = 0) by lia. assert (Hone : own a = 1) by lia.
  assert (Hlk : ∀ x o', objects s' !! x = Some o' → x ≠ a ∧ objects s !! x = Some o').
  { intros x o'. cbn. intros E%lookup_delete_Some. destruct E. by split. }
  assert (Hleaf : ∀ x o', objects s !! x = Some o' →
    Forall (λ r, same_leaf (objects s) (objects s') (data_object r)) (records o')).
  { intros x o' E. eapply Forall_impl; [by eapply incoming_0_inv|]. intros r Hne o1 Ho1 Hr1.
    exists o1. cbn. by rewrite lookup_delete_ne. }
  assert (Hobj : ∀ x o', objects s !! x = Some o' → x ≠ dispatch_data_empty →
    wf_object (objects s') o' ∧ object_bytes (objects s') o' = object_bytes (objects s) o').
  { intros x o' E Hx. eapply object_mono; [by eapply Hleaf|by apply (inv_obj _ _ I x)|done..]. }
  assert (Hself : refcount a (records o) = 0).
  { apply refcount_zero. by eapply incoming_0_inv. }
  split; [split|].
  - cbn. rewrite lookup_delete_ne by done. apply (inv_empty _ _ I).
  - intros x o' [_ E]%Hlk. by apply (inv_dom _ _ I x o').
  - intros x o' [_ E]%Hlk Hx. by apply (Hobj x).
  - intros x o' [Hne E]%Hlk Hx. destruct (inv_refs _ _ I x o' E Hx) as [Hc Hp].
    rewrite (incoming_delete _ a o x Ho) in Hc. unfold lose. rewrite (proj2 (Z.eqb_neq x a) Hne). cbn. lia.
  - intros x. unfold lose. pose proof (refcount_nonneg x (records o)). pose proof (inv_own _ _ I x).
    destruct (Z.eqb_spec x a); cbn; subst; lia.
  - intros x. cbn. unfold lose. destruct (Z.eqb_spec x a) as [->|Hne]; [intros _; cbn; lia|].
    rewrite lookup_delete_ne by done. intros E. rewrite (inv_dead _ _ I x E).
    by rewrite (refcount_dead (objects s)) by (done || by eapply inv_records).
  - intros x o' [Hne E]%Hlk. split; [done|]. unfold bytes. cbn.
    rewrite lookup_delete_ne, E by done. cbn. f_equal.
    destruct (decide (x = dispatch_data_empty)) as [->|Hx]; [|by apply (Hobj x)].
    rewrite (inv_empty _ _ I) in E. by injection E as <-.
Qed.

Lemma inv_log own s e : inv own s → inv own (log s e).
Proof. intros [I1 I2 I3 I4 I5 I6]. by split. Qed.

Lemma release_leaf own s a o f :
  inv own s → objects s !! a = Some o → a ≠ dispatch_data_empty → 0 < own a → records o = [] →
  ∃ s', _dispatch_data_release (S f) s a = Some s' ∧ inv (lose own a) s' ∧ released s s'.
Proof.
  intros I Ho Ha Hown Hr. cbn [_dispatch_data_release].
  destruct (Z.eqb_spec a dispatch_data_empty); [done|]. rewrite Ho. cbn [mbind option_bind].
  destruct (Z.ltb_spec 1 (refs o)) as [H1|H1].
  - destruct (release_decrement own s a o I Ho Ha Hown H1) as [I' R]. eexists. by split_and!.
  - destruct (release_last own s a o (option_list (held o) ++ _events s) I Ho Ha Hown H1) as [I' R].
    unfold _dispatch_data_dispose, held, _dispatch_data_leaf in *.
    rewrite (bool_decide_true (records o = [])) in * by done. cbv zeta.
    eexists. split; [done|].
    set (s1 := {| objects := _; next := _; _events := option_list _ ++ _ |}) in *.
    assert (Es : _dispatch_data_destroy_buffer
      {| objects := delete a (objects s); next := next s; _events := _events s |} (size o) (destruct_ o) = s1).
    { unfold s1. by destruct (destruct_ o). }
    rewrite Es. split.
    + eapply inv_ext; [|exact I']. intros x. cbn. rewrite Hr. cbn. lia.
    + split; [done| |].
      * intros x o' E. destruct (R x o' E). exists o'. split_and!; [done| |done]. by destruct o'.
      * exists (option_list (held o)). unfold held, _dispatch_data_leaf.
        rewrite (bool_decide_true (records o = [])) by done. split; [done|].
        rewrite (memory_delete _ a o Ho). unfold held, _dispatch_data_leaf.
        by rewrite (bool_decide_true (records o = [])) by done.
Qed.

Lemma release_records_ok own l s f :
  inv (λ x, own x + refcount x l) s → (∀ x, 0 ≤ own x) →
  Forall (λ r, data_object r ≠ dispatch_data_empty ∧
               ∀ o, objects s !! data_object r = Some o → records o = []) l →
  ∃ s', release_records (_dispatch_data_release (S f)) s l = Some s' ∧ inv own s' ∧ released s s'.
Proof.
  revert s. induction l as [|r l IH]; intros s I Hown Hl; cbn [release_records].
  - exists s. split_and!; [done| |].
    + eapply inv_ext; [|exact I]. intros x. cbn. lia.
    + split; [done| |by exists []]. intros x o' E. exists o'. split_and!; [done| |done]. by destruct o'.
  - apply Forall_cons in Hl as [[Hne Hleaf] Hl].
    assert (Hpos : 0 < own (data_object r) + refcount (data_object r) (r :: l)).
    { cbn. rewrite Z.eqb_refl. cbn. pose proof (Hown (data_object r)).
      pose proof (refcount_nonneg (data_object r) l). lia. }
    destruct (inv_live _ _ _ I Hpos) as [o Ho].
    destruct (release_leaf _ s _ o f I Ho Hne Hpos (Hleaf o Ho)) as (s1 & E1 & I1 & R1).
    rewrite E1. cbn [mbind option_bind].
    destruct (IH s1) as (s2 & E2 & I2 & R2); [|done| |].
    + eapply inv_ext; [|exact I1]. intros x. unfold lose. cbn.
      rewrite (Z.eqb_sym (data_object r) x). lia.
    + eapply Forall_impl; [exact Hl|]. intros r' [Hne' Hl']. split; [done|]. intros o' Ho'.
      destruct (released_bytes _ _ R1 _ _ Ho') as (o1 & Ho1 & Eq & _). rewrite Eq. exact (Hl' o1 Ho1).
    + exists s2. split_and!; [done..|]. by eapply released_trans.
Qed.

(** C26. [dispatch_release]: dropping an owned reference frees exactly the objects
    that nothing refers to any more, the memory of each once, and leaves the
    other objects as they were; the recursion is never deeper than 2. *)
Theorem release_refines own s a :
  inv own s → a ≠ dispatch_data_empty → 0 < own a →
  ∃ s', _dispatch_data_release 2 s a = Some s' ∧ inv (lose own a) s' ∧ released s s'.
Proof.
  intros I Ha Hown. destruct (inv_live _ _ _ I Hown) as [o Ho].
  remember 1%nat as f eqn:Hf. cbn [_dispatch_data_release].
  destruct (Z.eqb_spec a dispatch_data_empty); [done|]. rewrite Ho. cbn [mbind option_bind].
  destruct (Z.ltb_spec 1 (refs o)) as [H1|H1].
  { destruct (release_decrement own s a o I Ho Ha Hown H1) as [I' R]. eexists. by split_and!. }
  destruct (decide (records o = [])) as [Hr|Hr].
  { destruct (release_leaf own s a o f I Ho Ha Hown Hr) as (s' & E & I' & R).
    cbn [_dispatch_data_release] in E. destruct (Z.eqb_spec a dispatch_data_empty); [done|].
    rewrite Ho in E. cbn [mbind option_bind] in E.
    destruct (Z.ltb_spec 1 (refs o)); [lia|]. exists s'. split; [|done].
    revert E. unfold _dispatch_data_dispose, _dispatch_data_leaf.
    by rewrite (bool_decide_true (records o = [])) by done. }
  destruct (release_last own s a o (_events s) I Ho Ha Hown H1) as [I1 R1].
  cbv zeta. set (s1 := {| objects := _; next := _; _events := _ |}) in *.
  pose proof (inv_records _ _ _ _ I Ho) as Hwr.
  destruct (release_records_ok (lose own a) (records o) s1 0 I1) as (s2 & E2 & I2 & R2).
  { intros x. unfold lose. pose proof (inv_own _ _ I x). destruct (Z.eqb_spec x a); cbn; subst; lia. }
  { eapply Forall_impl; [exact Hwr|]. intros r (Hne & _ & _ & ol & b & Hol & Hrl & _).
    split; [done|]. intros o' Ho'. destruct (R1 _ _ Ho'). congruence. }
  unfold _dispatch_data_dispose, _dispatch_data_leaf. rewrite bool_decide_false by done.
  subst f. rewrite E2. cbn [mbind option_bind].
  assert (Hheld : held o = match buf o with Some _ => Some (DESTRUCTOR_FREE, size o) | None => None end).
  { unfold held, _dispatch_data_leaf. by rewrite bool_decide_false. }
  set (s3 := match buf o with Some _ => _ | None => s2 end).
  assert (H3 : objects s3 = objects s2 ∧ next s3 = next s2 ∧
               _events s3 = option_list (held o) ++ _events s2).
  { unfold s3. rewrite Hheld. by destruct (buf o). }
  destruct H3 as (H3o & H3n & H3e). exists s3. split_and!; [done| |].
  { unfold s3. destruct (buf o); [by apply inv_log|done]. }
  split.
  - rewrite H3n. apply (released_next _ _ R2).
  - intros x o'. rewrite H3o. intros E. destruct (released_bytes _ _ R2 x o' E) as (o1 & Eo1 & Eq & Eb).
    destruct (R1 x o1 Eo1) as [Es Eb1]. exists o1. split_and!; [done..|]. rewrite <- Eb1, <- Eb.
    unfold bytes. by rewrite H3o.
  - destruct (released_memory _ _ R2) as (fr & Ef & Mf). exists (option_list (held o) ++ fr).
    rewrite H3e, Ef, H3o, app_assoc. split; [done|]. rewrite <- app_assoc, <- Mf.
    apply (memory_delete _ a o Ho).
Qed.

(** ** Regions: applying, flattening, mapping *)

(** [dispatch_data_apply]'s order: regions [(object, offset, bytes)] until the
    applier returns false. *)
Fixpoint run_until {C} (applier : C → Z → Z → list Z → bool * C) (l : list (Z * Z * list Z))
    (ctxt : C) : bool * C :=
  match l with
  | [] => (true, ctxt)
  | (dd, off, b) :: l =>
      let '(result, ctxt) := applier ctxt dd off b in
      if result then run_until applier l ctxt else (false, ctxt)
  end.

(** The regions are not empty, consecutive from [off] on, and make up [x]. *)
Fixpoint covers (off : Z) (l : list (Z * Z * list Z)) (x : list Z) : Prop :=
  match l with
  | [] => x = []
  | (_, o, b) :: l => o = off ∧ b ≠ [] ∧ ∃ rest, x = b ++ rest ∧ covers (off + zlen b) l rest
  end.

Fixpoint record_regions (m : gmap Z data_s) (off : Z) (l : list range_record) : list (Z * Z * list Z) :=
  match l with
  | [] => []
  | r :: l => (data_object r, off, record_bytes m r) :: record_regions m (off + length_ r) l
  end.

Lemma leaf_object_ok own s a o : inv own s → objects s !! a = Some o → a ≠ dispatch_data_empty →
  records o = [] → ∃ b, buf o = Some b ∧ zlen b = size o.
Proof.
  intros I Ho Ha Hr. destruct (inv_obj _ _ I a o Ho Ha) as [_ Hw]. unfold _dispatch_data_leaf in Hw.
  by rewrite bool_decide_true in Hw.
Qed.

Lemma map_direct_leaf own s a o b off :
  inv own s → objects s !! a = Some o → records o = [] → buf o = Some b → 0 ≤ off ≤ zlen b →
  _dispatch_data_map_direct s a off = Some (Some (drop (Z.to_nat off) b), a, off).
Proof.
  intros I Ho Hr Hb Hoff. unfold _dispatch_data_map_direct, _dispatch_data_leaf.
  rewrite Ho. cbn [mbind option_bind]. rewrite bool_decide_true by done.
  cbn [negb andb mbind option_bind]. rewrite Hb. by rewrite decide_True.
Qed.

(** Objects mapped directly, and the others. *)
Lemma map_direct_ok own s a o :
  inv own s → objects s !! a = Some o → a ≠ dispatch_data_empty →
  (∃ b dd off, _dispatch_data_map_direct s a 0 = Some (Some b, dd, off) ∧
     size o ≤ zlen b ∧ take (Z.to_nat (size o)) b = object_bytes (objects s) o) ∨
  (_dispatch_data_map_direct s a 0 = Some (None, a, 0) ∧ _dispatch_data_leaf o = false ∧ buf o = None).
Proof.
  intros I Ho Ha. pose proof (bytes_len own s a o I Ho) as Hlen. unfold zlen in Hlen.
  destruct (inv_obj _ _ I a o Ho Ha) as [Hs Hw].
  unfold _dispatch_data_leaf in Hw. case_bool_decide as El.
  { destruct Hw as (b & Hb & Hlb). left. exists b, a, 0.
    rewrite (map_direct_leaf own s a o b 0) by (done || lia). rewrite drop_0.
    split_and!; [done|lia|]. unfold object_bytes, _dispatch_data_leaf.
    rewrite bool_decide_true, Hb by done. cbn. apply take_ge. unfold zlen in Hlb. lia. }
  destruct Hw as (Hw & Ht & Hflat). unfold _dispatch_data_map_direct, _dispatch_data_leaf in *.
  rewrite Ho. cbn [mbind option_bind]. rewrite bool_decide_false by done. cbn [negb andb].
  destruct (Z.eqb_spec (_dispatch_data_num_records o) 1) as [E1|E1].
  - assert (∃ r, records o = [r]) as (r & Er).
    { pose proof (num_records_ge o) as [_ Hn]. destruct (records o) as [|r [|r' l]]; [done|by exists r|].
      rewrite !zlen_cons in Hn. pose proof (zlen_nonneg l). lia. }
    rewrite Er in *. apply Forall_cons in Hw as [(Hr0 & Hf & Hl & ob & b & Hob & Hrb & Hbb & Hle) _].
    cbn in Ht. cbn [mbind option_bind zget]. change ([r].[0]) with (Some r). cbn [mbind option_bind].
    rewrite Hob. cbn [mbind option_bind]. rewrite Hbb, Z.add_0_l. rewrite decide_True by lia.
    left. eexists _, _, _. split; [done|]. rewrite zlen_drop. split; [lia|].
    unfold object_bytes, _dispatch_data_leaf. rewrite Er, bool_decide_false by done. cbn.
    unfold record_bytes. rewrite Hob. cbn. rewrite Hbb. cbn. rewrite app_nil_r. f_equal. lia.
  - cbn [mbind option_bind]. destruct (buf o) as [b|] eqn:Eb.
    + destruct (Hflat b eq_refl) as [_ Hb]. pose proof (zlen_nonneg b). rewrite decide_True by lia.
      left. eexists _, _, _. split; [done|]. rewrite drop_0, Hb in *. unfold zlen. split; [lia|].
      apply take_ge. lia.
    + right. unfold _dispatch_data_leaf. rewrite bool_decide_false by done. by split_and!.
Qed.

Lemma zsub_prefix {A} (l : list A) n :
  0 ≤ n ≤ zlen l → zsub l 0 n = Some (take (Z.to_nat n) l).
Proof. intros. unfold zsub. rewrite decide_True by lia. by rewrite drop_0. Qed.

Lemma apply_record_ok {C} applier own s r off (ctxt : C) f :
  inv own s → wf_record (objects s) r →
  _dispatch_data_apply applier (S f) s (data_object r) off (from r) (length_ r) ctxt
  = Some (applier ctxt (data_object r) off (record_bytes (objects s) r)).
Proof.
  intros I (Hr0 & Hf & Hl & ob & b & Hob & Hrb & Hbb & Hle). cbn [_dispatch_data_apply].
  pose proof (zlen_nonneg b). rewrite (map_direct_leaf own s _ ob b 0) by (done || lia).
  cbn [mbind option_bind]. rewrite drop_0. unfold zsub. rewrite decide_True by lia.
  cbn [mbind option_bind]. unfold record_bytes. rewrite Hob. cbn. by rewrite Hbb.
Qed.

Lemma apply_records_ok {C} applier own s l off (ctxt : C) f :
  inv own s → Forall (wf_record (objects s)) l →
  apply_records (_dispatch_data_apply applier (S f) s) l off true ctxt
  = Some (run_until applier (record_regions (objects s) off l) ctxt).
Proof.
  intros I Hl. revert off ctxt. induction Hl as [|r l Hr Hl IH]; intros off ctxt; [done|].
  cbn [apply_records record_regions run_until]. rewrite (apply_record_ok applier own) by done.
  cbn [mbind option_bind]. destruct (applier _ _ _ _) as [[] c]; [apply IH|]. by destruct l.
Qed.

Lemma record_regions_cover m l off :
  Forall (wf_record m) l → covers off (record_regions m off l) (flat_map (record_bytes m) l).
Proof.
  intros Hl. revert off. induction Hl as [|r l Hr Hl IH]; intros off; [done|]. cbn.
  pose proof (record_bytes_len m r Hr) as E. destruct Hr as (_ & _ & ? & _).
  split_and!; [done| |].
  - intros Hz. rewrite Hz in E. unfold zlen in E; cbn in E. lia.
  - eexists. split; [done|]. rewrite E. apply IH.
Qed.

(** [dispatch_data_apply]: whatever the applier, it is called on the regions of
    the object in order, until it returns false. *)
Lemma apply_ok own s a o :
  inv own s → objects s !! a = Some o →
  ∃ regions, covers 0 regions (object_bytes (objects s) o) ∧
    ∀ C (applier : C → Z → Z → list Z → bool * C) ctxt,
      dispatch_data_apply applier s a ctxt = Some (run_until applier regions ctxt).
Proof.
  intros I Ho. pose proof (bytes_len own s a o I Ho) as Hlen. unfold zlen in Hlen.
  unfold dispatch_data_apply. rewrite Ho. cbn [mbind option_bind].
  destruct (Z.eqb_spec (size o) 0) as [Ez|Ez].
  { exists []. split; [|done]. cbn. destruct (object_bytes _ _); [done|cbn in Hlen; lia]. }
  assert (Ha : a ≠ dispatch_data_empty).
  { intros ->. rewrite (inv_empty _ _ I) in Ho. by injection Ho as <-. }
  destruct (map_direct_ok own s a o I Ho Ha) as [(b & dd & off & E & Hle & Hb)|(E & El & Eb)].
  - exists [(a, 0, object_bytes (objects s) o)]. split.
    + cbn. split_and!; [done|intros Hz; rewrite Hz in Hlen; cbn in Hlen; lia|].
      exists []. by rewrite app_nil_r.
    + intros C applier ctxt. remember 1%nat as f. cbn [_dispatch_data_apply].
      rewrite E. cbn [mbind option_bind]. rewrite zsub_prefix by lia. cbn. rewrite Hb.
      by destruct (applier _ _ _ _) as [[] ?].
  - exists (record_regions (objects s) 0 (records o)).
    pose proof (inv_records _ _ _ _ I Ho) as Hw. split.
    + unfold object_bytes. rewrite El. by apply record_regions_cover.
    + intros C applier ctxt. remember 1%nat as f eqn:Hf. cbn [_dispatch_data_apply].
      rewrite E, Ho. cbn [mbind option_bind]. subst f.
      exact (apply_records_ok applier own s _ 0 ctxt 0 I Hw).
Qed.

(** Copying the regions to their offsets fills the buffer. *)
Lemma copy_regions regions pre x junk :
  covers (zlen pre) regions x → zlen junk = zlen x →
  run_until (λ buffer _ off b, (true, b' ← buffer; zwrite b' off b)) regions (Some (pre ++ junk))
  = (true, Some (pre ++ x)).
Proof.
  revert pre x junk. induction regions as [|[[d off] b] l IH]; intros pre x junk Hc Hj; cbn in *.
  - subst x. destruct junk; [done|]. rewrite zlen_cons in Hj. pose proof (zlen_nonneg junk).
    unfold zlen in Hj at 2. cbn in Hj. lia.
  - destruct Hc as (-> & Hne & rest & -> & Hc). rewrite zlen_app in Hj.
    assert (Hw : zwrite (pre ++ junk) (zlen pre) b = Some ((pre ++ b) ++ drop (length b) junk)).
    { pose proof (zlen_nonneg pre). pose proof (zlen_nonneg rest). unfold zwrite.
      rewrite decide_True by (rewrite zlen_app; lia). unfold zlen. rewrite Nat2Z.id.
      rewrite take_app_length, drop_app_add, app_assoc. done. }
    rewrite Hw. rewrite (IH (pre ++ b) rest).
    + by rewrite app_assoc.
    + by rewrite zlen_app.
    + rewrite zlen_drop. pose proof (zlen_nonneg rest). unfold zlen in *. lia.
Qed.

Section mapping.
Context (data_alloc_ok : Z → Z → bool) (malloc_ok : Z → bool).

Lemma flatten_ok own s a o :
  inv own s → objects s !! a = Some o → malloc_ok (size o) = true →
  _dispatch_data_flatten malloc_ok s a = Some (Some (object_bytes (objects s) o)).
Proof.
  intros I Ho Hm. unfold _dispatch_data_flatten. rewrite Ho. cbn [mbind option_bind]. rewrite Hm.
  cbn [negb]. destruct (apply_ok own s a o I Ho) as (regions & Hc & E). rewrite E.
  cbn [mbind option_bind]. pose proof (bytes_len own s a o I Ho) as Hl.
  change (Some (replicate (Z.to_nat (size o)) 0)) with (Some ([] ++ replicate (Z.to_nat (size o)) 0)).
  rewrite (copy_regions regions [] (object_bytes (objects s) o)).
  - done.
  - exact Hc.
  - rewrite zlen_replicate. pose proof (zlen_nonneg (object_bytes (objects s) o)). lia.
Qed.

(** A new leaf. *)
Lemma new_leaf own s n b sz d :
  inv own s → data_alloc_ok 0 n = true → zlen b = sz → 0 < sz < 2 ^ 64 →
  ∃ s', _dispatch_data_alloc data_alloc_ok s 0 n (leaf_object b sz d) = Some (next s, s') ∧
    created own s (next s) s' b.
Proof.
  intros I Hok Hb Hs. unfold _dispatch_data_alloc. rewrite Hok. eexists. split; [done|].
  destruct (inv_new own s {| objects := <[next s := with_refs (leaf_object b sz d) 1]> (objects s);
    next := next s + 1; _events := _events s |} (leaf_object b sz d)) as (I' & Eb & Hf); try done.
  - split; [done|]. exists b. by subst sz.
  - intros x. cbn. case_decide as E.
    + subst x. by rewrite lookup_insert_eq.
    + rewrite lookup_insert_ne by done. destruct (objects s !! x); cbn; [|done].
      by rewrite with_refs_id by lia.
Qed.

(** [dispatch_data_create] *)
Lemma create_ok own s b sz d :
  inv own s → 0 < sz < 2 ^ 64 → sz ≤ zlen b → malloc_ok sz = true →
  data_alloc_ok 0 0 = true → data_alloc_ok 0 sz = true →
  ∃ a s', dispatch_data_create data_alloc_ok malloc_ok s (Some b) sz d = Some (Some a, s') ∧
    created own s a s' (take (Z.to_nat sz) b).
Proof.
  intros I Hs Hle Hm Hok Hok'. unfold dispatch_data_create.
  destruct (Z.eqb_spec sz 0); [lia|]. rewrite zsub_prefix by lia. cbn [mbind option_bind].
  assert (Hl : zlen (take (Z.to_nat sz) b) = sz) by (rewrite zlen_take; lia).
  rewrite Hm. cbn [negb].
  destruct d; edestruct (new_leaf own s) as (s' & E & Hc); [exact I| |exact Hl|exact Hs| ..];
    try (rewrite E; eexists _, _; split; [reflexivity|exact Hc]); done.
Qed.

Lemma nonempty_not_empty own s a o :
  inv own s → objects s !! a = Some o → size o ≠ 0 → a ≠ dispatch_data_empty.
Proof. intros I Ho Hs ->. rewrite (inv_empty _ _ I) in Ho. by injection Ho as <-. Qed.

(** [dispatch_data_create_map]: the mapped buffer holds the bytes of the object. *)
Theorem create_map_refines own s a o :
  inv own s → objects s !! a = Some o → malloc_ok (size o) = true →
  data_alloc_ok 0 0 = true → data_alloc_ok 0 (size o) = true →
  ∃ d b s', dispatch_data_create_map data_alloc_ok malloc_ok s a = Some (Some d, b, size o, s') ∧
    default [] b = object_bytes (objects s) o ∧
    created own s d s' (object_bytes (objects s) o).
Proof.
  intros I Ho Hm H1 H2. pose proof (bytes_len own s a o I Ho) as Hlen.
  unfold dispatch_data_create_map. rewrite Ho. cbn [mbind option_bind].
  destruct (Z.eqb_spec (size o) 0) as [Ez|Ez].
  { rewrite Ez in *. unfold zlen in Hlen. destruct (object_bytes _ _); [|cbn in Hlen; lia].
    exists dispatch_data_empty, None, s. split_and!; [done..|]. by apply created_empty. }
  pose proof (nonempty_not_empty _ _ _ _ I Ho Ez) as Ha.
  destruct (inv_obj _ _ I a o Ho Ha) as [Hs _].
  destruct (map_direct_ok own s a o I Ho Ha) as [(b & dd & off & E & Hle & Hb)|(E & El & Eb)].
  - rewrite E. cbn [mbind option_bind]. rewrite zsub_prefix by lia. cbn [mbind option_bind].
    destruct (retain_created own s a o I Ho) as (s' & -> & Hc). cbn [mbind option_bind].
    eexists a, _, s'. by split_and!.
  - rewrite E. cbn [mbind option_bind]. rewrite (flatten_ok own s a o I Ho Hm). cbn [mbind option_bind].
    destruct (create_ok own s (object_bytes (objects s) o) (size o) DESTRUCTOR_FREE)
      as (d & s' & -> & Hc); [done..|lia|done|done|done|].
    cbn [mbind option_bind]. eexists d, _, s'. split_and!; [done..|].
    rewrite take_ge in Hc by (unfold zlen in Hlen; lia). done.
Qed.

(** Storing the flat copy of an unflattened composite. *)
Lemma put_flat own s a o :
  inv own s → objects s !! a = Some o → a ≠ dispatch_data_empty →
  _dispatch_data_leaf o = false → zlen (records o) ≠ 1 →
  let s' := put s a (with_buf o (Some (object_bytes (objects s) o))) in
  inv own s' ∧ ∀ x, bytes s' x = bytes s x.
Proof.
  intros I Ho Ha El Hn s'. set (n := with_buf o _) in s'.
  assert (Hleaf : ∀ x, same_leaf (objects s) (objects s') x).
  { intros x o1 Ho1 Hr. exists o1. cbn. rewrite lookup_insert_ne; [done|]. intros <-.
    rewrite Ho in Ho1. injection Ho1 as <-. unfold _dispatch_data_leaf in El.
    by rewrite bool_decide_true in El. }
  assert (Hobj : ∀ x o1, objects s !! x = Some o1 → x ≠ dispatch_data_empty →
    wf_object (objects s') o1 ∧ object_bytes (objects s') o1 = object_bytes (objects s) o1).
  { intros x o1 E Hx. eapply object_mono; [by apply Forall_forall|by apply (inv_obj _ _ I x)|done..]. }
  destruct (Hobj a o Ho Ha) as [Hwo Ebo].
  assert (Hn' : wf_object (objects s') n ∧ object_bytes (objects s') n = object_bytes (objects s) o).
  { unfold wf_object, object_bytes in *. change (_dispatch_data_leaf n) with (_dispatch_data_leaf o).
    rewrite El in *. destruct Hwo as (Hsz & Hw & Ht & _). split; [|done]. split; [done|].
    split_and!; [done..|]. cbn. intros b [= <-]. split; [done|]. unfold object_bytes. by rewrite El. }
  assert (Hlk : ∀ x o1, objects s' !! x = Some o1 →
    (x = a ∧ o1 = n) ∨ (x ≠ a ∧ objects s !! x = Some o1)).
  { intros x o1. cbn. rewrite lookup_insert_Some. intros [[? ?]|[? ?]]; [left|right]; by split. }
  assert (Hinc : ∀ x, incoming (objects s') x = incoming (objects s) x).
  { intros x. apply incoming_ext. intros y. cbn. destruct (decide (y = a)) as [->|Hy].
    - by rewrite lookup_insert_eq, Ho.
    - by rewrite lookup_insert_ne. }
  split; [split|].
  - cbn. rewrite lookup_insert_ne by done. apply (inv_empty _ _ I).
  - intros x o1 [[-> ->]|[_ E]]%Hlk; [by apply (inv_dom _ _ I a o)|by apply (inv_dom _ _ I x o1)].
  - intros x o1 [[-> ->]|[_ E]]%Hlk Hx; [by apply Hn'|by apply (Hobj x)].
  - intros x o1 E Hx. rewrite Hinc. apply Hlk in E as [[-> ->]|[_ E]]; [|by apply (inv_refs _ _ I)].
    by apply (inv_refs _ _ I a o).
  - apply (inv_own _ _ I).
  - intros x. cbn. intros [E _]%lookup_insert_None. by apply (inv_dead _ _ I).
  - intros x. unfold bytes. destruct (objects s' !! x) as [o1|] eqn:E.
    + apply Hlk in E as [[-> ->]|[_ E]]; [rewrite Ho; cbn; f_equal; by apply Hn'|].
      rewrite E. cbn. f_equal. destruct (decide (x = dispatch_data_empty)) as [->|Hx]; [|by apply (Hobj x)].
      rewrite (inv_empty _ _ I) in E. by injection E as <-.
    + cbn in E. apply lookup_insert_None in E as [E _]. by rewrite E.
Qed.

Lemma map_direct_none own s a o :
  inv own s → objects s !! a = Some o → a ≠ dispatch_data_empty →
  _dispatch_data_map_direct s a 0 = Some (None, a, 0) → zlen (records o) ≠ 1.
Proof.
  intros I Ho Ha E Hn. unfold _dispatch_data_map_direct in E. rewrite Ho in E. cbn [mbind option_bind] in E.
  destruct (inv_obj _ _ I a o Ho Ha) as [_ Hw]. pose proof (zlen_nonneg (records o)).
  unfold _dispatch_data_num_records, _dispatch_data_leaf in *. rewrite Hn in E.
  rewrite bool_decide_false in E, Hw by (intros Hr; rewrite Hr in Hn; done).
  cbn [negb andb Z.eqb Pos.eqb] in E. destruct Hw as [Hw _].
  destruct (records o) as [|r l]; [done|]. apply Forall_cons in Hw as [Hr _].
  change ((r :: l).[0]) with (Some r) in E. cbn [mbind option_bind] in E.
  destruct Hr as (Hr0 & Hf & Hl & ob & b & Hob & Hrb & Hbb & Hle).
  rewrite Hob in E. cbn [mbind option_bind] in E. rewrite Hbb in E. by case_decide.
Qed.

(** [dispatch_data_get_flattened_bytes_4libxpc]: the buffer starts with the
    bytes of the object; keeping it in the object changes no contents. *)
Theorem get_flattened_bytes_refines own s a o :
  inv own s → objects s !! a = Some o → 0 < size o → malloc_ok (size o) = true →
  ∃ b s', dispatch_data_get_flattened_bytes malloc_ok s a = Some (Some b, s') ∧
    take (Z.to_nat (size o)) b = object_bytes (objects s) o ∧
    inv own s' ∧ ∀ x, bytes s' x = bytes s x.
Proof.
  intros I Ho Hs Hm. pose proof (nonempty_not_empty _ _ _ _ I Ho ltac:(lia)) as Ha.
  pose proof (bytes_len own s a o I Ho) as Hlen. unfold zlen in Hlen.
  unfold dispatch_data_get_flattened_bytes. rewrite Ho. cbn [mbind option_bind].
  destruct (Z.eqb_spec (size o) 0); [lia|].
  destruct (map_direct_ok own s a o I Ho Ha) as [(b & dd & off & E & Hle & Hb)|(E & El & Eb)].
  - rewrite E. cbn [mbind option_bind]. exists b, s. by split_and!.
  - rewrite E. cbn [mbind option_bind]. rewrite (flatten_ok own s a o I Ho Hm). cbn [mbind option_bind].
    rewrite Ho. cbn [mbind option_bind]. rewrite Eb. cbn beta iota.
    pose proof (map_direct_none own s a o I Ho Ha E) as Hn.
    destruct (put_flat own s a o I Ho Ha El Hn) as [I' Hb'].
    eexists _, _. split; [done|]. rewrite drop_0. split_and!; [apply take_ge; lia|done..].
Qed.

Lemma region_record_ok m l off loc :
  Forall (wf_record m) l → off ≤ loc < off + total l →
  ∃ l1 r l2, l = l1 ++ r :: l2 ∧ 0 ≤ loc - (off + total l1) < length_ r ∧
    region_record l 0 off loc = Some (r, from r, length_ r, off + total l1).
Proof.
  revert off. induction l as [|r l IH]; intros off Hl Hoff; [cbn in Hoff; lia|].
  apply Forall_cons in Hl as [Hr Hl]. cbn in *. destruct Hr as (_ & Hf & Hlr & _).
  destruct (Z.leb_spec (length_ r) 0); [lia|]. rewrite Z.sub_0_r.
  destruct (Z.leb_spec (off + length_ r) loc).
  - destruct (IH (off + length_ r) Hl) as (l1 & r' & l2 & -> & Hb & ->); [lia|].
    exists (r :: l1), r', l2. cbn. split_and!; [done|lia|lia|]. do 2 f_equal; lia.
  - exists [], r, l. cbn [total app]. rewrite Z.add_0_r. by split_and!; [done|lia..|].
Qed.

(** The region inside a leaf: the leaf, or a trivial subrange of it. *)
Lemma copy_leaf_region own s r loc off f :
  inv own s → wf_record (objects s) r → data_alloc_ok 1 0 = true →
  ∃ d s', _dispatch_data_copy_region data_alloc_ok (S f) s (data_object r) (from r) (length_ r) loc off
          = Some (d, off, s') ∧ created own s d s' (record_bytes (objects s) r).
Proof.
  intros I Hr Hok. pose proof Hr as (Hr0 & Hf & Hl & ob & b & Hob & Hrb & Hbb & Hle).
  destruct (leaf_object_ok own s _ ob I Hob Hr0 Hrb) as (b' & Hb' & Hlb).
  assert (b' = b) as -> by congruence. cbn [_dispatch_data_copy_region]. rewrite Hob.
  cbn [mbind option_bind]. rewrite (map_direct_leaf own s _ ob b) by (done || lia).
  cbn [mbind option_bind]. unfold record_bytes. rewrite Hob. cbn [mbind option_bind]. rewrite Hbb.
  cbn [default from_option]. change (id b) with b.
  destruct (retain_created own s _ ob I Hob) as (s1 & Er & Hc). rewrite Er. cbn [mbind option_bind].
  destruct ((from r =? 0) && (length_ r =? size ob)) eqn:E.
  - zbool. eexists _, s1. split; [done|].
    unfold object_bytes, _dispatch_data_leaf in Hc. rewrite bool_decide_true, Hbb in Hc by done.
    cbn in Hc. replace (from r) with 0 by lia. rewrite drop_0, take_ge; [done|]. unfold zlen in Hlb. lia.
  - rewrite (retain_ok _ _ _ Hob Hr0) in Er. injection Er as <-. cbn. rewrite lookup_insert_eq.
    cbn. rewrite E. unfold _dispatch_data_alloc. rewrite Hok. cbn.
    replace {| data_object := data_object r; from := from r; length_ := length_ r |} with r by by destruct r.
    destruct (composite_wf (objects s) (length_ r) [r]) as [Hw Hb]; [by constructor|done|cbn; lia| |].
    { destruct (inv_obj _ _ I _ ob Hob Hr0) as [? _]. lia. }
    eexists _, _. split; [done|].
    edestruct (inv_new own s) as (I' & Eb & Hfr); [exact I|exact Hw|by constructor|done|..].
    3: { split; [exact I'|]. split; [rewrite Eb, Hb; cbn|split; [done|exact Hfr]].
         unfold record_bytes. by rewrite Hob; cbn; rewrite Hbb; cbn; rewrite app_nil_r. }
    + done.
    + intros x. cbn. case_decide as Ex; [by rewrite Ex, lookup_insert_eq|].
      rewrite lookup_insert_ne by done. destruct (Z.eqb_spec (data_object r) x) as [<-|Hx].
      * rewrite lookup_insert_eq, Hob. done.
      * rewrite lookup_insert_ne by done. destruct (objects s !! x); cbn; [|done].
        by rewrite with_refs_id by lia.
Qed.

(** [dispatch_data_copy_region]: the region contains the location, and its bytes
    are those of the object at the offset returned. *)
Theorem copy_region_refines own s a o loc :
  inv own s → objects s !! a = Some o → 0 ≤ loc < size o → data_alloc_ok 1 0 = true →
  ∃ d off x s', dispatch_data_copy_region data_alloc_ok s a loc = Some (d, off, s') ∧
    created own s d s' x ∧ 0 ≤ off ≤ loc ∧ loc < off + zlen x ∧
    x = take (length x) (drop (Z.to_nat off) (object_bytes (objects s) o)).
Proof.
  intros I Ho Hloc Hok. pose proof (nonempty_not_empty _ _ _ _ I Ho ltac:(lia)) as Ha.
  pose proof (bytes_len own s a o I Ho) as Hlen.
  unfold dispatch_data_copy_region. rewrite Ho. cbn [mbind option_bind].
  destruct (Z.leb_spec (size o) loc); [lia|].
  remember 1%nat as f eqn:Hf. cbn [_dispatch_data_copy_region]. rewrite Ho.
  cbn [mbind option_bind]. rewrite !Z.eqb_refl. cbn [andb].
  destruct (map_direct_ok own s a o I Ho Ha) as [(b & dd & off & E & Hle & Hb)|(E & El & Eb)].
  - rewrite E. cbn [mbind option_bind]. destruct (retain_created own s a o I Ho) as (s' & -> & Hc).
    exists a, 0, (object_bytes (objects s) o), s'. split; [done|]. split; [exact Hc|].
    split_and!; [lia..|]. by rewrite drop_0, firstn_all.
  - rewrite E. cbn [mbind option_bind].
    destruct (inv_obj _ _ I a o Ho Ha) as [_ Hw]. rewrite El in Hw. destruct Hw as (Hw & Ht & _).
    destruct (region_record_ok _ (records o) 0 loc Hw) as (l1 & r & l2 & Er & Hbd & Hreg); [lia|].
    rewrite Hreg. cbn [mbind option_bind]. rewrite Z.add_0_l in *. rewrite Er in Hw.
    pose proof Hw as [H1 [Hr _]%Forall_cons]%Forall_app. subst f.
    destruct (copy_leaf_region own s r (loc - total l1) (total l1) 0 I Hr Hok) as (d & s' & Ed & Hc).
    exists d, (total l1), (record_bytes (objects s) r), s'. split; [done|]. split; [done|].
    pose proof (record_bytes_len _ r Hr) as Hlr. pose proof (total_nonneg _ _ H1).
    split_and!; [lia..|]. unfold object_bytes. rewrite El, Er.
    pose proof (single_bytes _ l1 r l2 0 (length_ r) Hw) as Hsb. rewrite Z.add_0_r, drop_0 in Hsb.
    unfold zlen in Hlr. rewrite <- Hlr, !Nat2Z.id, firstn_all in Hsb. symmetry. apply Hsb; lia.
Qed.
End mapping.

(** ** Witnesses: two leaves and their concatenation, one reference held to each. *)

Definition demo_composite : data_s :=
  {| buf := None; destruct_ := DESTRUCTOR_NONE; size := 5; refs := 1;
     records := [{| data_object := 1; from := 0; length_ := 3 |};
                 {| data_object := 2; from := 0; length_ := 2 |}] |}.
Definition demo_leaf (d : destructor) (b : list Z) : data_s :=
  {| buf := Some b; destruct_ := d; size := zlen b; records := []; refs := 2 |}.
Definition demo : store :=
  {| objects := <[3 := demo_composite]> (<[2 := demo_leaf (DESTRUCTOR_BLOCK 7) [100; 101]]>
       (<[1 := demo_leaf DESTRUCTOR_FREE [97; 98; 99]]> {[0 := empty_object]}));
     next := 4; _events := [] |}.
Definition demo_own (a : Z) : Z := if (1 <=? a) && (a <=? 3) then 1 else 0.

Lemma demo_lookup a o : objects demo !! a = Some o →
  (a = 3 ∧ o = demo_composite) ∨ (a = 2 ∧ o = demo_leaf (DESTRUCTOR_BLOCK 7) [100; 101]) ∨
  (a = 1 ∧ o = demo_leaf DESTRUCTOR_FREE [97; 98; 99]) ∨ (a = 0 ∧ o = empty_object).
Proof.
  cbn. rewrite !lookup_insert_Some, lookup_singleton_Some. intuition congruence.
Qed.

Lemma demo_inv : inv demo_own demo.
Proof.
  assert (Hl : ∀ a d b, objects demo !! a = Some (demo_leaf d b) → a ≠ 0 →
    zlen b = 3 ∨ zlen b = 2 → wf_record (objects demo) {| data_object := a; from := 0; length_ := zlen b |}).
  { intros a d b H H0 Hb. split_and!; cbn; [done|lia|lia|]. by exists (demo_leaf d b), b. }
  split.
  - done.
  - intros a o [[-> _]|[[-> _]|[[-> _]|[-> _]]]]%demo_lookup; cbn; lia.
  - intros a o [[-> ->]|[[-> ->]|[[-> ->]|[-> ->]]]]%demo_lookup Ha;
      [| | |done]; (split; [by_decide|]).
    + split_and!; [|done|done]. constructor; [|constructor; [|done]].
      * exact (Hl 1 DESTRUCTOR_FREE [97; 98; 99] eq_refl ltac:(done) (or_introl eq_refl)).
      * exact (Hl 2 (DESTRUCTOR_BLOCK 7) [100; 101] eq_refl ltac:(done) (or_intror eq_refl)).
    + by exists [100; 101].
    + by exists [97; 98; 99].
  - intros a o [[-> ->]|[[-> ->]|[[-> ->]|[-> ->]]]]%demo_lookup Ha; by vm_compute.
  - intros a. unfold demo_own. by destruct (_ && _).
  - intros a H. unfold demo_own. destruct ((1 <=? a) && (a <=? 3)) eqn:E; [|done]. zbool.
    assert (a = 1 ∨ a = 2 ∨ a = 3) as [-> | [-> | ->]] by lia; by vm_compute in H.
Qed.

Lemma concat_refines_witness :
  ∃ d s', dispatch_data_create_concat (λ _ _, true) demo 3 2 = Some (d, s') ∧
    created demo_own demo d s' [97; 98; 99; 100; 101; 100; 101].
Proof.
  exact (concat_refines (λ _ _, true) demo_own demo 3 2 demo_composite
    (demo_leaf (DESTRUCTOR_BLOCK 7) [100; 101]) demo_inv eq_refl eq_refl eq_refl eq_refl).
Defined.

Lemma subrange_refines_witness :
  ∃ d s', dispatch_data_create_subrange (λ _ _, true) 2 demo 3 1 3 = Some (d, s') ∧
    created demo_own demo d s' [98; 99; 100].
Proof.
  exact (subrange_refines (λ _ _, true) demo_own demo 3 demo_composite 1 3 demo_inv eq_refl
    ltac:(lia) ltac:(lia) (λ _ _, eq_refl)).
Defined.

Lemma release_refines_witness :
  ∃ s', _dispatch_data_release 2 demo 3 = Some s' ∧ inv (lose demo_own 3) s' ∧ released demo s'.
Proof. apply (release_refines demo_own demo 3 demo_inv); [done|reflexivity]. Defined.

Lemma create_map_refines_witness :
  ∃ d b s', dispatch_data_create_map (λ _ _, true) (λ _, true) demo 3 = Some (Some d, b, 5, s') ∧
    default [] b = [97; 98; 99; 100; 101] ∧ created demo_own demo d s' [97; 98; 99; 100; 101].
Proof.
  exact (create_map_refines (λ _ _, true) (λ _, true) demo_own demo 3 demo_composite demo_inv
    eq_refl eq_refl eq_refl eq_refl).
Defined.

Lemma get_flattened_bytes_refines_witness :
  ∃ b s', dispatch_data_get_flattened_bytes (λ _, true) demo 3 = Some (Some b, s') ∧
    take 5 b = [97; 98; 99; 100; 101] ∧ inv demo_own s' ∧ ∀ x, bytes s' x = bytes demo x.
Proof.
  exact (get_flattened_bytes_refines (λ _, true) demo_own demo 3 demo_composite demo_inv
    eq_refl eq_refl eq_refl).
Defined.

Lemma copy_region_refines_witness :
  ∃ d off x s', dispatch_data_copy_region (λ _ _, true) demo 3 4 = Some (d, off, s') ∧
    created demo_own demo d s' x ∧ 0 ≤ off ≤ 4 ∧ 4 < off + zlen x ∧
    x = take (length x) (drop (Z.to_nat off) [97; 98; 99; 100; 101]).
Proof.
  exact (copy_region_refines (λ _ _, true) demo_own demo 3 demo_composite 4 demo_inv
    eq_refl ltac:(cbn; lia) eq_refl).
Defined.
