(* ===== verification/TransformBase.v ===== *)
(** * Base 32 and base 64 transforms (libdispatch src/transform.c)

    A data object is represented by its regions, as [dispatch_data_apply] hands
    them out (DispatchData.v shows that every object has such a list, and that
    creation, concatenation and subranges act on the bytes as used here).  A
    transform runs a block on each region; the block returns false to stop.
    [None] is a memory error of the C code; [Some None] its [NULL]. *)
From Stdlib Require Import Ascii String List.
From S2P Require Import Prelude DispatchData.
From stdpp Require Import gmap.
Open Scope Z_scope.
Open Scope list_scope.

(** Bytes of a string constant. *)
Definition ascii_bytes (s : String.string) : list Z :=
  map (λ c, Z.of_N (Ascii.N_of_ascii c)) (String.list_ascii_of_string s).

Definition byte_newline : Z := 10.
Definition byte_tab : Z := 9.
Definition byte_space : Z := 32.
Definition byte_equals : Z := 61.

(** The tables. *)
Definition base32_encode_table : list Z := ascii_bytes "ABCDEFGHIJKLMNOPQRSTUVWXYZ234567"%string.

Definition base32_decode_table : list Z := [
  -1; -1; -1; -1; -1; -1; -1; -1; -1; -1; -1; -1; -1; -1; -1; -1; -1;
  -1; -1; -1; -1; -1; -1; -1; -1; -1; -1; -1; -1; -1; -1; -1; -1; -1;
  -1; -1; -1; -1; -1; -1; -1; -1; -1; -1; -1; -1; -1; -1; -1; -1; 26;
  27; 28; 29; 30; 31; -1; -1; -1; -1; -1; -2; -1; -1; -1;  0;  1;  2;
   3;  4;  5;  6;  7;  8;  9; 10; 11; 12; 13; 14; 15; 16; 17; 18; 19;
  20; 21; 22; 23; 24; 25].
Definition base32_decode_table_size : Z := zlen base32_decode_table.

Definition base32hex_encode_table : list Z := ascii_bytes "0123456789ABCDEFGHIJKLMNOPQRSTUV"%string.

Definition base32hex_decode_table : list Z := [
  -1; -1; -1; -1; -1; -1; -1; -1; -1; -1; -1; -1; -1; -1; -1; -1; -1;
  -1; -1; -1; -1; -1; -1; -1; -1; -1; -1; -1; -1; -1; -1; -1; -1; -1;
  -1; -1; -1; -1; -1; -1; -1; -1; -1; -1; -1; -1; -1; -1;  0;  1;  2;
   3;  4;  5;  6;  7;  8;  9; -1; -1; -1; -2; -1; -1; -1; 10; 11; 12;
  13; 14; 15; 16; 17; 18; 19; 20; 21; 22; 23; 24; 25; 26; 27; 28; 29;
  30; 31].
(** The source takes the size of the encode table, whose string has a NUL. *)
Definition base32hex_decode_table_size : Z := zlen base32hex_encode_table + 1.

Definition base64_encode_table : list Z :=
  ascii_bytes "ABCDEFGHIJKLMNOPQRSTUVWXYZabcdefghijklmnopqrstuvwxyz0123456789+/"%string.

Definition base64_decode_table : list Z := [
  -1;  -1;  -1;  -1;  -1;  -1;  -1;  -1;  -1;  -1;  -1;  -1;  -1;  -1;
  -1;  -1;  -1;  -1;  -1;  -1;  -1;  -1;  -1;  -1;  -1;  -1;  -1;  -1;
  -1;  -1;  -1;  -1;  -1;  -1;  -1;  -1;  -1;  -1;  -1;  -1;  -1;  -1;
  -1;  62;  -1;  -1;  -1;  63;  52;  53;  54;  55;  56;  57;  58;  59;
  60;  61;  -1;  -1;  -1;  -2;  -1;  -1;  -1;   0;   1;   2;   3;   4;
   5;   6;   7;   8;   9;  10;  11;  12;  13;  14;  15;  16;  17;  18;
  19;  20;  21;  22;  23;  24;  25;  -1;  -1;  -1;  -1;  -1;  -1;  26;
  27;  28;  29;  30;  31;  32;  33;  34;  35;  36;  37;  38;  39;  40;
  41;  42;  43;  44;  45;  46;  47;  48;  49;  50;  51].
Definition base64_decode_table_size : Z := zlen base64_decode_table.

(** [howmany(x, y)] *)
Definition howmany (x y : Z) : Z := (x + (y - 1)) / y.

Definition data := list (list Z).

Definition dispatch_data_of (b : list Z) : data := if zlen b =? 0 then [] else [b].

(** [dispatch_data_create(dest, size, NULL, FREE)] of a buffer written with
    [b]: the size must not exceed what was written. *)
Definition create_from (b : list Z) (size : Z) : option data :=
  if size =? 0 then Some [] else b ← zsub b 0 size; Some (dispatch_data_of b).

(** [_dispatch_data_subrange_map]: the bytes, when all [size] of them exist. *)
Definition _dispatch_data_subrange_map (d : data) (offset size : Z) : option (list Z) :=
  let sub := take (Z.to_nat size) (drop (Z.to_nat offset) (concat d)) in
  if zlen sub =? size then Some sub else None.

(** [dispatch_data_apply] of a block that keeps a state; [None] is a crash. *)
Fixpoint apply_regions {S} (block : Z → list Z → S → option (bool * S))
    (offset : Z) (d : data) (st : S) : option (bool * S) :=
  match d with
  | [] => Some (true, st)
  | region :: d =>
      '(ok, st) ← block offset region st;
      if (ok : bool) then apply_regions block (offset + zlen region) d st else Some (false, st)
  end.

(** The value pushed through [*ptr++ = table[...]]; an index outside the table
    is a memory error. *)
Definition push (table : list Z) (index : Z) (out : list Z) : option (list Z) :=
  c ← table.[index]; Some (out ++ [c]).

Section transforms.
Context (malloc_ok : Z → bool).

(** ** Decoding *)

Record decode_state := { x : Z; count : Z; pad : Z; rv : data }.

(** The loop over the bytes of one region; [Some None] is [return false].
    Every [group] characters of [bits] bits give [outn] bytes. *)
Section decoding.
Context (table : list Z) (table_size bits group outn : Z) (trim : Z → Z → Z).

(** [*ptr++ = (x >> 8 * k) & 0xff] for each [k] downwards. *)
Fixpoint emit (n : nat) (x : Z) : list Z :=
  match n with
  | O => []
  | S n => Z.land (Z.shiftr x (8 * Z.of_nat n)) 255 :: emit n x
  end.

Fixpoint decode_bytes (bytes : list Z) (x count pad : Z) (dest : list Z)
    : option (option (Z * Z * Z * list Z)) :=
  match bytes with
  | [] => Some (Some (x, count, pad, dest))
  | b :: bytes =>
      if (b =? byte_newline) || (b =? byte_tab) || (b =? byte_space)
      then decode_bytes bytes x count pad dest
      else if table_size <=? b then Some None
      else
        value ← table.[b];
        if value =? -1 then Some None else
        let count := u64 (count + 1) in
        let '(value, pad) := if value =? -2 then (0, u64 (pad + 1)) else (value, pad) in
        let x := u64 (u64 (Z.shiftl x bits) + value) in
        let dest := if Z.land count (group - 1) =? 0 then dest ++ emit (Z.to_nat outn) x else dest in
        decode_bytes bytes x count pad dest
  end.

Definition decode_region (offset : Z) (bytes : list Z) (st : decode_state)
    : option (bool * decode_state) :=
  let dest_size := howmany (zlen bytes) group * outn in
  if negb (malloc_ok dest_size) then Some (false, st) else
  r ← decode_bytes bytes (x st) (count st) (pad st) [];
  match r with
  | None => Some (false, st)
  | Some (x', count', pad', dest) =>
      if dest_size <? zlen dest then None else
      let final := u64 (trim pad' (zlen dest)) in
      val ← create_from dest final;
      Some (true, {| x := x'; count := count'; pad := pad'; rv := rv st ++ val |})
  end.

Definition decode_data (d : data) : option (option data) :=
  '(success, st) ← apply_regions decode_region 0 d {| x := 0; count := 0; pad := 0; rv := [] |};
  Some (if (success : bool) then Some (rv st) else None).
End decoding.

(** [switch (pad)] of base 32. *)
Definition trim32 (pad final : Z) : Z :=
  if pad =? 1 then final - 1 else if pad =? 3 then final - 2
  else if pad =? 4 then final - 3 else if pad =? 6 then final - 4 else final.

Definition _dispatch_transform_from_base32_with_table (d : data) (table : list Z) (table_size : Z)
    : option (option data) :=
  decode_data table table_size 5 8 5 trim32 d.

Definition trim64 (pad final : Z) : Z := if 0 <? pad then final - pad else final.

Definition _dispatch_transform_from_base64 (d : data) : option (option data) :=
  decode_data base64_decode_table base64_decode_table_size 6 4 3 trim64 d.

Definition _dispatch_transform_from_base32 (d : data) : option (option data) :=
  _dispatch_transform_from_base32_with_table d base32_decode_table base32_decode_table_size.
Definition _dispatch_transform_from_base32hex (d : data) : option (option data) :=
  _dispatch_transform_from_base32_with_table d base32hex_decode_table base32hex_decode_table_size.

(** ** Encoding *)

(** The byte before the current one: from this region ([prev]), or from the
    region before it; 0 at the start of a group.  [None] is [return false]. *)
Definition last_byte (d : data) (offset : Z) (modulus count : Z) (prev : option Z) : option Z :=
  if negb (count mod modulus =? 0) then
    match prev with
    | None => p ← _dispatch_data_subrange_map d (offset - 1) 1; p.[0]
    | Some b => Some b
    end
  else Some 0.

Section encoding.
(** [modulus] bytes per group; [step] writes what a byte completes, [final]
    the rest of the last byte and the padding. *)
Context (modulus : Z) (step : Z → Z → Z → list Z → option (list Z))
  (final : Z → Z → list Z → option (list Z)).

Fixpoint encode_bytes (d : data) (offset : Z) (bytes : list Z) (prev : option Z)
    (count : Z) (dest : list Z) : option (option (Z * list Z)) :=
  match bytes with
  | [] => Some (Some (count, dest))
  | curr :: bytes =>
      match last_byte d offset modulus count prev with
      | None => Some None
      | Some last =>
          dest ← step (count mod modulus) last curr dest;
          encode_bytes d offset bytes (Some curr) (u64 (count + 1)) dest
      end
  end.

Definition encode_region (d : data) (total offset : Z) (bytes : list Z) (st : Z * list Z)
    : option (bool * (Z * list Z)) :=
  r ← encode_bytes d offset bytes None (fst st) (snd st);
  match r with
  | None => Some (false, st)
  | Some (count, dest) =>
      if offset + zlen bytes =? total then
        b ← bytes.[zlen bytes - 1];
        dest ← final (count mod modulus) b dest;
        Some (true, (count, dest))
      else Some (true, (count, dest))
  end.

(** [group] characters per group.  The whole buffer must have been written. *)
Definition encode_data (group : Z) (d : data) : option (option data) :=
  let total := zlen (concat d) in
  let dest_size := howmany total modulus in
  if (2 ^ 64 - 1) / group <? dest_size then Some None else
  let dest_size := dest_size * group in
  if negb (malloc_ok dest_size) then Some None else
  '(success, (_, dest)) ← apply_regions (encode_region d total) 0 d (0, []);
  if negb success then Some None else
  if zlen dest =? dest_size then Some (Some (dispatch_data_of dest)) else None.
End encoding.

Definition step64 (phase last curr : Z) (dest : list Z) : option (list Z) :=
  let table := base64_encode_table in
  if phase =? 0 then push table (Z.land (Z.shiftr curr 2) 63) dest
  else if phase =? 1 then
    push table (Z.land (Z.lor (Z.shiftl last 4) (Z.shiftr curr 4)) 63) dest
  else
    dest ← push table (Z.land (Z.lor (Z.shiftl last 2) (Z.shiftr curr 6)) 63) dest;
    push table (Z.land curr 63) dest.

Definition final64 (phase b : Z) (dest : list Z) : option (list Z) :=
  let table := base64_encode_table in
  if phase =? 1 then
    dest ← push table (Z.land (Z.shiftl b 4) 48) dest;
    Some (dest ++ [byte_equals; byte_equals])
  else if phase =? 2 then
    dest ← push table (Z.land (Z.shiftl b 2) 60) dest;
    Some (dest ++ [byte_equals])
  else Some dest.

Definition _dispatch_transform_to_base64 (d : data) : option (option data) :=
  encode_data 3 step64 final64 4 d.

Definition step32 (table : list Z) (phase last curr : Z) (dest : list Z) : option (list Z) :=
  if phase =? 0 then push table (Z.land (Z.shiftr curr 3) 31) dest
  else if phase =? 1 then
    dest ← push table (Z.land (Z.lor (Z.shiftl last 2) (Z.shiftr curr 6)) 31) dest;
    push table (Z.land (Z.shiftr curr 1) 31) dest
  else if phase =? 2 then
    push table (Z.land (Z.lor (Z.shiftl last 4) (Z.shiftr curr 4)) 31) dest
  else if phase =? 3 then
    dest ← push table (Z.land (Z.lor (Z.shiftl last 1) (Z.shiftr curr 7)) 31) dest;
    push table (Z.land (Z.shiftr curr 2) 31) dest
  else
    dest ← push table (Z.land (Z.lor (Z.shiftl last 3) (Z.shiftr curr 5)) 31) dest;
    push table (Z.land curr 31) dest.

Definition final32 (table : list Z) (phase b : Z) (dest : list Z) : option (list Z) :=
  dest ←
    (if phase =? 1 then push table (Z.land (Z.shiftl b 2) 28) dest
     else if phase =? 2 then push table (Z.land (Z.shiftl b 4) 16) dest
     else if phase =? 3 then push table (Z.land (Z.shiftl b 1) 30) dest
     else if phase =? 4 then push table (Z.land (Z.shiftl b 3) 24) dest
     else Some dest);
  let dest := if phase =? 1 then dest ++ [byte_equals; byte_equals] else dest in
  let dest := if (phase =? 1) || (phase =? 2) then dest ++ [byte_equals] else dest in
  let dest := if (phase =? 1) || (phase =? 2) || (phase =? 3) then dest ++ [byte_equals; byte_equals] else dest in
  let dest := if negb (phase =? 0) then dest ++ [byte_equals] else dest in
  Some dest.

Definition _dispatch_transform_to_base32_with_table (d : data) (table : list Z) : option (option data) :=
  encode_data 5 (step32 table) (final32 table) 8 d.
Definition _dispatch_transform_to_base32 (d : data) : option (option data) :=
  _dispatch_transform_to_base32_with_table d base32_encode_table.
Definition _dispatch_transform_to_base32hex (d : data) : option (option data) :=
  _dispatch_transform_to_base32_with_table d base32hex_encode_table.
End transforms.

(** ** Reference encoding (RFC 4648): a group of bytes is a big-endian number,
    written in base [2 ^ bits]. *)

Definition be_num (bits : Z) (l : list Z) : Z := fold_left (λ n v, n * 2 ^ bits + v) l 0.

Fixpoint digits (bits : Z) (n : nat) (x : Z) : list Z :=
  match n with
  | O => []
  | S n => (x / 2 ^ (bits * Z.of_nat n)) mod 2 ^ bits :: digits bits n x
  end.

Definition char (table : list Z) (v : Z) : Z := default 0 table.[v].

Definition group_chars (table : list Z) (bits : Z) (group outn : nat) (block : list Z) : list Z :=
  let n := be_num 8 (block ++ replicate (outn - length block) 0) in
  let used := Z.to_nat (howmany (8 * zlen block) bits) in
  map (char table) (take used (digits bits group n)) ++ replicate (group - used) byte_equals.

Fixpoint encode64 (x : list Z) : list Z :=
  match x with
  | a :: b :: c :: x => group_chars base64_encode_table 6 4 3 [a; b; c] ++ encode64 x
  | [] => []
  | x => group_chars base64_encode_table 6 4 3 x
  end.

Fixpoint encode32 (table : list Z) (x : list Z) : list Z :=
  match x with
  | a :: b :: c :: d :: e :: x => group_chars table 5 8 5 [a; b; c; d; e] ++ encode32 table x
  | [] => []
  | x => group_chars table 5 8 5 x
  end.

(** ** Numbers and digits *)

Lemma fold_num bits l n :
  0 ≤ bits → fold_left (λ n v, n * 2 ^ bits + v) l n = n * 2 ^ (bits * zlen l) + be_num bits l.
Proof.
  intros Hb. unfold be_num. revert n. induction l as [|v l IH]; intros n; cbn [fold_left].
  - change (zlen []) with 0. rewrite Z.mul_0_r. lia.
  - rewrite IH, (IH (0 * _ + v)), zlen_cons. pose proof (zlen_nonneg l).
    rewrite Z.mul_add_distr_l, Z.mul_1_r, Z.pow_add_r by nia. lia.
Qed.

Lemma be_num_cons bits v l :
  0 ≤ bits → be_num bits (v :: l) = v * 2 ^ (bits * zlen l) + be_num bits l.
Proof. intros. unfold be_num at 1. cbn [fold_left]. by rewrite fold_num. Qed.

Lemma be_num_bound bits l :
  0 ≤ bits → Forall (λ v, 0 ≤ v < 2 ^ bits) l → 0 ≤ be_num bits l < 2 ^ (bits * zlen l).
Proof.
  intros Hb. induction 1 as [|v l Hv Hl IH].
  - change (zlen []) with 0. rewrite Z.mul_0_r. done.
  - rewrite be_num_cons, zlen_cons by done. pose proof (zlen_nonneg l).
    rewrite Z.mul_add_distr_l, Z.mul_1_r, Z.pow_add_r by nia. nia.
Qed.

Lemma digits_length bits n x : length (digits bits n x) = n.
Proof. induction n; cbn; congruence. Qed.

Lemma digits_range bits n x : 0 ≤ bits → Forall (λ v, 0 ≤ v < 2 ^ bits) (digits bits n x).
Proof.
  intros Hb. induction n; cbn; constructor; [|done]. apply Z.mod_pos_bound.
  pose proof (Z.pow_pos_nonneg 2 bits). lia.
Qed.

Lemma digits_mod bits n m x :
  0 ≤ bits → (n ≤ m)%nat → digits bits n (x mod 2 ^ (bits * Z.of_nat m)) = digits bits n x.
Proof.
  intros Hb. revert m. induction n as [|n IH]; intros m Hm; cbn [digits]; [done|].
  f_equal; [|apply IH; lia].
  rewrite <- !Z.shiftr_div_pow2, <- !Z.land_ones by lia.
  apply Z.bits_inj'. intros k Hk. rewrite !Z.land_spec, !Z.shiftr_spec by lia.
  destruct (decide (k < bits)) as [Hlt|Hge].
  - rewrite Z.land_spec, Z.ones_spec_low by nia. by rewrite andb_true_r.
  - rewrite (Z.ones_spec_high bits) by lia. by rewrite !andb_false_r.
Qed.

Lemma be_num_digits bits n x :
  0 ≤ bits → be_num bits (digits bits n x) = x mod 2 ^ (bits * Z.of_nat n).
Proof.
  intros Hb. induction n as [|n IH]; cbn [digits].
  - rewrite Z.mul_0_r. symmetry. apply Z.mod_1_r.
  - rewrite be_num_cons, IH by done. unfold zlen. rewrite digits_length.
    set (w := 2 ^ (bits * Z.of_nat n)). replace (2 ^ (bits * Z.of_nat (S n))) with (w * 2 ^ bits).
    + rewrite (Z.rem_mul_r x w (2 ^ bits)) by (unfold w; pose proof (Z.pow_pos_nonneg 2 bits);
        pose proof (Z.pow_pos_nonneg 2 (bits * Z.of_nat n)); lia). lia.
    + unfold w. rewrite <- Z.pow_add_r by lia. f_equal. lia.
Qed.

Lemma digits_be_num bits l :
  0 ≤ bits → Forall (λ v, 0 ≤ v < 2 ^ bits) l → digits bits (length l) (be_num bits l) = l.
Proof.
  intros Hb. induction 1 as [|v l Hv Hl IH]; cbn [digits length]; [done|].
  pose proof (be_num_bound bits l Hb Hl) as Hn. rewrite be_num_cons by done.
  change (bits * Z.of_nat (length l)) with (bits * zlen l). f_equal.
  - rewrite Z.div_add_l, Z.div_small, Z.add_0_r by lia. by apply Z.mod_small.
  - rewrite <- (digits_mod bits (length l) (length l)) by done.
    change (bits * Z.of_nat (length l)) with (bits * zlen l).
    rewrite (Z.add_comm (v * _)), Z.mod_add, Z.mod_small by lia. done.
Qed.

Lemma map_replicate {A B} (f : A → B) n x : map f (replicate n x) = replicate n (f x).
Proof. induction n; cbn; congruence. Qed.

Lemma emit_digits n x : emit n x = digits 8 n x.
Proof.
  induction n as [|n IH]; cbn [emit digits]; [done|]. f_equal; [|done].
  rewrite Z.shiftr_div_pow2 by lia. by rewrite (Z.land_ones _ 8) by lia.
Qed.

(** The low digits of a multiple of a power of two are 0. *)
Lemma digits_zero bits n k x :
  0 ≤ bits → (k ≤ n)%nat → x mod 2 ^ (bits * Z.of_nat k) = 0 →
  drop (n - k) (digits bits n x) = replicate k 0.
Proof.
  intros Hb Hk Hx. assert (E : digits bits k x = replicate k 0).
  { rewrite <- (digits_mod bits k k), Hx by done. clear -Hb. induction k as [|k IH]; cbn; [done|].
    rewrite IH, Z.div_0_l by (apply Z.pow_nonzero; lia).
    by rewrite Z.mod_0_l by (apply Z.pow_nonzero; lia). }
  rewrite <- E. clear E Hx. induction n as [|n IH]; [by destruct k; [|lia]|].
  destruct (decide (k = S n)) as [->|]; [by rewrite Nat.sub_diag|].
  replace (S n - k)%nat with (S (n - k)) by lia. cbn. apply IH. lia.
Qed.

(** ** Decoding inverts the reference encoding *)

Section decoding_ok.
Context (table : list Z) (table_size : Z) (enc : list Z) (bits : Z) (group outn : nat)
  (trim : Z → Z → Z).

(** A character that stands for the value [v]; [p] is 1 for padding. *)
Definition symbol (b v p : Z) : Prop :=
  (b =? byte_newline) || (b =? byte_tab) || (b =? byte_space) = false ∧ b < table_size ∧
  ∃ w, table.[b] = Some w ∧ w ≠ -1 ∧ v = (if w =? -2 then 0 else w) ∧ p = (if w =? -2 then 1 else 0).

(** What a pair of tables must satisfy. *)
Record tables_ok : Prop := {
  bits_pos : 0 < bits;
  group_bits : bits * Z.of_nat group = 8 * Z.of_nat outn;
  group_word : 8 * Z.of_nat outn ≤ 64;
  group_mask c : 0 ≤ c → Z.land c (Z.of_nat group - 1) = c mod Z.of_nat group;
  group_used k : 0 ≤ k ≤ Z.of_nat outn → howmany (8 * k) bits ≤ Z.of_nat group;
  symbol_char v : 0 ≤ v < 2 ^ bits → symbol (char enc v) v 0 ∧ char enc v ≠ byte_equals;
  symbol_pad : symbol byte_equals 0 1;
  only_pad b : table.[b] = Some (-2) → b = byte_equals;
  trim_none f : trim 0 f = f;
  trim_some k f : 0 < k < Z.of_nat outn →
    trim (Z.of_nat group - howmany (8 * k) bits) f = f - (Z.of_nat outn - k);
}.
Hypothesis T : tables_ok.

Let dec := decode_bytes table table_size bits (Z.of_nat group) (Z.of_nat outn).

Lemma outn_pos : 0 < Z.of_nat group → 0 < Z.of_nat outn.
Proof. pose proof (bits_pos T). pose proof (group_bits T). nia. Qed.

Lemma decode_step b v p l x c pad dest :
  symbol b v p → 0 ≤ c < 2 ^ 64 - 1 → 0 ≤ pad < 2 ^ 64 - 1 → 0 ≤ p ≤ 1 →
  dec (b :: l) x c pad dest
  = (let x' := u64 (x * 2 ^ bits + v) in
     dec l x' (c + 1) (pad + p)
       (if (c + 1) mod Z.of_nat group =? 0 then dest ++ digits 8 outn x' else dest)).
Proof.
  intros (Hws & Hlt & w & Hw & Hne & -> & ->) Hc Hpad Hp. unfold dec. cbn [decode_bytes]. rewrite Hws.
  destruct (Z.leb_spec table_size b); [lia|]. rewrite Hw. cbn [mbind option_bind].
  rewrite (proj2 (Z.eqb_neq w (-1)) Hne).
  assert (Hu : ∀ n, 0 ≤ n < 2 ^ 64 - 1 → u64 (n + 1) = n + 1) by (intros; apply Z.mod_small; lia).
  rewrite (Hu c Hc), group_mask by (done || lia). rewrite Nat2Z.id.
  assert (Hx : ∀ v, u64 (u64 (Z.shiftl x bits) + v) = u64 (x * 2 ^ bits + v)).
  { intros v. pose proof (bits_pos T). rewrite Z.shiftl_mul_pow2 by lia. unfold u64.
    by rewrite Zplus_mod_idemp_l. }
  destruct (w =? -2); cbv zeta; rewrite Hx, emit_digits; [by rewrite Hu|by rewrite Z.add_0_r].
Qed.

Definition pads (syms : list (Z * Z * Z)) : Z := foldr (λ s n, s.2 + n) 0 syms.

Lemma pads_bound syms : Forall (λ s, symbol s.1.1 s.1.2 s.2) syms → 0 ≤ pads syms ≤ zlen syms.
Proof.
  induction 1 as [|s l Hs Hl IH]; [done|].
  change (pads (s :: l)) with (s.2 + pads l). rewrite zlen_cons.
  destruct Hs as (_ & _ & w & _ & _ & _ & ->). destruct (w =? -2); lia.
Qed.

(** A group of characters, up to its end. *)
Lemma decode_group_chars syms l x c pad dest :
  Forall (λ s, symbol s.1.1 s.1.2 s.2) syms → syms ≠ [] → zlen syms ≤ Z.of_nat group →
  0 ≤ c → c mod Z.of_nat group = Z.of_nat group - zlen syms ∨ (c mod Z.of_nat group = 0 ∧ zlen syms = Z.of_nat group) →
  c + zlen syms < 2 ^ 64 → 0 ≤ pad → pad + zlen syms < 2 ^ 64 →
  let x' := u64 (x * 2 ^ (bits * zlen syms) + be_num bits (map (λ s, s.1.2) syms)) in
  dec (map (λ s, s.1.1) syms ++ l) x c pad dest
  = dec l x' (c + zlen syms) (pad + pads syms) (dest ++ digits 8 outn x').
Proof.
  intros Hs. revert x c pad. induction Hs as [|s syms Hs Hl IH]; intros x c pad Hne Hlen Hc Hmod Hc64 Hpad Hp64; [done|].
  change (pads (s :: syms)) with (s.2 + pads syms). cbn [map app]. rewrite zlen_cons in *. pose proof (zlen_nonneg syms) as Hn.
  pose proof (bits_pos T) as Hb.
  assert (Hp : 0 ≤ s.2 ≤ 1).
  { destruct Hs as (_ & _ & w & _ & _ & _ & ->). destruct (w =? -2); lia. }
  rewrite (decode_step _ _ _ _ x c pad dest Hs) by lia. cbv zeta.
  assert (Hc1 : (c + 1) mod Z.of_nat group = if decide (syms = []) then 0 else Z.of_nat group - zlen syms).
  { destruct (decide (syms = [])) as [->|Hne'].
    - change (zlen []) with 0 in *. rewrite Z.add_mod by lia. destruct Hmod as [->|[-> Hg]].
      + destruct (decide (Z.of_nat group = 1)) as [->|]; [done|].
        rewrite (Z.mod_small 1) by lia. replace (_ - (0 + 1) + 1) with (Z.of_nat group) by lia.
        apply Z.mod_same. lia.
      + by rewrite <- Hg.
    - assert (0 < zlen syms) by (destruct syms; [done|rewrite zlen_cons; pose proof (zlen_nonneg syms); lia]).
      rewrite Z.add_mod by lia. rewrite (Z.mod_small 1) by lia.
      destruct Hmod as [->|[-> Hg]]; rewrite Z.mod_small by lia; lia. }
  rewrite Hc1. set (x1 := u64 (x * 2 ^ bits + s.1.2)). destruct (decide (syms = [])) as [->|Hne'].
  - cbn. change (zlen []) with 0. rewrite Z.add_0_l, Z.mul_1_r, !Z.add_0_r.
    unfold be_num. cbn. done.
  - destruct (Z.eqb_spec (Z.of_nat group - zlen syms) 0) as [Hg|Hg]; [lia|].
    rewrite IH; [|done|lia|lia|left; exact Hc1|lia|lia|lia].
    assert (Ex : u64 (x1 * 2 ^ (bits * zlen syms) + be_num bits (map (λ s0, s0.1.2) syms))
      = u64 (x * 2 ^ (bits * (zlen syms + 1)) + be_num bits (s.1.2 :: map (λ s0, s0.1.2) syms))).
    { rewrite be_num_cons by lia. unfold zlen. rewrite length_map. fold (zlen syms).
      unfold x1, u64. rewrite Z.add_mod, Zmult_mod_idemp_l by lia. rewrite <- Z.add_mod by lia. f_equal.
      rewrite Z.mul_add_distr_l, Z.mul_1_r, Z.pow_add_r by nia. ring. }
    rewrite Ex. f_equal; lia.
Qed.

(** The texts the decoder is meant for: whole groups, and a padded last one. *)
Inductive encoding : list Z → list Z → Prop :=
  | encoding_nil : encoding [] []
  | encoding_full block x t : length block = outn → encoding x t →
      encoding (block ++ x) (group_chars enc bits group outn block ++ t)
  | encoding_part block : (0 < length block < outn)%nat →
      encoding block (group_chars enc bits group outn block).

Definition used (block : list Z) : nat := Z.to_nat (howmany (8 * zlen block) bits).

(** The characters of a group as symbols: its digits, then the padding. *)
Definition group_syms (block : list Z) : list (Z * Z * Z) :=
  let n := be_num 8 (block ++ replicate (outn - length block) 0) in
  map (λ v, (char enc v, v, 0)) (take (used block) (digits bits group n))
  ++ replicate (group - used block) (byte_equals, 0, 1).

Lemma howmany_ge a b : 0 < b → a ≤ b * howmany a b.
Proof.
  intros Hb. unfold howmany. pose proof (Z.div_mod (a + (b - 1)) b).
  pose proof (Z.mod_pos_bound (a + (b - 1)) b). lia.
Qed.

Lemma used_le block : (length block ≤ outn)%nat → (used block ≤ group)%nat.
Proof.
  intros H. pose proof (zlen_nonneg block). unfold used.
  pose proof (group_used T (zlen block)). unfold zlen in *. lia.
Qed.

Lemma padded_block block :
  Forall is_byte block → (length block ≤ outn)%nat →
  let b := block ++ replicate (outn - length block) 0 in
  Forall (λ v, 0 ≤ v < 2 ^ 8) b ∧ length b = outn ∧
  0 ≤ be_num 8 b < 2 ^ (bits * Z.of_nat group) ∧
  be_num 8 b mod 2 ^ (8 * (Z.of_nat outn - zlen block)) = 0.
Proof.
  intros Hb Hlen b. assert (Hf : Forall (λ v, 0 ≤ v < 2 ^ 8) b).
  { apply Forall_app. split; [done|]. by apply Forall_replicate. }
  assert (Hl : length b = outn) by (unfold b; rewrite length_app, length_replicate; lia).
  split_and!; [done..| | |].
  - by apply be_num_bound.
  - rewrite (group_bits T). rewrite <- Hl. by apply (be_num_bound 8).
  - unfold b, be_num. rewrite fold_left_app. rewrite fold_num by done.
    rewrite zlen_replicate. fold (be_num 8 block). unfold zlen.
    assert (E : ∀ k, be_num 8 (replicate k 0) = 0).
    { induction k; [done|]. cbn [replicate]. rewrite be_num_cons by done. lia. }
    rewrite E, Z.add_0_r. rewrite Nat2Z.inj_sub by lia. apply Z.mod_mul. apply Z.pow_nonzero; lia.
Qed.

Lemma group_syms_ok block :
  Forall is_byte block → (length block ≤ outn)%nat →
  map (λ s, s.1.1) (group_syms block) = group_chars enc bits group outn block ∧
  map (λ s, s.1.2) (group_syms block)
    = digits bits group (be_num 8 (block ++ replicate (outn - length block) 0)) ∧
  Forall (λ s, symbol s.1.1 s.1.2 s.2) (group_syms block) ∧
  zlen (group_syms block) = Z.of_nat group ∧
  pads (group_syms block) = Z.of_nat group - howmany (8 * zlen block) bits.
Proof.
  intros Hb Hlen. destruct (padded_block block Hb Hlen) as (Hf & Hl & Hn & Hz).
  pose proof (used_le block Hlen) as Hu. pose proof (bits_pos T) as Hbits. pose proof (zlen_nonneg block) as Hnn.
  assert (Huz : Z.of_nat (used block) = howmany (8 * zlen block) bits).
  { unfold used. apply Z2Nat.id. unfold howmany. apply Z.div_pos; lia. }
  unfold group_syms. set (n := be_num 8 _) in *. split_and!.
  - rewrite map_app, map_map, map_replicate. done.
  - rewrite map_app, map_map, map_replicate. cbn. rewrite map_id.
    rewrite <- (take_drop (used block) (digits bits group n)) at 2. f_equal.
    rewrite <- (digits_zero bits group (group - used block) n); [|lia|lia|].
    + f_equal. lia.
    + (* the unused digits cover only padding bits *)
      assert (Hlz : zlen block ≤ Z.of_nat outn) by (unfold zlen; lia).
      apply Z.mod_divide in Hz; [|apply Z.pow_nonzero; lia]. apply Z.mod_divide; [apply Z.pow_nonzero; nia|].
      eapply Z.divide_trans; [|exact Hz]. rewrite Nat2Z.inj_sub, Huz by lia.
      assert (He : bits * (Z.of_nat group - howmany (8 * zlen block) bits) ≤ 8 * (Z.of_nat outn - zlen block)).
      { pose proof (group_bits T). pose proof (howmany_ge (8 * zlen block) bits). lia. }
      exists (2 ^ (8 * (Z.of_nat outn - zlen block) - bits * (Z.of_nat group - howmany (8 * zlen block) bits))).
      rewrite <- Z.pow_add_r; [f_equal; lia|lia|]. nia.
  - apply Forall_app. split.
    + apply Forall_map, Forall_take. eapply Forall_impl; [apply digits_range; lia|].
      intros v Hv. by apply (symbol_char T).
    + apply Forall_replicate. apply (symbol_pad T).
  - unfold zlen. rewrite length_app, length_map, length_take, digits_length, length_replicate. lia.
  - rewrite <- Huz. unfold pads. rewrite foldr_app.
    assert (E1 : ∀ k, foldr (λ (s : Z * Z * Z) n, s.2 + n) 0 (replicate k (byte_equals, 0, 1)) = Z.of_nat k).
    { induction k; [done|]. cbn [replicate foldr]. rewrite IHk. cbn. lia. }
    rewrite E1. assert (E2 : ∀ l m, foldr (λ (s : Z * Z * Z) n, s.2 + n) m (map (λ v, (char enc v, v, 0)) l) = m).
    { induction l as [|v l IH]; intros m; [done|]. cbn. by rewrite IH. }
    rewrite E2. lia.
Qed.

(** A whole group decodes to its block, padded with zeros. *)
Lemma decode_group block l x c pad dest :
  0 < Z.of_nat group → Forall is_byte block → (length block ≤ outn)%nat →
  0 ≤ c → c mod Z.of_nat group = 0 → c + Z.of_nat group < 2 ^ 64 → 0 ≤ pad → pad + Z.of_nat group < 2 ^ 64 →
  ∃ x', dec (group_chars enc bits group outn block ++ l) x c pad dest
    = dec l x' (c + Z.of_nat group) (pad + (Z.of_nat group - howmany (8 * zlen block) bits))
        (dest ++ block ++ replicate (outn - length block) 0).
Proof.
  intros Hg Hb Hlen Hc Hmod Hc64 Hpad Hp64.
  destruct (group_syms_ok block Hb Hlen) as (<- & Hv & Hs & Hl & <-).
  rewrite (decode_group_chars _ l x c pad dest Hs); [|intros E; rewrite E in Hl; change (zlen []) with 0 in Hl; lia
    |lia|done|right; split; [done|lia]|lia|done|lia].
  rewrite Hl, Hv. eexists. f_equal. f_equal.
  destruct (padded_block block Hb Hlen) as (Hf & Hlb & Hn & _).
  pose proof (bits_pos T). pose proof (group_bits T). pose proof (group_word T).
  set (b := block ++ _) in *. rewrite be_num_digits, Z.mod_small by (done || lia).
  rewrite <- (digits_mod 8 outn outn) by lia. unfold u64.
  rewrite <- (group_bits T).
  assert (E : ∀ y, (y mod 2 ^ 64) mod 2 ^ (bits * Z.of_nat group) = y mod 2 ^ (bits * Z.of_nat group)).
  { intros y. rewrite <- !Z.land_ones by lia. apply Z.bits_inj'. intros k Hk.
    rewrite !Z.land_spec. destruct (decide (k < bits * Z.of_nat group)).
    - rewrite !Z.ones_spec_low by lia. by rewrite andb_true_r.
    - rewrite (Z.ones_spec_high (bits * _)) by lia. by rewrite !andb_false_r. }
  rewrite E, Z.add_comm, Z.mod_add, Z.mod_small by lia.
  rewrite <- Hlb. by apply (digits_be_num 8).
Qed.

(** What is left over after the bytes: the padding's count, and its zeros. *)
Definition leftover (x : list Z) (pad : Z) (z : nat) : Prop :=
  (pad = 0 ∧ z = 0%nat) ∨
  ∃ k : nat, (0 < k < outn)%nat ∧ z = (outn - k)%nat ∧ pad = Z.of_nat group - howmany (8 * Z.of_nat k) bits.

Lemma group_chars_len block : (length block ≤ outn)%nat → Forall is_byte block →
  zlen (group_chars enc bits group outn block) = Z.of_nat group.
Proof.
  intros Hl Hb. destruct (group_syms_ok block Hb Hl) as (<- & _ & _ & <- & _).
  unfold zlen. by rewrite length_map.
Qed.

Lemma decode_text x t acc c dest :
  0 < Z.of_nat group → encoding x t → Forall is_byte x → 0 ≤ c → c mod Z.of_nat group = 0 →
  c + zlen t < 2 ^ 64 →
  ∃ acc' pad z, dec t acc c 0 dest
    = Some (Some (acc', c + zlen t, pad, dest ++ x ++ replicate z 0)) ∧ leftover x pad z ∧
      (c + zlen t) mod Z.of_nat group = 0.
Proof.
  intros Hg He. revert acc c dest. induction He as [|block x t Hlen He IH|block Hlen]; intros acc c dest Hx Hc Hmod Hc64.
  - exists acc, 0, 0%nat. unfold dec. cbn [decode_bytes app replicate]. rewrite app_nil_r.
    change (zlen []) with 0. rewrite Z.add_0_r. split_and!; [done|by left|done].
  - apply Forall_app in Hx as [Hb Hx]. rewrite zlen_app in *. rewrite group_chars_len in * by (done || lia).
    pose proof (zlen_nonneg t).
    destruct (decode_group block t acc c 0 dest) as (acc' & ->); [done|done|lia|done|done|lia|done|lia|].
    rewrite Hlen, Nat.sub_diag, app_nil_r.
    assert (Hz : 0 + (Z.of_nat group - howmany (8 * zlen block) bits) = 0).
    { unfold zlen. rewrite Hlen, <- (group_bits T). unfold howmany. pose proof (bits_pos T).
      replace (bits * Z.of_nat group + (bits - 1)) with ((bits - 1) + Z.of_nat group * bits) by lia.
      rewrite Z.div_add, (Z.div_small (bits - 1)) by lia. lia. }
    rewrite Hz.
    destruct (IH acc' (c + Z.of_nat group) (dest ++ block)) as (acc'' & pad & z & E & Hl & Hm);
      [done|lia|by rewrite Z.add_mod, Hmod, Z.mod_same by lia|lia|].
    exists acc'', pad, z. rewrite E, <- !app_assoc, (Z.add_assoc c). done.
  - rewrite group_chars_len in * by (done || lia).
    destruct (decode_group block [] acc c 0 dest) as (acc' & E); [done|done|lia|done|done|lia|done|lia|].
    rewrite app_nil_r in E. rewrite E. eexists _, _, _. split; [done|]. split.
    + right. exists (length block). split; [done|]. by split.
    + by rewrite Z.add_mod, Hmod, Z.mod_same by lia.
Qed.

(** ** Regions *)

Lemma decode_dest l x c p d0 dest :
  dec l x c p (d0 ++ dest)
  = match dec l x c p dest with
    | Some (Some (x', c', p', d)) => Some (Some (x', c', p', d0 ++ d))
    | r => r
    end.
Proof.
  unfold dec. revert x c p dest. induction l as [|b l IH]; intros x c p dest; cbn [decode_bytes]; [done|].
  destruct (_ || _); [apply IH|]. destruct (_ <=? _); [done|].
  destruct (table.[b]) as [w|]; [|done]. cbn [mbind option_bind]. destruct (w =? -1); [done|].
  destruct (w =? -2); cbv zeta; destruct (_ =? 0); rewrite ?IH, <- ?app_assoc, ?IH; try done.
Qed.

Lemma decode_app l1 l2 x c p dest :
  dec (l1 ++ l2) x c p dest
  = match dec l1 x c p dest with
    | Some (Some (x', c', p', d)) => dec l2 x' c' p' d
    | r => r
    end.
Proof.
  unfold dec. revert x c p dest. induction l1 as [|b l IH]; intros x c p dest; cbn [app decode_bytes]; [done|].
  destruct (_ || _); [apply IH|]. destruct (_ <=? _); [done|].
  destruct (table.[b]) as [w|]; [|done]. cbn [mbind option_bind]. destruct (w =? -1); [done|].
  destruct (w =? -2); cbv zeta; apply IH.
Qed.

(** The bytes written, counted by completed groups. *)
Lemma decode_len l x c p dest x' c' p' dest' :
  0 < Z.of_nat group → 0 ≤ c → c + zlen l < 2 ^ 64 →
  dec l x c p dest = Some (Some (x', c', p', dest')) →
  c ≤ c' ≤ c + zlen l ∧ zlen dest' = zlen dest + Z.of_nat outn * (c' / Z.of_nat group - c / Z.of_nat group).
Proof.
  intros Hg. unfold dec. revert x c p dest. induction l as [|b l IH]; intros x c p dest Hc Hl; cbn [decode_bytes].
  - intros [= <- <- <- <-]. change (zlen []) with 0. lia.
  - rewrite zlen_cons in *. pose proof (zlen_nonneg l).
    destruct (_ || _); [intros E; destruct (IH _ _ _ _ Hc ltac:(lia) E); lia|]. destruct (_ <=? _); [done|].
    destruct (table.[b]) as [w|]; [|done]. cbn [mbind option_bind]. destruct (w =? -1); [done|].
    assert (Hu : u64 (c + 1) = c + 1) by (apply Z.mod_small; lia). rewrite Hu.
    rewrite group_mask by (done || lia).
    assert (Hdiv : (c + 1) / Z.of_nat group = c / Z.of_nat group
      + (if (c + 1) mod Z.of_nat group =? 0 then 1 else 0)).
    { pose proof (Z.div_mod c (Z.of_nat group)). pose proof (Z.mod_pos_bound c (Z.of_nat group)).
      pose proof (Z.div_mod (c + 1) (Z.of_nat group)). pose proof (Z.mod_pos_bound (c + 1) (Z.of_nat group)).
      destruct (Z.eqb_spec ((c + 1) mod Z.of_nat group) 0); nia. }
    assert (Hlen : ∀ y, zlen (emit (Z.to_nat (Z.of_nat outn)) y) = Z.of_nat outn).
    { intros y. rewrite emit_digits, Nat2Z.id. unfold zlen. by rewrite digits_length. }
    destruct (w =? -2); cbv zeta; intros E; (destruct (IH _ (c + 1) _ _ ltac:(lia) ltac:(lia) E) as [? Hd]; split; [lia|]);
      rewrite Hd, Hdiv; destruct ((c + 1) mod _ =? 0); rewrite ?zlen_app, ?Hlen; lia.
Qed.

Lemma decode_no_pad l x c p dest x' c' p' dest' :
  Forall (λ b, b ≠ byte_equals) l → dec l x c p dest = Some (Some (x', c', p', dest')) → p' = p.
Proof.
  intros Hl. unfold dec. revert x c p dest. induction Hl as [|b l Hb Hl IH]; intros x c p dest; cbn [decode_bytes].
  - by intros [= <- <- <- <-].
  - destruct (_ || _); [apply IH|]. destruct (_ <=? _); [done|].
    destruct (table.[b]) as [w|] eqn:Hw; [|done]. cbn [mbind option_bind]. destruct (w =? -1); [done|].
    destruct (Z.eqb_spec w (-2)) as [->|]; [by apply only_pad in Hw|]. cbv zeta. apply IH.
Qed.

Lemma symbols_all x t : encoding x t → Forall is_byte x → Forall (λ b, ∃ v p, symbol b v p) t.
Proof.
  assert (Hg : ∀ block, Forall is_byte block → (length block ≤ outn)%nat →
    Forall (λ b, ∃ v p, symbol b v p) (group_chars enc bits group outn block)).
  { intros block Hb Hl. destruct (group_syms_ok block Hb Hl) as (<- & _ & Hs & _).
    apply Forall_map. eapply Forall_impl; [exact Hs|]. cbn. by eauto. }
  induction 1 as [|block x t Hlen He IH|block Hlen]; intros Hx; [done| |apply Hg; [done|lia]].
  apply Forall_app in Hx as [Hb Hx]. apply Forall_app. split; [apply Hg; [done|lia]|by apply IH].
Qed.

Lemma create_from_ok D n : 0 ≤ n ≤ zlen D → ∃ d, create_from D n = Some d ∧ concat d = take (Z.to_nat n) D.
Proof.
  intros Hn. unfold create_from. destruct (Z.eqb_spec n 0) as [->|Hne]; [by exists []|].
  rewrite zsub_prefix by lia. cbn [mbind option_bind]. eexists. split; [done|].
  unfold dispatch_data_of. rewrite zlen_take. destruct (Z.eqb_spec (Z.min (Z.of_nat (Z.to_nat n)) (zlen D)) 0); [lia|].
  cbn. by rewrite app_nil_r.
Qed.

Section regions.
Context (malloc_ok : Z → bool) (Hmalloc : ∀ n, malloc_ok n = true).
Let region := decode_region malloc_ok table table_size bits (Z.of_nat group) (Z.of_nat outn) trim.

Lemma decode_region_ok off l st x' c' p' D z :
  0 < Z.of_nat group → 0 ≤ count st → count st + zlen l < 2 ^ 60 →
  dec l (x st) (count st) (pad st) [] = Some (Some (x', c', p', D)) →
  trim p' (zlen D) = zlen D - z → 0 ≤ z ≤ zlen D →
  ∃ val, region off l st = Some (true, {| x := x'; count := c'; pad := p'; rv := rv st ++ val |}) ∧
    concat val = take (Z.to_nat (zlen D - z)) D.
Proof.
  intros Hg Hc Hl E Ht Hz. unfold region, decode_region. rewrite Hmalloc. cbn [negb].
  unfold dec in E. rewrite E. cbn [mbind option_bind].
  destruct (decode_len l _ _ _ _ _ _ _ _ Hg Hc ltac:(lia) E) as [Hc' Hlen].
  change (zlen []) with 0 in Hlen. rewrite Z.add_0_l in Hlen. pose proof (zlen_nonneg l) as Hnl.
  set (g := Z.of_nat group) in *. pose proof (group_bits T) as Hgb. pose proof (group_word T).
  pose proof (outn_pos Hg) as Ho.
  assert (Hd : c' / g - count st / g ≤ howmany (zlen l) g).
  { unfold howmany. assert (c' / g ≤ (count st / g * g + (zlen l + (g - 1))) / g).
    - apply Z.div_le_mono; [done|]. pose proof (Z.div_mod (count st) g). pose proof (Z.mod_pos_bound (count st) g). lia.
    - rewrite Z.div_add_l in * by lia. lia. }
  destruct (Z.ltb_spec (howmany (zlen l) g * Z.of_nat outn) (zlen D)) as [Hlt|_]; [nia|].
  assert (Hsmall : zlen D < 2 ^ 64).
  { assert (howmany (zlen l) g ≤ zlen l).
    { unfold howmany. destruct (decide (zlen l = 0)) as [->|]; [rewrite Z.div_small; lia|].
      apply Z.div_le_upper_bound; nia. }
    nia. }
  rewrite Ht. unfold u64. rewrite Z.mod_small by lia.
  destruct (create_from_ok D (zlen D - z)) as (val & -> & Hv); [lia|]. by exists val.
Qed.

Lemma last_symbol_emits l b v p x0 c x' c' p' D :
  0 < Z.of_nat group → 0 ≤ c → c + zlen (l ++ [b]) < 2 ^ 60 →
  dec (l ++ [b]) x0 c 0 [] = Some (Some (x', c', p', D)) →
  symbol b v p → c' mod Z.of_nat group = 0 → Z.of_nat outn ≤ zlen D.
Proof.
  intros Hg Hc Hl E (Hws & Hlt & w & Hw & Hne & _) Hm. rewrite decode_app in E.
  destruct (dec l _ _ _ _) as [[[[[x1 c1] p1] d1]|]|] eqn:E1; try done.
  rewrite zlen_app, zlen_cons in Hl. change (zlen []) with 0 in Hl.
  destruct (decode_len l _ _ _ _ _ _ _ _ Hg Hc ltac:(lia) E1) as [Hc1 _].
  unfold dec in E. cbn [decode_bytes] in E. rewrite Hws in E. destruct (Z.leb_spec table_size b); [lia|].
  rewrite Hw in E. cbn [mbind option_bind] in E. rewrite (proj2 (Z.eqb_neq w (-1)) Hne) in E.
  assert (Hu : u64 (c1 + 1) = c1 + 1) by (apply Z.mod_small; lia). rewrite Hu in E.
  rewrite group_mask in E by (done || lia). rewrite Nat2Z.id in E.
  destruct (w =? -2); cbv zeta in E; injection E as _ <- _ <-; rewrite Hm, emit_digits; cbn [Z.eqb];
    rewrite zlen_app; unfold zlen at 2; rewrite digits_length; pose proof (zlen_nonneg d1); lia.
Qed.

Lemma decode_regions ds r' b v p st x' c' pad' D z off :
  0 < Z.of_nat group → 0 ≤ count st → count st + zlen (concat (ds ++ [r' ++ [b]])) < 2 ^ 60 → pad st = 0 →
  dec (concat (ds ++ [r' ++ [b]])) (x st) (count st) 0 [] = Some (Some (x', c', pad', D)) →
  Forall (Forall (λ b, b ≠ byte_equals)) ds → symbol b v p → c' mod Z.of_nat group = 0 →
  (∀ f, trim pad' f = f - z) → 0 ≤ z ≤ Z.of_nat outn →
  ∃ st', apply_regions region off (ds ++ [r' ++ [b]]) st = Some (true, st') ∧
    concat (rv st') = concat (rv st) ++ take (Z.to_nat (zlen D - z)) D.
Proof.
  intros Hg. revert st off D. induction ds as [|d ds IH]; intros st off D Hc Hl Hp E Hds Hb Hm Ht Hz.
  - cbn [app concat] in *. rewrite app_nil_r in *.
    assert (HD : Z.of_nat outn ≤ zlen D) by (by eapply (last_symbol_emits r')).
    rewrite <- Hp in E. destruct (decode_region_ok off (r' ++ [b]) st x' c' pad' D z) as (val & Er & Hv);
      [done|done|done|exact E|apply Ht|lia|].
    cbn [apply_regions]. rewrite Er. cbn [mbind option_bind]. eexists. split; [done|]. cbn.
    by rewrite concat_app, Hv.
  - cbn [app concat] in *. apply Forall_cons in Hds as [Hd Hds]. rewrite decode_app in E. rewrite zlen_app in Hl.
    pose proof (zlen_nonneg (concat (ds ++ [r' ++ [b]]))). pose proof (zlen_nonneg d).
    destruct (dec d _ _ _ _) as [[[[[x1 c1] p1] d1]|]|] eqn:E1; try done.
    destruct (decode_len d _ _ _ _ _ _ _ _ Hg Hc ltac:(lia) E1) as [Hc1 _].
    assert (p1 = 0) as -> by by eapply decode_no_pad.
    rewrite <- (app_nil_r d1), decode_dest in E.
    destruct (dec (concat _) _ _ _ _) as [[[[[x2 c2] p2] d2]|]|] eqn:E2; try done. injection E as -> -> -> <-.
    assert (E1' : dec d (x st) (count st) (pad st) [] = Some (Some (x1, c1, 0, d1))) by by rewrite Hp.
    destruct (decode_region_ok off d st x1 c1 0 d1 0) as (val & Er & Hv);
      [done|done|lia|exact E1'|by rewrite trim_none, Z.sub_0_r|pose proof (zlen_nonneg d1); lia|].
    cbn [apply_regions]. rewrite Er. cbn [mbind option_bind].
    destruct (IH {| x := x1; count := c1; pad := 0; rv := rv st ++ val |} (off + zlen d) d2) as (st' & Es & Hs);
      [cbn; lia|cbn; lia|done|exact E2|done..|].
    exists st'. split; [exact Es|]. cbn in Hs. rewrite Hs, concat_app, Hv, Z.sub_0_r.
    assert (HD : Z.of_nat outn ≤ zlen d2).
    { rewrite concat_app in E2. cbn [concat] in E2. rewrite app_nil_r, app_assoc in E2.
      eapply (last_symbol_emits (concat ds ++ r')); [done| | |exact E2|done..]; [lia|].
      rewrite concat_app in Hl. cbn [concat] in Hl. rewrite app_nil_r, app_assoc in Hl. lia. }
    rewrite <- app_assoc. f_equal. unfold zlen at 1. rewrite Nat2Z.id, firstn_all.
    rewrite take_app, zlen_app. unfold zlen in *. rewrite (take_ge d1) by lia. f_equal. f_equal. lia.
Qed.

Lemma leftover_trim x pad z : leftover x pad z → (∀ f, trim pad f = f - Z.of_nat z) ∧ (z ≤ outn)%nat.
Proof.
  intros [[-> ->]|(k & Hk & -> & ->)].
  - split; [|lia]. intros f. rewrite (trim_none T). lia.
  - split; [|lia]. intros f. rewrite (trim_some T) by lia. lia.
Qed.

(** The regions may cut the text anywhere before its padding. *)
Lemma decode_data_ok x t ds r :
  0 < Z.of_nat group → encoding x t → Forall is_byte x → zlen t < 2 ^ 60 →
  Forall (Forall (λ b, b ≠ byte_equals)) ds → r ≠ [] → concat (ds ++ [r]) = t →
  ∃ d, decode_data malloc_ok table table_size bits (Z.of_nat group) (Z.of_nat outn) trim (ds ++ [r])
       = Some (Some d) ∧ concat d = x.
Proof.
  intros Hg He Hx Ht Hds Hr Heq. destruct (exists_last Hr) as (r' & b & ->).
  destruct (decode_text x t 0 0 [] Hg He Hx) as (acc & pad & z & E & Hl & Hm); [done|by rewrite Z.mod_0_l by lia|lia|].
  pose proof (symbols_all x t He Hx) as Hs. rewrite <- Heq, concat_app in Hs. cbn in Hs. rewrite app_nil_r in Hs.
  apply Forall_app in Hs as [_ [_ [(v & p & Hb) _]%Forall_cons]%Forall_app].
  destruct (leftover_trim _ _ _ Hl) as [Htr Hz].
  destruct (decode_regions ds r' b v p {| x := 0; count := 0; pad := 0; rv := [] |} acc (0 + zlen t) pad
    (x ++ replicate z 0) (Z.of_nat z) 0) as (st & Es & Ev); [done|done|by rewrite Heq|done| |done|done|done|done|lia|].
  { by rewrite Heq. }
  unfold decode_data. fold region. rewrite Es. cbn [mbind option_bind]. exists (rv st). split; [done|].
  rewrite Ev. cbn. rewrite zlen_app, zlen_replicate. rewrite take_app_le by (unfold zlen; lia).
  apply take_ge. unfold zlen. lia.
Qed.
End regions.
End decoding_ok.

(** ** The tables *)

Definition char_check (table : list Z) (table_size : Z) (enc : list Z) (v : Z) : bool :=
  let c := char enc v in
  negb ((c =? byte_newline) || (c =? byte_tab) || (c =? byte_space)) && (c <? table_size)
  && bool_decide (table.[c] = Some v) && negb (c =? byte_equals).
Definition pad_check (table : list Z) (b : Z) : bool :=
  bool_decide (table.[b] ≠ Some (-2)) || (b =? byte_equals).

Lemma tables_intro table table_size enc bits (group outn : nat) trim k :
  0 < bits → bits * Z.of_nat group = 8 * Z.of_nat outn → 8 * Z.of_nat outn ≤ 64 →
  0 ≤ k → Z.of_nat group = 2 ^ k →
  (∀ k, 0 ≤ k ≤ Z.of_nat outn → howmany (8 * k) bits ≤ Z.of_nat group) →
  forallb (char_check table table_size enc) (seqZ 0 (2 ^ bits - 0)) = true →
  forallb (pad_check table) (seqZ 0 (zlen table - 0)) = true →
  table.[byte_equals] = Some (-2) → byte_equals < table_size →
  (∀ f, trim 0 f = f) →
  (∀ k f, 0 < k < Z.of_nat outn →
    trim (Z.of_nat group - howmany (8 * k) bits) f = f - (Z.of_nat outn - k)) →
  tables_ok table table_size enc bits group outn trim.
Proof.
  intros Hbits Hgb Hw Hk Hg Hused Hchar Hpad He Hs Ht0 Ht. split; try done.
  - intros c Hc. rewrite Hg, Z.sub_1_r, <- Z.ones_equiv. by apply Z.land_ones.
  - intros v Hv. pose proof (forall_range _ _ _ Hchar v Hv) as Hc. unfold char_check in Hc. zbool.
    match goal with H : bool_decide _ = true |- _ => apply bool_decide_eq_true in H end.
    split; [|done]. split; [rewrite !orb_false_iff, !Z.eqb_neq; tauto|]. split; [done|]. exists v. split; [done|].
    destruct (Z.eqb_spec v (-2)); [lia|]. split_and!; [lia|done..].
  - split; [done|]. split; [done|]. by exists (-2).
  - intros b Hb. pose proof (forall_range _ _ _ Hpad b (zget_Some _ _ _ Hb)) as Hc.
    apply orb_true_iff in Hc as [Hn%bool_decide_eq_true|Hc]; [done|]. by apply Z.eqb_eq in Hc.
Qed.

Lemma tables64_ok : tables_ok base64_decode_table base64_decode_table_size base64_encode_table 6 4 3 trim64.
Proof.
  apply (tables_intro _ _ _ _ _ _ _ 2); try done.
  - intros k Hk. unfold howmany. zdiv.
  - intros k f Hk. assert (k = 1 ∨ k = 2) as [-> | ->] by lia; done.
Qed.

Lemma tables32_ok :
  tables_ok base32_decode_table base32_decode_table_size base32_encode_table 5 8 5 trim32.
Proof.
  apply (tables_intro _ _ _ _ _ _ _ 3); try done.
  - intros k Hk. unfold howmany. zdiv.
  - intros k f Hk. assert (k = 1 ∨ k = 2 ∨ k = 3 ∨ k = 4) as [-> |[-> |[-> | ->]]] by lia; done.
Qed.

(** ** Encoding is the reference encoding, however the data is cut in regions *)

Fixpoint final_byte (p : Z) (l : list Z) : Z :=
  match l with [] => p | b :: l => final_byte b l end.

Lemma final_byte_last p l : l ≠ [] → l.[zlen l - 1] = Some (final_byte p l).
Proof.
  revert p. induction l as [|b l IH]; intros p Hl; [done|]. cbn [final_byte].
  destruct l as [|b' l]; [done|]. rewrite <- (IH b) by done. rewrite (zlen_cons b).
  pose proof (zlen_nonneg l). rewrite zlen_cons.
  change (b :: b' :: l) with ([b] ++ b' :: l). rewrite zget_app_r by (change (zlen [b]) with 1; lia).
  f_equal. change (zlen [b]) with 1. lia.
Qed.

Lemma final_byte_app p l1 l2 : final_byte p (l1 ++ l2) = final_byte (final_byte p l1) l2.
Proof. revert p. induction l1; intros p; cbn; auto. Qed.

Section encoding_ok.
Context (modulus : Z) (step : Z → Z → Z → list Z → option (list Z))
  (final : Z → Z → list Z → option (list Z)).
Hypothesis Hmod : 0 < modulus.

(** The same steps on the bytes alone. *)
Fixpoint stream (bytes : list Z) (prev count : Z) (dest : list Z) : option (Z * list Z) :=
  match bytes with
  | [] => Some (count, dest)
  | curr :: bytes =>
      dest ← step (count mod modulus) (if count mod modulus =? 0 then 0 else prev) curr dest;
      stream bytes curr (count + 1) dest
  end.

Definition encode_run (bytes : list Z) : option (list Z) :=
  '(count, dest) ← stream bytes 0 0 [];
  final (count mod modulus) (final_byte 0 bytes) dest.

Lemma subrange_map_byte d pre post p :
  concat d = pre ++ post → pre.[zlen pre - 1] = Some p →
  _dispatch_data_subrange_map d (zlen pre - 1) 1 = Some [p].
Proof.
  intros Hd Hp. unfold _dispatch_data_subrange_map. rewrite Hd.
  assert (Hne : pre ≠ []) by (intros ->; done). destruct (exists_last Hne) as (pre' & q & ->).
  rewrite zlen_app in Hp |- *. change (zlen [q]) with 1 in *. rewrite Z.add_simpl_r in *.
  rewrite zget_middle in Hp. injection Hp as ->.
  replace (Z.to_nat (zlen pre')) with (length pre') by (unfold zlen; lia).
  rewrite <- app_assoc, drop_app_length. done.
Qed.

Lemma encode_bytes_stream d off bytes prev count dest pre post p :
  concat d = pre ++ bytes ++ post → 0 ≤ count → count + zlen bytes < 2 ^ 64 →
  match prev with
  | Some q => q = p
  | None => off = zlen pre ∧ (count mod modulus ≠ 0 → pre.[zlen pre - 1] = Some p)
  end →
  encode_bytes modulus step d off bytes prev count dest = Some <$> stream bytes p count dest.
Proof.
  intros Hd. revert prev count dest pre p Hd. induction bytes as [|b bytes IH]; intros prev count dest pre p Hd Hc Hl Hp; [done|].
  cbn [encode_bytes stream]. rewrite zlen_cons in Hl. pose proof (zlen_nonneg bytes).
  assert (Hlast : last_byte d off modulus count prev = Some (if count mod modulus =? 0 then 0 else p)).
  { unfold last_byte. destruct (Z.eqb_spec (count mod modulus) 0) as [|Hne]; [done|]. cbn [negb].
    destruct prev as [q|]; [by rewrite Hp|]. destruct Hp as [-> Hp].
    by rewrite (subrange_map_byte d pre (b :: bytes ++ post) p Hd (Hp Hne)). }
  rewrite Hlast. destruct (step _ _ _ _) as [dest'|]; [|done]. cbn [mbind option_bind].
  assert (Hu : u64 (count + 1) = count + 1) by (apply Z.mod_small; lia). rewrite Hu.
  apply (IH (Some b) (count + 1) dest' (pre ++ [b]) b); [by rewrite <- app_assoc|lia|lia|done].
Qed.

Lemma stream_app l1 l2 p c dest :
  stream (l1 ++ l2) p c dest
  = ('(c', dest') ← stream l1 p c dest; stream l2 (final_byte p l1) c' dest').
Proof.
  revert p c dest. induction l1 as [|b l1 IH]; intros p c dest; [done|]. cbn [app stream final_byte].
  destruct (step _ _ _ _); [|done]. cbn [mbind option_bind]. apply IH.
Qed.

Lemma stream_count l p c dest c' dest' : stream l p c dest = Some (c', dest') → c' = c + zlen l.
Proof.
  revert p c dest. induction l as [|b l IH]; intros p c dest; cbn [stream].
  - intros [= <- <-]. change (zlen []) with 0. lia.
  - destruct (step _ _ _ _); [|done]. cbn [mbind option_bind]. intros ->%IH. rewrite zlen_cons. lia.
Qed.

Lemma encode_region_eq d total off bytes count dest :
  encode_region modulus step final d total off bytes (count, dest)
  = (r ← encode_bytes modulus step d off bytes None count dest;
     match r with
     | None => Some (false, (count, dest))
     | Some (count, dest) =>
         if off + zlen bytes =? total then
           b ← bytes.[zlen bytes - 1];
           dest ← final (count mod modulus) b dest; Some (true, (count, dest))
         else Some (true, (count, dest))
     end).
Proof. done. Qed.

Lemma encode_regions d ds pre dest p :
  concat d = pre ++ concat ds → zlen (concat d) < 2 ^ 64 → Forall (λ r, r ≠ []) ds → ds ≠ [] →
  (pre ≠ [] → pre.[zlen pre - 1] = Some p) →
  apply_regions (encode_region modulus step final d (zlen (concat d))) (zlen pre) ds (zlen pre, dest)
  = ('(c, dest) ← stream (concat ds) p (zlen pre) dest;
     dest ← final (c mod modulus) (final_byte p (concat ds)) dest; Some (true, (c, dest))).
Proof.
  revert pre dest p. induction ds as [|r ds IH]; intros pre dest p Hd Hsz Hne Hds Hp; [done|].
  apply Forall_cons in Hne as [Hr Hne]. cbn [apply_regions concat]. rewrite encode_region_eq.
  pose proof (zlen_nonneg pre) as Hpre. pose proof (zlen_nonneg (concat ds)) as Hrest.
  assert (Hlen : zlen (concat d) = zlen pre + (zlen r + zlen (concat ds))).
  { rewrite Hd. cbn [concat]. by rewrite !zlen_app. }
  rewrite (encode_bytes_stream d (zlen pre) r None (zlen pre) dest pre (concat ds) p); [|done|done|lia|].
  2: { split; [done|]. intros Hm. apply Hp. intros ->. by rewrite Z.mod_0_l in Hm by lia. }
  rewrite stream_app. destruct (stream r p (zlen pre) dest) as [[c dest']|] eqn:E; [|done].
  apply stream_count in E as ->. cbn [fmap option_fmap option_map mbind option_bind].
  assert (Hempty : zlen (concat ds) = 0 ↔ ds = []).
  { split; [|by intros ->]. destruct ds as [|r' ds']; [done|]. apply Forall_cons in Hne as [Hr' _].
    cbn [concat]. rewrite zlen_app. pose proof (zlen_nonneg (concat ds')). destruct r'; [done|].
    rewrite zlen_cons. pose proof (zlen_nonneg r'). lia. }
  destruct (Z.eqb_spec (zlen pre + zlen r) (zlen (concat d))) as [Heq|Hneq].
  - assert (ds = []) as -> by (apply Hempty; lia). cbn [concat stream mbind option_bind].
    rewrite app_nil_r, (final_byte_last p r Hr). cbn [mbind option_bind].
    by destruct (final _ _ _).
  - assert (Hds' : ds ≠ []) by (intros ->; apply Hneq; rewrite Hlen; cbn [concat]; change (zlen []) with 0; lia).
    cbn [mbind option_bind]. rewrite <- zlen_app. rewrite final_byte_app.
    rewrite (IH (pre ++ r) dest' (final_byte p r)); [done| |done|done|done|].
    + rewrite Hd. cbn [concat]. by rewrite app_assoc.
    + intros _. rewrite <- (final_byte_last p r Hr). rewrite zlen_app.
      assert (0 < zlen r) by (destruct r; [done|rewrite zlen_cons; pose proof (zlen_nonneg r); lia]).
      rewrite zget_app_r by lia. f_equal. lia.
Qed.

Lemma encode_data_ok malloc_ok group d t :
  (∀ n, malloc_ok n = true) → Forall (λ r, r ≠ []) d → d ≠ [] →
  0 < group → howmany (zlen (concat d)) modulus * group < 2 ^ 64 → zlen (concat d) < 2 ^ 64 →
  encode_run (concat d) = Some t → zlen t = howmany (zlen (concat d)) modulus * group →
  encode_data malloc_ok modulus step final group d = Some (Some (dispatch_data_of t)).
Proof.
  intros Hm Hne Hd Hg Hsz Hsz' Hrun Ht. unfold encode_data.
  destruct (Z.ltb_spec ((2 ^ 64 - 1) / group) (howmany (zlen (concat d)) modulus)) as [Hlt|_].
  { exfalso.
    assert (howmany (zlen (concat d)) modulus ≤ (2 ^ 64 - 1) / group); [|lia].
    apply Z.div_le_lower_bound; lia. }
  rewrite Hm. cbn [negb]. unfold encode_run in Hrun.
  pose proof (encode_regions d d [] [] 0 eq_refl Hsz' Hne Hd) as E. change (zlen []) with 0 in E.
  rewrite E by done. destruct (stream _ _ _ _) as [[c dest]|]; [|done]. cbn [mbind option_bind] in *.
  rewrite Hrun. cbn [mbind option_bind negb]. by rewrite Ht, Z.eqb_refl.
Qed.
End encoding_ok.

(** ** The steps write the digits of the group *)

Lemma index_mix last curr s bits :
  0 ≤ s ≤ 8 → 0 ≤ bits → is_byte curr →
  Z.land (Z.lor (Z.shiftl last s) (Z.shiftr curr (8 - s))) (Z.ones bits)
  = (last * 2 ^ s + curr / 2 ^ (8 - s)) mod 2 ^ bits.
Proof.
  intros Hs Hb Hc. rewrite Z.land_ones by done. f_equal.
  rewrite <- Z.shiftl_mul_pow2, <- Z.shiftr_div_pow2 by lia.
  rewrite <- Z.add_lor_land. replace (Z.land _ _) with 0; [lia|]. symmetry.
  apply Z.bits_inj'. intros k Hk. rewrite Z.bits_0, Z.land_spec. destruct (decide (k < s)).
  - by rewrite Z.shiftl_spec_low.
  - rewrite Z.shiftr_spec by done. rewrite (byte_testbit_high curr) by (done || lia). apply andb_false_r.
Qed.

Lemma index_top curr s bits :
  0 ≤ s → 0 ≤ bits → Z.land (Z.shiftr curr s) (Z.ones bits) = (curr / 2 ^ s) mod 2 ^ bits.
Proof. intros. rewrite Z.land_ones by done. by rewrite Z.shiftr_div_pow2. Qed.

Lemma push_char table v out : 0 ≤ v < zlen table → push table v out = Some (out ++ [char table v]).
Proof.
  intros Hv. unfold push, char. by destruct (zget_is_Some _ _ Hv) as [c ->].
Qed.

(** The masked bits of the last byte. *)
Lemma index_tail s mask bits b :
  forallb (λ b, Z.land (Z.shiftl b s) mask =? (b * 2 ^ s) mod 2 ^ bits) (seqZ 0 (256 - 0)) = true →
  is_byte b → Z.land (Z.shiftl b s) mask = (b * 2 ^ s) mod 2 ^ bits.
Proof. intros H Hb. apply Z.eqb_eq. exact (forall_range _ _ _ H b Hb). Qed.

Lemma mod_next c m k : 0 < m → 0 ≤ k < m - 1 → c mod m = k → (c + 1) mod m = k + 1.
Proof. intros Hm Hk Hc. rewrite Z.add_mod, Hc, (Z.mod_small 1), Z.mod_small by lia. done. Qed.
Lemma mod_wrap c m : 1 < m → c mod m = m - 1 → (c + 1) mod m = 0.
Proof.
  intros Hm Hc. rewrite Z.add_mod, Hc, (Z.mod_small 1) by lia.
  replace (m - 1 + 1) with m by lia. apply Z.mod_same. lia.
Qed.

Section alphabet64.
Let T := base64_encode_table.

Lemma step64_ok last curr dest :
  is_byte curr → 0 ≤ last →
  step64 0 0 curr dest = Some (dest ++ [char T ((curr / 4) mod 64)]) ∧
  step64 1 last curr dest = Some (dest ++ [char T ((last * 16 + curr / 16) mod 64)]) ∧
  step64 2 last curr dest
  = Some (dest ++ [char T ((last * 4 + curr / 64) mod 64); char T (curr mod 64)]).
Proof.
  intros Hc Hl. unfold step64. cbn [Z.eqb Pos.eqb].
  assert (Hr : ∀ v, 0 ≤ v mod 64 < zlen T) by (intros v; apply (Z.mod_pos_bound v 64); lia).
  assert (E0 : Z.land (Z.shiftr curr 2) 63 = (curr / 4) mod 64) by exact (index_top curr 2 6 ltac:(lia) ltac:(lia)).
  assert (E1 : Z.land (Z.lor (Z.shiftl last 4) (Z.shiftr curr 4)) 63 = (last * 16 + curr / 16) mod 64)
    by exact (index_mix last curr 4 6 ltac:(lia) ltac:(lia) Hc).
  assert (E2 : Z.land (Z.lor (Z.shiftl last 2) (Z.shiftr curr 6)) 63 = (last * 4 + curr / 64) mod 64)
    by exact (index_mix last curr 2 6 ltac:(lia) ltac:(lia) Hc).
  assert (E3 : Z.land curr 63 = curr mod 64) by exact (Z.land_ones curr 6 ltac:(lia)).
  rewrite E0, E1, E2, E3, !push_char by apply Hr. split_and!; [done..|].
  cbn [mbind option_bind]. rewrite push_char by apply Hr. by rewrite <- app_assoc.
Qed.

Lemma final64_ok b dest :
  is_byte b →
  final64 0 b dest = Some dest ∧
  final64 1 b dest = Some (dest ++ [char T ((b * 16) mod 64); byte_equals; byte_equals]) ∧
  final64 2 b dest = Some (dest ++ [char T ((b * 4) mod 64); byte_equals]).
Proof.
  intros Hb. unfold final64. cbn [Z.eqb Pos.eqb].
  assert (Hr : ∀ v, 0 ≤ v mod 64 < zlen T) by (intros v; apply (Z.mod_pos_bound v 64); lia).
  rewrite (index_tail 4 48 6 b), (index_tail 2 60 6 b) by (done || by vm_compute).
  change (2 ^ 6) with 64. change (2 ^ 4) with 16. change (2 ^ 2) with 4.
  rewrite !push_char by apply Hr. cbn [mbind option_bind]. rewrite <- !app_assoc. done.
Qed.

Lemma group64_3 table a b c :
  group_chars table 6 4 3 [a; b; c]
  = map (char table) (let n := (a * 256 + b) * 256 + c in
      [(n / 262144) mod 64; (n / 4096) mod 64; (n / 64) mod 64; (n / 1) mod 64]).
Proof. reflexivity. Qed.
Lemma group64_2 table a b :
  group_chars table 6 4 3 [a; b]
  = map (char table) (let n := (a * 256 + b) * 256 + 0 in
      [(n / 262144) mod 64; (n / 4096) mod 64; (n / 64) mod 64]) ++ [byte_equals].
Proof. reflexivity. Qed.
Lemma group64_1 table a :
  group_chars table 6 4 3 [a]
  = map (char table) (let n := (a * 256 + 0) * 256 + 0 in
      [(n / 262144) mod 64; (n / 4096) mod 64]) ++ [byte_equals; byte_equals].
Proof. reflexivity. Qed.

(** A whole group, from a multiple of 3. *)
Lemma stream64_group a b c x p cnt dest :
  is_byte a → is_byte b → is_byte c → cnt mod 3 = 0 →
  stream 3 step64 (a :: b :: c :: x) p cnt dest
  = stream 3 step64 x c (cnt + 1 + 1 + 1) (dest ++ group_chars T 6 4 3 [a; b; c]).
Proof.
  intros Ha Hb Hc H0. pose proof (mod_next cnt 3 0 ltac:(lia) ltac:(lia) H0) as H1.
  pose proof (mod_next (cnt + 1) 3 1 ltac:(lia) ltac:(lia) H1) as H2. change (0 + 1) with 1 in H1.
  change (1 + 1) with 2 in H2. cbn [stream]. rewrite H0, H1, H2. cbn [Z.eqb].
  rewrite (proj1 (step64_ok 0 a _ Ha ltac:(lia))). cbn [mbind option_bind].
  rewrite (proj1 (proj2 (step64_ok a b _ Hb ltac:(apply Ha)))). cbn [mbind option_bind].
  rewrite (proj2 (proj2 (step64_ok b c _ Hc ltac:(apply Hb)))). cbn [mbind option_bind].
  f_equal. rewrite <- !app_assoc, group64_3. cbv zeta. cbn [app map]. unfold is_byte in *.
  f_equal. f_equal; [f_equal; zdiv|]. f_equal; [f_equal; zdiv|]. f_equal; [f_equal; zdiv|].
  f_equal. f_equal. by rewrite Z.div_1_r, <- Zplus_mod_idemp_l, Z.mul_comm, <- Zmult_mod_idemp_l.
Qed.

Lemma stream64_tail x p cnt dest :
  Forall is_byte x → (length x < 3)%nat → cnt mod 3 = 0 →
  ('(count, dest) ← stream 3 step64 x p cnt dest;
   final64 (count mod 3) (final_byte p x) dest) = Some (dest ++ encode64 x).
Proof.
  intros Hx Hl H0. pose proof (mod_next cnt 3 0 ltac:(lia) ltac:(lia) H0) as H1.
  pose proof (mod_next (cnt + 1) 3 1 ltac:(lia) ltac:(lia) H1) as H2. change (0 + 1) with 1 in H1.
  change (1 + 1) with 2 in H2.
  destruct x as [|a [|b [|c x]]]; [| | |cbn in Hl; lia]; cbn [stream].
  - cbn [mbind option_bind]. rewrite H0. cbn. by rewrite app_nil_r.
  - apply Forall_cons in Hx as [Ha _]. rewrite H0. cbn [Z.eqb].
    rewrite (proj1 (step64_ok 0 a _ Ha ltac:(lia))). cbn [mbind option_bind final_byte]. rewrite H1.
    rewrite (proj1 (proj2 (final64_ok a _ Ha))), <- app_assoc. cbn [encode64]. rewrite group64_1.
    cbv zeta. cbn [app map]. unfold is_byte in *. f_equal. f_equal.
    f_equal; [f_equal; zdiv|]. f_equal. f_equal. zdiv.
  - apply Forall_cons in Hx as [Ha [Hb _]%Forall_cons]. rewrite H0, H1. cbn [Z.eqb].
    rewrite (proj1 (step64_ok 0 a _ Ha ltac:(lia))). cbn [mbind option_bind].
    rewrite (proj1 (proj2 (step64_ok a b _ Hb ltac:(apply Ha)))). cbn [mbind option_bind final_byte].
    rewrite H2, (proj2 (proj2 (final64_ok b _ Hb))), <- !app_assoc. cbn [encode64]. rewrite group64_2.
    cbv zeta. cbn [app map]. unfold is_byte in *. f_equal. f_equal.
    f_equal; [f_equal; zdiv|]. f_equal; [f_equal; zdiv|]. f_equal. f_equal. zdiv.
Qed.

Lemma stream64_ok n x p cnt dest :
  (length x ≤ n)%nat → Forall is_byte x → cnt mod 3 = 0 →
  ('(count, dest) ← stream 3 step64 x p cnt dest;
   final64 (count mod 3) (final_byte p x) dest) = Some (dest ++ encode64 x).
Proof.
  revert x p cnt dest. induction n as [|n IH]; intros x p cnt dest Hn Hx H0.
  { apply stream64_tail; [done|lia|done]. }
  destruct (decide (length x < 3)%nat); [by apply stream64_tail|].
  destruct x as [|a [|b [|c x]]]; cbn in *; try lia.
  repeat (apply Forall_cons in Hx as [? Hx]).
  pose proof (stream64_group a b c x p cnt dest) as E. cbn [stream] in E. rewrite E by done.
  rewrite IH; [by rewrite <- app_assoc|lia|done|].
  rewrite <- !Z.add_assoc, Z.add_mod, H0 by lia. done.
Qed.

Lemma encode64_encoding n x : (length x ≤ n)%nat →
  encoding T 6 4 3 x (encode64 x).
Proof.
  revert x. induction n as [|n IH]; intros x Hn.
  { destruct x; [constructor|cbn in Hn; lia]. }
  destruct x as [|a [|b [|c x]]]; cbn [encode64]; [constructor|apply encoding_part; cbn; lia..|].
  apply (encoding_full _ _ _ _ [a; b; c]); [done|]. apply IH. cbn in Hn. lia.
Qed.

Lemma encode64_len n x : (length x ≤ n)%nat → Forall is_byte x → zlen (encode64 x) = howmany (zlen x) 3 * 4.
Proof.
  revert x. induction n as [|n IH]; intros x Hn Hx.
  { destruct x; [done|cbn in Hn; lia]. }
  destruct x as [|a [|b [|c x]]]; [done| | |].
  - cbn [encode64]. by rewrite group64_1.
  - cbn [encode64]. by rewrite group64_2.
  - cbn [encode64]. rewrite zlen_app, group64_3, IH by (cbn in Hn; lia || by repeat apply Forall_cons in Hx as [_ Hx]).
    rewrite !zlen_cons. cbn [map]. rewrite !zlen_cons. change (zlen []) with 0. unfold howmany. zdiv.
Qed.
End alphabet64.

Section alphabet32.
Context (T : list Z) (HT : zlen T = 32).

Lemma step32_ok last curr dest :
  is_byte curr → 0 ≤ last →
  step32 T 0 0 curr dest = Some (dest ++ [char T ((curr / 8) mod 32)]) ∧
  step32 T 1 last curr dest
  = Some (dest ++ [char T ((last * 4 + curr / 64) mod 32); char T ((curr / 2) mod 32)]) ∧
  step32 T 2 last curr dest = Some (dest ++ [char T ((last * 16 + curr / 16) mod 32)]) ∧
  step32 T 3 last curr dest
  = Some (dest ++ [char T ((last * 2 + curr / 128) mod 32); char T ((curr / 4) mod 32)]) ∧
  step32 T 4 last curr dest
  = Some (dest ++ [char T ((last * 8 + curr / 32) mod 32); char T (curr mod 32)]).
Proof.
  intros Hc Hl. unfold step32. cbn [Z.eqb Pos.eqb].
  assert (Hr : ∀ v, 0 ≤ v mod 32 < zlen T) by (intros v; rewrite HT; apply (Z.mod_pos_bound v 32); lia).
  assert (Emix : ∀ s, 0 ≤ s ≤ 8 → Z.land (Z.lor (Z.shiftl last s) (Z.shiftr curr (8 - s))) 31
    = (last * 2 ^ s + curr / 2 ^ (8 - s)) mod 32) by (intros s Hs; exact (index_mix last curr s 5 Hs ltac:(lia) Hc)).
  assert (Etop : ∀ s, 0 ≤ s → Z.land (Z.shiftr curr s) 31 = (curr / 2 ^ s) mod 32)
    by (intros s Hs; exact (index_top curr s 5 Hs ltac:(lia))).
  assert (E4 : Z.land curr 31 = curr mod 32) by exact (Z.land_ones curr 5 ltac:(lia)).
  pose proof (Emix 2 ltac:(lia)) as E2. pose proof (Emix 4 ltac:(lia)) as E3.
  pose proof (Emix 1 ltac:(lia)) as E1. pose proof (Emix 3 ltac:(lia)) as E5.
  cbn [Z.sub Z.add Z.opp Z.pos_sub Pos.pred_double] in E1, E2, E3, E5.
  change (8 - 2) with 6 in *. change (8 - 4) with 4 in *. change (8 - 1) with 7 in *. change (8 - 3) with 5 in *.
  rewrite E1, E2, E3, E4, E5, !Etop by lia. rewrite !push_char by apply Hr. cbn [mbind option_bind].
  rewrite !push_char by apply Hr. rewrite <- !app_assoc. done.
Qed.

Lemma final32_ok b dest :
  is_byte b →
  final32 T 0 b dest = Some dest ∧
  final32 T 1 b dest = Some (dest ++ char T ((b * 4) mod 32) :: replicate 6 byte_equals) ∧
  final32 T 2 b dest = Some (dest ++ char T ((b * 16) mod 32) :: replicate 4 byte_equals) ∧
  final32 T 3 b dest = Some (dest ++ char T ((b * 2) mod 32) :: replicate 3 byte_equals) ∧
  final32 T 4 b dest = Some (dest ++ char T ((b * 8) mod 32) :: replicate 1 byte_equals).
Proof.
  intros Hb. unfold final32. cbn [Z.eqb Pos.eqb orb negb].
  assert (Hr : ∀ v, 0 ≤ v mod 32 < zlen T) by (intros v; rewrite HT; apply (Z.mod_pos_bound v 32); lia).
  rewrite (index_tail 2 28 5 b), (index_tail 4 16 5 b), (index_tail 1 30 5 b), (index_tail 3 24 5 b)
    by (done || by vm_compute).
  rewrite !push_char by apply Hr. cbn [mbind option_bind]. rewrite <- !app_assoc. done.
Qed.

Lemma group32_5 a b c d e :
  group_chars T 5 8 5 [a; b; c; d; e]
  = map (char T) (let n := (((a * 256 + b) * 256 + c) * 256 + d) * 256 + e in
      [(n / 34359738368) mod 32; (n / 1073741824) mod 32; (n / 33554432) mod 32; (n / 1048576) mod 32; (n / 32768) mod 32; (n / 1024) mod 32; (n / 32) mod 32; (n / 1) mod 32]).
Proof. reflexivity. Qed.
Lemma group32_4 a b c d :
  group_chars T 5 8 5 [a; b; c; d]
  = map (char T) (let n := (((a * 256 + b) * 256 + c) * 256 + d) * 256 + 0 in
      [(n / 34359738368) mod 32; (n / 1073741824) mod 32; (n / 33554432) mod 32; (n / 1048576) mod 32; (n / 32768) mod 32; (n / 1024) mod 32; (n / 32) mod 32]) ++ [byte_equals].
Proof. reflexivity. Qed.
Lemma group32_3 a b c :
  group_chars T 5 8 5 [a; b; c]
  = map (char T) (let n := (((a * 256 + b) * 256 + c) * 256 + 0) * 256 + 0 in
      [(n / 34359738368) mod 32; (n / 1073741824) mod 32; (n / 33554432) mod 32; (n / 1048576) mod 32; (n / 32768) mod 32]) ++ [byte_equals; byte_equals; byte_equals].
Proof. reflexivity. Qed.
Lemma group32_2 a b :
  group_chars T 5 8 5 [a; b]
  = map (char T) (let n := (((a * 256 + b) * 256 + 0) * 256 + 0) * 256 + 0 in
      [(n / 34359738368) mod 32; (n / 1073741824) mod 32; (n / 33554432) mod 32; (n / 1048576) mod 32]) ++ [byte_equals; byte_equals; byte_equals; byte_equals].
Proof. reflexivity. Qed.
Lemma group32_1 a :
  group_chars T 5 8 5 [a]
  = map (char T) (let n := (((a * 256 + 0) * 256 + 0) * 256 + 0) * 256 + 0 in
      [(n / 34359738368) mod 32; (n / 1073741824) mod 32]) ++ [byte_equals; byte_equals; byte_equals; byte_equals; byte_equals; byte_equals].
Proof. reflexivity. Qed.

Lemma phases5 cnt : cnt mod 5 = 0 →
  (cnt + 1) mod 5 = 1 ∧ (cnt + 1 + 1) mod 5 = 2 ∧ (cnt + 1 + 1 + 1) mod 5 = 3 ∧ (cnt + 1 + 1 + 1 + 1) mod 5 = 4.
Proof. intros H. split_and!; zdiv. Qed.

Ltac steps32 :=
  repeat match goal with
  | Hb : is_byte ?b |- context [step32 T 0 0 ?b ?d] =>
      rewrite (proj1 (step32_ok 0 b d Hb ltac:(lia)))
  | Hb : is_byte ?b, Ha : is_byte ?a |- context [step32 T 1 ?a ?b ?d] =>
      rewrite (proj1 (proj2 (step32_ok a b d Hb (proj1 Ha))))
  | Hb : is_byte ?b, Ha : is_byte ?a |- context [step32 T 2 ?a ?b ?d] =>
      rewrite (proj1 (proj2 (proj2 (step32_ok a b d Hb (proj1 Ha)))))
  | Hb : is_byte ?b, Ha : is_byte ?a |- context [step32 T 3 ?a ?b ?d] =>
      rewrite (proj1 (proj2 (proj2 (proj2 (step32_ok a b d Hb (proj1 Ha))))))
  | Hb : is_byte ?b, Ha : is_byte ?a |- context [step32 T 4 ?a ?b ?d] =>
      rewrite (proj2 (proj2 (proj2 (proj2 (step32_ok a b d Hb (proj1 Ha))))))
  end; cbn [mbind option_bind].
(** Equal lists of characters, index by index. *)
Ltac chars := repeat (f_equal; try done; try (unfold is_byte in *; zdiv)).

Lemma stream32_group a b c d e x p cnt dest :
  is_byte a → is_byte b → is_byte c → is_byte d → is_byte e → cnt mod 5 = 0 →
  stream 5 (step32 T) (a :: b :: c :: d :: e :: x) p cnt dest
  = stream 5 (step32 T) x e (cnt + 1 + 1 + 1 + 1 + 1) (dest ++ group_chars T 5 8 5 [a; b; c; d; e]).
Proof.
  intros Ha Hb Hc Hd He H0. destruct (phases5 cnt H0) as (H1 & H2 & H3 & H4). cbn [stream].
  rewrite H0, H1, H2, H3, H4. cbn [Z.eqb]. do 5 steps32.
  f_equal. rewrite <- !app_assoc, group32_5. cbv zeta. cbn [app map]. f_equal. chars.
Qed.

Lemma stream32_tail x p cnt dest :
  Forall is_byte x → (length x < 5)%nat → cnt mod 5 = 0 →
  ('(count, dest) ← stream 5 (step32 T) x p cnt dest;
   final32 T (count mod 5) (final_byte p x) dest) = Some (dest ++ encode32 T x).
Proof.
  intros Hx Hl H0. destruct (phases5 cnt H0) as (H1 & H2 & H3 & H4).
  destruct x as [|a [|b [|c [|d [|e x]]]]]; [| | | | |cbn in Hl; lia];
    repeat (apply Forall_cons in Hx as [? Hx]); cbn [stream mbind option_bind final_byte encode32];
    rewrite ?H0, ?H1, ?H2, ?H3; cbn [Z.eqb]; do 4 steps32; rewrite ?H0, ?H1, ?H2, ?H3, ?H4.
  - cbn. by rewrite app_nil_r.
  - rewrite (proj1 (proj2 (final32_ok a _ ltac:(done)))), <- !app_assoc, group32_1. cbv zeta.
    cbn [app map replicate]. chars.
  - rewrite (proj1 (proj2 (proj2 (final32_ok b _ ltac:(done))))), <- !app_assoc, group32_2. cbv zeta.
    cbn [app map replicate]. chars.
  - rewrite (proj1 (proj2 (proj2 (proj2 (final32_ok c _ ltac:(done)))))), <- !app_assoc, group32_3. cbv zeta.
    cbn [app map replicate]. chars.
  - rewrite (proj2 (proj2 (proj2 (proj2 (final32_ok d _ ltac:(done)))))), <- !app_assoc, group32_4. cbv zeta.
    cbn [app map replicate]. chars.
Qed.

Lemma stream32_ok n x p cnt dest :
  (length x ≤ n)%nat → Forall is_byte x → cnt mod 5 = 0 →
  ('(count, dest) ← stream 5 (step32 T) x p cnt dest;
   final32 T (count mod 5) (final_byte p x) dest) = Some (dest ++ encode32 T x).
Proof.
  revert x p cnt dest. induction n as [|n IH]; intros x p cnt dest Hn Hx H0.
  { apply stream32_tail; [done|lia|done]. }
  destruct (decide (length x < 5)%nat); [by apply stream32_tail|].
  destruct x as [|a [|b [|c [|d [|e x]]]]]; cbn in Hn; cbn [length] in *; try lia.
  repeat (apply Forall_cons in Hx as [? Hx]).
  rewrite stream32_group by done. cbn [final_byte encode32].
  rewrite IH; [by rewrite <- app_assoc|lia|done|zdiv].
Qed.

Lemma encode32_encoding n x : (length x ≤ n)%nat → encoding T 5 8 5 x (encode32 T x).
Proof.
  revert x. induction n as [|n IH]; intros x Hn.
  { destruct x; [constructor|cbn in Hn; lia]. }
  destruct x as [|a [|b [|c [|d [|e x]]]]]; cbn [encode32]; [constructor|apply encoding_part; cbn; lia..|].
  apply (encoding_full _ _ _ _ [a; b; c; d; e]); [done|]. apply IH. cbn in Hn. lia.
Qed.

Lemma encode32_len n x : (length x ≤ n)%nat → zlen (encode32 T x) = howmany (zlen x) 5 * 8.
Proof.
  revert x. induction n as [|n IH]; intros x Hn.
  { destruct x; [done|cbn in Hn; lia]. }
  destruct x as [|a [|b [|c [|d [|e x]]]]]; [done| | | | |]; cbn [encode32].
  - by rewrite group32_1.
  - by rewrite group32_2.
  - by rewrite group32_3.
  - by rewrite group32_4.
  - rewrite zlen_app, group32_5, IH by (cbn in Hn; lia).
    cbn [map]. rewrite !zlen_cons. change (zlen []) with 0. unfold howmany. zdiv.
Qed.
End alphabet32.

(** ** The transforms *)
Section properties.
Context (malloc_ok : Z → bool) (Hmalloc : ∀ n, malloc_ok n = true).

(** A data object's regions, as [dispatch_data_apply] delivers them. *)
Definition wf_data (d : data) : Prop :=
  Forall (λ r, r ≠ []) d ∧ Forall is_byte (concat d) ∧ d ≠ [] ∧ zlen (concat d) < 2 ^ 58.

Lemma to_base64_ok d :
  wf_data d → _dispatch_transform_to_base64 malloc_ok d = Some (Some (dispatch_data_of (encode64 (concat d)))).
Proof.
  intros (Hne & Hb & Hd & Hsz). pose proof (zlen_nonneg (concat d)) as Hn.
  apply encode_data_ok; [lia|done..|lia| |lia| |].
  - unfold howmany. zdiv.
  - unfold encode_run. exact (stream64_ok _ (concat d) 0 0 [] (le_n _) Hb eq_refl).
  - by apply (encode64_len (length (concat d))).
Qed.

Lemma to_base32_ok table d :
  zlen table = 32 → wf_data d →
  _dispatch_transform_to_base32_with_table malloc_ok d table
  = Some (Some (dispatch_data_of (encode32 table (concat d)))).
Proof.
  intros HT (Hne & Hb & Hd & Hsz). pose proof (zlen_nonneg (concat d)) as Hn.
  apply encode_data_ok; [lia|done..|lia| |lia| |].
  - unfold howmany. zdiv.
  - unfold encode_run. exact (stream32_ok table HT _ (concat d) 0 0 [] (le_n _) Hb eq_refl).
  - by apply (encode32_len table (length (concat d))).
Qed.

(** C34. [_dispatch_transform_to_base64], [_to_base32] and [_to_base32hex] write the
    RFC 4648 text of the bytes, wherever the regions are cut. *)
Theorem base_encode d :
  wf_data d →
  _dispatch_transform_to_base64 malloc_ok d = Some (Some (dispatch_data_of (encode64 (concat d)))) ∧
  _dispatch_transform_to_base32 malloc_ok d
    = Some (Some (dispatch_data_of (encode32 base32_encode_table (concat d)))) ∧
  _dispatch_transform_to_base32hex malloc_ok d
    = Some (Some (dispatch_data_of (encode32 base32hex_encode_table (concat d)))).
Proof.
  intros Hd. split_and!; [by apply to_base64_ok|by apply to_base32_ok|by apply to_base32_ok].
Qed.

(** C30. Decoding what [_dispatch_transform_to_base64] wrote gives the bytes back,
    also when the text is cut in regions anywhere before its padding. *)
Theorem base64_round_trip d t ds r :
  wf_data d → _dispatch_transform_to_base64 malloc_ok d = Some (Some t) →
  Forall (Forall (λ b, b ≠ byte_equals)) ds → r ≠ [] → concat (ds ++ [r]) = concat t →
  ∃ d', _dispatch_transform_from_base64 malloc_ok (ds ++ [r]) = Some (Some d') ∧ concat d' = concat d.
Proof.
  intros Hd E Hds Hr Ht. rewrite (to_base64_ok d Hd) in E. injection E as <-.
  destruct Hd as (Hne & Hb & Hd0 & Hsz).
  apply (decode_data_ok _ _ _ _ _ _ _ tables64_ok malloc_ok Hmalloc (concat d) (encode64 (concat d)));
    [done|by eapply encode64_encoding|done| |done|done|].
  - rewrite (encode64_len (length (concat d))) by done. pose proof (zlen_nonneg (concat d)). unfold howmany. zdiv.
  - rewrite Ht. unfold dispatch_data_of. destruct (Z.eqb_spec (zlen (encode64 (concat d))) 0) as [E|E].
    + destruct (encode64 _); [done|]. rewrite zlen_cons in E. pose proof (zlen_nonneg l). lia.
    + cbn. by rewrite app_nil_r.
Qed.

(** The same for base 32. *)
Theorem base32_round_trip d t ds r :
  wf_data d → _dispatch_transform_to_base32 malloc_ok d = Some (Some t) →
  Forall (Forall (λ b, b ≠ byte_equals)) ds → r ≠ [] → concat (ds ++ [r]) = concat t →
  ∃ d', _dispatch_transform_from_base32 malloc_ok (ds ++ [r]) = Some (Some d') ∧ concat d' = concat d.
Proof.
  intros Hd E Hds Hr Ht. unfold _dispatch_transform_to_base32 in E. rewrite (to_base32_ok base32_encode_table d eq_refl Hd) in E.
  injection E as <-. destruct Hd as (Hne & Hb & Hd0 & Hsz).
  apply (decode_data_ok _ _ _ _ _ _ _ tables32_ok malloc_ok Hmalloc (concat d)
    (encode32 base32_encode_table (concat d)));
    [done|by eapply encode32_encoding|done| |done|done|].
  - rewrite (encode32_len _ (length (concat d))) by done. pose proof (zlen_nonneg (concat d)). unfold howmany. zdiv.
  - rewrite Ht. unfold dispatch_data_of.
    destruct (Z.eqb_spec (zlen (encode32 base32_encode_table (concat d))) 0) as [E|E].
    + destruct (encode32 _ _); [done|]. rewrite zlen_cons in E. pose proof (zlen_nonneg l). lia.
    + cbn. by rewrite app_nil_r.
Qed.

(** [_dispatch_transform_from_base32hex] rejects every text: its table is cut
    to the 33 bytes of the other table, none of which stands for a digit. *)
Theorem base32hex_rejects b l d :
  is_byte b → b ≠ byte_newline → b ≠ byte_tab → b ≠ byte_space →
  _dispatch_transform_from_base32hex malloc_ok ((b :: l) :: d) = Some None.
Proof.
  intros Hb Hn Ht Hs. unfold _dispatch_transform_from_base32hex, _dispatch_transform_from_base32_with_table, decode_data, decode_region.
  cbn [apply_regions]. rewrite Hmalloc. cbn [negb decode_bytes x count pad].
  rewrite (proj2 (Z.eqb_neq _ _) Hn), (proj2 (Z.eqb_neq _ _) Ht), (proj2 (Z.eqb_neq _ _) Hs). cbn [orb].
  change base32hex_decode_table_size with 33. destruct (Z.leb_spec 33 b); [done|].
  assert (Hc : match base32hex_decode_table.[b] with Some w => w =? -1 | None => false end = true).
  { apply (forall_range (λ b, match base32hex_decode_table.[b] with Some w => w =? -1 | None => false end) 0 33);
      [by vm_compute|unfold is_byte in Hb; lia]. }
  destruct (base32hex_decode_table.[b]) as [w|]; [|done]. cbn [mbind option_bind]. by rewrite Hc.
Qed.
End properties.

(** Text whose padding is cut by a region: the count of padding is subtracted
    again in every later region, below zero or from bytes that are data. *)
Theorem base64_padding_across_regions :
  _dispatch_transform_from_base64 (λ _, true) [ascii_bytes "TQ=="] = Some (Some [[77]]) ∧
  _dispatch_transform_from_base64 (λ _, true) [ascii_bytes "TQ="; ascii_bytes "="] = None ∧
  _dispatch_transform_from_base64 (λ _, true) [ascii_bytes "TQ=="; [byte_newline]] = None ∧
  _dispatch_transform_from_base64 (λ _, true) [ascii_bytes "TWFuTQ="; ascii_bytes "="]
  = Some (Some [[77; 97]; [77]]).
Proof. by vm_compute. Qed.

(** ** Witnesses *)

Lemma base_encode_witness :
  _dispatch_transform_to_base64 (λ _, true) [[77; 97]; [110; 77]]
    = Some (Some (dispatch_data_of (encode64 [77; 97; 110; 77]))) ∧
  _dispatch_transform_to_base32 (λ _, true) [[77; 97]; [110; 77]]
    = Some (Some (dispatch_data_of (encode32 base32_encode_table [77; 97; 110; 77]))) ∧
  _dispatch_transform_to_base32hex (λ _, true) [[77; 97]; [110; 77]]
    = Some (Some (dispatch_data_of (encode32 base32hex_encode_table [77; 97; 110; 77]))).
Proof.
  apply (base_encode (λ _, true) (λ _, eq_refl) [[77; 97]; [110; 77]]).
  split_and!; [by repeat constructor|by_decide|done|done].
Defined.

Lemma base64_round_trip_witness :
  ∃ d', _dispatch_transform_from_base64 (λ _, true) ([ascii_bytes "TWFu"] ++ [ascii_bytes "TQ=="])
        = Some (Some d') ∧ concat d' = [77; 97; 110; 77].
Proof.
  apply (base64_round_trip (λ _, true) (λ _, eq_refl) [[77; 97]; [110; 77]] [ascii_bytes "TWFuTQ=="]).
  - split_and!; [by repeat constructor|by_decide|done|done].
  - by vm_compute.
  - by_decide.
  - done.
  - by vm_compute.
Defined.

Lemma base32_round_trip_witness :
  ∃ d', _dispatch_transform_from_base32 (λ _, true) ([ascii_bytes "JVQ"] ++ [ascii_bytes "W4TI="])
        = Some (Some d') ∧ concat d' = [77; 97; 110; 77].
Proof.
  apply (base32_round_trip (λ _, true) (λ _, eq_refl) [[77; 97]; [110; 77]] [ascii_bytes "JVQW4TI="]).
  - split_and!; [by repeat constructor|by_decide|done|done].
  - by vm_compute.
  - by_decide.
  - done.
  - by vm_compute.
Defined.

Lemma base32hex_rejects_witness :
  _dispatch_transform_from_base32hex (λ _, true) [ascii_bytes "9LGMSJ8="] = Some None.
Proof.
  apply (base32hex_rejects (λ _, true) (λ _, eq_refl) 57 (ascii_bytes "LGMSJ8=") []);
    [by_decide|done..].
Defined.
