(* ===== verification/TransformUtf.v ===== *)
(** * UTF-8 and UTF-16 transforms (libdispatch src/transform.c)

    The blocks of [_dispatch_transform_to_utf16] and [_from_utf16] over the
    regions of a data object, with their growing output buffer and the bytes
    they skip in a region because the region before it read ahead.  The host is
    little-endian.  [None] is a memory error; [Some None] the C [NULL]. *)
From S2P Require Import Prelude TransformBase.
From stdpp Require Import list.
Open Scope Z_scope.

Inductive byteOrder := OSLittleEndian | OSBigEndian.

(** A 16-bit word in host memory, and the byte swap. *)
Definition store16 (v : Z) : list Z := [v mod 256; v / 256 mod 256].
Definition load16 (b0 b1 : Z) : Z := b0 + 256 * b1.
Definition swap16 (v : Z) : Z := v mod 256 * 256 + v / 256 mod 256.

Definition _dispatch_transform_swap_to_host (x : Z) (order : byteOrder) : Z :=
  match order with OSLittleEndian => x | OSBigEndian => swap16 x end.
Definition _dispatch_transform_swap_from_host (x : Z) (order : byteOrder) : Z :=
  match order with OSLittleEndian => x | OSBigEndian => swap16 x end.

(** ** [dispatch_transform_buffer_s] *)

(** [written] is what lies between [start] and [ptr]; [allocated] whether
    [start] is not [NULL]. *)
Record transform_buffer := {
  buffer_data : data;
  allocated : bool;
  written : list Z;
  buffer_size : Z;
}.

Definition BUFFER_MALLOC_MAX : Z := 100 * 1024 * 1024.

Definition empty_buffer : transform_buffer :=
  {| buffer_data := []; allocated := false; written := []; buffer_size := 0 |}.

(** [*(buffer.ptr)++ = ...] for each byte. *)
Definition put (b : transform_buffer) (l : list Z) : option transform_buffer :=
  if allocated b && (zlen (written b) + zlen l <=? buffer_size b)
  then Some {| buffer_data := buffer_data b; allocated := true; written := written b ++ l;
               buffer_size := buffer_size b |}
  else None.

(** ** UTF-8 *)

Definition _dispatch_transform_utf8_length (byte : Z) : Z :=
  if Z.land byte 0x80 =? 0 then 1
  else if Z.land byte 0xe0 =? 0xc0 then 2
  else if Z.land byte 0xf0 =? 0xe0 then 3
  else if Z.land byte 0xf8 =? 0xf0 then 4
  else 0.

(** [while (seq_length > 0)] over the continuation bytes. *)
Fixpoint read_continuation (seq_length : nat) (bytes : list Z) (wch : Z) : option Z :=
  match seq_length with
  | O => Some wch
  | S seq_length =>
      match bytes with
      | [] => None
      | b :: bytes =>
          let wch := Z.lor wch (Z.land b 0x3f) in
          let wch := if (0 <? Z.of_nat seq_length) then u32 (Z.shiftl wch 6) else wch in
          read_continuation seq_length bytes wch
      end
  end.

(** The decrement of a zero [uint8_t seq_length] wraps to 255. *)
Definition _dispatch_transform_read_utf8_sequence (bytes : list Z) : option Z :=
  match bytes with
  | [] => None
  | b :: bytes =>
      let seq_length := _dispatch_transform_utf8_length b in
      let wch :=
        if seq_length =? 4 then Z.shiftl (Z.land b 0x7) 6
        else if seq_length =? 3 then Z.shiftl (Z.land b 0xf) 6
        else if seq_length =? 2 then Z.shiftl (Z.land b 0x1f) 6
        else if seq_length =? 1 then Z.land b 0x7f
        else 0 in
      read_continuation (Z.to_nat (u8 (seq_length - 1))) bytes wch
  end.

(** What lies in the memory after a buffer of two mapped bytes: six bytes, or
    [None] when they cannot all be read. *)
Class Beyond := beyond : list Z → option (list Z).

Section transforms.
Context (malloc_ok : Z → bool) `{Bm : Beyond}.

Definition _dispatch_transform_buffer_new (b : transform_buffer) (required size : Z)
    : bool * transform_buffer :=
  let remaining := u64 (buffer_size b - zlen (written b)) in
  if (required =? 0) || (remaining <? required) then
    let d := if allocated b then buffer_data b ++ dispatch_data_of (written b) else buffer_data b in
    let n := u64 (required + size) in
    if 0 <? n then
      if (BUFFER_MALLOC_MAX <? n) || negb (malloc_ok n)
      then (false, {| buffer_data := d; allocated := false; written := []; buffer_size := n |})
      else (true, {| buffer_data := d; allocated := true; written := []; buffer_size := n |})
    else (true, {| buffer_data := d; allocated := false; written := []; buffer_size := n |})
  else (true, b).

(** [if (!_dispatch_transform_buffer_new(...)) return false;] then the writes;
    [Some None] is the return. *)
Definition new_and_put (b : transform_buffer) (required size : Z) (l : list Z)
    : option (option transform_buffer) :=
  let '(ok, b) := _dispatch_transform_buffer_new b required size in
  if negb ok then Some None else b ← put b l; Some (Some b).

Record utf_state := { skip : Z; buffer : transform_buffer }.

(** ** To UTF-16 *)

(** The writes for one code point; [at_bom] when it ends at byte 3. *)
Definition write_utf16 (order : byteOrder) (b : transform_buffer) (wch next : Z) (at_bom : bool)
    : option (option transform_buffer) :=
  let word v := store16 (_dispatch_transform_swap_from_host v order) in
  if (wch =? 0xfeff) && at_bom then Some (Some b)
  else if (0xd800 <=? wch) && (wch <? 0xdfff) then Some None
  else if 0x10000 <=? wch then
    let wch' := wch - 0x10000 in
    new_and_put b 4 next
      (word (Z.land (Z.shiftr wch' 10) 0x3ff + 0xd800) ++ word (Z.land wch' 0x3ff + 0xdc00))
  else new_and_put b 2 next (word (Z.land wch 0xffff)).

(** The loop over one region: [src] is what is left of it, [size] its size
    without the skipped bytes. *)
Fixpoint to_utf16_loop (order : byteOrder) (d : data) (offset size : Z) (fuel : nat)
    (src : list Z) (i : Z) (st : utf_state) : option (option utf_state) :=
  match fuel with
  | O => if i <? size then None else Some (Some st)
  | S fuel =>
      if size <=? i then Some (Some st) else
      b ← src.[0];
      let byte_size := _dispatch_transform_utf8_length b in
      if byte_size =? 0 then Some None
      else if size <? byte_size + i then
        match _dispatch_data_subrange_map d (offset + i) byte_size with
        | None => Some None
        | Some p =>
            wch ← _dispatch_transform_read_utf8_sequence p;
            let skip' := skip st + (byte_size - (size - i)) in
            r ← write_utf16 order (buffer st) wch 0 (offset + size =? 3);
            match r with
            | None => Some None
            | Some b => to_utf16_loop order d offset size fuel [] size {| skip := skip'; buffer := b |}
            end
        end
      else
        wch ← _dispatch_transform_read_utf8_sequence src;
        let i := i + byte_size in
        r ← write_utf16 order (buffer st) wch ((size - i) * 2) (offset + i =? 3);
        match r with
        | None => Some None
        | Some b =>
            to_utf16_loop order d offset size fuel (drop (Z.to_nat byte_size) src) i
              {| skip := skip st; buffer := b |}
        end
  end.

(** The end of both blocks. *)
Definition finish_region (r : option utf_state) : bool * utf_state :=
  match r with
  | None => (false, {| skip := 0; buffer := empty_buffer |})
  | Some st =>
      (true, {| skip := skip st; buffer := snd (_dispatch_transform_buffer_new (buffer st) 0 0) |})
  end.

Definition to_utf16_region (order : byteOrder) (d : data) (offset : Z) (region : list Z)
    (st : utf_state) : option (bool * utf_state) :=
  let size := zlen region in
  r ←
    (if offset =? 0 then
       if 2 ^ 64 <=? size * 2 + 2 then Some None else
       new_and_put (buffer st) (size * 2 + 2) 0
         (store16 (_dispatch_transform_swap_from_host 0xfeff order))
     else Some (Some (buffer st)));
  match r with
  | None => Some (finish_region None)
  | Some b =>
      if size <=? skip st then Some (true, {| skip := skip st - size; buffer := b |}) else
      let src := drop (Z.to_nat (skip st)) region in
      r ← to_utf16_loop order d offset (size - skip st) (length src) src 0 {| skip := 0; buffer := b |};
      Some (finish_region r)
  end.

Definition finish_transform (r : bool * utf_state) : option data :=
  if fst r then Some (buffer_data (buffer (snd r))) else None.

Definition _dispatch_transform_to_utf16 (d : data) (order : byteOrder) : option (option data) :=
  r ← apply_regions (to_utf16_region order d) 0 d {| skip := 0; buffer := empty_buffer |};
  Some (finish_transform r).

(** ** From UTF-16 *)

Definition write_utf8 (b : transform_buffer) (wch next : Z) : option (option transform_buffer) :=
  if wch <? 0x80 then new_and_put b 1 next [Z.land wch 0xff]
  else if wch <? 0x800 then
    new_and_put b 2 next [Z.lor 0xc0 (Z.shiftr wch 6); Z.lor 0x80 (Z.land wch 0x3f)]
  else if wch <? 0x10000 then
    new_and_put b 3 next [Z.lor 0xe0 (Z.shiftr wch 12); Z.lor 0x80 (Z.land (Z.shiftr wch 6) 0x3f);
                          Z.lor 0x80 (Z.land wch 0x3f)]
  else if wch <? 0x200000 then
    new_and_put b 4 next [Z.lor 0xf0 (Z.shiftr wch 18); Z.lor 0x80 (Z.land (Z.shiftr wch 12) 0x3f);
                          Z.lor 0x80 (Z.land (Z.shiftr wch 6) 0x3f); Z.lor 0x80 (Z.land wch 0x3f)]
  else Some (Some b).

(** [src[i]]. *)
Definition word_at (src : list Z) (i : Z) : option Z :=
  b0 ← src.[2 * i]; b1 ← src.[2 * i + 1]; Some (load16 b0 b1).

(** A word that crosses the end of the region, through a mapping of two bytes: the
    second of a surrogate pair. *)
Definition mapped_word (d : data) (offset : Z) : option Z :=
  p ← _dispatch_data_subrange_map d offset 2; word_at p 0.

(** The word whose first byte ends the region, a [uint64_t] cast to [uint16_t]:
    eight bytes are read through the mapping of two, which may fault. A [None]
    inside is the failed mapping. *)
Definition load64 (m : list Z) : option Z :=
  match m with
  | b0 :: b1 :: b2 :: b3 :: b4 :: b5 :: b6 :: b7 :: _ =>
      Some (load16 b0 b1 + 2 ^ 16 * load16 b2 b3 + 2 ^ 32 * load16 b4 b5 + 2 ^ 48 * load16 b6 b7)
  | _ => None
  end.
Definition mapped_word64 (d : data) (offset : Z) : option (option Z) :=
  match _dispatch_data_subrange_map d offset 2 with
  | None => Some None
  | Some p => rest ← beyond p; w ← load64 (p ++ rest); Some (Some (u16 w))
  end.

(** The loop over one region of [max] words; [whole] of them lie in it. *)
Fixpoint from_utf16_loop (order : byteOrder) (d : data) (offset max whole : Z) (fuel : nat)
    (src : list Z) (i : Z) (st : utf_state) : option (option utf_state) :=
  match fuel with
  | O => if i <? max then None else Some (Some st)
  | S fuel =>
      if max <=? i then Some (Some st) else
      let next_word := from_utf16_loop order d offset max whole fuel src in
      (* the first word: a [None] inside is the failed mapping *)
      '(ch, skip1) ←
        (if (i =? max - 1) && (whole <? max)
         then w ← mapped_word64 d (offset + i * 2); Some (w, skip st + 1)
         else w ← word_at src i; Some (Some w, skip st));
      match ch with
      | None => Some None
      | Some w =>
          let ch := _dispatch_transform_swap_to_host w order in
          if (ch =? 0xfffe) && (offset =? 0) && (i =? 0) then Some None
          else if (ch =? 0xfeff) && (offset =? 0) && (i =? 0) then
            next_word (i + 1) {| skip := skip1; buffer := buffer st |}
          else if (0xd800 <=? ch) && (ch <=? 0xdbff) then
            let i := i + 1 in
            '(ch2, skip2) ←
              (if max <=? i then Some (mapped_word d (offset + i * 2), skip1 + 2)
               else w ← word_at src i; Some (Some w, skip1));
            match ch2 with
            | None => Some None
            | Some w2 =>
                let ch2 := _dispatch_transform_swap_to_host w2 order in
                if negb ((0xdc00 <=? ch2) && (ch2 <=? 0xdfff)) then Some None else
                let wch := Z.lor (Z.shiftl (ch - 0xd800) 10) (Z.land ch2 0x3ff) + 0x10000 in
                r ← write_utf8 (buffer st) wch (u64 ((max - i) * 2));
                match r with
                | None => Some None
                | Some b => next_word (i + 1) {| skip := skip2; buffer := b |}
                end
            end
          else if (0xdc00 <=? ch) && (ch <=? 0xdfff) then Some None
          else
            r ← write_utf8 (buffer st) ch ((max - i) * 2);
            match r with
            | None => Some None
            | Some b => next_word (i + 1) {| skip := skip1; buffer := b |}
            end
      end
  end.

Definition from_utf16_region (order : byteOrder) (d : data) (offset : Z) (region : list Z)
    (st : utf_state) : option (bool * utf_state) :=
  let size := zlen region in
  let '(ok, b) :=
    if offset =? 0 then _dispatch_transform_buffer_new (buffer st) (howmany size 3 * 2) 0
    else (true, buffer st) in
  if negb ok then Some (finish_region None) else
  if size <=? skip st then Some (true, {| skip := skip st - size; buffer := b |}) else
  let src := drop (Z.to_nat (skip st)) region in
  let size := size - skip st in
  let max := if negb (size mod 2 =? 0) then size / 2 + 1 else size / 2 in
  r ← from_utf16_loop order d offset max (size / 2) (Z.to_nat max) src 0 {| skip := 0; buffer := b |};
  Some (finish_region r).

Definition _dispatch_transform_from_utf16 (d : data) (order : byteOrder) : option (option data) :=
  r ← apply_regions (from_utf16_region order d) 0 d {| skip := 0; buffer := empty_buffer |};
  Some (finish_transform r).

(** ** The byte order mark of UTF-8 *)

(** [dispatch_data_create_subrange(data, n, size - n)] on the regions. *)
Fixpoint subrange_from (n : Z) (d : data) : data :=
  match d with
  | [] => []
  | region :: d =>
      if zlen region <=? n then subrange_from (n - zlen region) d
      else drop (Z.to_nat n) region :: d
  end.

(** The data after the mark; the object itself without one. *)
Definition _dispatch_transform_to_utf8_without_bom (d : data) : data :=
  match _dispatch_data_subrange_map d 0 3 with
  | Some p => if bool_decide (p = [0xef; 0xbb; 0xbf]) then subrange_from 3 d else d
  | None => d
  end.

Inductive utf_type := UTF8 | UTF16_HOST | UTF16_REV.

Definition _dispatch_transform_detect_utf (d : data) : option (option utf_type) :=
  match _dispatch_data_subrange_map d 0 2 with
  | None => Some None
  | Some p =>
      ch ← word_at p 0;
      Some (Some (if ch =? 0xfeff then UTF16_HOST else if ch =? 0xfffe then UTF16_REV else UTF8))
  end.
End transforms.

(** ** The encoding forms, on numbers *)

(** A Unicode scalar value: not a surrogate. *)
Definition scalar (c : Z) : Prop := 0 ≤ c < 0xd800 ∨ 0xe000 ≤ c < 0x110000.
#[export] Instance scalar_dec c : Decision (scalar c).
Proof. unfold scalar. apply _. Defined.

Definition utf8 (c : Z) : list Z :=
  if c <? 0x80 then [c]
  else if c <? 0x800 then [0xc0 + c / 64; 0x80 + c mod 64]
  else if c <? 0x10000 then [0xe0 + c / 4096; 0x80 + c / 64 mod 64; 0x80 + c mod 64]
  else [0xf0 + c / 262144; 0x80 + c / 4096 mod 64; 0x80 + c / 64 mod 64; 0x80 + c mod 64].

Definition utf16 (c : Z) : list Z :=
  if c <? 0x10000 then [c]
  else [0xd800 + (c - 0x10000) / 1024; 0xdc00 + (c - 0x10000) mod 1024].

Definition word_bytes (order : byteOrder) (w : Z) : list Z :=
  match order with
  | OSLittleEndian => [w mod 256; w / 256]
  | OSBigEndian => [w / 256; w mod 256]
  end.

Definition utf16_bytes (order : byteOrder) (l : list Z) : list Z :=
  flat_map (word_bytes order) (flat_map utf16 l).

Definition strip_bom (l : list Z) : list Z :=
  match l with c :: l' => if c =? 0xfeff then l' else l | [] => [] end.

(** ** Bits of the code points *)

Lemma lor_add x y k : 0 ≤ k → 0 ≤ y < 2 ^ k → Z.lor (Z.shiftl x k) y = x * 2 ^ k + y.
Proof.
  intros Hk Hy. rewrite <- Z.shiftl_mul_pow2 by done. rewrite <- Z.add_lor_land.
  replace (Z.land _ _) with 0; [lia|]. symmetry. apply Z.bits_inj'. intros n Hn.
  rewrite Z.bits_0, Z.land_spec. destruct (decide (n < k)); [by rewrite Z.shiftl_spec_low|].
  rewrite <- (Z.mod_small y (2 ^ k)), Z.mod_pow2_bits_high by lia. apply andb_false_r.
Qed.

Lemma mask_ones m k v : m = Z.ones k → 0 ≤ k → Z.land v m = v mod 2 ^ k.
Proof. intros -> Hk. by apply Z.land_ones. Qed.

(** [Z.land b (Z.ones k)] of a tagged byte is its payload. *)
Lemma land_payload m t x k : m = Z.ones k → 0 ≤ k → t mod 2 ^ k = 0 → 0 ≤ x < 2 ^ k → Z.land (t + x) m = x.
Proof.
  intros -> Hk Ht Hx. rewrite Z.land_ones by done. rewrite Z.add_mod, Ht, Z.add_0_l by lia.
  rewrite Z.mod_mod by lia. by apply Z.mod_small.
Qed.

Lemma utf8_length_1 c : 0 ≤ c < 0x80 → _dispatch_transform_utf8_length c = 1.
Proof. intros H. apply Z.eqb_eq. revert c H. apply forall_range. by vm_compute. Qed.
Lemma utf8_length_2 c : 0xc0 ≤ c < 0xe0 → _dispatch_transform_utf8_length c = 2.
Proof. intros H. apply Z.eqb_eq. revert c H. apply (forall_range (λ c, _ =? 2)). by vm_compute. Qed.
Lemma utf8_length_3 c : 0xe0 ≤ c < 0xf0 → _dispatch_transform_utf8_length c = 3.
Proof. intros H. apply Z.eqb_eq. revert c H. apply (forall_range (λ c, _ =? 3)). by vm_compute. Qed.
Lemma utf8_length_4 c : 0xf0 ≤ c < 0xf8 → _dispatch_transform_utf8_length c = 4.
Proof. intros H. apply Z.eqb_eq. revert c H. apply (forall_range (λ c, _ =? 4)). by vm_compute. Qed.

(** A continuation byte appends six bits. *)
Lemma read_step n x y bytes :
  0 ≤ y < 64 → 0 ≤ x → (x * 64 + y) * 64 < 2 ^ 32 →
  read_continuation (S n) (0x80 + y :: bytes) (Z.shiftl x 6)
  = read_continuation n bytes (if 0 <? Z.of_nat n then Z.shiftl (x * 64 + y) 6 else x * 64 + y).
Proof.
  intros Hy Hx Hb. cbn [read_continuation].
  rewrite (land_payload 0x3f 0x80 y 6) by (done || lia). rewrite lor_add by lia.
  f_equal. destruct (_ <? _); [|done]. unfold u32. apply Z.mod_small.
  rewrite Z.shiftl_mul_pow2 by lia. change (2 ^ 6) with 64. lia.
Qed.

Lemma read_last x y bytes :
  0 ≤ y < 64 → 0 ≤ x → (x * 64 + y) * 64 < 2 ^ 32 →
  read_continuation 1 (0x80 + y :: bytes) (Z.shiftl x 6) = Some (x * 64 + y).
Proof. intros. by rewrite read_step. Qed.

Lemma read_more n x y bytes :
  0 ≤ y < 64 → 0 ≤ x → (x * 64 + y) * 64 < 2 ^ 32 →
  read_continuation (S (S n)) (0x80 + y :: bytes) (Z.shiftl x 6)
  = read_continuation (S n) bytes (Z.shiftl (x * 64 + y) 6).
Proof. intros. by rewrite read_step. Qed.

Ltac len_bounds := rewrite !zlen_cons; change (zlen []) with 0; lia.

Lemma read_utf8 c rest : scalar c →
  _dispatch_transform_read_utf8_sequence (utf8 c ++ rest) = Some c ∧
  ∃ b l, utf8 c = b :: l ∧ _dispatch_transform_utf8_length b = zlen (utf8 c) ∧ 1 ≤ zlen (utf8 c) ≤ 4.
Proof.
  intros Hc. unfold utf8, scalar in *.
  destruct (Z.ltb_spec c 0x80).
  { cbn [app]. split; [|exists c, []; split; [done|]; split; [apply utf8_length_1; lia|len_bounds]].
    unfold _dispatch_transform_read_utf8_sequence. rewrite utf8_length_1 by lia. cbn.
    by rewrite <- (land_payload 0x7f 0 c 7) at 2 by (done || lia). }
  destruct (Z.ltb_spec c 0x800).
  { assert (0xc0 ≤ 0xc0 + c / 64 < 0xe0) by zdiv. cbn [app].
    split; [|eexists _, _; split; [done|]; split; [by apply utf8_length_2|len_bounds]].
    unfold _dispatch_transform_read_utf8_sequence. rewrite utf8_length_2 by done. cbn [Z.eqb Pos.eqb].
    rewrite (land_payload 0x1f 0xc0 (c / 64) 5) by (done || zdiv).
    change (Z.to_nat (u8 (2 - 1))) with 1%nat.
    rewrite read_last by zdiv. f_equal. zdiv. }
  destruct (Z.ltb_spec c 0x10000).
  { assert (0xe0 ≤ 0xe0 + c / 4096 < 0xf0) by zdiv. cbn [app].
    split; [|eexists _, _; split; [done|]; split; [by apply utf8_length_3|len_bounds]].
    unfold _dispatch_transform_read_utf8_sequence. rewrite utf8_length_3 by done. cbn [Z.eqb Pos.eqb].
    rewrite (land_payload 0xf 0xe0 (c / 4096) 4) by (done || zdiv).
    change (Z.to_nat (u8 (3 - 1))) with 2%nat.
    rewrite read_more by zdiv.
    rewrite read_last by zdiv. f_equal. zdiv. }
  assert (0xf0 ≤ 0xf0 + c / 262144 < 0xf8) by zdiv. cbn [app].
  split; [|eexists _, _; split; [done|]; split; [by apply utf8_length_4|len_bounds]].
  unfold _dispatch_transform_read_utf8_sequence. rewrite utf8_length_4 by done. cbn [Z.eqb Pos.eqb].
  rewrite (land_payload 0x7 0xf0 (c / 262144) 3) by (done || zdiv).
  change (Z.to_nat (u8 (4 - 1))) with 3%nat.
  rewrite read_more by zdiv.
  rewrite read_more by zdiv.
  rewrite read_last by zdiv. f_equal. zdiv.
Qed.

(** ** The output buffer *)

(** All bytes written so far. *)
Definition contents (b : transform_buffer) : list Z := concat (buffer_data b) ++ written b.

Record wf_buffer (b : transform_buffer) : Prop := {
  written_fits : zlen (written b) ≤ buffer_size b < 2 ^ 64;
  unallocated : allocated b = false → written b = [] ∧ buffer_size b = 0;
}.

Lemma wf_empty_buffer : wf_buffer empty_buffer.
Proof. split; [cbn; rewrite ?zlen_nil; lia|done]. Qed.

Lemma concat_data_of l : concat (dispatch_data_of l) = l.
Proof.
  unfold dispatch_data_of. destruct (Z.eqb_spec (zlen l) 0) as [E|].
  - destruct l; [done|]. rewrite zlen_cons in E. pose proof (zlen_nonneg l). lia.
  - cbn. apply app_nil_r.
Qed.

Section writing.
Context (malloc_ok : Z → bool) `{Bm : Beyond} (Hmalloc : ∀ n, malloc_ok n = true).

(** Room is made without losing a byte. *)
Lemma buffer_new_ok b required size :
  wf_buffer b → 0 ≤ required → 0 ≤ size → required + size ≤ BUFFER_MALLOC_MAX →
  ∃ b', _dispatch_transform_buffer_new malloc_ok b required size = (true, b') ∧
    wf_buffer b' ∧ contents b' = contents b ∧
    (0 < required → allocated b' = true ∧ zlen (written b') + required ≤ buffer_size b') ∧
    (required = 0 → written b' = []).
Proof.
  intros [Hfit Hun] Hr Hs Hmax. unfold _dispatch_transform_buffer_new, BUFFER_MALLOC_MAX in *.
  pose proof (zlen_nonneg (written b)). unfold u64. rewrite !Z.mod_small by lia.
  assert (Hc : concat (if allocated b then buffer_data b ++ dispatch_data_of (written b) else buffer_data b)
    = contents b).
  { unfold contents. destruct (allocated b) eqn:Ea; [by rewrite concat_app, concat_data_of|].
    destruct (Hun eq_refl) as [-> _]. by rewrite app_nil_r. }
  destruct (Z.eqb_spec required 0) as [->|Hne]; cbn [orb].
  - rewrite Z.add_0_l in *. destruct (Z.ltb_spec 0 size).
    + rewrite Hmalloc. destruct (Z.ltb_spec (100 * 1024 * 1024) size); [lia|]. cbn [orb negb].
      eexists. split; [done|]. split; [split; cbn; [rewrite ?zlen_nil; lia|done]|].
      unfold contents at 1. cbn. rewrite app_nil_r. split_and!; [done|lia|done].
    + eexists. split; [done|]. split; [split; cbn; [rewrite ?zlen_nil; lia|intros _; split; [done|lia]]|].
      unfold contents at 1. cbn. rewrite app_nil_r. split_and!; [done|lia|done].
  - destruct (Z.ltb_spec (buffer_size b - zlen (written b)) required) as [Hlt|Hge].
    + destruct (Z.ltb_spec 0 (required + size)); [|lia].
      rewrite Hmalloc. destruct (Z.ltb_spec (100 * 1024 * 1024) (required + size)); [lia|]. cbn [orb negb].
      eexists. split; [done|]. split; [split; cbn; [rewrite ?zlen_nil; lia|done]|].
      unfold contents at 1. cbn. rewrite app_nil_r. split_and!; [done| |done].
      intros _. split; [done|rewrite zlen_nil; lia].
    + exists b. split; [done|]. split; [by split|]. split; [done|]. split; [|done].
      intros _. split; [|lia]. destruct (allocated b); [done|]. destruct (Hun eq_refl) as [E1 E2].
      rewrite E1, E2 in Hge. change (zlen (@nil Z)) with 0 in Hge. lia.
Qed.

Lemma new_and_put_ok b required size l :
  wf_buffer b → zlen l ≤ required → 0 < required → 0 ≤ size → required + size ≤ BUFFER_MALLOC_MAX →
  ∃ b', new_and_put malloc_ok b required size l = Some (Some b') ∧ wf_buffer b' ∧
    contents b' = contents b ++ l.
Proof.
  intros Hw Hl Hr Hs Hmax. unfold new_and_put.
  destruct (buffer_new_ok b required size Hw) as (b1 & -> & [Hfit Hun] & Hc & Ha & _); [lia|done|done|].
  destruct (Ha Hr) as [Hall Hroom]. cbn [negb]. unfold put. rewrite Hall.
  destruct (Z.leb_spec (zlen (written b1) + zlen l) (buffer_size b1)); [|lia].
  cbn [andb mbind option_bind]. eexists. split; [done|]. split.
  - split; cbn; [rewrite zlen_app; lia|done].
  - unfold contents at 1. cbn. by rewrite <- Hc, app_assoc.
Qed.

Lemma word_bytes_ok order w :
  0 ≤ w < 0x10000 → store16 (_dispatch_transform_swap_from_host w order) = word_bytes order w.
Proof.
  intros Hw. unfold store16. destruct order; cbn [_dispatch_transform_swap_from_host word_bytes].
  - f_equal. f_equal. zdiv.
  - unfold swap16. f_equal; [zdiv|]. f_equal. zdiv.
Qed.

Lemma load_word order w :
  0 ≤ w < 0x10000 →
  ∃ b0 b1, word_bytes order w = [b0; b1] ∧ _dispatch_transform_swap_to_host (load16 b0 b1) order = w.
Proof.
  intros Hw. destruct order; cbn; eexists _, _; (split; [done|]); unfold load16, swap16; zdiv.
Qed.

Lemma write_utf16_ok order b c next at_bom :
  wf_buffer b → scalar c → 0 ≤ next → next + 4 ≤ BUFFER_MALLOC_MAX →
  ∃ b', write_utf16 malloc_ok order b c next at_bom = Some (Some b') ∧ wf_buffer b' ∧
    contents b' = contents b ++ (if (c =? 0xfeff) && at_bom then [] else utf16_bytes order [c]).
Proof.
  intros Hw Hc Hn Hmax. unfold write_utf16, utf16_bytes, scalar in *. cbn [flat_map]. rewrite app_nil_r.
  destruct ((c =? 0xfeff) && at_bom); [by exists b; rewrite app_nil_r|].
  destruct (Z.leb_spec 0xd800 c), (Z.ltb_spec c 0xdfff); cbn [andb]; try lia;
    unfold utf16; destruct (Z.leb_spec 0x10000 c), (Z.ltb_spec c 0x10000); try lia; cbn [flat_map];
    rewrite ?app_nil_r.
  all: try (rewrite (mask_ones 0xffff 16 c) by done; change (2 ^ 16) with 0x10000;
    rewrite Z.mod_small, word_bytes_ok by lia; apply new_and_put_ok; [done|by destruct order|lia..]).
  rewrite !(mask_ones 0x3ff 10), Z.shiftr_div_pow2 by done. change (2 ^ 10) with 1024.
  replace ((c - 0x10000) / 1024 mod 1024 + 0xd800) with (0xd800 + (c - 0x10000) / 1024) by zdiv.
  rewrite (Z.add_comm _ 0xdc00).
  rewrite !word_bytes_ok by zdiv. apply new_and_put_ok; [done|by destruct order|lia..].
Qed.

Lemma write_utf8_ok b c next :
  wf_buffer b → scalar c → 0 ≤ next → next + 4 ≤ BUFFER_MALLOC_MAX →
  ∃ b', write_utf8 malloc_ok b c next = Some (Some b') ∧ wf_buffer b' ∧ contents b' = contents b ++ utf8 c.
Proof.
  intros Hw Hc Hn Hmax. unfold write_utf8, utf8, scalar in *.
  assert (Hlow : ∀ v, Z.lor 0x80 (Z.land v 0x3f) = 0x80 + v mod 64).
  { intros v. rewrite (mask_ones 0x3f 6) by done. apply (lor_add 2 (v mod 2 ^ 6) 6); zdiv. }
  rewrite !Hlow, !Z.shiftr_div_pow2 by lia. change (2 ^ 6) with 64. change (2 ^ 12) with 4096. change (2 ^ 18) with 262144.
  destruct (Z.ltb_spec c 0x80).
  { replace (Z.land c 0xff) with c by (rewrite (mask_ones 0xff 8) by done; zdiv).
    apply new_and_put_ok; [done..|lia|done|lia]. }
  destruct (Z.ltb_spec c 0x800).
  { replace (Z.lor 0xc0 (c / 64)) with (0xc0 + c / 64) by (symmetry; apply (lor_add 6 (c / 64) 5); zdiv).
    apply new_and_put_ok; [done..|lia|done|lia]. }
  destruct (Z.ltb_spec c 0x10000).
  { replace (Z.lor 0xe0 (c / 4096)) with (0xe0 + c / 4096) by (symmetry; apply (lor_add 14 (c / 4096) 4); zdiv).
    apply new_and_put_ok; [done..|lia|done|lia]. }
  destruct (Z.ltb_spec c 0x200000); [|lia].
  replace (Z.lor 0xf0 (c / 262144)) with (0xf0 + c / 262144) by (symmetry; apply (lor_add 30 (c / 262144) 3); zdiv).
  apply new_and_put_ok; [done..|lia|done|lia].
Qed.

Lemma finish_region_ok st :
  wf_buffer (buffer st) →
  ∃ b', finish_region malloc_ok (Some st) = (true, {| skip := skip st; buffer := b' |}) ∧
    wf_buffer b' ∧ contents b' = contents (buffer st) ∧ written b' = [].
Proof.
  intros Hw. destruct (buffer_new_ok (buffer st) 0 0 Hw) as (b' & E & Hw' & Hc & _ & Hz); [done..|].
  exists b'. unfold finish_region. rewrite E. by split_and!; [done..|apply Hz].
Qed.

(** ** To UTF-16, regions cut between characters *)

Lemma to_utf16_loop_ok order d cps fuel off i size st :
  Forall scalar cps → wf_buffer (buffer st) → 0 ≤ off → 0 ≤ i →
  size = i + zlen (flat_map utf8 cps) → (length (flat_map utf8 cps) ≤ fuel)%nat →
  size * 2 + 4 ≤ BUFFER_MALLOC_MAX →
  ∃ b', to_utf16_loop malloc_ok order d off size fuel (flat_map utf8 cps) i st
        = Some (Some {| skip := skip st; buffer := b' |}) ∧
    wf_buffer b' ∧
    contents b' = contents (buffer st) ++ utf16_bytes order (if off + i =? 0 then strip_bom cps else cps).
Proof.
  intros Hs. revert fuel i st. induction Hs as [|c cps Hc Hs IH]; intros fuel i st Hw Hoff Hi Hsz Hf Hmax.
  - exists (buffer st). change (zlen (flat_map utf8 [])) with 0 in Hsz. split_and!; [|done|].
    + destruct fuel; cbn [to_utf16_loop].
      * destruct (Z.ltb_spec i size); [lia|]. by destruct st.
      * destruct (Z.leb_spec size i); [|lia]. by destruct st.
    + cbn. by destruct (_ =? _); cbn; rewrite app_nil_r.
  - cbn [flat_map] in *. rewrite zlen_app in Hsz. rewrite length_app in Hf.
    pose proof (zlen_nonneg (flat_map utf8 cps)) as Hrest.
    destruct (read_utf8 c (flat_map utf8 cps) Hc) as (Hread & b & l & Hb & Hlen & Hbd).
    destruct fuel as [|fuel]; [unfold zlen in Hbd; lia|]. cbn [to_utf16_loop].
    destruct (Z.leb_spec size i); [lia|].
    assert (E0 : (utf8 c ++ flat_map utf8 cps).[0] = Some b) by by rewrite Hb. rewrite E0. cbn [mbind option_bind].
    rewrite Hlen. destruct (Z.eqb_spec (zlen (utf8 c)) 0); [lia|].
    destruct (Z.ltb_spec size (zlen (utf8 c) + i)); [lia|]. rewrite Hread. cbn [mbind option_bind].
    destruct (write_utf16_ok order (buffer st) c ((size - (i + zlen (utf8 c))) * 2)
      (off + (i + zlen (utf8 c)) =? 3) Hw Hc) as (b1 & E1 & Hw1 & Hc1); [lia|lia|].
    rewrite E1. cbn [mbind option_bind].
    assert (Ed : drop (Z.to_nat (zlen (utf8 c))) (utf8 c ++ flat_map utf8 cps) = flat_map utf8 cps).
    { unfold zlen. by rewrite Nat2Z.id, drop_app_length. }
    rewrite Ed. destruct (IH fuel (i + zlen (utf8 c)) {| skip := skip st; buffer := b1 |})
      as (b' & E' & Hw' & Hc'); [done|done|lia|lia|unfold zlen in Hbd; lia|done|].
    exists b'. split; [exact E'|]. split; [done|]. rewrite Hc'. cbn [buffer]. rewrite Hc1, <- app_assoc. f_equal.
    destruct (Z.eqb_spec (off + (i + zlen (utf8 c))) 0); [lia|].
    assert (Hbom : (c =? 0xfeff) && (off + (i + zlen (utf8 c)) =? 3) = (c =? 0xfeff) && (off + i =? 0)).
    { destruct (Z.eqb_spec c 0xfeff) as [->|]; [|done]. cbn [andb]. change (zlen (utf8 0xfeff)) with 3.
      destruct (Z.eqb_spec (off + (i + 3)) 3), (Z.eqb_spec (off + i) 0); lia. }
    rewrite Hbom. unfold utf16_bytes. destruct (Z.eqb_spec (off + i) 0); cbn [strip_bom].
    + destruct (c =? 0xfeff); [done|]. cbn [andb flat_map]. by rewrite app_nil_r, flat_map_app.
    + rewrite andb_false_r. cbn [flat_map]. by rewrite app_nil_r, flat_map_app.
Qed.

Lemma to_utf16_region_ok order d cps off st :
  Forall scalar cps → cps ≠ [] → wf_buffer (buffer st) → skip st = 0 → 0 ≤ off →
  zlen (flat_map utf8 cps) * 2 + 4 ≤ BUFFER_MALLOC_MAX →
  ∃ b', to_utf16_region malloc_ok order d off (flat_map utf8 cps) st = Some (true, {| skip := 0; buffer := b' |}) ∧
    wf_buffer b' ∧ written b' = [] ∧
    contents b' = contents (buffer st) ++
      (if off =? 0 then word_bytes order 0xfeff ++ utf16_bytes order (strip_bom cps) else utf16_bytes order cps).
Proof.
  intros Hs Hne Hw Hskip Hoff Hmax. unfold to_utf16_region.
  assert (Hpos : 0 < zlen (flat_map utf8 cps)).
  { destruct cps as [|c cps]; [done|]. apply Forall_cons in Hs as [Hc _]. cbn [flat_map]. rewrite zlen_app.
    destruct (read_utf8 c [] Hc) as (_ & b & l & _ & _ & ?). pose proof (zlen_nonneg (flat_map utf8 cps)). lia. }
  assert (H1 : ∃ b, (if off =? 0 then
       if 2 ^ 64 <=? zlen (flat_map utf8 cps) * 2 + 2 then Some None else
       new_and_put malloc_ok (buffer st) (zlen (flat_map utf8 cps) * 2 + 2) 0
         (store16 (_dispatch_transform_swap_from_host 0xfeff order))
     else Some (Some (buffer st))) = Some (Some b) ∧ wf_buffer b ∧
     contents b = contents (buffer st) ++ (if off =? 0 then word_bytes order 0xfeff else [])).
  { destruct (Z.eqb_spec off 0).
    - unfold BUFFER_MALLOC_MAX in Hmax.
      destruct (Z.leb_spec (2 ^ 64) (zlen (flat_map utf8 cps) * 2 + 2)); [lia|]. rewrite word_bytes_ok by lia.
      apply new_and_put_ok; [done| |lia|done|].
      { assert (E2 : zlen (word_bytes order 0xfeff) = 2) by (by destruct order). lia. }
      unfold BUFFER_MALLOC_MAX. lia.
    - exists (buffer st). by rewrite app_nil_r. }
  destruct H1 as (b & -> & Hwb & Hcb). cbn [mbind option_bind]. rewrite Hskip, Z.sub_0_r.
  destruct (Z.leb_spec (zlen (flat_map utf8 cps)) 0); [lia|]. rewrite drop_0.
  destruct (to_utf16_loop_ok order d cps (length (flat_map utf8 cps)) off 0 (zlen (flat_map utf8 cps))
    {| skip := 0; buffer := b |}) as (b1 & E1 & Hw1 & Hc1); [done|done|done|done|lia|lia|done|].
  rewrite E1. cbn [mbind option_bind skip].
  destruct (finish_region_ok {| skip := 0; buffer := b1 |} Hw1) as (b' & -> & Hw' & Hc' & Hz).
  exists b'. split_and!; [done..|]. rewrite Hc'. cbn [buffer]. rewrite Hc1. cbn [buffer]. rewrite Hcb, <- app_assoc.
  f_equal. rewrite Z.add_0_r. by destruct (off =? 0).
Qed.

Lemma to_utf16_regions_ok order d chunks off st :
  Forall (λ cps, Forall scalar cps ∧ cps ≠ [] ∧ zlen (flat_map utf8 cps) * 2 + 4 ≤ BUFFER_MALLOC_MAX) chunks →
  wf_buffer (buffer st) → skip st = 0 → written (buffer st) = [] → 0 < off →
  ∃ b', apply_regions (to_utf16_region malloc_ok order d) off (map (flat_map utf8) chunks) st
        = Some (true, {| skip := 0; buffer := b' |}) ∧ written b' = [] ∧
    contents b' = contents (buffer st) ++ utf16_bytes order (concat chunks).
Proof.
  intros Hch. revert off st. induction Hch as [|cps chunks (Hs & Hne & Hmax) Hch IH]; intros off st Hw Hsk Hz Hoff.
  - exists (buffer st). cbn. rewrite app_nil_r. split_and!; [|done..]. destruct st. cbn in *. by subst.
  - cbn [map apply_regions concat].
    destruct (to_utf16_region_ok order d cps off st Hs Hne Hw Hsk) as (b & E & Hwb & Hzb & Hcb); [lia|done|].
    rewrite E. cbn [mbind option_bind]. pose proof (zlen_nonneg (flat_map utf8 cps)).
    destruct (IH (off + zlen (flat_map utf8 cps)) {| skip := 0; buffer := b |}) as (b' & E' & Hz' & Hc');
      [done|done|done|lia|].
    exists b'. rewrite E'. split_and!; [done..|]. rewrite Hc'. cbn [buffer]. rewrite Hcb.
    destruct (Z.eqb_spec off 0); [lia|]. unfold utf16_bytes. by rewrite !flat_map_app, app_assoc.
Qed.

(** C31. [_dispatch_transform_to_utf16]: valid UTF-8 in regions cut between
    characters becomes a byte order mark and the UTF-16 form of the text, whose
    own leading mark is dropped. *)
Theorem to_utf16_spec order chunks :
  Forall (λ cps, Forall scalar cps ∧ cps ≠ [] ∧ zlen (flat_map utf8 cps) * 2 + 4 ≤ BUFFER_MALLOC_MAX) chunks →
  chunks ≠ [] →
  ∃ d', _dispatch_transform_to_utf16 malloc_ok (map (flat_map utf8) chunks) order = Some (Some d') ∧
    concat d' = word_bytes order 0xfeff ++ utf16_bytes order (strip_bom (concat chunks)).
Proof.
  intros Hch Hne. destruct chunks as [|cps chunks]; [done|]. apply Forall_cons in Hch as [(Hs & Hne' & Hmax) Hch].
  unfold _dispatch_transform_to_utf16. cbn [map apply_regions]. set (d := _ :: _).
  destruct (to_utf16_region_ok order d cps 0 {| skip := 0; buffer := empty_buffer |} Hs Hne' wf_empty_buffer)
    as (b & E & Hwb & Hzb & Hcb); [done..|]. rewrite E. cbn [mbind option_bind].
  assert (Hpos : 0 < zlen (flat_map utf8 cps)).
  { destruct cps as [|c cps]; [done|]. apply Forall_cons in Hs as [Hc _]. cbn [flat_map]. rewrite zlen_app.
    destruct (read_utf8 c [] Hc) as (_ & b0 & l & _ & _ & ?). pose proof (zlen_nonneg (flat_map utf8 cps)). lia. }
  destruct (to_utf16_regions_ok order d chunks (0 + zlen (flat_map utf8 cps)) {| skip := 0; buffer := b |})
    as (b' & E' & Hz' & Hc'); [done..|lia|].
  rewrite E'. cbn [mbind option_bind finish_transform fst snd buffer]. exists (buffer_data b'). split; [done|].
  unfold contents in Hc' at 1. rewrite Hz', app_nil_r in Hc'. rewrite Hc'. cbn [buffer]. rewrite Hcb.
  cbn [Z.eqb contents buffer_data empty_buffer concat written app buffer].
  rewrite <- app_assoc. f_equal. unfold utf16_bytes. rewrite <- !flat_map_app.
  destruct cps as [|c cps]; [done|]. cbn [concat app strip_bom]. by destruct (c =? 0xfeff).
Qed.

(** ** From UTF-16, regions cut between characters *)

Lemma words_zlen order ws : zlen (flat_map (word_bytes order) ws) = 2 * zlen ws.
Proof.
  induction ws as [|w ws IH]; [done|]. cbn [flat_map]. rewrite zlen_app, zlen_cons, IH.
  destruct order; cbn [word_bytes]; rewrite !zlen_cons; change (zlen []) with 0; lia.
Qed.

Lemma word_at_ok order w1 w w2 i :
  0 ≤ w < 0x10000 → i = zlen w1 →
  ∃ v, word_at (flat_map (word_bytes order) (w1 ++ w :: w2)) i = Some v ∧
    _dispatch_transform_swap_to_host v order = w.
Proof.
  intros Hw ->. destruct (load_word order w Hw) as (b0 & b1 & Hb & Hv). exists (load16 b0 b1).
  split; [|done]. unfold word_at. rewrite flat_map_app. cbn [flat_map]. rewrite Hb. cbn [app].
  rewrite <- (words_zlen order w1), zget_middle. cbn [mbind option_bind].
  rewrite cons_middle, app_assoc.
  replace (zlen (flat_map (word_bytes order) w1) + 1) with (zlen (flat_map (word_bytes order) w1 ++ [b0])).
  - by rewrite zget_middle.
  - by rewrite zlen_app.
Qed.

(** One iteration, on a code point of one word and on a surrogate pair. *)
Definition put_char (order : byteOrder) (d : data) (off max : Z) (fuel : nat) (src : list Z)
    (i c n : Z) (st : utf_state) : option (option utf_state) :=
  r ← write_utf8 malloc_ok (buffer st) c ((max - (i + n - 1)) * 2);
  match r with
  | None => Some None
  | Some b => from_utf16_loop malloc_ok order d off max max fuel src (i + n) {| skip := skip st; buffer := b |}
  end.

Lemma from_utf16_word order d off max fuel wpre c rest i st :
  scalar c → c < 0x10000 → i = zlen wpre → i < max →
  (off =? 0) && (i =? 0) = false ∨ c ≠ 0xfffe →
  let src := flat_map (word_bytes order) (wpre ++ c :: rest) in
  from_utf16_loop malloc_ok order d off max max (S fuel) src i st
  = if (c =? 0xfeff) && ((off =? 0) && (i =? 0))
    then from_utf16_loop malloc_ok order d off max max fuel src (i + 1) st
    else put_char order d off max fuel src i c 1 st.
Proof.
  intros Hc Hsm Hi Hmax Hne src. unfold put_char. cbn [from_utf16_loop].
  destruct (Z.leb_spec max i); [lia|]. rewrite (proj2 (Z.ltb_ge max max)), andb_false_r by lia.
  assert (Hcr : 0 ≤ c < 0xd800 ∨ 0xe000 ≤ c) by (destruct Hc; lia).
  destruct (word_at_ok order wpre c rest i ltac:(lia) Hi) as (v & Ev & Hv).
  unfold src. rewrite Ev. cbn [mbind option_bind]. rewrite Hv, <- !andb_assoc.
  replace ((c =? 0xfffe) && ((off =? 0) && (i =? 0))) with false; last first.
  { destruct Hne as [-> | Hne]; [by rewrite andb_false_r|]. by rewrite (proj2 (Z.eqb_neq _ _) Hne). }
  destruct ((c =? 0xfeff) && _); [by destruct st|].
  replace ((0xd800 <=? c) && (c <=? 0xdbff)) with false by zcases.
  replace ((0xdc00 <=? c) && (c <=? 0xdfff)) with false by zcases.
  by rewrite Z.add_simpl_r.
Qed.

Lemma from_utf16_pair order d off max fuel wpre c rest i st :
  scalar c → 0x10000 ≤ c → i = zlen wpre → i + 1 < max → max < 2 ^ 32 →
  let src := flat_map (word_bytes order) (wpre ++ utf16 c ++ rest) in
  from_utf16_loop malloc_ok order d off max max (S fuel) src i st = put_char order d off max fuel src i c 2 st.
Proof.
  intros Hc Hlg Hi Hmax Hm32 src. unfold put_char. cbn [from_utf16_loop].
  destruct (Z.leb_spec max i); [lia|]. rewrite (proj2 (Z.ltb_ge max max)), andb_false_r by lia.
  assert (Hcr : c < 0x110000) by (destruct Hc; lia). pose proof (zlen_nonneg wpre).
  subst src. unfold utf16. destruct (Z.ltb_spec c 0x10000); [lia|]. cbn [app].
  set (hi := 0xd800 + (c - 0x10000) / 1024). set (lo := 0xdc00 + (c - 0x10000) mod 1024).
  assert (Hhi : 0xd800 ≤ hi ≤ 0xdbff) by (unfold hi; zdiv).
  assert (Hlo : 0xdc00 ≤ lo ≤ 0xdfff) by (unfold lo; zdiv).
  destruct (word_at_ok order wpre hi (lo :: rest) i ltac:(lia) Hi) as (v & Ev & Hv).
  destruct (word_at_ok order (wpre ++ [hi]) lo rest (i + 1) ltac:(lia)) as (v2 & Ev2 & Hv2).
  { rewrite zlen_app. change (zlen [hi]) with 1. lia. }
  rewrite <- app_assoc in Ev2. cbn [app] in Ev2. rewrite Ev. cbn [mbind option_bind]. rewrite Hv.
  rewrite (proj2 (Z.eqb_neq hi 0xfffe)), (proj2 (Z.eqb_neq hi 0xfeff)) by lia. cbn [andb].
  destruct (Z.leb_spec 0xd800 hi), (Z.leb_spec hi 0xdbff); try lia. cbn [andb].
  destruct (Z.leb_spec max (i + 1)); [lia|]. rewrite Ev2. cbn [mbind option_bind]. rewrite Hv2.
  destruct (Z.leb_spec 0xdc00 lo), (Z.leb_spec lo 0xdfff); try lia. cbn [andb negb].
  assert (Hwch : Z.lor (Z.shiftl (hi - 0xd800) 10) (Z.land lo 0x3ff) + 0x10000 = c).
  { rewrite (mask_ones 0x3ff 10) by done. rewrite lor_add by zdiv. unfold hi, lo. zdiv. }
  rewrite Hwch. unfold u64. rewrite Z.mod_small by lia.
  replace (i + 2 - 1) with (i + 1) by lia. by replace (i + 1 + 1) with (i + 2) by lia.
Qed.

Lemma from_utf16_loop_ok order d cps fuel off wpre i max st :
  Forall scalar cps → wf_buffer (buffer st) → 0 ≤ off → i = zlen wpre →
  max = i + zlen (flat_map utf16 cps) → zlen (flat_map utf16 cps) ≤ Z.of_nat fuel →
  max * 2 + 4 ≤ BUFFER_MALLOC_MAX → (off + i = 0 → List.hd 0 cps ≠ 0xfffe) →
  ∃ b', from_utf16_loop malloc_ok order d off max max fuel
          (flat_map (word_bytes order) (wpre ++ flat_map utf16 cps)) i st
        = Some (Some {| skip := skip st; buffer := b' |}) ∧
    wf_buffer b' ∧
    contents b' = contents (buffer st) ++ flat_map utf8 (if off + i =? 0 then strip_bom cps else cps).
Proof.
  intros Hs. revert fuel wpre i st. induction Hs as [|c cps Hc Hs IH]; intros fuel wpre i st Hw Hoff Hi Hmax Hf Hbig Hhd.
  { exists (buffer st). change (zlen (flat_map utf16 [])) with 0 in Hmax. split_and!; [|done|].
    + destruct fuel; cbn [from_utf16_loop].
      * destruct (Z.ltb_spec i max); [lia|]. by destruct st.
      * destruct (Z.leb_spec max i); [|lia]. by destruct st.
    + cbn. by destruct (_ =? _); cbn; rewrite app_nil_r. }
  cbn [flat_map] in *. rewrite zlen_app in Hmax, Hf. pose proof (zlen_nonneg (flat_map utf16 cps)) as Hrest.
  pose proof (zlen_nonneg wpre) as Hpre. unfold BUFFER_MALLOC_MAX in Hbig.
  assert (Hlen : zlen (utf16 c) = if c <? 0x10000 then 1 else 2) by (unfold utf16; by destruct (c <? 0x10000)).
  set (n := zlen (utf16 c)) in *. assert (Hn : 1 ≤ n) by (rewrite Hlen; destruct (_ <? _); lia).
  destruct fuel as [|fuel]; [lia|].
  (* writing the character and going on *)
  assert (Hput : (c =? 0xfeff) && (off + i =? 0) = false →
    ∃ b', put_char order d off max fuel (flat_map (word_bytes order) (wpre ++ utf16 c ++ flat_map utf16 cps)) i c n st
          = Some (Some {| skip := skip st; buffer := b' |}) ∧ wf_buffer b' ∧
    contents b' = contents (buffer st) ++ flat_map utf8 (if off + i =? 0 then strip_bom (c :: cps) else c :: cps)).
  { intros Hbom. unfold put_char.
    destruct (write_utf8_ok (buffer st) c ((max - (i + n - 1)) * 2) Hw Hc) as (b1 & E1 & Hw1 & Hc1);
      [lia|unfold BUFFER_MALLOC_MAX; lia|].
    rewrite E1. cbn [mbind option_bind].
    destruct (IH fuel (wpre ++ utf16 c) (i + n) {| skip := skip st; buffer := b1 |}) as (b' & E' & Hw' & Hc');
      [done|done|rewrite zlen_app; lia|lia|lia|unfold BUFFER_MALLOC_MAX; lia|lia|].
    rewrite <- app_assoc in E'. exists b'. split; [exact E'|]. split; [done|].
    rewrite Hc'. cbn [buffer]. rewrite Hc1, <- app_assoc. f_equal.
    rewrite (proj2 (Z.eqb_neq (off + (i + n)) 0)) by lia.
    destruct (off + i =? 0); cbn [strip_bom flat_map]; [|done]. rewrite andb_true_r in Hbom. by rewrite Hbom. }
  destruct (Z.ltb_spec c 0x10000) as [Hsm|Hlg].
  - assert (Eu : utf16 c = [c]) by (unfold utf16; by rewrite (proj2 (Z.ltb_lt _ _) Hsm)).
    rewrite Eu in Hput |- *. cbn [app] in Hput |- *.
    rewrite from_utf16_word; [|done|done|done|lia|].
    2: { destruct (Z.eqb_spec off 0), (Z.eqb_spec i 0); try (by left). right. apply Hhd. lia. }
    assert (Hz : (off =? 0) && (i =? 0) = (off + i =? 0)) by (apply eq_true_iff_eq; rewrite andb_true_iff, !Z.eqb_eq; lia).
    rewrite Hz. destruct ((c =? 0xfeff) && (off + i =? 0)) eqn:Hbom; [|rewrite Hlen in Hput; by apply Hput].
    destruct (IH fuel (wpre ++ [c]) (i + 1) st) as (b' & E' & Hw' & Hc');
      [done|done|rewrite zlen_app; change (zlen [c]) with 1; lia|lia|lia|unfold BUFFER_MALLOC_MAX; lia|lia|].
    rewrite <- app_assoc in E'. exists b'. split; [exact E'|]. split; [done|]. rewrite Hc'. f_equal.
    apply andb_true_iff in Hbom as [Hc1 Hc2]. rewrite Hc2. cbn [strip_bom]. rewrite Hc1.
    rewrite (proj2 (Z.eqb_neq (off + (i + 1)) 0)) by lia. done.
  - rewrite from_utf16_pair by (done || lia). rewrite Hlen in Hput. apply Hput.
    destruct (Z.eqb_spec c 0xfeff); [lia|done].
Qed.

Definition utf16_chunk (cps : list Z) : Prop :=
  Forall scalar cps ∧ cps ≠ [] ∧ zlen (flat_map utf16 cps) * 2 + 4 ≤ BUFFER_MALLOC_MAX.

Lemma utf16_bytes_len order cps : zlen (utf16_bytes order cps) = 2 * zlen (flat_map utf16 cps).
Proof. apply words_zlen. Qed.

Lemma utf16_pos cps : cps ≠ [] → 0 < zlen (flat_map utf16 cps).
Proof.
  destruct cps as [|c cps]; [done|]. intros _. cbn [flat_map]. rewrite zlen_app.
  pose proof (zlen_nonneg (flat_map utf16 cps)). unfold utf16 at 1.
  destruct (c <? 0x10000); rewrite !zlen_cons; pose proof (zlen_nonneg (@nil Z)); lia.
Qed.

Lemma from_utf16_region_ok order d cps off st :
  utf16_chunk cps → wf_buffer (buffer st) → skip st = 0 → 0 ≤ off → (off = 0 → List.hd 0 cps ≠ 0xfffe) →
  ∃ b', from_utf16_region malloc_ok order d off (utf16_bytes order cps) st = Some (true, {| skip := 0; buffer := b' |}) ∧
    wf_buffer b' ∧ written b' = [] ∧
    contents b' = contents (buffer st) ++ flat_map utf8 (if off =? 0 then strip_bom cps else cps).
Proof.
  intros (Hs & Hne & Hmax) Hw Hskip Hoff Hhd. unfold from_utf16_region. rewrite utf16_bytes_len.
  pose proof (utf16_pos cps Hne) as Hpos. set (n := zlen (flat_map utf16 cps)) in *. unfold BUFFER_MALLOC_MAX in Hmax.
  assert (H1 : ∃ b, (if off =? 0 then _dispatch_transform_buffer_new malloc_ok (buffer st) (howmany (2 * n) 3 * 2) 0
     else (true, buffer st)) = (true, b) ∧ wf_buffer b ∧ contents b = contents (buffer st)).
  { destruct (Z.eqb_spec off 0); [|by exists (buffer st)].
    destruct (buffer_new_ok (buffer st) (howmany (2 * n) 3 * 2) 0 Hw) as (b & E & Hwb & Hcb & _);
      [unfold howmany; zdiv|done|unfold BUFFER_MALLOC_MAX, howmany; zdiv|]. by exists b. }
  destruct H1 as (b & -> & Hwb & Hcb). cbn [negb]. rewrite Hskip, Z.sub_0_r.
  destruct (Z.leb_spec (2 * n) 0); [lia|]. rewrite drop_0.
  assert (Hm : 2 * n mod 2 = 0) by zdiv. assert (Hd : 2 * n / 2 = n) by zdiv. rewrite Hm, Hd. cbn [Z.eqb negb].
  destruct (from_utf16_loop_ok order d cps (Z.to_nat n) off [] 0 n {| skip := 0; buffer := b |})
    as (b1 & E1 & Hw1 & Hc1); [done|done|done|done|lia|lia|unfold BUFFER_MALLOC_MAX; lia| |].
  { intros H0. apply Hhd. lia. }
  cbn [app] in E1. unfold utf16_bytes. rewrite E1. cbn [mbind option_bind skip].
  destruct (finish_region_ok {| skip := 0; buffer := b1 |} Hw1) as (b' & -> & Hw' & Hc' & Hz).
  exists b'. split_and!; [done..|]. rewrite Hc'. cbn [buffer]. rewrite Hc1. cbn [buffer]. by rewrite Hcb, Z.add_0_r.
Qed.

Lemma from_utf16_regions_ok order d chunks off st :
  Forall utf16_chunk chunks → wf_buffer (buffer st) → skip st = 0 → written (buffer st) = [] → 0 < off →
  ∃ b', apply_regions (from_utf16_region malloc_ok order d) off (map (utf16_bytes order) chunks) st
        = Some (true, {| skip := 0; buffer := b' |}) ∧ written b' = [] ∧
    contents b' = contents (buffer st) ++ flat_map utf8 (concat chunks).
Proof.
  intros Hch. revert off st. induction Hch as [|cps chunks Hcps Hch IH]; intros off st Hw Hsk Hz Hoff.
  - exists (buffer st). cbn. rewrite app_nil_r. split_and!; [|done..]. destruct st. cbn in *. by subst.
  - cbn [map apply_regions concat].
    destruct (from_utf16_region_ok order d cps off st Hcps Hw Hsk) as (b & E & Hwb & Hzb & Hcb); [lia|lia|].
    rewrite E. cbn [mbind option_bind]. pose proof (zlen_nonneg (utf16_bytes order cps)).
    destruct (IH (off + zlen (utf16_bytes order cps)) {| skip := 0; buffer := b |}) as (b' & E' & Hz' & Hc');
      [done|done|done|lia|].
    exists b'. rewrite E'. split_and!; [done..|]. rewrite Hc'. cbn [buffer]. rewrite Hcb.
    destruct (Z.eqb_spec off 0); [lia|]. by rewrite flat_map_app, app_assoc.
Qed.

(** C35. [_dispatch_transform_from_utf16]: valid UTF-16 of the given byte order, in
    regions cut between characters, becomes the UTF-8 form of the text without
    its leading byte order mark; U+FFFE first is taken for a swapped mark. *)
Theorem from_utf16_spec order chunks :
  Forall utf16_chunk chunks → chunks ≠ [] → List.hd 0 (concat chunks) ≠ 0xfffe →
  ∃ d', _dispatch_transform_from_utf16 malloc_ok (map (utf16_bytes order) chunks) order = Some (Some d') ∧
    concat d' = flat_map utf8 (strip_bom (concat chunks)).
Proof.
  intros Hch Hne Hhd. destruct chunks as [|cps chunks]; [done|]. apply Forall_cons in Hch as [Hcps Hch].
  unfold _dispatch_transform_from_utf16. cbn [map apply_regions]. set (d := _ :: _).
  assert (Hne' : cps ≠ []) by by apply Hcps.
  destruct (from_utf16_region_ok order d cps 0 {| skip := 0; buffer := empty_buffer |} Hcps wf_empty_buffer)
    as (b & E & Hwb & Hzb & Hcb); [done..| |].
  { intros _. by destruct cps. }
  rewrite E. cbn [mbind option_bind]. pose proof (utf16_pos cps Hne') as Hpos.
  destruct (from_utf16_regions_ok order d chunks (0 + zlen (utf16_bytes order cps)) {| skip := 0; buffer := b |})
    as (b' & E' & Hz' & Hc'); [done..|rewrite utf16_bytes_len; lia|].
  rewrite E'. cbn [mbind option_bind finish_transform fst snd buffer]. exists (buffer_data b'). split; [done|].
  unfold contents in Hc' at 1. rewrite Hz', app_nil_r in Hc'. rewrite Hc'. cbn [buffer]. rewrite Hcb.
  cbn [Z.eqb contents buffer_data empty_buffer concat written app buffer].
  rewrite <- flat_map_app. f_equal. destruct cps as [|c cps]; [done|]. cbn [concat app strip_bom]. by destruct (c =? 0xfeff).
Qed.
End writing.

(** Readable memory after every mapping. *)
#[local] Instance zero_beyond : Beyond := λ _, Some [0; 0; 0; 0; 0; 0].

(** The bytes after the mapping do not change the word; without them the
    transform of a region of odd length faults. *)
Lemma mapped_word64_reads (after : list Z → option (list Z)) d offset b0 b1 :
  _dispatch_data_subrange_map d offset 2 = Some [b0; b1] → is_byte b0 → is_byte b1 →
  mapped_word64 (Bm := after) d offset
  = match after [b0; b1] with
    | Some (_ :: _ :: _ :: _ :: _ :: _ :: _) => Some (Some (load16 b0 b1))
    | _ => None
    end.
Proof.
  intros Hm H0 H1. unfold mapped_word64. rewrite Hm. unfold beyond.
  destruct (after [b0; b1]) as [[|x0 [|x1 [|x2 [|x3 [|x4 [|x5 l]]]]]]|]; try done.
  cbn [mbind option_bind app load64]. do 2 f_equal. unfold u16, load16, is_byte in *.
  match goal with |- ?a mod _ = _ => replace a with (b0 + 256 * b1 + (load16 x0 x1 + 2 ^ 16 * load16 x2 x3 + 2 ^ 32 * load16 x4 x5) * 2 ^ 16) end.
  - rewrite Z.mod_add by done. apply Z.mod_small. lia.
  - unfold load16. lia.
Qed.

(** A region whose first bytes were read ahead: the loops still count offsets
    from its start, so the next character that crosses into another region is
    read from the wrong place ("aébé" and "ABC" below); and the last surrogate
    passes for a character. *)
Theorem read_ahead_offsets :
  _dispatch_transform_to_utf16 (λ _, true) [[0x61; 0xc3; 0xa9; 0x62; 0xc3; 0xa9]] OSLittleEndian
  = Some (Some [[0xff; 0xfe; 0x61; 0; 0xe9; 0; 0x62; 0; 0xe9; 0]]) ∧
  _dispatch_transform_to_utf16 (λ _, true) [[0x61; 0xc3]; [0xa9; 0x62; 0xc3]; [0xa9]] OSLittleEndian
  = Some (Some [[0xff; 0xfe; 0x61; 0; 0xe9; 0]; [0x62; 0; 0x62; 0]]) ∧
  _dispatch_transform_from_utf16 (λ _, true) [[0x41; 0; 0x42; 0; 0x43; 0]] OSLittleEndian
  = Some (Some [[0x41; 0x42; 0x43]]) ∧
  _dispatch_transform_from_utf16 (λ _, true) [[0x41]; [0; 0x42; 0; 0x43]; [0]] OSLittleEndian
  = Some (Some [[0x41]; [0x42; 0xe4; 0x8c; 0x80]]) ∧
  _dispatch_transform_to_utf16 (λ _, true) [[0xed; 0xbf; 0xbf]] OSLittleEndian
  = Some (Some [[0xff; 0xfe; 0xff; 0xdf]]).
Proof. by vm_compute. Qed.

(** ** Witnesses *)

Lemma to_utf16_spec_witness :
  ∃ d', _dispatch_transform_to_utf16 (λ _, true) [flat_map utf8 [0xfeff; 0x61]; flat_map utf8 [0x1f600]] OSBigEndian
        = Some (Some d') ∧ concat d' = [0xfe; 0xff; 0; 0x61; 0xd8; 0x3d; 0xde; 0].
Proof.
  apply (to_utf16_spec (λ _, true) (λ _, eq_refl) OSBigEndian [[0xfeff; 0x61]; [0x1f600]]); [|done].
  by_decide.
Defined.

Lemma from_utf16_spec_witness :
  ∃ d', _dispatch_transform_from_utf16 (λ _, true)
          [utf16_bytes OSLittleEndian [0xfeff; 0x61]; utf16_bytes OSLittleEndian [0x1f600]] OSLittleEndian
        = Some (Some d') ∧ concat d' = [0x61; 0xf0; 0x9f; 0x98; 0x80].
Proof.
  apply (from_utf16_spec (λ _, true) (λ _, eq_refl) OSLittleEndian [[0xfeff; 0x61]; [0x1f600]]); [|done|done].
  unfold utf16_chunk. by_decide.
Defined.
