(* ===== verification/Transform.v ===== *)
(** * [dispatch_data_create_with_transform] (libdispatch src/transform.c)

    The format types, and the conversion of a data object from one to another
    through its decoded bytes.  The codecs are those of TransformBase.v and
    TransformUtf.v. *)
From S2P Require Import Prelude TransformBase TransformUtf.
From stdpp Require Import list.
Open Scope Z_scope.

(** The [_DISPATCH_DATA_FORMAT_*] bits. *)
Definition FORMAT_NONE : Z := 0x1.
Definition FORMAT_UTF8 : Z := 0x2.
Definition FORMAT_UTF16LE : Z := 0x4.
Definition FORMAT_UTF16BE : Z := 0x8.
Definition FORMAT_UTF_ANY : Z := 0x10.
Definition FORMAT_BASE32 : Z := 0x20.
Definition FORMAT_BASE32HEX : Z := 0x40.
Definition FORMAT_BASE64 : Z := 0x80.

Definition transform := data → option (option data).

(** [struct dispatch_data_format_type_s]; [None] is a [NULL] function. *)
Record dispatch_data_format_type := {
  type : Z;
  input_mask : Z;
  output_mask : Z;
  decode : option transform;
  encode : option transform;
}.

Definition BASE_MASK : Z :=
  Z.lor (Z.lor FORMAT_NONE FORMAT_BASE32) (Z.lor FORMAT_BASE32HEX FORMAT_BASE64).
Definition UTF_MASK : Z := Z.lor FORMAT_UTF8 (Z.lor FORMAT_UTF16BE FORMAT_UTF16LE).

Section formats.
Context (malloc_ok : Z → bool) `{Bm : Beyond}.

Definition _dispatch_data_format_type_none : dispatch_data_format_type :=
  {| type := FORMAT_NONE; input_mask := 2 ^ 32 - 1; output_mask := 2 ^ 32 - 1;
     decode := None; encode := None |}.
Definition _dispatch_data_format_type_base32 : dispatch_data_format_type :=
  {| type := FORMAT_BASE32; input_mask := BASE_MASK; output_mask := BASE_MASK;
     decode := Some (_dispatch_transform_from_base32 malloc_ok);
     encode := Some (_dispatch_transform_to_base32 malloc_ok) |}.
Definition _dispatch_data_format_type_base32hex : dispatch_data_format_type :=
  {| type := FORMAT_BASE32HEX; input_mask := BASE_MASK; output_mask := BASE_MASK;
     decode := Some (_dispatch_transform_from_base32hex malloc_ok);
     encode := Some (_dispatch_transform_to_base32hex malloc_ok) |}.
Definition _dispatch_data_format_type_base64 : dispatch_data_format_type :=
  {| type := FORMAT_BASE64; input_mask := BASE_MASK; output_mask := BASE_MASK;
     decode := Some (_dispatch_transform_from_base64 malloc_ok);
     encode := Some (_dispatch_transform_to_base64 malloc_ok) |}.
Definition _dispatch_data_format_type_utf16le : dispatch_data_format_type :=
  {| type := FORMAT_UTF16LE; input_mask := UTF_MASK; output_mask := UTF_MASK;
     decode := Some (λ d, _dispatch_transform_from_utf16 malloc_ok d OSLittleEndian);
     encode := Some (λ d, _dispatch_transform_to_utf16 malloc_ok d OSLittleEndian) |}.
Definition _dispatch_data_format_type_utf16be : dispatch_data_format_type :=
  {| type := FORMAT_UTF16BE; input_mask := UTF_MASK; output_mask := UTF_MASK;
     decode := Some (λ d, _dispatch_transform_from_utf16 malloc_ok d OSBigEndian);
     encode := Some (λ d, _dispatch_transform_to_utf16 malloc_ok d OSBigEndian) |}.
Definition _dispatch_data_format_type_utf8 : dispatch_data_format_type :=
  {| type := FORMAT_UTF8; input_mask := UTF_MASK; output_mask := UTF_MASK;
     decode := None;
     encode := Some (λ d, Some (Some (_dispatch_transform_to_utf8_without_bom d))) |}.
Definition _dispatch_data_format_type_utf_any : dispatch_data_format_type :=
  {| type := FORMAT_UTF_ANY; input_mask := 0; output_mask := 0; decode := None; encode := None |}.

Definition utf_format (t : utf_type) : dispatch_data_format_type :=
  match t with
  | UTF8 => _dispatch_data_format_type_utf8
  | UTF16_HOST => _dispatch_data_format_type_utf16le
  | UTF16_REV => _dispatch_data_format_type_utf16be
  end.

(** A codec, or the data itself when there is none. *)
Definition apply_codec (f : option transform) (d : data) : option (option data) :=
  match f with Some f => f d | None => Some (Some d) end.

Definition dispatch_data_create_with_transform (d : data) (input output : dispatch_data_format_type)
    : option (option data) :=
  input ←
    (if type input =? FORMAT_UTF_ANY then
       t ← _dispatch_transform_detect_utf d; Some (option_map utf_format t)
     else Some (Some input));
  match input with
  | None => Some None
  | Some input =>
      if negb (Z.land (type input) (Z.lnot (input_mask output)) =? 0) then Some None else
      if negb (Z.land (type output) (Z.lnot (output_mask input)) =? 0) then Some None else
      if zlen (concat d) =? 0 then Some (Some d) else
      temp1 ← apply_codec (decode input) d;
      match temp1 with
      | None => Some None
      | Some temp1 => apply_codec (encode output) temp1
      end
  end.

(** ** Conversions *)

(** Decoders hand out no empty region. *)
Lemma create_from_nonempty b n v : create_from b n = Some v → Forall (λ r, r ≠ []) v.
Proof.
  unfold create_from. destruct (n =? 0); [by intros [= <-]|].
  destruct (zsub b 0 n) as [l|]; [|done]. cbn [mbind option_bind]. intros [= <-].
  unfold dispatch_data_of. destruct (Z.eqb_spec (zlen l) 0); constructor; [|done]. by intros ->.
Qed.

Lemma decode_region_eq table table_size bits group outn trim off l st :
  decode_region malloc_ok table table_size bits group outn trim off l st
  = if negb (malloc_ok (howmany (zlen l) group * outn)) then Some (false, st) else
    r ← decode_bytes table table_size bits group outn l (x st) (count st) (pad st) [];
    match r with
    | None => Some (false, st)
    | Some (x', c', p', dest) =>
        if howmany (zlen l) group * outn <? zlen dest then None else
        val ← create_from dest (u64 (trim p' (zlen dest)));
        Some (true, {| x := x'; count := c'; pad := p'; rv := rv st ++ val |})
    end.
Proof. done. Qed.

Lemma decode_data_nonempty table table_size bits group outn trim d d' :
  decode_data malloc_ok table table_size bits group outn trim d = Some (Some d') →
  Forall (λ r, r ≠ []) d'.
Proof.
  unfold decode_data. set (st0 := {| x := 0 |}). assert (H0 : Forall (λ r, r ≠ []) (rv st0)) by constructor.
  generalize 0 as off. revert H0. generalize st0 as st. clear st0.
  induction d as [|r d IH]; intros st Hst off; cbn [apply_regions].
  - cbn. by intros [= <-].
  - rewrite decode_region_eq. destruct (negb (malloc_ok _)); [done|].
    destruct (decode_bytes table table_size bits group outn r (x st) (count st) (pad st) []) as [[[[[x' c'] p'] dest]|]|]; [|done|done].
    cbn [mbind option_bind]. destruct (_ <? _); [done|].
    destruct (create_from dest _) as [v|] eqn:E; [|done]. cbn [mbind option_bind]. apply IH.
    cbn. apply Forall_app. split; [done|]. by eapply create_from_nonempty.
Qed.

Context (Hmalloc : ∀ n, malloc_ok n = true).

Lemma text_data t : t ≠ [] → (zlen (concat [t]) =? 0) = false ∧ concat [t] = t ∧ dispatch_data_of t = [t].
Proof.
  intros Ht. cbn. rewrite app_nil_r. unfold dispatch_data_of.
  destruct (Z.eqb_spec (zlen t) 0) as [E|]; [|done]. destruct t; [done|]. rewrite zlen_cons in E.
  pose proof (zlen_nonneg t). lia.
Qed.

(** The decoders on a text in one region. *)
Lemma decode64_ok x : Forall is_byte x → x ≠ [] → zlen x < 2 ^ 58 →
  ∃ d, _dispatch_transform_from_base64 malloc_ok [encode64 x] = Some (Some d) ∧ concat d = x ∧
       Forall (λ r, r ≠ []) d ∧ encode64 x ≠ [].
Proof.
  intros Hx Hne Hlen. pose proof (zlen_nonneg x).
  pose proof (encode64_len _ x (le_n _) Hx) as Hl.
  assert (He : encode64 x ≠ []).
  { intros E. rewrite E in Hl. change (zlen []) with 0 in Hl. destruct x; [done|].
    rewrite zlen_cons in *. pose proof (zlen_nonneg x). unfold howmany in Hl. zdiv. }
  destruct (decode_data_ok _ _ _ _ _ _ _ tables64_ok malloc_ok Hmalloc x (encode64 x) [] (encode64 x))
    as (d & E & Hd); [done|by eapply encode64_encoding|done| |done|done|by cbn; rewrite app_nil_r|].
  { rewrite Hl. unfold howmany. zdiv. }
  exists d. split; [exact E|]. split_and!; [done| |done]. by eapply decode_data_nonempty.
Qed.

Lemma decode32_ok x : Forall is_byte x → x ≠ [] → zlen x < 2 ^ 58 →
  ∃ d, _dispatch_transform_from_base32 malloc_ok [encode32 base32_encode_table x] = Some (Some d) ∧
       concat d = x ∧ encode32 base32_encode_table x ≠ [].
Proof.
  intros Hx Hne Hlen. pose proof (zlen_nonneg x).
  pose proof (encode32_len base32_encode_table _ x (le_n _)) as Hl.
  assert (He : encode32 base32_encode_table x ≠ []).
  { intros E. rewrite E in Hl. change (zlen []) with 0 in Hl. destruct x; [done|].
    rewrite zlen_cons in *. pose proof (zlen_nonneg x). unfold howmany in Hl. zdiv. }
  destruct (decode_data_ok _ _ _ _ _ _ _ tables32_ok malloc_ok Hmalloc x (encode32 base32_encode_table x) [] (encode32 base32_encode_table x))
    as (d & E & Hd); [done|by eapply encode32_encoding|done| |done|done|by cbn; rewrite app_nil_r|].
  { rewrite Hl. unfold howmany. zdiv. }
  exists d. by split.
Qed.

(** Base 64 text becomes the base 32 text of the same bytes and back to the
    bytes; data of one family is never converted to a format of the other. *)
Theorem transform_formats x :
  Forall is_byte x → x ≠ [] → zlen x < 2 ^ 58 →
  dispatch_data_create_with_transform [x] _dispatch_data_format_type_none _dispatch_data_format_type_base64
  = Some (Some [encode64 x]) ∧
  dispatch_data_create_with_transform [encode64 x] _dispatch_data_format_type_base64
    _dispatch_data_format_type_base32 = Some (Some [encode32 base32_encode_table x]) ∧
  (∃ d, dispatch_data_create_with_transform [encode32 base32_encode_table x]
    _dispatch_data_format_type_base32 _dispatch_data_format_type_none = Some (Some d) ∧ concat d = x) ∧
  ∀ d input output,
    List.In input [_dispatch_data_format_type_base32; _dispatch_data_format_type_base32hex;
             _dispatch_data_format_type_base64] →
    List.In output [_dispatch_data_format_type_utf8; _dispatch_data_format_type_utf16le;
              _dispatch_data_format_type_utf16be; _dispatch_data_format_type_utf_any] →
    dispatch_data_create_with_transform d input output = Some None ∧
    (type output ≠ FORMAT_UTF_ANY → dispatch_data_create_with_transform d output input = Some None).
Proof.
  intros Hx Hne Hlen. destruct (decode64_ok x Hx Hne Hlen) as (d & E & Hd & Hdne & He).
  destruct (decode32_ok x Hx Hne Hlen) as (d2 & E2 & Hd2 & He2).
  destruct (text_data x Hne) as (Hx0 & Hxc & _).
  destruct (text_data _ He) as (H0 & _ & Ht). destruct (text_data _ He2) as (H0' & _ & Ht').
  assert (Hwf : ∀ d, concat d = x → Forall (λ r, r ≠ []) d → wf_data d).
  { intros d' Hc Hf. unfold wf_data. rewrite Hc. split_and!; [done..| |done]. by intros ->. }
  unfold dispatch_data_create_with_transform. split_and!.
  - cbn -[Z.eqb zlen concat _dispatch_transform_to_base64]. rewrite Hx0. cbn -[_dispatch_transform_to_base64].
    rewrite to_base64_ok; [by rewrite Hxc, Ht|done|]. apply Hwf; [done|]. by constructor.
  - cbn -[Z.eqb zlen concat _dispatch_transform_from_base64 _dispatch_transform_to_base32 encode64].
    rewrite H0. cbn -[_dispatch_transform_from_base64 _dispatch_transform_to_base32 encode64].
    rewrite E. cbn -[_dispatch_transform_to_base32]. unfold _dispatch_transform_to_base32.
    rewrite (to_base32_ok malloc_ok Hmalloc base32_encode_table); [by rewrite Hd, Ht'|done|by apply Hwf].
  - exists d2. split; [|done]. clear Ht'. generalize dependent (encode32 base32_encode_table x).
    intros t Et _ Ht0. cbn -[Z.eqb zlen concat _dispatch_transform_from_base32].
    rewrite Ht0. cbn -[_dispatch_transform_from_base32]. by rewrite Et.
  - intros d' input output Hi Ho.
    destruct Hi as [<-|[<-|[<-|[]]]], Ho as [<-|[<-|[<-|[<-|[]]]]]; (split; [done|]); by intros.
Qed.
End formats.

#[local] Existing Instance zero_beyond.
Lemma transform_formats_witness :
  dispatch_data_create_with_transform (λ _, true) [encode64 [77; 97; 110; 77]]
    (_dispatch_data_format_type_base64 (λ _, true)) (_dispatch_data_format_type_base32 (λ _, true))
  = Some (Some [encode32 base32_encode_table [77; 97; 110; 77]]).
Proof.
  apply (transform_formats (λ _, true) (λ _, eq_refl) [77; 97; 110; 77]); [by_decide|done|done].
Defined.
