(* ===== verification/BigNumber.v ===== *)
(** * CFBigNumber (CoreFoundation CFBigNumber.c)

    Signed decimal numbers of five digits in base 10^9: conversions from and to
    the integer types, comparison, addition, and decimal text.  Integers are
    kept at their width; the negation of the least value of a signed type, which
    C leaves undefined, wraps around as the compilers do. *)
From S2P Require Import Prelude.
From stdpp Require Import list.
Open Scope Z_scope.

Definition u128 (x : Z) : Z := x mod 2 ^ 128.
(** [_CFBigNum]: [uint32_t digits[5]], least significant first; the sign is 0 or -1. *)
Record _CFBigNum := { digits : list Z; sign : Z }.

Definition BIG_DIGITS_LIMIT : Z := 1000000000.
Definition BIG_DIGITS_LIMIT_2 : Z := BIG_DIGITS_LIMIT * BIG_DIGITS_LIMIT.
Definition BIG_DIGITS_LIMIT_3 : Z := BIG_DIGITS_LIMIT_2 * BIG_DIGITS_LIMIT.
Definition BIG_DIGITS_LIMIT_4 : Z := BIG_DIGITS_LIMIT_3 * BIG_DIGITS_LIMIT.

(** [r->digits[i]]; the array has five elements. *)
Definition digit (r : _CFBigNum) (i : nat) : Z := nth i (digits r) 0.

(** ** From integers *)

Definition negative_sign (inNum : Z) : Z := if inNum <? 0 then -1 else 0.

Definition _CFBigNumInitWithUInt8 (inNum : Z) : _CFBigNum :=
  {| digits := [inNum; 0; 0; 0; 0]; sign := 0 |}.
Definition _CFBigNumInitWithUInt16 (inNum : Z) : _CFBigNum :=
  {| digits := [inNum; 0; 0; 0; 0]; sign := 0 |}.
Definition _CFBigNumInitWithUInt32 (unsignInNum : Z) : _CFBigNum :=
  let dig0 := u32 (unsignInNum / BIG_DIGITS_LIMIT) in
  {| digits := [u32 (unsignInNum - dig0 * BIG_DIGITS_LIMIT); dig0; 0; 0; 0]; sign := 0 |}.
Definition _CFBigNumInitWithUInt64 (unsignInNum : Z) : _CFBigNum :=
  let dig2 := u32 (unsignInNum / BIG_DIGITS_LIMIT_2) in
  let unsignInNum := u64 (unsignInNum - u64 (dig2 * BIG_DIGITS_LIMIT_2)) in
  let dig1 := u32 (unsignInNum / BIG_DIGITS_LIMIT) in
  {| digits := [u32 (unsignInNum - u64 (dig1 * BIG_DIGITS_LIMIT)); dig1; dig2; 0; 0]; sign := 0 |}.
Definition _CFBigNumInitWithUInt128 (unsignInNum : Z) : _CFBigNum :=
  let dig4 := u32 (unsignInNum / BIG_DIGITS_LIMIT_4) in
  let unsignInNum := u128 (unsignInNum - u128 (dig4 * BIG_DIGITS_LIMIT_4)) in
  let dig3 := u32 (unsignInNum / BIG_DIGITS_LIMIT_3) in
  let unsignInNum := u128 (unsignInNum - u128 (dig3 * BIG_DIGITS_LIMIT_3)) in
  let dig2 := u32 (unsignInNum / BIG_DIGITS_LIMIT_2) in
  let unsignInNum := u128 (unsignInNum - u128 (dig2 * BIG_DIGITS_LIMIT_2)) in
  let dig1 := u32 (unsignInNum / BIG_DIGITS_LIMIT) in
  {| digits := [u32 (unsignInNum - u128 (dig1 * BIG_DIGITS_LIMIT)); dig1; dig2; dig3; dig4]; sign := 0 |}.

(** The signed ones take the magnitude, at the same width, and the sign. *)
Definition with_sign (r : _CFBigNum) (inNum : Z) : _CFBigNum :=
  {| digits := digits r; sign := negative_sign inNum |}.
Definition magnitude (wrap : Z → Z) (inNum : Z) : Z :=
  if inNum <? 0 then wrap (-1 * inNum) else wrap inNum.

Definition _CFBigNumInitWithInt8 (inNum : Z) : _CFBigNum :=
  with_sign (_CFBigNumInitWithUInt8 (magnitude u8 inNum)) inNum.
Definition _CFBigNumInitWithInt16 (inNum : Z) : _CFBigNum :=
  with_sign (_CFBigNumInitWithUInt16 (magnitude u16 inNum)) inNum.
Definition _CFBigNumInitWithInt32 (inNum : Z) : _CFBigNum :=
  with_sign (_CFBigNumInitWithUInt32 (magnitude u32 inNum)) inNum.
Definition _CFBigNumInitWithInt64 (inNum : Z) : _CFBigNum :=
  with_sign (_CFBigNumInitWithUInt64 (magnitude u64 inNum)) inNum.
Definition _CFBigNumInitWithInt128 (inNum : Z) : _CFBigNum :=
  with_sign (_CFBigNumInitWithUInt128 (magnitude u128 inNum)) inNum.

(** ** To integers *)

Definition signed_result (n : Z) (num : _CFBigNum) (result : Z) : Z :=
  if sign num <? 0 then sint n (-1 * result) else result.

Definition _CFBigNumGetInt8 (num : _CFBigNum) : Z := signed_result 8 num (sint 8 (digit num 0)).
Definition _CFBigNumGetInt16 (num : _CFBigNum) : Z := signed_result 16 num (sint 16 (digit num 0)).
Definition _CFBigNumGetInt32 (num : _CFBigNum) : Z :=
  let result := sint 32 (digit num 0) in
  let result := sint 32 (result + digit num 1 * BIG_DIGITS_LIMIT) in
  signed_result 32 num result.
Definition _CFBigNumGetInt64 (num : _CFBigNum) : Z :=
  let result := digit num 0 in
  let result := sint 64 (result + digit num 1 * BIG_DIGITS_LIMIT) in
  let result := sint 64 (result + digit num 2 * BIG_DIGITS_LIMIT_2) in
  signed_result 64 num result.
Definition _CFBigNumGetInt128 (num : _CFBigNum) : Z :=
  let result := digit num 0 in
  let result := sint 128 (result + digit num 1 * BIG_DIGITS_LIMIT) in
  let result := sint 128 (result + digit num 2 * BIG_DIGITS_LIMIT_2) in
  let result := sint 128 (result + digit num 3 * BIG_DIGITS_LIMIT_3) in
  let result := sint 128 (result + digit num 4 * BIG_DIGITS_LIMIT_4) in
  signed_result 128 num result.

Definition _CFBigNumGetUInt8 (num : _CFBigNum) : Z := u8 (digit num 0).
Definition _CFBigNumGetUInt16 (num : _CFBigNum) : Z := u16 (digit num 0).
Definition _CFBigNumGetUInt32 (num : _CFBigNum) : Z :=
  u32 (u32 (digit num 0) + digit num 1 * BIG_DIGITS_LIMIT).
Definition _CFBigNumGetUInt64 (num : _CFBigNum) : Z :=
  let result := u64 (digit num 0 + digit num 1 * BIG_DIGITS_LIMIT) in
  u64 (result + digit num 2 * BIG_DIGITS_LIMIT_2).
Definition _CFBigNumGetUInt128 (num : _CFBigNum) : Z :=
  let result := u128 (digit num 0 + digit num 1 * BIG_DIGITS_LIMIT) in
  let result := u128 (result + digit num 2 * BIG_DIGITS_LIMIT_2) in
  let result := u128 (result + digit num 3 * BIG_DIGITS_LIMIT_3) in
  u128 (result + digit num 4 * BIG_DIGITS_LIMIT_4).

(** ** From the bytes of a number *)

Inductive CFNumberType :=
  | kCFNumberSInt8Type | kCFNumberSInt16Type | kCFNumberSInt32Type | kCFNumberSInt64Type
  | kCFNumberCharType | kCFNumberShortType | kCFNumberIntType | kCFNumberLongType
  | kCFNumberLongLongType | kCFNumberCFIndexType | kCFNumberNSIntegerType
  | kCFNumberSInt128Type | kCFNumberOtherType.

(** A little-endian unsigned integer. *)
Fixpoint load_le (bytes : list Z) : Z :=
  match bytes with [] => 0 | b :: bytes => b + 256 * load_le bytes end.
Definition load_int (n : Z) (bytes : list Z) : option Z :=
  b ← zsub bytes 0 (n / 8); Some (sint n (load_le b)).

(** [long] and [CFIndex] have eight bytes.  An [SInt128] is a struct of its high
    word, then its low one; other types leave [r] as it is. *)
Definition _CFBigNumInitWithBytes (r : _CFBigNum) (bytes : list Z) (type : CFNumberType)
    : option _CFBigNum :=
  match type with
  | kCFNumberSInt8Type | kCFNumberCharType => n ← load_int 8 bytes; Some (_CFBigNumInitWithInt8 n)
  | kCFNumberSInt16Type | kCFNumberShortType => n ← load_int 16 bytes; Some (_CFBigNumInitWithInt16 n)
  | kCFNumberSInt32Type | kCFNumberIntType => n ← load_int 32 bytes; Some (_CFBigNumInitWithInt32 n)
  | kCFNumberSInt64Type | kCFNumberLongType | kCFNumberLongLongType | kCFNumberCFIndexType
  | kCFNumberNSIntegerType => n ← load_int 64 bytes; Some (_CFBigNumInitWithInt64 n)
  | kCFNumberSInt128Type =>
      high ← zsub bytes 0 8; low ← zsub bytes 8 8;
      Some (_CFBigNumInitWithInt128 (sint 128 (load_le low + sint 64 (load_le high) * 2 ^ 64)))
  | kCFNumberOtherType => Some r
  end.

(** ** Comparison and arithmetic *)

Inductive CFComparisonResult := kCFCompareLessThan | kCFCompareEqualTo | kCFCompareGreaterThan.

(** The loop [for (i = 5; i--;)], over the digits most significant first. *)
Fixpoint compare_digits (negative : bool) (a b : list Z) : CFComparisonResult :=
  match a, b with
  | x :: a, y :: b =>
      if x <? y then if negative then kCFCompareGreaterThan else kCFCompareLessThan
      else if y <? x then if negative then kCFCompareLessThan else kCFCompareGreaterThan
      else compare_digits negative a b
  | _, _ => kCFCompareEqualTo
  end.

Definition _CFBigNumCompare (a b : _CFBigNum) : CFComparisonResult :=
  if sign a =? sign b then compare_digits (sign a <? 0) (rev (digits a)) (rev (digits b))
  else if sign a <? sign b then kCFCompareLessThan else kCFCompareGreaterThan.

Fixpoint less_digits (a b : list Z) : bool :=
  match a, b with
  | x :: a, y :: b => if x <? y then true else if y <? x then false else less_digits a b
  | _, _ => false
  end.

Definition _CFBigNumAbsoluteLessThan (a b : _CFBigNum) : bool :=
  less_digits (rev (digits a)) (rev (digits b)).

Definition _CFBigNumNeg (a : _CFBigNum) : _CFBigNum :=
  let aIsZero := forallb (λ d, d =? 0) (digits a) in
  if negb aIsZero then {| digits := digits a; sign := sign a * sign a - 1 |} else a.

(** The two loops of [_CFBigNumAdd], with the carry. *)
Fixpoint add_digits (carry : Z) (a b : list Z) : list Z * Z :=
  match a, b with
  | x :: a, y :: b =>
      let result := u32 (x + y + carry) in
      let '(result, carry) :=
        if BIG_DIGITS_LIMIT <? result then (u32 (result - BIG_DIGITS_LIMIT), 1) else (result, 0) in
      let '(r, carry) := add_digits carry a b in (result :: r, carry)
  | _, _ => ([], carry)
  end.

Fixpoint sub_digits (carry : Z) (big small : list Z) : list Z * Z :=
  match big, small with
  | x :: big, y :: small =>
      let result := x - y - carry in
      let '(result, carry) := if result <? 0 then (result + BIG_DIGITS_LIMIT, 1) else (result, 0) in
      let '(r, carry) := sub_digits carry big small in (u32 result :: r, carry)
  | _, _ => ([], carry)
  end.

Definition _CFBigNumAdd (a b : _CFBigNum) : _CFBigNum * Z :=
  if sign a =? sign b then
    let '(r, carry) := add_digits 0 (digits a) (digits b) in
    ({| digits := r; sign := sign a |}, carry)
  else
    let '(bigNum, smallNum) := if _CFBigNumAbsoluteLessThan a b then (b, a) else (a, b) in
    let '(r, carry) := sub_digits 0 (digits bigNum) (digits smallNum) in
    ({| digits := r; sign := if sign bigNum <? 0 then -1 else 0 |}, carry).

Definition _CFBigNumSub (a b : _CFBigNum) : _CFBigNum * Z := _CFBigNumAdd a (_CFBigNumNeg b).

(** ** The number object of least size; [None] is [NULL]. *)
Definition not_greater (c : CFComparisonResult) : bool :=
  match c with kCFCompareGreaterThan => false | _ => true end.
Definition not_less (c : CFComparisonResult) : bool :=
  match c with kCFCompareLessThan => false | _ => true end.

Definition within (input maxlimit minlimit : _CFBigNum) : bool :=
  not_greater (_CFBigNumCompare input maxlimit) && not_less (_CFBigNumCompare input minlimit).

Definition _CFNumberCreateWithBigNum (input : _CFBigNum) : option (CFNumberType * Z) :=
  let zero i := 0 =? digit input i in
  if zero 4%nat && zero 3%nat && zero 2%nat && zero 1%nat && (digit input 0 <=? 2 ^ 7 - 1)
  then Some (kCFNumberSInt8Type, _CFBigNumGetInt8 input)
  else if zero 4%nat && zero 3%nat && zero 2%nat && zero 1%nat && (digit input 0 <=? 2 ^ 15 - 1)
  then Some (kCFNumberSInt16Type, _CFBigNumGetInt16 input)
  else if zero 4%nat && zero 3%nat && zero 2%nat
    && within input (_CFBigNumInitWithInt32 (2 ^ 31 - 1)) (_CFBigNumInitWithInt32 (- 2 ^ 31))
  then Some (kCFNumberSInt32Type, _CFBigNumGetInt32 input)
  else if zero 4%nat && zero 3%nat
    && within input (_CFBigNumInitWithInt64 (2 ^ 63 - 1)) (_CFBigNumInitWithInt64 (- 2 ^ 63))
  then Some (kCFNumberSInt64Type, _CFBigNumGetInt64 input)
  else if within input (_CFBigNumInitWithInt128 (2 ^ 127 - 1)) (_CFBigNumInitWithInt128 (- 2 ^ 127))
  then Some (kCFNumberSInt128Type, _CFBigNumGetInt128 input)
  else None.

(** ** Decimal text: C strings are lists of bytes, ended by 0 in a buffer *)

Definition ch_0 : Z := 48.
Definition ch_plus : Z := 43.
Definition ch_minus : Z := 45.

(** [n] decimal digits of [x], and [snprintf]'s "%09u" of a [uint32_t]. *)
Fixpoint decimal (n : nat) (x : Z) : list Z :=
  match n with O => [] | S n => (ch_0 + x / 10 ^ Z.of_nat n mod 10) :: decimal n x end.
Definition fmt09u (d : Z) : list Z := decimal (if d <? BIG_DIGITS_LIMIT then 9 else 10) d.

(** [snprintf] to [tmp[46]]: at most 45 characters and the terminator. *)
Definition text_of_digits (vp : _CFBigNum) : list Z :=
  take 45 (fmt09u (digit vp 4) ++ fmt09u (digit vp 3) ++ fmt09u (digit vp 2)
           ++ fmt09u (digit vp 1) ++ fmt09u (digit vp 0)) ++ [0].

Fixpoint skip_zeros (s : list Z) : list Z :=
  match s with c :: s' => if c =? ch_0 then skip_zeros s' else s | [] => [] end.

(** [strlcpy(buffer, s, buflen)], the rest of the buffer as it was. *)
Definition strlcpy (buffer s : list Z) : list Z :=
  match buffer with
  | [] => []
  | _ => let n := Nat.min (length s) (length buffer - 1) in take n s ++ [0] ++ drop (S n) buffer
  end.

(** [buffer] has [buflen] bytes; [None] when the sign does not fit. *)
Definition _CFBigNumToCString (vp : _CFBigNum) (leading_zeros leading_plus : bool) (buffer : list Z)
    : option (list Z) :=
  '(prefix, buffer) ←
    (if sign vp <? 0 then match buffer with _ :: b => Some ([ch_minus], b) | [] => None end
     else if leading_plus then match buffer with _ :: b => Some ([ch_plus], b) | [] => None end
     else Some ([], buffer));
  let tmp := text_of_digits vp in
  let buflen := zlen buffer in
  Some (prefix ++
    if (leading_zeros : bool) then
      let tocopy := u32 (Z.min 46 buflen) in
      replicate (Z.to_nat (buflen - tocopy)) ch_0 ++ drop (Z.to_nat (46 - tocopy)) tmp
    else
      (* the digits without leading zeros, at least one *)
      let s := skip_zeros (take 45 tmp) in
      strlcpy buffer (match s with [] => [ch_0] | _ => s end)).

(** [atol] of the standard library on digits, with the blanks and the sign it
    accepts; it stops at the first other character and saturates. *)
Definition is_space (c : Z) : bool := (c =? 32) || ((9 <=? c) && (c <=? 13)).
Fixpoint atol_digits (s : list Z) (n : Z) : Z :=
  match s with
  | c :: s => if (48 <=? c) && (c <=? 57) then atol_digits s (n * 10 + (c - 48)) else n
  | [] => n
  end.
Fixpoint skip_spaces (s : list Z) : list Z :=
  match s with c :: s' => if is_space c then skip_spaces s' else s | [] => [] end.
Definition atol (s : list Z) : Z :=
  match skip_spaces s with
  | c :: s' => if c =? ch_minus then Z.max (- 2 ^ 63) (- atol_digits s' 0)
               else if c =? ch_plus then Z.min (2 ^ 63 - 1) (atol_digits s' 0)
               else Z.min (2 ^ 63 - 1) (atol_digits (c :: s') 0)
  | [] => 0
  end.

(** The loop that cuts nine characters at a time; [cur] digits are left to fill. *)
Fixpoint parse_digits (cur : nat) (working : list Z) : list Z :=
  match cur with
  | O => []
  | S cur =>
      let length := List.length working in
      match cur with
      | O => [u32 (atol working)]
      | _ =>
          if (9 <? length)%nat then
            u32 (atol (drop (length - 9) working)) :: parse_digits cur (take (length - 9) working)
          else u32 (atol working) :: replicate cur 0
      end
  end.

(** [string] without its terminator. *)
Definition _CFBigNumFromCString (string : list Z) : _CFBigNum :=
  let '(s, working) :=
    match string with
    | c :: rest => if c =? ch_minus then (-1, rest) else if c =? ch_plus then (0, rest) else (0, string)
    | [] => (0, [])
    end in
  let working := skip_zeros working in
  match working with
  | [] => {| digits := [0; 0; 0; 0; 0]; sign := s |}
  | _ => {| digits := parse_digits 5 working; sign := s |}
  end.

(** ** The number a [_CFBigNum] stands for *)

Fixpoint mag (ds : list Z) : Z :=
  match ds with [] => 0 | d :: ds => d + 1000000000 * mag ds end.
Definition value (r : _CFBigNum) : Z := if sign r <? 0 then - mag (digits r) else mag (digits r).

Definition is_digit (d : Z) : Prop := 0 ≤ d < 1000000000.
#[export] Instance is_digit_dec d : Decision (is_digit d).
Proof. unfold is_digit. apply _. Defined.

(** Five digits in range, and no negative zero in a canonical number. *)
Record wf (r : _CFBigNum) : Prop := {
  wf_length : length (digits r) = 5%nat;
  wf_digits : Forall is_digit (digits r);
  wf_sign : sign r = 0 ∨ sign r = -1;
}.
Definition canonical (r : _CFBigNum) : Prop := wf r ∧ (mag (digits r) = 0 → sign r = 0).

Lemma wf_intro d0 d1 d2 d3 d4 s :
  is_digit d0 → is_digit d1 → is_digit d2 → is_digit d3 → is_digit d4 → s = 0 ∨ s = -1 →
  wf {| digits := [d0; d1; d2; d3; d4]; sign := s |}.
Proof. intros. split; cbn; [done| |done]. by rewrite !list.Forall_cons, list.Forall_nil. Qed.

Lemma wf_inv r : wf r → ∃ d0 d1 d2 d3 d4 s,
  r = {| digits := [d0; d1; d2; d3; d4]; sign := s |} ∧
  is_digit d0 ∧ is_digit d1 ∧ is_digit d2 ∧ is_digit d3 ∧ is_digit d4 ∧ (s = 0 ∨ s = -1).
Proof.
  destruct r as [ds s]. intros [Hl Hd Hs]. cbn in *.
  destruct ds as [|d0 [|d1 [|d2 [|d3 [|d4 [|]]]]]]; try discriminate.
  rewrite !list.Forall_cons in Hd. exists d0, d1, d2, d3, d4, s. tauto.
Qed.

(** *** Wrap-around *)

Lemma sint_add n x y : sint n (sint n x + y) = sint n (x + y).
Proof.
  unfold sint. f_equal.
  replace ((x + 2 ^ (n - 1)) mod 2 ^ n - 2 ^ (n - 1) + y + 2 ^ (n - 1))
    with ((x + 2 ^ (n - 1)) mod 2 ^ n + y) by lia.
  rewrite Zplus_mod_idemp_l. f_equal. lia.
Qed.
Lemma sint_opp n x : 0 < n → sint n (-1 * sint n x) = sint n (- x).
Proof.
  intros Hn. unfold sint. f_equal.
  assert (2 ^ n = 2 * 2 ^ (n - 1)) by (rewrite <- Z.pow_succ_r by lia; f_equal; lia).
  replace (-1 * ((x + 2 ^ (n - 1)) mod 2 ^ n - 2 ^ (n - 1)) + 2 ^ (n - 1))
    with (2 ^ n - (x + 2 ^ (n - 1)) mod 2 ^ n) by lia.
  rewrite Zminus_mod_idemp_r. f_equal. lia.
Qed.
Lemma signed_result_value n num x y :
  x = y → 0 < n → - 2 ^ (n - 1) ≤ (if sign num <? 0 then - y else y) < 2 ^ (n - 1) →
  signed_result n num (sint n x) = if sign num <? 0 then - y else y.
Proof.
  intros -> Hn. unfold signed_result. destruct (sign num <? 0); intros Hx.
  - rewrite sint_opp by done. by apply sint_id.
  - by apply sint_id.
Qed.

(** ** From and to the integer types *)

(** [init] and [get] convert between the integers of [lo, hi) and the canonical
    numbers of the same value. *)
Definition converts (lo hi : Z) (init : Z → _CFBigNum) (get : _CFBigNum → Z) : Prop :=
  (∀ n, lo ≤ n < hi → canonical (init n) ∧ value (init n) = n) ∧
  (∀ r, canonical r → lo ≤ value r < hi → get r = value r).

Ltac limits := unfold BIG_DIGITS_LIMIT_4, BIG_DIGITS_LIMIT_3, BIG_DIGITS_LIMIT_2, BIG_DIGITS_LIMIT in *.

(** One step of the decomposition: the quotient by the weight of a digit, and
    what is left for the lower ones. *)
Lemma split_digit (M W x k : Z) :
  0 < W → 0 ≤ x < M → x < W * k → k ≤ 2 ^ 32 →
  ∃ q rest, u32 (x / W) = q ∧ (q * W) mod M = q * W ∧ x - q * W = rest ∧ rest mod M = rest ∧
            0 ≤ q < k ∧ 0 ≤ rest < W ∧ rest < M.
Proof.
  intros HW Hx Hk H32. pose proof (Z.div_mod x W ltac:(lia)) as Hdm.
  pose proof (Z.mod_pos_bound x W HW) as Hr.
  assert (0 ≤ x / W < k) by (split; [apply Z.div_pos; lia | apply Z.div_lt_upper_bound; lia]).
  exists (x / W), (x mod W). unfold u32. rewrite (Z.mod_small (x / W)) by lia.
  assert (0 ≤ x / W * W) by nia.
  rewrite (Z.mod_small (x / W * W)) by lia. rewrite (Z.mod_small (x mod W) M) by lia. lia.
Qed.
Lemma u32_digit d : is_digit d → u32 d = d.
Proof. unfold is_digit, u32. intros. apply Z.mod_small. lia. Qed.

Definition unsigned_ok (hi : Z) (init : Z → _CFBigNum) : Prop :=
  ∀ n, 0 ≤ n < hi → wf (init n) ∧ mag (digits (init n)) = n ∧ sign (init n) = 0.

Ltac wf_number := cbn [digits sign mag]; split_and!; [apply wf_intro; unfold is_digit; lia | lia | done].

Ltac split_number M W k x :=
  let q := fresh "q" in let rest := fresh "rest" in
  let E1 := fresh in let E2 := fresh in let E3 := fresh in let E4 := fresh in
  destruct (split_digit M W x k) as (q & rest & E1 & E2 & E3 & E4 & ?);
  [lia | lia | lia | lia |]; rewrite ?E1, ?E2, ?E3, ?E4.

Lemma unsigned_8 : unsigned_ok (2 ^ 8) _CFBigNumInitWithUInt8.
Proof. intros n Hn. unfold _CFBigNumInitWithUInt8. wf_number. Qed.
Lemma unsigned_16 : unsigned_ok (2 ^ 16) _CFBigNumInitWithUInt16.
Proof. intros n Hn. unfold _CFBigNumInitWithUInt16. wf_number. Qed.
Lemma unsigned_32 : unsigned_ok (2 ^ 32) _CFBigNumInitWithUInt32.
Proof.
  intros n Hn. unfold _CFBigNumInitWithUInt32. limits. cbv zeta.
  split_number (2 ^ 32) 1000000000 5 n.
  rewrite (u32_digit rest) by (unfold is_digit; lia). wf_number.
Qed.
Lemma unsigned_64 : unsigned_ok (2 ^ 64) _CFBigNumInitWithUInt64.
Proof.
  intros n Hn. unfold _CFBigNumInitWithUInt64. limits. cbv zeta.
  change (1000000000 * 1000000000) with 1000000000000000000. unfold u64.
  split_number (2 ^ 64) 1000000000000000000 20 n.
  split_number (2 ^ 64) 1000000000 1000000000 rest.
  rewrite (u32_digit rest0) by (unfold is_digit; lia). wf_number.
Qed.
Lemma unsigned_128 : unsigned_ok (2 ^ 128) _CFBigNumInitWithUInt128.
Proof.
  intros n Hn. unfold _CFBigNumInitWithUInt128. limits. cbv zeta.
  change (1000000000 * 1000000000 * 1000000000 * 1000000000) with (10 ^ 36).
  change (1000000000 * 1000000000 * 1000000000) with (10 ^ 27).
  change (1000000000 * 1000000000) with (10 ^ 18). unfold u128.
  split_number (2 ^ 128) (10 ^ 36) 1000 n.
  split_number (2 ^ 128) (10 ^ 27) 1000000000 rest.
  split_number (2 ^ 128) (10 ^ 18) 1000000000 rest0.
  split_number (2 ^ 128) 1000000000 1000000000 rest1.
  rewrite (u32_digit rest2) by (unfold is_digit; lia). wf_number.
Qed.

Lemma unsigned_canonical hi init n :
  unsigned_ok hi init → 0 ≤ n < hi → canonical (init n) ∧ value (init n) = n.
Proof.
  intros Hok Hn. destruct (Hok n Hn) as (Hw & Hm & Hs). unfold canonical, value.
  rewrite Hs. cbn. auto.
Qed.

Lemma signed_canonical k init n :
  unsigned_ok (2 ^ k) init → 0 < k → - 2 ^ (k - 1) ≤ n < 2 ^ (k - 1) →
  let r := with_sign (init (magnitude (λ x, x mod 2 ^ k) n)) n in canonical r ∧ value r = n.
Proof.
  intros Hok Hk Hn r.
  assert (2 ^ k = 2 * 2 ^ (k - 1)) by (rewrite <- Z.pow_succ_r by lia; f_equal; lia).
  assert (Hm : magnitude (λ x, x mod 2 ^ k) n = Z.abs n).
  { unfold magnitude. destruct (Z.ltb_spec n 0); rewrite Z.mod_small by lia; lia. }
  subst r. rewrite Hm. destruct (Hok (Z.abs n) ltac:(lia)) as ([Hl Hd Hs] & Hv & _).
  unfold canonical, value, with_sign, negative_sign. cbn [digits sign]. rewrite Hv.
  destruct (Z.ltb_spec n 0); cbn; split_and!; try lia; split; cbn; auto.
Qed.

(** Reading a number whose value fits. *)
Lemma fits_digits r M :
  canonical r → - M ≤ value r ≤ M → mag (digits r) ≤ M ∧ 0 ≤ mag (digits r).
Proof.
  intros [Hw Hz] Hv. destruct (wf_inv r Hw) as (d0 & d1 & d2 & d3 & d4 & s & -> & Hd).
  unfold value, is_digit in *. cbn [digits sign mag] in *. destruct (Z.ltb_spec s 0); lia.
Qed.

Ltac wrap_sums := repeat match goal with
  | |- context [sint ?n (sint ?n ?x + ?y)] => rewrite (sint_add n x y)
  | |- context [sint ?n (sint ?n ?x + ?y + ?z)] => rewrite <- (Z.add_assoc (sint n x) y z)
  | |- context [sint ?n (sint ?n ?x + ?y + ?z + ?t)] =>
      rewrite <- (Z.add_assoc (sint n x) y z), <- (Z.add_assoc (sint n x) (y + z) t)
  end.

Ltac read_signed M :=
  let Hc := fresh in let Hv := fresh in let Hf := fresh in
  intros r Hc Hv; destruct (fits_digits r M Hc ltac:(lia)) as [Hf _];
  destruct (wf_inv r (proj1 Hc)) as (d0 & d1 & d2 & d3 & d4 & s & -> & Hd);
  unfold value, is_digit, digit in *; cbn [digits sign mag nth] in *; limits; wrap_sums;
  apply signed_result_value; cbn [sign]; lia.

Lemma get_8 r : canonical r → - 2 ^ 7 ≤ value r < 2 ^ 7 → _CFBigNumGetInt8 r = value r.
Proof. revert r. unfold _CFBigNumGetInt8. read_signed (2 ^ 7). Qed.
Lemma get_16 r : canonical r → - 2 ^ 15 ≤ value r < 2 ^ 15 → _CFBigNumGetInt16 r = value r.
Proof. revert r. unfold _CFBigNumGetInt16. read_signed (2 ^ 15). Qed.
Lemma get_32 r : canonical r → - 2 ^ 31 ≤ value r < 2 ^ 31 → _CFBigNumGetInt32 r = value r.
Proof. revert r. unfold _CFBigNumGetInt32. cbv zeta. read_signed (2 ^ 31). Qed.
Lemma get_64 r : canonical r → - 2 ^ 63 ≤ value r < 2 ^ 63 → _CFBigNumGetInt64 r = value r.
Proof. revert r. unfold _CFBigNumGetInt64. cbv zeta. read_signed (2 ^ 63). Qed.
Lemma get_128 r : canonical r → - 2 ^ 127 ≤ value r < 2 ^ 127 → _CFBigNumGetInt128 r = value r.
Proof. revert r. unfold _CFBigNumGetInt128. cbv zeta. read_signed (2 ^ 127). Qed.

Ltac read_unsigned k :=
  let Hc := fresh in let Hv := fresh in let Hf := fresh in
  intros r Hc Hv; destruct (fits_digits r (2 ^ k) Hc ltac:(lia)) as [Hf _];
  destruct (wf_inv r (proj1 Hc)) as (d0 & d1 & d2 & d3 & d4 & s & -> & Hd);
  destruct Hc as [_ Hz];
  unfold value, is_digit, digit in *; cbn [digits sign mag nth] in *; limits; unfold u8, u16, u32, u64, u128;
  repeat first [rewrite Zplus_mod_idemp_l | rewrite <- Z.add_assoc];
  destruct (Z.ltb_spec s 0); rewrite Z.mod_small by lia; lia.

(** All ten conversions are exact: every integer of the type becomes the
    canonical number of its value, the least one included, and every canonical
    number whose value the type holds is read back as that value. *)
Theorem integers_convert :
  converts (- 2 ^ 7) (2 ^ 7) _CFBigNumInitWithInt8 _CFBigNumGetInt8 ∧
  converts (- 2 ^ 15) (2 ^ 15) _CFBigNumInitWithInt16 _CFBigNumGetInt16 ∧
  converts (- 2 ^ 31) (2 ^ 31) _CFBigNumInitWithInt32 _CFBigNumGetInt32 ∧
  converts (- 2 ^ 63) (2 ^ 63) _CFBigNumInitWithInt64 _CFBigNumGetInt64 ∧
  converts (- 2 ^ 127) (2 ^ 127) _CFBigNumInitWithInt128 _CFBigNumGetInt128 ∧
  converts 0 (2 ^ 8) _CFBigNumInitWithUInt8 _CFBigNumGetUInt8 ∧
  converts 0 (2 ^ 16) _CFBigNumInitWithUInt16 _CFBigNumGetUInt16 ∧
  converts 0 (2 ^ 32) _CFBigNumInitWithUInt32 _CFBigNumGetUInt32 ∧
  converts 0 (2 ^ 64) _CFBigNumInitWithUInt64 _CFBigNumGetUInt64 ∧
  converts 0 (2 ^ 128) _CFBigNumInitWithUInt128 _CFBigNumGetUInt128.
Proof.
  split_and!.
  - split; [|apply get_8]. intros n Hn. by apply (signed_canonical 8 _ n unsigned_8).
  - split; [|apply get_16]. intros n Hn. by apply (signed_canonical 16 _ n unsigned_16).
  - split; [|apply get_32]. intros n Hn. by apply (signed_canonical 32 _ n unsigned_32).
  - split; [|apply get_64]. intros n Hn. by apply (signed_canonical 64 _ n unsigned_64).
  - split; [|apply get_128]. intros n Hn. by apply (signed_canonical 128 _ n unsigned_128).
  - split; [intros n Hn; by apply (unsigned_canonical _ _ n unsigned_8) | unfold _CFBigNumGetUInt8; read_unsigned 8].
  - split; [intros n Hn; by apply (unsigned_canonical _ _ n unsigned_16) | unfold _CFBigNumGetUInt16; read_unsigned 16].
  - split; [intros n Hn; by apply (unsigned_canonical _ _ n unsigned_32) | unfold _CFBigNumGetUInt32; read_unsigned 32].
  - split; [intros n Hn; by apply (unsigned_canonical _ _ n unsigned_64)
           | unfold _CFBigNumGetUInt64; cbv zeta; read_unsigned 64].
  - split; [intros n Hn; by apply (unsigned_canonical _ _ n unsigned_128)
           | unfold _CFBigNumGetUInt128; cbv zeta; read_unsigned 128].
Qed.

Lemma integers_init_32 n : - 2 ^ 31 ≤ n < 2 ^ 31 →
  canonical (_CFBigNumInitWithInt32 n) ∧ value (_CFBigNumInitWithInt32 n) = n.
Proof. intros. by apply (signed_canonical 32 _ n unsigned_32). Qed.
Lemma integers_init_64 n : - 2 ^ 63 ≤ n < 2 ^ 63 →
  canonical (_CFBigNumInitWithInt64 n) ∧ value (_CFBigNumInitWithInt64 n) = n.
Proof. intros. by apply (signed_canonical 64 _ n unsigned_64). Qed.
Lemma integers_init_128 n : - 2 ^ 127 ≤ n < 2 ^ 127 →
  canonical (_CFBigNumInitWithInt128 n) ∧ value (_CFBigNumInitWithInt128 n) = n.
Proof. intros. by apply (signed_canonical 128 _ n unsigned_128). Qed.

(** ** Comparison *)

Definition of_comparison (c : comparison) : CFComparisonResult :=
  match c with Lt => kCFCompareLessThan | Eq => kCFCompareEqualTo | Gt => kCFCompareGreaterThan end.

Lemma mag_app a b : mag (a ++ b) = mag a + 1000000000 ^ zlen a * mag b.
Proof.
  induction a as [|d a IH]; cbn [app mag]; [change (zlen (@nil Z)) with 0; lia|].
  rewrite IH, zlen_cons, Z.pow_add_r by (pose proof (zlen_nonneg a); lia). lia.
Qed.
Lemma mag_range ds : Forall is_digit ds → 0 ≤ mag ds < 1000000000 ^ zlen ds.
Proof.
  induction 1 as [|d ds Hd _ IH]; [done|]. cbn [mag].
  rewrite zlen_cons, Z.pow_add_r by (pose proof (zlen_nonneg ds); lia). unfold is_digit in Hd. lia.
Qed.

(** The most significant digits that differ decide. *)
Lemma mag_msb_lt a b x y :
  length a = length b → Forall is_digit a → Forall is_digit b → x < y → mag (a ++ [x]) < mag (b ++ [y]).
Proof.
  intros Hl Ha Hb Hxy. apply mag_range in Ha, Hb. rewrite !mag_app. cbn [mag].
  replace (zlen b) with (zlen a) in * by (unfold zlen; lia). nia.
Qed.

Lemma compare_digits_spec negative a b :
  length a = length b → Forall is_digit a → Forall is_digit b →
  compare_digits negative (rev a) (rev b) =
    of_comparison (if negative then mag b ?= mag a else mag a ?= mag b).
Proof.
  revert b. induction a as [|x a IH] using rev_ind; intros b Hl Ha Hb.
  { destruct b; [|done]. by destruct negative. }
  destruct b as [|y b _] using rev_ind; [rewrite length_app in Hl; cbn in Hl; lia|].
  rewrite !length_app in Hl. cbn in Hl. assert (Hl' : length a = length b) by lia.
  rewrite Forall_app in Ha, Hb. destruct Ha as [Ha _], Hb as [Hb _].
  rewrite !rev_app_distr. cbn [rev app compare_digits].
  destruct (Z.ltb_spec x y) as [Hxy|]; [|destruct (Z.ltb_spec y x) as [Hxy|]].
  - pose proof (mag_msb_lt a b x y Hl' Ha Hb Hxy).
    destruct negative; [rewrite (proj2 (Z.compare_gt_iff _ _))|rewrite (proj2 (Z.compare_lt_iff _ _))]; done.
  - pose proof (mag_msb_lt b a y x (eq_sym Hl') Hb Ha Hxy).
    destruct negative; [rewrite (proj2 (Z.compare_lt_iff _ _))|rewrite (proj2 (Z.compare_gt_iff _ _))]; done.
  - assert (x = y) as <- by lia. rewrite IH by done. rewrite !mag_app. cbn [mag].
    replace (zlen b) with (zlen a) by (unfold zlen; lia).
    destruct negative; by rewrite !(Z.add_comm (mag _)), Z.add_compare_mono_l.
Qed.

Lemma compare_value a b :
  canonical a → canonical b → _CFBigNumCompare a b = of_comparison (value a ?= value b).
Proof.
  intros [[Hal Had Has] Haz] [[Hbl Hbd Hbs] Hbz]. unfold _CFBigNumCompare, value.
  pose proof (mag_range _ Had). pose proof (mag_range _ Hbd).
  destruct (Z.eqb_spec (sign a) (sign b)) as [Hs|Hs].
  - rewrite <- Hs, compare_digits_spec by congruence || done.
    destruct (sign a <? 0); [by rewrite Z.compare_opp|done].
  - destruct (Z.ltb_spec (sign a) (sign b)).
    + replace (sign a <? 0) with true by zcases. replace (sign b <? 0) with false by zcases.
      by rewrite (proj2 (Z.compare_lt_iff _ _)) by lia.
    + replace (sign a <? 0) with false by zcases. replace (sign b <? 0) with true by zcases.
      by rewrite (proj2 (Z.compare_gt_iff _ _)) by lia.
Qed.

Lemma mag_inj a b :
  length a = length b → Forall is_digit a → Forall is_digit b → mag a = mag b → a = b.
Proof.
  revert b. induction a as [|x a IH]; intros [|y b] Hl Ha Hb Hm; try done. cbn [mag] in Hm.
  rewrite list.Forall_cons in Ha, Hb. destruct Ha as [Hx Ha], Hb as [Hy Hb].
  unfold is_digit in Hx, Hy. f_equal; [lia|]. apply IH; auto; lia.
Qed.

Lemma value_inj a b : canonical a → canonical b → value a = value b → a = b.
Proof.
  destruct a as [da sa], b as [db sb]. intros [[Hal Had Has] Haz] [[Hbl Hbd Hbs] Hbz].
  unfold value. cbn [digits sign] in *.
  pose proof (mag_range _ Had). pose proof (mag_range _ Hbd). intros Hv.
  assert (mag da = mag db ∧ sa = sb) as [Hm ->].
  { destruct (Z.ltb_spec sa 0), (Z.ltb_spec sb 0); lia. }
  f_equal. apply mag_inj; auto; congruence.
Qed.

Lemma less_digits_compare a b :
  less_digits a b = match compare_digits false a b with kCFCompareLessThan => true | _ => false end.
Proof.
  revert b. induction a as [|x a IH]; intros [|y b]; cbn; try done.
  destruct (x <? y), (y <? x); auto.
Qed.

Lemma abs_value a : wf a → Z.abs (value a) = mag (digits a).
Proof. intros [_ Hd _]. apply mag_range in Hd. unfold value. destruct (sign a <? 0); lia. Qed.

Lemma absolute_less_than a b : wf a → wf b →
  _CFBigNumAbsoluteLessThan a b = (Z.abs (value a) <? Z.abs (value b)).
Proof.
  intros Ha Hb. rewrite !abs_value by done. destruct Ha as [Hal Had _], Hb as [Hbl Hbd _].
  unfold _CFBigNumAbsoluteLessThan.
  rewrite less_digits_compare, compare_digits_spec by congruence || done.
  unfold Z.ltb. by destruct (mag (digits a) ?= mag (digits b)).
Qed.

(** Comparison orders canonical numbers by their value, equality of the
    order is equality of the numbers, and the comparison of magnitudes that
    subtraction relies on is the order of the absolute values. *)
Theorem compare_is_order a b :
  canonical a → canonical b →
  _CFBigNumCompare a b = of_comparison (value a ?= value b) ∧
  (_CFBigNumCompare a b = kCFCompareEqualTo ↔ a = b) ∧
  _CFBigNumAbsoluteLessThan a b = (Z.abs (value a) <? Z.abs (value b)).
Proof.
  intros Ha Hb. rewrite compare_value by done.
  split_and!; [done| |by apply absolute_less_than; [apply Ha|apply Hb]].
  split.
  - intros Hc. apply value_inj; [done..|]. destruct (Z.compare_spec (value a) (value b)); done.
  - intros ->. by rewrite Z.compare_refl.
Qed.

(** ** Addition *)

Lemma add_digits_spec a b c :
  length a = length b → Forall is_digit a → Forall is_digit b → c = 0 ∨ c = 1 →
  let '(r, c') := add_digits c a b in
  length r = length a ∧ Forall (λ d, 0 ≤ d ≤ 1000000000) r ∧ (c' = 0 ∨ c' = 1) ∧
  mag r + c' * 1000000000 ^ zlen a = mag a + mag b + c.
Proof.
  revert b c. induction a as [|x a IH]; intros [|y b] c Hl Ha Hb Hc; try done; cbn [add_digits].
  { change (zlen (@nil Z)) with 0. cbn. split_and!; auto. lia. }
  rewrite list.Forall_cons in Ha, Hb. destruct Ha as [Hx Ha], Hb as [Hy Hb].
  unfold is_digit in Hx, Hy. limits. unfold u32. rewrite (Z.mod_small (x + y + c)) by lia.
  destruct (Z.ltb_spec 1000000000 (x + y + c)).
  - rewrite Z.mod_small by lia. specialize (IH b 1 ltac:(by injection Hl) Ha Hb ltac:(auto)).
    destruct (add_digits 1 a b) as [r c']. destruct IH as (Hr & Hd & Hc' & Hv).
    cbn [length mag]. rewrite list.Forall_cons, zlen_cons, Z.pow_add_r by (pose proof (zlen_nonneg a); lia).
    split_and!; auto; lia.
  - specialize (IH b 0 ltac:(by injection Hl) Ha Hb ltac:(auto)).
    destruct (add_digits 0 a b) as [r c']. destruct IH as (Hr & Hd & Hc' & Hv).
    cbn [length mag]. rewrite list.Forall_cons, zlen_cons, Z.pow_add_r by (pose proof (zlen_nonneg a); lia).
    split_and!; auto; lia.
Qed.

Lemma sub_digits_spec a b c :
  length a = length b → Forall is_digit a → Forall is_digit b → c = 0 ∨ c = 1 →
  let '(r, c') := sub_digits c a b in
  length r = length a ∧ Forall is_digit r ∧ (c' = 0 ∨ c' = 1) ∧
  mag r - c' * 1000000000 ^ zlen a = mag a - mag b - c.
Proof.
  revert b c. induction a as [|x a IH]; intros [|y b] c Hl Ha Hb Hc; try done; cbn [sub_digits].
  { change (zlen (@nil Z)) with 0. cbn. split_and!; auto. lia. }
  rewrite list.Forall_cons in Ha, Hb. destruct Ha as [Hx Ha], Hb as [Hy Hb].
  unfold is_digit in Hx, Hy. limits.
  destruct (Z.ltb_spec (x - y - c) 0).
  - specialize (IH b 1 ltac:(by injection Hl) Ha Hb ltac:(auto)).
    destruct (sub_digits 1 a b) as [r c']. destruct IH as (Hr & Hd & Hc' & Hv).
    rewrite u32_digit by (unfold is_digit; lia).
    cbn [length mag]. rewrite list.Forall_cons, zlen_cons, Z.pow_add_r by (pose proof (zlen_nonneg a); lia).
    unfold is_digit. split_and!; auto; lia.
  - specialize (IH b 0 ltac:(by injection Hl) Ha Hb ltac:(auto)).
    destruct (sub_digits 0 a b) as [r c']. destruct IH as (Hr & Hd & Hc' & Hv).
    rewrite u32_digit by (unfold is_digit; lia).
    cbn [length mag]. rewrite list.Forall_cons, zlen_cons, Z.pow_add_r by (pose proof (zlen_nonneg a); lia).
    unfold is_digit. split_and!; auto; lia.
Qed.

(** What [_CFBigNumAdd] may leave: a digit equal to the limit, and a negative zero. *)
Definition near_wf (r : _CFBigNum) : Prop :=
  length (digits r) = 5%nat ∧ Forall (λ d, 0 ≤ d ≤ 1000000000) (digits r) ∧ (sign r = 0 ∨ sign r = -1).

(** [out] is the sum of [a] and a number of value [n]: the carry is the overflow
    of five digits, and can only be set when the signs agree. *)
Definition is_sum (a : _CFBigNum) (n : Z) (out : _CFBigNum * Z) : Prop :=
  let '(r, carry) := out in
  near_wf r ∧ (carry = 0 ∨ carry = 1) ∧
  value r + (if sign r <? 0 then - carry else carry) * 1000000000 ^ 5 = value a + n ∧
  (value a * n < 0 → carry = 0 ∧ wf r) ∧
  (Forall is_digit (digits r) → carry = 0 → sign a = 0 ∨ value a + n ≠ 0 → canonical r).

Lemma near_digits ds : Forall is_digit ds → Forall (λ d, 0 ≤ d ≤ 1000000000) ds.
Proof. intros H. eapply list.Forall_impl; [exact H|]. unfold is_digit. lia. Qed.

Lemma near_mag r : near_wf r → 0 ≤ mag (digits r).
Proof.
  intros (_ & Hd & _). induction Hd; cbn [mag]; [done|]. lia.
Qed.

Lemma sub_magnitudes big small :
  wf big → wf small → sign big ≠ sign small → mag (digits small) ≤ mag (digits big) →
  let '(r, carry) := sub_digits 0 (digits big) (digits small) in
  let n := {| digits := r; sign := if sign big <? 0 then -1 else 0 |} in
  carry = 0 ∧ wf n ∧ value n = value big + value small.
Proof.
  intros [Hal Had Has] [Hbl Hbd Hbs] Hs Hle.
  pose proof (sub_digits_spec (digits big) (digits small) 0 ltac:(congruence) Had Hbd ltac:(auto)) as Hd.
  destruct (sub_digits 0 (digits big) (digits small)) as [r c]. destruct Hd as (Hl & Hd & Hc & Hm).
  pose proof (mag_range _ Had). pose proof (mag_range _ Hbd). pose proof (mag_range _ Hd).
  replace (zlen r) with (zlen (digits big)) in * by (unfold zlen; congruence).
  assert (c = 0) as -> by nia. unfold value. cbn [digits sign].
  split_and!; [done| |].
  - split; cbn; [congruence|done|]. destruct (sign big <? 0); auto.
  - destruct (Z.ltb_spec (sign big) 0), (Z.ltb_spec (sign small) 0); cbn; lia.
Qed.

Lemma difference_is_sum a n r :
  wf r → value r = value a + n →
  (value r = 0 → sign r = sign a) → is_sum a n (r, 0).
Proof.
  intros Hw Hv Hz. pose proof Hw as [Hl Hd Hs]. unfold is_sum. split_and!; auto.
  - split_and!; auto. by apply near_digits.
  - rewrite Hv. destruct (sign r <? 0); lia.
  - intros _ _ Hs0. split; [done|]. intros Hm. rewrite Hz by (unfold value; rewrite Hm; by destruct (_ <? _)).
    destruct Hs0 as [|Hs0]; [done|]. exfalso. apply Hs0. rewrite <- Hv. unfold value. rewrite Hm.
    by destruct (_ <? _).
Qed.

Lemma add_is_sum a b : canonical a → canonical b → is_sum a (value b) (_CFBigNumAdd a b).
Proof.
  intros [Hwa Hza] [Hwb Hzb]. unfold _CFBigNumAdd. destruct (Z.eqb_spec (sign a) (sign b)) as [Hs|Hs].
  - destruct Hwa as [Hal Had Has], Hwb as [Hbl Hbd Hbs].
    pose proof (mag_range _ Had). pose proof (mag_range _ Hbd).
    pose proof (add_digits_spec (digits a) (digits b) 0 ltac:(congruence) Had Hbd ltac:(auto)) as Hsum.
    destruct (add_digits 0 (digits a) (digits b)) as [r c]. destruct Hsum as (Hl & Hd & Hc & Hm).
    replace (zlen (digits a)) with 5 in Hm by (unfold zlen; rewrite Hal; done).
    unfold is_sum, near_wf, canonical, value in *. cbn [digits sign] in *. rewrite <- Hs in *.
    split_and!; auto; try congruence.
    + destruct (sign a <? 0); lia.
    + intros Hneg. exfalso. destruct (sign a <? 0); nia.
    + intros Hr -> Hn0. split; [split; cbn; auto; congruence|]. intros Hr0. cbn in Hr0.
      destruct Hn0 as [|Hn0]; [done|]. destruct (Z.ltb_spec (sign a) 0); lia.
  - rewrite absolute_less_than, !abs_value by done.
    destruct (Z.ltb_spec (mag (digits a)) (mag (digits b))).
    + pose proof (sub_magnitudes b a Hwb Hwa ltac:(congruence) ltac:(lia)) as Hd.
      destruct (sub_digits 0 (digits b) (digits a)) as [r c]. destruct Hd as (-> & Hw & Hv).
      pose proof (abs_value a Hwa). pose proof (abs_value b Hwb).
      apply difference_is_sum; [done|lia|]. intros. exfalso. lia.
    + pose proof (sub_magnitudes a b Hwa Hwb ltac:(congruence) ltac:(lia)) as Hd.
      destruct (sub_digits 0 (digits a) (digits b)) as [r c]. destruct Hd as (-> & Hw & Hv).
      pose proof (abs_value a Hwa). pose proof (abs_value b Hwb).
      apply difference_is_sum; [done|done|]. intros _. cbn. by destruct Hwa as [_ _ [-> | ->]].
Qed.

Lemma neg_canonical b : canonical b → canonical (_CFBigNumNeg b) ∧ value (_CFBigNumNeg b) = - value b.
Proof.
  intros [Hw Hz]. destruct (wf_inv b Hw) as (d0 & d1 & d2 & d3 & d4 & s & -> & Hd).
  unfold _CFBigNumNeg, canonical, value. cbn [digits sign forallb mag] in *.
  destruct (_ && _) eqn:E; cbn [negb digits sign mag].
  - zbool. subst. pose proof (Hz eq_refl) as ->. split; [auto|done].
  - split.
    + assert (s * s - 1 = 0 ∨ s * s - 1 = -1) by (destruct Hd as (_ & _ & _ & _ & _ & [-> | ->]); auto).
      split; [apply wf_intro; tauto|]. intros H0. exfalso. unfold is_digit in Hd.
      rewrite !andb_false_iff, !Z.eqb_neq in E. lia.
    + destruct Hd as (_ & _ & _ & _ & _ & [-> | ->]);
        [change (0 * 0 - 1) with (-1)|change (-1 * -1 - 1) with 0];
        change (-1 <? 0) with true; change (0 <? 0) with false; cbv iota; lia.
Qed.

(** C32. Addition and subtraction are exact: the result and its carry out of the
    forty-five decimal digits stand for the sum or difference of the values,
    there is no carry unless the magnitudes add up, and the result is canonical
    except for a digit equal to the limit and the zero that a negative first
    operand gives. *)
Theorem add_and_sub_are_exact a b :
  canonical a → canonical b →
  is_sum a (value b) (_CFBigNumAdd a b) ∧
  canonical (_CFBigNumNeg b) ∧ value (_CFBigNumNeg b) = - value b ∧
  is_sum a (- value b) (_CFBigNumSub a b).
Proof.
  intros Ha Hb. destruct (neg_canonical b Hb) as [Hn Hv].
  split_and!; [by apply add_is_sum|done|done|]. rewrite <- Hv. by apply add_is_sum.
Qed.

Lemma init_64_digit x :
  0 ≤ x < 1000000000 → _CFBigNumInitWithInt64 x = {| digits := [x; 0; 0; 0; 0]; sign := 0 |}.
Proof.
  intros Hx. destruct (integers_init_64 x ltac:(lia)) as [Hc Hv].
  apply value_inj; [done| |rewrite Hv; unfold value; cbn; lia].
  split; [apply wf_intro; unfold is_digit; lia|done].
Qed.

(** Two sums that are not canonical: [x] and the limit less [x] leave the
    digit 10^9 and compare below the limit they are equal to; a negative number
    and its opposite leave a negative zero, which compares below zero. *)
Theorem add_leaves_limit_and_negative_zero x n :
  0 < x < 1000000000 → 0 < n < 2 ^ 63 →
  let a := fst (_CFBigNumAdd (_CFBigNumInitWithInt64 x) (_CFBigNumInitWithInt64 (1000000000 - x))) in
  let z := fst (_CFBigNumAdd (_CFBigNumInitWithInt64 (- n)) (_CFBigNumInitWithInt64 n)) in
  value a = 1000000000 ∧ digits a = [1000000000; 0; 0; 0; 0] ∧
  _CFBigNumCompare a (_CFBigNumInitWithInt64 1000000000) = kCFCompareLessThan ∧
  value z = 0 ∧ sign z = -1 ∧ _CFBigNumCompare z (_CFBigNumInitWithInt64 0) = kCFCompareLessThan.
Proof.
  intros Hx Hn a z.
  assert (a = {| digits := [1000000000; 0; 0; 0; 0]; sign := 0 |}) as ->.
  { subst a. rewrite !init_64_digit by lia. unfold _CFBigNumAdd. cbn [sign digits].
    change (0 =? 0) with true. cbn [add_digits].
    by replace (x + (1000000000 - x) + 0) with 1000000000 by lia. }
  destruct (integers_init_64 n ltac:(lia)) as [[Hwn _] Hvn].
  destruct (integers_init_64 (- n) ltac:(lia)) as [[Hwm _] Hvm].
  pose proof (abs_value _ Hwn). pose proof (abs_value _ Hwm).
  assert (Hsn : sign (_CFBigNumInitWithInt64 n) = 0) by (cbn; unfold negative_sign; zcases).
  assert (Hsm : sign (_CFBigNumInitWithInt64 (- n)) = -1) by (cbn; unfold negative_sign; zcases).
  pose proof (sub_magnitudes _ _ Hwm Hwn ltac:(lia) ltac:(lia)) as Hz.
  assert (value z = 0 ∧ sign z = -1) as [-> Hs].
  { subst z. unfold _CFBigNumAdd. rewrite absolute_less_than, Hsm, Hsn, Hvm, Hvn by done.
    change (-1 =? 0) with false. replace (Z.abs (- n) <? Z.abs n) with false by zcases.
    cbn match. destruct (sub_digits _ _ _) as [r c]. rewrite Hsm in *. destruct Hz as (_ & _ & Hv).
    split; [rewrite Hvm, Hvn in Hv; cbn in *; lia|done]. }
  split_and!; try done. unfold _CFBigNumCompare. by rewrite Hs.
Qed.
Lemma add_leaves_limit_and_negative_zero_witness :
  let a := fst (_CFBigNumAdd (_CFBigNumInitWithInt64 1) (_CFBigNumInitWithInt64 999999999)) in
  value a = 1000000000 ∧ digits a = [1000000000; 0; 0; 0; 0].
Proof. destruct (add_leaves_limit_and_negative_zero 1 5) as (H & H' & _); [lia|lia|]. exact (conj H H'). Defined.

Lemma canonical_of (r : _CFBigNum) :
  bool_decide (length (digits r) = 5%nat ∧ Forall is_digit (digits r) ∧ (sign r = 0 ∨ sign r = -1 ∧ mag (digits r) ≠ 0))
    = true → canonical r.
Proof.
  intros (? & ? & Hs)%bool_decide_eq_true. split; [split; [done|done|tauto]|]. intros. destruct Hs as [|[]]; done.
Qed.
Definition twelve_digits : _CFBigNum := {| digits := [999999999; 123; 0; 0; 0]; sign := -1 |}.

Lemma compare_is_order_witness :
  _CFBigNumCompare twelve_digits (_CFBigNumInitWithInt64 7) = kCFCompareLessThan.
Proof.
  destruct (compare_is_order twelve_digits (_CFBigNumInitWithInt64 7)) as [H _];
    [by apply canonical_of; vm_compute..|]. rewrite H. by vm_compute.
Defined.
Lemma add_and_sub_are_exact_witness :
  is_sum twelve_digits 7 (_CFBigNumAdd twelve_digits (_CFBigNumInitWithInt64 7)).
Proof.
  destruct (add_and_sub_are_exact twelve_digits (_CFBigNumInitWithInt64 7)) as [H _];
    [by apply canonical_of; vm_compute..|]. exact H.
Defined.

(** ** The number object *)

Definition smallest_number (v : Z) : option (CFNumberType * Z) :=
  if Z.abs v <=? 2 ^ 7 - 1 then Some (kCFNumberSInt8Type, v)
  else if Z.abs v <=? 2 ^ 15 - 1 then Some (kCFNumberSInt16Type, v)
  else if (- 2 ^ 31 <=? v) && (v <=? 2 ^ 31 - 1) then Some (kCFNumberSInt32Type, v)
  else if (- 2 ^ 63 <=? v) && (v <=? 2 ^ 63 - 1) then Some (kCFNumberSInt64Type, v)
  else if (- 2 ^ 127 <=? v) && (v <=? 2 ^ 127 - 1) then Some (kCFNumberSInt128Type, v)
  else None.

Lemma within_value r hi lo :
  canonical r → canonical hi → canonical lo →
  within r hi lo = (value lo <=? value r) && (value r <=? value hi).
Proof.
  intros Hr Hh Hl. unfold within. rewrite !compare_value by done. rewrite andb_comm. f_equal.
  - unfold Z.leb. rewrite Z.compare_antisym. by destruct (value lo ?= value r).
  - unfold Z.leb. by destruct (value r ?= value hi).
Qed.

Lemma digit_zero r i :
  canonical r → (1 ≤ i ≤ 4)%nat → Z.abs (value r) < 1000000000 ^ Z.of_nat i →
  (0 =? digit r i) = true.
Proof.
  intros [Hw _] Hi. rewrite abs_value by done.
  destruct (wf_inv r Hw) as (d0 & d1 & d2 & d3 & d4 & s & -> & Hd).
  unfold is_digit, digit in *. cbn [digits mag].
  assert (i = 1 ∨ i = 2 ∨ i = 3 ∨ i = 4)%nat as [-> | [-> | [-> | ->]]] by lia; cbn [nth]; intros Hm;
    apply Z.eqb_eq; cbn in Hm; lia.
Qed.

Lemma low_digit r k :
  canonical r → k < 1000000000 →
  (0 =? digit r 4) && (0 =? digit r 3) && (0 =? digit r 2) && (0 =? digit r 1) && (digit r 0 <=? k)
  = (Z.abs (value r) <=? k).
Proof.
  intros [Hw _] Hk. rewrite abs_value by done.
  destruct (wf_inv r Hw) as (d0 & d1 & d2 & d3 & d4 & s & -> & Hd).
  unfold is_digit, digit in *. cbn [digits mag nth].
  apply eq_true_iff_eq; rewrite !andb_true_iff, !Z.eqb_eq, !Z.leb_le. lia.
Qed.

(** The number object has the value of the big number and the smallest
    of the five integer types that holds it, where -128 and -32768 count as one
    size up; there is none exactly when the value is outside 128 bits. *)
Theorem create_is_smallest r :
  canonical r → _CFNumberCreateWithBigNum r = smallest_number (value r).
Proof.
  intros Hc. unfold _CFNumberCreateWithBigNum, smallest_number.
  rewrite !low_digit by done || lia.
  destruct (integers_init_32 (2 ^ 31 - 1)) as [H1 V1]; [lia|].
  destruct (integers_init_32 (- 2 ^ 31)) as [H2 V2]; [lia|].
  destruct (integers_init_64 (2 ^ 63 - 1)) as [H3 V3]; [lia|].
  destruct (integers_init_64 (- 2 ^ 63)) as [H4 V4]; [lia|].
  destruct (integers_init_128 (2 ^ 127 - 1)) as [H5 V5]; [lia|].
  destruct (integers_init_128 (- 2 ^ 127)) as [H6 V6]; [lia|].
  rewrite !within_value, V1, V2, V3, V4, V5, V6 by done.
  destruct (Z.leb_spec (Z.abs (value r)) (2 ^ 7 - 1)); [rewrite get_8; [reflexivity|assumption|lia]|].
  destruct (Z.leb_spec (Z.abs (value r)) (2 ^ 15 - 1)); [rewrite get_16; [reflexivity|assumption|lia]|].
  destruct ((- 2 ^ 31 <=? value r) && (value r <=? 2 ^ 31 - 1)) eqn:E32.
  { zbool. rewrite !digit_zero by (assumption || lia). rewrite get_32; [reflexivity|assumption|lia]. }
  rewrite andb_false_r.
  destruct ((- 2 ^ 63 <=? value r) && (value r <=? 2 ^ 63 - 1)) eqn:E64.
  { zbool. rewrite !digit_zero by (assumption || lia). rewrite get_64; [reflexivity|assumption|lia]. }
  rewrite andb_false_r.
  destruct ((- 2 ^ 127 <=? value r) && (value r <=? 2 ^ 127 - 1)) eqn:E128; [|done].
  zbool. rewrite get_128; [reflexivity|assumption|lia].
Qed.
Lemma create_is_smallest_witness :
  _CFNumberCreateWithBigNum twelve_digits = Some (kCFNumberSInt64Type, -123999999999).
Proof. rewrite (create_is_smallest twelve_digits); [done|]. by apply canonical_of; vm_compute. Defined.

(** ** Decimal text *)

Lemma decimal_length n x : length (decimal n x) = n.
Proof. revert x. induction n; intros; cbn; auto. Qed.

Lemma decimal_app n m x : 0 ≤ x →
  decimal (n + m) x = decimal n (x / 10 ^ Z.of_nat m) ++ decimal m x.
Proof.
  intros Hx. induction n as [|n IH]; [done|]. cbn [Nat.add decimal app]. rewrite IH. f_equal. f_equal.
  rewrite Z.div_div by lia. rewrite <- Z.pow_add_r by lia. do 3 f_equal. lia.
Qed.
Lemma decimal_low n x y k : (n ≤ k)%nat → decimal n (x + y * 10 ^ Z.of_nat k) = decimal n x.
Proof.
  intros Hk. induction n as [|n IH]; [done|]. cbn [decimal]. rewrite IH by lia. do 2 f_equal.
  replace (Z.of_nat k) with (Z.of_nat (k - n - 1) + 1 + Z.of_nat n) by lia.
  rewrite !Z.pow_add_r, Z.pow_1_r by lia.
  rewrite !Z.mul_assoc, Z.div_add by lia. by rewrite Z.mod_add by lia.
Qed.
Lemma decimal_cons n d x :
  0 ≤ x < 10 ^ Z.of_nat n → 0 ≤ d < 10 → decimal (S n) (x + d * 10 ^ Z.of_nat n) = (48 + d) :: decimal n x.
Proof.
  intros Hx Hd. cbn [decimal]. rewrite decimal_low by lia. f_equal.
  rewrite Z.div_add, Z.div_small, Z.mod_small by lia. done.
Qed.
Lemma decimal_chars n x : Forall (λ c, 48 ≤ c ≤ 57) (decimal n x).
Proof.
  induction n as [|n IH]; cbn [decimal]; [done|]. apply list.Forall_cons. split; [|done].
  unfold ch_0. pose proof (Z.mod_pos_bound (x / 10 ^ Z.of_nat n) 10). lia.
Qed.

Lemma atol_digits_app a b n : Forall (λ c, 48 ≤ c ≤ 57) a →
  atol_digits (a ++ b) n = atol_digits b (atol_digits a n).
Proof.
  intros Ha. revert n. induction Ha as [|c a Hc _ IH]; intros n; [done|]. cbn [app atol_digits].
  replace ((48 <=? c) && (c <=? 57)) with true by zcases. apply IH.
Qed.
Lemma atol_digits_decimal n x acc : 0 ≤ x →
  atol_digits (decimal n x) acc = acc * 10 ^ Z.of_nat n + x mod 10 ^ Z.of_nat n.
Proof.
  intros Hx. revert acc. induction n as [|n IH]; intros acc; cbn [decimal atol_digits].
  { change (10 ^ Z.of_nat 0) with 1. rewrite Z.mod_1_r. lia. }
  pose proof (Z.mod_pos_bound (x / 10 ^ Z.of_nat n) 10 ltac:(lia)).
  unfold ch_0. replace (_ && _) with true by zcases. rewrite IH.
  rewrite Nat2Z.inj_succ, Z.pow_succ_r by lia. rewrite (Z.mul_comm 10), Z.rem_mul_r by lia. lia.
Qed.

Lemma decimal_digit n d m : is_digit d → 0 ≤ m →
  decimal (n + 9) (d + 1000000000 * m) = decimal n m ++ decimal 9 d.
Proof.
  unfold is_digit. intros Hd Hm. rewrite decimal_app by lia. change (10 ^ Z.of_nat 9) with 1000000000.
  rewrite (Z.mul_comm 1000000000), Z.div_add, Z.div_small by lia. rewrite Z.add_0_l. f_equal.
  by apply (decimal_low 9 d m 9).
Qed.

Lemma text_is_decimal v : wf v → text_of_digits v = decimal 45 (mag (digits v)) ++ [0].
Proof.
  intros Hw. destruct (wf_inv v Hw) as (d0 & d1 & d2 & d3 & d4 & s & -> & H0 & H1 & H2 & H3 & H4 & _).
  unfold text_of_digits, digit, fmt09u. cbn [nth digits mag]. limits.
  assert (Hd : ∀ d, is_digit d → (if d <? 1000000000 then 9%nat else 10%nat) = 9%nat).
  { unfold is_digit. intros. zcases. }
  rewrite !Hd by done. change 45%nat with (9 + 9 + 9 + 9 + 9)%nat at 2. unfold is_digit in *.
  rewrite 4!decimal_digit by (unfold is_digit; lia).
  replace (d4 + 1000000000 * 0) with d4 by lia. rewrite <- !app_assoc.
  rewrite take_ge; [done|]. rewrite !length_app, !decimal_length. lia.
Qed.

Lemma skip_zeros_decimal n x : 0 ≤ x < 10 ^ Z.of_nat n →
  ∃ k, (k ≤ n)%nat ∧ skip_zeros (decimal n x) = decimal k x ∧ x < 10 ^ Z.of_nat k ∧
       (k = 0%nat ∨ 10 ^ Z.of_nat (k - 1) ≤ x).
Proof.
  induction n as [|n IH]; intros Hx; [exists 0%nat; auto with lia|].
  rewrite Nat2Z.inj_succ, Z.pow_succ_r in Hx by lia.
  cbn [decimal skip_zeros]. unfold ch_0.
  assert (0 ≤ x / 10 ^ Z.of_nat n < 10) by (split; [apply Z.div_pos|apply Z.div_lt_upper_bound]; lia).
  rewrite (Z.mod_small (x / _)) by lia. destruct (Z.eqb_spec (48 + x / 10 ^ Z.of_nat n) 48) as [E|E].
  - assert (Hn : x < 10 ^ Z.of_nat n).
    { assert (E0 : x / 10 ^ Z.of_nat n = 0) by lia. apply Z.div_small_iff in E0; lia. }
    destruct (IH ltac:(lia)) as (k & Hk & Hs & Hr & Hl). exists k. auto with lia.
  - exists (S n). split_and!; [lia| | |].
    + cbn [decimal]. by rewrite (Z.mod_small (x / _)) by lia.
    + rewrite Nat2Z.inj_succ, Z.pow_succ_r by lia. lia.
    + right. replace (S n - 1)%nat with n by lia.
      pose proof (Z.mul_div_le x (10 ^ Z.of_nat n) ltac:(lia)). nia.
Qed.
Lemma skip_zeros_replicate z s : skip_zeros (replicate z ch_0 ++ s) = skip_zeros s.
Proof. induction z; [done|]. by cbn. Qed.

Lemma atol_decimal k x : (k ≤ 9)%nat → 0 ≤ x < 10 ^ Z.of_nat k → u32 (atol (decimal k x)) = x.
Proof.
  intros Hk Hx. assert (x < 1000000000).
  { change 1000000000 with (10 ^ 9). pose proof (Z.pow_le_mono_r 10 (Z.of_nat k) 9). lia. }
  destruct k as [|k]; [change (10 ^ Z.of_nat 0) with 1 in Hx; by replace x with 0 by lia|].
  assert (Hv : atol_digits (decimal (S k) x) 0 = x)
    by (rewrite atol_digits_decimal by lia; rewrite Z.mod_small by lia; lia).
  pose proof (decimal_chars (S k) x) as Hch. cbn [decimal] in *.
  remember (ch_0 + _) as c. apply list.Forall_cons in Hch as [Hc _].
  unfold atol, skip_spaces, is_space, ch_minus, ch_plus.
  replace (_ || _) with false by zcases. replace (c =? 45) with false by zcases.
  replace (c =? 43) with false by zcases. rewrite Hv, Z.min_r by lia. apply u32_digit. unfold is_digit. lia.
Qed.

Lemma drop_decimal n x : 0 ≤ x → drop n (decimal (n + 9) x) = decimal 9 x.
Proof. intros. rewrite decimal_app by done. apply drop_app_length'; symmetry; apply decimal_length. Qed.
Lemma take_decimal n x : 0 ≤ x → take n (decimal (n + 9) x) = decimal n (x / 1000000000).
Proof. intros. rewrite decimal_app by done. apply take_app_length'; symmetry; apply decimal_length. Qed.

(** The loop cuts a numeral of at most [9 * cur] characters into its digits. *)
Lemma parse_digits_decimal cur k x :
  (1 ≤ cur)%nat → (k ≤ 9 * cur)%nat → 0 ≤ x < 10 ^ Z.of_nat k →
  let ds := parse_digits cur (decimal k x) in
  length ds = cur ∧ Forall is_digit ds ∧ mag ds = x.
Proof.
  intros Hcur. revert k x. induction cur as [|cur IH]; intros k x Hk Hx; [lia|]. cbn [parse_digits].
  destruct cur as [|cur].
  { cbn zeta. rewrite atol_decimal by lia. cbn [length mag]. split_and!; [done| |lia].
    apply list.Forall_cons. split; [|done]. unfold is_digit.
    pose proof (Z.pow_le_mono_r 10 (Z.of_nat k) 9). lia. }
  rewrite decimal_length. destruct (Nat.ltb_spec 9 k) as [H9|H9].
  - replace (decimal k x) with (decimal (k - 9 + 9) x) by (f_equal; lia).
    rewrite drop_decimal, take_decimal by lia. cbv zeta.
    destruct (IH ltac:(lia) (k - 9)%nat (x / 1000000000)) as (Hl & Hd & Hm); [lia| |].
    { split; [apply Z.div_pos; lia|]. apply Z.div_lt_upper_bound; [lia|].
      change 1000000000 with (10 ^ 9). rewrite <- Z.pow_add_r by lia.
      replace (9 + Z.of_nat (k - 9)) with (Z.of_nat k) by lia. lia. }
    pose proof (Z.mod_pos_bound x 1000000000 ltac:(lia)).
    assert (Ha : u32 (atol (decimal 9 x)) = x mod 1000000000).
    { rewrite (Z.div_mod x 1000000000) at 1 by lia.
      rewrite (Z.add_comm (_ * _)), (Z.mul_comm 1000000000).
      rewrite (decimal_low 9 _ (x / 1000000000) 9) by lia. apply atol_decimal; lia. }
    rewrite Ha. cbn [length mag]. rewrite Hl, Hm, list.Forall_cons. split_and!; [done|done|done|].
    rewrite (Z.div_mod x 1000000000) at 3 by lia. lia.
  - cbv zeta. rewrite atol_decimal by lia. cbn [length mag]. rewrite length_replicate.
    assert (x < 1000000000) by (pose proof (Z.pow_le_mono_r 10 (Z.of_nat k) 9); lia).
    assert (Hz : ∀ n, mag (replicate n 0) = 0) by (induction n; cbn [replicate mag]; lia).
    rewrite Hz, list.Forall_cons. split_and!; [lia|unfold is_digit; lia| |lia].
    apply Forall_replicate. unfold is_digit. lia.
Qed.

(** A C string: the bytes before the terminator. *)
Fixpoint c_string (l : list Z) : list Z :=
  match l with c :: l => if c =? 0 then [] else c :: c_string l | [] => [] end.
Lemma c_string_app l r : Forall (λ c, c ≠ 0) l → c_string (l ++ 0 :: r) = l.
Proof.
  induction 1 as [|c l Hc _ IH]; [done|]. cbn [app c_string]. rewrite IH. by destruct (Z.eqb_spec c 0).
Qed.

Definition sign_prefix (v : _CFBigNum) (leading_plus : bool) : list Z :=
  if sign v <? 0 then [ch_minus] else if leading_plus then [ch_plus] else [].
Definition numeral (z k : nat) (x : Z) : list Z := replicate z ch_0 ++ decimal k x.

Lemma numeral_chars z k x : Forall (λ c, 48 ≤ c ≤ 57) (numeral z k x).
Proof.
  apply Forall_app. split; [|apply decimal_chars]. apply Forall_replicate. unfold ch_0. lia.
Qed.

(** Reading a signed numeral of at most 45 significant characters. *)
Lemma from_numeral v lp z k :
  wf v → (1 ≤ z + k)%nat → (k ≤ 45)%nat → mag (digits v) < 10 ^ Z.of_nat k →
  _CFBigNumFromCString (sign_prefix v lp ++ numeral z k (mag (digits v))) = v.
Proof.
  intros [Hl Hd Hs] Hzk Hk Hm. pose proof (mag_range _ Hd) as [Hm0 _].
  destruct (skip_zeros_decimal k (mag (digits v)) ltac:(lia)) as (k' & Hk' & Hsk & Hm' & Hlead).
  assert (Hw : skip_zeros (numeral z k (mag (digits v))) = decimal k' (mag (digits v)))
    by (unfold numeral; by rewrite skip_zeros_replicate).
  assert (Hr : match decimal k' (mag (digits v)) with
               | [] => {| digits := [0; 0; 0; 0; 0]; sign := sign v |}
               | _ => {| digits := parse_digits 5 (decimal k' (mag (digits v))); sign := sign v |}
               end = v).
  { destruct (parse_digits_decimal 5 k' (mag (digits v))) as (Hpl & Hpd & Hpm); [lia|lia|lia|].
    assert (parse_digits 5 (decimal k' (mag (digits v))) = digits v) as ->
      by (apply mag_inj; auto; congruence).
    destruct v as [ds s]. cbn [digits sign] in *. destruct k' as [|k']; [|done].
    cbn [decimal]. f_equal. change (10 ^ Z.of_nat 0) with 1 in Hm'.
    apply mag_inj; [done|by repeat (apply list.Forall_cons; split; [by vm_compute|])|done|].
    by replace (mag ds) with 0 by lia. }
  assert (Hhd : ∃ c w, numeral z k (mag (digits v)) = c :: w ∧ 48 ≤ c ≤ 57).
  { pose proof (numeral_chars z k (mag (digits v))) as Hch.
    destruct (numeral z k (mag (digits v))) as [|c w] eqn:E.
    - apply (f_equal length) in E. unfold numeral in E.
      rewrite length_app, length_replicate, decimal_length in E. cbn in E. lia.
    - apply list.Forall_cons in Hch as [Hc _]. by exists c, w. }
  destruct Hhd as (c & w & Hcw & Hc). unfold _CFBigNumFromCString, sign_prefix.
  destruct Hs as [Hs|Hs]; rewrite Hs in *; [destruct lp|].
  - cbn [app]. change (0 <? 0) with false. cbn [app]. change (ch_plus =? ch_minus) with false.
    change (ch_plus =? ch_plus) with true. cbn match. by rewrite Hw.
  - change (0 <? 0) with false. cbn [app]. rewrite Hcw. unfold ch_minus, ch_plus.
    replace (c =? 45) with false by zcases. replace (c =? 43) with false by zcases.
    cbn match. by rewrite <- Hcw, Hw.
  - change (-1 <? 0) with true. cbn [app]. change (ch_minus =? ch_minus) with true.
    cbn match. by rewrite Hw.
Qed.

(** What [_CFBigNumToCString] writes after the sign. *)
Lemma body_of_buffer v leading_zeros buffer :
  wf v → 46 ≤ zlen buffer →
  ∃ z k rest,
    (if (leading_zeros : bool) then
       let tocopy := u32 (Z.min 46 (zlen buffer)) in
       replicate (Z.to_nat (zlen buffer - tocopy)) ch_0 ++ drop (Z.to_nat (46 - tocopy)) (text_of_digits v)
     else
       let s := skip_zeros (take 45 (text_of_digits v)) in
       strlcpy buffer (match s with [] => [ch_0] | _ => s end))
    = numeral z k (mag (digits v)) ++ 0 :: rest ∧
    zlen (numeral z k (mag (digits v)) ++ 0 :: rest) = zlen buffer ∧
    (1 ≤ k ≤ 45)%nat ∧ mag (digits v) < 10 ^ Z.of_nat k ∧
    (leading_zeros = true → rest = []) ∧
    (leading_zeros = false → z = 0%nat ∧ (k = 1%nat ∨ 10 ^ Z.of_nat (k - 1) ≤ mag (digits v))).
Proof.
  intros Hw Hlen. pose proof Hw as [Hl Hd _]. apply mag_range in Hd.
  unfold zlen in Hd at 1. rewrite Hl in Hd. change (1000000000 ^ Z.of_nat 5) with (10 ^ 45) in Hd.
  rewrite text_is_decimal by done. destruct leading_zeros.
  - exists (Z.to_nat (zlen buffer - 46)), 45%nat, []. rewrite Z.min_l by lia.
    change (u32 46) with 46. cbv zeta. change (Z.to_nat (46 - 46)) with 0%nat. rewrite drop_0.
    unfold numeral. rewrite <- (app_assoc (replicate _ _)).
    split_and!; try (done || lia).
    unfold zlen. rewrite !length_app, length_replicate, decimal_length. cbn [length].
    unfold zlen in Hlen. lia.
  - destruct (skip_zeros_decimal 45 (mag (digits v)) ltac:(lia)) as (k & Hk & Hsk & Hm & Hlead).
    replace (take 45 (decimal 45 (mag (digits v)) ++ [0])) with (decimal 45 (mag (digits v)))
      by (symmetry; apply take_app_length'; symmetry; apply decimal_length).
    rewrite Hsk. cbv zeta.
    assert (Hs : ∃ j, (1 ≤ j ≤ 45)%nat ∧ mag (digits v) < 10 ^ Z.of_nat j ∧
      match decimal k (mag (digits v)) with [] => [ch_0] | _ => decimal k (mag (digits v)) end
        = decimal j (mag (digits v)) ∧ (j = 1%nat ∨ 10 ^ Z.of_nat (j - 1) ≤ mag (digits v))).
    { destruct k as [|k].
      - change (10 ^ Z.of_nat 0) with 1 in Hm. replace (mag (digits v)) with 0 by lia.
        exists 1%nat. repeat split; lia.
      - exists (S k). repeat split; lia. }
    destruct Hs as (j & Hj & Hmj & -> & Hlj).
    exists 0%nat, j, (drop (S j) buffer). unfold strlcpy, numeral. cbn [replicate app].
    destruct buffer as [|c buffer']; [done|]. remember (c :: buffer') as buffer.
    unfold zlen in Hlen. rewrite decimal_length, Nat.min_l by lia.
    rewrite take_ge by (rewrite decimal_length; lia). split_and!; try (done || lia).
    unfold zlen. rewrite length_app, decimal_length. cbn [length]. rewrite length_drop. lia.
Qed.

(** A number written into a buffer of 47 bytes or more fills it with a
    terminated string that reads back as the number: the sign asked for and the
    decimal numeral of its magnitude, padded with zeros to the whole buffer or
    without any leading zero. *)
Theorem text_round_trip v leading_zeros leading_plus buffer :
  wf v → 47 ≤ zlen buffer →
  ∃ out z k,
    _CFBigNumToCString v leading_zeros leading_plus buffer = Some out ∧ zlen out = zlen buffer ∧
    c_string out = sign_prefix v leading_plus ++ numeral z k (mag (digits v)) ∧
    (leading_zeros = true → zlen (c_string out) = zlen buffer - 1) ∧
    (leading_zeros = false → z = 0%nat ∧ (k = 1%nat ∨ 10 ^ Z.of_nat (k - 1) ≤ mag (digits v))) ∧
    _CFBigNumFromCString (c_string out) = v.
Proof.
  intros Hw Hlen.
  assert (Hp : ∃ buffer', _CFBigNumToCString v leading_zeros leading_plus buffer =
     Some (sign_prefix v leading_plus ++
       if (leading_zeros : bool) then
         let tocopy := u32 (Z.min 46 (zlen buffer')) in
         replicate (Z.to_nat (zlen buffer' - tocopy)) ch_0 ++ drop (Z.to_nat (46 - tocopy)) (text_of_digits v)
       else
         let s := skip_zeros (take 45 (text_of_digits v)) in
         strlcpy buffer' (match s with [] => [ch_0] | _ => s end)) ∧
     zlen (sign_prefix v leading_plus) + zlen buffer' = zlen buffer ∧ 46 ≤ zlen buffer').
  { unfold _CFBigNumToCString, sign_prefix. destruct buffer as [|c buffer]; [done|].
    rewrite zlen_cons in *. destruct (sign v <? 0); [|destruct leading_plus].
    - exists buffer. split_and!; [done|unfold zlen; cbn [length]; lia|rewrite ?zlen_cons; lia].
    - exists buffer. split_and!; [done|unfold zlen; cbn [length]; lia|rewrite ?zlen_cons; lia].
    - exists (c :: buffer). split_and!; [done|unfold zlen; cbn [length]; lia|rewrite ?zlen_cons; lia]. }
  destruct Hp as (buffer' & -> & Hbl & Hb').
  destruct (body_of_buffer v leading_zeros buffer' Hw Hb') as (z & k & rest & -> & Hzl & Hk & Hm & Hlz & Hnz).
  assert (Hcs : c_string (sign_prefix v leading_plus ++ numeral z k (mag (digits v)) ++ 0 :: rest)
                = sign_prefix v leading_plus ++ numeral z k (mag (digits v))).
  { rewrite app_assoc. apply c_string_app, Forall_app. split.
    - unfold sign_prefix. destruct (sign v <? 0); [|destruct leading_plus];
        repeat (apply list.Forall_cons; split; [done|]); done.
    - eapply list.Forall_impl; [apply numeral_chars|]. cbn. lia. }
  eexists _, z, k. split; [done|]. rewrite Hcs. split_and!; [rewrite zlen_app; lia|done| |done|].
  - intros Hz. rewrite (Hlz Hz) in Hzl. rewrite zlen_app in Hzl |- *. rewrite zlen_cons in Hzl.
    change (zlen (@nil Z)) with 0 in Hzl. lia.
  - apply from_numeral; [done|lia|lia|done].
Qed.
Lemma text_round_trip_witness :
  ∃ out, _CFBigNumToCString twelve_digits false true (replicate 50 7) = Some out ∧
         _CFBigNumFromCString (c_string out) = twelve_digits.
Proof.
  destruct (text_round_trip twelve_digits false true (replicate 50 7)) as (out & _ & _ & H & _ & _ & _ & _ & H');
    [by apply canonical_of; vm_compute|by vm_compute|]. exact (ex_intro _ out (conj H H')).
Defined.
