(* ===== verification/Storage.v ===== *)
(** * CFStorage (CoreFoundation CFStorage.c)

    An array of values of any size, kept in the leaves of a tree whose branches
    have two or three children.  Nodes live in a store, a finite map from
    addresses, and are reference counted: a frozen node may belong to several
    storages, and is copied before it is changed.  The root node, which the C
    structure holds inline, has an address and a count of zero.

    A function is an action on a state, the storage object and the store; [fail]
    is a crash: a [NULL] or dangling pointer, an access outside a buffer, or a
    recursion deeper than its fuel.  Sizes are exact integers: the arithmetic of
    [CFIndex] does not wrap below 2^63 bytes, nor a count below 2^32 references.
    Assertions, which are compiled out, locks and garbage collection are left
    out. *)
From S2P Require Import Prelude.
From stdpp Require Import gmap list.
Open Scope Z_scope.

(** ** The structures *)

Record leaf_info := { capacityInBytes : Z; memory : option (list Z); cachedRange : CFRange }.
(** [isLeaf] is the tag of the union; a branch has an array of three children. *)
Inductive node_info := leaf (l : leaf_info) | notLeaf (children : list (option Z)).
Record CFStorageNode := { numBytes : Z; refCount : Z; isFrozen : bool; info : node_info }.

Record CFStorageDoubleNodeReturn := CFStorageDoubleNodeReturnMake { child : Z; sibling : option Z }.

Record __CFStorage := {
  valueSize : Z; byteToValueShifter : Z; alwaysFrozen : bool; cacheNode : option Z;
  maxLeafCapacity : Z; rootNode : Z }.

(** Addresses are given out in order, so that a dangling one is never seen as valid. *)
Record store := { nodes : gmap Z CFStorageNode; next : Z }.
Record state := { this : __CFStorage; heap : store }.

Definition NO_SHIFTER : Z := 2 ^ 32 - 1.
Definition PAGE_SIZE : Z := 4096.
Definition __CFStorageMaxLeafCapacity : Z := 4096 * 3.
Definition PAGE_LIMIT : Z := PAGE_SIZE ÷ 2.
Definition sizeof_CFStorageNode : Z := 48.
Definition sizeof_CFStorage : Z := 104.

Definition isLeaf (n : CFStorageNode) : bool := match info n with leaf _ => true | notLeaf _ => false end.

Definition set_numBytes x n := {| numBytes := x; refCount := refCount n; isFrozen := isFrozen n; info := info n |}.
Definition set_refCount x n := {| numBytes := numBytes n; refCount := x; isFrozen := isFrozen n; info := info n |}.
Definition set_isFrozen x n := {| numBytes := numBytes n; refCount := refCount n; isFrozen := x; info := info n |}.
Definition set_info x n := {| numBytes := numBytes n; refCount := refCount n; isFrozen := isFrozen n; info := x |}.

Definition empty_leaf : leaf_info := {| capacityInBytes := 0; memory := None; cachedRange := CFRangeMake 0 0 |}.
Definition no_children : list (option Z) := [None; None; None].

Definition set_cacheNode p s := {| valueSize := valueSize s; byteToValueShifter := byteToValueShifter s;
  alwaysFrozen := alwaysFrozen s; cacheNode := p; maxLeafCapacity := maxLeafCapacity s; rootNode := rootNode s |}.
Definition set_alwaysFrozen b s := {| valueSize := valueSize s; byteToValueShifter := byteToValueShifter s;
  alwaysFrozen := b; cacheNode := cacheNode s; maxLeafCapacity := maxLeafCapacity s; rootNode := rootNode s |}.

(** ** Actions *)

Definition M (A : Type) : Type := state → option (A * state).
#[export] Instance M_ret : MRet M := λ A x st, Some (x, st).
#[export] Instance M_bind : MBind M := λ A B k m st, match m st with Some (x, st') => k x st' | None => None end.

Definition fail {A} : M A := λ _, None.
Definition lift {A} (o : option A) : M A := λ st, match o with Some x => Some (x, st) | None => None end.
Definition self : M __CFStorage := λ st, Some (this st, st).
Definition set_self (f : __CFStorage → __CFStorage) : M () := λ st, Some ((), {| this := f (this st); heap := heap st |}).

Definition put_nodes (m : gmap Z CFStorageNode) (st : state) : state :=
  {| this := this st; heap := {| nodes := m; next := next (heap st) |} |}.
Definition load (a : Z) : M CFStorageNode := λ st, match nodes (heap st) !! a with Some n => Some (n, st) | None => None end.
Definition update (a : Z) (f : CFStorageNode → CFStorageNode) : M () := λ st,
  match nodes (heap st) !! a with
  | Some n => Some ((), put_nodes (<[a := f n]> (nodes (heap st))) st)
  | None => None
  end.
Definition free (a : Z) : M () := λ st, Some ((), put_nodes (delete a (nodes (heap st))) st).
Definition new (n : CFStorageNode) : M Z := λ st,
  let a := next (heap st) in
  Some (a, {| this := this st; heap := {| nodes := <[a := n]> (nodes (heap st)); next := a + 1 |} |}).

(** The pointer in an array of children; a [NULL] cannot be followed. *)
Definition child_at (n : CFStorageNode) (i : nat) : M (option Z) :=
  match info n with notLeaf c => lift (c !! i) | leaf _ => fail end.
Definition leaf_of (n : CFStorageNode) : M leaf_info := match info n with leaf l => mret l | notLeaf _ => fail end.

(** Enough fuel for any recursion along the paths of a tree. *)
Definition depth : M nat := λ st, Some (S (size (nodes (heap st))), st).

(** ** Ranges and sizes *)

Definition intersectionRange (a b : CFRange) : CFRange :=
  let start := Z.max (location a) (location b) in
  let stop := Z.min (location a + range_length a) (location b + range_length b) in
  if stop <=? start then CFRangeMake 0 0 else CFRangeMake start (stop - start).

Definition roundToPage (num : Z) : Z := Z.land (num + PAGE_SIZE - 1) (Z.lnot (PAGE_SIZE - 1)).

Definition __CFStorageConvertByteToValue (s : __CFStorage) (byte : Z) : Z :=
  if negb (byteToValueShifter s =? NO_SHIFTER) then Z.shiftr byte (byteToValueShifter s) else byte ÷ valueSize s.
Definition __CFStorageConvertBytesToValueRange (s : __CFStorage) (offset length : Z) : CFRange :=
  if negb (byteToValueShifter s =? NO_SHIFTER)
  then CFRangeMake (Z.shiftr offset (byteToValueShifter s)) (Z.shiftr length (byteToValueShifter s))
  else CFRangeMake (offset ÷ valueSize s) (length ÷ valueSize s).
Definition __CFStorageConvertValueToByte (s : __CFStorage) (value : Z) : Z :=
  if negb (byteToValueShifter s =? NO_SHIFTER) then Z.shiftl value (byteToValueShifter s) else value * valueSize s.
Definition __CFStorageConvertValuesToByteRange (s : __CFStorage) (offset length : Z) : CFRange :=
  if negb (byteToValueShifter s =? NO_SHIFTER)
  then CFRangeMake (Z.shiftl offset (byteToValueShifter s)) (Z.shiftl length (byteToValueShifter s))
  else CFRangeMake (offset * valueSize s) (length * valueSize s).

Section program.
Context `{Al : Allocator}.

(** ** Memory of the leaves *)

(** The size [__CFStorageAllocLeafNodeMemory] rounds to. *)
Definition rounded (s : __CFStorage) (cap : Z) : Z :=
  if PAGE_LIMIT <? cap
  then let cap := roundToPage (sint 32 cap) in if maxLeafCapacity s <? cap then maxLeafCapacity s else cap
  else (cap + 63) ÷ 64 * 64.

Definition __CFStorageAllocLeafNodeMemory (node cap : Z) (compact : bool) : M () :=
  s ← self;
  n ← load node;
  l ← leaf_of n;
  let cap := rounded s cap in
  if (if compact then negb (cap =? capacityInBytes l) else capacityInBytes l <? cap)
  then update node (set_info (leaf {| capacityInBytes := cap; memory := realloc (default [] (memory l)) cap;
                                      cachedRange := cachedRange l |}))
  else mret ().

(** [memmove] into the memory of a leaf. *)
Definition COPYMEM (src : option (list Z)) (from dst to n : Z) : M () :=
  if n =? 0 then mret ()
  else
    m ← lift src;
    b ← lift (zsub m from n);
    d ← load dst;
    l ← leaf_of d;
    m' ← lift (memory l);
    m'' ← lift (zwrite m' to b);
    update dst (set_info (leaf {| capacityInBytes := capacityInBytes l; memory := Some m''; cachedRange := cachedRange l |})).

Definition memory_of (node : Z) : M (option (list Z)) := n ← load node; l ← leaf_of n; mret (memory l).

Definition __CFLeafCopyRangeToOffset (srcLeaf : Z) (srcRange : CFRange) (dstLeaf dstLocation : Z) : M () :=
  if 0 <? range_length srcRange
  then m ← memory_of srcLeaf; COPYMEM m (location srcRange) dstLeaf dstLocation (range_length srcRange)
  else mret ().

(** ** Reference counts and freezing *)

Definition __CFStorageRetainNode (node : Z) : M Z :=
  n ← load node;
  (if 0 <? refCount n then update node (set_refCount (refCount n + 1)) else mret ());;
  mret node.
Definition __CFStorageRetainNodeThreadUnsafe (node : Z) : M Z := __CFStorageRetainNode node.

Definition __CFStorageReleaseNodeWithNullCheck (release : Z → M ()) (p : option Z) : M () :=
  match p with Some node => release node | None => mret () end.

Definition __CFStorageDeallocateNode (release : Z → M ()) (node : Z) : M () :=
  n ← load node;
  (if isLeaf n then mret ()
   else
     c0 ← child_at n 0; __CFStorageReleaseNodeWithNullCheck release c0;;
     c1 ← child_at n 1; __CFStorageReleaseNodeWithNullCheck release c1;;
     c2 ← child_at n 2; __CFStorageReleaseNodeWithNullCheck release c2);;
  free node.

Fixpoint release_node (fuel : nat) (node : Z) : M () :=
  match fuel with
  | O => fail
  | S fuel =>
      n ← load node;
      if 0 <? refCount n
      then
        update node (set_refCount (refCount n - 1));;
        if refCount n - 1 =? 0 then __CFStorageDeallocateNode (release_node fuel) node else mret ()
      else mret ()
  end.
Definition __CFStorageReleaseNode (node : Z) : M () := fuel ← depth; release_node fuel node.

Definition __CFStorageFreezeNode (node : Z) : M () := update node (set_isFrozen true).

Definition __CFStorageThawNodeDuringMutation (node : Z) : M bool :=
  n ← load node;
  if refCount n =? 1 then update node (set_isFrozen false);; mret true else mret false.

Definition __CFStorageSetChild (parentNode : Z) (childIndex : nat) (newChild : option Z) : M () :=
  n ← load parentNode;
  match info n with
  | notLeaf c => update parentNode (set_info (notLeaf (<[childIndex := newChild]> c)))
  | leaf _ => fail
  end.

Definition get_child (shouldRetain shouldFreeze : bool) (p : option Z) : M () :=
  match p with
  | None => mret ()
  | Some node =>
      (if shouldRetain then __CFStorageRetainNode node;; mret () else mret ());;
      (if shouldFreeze then __CFStorageFreezeNode node else mret ())
  end.
Definition __CFStorageGetChildren (parent : Z) (shouldRetain shouldFreeze : bool) : M (list (option Z)) :=
  n ← load parent;
  c0 ← child_at n 0; get_child shouldRetain shouldFreeze c0;;
  c1 ← child_at n 1; get_child shouldRetain shouldFreeze c1;;
  c2 ← child_at n 2; get_child shouldRetain shouldFreeze c2;;
  mret [c0; c1; c2].

(** ** The cache *)

Definition __CFStorageSetCache (node : option Z) (locInBytes : Z) : M () :=
  s ← self;
  (match node with
   | Some a =>
       n ← load a;
       l ← leaf_of n;
       update a (set_info (leaf {| capacityInBytes := capacityInBytes l; memory := memory l;
                                   cachedRange := __CFStorageConvertBytesToValueRange s locInBytes (numBytes n) |}))
   | None => mret ()
   end);;
  set_self (set_cacheNode node).

(** A pointer into the memory of a leaf, with the range of the values next to it. *)
Definition value_ptr : Type := Z * Z * CFRange.

Definition __CFStorageGetFromCache (loc : Z) (requireUnfrozenNode : bool) : M (option value_ptr) :=
  s ← self;
  match cacheNode s with
  | None => mret None
  | Some cachedNode =>
      n ← load cachedNode;
      if requireUnfrozenNode && isFrozen n then mret None
      else
        l ← leaf_of n;
        (match memory l with None => __CFStorageAllocLeafNodeMemory cachedNode (numBytes n) false | Some _ => mret () end);;
        let nodeOffset := location (cachedRange l) in
        let nodeLength := range_length (cachedRange l) in
        if (loc <? nodeOffset) || (nodeOffset + nodeLength <=? loc) then mret None
        else mret (Some (cachedNode, __CFStorageConvertValueToByte s (loc - nodeOffset), CFRangeMake nodeOffset nodeLength))
  end.

(** The child, its number, and the byte in it. *)
Definition __CFStorageFindChild (n : CFStorageNode) (byteNum : Z) (forInsertionOrDeletion : bool) : M (Z * nat * Z) :=
  let byteNum := if forInsertionOrDeletion then byteNum - 1 else byteNum in
  let back := if forInsertionOrDeletion then 1 else 0 in
  c0 ← child_at n 0; c0 ← lift c0; n0 ← load c0;
  if byteNum <? numBytes n0 then mret (c0, 0%nat, byteNum + back)
  else
    let byteNum := byteNum - numBytes n0 in
    c1 ← child_at n 1; c1 ← lift c1; n1 ← load c1;
    if byteNum <? numBytes n1 then mret (c1, 1%nat, byteNum + back)
    else
      let byteNum := byteNum - numBytes n1 in
      c2 ← child_at n 2; c2 ← lift c2;
      mret (c2, 2%nat, byteNum + back).

(** ** Creation of nodes *)

Definition __CFStorageCreateNode (leafNode : bool) (bytes : Z) : M Z :=
  s ← self;
  lift (alloc sizeof_CFStorageNode);;
  new {| numBytes := bytes; refCount := 1; isFrozen := alwaysFrozen s;
         info := if leafNode then leaf empty_leaf else notLeaf no_children |}.

Definition copy_child (n : CFStorageNode) (result : Z) (i : nat) : M () :=
  c ← child_at n i;
  match c with
  | Some c => c ← __CFStorageRetainNode c; __CFStorageSetChild result i (Some c)
  | None => if decide (i = 0%nat) then fail else mret ()
  end.
Definition freeze_child (n : CFStorageNode) (i : nat) : M () :=
  c ← child_at n i;
  match c with
  | Some c => __CFStorageFreezeNode c
  | None => if decide (i = 0%nat) then fail else mret ()
  end.

Definition __CFStorageCopyNode (node : Z) : M Z :=
  n ← load node;
  result ← __CFStorageCreateNode (isLeaf n) (numBytes n);
  (match info n with
   | leaf l =>
       match memory l with
       | None => mret ()
       | Some m => __CFStorageAllocLeafNodeMemory result (numBytes n) false;; COPYMEM (Some m) 0 result 0 (numBytes n)
       end
   | notLeaf _ =>
       copy_child n result 0;; copy_child n result 1;; copy_child n result 2;;
       if isFrozen n then freeze_child n 0;; freeze_child n 1;; freeze_child n 2 else mret ()
   end);;
  mret result.

(** ** Deletion *)

Definition __CFStorageDeleteLeafFrozen (node : Z) (range : CFRange) : M (option Z) :=
  n ← load node;
  let rangeToDeleteEnd := location range + range_length range in
  let remainingBytes := numBytes n - range_length range in
  if remainingBytes =? 0 then mret None
  else
    newNode ← __CFStorageCreateNode true remainingBytes;
    l ← leaf_of n;
    (match memory l with
     | None => mret ()
     | Some _ =>
         let nonDeletedPrefix := CFRangeMake 0 (location range) in
         let nonDeletedSuffix := CFRangeMake rangeToDeleteEnd (numBytes n - rangeToDeleteEnd) in
         __CFStorageAllocLeafNodeMemory newNode remainingBytes false;;
         __CFLeafCopyRangeToOffset node nonDeletedPrefix newNode 0;;
         __CFLeafCopyRangeToOffset node nonDeletedSuffix newNode (range_length nonDeletedPrefix)
     end);;
    mret (Some newNode).

(** The loop over the children; [delete] is [__CFStorageDeleteFrozen] when the
    children are definitely frozen and [__CFStorageDelete] otherwise. *)
Fixpoint populate_loop (delete : Z → CFRange → M (option Z)) (range : CFRange) (childrenAreDefinitelyFrozen : bool)
    (existing : list (option Z)) (childByteOffset : Z) (newChildren : list Z) : M (list Z) :=
  match existing with
  | Some existingChild :: existing =>
      n ← load existingChild;
      let existingChildLength := numBytes n in
      let intersected := intersectionRange range (CFRangeMake childByteOffset existingChildLength) in
      newChildren ←
        (if range_length intersected =? 0 then
           c ← __CFStorageRetainNode existingChild;
           (if childrenAreDefinitelyFrozen then __CFStorageFreezeNode existingChild else mret ());;
           mret (newChildren ++ [c])
         else
           newChild ← delete existingChild (CFRangeMake (location intersected - childByteOffset) (range_length intersected));
           mret (newChildren ++ option_list newChild));
      populate_loop delete range childrenAreDefinitelyFrozen existing (childByteOffset + existingChildLength) newChildren
  | _ => mret newChildren
  end.
Definition __CFStoragePopulateBranchChildrenAfterDeletion (delete : Z → CFRange → M (option Z)) (node : Z)
    (range : CFRange) (childrenAreDefinitelyFrozen : bool) : M (list Z) :=
  n ← load node;
  match info n with
  | notLeaf c => populate_loop delete range childrenAreDefinitelyFrozen c 0 []
  | leaf _ => fail
  end.

(** [while (newChildIndex--)]: the children from the last to the first. *)
Fixpoint set_children_loop (result : Z) (newChildIndex : nat) (newChildren : list Z) : M () :=
  match newChildIndex with
  | O => mret ()
  | S newChildIndex =>
      __CFStorageSetChild result newChildIndex (newChildren !! newChildIndex);;
      set_children_loop result newChildIndex newChildren
  end.

Definition __CFStorageDeleteBranchFrozen (delete : Z → CFRange → M (option Z)) (node : Z) (range : CFRange) : M (option Z) :=
  n ← load node;
  if range_length range =? numBytes n then mret None
  else
    newChildren ← __CFStoragePopulateBranchChildrenAfterDeletion delete node range true;
    if decide (length newChildren = 1%nat) then mret (newChildren !! 0%nat)
    else
      result ← __CFStorageCreateNode false 0;
      set_children_loop result (length newChildren) newChildren;;
      update result (set_numBytes (numBytes n - range_length range));;
      mret (Some result).

Fixpoint __CFStorageDeleteFrozen (fuel : nat) (node : Z) (range : CFRange) : M (option Z) :=
  match fuel with
  | O => fail
  | S fuel =>
      n ← load node;
      if isLeaf n then __CFStorageDeleteLeafFrozen node range
      else __CFStorageDeleteBranchFrozen (__CFStorageDeleteFrozen fuel) node range
  end.

Definition __CFStorageDeleteUnfrozen (delete : Z → CFRange → M (option Z)) (node : Z) (range : CFRange) (compact : bool) :
    M (option Z) :=
  n ← load node;
  if range_length range =? numBytes n then mret None
  else if isLeaf n then
    let remaining := numBytes n - range_length range in
    update node (set_numBytes remaining);;
    l ← leaf_of n;
    (match memory l with
     | None => mret ()
     | Some m =>
         COPYMEM (Some m) (location range + range_length range) node (location range) (remaining - location range);;
         if compact then __CFStorageAllocLeafNodeMemory node remaining true else mret ()
     end);;
    c ← __CFStorageRetainNodeThreadUnsafe node; mret (Some c)
  else
    newChildren ← __CFStoragePopulateBranchChildrenAfterDeletion delete node range false;
    update node (λ n, set_numBytes (numBytes n - range_length range) n);;
    n ← load node;
    c0 ← child_at n 0; c1 ← child_at n 1; c2 ← child_at n 2;
    c0 ← lift c0;
    __CFStorageReleaseNode c0;;
    __CFStorageReleaseNodeWithNullCheck __CFStorageReleaseNode c1;;
    __CFStorageReleaseNodeWithNullCheck __CFStorageReleaseNode c2;;
    update node (set_info (notLeaf no_children));;
    if decide (length newChildren = 1%nat) then mret (newChildren !! 0%nat)
    else
      __CFStorageSetChild node 0 (newChildren !! 0%nat);;
      __CFStorageSetChild node 1 (newChildren !! 1%nat);;
      __CFStorageSetChild node 2 (newChildren !! 2%nat);;
      c ← __CFStorageRetainNodeThreadUnsafe node; mret (Some c).

(** Whether a node is to be treated as frozen; one with a single reference is not. *)
Definition stays_frozen (node : Z) : M bool :=
  n ← load node;
  if isFrozen n then thawed ← __CFStorageThawNodeDuringMutation node; mret (negb thawed) else mret false.

Fixpoint __CFStorageDelete (fuel : nat) (compact : bool) (node : Z) (range : CFRange) : M (option Z) :=
  match fuel with
  | O => fail
  | S fuel' =>
      frozen ← stays_frozen node;
      if (frozen : bool) then __CFStorageDeleteFrozen fuel node range
      else __CFStorageDeleteUnfrozen (__CFStorageDelete fuel' compact) node range compact
  end.

(** ** Insertion *)

Definition copy_overlap (m : option (list Z)) (overlap : CFRange) (size dst to : Z) : M () :=
  if 0 <? range_length overlap
  then COPYMEM m (location overlap - size) dst (location overlap - to) (range_length overlap) else mret ().

Definition __CFStorageInsertLeafFrozen (node byteNum size absoluteByteNum : Z) : M CFStorageDoubleNodeReturn :=
  s ← self;
  n ← load node;
  l ← leaf_of n;
  let newTotalSize := size + numBytes n in
  if newTotalSize <=? maxLeafCapacity s then
    leftResult ← __CFStorageCreateNode true newTotalSize;
    (match memory l with
     | None => mret ()
     | Some m =>
         __CFStorageAllocLeafNodeMemory leftResult newTotalSize false;;
         COPYMEM (Some m) 0 leftResult 0 byteNum;;
         COPYMEM (Some m) byteNum leftResult (byteNum + size) (numBytes n - byteNum)
     end);;
    __CFStorageSetCache (Some leftResult) (absoluteByteNum - byteNum);;
    mret (CFStorageDoubleNodeReturnMake leftResult None)
  else if byteNum =? numBytes n then
    rightResult ← __CFStorageCreateNode true size;
    __CFStorageSetCache (Some rightResult) absoluteByteNum;;
    mret (CFStorageDoubleNodeReturnMake node (Some rightResult))
  else if byteNum =? 0 then
    rightResult ← __CFStorageRetainNode node;
    leftResult ← __CFStorageCreateNode true size;
    __CFStorageSetCache (Some leftResult) absoluteByteNum;;
    mret (CFStorageDoubleNodeReturnMake leftResult (Some rightResult))
  else
    let leftAmount := maxLeafCapacity s in
    let rightAmount := newTotalSize - maxLeafCapacity s in
    leftResult ← __CFStorageCreateNode true leftAmount;
    rightResult ← __CFStorageCreateNode true rightAmount;
    __CFStorageAllocLeafNodeMemory leftResult leftAmount false;;
    __CFStorageAllocLeafNodeMemory rightResult rightAmount false;;
    COPYMEM (memory l) 0 leftResult 0 byteNum;;
    let leftNodeRange := CFRangeMake 0 leftAmount in
    let rightNodeRange := CFRangeMake leftAmount rightAmount in
    let preservedData := CFRangeMake (byteNum + size) (numBytes n - byteNum) in
    copy_overlap (memory l) (intersectionRange leftNodeRange preservedData) size leftResult 0;;
    copy_overlap (memory l) (intersectionRange rightNodeRange preservedData) size rightResult leftAmount;;
    __CFStorageSetCache (Some leftResult) (absoluteByteNum - byteNum);;
    mret (CFStorageDoubleNodeReturnMake leftResult (Some rightResult)).

Definition bytes_of_node (p : option Z) : M Z := a ← lift p; n ← load a; mret (numBytes n).

(** The four slots of the local array [newChildren]. *)
Definition make_room (childNum : nat) (newChild : option Z) (c : list (option Z)) : list (option Z) :=
  let c := if decide (childNum < 2)%nat then <[3%nat := mjoin (c !! 2%nat)]> c else c in
  let c := if decide (childNum < 1)%nat then <[2%nat := mjoin (c !! 1%nat)]> c else c in
  <[(childNum + 1)%nat := newChild]> c.

Definition __CFStorageInsertBranchFrozen (insert : Z → Z → Z → Z → M CFStorageDoubleNodeReturn)
    (node byteNum size absoluteByteNum : Z) : M CFStorageDoubleNodeReturn :=
  copyOfMe ← __CFStorageCreateNode false 0;
  n ← load node;
  '(c, childNum, relativeByteNum) ← __CFStorageFindChild n byteNum true;
  childReturn ← insert c relativeByteNum size absoluteByteNum;
  newChildren ← __CFStorageGetChildren node true true;
  let newChildren := newChildren ++ [None] in
  newChildren ←
    (if decide (mjoin (newChildren !! childNum) = Some (child childReturn)) then mret newChildren
     else
       old ← lift (mjoin (newChildren !! childNum));
       __CFStorageReleaseNode old;;
       mret (<[childNum := Some (child childReturn)]> newChildren));
  let newChildren :=
    match sibling childReturn with
    | Some new => make_room childNum (Some new) newChildren
    | None => newChildren
    end in
  let slot i := mjoin (newChildren !! i) in
  __CFStorageSetChild copyOfMe 0 (slot 0%nat);;
  __CFStorageSetChild copyOfMe 1 (slot 1%nat);;
  match slot 3%nat with
  | None =>
      __CFStorageSetChild copyOfMe 2 (slot 2%nat);;
      n ← load node;
      update copyOfMe (set_numBytes (numBytes n + size));;
      mret (CFStorageDoubleNodeReturnMake copyOfMe None)
  | Some _ =>
      siblingOfMe ← __CFStorageCreateNode false 0;
      __CFStorageSetChild siblingOfMe 0 (slot 2%nat);;
      __CFStorageSetChild siblingOfMe 1 (slot 3%nat);;
      b0 ← bytes_of_node (slot 0%nat); b1 ← bytes_of_node (slot 1%nat);
      update copyOfMe (set_numBytes (b0 + b1));;
      b2 ← bytes_of_node (slot 2%nat); b3 ← bytes_of_node (slot 3%nat);
      update siblingOfMe (set_numBytes (b2 + b3));;
      mret (CFStorageDoubleNodeReturnMake copyOfMe (Some siblingOfMe))
  end.

Fixpoint __CFStorageInsertFrozen (fuel : nat) (node byteNum size absoluteByteNum : Z) : M CFStorageDoubleNodeReturn :=
  match fuel with
  | O => fail
  | S fuel =>
      n ← load node;
      if isLeaf n then __CFStorageInsertLeafFrozen node byteNum size absoluteByteNum
      else __CFStorageInsertBranchFrozen (__CFStorageInsertFrozen fuel) node byteNum size absoluteByteNum
  end.

Definition __CFStorageInsertLeafUnfrozen (node byteNum size absoluteByteNum : Z) : M CFStorageDoubleNodeReturn :=
  s ← self;
  n ← load node;
  l ← leaf_of n;
  if maxLeafCapacity s <? size + numBytes n then
    newNode ←
      (if byteNum =? numBytes n then
         newNode ← __CFStorageCreateNode true size;
         __CFStorageSetCache (Some newNode) absoluteByteNum;;
         mret newNode
       else if byteNum =? 0 then
         newNode ← __CFStorageCreateNode true 0;
         update newNode (set_numBytes (numBytes n));;
         update newNode (set_info (leaf {| capacityInBytes := capacityInBytes l; memory := memory l;
                                           cachedRange := CFRangeMake 0 0 |}));;
         update node (set_numBytes size);;
         update node (set_info (leaf {| capacityInBytes := 0; memory := None; cachedRange := cachedRange l |}));;
         __CFStorageSetCache (Some node) absoluteByteNum;;
         mret newNode
       else if byteNum + size <=? maxLeafCapacity s then
         newNode ← __CFStorageCreateNode true (numBytes n - byteNum);
         (match memory l with
          | None => mret ()
          | Some m =>
              __CFStorageAllocLeafNodeMemory newNode (numBytes n - byteNum) false;;
              COPYMEM (Some m) byteNum newNode 0 (numBytes n - byteNum);;
              __CFStorageAllocLeafNodeMemory node (byteNum + size) false
          end);;
         update node (set_numBytes (byteNum + size));;
         __CFStorageSetCache (Some node) (absoluteByteNum - byteNum);;
         mret newNode
       else
         newNode ← __CFStorageCreateNode true (numBytes n + size - maxLeafCapacity s);
         (match memory l with
          | None => mret ()
          | Some m =>
              __CFStorageAllocLeafNodeMemory newNode (numBytes n + size - maxLeafCapacity s) false;;
              COPYMEM (Some m) byteNum newNode (byteNum + size - maxLeafCapacity s) (numBytes n - byteNum);;
              __CFStorageAllocLeafNodeMemory node (maxLeafCapacity s) false
          end);;
         __CFStorageSetCache (Some node) (absoluteByteNum - byteNum);;
         update node (set_numBytes (maxLeafCapacity s));;
         mret newNode);
    mret (CFStorageDoubleNodeReturnMake node (Some newNode))
  else
    (match memory l with
     | None => mret ()
     | Some _ =>
         __CFStorageAllocLeafNodeMemory node (numBytes n + size) false;;
         m ← memory_of node;
         COPYMEM m byteNum node (byteNum + size) (numBytes n - byteNum)
     end);;
    update node (set_numBytes (numBytes n + size));;
    __CFStorageSetCache (Some node) (absoluteByteNum - byteNum);;
    mret (CFStorageDoubleNodeReturnMake node None).

Definition numBytes_of_children (node : Z) : M Z :=
  n ← load node;
  c0 ← child_at n 0; b0 ← bytes_of_node c0; c1 ← child_at n 1; b1 ← bytes_of_node c1;
  mret (b0 + b1).

(** A full branch keeps its first two children; the others go to a new node. *)
Definition split_branch (node : Z) (childNum : nat) (newChild : Z) : M Z :=
  anotherNode ← __CFStorageCreateNode false 0;
  n ← load node;
  c1 ← child_at n 1; c2 ← child_at n 2;
  match childNum with
  | 0%nat =>
      __CFStorageSetChild anotherNode 0 c1;;
      __CFStorageSetChild anotherNode 1 c2;;
      __CFStorageSetChild node 1 (Some newChild);;
      __CFStorageSetChild node 2 None
  | 1%nat =>
      __CFStorageSetChild anotherNode 0 (Some newChild);;
      __CFStorageSetChild anotherNode 1 c2;;
      __CFStorageSetChild node 2 None
  | _ =>
      __CFStorageSetChild anotherNode 0 c2;;
      __CFStorageSetChild anotherNode 1 (Some newChild);;
      __CFStorageSetChild node 2 None
  end;;
  b ← numBytes_of_children node; update node (set_numBytes b);;
  b ← numBytes_of_children anotherNode; update anotherNode (set_numBytes b);;
  mret anotherNode.

Definition __CFStorageInsertBranchUnfrozen (insert : Z → Z → Z → Z → M CFStorageDoubleNodeReturn)
    (node byteNum size absoluteByteNum : Z) : M CFStorageDoubleNodeReturn :=
  n ← load node;
  '(childNode, childNum, relativeByteNum) ← __CFStorageFindChild n byteNum true;
  newNodes ← insert childNode relativeByteNum size absoluteByteNum;
  (if child newNodes =? childNode then mret ()
   else
     __CFStorageReleaseNode childNode;;
     __CFStorageSetChild node childNum (Some (child newNodes)));;
  match sibling newNodes with
  | None =>
      update node (λ n, set_numBytes (numBytes n + size) n);;
      mret (CFStorageDoubleNodeReturnMake node None)
  | Some newChild =>
      n ← load node;
      c2 ← child_at n 2;
      match c2 with
      | None =>
          c1 ← child_at n 1;
          (if decide (childNum = 0%nat) then __CFStorageSetChild node 2 c1 else mret ());;
          __CFStorageSetChild node (childNum + 1) (Some newChild);;
          update node (λ n, set_numBytes (numBytes n + size) n);;
          mret (CFStorageDoubleNodeReturnMake node None)
      | Some _ =>
          anotherNode ← split_branch node childNum newChild;
          mret (CFStorageDoubleNodeReturnMake node (Some anotherNode))
      end
  end.

Definition __CFStorageInsertUnfrozen (insert : Z → Z → Z → Z → M CFStorageDoubleNodeReturn)
    (node byteNum size absoluteByteNum : Z) : M CFStorageDoubleNodeReturn :=
  n ← load node;
  if isLeaf n then __CFStorageInsertLeafUnfrozen node byteNum size absoluteByteNum
  else __CFStorageInsertBranchUnfrozen insert node byteNum size absoluteByteNum.

Fixpoint __CFStorageInsert (fuel : nat) (node byteNum size absoluteByteNum : Z) : M CFStorageDoubleNodeReturn :=
  match fuel with
  | O => fail
  | S fuel' =>
      frozen ← stays_frozen node;
      if (frozen : bool) then __CFStorageInsertFrozen fuel node byteNum size absoluteByteNum
      else __CFStorageInsertUnfrozen (__CFStorageInsert fuel') node byteNum size absoluteByteNum
  end.

(** ** Reading *)

(** The leaf, the offset in it, and the bytes consecutive with this one. *)
Fixpoint __CFStorageFindByte (fuel : nat) (node byteNum absoluteByteOffsetOfNode : Z) (requireUnfreezing : bool) :
    M (Z * Z * CFRange) :=
  match fuel with
  | O => fail
  | S fuel =>
      n ← load node;
      if isLeaf n then
        __CFStorageAllocLeafNodeMemory node (numBytes n) false;;
        mret (node, byteNum, CFRangeMake absoluteByteOffsetOfNode (numBytes n))
      else
        '(c, childNum, relativeByteNum) ← __CFStorageFindChild n byteNum false;
        cn ← load c;
        c ←
          (if requireUnfreezing && isFrozen cn then
             thawed ← __CFStorageThawNodeDuringMutation c;
             if (thawed : bool) then mret c
             else
               unfrozenReplacement ← __CFStorageCopyNode c;
               __CFStorageSetChild node childNum (Some unfrozenReplacement);;
               __CFStorageReleaseNode c;;
               mret unfrozenReplacement
           else mret c);
        __CFStorageFindByte fuel c relativeByteNum (absoluteByteOffsetOfNode + (byteNum - relativeByteNum)) requireUnfreezing
  end.

Definition __CFStorageGetValueAtIndex (idx : Z) (requireUnfreezing : bool) : M value_ptr :=
  cached ← __CFStorageGetFromCache idx requireUnfreezing;
  match cached with
  | Some p => mret p
  | None =>
      s ← self;
      fuel ← depth;
      '(node, offset, rangeInBytes) ←
        __CFStorageFindByte fuel (rootNode s) (__CFStorageConvertValueToByte s idx) 0 requireUnfreezing;
      __CFStorageSetCache (Some node) (location rangeInBytes);;
      mret (node, offset, __CFStorageConvertBytesToValueRange s (location rangeInBytes) (range_length rangeInBytes))
  end.
Definition CFStorageGetValueAtIndex (idx : Z) : M value_ptr := __CFStorageGetValueAtIndex idx true.
Definition CFStorageGetConstValueAtIndex (idx : Z) : M value_ptr := __CFStorageGetValueAtIndex idx false.

(** Reading and writing through the pointer. *)
Definition read_bytes (node offset n : Z) : M (list Z) :=
  if n =? 0 then mret [] else m ← memory_of node; m ← lift m; lift (zsub m offset n).

Fixpoint get_values_loop (fuel : nat) (loc length : Z) (values : list Z) : M (list Z) :=
  if 0 <? length then
    match fuel with
    | O => fail
    | S fuel =>
        s ← self;
        '(node, offset, leafRange) ← __CFStorageGetValueAtIndex loc false;
        let cntThisTime := Z.min length (range_length leafRange - (loc - location leafRange)) in
        b ← read_bytes node offset (__CFStorageConvertValueToByte s cntThisTime);
        get_values_loop fuel (loc + cntThisTime) (length - cntThisTime) (values ++ b)
    end
  else mret values.
Definition CFStorageGetValues (range : CFRange) : M (list Z) :=
  get_values_loop (Z.to_nat (range_length range)) (location range) (range_length range) [].

Fixpoint replace_values_loop (fuel : nat) (loc length : Z) (values : list Z) : M () :=
  if 0 <? length then
    match fuel with
    | O => fail
    | S fuel =>
        s ← self;
        '(node, offset, leafRange) ← __CFStorageGetValueAtIndex loc true;
        let cntThisTime := Z.min length (range_length leafRange - (loc - location leafRange)) in
        let byteCntThisTime := __CFStorageConvertValueToByte s cntThisTime in
        COPYMEM (Some values) 0 node offset byteCntThisTime;;
        replace_values_loop fuel (loc + cntThisTime) (length - cntThisTime) (drop (Z.to_nat byteCntThisTime) values)
    end
  else mret ().
Definition CFStorageReplaceValues (range : CFRange) (values : list Z) : M () :=
  replace_values_loop (Z.to_nat (range_length range)) (location range) (range_length range) values.

(** ** The storage *)

Definition __CFStorageGetCount : M Z := s ← self; n ← load (rootNode s); mret (__CFStorageConvertByteToValue s (numBytes n)).
Definition CFStorageGetCount : M Z := __CFStorageGetCount.

(** The root becomes a branch, of its copy in a new node and of [newNode]. *)
Definition grow_root (newNode : Z) : M () :=
  s ← self;
  root ← load (rootNode s);
  heapRoot ← __CFStorageCreateNode (isLeaf root) (numBytes root);
  update heapRoot (set_info (info root));;
  (if isLeaf root
   then __CFStorageSetCache None 0;; update (rootNode s) (set_info (notLeaf no_children)) else mret ());;
  __CFStorageSetChild (rootNode s) 0 (Some heapRoot);;
  __CFStorageSetChild (rootNode s) 1 (Some newNode);;
  __CFStorageSetChild (rootNode s) 2 None;;
  h ← load heapRoot; n ← load newNode;
  update (rootNode s) (set_numBytes (numBytes h + numBytes n)).

Fixpoint insert_values_loop (fuel : nat) (byteNum numBytesToInsert : Z) : M () :=
  if 0 <? numBytesToInsert then
    match fuel with
    | O => fail
    | S fuel =>
        s ← self;
        let insertThisTime := Z.min numBytesToInsert (maxLeafCapacity s) in
        d ← depth;
        newNodes ← __CFStorageInsertUnfrozen (__CFStorageInsert d) (rootNode s) byteNum insertThisTime byteNum;
        (match sibling newNodes with None => mret () | Some newNode => grow_root newNode end);;
        insert_values_loop fuel (byteNum + insertThisTime) (numBytesToInsert - insertThisTime)
    end
  else mret ().
Definition CFStorageInsertValues (range : CFRange) : M () :=
  s ← self;
  let numBytesToInsert := __CFStorageConvertValueToByte s (range_length range) in
  let byteNum := __CFStorageConvertValueToByte s (location range) in
  insert_values_loop (S (Z.to_nat (numBytesToInsert ÷ maxLeafCapacity s))) byteNum numBytesToInsert.

Definition __CFStorageClearRootNode : M () :=
  s ← self;
  n ← load (rootNode s);
  (if isLeaf n then mret ()
   else
     c0 ← child_at n 0; __CFStorageReleaseNodeWithNullCheck __CFStorageReleaseNode c0;;
     c1 ← child_at n 1; __CFStorageReleaseNodeWithNullCheck __CFStorageReleaseNode c1;;
     c2 ← child_at n 2; __CFStorageReleaseNodeWithNullCheck __CFStorageReleaseNode c2);;
  update (rootNode s) (λ n, set_info (leaf empty_leaf) (set_numBytes 0 n)).
Definition __CFStorageDeallocate : M () := __CFStorageClearRootNode.

(** Makes the root a copy of another node, [newRoot], which loses a reference. *)
Definition become_root (root newRoot : Z) : M () :=
  nr ← load newRoot;
  update root (set_numBytes (numBytes nr));;
  match info nr with
  | leaf l =>
      update root (set_info (leaf empty_leaf));;
      if isFrozen nr then
        match memory l with
        | None => mret ()
        | Some m =>
            __CFStorageAllocLeafNodeMemory root (numBytes nr) false;;
            COPYMEM (Some m) 0 root 0 (numBytes nr)
        end
      else
        update root (set_info (leaf {| capacityInBytes := 0; memory := memory l; cachedRange := CFRangeMake 0 0 |}));;
        update newRoot (set_info (leaf empty_leaf))
  | notLeaf _ =>
      update root (set_info (notLeaf no_children));;
      c0 ← child_at nr 0; c0 ← lift c0; c0 ← __CFStorageRetainNode c0; __CFStorageSetChild root 0 (Some c0);;
      c1 ← child_at nr 1; c1 ← lift c1; c1 ← __CFStorageRetainNode c1; __CFStorageSetChild root 1 (Some c1);;
      c2 ← child_at nr 2;
      match c2 with
      | None => mret ()
      | Some c2 => c2 ← __CFStorageRetainNode c2; __CFStorageSetChild root 2 (Some c2)
      end
  end.

Definition CFStorageDeleteValues (range : CFRange) : M () :=
  s ← self;
  let byteRange := __CFStorageConvertValuesToByteRange s (location range) (range_length range) in
  __CFStorageSetCache None 0;;
  d ← depth;
  newRoot ← __CFStorageDeleteUnfrozen (__CFStorageDelete d true) (rootNode s) byteRange true;
  match newRoot with
  | None => __CFStorageClearRootNode
  | Some newRoot =>
      (if newRoot =? rootNode s then mret () else become_root (rootNode s) newRoot);;
      __CFStorageReleaseNode newRoot
  end.

Definition __CFStorageSetAlwaysFrozen (b : bool) : M () := set_self (set_alwaysFrozen b).

Definition __builtin_ctzl (x : Z) : Z := Z.log2 (Z.land x (- x)).

(** The object with its root; [None] when there is no memory for it. *)
Definition CFStorageCreate (size : Z) (h : store) : option __CFStorage * store :=
  match alloc sizeof_CFStorage with
  | None => (None, h)
  | Some _ =>
      let root := {| numBytes := 0; refCount := 0; isFrozen := false; info := leaf empty_leaf |} in
      let maxLeaf := __CFStorageMaxLeafCapacity in
      (Some {| valueSize := size;
               byteToValueShifter := if (0 <? size) && (Z.land size (size - 1) =? 0) then __builtin_ctzl size else NO_SHIFTER;
               alwaysFrozen := false; cacheNode := None;
               maxLeafCapacity := if negb (size =? 0) && negb (Z.rem maxLeaf size =? 0) then maxLeaf ÷ size * size else maxLeaf;
               rootNode := next h |},
       {| nodes := <[next h := root]> (nodes h); next := next h + 1 |})
  end.

(** ** Sharing *)

Definition overlap_of (n : CFStorageNode) (i : nat) (offset : Z) (range : CFRange) : M CFRange :=
  c ← child_at n i;
  match c with
  | Some c => b ← load c; mret (intersectionRange (CFRangeMake offset (numBytes b)) range)
  | None => if decide (i = 0%nat) then fail else mret (intersectionRange (CFRangeMake offset 0) range)
  end.
Definition length_of (n : CFStorageNode) (i : nat) : M Z :=
  c ← child_at n i;
  match c with Some c => b ← load c; mret (numBytes b) | None => if decide (i = 0%nat) then fail else mret 0 end.
Definition some_length (r : CFRange) : Z := if range_length r =? 0 then 0 else 1.

(** The node, and the bytes of the storage it holds. *)
Fixpoint _CFStorageFindNodeContainingByteRange (fuel : nat) (node : Z) (nodeRange : CFRange) (globalOffsetOfNode : Z) :
    M (Z * CFRange) :=
  match fuel with
  | O => fail
  | S fuel =>
      n ← load node;
      let here := mret (node, CFRangeMake globalOffsetOfNode (numBytes n)) in
      if isLeaf n then here
      else
        l0 ← length_of n 0; l1 ← length_of n 1;
        o0 ← overlap_of n 0 0 nodeRange; o1 ← overlap_of n 1 l0 nodeRange; o2 ← overlap_of n 2 (l0 + l1) nodeRange;
        let descend i offset :=
          c ← child_at n i; c ← lift c;
          _CFStorageFindNodeContainingByteRange fuel c
            (CFRangeMake (location nodeRange - offset) (range_length nodeRange)) (globalOffsetOfNode + offset) in
        if some_length o0 + some_length o1 + some_length o2 =? 1
        then if negb (range_length o0 =? 0) then descend 0%nat 0
             else if negb (range_length o1 =? 0) then descend 1%nat l0 else descend 2%nat (l0 + l1)
        else here
  end.

(** The loop stops at the first [NULL]. *)
Fixpoint share_children (root : Z) (i : nat) (c : list (option Z)) : M () :=
  match c with
  | Some newNode :: c =>
      __CFStorageFreezeNode newNode;;
      r ← __CFStorageRetainNode newNode;
      __CFStorageSetChild root i (Some r);;
      share_children root (S i) c
  | _ => mret ()
  end.

(** The calls made on the new storage, whose object is that of the action. *)
Definition fill_subrange (range byteRange : CFRange) (node : Z) (byteRangeOfContainingNode : CFRange) : M () :=
  result ← self;
  n ← load node;
  match info n with
  | leaf l =>
      CFStorageInsertValues (CFRangeMake 0 (range_length range));;
      match memory l with
      | None => mret ()
      | Some m =>
          let offsetIntoNode := location byteRange - location byteRangeOfContainingNode in
          CFStorageReplaceValues (CFRangeMake 0 (range_length range)) (drop (Z.to_nat offsetIntoNode) m)
      end
  | notLeaf c =>
      update (rootNode result) (set_numBytes (range_length byteRangeOfContainingNode));;
      update (rootNode result) (set_info (notLeaf no_children));;
      share_children (rootNode result) 0 c;;
      let rangeOfContainingNode :=
        __CFStorageConvertBytesToValueRange result (location byteRangeOfContainingNode) (range_length byteRangeOfContainingNode) in
      let prefixToTrim := location range - location rangeOfContainingNode in
      let suffixToTrim := (location rangeOfContainingNode + range_length rangeOfContainingNode) - (location range + range_length range) in
      (if 0 <? suffixToTrim
       then CFStorageDeleteValues (CFRangeMake (range_length rangeOfContainingNode - suffixToTrim) suffixToTrim) else mret ());;
      (if 0 <? prefixToTrim then CFStorageDeleteValues (CFRangeMake 0 prefixToTrim) else mret ())
  end.

Definition CFStorageCreateWithSubrange (storage : __CFStorage) (range : CFRange) (h : store) :
    option (option __CFStorage * store) :=
  match CFStorageCreate (valueSize storage) h with
  | (None, h) => if 0 <? range_length range then None else Some (None, h)
  | (Some result, h) =>
      if 0 <? range_length range then
        let byteRange := __CFStorageConvertValuesToByteRange storage (location range) (range_length range) in
        '(node, containing, st) ←
          (d ← depth; _CFStorageFindNodeContainingByteRange d (rootNode storage) byteRange 0) {| this := storage; heap := h |};
        '(_, st) ← fill_subrange range byteRange node containing {| this := result; heap := heap st |};
        Some (Some (this st), heap st)
      else Some (Some result, h)
  end.
End program.
