(* ===== verification/StorageSpec.v ===== *)
(** * What a CFStorage is: trees of shared nodes

    The abstract state of Storage.v: a tree gives the bytes of a node, [None]
    for a byte nobody has written yet.  The heap counts the references to each
    node; a node that belongs to several trees is frozen.  The lemmas say how
    changes to one tree leave the others as they are. *)
From S2P Require Import Prelude Storage.
From stdpp Require Import gmap list.
Open Scope Z_scope.

(** ** Total correctness of an action *)

Definition wp {A} (m : M A) (Q : A → state → Prop) (st : state) : Prop :=
  ∃ x st', m st = Some (x, st') ∧ Q x st'.

Section wp.
Context {A : Type}.
Implicit Types (Q : A → state → Prop).

Lemma wp_ret (x : A) Q st : Q x st → wp (mret x) Q st.
Proof. intros H. by exists x, st. Qed.
Lemma wp_bind {B} (m : M B) (k : B → M A) Q st : wp m (λ x st', wp (k x) Q st') st → wp (m ≫= k) Q st.
Proof.
  intros (x & st' & Hm & y & st'' & Hk & HQ). exists y, st''. split; [|done].
  unfold mbind, M_bind. by rewrite Hm.
Qed.
Lemma wp_assoc {B C} (m : M B) (f : B → M C) (k : C → M A) Q st : wp ((m ≫= f) ≫= k) Q st → wp (m ≫= λ x, f x ≫= k) Q st.
Proof. unfold wp, mbind, M_bind. by destruct (m st) as [[]|]. Qed.
Lemma wp_mono (m : M A) Q Q' st : wp m Q st → (∀ x st', Q x st' → Q' x st') → wp m Q' st.
Proof. intros (x & st' & Hm & HQ) H. exists x, st'. split; [done|by apply H]. Qed.
Lemma wp_lift (x : A) o Q st : o = Some x → Q x st → wp (lift o) Q st.
Proof. intros -> H. by exists x, st. Qed.
Lemma wp_bool (b : bool) (m1 m2 : M A) Q st :
  (b = true → wp m1 Q st) → (b = false → wp m2 Q st) → wp (if b then m1 else m2) Q st.
Proof. destruct b; auto. Qed.
End wp.

Lemma wp_self (Q : __CFStorage → state → Prop) st : Q (this st) st → wp self Q st.
Proof. intros H. by exists (this st), st. Qed.
Lemma wp_load a n (Q : CFStorageNode → state → Prop) st :
  nodes (heap st) !! a = Some n → Q n st → wp (load a) Q st.
Proof. intros Ha H. exists n, st. split; [|done]. unfold load. by rewrite Ha. Qed.
Lemma wp_update a f n (Q : () → state → Prop) st :
  nodes (heap st) !! a = Some n → Q () (put_nodes (<[a := f n]> (nodes (heap st))) st) → wp (update a f) Q st.
Proof. intros Ha H. eexists _, _. split; [|exact H]. unfold update. by rewrite Ha. Qed.
Lemma wp_free a (Q : () → state → Prop) st : Q () (put_nodes (delete a (nodes (heap st))) st) → wp (free a) Q st.
Proof. intros H. eexists _, _. by split; [|exact H]. Qed.
Lemma wp_depth (Q : nat → state → Prop) st : Q (S (size (nodes (heap st)))) st → wp depth Q st.
Proof. intros H. eexists _, _. by split; [|exact H]. Qed.
Lemma wp_leaf_of n l (Q : leaf_info → state → Prop) st : info n = leaf l → Q l st → wp (leaf_of n) Q st.
Proof. unfold leaf_of. intros -> H. by apply wp_ret. Qed.
Lemma wp_child_at n c i p (Q : option Z → state → Prop) st :
  info n = notLeaf c → c !! i = Some p → Q p st → wp (child_at n i) Q st.
Proof. unfold child_at. intros -> Hc H. by eapply wp_lift. Qed.

(** ** Sums over the nodes of a heap *)
Section sums.
Context {A : Type}.
Implicit Types (f : Z → A → Z) (m : gmap Z A).

Definition msum f m : Z := map_fold (λ k x acc, f k x + acc) 0 m.

Lemma msum_new f m i x : m !! i = None → msum f (<[i := x]> m) = f i x + msum f m.
Proof. intros H. unfold msum. rewrite map_fold_insert_L; [done|intros; lia|done]. Qed.
Lemma msum_delete f m i x : m !! i = Some x → msum f (delete i m) = msum f m - f i x.
Proof.
  intros H. rewrite <- (insert_delete_id m i x H) at 2. rewrite msum_new by apply lookup_delete_eq. lia.
Qed.
Lemma msum_insert f m i x y : m !! i = Some x → msum f (<[i := y]> m) = msum f m - f i x + f i y.
Proof.
  intros H. rewrite <- insert_delete_eq, msum_new by apply lookup_delete_eq. rewrite (msum_delete f m i x H). lia.
Qed.
Lemma msum_nonneg f m : (∀ k x, 0 ≤ f k x) → 0 ≤ msum f m.
Proof.
  intros Hf. induction m as [|i x m Hi IH] using map_ind; [done|]. rewrite msum_new by done. specialize (Hf i x). lia.
Qed.
Lemma msum_elem f m i x : (∀ k y, 0 ≤ f k y) → m !! i = Some x → f i x ≤ msum f m.
Proof.
  intros Hf Hi. pose proof (msum_nonneg f (delete i m) Hf). rewrite (msum_delete f m i x Hi) in *. lia.
Qed.
Lemma msum_elem2 f m i x j y : (∀ k z, 0 ≤ f k z) → i ≠ j → m !! i = Some x → m !! j = Some y → f i x + f j y ≤ msum f m.
Proof.
  intros Hf Hij Hi Hj. pose proof (msum_elem f (delete i m) j y Hf) as H. rewrite lookup_delete_ne in H by done.
  specialize (H Hj). rewrite (msum_delete f m i x Hi) in H. lia.
Qed.
Lemma msum_ext f g m : (∀ k x, m !! k = Some x → f k x = g k x) → msum f m = msum g m.
Proof.
  induction m as [|i x m Hi IH] using map_ind; intros H; [done|]. rewrite !msum_new by done.
  rewrite (H i x) by apply lookup_insert_eq. rewrite IH; [done|]. intros k y Hk. apply H.
  rewrite lookup_insert_ne; [done|]. intros ->. by rewrite Hi in Hk.
Qed.
Lemma msum_pos f m : 0 < msum f m → ∃ k x, m !! k = Some x ∧ 0 < f k x.
Proof.
  induction m as [|i x m Hi IH] using map_ind; [by unfold msum; rewrite map_fold_empty|]. rewrite msum_new by done. intros H.
  destruct (Z.ltb_spec 0 (f i x)).
  - exists i, x. by rewrite lookup_insert_eq.
  - destruct IH as (k & y & Hk & Hy); [lia|]. exists k, y. split; [|done]. rewrite lookup_insert_ne; [done|].
    intros ->. by rewrite Hi in Hk.
Qed.
End sums.

(** ** Trees *)

Inductive tree := TLeaf (a : Z) (l : list (option Z)) | TNode (a : Z) (ts : list tree).

Definition addr (t : tree) : Z := match t with TLeaf a _ => a | TNode a _ => a end.
Fixpoint bytes (t : tree) : list (option Z) := match t with TLeaf _ l => l | TNode _ ts => concat (map bytes ts) end.
Fixpoint height (t : tree) : nat := match t with TLeaf _ _ => 1%nat | TNode _ ts => S (list_max (map height ts)) end.
Fixpoint subtrees (t : tree) : list tree :=
  t :: match t with TLeaf _ _ => [] | TNode _ ts => concat (map subtrees ts) end.
Definition all_bytes (ts : list tree) : list (option Z) := concat (map bytes ts).
Definition addrs (t : tree) : list Z := addr <$> subtrees t.
Definition every (P : tree → Prop) (t : tree) : Prop := Forall P (subtrees t).

Lemma tree_induction (P : tree → Prop) :
  (∀ a l, P (TLeaf a l)) → (∀ a ts, Forall P ts → P (TNode a ts)) → ∀ t, P t.
Proof.
  intros Hl Hn. fix IH 1. intros [a l|a ts]; [apply Hl|]. apply Hn. induction ts as [|t ts IHts]; by constructor.
Qed.

Lemma every_leaf P a l : every P (TLeaf a l) ↔ P (TLeaf a l).
Proof. unfold every. cbn. rewrite Forall_singleton. done. Qed.
Lemma every_node P a ts : every P (TNode a ts) ↔ P (TNode a ts) ∧ Forall (every P) ts.
Proof.
  unfold every. cbn. rewrite Forall_cons. f_equiv.
  induction ts as [|t ts IH]; cbn; [by rewrite !Forall_nil|]. rewrite Forall_app, Forall_cons, IH. done.
Qed.
Lemma every_here P t : every P t → P t.
Proof. unfold every. destruct t; cbn; rewrite Forall_cons; by intros []. Qed.
Lemma every_impl (P Q : tree → Prop) t : (∀ s, P s → Q s) → every P t → every Q t.
Proof. intros H Hp. by eapply Forall_impl. Qed.
Lemma every_addrs (P : Z → Prop) t : every (λ s, P (addr s)) t ↔ ∀ x, x ∈ addrs t → P x.
Proof. unfold every, addrs. rewrite <- Forall_forall, Forall_fmap. done. Qed.

Lemma addr_addrs t : addr t ∈ addrs t.
Proof. destruct t; unfold addrs; cbn; left. Qed.
Lemma addrs_node x a ts : x ∈ addrs (TNode a ts) ↔ x = a ∨ ∃ u, u ∈ ts ∧ x ∈ addrs u.
Proof.
  unfold addrs. cbn. rewrite elem_of_cons. f_equiv.
  induction ts as [|t ts IH]; cbn.
  - split; [by intros ?%elem_of_nil|]. by intros (u & ?%elem_of_nil & _).
  - rewrite fmap_app, elem_of_app, IH. split.
    + intros [H|(u & Hu & H)]; [exists t|exists u]; set_solver.
    + intros (u & [->|Hu]%elem_of_cons & H); [by left|right; by exists u].
Qed.
Lemma addrs_leaf x a l : x ∈ addrs (TLeaf a l) ↔ x = a.
Proof. unfold addrs. cbn. set_solver. Qed.
Lemma height_kid a ts u : u ∈ ts → (height u < height (TNode a ts))%nat.
Proof.
  intros Hu. apply Nat.lt_succ_r. pose proof (proj1 (list_max_le (map height ts) _) (le_n _)) as H.
  apply (proj1 (Forall_forall _ _) H). apply list_elem_of_fmap. by exists u.
Qed.

(** [s] starts at byte [off] of [t]. *)
Inductive at_offset : tree → Z → tree → Prop :=
| at_here t : at_offset t 0 t
| at_kid a pre u post off s : at_offset u off s → at_offset (TNode a (pre ++ u :: post)) (zlen (all_bytes pre) + off) s.

(** ** Nodes *)

Definition slots (n : CFStorageNode) : list (option Z) := match info n with notLeaf c => c | leaf _ => [] end.
Definition pad (ts : list tree) : list (option Z) := (Some ∘ addr <$> ts) ++ replicate (3 - length ts) None.

(** The bytes a leaf is known to hold. *)
Definition cover (o : option Z) (x : Z) : Prop := o = None ∨ o = Some x.
Definition below (l : list (option Z)) (m : list Z) : Prop := Forall2 cover l (take (length l) m).

Definition memory_ok (li : leaf_info) (l : list (option Z)) : Prop :=
  match memory li with
  | None => capacityInBytes li = 0 ∧ l = replicate (length l) None
  | Some m => capacityInBytes li ≤ zlen m ∧ below l m
  end.
Definition leaf_ok (n : CFStorageNode) (l : list (option Z)) : Prop :=
  numBytes n = zlen l ∧ ∃ li, info n = leaf li ∧ memory_ok li l.

Definition node_ok (m : gmap Z CFStorageNode) (t : tree) : Prop :=
  ∃ n, m !! addr t = Some n ∧
    match t with
    | TLeaf _ l => leaf_ok n l
    | TNode _ ts => info n = notLeaf (pad ts) ∧ numBytes n = zlen (bytes t) ∧ (2 ≤ length ts ≤ 3)%nat
    end.

(** A node with more than one reference is frozen: true of every child of a tree. *)
Definition guarded (n : CFStorageNode) : Prop := isFrozen n = false → refCount n ≤ 1.
Definition guarded_at (m : gmap Z CFStorageNode) (a : Z) : Prop := ∀ n, m !! a = Some n → guarded n.
Definition kids (t : tree) : list tree := match t with TLeaf _ _ => [] | TNode _ ts => ts end.

Definition sound (m : gmap Z CFStorageNode) (t : tree) : Prop :=
  node_ok m t ∧ Forall (λ u, guarded_at m (addr u)) (kids t).
(** Enough to follow the pointers of a tree. *)
Definition linked (m : gmap Z CFStorageNode) (t : tree) : Prop :=
  ∃ n, m !! addr t = Some n ∧
    match t with
    | TLeaf _ _ => isLeaf n = true
    | TNode _ ts => info n = notLeaf (pad ts) ∧ (length ts ≤ 3)%nat
    end.

Lemma sound_linked m t : sound m t → linked m t.
Proof.
  intros [(n & Ha & Hn) _]. exists n. split; [done|]. destruct t as [a l|a ts].
  - destruct Hn as (_ & li & Hl & _). unfold isLeaf. by rewrite Hl.
  - destruct Hn as (Hi & _ & ?). split; [done|lia].
Qed.

(** How often a node points to [a]. *)
Definition occ (a : Z) (l : list (option Z)) : Z := zsum (λ p, if decide (p = Some a) then 1 else 0) l.

Lemma occ_nonneg a l : 0 ≤ occ a l.
Proof. apply zsum_nonneg. intros p. case_decide; lia. Qed.
Lemma zsum_app {A} (f : A → Z) l1 l2 : zsum f (l1 ++ l2) = zsum f l1 + zsum f l2.
Proof. induction l1 as [|x l1 IH]; cbn; lia. Qed.
Lemma occ_app a l1 l2 : occ a (l1 ++ l2) = occ a l1 + occ a l2.
Proof. apply zsum_app. Qed.
Lemma occ_pad a ts : occ a (pad ts) = zsum (λ u, if decide (addr u = a) then 1 else 0) ts.
Proof.
  unfold pad. rewrite occ_app.
  assert (∀ k, occ a (replicate k None) = 0) as -> by (by induction k).
  rewrite Z.add_0_r. unfold occ. induction ts as [|u ts IH]; cbn; [done|]. cbn in IH. rewrite IH.
  f_equal. repeat case_decide; congruence.
Qed.
Lemma occ_kid a ts u : u ∈ ts → a = addr u → 1 ≤ occ a (pad ts).
Proof.
  intros [i Hi]%list_elem_of_lookup ->. rewrite occ_pad.
  pose proof (zsum_elem (λ v, if decide (addr v = addr u) then 1 else 0) ts i u) as H.
  cbn in H. rewrite decide_True in H by done. apply H; [|done]. intros v. case_decide; lia.
Qed.

(** ** The invariant of a heap

    [R] are the roots of the storages; [ext] counts the references held outside
    the heap by the code that runs; [O] are the nodes it is working on, whose
    children count as held by [ext]. *)
Definition points (O : list Z) (x : Z) (k : Z) (n : CFStorageNode) : Z :=
  if decide (k ∈ O) then 0 else occ x (slots n).
Definition refs (O : list Z) (m : gmap Z CFStorageNode) (x : Z) : Z := msum (points O x) m.

Lemma points_nonneg O x k n : 0 ≤ points O x k n.
Proof. unfold points. case_decide; [lia|apply occ_nonneg]. Qed.
Lemma refs_nonneg O m x : 0 ≤ refs O m x.
Proof. apply msum_nonneg, points_nonneg. Qed.

Record inv (R O : list Z) (ext : Z → Z) (h : store) : Prop := {
  inv_dom a n : nodes h !! a = Some n → a < next h;
  inv_root a : a ∈ R → refs O (nodes h) a = 0 ∧ ext a = 0 ∧ ∃ n, nodes h !! a = Some n ∧ refCount n = 0;
  inv_count a n : nodes h !! a = Some n → a ∉ R → refCount n = refs O (nodes h) a + ext a;
  inv_pos a n : nodes h !! a = Some n → a ∉ R → a ∉ O → 0 < refCount n;
  inv_ext a : 0 ≤ ext a;
  inv_live a : 0 < refs O (nodes h) a + ext a → is_Some (nodes h !! a);
  inv_opened a : a ∈ O → a < next h;
}.

Definition one (a : Z) : Z → Z := λ x, if decide (x = a) then 1 else 0.
Definition eplus (f g : Z → Z) : Z → Z := λ x, f x + g x.
Definition eminus (f g : Z → Z) : Z → Z := λ x, f x - g x.
Infix "⊕" := eplus (at level 50, left associativity).
Infix "⊖" := eminus (at level 50, left associativity).

Lemma inv_same R O ext ext' h : (∀ x, ext x = ext' x) → inv R O ext h → inv R O ext' h.
Proof.
  intros H [H1 H2 H3 H4 H5 H6 H7]. split; try done.
  - intros a Ha. rewrite <- H. by apply H2.
  - intros a n. rewrite <- H. by apply H3.
  - intros a. rewrite <- H. apply H5.
  - intros a. rewrite <- H. apply H6.
Qed.

(** A node changes; its count and what is held of it change together. *)
Lemma inv_put R O ext ext' h a n n' :
  inv R O ext h → nodes h !! a = Some n → a ∈ O ∨ slots n' = slots n → (a ∈ R → refCount n' = refCount n) →
  (∀ x, ext' x = ext x + (if decide (x = a) then refCount n' - refCount n else 0)) → 0 ≤ ext' a →
  (a ∉ R → a ∉ O → 0 < refCount n') →
  inv R O ext' {| nodes := <[a := n']> (nodes h); next := next h |}.
Proof.
  intros Hinv Ha Hs Hr He Hpos Hn.
  assert (Href : ∀ x, refs O (<[a := n']> (nodes h)) x = refs O (nodes h) x).
  { intros x. unfold refs. rewrite (msum_insert _ _ a n n' Ha). unfold points.
    case_decide; [lia|]. destruct Hs as [|Hs]; [done|]. rewrite Hs. lia. }
  split; cbn.
  - intros b m Hb. apply lookup_insert_Some in Hb as [[<- _]|[_ Hb]]; by eapply (inv_dom _ _ _ _ Hinv).
  - intros b Hb. destruct (inv_root _ _ _ _ Hinv b Hb) as (H1 & H2 & m & Hm & H3). rewrite Href, He.
    case_decide as Heq.
    + subst b. rewrite Ha in Hm. injection Hm as <-. rewrite (Hr Hb). split_and!; [done|lia|].
      exists n'. rewrite lookup_insert_eq. by rewrite Hr.
    + split_and!; [done|lia|]. exists m. by rewrite lookup_insert_ne.
  - intros b m Hb Hbr. rewrite Href, He. apply lookup_insert_Some in Hb as [[<- <-]|[Hne Hb]].
    + rewrite decide_True by done. pose proof (inv_count _ _ _ _ Hinv a n Ha Hbr). lia.
    + rewrite decide_False by done. rewrite (inv_count _ _ _ _ Hinv b m Hb Hbr). lia.
  - intros b m Hb Hbr Hbo. apply lookup_insert_Some in Hb as [[<- <-]|[Hne Hb]]; [by apply Hn|by eapply (inv_pos _ _ _ _ Hinv)].
  - intros b. destruct (decide (b = a)) as [->|Hne]; [done|]. rewrite He, decide_False by done.
    pose proof (inv_ext _ _ _ _ Hinv b). lia.
  - intros b. rewrite Href, He. destruct (decide (b = a)) as [->|Hne]; [by rewrite lookup_insert_eq|].
    rewrite lookup_insert_ne by done. intros H. apply (inv_live _ _ _ _ Hinv). lia.
  - apply (inv_opened _ _ _ _ Hinv).
Qed.

(** A new node without children, held by the code. *)
Lemma refs_fresh R O ext h x : inv R O ext h → next h ≤ x → refs O (nodes h) x + ext x = 0.
Proof.
  intros Hinv Hx. destruct (Z.ltb_spec 0 (refs O (nodes h) x + ext x)) as [Hp|Hp].
  - destruct (inv_live _ _ _ _ Hinv x Hp) as [n Hn]. pose proof (inv_dom _ _ _ _ Hinv x n Hn). lia.
  - pose proof (refs_nonneg O (nodes h) x). pose proof (inv_ext _ _ _ _ Hinv x). lia.
Qed.
Lemma inv_new_node R O ext h n :
  inv R O ext h → (∀ x, occ x (slots n) = 0) → refCount n = 1 →
  inv R O (ext ⊕ one (next h)) {| nodes := <[next h := n]> (nodes h); next := next h + 1 |}.
Proof.
  intros Hinv Hs Hc.
  assert (Hnone : nodes h !! next h = None).
  { destruct (nodes h !! next h) as [m|] eqn:E; [|done]. pose proof (inv_dom _ _ _ _ Hinv _ _ E). lia. }
  assert (Href : ∀ x, refs O (<[next h := n]> (nodes h)) x = refs O (nodes h) x).
  { intros x. unfold refs. rewrite msum_new by done. unfold points. rewrite Hs. case_decide; lia. }
  unfold eplus, one. split; cbn.
  - intros b m Hb. apply lookup_insert_Some in Hb as [[<- _]|[_ Hb]]; [lia|].
    pose proof (inv_dom _ _ _ _ Hinv _ _ Hb). lia.
  - intros b Hb. destruct (inv_root _ _ _ _ Hinv b Hb) as (H1 & H2 & m & Hm & H3). rewrite Href.
    assert (b ≠ next h) by (intros ->; by rewrite Hnone in Hm). rewrite decide_False by done.
    split_and!; [done|lia|]. exists m. by rewrite lookup_insert_ne.
  - intros b m Hb Hbr. rewrite Href. apply lookup_insert_Some in Hb as [[<- <-]|[Hne Hb]].
    + rewrite decide_True by done. pose proof (refs_fresh _ _ _ _ (next h) Hinv ltac:(lia)). lia.
    + rewrite decide_False by done. rewrite (inv_count _ _ _ _ Hinv b m Hb Hbr). lia.
  - intros b m Hb Hbr Hbo. apply lookup_insert_Some in Hb as [[<- <-]|[Hne Hb]]; [lia|by eapply (inv_pos _ _ _ _ Hinv)].
  - intros b. pose proof (inv_ext _ _ _ _ Hinv b). case_decide; lia.
  - intros b. rewrite Href. destruct (decide (b = next h)) as [->|Hne]; [by rewrite lookup_insert_eq|].
    rewrite lookup_insert_ne by done. intros H. apply (inv_live _ _ _ _ Hinv). lia.
  - intros b Hb. pose proof (inv_opened _ _ _ _ Hinv b Hb). lia.
Qed.

(** The code takes over the children of a node, and gives them back. *)
Lemma refs_open O m a n x : a ∉ O → m !! a = Some n → refs O m x = refs (a :: O) m x + occ x (slots n).
Proof.
  intros Ha Hn.
  assert (H : msum (points (a :: O) x) (delete a m) = msum (points O x) (delete a m)).
  { apply msum_ext. intros k y Hk. unfold points. destruct (decide (k = a)) as [->|]; [by rewrite lookup_delete_eq in Hk|].
    destruct (decide (k ∈ O)); [rewrite decide_True by (by right); done|]. rewrite decide_False; [done|]. set_solver. }
  pose proof (msum_delete (points (a :: O) x) m a n Hn) as H1. pose proof (msum_delete (points O x) m a n Hn) as H2.
  unfold refs. unfold points in H1 at 3, H2 at 3. rewrite decide_True in H1 by (by left). rewrite decide_False in H2 by done. lia.
Qed.
Lemma inv_open R O ext h a n :
  inv R O ext h → nodes h !! a = Some n → a ∉ O → inv R (a :: O) (ext ⊕ λ x, occ x (slots n)) h.
Proof.
  intros Hinv Hn Ha. pose proof (λ x, refs_open O (nodes h) a n x Ha Hn) as Href. unfold eplus. split.
  - apply (inv_dom _ _ _ _ Hinv).
  - intros b Hb. destruct (inv_root _ _ _ _ Hinv b Hb) as (H1 & H2 & H3). specialize (Href b).
    pose proof (occ_nonneg b (slots n)). pose proof (refs_nonneg (a :: O) (nodes h) b). split_and!; [lia|lia|done].
  - intros b m Hb Hbr. rewrite (inv_count _ _ _ _ Hinv b m Hb Hbr), Href. lia.
  - intros b m Hb Hbr Hbo. apply (inv_pos _ _ _ _ Hinv b m Hb Hbr). set_solver.
  - intros b. pose proof (inv_ext _ _ _ _ Hinv b). pose proof (occ_nonneg b (slots n)). lia.
  - intros b H. apply (inv_live _ _ _ _ Hinv). rewrite Href. lia.
  - intros b [->|Hb]%elem_of_cons; [by apply (inv_dom _ _ _ _ Hinv _ n)|by apply (inv_opened _ _ _ _ Hinv)].
Qed.
Lemma inv_close R O ext h a n :
  inv R (a :: O) ext h → nodes h !! a = Some n → a ∉ O → (∀ x, occ x (slots n) ≤ ext x) → (a ∉ R → 0 < refCount n) →
  inv R O (ext ⊖ λ x, occ x (slots n)) h.
Proof.
  intros Hinv Hn Ha Hle Hpos. pose proof (λ x, refs_open O (nodes h) a n x Ha Hn) as Href. unfold eminus. split.
  - apply (inv_dom _ _ _ _ Hinv).
  - intros b Hb. destruct (inv_root _ _ _ _ Hinv b Hb) as (H1 & H2 & H3). specialize (Href b). specialize (Hle b).
    pose proof (occ_nonneg b (slots n)). split_and!; [lia|lia|done].
  - intros b m Hb Hbr. rewrite (inv_count _ _ _ _ Hinv b m Hb Hbr), Href. lia.
  - intros b m Hb Hbr Hbo. destruct (decide (b = a)) as [->|Hne].
    + rewrite Hn in Hb. injection Hb as <-. by apply Hpos.
    + apply (inv_pos _ _ _ _ Hinv b m Hb Hbr). set_solver.
  - intros b. specialize (Hle b). lia.
  - intros b H. apply (inv_live _ _ _ _ Hinv). specialize (Href b). lia.
  - intros b Hb. apply (inv_opened _ _ _ _ Hinv). by right.
Qed.

(** A node nobody refers to goes. *)
Lemma inv_free R O ext h a n :
  inv R (a :: O) ext h → nodes h !! a = Some n → a ∉ O → a ∉ R → refCount n = 0 →
  inv R O ext {| nodes := delete a (nodes h); next := next h |}.
Proof.
  intros Hinv Hn Ha Hr Hz.
  assert (Href : ∀ x, refs O (delete a (nodes h)) x = refs (a :: O) (nodes h) x).
  { intros x. pose proof (refs_open O (nodes h) a n x Ha Hn) as H. unfold refs in *.
    rewrite (msum_delete _ _ a n Hn). unfold points at 2. rewrite decide_False by done. lia. }
  pose proof (inv_count _ _ _ _ Hinv a n Hn Hr) as Hc. pose proof (refs_nonneg (a :: O) (nodes h) a).
  pose proof (inv_ext _ _ _ _ Hinv a). split; cbn.
  - intros b m Hb. apply lookup_delete_Some in Hb as [_ Hb]. by eapply (inv_dom _ _ _ _ Hinv).
  - intros b Hb. rewrite Href. destruct (inv_root _ _ _ _ Hinv b Hb) as (H1 & H2 & m & Hm & H3). split_and!; [done..|].
    exists m. rewrite lookup_delete_ne; [done|]. by intros ->.
  - intros b m Hb Hbr. rewrite Href. apply lookup_delete_Some in Hb as [_ Hb]. by apply (inv_count _ _ _ _ Hinv).
  - intros b m Hb Hbr Hbo. apply lookup_delete_Some in Hb as [Hne Hb]. apply (inv_pos _ _ _ _ Hinv b m Hb Hbr). set_solver.
  - apply (inv_ext _ _ _ _ Hinv).
  - intros b Hb. rewrite Href in Hb. rewrite lookup_delete_ne; [by apply (inv_live _ _ _ _ Hinv)|]. intros ->. lia.
  - intros b Hb. apply (inv_opened _ _ _ _ Hinv). by right.
Qed.

(** ** Trees have no cycle *)

Lemma pad_addrs ts : omap id (pad ts) = addr <$> ts.
Proof.
  unfold pad. rewrite omap_app.
  assert (∀ k, omap id (replicate k (@None Z)) = []) as -> by (by induction k).
  rewrite app_nil_r. induction ts as [|t ts IH]; [done|]. cbn. f_equal. apply IH.
Qed.
Lemma pad_length ts : (length ts ≤ 3)%nat → length (pad ts) = 3%nat.
Proof. intros H. unfold pad. rewrite length_app, length_fmap, length_replicate. lia. Qed.

Lemma sound_every_linked m t : every (sound m) t → every (linked m) t.
Proof. apply every_impl, sound_linked. Qed.

Lemma height_same m t1 t2 : every (linked m) t1 → every (linked m) t2 → addr t1 = addr t2 → height t1 = height t2.
Proof.
  revert t2. induction t1 as [a1 l1|a1 ts1 IH] using tree_induction; intros t2 H1 H2 Ha;
    pose proof (every_here _ _ H1) as (n1 & Hn1 & Hi1); pose proof (every_here _ _ H2) as (n2 & Hn2 & Hi2);
    rewrite <- Ha, Hn1 in Hn2; injection Hn2 as <-; destruct t2 as [a2 l2|a2 ts2]; cbn in *; [done|..].
  - destruct Hi2 as [Hi2 _]. unfold isLeaf in Hi1. by rewrite Hi2 in Hi1.
  - destruct Hi1 as [Hi1 _]. unfold isLeaf in Hi2. by rewrite Hi1 in Hi2.
  - destruct Hi1 as [Hi1 _], Hi2 as [Hi2 _]. rewrite Hi1 in Hi2. injection Hi2 as Hp.
    apply (f_equal (omap id)) in Hp. rewrite !pad_addrs in Hp.
    apply every_node in H1 as [_ H1]. apply every_node in H2 as [_ H2].
    f_equal. f_equal. clear Hi1 Hn1 Ha. revert ts2 Hp H2. induction IH as [|u1 ts1 Hu _ IHts]; intros [|u2 ts2] Hp H2; try done.
    injection Hp as Ha Hp. apply Forall_cons in H1 as [? ?], H2 as [? ?]. cbn. f_equal; [by apply Hu|by apply IHts].
Qed.

Lemma in_subtrees x t : x ∈ addrs t → ∃ s, s ∈ subtrees t ∧ addr s = x.
Proof. unfold addrs. intros (s & -> & H)%list_elem_of_fmap. by exists s. Qed.
Lemma every_subtree P t s : every P t → s ∈ subtrees t → every P s.
Proof.
  revert s. induction t as [a l|a ts IH] using tree_induction; intros s Ht Hs.
  - cbn in Hs. apply list_elem_of_singleton in Hs as ->. done.
  - cbn in Hs. apply elem_of_cons in Hs as [->|Hs]; [done|]. apply every_node in Ht as [_ Ht].
    induction IH as [|u ts Hu _ IHts]; cbn in Hs; [by apply elem_of_nil in Hs|].
    apply Forall_cons in Ht as [Htu Ht]. apply elem_of_app in Hs as [Hs|Hs]; auto.
Qed.
Lemma height_subtree t s : s ∈ subtrees t → (height s ≤ height t)%nat.
Proof.
  induction t as [a l|a ts IH] using tree_induction; intros Hs; cbn [subtrees] in Hs; apply elem_of_cons in Hs as [->|Hs]; try lia.
  - by apply elem_of_nil in Hs.
  - assert (∃ u, u ∈ ts ∧ s ∈ subtrees u) as (u & Hu & Hsu).
    { clear IH. induction ts as [|u ts IH]; cbn in Hs; [by apply elem_of_nil in Hs|].
      apply elem_of_app in Hs as [Hs|Hs]; [exists u; split; [left|done]|].
      destruct (IH Hs) as (v & ? & ?). exists v. by split; [right|]. }
    pose proof (height_kid a ts u Hu). rewrite Forall_forall in IH. pose proof (IH u Hu Hsu). lia.
Qed.

Lemma no_cycle m a ts u : every (linked m) (TNode a ts) → u ∈ ts → a ∉ addrs u.
Proof.
  intros Ht Hu (s & Hs & Ha)%in_subtrees.
  assert (Hlu : every (linked m) u). { apply every_node in Ht as [_ Ht]. by apply (proj1 (Forall_forall _ _) Ht). }
  pose proof (every_subtree _ u s Hlu Hs) as Hls.
  pose proof (height_same m (TNode a ts) s Ht Hls (eq_sym Ha)). pose proof (height_subtree u s Hs).
  pose proof (height_kid a ts u Hu). lia.
Qed.

Lemma list_max_elem (f : tree → nat) ts : ts ≠ [] → ∃ u, u ∈ ts ∧ list_max (map f ts) = f u.
Proof.
  induction ts as [|t ts IH]; [done|]. intros _. destruct ts as [|t' ts].
  - exists t. cbn. split; [left|lia].
  - destruct IH as (u & Hu & Hm); [done|]. change (list_max (map f (t :: t' :: ts))) with (f t `max` list_max (map f (t' :: ts)))%nat.
    rewrite Hm. destruct (Nat.max_spec (f t) (f u)) as [[_ ->]|[_ ->]]; [exists u; by split; [right|]|exists t; by split; [left|]].
Qed.
Lemma height_size m t : every (linked m) t → (height t ≤ size m)%nat.
Proof.
  intros Ht. assert (∃ l, length l = height t ∧ NoDup l ∧ ∀ x, x ∈ l → x ∈ addrs t) as (l & <- & Hd & Hl).
  { induction t as [a l|a ts IH] using tree_induction.
    - exists [a]. split_and!; [done|apply NoDup_singleton|]. intros x. by rewrite list_elem_of_singleton, addrs_leaf.
    - destruct (decide (ts = [])) as [->|Hne].
      + exists [a]. split_and!; [done|apply NoDup_singleton|]. intros x ->%list_elem_of_singleton. apply (addr_addrs (TNode a [])).
      + destruct (list_max_elem height ts Hne) as (u & Hu & Hm). pose proof (no_cycle m a ts u Ht Hu) as Hc.
        apply every_node in Ht as [_ Ht]. rewrite Forall_forall in IH, Ht.
        destruct (IH u Hu (Ht u Hu)) as (l & Hlen & Hd & Hl). exists (a :: l). split_and!.
        * cbn. by rewrite Hlen, Hm.
        * apply NoDup_cons. split; [|done]. intros H. by apply Hc, Hl.
        * intros x [->|Hx]%elem_of_cons; apply addrs_node; [by left|]. right. exists u. auto. }
  assert (Hs : list_to_set (C := gset Z) l ⊆ dom m).
  { intros x Hx%elem_of_list_to_set. apply Hl, in_subtrees in Hx as (s & Hs & <-).
    destruct (every_here _ _ (every_subtree _ t s Ht Hs)) as (n & Hn & _). apply elem_of_dom. by exists n. }
  apply subseteq_size in Hs. rewrite size_list_to_set, size_dom in Hs; done.
Qed.

(** ** What an operation may do to a heap

    Outside [Rch] nothing changes; outside [D] a node that stays keeps its
    shape and its flag, and outside [X] it stays guarded. *)
Definition has_memory (n : CFStorageNode) : Prop := match info n with leaf li => memory li ≠ None | notLeaf _ => False end.

Definition same_shape (n n' : CFStorageNode) : Prop :=
  (∀ l, leaf_ok n l → leaf_ok n' l) ∧
  (has_memory n → has_memory n') ∧
  (isLeaf n = true → isLeaf n' = true) ∧
  (∀ c, info n = notLeaf c → info n' = notLeaf c ∧ numBytes n' = numBytes n) ∧
  (isFrozen n = true → isFrozen n' = true).

Record evolves (D X Rch : Z → Prop) (h h' : store) : Prop := {
  ev_next : next h ≤ next h';
  ev_out b : b < next h → ¬ Rch b → nodes h' !! b = nodes h !! b;
  ev_in b n' : b < next h → ¬ D b → nodes h' !! b = Some n' →
    ∃ n, nodes h !! b = Some n ∧ same_shape n n' ∧ (¬ X b → guarded n → guarded n');
}.
Definition nowhere : Z → Prop := λ _, False.

Lemma same_shape_refl n : same_shape n n.
Proof. by split_and!. Qed.
Lemma same_shape_trans n1 n2 n3 : same_shape n1 n2 → same_shape n2 n3 → same_shape n1 n3.
Proof.
  intros (H1 & H0 & H2 & H3 & H4) (K1 & K0 & K2 & K3 & K4). split_and!; [auto|auto|auto| |auto].
  intros c Hc. destruct (H3 c Hc) as [Hc' Hb]. destruct (K3 c Hc') as [? Hb']. split; [done|congruence].
Qed.
Lemma same_shape_put n f r : (isFrozen n = true → f = true) →
  same_shape n {| numBytes := numBytes n; refCount := r; isFrozen := f; info := info n |}.
Proof. intros Hf. by split_and!. Qed.

Lemma evolves_refl D X Rch h : evolves D X Rch h h.
Proof. split; [lia|done|]. intros b n' _ _ Hn. exists n'. split_and!; [done|apply same_shape_refl|done]. Qed.
Lemma evolves_trans D X Rch D1 X1 R1 D2 X2 R2 h h1 h2 :
  evolves D1 X1 R1 h h1 → evolves D2 X2 R2 h1 h2 →
  (∀ b, b < next h → D1 b ∨ D2 b → D b) → (∀ b, b < next h → X1 b ∨ X2 b → X b) → (∀ b, b < next h → R1 b ∨ R2 b → Rch b) →
  evolves D X Rch h h2.
Proof.
  intros [N1 O1 I1] [N2 O2 I2] HD HX HR. split; [lia|..].
  - intros b Hb Hr. rewrite O2, O1; [done|done|..|lia|]; intros ?; apply Hr, HR; auto.
  - intros b n2 Hb Hd H2. destruct (I2 b n2) as (n1 & H1 & S2 & G2); [lia|..|done|].
    { intros ?. apply Hd, HD; auto. }
    destruct (I1 b n1) as (n & Hn & S1 & G1); [done| |done|].
    { intros ?. apply Hd, HD; auto. }
    exists n. split_and!; [done|by eapply same_shape_trans|]. intros Hx Hg. apply G2, G1; [..|done]; intros ?; apply Hx, HX; auto.
Qed.
Lemma evolves_weaken (D X Rch D' X' R' : Z → Prop) h h' :
  evolves D X Rch h h' → (∀ b, D b → D' b) → (∀ b, X b → X' b) → (∀ b, Rch b → R' b) → evolves D' X' R' h h'.
Proof. intros H HD HX HR. eapply evolves_trans; [apply H|apply (evolves_refl nowhere nowhere nowhere)|..]; intros b _ []; [auto|done|auto|done|auto|done]. Qed.

(** One node changes. *)
Lemma evolves_put D X Rch h h1 a n n' :
  evolves D X Rch h h1 → nodes h1 !! a = Some n →
  next h ≤ a ∨ (Rch a ∧ (D a ∨ (same_shape n n' ∧ (X a ∨ (guarded n → guarded n'))))) →
  evolves D X Rch h {| nodes := <[a := n']> (nodes h1); next := next h1 |}.
Proof.
  intros [N1 O1 I1] Ha Hcase. split; cbn; [done|..].
  - intros b Hb Hr. rewrite lookup_insert_ne; [by apply O1|]. intros ->. destruct Hcase as [?|[? _]]; [lia|done].
  - intros b m Hb Hd Hm. apply lookup_insert_Some in Hm as [[<- <-]|[Hne Hm]]; [|by apply I1].
    destruct Hcase as [?|[_ [?|[Hs Hg]]]]; [lia|done|].
    destruct (I1 a n Hb Hd Ha) as (n0 & H0 & S0 & G0). exists n0. split_and!; [done|by eapply same_shape_trans|].
    intros Hx Hg0. destruct Hg as [?|Hg]; [done|]. by apply Hg, G0.
Qed.
Lemma evolves_new D X Rch h h1 n :
  evolves D X Rch h h1 → evolves D X Rch h {| nodes := <[next h1 := n]> (nodes h1); next := next h1 + 1 |}.
Proof.
  intros [N1 O1 I1]. split; cbn; [lia|..].
  - intros b Hb Hr. rewrite lookup_insert_ne by lia. by apply O1.
  - intros b m Hb Hd Hm. rewrite lookup_insert_ne in Hm by lia. by apply I1.
Qed.
Lemma evolves_delete D X (Rch : Z → Prop) h h1 a :
  evolves D X Rch h h1 → (a < next h → Rch a) → evolves D X Rch h {| nodes := delete a (nodes h1); next := next h1 |}.
Proof.
  intros [N1 O1 I1] Ha. split; cbn; [done|..].
  - intros b Hb Hr. rewrite lookup_delete_ne; [by apply O1|]. intros ->. auto.
  - intros b m Hb Hd Hm. apply lookup_delete_Some in Hm as [_ Hm]. by apply I1.
Qed.

(** ** Frames *)

Section frames.
Context (R : list Z).

Lemma pointed O m a n x : m !! a = Some n → a ∉ O → occ x (slots n) ≤ refs O m x.
Proof.
  intros Hn Ha. pose proof (msum_elem (points O x) m a n (points_nonneg O x) Hn) as H. unfold points in H at 1.
  by rewrite decide_False in H.
Qed.
Lemma pointed2 O m a n b k x : m !! a = Some n → a ∉ O → m !! b = Some k → b ∉ O → a ≠ b →
  occ x (slots n) + occ x (slots k) ≤ refs O m x.
Proof.
  intros Hn Ha Hk Hb Hab. pose proof (msum_elem2 (points O x) m a n b k (points_nonneg O x) Hab Hn Hk) as H.
  unfold points in H at 1 2. by rewrite !decide_False in H.
Qed.

Lemma slots_pad n ts : info n = notLeaf (pad ts) → slots n = pad ts.
Proof. unfold slots. by intros ->. Qed.

(** What the code or a storage holds. *)
Definition held (ext : Z → Z) (a : Z) : Prop := a ∈ R ∨ 1 ≤ ext a.

Lemma held_live O ext h a : inv R O ext h → held ext a → is_Some (nodes h !! a).
Proof.
  intros Hinv [Ha|Ha].
  - destruct (inv_root _ _ _ _ Hinv a Ha) as (_ & _ & n & Hn & _). by exists n.
  - apply (inv_live _ _ _ _ Hinv). pose proof (refs_nonneg O (nodes h) a). lia.
Qed.
Lemma kid_live O ext h a n ts u :
  inv R O ext h → nodes h !! a = Some n → info n = notLeaf (pad ts) → u ∈ ts → a ∉ O → is_Some (nodes h !! addr u).
Proof.
  intros Hinv Hn Hi Hu Ha. apply (inv_live _ _ _ _ Hinv).
  pose proof (pointed O _ a n (addr u) Hn Ha) as H. rewrite (slots_pad n ts Hi) in H.
  pose proof (occ_kid _ ts u Hu eq_refl). pose proof (inv_ext _ _ _ _ Hinv (addr u)). lia.
Qed.
Lemma linked_dom O ext h t x : inv R O ext h → every (linked (nodes h)) t → x ∈ addrs t → x < next h.
Proof.
  intros Hinv Ht (s & Hs & <-)%in_subtrees.
  destruct (every_here _ _ (every_subtree _ t s Ht Hs)) as (n & Hn & _). by apply (inv_dom _ _ _ _ Hinv _ n).
Qed.

(** A tree apart from what an operation changes stays as it is. *)
Lemma frame_linked D X Rch O O0 ext ext0 h h' t :
  evolves D X Rch h h' → inv R O0 ext0 h → inv R O ext h' → every (linked (nodes h)) t →
  (∀ x, x ∈ addrs t → ¬ D x ∧ x ∉ O) → is_Some (nodes h' !! addr t) → every (linked (nodes h')) t.
Proof.
  intros Hev Hinv0 Hinv. induction t as [a l|a ts IH] using tree_induction; intros Ht Hx [n' Hn'].
  - apply every_leaf in Ht as (n & Hn & Hl). apply every_leaf. exists n'. split; [done|].
    destruct (ev_in _ _ _ _ _ Hev a n') as (n0 & H0 & (_ & _ & Hs & _) & _); [|apply Hx; by apply addrs_leaf|done|].
    { by apply (inv_dom _ _ _ _ Hinv0 _ n). }
    cbn in Hn. rewrite Hn in H0. injection H0 as ->. by apply Hs.
  - apply every_node in Ht as [(n & Hn & Hi & Hlen) Ht].
    destruct (Hx a) as [HD HO]; [apply addrs_node; by left|].
    destruct (ev_in _ _ _ _ _ Hev a n') as (n0 & H0 & (_ & _ & _ & Hs & _) & _); [by apply (inv_dom _ _ _ _ Hinv0 _ n)|done|done|].
    cbn in Hn. rewrite Hn in H0. injection H0 as <-. destruct (Hs _ Hi) as [Hi' _].
    apply every_node. split; [exists n'; done|]. apply Forall_forall. intros u Hu.
    rewrite Forall_forall in IH, Ht. apply (IH u Hu); [by apply Ht| |by eapply kid_live].
    intros x Hxu. apply Hx, addrs_node. right. by exists u.
Qed.
Lemma frame_sound D X Rch O O0 ext ext0 h h' t :
  evolves D X Rch h h' → inv R O0 ext0 h → inv R O ext h' → every (sound (nodes h)) t →
  (∀ x, x ∈ addrs t → ¬ D x ∧ (x = addr t ∨ ¬ X x) ∧ x ∉ O) → is_Some (nodes h' !! addr t) → every (sound (nodes h')) t.
Proof.
  intros Hev Hinv0 Hinv Ht Hx Hlive.
  pose proof (frame_linked D X Rch O O0 ext ext0 h h' t Hev Hinv0 Hinv (sound_every_linked _ _ Ht)) as Hl.
  specialize (Hl (λ x Hxt, conj (proj1 (Hx x Hxt)) (proj2 (proj2 (Hx x Hxt)))) Hlive). clear Hlive.
  pose proof (sound_every_linked _ _ Ht) as Hlt.
  assert (Hkids : ∀ a ts u, every (linked (nodes h)) (TNode a ts) → u ∈ ts → addr u ≠ a).
  { intros a ts u H Hu Heq. apply (no_cycle _ a ts u H Hu). rewrite <- Heq. apply addr_addrs. }
  assert (Hd : ∀ x, x ∈ addrs t → x < next h) by (intros x; by apply (linked_dom O0 ext0)).
  assert (Hstep : ∀ s, linked (nodes h') s → sound (nodes h) s → (∀ x, x ∈ addrs s → x < next h ∧ ¬ D x) →
    (∀ u, u ∈ kids s → addr u < next h ∧ ¬ D (addr u) ∧ ¬ X (addr u)) → sound (nodes h') s).
  { intros s (n' & Hn' & _) [(n & Hn & Hok) Hg] Hs Hu. destruct (Hs (addr s) (addr_addrs s)) as [H1 H2].
    destruct (ev_in _ _ _ _ _ Hev (addr s) n' H1 H2 Hn') as (n0 & H0 & (S1 & S0 & S2 & S3 & S4) & _).
    rewrite Hn in H0. injection H0 as <-. split.
    - exists n'. split; [done|]. destruct s as [a l|a ts]; [by apply S1|]. destruct Hok as (Hi & Hb & Hlen).
      destruct (S3 _ Hi) as [Hi' Hb']. split_and!; [done|congruence|lia|lia].
    - rewrite Forall_forall in Hg |- *. intros u Huk k' Hk'. destruct (Hu u Huk) as (K1 & K2 & K3).
      destruct (ev_in _ _ _ _ _ Hev (addr u) k' K1 K2 Hk') as (k & Hk & _ & G). apply G; [done|]. by apply (Hg u Huk). }
  clear Hinv Hinv0. induction t as [a l|a ts IH] using tree_induction.
  - pose proof (every_here _ _ Ht) as Hts. pose proof (every_here _ _ Hl) as Hls. apply every_leaf. apply Hstep; [exact Hls|exact Hts|..].
    + intros x Hxa. split; [by apply Hd|by apply Hx].
    + intros u Hu. by apply elem_of_nil in Hu.
  - pose proof (every_here _ _ Ht) as Hts. pose proof (every_here _ _ Hl) as Hls. apply every_node. split.
    + apply Hstep; [exact Hls|exact Hts|..].
      * intros x Hxa. split; [by apply Hd|by apply Hx].
      * intros u Hu. assert (Hua : addr u ∈ addrs (TNode a ts)) by (apply addrs_node; right; exists u; split; [done|apply addr_addrs]).
        destruct (Hx _ Hua) as (K1 & [K2|K2] & _); [by destruct (Hkids a ts u Hlt Hu)|]. split_and!; [by apply Hd|done|done].
    + apply every_node in Ht as [_ Ht]. apply every_node in Hl as [_ Hl]. pose proof Hlt as Hlt0. apply every_node in Hlt0 as [_ Hlt0].
      rewrite Forall_forall in Ht, Hl, IH, Hlt0 |- *. intros u Hu. assert (Hsub : ∀ x, x ∈ addrs u → x ∈ addrs (TNode a ts)) by (intros x ?; apply addrs_node; right; by exists u).
      apply (IH u Hu); [by apply Ht| |by apply Hl|by apply Hlt0|].
      * intros x Hxu. destruct (Hx x (Hsub x Hxu)) as (K1 & K2 & K3). split_and!; [done| |done]. right.
        destruct K2 as [->|K2]; [|done]. by destruct (no_cycle _ a ts u Hlt Hu).
      * intros x Hxu. by apply Hd, Hsub.
Qed.

(** The nodes below which nothing is shared. *)
Inductive own (m : gmap Z CFStorageNode) : tree → Z → Prop :=
| own_here t n : m !! addr t = Some n → refCount n ≤ 1 → own m t (addr t)
| own_kid a ts u n x : m !! a = Some n → refCount n ≤ 1 → u ∈ ts → own m u x → own m (TNode a ts) x.

Lemma own_addrs m t x : own m t x → x ∈ addrs t.
Proof.
  induction 1 as [t n _ _|a ts u n x _ _ Hu _ IH]; [apply addr_addrs|]. apply addrs_node. right. by exists u.
Qed.
Lemma parent m t x : every (linked m) t → x ∈ addrs t →
  x = addr t ∨ ∃ z n, z ∈ addrs t ∧ m !! z = Some n ∧ 1 ≤ occ x (slots n).
Proof.
  induction t as [a l|a ts IH] using tree_induction; intros Ht Hx.
  - left. by apply addrs_leaf in Hx.
  - apply addrs_node in Hx as [->|(u & Hu & Hx)]; [by left|]. right. pose proof Ht as Ht0.
    apply every_node in Ht as [(n & Hn & Hi & _) Ht]. rewrite Forall_forall in IH, Ht.
    destruct (IH u Hu (Ht u Hu) Hx) as [->|(z & k & Hz & Hk & Hocc)].
    + exists a, n. split_and!; [apply addrs_node; by left|done|]. rewrite (slots_pad n ts Hi). by apply (occ_kid _ ts u).
    + exists z, k. split_and!; [|done..]. apply addrs_node. right. by exists u.
Qed.

Lemma held_pointed O ext h x n : inv R O ext h → held ext x → nodes h !! x = Some n → refCount n ≤ 1 → refs O (nodes h) x = 0.
Proof.
  intros Hinv [Hx|Hx] Hn Hc; [by apply (inv_root _ _ _ _ Hinv)|].
  destruct (decide (x ∈ R)) as [Hr|Hr]; [by apply (inv_root _ _ _ _ Hinv)|].
  pose proof (inv_count _ _ _ _ Hinv x n Hn Hr). pose proof (refs_nonneg O (nodes h) x). lia.
Qed.
Lemma own_apart O ext h u v x :
  inv R O ext h → every (linked (nodes h)) u → every (linked (nodes h)) v →
  (∀ y, y ∈ addrs u ∨ y ∈ addrs v → y ∉ O) → held ext (addr u) → held ext (addr v) →
  (addr u = addr v → 2 ≤ ext (addr u)) → own (nodes h) u x → x ∉ addrs v.
Proof.
  intros Hinv Hu Hv HO Hhu Hhv Heq Hown.
  assert (Hbase : ∀ n, nodes h !! addr u = Some n → refCount n ≤ 1 → addr u ∉ addrs v).
  { intros n Hn Hc Hin. pose proof (held_pointed O ext h _ n Hinv Hhu Hn Hc) as H0.
    destruct (parent _ v (addr u) Hv Hin) as [E|(z & k & Hz & Hk & Hocc)].
    - destruct (decide (addr u ∈ R)) as [Hr|Hr].
      + destruct (inv_root _ _ _ _ Hinv _ Hr) as (_ & H & _). specialize (Heq E). lia.
      + pose proof (inv_count _ _ _ _ Hinv _ n Hn Hr). pose proof (refs_nonneg O (nodes h) (addr u)). specialize (Heq E). lia.
    - pose proof (pointed O _ z k (addr u) Hk ltac:(apply HO; by right)). lia. }
  clear Hhu Heq. induction Hown as [u n Hn Hc|a ts u n x Hn Hc Hin Hown IH]; [by apply (Hbase n)|].
  pose proof (Hbase n Hn Hc) as Ha. pose proof (every_here _ _ Hu) as (n' & Hn' & Hi & _). cbn in Ha, Hn'.
  rewrite Hn in Hn'. injection Hn' as <-. assert (HaO : a ∉ O) by (apply HO; left; apply addrs_node; by left).
  assert (Hocc : 1 ≤ occ (addr u) (slots n)) by (rewrite (slots_pad n ts Hi); by apply (occ_kid _ ts u)).
  apply IH.
  - apply every_node in Hu as [_ Hu]. by apply (proj1 (Forall_forall _ _) Hu).
  - intros y [Hy|Hy]; apply HO; [left; apply addrs_node; right; by exists u|by right].
  - intros k Hk Hck Hinv'. pose proof (pointed O _ a n (addr u) Hn HaO) as Hp.
    destruct (parent _ v (addr u) Hv Hinv') as [E|(z & k' & Hz & Hk' & Hocc')].
    + rewrite E in *. pose proof (held_pointed O ext h _ k Hinv Hhv Hk Hck). lia.
    + pose proof (pointed2 O _ a n z k' (addr u) Hn HaO Hk' ltac:(apply HO; by right) ltac:(intros ->; done)) as H2.
      destruct (decide (addr u ∈ R)) as [Hr|Hr]; [destruct (inv_root _ _ _ _ Hinv _ Hr) as (H & _); lia|].
      pose proof (inv_count _ _ _ _ Hinv _ k Hk Hr). pose proof (inv_ext _ _ _ _ Hinv (addr u)). lia.
Qed.
End frames.
