(* ===== verification/StorageOps.v ===== *)
(** * Leaves, reference counts and frames of CFStorage

    What the elementary functions of Storage.v do to a heap: the memory of a
    leaf, the retain and release of nodes, creation, thawing, the cache. *)
From S2P Require Import Prelude Storage StorageSpec.
From stdpp Require Import gmap list.
Open Scope Z_scope.

(** ** Bytes *)

Definition ztake {A} (k : Z) (l : list A) : list A := take (Z.to_nat k) l.
Definition zdrop {A} (k : Z) (l : list A) : list A := drop (Z.to_nat k) l.
Definition gap (k : Z) : list (option Z) := replicate (Z.to_nat k) None.

Lemma zlen_ztake {A} k (l : list A) : 0 ≤ k ≤ zlen l → zlen (ztake k l) = k.
Proof. intros H. unfold ztake. rewrite zlen_take. lia. Qed.
Lemma zlen_zdrop {A} k (l : list A) : 0 ≤ k ≤ zlen l → zlen (zdrop k l) = zlen l - k.
Proof. intros H. unfold zdrop. rewrite zlen_drop. lia. Qed.
Lemma zlen_gap k : 0 ≤ k → zlen (gap k) = k.
Proof. intros H. unfold gap. rewrite zlen_replicate. lia. Qed.
Lemma ztake_zdrop {A} k (l : list A) : ztake k l ++ zdrop k l = l.
Proof. apply take_drop. Qed.
Lemma ztake_all {A} k (l : list A) : zlen l ≤ k → ztake k l = l.
Proof. intros H. apply take_ge. unfold zlen in H. lia. Qed.
Lemma zdrop_all {A} k (l : list A) : zlen l ≤ k → zdrop k l = [].
Proof. intros H. apply drop_ge. unfold zlen in H. lia. Qed.
Lemma ztake_0 {A} (l : list A) : ztake 0 l = [].
Proof. done. Qed.
Lemma zdrop_0 {A} (l : list A) : zdrop 0 l = l.
Proof. done. Qed.
Lemma zsub_some {A} (l : list A) i n : 0 ≤ i → 0 ≤ n → i + n ≤ zlen l → zsub l i n = Some (ztake n (zdrop i l)).
Proof. intros. unfold zsub. by rewrite decide_True. Qed.
Lemma zwrite_some {A} (l : list A) i src : 0 ≤ i → i + zlen src ≤ zlen l →
  zwrite l i src = Some (ztake i l ++ src ++ zdrop (i + zlen src) l).
Proof.
  intros. unfold zwrite. rewrite decide_True by done. unfold ztake, zdrop, zlen. repeat f_equal. lia.
Qed.

Lemma cover_none l : Forall2 cover (replicate (length l) None) l.
Proof. induction l as [|x l IH]; cbn; constructor; [by left|done]. Qed.
Lemma below_len l m : below l m → zlen l ≤ zlen m.
Proof. intros H%Forall2_length. rewrite length_take in H. unfold zlen. lia. Qed.
Lemma below_app l1 l2 m : below (l1 ++ l2) m ↔ below l1 m ∧ below l2 (drop (length l1) m).
Proof.
  unfold below. rewrite length_app, <- take_take_drop. split.
  - intros H. apply Forall2_app_inv; [|done]. apply Forall2_length in H.
    rewrite !length_app, !length_take, length_drop in H. rewrite length_take. lia.
  - intros [H1 H2]. by apply Forall2_app.
Qed.
Lemma below_more l m m' : below l m → below l (m ++ m').
Proof. intros H. pose proof (below_len _ _ H). unfold below, zlen in *. rewrite take_app_le by lia. done. Qed.
Lemma below_less l m k : below l m → zlen l ≤ k → below l (ztake k m).
Proof. intros H Hk. unfold below, ztake, zlen in *. rewrite take_take, Nat.min_l by lia. done. Qed.
Lemma below_cover l b : Forall2 cover l b → below l b.
Proof. intros H. unfold below. rewrite take_ge; [done|]. by rewrite (Forall2_length _ _ _ H). Qed.
Lemma below_none k m : Z.of_nat k ≤ zlen m → below (replicate k None) m.
Proof.
  intros H. unfold below, zlen in *. rewrite length_replicate.
  assert (Hl : k = length (take k m)) by (rewrite length_take; lia). rewrite Hl at 1. apply cover_none.
Qed.
Lemma below_gap k m : k ≤ zlen m → below (gap k) m.
Proof. intros H. apply below_none. unfold zlen in *. lia. Qed.
Lemma below_ztake k l m : below l m → below (ztake k l) m.
Proof. intros H. rewrite <- (ztake_zdrop k l) in H. by apply below_app in H as [H _]. Qed.
Lemma below_zdrop k l m : 0 ≤ k ≤ zlen l → below l m → below (zdrop k l) (zdrop k m).
Proof.
  intros Hk H. rewrite <- (ztake_zdrop k l) in H. apply below_app in H as [_ H].
  pose proof (zlen_ztake k l Hk) as Hl. unfold zlen in Hl. assert (E : length (ztake k l) = Z.to_nat k) by lia. by rewrite E in H.
Qed.
Lemma below_sub k l m : 0 ≤ k → below l m → zlen l = k → Forall2 cover l (ztake k m).
Proof. intros Hk H Hl. unfold below, ztake, zlen in *. assert (E : Z.to_nat k = length l) by lia. by rewrite E. Qed.

(** Bytes of a buffer copied into another, after what it is known to begin with. *)
Lemma below_write l1 md l m from k :
  below l1 md → below l m → 0 ≤ from → 0 ≤ k → from + k ≤ zlen l → zlen l1 + k ≤ zlen md →
  ∃ b md', zsub m from k = Some b ∧ zwrite md (zlen l1) b = Some md' ∧
    below (l1 ++ ztake k (zdrop from l)) md' ∧ zlen md' = zlen md.
Proof.
  intros H1 H Hf Hk Hl Hm. pose proof (below_len _ _ H) as Hlen. pose proof (zlen_nonneg l1).
  rewrite zsub_some by lia. eexists _, _. split; [done|].
  assert (Hb : zlen (ztake k (zdrop from m)) = k) by (apply zlen_ztake; rewrite zlen_zdrop; lia).
  rewrite zwrite_some by lia. split; [done|]. rewrite Hb. split.
  - assert (Hpre : length (ztake (zlen l1) md) = length l1).
    { pose proof (zlen_ztake (zlen l1) md ltac:(lia)) as E. unfold zlen in E at 1. unfold zlen in E at 2. lia. }
    apply below_app. split.
    + apply below_more. by apply below_less.
    + rewrite <- Hpre, drop_app_length. apply below_more, below_cover, below_sub; [done| |].
      * apply below_ztake, below_zdrop; [lia|done].
      * apply zlen_ztake. rewrite zlen_zdrop; lia.
  - rewrite !zlen_app, Hb, zlen_ztake, zlen_zdrop; lia.
Qed.

(** ** States *)

Definition put (a : Z) (n : CFStorageNode) (h : store) : store := {| nodes := <[a := n]> (nodes h); next := next h |}.
Definition with_heap (st : state) (h : store) : state := {| this := this st; heap := h |}.

Lemma put_same a n h : nodes h !! a = Some n → put a n h = h.
Proof. intros H. unfold put. rewrite insert_id by done. by destruct h. Qed.
Lemma with_heap_same st : with_heap st (heap st) = st.
Proof. by destruct st. Qed.
Lemma with_heap_put st a n : nodes (heap st) !! a = Some n → with_heap st (put a n (heap st)) = st.
Proof. intros H. rewrite put_same by done. apply with_heap_same. Qed.

Lemma wp_put a f n (Q : () → state → Prop) st :
  nodes (heap st) !! a = Some n → Q () (with_heap st (put a (f n) (heap st))) → wp (update a f) Q st.
Proof. intros. by eapply wp_update. Qed.

(** ** The memory of a leaf *)
Section leaves.
Context `{Al : Allocator} (Hal : ∀ n, 0 < n → is_Some (alloc n)).

Lemma land_lnot_ones a k : 0 ≤ k → Z.land a (Z.lnot (Z.ones k)) = a / 2 ^ k * 2 ^ k.
Proof. intros Hk. rewrite <- Z.ldiff_land, Z.ldiff_ones_r, Z.shiftl_mul_pow2, Z.shiftr_div_pow2 by lia. done. Qed.

Lemma rounded_ge s cap : maxLeafCapacity s ≤ __CFStorageMaxLeafCapacity → 0 < cap ≤ maxLeafCapacity s → cap ≤ rounded s cap.
Proof.
  intros Hm Hcap. unfold rounded, __CFStorageMaxLeafCapacity in *. destruct (Z.ltb_spec PAGE_LIMIT cap) as [Hp|Hp].
  - rewrite sint_id by lia. unfold roundToPage, PAGE_SIZE.
    replace (Z.lnot (4096 - 1)) with (Z.lnot (Z.ones 12)) by done.
    rewrite land_lnot_ones by lia. change (2 ^ 12) with 4096. zcases. zdiv.
  - zdiv.
Qed.
Lemma rounded_pos s cap : maxLeafCapacity s ≤ __CFStorageMaxLeafCapacity → 0 < cap ≤ maxLeafCapacity s → 0 < rounded s cap.
Proof. intros Hm Hc. pose proof (rounded_ge s cap Hm Hc). lia. Qed.

Lemma realloc_leaf_ok old cap : 0 < cap →
  ∃ m, realloc old cap = Some m ∧ zlen m = cap ∧
    ∀ l, zlen l ≤ cap → below l old ∨ l = replicate (length l) None → below l m.
Proof.
  intros Hc. unfold realloc. destruct (Hal cap Hc) as [b Hb]. rewrite Hb. cbn. eexists. split; [done|].
  pose proof (alloc_len cap b Hb ltac:(lia)) as Hlen.
  assert (Hz : zlen (take (Z.to_nat cap) old ++ drop (length old) b) = cap).
  { rewrite zlen_app, zlen_take, zlen_drop. unfold zlen in *. lia. }
  split; [done|]. intros l Hl [Hold|Hold].
  - apply below_more. by apply below_less.
  - rewrite Hold. apply below_none. rewrite Hz. exact Hl.
Qed.

(** The leaf has memory for [cap] bytes, and what it held. *)
Definition grown (a : Z) (n : CFStorageNode) (li : leaf_info) (cap : Z) (st st' : state) : Prop :=
  ∃ li' m', st' = with_heap st (put a (set_info (leaf li') n) (heap st)) ∧
    (∀ l, zlen l ≤ cap → memory_ok li l → memory_ok li' l) ∧
    cachedRange li' = cachedRange li ∧ memory li' = Some m' ∧ cap ≤ zlen m'.

Lemma alloc_leaf_ok a n li l cap compact st :
  nodes (heap st) !! a = Some n → info n = leaf li → memory_ok li l → 0 < cap ≤ maxLeafCapacity (this st) →
  maxLeafCapacity (this st) ≤ __CFStorageMaxLeafCapacity →
  wp (__CFStorageAllocLeafNodeMemory a cap compact) (λ _ st', grown a n li cap st st') st.
Proof.
  intros Hn Hi Hok Hcap Hmax. unfold __CFStorageAllocLeafNodeMemory.
  apply wp_bind, wp_self, wp_bind. eapply wp_load; [done|]. apply wp_bind. eapply wp_leaf_of; [done|].
  pose proof (rounded_ge _ cap Hmax Hcap) as Hge. set (c := rounded (this st) cap) in *.
  assert (Hkeep : cap ≤ capacityInBytes li → wp (mret (M:=M) ()) (λ _ st', grown a n li cap st st') st).
  { intros Hc. apply wp_ret. unfold memory_ok in Hok. destruct (memory li) as [m|] eqn:Hm; [|lia].
    exists li, m. split_and!; [|done|done|done|lia].
    rewrite with_heap_put; [done|]. rewrite Hn. f_equal. destruct n; cbn in *. unfold set_info; cbn. by rewrite Hi. }
  assert (Hgrow : wp (update a (set_info (leaf {| capacityInBytes := c; memory := realloc (default [] (memory li)) c;
                                cachedRange := cachedRange li |}))) (λ _ st', grown a n li cap st st') st).
  { eapply wp_put; [done|]. destruct (realloc_leaf_ok (default [] (memory li)) c) as (m & Hr & Hz & Hb); [lia|].
    rewrite Hr. eexists _, m. split_and!; [done| |done|done|lia]. intros l' Hl' Hok'. unfold memory_ok. cbn. split; [lia|].
    apply Hb; [lia|]. unfold memory_ok in Hok'. destruct (memory li) as [m0|]; [left|right]; apply Hok'. }
  destruct compact.
  - destruct (Z.eqb_spec c (capacityInBytes li)); cbn [negb]; [apply Hkeep; lia|apply Hgrow].
  - destruct (Z.ltb_spec (capacityInBytes li) c); [apply Hgrow|apply Hkeep; lia].
Qed.

Lemma copymem_ok src m l from a n li md l1 k st :
  (0 < k → src = Some m) → below l m → nodes (heap st) !! a = Some n → info n = leaf li → memory li = Some md →
  below l1 md → 0 ≤ from → 0 ≤ k → from + k ≤ zlen l → zlen l1 + k ≤ zlen md →
  wp (COPYMEM src from a (zlen l1) k)
    (λ _ st', ∃ md', st' = with_heap st (put a (set_info (leaf {| capacityInBytes := capacityInBytes li;
        memory := Some md'; cachedRange := cachedRange li |}) n) (heap st)) ∧
       below (l1 ++ ztake k (zdrop from l)) md' ∧ zlen md' = zlen md) st.
Proof.
  intros Hsrc Hb Hn Hi Hm H1 Hf Hk Hl Hz. unfold COPYMEM. destruct (Z.eqb_spec k 0) as [->|Hk0].
  - apply wp_ret. exists md. rewrite ztake_0, app_nil_r. split_and!; [|done..].
    rewrite with_heap_put; [done|]. rewrite Hn. f_equal. destruct n; cbn in *. unfold set_info; cbn. rewrite Hi.
    destruct li; cbn in *. by rewrite Hm.
  - destruct (below_write l1 md l m from k H1 Hb Hf Hk Hl Hz) as (b & md' & Hs & Hw & Hb' & Hz').
    apply wp_bind. eapply wp_lift; [apply Hsrc; lia|]. apply wp_bind. eapply wp_lift; [done|]. apply wp_bind.
    eapply wp_load; [done|]. apply wp_bind. eapply wp_leaf_of; [done|]. apply wp_bind. eapply wp_lift; [done|].
    apply wp_bind. eapply wp_lift; [done|]. eapply wp_put; [done|]. by exists md'.
Qed.
End leaves.

(** ** References *)

Definition same_storage (s s' : __CFStorage) : Prop := set_cacheNode None s' = set_cacheNode None s.

(** Nodes go or lose references. *)
Record shrinks (Rch : Z → Prop) (h h' : store) : Prop := {
  sh_next : next h' = next h;
  sh_out b : ¬ Rch b → nodes h' !! b = nodes h !! b;
  sh_in b n' : nodes h' !! b = Some n' → ∃ n, nodes h !! b = Some n ∧ n' = set_refCount (refCount n') n ∧ refCount n' ≤ refCount n;
}.

Lemma shrinks_refl Rch h : shrinks Rch h h.
Proof. split; [done..|]. intros b n Hn. exists n. split_and!; [done|by destruct n|lia]. Qed.
Lemma shrinks_trans (Rch R1 R2 : Z → Prop) h h1 h2 :
  shrinks R1 h h1 → shrinks R2 h1 h2 → (∀ b, R1 b ∨ R2 b → Rch b) → shrinks Rch h h2.
Proof.
  intros [N1 O1 I1] [N2 O2 I2] HR. split; [congruence|..].
  - intros b Hb. rewrite O2, O1; [done|..]; intros ?; apply Hb, HR; auto.
  - intros b n2 H2. destruct (I2 b n2 H2) as (n1 & H1 & E2 & L2). destruct (I1 b n1 H1) as (n & Hn & E1 & L1).
    exists n. split_and!; [done| |lia]. rewrite E2. rewrite E1. done.
Qed.
Lemma shrinks_evolves Rch h h' : shrinks Rch h h' → evolves nowhere nowhere Rch h h'.
Proof.
  intros [N1 O1 I1]. split; [lia|auto|]. intros b n' _ _ Hn'. destruct (I1 b n' Hn') as (n & Hn & -> & Hle). exists n.
  split_and!; [done|by split_and!|]. intros _ Hg Hf. specialize (Hg Hf). cbn in *. lia.
Qed.

Definition kids_ext (ts : list tree) : Z → Z := λ x, zsum (λ u, if decide (addr u = x) then 1 else 0) ts.
Lemma kids_ext_cons u ts x : kids_ext (u :: ts) x = one (addr u) x + kids_ext ts x.
Proof. unfold kids_ext, one. cbn. f_equal. repeat case_decide; congruence. Qed.
Lemma kids_ext_nonneg ts x : 0 ≤ kids_ext ts x.
Proof. apply zsum_nonneg. intros u. case_decide; lia. Qed.
Lemma kids_ext_app ts us x : kids_ext (ts ++ us) x = kids_ext ts x + kids_ext us x.
Proof. apply zsum_app. Qed.
Lemma kids_ext_elem ts u : u ∈ ts → 1 ≤ kids_ext ts (addr u).
Proof. intros H. unfold kids_ext. rewrite <- occ_pad. by apply (occ_kid _ ts u). Qed.

Definition released R O (ext : Z → Z) (t : tree) (st st' : state) : Prop :=
  this st' = this st ∧ inv R O ext (heap st') ∧ shrinks (.∈ addrs t) (heap st) (heap st') ∧
  ∀ n n', nodes (heap st) !! addr t = Some n → nodes (heap st') !! addr t = Some n' → refCount n' < refCount n.

(** A release function does its work on a tree. *)
Definition releases (rel : Z → M ()) (t : tree) : Prop := ∀ R O ext st,
  inv R O (ext ⊕ one (addr t)) (heap st) → every (linked (nodes (heap st))) t → addr t ∉ R →
  (∀ x, x ∈ addrs t → x ∉ O) → (∀ x, 0 ≤ ext x) → wp (rel (addr t)) (λ _ st', released R O ext t st st') st.

(** The references to the children of a node are given up one after the other. *)
Record releasing R O (ext : Z → Z) (ts : list tree) (Rch : Z → Prop) (st0 st : state) : Prop := {
  rg_this : this st = this st0;
  rg_inv : inv R O (ext ⊕ kids_ext ts) (heap st);
  rg_shrinks : shrinks Rch (heap st0) (heap st);
  rg_linked : Forall (every (linked (nodes (heap st)))) ts;
}.


Lemma release_kid rel R O ext ts Rch st0 st p :
  releasing R O ext ts Rch st0 st → ((p = None ∧ ts = []) ∨ (∃ u, head ts = Some u ∧ p = Some (addr u) ∧ releases rel u)) →
  (∀ u, u ∈ ts → (addr u ∉ R) ∧ ∀ x, x ∈ addrs u → (x ∉ O) ∧ Rch x) → (∀ x, 0 ≤ ext x) →
  wp (__CFStorageReleaseNodeWithNullCheck rel p) (λ _ st', releasing R O ext (tail ts) Rch st0 st') st.
Proof.
  intros [Ht Hinv Hs Hl] [[-> ->]|(u & Hu & -> & Hrel)] Hts Hext; [by apply wp_ret|].
  destruct ts as [|u' ts]; [done|]. injection Hu as ->. cbn [tail]. apply Forall_cons in Hl as [Hlu Hl].
  destruct (Hts u) as [HuR HuO]; [left|].
  eapply wp_mono; [eapply (Hrel R O (ext ⊕ kids_ext ts)); [|done..| |]|].
  - refine (inv_same _ _ _ _ _ _ Hinv). intros x. unfold eplus. rewrite kids_ext_cons. lia.
  - intros x Hx. by apply HuO.
  - intros x. unfold eplus. pose proof (kids_ext_nonneg ts x). specialize (Hext x). lia.
  - intros [] st' (Ht' & Hinv' & Hs' & _). split; [congruence|done| |].
    + eapply shrinks_trans; [done..|]. intros b [Hb|Hb]; [done|by apply HuO].
    + apply Forall_forall. intros v Hv. rewrite Forall_forall in Hl.
      eapply (frame_linked _ nowhere nowhere _ O O _ _ (heap st)); [by apply shrinks_evolves|exact Hinv|exact Hinv'|by apply Hl| |].
      * intros x Hx. split; [tauto|]. destruct (Hts v) as [_ H]; [by right|]. by apply H.
      * eapply (held_live R); [exact Hinv'|]. right. unfold eplus. pose proof (kids_ext_elem ts v Hv).
        specialize (Hext (addr v)). lia.
Qed.

Lemma wp_pad n ts i (Q : option Z → state → Prop) st :
  info n = notLeaf (pad ts) → (length ts ≤ 3)%nat → (i < 3)%nat → Q (addr <$> ts !! i) st → wp (child_at n i) Q st.
Proof.
  intros Hn Hl Hi HQ. eapply wp_child_at; [done| |exact HQ]. unfold pad. destruct (ts !! i) as [u|] eqn:E.
  - rewrite lookup_app_l by (rewrite length_fmap; by eapply lookup_lt_Some). by rewrite list_lookup_fmap, E.
  - apply lookup_ge_None in E. rewrite lookup_app_r by (by rewrite length_fmap). rewrite length_fmap.
    by rewrite lookup_replicate_2 by lia.
Qed.

(** The three children of a node. *)
Definition release_children (rel : Z → M ()) (n : CFStorageNode) : M () :=
  c0 ← child_at n 0; __CFStorageReleaseNodeWithNullCheck rel c0;;
  c1 ← child_at n 1; __CFStorageReleaseNodeWithNullCheck rel c1;;
  c2 ← child_at n 2; __CFStorageReleaseNodeWithNullCheck rel c2.

Lemma release_children_ok rel R O ext ts Rch st n :
  info n = notLeaf (pad ts) → (length ts ≤ 3)%nat → inv R O (ext ⊕ kids_ext ts) (heap st) →
  Forall (every (linked (nodes (heap st)))) ts → Forall (releases rel) ts →
  (∀ u, u ∈ ts → (addr u ∉ R) ∧ ∀ x, x ∈ addrs u → (x ∉ O) ∧ Rch x) → (∀ x, 0 ≤ ext x) →
  wp (release_children rel n) (λ _ st', releasing R O ext [] Rch st st') st.
Proof.
  intros Hi Hlen Hinv Hl Hrel Hts Hext. unfold release_children.
  assert (H0 : releasing R O ext ts Rch st st) by (split; [done|done|apply shrinks_refl|done]).
  assert (Hstep : ∀ i st', releasing R O ext (drop i ts) Rch st st' →
    wp (__CFStorageReleaseNodeWithNullCheck rel (addr <$> ts !! i)) (λ _ st', releasing R O ext (drop (S i) ts) Rch st st') st').
  { intros i st' Hr. eapply wp_mono; [eapply (release_kid rel R O ext (drop i ts)); [done| | |done]|].
    - destruct (ts !! i) as [u|] eqn:E; [right|left].
      + exists u. split_and!; [by rewrite (drop_S ts u i E)|done|].
        rewrite Forall_forall in Hrel. apply Hrel. by eapply list_elem_of_lookup_2.
      + split; [done|]. apply drop_ge. by apply lookup_ge_None.
    - intros u Hu. apply Hts. apply list_elem_of_lookup in Hu as [j Hj]. rewrite lookup_drop in Hj. by eapply list_elem_of_lookup_2.
    - intros [] st'' H. replace (tail (drop i ts)) with (drop (S i) ts) in H; [done|].
      rewrite <- Nat.add_1_r, <- drop_drop. by destruct (drop i ts). }
  assert (Hend : ∀ st', releasing R O ext (drop 3 ts) Rch st st' → releasing R O ext [] Rch st st').
  { intros st'. by rewrite drop_ge by lia. }
  apply wp_bind. eapply wp_pad; [done|done|lia|]. apply wp_bind. eapply wp_mono; [by apply (Hstep 0%nat)|]. intros [] st1 H1.
  apply wp_bind. eapply wp_pad; [done|done|lia|]. apply wp_bind. eapply wp_mono; [by apply (Hstep 1%nat)|]. intros [] st2 H2.
  apply wp_bind. eapply wp_pad; [done|done|lia|]. eapply wp_mono; [by apply (Hstep 2%nat)|]. intros [] st3 H3. by apply Hend.
Qed.

Lemma release_node_ok fuel t : (height t ≤ fuel)%nat → releases (release_node fuel) t.
Proof.
  revert t. induction fuel as [|fuel IH]; intros t Hf R O ext st Hinv Ht HR HO Hext; [by destruct t; cbn in Hf; lia|].
  destruct (held_live R O (ext ⊕ one (addr t)) (heap st) (addr t) Hinv) as [n Hn].
  { right. unfold eplus, one. rewrite decide_True by done. specialize (Hext (addr t)). lia. }
  assert (HtO : addr t ∉ O) by apply HO, addr_addrs.
  pose proof (inv_count _ _ _ _ Hinv _ n Hn HR) as Hc. pose proof (refs_nonneg O (nodes (heap st)) (addr t)).
  unfold eplus, one in Hc. rewrite decide_True in Hc by done. pose proof (Hext (addr t)).
  cbn [release_node]. apply wp_bind. eapply wp_load; [done|]. rewrite (proj2 (Z.ltb_lt _ _)) by lia.
  apply wp_bind. eapply wp_put; [done|]. set (n1 := set_refCount (refCount n - 1) n). set (h1 := put (addr t) n1 (heap st)).
  assert (Hs1 : shrinks (.∈ addrs t) (heap st) h1).
  { split; [done|..].
    - intros b Hb. cbn. rewrite lookup_insert_ne; [done|]. intros <-. apply Hb, addr_addrs.
    - intros b n' Hb. cbn in Hb. apply lookup_insert_Some in Hb as [[<- <-]|[Hne Hb]].
      + exists n. split_and!; [done|done|cbn; lia].
      + exists n'. split_and!; [done|by destruct n'|lia]. }
  destruct (Z.eqb_spec (refCount n - 1) 0) as [Hz|Hz]; last first.
  { apply wp_ret. split_and!; [done| |done|].
    - eapply (inv_put R O _ ext _ (addr t) n n1 Hinv Hn); [by right|by intros ?| |done|cbn; lia].
      intros x. unfold eplus, one. case_decide; cbn; lia.
    - intros m m' Hm Hm'. cbn in Hm'. rewrite lookup_insert_eq in Hm'. injection Hm' as <-. rewrite Hn in Hm.
      injection Hm as <-. cbn. lia. }
  assert (Hinv1 : inv R (addr t :: O) (ext ⊕ λ x, occ x (slots n)) h1).
  { eapply (inv_put R (addr t :: O) _ _ _ (addr t) n n1); [by eapply inv_open|done|left; left|done| | |].
    - intros x. unfold eplus, one. case_decide; cbn; lia.
    - unfold eplus. pose proof (occ_nonneg (addr t) (slots n)). lia.
    - intros _ Hno. destruct Hno. left. }
  assert (Hdone : ∀ st', this st' = this st → inv R (addr t :: O) ext (heap st') → shrinks (.∈ addrs t) h1 (heap st') →
    nodes (heap st') !! addr t = Some n1 → wp (free (addr t)) (λ _ st', released R O ext t st st') st').
  { intros st' Ht' Hinv' Hs' Hn'. apply wp_free. split_and!; [done| | |].
    - apply (inv_free R O ext (heap st') (addr t) n1 Hinv' Hn' HtO HR). cbn. lia.
    - eapply shrinks_trans; [exact Hs1| |intros b Hb; exact (or_ind (λ x, x) (λ x, x) Hb)].
      eapply shrinks_trans; [exact Hs'| |intros b Hb; exact (or_ind (λ x, x) (λ x, x) Hb)]. split; [done|..].
      + intros b Hb. cbn. rewrite lookup_delete_ne; [done|]. intros <-. apply Hb, addr_addrs.
      + intros b m Hb. cbn in Hb. apply lookup_delete_Some in Hb as [_ Hb]. exists m. split_and!; [done|by destruct m|lia].
    - intros m m' _ Hm'. cbn in Hm'. by rewrite lookup_delete_eq in Hm'. }
  unfold __CFStorageDeallocateNode. apply wp_bind. eapply (wp_load _ n1); [apply lookup_insert_eq|].
  destruct (every_here _ _ Ht) as (n' & Hn' & Hk). rewrite Hn in Hn'. injection Hn' as <-. apply wp_bind.
  destruct t as [a l|a ts].
  - replace (isLeaf n1) with true by (unfold isLeaf in *; cbn; by destruct (info n)). apply wp_ret. apply Hdone; [done| |apply shrinks_refl|apply lookup_insert_eq].
    refine (inv_same _ _ _ _ _ _ Hinv1). intros x. unfold eplus, slots. unfold isLeaf in Hk. destruct (info n); [cbn; lia|done].
  - destruct Hk as [Hi Hlen]. replace (isLeaf n1) with false by (unfold isLeaf; cbn; by rewrite Hi).
    assert (Hinv2 : inv R (a :: O) (ext ⊕ kids_ext ts) h1).
    { refine (inv_same _ _ _ _ _ _ Hinv1). intros x. unfold eplus. by rewrite (slots_pad n ts Hi), occ_pad. }
    assert (Hkids : Forall (every (linked (nodes h1))) ts).
    { apply every_node in Ht as [_ Hts]. apply Forall_forall. intros u Hu. rewrite Forall_forall in Hts.
      eapply (frame_linked R nowhere nowhere _ (a :: O) O _ _ (heap st)); [by apply shrinks_evolves|exact Hinv|exact Hinv2|by apply Hts| |].
      - intros x Hx. split; [tauto|]. apply not_elem_of_cons. split.
        + intros ->. by apply (no_cycle (nodes (heap st)) a ts u); [apply every_node; split; [exists n|apply Forall_forall]|..].
        + apply HO, addrs_node. right. by exists u.
      - eapply (held_live R); [exact Hinv2|]. right. unfold eplus. pose proof (kids_ext_elem ts u Hu). specialize (Hext (addr u)). lia. }
    assert (Hcyc : ∀ u, u ∈ ts → a ∉ addrs u) by (intros u Hu; by apply (no_cycle (nodes (heap st)) a ts u Ht Hu)).
    eapply wp_mono; [eapply (release_children_ok _ R (a :: O) ext ts (λ x, x ∈ addrs (TNode a ts) ∧ x ≠ a) _ n1)|];
      [done|done|exact Hinv2|done| | |done|].
    + apply Forall_forall. intros u Hu. apply IH. pose proof (height_kid a ts u Hu). lia.
    + intros u Hu. split.
      * intros Hr. pose proof (inv_root _ _ _ _ Hinv2 _ Hr) as (_ & H2 & _). unfold eplus in H2.
        pose proof (kids_ext_elem ts u Hu). specialize (Hext (addr u)). lia.
      * intros x Hx. assert (Hxa : x ≠ a) by (intros ->; by apply (Hcyc u Hu)). split_and!; [|apply addrs_node; right; by exists u|done].
        apply not_elem_of_cons. split; [done|]. apply HO, addrs_node. right. by exists u.
    + intros [] st' [Ht' Hinv' Hs' _]. apply Hdone; [done|..].
      * refine (inv_same _ _ _ _ _ _ Hinv'). intros x. unfold eplus, kids_ext. cbn. lia.
      * eapply shrinks_trans; [exact Hs'|apply (shrinks_refl nowhere)|]. intros b [[? _]|[]]; done.
      * rewrite (sh_out _ _ _ Hs') by (intros []; done). apply lookup_insert_eq.
Qed.

Lemma release_ok t : releases __CFStorageReleaseNode t.
Proof.
  intros R O ext st Hinv Ht HR HO Hext. unfold __CFStorageReleaseNode. apply wp_bind, wp_depth.
  apply release_node_ok; try done. pose proof (height_size _ t Ht). lia.
Qed.

(** ** Storages *)

Record storage_ok (s : __CFStorage) : Prop := {
  so_size : 0 < valueSize s;
  so_shifter : byteToValueShifter s = NO_SHIFTER ∨ (0 ≤ byteToValueShifter s ∧ valueSize s = 2 ^ byteToValueShifter s);
  so_max : 0 < maxLeafCapacity s ≤ __CFStorageMaxLeafCapacity;
  so_divides : (valueSize s | maxLeafCapacity s);
}.

Section conversions.
Context (s : __CFStorage) (Hs : storage_ok s).

Lemma value_to_byte v : __CFStorageConvertValueToByte s v = v * valueSize s.
Proof.
  unfold __CFStorageConvertValueToByte. destruct (Z.eqb_spec (byteToValueShifter s) NO_SHIFTER) as [E|E]; cbn [negb]; [done|].
  destruct (so_shifter s Hs) as [|[H ->]]; [done|]. by rewrite Z.shiftl_mul_pow2.
Qed.
Lemma values_to_range v w : __CFStorageConvertValuesToByteRange s v w = CFRangeMake (v * valueSize s) (w * valueSize s).
Proof.
  unfold __CFStorageConvertValuesToByteRange. destruct (Z.eqb_spec (byteToValueShifter s) NO_SHIFTER) as [E|E]; cbn [negb]; [done|].
  destruct (so_shifter s Hs) as [|[H ->]]; [done|]. by rewrite !Z.shiftl_mul_pow2.
Qed.
Lemma byte_to_value b : 0 ≤ b → __CFStorageConvertByteToValue s b = b / valueSize s.
Proof.
  intros Hb. pose proof (so_size s Hs). unfold __CFStorageConvertByteToValue.
  destruct (Z.eqb_spec (byteToValueShifter s) NO_SHIFTER) as [E|E]; cbn [negb]; [by apply Z.quot_div_nonneg|].
  destruct (so_shifter s Hs) as [|[H' ->]]; [done|]. by rewrite Z.shiftr_div_pow2.
Qed.
Lemma bytes_to_range b c : 0 ≤ b → 0 ≤ c → __CFStorageConvertBytesToValueRange s b c = CFRangeMake (b / valueSize s) (c / valueSize s).
Proof.
  intros Hb Hc. pose proof (byte_to_value b Hb) as H1. pose proof (byte_to_value c Hc) as H2.
  unfold __CFStorageConvertByteToValue, __CFStorageConvertBytesToValueRange in *.
  by destruct (byteToValueShifter s =? NO_SHIFTER); cbn [negb] in *; rewrite H1, H2.
Qed.
End conversions.

Lemma same_storage_fields s s' : same_storage s s' →
  valueSize s' = valueSize s ∧ byteToValueShifter s' = byteToValueShifter s ∧ alwaysFrozen s' = alwaysFrozen s ∧
  maxLeafCapacity s' = maxLeafCapacity s ∧ rootNode s' = rootNode s.
Proof. unfold same_storage, set_cacheNode. intros [=]. done. Qed.
Lemma same_storage_ok s s' : same_storage s s' → storage_ok s → storage_ok s'.
Proof.
  intros (E1 & E2 & E3 & E4 & E5)%same_storage_fields [H1 H2 H3 H4]. split; by rewrite ?E1, ?E2, ?E4.
Qed.
Lemma same_storage_cache s s' p : same_storage s s' → same_storage s (set_cacheNode p s').
Proof. unfold same_storage, set_cacheNode. cbn. intros [=]. congruence. Qed.

(** The sizes of leaves. *)
Definition leaf_fits (s : __CFStorage) (t : tree) : Prop :=
  match t with TLeaf _ l => 0 < zlen l ≤ maxLeafCapacity s ∧ (valueSize s | zlen l) | TNode _ _ => True end.

(** A leaf without memory is not shared. *)
Definition backed (m : gmap Z CFStorageNode) (t : tree) : Prop :=
  match t with TLeaf a _ => ∃ n, m !! a = Some n ∧ has_memory n | TNode _ _ => True end.
Definition single (m : gmap Z CFStorageNode) (a : Z) : Prop := ∃ n, m !! a = Some n ∧ refCount n ≤ 1.
Inductive ready (m : gmap Z CFStorageNode) : tree → Prop :=
| ready_backed t : every (backed m) t → ready m t
| ready_leaf a l : single m a → ready m (TLeaf a l)
| ready_node a ts : single m a → Forall (ready m) ts → ready m (TNode a ts).

Record fine (s : __CFStorage) (m : gmap Z CFStorageNode) (t : tree) : Prop := {
  fine_sound : every (sound m) t;
  fine_fits : every (leaf_fits s) t;
  fine_ready : ready m t;
}.

Lemma fine_linked s m t : fine s m t → every (linked m) t.
Proof. intros H. apply sound_every_linked, (fine_sound _ _ _ H). Qed.
Lemma fine_leaf s m a l n : m !! a = Some n → leaf_ok n l → refCount n ≤ 1 →
  0 < zlen l ≤ maxLeafCapacity s → (valueSize s | zlen l) → fine s m (TLeaf a l).
Proof.
  intros Hn Hok Hc Hl Hv. split.
  - apply every_leaf. split; [by exists n|apply Forall_nil_2].
  - apply every_leaf. done.
  - apply ready_leaf. by exists n.
Qed.
Lemma fine_node s m a ts n :
  m !! a = Some n → refCount n ≤ 1 → info n = notLeaf (pad ts) → numBytes n = zlen (all_bytes ts) → (2 ≤ length ts ≤ 3)%nat →
  Forall (fine s m) ts → Forall (λ u, guarded_at m (addr u)) ts → fine s m (TNode a ts).
Proof.
  intros Hn Hc Hi Hb Hlen Hf Hg. rewrite Forall_forall in Hf. split.
  - apply every_node. split; [split; [by exists n|done]|]. apply Forall_forall. intros u Hu. by apply (fine_sound s), Hf.
  - apply every_node. split; [done|]. apply Forall_forall. intros u Hu. by apply (fine_fits s m), Hf.
  - apply ready_node; [by exists n|]. apply Forall_forall. intros u Hu. by apply (fine_ready s), Hf.
Qed.
Lemma fits_divides s t : 0 < valueSize s → every (leaf_fits s) t → (valueSize s | zlen (bytes t)).
Proof.
  intros Hs. induction t as [a l|a ts IH] using tree_induction; intros Ht.
  - apply every_here in Ht. apply Ht.
  - apply every_node in Ht as [_ Ht]. cbn. induction IH as [|u ts Hu _ IHts]; [exists 0; done|].
    apply Forall_cons in Ht as [? ?]. cbn. rewrite zlen_app. apply Z.divide_add_r; auto.
Qed.

(** What is not changed stays ready, and owned. *)
Lemma frame_ready D X Rch h h' t :
  evolves D X Rch h h' → every (linked (nodes h')) t → ready (nodes h) t →
  (∀ x, x ∈ addrs t → x < next h ∧ ¬ D x) → (∀ x, own (nodes h) t x → ¬ Rch x) → ready (nodes h') t.
Proof.
  intros Hev. induction t as [a l|a ts IH] using tree_induction; intros Hl Hr Hx Ho.
  - inversion Hr as [t Hb|b l' [n [Hn Hc]]|]; subst.
    + apply ready_backed, every_leaf. apply every_here in Hb as (n & Hn & Hm), Hl as (n' & Hn' & _).
      exists n'. split; [done|]. destruct (Hx a ltac:(by apply addrs_leaf)) as [H1 H2].
      destruct (ev_in _ _ _ _ _ Hev a n' H1 H2 Hn') as (n0 & H0 & (_ & Hmem & _) & _).
      rewrite Hn in H0. injection H0 as <-. by apply Hmem.
    + apply ready_leaf. exists n. split; [|done]. rewrite (ev_out _ _ _ _ _ Hev); [done|apply Hx; by apply addrs_leaf|].
      apply Ho. by apply (own_here _ (TLeaf a l) n).
  - assert (Hsub : ∀ u x, u ∈ ts → x ∈ addrs u → x < next h ∧ ¬ D x) by (intros u x Hu Hxu; apply Hx, addrs_node; right; by exists u).
    inversion Hr as [t Hb|?|b ts' [n [Hn Hc]] Hrs]; subst.
    + apply ready_backed. apply every_node in Hb as [_ Hb], Hl as [_ Hl]. apply every_node. split; [done|].
      rewrite Forall_forall in Hb, Hl, IH |- *. intros u Hu. specialize (Hb u Hu). specialize (Hl u Hu). specialize (Hsub u).
      clear -Hb Hl Hsub Hu Hev. unfold every in *. rewrite Forall_forall in Hb, Hl |- *. intros s Hs. specialize (Hb s Hs). specialize (Hl s Hs).
      destruct s as [b l|]; [|done]. destruct Hb as (n & Hn & Hm), Hl as (n' & Hn' & _). exists n'. split; [done|]. cbn in Hn'.
      assert (Hbu : b ∈ addrs u) by (unfold addrs; apply list_elem_of_fmap; by exists (TLeaf b l)).
      destruct (Hsub b Hu Hbu) as [H1 H2]. destruct (ev_in _ _ _ _ _ Hev b n' H1 H2 Hn') as (n0 & H0 & (_ & Hmem & _) & _).
      rewrite Hn in H0. injection H0 as <-. by apply Hmem.
    + apply ready_node.
      * exists n. split; [|done]. rewrite (ev_out _ _ _ _ _ Hev); [done|apply Hx, addrs_node; by left|].
        apply Ho. by apply (own_here _ (TNode a ts) n).
      * apply every_node in Hl as [_ Hl]. rewrite Forall_forall in Hrs, Hl, IH |- *. intros u Hu.
        apply (IH u Hu); [by apply Hl|by apply Hrs|intros x; by apply (Hsub u)|]. intros x Hxu. apply Ho. by apply (own_kid _ a ts u n).
Qed.
Lemma frame_own (m m' : gmap Z CFStorageNode) t x : (∀ y, own m t y → m' !! y = m !! y) → own m t x → own m' t x.
Proof.
  intros Hsame H. induction H as [t n Hn Hc|a ts u n x Hn Hc Hu Hown IH].
  - apply (own_here _ t n); [|done]. rewrite Hsame; [done|]. by apply (own_here _ t n).
  - apply (own_kid _ a ts u n x); [|done..|].
    + rewrite Hsame; [done|]. by apply (own_here _ (TNode a ts) n).
    + apply IH. intros y Hy. apply Hsame. by apply (own_kid _ a ts u n).
Qed.

(** Trees whose nodes are the same in two heaps. *)
Definition agree (m m' : gmap Z CFStorageNode) (t : tree) : Prop := ∀ x, x ∈ addrs t → m' !! x = m !! x.

Lemma agree_kid m m' a ts u : agree m m' (TNode a ts) → u ∈ ts → agree m m' u.
Proof. intros H Hu x Hx. apply H, addrs_node. right. by exists u. Qed.
Lemma agree_every (P : gmap Z CFStorageNode → tree → Prop) m m' t :
  (∀ s, agree m m' s → P m s → P m' s) → agree m m' t → every (P m) t → every (P m') t.
Proof.
  intros HP. induction t as [a l|a ts IH] using tree_induction; intros Ha Ht.
  - apply every_leaf. apply HP; [done|]. by apply every_here in Ht.
  - apply every_node in Ht as [H1 Ht]. apply every_node. split; [by apply HP|].
    rewrite Forall_forall in IH, Ht |- *. intros u Hu. apply IH; [done|by eapply agree_kid|by apply Ht].
Qed.
Lemma agree_sound m m' s : agree m m' s → sound m s → sound m' s.
Proof.
  intros Ha [(n & Hn & Hs) Hg]. split.
  - exists n. split; [rewrite Ha; [done|apply addr_addrs]|done].
  - rewrite Forall_forall in Hg |- *. intros u Hu n' Hn'. apply (Hg u Hu). rewrite <- Ha; [done|].
    destruct s as [a l|a ts]; [by apply elem_of_nil in Hu|]. apply addrs_node. right. exists u. split; [done|apply addr_addrs].
Qed.
Lemma agree_linked m m' s : agree m m' s → linked m s → linked m' s.
Proof. intros Ha (n & Hn & Hs). exists n. split; [rewrite Ha; [done|apply addr_addrs]|done]. Qed.
Lemma agree_backed m m' s : agree m m' s → backed m s → backed m' s.
Proof. intros Ha. destruct s as [a l|]; [|done]. intros (n & Hn & Hs). exists n. split; [rewrite Ha; [done|by apply addrs_leaf]|done]. Qed.
Lemma agree_ready m m' t : agree m m' t → ready m t → ready m' t.
Proof.
  induction t as [a l|a ts IH] using tree_induction; intros Ha Hr.
  - inversion Hr as [t Hb|b l' [n [Hn Hc]]|]; subst.
    + apply ready_backed. by apply (agree_every backed m m' _ (agree_backed m m')).
    + apply ready_leaf. exists n. rewrite Ha; [done|by apply addrs_leaf].
  - inversion Hr as [t Hb|?|b ts' [n [Hn Hc]] Hrs]; subst.
    + apply ready_backed. by apply (agree_every backed m m' _ (agree_backed m m')).
    + apply ready_node; [exists n; rewrite Ha; [done|apply addrs_node; by left]|].
      rewrite Forall_forall in IH, Hrs |- *. intros u Hu. apply IH; [done|by eapply agree_kid|by apply Hrs].
Qed.
Lemma agree_fine s m m' t : agree m m' t → fine s m t → fine s m' t.
Proof.
  intros Ha [H1 H2 H3]. split; [|done|by apply (agree_ready m m')].
  by apply (agree_every sound m m' _ (agree_sound m m')).
Qed.
Lemma agree_own m m' t x : agree m m' t → own m t x → own m' t x.
Proof. intros Ha. apply frame_own. intros y Hy. by apply Ha, (own_addrs m). Qed.

Lemma sound_bytes m t : every (sound m) t → ∃ n, m !! addr t = Some n ∧ numBytes n = zlen (bytes t).
Proof.
  intros Ht. apply every_here in Ht as [(n & Hn & Hs) _]. exists n. split; [done|].
  destruct t; [by destruct Hs|]. by destruct Hs as (_ & ? & _).
Qed.

(** The child with a byte, or, for an insertion, the one that ends before it. *)
Lemma all_bytes_app ts us : all_bytes (ts ++ us) = all_bytes ts ++ all_bytes us.
Proof. unfold all_bytes. by rewrite map_app, concat_app. Qed.
Lemma all_bytes_cons u us : all_bytes (u :: us) = bytes u ++ all_bytes us.
Proof. done. Qed.

Definition found (ts : list tree) (byteNum : Z) (ins : bool) (r : Z * nat * Z) : Prop :=
  ∃ i u, r = (addr u, i, byteNum - zlen (all_bytes (take i ts))) ∧ ts !! i = Some u ∧
    let rel := byteNum - zlen (all_bytes (take i ts)) in 0 ≤ rel ∧ (if ins then rel ≤ zlen (bytes u) else rel < zlen (bytes u)).

Lemma find_child_ok n ts byteNum (ins : bool) st :
  info n = notLeaf (pad ts) → (2 ≤ length ts ≤ 3)%nat → Forall (every (sound (nodes (heap st)))) ts →
  0 ≤ byteNum → (if ins then byteNum ≤ zlen (all_bytes ts) else byteNum < zlen (all_bytes ts)) →
  wp (__CFStorageFindChild n byteNum ins) (λ r st', st' = st ∧ found ts byteNum ins r) st.
Proof.
  intros Hi Hlen Hs H0 Hle. destruct ts as [|u0 [|u1 ts]]; [cbn in Hlen; lia..|].
  apply Forall_cons in Hs as [S0 Hs]. apply Forall_cons in Hs as [S1 Hs].
  destruct (sound_bytes _ _ S0) as (n0 & Hn0 & E0). destruct (sound_bytes _ _ S1) as (n1 & Hn1 & E1).
  rewrite !all_bytes_cons, !zlen_app in Hle. pose proof (zlen_nonneg (bytes u0)). pose proof (zlen_nonneg (bytes u1)).
  unfold __CFStorageFindChild. apply wp_bind. eapply wp_pad; [done|cbn in *; lia|lia|]. cbn.
  apply wp_bind. eapply wp_lift; [done|]. apply wp_bind. eapply wp_load; [done|]. rewrite E0.
  assert (Hend : ∀ i u, (u0 :: u1 :: ts) !! i = Some u → ∀ rel, rel = byteNum - zlen (all_bytes (take i (u0 :: u1 :: ts))) →
    0 ≤ rel → (if ins then rel ≤ zlen (bytes u) else rel < zlen (bytes u)) →
    wp (mret (M:=M) (addr u, i, rel)) (λ r st', st' = st ∧ found (u0 :: u1 :: ts) byteNum ins r) st).
  { intros i u Hu rel -> Hr1 Hr2. apply wp_ret. split; [done|]. by exists i, u. }
  pose proof (zlen_nonneg (all_bytes ts)).
  destruct (Z.ltb_spec (if ins then byteNum - 1 else byteNum) (zlen (bytes u0))) as [L0|L0].
  { assert (Z0 : zlen (all_bytes (take 0 (u0 :: u1 :: ts))) = 0) by done. apply (Hend 0%nat u0); [done|..]; rewrite ?Z0; destruct ins; lia. }
  apply wp_bind. eapply wp_pad; [done|cbn in *; lia|lia|]. cbn. apply wp_bind. eapply wp_lift; [done|].
  apply wp_bind. eapply wp_load; [done|]. rewrite E1.
  assert (Z1 : zlen (all_bytes (take 1 (u0 :: u1 :: ts))) = zlen (bytes u0)) by (unfold all_bytes; cbn; by rewrite app_nil_r).
  assert (Z2 : zlen (all_bytes (take 2 (u0 :: u1 :: ts))) = zlen (bytes u0) + zlen (bytes u1)).
  { unfold all_bytes. cbn. by rewrite app_nil_r, zlen_app. }
  destruct (Z.ltb_spec ((if ins then byteNum - 1 else byteNum) - zlen (bytes u0)) (zlen (bytes u1))) as [L1|L1].
  { apply (Hend 1%nat u1); [done|..]; rewrite ?Z1; destruct ins; lia. }
  destruct ts as [|u2 ts]; [change (zlen (all_bytes [])) with 0 in Hle; destruct ins; lia|]. destruct ts as [|? ?]; [|cbn in Hlen; lia].
  apply wp_bind. eapply wp_pad; [done|cbn in *; lia|lia|]. cbn. apply wp_bind. eapply wp_lift; [done|].
  rewrite all_bytes_cons, zlen_app in Hle. change (zlen (all_bytes [])) with 0 in Hle. apply (Hend 2%nat u2); [done|..]; rewrite ?Z2; destruct ins; lia.
Qed.
