(* ===== verification/StorageInsert.v ===== *)
(** * Insertion in a CFStorage

    [__CFStorageInsert] and the functions it calls make room in the bytes of a
    tree; the nodes of other trees keep their bytes. *)
From S2P Require Import Prelude Storage StorageSpec StorageOps.
From stdpp Require Import gmap list.
Open Scope Z_scope.

(** ** Steps of an operation that began in [h0] *)

Record ok (R O : list Z) (ext : Z → Z) (D X Rch : Z → Prop) (s0 : __CFStorage) (h0 : store) (st : state) : Prop := {
  ok_this : same_storage s0 (this st);
  ok_inv : inv R O ext (heap st);
  ok_ev : evolves D X Rch h0 (heap st);
}.

(** Nodes the operation may change as it likes. *)
Definition mine (D Rch : Z → Prop) (h0 : store) (a : Z) : Prop := next h0 ≤ a ∨ (Rch a ∧ D a).

(** Lookups in the heap of a state reached by explicit steps. *)
Ltac lk := cbn; repeat (rewrite lookup_insert_eq || (rewrite lookup_insert_ne by (done || lia))); done.

Section steps.
Context `{Al : Allocator} (Hal : ∀ n, 0 < n → is_Some (alloc n)).
Context (R : list Z) (D X Rch : Z → Prop) (s0 : __CFStorage) (h0 : store) (Hs0 : storage_ok s0).
Abbreviation okay O ext st := (ok R O ext D X Rch s0 h0 st).

Lemma ok_same O ext ext' st : okay O ext st → (∀ x, ext x = ext' x) → okay O ext' st.
Proof. intros [H1 H2 H3] He. split; [done| |done]. by apply (inv_same R O ext). Qed.

Lemma ok_put O ext st a n n' :
  okay O ext st → nodes (heap st) !! a = Some n → a ∈ O ∨ slots n' = slots n → refCount n' = refCount n →
  mine D Rch h0 a ∨ (Rch a ∧ same_shape n n' ∧ (X a ∨ (guarded n → guarded n'))) →
  okay O ext (with_heap st (put a n' (heap st))).
Proof.
  intros [H1 H2 H3] Hn Hs Hc Hm. split; [done|..].
  - eapply (inv_put R O ext ext _ a n n' H2 Hn Hs); [done|intros x; case_decide; lia|apply (inv_ext _ _ _ _ H2)|].
    intros Hr Ho. rewrite Hc. by apply (inv_pos _ _ _ _ H2 a n Hn Hr Ho).
  - eapply evolves_put; [done..|]. destruct Hm as [[?|[? ?]]|(? & ? & ?)]; auto.
Qed.
Lemma ok_put_mine O ext st a n n' :
  okay O ext st → nodes (heap st) !! a = Some n → a ∈ O ∨ slots n' = slots n → refCount n' = refCount n →
  mine D Rch h0 a → okay O ext (with_heap st (put a n' (heap st))).
Proof. intros. eapply ok_put; eauto. Qed.

Definition new_node (s : __CFStorage) (leafNode : bool) (b : Z) : CFStorageNode :=
  {| numBytes := b; refCount := 1; isFrozen := alwaysFrozen s; info := if leafNode then leaf empty_leaf else notLeaf no_children |}.
Definition with_new (st : state) (n : CFStorageNode) : state :=
  with_heap st {| nodes := <[next (heap st) := n]> (nodes (heap st)); next := next (heap st) + 1 |}.

Lemma create_node_ok O ext st leafNode b (Q : Z → state → Prop) :
  okay O ext st →
  (∀ a st', a = next (heap st) → st' = with_new st (new_node (this st) leafNode b) → okay O (ext ⊕ one a) st' → Q a st') →
  wp (__CFStorageCreateNode leafNode b) Q st.
Proof.
  intros [H1 H2 H3] HQ. unfold __CFStorageCreateNode. apply wp_bind, wp_self, wp_bind.
  destruct (Hal sizeof_CFStorageNode ltac:(done)) as [m Hm]. eapply wp_lift; [done|].
  exists (next (heap st)), (with_new st (new_node (this st) leafNode b)). split; [done|]. apply HQ; [done|done|]. split; [done|..].
  - apply inv_new_node; [done| |done]. intros x. by destruct leafNode.
  - by apply evolves_new.
Qed.

(** The heap after [__CFStorageSetCache] on a leaf. *)
Definition cached_at (a loc : Z) (n : CFStorageNode) (li : leaf_info) (st : state) : state :=
  {| this := set_cacheNode (Some a) (this st);
     heap := put a (set_info (leaf {| capacityInBytes := capacityInBytes li; memory := memory li;
               cachedRange := __CFStorageConvertBytesToValueRange (this st) loc (numBytes n) |}) n) (heap st) |}.
Lemma set_cache_ok O ext st a loc n li (Q : () → state → Prop) :
  okay O ext st → nodes (heap st) !! a = Some n → info n = leaf li → mine D Rch h0 a →
  (∀ st', st' = cached_at a loc n li st → okay O ext st' → Q () st') → wp (__CFStorageSetCache (Some a) loc) Q st.
Proof.
  intros Hok Hn Hi Hm HQ. unfold __CFStorageSetCache. apply wp_bind, wp_self, wp_bind, wp_bind. eapply wp_load; [done|].
  apply wp_bind. eapply wp_leaf_of; [done|]. eapply wp_put; [done|].
  eexists _, _. split; [done|]. apply HQ; [done|].
  pose proof (ok_put_mine O ext st a n _ Hok Hn (or_intror eq_refl) eq_refl Hm) as Hok'.
  assert (Hsl : slots n = []) by (unfold slots; by rewrite Hi).
  destruct (ok_put_mine O ext st a n (set_info (leaf {| capacityInBytes := capacityInBytes li; memory := memory li;
    cachedRange := __CFStorageConvertBytesToValueRange (this st) loc (numBytes n) |}) n) Hok Hn) as [H1 H2 H3]; [by right|done|done|].
  split; [by apply same_storage_cache|done|done].
Qed.

Lemma alloc_ok O ext st a n li l cap compact (Q : () → state → Prop) :
  okay O ext st → nodes (heap st) !! a = Some n → info n = leaf li → memory_ok li l →
  0 < cap ≤ maxLeafCapacity s0 → mine D Rch h0 a ∨ (Rch a ∧ numBytes n ≤ cap) →
  (∀ li' m' st', st' = with_heap st (put a (set_info (leaf li') n) (heap st)) →
     okay O ext st' → (∀ l', zlen l' ≤ cap → memory_ok li l' → memory_ok li' l') → cachedRange li' = cachedRange li →
     memory li' = Some m' → cap ≤ zlen m' → Q () st') →
  wp (__CFStorageAllocLeafNodeMemory a cap compact) Q st.
Proof.
  intros Hok Hn Hi Hmem Hcap Hm HQ.
  destruct (same_storage_fields _ _ (ok_this _ _ _ _ _ _ _ _ _ Hok)) as (_ & _ & _ & Emax & _).
  eapply wp_mono; [eapply (alloc_leaf_ok Hal a n li l cap compact st); try done; rewrite Emax; [done|apply (so_max s0 Hs0)]|].
  intros [] st' (li' & m' & -> & H1 & H2 & H3 & H4). eapply HQ; try done.
  eapply ok_put; [done..| |done|]; [right; unfold slots; by rewrite Hi|]. destruct Hm as [Hm|[Hr Hle]]; [by left|right].
  split_and!; [done| |by right]. split_and!; try done.
  - intros l' (E & li0 & E0 & Hm0). rewrite Hi in E0. injection E0 as <-. split; [done|]. exists li'. split; [done|]. apply H1; [lia|done].
  - intros _. unfold has_memory. cbn. by rewrite H3.
  - intros c. by rewrite Hi.
Qed.

Lemma copy_ok O ext st src m l from a n li md l1 k (Q : () → state → Prop) :
  okay O ext st → (0 < k → src = Some m) → below l m → nodes (heap st) !! a = Some n → info n = leaf li →
  memory li = Some md → below l1 md → 0 ≤ from → 0 ≤ k → from + k ≤ zlen l → zlen l1 + k ≤ zlen md → mine D Rch h0 a →
  (∀ md' st', st' = with_heap st (put a (set_info (leaf {| capacityInBytes := capacityInBytes li; memory := Some md';
       cachedRange := cachedRange li |}) n) (heap st)) → okay O ext st' → below (l1 ++ ztake k (zdrop from l)) md' → zlen md' = zlen md → Q () st') →
  wp (COPYMEM src from a (zlen l1) k) Q st.
Proof.
  intros Hok Hsrc Hb Hn Hi Hm H1 Hf Hk Hl Hz Ha HQ.
  eapply wp_mono; [by eapply (copymem_ok src m l from a n li md l1 k st)|].
  intros [] st' (md' & -> & Hb' & Hz'). eapply HQ; [done| |done..].
  eapply ok_put_mine; [done..| |done|done]. right. unfold slots. by rewrite Hi.
Qed.
End steps.

(** ** The result of an insertion *)

(** Equality of what is held, by cases. *)
Definition maybe_one (p : option Z) : Z → Z := λ x, if decide (p = Some x) then 1 else 0.
Ltac ext_eq := let x := fresh "x" in intros x; unfold eplus, eminus, one, maybe_one; cbn; repeat case_decide; simplify_eq; try done; lia.

(** [x] starts at byte [off] of a row of trees. *)
Definition in_row (us : list tree) (off : Z) (x : tree) : Prop :=
  ∃ pre u post o, us = pre ++ u :: post ∧ off = zlen (all_bytes pre) + o ∧ at_offset u o x.

(** The cached leaf [c] of a row of trees that begins at byte [base]: its range
    is a place of it, and it is not frozen only if nobody else has it. *)
Definition cached (s : __CFStorage) (m : gmap Z CFStorageNode) (us : list tree) (base c : Z) : Prop :=
  ∃ off l n li, in_row us off (TLeaf c l) ∧ m !! c = Some n ∧ info n = leaf li ∧
    location (cachedRange li) * valueSize s = base + off ∧
    0 ≤ range_length (cachedRange li) ∧ range_length (cachedRange li) * valueSize s ≤ zlen l ∧
    (isFrozen n = false → ∃ u, u ∈ us ∧ own m u c).

Definition room (pos size : Z) (l : list (option Z)) : list (option Z) := ztake pos l ++ gap size ++ zdrop pos l.

Record inserted (R O : list Z) (ext : Z → Z) (D X : Z → Prop) (s0 : __CFStorage) (h0 : store) (t : tree)
    (pos size base : Z) (r : CFStorageDoubleNodeReturn) (st : state) (us : list tree) : Prop := {
  is_ok : ok R O (ext ⊕ maybe_one (if decide (child r = addr t) then None else Some (child r)) ⊕ maybe_one (sibling r))
            D X (.∈ addrs t) s0 h0 st;
  is_result : addr <$> us = child r :: option_list (sibling r);
  is_fine : Forall (fine s0 (nodes (heap st))) us;
  is_bytes : all_bytes us = room pos size (bytes t);
  is_where u x : u ∈ us → x ∈ addrs u → x ∈ addrs t ∨ next h0 ≤ x;
  is_guarded u : u ∈ us → guarded_at (nodes (heap st)) (addr u) ∨ (addr u = addr t ∧ X (addr t));
  is_cache : ∃ c, cacheNode (this st) = Some c ∧ cached s0 (nodes (heap st)) us base c;
  is_kept x : child r ≠ addr t → ¬ D x;
}.

Lemma in_row_here pre u post : in_row (pre ++ u :: post) (zlen (all_bytes pre)) u.
Proof. exists pre, u, post, 0. split_and!; [done|lia|constructor]. Qed.
Lemma leaf_ok_set n li l : numBytes n = zlen l → memory_ok li l → leaf_ok (set_info (leaf li) n) l.
Proof. intros H1 H2. split; [done|]. by exists li. Qed.
Lemma memory_ok_none cap r l : cap = 0 → l = replicate (length l) None →
  memory_ok {| capacityInBytes := cap; memory := None; cachedRange := r |} l.
Proof. done. Qed.
Lemma memory_ok_gap cap r k : cap = 0 → memory_ok {| capacityInBytes := cap; memory := None; cachedRange := r |} (gap k).
Proof. intros H. split; [done|]. unfold gap. by rewrite length_replicate. Qed.
Lemma none_take k (l : list (option Z)) : l = replicate (length l) None → ztake k l = replicate (length (ztake k l)) None.
Proof. intros H. unfold ztake. rewrite H at 1. by rewrite take_replicate, length_take. Qed.
Lemma none_drop k (l : list (option Z)) : l = replicate (length l) None → zdrop k l = replicate (length (zdrop k l)) None.
Proof. intros H. unfold zdrop. rewrite H at 1. by rewrite drop_replicate, length_drop. Qed.
Lemma none_app (l1 l2 : list (option Z)) : l1 = replicate (length l1) None → l2 = replicate (length l2) None →
  l1 ++ l2 = replicate (length (l1 ++ l2)) None.
Proof. intros H1 H2. by rewrite length_app, replicate_add, <- H1, <- H2. Qed.

Lemma zlen_room pos size l : 0 ≤ pos ≤ zlen l → 0 ≤ size → zlen (room pos size l) = zlen l + size.
Proof. intros. unfold room. rewrite !zlen_app, zlen_ztake, zlen_zdrop, zlen_gap; lia. Qed.

Section leaf_insertion.
Context `{Al : Allocator} (Hal : ∀ n, 0 < n → is_Some (alloc n)).
Context (R O : list Z) (ext : Z → Z) (D X : Z → Prop) (s0 : __CFStorage) (h0 : store) (Hs0 : storage_ok s0).

(** The row of one leaf, and of two. *)
Lemma one_leaf a l l0 pos size base st n li :
  ok R O ext D X (.∈ addrs (TLeaf a l0)) s0 h0 st → nodes (heap st) !! a = Some n → leaf_ok n l → refCount n ≤ 1 →
  0 < zlen l ≤ maxLeafCapacity s0 → (valueSize s0 | zlen l) → l = room pos size l0 →
  cacheNode (this st) = Some a → info n = leaf li → location (cachedRange li) * valueSize s0 = base →
  0 ≤ range_length (cachedRange li) → range_length (cachedRange li) * valueSize s0 ≤ zlen l →
  inserted R O ext D X s0 h0 (TLeaf a l0) pos size base (CFStorageDoubleNodeReturnMake a None) st [TLeaf a l].
Proof.
  intros Hok Hn Hlok Hc Hz Hv Hl Hcache Hi Hloc Hr0 Hr. split.
  - eapply ok_same; [exact Hok|]. ext_eq.
  - done.
  - apply Forall_singleton. by eapply fine_leaf.
  - unfold all_bytes. cbn. by rewrite app_nil_r.
  - intros u x ->%list_elem_of_singleton Hx. left. by rewrite !addrs_leaf in *.
  - intros u ->%list_elem_of_singleton. left. cbn. intros n' Hn'. rewrite Hn in Hn'. injection Hn' as <-. by intros _.
  - exists a. split; [done|]. exists 0, l, n, li. split_and!; try done.
    + apply (in_row_here [] (TLeaf a l) []).
    + lia.
    + intros _. exists (TLeaf a l). split; [left|]. by apply (own_here _ (TLeaf a l) n).
  - intros x H. by destruct H.
Qed.
Lemma two_leaves a b l1 l2 l0 pos size base st n1 n2 c k loc :
  ok R O (ext ⊕ one b) D X (.∈ addrs (TLeaf a l0)) s0 h0 st → next h0 ≤ b → a ≠ b →
  nodes (heap st) !! a = Some n1 → leaf_ok n1 l1 → refCount n1 ≤ 1 →
  nodes (heap st) !! b = Some n2 → leaf_ok n2 l2 → refCount n2 ≤ 1 →
  0 < zlen l1 ≤ maxLeafCapacity s0 → (valueSize s0 | zlen l1) →
  0 < zlen l2 ≤ maxLeafCapacity s0 → (valueSize s0 | zlen l2) → l1 ++ l2 = room pos size l0 →
  cacheNode (this st) = Some c → 0 ≤ k → (valueSize s0 | loc) →
  (c = a ∧ loc = base ∧ k ≤ zlen l1 ∧ (∃ li, info n1 = leaf li ∧ cachedRange li = CFRangeMake (loc / valueSize s0) (k / valueSize s0))) ∨
  (c = b ∧ loc = base + zlen l1 ∧ k ≤ zlen l2 ∧ (∃ li, info n2 = leaf li ∧ cachedRange li = CFRangeMake (loc / valueSize s0) (k / valueSize s0))) →
  inserted R O ext D X s0 h0 (TLeaf a l0) pos size base (CFStorageDoubleNodeReturnMake a (Some b)) st [TLeaf a l1; TLeaf b l2].
Proof.
  intros Hok Hb Hab Hn1 Hlok1 Hc1 Hn2 Hlok2 Hc2 Hz1 Hv1 Hz2 Hv2 Hl Hcache Hk Hloc Hwhich. pose proof (so_size s0 Hs0) as Hvs.
  assert (Hdiv : loc / valueSize s0 * valueSize s0 = loc) by (destruct Hloc as [q ->]; by rewrite Z.div_mul by lia).
  assert (Hkd : 0 ≤ k / valueSize s0 ∧ k / valueSize s0 * valueSize s0 ≤ k).
  { split; [by apply Z.div_pos|]. rewrite Z.mul_comm. by apply Z.mul_div_le. }
  split.
  - eapply ok_same; [exact Hok|]. ext_eq.
  - done.
  - apply Forall_cons. split; [by eapply fine_leaf|]. apply Forall_singleton. by eapply fine_leaf.
  - unfold all_bytes. cbn. by rewrite app_nil_r.
  - intros u x Hu Hx. apply elem_of_cons in Hu as [->|Hu]; [left; by rewrite !addrs_leaf in *|].
    apply list_elem_of_singleton in Hu as ->. right. apply addrs_leaf in Hx as ->. done.
  - intros u Hu. left. apply elem_of_cons in Hu as [->|Hu]; [|apply list_elem_of_singleton in Hu as ->]; cbn; intros n' Hn'.
    + rewrite Hn1 in Hn'. injection Hn' as <-. by intros _.
    + rewrite Hn2 in Hn'. injection Hn' as <-. by intros _.
  - exists c. split; [done|]. destruct Hwhich as [(-> & Eloc & Hkl & li & Hi & Er)|(-> & Eloc & Hkl & li & Hi & Er)].
    + exists 0, l1, n1, li. rewrite Er. cbn. split_and!; try done; try lia.
      * apply (in_row_here [] (TLeaf a l1) [TLeaf b l2]).
      * intros _. exists (TLeaf a l1). split; [left|]. by apply (own_here _ (TLeaf a l1) n1).
    + exists (zlen l1), l2, n2, li. rewrite Er. cbn. split_and!; try done; try lia.
      * pose proof (in_row_here [TLeaf a l1] (TLeaf b l2) []) as H. unfold all_bytes in H. cbn in H. by rewrite app_nil_r in H.
      * intros _. exists (TLeaf b l2). split; [right; left|]. by apply (own_here _ (TLeaf b l2) n2).
  - intros x H. by destruct H.
Qed.

Lemma gap_app j k : 0 ≤ j → 0 ≤ k → gap j ++ gap k = gap (j + k).
Proof. intros Hj Hk. unfold gap. rewrite <- replicate_add. f_equal. lia. Qed.
Lemma below_prefix pos k l m : 0 ≤ pos ≤ zlen l → 0 ≤ k → below l m → pos + k ≤ zlen m → below (ztake pos l ++ gap k) m.
Proof.
  intros Hp Hk H Hm. apply below_app. split; [by apply below_ztake|]. apply below_gap. rewrite zlen_drop.
  pose proof (zlen_ztake pos l Hp) as E. unfold zlen in E at 1. lia.
Qed.
Lemma memory_ok_prefix pos k cap l li li' m' : 0 ≤ pos ≤ zlen l → 0 ≤ k → pos + k ≤ cap →
  memory_ok li l → (∀ l', zlen l' ≤ cap → memory_ok li l' → memory_ok li' l') → memory li' = Some m' → cap ≤ zlen m' →
  memory_ok li' (ztake pos l ++ gap k).
Proof.
  intros Hp Hk Hc Hok Hall Hm' Hz.
  assert (Hpre : memory_ok li (ztake pos l)).
  { unfold memory_ok in *. destruct (memory li) as [m|]; destruct Hok as [H1 H2]; split; [done|by apply below_ztake|done|].
    by apply none_take. }
  specialize (Hall (ztake pos l) ltac:(rewrite zlen_ztake; lia) Hpre). unfold memory_ok in *. rewrite Hm' in *.
  destruct Hall as [H1 H2]. split; [done|]. apply below_app. split; [done|]. apply below_gap. rewrite zlen_drop.
  pose proof (zlen_ztake pos l Hp) as E. unfold zlen in E at 1. lia.
Qed.
Lemma memory_ok_range cap mem r r' l : memory_ok {| capacityInBytes := cap; memory := mem; cachedRange := r |} l →
  memory_ok {| capacityInBytes := cap; memory := mem; cachedRange := r' |} l.
Proof. done. Qed.

(** The bytes from [pos] on go to the new leaf [b], after [off] free ones. *)
Lemma split_memory a b l n nb li pos off cap (Q : () → state → Prop) ext1 st :
  ok R O ext1 D X (.∈ addrs (TLeaf a l)) s0 h0 st → D a → next h0 ≤ b → a ≠ b →
  nodes (heap st) !! a = Some n → info n = leaf li → memory_ok li l →
  nodes (heap st) !! b = Some nb → info nb = leaf empty_leaf → numBytes nb = off + (zlen l - pos) →
  0 ≤ pos < zlen l → 0 ≤ off → off + (zlen l - pos) ≤ maxLeafCapacity s0 → pos ≤ cap ≤ maxLeafCapacity s0 → 0 < cap →
  (∀ st' n' nb' li' lib', ok R O ext1 D X (.∈ addrs (TLeaf a l)) s0 h0 st' → this st' = this st →
     nodes (heap st') !! a = Some n' → n' = set_info (leaf li') n → memory_ok li' (ztake pos l ++ gap (cap - pos)) →
     nodes (heap st') !! b = Some nb' → nb' = set_info (leaf lib') nb → memory_ok lib' (gap off ++ zdrop pos l) →
     Q () st') →
  wp (match memory li with
      | None => mret ()
      | Some m =>
          __CFStorageAllocLeafNodeMemory b (off + (zlen l - pos)) false;;
          COPYMEM (Some m) pos b off (zlen l - pos);;
          __CFStorageAllocLeafNodeMemory a cap false
      end) Q st.
Proof.
  intros Hok HD Hb Hab Hn Hi Hm Hnb Hib Hnum Hpos Hoff Hk Hcap Hcap0 HQ.
  destruct (memory li) as [m|] eqn:Hmem; last first.
  { apply wp_ret. assert (Hl : l = replicate (length l) None) by (unfold memory_ok in Hm; rewrite Hmem in Hm; apply Hm).
    eapply (HQ st n nb li empty_leaf); try done.
    - destruct n; cbn in *. unfold set_info; cbn. by rewrite Hi.
    - unfold memory_ok in *. rewrite Hmem in *. split; [apply Hm|]. apply none_app; [by apply none_take|].
      unfold gap. by rewrite length_replicate.
    - destruct nb; cbn in *. unfold set_info; cbn. by rewrite Hib.
    - split; [done|]. apply none_app; [unfold gap; by rewrite length_replicate|by apply none_drop]. }
  assert (Hbelow : below l m) by (unfold memory_ok in Hm; rewrite Hmem in Hm; apply Hm).
  apply wp_bind. eapply (alloc_ok Hal R D X _ s0 h0 Hs0 O ext1 st b nb empty_leaf []); [done..|by apply memory_ok_none|lia|by left; left|].
  intros lib1 mb st1 -> Hok1 Hkeep1 _ Hmb1 Hzb1. apply wp_bind.
  assert (Eoff : off = zlen (gap off)) by (by rewrite zlen_gap). rewrite Eoff at 1.
  eapply (copy_ok R D X _ s0 h0 O ext1 _ (Some m) m l pos b _ lib1 mb (gap off)); [done|done|done|lk|done|done| |lia|lia|lia| |by left|].
  { apply below_gap. lia. }
  { rewrite zlen_gap; lia. }
  intros mb2 st2 -> Hok2 Hb2 Hz2.
  eapply (alloc_ok Hal R D X _ s0 h0 Hs0 O ext1 _ a n li l cap); [done|lk|done|done|lia|left; right; split; [by apply addrs_leaf|done]|].
  intros li' m' st3 -> Hok3 Hkeep3 _ Hm3 Hz3. eapply HQ; [exact Hok3|done|lk|done| |lk|done|].
  - eapply (memory_ok_prefix pos (cap - pos) cap l li); try done; lia.
  - unfold memory_ok. cbn. rewrite ztake_all in Hb2 by (rewrite zlen_zdrop; lia). split; [|done].
    assert (Hc : capacityInBytes lib1 ≤ zlen mb).
    { specialize (Hkeep1 [] ltac:(rewrite zlen_nil; lia) ltac:(by apply memory_ok_none)). unfold memory_ok in Hkeep1. rewrite Hmb1 in Hkeep1. apply Hkeep1. }
    lia.
Qed.

Lemma range_of s loc nb : same_storage s0 s → 0 ≤ loc → 0 ≤ nb →
  __CFStorageConvertBytesToValueRange s loc nb = CFRangeMake (loc / valueSize s0) (nb / valueSize s0).
Proof.
  intros Hs Hl Hb. rewrite (bytes_to_range s (same_storage_ok _ _ Hs Hs0)) by done.
  by destruct (same_storage_fields _ _ Hs) as (-> & _).
Qed.

(** Room in the leaf itself. *)
Lemma leaf_in_place a l n li pos size base abs st :
  ok R O ext D X (.∈ addrs (TLeaf a l)) s0 h0 st → D a →
  nodes (heap st) !! a = Some n → numBytes n = zlen l → info n = leaf li → memory_ok li l → refCount n ≤ 1 →
  0 ≤ pos ≤ zlen l → 0 < size → size + zlen l ≤ maxLeafCapacity s0 →
  (valueSize s0 | zlen l) → (valueSize s0 | size) → (valueSize s0 | base) → 0 ≤ base → base = abs - pos →
  wp ((match memory li with
       | None => mret ()
       | Some _ =>
           __CFStorageAllocLeafNodeMemory a (zlen l + size) false;;
           m ← memory_of a;
           COPYMEM m pos a (pos + size) (zlen l - pos)
       end);;
      update a (set_numBytes (zlen l + size));;
      __CFStorageSetCache (Some a) (abs - pos);;
      mret (CFStorageDoubleNodeReturnMake a None))
    (λ r st', inserted R O ext D X s0 h0 (TLeaf a l) pos size base r st' [TLeaf a (room pos size l)]) st.
Proof.
  intros Hok HD Hn Hnum Hi Hm Hc Hpos Hsize Hmax Hvl Hvs Hvb Hb0 ->. pose proof (so_size s0 Hs0) as Hv.
  assert (Hmine : mine D (.∈ addrs (TLeaf a l)) h0 a) by (right; split; [by apply addrs_leaf|done]).
  assert (Hz : zlen (room pos size l) = zlen l + size) by (apply zlen_room; lia).
  apply wp_bind.
  assert (Hfinish : ∀ li' st1, ok R O ext D X (.∈ addrs (TLeaf a l)) s0 h0 st1 → memory_ok li' (room pos size l) →
    nodes (heap st1) !! a = Some (set_info (leaf li') n) →
    wp (update a (set_numBytes (zlen l + size));;
        __CFStorageSetCache (Some a) (abs - pos);; mret (CFStorageDoubleNodeReturnMake a None))
      (λ r st', inserted R O ext D X s0 h0 (TLeaf a l) pos size (abs - pos) r st' [TLeaf a (room pos size l)]) st1).
  { intros li' st1 Hok1 Hm1 Hn1. apply wp_bind. eapply wp_put; [done|].
    pose proof (ok_put_mine R D X _ s0 h0 O ext st1 a _ (set_numBytes (zlen l + size) (set_info (leaf li') n)) Hok1 Hn1
      (or_intror eq_refl) eq_refl Hmine) as Hok2.
    apply wp_bind. eapply (set_cache_ok R D X _ s0 h0 O ext _ a (abs - pos)); [exact Hok2|lk|done|done|].
    intros st3 -> Hok3. apply wp_ret.
    eapply one_leaf; [exact Hok3|cbn; apply lookup_insert_eq| |cbn; exact Hc| | |done|done|done| | |]; cbn.
    - split; [cbn; lia|]. eexists. split; [done|]. cbn. exact Hm1.
    - lia.
    - rewrite Hz. by apply Z.divide_add_r.
    - rewrite (range_of _ _ _ (ok_this _ _ _ _ _ _ _ _ _ Hok1)) by lia. cbn. destruct Hvb as [q ->]. by rewrite Z.div_mul by lia.
    - rewrite (range_of _ _ _ (ok_this _ _ _ _ _ _ _ _ _ Hok1)) by lia. apply Z.div_pos; lia.
    - rewrite (range_of _ _ _ (ok_this _ _ _ _ _ _ _ _ _ Hok1)) by lia. cbn. rewrite Hz, Z.mul_comm. by apply Z.mul_div_le. }
  destruct (memory li) as [m|] eqn:Hmem.
  - apply wp_bind. eapply (alloc_ok Hal R D X _ s0 h0 Hs0 O ext st a n li l); [done..|lia|by left|].
    intros li' m' st1 -> Hok1 Hkeep Hr Hm' Hzm. apply wp_bind. unfold memory_of. apply wp_bind. eapply wp_load; [lk|].
    apply wp_bind. eapply wp_leaf_of; [done|]. apply wp_ret. rewrite Hm'.
    pose proof (Hkeep l ltac:(lia) Hm) as Hml. unfold memory_ok in Hml. rewrite Hm' in Hml. destruct Hml as [Hcap Hbl].
    replace (pos + size) with (zlen (ztake pos l ++ gap size)) at 1 by (rewrite zlen_app, zlen_ztake, zlen_gap; lia).
    eapply (copy_ok R D X _ s0 h0 O ext _ (Some m') m' l pos a _ li' m'); [done|done|done|lk|done|done| |lia|lia|lia| |done|].
    { apply below_prefix; [lia|lia|done|lia]. }
    { rewrite zlen_app, zlen_ztake, zlen_gap; lia. }
    intros md st2 -> Hok2 Hb2 Hz2. eapply Hfinish; [exact Hok2| |lk].
    unfold memory_ok. cbn. rewrite (ztake_all (zlen l - pos)) in Hb2 by (rewrite zlen_zdrop; lia). rewrite <- app_assoc in Hb2. split; [lia|done].
  - apply wp_ret. eapply (Hfinish li); [done| |].
    + unfold memory_ok in *. rewrite Hmem in *. destruct Hm as [Hm1 Hm2]. split; [done|]. unfold room.
      apply none_app; [by apply none_take|]. apply none_app; [unfold gap; by rewrite length_replicate|by apply none_drop].
    + rewrite Hn. f_equal. destruct n; cbn in *. unfold set_info; cbn. by rewrite Hi.
Qed.

(** A leaf that overflows becomes two. *)
Section overflow.
Context (a : Z) (l : list (option Z)) (n : CFStorageNode) (li : leaf_info) (pos size base abs : Z) (st : state).
Context (Hok : ok R O ext D X (.∈ addrs (TLeaf a l)) s0 h0 st) (HD : D a).
Context (Hn : nodes (heap st) !! a = Some n) (Hnum : numBytes n = zlen l) (Hi : info n = leaf li) (Hm : memory_ok li l).
Context (Hc : refCount n ≤ 1) (Hpos : 0 ≤ pos ≤ zlen l) (Hsize : 0 < size ≤ maxLeafCapacity s0).
Context (Hlmax : zlen l ≤ maxLeafCapacity s0) (Hover : maxLeafCapacity s0 < size + zlen l).
Context (Hvl : (valueSize s0 | zlen l)) (Hvs : (valueSize s0 | size)) (Hvp : (valueSize s0 | pos)) (Hvb : (valueSize s0 | base)).
Context (Hb0 : 0 ≤ base) (Ebase : base = abs - pos).

Definition leaf_inserted (newNode : Z) (st' : state) : Prop :=
  ∃ us, inserted R O ext D X s0 h0 (TLeaf a l) pos size base (CFStorageDoubleNodeReturnMake a (Some newNode)) st' us.

Lemma overflow_facts : mine D (.∈ addrs (TLeaf a l)) h0 a ∧ a < next (heap st) ∧ next h0 ≤ next (heap st) ∧ 0 < valueSize s0.
Proof.
  split_and!.
  - right. split; [by apply addrs_leaf|done].
  - apply (inv_dom _ _ _ _ (ok_inv _ _ _ _ _ _ _ _ _ Hok) a n Hn).
  - apply (ev_next _ _ _ _ _ (ok_ev _ _ _ _ _ _ _ _ _ Hok)).
  - apply (so_size s0 Hs0).
Qed.

Lemma insert_at_end : pos = zlen l →
  wp (newNode ← __CFStorageCreateNode true size;
      __CFStorageSetCache (Some newNode) abs;;
      mret newNode) leaf_inserted st.
Proof.
  destruct overflow_facts as (Hmine & Hdom & Hnext & Hv). intros Epos.
  apply wp_bind. eapply (create_node_ok Hal R D X _ s0 h0 O ext); [done|]. intros b st1 -> -> Hok1.
  apply wp_bind. eapply (set_cache_ok R D X _ s0 h0 O _ _ (next (heap st)) abs); [exact Hok1|lk|done|by left|].
  intros st2 -> Hok2. apply wp_ret. exists [TLeaf a l; TLeaf (next (heap st)) (gap size)].
  eapply two_leaves with (k := size) (loc := abs); [exact Hok2|done|lia|lk|by split; [done|exists li]|done|cbn; apply lookup_insert_eq|..].
  - split; [cbn; by rewrite zlen_gap by lia|]. eexists. split; [done|]. by apply memory_ok_gap.
  - cbn. lia.
  - lia.
  - done.
  - rewrite zlen_gap; lia.
  - by rewrite zlen_gap by lia.
  - unfold room. by rewrite Epos, ztake_all, zdrop_all, app_nil_r by lia.
  - done.
  - lia.
  - replace abs with (base + zlen l) by lia. by apply Z.divide_add_r.
  - right. split_and!; [done|lia|rewrite zlen_gap; lia|]. eexists. split; [done|]. cbn.
    apply range_of; [apply (ok_this _ _ _ _ _ _ _ _ _ Hok)|lia|lia].
Qed.
Lemma insert_at_front : pos = 0 → pos ≠ zlen l →
  wp (newNode ← __CFStorageCreateNode true 0;
      update newNode (set_numBytes (zlen l));;
      update newNode (set_info (leaf {| capacityInBytes := capacityInBytes li; memory := memory li;
                                        cachedRange := CFRangeMake 0 0 |}));;
      update a (set_numBytes size);;
      update a (set_info (leaf {| capacityInBytes := 0; memory := None; cachedRange := cachedRange li |}));;
      __CFStorageSetCache (Some a) abs;;
      mret newNode) leaf_inserted st.
Proof.
  destruct overflow_facts as (Hmine & Hdom & Hnext & Hv). intros Epos Hne.
  apply wp_bind. eapply (create_node_ok Hal R D X _ s0 h0 O ext); [done|]. intros b st1 -> -> Hok1.
  apply wp_bind. eapply wp_put; [cbn; apply lookup_insert_eq|]. apply wp_bind. eapply wp_put; [cbn; apply lookup_insert_eq|].
  apply wp_bind. eapply wp_put; [lk|]. apply wp_bind. eapply wp_put; [cbn; apply lookup_insert_eq|].
  apply wp_bind.
  eapply (ok_put_mine _ _ _ _ _ _ _ _ _ (next (heap st)) _ (set_numBytes (zlen l) (new_node (this st) true 0))) in Hok1; [|cbn; apply lookup_insert_eq|by right|done|by left].
  eapply (ok_put_mine _ _ _ _ _ _ _ _ _ (next (heap st)) _ (set_info (leaf {| capacityInBytes := capacityInBytes li; memory := memory li;
     cachedRange := CFRangeMake 0 0 |}) (set_numBytes (zlen l) (new_node (this st) true 0)))) in Hok1; [|cbn; apply lookup_insert_eq|by right|done|by left].
  eapply (ok_put_mine _ _ _ _ _ _ _ _ _ a _ (set_numBytes size n)) in Hok1; [|lk|by right|done|done].
  eapply (ok_put_mine _ _ _ _ _ _ _ _ _ a _ (set_info (leaf {| capacityInBytes := 0; memory := None; cachedRange := cachedRange li |})
     (set_numBytes size n))) in Hok1; [|cbn; apply lookup_insert_eq|right; unfold slots; cbn; by rewrite Hi|done|done].
  eapply (set_cache_ok R D X _ s0 h0 O _ _ a abs); [exact Hok1|cbn; apply lookup_insert_eq|done|done|].
  intros st2 -> Hok2. apply wp_ret. exists [TLeaf a (gap size); TLeaf (next (heap st)) l].
  eapply two_leaves with (k := size) (loc := abs); [exact Hok2|done|lia|cbn; apply lookup_insert_eq| |exact Hc|lk|..].
  - split; [cbn; by rewrite zlen_gap by lia|]. eexists. split; [done|]. by apply memory_ok_gap.
  - split; [done|]. eexists. split; [done|]. exact Hm.
  - cbn. lia.
  - rewrite zlen_gap; lia.
  - by rewrite zlen_gap by lia.
  - lia.
  - done.
  - unfold room. by rewrite Epos, ztake_0, zdrop_0.
  - done.
  - lia.
  - by replace abs with base by lia.
  - left. split_and!; [done|lia|rewrite zlen_gap; lia|]. eexists. split; [done|]. cbn.
    apply range_of; [apply (ok_this _ _ _ _ _ _ _ _ _ Hok)|lia|lia].
Qed.
Lemma insert_fits_left : pos ≠ zlen l → pos ≠ 0 → pos + size ≤ maxLeafCapacity s0 →
  wp (newNode ← __CFStorageCreateNode true (zlen l - pos);
      (match memory li with
       | None => mret ()
       | Some m =>
           __CFStorageAllocLeafNodeMemory newNode (zlen l - pos) false;;
           COPYMEM (Some m) pos newNode 0 (zlen l - pos);;
           __CFStorageAllocLeafNodeMemory a (pos + size) false
       end);;
      update a (set_numBytes (pos + size));;
      __CFStorageSetCache (Some a) (abs - pos);;
      mret newNode) leaf_inserted st.
Proof.
  destruct overflow_facts as (Hmine & Hdom & Hnext & Hv). intros Hne Hpos0 Hle. apply wp_bind. eapply (create_node_ok Hal R D X _ s0 h0 O ext); [done|]. intros b st1 -> -> Hok1. apply wp_bind.
  eapply (split_memory a (next (heap st)) l n _ li pos 0 (pos + size)); [exact Hok1|done|lia|lia|lk|done|done|cbn; apply lookup_insert_eq|done|cbn; lia|lia..|].
  intros st2 na nb li' lib' Hok2 Ht Hna Ena Hma Hnb Enb Hmb. subst na nb. replace (pos + size - pos) with size in Hma by lia.
  apply wp_bind. eapply wp_put; [done|].
  eapply (ok_put_mine _ _ _ _ _ _ _ _ _ a _ (set_numBytes (pos + size) (set_info (leaf li') n))) in Hok2; [|done|by right|done|done].
  apply wp_bind. eapply (set_cache_ok R D X _ s0 h0 O _ _ a (abs - pos)); [exact Hok2|cbn; apply lookup_insert_eq|done|done|].
  intros st3 -> Hok3. apply wp_ret. exists [TLeaf a (ztake pos l ++ gap size); TLeaf (next (heap st)) (zdrop pos l)].
  assert (Hz1 : zlen (ztake pos l ++ gap size) = pos + size) by (rewrite zlen_app, zlen_ztake, zlen_gap; lia).
  assert (Hz2 : zlen (zdrop pos l) = zlen l - pos) by (rewrite zlen_zdrop; lia).
  eapply two_leaves with (k := pos + size) (loc := abs - pos); [exact Hok3|done|lia|cbn; apply lookup_insert_eq| |exact Hc| |..].
  - split; [cbn; lia|]. eexists. split; [done|]. exact Hma.
  - cbn. rewrite !lookup_insert_ne by lia. exact Hnb.
  - split; [cbn; lia|]. eexists. split; [done|]. exact Hmb.
  - cbn. lia.
  - lia.
  - rewrite Hz1. by apply Z.divide_add_r.
  - lia.
  - rewrite Hz2. by apply Z.divide_sub_r.
  - unfold room. by rewrite <- app_assoc.
  - done.
  - lia.
  - by replace (abs - pos) with base by lia.
  - left. split_and!; [done|lia|lia|]. eexists. split; [done|]. cbn. rewrite Ht.
    apply range_of; [apply (ok_this _ _ _ _ _ _ _ _ _ Hok)|lia|lia].
Qed.
Lemma insert_over_left : pos ≠ zlen l → maxLeafCapacity s0 < pos + size →
  wp (newNode ← __CFStorageCreateNode true (zlen l + size - maxLeafCapacity s0);
      (match memory li with
       | None => mret ()
       | Some m =>
           __CFStorageAllocLeafNodeMemory newNode (zlen l + size - maxLeafCapacity s0) false;;
           COPYMEM (Some m) pos newNode (pos + size - maxLeafCapacity s0) (zlen l - pos);;
           __CFStorageAllocLeafNodeMemory a (maxLeafCapacity s0) false
       end);;
      __CFStorageSetCache (Some a) (abs - pos);;
      update a (set_numBytes (maxLeafCapacity s0));;
      mret newNode) leaf_inserted st.
Proof.
  destruct overflow_facts as (Hmine & Hdom & Hnext & Hv). intros Hne Hgt. set (m := maxLeafCapacity s0) in *. replace (zlen l + size - m) with (pos + size - m + (zlen l - pos)) by lia.
  apply wp_bind. eapply (create_node_ok Hal R D X _ s0 h0 O ext); [done|]. intros b st1 -> -> Hok1. apply wp_bind.
  eapply (split_memory a (next (heap st)) l n _ li pos (pos + size - m) m); [exact Hok1|done|lia|lia|lk|done|done|cbn; apply lookup_insert_eq|done|cbn; lia|fold m; lia..|].
  intros st2 na nb li' lib' Hok2 Ht Hna Ena Hma Hnb Enb Hmb. subst na nb.
  apply wp_bind. eapply (set_cache_ok R D X _ s0 h0 O _ _ a (abs - pos)); [exact Hok2|done|done|done|].
  intros st3 -> Hok3. apply wp_bind. eapply wp_put; [cbn; apply lookup_insert_eq|].
  eapply (ok_put_mine _ _ _ _ _ _ _ _ _ a _ (set_numBytes m _)) in Hok3; [|cbn; apply lookup_insert_eq|by right|done|done].
  apply wp_ret. exists [TLeaf a (ztake pos l ++ gap (m - pos)); TLeaf (next (heap st)) (gap (pos + size - m) ++ zdrop pos l)].
  assert (Hz1 : zlen (ztake pos l ++ gap (m - pos)) = m) by (rewrite zlen_app, zlen_ztake, zlen_gap; lia).
  assert (Hz2 : zlen (gap (pos + size - m) ++ zdrop pos l) = size + zlen l - m) by (rewrite zlen_app, zlen_zdrop, zlen_gap; lia).
  eapply two_leaves with (k := zlen l) (loc := abs - pos); [exact Hok3|done|lia|cbn; apply lookup_insert_eq| |exact Hc| |..]; fold m.
  - split; [cbn; lia|]. eexists. split; [done|]. exact Hma.
  - cbn. rewrite !lookup_insert_ne by lia. exact Hnb.
  - split; [cbn; lia|]. eexists. split; [done|]. exact Hmb.
  - cbn. lia.
  - lia.
  - rewrite Hz1. apply (so_divides s0 Hs0).
  - lia.
  - rewrite Hz2. apply Z.divide_sub_r; [by apply Z.divide_add_r|apply (so_divides s0 Hs0)].
  - unfold room. rewrite <- app_assoc. f_equal. rewrite app_assoc, gap_app by lia. do 2 f_equal. lia.
  - done.
  - lia.
  - by replace (abs - pos) with base by lia.
  - left. split_and!; [done|lia|lia|]. eexists. split; [done|]. cbn. rewrite Ht, Hnum.
    apply range_of; [apply (ok_this _ _ _ _ _ _ _ _ _ Hok)|lia|lia].
Qed.
End overflow.

Lemma insert_leaf_unfrozen_ok a l n pos size base abs st :
  ok R O ext D X (.∈ addrs (TLeaf a l)) s0 h0 st → D a →
  nodes (heap st) !! a = Some n → leaf_ok n l → refCount n ≤ 1 →
  0 ≤ pos ≤ zlen l → 0 < size ≤ maxLeafCapacity s0 → zlen l ≤ maxLeafCapacity s0 →
  (valueSize s0 | zlen l) → (valueSize s0 | size) → (valueSize s0 | pos) → (valueSize s0 | base) → 0 ≤ base → base = abs - pos →
  wp (__CFStorageInsertLeafUnfrozen a pos size abs)
    (λ r st', ∃ us, inserted R O ext D X s0 h0 (TLeaf a l) pos size base r st' us) st.
Proof.
  intros Hok HD Hn [Hnum (li & Hi & Hm)] Hc Hpos Hsize Hlmax Hvl Hvs Hvp Hvb Hb0 Ebase. pose proof (so_size s0 Hs0) as Hv.
  pose proof (same_storage_fields _ _ (ok_this _ _ _ _ _ _ _ _ _ Hok)) as (_ & _ & _ & Emax & _).
  unfold __CFStorageInsertLeafUnfrozen. apply wp_bind, wp_self, wp_bind. eapply wp_load; [done|].
  apply wp_bind. eapply wp_leaf_of; [done|]. rewrite Emax, Hnum.
  destruct (Z.ltb_spec (maxLeafCapacity s0) (size + zlen l)) as [Hover|Hfit].
  - apply wp_bind. eapply (wp_mono _ (leaf_inserted a l pos size base)); [|intros b st' H; by apply wp_ret].
    repeat match goal with |- context [?x =? ?y] => destruct (Z.eqb_spec x y) end; [by eapply insert_at_end|by eapply insert_at_front|].
    destruct (Z.leb_spec (pos + size) (maxLeafCapacity s0)); [by eapply insert_fits_left|by eapply insert_over_left].
  - eapply wp_mono; [eapply (leaf_in_place a l n li pos size base abs st); try done; lia|]. intros r st' H. eexists. exact H.
Qed.
End leaf_insertion.
