(* ===== verification/StorageBranch.v ===== *)
(** * Insertion below a branch of a CFStorage

    The children of a branch are taken over, the insertion is made in one of
    them, and they are linked to the branch again, or to it and a new one. *)
From S2P Require Import Prelude Storage StorageSpec StorageOps StorageInsert.
From stdpp Require Import gmap list.
Open Scope Z_scope.

(** ** Taking over the children of a node *)
Section taking.
Context (R : list Z) (D X Rch : Z → Prop) (s0 : __CFStorage) (h0 : store).
Abbreviation okay O ext st := (ok R O ext D X Rch s0 h0 st).

Lemma ok_open O ext st a n ts :
  okay O ext st → nodes (heap st) !! a = Some n → info n = notLeaf (pad ts) → a ∉ O → okay (a :: O) (ext ⊕ kids_ext ts) st.
Proof.
  intros [H1 H2 H3] Hn Hi Ha. split; [done| |done]. refine (inv_same _ _ _ _ _ _ (inv_open R O ext _ a n H2 Hn Ha)).
  intros x. unfold eplus. by rewrite (slots_pad n ts Hi), occ_pad.
Qed.
Lemma ok_open_empty O ext st a n :
  okay O ext st → nodes (heap st) !! a = Some n → info n = notLeaf no_children → a ∉ O → okay (a :: O) ext st.
Proof.
  intros Hok Hn Hi Ha. eapply ok_same; [by apply (ok_open O ext st a n [])|]. intros x. unfold eplus, kids_ext. cbn. lia.
Qed.
Lemma ok_close O ext st a n ts :
  okay (a :: O) (ext ⊕ kids_ext ts) st → nodes (heap st) !! a = Some n → info n = notLeaf (pad ts) → a ∉ O →
  (∀ x, 0 ≤ ext x) → (a ∉ R → 0 < refCount n) → okay O ext st.
Proof.
  intros [H1 H2 H3] Hn Hi Ha Hext Hpos. split; [done| |done].
  assert (Hocc : ∀ x, occ x (slots n) = kids_ext ts x) by (intros x; by rewrite (slots_pad n ts Hi), occ_pad).
  refine (inv_same _ _ _ _ _ _ (inv_close R O (ext ⊕ kids_ext ts) _ a n H2 Hn Ha _ Hpos)).
  - intros x. unfold eplus, eminus. rewrite Hocc. lia.
  - intros x. unfold eplus. rewrite Hocc. specialize (Hext x). lia.
Qed.
Lemma ok_after O ext O1 ext1 D1 X1 R1 s1 st st' :
  okay O ext st → ok R O1 ext1 D1 X1 R1 s1 (heap st) st' → same_storage s1 (this st) →
  (∀ b, b < next h0 → D1 b → D b) → (∀ b, b < next h0 → X1 b → X b) → (∀ b, b < next h0 → R1 b → Rch b) → okay O1 ext1 st'.
Proof.
  intros [H1 H2 H3] [K1 K2 K3] Hs HD HX HR. split; [|done|].
  - unfold same_storage in *. congruence.
  - eapply evolves_trans; [done..| | |]; intros b Hb [?|?]; auto.
Qed.
End taking.

Lemma kids_ext_addrs ts us x : addr <$> ts = addr <$> us → kids_ext ts x = kids_ext us x.
Proof.
  revert us. induction ts as [|t ts IH]; intros [|u us] H; try done. injection H as H1 H2.
  rewrite !kids_ext_cons, H1. f_equal. by apply IH.
Qed.
Lemma kids_ext_split ts i u us x : ts !! i = Some u →
  kids_ext (take i ts ++ us ++ drop (S i) ts) x = kids_ext ts x - one (addr u) x + kids_ext us x.
Proof.
  intros Hi. rewrite <- (take_drop_middle ts i u Hi) at 3. rewrite !kids_ext_app, kids_ext_cons. lia.
Qed.
Lemma other_kid (ts : list tree) i j u v : ts !! i = Some u → ts !! j = Some v → i ≠ j → v ∈ take i ts ++ drop (S i) ts.
Proof.
  intros Hi Hj Hij. rewrite <- (take_drop_middle ts i u Hi) in Hj. pose proof (lookup_lt_Some _ _ _ Hi). apply elem_of_app.
  destruct (decide (j < i)%nat) as [Hlt|Hlt].
  - left. rewrite lookup_app_l in Hj by (rewrite length_take; lia). by eapply list_elem_of_lookup_2.
  - right. rewrite lookup_app_r, length_take, Nat.min_l in Hj by (rewrite ?length_take; lia).
    destruct (j - i)%nat eqn:Ej; [lia|]. by eapply list_elem_of_lookup_2.
Qed.
Lemma kids_ext_two ts i j u v : ts !! i = Some u → ts !! j = Some v → i ≠ j → addr u = addr v → 2 ≤ kids_ext ts (addr u).
Proof.
  intros Hi Hj Hij E. pose proof (kids_ext_split ts i u [] (addr u) Hi) as H. cbn in H.
  pose proof (other_kid ts i j u v Hi Hj Hij) as Hv.
  pose proof (kids_ext_elem _ v Hv) as H1. rewrite <- E in H1. unfold one in H. rewrite decide_True in H by done.
  change (kids_ext [] (addr u)) with 0 in H. lia.
Qed.

(** ** The children of an open branch *)
Section kids.
Context (R O : list Z) (ext : Z → Z) (s0 : __CFStorage) (h : store) (a : Z) (ts : list tree).
Context (Hext : ∀ x, 0 ≤ ext x) (Hinv : inv R (a :: O) (ext ⊕ kids_ext ts) h).
Context (Hsound : every (sound (nodes h)) (TNode a ts)) (HO : ∀ x, x ∈ addrs (TNode a ts) → x ∉ O).

Lemma open_apart u x : u ∈ ts → x ∈ addrs u → x ∉ a :: O.
Proof.
  intros Hu Hx. apply not_elem_of_cons. split.
  - intros ->. by apply (no_cycle (nodes h) a ts u (sound_every_linked _ _ Hsound) Hu).
  - apply HO, addrs_node. right. by exists u.
Qed.
Lemma kid_linked u : u ∈ ts → every (linked (nodes h)) u.
Proof. intros Hu. pose proof (sound_every_linked _ _ Hsound) as H. apply every_node in H as [_ H]. by apply (proj1 (Forall_forall _ _) H). Qed.
Lemma kid_sound u : u ∈ ts → every (sound (nodes h)) u.
Proof. intros Hu. pose proof Hsound as H. apply every_node in H as [_ H]. by apply (proj1 (Forall_forall _ _) H). Qed.
Lemma kid_guarded u : u ∈ ts → guarded_at (nodes h) (addr u).
Proof. intros Hu. apply every_here in Hsound as [_ H]. by apply (proj1 (Forall_forall _ _) H). Qed.
Lemma kid_held u : u ∈ ts → held R (ext ⊕ kids_ext ts) (addr u).
Proof. intros Hu. right. unfold eplus. pose proof (kids_ext_elem ts u Hu). specialize (Hext (addr u)). lia. Qed.
Lemma kid_not_root u : u ∈ ts → addr u ∉ R.
Proof.
  intros Hu Hr. destruct (inv_root _ _ _ _ Hinv _ Hr) as (_ & H & _). unfold eplus in H.
  pose proof (kids_ext_elem ts u Hu). specialize (Hext (addr u)). lia.
Qed.
Lemma kid_dom u x : u ∈ ts → x ∈ addrs u → x < next h.
Proof. intros Hu. apply (linked_dom R (a :: O) (ext ⊕ kids_ext ts)); [done|by apply kid_linked]. Qed.

Lemma kids_apart i j u v x : ts !! i = Some u → ts !! j = Some v → i ≠ j → own (nodes h) u x → x ∉ addrs v.
Proof.
  intros Hi Hj Hij. assert (Hu : u ∈ ts) by (by eapply list_elem_of_lookup_2). assert (Hv : v ∈ ts) by (by eapply list_elem_of_lookup_2).
  apply (own_apart R (a :: O) (ext ⊕ kids_ext ts)); [done|by apply kid_linked|by apply kid_linked| |by apply kid_held|by apply kid_held|].
  - intros y [Hy|Hy]; [by apply (open_apart u)|by apply (open_apart v)].
  - intros E. unfold eplus. pose proof (kids_ext_two ts i j u v Hi Hj Hij E). specialize (Hext (addr u)). lia.
Qed.

(** The siblings of the child that changes. *)
Lemma siblings_fine D X Rch ext2 h2 i u j v :
  fine s0 (nodes h) v → ts !! i = Some u → ts !! j = Some v → i ≠ j →
  evolves D X Rch h h2 → inv R (a :: O) ext2 h2 → 1 ≤ ext2 (addr v) →
  (∀ x, D x → own (nodes h) u x) → (∀ x, ¬ X x) → (∀ x, Rch x → x ∈ addrs u) →
  fine s0 (nodes h2) v ∧ guarded_at (nodes h2) (addr v).
Proof.
  intros [F1 F2 F3] Hi Hj Hij Hev Hinv2 Hv2 HD HX HR. assert (Hv : v ∈ ts) by (by eapply list_elem_of_lookup_2).
  assert (HDv : ∀ x, x ∈ addrs v → ¬ D x) by (intros x Hx Hd; by apply (kids_apart i j u v x Hi Hj Hij (HD x Hd))).
  assert (Hs : every (sound (nodes h2)) v).
  { eapply (frame_sound R); [exact Hev|exact Hinv|exact Hinv2|done| |].
    - intros x Hx. split_and!; [by apply HDv|by right|by apply (open_apart v)].
    - eapply (held_live R); [exact Hinv2|by right]. }
  split; [split|].
  - done.
  - done.
  - eapply frame_ready; [exact Hev|by apply sound_every_linked|done| |].
    + intros x Hx. split; [by apply (kid_dom v)|by apply HDv].
    + intros x Ho Hr. by apply (kids_apart j i v u x Hj Hi (not_eq_sym Hij) Ho), HR.
  - intros n' Hn'. destruct (ev_in _ _ _ _ _ Hev (addr v) n') as (n & Hn & _ & Hg); [apply (kid_dom v); [done|apply addr_addrs]|apply HDv, addr_addrs|done|].
    apply Hg; [by apply HX|]. by apply (kid_guarded v).
Qed.
End kids.

(** ** The cache of a row *)
Lemma in_row_elem us off x : in_row us off x → ∃ u, u ∈ us ∧ addr x ∈ addrs u.
Proof.
  intros (pre & u & post & o & -> & _ & H). exists u. split; [apply elem_of_app; right; left|]. clear off.
  induction H as [t|b pre' v post' o s _ IH]; [apply addr_addrs|]. apply addrs_node. right. exists v.
  split; [apply elem_of_app; right; left|done].
Qed.
Lemma cached_keep s m m' us base c :
  cached s m us base c →
  (∀ n, m !! c = Some n → ∃ n', m' !! c = Some n' ∧ info n' = info n ∧ (isFrozen n' = false → isFrozen n = false)) →
  (∀ u x, u ∈ us → own m u x → m' !! x = m !! x) → cached s m' us base c.
Proof.
  intros (off & l & n & li & Hr & Hn & Hi & H1 & H2 & H3 & Ho) Hc Hsame. destruct (Hc n Hn) as (n' & Hn' & Hi' & Hf).
  exists off, l, n', li. split_and!; try done; [congruence|]. intros Hf'. destruct (Ho (Hf Hf')) as (u & Hu & Hown).
  exists u. split; [done|]. apply (frame_own m); [|done]. intros y Hy. by apply (Hsame u).
Qed.
Lemma in_row_wider pre us post off x : in_row us off x → in_row (pre ++ us ++ post) (zlen (all_bytes pre) + off) x.
Proof.
  intros (p & u & q & o & -> & -> & H). exists (pre ++ p), u, (q ++ post), o. split_and!; [|rewrite all_bytes_app, zlen_app; lia|done].
  by rewrite <- !app_assoc.
Qed.
Lemma cached_wider s m pre us post base c :
  cached s m us (base + zlen (all_bytes pre)) c → cached s m (pre ++ us ++ post) base c.
Proof.
  intros (off & l & n & li & Hr & Hn & Hi & H1 & H2 & H3 & Ho). exists (zlen (all_bytes pre) + off), l, n, li.
  split_and!; try done; [by apply in_row_wider|lia|]. intros Hf. destruct (Ho Hf) as (u & Hu & Hown). exists u. split; [|done].
  apply elem_of_app. right. apply elem_of_app. by left.
Qed.
(** Rows put under nodes of their own. *)
Lemma in_row_under a ts off x : in_row ts off x → at_offset (TNode a ts) off x.
Proof. intros (pre & u & post & o & -> & -> & H). by apply at_kid. Qed.
Lemma in_row_one a ts off x : in_row ts off x → in_row [TNode a ts] off x.
Proof. intros H. exists [], (TNode a ts), [], off. split_and!; [done|done|by apply in_row_under]. Qed.
Lemma in_row_two a b ts us off x : in_row (ts ++ us) off x → in_row [TNode a ts; TNode b us] off x.
Proof.
  intros (pre & u & post & o & E & -> & Hat). apply app_eq_inv in E as [(k & Ets & Eus)|(k & Epre & Eus)].
  - destruct k as [|v k]; [rewrite app_nil_r in Ets; cbn in Eus; subst ts us|injection Eus as -> ->; subst ts].
    + exists [TNode a pre], (TNode b (u :: post)), [], (zlen (all_bytes []) + o). split_and!; [done| |by apply (at_kid b [])].
      unfold all_bytes. cbn. rewrite app_nil_r. change (zlen []) with 0. lia.
    + exists [], (TNode a (pre ++ v :: k)), [TNode b us], (zlen (all_bytes pre) + o). split_and!; [done|done|by apply at_kid].
  - subst pre us. exists [TNode a ts], (TNode b (k ++ u :: post)), [], (zlen (all_bytes k) + o). split_and!; [done| |by apply at_kid].
    rewrite all_bytes_app, zlen_app. unfold all_bytes. cbn. rewrite app_nil_r. lia.
Qed.
Lemma cached_one s m ts base c a : single m a → cached s m ts base c → cached s m [TNode a ts] base c.
Proof.
  intros (na & Hna & Hca) (off & l & n & li & Hr & Hn & Hi & H1 & H2 & H3 & Ho). exists off, l, n, li. split_and!; try done.
  - by apply in_row_one.
  - intros Hf. destruct (Ho Hf) as (u & Hu & Hown). exists (TNode a ts). split; [left|]. by apply (own_kid _ a ts u na).
Qed.
Lemma cached_two s m ts us base c a b : single m a → single m b →
  cached s m (ts ++ us) base c → cached s m [TNode a ts; TNode b us] base c.
Proof.
  intros (na & Hna & Hca) (nb & Hnb & Hcb) (off & l & n & li & Hr & Hn & Hi & H1 & H2 & H3 & Ho).
  exists off, l, n, li. split_and!; try done; [by apply in_row_two|]. intros Hf. destruct (Ho Hf) as (v & [Hv|Hv]%elem_of_app & Hown).
  - exists (TNode a ts). split; [left|]. by apply (own_kid _ a ts v na).
  - exists (TNode b us). split; [right; left|]. by apply (own_kid _ b us v nb).
Qed.

(** ** A child replaced by the result of an insertion *)

Record settled (R O : list Z) (E : Z → Z) (D Rch : Z → Prop) (s0 : __CFStorage) (h : store) (row : list tree) (base : Z) (st : state) : Prop := {
  se_ok : ok R O E D nowhere Rch s0 h st;
  se_fine : Forall (fine s0 (nodes (heap st))) row;
  se_guarded : Forall (λ v, guarded_at (nodes (heap st)) (addr v)) row;
  se_cache : ∃ c, cacheNode (this st) = Some c ∧ cached s0 (nodes (heap st)) row base c;
}.

Section replaced.
Context (R O : list Z) (ext : Z → Z) (s0 : __CFStorage) (h : store) (a : Z) (ts : list tree).
Context (Hext : ∀ x, 0 ≤ ext x) (Hinv : inv R (a :: O) (ext ⊕ kids_ext ts) h).
Context (Hsound : every (sound (nodes h)) (TNode a ts)) (HO : ∀ x, x ∈ addrs (TNode a ts) → x ∉ O).
Context (i : nat) (u : tree) (Hi : ts !! i = Some u).
Context (pos size base : Z) (r : CFStorageDoubleNodeReturn) (st : state) (us : list tree).
Context (Hins : inserted R (a :: O) (ext ⊕ kids_ext ts) (own (nodes h) u) nowhere s0 h u pos size base r st us).

Definition row : list tree := take i ts ++ us ++ drop (S i) ts.

Lemma result_ext x : kids_ext us x = one (child r) x + maybe_one (sibling r) x.
Proof.
  pose proof (is_result _ _ _ _ _ _ _ _ _ _ _ _ _ _ Hins) as E.
  assert (H : ∀ vs, kids_ext vs x = zsum (λ b, one b x) (addr <$> vs)).
  { induction vs as [|v vs IH]; [done|]. rewrite kids_ext_cons, IH. done. }
  rewrite H, E. unfold one, maybe_one. destruct (sibling r) as [b|]; cbn; repeat case_decide; simplify_eq; lia.
Qed.
Lemma kid_in : u ∈ ts.
Proof. by eapply list_elem_of_lookup_2. Qed.
Lemma result_guarded v : v ∈ us → guarded_at (nodes (heap st)) (addr v).
Proof. intros Hv. by destruct (is_guarded _ _ _ _ _ _ _ _ _ _ _ _ _ _ Hins v Hv) as [H|[_ []]]. Qed.
Lemma result_apart v x : v ∈ us → x ∈ addrs v → x ∉ a :: O.
Proof.
  intros Hv Hx. destruct (is_where _ _ _ _ _ _ _ _ _ _ _ _ _ _ Hins v x Hv Hx) as [H|H].
  - apply (open_apart O h a ts Hsound HO u); [apply kid_in|done].
  - intros H'. pose proof (inv_opened _ _ _ _ Hinv x H'). lia.
Qed.
Lemma row_ext x : kids_ext row x = kids_ext ts x - one (addr u) x + kids_ext us x.
Proof. by apply kids_ext_split. Qed.

Lemma settle_same : child r = addr u →
  settled R (a :: O) (ext ⊕ kids_ext row) (own (nodes h) u) (.∈ addrs u) s0 h us base st.
Proof.
  intros Hc. split; [|apply (is_fine _ _ _ _ _ _ _ _ _ _ _ _ _ _ Hins)| |apply (is_cache _ _ _ _ _ _ _ _ _ _ _ _ _ _ Hins)].
  - eapply ok_same; [apply (is_ok _ _ _ _ _ _ _ _ _ _ _ _ _ _ Hins)|]. intros x. unfold eplus.
    rewrite row_ext, result_ext, Hc, decide_True by done. unfold maybe_one at 1. rewrite decide_False by done. lia.
  - apply Forall_forall. intros v Hv. by apply result_guarded.
Qed.

Lemma settle_release : child r ≠ addr u →
  wp (__CFStorageReleaseNode (addr u))
    (λ _ st', settled R (a :: O) (ext ⊕ kids_ext row) (own (nodes h) u) (.∈ addrs u) s0 h us base st') st.
Proof.
  intros Hc. pose proof (is_ok _ _ _ _ _ _ _ _ _ _ _ _ _ _ Hins) as [Hthis Hinv1 Hev].
  assert (HD : ∀ x, ¬ own (nodes h) u x) by (intros x; by apply (is_kept _ _ _ _ _ _ _ _ _ _ _ _ _ _ Hins)).
  assert (Hinv2 : inv R (a :: O) (ext ⊕ kids_ext ts ⊕ kids_ext us) (heap st)).
  { refine (inv_same _ _ _ _ _ _ Hinv1). intros x. unfold eplus. rewrite result_ext, decide_False by done.
    unfold maybe_one at 1, one. repeat case_decide; simplify_eq; lia. }
  pose proof kid_in as Hu. pose proof (λ x, open_apart O h a ts Hsound HO u x Hu) as Hout. pose proof (kids_ext_elem ts u Hu) as H1.
  assert (Hlu : every (linked (nodes (heap st))) u).
  { eapply (frame_linked R); [exact Hev|exact Hinv|exact Hinv2|by eapply kid_linked| |].
    - intros x Hx. split; [apply HD|by apply Hout].
    - eapply (held_live R); [exact Hinv2|]. right. unfold eplus. pose proof (kids_ext_nonneg us (addr u)). specialize (Hext (addr u)). lia. }
  pose proof (is_fine _ _ _ _ _ _ _ _ _ _ _ _ _ _ Hins) as Hfine. rewrite Forall_forall in Hfine.
  assert (Hus : ∀ v, v ∈ us → 1 ≤ kids_ext us (addr v)) by (intros v Hv; by apply kids_ext_elem).
  assert (Hapart : ∀ v x, v ∈ us → own (nodes (heap st)) v x → x ∉ addrs u).
  { intros v x Hv. specialize (Hus v Hv). pose proof (Hext (addr v)). pose proof (kids_ext_nonneg ts (addr v)).
    pose proof (kids_ext_nonneg us (addr u)). pose proof (Hext (addr u)).
    apply (own_apart R (a :: O) (ext ⊕ kids_ext ts ⊕ kids_ext us) (heap st)); [exact Hinv2|by apply (fine_linked s0), Hfine|done|..].
    - intros y [Hy|Hy]; [by apply (result_apart v)|by apply Hout].
    - right. unfold eplus. lia.
    - right. unfold eplus. lia.
    - intros E. unfold eplus. rewrite E in *. lia. }
  eapply wp_mono; [eapply (release_ok u R (a :: O) (ext ⊕ kids_ext row)); [|exact Hlu|by eapply kid_not_root|by apply Hout|]|].
  - refine (inv_same _ _ _ _ _ _ Hinv2). intros x. unfold eplus. rewrite row_ext. lia.
  - intros x. unfold eplus. pose proof (kids_ext_nonneg row x). specialize (Hext x). lia.
  - intros [] st' (Ht & Hinv3 & Hsh & _). pose proof (shrinks_evolves _ _ _ Hsh) as Hev2.
    assert (Hv : ∀ v, v ∈ us → fine s0 (nodes (heap st')) v ∧ guarded_at (nodes (heap st')) (addr v)).
    { intros v Hv. pose proof (Hfine v Hv) as [F1 F2 F3].
      assert (Hs : every (sound (nodes (heap st'))) v).
      { eapply (frame_sound R); [exact Hev2|exact Hinv2|exact Hinv3|done| |].
        - intros x Hx. split_and!; [by intros []|right; by intros []|by apply (result_apart v)].
        - eapply (held_live R); [exact Hinv3|]. right. unfold eplus. rewrite row_ext. specialize (Hus v Hv).
          pose proof (Hext (addr v)). pose proof (kids_ext_nonneg ts (addr v)). unfold one. destruct (decide (addr v = addr u)) as [E|_]; [rewrite E in *|]; lia. }
      split; [split; [done|done|]|].
      - eapply frame_ready; [exact Hev2|by apply sound_every_linked|done| |intros x; by apply Hapart].
        intros x Hx. split; [|by intros []]. eapply (linked_dom R); [exact Hinv2|by apply (fine_linked s0), Hfine|done].
      - intros n' Hn'. destruct (sh_in _ _ _ Hsh _ _ Hn') as (n & Hn & -> & Hle). intros Hf. cbn in *.
        pose proof (result_guarded v Hv n Hn Hf). lia. }
    split.
    + split; [by rewrite Ht|done|]. eapply evolves_trans; [exact Hev|exact Hev2|..]; intros b _ [?|?]; done.
    + apply Forall_forall. intros v ?. by apply Hv.
    + apply Forall_forall. intros v ?. by apply Hv.
    + destruct (is_cache _ _ _ _ _ _ _ _ _ _ _ _ _ _ Hins) as (c & Hcn & Hcached). exists c. split; [by rewrite Ht|].
      eapply cached_keep; [exact Hcached| |intros v x Hvu Hown; apply (sh_out _ _ _ Hsh); by apply (Hapart v)].
      intros n Hn. destruct Hcached as (off & l & n0 & li & Hr & _). apply in_row_elem in Hr as (v & Hvu & Hvc).
      destruct (Hv v Hvu) as [[F1 _ _] _]. apply sound_every_linked in F1. apply in_subtrees in Hvc as (w & Hw & Ew).
      destruct (every_here _ _ (every_subtree _ v w F1 Hw)) as (n' & Hn' & _). rewrite Ew in Hn'. exists n'. split; [done|].
      destruct (sh_in _ _ _ Hsh _ _ Hn') as (n2 & Hn2 & -> & _). cbn in Hn. cbn in Hn2. rewrite Hn in Hn2. by injection Hn2 as <-.
Qed.
End replaced.

(** ** Linking a row of trees to its branches *)
Section linking.
Context `{Al : Allocator} (Hal : ∀ n, 0 < n → is_Some (alloc n)).
Context (R : list Z) (D Rch : Z → Prop) (s0 : __CFStorage) (h0 : store).
Abbreviation done_row O E row base st := (settled R O E D Rch s0 h0 row base st).
Definition outside (row : list tree) (a : Z) : Prop := ∀ v, v ∈ row → a ∉ addrs v.

(** A node apart from the row changes. *)
Lemma row_agree row m a n v : outside row a → v ∈ row → agree m (<[a := n]> m) v.
Proof. intros Ha Hv x Hx. rewrite lookup_insert_ne; [done|]. intros ->. by apply (Ha v Hv). Qed.
Lemma row_fine row m a n : outside row a → Forall (fine s0 m) row → Forall (fine s0 (<[a := n]> m)) row.
Proof.
  intros Ha H. rewrite Forall_forall in H |- *. intros v Hv. eapply agree_fine; [by apply (row_agree row)|by apply H].
Qed.
Lemma row_guarded row m a n : outside row a →
  Forall (λ v, guarded_at m (addr v)) row → Forall (λ v, guarded_at (<[a := n]> m) (addr v)) row.
Proof.
  intros Ha H. rewrite Forall_forall in H |- *. intros v Hv n'. rewrite (row_agree row m a n v Ha Hv) by apply addr_addrs. by apply H.
Qed.
Lemma row_cached row m a n base c : outside row a → cached s0 m row base c → cached s0 (<[a := n]> m) row base c.
Proof.
  intros Ha H. pose proof H as (off & l & n0 & li & Hr & Hn & _). apply in_row_elem in Hr as (v & Hv & Hvc). cbn in Hvc.
  eapply cached_keep; [exact H| |].
  - intros n1 Hn1. exists n1. split_and!; [|done..]. by rewrite (row_agree row m a n v Ha Hv).
  - intros u x Hu Hx. apply (row_agree row m a n u Ha Hu). by apply (own_addrs m).
Qed.
Lemma settled_put O E row base st a n n' :
  done_row O E row base st → nodes (heap st) !! a = Some n → a ∈ O → refCount n' = refCount n → mine D Rch h0 a → outside row a →
  done_row O E row base (with_heap st (put a n' (heap st))).
Proof.
  intros [H1 H2 H3 (c & Hc & H4)] Hn Ha Hcount Hm Hout. split; cbn.
  - eapply ok_put_mine; [exact H1|exact Hn|by left|done|done].
  - by apply row_fine.
  - by apply row_guarded.
  - exists c. split; [done|by apply row_cached].
Qed.
Lemma settled_same O E E' row base st : done_row O E row base st → (∀ x, E x = E' x) → done_row O E' row base st.
Proof. intros [H1 H2 H3 H4] HE. split; [by eapply ok_same|done..]. Qed.
Lemma row_below O E row base st a : done_row O E row base st → next (heap st) ≤ a → outside row a.
Proof.
  intros Hs Ha v Hv Hin. pose proof (se_fine _ _ _ _ _ _ _ _ _ _ Hs) as Hf. rewrite Forall_forall in Hf.
  pose proof (linked_dom R O E (heap st) v a (ok_inv _ _ _ _ _ _ _ _ _ (se_ok _ _ _ _ _ _ _ _ _ _ Hs)) (fine_linked _ _ _ (Hf v Hv)) Hin). lia.
Qed.
(** A new branch, opened. *)
Lemma settled_new O E row base st b (Q : Z → state → Prop) :
  done_row O E row base st →
  (∀ a st', a = next (heap st) → st' = with_new st (new_node (this st) false b) → done_row (a :: O) (E ⊕ one a) row base st' → Q a st') →
  wp (__CFStorageCreateNode false b) Q st.
Proof.
  intros Hs HQ. eapply (create_node_ok Hal R D nowhere Rch s0 h0 O E); [by apply (se_ok _ _ _ _ _ _ _ _ _ _ Hs)|].
  intros a st' Ha -> Hok. apply HQ; [done|done|]. pose proof (row_below O E row base st a Hs ltac:(lia)) as Hout.
  destruct Hs as [H1 H2 H3 (c & Hc & H4)]. subst a. split; cbn.
  - eapply ok_open_empty; [exact Hok|cbn; apply lookup_insert_eq|done|].
    intros H. pose proof (inv_opened _ _ _ _ (ok_inv _ _ _ _ _ _ _ _ _ H1) _ H). lia.
  - by apply row_fine.
  - by apply row_guarded.
  - exists c. split; [done|by apply row_cached].
Qed.

Lemma finish_one O ext row base st a n :
  done_row (a :: O) (ext ⊕ kids_ext row) row base st → nodes (heap st) !! a = Some n → info n = notLeaf (pad row) →
  numBytes n = zlen (all_bytes row) → (2 ≤ length row ≤ 3)%nat → refCount n ≤ 1 → (a ∉ R → 0 < refCount n) → a ∉ O →
  (∀ x, 0 ≤ ext x) → done_row O ext [TNode a row] base st.
Proof.
  intros [H1 H2 H3 (c & Hc & H4)] Hn Hi Hb Hlen Hcount Hpos Ha Hext. split.
  - by eapply ok_close.
  - apply Forall_singleton. by eapply fine_node.
  - apply Forall_singleton. cbn. intros n' Hn'. rewrite Hn in Hn'. injection Hn' as <-. by intros _.
  - exists c. split; [done|]. apply cached_one; [by exists n|done].
Qed.
Lemma finish_two O ext row1 row2 base st a n b k :
  done_row (b :: a :: O) (ext ⊕ kids_ext (row1 ++ row2)) (row1 ++ row2) base st →
  nodes (heap st) !! a = Some n → info n = notLeaf (pad row1) → numBytes n = zlen (all_bytes row1) → (2 ≤ length row1 ≤ 3)%nat →
  nodes (heap st) !! b = Some k → info k = notLeaf (pad row2) → numBytes k = zlen (all_bytes row2) → (2 ≤ length row2 ≤ 3)%nat →
  refCount n ≤ 1 → (a ∉ R → 0 < refCount n) → a ∉ O → refCount k = 1 → b ∉ a :: O →
  (∀ x, 0 ≤ ext x) → done_row O ext [TNode a row1; TNode b row2] base st.
Proof.
  intros [H1 H2 H3 (c & Hc & H4)] Hn Hin Hbn Hln Hk Hik Hbk Hlk Hcn Hpn Ha Hck Hb Hext.
  apply Forall_app in H2 as [F1 F2]. apply Forall_app in H3 as [G1 G2]. split.
  - eapply (ok_close R D nowhere Rch s0 h0 O ext st a n row1); try done.
    eapply (ok_close R D nowhere Rch s0 h0 (a :: O) _ st b k row2); try done.
    + eapply ok_same; [exact H1|]. intros x. unfold eplus. rewrite kids_ext_app. lia.
    + intros x. unfold eplus. pose proof (kids_ext_nonneg row1 x). specialize (Hext x). lia.
    + intros _. lia.
  - apply Forall_cons. split; [by eapply fine_node|]. apply Forall_singleton. eapply fine_node; try done. lia.
  - apply Forall_cons. split; [|apply Forall_singleton]; cbn; intros n' Hn'.
    + rewrite Hn in Hn'. injection Hn' as <-. by intros _.
    + rewrite Hk in Hn'. injection Hn' as <-. intros _. lia.
  - exists c. split; [done|]. apply cached_two; [by exists n|exists k; split; [done|lia]|done].
Qed.
End linking.

(** The row with the untouched children. *)
Section row_of.
Context (R O : list Z) (ext : Z → Z) (s0 : __CFStorage) (h : store) (a : Z) (ts : list tree).
Context (Hext : ∀ x, 0 ≤ ext x) (Hinv : inv R (a :: O) (ext ⊕ kids_ext ts) h).
Context (Hfine : fine s0 (nodes h) (TNode a ts)) (HO : ∀ x, x ∈ addrs (TNode a ts) → x ∉ O).
Context (i : nat) (u : tree) (Hi : ts !! i = Some u) (us : list tree) (base : Z) (st : state).
Abbreviation whole := (row ts i us).

Lemma fine_kids : Forall (fine s0 (nodes h)) ts.
Proof.
  destruct Hfine as [F1 F2 F3]. apply every_node in F1 as [_ F1], F2 as [_ F2]. rewrite Forall_forall in F1, F2 |- *.
  intros v Hv. split; [by apply F1|by apply F2|]. inversion F3 as [t Hb| |b ts' _ Hr]; subst.
  - apply ready_backed. apply every_node in Hb as [_ Hb]. by apply (proj1 (Forall_forall _ _) Hb).
  - by apply (proj1 (Forall_forall _ _) Hr).
Qed.
Lemma row_cases v : v ∈ whole → v ∈ us ∨ ∃ j, j ≠ i ∧ ts !! j = Some v.
Proof.
  unfold row. rewrite !elem_of_app. intros [H|[H|H]]; [right|by left|right]; apply list_elem_of_lookup in H as [j Hj].
  - exists j. apply lookup_take_Some in Hj as [? ?]. split; [lia|done].
  - exists (S i + j)%nat. rewrite lookup_drop in Hj. split; [lia|done].
Qed.
Lemma settled_row :
  settled R (a :: O) (ext ⊕ kids_ext whole) (own (nodes h) u) (.∈ addrs u) s0 h us (base + zlen (all_bytes (take i ts))) st →
  Forall (fine s0 (nodes h)) ts →
  settled R (a :: O) (ext ⊕ kids_ext whole) (own (nodes h) u) (.∈ addrs u) s0 h whole base st.
Proof.
  intros [H1 H2 H3 (c & Hc & H4)] Hts. pose proof (fine_sound _ _ _ Hfine) as Hs. rewrite Forall_forall in Hts.
  assert (Hsib : ∀ v j, j ≠ i → ts !! j = Some v → fine s0 (nodes (heap st)) v ∧ guarded_at (nodes (heap st)) (addr v)).
  { intros v j Hj Hv. eapply (siblings_fine R O ext s0 h a ts Hext Hinv Hs HO _ _ _ _ _ i u j v); [|exact Hi|exact Hv|done|apply (ok_ev _ _ _ _ _ _ _ _ _ H1)|apply (ok_inv _ _ _ _ _ _ _ _ _ H1)| |done|by intros ? []|done].
    - apply Hts. by eapply list_elem_of_lookup_2.
    - unfold eplus. specialize (Hext (addr v)). assert (Hin : v ∈ whole).
      { unfold row. pose proof (other_kid ts i j u v Hi Hv (not_eq_sym Hj)) as H. rewrite !elem_of_app in *. tauto. }
      pose proof (kids_ext_elem _ _ Hin). lia. }
  split; [done|..|exists c; split; [done|by apply cached_wider]]; apply Forall_forall; intros v [Hv|(j & Hj & Hv)]%row_cases.
  - by apply (proj1 (Forall_forall _ _) H2).
  - by eapply Hsib.
  - by apply (proj1 (Forall_forall _ _) H3).
  - by eapply Hsib.
Qed.
End row_of.

Lemma settled_weaken R O E (D Rch D' Rch' : Z → Prop) s0 h row base st : settled R O E D Rch s0 h row base st →
  (∀ x, D x → D' x) → (∀ x, Rch x → Rch' x) → settled R O E D' Rch' s0 h row base st.
Proof. intros [[H0 H1 H1'] H2 H3 H4] HD HR. split; [split; [done|done|]|done..]. by eapply evolves_weaken. Qed.

Lemma room_app l1 l2 l3 pos size : zlen l1 ≤ pos ≤ zlen l1 + zlen l2 →
  room pos size (l1 ++ l2 ++ l3) = l1 ++ room (pos - zlen l1) size l2 ++ l3.
Proof.
  intros H. unfold room, ztake, zdrop. pose proof (zlen_nonneg l1).
  rewrite take_app, drop_app, take_app, drop_app.
  rewrite (take_ge l1) by (unfold zlen in *; lia). rewrite (drop_ge l1) by (unfold zlen in *; lia).
  replace (Z.to_nat pos - length l1)%nat with (Z.to_nat (pos - zlen l1)) by (unfold zlen in *; lia).
  replace (Z.to_nat (pos - zlen l1) - length l2)%nat with 0%nat by (unfold zlen in *; lia).
  rewrite take_0, drop_0, app_nil_r. cbn. by rewrite <- !app_assoc.
Qed.
Lemma row_bytes ts i u us pos size : ts !! i = Some u → 0 ≤ pos - zlen (all_bytes (take i ts)) ≤ zlen (bytes u) →
  all_bytes us = room (pos - zlen (all_bytes (take i ts))) size (bytes u) →
  all_bytes (row ts i us) = room pos size (all_bytes ts).
Proof.
  intros Hi Hp Hus. rewrite <- (take_drop_middle ts i u Hi) at 2. unfold row. rewrite !all_bytes_app, all_bytes_cons, Hus.
  by rewrite room_app by lia.
Qed.

(** ** The stores into the slots of open branches *)
Definition branch_at (st : state) (a : Z) (c : list (option Z)) (nb rc : Z) : Prop :=
  ∃ n, nodes (heap st) !! a = Some n ∧ info n = notLeaf c ∧ numBytes n = nb ∧ refCount n = rc.

Section stores.
Context (R O : list Z) (E : Z → Z) (D Rch : Z → Prop) (s0 : __CFStorage) (h0 : store) (row : list tree) (base : Z).
Abbreviation done_row st := (settled R O E D Rch s0 h0 row base st).
(** A branch the stores may change. *)
Definition mutable (a : Z) : Prop := a ∈ O ∧ mine D Rch h0 a ∧ outside row a.
Definition others_kept (a : Z) (st st' : state) : Prop :=
  ∀ b c nb rc, b ≠ a → branch_at st b c nb rc → branch_at st' b c nb rc.

Lemma store_ok st a n n' : done_row st → mutable a → nodes (heap st) !! a = Some n → refCount n' = refCount n →
  done_row (with_heap st (put a n' (heap st))) ∧ others_kept a st (with_heap st (put a n' (heap st))).
Proof.
  intros Hs (Ha & Hm & Hout) Hn Hc. split; [by eapply settled_put|]. intros b c nb rc Hb (k & Hk & H). exists k. split; [|done].
  cbn. by rewrite lookup_insert_ne.
Qed.
Lemma wp_set_child st a c nb rc i p (Q : () → state → Prop) : done_row st → mutable a → branch_at st a c nb rc →
  (∀ st', done_row st' → this st' = this st → others_kept a st st' → branch_at st' a (<[i := p]> c) nb rc → Q () st') →
  wp (__CFStorageSetChild a i p) Q st.
Proof.
  intros Hs Ha (n & Hn & Hi & Hb & Hc) HQ. unfold __CFStorageSetChild. apply wp_bind. eapply wp_load; [done|]. rewrite Hi.
  eapply wp_put; [done|]. destruct (store_ok st a n (set_info (notLeaf (<[i := p]> c)) n) Hs Ha Hn eq_refl) as [H1 H2].
  apply HQ; [done|done|done|]. eexists. split; [cbn; apply lookup_insert_eq|done].
Qed.
Lemma wp_set_bytes st a c nb nb' rc f (Q : () → state → Prop) : done_row st → mutable a → branch_at st a c nb rc →
  (∀ n, info n = notLeaf c → numBytes n = nb → f n = set_numBytes nb' n) →
  (∀ st', done_row st' → this st' = this st → others_kept a st st' → branch_at st' a c nb' rc → Q () st') →
  wp (update a f) Q st.
Proof.
  intros Hs Ha (n & Hn & Hi & Hb & Hc) Hf HQ. eapply wp_put; [done|]. rewrite (Hf n Hi Hb).
  destruct (store_ok st a n (set_numBytes nb' n) Hs Ha Hn eq_refl) as [H1 H2].
  apply HQ; [done|done|done|]. eexists. split; [cbn; apply lookup_insert_eq|done].
Qed.
Lemma wp_child_of st a c nb rc n i p (Q : option Z → state → Prop) : branch_at st a c nb rc → nodes (heap st) !! a = Some n →
  c !! i = Some p → Q p st → wp (child_at n i) Q st.
Proof. intros (n' & Hn' & Hi & _) Hn Hc HQ. rewrite Hn in Hn'. injection Hn' as <-. by eapply wp_child_at. Qed.
Lemma wp_bytes_of st v (Q : Z → state → Prop) : done_row st → v ∈ row → Q (zlen (bytes v)) st →
  wp (bytes_of_node (Some (addr v))) Q st.
Proof.
  intros Hs Hv HQ. pose proof (se_fine _ _ _ _ _ _ _ _ _ _ Hs) as Hf. rewrite Forall_forall in Hf.
  destruct (sound_bytes _ _ (fine_sound _ _ _ (Hf v Hv))) as (n & Hn & Hb).
  unfold bytes_of_node. apply wp_bind. eapply wp_lift; [done|]. apply wp_bind. eapply wp_load; [done|]. apply wp_ret. by rewrite Hb.
Qed.
Lemma wp_bytes_of_children st a c nb rc v w (Q : Z → state → Prop) : done_row st → branch_at st a c nb rc →
  c !! 0%nat = Some (Some (addr v)) → c !! 1%nat = Some (Some (addr w)) → v ∈ row → w ∈ row →
  Q (zlen (bytes v) + zlen (bytes w)) st → wp (numBytes_of_children a) Q st.
Proof.
  intros Hs Ha Hv Hw Hvr Hwr HQ. pose proof Ha as (n & Hn & _). unfold numBytes_of_children. apply wp_bind. eapply wp_load; [done|].
  apply wp_bind. eapply wp_child_of; [done..|]. apply wp_bind. apply wp_bytes_of; [done..|].
  apply wp_bind. eapply wp_child_of; [done..|]. apply wp_bind. apply wp_bytes_of; [done..|]. by apply wp_ret.
Qed.
End stores.

(** A store into a slot of [a], after which what is known of the other open branch still holds. *)
Ltac set_child :=
  first [eapply wp_set_child | apply wp_bind; eapply wp_set_child]; [eassumption|eassumption|eassumption|];
  let st := fresh "st" in let H1 := fresh in let H2 := fresh in let H3 := fresh in let H4 := fresh in
  intros st H1 H2 H3 H4; cbn in H4;
  repeat match goal with
  | H : branch_at ?s ?b _ _ _ |- _ =>
      lazymatch type of H3 with others_kept ?a s st => lazymatch a with b => fail | _ => apply (H3 b) in H; [|done] end end
  end.

Section splitting.
Context `{Al : Allocator} (Hal : ∀ n, 0 < n → is_Some (alloc n)).
Context (R O : list Z) (E : Z → Z) (D Rch : Z → Prop) (s0 : __CFStorage) (h0 : store) (base : Z) (a : Z).

Lemma fresh_mutable O' row st b n : settled R O' E D Rch s0 h0 row base st →
  b = next (heap st) → mutable (b :: O') D Rch h0 row b ∧ (∀ x, x ∈ O' → x ≠ b) ∧
    nodes (heap (with_new st n)) !! b = Some n ∧ next h0 ≤ b.
Proof.
  intros Hs ->. pose proof (se_ok _ _ _ _ _ _ _ _ _ _ Hs) as [_ Hinv Hev]. split_and!.
  - split_and!; [left|left; apply (ev_next _ _ _ _ _ Hev)|]. eapply row_below; [done|lia].
  - intros x Hx. pose proof (inv_opened _ _ _ _ Hinv x Hx). lia.
  - cbn. apply lookup_insert_eq.
  - apply (ev_next _ _ _ _ _ Hev).
Qed.

Lemma split_ok v0 v1 v2 v3 childNum w c nb rc st :
  settled R (a :: O) E D Rch s0 h0 [v0; v1; v2; v3] base st → branch_at st a c nb rc → mutable (a :: O) D Rch h0 [v0; v1; v2; v3] a →
  (childNum = 0%nat ∧ c = pad [v0; v2; v3] ∧ w = addr v1) ∨ (childNum = 1%nat ∧ c = pad [v0; v1; v3] ∧ w = addr v2) ∨
    (childNum = 2%nat ∧ c = pad [v0; v1; v2] ∧ w = addr v3) →
  wp (split_branch a childNum w)
    (λ b st', settled R (b :: a :: O) (E ⊕ one b) D Rch s0 h0 [v0; v1; v2; v3] base st' ∧
       branch_at st' a (pad [v0; v1]) (zlen (bytes v0) + zlen (bytes v1)) rc ∧
       branch_at st' b (pad [v2; v3]) (zlen (bytes v2) + zlen (bytes v3)) 1 ∧ b ∉ a :: O ∧ next h0 ≤ b) st.
Proof.
  intros Hs Ha Hm Hcase. unfold split_branch. apply wp_bind. eapply (settled_new Hal); [exact Hs|]. intros b st1 Eb Est Hs1.
  destruct (fresh_mutable (a :: O) _ st b (new_node (this st) false 0) Hs Eb) as (Hmb & Hfresh & Hnb & Hnext).
  assert (Hab : a ≠ b) by (apply Hfresh; left). assert (Hba : b ≠ a) by done.
  assert (Hma : mutable (b :: a :: O) D Rch h0 [v0; v1; v2; v3] a) by (destruct Hm as (? & ? & ?); split_and!; [right; left|done|done]).
  assert (Hb : branch_at st1 b no_children 0 1) by (subst st1; eexists; split; [exact Hnb|done]).
  assert (Ha1 : branch_at st1 a c nb rc).
  { destruct Ha as (n & Hn & H). exists n. split; [|done]. rewrite Est. cbn. rewrite lookup_insert_ne; [done|congruence]. }
  clear Hs Ha Est Hnb. pose proof Ha1 as (n & Hn & _). apply wp_bind. eapply wp_load; [done|].
  assert (Hout : b ∉ a :: O) by (intros H; by apply (Hfresh b H)).
  assert (Hfin : ∀ st', settled R (b :: a :: O) (E ⊕ one b) D Rch s0 h0 [v0; v1; v2; v3] base st' →
    branch_at st' a (pad [v0; v1]) nb rc → branch_at st' b (pad [v2; v3]) 0 1 →
    wp (b0 ← numBytes_of_children a; update a (set_numBytes b0);; b1 ← numBytes_of_children b; update b (set_numBytes b1);; mret b)
     (λ b st', settled R (b :: a :: O) (E ⊕ one b) D Rch s0 h0 [v0; v1; v2; v3] base st' ∧
       branch_at st' a (pad [v0; v1]) (zlen (bytes v0) + zlen (bytes v1)) rc ∧
       branch_at st' b (pad [v2; v3]) (zlen (bytes v2) + zlen (bytes v3)) 1 ∧ b ∉ a :: O ∧ next h0 ≤ b) st').
  { intros st' Hs Ha Hb'. apply wp_bind. eapply (wp_bytes_of_children _ _ _ _ _ _ _ _ _ _ a _ _ _ v0 v1); [exact Hs|done..|set_solver|set_solver|].
    apply wp_bind. eapply wp_set_bytes; [done..|]. intros st2 H2 _ K2 Ha2. apply (K2 b) in Hb'; [|done].
    apply wp_bind. eapply (wp_bytes_of_children _ _ _ _ _ _ _ _ _ _ b _ _ _ v2 v3); [exact H2|done..|set_solver|set_solver|].
    apply wp_bind. eapply wp_set_bytes; [done..|]. intros st3 H3 _ K3 Hb3. apply (K3 a) in Ha2; [|done]. by apply wp_ret. }
  destruct Hcase as [(-> & -> & ->)|[(-> & -> & ->)|(-> & -> & ->)]];
    (apply wp_bind; eapply wp_child_of; [exact Ha1|exact Hn|done|]); (apply wp_bind; eapply wp_child_of; [exact Ha1|exact Hn|done|]);
    clear Hn; apply wp_bind; repeat set_child; by apply Hfin.
Qed.
End splitting.

(** ** The branch after the insertion in its child *)

Definition link_branch `{Al : Allocator} (node : Z) (childNum : nat) (size : Z) (p : option Z) : M CFStorageDoubleNodeReturn :=
  match p with
  | None =>
      update node (λ n, set_numBytes (numBytes n + size) n);;
      mret (CFStorageDoubleNodeReturnMake node None)
  | Some newChild =>
      n ← load node;
      c2 ← child_at n 2;
      match c2 with
      | None =>
          c1 ← child_at n 1;
          (if decide (childNum = 0%nat) then __CFStorageSetChild node 2 c1 else mret ());;
          __CFStorageSetChild node (childNum + 1) (Some newChild);;
          update node (λ n, set_numBytes (numBytes n + size) n);;
          mret (CFStorageDoubleNodeReturnMake node None)
      | Some _ =>
          anotherNode ← split_branch node childNum newChild;
          mret (CFStorageDoubleNodeReturnMake node (Some anotherNode))
      end
  end.

Section link.
Context `{Al : Allocator} (Hal : ∀ n, 0 < n → is_Some (alloc n)).
Context (R O : list Z) (ext : Z → Z) (D Rch : Z → Prop) (s0 : __CFStorage) (h0 : store) (base : Z) (a : Z).
Context (Hext : ∀ x, 0 ≤ ext x) (Ha : a ∉ O) (rc : Z) (Hrc : rc ≤ 1) (Hpos : a ∉ R → 0 < rc).

(** The row is under [a], or under [a] and a new branch. *)
Definition linked_row (row : list tree) (r : CFStorageDoubleNodeReturn) (st : state) : Prop :=
  child r = a ∧ ∃ row', settled R O (ext ⊕ maybe_one (sibling r)) D Rch s0 h0 row' base st ∧ addr <$> row' = a :: option_list (sibling r) ∧
    all_bytes row' = all_bytes row ∧ (∀ v x, v ∈ row' → x ∈ addrs v → x = a ∨ next h0 ≤ x ∨ ∃ w, w ∈ row ∧ x ∈ addrs w) ∧
    Forall (λ v, single (nodes (heap st)) (addr v)) row' ∧
    (row' = [TNode a row] ∨ ∃ row1 row2 b, row = row1 ++ row2 ∧ row' = [TNode a row1; TNode b row2] ∧ next h0 ≤ b).

Lemma under_where b row x : x ∈ addrs (TNode b row) → x = b ∨ ∃ w, w ∈ row ∧ x ∈ addrs w.
Proof. by rewrite addrs_node. Qed.
Lemma link_one row st : settled R (a :: O) (ext ⊕ kids_ext row) D Rch s0 h0 row base st →
  branch_at st a (pad row) (zlen (all_bytes row)) rc → (2 ≤ length row ≤ 3)%nat →
  linked_row row (CFStorageDoubleNodeReturnMake a None) st.
Proof.
  intros Hs (n & Hn & Hi & Hb & Hc) Hlen. split; [done|]. exists [TNode a row]. split_and!; [|done|by unfold all_bytes; cbn; rewrite app_nil_r| | |].
  - eapply settled_same; [eapply finish_one; [exact Hs|exact Hn|done|done|done|lia|by rewrite Hc|done|done]|]. ext_eq.
  - intros v x Hv Hx. apply list_elem_of_singleton in Hv as ->. apply under_where in Hx as [->|H]; [by left|by right; right].
  - apply Forall_singleton. exists n. split; [done|lia].
  - by left.
Qed.
Lemma link_two row1 row2 b st : settled R (b :: a :: O) (ext ⊕ kids_ext (row1 ++ row2) ⊕ one b) D Rch s0 h0 (row1 ++ row2) base st →
  branch_at st a (pad row1) (zlen (all_bytes row1)) rc → (2 ≤ length row1 ≤ 3)%nat →
  branch_at st b (pad row2) (zlen (all_bytes row2)) 1 → (2 ≤ length row2 ≤ 3)%nat → b ∉ a :: O → next h0 ≤ b →
  linked_row (row1 ++ row2) (CFStorageDoubleNodeReturnMake a (Some b)) st.
Proof.
  intros Hs (n & Hn & Hi & Hb & Hc) Hlen (k & Hk & Hik & Hbk & Hck) Hlenk Hnot Hnext. split; [done|].
  exists [TNode a row1; TNode b row2]. split_and!; [|done|by unfold all_bytes; cbn; rewrite app_nil_r, map_app, concat_app| | |].
  - eapply finish_two; [|exact Hn|done|done|done|exact Hk|done|done|done|lia|by rewrite Hc|done|done|done|].
    + eapply settled_same; [exact Hs|]. ext_eq.
    + intros x. specialize (Hext x). unfold eplus, maybe_one. case_decide; lia.
  - intros v x Hv Hx. apply elem_of_cons in Hv as [->|Hv]; [|apply list_elem_of_singleton in Hv as ->];
      apply under_where in Hx as [->|(w & Hw & Hx)]; [by left| |by right; left|]; right; right; exists w; (split; [|done]); apply elem_of_app; auto.
  - apply Forall_cons. split; [exists n; split; [done|lia]|]. apply Forall_singleton. exists k. split; [done|lia].
  - right. by exists row1, row2, b.
Qed.

Lemma link_grown row c nb size st : settled R (a :: O) (ext ⊕ kids_ext row) D Rch s0 h0 row base st → mutable (a :: O) D Rch h0 row a →
  branch_at st a c nb rc → c = pad row → nb + size = zlen (all_bytes row) → (2 ≤ length row ≤ 3)%nat →
  wp (update a (λ n, set_numBytes (numBytes n + size) n);; mret (CFStorageDoubleNodeReturnMake a None)) (linked_row row) st.
Proof.
  intros Hs Hm Hb -> Hnb Hlen. apply wp_bind. eapply (wp_set_bytes _ _ _ _ _ _ _ _ _ _ _ _ nb (nb + size)); [exact Hs|exact Hm|exact Hb|by intros n _ ->|].
  intros st' Hs' _ _ Hb'. apply wp_ret. apply link_one; [done|by rewrite <- Hnb|done].
Qed.
Lemma link_split v0 v1 v2 v3 childNum w c nb st :
  settled R (a :: O) (ext ⊕ kids_ext [v0; v1; v2; v3]) D Rch s0 h0 [v0; v1; v2; v3] base st →
  mutable (a :: O) D Rch h0 [v0; v1; v2; v3] a → branch_at st a c nb rc →
  (childNum = 0%nat ∧ c = pad [v0; v2; v3] ∧ w = addr v1) ∨ (childNum = 1%nat ∧ c = pad [v0; v1; v3] ∧ w = addr v2) ∨
    (childNum = 2%nat ∧ c = pad [v0; v1; v2] ∧ w = addr v3) →
  wp (anotherNode ← split_branch a childNum w; mret (CFStorageDoubleNodeReturnMake a (Some anotherNode)))
    (linked_row [v0; v1; v2; v3]) st.
Proof.
  intros Hs Hm Hb Hcase. apply wp_bind.
  eapply wp_mono; [eapply (split_ok Hal R O _ D Rch s0 h0 base a v0 v1 v2 v3 childNum w); [exact Hs|exact Hb|done|exact Hcase]|].
  intros b st' (Hs' & Ha' & Hb' & Hout & Hnext). apply wp_ret.
  assert (Hz : ∀ x y, zlen (all_bytes [x; y]) = zlen (bytes x) + zlen (bytes y)).
  { intros x y. unfold all_bytes. cbn. by rewrite app_nil_r, zlen_app. }
  apply (link_two [v0; v1] [v2; v3]); rewrite ?Hz; try done; cbn; lia.
Qed.
Lemma link_branch_ok ts i u us r size st : ts !! i = Some u → (2 ≤ length ts ≤ 3)%nat → addr <$> us = child r :: option_list (sibling r) →
  settled R (a :: O) (ext ⊕ kids_ext (row ts i us)) D Rch s0 h0 (row ts i us) base st → mutable (a :: O) D Rch h0 (row ts i us) a →
  branch_at st a (<[i := Some (child r)]> (pad ts)) (zlen (all_bytes ts)) rc →
  zlen (all_bytes (row ts i us)) = zlen (all_bytes ts) + size →
  wp (link_branch a i size (sibling r)) (linked_row (row ts i us)) st.
Proof.
  intros Hi Hlen Hus Hs Hm Hb Hsize. destruct us as [|u' us]; [done|]. injection Hus as Eu Hus. rewrite <- Eu in Hb. clear Eu.
  unfold link_branch. destruct (sibling r) as [w|]; cbn in Hus.
  - destruct us as [|v us]; [done|]. injection Hus as <- Hus. apply fmap_nil_inv in Hus as ->.
    pose proof Hb as (n & Hn & _). apply wp_bind. eapply wp_load; [done|]. unfold row in *.
    destruct ts as [|t0 [|t1 [|t2 [|? ?]]]]; [cbn in Hlen; lia..| | |cbn in Hlen; lia]; destruct i as [|[|[|i]]]; try done; cbn in Hb |- *;
      (apply wp_bind; eapply wp_child_of; [exact Hb|exact Hn|done|]); cbn.
    + apply wp_bind. eapply wp_child_of; [exact Hb|exact Hn|done|]. repeat set_child. eapply link_grown; [eassumption..|done|symmetry; exact Hsize|cbn; lia].
    + apply wp_bind. eapply wp_child_of; [exact Hb|exact Hn|done|]. apply wp_bind, wp_ret. repeat set_child. eapply link_grown; [eassumption..|done|symmetry; exact Hsize|cbn; lia].
    + eapply (link_split u' v t1 t2); [exact Hs|exact Hm|exact Hb|]. by left.
    + eapply (link_split t0 u' v t2); [exact Hs|exact Hm|exact Hb|]. right. by left.
    + eapply (link_split t0 t1 u' v); [exact Hs|exact Hm|exact Hb|]. right. by right.
  - apply fmap_nil_inv in Hus as ->. unfold row in *. eapply link_grown; [done|done|exact Hb| |lia|].
    + destruct ts as [|t0 [|t1 [|t2 [|? ?]]]]; [cbn in Hlen; lia..| | |cbn in Hlen; lia]; by destruct i as [|[|[|i]]].
    + rewrite !length_app, length_take, length_drop. cbn. pose proof (lookup_lt_Some _ _ _ Hi). lia.
Qed.
End link.

(** ** The specification of an insertion *)

Record request (s0 : __CFStorage) (t : tree) (pos size base abs : Z) : Prop := {
  rq_pos : 0 ≤ pos ≤ zlen (bytes t);
  rq_size : 0 < size ≤ maxLeafCapacity s0;
  rq_vsize : (valueSize s0 | size);
  rq_vpos : (valueSize s0 | pos);
  rq_vbase : (valueSize s0 | base);
  rq_base : 0 ≤ base;
  rq_abs : base = abs - pos;
}.

Definition inserts (ins : Z → Z → Z → Z → M CFStorageDoubleNodeReturn) (t : tree) : Prop := ∀ R O ext s0 pos size base abs st,
  storage_ok s0 → same_storage s0 (this st) → inv R O ext (heap st) → fine s0 (nodes (heap st)) t →
  (∀ x, x ∈ addrs t → x ∉ O) → held R ext (addr t) → addr t ∉ R → guarded_at (nodes (heap st)) (addr t) →
  request s0 t pos size base abs →
  wp (ins (addr t) pos size abs)
    (λ r st', ∃ us, inserted R O ext (own (nodes (heap st)) t) nowhere s0 (heap st) t pos size base r st' us) st.

Lemma all_bytes_divides s ts : storage_ok s → Forall (every (leaf_fits s)) ts → (valueSize s | zlen (all_bytes ts)).
Proof.
  intros Hs H. induction H as [|u ts Hu _ IH]; [by exists 0|]. rewrite all_bytes_cons, zlen_app.
  apply Z.divide_add_r; [|done]. by apply fits_divides; [apply (so_size s Hs)|].
Qed.
Lemma request_kid s0 a ts i u pos size base abs : storage_ok s0 → Forall (every (leaf_fits s0)) ts → ts !! i = Some u →
  request s0 (TNode a ts) pos size base abs → let off := zlen (all_bytes (take i ts)) in
  0 ≤ pos - off ≤ zlen (bytes u) → request s0 u (pos - off) size (base + off) abs.
Proof.
  intros Hs Hts Hi [H1 H2 H3 H4 H5 H6 H7] off Hp. pose proof (zlen_nonneg (all_bytes (take i ts))) as Hz. fold off in Hz.
  assert (Hd : (valueSize s0 | off)) by (apply (all_bytes_divides s0); [done|by apply Forall_take]).
  split; try done; try lia; [by apply Z.divide_sub_r|by apply Z.divide_add_r].
Qed.

Section unfrozen_branch.
Context `{Al : Allocator} (Hal : ∀ n, 0 < n → is_Some (alloc n)) (ins : Z → Z → Z → Z → M CFStorageDoubleNodeReturn).
Context (R O : list Z) (ext : Z → Z) (s0 : __CFStorage) (pos size base abs : Z) (st : state).
Context (a : Z) (ts : list tree) (n : CFStorageNode).
Context (Hs0 : storage_ok s0) (Hthis : same_storage s0 (this st)) (Hinv : inv R O ext (heap st)).
Context (Hfine : fine s0 (nodes (heap st)) (TNode a ts)) (HO : ∀ x, x ∈ addrs (TNode a ts) → x ∉ O).
Context (Hn : nodes (heap st) !! a = Some n) (Hcount : refCount n ≤ 1).
Context (Hrec : Forall (inserts ins) ts) (Hreq : request s0 (TNode a ts) pos size base abs).
Abbreviation m := (nodes (heap st)).
Abbreviation t := (TNode a ts).

Lemma branch_facts : info n = notLeaf (pad ts) ∧ numBytes n = zlen (all_bytes ts) ∧ (2 ≤ length ts ≤ 3)%nat ∧ a ∉ O ∧
  (∀ x, 0 ≤ ext x) ∧ (a ∉ R → 0 < refCount n) ∧ inv R (a :: O) (ext ⊕ kids_ext ts) (heap st) ∧ own m t a ∧ Forall (fine s0 m) ts.
Proof.
  pose proof (every_here _ _ (fine_sound _ _ _ Hfine)) as [(n' & Hn' & Hi & Hb & Hlen) _]. cbn in Hn'. rewrite Hn in Hn'. injection Hn' as <-.
  assert (Ha : a ∉ O) by (apply HO, addrs_node; by left). split_and!; try done.
  - lia.
  - lia.
  - apply (inv_ext _ _ _ _ Hinv).
  - intros Hr. by apply (inv_pos _ _ _ _ Hinv a n Hn Hr Ha).
  - refine (inv_same _ _ _ _ _ _ (inv_open R O ext _ a n Hinv Hn Ha)). intros x. unfold eplus. by rewrite (slots_pad n ts Hi), occ_pad.
  - by apply (own_here _ t n).
  - by apply fine_kids with (a := a).
Qed.

(** The child is inserted into, replaced if need be, and the slot of the branch set. *)
Definition place_child (i : nat) (old : Z) (newNodes : CFStorageDoubleNodeReturn) : M () :=
  if child newNodes =? old then mret ()
  else __CFStorageReleaseNode old;; __CFStorageSetChild a i (Some (child newNodes)).

Lemma place_child_ok i u r us st1 : ts !! i = Some u →
  let off := zlen (all_bytes (take i ts)) in
  inserted R (a :: O) (ext ⊕ kids_ext ts) (own m u) nowhere s0 (heap st) u (pos - off) size (base + off) r st1 us →
  wp (place_child i (addr u) r)
    (λ _ st2, settled R (a :: O) (ext ⊕ kids_ext (row ts i us)) (own m t) (.∈ addrs t) s0 (heap st) (row ts i us) base st2 ∧
       branch_at st2 a (<[i := Some (child r)]> (pad ts)) (zlen (all_bytes ts)) (refCount n) ∧
       mutable (a :: O) (own m t) (.∈ addrs t) (heap st) (row ts i us) a) st1.
Proof.
  intros Hi off Hins. destruct branch_facts as (Hin & Hbn & Hlen & Ha & Hext & Hpos & Hinv' & Hown & Hkids).
  assert (Hu : u ∈ ts) by (by eapply list_elem_of_lookup_2). pose proof (fine_sound _ _ _ Hfine) as Hsound.
  assert (Hout : outside (row ts i us) a).
  { intros v Hv Hx. apply row_cases in Hv as [Hv|(j & _ & Hj)].
    - apply (result_apart R O ext s0 (heap st) a ts Hinv' Hsound HO i u Hi _ _ _ _ _ _ Hins v a Hv Hx). left.
    - apply list_elem_of_lookup_2 in Hj. apply (open_apart O (heap st) a ts Hsound HO v a Hj Hx). left. }
  assert (Hmut : mutable (a :: O) (own m t) (.∈ addrs t) (heap st) (row ts i us) a).
  { split_and!; [left|right; split; [apply addrs_node; by left|done]|done]. }
  assert (Hgo : ∀ st2, settled R (a :: O) (ext ⊕ kids_ext (row ts i us)) (own m u) (.∈ addrs u) s0 (heap st) us (base + off) st2 →
     settled R (a :: O) (ext ⊕ kids_ext (row ts i us)) (own m t) (.∈ addrs t) s0 (heap st) (row ts i us) base st2 ∧
     branch_at st2 a (pad ts) (zlen (all_bytes ts)) (refCount n)).
  { intros st2 Hs. split.
    - eapply settled_weaken; [by eapply settled_row|..]; intros x Hx.
      + by apply (own_kid _ a ts u n).
      + apply addrs_node. right. by exists u.
    - exists n. split; [|done]. rewrite (ev_out _ _ _ _ _ (ok_ev _ _ _ _ _ _ _ _ _ (se_ok _ _ _ _ _ _ _ _ _ _ Hs))); [done| |].
      + by apply (inv_dom _ _ _ _ Hinv _ n).
      + intros Hx. apply (open_apart O (heap st) a ts Hsound HO u a Hu Hx). left. }
  unfold place_child. destruct (Z.eqb_spec (child r) (addr u)) as [E|E].
  - apply wp_ret. destruct (Hgo st1) as [H1 H2]; [by eapply settle_same|]. split_and!; [done| |done].
    rewrite E, list_insert_id; [done|]. unfold pad. rewrite lookup_app_l by (rewrite length_fmap; by eapply lookup_lt_Some).
    by rewrite list_lookup_fmap, Hi.
  - apply wp_bind. eapply wp_mono; [by eapply settle_release|]. intros [] st2 Hs2. destruct (Hgo st2 Hs2) as [H1 H2].
    eapply wp_set_child; [exact H1|exact Hmut|exact H2|]. intros st3 H3 _ _ H4. done.
Qed.

Lemma linked_inserted i u us r st1 r' st2 : ts !! i = Some u →
  let off := zlen (all_bytes (take i ts)) in 0 ≤ pos - off ≤ zlen (bytes u) →
  inserted R (a :: O) (ext ⊕ kids_ext ts) (own m u) nowhere s0 (heap st) u (pos - off) size (base + off) r st1 us →
  linked_row R O ext (own m t) (.∈ addrs t) s0 (heap st) base a (row ts i us) r' st2 →
  ∃ row', inserted R O ext (own m t) nowhere s0 (heap st) t pos size base r' st2 row'.
Proof.
  intros Hi off Hp Hins (Hc & row' & [S1 S2 S3 S4] & Haddr & Hbytes & Hwhere & _). exists row'. split; [|by rewrite Hc|done| | | |done|].
  - eapply ok_same; [exact S1|]. rewrite Hc. cbn. rewrite decide_True by done. ext_eq.
  - rewrite Hbytes. apply (row_bytes ts i u); [done|done|]. apply (is_bytes _ _ _ _ _ _ _ _ _ _ _ _ _ _ Hins).
  - intros v x Hv Hx. destruct (Hwhere v x Hv Hx) as [->|[H|(w & Hw & Hxw)]]; [left; apply addrs_node; by left|by right|].
    apply row_cases in Hw as [Hw|(j & _ & Hj)].
    + destruct (is_where _ _ _ _ _ _ _ _ _ _ _ _ _ _ Hins w x Hw Hxw) as [H|H]; [left|by right].
      apply addrs_node. right. exists u. split; [by eapply list_elem_of_lookup_2|done].
    + left. apply addrs_node. right. exists w. split; [by eapply list_elem_of_lookup_2|done].
  - intros v Hv. left. by apply (proj1 (Forall_forall _ _) S3).
  - intros x H. by destruct H.
Qed.
Lemma insert_branch_unfrozen_ok :
  wp (__CFStorageInsertBranchUnfrozen ins a pos size abs)
    (λ r st', ∃ us, inserted R O ext (own m t) nowhere s0 (heap st) t pos size base r st' us) st.
Proof.
  destruct branch_facts as (Hin & Hbn & Hlen & Ha & Hext & Hpos & Hinv' & Hown & Hkids).
  pose proof (fine_sound _ _ _ Hfine) as Hsound. pose proof (rq_pos _ _ _ _ _ _ Hreq) as Hp.
  unfold __CFStorageInsertBranchUnfrozen. apply wp_bind. eapply wp_load; [done|]. apply wp_bind.
  eapply wp_mono; [eapply (find_child_ok n ts pos true st); [done|done| |lia|apply Hp]|].
  { eapply Forall_impl; [exact Hkids|]. intros u Hu. apply (fine_sound _ _ _ Hu). }
  intros p ? (-> & i & u & -> & Hi & Hrel). cbn in Hrel. set (off := zlen (all_bytes (take i ts))) in *.
  assert (Hu : u ∈ ts) by (by eapply list_elem_of_lookup_2). apply wp_bind.
  eapply wp_mono; [eapply (proj1 (Forall_forall _ _) Hrec u Hu R (a :: O) (ext ⊕ kids_ext ts) s0 (pos - off) size (base + off) abs st)|];
    [done|done|done|by apply (proj1 (Forall_forall _ _) Hkids)| | | | |eapply request_kid; [done|eapply Forall_impl; [exact Hkids|apply fine_fits]|done|exact Hreq|exact Hrel]|].
  { intros x. by apply (open_apart O (heap st) a ts Hsound HO u). }
  { by apply kid_held. }
  { by apply (kid_not_root R O ext (heap st) a ts Hext Hinv'). }
  { by apply (kid_guarded (heap st) a ts). }
  intros r st1 (us & Hins). apply wp_bind.
  eapply (wp_mono (place_child i (addr u) r)); [by eapply place_child_ok|]. intros [] st2 (Hs2 & Hb2 & Hm2).
  eapply (wp_mono (link_branch a i size (sibling r))); [|intros r' st3 H; by eapply linked_inserted].
  eapply (link_branch_ok Hal R O ext (own m t) _ s0 (heap st) base a Hext Ha (refCount n) Hcount Hpos ts i u us r); try done.
  - apply (is_result _ _ _ _ _ _ _ _ _ _ _ _ _ _ Hins).
  - rewrite (row_bytes ts i u us pos size Hi) by (try done; apply (is_bytes _ _ _ _ _ _ _ _ _ _ _ _ _ _ Hins)).
    apply zlen_room; [done|]. apply Z.lt_le_incl, (rq_size _ _ _ _ _ _ Hreq).
Qed.
End unfrozen_branch.
