(* ===== verification/StorageFrozen.v ===== *)
(** * Insertion in frozen nodes of a CFStorage

    A frozen node may belong to several storages: it is left as it is, and new
    nodes take its place, which share its children. *)
From S2P Require Import Prelude Storage StorageSpec StorageOps StorageInsert StorageBranch.
From stdpp Require Import gmap list.
Open Scope Z_scope.

(** ** The children of a shared node are retained and frozen *)

Definition frozen_at (m : gmap Z CFStorageNode) (a : Z) : Prop := ∃ n, m !! a = Some n ∧ isFrozen n = true.
Lemma frozen_guarded m a : frozen_at m a → guarded_at m a.
Proof. intros (n & Hn & Hf) n' Hn' H. rewrite Hn in Hn'. injection Hn' as <-. congruence. Qed.
Lemma evolves_frozen D X Rch h h' a : evolves D X Rch h h' → frozen_at (nodes h) a → a < next h → ¬ D a →
  is_Some (nodes h' !! a) → frozen_at (nodes h') a.
Proof.
  intros Hev (n & Hn & Hf) Ha HD [n' Hn']. destruct (ev_in _ _ _ _ _ Hev a n' Ha HD Hn') as (n0 & H0 & (_ & _ & _ & _ & H) & _).
  rewrite Hn in H0. injection H0 as <-. exists n'. split; [done|by apply H].
Qed.
(** What may be unguarded on the way is guarded in the end, because it is frozen. *)
Lemma evolves_guarded D X Rch h h' : evolves D X Rch h h' →
  (∀ b, b < next h → X b → ∀ n', nodes h' !! b = Some n' → isFrozen n' = true) → evolves D nowhere Rch h h'.
Proof.
  intros [N1 O1 I1] HX. split; [done..|]. intros b n' Hb HD Hn'. destruct (I1 b n' Hb HD Hn') as (n & Hn & Hs & Hg).
  exists n. split_and!; [done..|]. intros _ H Hf. destruct (isFrozen n) eqn:E.
  - destruct Hs as (_ & _ & _ & _ & Hs). specialize (Hs E). congruence.
  - destruct (Z.leb_spec (refCount n') 1) as [|Hgt]; [done|]. exfalso.
    assert (Hx : ¬ ¬ X b) by (intros Hx; specialize (Hg Hx H Hf); lia). apply Hx. intros Hxb. specialize (HX b Hb Hxb n' Hn'). congruence.
Qed.

Lemma put_put a n n' h : put a n' (put a n h) = put a n' h.
Proof. unfold put. cbn. by rewrite insert_insert_eq. Qed.

Section children.
Context (R O : list Z).

Record gotten (ext : Z → Z) (kept : list tree) (Rch : Z → Prop) (st0 st : state) : Prop := {
  gt_this : this st = this st0;
  gt_inv : inv R O (ext ⊕ kids_ext kept) (heap st);
  gt_ev : evolves nowhere nowhere Rch (heap st0) (heap st);
  gt_next : next (heap st) = next (heap st0);
  gt_frozen u : u ∈ kept → frozen_at (nodes (heap st)) (addr u);
}.
Lemma get_child_ok ext kept Rch st0 st u : gotten ext kept Rch st0 st → is_Some (nodes (heap st) !! addr u) →
  addr u ∉ R → addr u ∉ O → Rch (addr u) →
  wp (get_child true true (Some (addr u))) (λ _ st', gotten ext (kept ++ [u]) Rch st0 st' ∧
    (∀ x, x ≠ addr u → nodes (heap st') !! x = nodes (heap st) !! x)) st.
Proof.
  intros [H1 H2 H3 H4 H5] [n Hn] HR HO Hr. unfold get_child, __CFStorageRetainNode.
  assert (Hpos : 0 < refCount n) by (by apply (inv_pos _ _ _ _ H2 (addr u) n)).
  apply wp_bind, wp_bind, wp_bind. eapply wp_load; [done|]. rewrite (proj2 (Z.ltb_lt _ _)) by done. apply wp_bind.
  eapply wp_put; [done|]. apply wp_ret, wp_ret. unfold __CFStorageFreezeNode. eapply wp_put; [cbn; apply lookup_insert_eq|].
  cbn [heap with_heap]. rewrite put_put. set (n' := set_isFrozen true (set_refCount (refCount n + 1) n)).
  split; [|intros x Hx; cbn; by rewrite lookup_insert_ne]. split; cbn; [done| | |done|].
  - eapply (inv_put R O _ _ _ (addr u) n n' H2 Hn); [by right|done| | |intros _ _; cbn; lia].
    + intros x. unfold eplus. rewrite kids_ext_app, kids_ext_cons. unfold one. change (kids_ext [] x) with 0.
      repeat case_decide; cbn; try congruence; lia.
    + unfold eplus. pose proof (inv_ext _ _ _ _ H2 (addr u)) as Hx. unfold eplus in Hx. rewrite kids_ext_app.
      pose proof (kids_ext_nonneg [u] (addr u)). lia.
  - eapply (evolves_put nowhere nowhere Rch _ _ (addr u) n n'); [done..|]. right. split; [done|]. right. split; [by split_and!|].
    right. by intros _ Hf.
  - intros v [Hv| ->%list_elem_of_singleton]%elem_of_app.
    + destruct (H5 v Hv) as (k & Hk & Hf). destruct (decide (addr v = addr u)) as [->|Hne].
      * exists n'. by rewrite lookup_insert_eq.
      * exists k. by rewrite lookup_insert_ne.
    + exists n'. by rewrite lookup_insert_eq.
Qed.

Lemma get_children_ok ext ts a n st : inv R O ext (heap st) → nodes (heap st) !! a = Some n → info n = notLeaf (pad ts) →
  (length ts ≤ 3)%nat → (∀ u, u ∈ ts → is_Some (nodes (heap st) !! addr u) ∧ addr u ∉ R ∧ addr u ∉ O) →
  wp (__CFStorageGetChildren a true true)
    (λ cs st', cs = pad ts ∧ gotten ext ts (λ x, ∃ u, u ∈ ts ∧ x = addr u) st st') st.
Proof.
  intros Hinv Hn Hi Hlen Hts. set (Rch := λ x, ∃ u, u ∈ ts ∧ x = addr u). unfold __CFStorageGetChildren. apply wp_bind. eapply wp_load; [done|].
  assert (H0 : gotten ext (take 0 ts) Rch st st).
  { split; [done| |apply evolves_refl|done|by intros u ?%elem_of_nil]. refine (inv_same _ _ _ _ _ _ Hinv). intros x. unfold eplus. change (kids_ext (take 0 ts) x) with 0. lia. }
  assert (Hstep : ∀ i st', gotten ext (take i ts) Rch st st' → (∀ u, u ∈ ts → is_Some (nodes (heap st') !! addr u)) →
    wp (get_child true true (addr <$> ts !! i)) (λ _ st', gotten ext (take (S i) ts) Rch st st' ∧ (∀ u, u ∈ ts → is_Some (nodes (heap st') !! addr u))) st').
  { intros i st' Hg Hl. destruct (ts !! i) as [u|] eqn:E; cbn.
    - assert (Hu : u ∈ ts) by (by eapply list_elem_of_lookup_2). rewrite (take_S_r ts i u E).
      eapply wp_mono; [apply (get_child_ok ext (take i ts) Rch st st' u Hg); [by apply Hl|by apply Hts|by apply Hts|by exists u]|].
      intros [] st'' [Hg' Hsame]. split; [done|]. intros v Hv. destruct (decide (addr v = addr u)) as [->|Hne].
      + destruct (gt_frozen _ _ _ _ _ Hg' u) as (k & Hk & _); [apply elem_of_app; right; left|]. by exists k.
      + rewrite Hsame by done. by apply Hl.
    - apply wp_ret. apply lookup_ge_None in E. by rewrite !take_ge in * by lia. }
  apply wp_bind. eapply wp_pad; [done|done|lia|]. apply wp_bind.
  eapply wp_mono; [apply (Hstep 0%nat st H0); intros u Hu; by apply Hts|]. intros [] st1 [H1 L1].
  apply wp_bind. eapply wp_pad; [done|done|lia|]. apply wp_bind. eapply wp_mono; [by apply (Hstep 1%nat st1)|]. intros [] st2 [H2 L2].
  apply wp_bind. eapply wp_pad; [done|done|lia|]. apply wp_bind. eapply wp_mono; [by apply (Hstep 2%nat st2)|]. intros [] st3 [H3 _].
  apply wp_ret. rewrite take_ge in H3 by lia. split; [|done]. by destruct ts as [|? [|? [|? [|? ?]]]]; [..|cbn in Hlen; lia].
Qed.
End children.

(** ** Trees made of new nodes over old ones

    The nodes from address [n0] on are new; the old trees below them have the
    memory of all their leaves. *)
Inductive built (n0 : Z) (m : gmap Z CFStorageNode) : tree → Prop :=
| built_old t : every (backed m) t → built n0 m t
| built_leaf a l : n0 ≤ a → built n0 m (TLeaf a l)
| built_node a ts : n0 ≤ a → Forall (built n0 m) ts → built n0 m (TNode a ts).
Inductive fresh_path (n0 : Z) : tree → Z → Prop :=
| fresh_here t : n0 ≤ addr t → fresh_path n0 t (addr t)
| fresh_kid a ts u x : n0 ≤ a → u ∈ ts → fresh_path n0 u x → fresh_path n0 (TNode a ts) x.

Record made (n0 : Z) (s : __CFStorage) (m : gmap Z CFStorageNode) (t : tree) : Prop := {
  made_sound : every (sound m) t;
  made_fits : every (leaf_fits s) t;
  made_built : built n0 m t;
  made_single x : x ∈ addrs t → n0 ≤ x → single m x;
}.
Definition cached_fresh (n0 : Z) (s : __CFStorage) (m : gmap Z CFStorageNode) (us : list tree) (base c : Z) : Prop :=
  ∃ off l n li, in_row us off (TLeaf c l) ∧ m !! c = Some n ∧ info n = leaf li ∧
    location (cachedRange li) * valueSize s = base + off ∧
    0 ≤ range_length (cachedRange li) ∧ range_length (cachedRange li) * valueSize s ≤ zlen l ∧
    ∃ u, u ∈ us ∧ fresh_path n0 u c.

Lemma built_ready n0 m t : built n0 m t → (∀ x, x ∈ addrs t → n0 ≤ x → single m x) → ready m t.
Proof.
  induction t as [a l|a ts IH] using tree_induction; intros Hb Hs; inversion Hb; subst.
  - by apply ready_backed.
  - apply ready_leaf. apply Hs; [by apply addrs_leaf|done].
  - by apply ready_backed.
  - match goal with H : Forall (built _ _) _ |- _ => rename H into Hts end.
    apply ready_node; [apply Hs; [apply addrs_node; by left|done]|]. rewrite Forall_forall in IH, Hts |- *.
    intros u Hu. apply IH; [done|by apply Hts|]. intros x Hx. apply Hs, addrs_node. right. by exists u.
Qed.
Lemma made_fine n0 s m t : made n0 s m t → fine s m t.
Proof. intros [H1 H2 H3 H4]. split; [done..|]. by eapply built_ready. Qed.
Lemma fresh_own n0 s m t c : made n0 s m t → fresh_path n0 t c → own m t c.
Proof.
  intros [_ _ _ Hs] H. induction H as [t Ha|a ts u x Ha Hu _ IH].
  - destruct (Hs (addr t) (addr_addrs t) Ha) as (n & Hn & Hc). by apply (own_here m t n).
  - destruct (Hs a (proj2 (addrs_node a a ts) (or_introl eq_refl)) Ha) as (n & Hn & Hc). apply (own_kid m a ts u n); [done..|].
    apply IH. intros y Hy. apply Hs, addrs_node. right. by exists u.
Qed.
Lemma fresh_path_new n0 t c : fresh_path n0 t c → n0 ≤ c.
Proof. by induction 1. Qed.
Lemma fresh_cached n0 s m us base c : Forall (made n0 s m) us → cached_fresh n0 s m us base c → cached s m us base c.
Proof.
  intros Hm (off & l & n & li & Hr & Hn & Hi & H1 & H2 & H3 & u & Hu & Hf). exists off, l, n, li. split_and!; try done.
  intros _. exists u. split; [done|]. eapply fresh_own; [|done]. by apply (proj1 (Forall_forall _ _) Hm).
Qed.
Lemma frame_backed D X Rch h h' t : evolves D X Rch h h' → every (linked (nodes h')) t →
  (∀ x, x ∈ addrs t → x < next h ∧ ¬ D x) → every (backed (nodes h)) t → every (backed (nodes h')) t.
Proof.
  intros Hev Hl Hx Hb. unfold every in *. rewrite Forall_forall in Hl, Hb |- *. intros u Hu. specialize (Hl u Hu). specialize (Hb u Hu).
  destruct u as [a l|]; [|done]. destruct Hb as (n & Hn & Hm), Hl as (n' & Hn' & _). cbn in Hn'. exists n'. split; [done|].
  destruct (Hx a) as [H1 H2]; [unfold addrs; apply list_elem_of_fmap; by exists (TLeaf a l)|].
  destruct (ev_in _ _ _ _ _ Hev a n' H1 H2 Hn') as (n0 & H0 & (_ & H & _) & _). rewrite Hn in H0. injection H0 as <-. by apply H.
Qed.

(** Old nodes change without losing memory, new ones do not change. *)
Lemma frame_built n0 Rch X h h' t : evolves nowhere X Rch h h' → every (linked (nodes h')) t →
  (∀ x, x ∈ addrs t → x < next h) → built n0 (nodes h) t → built n0 (nodes h') t.
Proof.
  intros Hev. induction t as [a l|a ts IH] using tree_induction; intros Hl Hx Hb.
  - inversion Hb as [t H| |]; subst; [apply built_old; eapply frame_backed; [exact Hev|done|intros x Hxt; split; [by apply Hx|by intros []]|done]|by apply built_leaf].
  - inversion Hb as [t H| |b ts' Ha Hts]; subst; [apply built_old; eapply frame_backed; [exact Hev|done|intros x Hxt; split; [by apply Hx|by intros []]|done]|]. apply built_node; [done|].
    apply every_node in Hl as [_ Hl]. rewrite Forall_forall in IH, Hl, Hts |- *. intros u Hu. apply IH; [done|by apply Hl| |by apply Hts].
    intros x Hxu. apply Hx, addrs_node. right. by exists u.
Qed.
Lemma frame_made R n0 s X Rch O O0 ext ext0 h h' t :
  evolves nowhere X Rch h h' → inv R O0 ext0 h → inv R O ext h' → made n0 s (nodes h) t →
  (∀ x, x ∈ addrs t → (x = addr t ∨ ¬ X x) ∧ x ∉ O) → (∀ x, Rch x → x < n0) → is_Some (nodes h' !! addr t) → made n0 s (nodes h') t.
Proof.
  intros Hev Hinv0 Hinv [H1 H2 H3 H4] Hx Hr Hlive.
  assert (Hs : every (sound (nodes h')) t).
  { eapply (frame_sound R); [exact Hev|exact Hinv0|exact Hinv|done| |done]. intros x Hxt. destruct (Hx x Hxt). split_and!; [by intros []|done|done]. }
  assert (Hd : ∀ x, x ∈ addrs t → x < next h) by (intros x; eapply (linked_dom R); [exact Hinv0|by apply sound_every_linked]).
  split; [done|done| |].
  - eapply frame_built; [exact Hev|by apply sound_every_linked|done|done].
  - intros x Hxt Hn0. destruct (H4 x Hxt Hn0) as (n & Hn & Hc). exists n. split; [|done].
    rewrite (ev_out _ _ _ _ _ Hev); [done|by apply Hd|]. intros Hrx. specialize (Hr x Hrx). lia.
Qed.
Lemma cached_fresh_keep n0 s m m' us base c : cached_fresh n0 s m us base c → (n0 ≤ c → ∀ n, m !! c = Some n → m' !! c = Some n) →
  cached_fresh n0 s m' us base c.
Proof.
  intros (off & l & n & li & Hr & Hn & Hi & H1 & H2 & H3 & u & Hu & Hf) H. exists off, l, n, li. split_and!; try done; [|by exists u].
  apply H; [by eapply fresh_path_new|done].
Qed.

(** ** The result of an insertion that leaves the old nodes as they are *)

Record rebuilt (R O : list Z) (ext : Z → Z) (s0 : __CFStorage) (h0 : store) (t : tree)
    (pos size base : Z) (r : CFStorageDoubleNodeReturn) (st : state) (us : list tree) : Prop := {
  rb_ok : ok R O (ext ⊕ maybe_one (if decide (child r = addr t) then None else Some (child r)) ⊕ maybe_one (sibling r))
            nowhere (λ x, x = addr t) (.∈ addrs t) s0 h0 st;
  rb_result : addr <$> us = child r :: option_list (sibling r);
  rb_made : Forall (made (next h0) s0 (nodes (heap st))) us;
  rb_bytes : all_bytes us = room pos size (bytes t);
  rb_where u x : u ∈ us → x ∈ addrs u → x ∈ addrs t ∨ next h0 ≤ x;
  rb_guarded u : u ∈ us → guarded_at (nodes (heap st)) (addr u) ∨ addr u = addr t;
  rb_cache : ∃ c, cacheNode (this st) = Some c ∧ cached_fresh (next h0) s0 (nodes (heap st)) us base c;
}.

Lemma ok_refl R O ext D X Rch s0 st : same_storage s0 (this st) → inv R O ext (heap st) → ok R O ext D X Rch s0 (heap st) st.
Proof. intros H1 H2. split; [done|done|apply evolves_refl]. Qed.
Lemma made_leaf n0 s m b l n : m !! b = Some n → leaf_ok n l → refCount n = 1 → n0 ≤ b →
  0 < zlen l ≤ maxLeafCapacity s → (valueSize s | zlen l) → made n0 s m (TLeaf b l).
Proof.
  intros Hn Hok Hc Hb Hl Hv. split.
  - apply every_leaf. split; [by exists n|apply Forall_nil_2].
  - by apply every_leaf.
  - by apply built_leaf.
  - intros x ->%addrs_leaf _. exists n. split; [done|lia].
Qed.
Lemma made_old n0 s m t : every (sound m) t → every (leaf_fits s) t → every (backed m) t → (∀ x, x ∈ addrs t → x < n0) → made n0 s m t.
Proof. intros H1 H2 H3 H4. split; [done|done|by apply built_old|]. intros x Hx. specialize (H4 x Hx). lia. Qed.
Lemma below_gap_after l k m : below l m → 0 ≤ k → zlen l + k ≤ zlen m → below (l ++ gap k) m.
Proof.
  intros H Hk Hm. apply below_app. split; [done|]. apply below_gap. rewrite zlen_drop. unfold zlen in *. lia.
Qed.

Section frozen_leaf.
Context `{Al : Allocator} (Hal : ∀ n, 0 < n → is_Some (alloc n)).
Context (R O : list Z) (ext : Z → Z) (s0 : __CFStorage) (Hs0 : storage_ok s0) (st : state).
Context (a : Z) (l : list (option Z)) (n : CFStorageNode) (li : leaf_info) (m : list Z) (pos size base abs : Z).
Context (Hthis : same_storage s0 (this st)) (Hinv : inv R O ext (heap st)) (HR : a ∉ R) (HO : a ∉ O).
Context (Hsound : every (sound (nodes (heap st))) (TLeaf a l)) (Hfits : every (leaf_fits s0) (TLeaf a l)).
Context (Hback : every (backed (nodes (heap st))) (TLeaf a l)).
Context (Hn : nodes (heap st) !! a = Some n) (Hi : info n = leaf li) (Hmem : memory li = Some m).
Context (Hreq : request s0 (TLeaf a l) pos size base abs).
Abbreviation t := (TLeaf a l).
Abbreviation okay E st' := (ok R O E nowhere (λ x, x = addr t) (.∈ addrs t) s0 (heap st) st').
Abbreviation result r st' := (∃ us, rebuilt R O ext s0 (heap st) t pos size base r st' us).

Lemma leaf_facts : numBytes n = zlen l ∧ below l m ∧ 0 < zlen l ≤ maxLeafCapacity s0 ∧ (valueSize s0 | zlen l) ∧
  0 < valueSize s0 ∧ a < next (heap st) ∧ 0 ≤ pos ≤ zlen l ∧ 0 < size ≤ maxLeafCapacity s0 ∧ (valueSize s0 | size) ∧
  0 ≤ base ∧ base = abs - pos ∧ (valueSize s0 | base) ∧ okay ext st.
Proof.
  apply every_leaf in Hsound as [(n' & Hn' & Hnum & li' & Hi' & Hm) _]. cbn in Hn'. rewrite Hn in Hn'. injection Hn' as <-.
  rewrite Hi in Hi'. injection Hi' as <-. unfold memory_ok in Hm. rewrite Hmem in Hm. apply every_leaf in Hfits as [H1 H2].
  pose proof (so_size s0 Hs0) as Hv. pose proof (inv_dom _ _ _ _ Hinv _ n Hn) as Hd. destruct Hreq as [Q1 Q2 Q3 Q4 Q5 Q6 Q7].
  cbn in Q1. split_and!; first [done|lia|apply Hm|by apply ok_refl].
Qed.
Lemma old_made st' E : okay E st' → is_Some (nodes (heap st') !! a) → made (next (heap st)) s0 (nodes (heap st')) t.
Proof.
  intros [_ Hinv' Hev] Hlive. destruct leaf_facts as (_ & _ & _ & _ & _ & Hdom & _).
  eapply (frame_made R); [exact Hev|exact Hinv|exact Hinv'| | | |done].
  - apply made_old; [done..|]. by intros x ->%addrs_leaf.
  - intros x ->%addrs_leaf. split; [by left|done].
  - by intros x ->%addrs_leaf.
Qed.
Lemma leaf_range s loc nb : same_storage s0 s → 0 ≤ loc → 0 ≤ nb →
  __CFStorageConvertBytesToValueRange s loc nb = CFRangeMake (loc / valueSize s0) (nb / valueSize s0).
Proof. by apply range_of. Qed.
Lemma fresh_cached_leaf m' us off b l' n' li' loc k : in_row us off (TLeaf b l') → (∃ u, u ∈ us ∧ addr u = b) → next (heap st) ≤ b →
  m' !! b = Some n' → info n' = leaf li' → cachedRange li' = CFRangeMake (loc / valueSize s0) (k / valueSize s0) →
  (valueSize s0 | loc) → loc = base + off → 0 ≤ k ≤ zlen l' → cached_fresh (next (heap st)) s0 m' us base b.
Proof.
  intros Hr (u & Hu & Eu) Hb Hn' Hi' Hrange Hd -> Hk. pose proof (so_size s0 Hs0). exists off, l', n', li'. rewrite Hrange. cbn. split_and!; try done.
  - destruct Hd as [q ->]. by rewrite Z.div_mul by lia.
  - apply Z.div_pos; lia.
  - rewrite Z.mul_comm. pose proof (Z.mul_div_le k (valueSize s0)). lia.
  - exists u. split; [done|]. rewrite <- Eu. apply fresh_here. lia.
Qed.

(** Everything fits in one leaf. *)
Lemma frozen_fits : size + zlen l ≤ maxLeafCapacity s0 →
  wp (leftResult ← __CFStorageCreateNode true (size + zlen l);
      (__CFStorageAllocLeafNodeMemory leftResult (size + zlen l) false;;
       COPYMEM (Some m) 0 leftResult 0 pos;;
       COPYMEM (Some m) pos leftResult (pos + size) (zlen l - pos));;
      __CFStorageSetCache (Some leftResult) (abs - pos);;
      mret (CFStorageDoubleNodeReturnMake leftResult None)) (λ r st', result r st') st.
Proof.
  intros Hfit. destruct leaf_facts as (Hnum & Hb & Hl & Hvl & Hv & Hdom & Hpos & Hsize & Hvs & Hb0 & Eb & Hvb & Hok).
  apply wp_bind. eapply (create_node_ok Hal R nowhere _ _ s0 _ O ext); [exact Hok|]. intros b st1 Ebn -> Hok1. subst b. set (b := next (heap st)) in *.
  assert (Hmine : mine nowhere (.∈ addrs t) (heap st) b) by (left; unfold b; lia).
  apply wp_bind, wp_bind. eapply (alloc_ok Hal R nowhere _ _ s0 _ Hs0 O _ _ b _ empty_leaf [] (size + zlen l));
    [exact Hok1|cbn; apply lookup_insert_eq|done|by apply memory_ok_none|lia|by left|].
  intros l1 m1 st2 -> Hok2 Hkeep _ Hm1 Hz1.
  assert (Hcap : capacityInBytes l1 ≤ zlen m1).
  { specialize (Hkeep [] ltac:(rewrite zlen_nil; lia) ltac:(by apply memory_ok_none)). unfold memory_ok in Hkeep. rewrite Hm1 in Hkeep. apply Hkeep. }
  apply wp_bind. eapply (copy_ok R nowhere _ _ s0 _ O _ _ (Some m) m l 0 b _ l1 m1 [] pos); [exact Hok2|done|done|cbn; apply lookup_insert_eq|done|done|apply Forall2_nil_2|lia|lia|lia|rewrite zlen_nil; lia|done|].
  intros m2 st3 -> Hok3 Hb2 Hz2. cbn in Hb2. rewrite zdrop_0 in Hb2.
  assert (Hb2' : below (ztake pos l ++ gap size) m2) by (apply below_gap_after; [done|lia|rewrite zlen_ztake; lia]).
  replace (pos + size) with (zlen (ztake pos l ++ gap size)) by (rewrite zlen_app, zlen_ztake, zlen_gap; lia).
  eapply (copy_ok R nowhere _ _ s0 _ O _ _ (Some m) m l pos b _ _ m2 (ztake pos l ++ gap size) (zlen l - pos)); [exact Hok3|done|done|cbn; apply lookup_insert_eq|done|done|done|lia|lia|lia|rewrite zlen_app, zlen_ztake, zlen_gap; lia|done|].
  intros m3 st4 -> Hok4 Hb3 Hz3. rewrite (ztake_all (zlen l - pos)), <- app_assoc in Hb3 by (rewrite zlen_zdrop; lia). fold (room pos size l) in Hb3.
  apply wp_bind. eapply (set_cache_ok R nowhere _ _ s0 _ O _ _ b (abs - pos)); [exact Hok4|cbn; apply lookup_insert_eq|done|done|].
  intros st5 -> Hok5. apply wp_ret. pose proof (zlen_room pos size l ltac:(lia) ltac:(lia)) as Hzr.
  exists [TLeaf b (room pos size l)]. split.
  - eapply ok_same; [exact Hok5|]. cbn. rewrite decide_False by (unfold b; lia). ext_eq.
  - done.
  - apply Forall_singleton. eapply made_leaf; [cbn; apply lookup_insert_eq| |done|unfold b; lia|rewrite Hzr; lia|rewrite Hzr; by apply Z.divide_add_r].
    split; [cbn; lia|]. eexists. split; [done|]. unfold memory_ok. cbn. split; [lia|done].
  - unfold all_bytes. cbn. by rewrite app_nil_r.
  - intros u x ->%list_elem_of_singleton ->%addrs_leaf. right. unfold b. lia.
  - intros u ->%list_elem_of_singleton. left. cbn. intros n' Hn' _. rewrite lookup_insert_eq in Hn'. injection Hn' as <-. cbn. lia.
  - exists b. split; [done|]. eapply fresh_cached_leaf with (loc := abs - pos) (k := size + zlen l) (off := 0);
      [apply (in_row_here [])|by eexists; split; [left|]|unfold b; lia|cbn; apply lookup_insert_eq|done| |by rewrite <- Eb|lia|rewrite Hzr; lia].
    cbn. by apply leaf_range; [|lia|lia].
Qed.

(** A leaf of its own for what is inserted, which is put in the cache. *)
Lemma gap_leaf {B} E st1 (K : Z → M B) (Q : B → state → Prop) : okay E st1 → this st1 = this st → next (heap st) ≤ next (heap st1) →
  (∀ b st2, b = next (heap st1) → okay (E ⊕ one b) st2 → cacheNode (this st2) = Some b →
     (∀ x k, nodes (heap st1) !! x = Some k → nodes (heap st2) !! x = Some k) →
     made (next (heap st)) s0 (nodes (heap st2)) (TLeaf b (gap size)) → guarded_at (nodes (heap st2)) b →
     (∀ us off, in_row us off (TLeaf b (gap size)) → (∃ u, u ∈ us ∧ addr u = b) → abs = base + off →
        (valueSize s0 | off) → cached_fresh (next (heap st)) s0 (nodes (heap st2)) us base b) → wp (K b) Q st2) →
  wp (b ← __CFStorageCreateNode true size; __CFStorageSetCache (Some b) abs;; K b) Q st1.
Proof.
  intros Hok1 Ht Hnext HQ. destruct leaf_facts as (Hnum & Hb & Hl & Hvl & Hv & Hdom & Hpos & Hsize & Hvs & Hb0 & Eb & Hvb & _).
  apply wp_bind. eapply (create_node_ok Hal R nowhere _ _ s0 _ O); [exact Hok1|]. intros b st2 Ebn -> Hok2. subst b. set (b := next (heap st1)) in *.
  apply wp_bind. eapply (set_cache_ok R nowhere _ _ s0 _ O _ _ b abs); [exact Hok2|cbn; apply lookup_insert_eq|done|by left|].
  intros st3 -> Hok3. apply HQ; [done|done|done|..].
  - intros x k Hx. pose proof (inv_dom _ _ _ _ (ok_inv _ _ _ _ _ _ _ _ _ Hok1) x k Hx). cbn. by rewrite !lookup_insert_ne by (unfold b; lia).
  - eapply made_leaf; [cbn; apply lookup_insert_eq| |done|done|rewrite zlen_gap; lia|by rewrite zlen_gap by lia].
    split; [cbn; by rewrite zlen_gap by lia|]. eexists. split; [done|]. by apply memory_ok_gap.
  - intros n' Hn' _. cbn in Hn'. rewrite lookup_insert_eq in Hn'. injection Hn' as <-. cbn. lia.
  - intros us off Hr Hu Ea Hvo. eapply fresh_cached_leaf with (loc := abs) (k := size);
      [done|done|done|cbn; apply lookup_insert_eq|done| |rewrite Ea; by apply Z.divide_add_r|done|rewrite zlen_gap; lia].
    cbn. rewrite Ht. by apply leaf_range; [|lia|lia].
Qed.
(** At the end: the leaf stays. *)
Lemma frozen_at_end : pos = zlen l →
  wp (rightResult ← __CFStorageCreateNode true size;
      __CFStorageSetCache (Some rightResult) abs;;
      mret (CFStorageDoubleNodeReturnMake a (Some rightResult))) (λ r st', result r st') st.
Proof.
  intros Ep. destruct leaf_facts as (Hnum & Hb & Hl & Hvl & Hv & Hdom & Hpos & Hsize & Hvs & Hb0 & Eb & Hvb & Hok).
  eapply (gap_leaf ext); [done|done|lia|]. intros b st2 Eb2 Hok2 Hc Hsame Hmade Hg Hcache. apply wp_ret.
  assert (Ha2 : nodes (heap st2) !! a = Some n) by (by apply Hsame). exists [t; TLeaf b (gap size)]. split.
  - eapply ok_same; [exact Hok2|]. ext_eq.
  - done.
  - apply Forall_cons. split; [by eapply old_made|by apply Forall_singleton].
  - unfold all_bytes, room. cbn. by rewrite app_nil_r, Ep, ztake_all, zdrop_all, app_nil_r by lia.
  - intros u x Hu Hx. apply elem_of_cons in Hu as [->|Hu]; [by left|]. apply list_elem_of_singleton in Hu as ->. right. apply addrs_leaf in Hx as ->. lia.
  - intros u Hu. apply elem_of_cons in Hu as [->|Hu]; [by right|apply list_elem_of_singleton in Hu as ->; by left].
  - exists b. split; [done|]. apply (Hcache _ (zlen (all_bytes [t]))); [apply (in_row_here [t] (TLeaf b (gap size)) [])| |..].
    + eexists. by split; [right; left|].
    + unfold all_bytes. cbn. rewrite app_nil_r. lia.
    + unfold all_bytes. cbn. by rewrite app_nil_r.
Qed.
(** At the front: the leaf gets another reference, and may have two without being frozen. *)
Lemma frozen_at_front : pos = 0 →
  wp (rightResult ← __CFStorageRetainNode a;
      leftResult ← __CFStorageCreateNode true size;
      __CFStorageSetCache (Some leftResult) abs;;
      mret (CFStorageDoubleNodeReturnMake leftResult (Some rightResult))) (λ r st', result r st') st.
Proof.
  intros Ep. destruct leaf_facts as (Hnum & Hb & Hl & Hvl & Hv & Hdom & Hpos & Hsize & Hvs & Hb0 & Eb & Hvb & Hok).
  unfold __CFStorageRetainNode. apply wp_bind, wp_bind. eapply wp_load; [done|].
  assert (Hcount : 0 < refCount n) by (by apply (inv_pos _ _ _ _ Hinv a n Hn)). rewrite (proj2 (Z.ltb_lt _ _)) by done.
  apply wp_bind. eapply wp_put; [done|]. apply wp_ret. set (st1 := with_heap st _).
  assert (Hok1 : okay (ext ⊕ one a) st1).
  { destruct Hok as [O1 O2 O3]. split; [done|..].
    - eapply (inv_put R O ext _ _ a n); [done|done|by right|done|..]; try (intros; cbn; lia).
      + intros x. unfold eplus, one. case_decide; cbn; lia.
      + unfold eplus, one. rewrite decide_True by done. pose proof (inv_ext _ _ _ _ O2 a). lia.
    - eapply (evolves_put _ _ _ _ _ a n); [done..|]. right. split; [by apply addrs_leaf|]. right. split; [by split_and!|by left]. }
  eapply (gap_leaf (ext ⊕ one a)); [done|done|cbn; lia|]. intros b st2 Eb2 Hok2 Hc Hsame Hmade Hg Hcache. apply wp_ret. cbn in Eb2.
  assert (Ha2 : is_Some (nodes (heap st2) !! a)) by (eexists; apply Hsame; cbn; apply lookup_insert_eq).
  exists [TLeaf b (gap size); t]. split.
  - eapply ok_same; [exact Hok2|]. cbn. rewrite decide_False by lia. ext_eq.
  - done.
  - apply Forall_cons. split; [done|apply Forall_singleton; by eapply old_made].
  - unfold all_bytes, room. cbn. by rewrite app_nil_r, Ep, ztake_0, zdrop_0.
  - intros u x Hu Hx. apply elem_of_cons in Hu as [->|Hu]; [right|apply list_elem_of_singleton in Hu as ->; by left].
    apply addrs_leaf in Hx as ->. lia.
  - intros u Hu. apply elem_of_cons in Hu as [->|Hu]; [by left|apply list_elem_of_singleton in Hu as ->; by right].
  - exists b. split; [done|]. apply (Hcache _ 0); [apply (in_row_here [] (TLeaf b (gap size)) [t])|eexists; by split; [left|]|lia|by exists 0].
Qed.

(** In the middle, with two new leaves. *)
Definition with_memory (li : leaf_info) (m : list Z) : leaf_info :=
  {| capacityInBytes := capacityInBytes li; memory := Some m; cachedRange := cachedRange li |}.
Lemma copy_overlap_ok E st1 b nb lb md l1 g k from overlap to (Q : () → state → Prop) :
  okay E st1 → next (heap st) ≤ b → nodes (heap st1) !! b = Some nb → info nb = leaf lb → memory lb = Some md → below l1 md →
  range_length overlap = k → (0 < k → location overlap - size = from ∧ location overlap - to = zlen l1 + g) →
  0 ≤ k → 0 ≤ g → 0 ≤ from → from + k ≤ zlen l → zlen l1 + g + k ≤ zlen md →
  (∀ md' st2, st2 = with_heap st1 (put b (set_info (leaf (with_memory lb md')) nb) (heap st1)) → okay E st2 →
     below (l1 ++ gap g ++ ztake k (zdrop from l)) md' → zlen md' = zlen md → Q () st2) →
  wp (copy_overlap (Some m) overlap size b to) Q st1.
Proof.
  intros Hok1 Hb Hnb Hib Hmd H1 Ek Hloc Hk Hg Hf Hfl Hz HQ. destruct leaf_facts as (_ & Hbm & _). unfold copy_overlap. rewrite Ek.
  assert (H1g : below (l1 ++ gap g) md) by (apply below_gap_after; [done|lia|lia]). rewrite app_assoc in HQ.
  destruct (Z.ltb_spec 0 k) as [Hpos|Hzero].
  - destruct (Hloc Hpos) as [-> E2]. rewrite E2. replace (zlen l1 + g) with (zlen (l1 ++ gap g)) by (rewrite zlen_app, zlen_gap; lia).
    eapply (copy_ok R nowhere _ _ s0 _ O _ _ (Some m) m l from b nb lb md (l1 ++ gap g) k); [exact Hok1|done|done|done|done|done|done|lia|lia|lia| |by left|done].
    rewrite zlen_app, zlen_gap; lia.
  - apply wp_ret. replace k with 0 in HQ by lia. rewrite ztake_0, app_nil_r in HQ. apply (HQ md); [|done|done|done].
    rewrite with_heap_put; [done|]. rewrite Hnb. f_equal. destruct nb; cbn in *. unfold set_info, with_memory; cbn. rewrite Hib.
    destruct lb; cbn in *. by rewrite Hmd.
Qed.
Lemma overlaps max tot : max < tot → 0 < pos < zlen l → tot = size + zlen l → pos < max →
  let k := Z.max 0 (max - pos - size) in
  let left := intersectionRange (CFRangeMake 0 max) (CFRangeMake (pos + size) (zlen l - pos)) in
  let right := intersectionRange (CFRangeMake max (tot - max)) (CFRangeMake (pos + size) (zlen l - pos)) in
  range_length left = k ∧ (0 < k → location left = pos + size) ∧
  range_length right = zlen l - pos - k ∧ location right = pos + size + k.
Proof.
  intros Hmax Hp -> Hpm k left right. pose proof leaf_facts as (_ & _ & Hl & _ & _ & _ & _ & Hsize & _).
  unfold left, right, intersectionRange, k. cbn. zcases; cbn; split_and!; lia.
Qed.

Lemma middle_bytes max k : 0 ≤ pos ≤ zlen l → 0 ≤ max - pos - k → 0 ≤ pos + size + k - max → 0 ≤ k → k = 0 ∨ pos + size + k = max →
  (ztake pos l ++ gap (max - pos - k) ++ ztake k (zdrop pos l)) ++ gap (pos + size + k - max) ++ zdrop (pos + k) l = room pos size l.
Proof.
  intros Hp H1 H2 Hk [->|E]; unfold room.
  - rewrite ztake_0, app_nil_r, <- !app_assoc. f_equal. rewrite app_assoc, gap_app by lia. rewrite !Z.add_0_r. by replace (max - pos - 0 + (pos + size - max)) with size by lia.
  - replace (pos + size + k - max) with 0 by lia. replace (max - pos - k) with size by lia. change (gap 0) with (@nil (option Z)).
    rewrite <- !app_assoc. do 2 f_equal. cbn. unfold ztake, zdrop. replace (Z.to_nat (pos + k)) with (Z.to_nat pos + Z.to_nat k)%nat by lia.
    rewrite <- drop_drop. apply take_drop.
Qed.
Lemma frozen_in_middle : maxLeafCapacity s0 < size + zlen l → pos ≠ zlen l → pos ≠ 0 →
  let leftAmount := maxLeafCapacity s0 in
  let rightAmount := size + zlen l - maxLeafCapacity s0 in
  let preservedData := CFRangeMake (pos + size) (zlen l - pos) in
  wp (leftResult ← __CFStorageCreateNode true leftAmount;
      rightResult ← __CFStorageCreateNode true rightAmount;
      __CFStorageAllocLeafNodeMemory leftResult leftAmount false;;
      __CFStorageAllocLeafNodeMemory rightResult rightAmount false;;
      COPYMEM (Some m) 0 leftResult 0 pos;;
      copy_overlap (Some m) (intersectionRange (CFRangeMake 0 leftAmount) preservedData) size leftResult 0;;
      copy_overlap (Some m) (intersectionRange (CFRangeMake leftAmount rightAmount) preservedData) size rightResult leftAmount;;
      __CFStorageSetCache (Some leftResult) (abs - pos);;
      mret (CFStorageDoubleNodeReturnMake leftResult (Some rightResult))) (λ r st', result r st') st.
Proof.
  intros Hover Hne Hn0 max rest kept. destruct leaf_facts as (Hnum & Hb & Hl & Hvl & Hv & Hdom & Hpos & Hsize & Hvs & Hb0 & Eb & Hvb & Hok).
  fold max in Hover, Hl, Hsize. destruct (overlaps max (size + zlen l)) as (L1 & L2 & R1 & R2); [done|lia|done|lia|]. set (k := Z.max 0 (max - pos - size)) in *.
  apply wp_bind. eapply (create_node_ok Hal R nowhere _ _ s0 _ O ext); [exact Hok|]. intros b st1 Ebn -> Hok1. subst b. set (b := next (heap st)) in *.
  apply wp_bind. eapply (create_node_ok Hal R nowhere _ _ s0 _ O _); [exact Hok1|]. intros d st2 Edn -> Hok2. cbn in Edn. fold b in Edn. subst d. set (d := b + 1) in *.
  assert (Hbd : b ≠ d) by (unfold d; lia). assert (Hmb : mine nowhere (.∈ addrs t) (heap st) b) by (left; unfold b; lia).
  assert (Hmd : mine nowhere (.∈ addrs t) (heap st) d) by (left; unfold d, b; lia). clear Hok1.
  apply wp_bind. eapply (alloc_ok Hal R nowhere _ _ s0 _ Hs0 O _ _ b _ empty_leaf [] max); [exact Hok2|lk|done|by apply memory_ok_none|unfold max; lia|by left|].
  intros l1 m1 st3 -> Hok3 Hkeep1 _ Hm1 Hz1.
  apply wp_bind. eapply (alloc_ok Hal R nowhere _ _ s0 _ Hs0 O _ _ d _ empty_leaf [] rest); [exact Hok3|lk|done|by apply memory_ok_none|unfold rest; fold max; lia|by left|].
  intros l2 m2 st4 -> Hok4 Hkeep2 _ Hm2 Hz2.
  assert (Hcap : ∀ lf mm cap, 0 ≤ cap → (∀ l', zlen l' ≤ cap → memory_ok empty_leaf l' → memory_ok lf l') → memory lf = Some mm → capacityInBytes lf ≤ zlen mm).
  { intros lf mm cap Hc0 Hkeep Hmm. specialize (Hkeep [] ltac:(rewrite zlen_nil; lia) ltac:(by apply memory_ok_none)). unfold memory_ok in Hkeep. rewrite Hmm in Hkeep. apply Hkeep. }
  apply (Hcap l1 m1 max) in Hkeep1; [|lia|done]. apply (Hcap l2 m2 rest) in Hkeep2; [|unfold rest; lia|done]. clear Hcap.
  apply wp_bind. eapply (copy_ok R nowhere _ _ s0 _ O _ _ (Some m) m l 0 b _ l1 m1 [] pos); [exact Hok4|done|done|lk|done|done|apply Forall2_nil_2|lia|lia|lia|rewrite zlen_nil; lia|done|].
  intros m3 st5 -> Hok5 Hb3 Hz3. cbn in Hb3. rewrite zdrop_0 in Hb3. assert (Ezp : zlen (ztake pos l) = pos) by (rewrite zlen_ztake; lia).
  apply wp_bind. eapply (copy_overlap_ok _ _ b _ _ m3 (ztake pos l) (max - pos - k) k pos); [exact Hok5|unfold b; lia|cbn; apply lookup_insert_eq|done|done|exact Hb3|exact L1| |lia..|].
  { intros H. change (location (intersectionRange (CFRangeMake 0 max) kept)) with (location (intersectionRange (CFRangeMake 0 max) (CFRangeMake (pos + size) (zlen l - pos)))).
    rewrite (L2 H), Ezp. lia. }
  intros m4 st6 -> Hok6 Hb4 Hz4.
  apply wp_bind. eapply (copy_overlap_ok _ _ d _ _ m2 [] (pos + size + k - max) (zlen l - pos - k) (pos + k)); [exact Hok6|unfold d, b; lia|lk|done|done|apply Forall2_nil_2|exact R1| |lia..| |].
  { intros _. change (location (intersectionRange (CFRangeMake max rest) kept)) with (location (intersectionRange (CFRangeMake max (size + zlen l - max)) (CFRangeMake (pos + size) (zlen l - pos)))).
    rewrite R2, zlen_nil. lia. }
  { rewrite zlen_nil. unfold rest in Hz2. fold max in Hz2. lia. }
  intros m5 st7 -> Hok7 Hb5 Hz5. cbn [app] in Hb5. rewrite (ztake_all (zlen l - pos - k)) in Hb5 by (rewrite zlen_zdrop; lia).
  apply wp_bind. eapply (set_cache_ok R nowhere _ _ s0 _ O _ _ b (abs - pos)); [exact Hok7|lk|done|done|].
  intros st8 -> Hok8. apply wp_ret. set (lf := ztake pos l ++ gap (max - pos - k) ++ ztake k (zdrop pos l)) in *.
  set (rt := gap (pos + size + k - max) ++ zdrop (pos + k) l) in *.
  assert (Hzl : zlen lf = max) by (unfold lf; rewrite !zlen_app, Ezp, zlen_gap, (zlen_ztake k) by (rewrite ?zlen_zdrop; lia); lia).
  assert (Hzr : zlen rt = rest) by (unfold rt; rewrite zlen_app, zlen_gap, zlen_zdrop by lia; unfold rest; fold max; lia).
  exists [TLeaf b lf; TLeaf d rt]. split.
  - eapply ok_same; [exact Hok8|]. cbn. rewrite decide_False by (unfold b; lia). ext_eq.
  - done.
  - pose proof (so_divides s0 Hs0) as Hdiv. fold max in Hdiv. apply Forall_cons. split; [|apply Forall_singleton].
    + eapply made_leaf; [cbn; apply lookup_insert_eq| |done|unfold b; lia|fold max; lia|by rewrite Hzl]. split; [done|]. eexists. split; [done|]. split; [cbn; lia|done].
    + eapply made_leaf; [lk| |done|unfold d, b; lia|rewrite Hzr; unfold rest; fold max; lia|].
      * split; [done|]. eexists. split; [done|]. split; [cbn; lia|done].
      * rewrite Hzr. apply Z.divide_sub_r; [by apply Z.divide_add_r|done].
  - unfold all_bytes. cbn. rewrite app_nil_r. apply middle_bytes; lia.
  - intros u x Hu Hx. right. apply elem_of_cons in Hu as [->|Hu]; [|apply list_elem_of_singleton in Hu as ->]; apply addrs_leaf in Hx as ->; unfold d, b; lia.
  - intros u Hu. left. intros n' Hn' _. apply elem_of_cons in Hu as [->|Hu]; [|apply list_elem_of_singleton in Hu as ->]; cbn in Hn'.
    + rewrite lookup_insert_eq in Hn'. injection Hn' as <-. cbn. lia.
    + repeat (rewrite lookup_insert_eq in Hn' || rewrite lookup_insert_ne in Hn' by done). injection Hn' as <-. cbn. lia.
  - exists b. split; [done|]. eapply fresh_cached_leaf with (loc := abs - pos) (k := max) (off := 0);
      [apply (in_row_here [] (TLeaf b lf) [TLeaf d rt])|by eexists; split; [left|]|unfold b; lia|cbn; apply lookup_insert_eq|done| |by rewrite <- Eb|lia|lia].
    cbn. by apply leaf_range; [|lia|lia].
Qed.

Lemma insert_leaf_frozen_ok : wp (__CFStorageInsertLeafFrozen a pos size abs) (λ r st', result r st') st.
Proof.
  destruct leaf_facts as (Hnum & _). pose proof (same_storage_fields _ _ Hthis) as (_ & _ & _ & Emax & _).
  unfold __CFStorageInsertLeafFrozen. apply wp_bind, wp_self, wp_bind. eapply wp_load; [done|].
  apply wp_bind. eapply wp_leaf_of; [done|]. rewrite Emax, Hnum, Hmem.
  destruct (Z.leb_spec (size + zlen l) (maxLeafCapacity s0)) as [Hfit|Hover]; [by apply frozen_fits|].
  repeat match goal with |- context [?x =? ?y] => destruct (Z.eqb_spec x y) end; [by apply frozen_at_end|by apply frozen_at_front|by apply frozen_in_middle].
Qed.
End frozen_leaf.

(** ** A frozen branch *)

Definition rebuilds (ins : Z → Z → Z → Z → M CFStorageDoubleNodeReturn) (t : tree) : Prop := ∀ R O ext s0 pos size base abs st,
  storage_ok s0 → same_storage s0 (this st) → inv R O ext (heap st) → every (sound (nodes (heap st))) t →
  every (leaf_fits s0) t → every (backed (nodes (heap st))) t → (∀ x, x ∈ addrs t → x ∉ O) → addr t ∉ R →
  request s0 t pos size base abs →
  wp (ins (addr t) pos size abs) (λ r st', ∃ us, rebuilt R O ext s0 (heap st) t pos size base r st' us) st.

Lemma made_lower n0 n1 s m t : made n1 s m t → n0 ≤ n1 → (∀ x, x ∈ addrs t → n0 ≤ x → n1 ≤ x) → made n0 s m t.
Proof.
  intros [H1 H2 H3 H4] Hle Hx. split; [done|done| |intros x Hxt Hn; by apply H4, Hx]. clear -H3 Hle.
  induction t as [a l|a ts IH] using tree_induction; inversion H3; subst; [by apply built_old|apply built_leaf; lia|by apply built_old|].
  apply built_node; [lia|]. match goal with H : Forall (built _ _) _ |- _ => rename H into Hts end.
  rewrite Forall_forall in IH, Hts |- *. intros u Hu. apply IH; [done|by apply Hts].
Qed.
Lemma fresh_path_lower n0 n1 t c : fresh_path n1 t c → n0 ≤ n1 → fresh_path n0 t c.
Proof. intros H Hle. induction H; [apply fresh_here; lia|by eapply fresh_kid; [lia|..]]. Qed.
Lemma cached_fresh_row n0 n1 s m pre us post base c : n0 ≤ n1 →
  cached_fresh n1 s m us (base + zlen (all_bytes pre)) c → cached_fresh n0 s m (pre ++ us ++ post) base c.
Proof.
  intros Hle (off & l & n & li & Hr & Hn & Hi & H1 & H2 & H3 & u & Hu & Hf). exists (zlen (all_bytes pre) + off), l, n, li.
  split_and!; try done; [by apply in_row_wider|lia|]. exists u. split; [|by eapply fresh_path_lower].
  apply elem_of_app. right. apply elem_of_app. by left.
Qed.
Lemma evolves_flag D X Rch h h' a n' : evolves D X Rch h h' → frozen_at (nodes h) a → a < next h → ¬ D a →
  nodes h' !! a = Some n' → isFrozen n' = true.
Proof.
  intros Hev (n & Hn & Hf) Ha HD Hn'. destruct (ev_in _ _ _ _ _ Hev a n' Ha HD Hn') as (n0 & H0 & (_ & _ & _ & _ & H) & _).
  rewrite Hn in H0. injection H0 as <-. by apply H.
Qed.

(** The children are new or shared and frozen, and the code holds each of them. *)
Record reared (R O : list Z) (E : Z → Z) (s0 : __CFStorage) (n0 : Z) (Rch : Z → Prop) (h1 : store) (row : list tree) (base : Z) (st : state) : Prop := {
  re_this : same_storage s0 (this st);
  re_inv : inv R O E (heap st);
  re_ev : evolves nowhere nowhere Rch h1 (heap st);
  re_made : Forall (made n0 s0 (nodes (heap st))) row;
  re_guarded : Forall (λ v, guarded_at (nodes (heap st)) (addr v)) row;
  re_cache : ∃ c, cacheNode (this st) = Some c ∧ cached_fresh n0 s0 (nodes (heap st)) row base c;
}.

Section rearing.
Context (R O : list Z) (ext : Z → Z) (s0 : __CFStorage) (n0 : Z) (a : Z) (ts : list tree) (n : CFStorageNode) (h1 : store).
Context (Hext : ∀ x, 0 ≤ ext x) (Hinv1 : inv R O ext h1) (Hn : nodes h1 !! a = Some n) (Hi : info n = notLeaf (pad ts)) (Hlen : (length ts ≤ 3)%nat).
Context (Hsound : every (sound (nodes h1)) (TNode a ts)) (Hfits : every (leaf_fits s0) (TNode a ts)) (Hback : every (backed (nodes h1)) (TNode a ts)).
Context (HO : ∀ x, x ∈ addrs (TNode a ts) → x ∉ O) (Hold : ∀ x, x ∈ addrs (TNode a ts) → x < n0) (Hnext : n0 ≤ next h1).
Context (i : nat) (u : tree) (Hui : ts !! i = Some u) (pos size base : Z) (r : CFStorageDoubleNodeReturn) (st2 : state) (us : list tree).
Context (Hrb : rebuilt R O ext s0 h1 u pos size (base + zlen (all_bytes (take i ts))) r st2 us).
Definition below_a : Z → Prop := λ x, ∃ v, v ∈ ts ∧ x ∈ addrs v.

Lemma kid_facts v : v ∈ ts → every (sound (nodes h1)) v ∧ every (leaf_fits s0) v ∧ every (backed (nodes h1)) v ∧
  (∀ x, x ∈ addrs v → x ∉ O ∧ x < n0 ∧ x ≠ a) ∧ addr v ∉ R.
Proof.
  intros Hv. pose proof (sound_every_linked _ _ Hsound) as Hl. pose proof Hsound as H1. pose proof Hfits as H2. pose proof Hback as H3.
  apply every_node in H1 as [_ H1], H2 as [_ H2], H3 as [_ H3]. rewrite Forall_forall in H1, H2, H3.
  assert (Hsub : ∀ x, x ∈ addrs v → x ∈ addrs (TNode a ts)) by (intros x Hx; apply addrs_node; right; by exists v).
  split_and!; [by apply H1|by apply H2|by apply H3| |].
  - intros x Hx. split_and!; [by apply HO, Hsub|by apply Hold, Hsub|]. intros ->. by apply (no_cycle (nodes h1) a ts v Hl Hv).
  - intros Hr. destruct (inv_root _ _ _ _ Hinv1 _ Hr) as (H & _). assert (Ha : a ∉ O) by (apply HO, addrs_node; by left).
    pose proof (pointed O _ a n (addr v) Hn Ha) as Hp. rewrite (slots_pad n ts Hi) in Hp. pose proof (occ_kid _ ts v Hv eq_refl). lia.
Qed.
Lemma a_stays E st' : ok R O E nowhere nowhere below_a s0 h1 st' ∨ ok R O E nowhere (λ x, x = addr u) (.∈ addrs u) s0 h1 st' →
  nodes (heap st') !! a = Some n.
Proof.
  assert (Hd : a < next h1) by (by apply (inv_dom _ _ _ _ Hinv1 _ n)). assert (Hu : u ∈ ts) by (by eapply list_elem_of_lookup_2).
  intros [[_ _ Hev]|[_ _ Hev]]; (rewrite (ev_out _ _ _ _ _ Hev); [done|done|]).
  - intros (v & Hv & Hx). destruct (kid_facts v Hv) as (_ & _ & _ & Hk & _). by apply (Hk a).
  - intros Hx. destruct (kid_facts u Hu) as (_ & _ & _ & Hk & _). by apply (Hk a).
Qed.
Lemma kids_live E h' v : inv R O E h' → nodes h' !! a = Some n → v ∈ ts → is_Some (nodes h' !! addr v).
Proof.
  intros Hinv' Hn' Hv. eapply (kid_live R); [exact Hinv'|exact Hn'|exact Hi|done|]. apply HO, addrs_node. by left.
Qed.

(** The old nodes are held as [E] says; all is well with the row. *)
Lemma rear_ok E st4 : evolves nowhere nowhere below_a (heap st2) (heap st4) → inv R O E (heap st4) → this st4 = this st2 →
  nodes (heap st4) !! a = Some n → (∀ v, v ∈ row ts i us → 1 ≤ E (addr v)) →
  (∀ v n', v ∈ ts → nodes (heap st4) !! addr v = Some n' → isFrozen n' = true) →
  reared R O E s0 n0 below_a h1 (row ts i us) base st4.
Proof.
  intros Hev24 Hinv4 Hthis4 Ha4 HE Hfz. pose proof (rb_ok _ _ _ _ _ _ _ _ _ _ _ _ Hrb) as [Hthis2 Hinv2 Hev12].
  assert (Hu : u ∈ ts) by (by eapply list_elem_of_lookup_2).
  assert (Hev14 : evolves nowhere nowhere below_a h1 (heap st4)).
  { eapply (evolves_guarded _ (λ x, x = addr u)).
    - eapply evolves_trans; [exact Hev12|exact Hev24|..]; intros b _ [H|H]; try done. by exists u.
    - intros b _ -> n' Hn'. by eapply Hfz. }
  assert (Hlive : ∀ v, v ∈ row ts i us → is_Some (nodes (heap st4) !! addr v)).
  { intros v Hv. eapply (held_live R); [exact Hinv4|]. right. by apply HE. }
  assert (Hnew : ∀ v x, v ∈ us → x ∈ addrs v → x ∉ O ∧ (n0 ≤ x → next h1 ≤ x)).
  { intros v x Hv Hx. destruct (rb_where _ _ _ _ _ _ _ _ _ _ _ _ Hrb v x Hv Hx) as [H|H].
    - destruct (kid_facts u Hu) as (_ & _ & _ & Hk & _). destruct (Hk x H) as (? & ? & _). split; [done|lia].
    - split; [|done]. intros HxO. pose proof (inv_opened _ _ _ _ Hinv1 x HxO). lia. }
  assert (Hbelow : ∀ x, below_a x → x < next h1) by (intros x (v & Hv & Hx); destruct (kid_facts v Hv) as (_ & _ & _ & Hk & _); destruct (Hk x Hx) as (_ & ? & _); lia).
  assert (Hold' : ∀ v, v ∈ ts → guarded_at (nodes (heap st4)) (addr v)) by (intros v Hv n' Hn' Hf; specialize (Hfz v n' Hv Hn'); congruence).
  split; [by rewrite Hthis4|done|done|..].
  - apply Forall_forall. intros v Hv. pose proof (Hlive v Hv) as Hlv. apply row_cases in Hv as [Hv|(j & _ & Hj)].
    + apply (made_lower n0 (next h1)); [|done|intros x Hx; by apply (Hnew v)].
      eapply (frame_made R); [exact Hev24|exact Hinv2|exact Hinv4|by apply (proj1 (Forall_forall _ _) (rb_made _ _ _ _ _ _ _ _ _ _ _ _ Hrb))| |done|done].
      intros x Hx. split; [right; by intros []|by apply (Hnew v)].
    + apply list_elem_of_lookup_2 in Hj. destruct (kid_facts v Hj) as (K1 & K2 & K3 & K4 & _).
      eapply (frame_made R); [exact Hev14|exact Hinv1|exact Hinv4|apply made_old; [done..|intros x Hx; by apply K4]| | |done].
      * intros x Hx. split; [right; by intros []|by apply K4].
      * intros x (w & Hw & Hx). destruct (kid_facts w Hw) as (_ & _ & _ & Kw & _). by apply Kw.
  - apply Forall_forall. intros v Hv. apply row_cases in Hv as [Hv|(j & _ & Hj)]; [|apply Hold'; by eapply list_elem_of_lookup_2].
    destruct (rb_guarded _ _ _ _ _ _ _ _ _ _ _ _ Hrb v Hv) as [Hg|E1]; [|rewrite E1; by apply Hold'].
    pose proof (made_fine _ _ _ _ (proj1 (Forall_forall _ _) (rb_made _ _ _ _ _ _ _ _ _ _ _ _ Hrb) v Hv)) as Hfv. intros n' Hn'.
    destruct (ev_in _ _ _ _ _ Hev24 (addr v) n') as (k & Hk & _ & G); [|by intros []|done|apply G; [by intros []|by apply Hg]].
    eapply (linked_dom R); [exact Hinv2|by apply (fine_linked s0)|apply addr_addrs].
  - destruct (rb_cache _ _ _ _ _ _ _ _ _ _ _ _ Hrb) as (c & Hc & Hcf). exists c. split; [by rewrite Hthis4|].
    apply (cached_fresh_row n0 (next h1)); [done|]. eapply cached_fresh_keep; [exact Hcf|]. intros Hcn k Hk.
    rewrite (ev_out _ _ _ _ _ Hev24); [done|by apply (inv_dom _ _ _ _ Hinv2 _ k)|]. intros H. specialize (Hbelow c H). lia.
Qed.

(** The children are taken, and the one inserted into gives way to its replacement. *)
Definition take_children (node : Z) (childNum : nat) (childReturn : CFStorageDoubleNodeReturn) : M (list (option Z)) :=
  newChildren ← __CFStorageGetChildren node true true;
  let newChildren := newChildren ++ [None] in
  if decide (mjoin (newChildren !! childNum) = Some (child childReturn)) then mret newChildren
  else
    old ← lift (mjoin (newChildren !! childNum));
    __CFStorageReleaseNode old;;
    mret (<[childNum := Some (child childReturn)]> newChildren).

Lemma slot_of_kid : (pad ts ++ [None]) !! i = Some (Some (addr u)).
Proof.
  pose proof (lookup_lt_Some _ _ _ Hui). unfold pad. rewrite <- app_assoc, lookup_app_l by (by rewrite length_fmap). by rewrite list_lookup_fmap, Hui.
Qed.
Lemma rebuilt_ext x : kids_ext us x = one (child r) x + maybe_one (sibling r) x.
Proof.
  pose proof (rb_result _ _ _ _ _ _ _ _ _ _ _ _ Hrb) as E.
  assert (H : ∀ vs, kids_ext vs x = zsum (λ b, one b x) (addr <$> vs)).
  { induction vs as [|v vs IH]; [done|]. rewrite kids_ext_cons, IH. done. }
  rewrite H, E. unfold one, maybe_one. destruct (sibling r) as [b|]; cbn; repeat case_decide; simplify_eq; lia.
Qed.
Lemma take_children_ok :
  wp (take_children a i r) (λ cs st4, cs = <[i := Some (child r)]> (pad ts ++ [None]) ∧ nodes (heap st4) !! a = Some n ∧
    reared R O (ext ⊕ kids_ext (row ts i us)) s0 n0 below_a h1 (row ts i us) base st4) st2.
Proof.
  pose proof (rb_ok _ _ _ _ _ _ _ _ _ _ _ _ Hrb) as Hok2. pose proof Hok2 as [Hthis2 Hinv2 Hev12].
  assert (Hu : u ∈ ts) by (by eapply list_elem_of_lookup_2). pose proof (a_stays _ st2 (or_intror Hok2)) as Ha2.
  assert (Hd2 : ∀ x, x < next h1 → x < next (heap st2)) by (intros x; pose proof (ev_next _ _ _ _ _ Hev12); lia).
  unfold take_children. apply wp_bind. eapply wp_mono; [eapply (get_children_ok R O _ ts a n st2 Hinv2 Ha2 Hi Hlen)|].
  { intros v Hv. destruct (kid_facts v Hv) as (_ & _ & _ & Hk & Hr). split_and!; [by eapply kids_live|done|]. by apply Hk, addr_addrs. }
  intros cs st3 [-> [Ht3 Hinv3 Hev23 Hn3 Hf3]]. rewrite slot_of_kid. cbn [mjoin option_join].
  assert (Hb23 : evolves nowhere nowhere below_a (heap st2) (heap st3)).
  { eapply evolves_weaken; [exact Hev23|done|done|]. intros b (v & Hv & ->). exists v. split; [done|apply addr_addrs]. }
  assert (Hdom : ∀ v, v ∈ ts → addr v < next (heap st2)) by (intros v Hv; destruct (kid_facts v Hv) as (_ & _ & _ & Hk & _); apply Hd2; destruct (Hk _ (addr_addrs v)) as (_ & ? & _); lia).
  assert (Ha3 : nodes (heap st3) !! a = Some n).
  { rewrite (ev_out _ _ _ _ _ Hb23); [done|by apply (inv_dom _ _ _ _ Hinv2 _ n)|]. intros (v & Hv & Hx).
    destruct (kid_facts v Hv) as (_ & _ & _ & Hk & _). by apply (Hk a). }
  assert (Hrow : ∀ E, (∀ x, E x = (ext ⊕ kids_ext (row ts i us)) x) → ∀ v, v ∈ row ts i us → 1 ≤ E (addr v)).
  { intros E HE v Hv. rewrite HE. unfold eplus. pose proof (kids_ext_elem _ v Hv). specialize (Hext (addr v)). lia. }
  destruct (decide (Some (addr u) = Some (child r))) as [Heq|Heq].
  - injection Heq as Heq. apply wp_ret. split_and!; [rewrite <- Heq, list_insert_id; [done|apply slot_of_kid]|done|].
    eapply rear_ok; [exact Hb23| |done|done|by apply Hrow|].
    + refine (inv_same _ _ _ _ _ _ Hinv3). intros x. unfold eplus. rewrite (row_ext ts i u Hui us), rebuilt_ext, <- Heq.
      rewrite decide_True by done. unfold maybe_one at 1. rewrite decide_False by done. lia.
    + intros v n' Hv Hn'. destruct (Hf3 v Hv) as (k & Hk & Hf). rewrite Hk in Hn'. by injection Hn' as <-.
  - assert (Hne : child r ≠ addr u) by congruence. apply wp_bind. eapply wp_lift; [done|]. apply wp_bind. cbn.
    destruct (kid_facts u Hu) as (K1 & _ & _ & K4 & K5).
    eapply wp_mono; [eapply (release_ok u R O (ext ⊕ kids_ext (row ts i us)))|].
    + refine (inv_same _ _ _ _ _ _ Hinv3). intros x. unfold eplus. rewrite (row_ext ts i u Hui us), rebuilt_ext.
      rewrite decide_False by done. unfold maybe_one at 1, one. repeat case_decide; simplify_eq; lia.
    + eapply (frame_linked R); [eapply evolves_trans; [exact Hev12|exact Hb23|intros b _ H; exact H|intros b _ H; exact H|intros b _ H; exact H]|exact Hinv1|exact Hinv3|by apply sound_every_linked| |by eapply kids_live].
      intros x Hx. split; [by intros [[]|[]]|by apply K4].
    + done.
    + intros x Hx. by apply K4.
    + intros x. unfold eplus. pose proof (kids_ext_nonneg (row ts i us) x). specialize (Hext x). lia.
    + intros [] st4 (Ht4 & Hinv4 & Hsh & _). apply wp_ret. split_and!; [done| |].
      * rewrite (sh_out _ _ _ Hsh); [done|]. intros H. by apply (K4 a).
      * eapply rear_ok; [| |congruence| |by apply Hrow|].
        -- eapply evolves_trans; [exact Hb23|apply shrinks_evolves; exact Hsh|..]; intros b _ [H|H]; try done. by exists u.
        -- done.
        -- rewrite (sh_out _ _ _ Hsh); [done|]. intros H. by apply (K4 a).
        -- intros v n' Hv Hn'. destruct (sh_in _ _ _ Hsh _ _ Hn') as (k & Hk & -> & _). destruct (Hf3 v Hv) as (k' & Hk' & Hf).
           cbn in *. rewrite Hk in Hk'. by injection Hk' as <-.
Qed.
End rearing.

(** ** Actions that leave the storage object alone *)
Definition keeps {A} (p : M A) : Prop := ∀ st x st', p st = Some (x, st') → this st' = this st.
Lemma keeps_bind {A B} (p : M A) (k : A → M B) : keeps p → (∀ x, keeps (k x)) → keeps (p ≫= k).
Proof.
  intros Hp Hk st y st' H. unfold mbind, M_bind in H. destruct (p st) as [[x st1]|] eqn:E; [|done].
  rewrite (Hk x st1 y st' H). by apply (Hp st x).
Qed.
Lemma keeps_lift {A} (o : option A) : keeps (lift o).
Proof. intros st x st' H. unfold lift in H. destruct o; [|done]. by injection H as _ <-. Qed.
Lemma keeps_load a : keeps (load a).
Proof. intros st x st' H. unfold load in H. destruct (nodes (heap st) !! a); [|done]. by injection H as _ <-. Qed.
Lemma keeps_update a f : keeps (update a f).
Proof. intros st x st' H. unfold update in H. destruct (nodes (heap st) !! a); [|done]. by injection H as _ <-. Qed.
Lemma wp_keeps {A} (p : M A) (Q : A → state → Prop) st : wp p Q st → keeps p → wp p (λ x st', Q x st' ∧ this st' = this st) st.
Proof. intros (x & st' & H & HQ) Hk. exists x, st'. split; [done|]. split; [done|]. by apply (Hk st x). Qed.

(** ** The row under new branches *)
Definition distribute `{Al : Allocator} (copyOfMe node size : Z) (newChildren : list (option Z)) : M CFStorageDoubleNodeReturn :=
  let slot i := mjoin (newChildren !! i) in
  __CFStorageSetChild copyOfMe 0 (slot 0%nat);;
  __CFStorageSetChild copyOfMe 1 (slot 1%nat);;
  match slot 3%nat with
  | None =>
      __CFStorageSetChild copyOfMe 2 (slot 2%nat);;
      n ← load node;
      update copyOfMe (set_numBytes (numBytes n + size));;
      mret (CFStorageDoubleNodeReturnMake copyOfMe None)
  | Some _ =>
      siblingOfMe ← __CFStorageCreateNode false 0;
      __CFStorageSetChild siblingOfMe 0 (slot 2%nat);;
      __CFStorageSetChild siblingOfMe 1 (slot 3%nat);;
      b0 ← bytes_of_node (slot 0%nat); b1 ← bytes_of_node (slot 1%nat);
      update copyOfMe (set_numBytes (b0 + b1));;
      b2 ← bytes_of_node (slot 2%nat); b3 ← bytes_of_node (slot 3%nat);
      update siblingOfMe (set_numBytes (b2 + b3));;
      mret (CFStorageDoubleNodeReturnMake copyOfMe (Some siblingOfMe))
  end.
Definition slots_after (childNum : nat) (cs : list (option Z)) (p : option Z) : list (option Z) :=
  match p with Some new => make_room childNum (Some new) cs | None => cs end.

Lemma slots_of_row ts i u us r k : ts !! i = Some u → (2 ≤ length ts ≤ 3)%nat → addr <$> us = child r :: option_list (sibling r) → (k < 4)%nat →
  mjoin (slots_after i (<[i := Some (child r)]> (pad ts ++ [None])) (sibling r) !! k) = addr <$> row ts i us !! k.
Proof.
  intros Hi Hlen Hus Hk. destruct us as [|u' us]; [done|]. injection Hus as Eu Hus. rewrite <- Eu. clear Eu. unfold slots_after, row.
  destruct (sibling r) as [w|]; cbn in Hus.
  - destruct us as [|v us]; [done|]. injection Hus as <- Hus. apply fmap_nil_inv in Hus as ->.
    destruct ts as [|t0 [|t1 [|t2 [|? ?]]]]; [cbn in Hlen; lia..| | |cbn in Hlen; lia]; destruct i as [|[|[|i]]]; try done;
      by destruct k as [|[|[|[|k]]]]; [..|lia].
  - apply fmap_nil_inv in Hus as ->.
    destruct ts as [|t0 [|t1 [|t2 [|? ?]]]]; [cbn in Hlen; lia..| | |cbn in Hlen; lia]; destruct i as [|[|[|i]]]; try done;
      by destruct k as [|[|[|[|k]]]]; [..|lia].
Qed.

Lemma keeps_set_child a i p : keeps (__CFStorageSetChild a i p).
Proof. unfold __CFStorageSetChild. apply keeps_bind; [apply keeps_load|]. intros n. destruct (info n); [by intros st x st'|apply keeps_update]. Qed.
Lemma keeps_create `{Al : Allocator} b n : keeps (__CFStorageCreateNode b n).
Proof. apply keeps_bind; [by intros st x st' [= _ <-]|]. intros s. apply keeps_bind; [apply keeps_lift|]. intros _ st x st' H. by injection H as _ <-. Qed.
Lemma keeps_bytes_of p : keeps (bytes_of_node p).
Proof. apply keeps_bind; [apply keeps_lift|]. intros a. apply keeps_bind; [apply keeps_load|]. by intros n st x st' [= _ <-]. Qed.
Lemma keeps_distribute `{Al : Allocator} c a size cs : keeps (distribute c a size cs).
Proof.
  assert (Hret : ∀ A (x : A), keeps (mret x)) by (by intros A x st y st' [= _ <-]).
  unfold distribute. destruct (mjoin (cs !! 3%nat)) as [d|];
    repeat (apply keeps_bind; [first [apply keeps_set_child|apply keeps_load|apply keeps_update|apply keeps_create|apply keeps_bytes_of]|intros ?]); apply Hret.
Qed.

Section distribution.
Context `{Al : Allocator} (Hal : ∀ n, 0 < n → is_Some (alloc n)).
Context (R O : list Z) (ext : Z → Z) (D Rch : Z → Prop) (s0 : __CFStorage) (h0 : store) (base : Z) (a c : Z).
Context (Hext : ∀ x, 0 ≤ ext x) (Hc : c ∉ O) (Hac : a ≠ c).

Lemma distribute_ok row cs size nb sl rc st : settled R (c :: O) (ext ⊕ kids_ext row) D Rch s0 h0 row base st →
  mutable (c :: O) D Rch h0 row c → branch_at st c no_children 0 1 → branch_at st a sl nb rc → zlen (all_bytes row) = nb + size →
  (2 ≤ length row ≤ 4)%nat → (∀ k, (k < 4)%nat → mjoin (cs !! k) = addr <$> row !! k) →
  wp (distribute c a size cs) (linked_row R O ext D Rch s0 h0 base c row) st.
Proof.
  intros Hs Hm Hb Hba Hz Hlen Hcs. unfold distribute. rewrite !Hcs by lia. do 2 set_child.
  destruct row as [|v0 [|v1 [|v2 [|v3 [|? ?]]]]]; [cbn in Hlen; lia..| | | |cbn in Hlen; lia]; cbn [lookup list_lookup fmap option_fmap option_map].
  1,2: set_child; match goal with Hxx : branch_at _ a _ _ _ |- _ => destruct Hxx as (na & Hna & _ & Hnb & _) end;
    (apply wp_bind; eapply wp_load; [exact Hna|]); apply wp_bind;
    (eapply wp_set_bytes; [eassumption|eassumption|eassumption|by intros|]); intros st' Hs' _ _ Hb'; apply wp_ret;
    eapply link_one; try done; [by rewrite Hz, <- Hnb|cbn; lia].
  clear Hs Hb. match goal with Hxx : settled _ _ _ _ _ _ _ _ _ ?s |- wp _ _ ?s => rename Hxx into Hs, s into st2 end.
  match goal with Hxx : branch_at _ c _ _ _ |- _ => rename Hxx into Hb end.
  apply wp_bind. eapply (settled_new Hal); [exact Hs|]. intros d st3 Ed Est Hs3.
  destruct (fresh_mutable R _ D Rch s0 h0 base (c :: O) _ st2 d (new_node (this st2) false 0) Hs Ed) as (Hmd & Hfresh & Hnd & Hnext).
  assert (Hcd : c ≠ d) by (apply Hfresh; left). assert (Hdc : d ≠ c) by done.
  assert (Hmc : mutable (d :: c :: O) D Rch h0 [v0; v1; v2; v3] c) by (destruct Hm as (? & ? & ?); split_and!; [right; left|done|done]).
  assert (Hd : branch_at st3 d no_children 0 1) by (subst st3; eexists; split; [exact Hnd|done]).
  assert (Hc3 : branch_at st3 c [Some (addr v0); Some (addr v1); None] 0 1).
  { destruct Hb as (nc & Hnc & Hrest). exists nc. split; [|done]. rewrite Est. cbn. rewrite lookup_insert_ne; [done|congruence]. }
  assert (Hout : d ∉ c :: O) by (intros Hin; by apply (Hfresh d Hin)). clear Est Hnd Hb Hs Hba. do 2 set_child.
  match goal with Hxx : settled _ _ _ _ _ _ _ _ _ ?s |- wp _ _ ?s => rename Hxx into Hs, s into st5 end.
  apply wp_bind. eapply wp_bytes_of; [exact Hs|set_solver|]. apply wp_bind. eapply wp_bytes_of; [exact Hs|set_solver|].
  apply wp_bind. eapply wp_set_bytes; [eassumption|eassumption|eassumption|by intros|]. intros st6 Hs6 _ K6 Hc6.
  match goal with Hxx : branch_at st5 d _ _ _ |- _ => apply (K6 d) in Hxx; [rename Hxx into Hd6|done] end.
  apply wp_bind. eapply wp_bytes_of; [exact Hs6|set_solver|]. apply wp_bind. eapply wp_bytes_of; [exact Hs6|set_solver|].
  apply wp_bind. eapply wp_set_bytes; [eassumption|eassumption|eassumption|by intros|]. intros st7 Hs7 _ K7 Hd7. apply (K7 c) in Hc6; [|done].
  apply wp_ret. assert (Hz2 : ∀ x y, zlen (all_bytes [x; y]) = zlen (bytes x) + zlen (bytes y)).
  { intros x y. unfold all_bytes. cbn. by rewrite app_nil_r, zlen_app. }
  eapply (link_two R O ext D Rch s0 h0 base c Hext Hc 1 ltac:(lia) ltac:(lia) [v0; v1] [v2; v3]); rewrite ?Hz2; try done; cbn; lia.
Qed.
End distribution.

Lemma fresh_one n0 s m a ts base c : n0 ≤ a → cached_fresh n0 s m ts base c → cached_fresh n0 s m [TNode a ts] base c.
Proof.
  intros Ha (off & l & n & li & Hr & Hn & Hi & H1 & H2 & H3 & u & Hu & Hf). exists off, l, n, li. split_and!; try done; [by apply in_row_one|].
  exists (TNode a ts). split; [left|by apply (fresh_kid n0 a ts u)].
Qed.
Lemma fresh_two n0 s m a b ts us base c : n0 ≤ a → n0 ≤ b → cached_fresh n0 s m (ts ++ us) base c → cached_fresh n0 s m [TNode a ts; TNode b us] base c.
Proof.
  intros Ha Hb (off & l & n & li & Hr & Hn & Hi & H1 & H2 & H3 & u & [Hu|Hu]%elem_of_app & Hf); exists off, l, n, li; split_and!; try done; try by apply in_row_two.
  - exists (TNode a ts). split; [left|by apply (fresh_kid n0 a ts u)].
  - exists (TNode b us). split; [right; left|by apply (fresh_kid n0 b us u)].
Qed.
Lemma agree_built n0 m m' t : agree m m' t → built n0 m t → built n0 m' t.
Proof.
  induction t as [a l|a ts IH] using tree_induction; intros Ha Hb; inversion Hb as [? H| |? ? Hle Hts]; subst;
    try (apply built_old; by apply (agree_every backed m _ _ (agree_backed m _))); [by apply built_leaf|].
  apply built_node; [done|]. rewrite Forall_forall in IH, Hts |- *. intros u Hu. apply IH; [done|by eapply agree_kid|by apply Hts].
Qed.

Section frozen_branch.
Context `{Al : Allocator} (Hal : ∀ n, 0 < n → is_Some (alloc n)) (ins : Z → Z → Z → Z → M CFStorageDoubleNodeReturn).
Context (R O : list Z) (ext : Z → Z) (s0 : __CFStorage) (pos size base abs : Z) (st : state).
Context (a : Z) (ts : list tree).
Abbreviation m := (nodes (heap st)).
Abbreviation t := (TNode a ts).
Context (Hs0 : storage_ok s0) (Hthis : same_storage s0 (this st)) (Hinv : inv R O ext (heap st)).
Context (Hsound : every (sound m) t) (Hfits : every (leaf_fits s0) t) (Hback : every (backed m) t).
Context (HO : ∀ x, x ∈ addrs t → x ∉ O) (Hrec : Forall (rebuilds ins) ts) (Hreq : request s0 t pos size base abs).

Lemma below_next x : x ∈ addrs t → x < next (heap st).
Proof. eapply (linked_dom R); [exact Hinv|by apply sound_every_linked]. Qed.

(** The new branch is there, with no children yet. *)
Definition started (c : Z) (st1 : state) : Prop :=
  c = next (heap st) ∧ ok R (c :: O) (ext ⊕ one c) nowhere nowhere nowhere s0 (heap st) st1 ∧ this st1 = this st ∧
  next (heap st1) = c + 1 ∧ branch_at st1 c no_children 0 1 ∧ agree m (nodes (heap st1)) t.
Lemma start_row_ok {B} (K : Z → M B) (Q : B → state → Prop) : (∀ c st1, started c st1 → wp (K c) Q st1) →
  wp (c ← __CFStorageCreateNode false 0; K c) Q st.
Proof.
  intros HQ. apply wp_bind. eapply (create_node_ok Hal R nowhere nowhere nowhere s0 (heap st) O ext); [by apply ok_refl|].
  intros c st1 -> -> Hok1. apply HQ. split_and!; try done.
  - eapply ok_open_empty; [exact Hok1|cbn; apply lookup_insert_eq|done|]. intros H. pose proof (inv_opened _ _ _ _ Hinv _ H). lia.
  - eexists. split; [cbn; apply lookup_insert_eq|done].
  - intros x Hx. cbn. rewrite lookup_insert_ne; [done|]. pose proof (below_next x Hx). lia.
Qed.

(** The old tree, with the new branch there. *)
Lemma started_tree c st1 : started c st1 →
  every (sound (nodes (heap st1))) t ∧ every (backed (nodes (heap st1))) t ∧ (∀ x, x ∈ addrs t → x ∉ c :: O) ∧
  ∃ n, nodes (heap st1) !! a = Some n ∧ info n = notLeaf (pad ts) ∧ numBytes n = zlen (all_bytes ts) ∧ (2 ≤ length ts ≤ 3)%nat.
Proof.
  intros (-> & _ & _ & _ & _ & Hag). split_and!.
  - by apply (agree_every sound m _ _ (agree_sound m _)).
  - by apply (agree_every backed m _ _ (agree_backed m _)).
  - intros x Hx. apply not_elem_of_cons. split; [pose proof (below_next x Hx); lia|by apply HO].
  - pose proof (every_here _ _ Hsound) as [(n & Hn & Hi & Hb & Hlen) _]. exists n. split_and!; [|done..|lia|lia].
    rewrite Hag; [done|apply addrs_node; by left].
Qed.

(** Everything linked. *)
Lemma frozen_linked c st1 i u us r r' st4 st5 : started c st1 → ts !! i = Some u →
  (∀ v x, v ∈ us → x ∈ addrs v → x ∈ addrs u ∨ next (heap st1) ≤ x) →
  all_bytes us = room (pos - zlen (all_bytes (take i ts))) size (bytes u) → 0 ≤ pos - zlen (all_bytes (take i ts)) ≤ zlen (bytes u) →
  addr <$> us = child r :: option_list (sibling r) →
  reared R (c :: O) (ext ⊕ one c ⊕ kids_ext (row ts i us)) s0 (next (heap st)) (below_a ts) (heap st1) (row ts i us) base st4 →
  linked_row R O (ext ⊕ one c) (λ x, x = c) (λ x, x = c) s0 (heap st4) base c (row ts i us) r' st5 → this st5 = this st4 →
  ∃ us', rebuilt R O ext s0 (heap st) t pos size base r' st5 us'.
Proof.
  intros Hst Hui Hwhere1 Hbytes1 Hpos Hres [RE1 RE2 RE3 RE4 RE5 (k & Hk & Hcf)] (Hcr & row' & [S1 S2 S3 S4] & Haddr & Hbytes & Hwhere & Hsingle & Hshape) Hthis5.
  pose proof Hst as (Ec & [_ Hinv1 Hev1] & Ht1 & Hn1 & _). assert (Hu : u ∈ ts) by (by eapply list_elem_of_lookup_2).
  assert (Hrow : ∀ w x, w ∈ row ts i us → x ∈ addrs w → x ∈ addrs t ∨ c < x).
  { intros w x Hw Hx. apply row_cases in Hw as [Hw|(j & _ & Hj)].
    - destruct (Hwhere1 w x Hw Hx) as [H|H]; [left; apply addrs_node; right; by exists u|right; lia].
    - left. apply addrs_node. right. exists w. split; [by eapply list_elem_of_lookup_2|done]. }
  assert (Hne : ∀ w x, w ∈ row ts i us → x ∈ addrs w → x ≠ c).
  { intros w x Hw Hx ->. destruct (Hrow w c Hw Hx) as [H|H]; [pose proof (below_next c H)|]; lia. }
  rewrite Forall_forall in RE4. pose proof (ok_ev _ _ _ _ _ _ _ _ _ S1) as Hev45.
  assert (Hag : ∀ w, w ∈ row ts i us → agree (nodes (heap st4)) (nodes (heap st5)) w).
  { intros w Hw x Hx. apply (ev_out _ _ _ _ _ Hev45); [|by apply (Hne w)].
    eapply (linked_dom R); [exact RE2|apply (fine_linked s0), (made_fine (next (heap st))), RE4; exact Hw|done]. }
  assert (Hmade : ∀ b rowk, next (heap st) ≤ b → single (nodes (heap st5)) b → (∀ w, w ∈ rowk → w ∈ row ts i us) →
    TNode b rowk ∈ row' → made (next (heap st)) s0 (nodes (heap st5)) (TNode b rowk)).
  { intros b rowk Hb Hsb Hsub Hin. pose proof (proj1 (Forall_forall _ _) S2 _ Hin) as [F1 F2 _]. split; [done|done|..].
    - apply built_node; [done|]. apply Forall_forall. intros w Hw. by apply (agree_built _ _ _ _ (Hag w (Hsub w Hw))), RE4, Hsub.
    - intros x [->|(w & Hw & Hx)]%addrs_node Hnx; [done|]. destruct (made_single _ _ _ _ (RE4 w (Hsub w Hw)) x Hx Hnx) as (n & Hn & Hcn).
      exists n. by rewrite (Hag w (Hsub w Hw) x Hx). }
  exists row'. split.
  - destruct S1 as [T1 T2 T3]. split; [done|..].
    + refine (inv_same _ _ _ _ _ _ T2). intros x. rewrite Hcr. unfold eplus. cbn. rewrite decide_False by (intros ->; pose proof (below_next a ltac:(apply addrs_node; by left)); lia).
      unfold one, maybe_one. repeat case_decide; simplify_eq; lia.
    + eapply (evolves_trans _ _ _ nowhere nowhere (.∈ addrs t)); [|exact T3|..].
      * eapply evolves_trans; [exact Hev1|exact RE3|..]; intros b _ [[]|H]; try done. destruct H as (v & Hv & Hx). apply addrs_node. right. by exists v.
      * intros b Hb [[]| ->]. lia.
      * intros b Hb [[]|[]].
      * intros b Hb [H| ->]; [done|lia].
  - by rewrite Haddr, Hcr.
  - rewrite Forall_forall in Hsingle. apply Forall_forall. intros v Hv. destruct Hshape as [->|(row1 & row2 & b & Erow & -> & Hb)].
    + apply list_elem_of_singleton in Hv as ->. apply Hmade; [lia|by apply (Hsingle (TNode c (row ts i us))); left|done|left].
    + apply elem_of_cons in Hv as [->|Hv]; [|apply list_elem_of_singleton in Hv as ->].
      * apply Hmade; [lia|by apply (Hsingle (TNode c row1)); left|intros w Hw; rewrite Erow; apply elem_of_app; by left|left].
      * apply Hmade; [|by apply (Hsingle (TNode b row2)); right; left|intros w Hw; rewrite Erow; apply elem_of_app; by right|right; left].
        pose proof (ev_next _ _ _ _ _ RE3). lia.
  - rewrite Hbytes. by apply (row_bytes ts i u).
  - intros v x Hv Hx. destruct (Hwhere v x Hv Hx) as [->|[H|(w & Hw & Hxw)]]; [right; lia|right; pose proof (ev_next _ _ _ _ _ RE3); lia|].
    destruct (Hrow w x Hw Hxw); [by left|right; lia].
  - intros v Hv. left. by apply (proj1 (Forall_forall _ _) S3).
  - exists k. split; [by rewrite Hthis5|].
    assert (Hcf5 : cached_fresh (next (heap st)) s0 (nodes (heap st5)) (row ts i us) base k).
    { eapply cached_fresh_keep; [exact Hcf|]. intros _ n Hn. pose proof Hcf as (off & l & _ & _ & Hr & _).
      apply in_row_elem in Hr as (w & Hw & Hx). by rewrite (Hag w Hw). }
    destruct Hshape as [->|(row1 & row2 & b & Erow & -> & Hb)]; [apply fresh_one; [lia|done]|].
    apply fresh_two; [lia|pose proof (ev_next _ _ _ _ _ RE3); lia|by rewrite <- Erow].
Qed.

Lemma insert_branch_frozen_ok :
  wp (__CFStorageInsertBranchFrozen ins a pos size abs) (λ r st', ∃ us, rebuilt R O ext s0 (heap st) t pos size base r st' us) st.
Proof.
  pose proof (rq_pos _ _ _ _ _ _ Hreq) as Hp. unfold __CFStorageInsertBranchFrozen. apply start_row_ok. intros c st1 Hst.
  destruct (started_tree c st1 Hst) as (Hs1 & Hb1 & HO1 & n & Hn & Hi & Hnb & Hlen). pose proof Hst as (Ec & [Hthis1 Hinv1 Hev1] & Ht1 & Hn1 & Hc1 & _).
  apply wp_bind. eapply wp_load; [done|]. apply wp_bind.
  eapply wp_mono; [eapply (find_child_ok n ts pos true st1); [done|done| |lia|apply Hp]|].
  { pose proof Hs1 as H. by apply every_node in H as [_ H]. }
  intros p ? (-> & i & u & -> & Hui & Hrel). cbn in Hrel. set (off := zlen (all_bytes (take i ts))) in *.
  assert (Hu : u ∈ ts) by (by eapply list_elem_of_lookup_2).
  assert (Hext1 : ∀ x, 0 ≤ (ext ⊕ one c) x) by apply (inv_ext _ _ _ _ Hinv1).
  destruct (kid_facts R (c :: O) (ext ⊕ one c) s0 (next (heap st)) a ts n (heap st1) Hinv1 Hn Hi ltac:(lia) Hs1 Hfits Hb1 HO1 below_next u Hu) as (K1 & K2 & K3 & K4 & K5).
  apply wp_bind. eapply wp_mono; [eapply (proj1 (Forall_forall _ _) Hrec u Hu R (c :: O) (ext ⊕ one c) s0 (pos - off) size (base + off) abs st1)|];
    [done|by rewrite Ht1|done|done|done|done|intros x Hx; by apply K4|done| |].
  { eapply request_kid; [done| |done|exact Hreq|exact Hrel]. pose proof Hfits as H. by apply every_node in H as [_ H]. }
  intros r st2 (us & Hrb). apply wp_assoc, wp_bind.
  eapply (wp_mono (take_children a i r)).
  { eapply (take_children_ok R (c :: O) (ext ⊕ one c) s0 (next (heap st)) a ts n (heap st1)); try done; [lia|apply below_next|lia]. }
  intros cs st4 (-> & Ha4 & Hre). pose proof Hre as [RE1 RE2 RE3 RE4 RE5 (k & Hk & Hcf)].
  assert (Hnc : ∀ x, x ∈ addrs t → x ≠ c) by (intros x Hx ->; pose proof (below_next c Hx); lia).
  assert (Hc4 : branch_at st4 c no_children 0 1).
  { destruct Hc1 as (nc & Hnc1 & Hrest). exists nc. split; [|done]. rewrite (ev_out _ _ _ _ _ RE3); [done|lia|].
    intros (v & Hv & Hx). apply (Hnc c); [|done]. apply addrs_node. right. by exists v. }
  assert (Hout : outside (row ts i us) c).
  { intros v Hv Hx. apply row_cases in Hv as [Hv|(j & _ & Hj)].
    - destruct (rb_where _ _ _ _ _ _ _ _ _ _ _ _ Hrb v c Hv Hx) as [H|H]; [|lia]. apply (Hnc c); [|done]. apply addrs_node. right. by exists u.
    - apply (Hnc c); [|done]. apply addrs_node. right. exists v. split; [by eapply list_elem_of_lookup_2|done]. }
  assert (Hset : settled R (c :: O) (ext ⊕ one c ⊕ kids_ext (row ts i us)) (λ x, x = c) (λ x, x = c) s0 (heap st4) (row ts i us) base st4).
  { split; [by apply ok_refl| |done|exists k; split; [done|by eapply fresh_cached]].
    eapply Forall_impl; [exact RE4|]. intros v. apply made_fine. }
  pose proof (row_bytes ts i u us pos size Hui Hrel (rb_bytes _ _ _ _ _ _ _ _ _ _ _ _ Hrb)) as Hbytes.
  pose proof (rb_result _ _ _ _ _ _ _ _ _ _ _ _ Hrb) as Hres.
  eapply (wp_mono (distribute c a size (slots_after i (<[i := Some (child r)]> (pad ts ++ [None])) (sibling r)))).
  { eapply wp_keeps; [|apply keeps_distribute].
    eapply (distribute_ok Hal R O (ext ⊕ one c) _ _ s0 (heap st4) base a c Hext1); [| |exact Hset| |exact Hc4|by exists n| | |].
    - intros H. pose proof (inv_opened _ _ _ _ Hinv _ H). lia.
    - apply Hnc, addrs_node. by left.
    - split_and!; [left|by right|done].
    - rewrite Hbytes. apply zlen_room; [done|]. apply Z.lt_le_incl, (rq_size _ _ _ _ _ _ Hreq).
    - apply (f_equal length) in Hres as Hl. rewrite length_fmap in Hl. unfold row. rewrite !length_app, length_take, length_drop, Hl.
      pose proof (lookup_lt_Some _ _ _ Hui). destruct (sibling r); cbn; lia.
    - intros k' Hk'. by apply (slots_of_row ts i u). }
  intros r' st5 [Hlinked Hthis5]. eapply frozen_linked; try done.
  - apply (rb_where _ _ _ _ _ _ _ _ _ _ _ _ Hrb).
  - apply (rb_bytes _ _ _ _ _ _ _ _ _ _ _ _ Hrb).
Qed.
End frozen_branch.
