(* ===== verification/StorageRoot.v ===== *)
(** * Insertion in a CFStorage

    [__CFStorageInsert] on a node, whether frozen or not, and
    [CFStorageInsertValues] on a storage among others. *)
From S2P Require Import Prelude Storage StorageSpec StorageOps StorageInsert StorageBranch StorageFrozen.
From stdpp Require Import gmap list.
Open Scope Z_scope.

(** ** Frozen nodes, nodes thawed, nodes not frozen *)
Section dispatch.
Context `{Al : Allocator} (Hal : ∀ n, 0 < n → is_Some (alloc n)).

Lemma backed_memory m a l : every (backed m) (TLeaf a l) → every (sound m) (TLeaf a l) →
  ∃ n li b, m !! a = Some n ∧ info n = leaf li ∧ memory li = Some b.
Proof.
  intros Hb Hs. apply every_leaf in Hb as (n & Hn & Hm), Hs as [(n' & Hn' & _ & li & Hi & _) _]. cbn in Hn'. rewrite Hn in Hn'. injection Hn' as <-.
  unfold has_memory in Hm. rewrite Hi in Hm. destruct (memory li) as [b|] eqn:E; [|done]. by exists n, li, b.
Qed.
Lemma insert_frozen_ok fuel t : (height t ≤ fuel)%nat → rebuilds (__CFStorageInsertFrozen fuel) t.
Proof.
  revert t. induction fuel as [|fuel IH]; intros t Hf; [destruct t; cbn in Hf; lia|].
  intros R O ext s0 pos size base abs st Hs0 Hthis Hinv Hs Hfit Hb HO HR Hreq. cbn [__CFStorageInsertFrozen].
  destruct t as [a l|a ts].
  - destruct (backed_memory _ a l Hb Hs) as (n & li & b & Hn & Hi & Hm). apply wp_bind. eapply wp_load; [exact Hn|].
    unfold isLeaf. rewrite Hi. eapply insert_leaf_frozen_ok; try done. apply HO. by apply addrs_leaf.
  - pose proof (every_here _ _ Hs) as [(n & Hn & Hi & _) _]. apply wp_bind. eapply wp_load; [exact Hn|].
    unfold isLeaf. rewrite Hi. eapply insert_branch_frozen_ok; try done. apply Forall_forall. intros u Hu. apply IH.
    pose proof (height_kid a ts u Hu). lia.
Qed.

(** A root may be an empty leaf. *)
Definition intact (s : __CFStorage) (m : gmap Z CFStorageNode) (t : tree) : Prop :=
  fine s m t ∨ ∃ a, t = TLeaf a [] ∧ every (sound m) t.

Lemma insert_unfrozen_ok ins R O ext s0 pos size base abs st t n :
  storage_ok s0 → same_storage s0 (this st) → inv R O ext (heap st) → intact s0 (nodes (heap st)) t → (∀ x, x ∈ addrs t → x ∉ O) →
  nodes (heap st) !! addr t = Some n → refCount n ≤ 1 → Forall (inserts ins) (kids t) → request s0 t pos size base abs →
  wp (__CFStorageInsertUnfrozen ins (addr t) pos size abs)
    (λ r st', ∃ us, inserted R O ext (own (nodes (heap st)) t) nowhere s0 (heap st) t pos size base r st' us) st.
Proof.
  intros Hs0 Hthis Hinv Hint HO Hn Hc Hrec Hreq. unfold __CFStorageInsertUnfrozen. apply wp_bind. eapply wp_load; [exact Hn|].
  assert (Hown : own (nodes (heap st)) t (addr t)) by (by apply (own_here _ t n)).
  assert (Hsound : every (sound (nodes (heap st))) t) by (destruct Hint as [[H _ _]|(a & _ & H)]; done).
  destruct t as [a l|a ts]; pose proof (every_here _ _ Hsound) as [(n' & Hn' & Hok) _]; rewrite Hn in Hn'; injection Hn' as <-.
  - assert (Hl : zlen l ≤ maxLeafCapacity s0 ∧ (valueSize s0 | zlen l)).
    { destruct Hint as [[_ H _]|(b & E & _)]; [apply every_leaf in H as [? ?]; split; [lia|done]|]. injection E as _ ->.
      pose proof (so_max s0 Hs0). split; [rewrite zlen_nil; lia|by exists 0]. }
    destruct Hok as [Hnum (li & Hi & Hm)]. unfold isLeaf. rewrite Hi. destruct Hreq as [Q1 Q2 Q3 Q4 Q5 Q6 Q7].
    eapply (insert_leaf_unfrozen_ok Hal R O ext _ nowhere s0 (heap st) Hs0 a l n); try done; [by apply ok_refl|split; [done|by exists li]|apply Hl|apply Hl].
  - destruct Hok as (Hi & _). unfold isLeaf. rewrite Hi. destruct Hint as [Hfine|(b & E & _)]; [|done].
    by eapply insert_branch_unfrozen_ok.
Qed.

Lemma own_same (m m' : gmap Z CFStorageNode) t x :
  (∀ y n, m !! y = Some n → ∃ n', m' !! y = Some n' ∧ refCount n' = refCount n) → own m t x → own m' t x.
Proof.
  intros H Ho. induction Ho as [t n Hn Hc|a ts u n x Hn Hc Hu _ IH]; destruct (H _ _ Hn) as (n' & Hn' & E).
  - apply (own_here m' t n'); [done|lia].
  - apply (own_kid m' a ts u n' x); [done|lia|done|done].
Qed.
Lemma ready_shared m t n : ready m t → m !! addr t = Some n → 1 < refCount n → every (backed m) t.
Proof.
  intros Hr Hn Hc. inversion Hr as [? Hb|a l (k & Hk & Hck)|a ts (k & Hk & Hck) _]; subst; [done| |];
    cbn in Hn; rewrite Hn in Hk; injection Hk as <-; lia.
Qed.
Lemma own_shared m t n x : m !! addr t = Some n → 1 < refCount n → ¬ own m t x.
Proof.
  intros Hn Hc H. inversion H as [t' k Hk Hck|a ts u k y Hk Hck _ _]; subst; cbn in *; rewrite Hn in Hk; injection Hk as <-; lia.
Qed.

(** What was built of new nodes is an insertion that changed none of the old ones. *)
Lemma rebuilt_inserted R O ext s0 h t pos size base r st us : inv R O ext h → frozen_at (nodes h) (addr t) →
  (∀ x, ¬ own (nodes h) t x) → rebuilt R O ext s0 h t pos size base r st us →
  inserted R O ext (own (nodes h) t) nowhere s0 h t pos size base r st us.
Proof.
  intros Hinv Hf Ho [[H1 H1' H1''] H2 H3 H4 H5 H6 (c & Hc & H7)].
  assert (Hdom : addr t < next h) by (destruct Hf as (n & Hn & _); by apply (inv_dom _ _ _ _ Hinv _ n)). split; try done.
  - split; [done|done|]. eapply evolves_weaken; [eapply evolves_guarded; [exact H1''|]|by intros b []|done|done].
    intros b _ -> n' Hn'. apply (evolves_flag _ _ _ _ _ _ n' H1'' Hf Hdom (λ H, H) Hn').
  - eapply Forall_impl; [exact H3|]. intros u. apply made_fine.
  - intros u Hu. left. destruct (H6 u Hu) as [Hg|Hg]; [done|]. rewrite Hg. intros n' Hn' Hff.
    pose proof (evolves_flag _ _ _ _ _ _ n' H1'' Hf Hdom (λ H, H) Hn'). congruence.
  - exists c. split; [done|by eapply fresh_cached].
Qed.

(** A frozen node with one reference is frozen no more. *)
Lemma thawed_inserted R O ext s0 t pos size base r st us st0 n :
  inv R O ext (heap st0) → nodes (heap st0) !! addr t = Some n → refCount n = 1 →
  let h1 := put (addr t) (set_isFrozen false n) (heap st0) in
  inserted R O ext (own (nodes h1) t) nowhere s0 h1 t pos size base r st us →
  inserted R O ext (own (nodes (heap st0)) t) nowhere s0 (heap st0) t pos size base r st us.
Proof.
  intros Hinv Hn Hc h1 [[H1 H1' H1''] H2 H3 H4 H5 H6 H7 H8].
  assert (Hs : ∀ x, own (nodes h1) t x → own (nodes (heap st0)) t x).
  { intros x. apply own_same. intros y k Hy. cbn in Hy. apply lookup_insert_Some in Hy as [[<- <-]|[Hne Hy]]; [by exists n|by exists k]. }
  split; try done.
  - split; [done|done|]. eapply (evolves_trans _ _ _ (λ x, x = addr t) nowhere (λ x, x = addr t)); [|exact H1''|..].
    + eapply (evolves_put _ _ _ _ (heap st0) (addr t) n); [apply evolves_refl|done|]. right. split; [done|by left].
    + intros b _ [->|Hb]; [apply (own_here _ t n); [done|lia]|by apply Hs].
    + by intros b _ [|].
    + intros b _ [->|Hb]; [apply addr_addrs|done].
  - intros x Hne Ho. apply (H8 x Hne). revert Ho. apply own_same. intros y k Hy. destruct (decide (y = addr t)) as [->|Hy'].
    + exists (set_isFrozen false n). cbn. rewrite lookup_insert_eq. split; [done|]. rewrite Hn in Hy. by injection Hy as <-.
    + exists k. cbn. by rewrite lookup_insert_ne.
Qed.

(** Heaps whose nodes stand for the same bytes and have the same counts. *)
Definition alike (n n' : CFStorageNode) : Prop :=
  (∀ l, leaf_ok n l → leaf_ok n' l) ∧ (has_memory n → has_memory n') ∧
  (∀ c, info n = notLeaf c → info n' = notLeaf c ∧ numBytes n' = numBytes n) ∧ refCount n' = refCount n ∧ (guarded n → guarded n').
Definition all_alike (m m' : gmap Z CFStorageNode) : Prop :=
  (∀ x n, m !! x = Some n → ∃ n', m' !! x = Some n' ∧ alike n n') ∧ (∀ x n', m' !! x = Some n' → is_Some (m !! x)).
Lemma alike_refl n : alike n n.
Proof. by split_and!. Qed.
Lemma alike_put m a n n' : m !! a = Some n → alike n n' → all_alike m (<[a := n']> m).
Proof.
  intros Hn H. split.
  - intros x k Hk. destruct (decide (x = a)) as [->|Hx]; [|exists k; rewrite lookup_insert_ne by done; by split; [|apply alike_refl]].
    exists n'. rewrite lookup_insert_eq. rewrite Hn in Hk. by injection Hk as <-.
  - intros x k [[<- _]|[_ Hk]]%lookup_insert_Some; by eexists.
Qed.
Lemma alike_sound m m' t : all_alike m m' → sound m t → sound m' t.
Proof.
  intros [Hm Hback] [(k & Hk & Hok) Hkids]. destruct (Hm _ _ Hk) as (k' & Hk' & A1 & _ & A3 & _). split.
  - exists k'. split; [done|]. destruct t as [x l|x ts]; [by apply A1|]. destruct Hok as (Hi & Hb & Hl).
    destruct (A3 _ Hi) as [Hi' Hb']. split_and!; [done|congruence|lia|lia].
  - eapply Forall_impl; [exact Hkids|]. intros v Hv n' Hn'. destruct (Hback _ _ Hn') as [n Hn].
    destruct (Hm _ _ Hn) as (n2 & Hn2 & _ & _ & _ & _ & G). rewrite Hn' in Hn2. injection Hn2 as <-. by apply G, (Hv n).
Qed.
Lemma alike_ready m m' t : all_alike m m' → ready m t → ready m' t.
Proof.
  intros [Hm _].
  assert (Hb : ∀ u, backed m u → backed m' u).
  { intros [a l|]; [|done]. intros (k & Hk & Hmem). destruct (Hm _ _ Hk) as (k' & Hk' & _ & A & _). exists k'. auto. }
  assert (Hsi : ∀ x, single m x → single m' x).
  { intros x (k & Hk & Hck). destruct (Hm _ _ Hk) as (k' & Hk' & _ & _ & _ & E & _). exists k'. split; [done|lia]. }
  induction t as [a l|a ts IH] using tree_induction; intros H3; inversion H3 as [? Hbk|? ? Hs|? ? Hs Hk]; subst;
    [by apply ready_backed, (every_impl (backed m))|by apply ready_leaf, Hsi|by apply ready_backed, (every_impl (backed m))|].
  apply ready_node; [by apply Hsi|]. rewrite Forall_forall in IH, Hk |- *. auto.
Qed.
Lemma alike_fine s m m' t : all_alike m m' → fine s m t → fine s m' t.
Proof.
  intros Ha [H1 H2 H3]. split; [|done|by eapply alike_ready]. revert H1. apply every_impl. intros u. by apply alike_sound.
Qed.
Lemma alike_own m m' t x : all_alike m m' → own m t x → own m' t x.
Proof.
  intros [Hm _]. apply own_same. intros y n Hn. destruct (Hm _ _ Hn) as (n' & Hn' & _ & _ & _ & E & _). by exists n'.
Qed.
Lemma thaw_fine s0 m t n : fine s0 m t → m !! addr t = Some n → refCount n = 1 → fine s0 (<[addr t := set_isFrozen false n]> m) t.
Proof.
  intros Hf Hn Hc. apply (alike_fine s0 m); [|done]. apply (alike_put m (addr t) n); [done|]. split_and!; try done. intros _ _. cbn. lia.
Qed.
Lemma insert_ok fuel t : (height t ≤ fuel)%nat → inserts (__CFStorageInsert fuel) t.
Proof.
  revert t. induction fuel as [|fuel IH]; intros t Hf; [destruct t; cbn in Hf; lia|].
  intros R O ext s0 pos size base abs st Hs0 Hthis Hinv Hfine HO Hheld HR Hg Hreq. cbn [__CFStorageInsert].
  pose proof (fine_sound _ _ _ Hfine) as Hsound. destruct (sound_bytes _ _ Hsound) as (n & Hn & _).
  assert (HtO : addr t ∉ O) by apply HO, addr_addrs. assert (Hpos : 0 < refCount n) by (by apply (inv_pos _ _ _ _ Hinv (addr t) n)).
  assert (Hrec : Forall (inserts (__CFStorageInsert fuel)) (kids t)).
  { destruct t as [a l|a ts]; [done|]. apply Forall_forall. intros u Hu. apply IH. pose proof (height_kid a ts u Hu). lia. }
  unfold stays_frozen, __CFStorageThawNodeDuringMutation. apply wp_bind, wp_bind. eapply wp_load; [exact Hn|].
  destruct (isFrozen n) eqn:Efz; last first.
  { apply wp_ret. eapply insert_unfrozen_ok; try done; [by left|by apply (Hg n)]. }
  apply wp_bind, wp_bind. eapply wp_load; [exact Hn|]. destruct (Z.eqb_spec (refCount n) 1) as [E1|E1].
  - apply wp_bind. eapply wp_put; [exact Hn|]. apply wp_ret, wp_ret. cbn [negb]. set (st1 := with_heap st _).
    eapply wp_mono; [eapply (insert_unfrozen_ok (__CFStorageInsert fuel) R O ext s0 pos size base abs st1 t (set_isFrozen false n))|].
    + done.
    + done.
    + eapply (inv_put R O ext ext (heap st) (addr t) n); [done|done|by right|done|..]; intros; cbn; [case_decide; lia| |lia].
      apply (inv_ext _ _ _ _ Hinv).
    + left. by apply thaw_fine.
    + done.
    + cbn. apply lookup_insert_eq.
    + cbn. lia.
    + done.
    + done.
    + intros r st' (us & Hus). exists us. by eapply (thawed_inserted _ _ _ _ _ _ _ _ _ _ _ st n).
  - apply wp_ret, wp_ret. cbn [negb]. assert (Hc : 1 < refCount n) by lia.
    eapply wp_mono; [eapply (insert_frozen_ok (S fuel) t Hf R O ext s0 pos size base abs st); try done|].
    + apply (fine_fits _ _ _ Hfine).
    + by apply (ready_shared _ t n); [apply (fine_ready _ _ _ Hfine)|..].
    + intros r st' (us & Hus). exists us. eapply rebuilt_inserted; [exact Hinv|by exists n| |done]. intros x. by apply (own_shared _ t n).
Qed.
End dispatch.
