(* ===== verification/StorageGrow.v ===== *)
(** * The root of a CFStorage grows

    What a storage holds, and what the operations on one storage leave of the
    others; the step of [CFStorageInsertValues] that puts a new branch at the
    root. *)
From S2P Require Import Prelude Storage StorageSpec StorageOps StorageInsert StorageBranch StorageFrozen StorageRoot.
From stdpp Require Import gmap list.
Open Scope Z_scope.

Definition none_held : Z → Z := λ _, 0.

(** ** Storages in a heap *)

(** Every node belongs to storages with the roots [R]. *)
Definition world (R : list Z) (h : store) : Prop := inv R [] none_held h.
Definition rooted (R : list Z) (s : __CFStorage) (h : store) (t : tree) : Prop :=
  storage_ok s ∧ rootNode s ∈ R ∧ addr t = rootNode s ∧ intact s (nodes h) t.
(** The bytes of a storage. *)
Definition holds (R : list Z) (s : __CFStorage) (h : store) (v : list (option Z)) : Prop := ∃ t, rooted R s h t ∧ bytes t = v.
(** The other storages keep their bytes. *)
Definition spares (R : list Z) (s : __CFStorage) (h h' : store) : Prop :=
  ∀ s2 v, rootNode s2 ≠ rootNode s → holds R s2 h v → holds R s2 h' v.
Definition cache_valid (s : __CFStorage) (h : store) (t : tree) : Prop :=
  ∀ c, cacheNode s = Some c → cached s (nodes h) [t] 0 c.

Lemma spares_refl R s h : spares R s h h.
Proof. by intros s2 v _. Qed.
Lemma spares_trans R s s' h1 h2 h3 : rootNode s' = rootNode s → spares R s h1 h2 → spares R s' h2 h3 → spares R s h1 h3.
Proof. intros E H1 H2 s2 v Hne Hv. apply H2; [congruence|]. by apply H1. Qed.

Lemma intact_sound s m t : intact s m t → every (sound m) t.
Proof. intros [[H _ _]|(a & -> & H)]; done. Qed.
Lemma intact_linked s m t : intact s m t → every (linked m) t.
Proof. intros H. by eapply sound_every_linked, intact_sound. Qed.
Lemma intact_divides s m t : storage_ok s → intact s m t → (valueSize s | zlen (bytes t)).
Proof.
  intros Hs [[_ H _]|(a & -> & _)]; [|by exists 0]. by apply fits_divides; [apply (so_size s Hs)|].
Qed.

(** An operation on the tree of one root, seen from the tree of another. *)
Lemma apart_intact R s D h h' t s2 t2 :
  world R h → world R h' → evolves D nowhere (.∈ addrs t) h h' → (∀ x, D x → own (nodes h) t x) →
  addr t ∈ R → every (linked (nodes h)) t → addr t2 ∈ R → addr t2 ≠ addr t → storage_ok s →
  intact s2 (nodes h) t2 → intact s2 (nodes h') t2.
Proof.
  intros Hw Hw' Hev HD Ht Hl Ht2 Hne Hs2 Hin. pose proof (intact_linked _ _ _ Hin) as Hl2.
  assert (Hx : ∀ x, x ∈ addrs t2 → ¬ D x).
  { intros x Hx2 Hd. refine (own_apart R [] none_held h t t2 x Hw Hl Hl2 _ _ _ _ (HD x Hd) Hx2); [by intros y _ ?%elem_of_nil|by left|by left|congruence]. }
  assert (Hsound : every (sound (nodes h')) t2).
  { eapply (frame_sound R D nowhere (.∈ addrs t) [] []); [exact Hev|exact Hw|exact Hw'|by eapply intact_sound| |].
    - intros x Hxt. split_and!; [by apply Hx|by right; intros []|by intros ?%elem_of_nil].
    - apply (held_live R [] none_held h'); [done|by left]. }
  destruct Hin as [[H1 H2 H3]|(a & -> & H)]; [left|right; by exists a]. split; [done|done|].
  eapply frame_ready; [exact Hev|by apply sound_every_linked|done| |].
  - intros x Hxt. split; [by apply (linked_dom R [] none_held h t2)|by apply Hx].
  - intros x Ho Hxt. refine (own_apart R [] none_held h t2 t x Hw Hl2 Hl _ _ _ _ Ho Hxt); [by intros y _ ?%elem_of_nil|by left|by left|congruence].
Qed.
Lemma apart_spares R s D h h' t :
  world R h → world R h' → evolves D nowhere (.∈ addrs t) h h' → (∀ x, D x → own (nodes h) t x) →
  rooted R s h t → spares R s h h'.
Proof.
  intros Hw Hw' Hev HD (Hs & Hr & E & Hin) s2 v Hne (t2 & (Hs2 & Hr2 & E2 & Hin2) & Hv). exists t2. split; [|done].
  split_and!; try done. eapply (apart_intact R s D h h' t s2 t2); try done; [congruence|by eapply intact_linked|congruence|congruence].
Qed.

(** ** The copy of the root, and its new children *)

Definition with_addr (a : Z) (t : tree) : tree := match t with TLeaf _ l => TLeaf a l | TNode _ ts => TNode a ts end.
Lemma addr_with a t : addr (with_addr a t) = a.
Proof. by destruct t. Qed.
Lemma bytes_with a t : bytes (with_addr a t) = bytes t.
Proof. by destruct t. Qed.

Lemma fine_children s m a ts : fine s m (TNode a ts) → Forall (fine s m) ts.
Proof.
  intros [H1 H2 H3]. apply every_node in H1 as [_ H1], H2 as [_ H2]. rewrite Forall_forall in H1, H2 |- *. intros u Hu.
  split; [by apply H1|by apply H2|]. inversion H3 as [? Hb|?|? ? _ Hr]; subst.
  - apply ready_backed. apply every_node in Hb as [_ Hb]. by apply (proj1 (Forall_forall _ _) Hb).
  - by apply (proj1 (Forall_forall _ _) Hr).
Qed.

(** Another node with the same content. *)
Lemma fine_copy s m m' t n a k : fine s m t → m !! addr t = Some n → info k = info n → numBytes k = numBytes n → refCount k ≤ 1 →
  m' !! a = Some k → (∀ u, u ∈ kids t → agree m m' u) → fine s m' (with_addr a t).
Proof.
  intros Hf Hn Hi Hb Hc Hk Hag. pose proof (every_here _ _ (fine_sound _ _ _ Hf)) as [(n' & Hn' & Hok) Hg]. rewrite Hn in Hn'. injection Hn' as <-.
  destruct t as [b l|b ts]; cbn [with_addr].
  - pose proof (every_here _ _ (fine_fits _ _ _ Hf)) as [Hl Hv]. destruct Hok as (E & li & Hli & Hm).
    eapply fine_leaf; [exact Hk| |done|done|done]. split; [congruence|]. exists li. split; [congruence|done].
  - destruct Hok as (E1 & E2 & E3). pose proof (fine_children _ _ _ _ Hf) as Hkids. cbn [kids] in *. rewrite Forall_forall in Hkids, Hg.
    eapply fine_node; [exact Hk|done|congruence|rewrite Hb, E2; done|done|apply Forall_forall; intros u Hu..].
    + by eapply agree_fine; [apply Hag|apply Hkids].
    + intros k' Hk'. rewrite (Hag u Hu _ (addr_addrs u)) in Hk'. by apply (Hg u Hu).
Qed.

Lemma inv_grow R ext h r n a b k n' :
  inv R [] (ext ⊕ one b) h → nodes h !! r = Some n → a = next h → refCount k = 1 → slots k = slots n →
  slots n' = [Some a; Some b; None] → refCount n' = refCount n → r ∈ R → (∀ x, 0 ≤ ext x) →
  inv R [] ext {| nodes := <[r := n']> (<[a := k]> (nodes h)); next := next h + 1 |}.
Proof.
  intros Hinv Hn Ha Hck Hsk Hsn Hcn Hr Hext.
  assert (Hra : r ≠ a) by (intros ->; pose proof (inv_dom _ _ _ _ Hinv _ _ Hn); lia).
  set (k0 := {| numBytes := 0; refCount := 1; isFrozen := false; info := leaf empty_leaf |}).
  pose proof (inv_new_node _ _ _ h k0 Hinv ltac:(done) eq_refl) as H1. rewrite <- Ha in H1.
  eapply (inv_open _ _ _ _ r n) in H1; [|cbn; by rewrite lookup_insert_ne|by intros ?%elem_of_nil].
  eapply (inv_open _ _ _ _ a k0) in H1; [|cbn; by rewrite lookup_insert_eq|by intros ->%list_elem_of_singleton].
  match type of H1 with inv _ _ ?E _ => set (E1 := E) in H1 end.
  eapply (inv_put _ _ E1 E1 _ a k0 k) in H1; [|cbn; by rewrite lookup_insert_eq|left; left|by intros _; rewrite Hck|
    intros x; rewrite Hck; case_decide; cbn; lia|apply (inv_ext _ _ _ _ H1)|by intros _ []; left].
  eapply (inv_close _ _ _ _ a k) in H1; [|cbn; by rewrite lookup_insert_eq|by intros ->%list_elem_of_singleton| |by rewrite Hck].
  2:{ intros x. unfold E1, eplus, one. rewrite Hsk. pose proof (occ_nonneg x (slots k0)). specialize (Hext x). repeat case_decide; lia. }
  cbn in H1. rewrite insert_insert_eq in H1.
  match type of H1 with inv _ _ ?E _ => set (E2 := E) in H1 end.
  eapply (inv_put _ _ E2 E2 _ r n n') in H1; [|cbn; by rewrite lookup_insert_ne|left; left|done|
    intros x; rewrite Hcn; case_decide; lia|apply (inv_ext _ _ _ _ H1)|by intros ?].
  assert (Hocc : ∀ x, occ x (slots n') = one a x + one b x).
  { intros x. rewrite Hsn. unfold occ, one. cbn. repeat case_decide; simplify_eq; done || lia. }
  eapply (inv_close _ _ _ _ r n') in H1; [|cbn; by rewrite lookup_insert_eq|by intros ?%elem_of_nil| |done].
  - cbn in H1. rewrite <- Ha. eapply inv_same; [|exact H1]. intros x. unfold E2, E1, eplus, eminus. rewrite Hocc, Hsk. unfold occ at 2. cbn. rewrite Z.add_0_r. lia.
  - intros x. unfold E2, E1, eplus, eminus. rewrite Hocc, Hsk. specialize (Hext x). unfold occ at 2. cbn. lia.
Qed.

Section growing.
Context `{Al : Allocator} (Hal : ∀ n, 0 < n → is_Some (alloc n)).

(** The new node, the new root, and the state with them. *)
Definition root_copy (s : __CFStorage) (n : CFStorageNode) : CFStorageNode :=
  {| numBytes := numBytes n; refCount := 1; isFrozen := alwaysFrozen s; info := info n |}.
Definition new_root (a b : Z) (nb : CFStorageNode) (n : CFStorageNode) : CFStorageNode :=
  {| numBytes := numBytes n + numBytes nb; refCount := refCount n; isFrozen := isFrozen n; info := notLeaf [Some a; Some b; None] |}.
Definition root_grown (st : state) (r b : Z) (n nb : CFStorageNode) : state :=
  let a := next (heap st) in
  {| this := if isLeaf n then set_cacheNode None (this st) else this st;
     heap := {| nodes := <[r := new_root a b nb n]> (<[a := root_copy (this st) n]> (nodes (heap st))); next := a + 1 |} |}.

Lemma grow_root_steps st r n b nb :
  r = rootNode (this st) → nodes (heap st) !! r = Some n → nodes (heap st) !! b = Some nb → b ≠ r →
  r < next (heap st) → b < next (heap st) → (isLeaf n = false → length (slots n) = 3%nat) →
  wp (grow_root b) (λ _ st', st' = root_grown st r b n nb) st.
Proof.
  intros Hr Hn Hnb Hbr Hra Hba Hlen. set (a := next (heap st)) in *. unfold grow_root. apply wp_bind, wp_self. rewrite <- Hr.
  apply wp_bind. eapply wp_load; [exact Hn|]. apply wp_bind. unfold __CFStorageCreateNode. apply wp_bind, wp_self, wp_bind.
  destruct (Hal sizeof_CFStorageNode ltac:(done)) as [m Hm]. eapply wp_lift; [done|]. eexists _, _. split; [done|]. fold a.
  apply wp_bind. eapply wp_put; [lk|]. unfold put. cbn [heap nodes next this]. rewrite insert_insert_eq.
  set (st1 := with_heap _ _). change (set_info _ _) with (root_copy (this st) n) in st1.
  assert (Hst1 : nodes (heap st1) !! r = Some n) by lk.
  set (c := if isLeaf n then no_children else slots n).
  assert (Hc : length c = 3%nat) by (unfold c; destruct (isLeaf n); auto).
  apply wp_bind.
  assert (Hmid : wp (if isLeaf n then __CFStorageSetCache None 0;; update r (set_info (notLeaf no_children)) else mret ())
    (λ _ st', st' = {| this := if isLeaf n then set_cacheNode None (this st) else this st;
       heap := put r (set_info (notLeaf c) n) (heap st1) |}) st1).
  { unfold c. destruct (isLeaf n) eqn:E.
    - apply wp_bind. eexists _, _. split; [done|]. eapply wp_put; [exact Hst1|done].
    - apply wp_ret. unfold slots. unfold isLeaf in E. destruct (info n) as [|c'] eqn:Ei; [done|].
      assert (set_info (notLeaf c') n = n) as -> by (unfold set_info; rewrite <- Ei; by destruct n). by rewrite put_same. }
  eapply wp_mono; [exact Hmid|]. intros [] st2 ->. clear Hmid. destruct c as [|c0 [|c1 [|c2 [|]]]]; try done. cbn [put nodes next heap].
  unfold __CFStorageSetChild.
  do 3 (apply wp_bind, wp_bind; eapply wp_load; [lk|]; cbn [info set_info]; eapply wp_put; [lk|];
    unfold put; cbn [heap nodes next this with_heap]; rewrite insert_insert_eq).
  apply wp_bind. eapply wp_load; [lk|]. apply wp_bind. eapply (wp_load b nb); [lk|].
  eapply wp_put; [lk|]. unfold put. cbn [heap nodes next this with_heap]. by rewrite insert_insert_eq.
Qed.
End growing.

(** The trees with the roots [r] and [b], below a new root. *)
Section grown.
Context (R : list Z) (s0 : __CFStorage) (st : state) (t1 u2 : tree) (n nb : CFStorageNode).
Abbreviation r := (addr t1).
Abbreviation b := (addr u2).
Abbreviation a := (next (heap st)).
Abbreviation st' := (root_grown st r b n nb).
Abbreviation top := (TNode r [with_addr a t1; u2]).
Context (Hinv : inv R [] (none_held ⊕ one b) (heap st)) (Hr : r ∈ R).
Context (Hn : nodes (heap st) !! r = Some n) (Hnb : nodes (heap st) !! b = Some nb).
Context (Hf1 : fine s0 (nodes (heap st)) t1) (Hf2 : fine s0 (nodes (heap st)) u2) (Hg2 : guarded_at (nodes (heap st)) b).

Lemma root_facts : refCount n = 0 ∧ b ≠ r ∧ r < a ∧ b < a.
Proof.
  destruct (inv_root _ _ _ _ Hinv r Hr) as (_ & He & n' & Hn' & Hc). rewrite Hn in Hn'. injection Hn' as <-. split_and!; [done| | |].
  - intros E. unfold eplus, none_held, one in He. rewrite E, decide_True in He; done.
  - by apply (inv_dom _ _ _ _ Hinv _ n).
  - by apply (inv_dom _ _ _ _ Hinv _ nb).
Qed.
Lemma root_apart : r ∉ addrs u2.
Proof.
  destruct root_facts as (Hc & Hne & _). eapply (own_apart R [] _ (heap st) t1 u2 r Hinv); try by eapply fine_linked.
  - by intros y _ ?%elem_of_nil.
  - by left.
  - right. unfold eplus, none_held, one. by rewrite decide_True.
  - by intros E.
  - apply (own_here _ t1 n); [done|lia].
Qed.
Lemma grown_kept x : x ≠ r → x < a → nodes (heap st') !! x = nodes (heap st) !! x.
Proof. intros H1 H2. cbn. rewrite !lookup_insert_ne; [done|lia|done]. Qed.
Lemma below_kept u : (every (linked (nodes (heap st))) u) → r ∉ addrs u → agree (nodes (heap st)) (nodes (heap st')) u.
Proof.
  intros Hl Hu x Hx. apply grown_kept; [by intros ->|]. by apply (linked_dom R [] _ (heap st) u x Hinv).
Qed.
Lemma kid_kept u : u ∈ kids t1 → agree (nodes (heap st)) (nodes (heap st')) u.
Proof.
  intros Hu. pose proof (fine_linked _ _ _ Hf1) as Hl. apply below_kept.
  - destruct t1 as [x l|x ts]; [by apply elem_of_nil in Hu|]. apply every_node in Hl as [_ Hl]. by apply (proj1 (Forall_forall _ _) Hl).
  - destruct t1 as [x l|x ts]; [by apply elem_of_nil in Hu|]. by apply (no_cycle (nodes (heap st)) x ts u).
Qed.
Lemma grown_looked : nodes (heap st') !! a = Some (root_copy (this st) n) ∧ nodes (heap st') !! r = Some (new_root a b nb n).
Proof. destruct root_facts as (_ & _ & H & _). split; cbn; [rewrite lookup_insert_ne by lia|]; apply lookup_insert_eq. Qed.

Lemma grown_copy : fine s0 (nodes (heap st')) (with_addr a t1) ∧ guarded_at (nodes (heap st')) a.
Proof.
  destruct grown_looked as [Ha _]. split; [|intros k Hk; rewrite Ha in Hk; injection Hk as <-; by intros _].
  by apply (fine_copy s0 (nodes (heap st)) _ t1 n a (root_copy (this st) n)); [..|exact kid_kept].
Qed.
Lemma grown_fine : fine s0 (nodes (heap st')) top.
Proof.
  destruct root_facts as (Hc & _). destruct grown_looked as [_ Hr']. destruct grown_copy as [F1 G1].
  destruct (sound_bytes _ _ (fine_sound _ _ _ Hf1)) as (n1 & Hn1 & Eb1). rewrite Hn in Hn1. injection Hn1 as <-.
  destruct (sound_bytes _ _ (fine_sound _ _ _ Hf2)) as (n2 & Hn2 & Eb2). rewrite Hnb in Hn2. injection Hn2 as <-.
  pose proof (below_kept u2 (fine_linked _ _ _ Hf2) root_apart) as Hag. apply (fine_node s0 _ r _ (new_root a b nb n)); [done|cbn; lia| | |cbn; lia| |].
  - cbn. by rewrite addr_with.
  - cbn [numBytes new_root]. rewrite !all_bytes_cons, bytes_with, !zlen_app. change (zlen (all_bytes [])) with 0. lia.
  - apply Forall_cons. split; [done|]. apply Forall_singleton. by eapply agree_fine.
  - apply Forall_cons. split; [by rewrite addr_with|]. apply Forall_singleton. intros k. cbn [heap] in Hag.
    rewrite (Hag b (addr_addrs u2)). apply Hg2.
Qed.

(** A cached leaf below the old root. *)
Lemma own_kid_of t m x : own m t x → x ≠ addr t → ∃ u, u ∈ kids t ∧ own m u x.
Proof. intros H Hne. inversion H as [? k Hk Hc|c ts u k y Hk Hc Hu Ho]; subst; [done|by exists u]. Qed.
Lemma grown_cached c : isLeaf n = false → cached s0 (nodes (heap st)) [t1; u2] 0 c → cached s0 (nodes (heap st')) [top] 0 c.
Proof.
  intros Hl (off & l & k & li & Hrow & Hk & Hi & H1 & H2 & H3 & Ho). destruct root_facts as (_ & _ & Hra & _).
  assert (Hcr : c ≠ r) by (intros ->; rewrite Hn in Hk; injection Hk as <-; unfold isLeaf in Hl; by rewrite Hi in Hl).
  assert (Hca : c < a) by (by apply (inv_dom _ _ _ _ Hinv _ k)).
  destruct grown_looked as [Hgc Hgr]. exists off, l, k, li. split_and!; try done.
  - apply in_row_one. destruct Hrow as (pre & u & post & o & E & -> & Hat). destruct pre as [|v pre].
    + injection E as <- <-. exists [], (with_addr a t1), [u2], o. split_and!; [done|done|].
      pose proof (every_here _ _ (fine_sound _ _ _ Hf1)) as [(n' & Hn' & Hok) _]. rewrite Hn in Hn'. injection Hn' as <-.
      destruct t1 as [x l'|x ts]; [destruct Hok as (_ & li' & Hli & _); unfold isLeaf in Hl; by rewrite Hli in Hl|].
      cbn [with_addr]. inversion Hat; subst; by constructor.
    + injection E as <- E. exists (with_addr a t1 :: pre), u, post, o. split_and!; [by rewrite E| |done].
      by rewrite !all_bytes_cons, bytes_with.
  - by rewrite grown_kept.
  - intros Hf. destruct (Ho Hf) as (u & Hu & Hown). exists top. split; [left|]. destruct root_facts as (Hc0 & _).
    apply elem_of_cons in Hu as [->|Hu]; [|apply list_elem_of_singleton in Hu as ->].
    + apply (own_kid _ r _ (with_addr a t1) (new_root a b nb n)); [done|cbn; lia|left|].
      destruct (own_kid_of t1 _ c Hown Hcr) as (u & Hu & Hou). pose proof (kid_kept u Hu) as Hag.
      destruct t1 as [x l'|x ts]; [by apply elem_of_nil in Hu|]. cbn [with_addr].
      apply (own_kid _ _ ts u (root_copy (this st) n)); [done|done|done|]. by eapply agree_own.
    + apply (own_kid _ r _ u2 (new_root a b nb n)); [done|cbn; lia|right; left|].
      eapply agree_own; [apply (below_kept u2 (fine_linked _ _ _ Hf2) root_apart)|done].
Qed.
End grown.
