(* ===== verification/StorageShare.v ===== *)
(** * Storages that share nodes

    Runs of programs on two storages of one heap, of which the second is made of
    a range of the first, and a checker that finds the trees of such a heap and
    decides that they are what the theorems about CFStorage ask for. *)
From S2P Require Import Prelude Storage StorageSpec StorageOps StorageInsert StorageBranch StorageFrozen StorageRoot StorageGrow.
From stdpp Require Import gmap list.
Open Scope Z_scope.

(** An allocator that gives zeroes. *)
#[local] Instance zeroes : Allocator := fill_allocator 0 ltac:(by_decide).
Lemma zeroes_ok n : 0 < n → is_Some (alloc n).
Proof. intros _. by eexists. Qed.

(** ** Programs on two storages *)

(** A leaf holds three values. *)
Definition SIZE : Z := 4096.
Definition value (x : Z) : list Z := replicate (Z.to_nat SIZE) x.
Definition values (l : list Z) : list Z := l ≫= value.

Record pair := { first : __CFStorage; second : __CFStorage; memory_ : store }.
Definition on_first {A} (p : M A) (w : pair) : option (A * pair) :=
  '(x, st) ← p {| this := first w; heap := memory_ w |};
  Some (x, {| first := this st; second := second w; memory_ := heap st |}).
Definition on_second {A} (p : M A) (w : pair) : option (A * pair) :=
  '(x, st) ← p {| this := second w; heap := memory_ w |};
  Some (x, {| first := first w; second := this st; memory_ := heap st |}).

(** A storage made by a program, and one made of a range of its values. *)
Definition made (p : M ()) : option state :=
  let (s, h) := CFStorageCreate SIZE {| nodes := ∅; next := 0 |} in
  s ← s; '(_, st) ← p {| this := s; heap := h |}; Some st.
Definition shared (range : CFRange) (st : state) : option pair :=
  '(s, h) ← CFStorageCreateWithSubrange (this st) range (heap st);
  s ← s; Some {| first := this st; second := s; memory_ := h |}.

Definition room_for (n : Z) : M () := CFStorageInsertValues (CFRangeMake 0 n).
(** [n] values with the bytes 10, 11, ... *)
Definition numbered (n : Z) : M () :=
  room_for n;; CFStorageReplaceValues (CFRangeMake 0 n) (values (seqZ 10 n)).

(** ** The invariant of a heap, decided *)

Definition world_checks (R : list Z) (h : store) : Prop :=
  map_Forall (λ a n, a < next h ∧ (a ∉ R → refCount n = refs [] (nodes h) a ∧ 0 < refCount n) ∧
    Forall (λ p, match p with Some b => is_Some (nodes h !! b) | None => True end) (slots n)) (nodes h) ∧
  Forall (λ a, refs [] (nodes h) a = 0 ∧ match nodes h !! a with Some n => refCount n = 0 | None => False end) R.
#[export] Instance world_checks_dec R h : Decision (world_checks R h).
Proof.
  apply and_dec.
  - apply map_Forall_dec. intros a n. repeat (apply and_dec || apply impl_dec); try apply _.
    apply Forall_dec. intros [b|]; apply _.
  - apply Forall_dec. intros a. apply and_dec; [apply _|]. destruct (nodes h !! a); apply _.
Defined.

Lemma points_slot O x k n : 0 < points O x k n → Some x ∈ slots n.
Proof.
  unfold points. case_decide; [lia|]. unfold occ. induction (slots n) as [|p l IH]; cbn; [lia|].
  case_decide; [by intros _; subst; left|]. intros ?. right. apply IH. lia.
Qed.

Lemma world_checked R h : world_checks R h → world R h.
Proof.
  intros [Hm HR]. rewrite Forall_forall in HR. assert (Hn : ∀ a n, nodes h !! a = Some n → _) by exact Hm.
  split.
  - intros a n Ha. by apply (Hn a n).
  - intros a Ha. destruct (HR a Ha) as [H1 H2]. split_and!; [done|done|].
    destruct (nodes h !! a) as [n|]; [by exists n|done].
  - intros a n Ha HaR. destruct (Hn a n Ha) as (_ & [H _]%(λ f, f HaR) & _). unfold none_held. lia.
  - intros a n Ha HaR _. by destruct (Hn a n Ha) as (_ & [_ H]%(λ f, f HaR) & _).
  - done.
  - intros a. unfold none_held. rewrite Z.add_0_r. intros (k & n & Hk & Hp)%msum_pos.
    apply points_slot in Hp. destruct (Hn k n Hk) as (_ & _ & Hs). rewrite Forall_forall in Hs. by apply (Hs (Some a)).
  - by intros a ?%elem_of_nil.
Qed.

(** ** The tree of a root *)

(** The bytes that were never written are unknown. *)
Fixpoint tree_of (fuel : nat) (m : gmap Z CFStorageNode) (a : Z) : option tree :=
  match fuel with
  | O => None
  | S fuel =>
      n ← m !! a;
      match info n with
      | leaf li => Some (TLeaf a (match memory li with None => gap (numBytes n) | Some b => Some <$> ztake (numBytes n) b end))
      | notLeaf c => ts ← mapM (tree_of fuel m) (omap id c); Some (TNode a ts)
      end
  end.

#[local] Instance cover_dec o x : Decision (cover o x).
Proof. unfold cover. apply _. Defined.
#[local] Instance below_dec l m : Decision (below l m).
Proof. unfold below. apply _. Defined.
Definition memory_checks (li : leaf_info) (l : list (option Z)) : bool :=
  match memory li with
  | None => bool_decide (capacityInBytes li = 0 ∧ l = replicate (length l) None)
  | Some m => bool_decide (capacityInBytes li ≤ zlen m ∧ below l m)
  end.
Definition guard_checks (m : gmap Z CFStorageNode) (t : tree) : bool :=
  match m !! addr t with Some n => isFrozen n || (refCount n <=? 1) | None => true end.

(** The node of a tree is there; a leaf is of a size the storage allows and has memory. *)
Definition node_checks (s : __CFStorage) (m : gmap Z CFStorageNode) (t : tree) : bool :=
  match m !! addr t with
  | None => false
  | Some n =>
      match t, info n with
      | TLeaf _ l, leaf li =>
          bool_decide (numBytes n = zlen l ∧ memory li ≠ None ∧ 0 < zlen l ≤ maxLeafCapacity s ∧ zlen l mod valueSize s = 0) &&
          memory_checks li l
      | TNode _ ts, notLeaf c =>
          bool_decide (c = pad ts ∧ numBytes n = zlen (bytes t) ∧ 2 ≤ zlen ts ≤ 3) && forallb (guard_checks m) ts
      | _, _ => false
      end
  end.

Definition storage_checks (s : __CFStorage) : Prop :=
  0 < valueSize s ∧ (byteToValueShifter s = NO_SHIFTER ∨ (0 ≤ byteToValueShifter s ∧ valueSize s = 2 ^ byteToValueShifter s)) ∧
  (0 < maxLeafCapacity s ≤ __CFStorageMaxLeafCapacity) ∧ maxLeafCapacity s mod valueSize s = 0.

Lemma storage_checked s : storage_checks s → storage_ok s.
Proof. intros (H1 & H2 & H3 & H4). split; try done. apply Z.mod_divide; [lia|done]. Qed.

Lemma guard_checked m t : guard_checks m t = true → guarded_at m (addr t).
Proof.
  unfold guard_checks. intros H n Hn. rewrite Hn in H. intros Hf. rewrite Hf in H. cbn in H. by apply Z.leb_le.
Qed.
Lemma memory_checked li l : memory_checks li l = true → memory_ok li l.
Proof. unfold memory_checks, memory_ok. by destruct (memory li); intros ?%bool_decide_eq_true. Qed.

Lemma node_checked s m t : 0 < valueSize s → node_checks s m t = true → sound m t ∧ leaf_fits s t ∧ backed m t.
Proof.
  unfold node_checks. intros Hs. destruct (m !! addr t) as [n|] eqn:Hn; [|done].
  destruct t as [a l|a ts], (info n) as [li|c] eqn:Hi; try done; intros [H1 H2]%andb_prop; apply bool_decide_eq_true in H1.
  - destruct H1 as (H1 & H3 & H4 & H5). apply memory_checked in H2. refine (conj _ (conj (conj H4 _) _)).
    + split; [|apply Forall_nil_2]. exists n. split; [done|]. split; [done|]. by exists li.
    + apply Z.mod_divide; [lia|done].
    + exists n. split; [done|]. unfold has_memory. by rewrite Hi.
  - destruct H1 as (-> & H3 & H4). refine (conj _ (conj I I)). split.
    + exists n. unfold zlen in H4. split_and!; done || lia.
    + apply Forall_forall. intros u Hu. apply guard_checked. rewrite forallb_forall in H2. apply H2. by apply list_elem_of_In.
Qed.

Lemma tree_checked s m t : 0 < valueSize s → forallb (node_checks s m) (subtrees t) = true → intact s m t.
Proof.
  intros Hs H. rewrite forallb_forall in H. assert (Hall : ∀ u, u ∈ subtrees t → sound m u ∧ leaf_fits s u ∧ backed m u).
  { intros u Hu. apply node_checked; [done|]. apply H. by apply list_elem_of_In. }
  left. split; [| |apply ready_backed]; apply Forall_forall; intros u Hu; by apply Hall.
Qed.

(** ** The leaf in the cache *)

(** Where the leaf [c] of a tree begins, and its bytes. *)
Fixpoint leaf_place (c : Z) (t : tree) : option (Z * list (option Z)) :=
  match t with
  | TLeaf a l => if decide (a = c) then Some (0, l) else None
  | TNode _ ts =>
      (fix scan (ts : list tree) (off : Z) : option (Z * list (option Z)) :=
         match ts with
         | [] => None
         | u :: ts => match leaf_place c u with Some (o, l) => Some (off + o, l) | None => scan ts (off + zlen (bytes u)) end
         end) ts 0
  end.

Lemma leaf_placed c t : ∀ off l, leaf_place c t = Some (off, l) → at_offset t off (TLeaf c l).
Proof.
  induction t as [a l0|a ts IH] using tree_induction; intros off l; cbn [leaf_place].
  - case_decide; [|done]. subst. intros [= <- <-]. constructor.
  - match goal with |- ?f ts 0 = _ → _ => set (scan := f) end.
    cut (∀ post pre, ts = pre ++ post → scan post (zlen (all_bytes pre)) = Some (off, l) → at_offset (TNode a ts) off (TLeaf c l)).
    { intros H. by apply (H ts []). }
    induction post as [|u post IHp]; intros pre ->; [done|]. cbn.
    apply Forall_app in IH as [_ [Hu _]%Forall_cons]. destruct (leaf_place c u) as [[o l']|].
    + intros [= <- <-]. constructor. by apply Hu.
    + intros H. rewrite (cons_middle u pre post), app_assoc in IHp |- *. apply (IHp (pre ++ [u])); [done|].
      unfold all_bytes. rewrite map_app, concat_app. cbn. by rewrite app_nil_r, zlen_app.
Qed.

(** The cached leaf is frozen or at the end of a path of nodes nobody else has;
    the check asks for the first. *)
Definition cache_checks (s : __CFStorage) (m : gmap Z CFStorageNode) (t : tree) : bool :=
  match cacheNode s with
  | None => true
  | Some c =>
      match leaf_place c t, m !! c with
      | Some (off, l), Some n =>
          match info n with
          | leaf li =>
              isFrozen n && bool_decide (location (cachedRange li) * valueSize s = off ∧
                0 ≤ range_length (cachedRange li) ∧ range_length (cachedRange li) * valueSize s ≤ zlen l)
          | notLeaf _ => false
          end
      | _, _ => false
      end
  end.

Lemma cache_checked s h t : cache_checks s (nodes h) t = true → cache_valid s h t.
Proof.
  unfold cache_checks. intros H c Hc. rewrite Hc in H. destruct (leaf_place c t) as [[off l]|] eqn:Hp; [|done].
  destruct (nodes h !! c) as [n|] eqn:Hn; [|done]. destruct (info n) as [li|] eqn:Hi; [|done].
  apply andb_prop in H as [Hf (H1 & H2 & H3)%bool_decide_eq_true]. apply leaf_placed in Hp.
  exists off, l, n, li. split_and!; try done; [|by rewrite Hf].
  exists [], t, [], off. by split_and!.
Qed.

(** ** A pair of storages, decided *)

Definition storage_finds (s : __CFStorage) (h : store) (v : list (option Z)) (t : tree) : bool :=
  bool_decide (storage_checks s ∧ addr t = rootNode s ∧ bytes t = v) &&
  forallb (node_checks s (nodes h)) (subtrees t) && cache_checks s (nodes h) t.

Lemma storage_found R s h v t : rootNode s ∈ R → storage_finds s h v t = true →
  rooted R s h t ∧ bytes t = v ∧ cache_valid s h t.
Proof.
  intros Hr [[(H1 & H2 & H3)%bool_decide_eq_true H4]%andb_prop H5]%andb_prop. split_and!; [split_and!|done|].
  - by apply storage_checked.
  - done.
  - done.
  - apply tree_checked; [apply H1|done].
  - by apply cache_checked.
Qed.

Definition roots (w : pair) : list Z := [rootNode (first w); rootNode (second w)].

(** Both storages hold [v], and the leaves of one are those of the other. *)
Definition pair_checks (v : list (option Z)) (w : pair) : bool :=
  match tree_of 9 (nodes (memory_ w)) (rootNode (first w)), tree_of 9 (nodes (memory_ w)) (rootNode (second w)) with
  | Some t1, Some t2 =>
      bool_decide (world_checks (roots w) (memory_ w)) &&
      storage_finds (first w) (memory_ w) v t1 && storage_finds (second w) (memory_ w) v t2 &&
      bool_decide (rootNode (second w) ≠ rootNode (first w) ∧ addr <$> kids t1 = addr <$> kids t2 ∧ addr <$> kids t1 ≠ [])
  | _, _ => false
  end.

Record sharing (v : list (option Z)) (w : pair) (t1 t2 : tree) : Prop := {
  sh_world : world (roots w) (memory_ w);
  sh_first : rooted (roots w) (first w) (memory_ w) t1 ∧ bytes t1 = v ∧ cache_valid (first w) (memory_ w) t1;
  sh_second : rooted (roots w) (second w) (memory_ w) t2 ∧ bytes t2 = v ∧ cache_valid (second w) (memory_ w) t2;
  sh_apart : rootNode (second w) ≠ rootNode (first w);
  sh_kids : addr <$> kids t1 = addr <$> kids t2 ∧ kids t1 ≠ [];
}.
Lemma pair_checked v w : pair_checks v w = true → ∃ t1 t2, sharing v w t1 t2.
Proof.
  unfold pair_checks. destruct (tree_of _ _ _) as [t1|]; [|done]. destruct (tree_of _ _ _) as [t2|]; [|done].
  intros [[[H1 H2]%andb_prop H3]%andb_prop H4]%andb_prop. apply bool_decide_eq_true in H1, H4. destruct H4 as (H4 & H5 & H6).
  exists t1, t2. split.
  - by apply world_checked.
  - apply storage_found; [left|done].
  - apply storage_found; [right; left|done].
  - done.
  - split; [done|]. by intros E; rewrite E in H6.
Qed.

(** Six values, all shared with the second storage. *)
Definition six_shared : option pair := st ← made (numbered 6); shared (CFRangeMake 0 6) st.
Definition six_values : list (option Z) := Some <$> values (seqZ 10 6).

Lemma six_share : ∃ w t1 t2, six_shared = Some w ∧ valueSize (first w) = SIZE ∧ cacheNode (first w) ≠ None ∧ sharing six_values w t1 t2.
Proof.
  assert (H : match six_shared with
    | Some w => pair_checks six_values w && bool_decide (valueSize (first w) = SIZE ∧ cacheNode (first w) ≠ None)
    | None => false end = true) by (vm_compute; reflexivity).
  destruct six_shared as [w|]; [|done]. apply andb_prop in H as [H [Hv Hc]%bool_decide_eq_true].
  apply pair_checked in H as (t1 & t2 & H). by exists w, t1, t2.
Qed.
