(* ===== verification/StorageUse.v ===== *)
(** * CFStorageInsertValues

    An insertion makes room in the bytes of a storage, leaves a cache that is
    right, and leaves the other storages as they are. *)
From S2P Require Import Prelude Storage StorageSpec StorageOps StorageInsert StorageBranch StorageFrozen StorageRoot StorageGrow.
From stdpp Require Import gmap list.
Open Scope Z_scope.

(** ** What an operation leaves *)

(** The bytes are [v]; the cache is empty, or a leaf with the range it says. *)
Record leaves (R : list Z) (s : __CFStorage) (h : store) (v : list (option Z)) (st : state) : Prop := {
  lv_this : same_storage s (this st);
  lv_world : world R (heap st);
  lv_spares : spares R s h (heap st);
  lv_tree : ∃ t, rooted R s (heap st) t ∧ bytes t = v ∧ cache_valid (this st) (heap st) t;
}.

Lemma cached_same s s' m us base c : same_storage s s' → cached s m us base c → cached s' m us base c.
Proof.
  intros (E & _)%same_storage_fields (off & l & n & li & H). exists off, l, n, li. by rewrite E.
Qed.

Lemma rooted_same R s s' h t : same_storage s s' → rooted R s h t → rooted R s' h t.
Proof.
  intros Hs (H1 & H2 & H3 & H4). pose proof (same_storage_fields _ _ Hs) as (E1 & _ & _ & E2 & E3).
  split_and!; [by eapply same_storage_ok|congruence|congruence|]. destruct H4 as [[F1 F2 F3]|H4]; [left|by right]. split; [done| |done].
  revert F2. apply every_impl. intros [a l|a ts]; unfold leaf_fits; [by rewrite E1, E2|done].
Qed.

Section insertion.
Context `{Al : Allocator} (Hal : ∀ n, 0 < n → is_Some (alloc n)).
Context (R : list Z) (s0 : __CFStorage).

Lemma root_node h t : world R h → rooted R s0 h t → ∃ n, nodes h !! addr t = Some n ∧ refCount n = 0 ∧ numBytes n = zlen (bytes t).
Proof.
  intros Hw (_ & Hr & E & Hin). destruct (inv_root _ _ _ _ Hw (rootNode s0) Hr) as (_ & _ & n & Hn & Hc).
  destruct (sound_bytes _ _ (intact_sound _ _ _ Hin)) as (n' & Hn' & Hb). rewrite E in *. rewrite Hn in Hn'. injection Hn' as <-. by exists n.
Qed.

Definition insert_round (byteNum size : Z) : M () :=
  d ← depth;
  newNodes ← __CFStorageInsertUnfrozen (__CFStorageInsert d) (rootNode s0) byteNum size byteNum;
  match sibling newNodes with None => mret () | Some newNode => grow_root newNode end.

(** The insertion below the root has one result, or two. *)
Lemma whole_root st t pos size r st1 us : same_storage s0 (this st) → world R (heap st) → rooted R s0 (heap st) t →
  inserted R [] none_held (own (nodes (heap st)) t) nowhere s0 (heap st) t pos size 0 r st1 us → sibling r = None → child r = addr t →
  leaves R s0 (heap st) (room pos size (bytes t)) st1.
Proof.
  intros Hthis Hw Hroot [Hok Hres Hfine Hb _ _ (c & Hc & Hcache) _] Hsib Hch. rewrite Hsib, Hch in *.
  rewrite decide_True in Hok by done. destruct us as [|t1 [|]]; try done. injection Hres as E1. apply Forall_cons in Hfine as [Hfine _].
  assert (Hw1 : world R (heap st1)). { refine (inv_same _ _ _ _ _ _ (ok_inv _ _ _ _ _ _ _ _ _ Hok)). intros x. unfold eplus, none_held, maybe_one. by rewrite decide_False. }
  destruct Hok as [H1 _ H3]. pose proof Hroot as (Hs & Hr & E & _). split; [done|done| |].
  - eapply (apart_spares R s0 _ _ _ t); [done|done|exact H3|by intros|done].
  - exists t1. split_and!; [split_and!; [done|done|congruence|by left]| |].
    + rewrite <- Hb. unfold all_bytes. cbn. by rewrite app_nil_r.
    + intros c' Hc'. rewrite Hc in Hc'. injection Hc' as <-. by eapply cached_same.
Qed.
Lemma split_root st t pos size r st1 us b : same_storage s0 (this st) → world R (heap st) → rooted R s0 (heap st) t →
  inserted R [] none_held (own (nodes (heap st)) t) nowhere s0 (heap st) t pos size 0 r st1 us → sibling r = Some b → child r = addr t →
  wp (grow_root b) (λ _ st', leaves R s0 (heap st) (room pos size (bytes t)) st') st1.
Proof.
  intros Hthis Hw Hroot [Hok Hres Hfine Hb _ Hg (c & Hc & Hcache) _] Hsib Hch. rewrite Hsib, Hch in *. rewrite decide_True in Hok by done.
  destruct us as [|t1 [|u2 [|]]]; try done. injection Hres as E1 E2. apply Forall_cons in Hfine as [Hf1 Hf2]. apply Forall_cons in Hf2 as [Hf2 _].
  pose proof Hroot as (Hs & Hr & E & _). pose proof Hok as [H1 H2 H3].
  assert (Hw1 : inv R [] (none_held ⊕ one (addr u2)) (heap st1)). { refine (inv_same _ _ _ _ _ _ H2). rewrite E2. intros x. unfold eplus, none_held, maybe_one, one. rewrite decide_False by done. repeat case_decide; congruence || lia. }
  assert (Hr1 : addr t1 ∈ R) by congruence.
  destruct (sound_bytes _ _ (fine_sound _ _ _ Hf1)) as (n & Hn & Hbn). destruct (sound_bytes _ _ (fine_sound _ _ _ Hf2)) as (nb & Hnb & _).
  assert (Hg2 : guarded_at (nodes (heap st1)) (addr u2)) by (destruct (Hg u2) as [|[_ []]]; [right; left|done]).
  destruct (root_facts R st1 t1 u2 n nb Hw1 Hr1 Hn Hnb) as (Hcn & Hne & Hra & Hba).
  rewrite <- E2. eapply wp_mono; [apply (grow_root_steps Hal st1 (addr t1) n (addr u2) nb); try done|].
  - apply same_storage_fields in H1 as (_ & _ & _ & _ & H1). congruence.
  - intros Hl. pose proof (every_here _ _ (fine_sound _ _ _ Hf1)) as [(n' & Hn' & Hok') _]. rewrite Hn in Hn'. injection Hn' as <-.
    destruct t1 as [x l|x ts]; [destruct Hok' as (_ & li & Hli & _); unfold isLeaf in Hl; by rewrite Hli in Hl|].
    destruct Hok' as (Hi & _ & ?). rewrite (slots_pad n ts Hi). apply pad_length. lia.
  - intros [] st' ->. assert (Hw' : world R (heap (root_grown st1 (addr t1) (addr u2) n nb))) by (by eapply inv_grow).
    split; [|exact Hw'| |].
    + cbn. destruct (isLeaf n); [by apply same_storage_cache|done].
    + eapply (apart_spares R s0 (own (nodes (heap st)) t) _ _ t); [done|done| |by intros|done].
      assert (Hown : own (nodes (heap st)) t (addr t1)).
      { rewrite E1. destruct (root_node _ _ Hw Hroot) as (k & Hk & Hck & _). apply (own_here _ t k); [done|lia]. }
      set (h1 := {| nodes := <[next (heap st1) := root_copy (this st1) n]> (nodes (heap st1)); next := next (heap st1) + 1 |}).
      refine (evolves_put _ _ _ _ h1 (addr t1) n (new_root (next (heap st1)) (addr u2) nb n) _ _ _); [|cbn; by rewrite lookup_insert_ne by lia|].
      * by apply evolves_new.
      * right. split; [rewrite E1; apply addr_addrs|by left].
    + exists (TNode (addr t1) [with_addr (next (heap st1)) t1; u2]). split_and!; [split_and!; try done; [cbn; congruence|left]| |].
      * by apply (grown_fine R).
      * rewrite <- Hb. cbn [bytes map concat]. by rewrite bytes_with.
      * intros c' Hc'. cbn in Hc'. destruct (isLeaf n) eqn:El; [done|]. rewrite Hc in Hc'. injection Hc' as <-.
        eapply cached_same; [|by eapply (grown_cached R)]. cbn. by rewrite El.
Qed.

Lemma insert_round_ok st t pos size : same_storage s0 (this st) → world R (heap st) → rooted R s0 (heap st) t →
  request s0 t pos size 0 pos → wp (insert_round pos size) (λ _ st', leaves R s0 (heap st) (room pos size (bytes t)) st') st.
Proof.
  intros Hthis Hw Hroot Hreq. pose proof Hroot as (Hs & Hr & E & Hin). destruct (root_node _ _ Hw Hroot) as (n & Hn & Hc & _).
  unfold insert_round. rewrite <- E. apply wp_bind, wp_depth, wp_bind. eapply wp_mono.
  - eapply (insert_unfrozen_ok Hal _ R [] none_held s0 pos size 0 pos st t n); try done; [by intros x _ ?%elem_of_nil|lia|].
    apply Forall_forall. intros u Hu. apply insert_ok; [done|]. pose proof (height_size _ _ (intact_linked _ _ _ Hin)) as Hsz.
    destruct t as [x l|x ts]; [by apply elem_of_nil in Hu|]. pose proof (height_kid x ts u Hu). lia.
  - intros r st1 (us & Hus). assert (Hch : child r = addr t).
    { destruct (decide (child r = addr t)) as [|Hne]; [done|]. destruct (is_kept _ _ _ _ _ _ _ _ _ _ _ _ _ _ Hus (addr t) Hne).
      apply (own_here _ t n); [done|lia]. }
    destruct (sibling r) as [b|] eqn:Hsib; [by eapply split_root|]. apply wp_ret. by eapply whole_root.
Qed.

(** Room made in rounds. *)
Lemma room_room pos k n l : 0 ≤ pos ≤ zlen l → 0 ≤ k → 0 ≤ n → room (pos + k) n (room pos k l) = room pos (k + n) l.
Proof.
  intros Hp Hk Hn. assert (E : Z.to_nat (pos + k) = length (ztake pos l ++ gap k)).
  { pose proof (zlen_ztake pos l Hp) as H1. pose proof (zlen_gap k Hk) as H2. rewrite length_app. unfold zlen in *. lia. }
  assert (Ha : room pos k l = (ztake pos l ++ gap k) ++ zdrop pos l) by (unfold room; by rewrite <- app_assoc).
  rewrite Ha. unfold room at 1. unfold ztake at 1. rewrite E, take_app_length. unfold zdrop at 1. rewrite E, drop_app_length.
  unfold room. rewrite <- (gap_app k n) by done. by rewrite <- !app_assoc.
Qed.
Lemma room_zero pos l : room pos 0 l = l.
Proof. unfold room. change (gap 0) with (@nil (option Z)). apply take_drop. Qed.

Lemma insert_loop_ok fuel : ∀ st t pos n, same_storage s0 (this st) → world R (heap st) → rooted R s0 (heap st) t →
  0 ≤ pos ≤ zlen (bytes t) → (valueSize s0 | pos) → 0 ≤ n ≤ Z.of_nat fuel * maxLeafCapacity s0 → (valueSize s0 | n) →
  (n = 0 → cache_valid (this st) (heap st) t) →
  wp (insert_values_loop fuel pos n) (λ _ st', leaves R s0 (heap st) (room pos n (bytes t)) st') st.
Proof.
  assert (Hzero : ∀ st t pos fuel, same_storage s0 (this st) → world R (heap st) → rooted R s0 (heap st) t → cache_valid (this st) (heap st) t →
    wp (insert_values_loop fuel pos 0) (λ _ st', leaves R s0 (heap st) (room pos 0 (bytes t)) st') st).
  { intros st t pos k H1 H2 H3 H4. exists (), st. split; [by destruct k|]. rewrite room_zero. split; [done|done|apply spares_refl|by exists t]. }
  induction fuel as [|fuel IH]; intros st t pos n Hthis Hw Hroot Hp Hvp Hn Hvn Hc.
  { assert (n = 0) as -> by lia. by apply Hzero, Hc. }
  destruct (decide (n = 0)) as [->|Hn0]; [by apply Hzero, Hc|]. pose proof Hroot as (Hs & _). pose proof (so_max s0 Hs) as Hmax.
  destruct (same_storage_fields _ _ Hthis) as (_ & _ & _ & Em & Er).
  cbn [insert_values_loop]. rewrite (proj2 (Z.ltb_lt 0 n)) by lia. apply wp_bind, wp_self. rewrite Em, Er.
  set (k := Z.min n (maxLeafCapacity s0)). assert (Hk : 0 < k ≤ maxLeafCapacity s0 ∧ k ≤ n ∧ n - k ≤ Z.of_nat fuel * maxLeafCapacity s0) by lia.
  assert (Hvk : (valueSize s0 | k)) by (unfold k; destruct (Z.min_spec n (maxLeafCapacity s0)) as [[_ ->]|[_ ->]]; [done|apply (so_divides s0 Hs)]).
  assert (Hround : wp (insert_round pos k) (λ _ st', leaves R s0 (heap st) (room pos k (bytes t)) st') st).
  { eapply insert_round_ok; try done. split; try done; lia || (by exists 0). }
  apply wp_assoc, wp_assoc. apply wp_bind. eapply wp_mono; [exact Hround|]. intros [] st1 [H1 H2 H3 (t1 & H4 & H5 & H6)].
  assert (Hl : zlen (bytes t1) = zlen (bytes t) + k) by (rewrite H5; apply zlen_room; lia).
  eapply wp_mono; [apply (IH st1 t1)|]; try done; [lia|by apply Z.divide_add_r|lia|by apply Z.divide_sub_r|].
  intros [] st2 [K1 K2 K3 K4]. rewrite H5, room_room in K4 by lia. replace (k + (n - k)) with n in K4 by lia.
  split; [done|done| |done]. by apply (spares_trans R s0 s0 _ (heap st1)).
Qed.

End insertion.

(** ** A new storage *)

Lemma land_pred x : 0 < x → Z.land x (x - 1) = 0 → x = 2 ^ Z.log2 x.
Proof.
  intros Hx Hl. destruct (Z.log2_spec x Hx) as [H1 H2]. destruct (decide (x = 2 ^ Z.log2 x)) as [|Hne]; [done|]. exfalso.
  assert (E : Z.log2 (x - 1) = Z.log2 x) by (apply Z.log2_unique; [apply Z.log2_nonneg|lia]).
  assert (Hb : Z.testbit (Z.land x (x - 1)) (Z.log2 x) = true).
  { rewrite Z.land_spec, Z.bit_log2 by done. rewrite <- E. pose proof (Z.log2_nonneg x) as Hg. rewrite Z.bit_log2; [done|].
    assert (1 ≤ 2 ^ Z.log2 x) by (apply (Z.pow_le_mono_r 2 0); lia). lia. }
  by rewrite Hl, Z.bits_0 in Hb.
Qed.
Lemma ctz_pow x : 0 < x → Z.land x (x - 1) = 0 → 0 ≤ __builtin_ctzl x ∧ x = 2 ^ __builtin_ctzl x.
Proof.
  intros Hx Hl. unfold __builtin_ctzl. assert (Z.land x (- x) = x) as ->; [|split; [apply Z.log2_nonneg|by apply land_pred]].
  replace (- x) with (Z.lnot (x - 1)) by (unfold Z.lnot; lia). rewrite <- Z.ldiff_land. apply Z.bits_inj'. intros k Hk.
  rewrite Z.ldiff_spec. assert (E : Z.testbit (Z.land x (x - 1)) k = false) by (by rewrite Hl, Z.bits_0). rewrite Z.land_spec in E.
  by destruct (Z.testbit x k), (Z.testbit (x - 1) k).
Qed.

Lemma created_ok `{Al : Allocator} size h s h' : 0 < size ≤ __CFStorageMaxLeafCapacity → CFStorageCreate size h = (Some s, h') → storage_ok s.
Proof.
  intros Hsize. unfold CFStorageCreate. destruct (alloc sizeof_CFStorage); [|done]. intros [=<- _].
  assert (Hrem : Z.rem __CFStorageMaxLeafCapacity size = __CFStorageMaxLeafCapacity mod size) by (apply Z.rem_mod_nonneg; unfold __CFStorageMaxLeafCapacity in *; lia).
  assert (Hq : __CFStorageMaxLeafCapacity ÷ size = __CFStorageMaxLeafCapacity / size) by (apply Z.quot_div_nonneg; unfold __CFStorageMaxLeafCapacity in *; lia).
  split; cbn; [lia| | |].
  - rewrite (proj2 (Z.ltb_lt 0 size)) by lia. destruct (Z.eqb_spec (Z.land size (size - 1)) 0) as [E|E]; [right; by apply ctz_pow; [lia|]|by left].
  - rewrite Hrem, Hq. destruct (_ && _); [|done]. pose proof (Z.div_mod __CFStorageMaxLeafCapacity size ltac:(lia)).
    pose proof (Z.mod_pos_bound __CFStorageMaxLeafCapacity size ltac:(lia)). split; [|lia].
    assert (0 < __CFStorageMaxLeafCapacity / size) by (apply Z.div_str_pos; lia). nia.
  - rewrite Hrem, Hq. rewrite (proj2 (Z.eqb_neq size 0)) by lia. cbn [negb andb].
    destruct (Z.eqb_spec (__CFStorageMaxLeafCapacity mod size) 0) as [E|E]; cbn [negb]; [by apply Z.mod_divide; [lia|]|].
    exists (__CFStorageMaxLeafCapacity / size). lia.
Qed.

(** The root of a new storage is a node apart from the others. *)
Lemma inv_new_root R h n : world R h → refCount n = 0 → slots n = [] →
  world (next h :: R) {| nodes := <[next h := n]> (nodes h); next := next h + 1 |}.
Proof.
  intros Hinv Hc Hs. assert (Hnone : nodes h !! next h = None).
  { destruct (nodes h !! next h) as [m|] eqn:E; [|done]. pose proof (inv_dom _ _ _ _ Hinv _ _ E). lia. }
  assert (Href : ∀ x, refs [] (<[next h := n]> (nodes h)) x = refs [] (nodes h) x).
  { intros x. unfold refs. rewrite msum_new by done. unfold points at 1. rewrite Hs. by case_decide. }
  pose proof (refs_fresh _ _ _ _ (next h) Hinv ltac:(lia)) as Hf. unfold none_held in Hf.
  split; cbn.
  - intros b m Hb. apply lookup_insert_Some in Hb as [[<- _]|[_ Hb]]; [lia|]. pose proof (inv_dom _ _ _ _ Hinv _ _ Hb). lia.
  - intros b Hb. rewrite Href. apply elem_of_cons in Hb as [->|Hb]; [split_and!; [lia|done|exists n; by rewrite lookup_insert_eq]|].
    destruct (inv_root _ _ _ _ Hinv b Hb) as (H1 & H2 & m & Hm & H3). split_and!; [done|done|]. exists m.
    rewrite lookup_insert_ne; [done|]. intros <-. by rewrite Hnone in Hm.
  - intros b m Hb Hbr. rewrite Href. apply not_elem_of_cons in Hbr as [Hne Hbr]. rewrite lookup_insert_ne in Hb by done. by apply (inv_count _ _ _ _ Hinv).
  - intros b m Hb Hbr Hbo. apply not_elem_of_cons in Hbr as [Hne Hbr]. rewrite lookup_insert_ne in Hb by done. by apply (inv_pos _ _ _ _ Hinv b m).
  - apply (inv_ext _ _ _ _ Hinv).
  - intros b. rewrite Href. destruct (decide (b = next h)) as [->|Hne]; [by rewrite lookup_insert_eq|]. rewrite lookup_insert_ne by done.
    apply (inv_live _ _ _ _ Hinv).
  - by intros b ?%elem_of_nil.
Qed.
Lemma create_made `{Al : Allocator} R size h s h' : 0 < size ≤ __CFStorageMaxLeafCapacity → CFStorageCreate size h = (Some s, h') → world R h →
  world (rootNode s :: R) h' ∧ holds (rootNode s :: R) s h' [] ∧ (∀ s2 v, holds R s2 h v → holds (rootNode s :: R) s2 h' v).
Proof.
  intros Hsize Hc Hw. pose proof (created_ok size h s h' Hsize Hc) as Hs. unfold CFStorageCreate in Hc.
  destruct (alloc sizeof_CFStorage); [|done]. injection Hc as <- <-. cbn [rootNode] in *. set (n := {| numBytes := 0 |}).
  assert (Hw' := inv_new_root R h n Hw eq_refl eq_refl). split; [done|]. split.
  - exists (TLeaf (next h) []). split; [|done]. split_and!; [done|by left|done|]. right. exists (next h). split; [done|].
    apply every_leaf. split; [|apply Forall_nil_2]. exists n. split; [cbn; by rewrite lookup_insert_eq|]. split; [done|]. by exists empty_leaf.
  - intros s2 v (t & (H1 & H2 & H3 & H4) & Hv). exists t. split; [|done]. split_and!; [done|by right|done|].
    assert (Hag : agree (nodes h) (nodes {| nodes := <[next h := n]> (nodes h); next := next h + 1 |}) t).
    { intros x Hx. cbn. rewrite lookup_insert_ne; [done|]. pose proof (linked_dom R [] _ h t x Hw (intact_linked _ _ _ H4) Hx). lia. }
    destruct H4 as [H4|(a & -> & H4)]; [left; by eapply agree_fine|]. right. exists a. split; [done|].
    by apply (agree_every sound _ _ _ (agree_sound _ _) Hag).
Qed.
Lemma world_empty : world [] {| nodes := ∅; next := 0 |}.
Proof.
  split; cbn; try done; try (by intros ? ?%elem_of_nil).
Qed.

Lemma insert_values_ok `{Al : Allocator} (Hal : ∀ n, 0 < n → is_Some (alloc n)) R s st t pos n :
  same_storage s (this st) → world R (heap st) → rooted R s (heap st) t → 0 ≤ pos → pos * valueSize s ≤ zlen (bytes t) → 0 < n →
  wp (CFStorageInsertValues (CFRangeMake pos n)) (λ _ st', leaves R s (heap st) (room (pos * valueSize s) (n * valueSize s) (bytes t)) st') st.
Proof.
  intros Hthis Hw Hroot Hp Hle Hn. pose proof Hroot as (Hs & _). pose proof (so_size s Hs). pose proof (so_max s Hs).
  pose proof (same_storage_fields _ _ Hthis) as (Ev & _ & _ & Em & _).
  unfold CFStorageInsertValues. apply wp_bind, wp_self. cbn [location range_length]. rewrite !value_to_byte by (by eapply same_storage_ok). rewrite Ev, Em.
  eapply (insert_loop_ok Hal R s _ st t); try done.
  - lia.
  - by exists pos.
  - rewrite Z.quot_div_nonneg by lia. pose proof (Z.div_mod (n * valueSize s) (maxLeafCapacity s) ltac:(lia)).
    pose proof (Z.mod_pos_bound (n * valueSize s) (maxLeafCapacity s) ltac:(lia)).
    assert (0 ≤ n * valueSize s / maxLeafCapacity s) by (apply Z.div_pos; lia). nia.
  - by exists n.
  - nia.
Qed.

(** C8. [CFStorageInsertValues] makes room for [n] values at place [pos] in the
    bytes of a storage.  The other storages of the heap keep their bytes, however
    many nodes they share with this one, and the cache is right. *)
Theorem storage_insert `{Al : Allocator} (Hal : ∀ n, 0 < n → is_Some (alloc n)) R s h v pos n :
  world R h → holds R s h v → 0 ≤ pos → pos * valueSize s ≤ zlen v → 0 < n →
  wp (CFStorageInsertValues (CFRangeMake pos n))
    (λ _ st', leaves R s h (room (pos * valueSize s) (n * valueSize s) v) st') {| this := s; heap := h |}.
Proof. intros Hw (t & Hroot & <-) Hp Hle Hn. by apply (insert_values_ok Hal R s {| this := s; heap := h |} t). Qed.

(** Two storages, of values of four and of three bytes. *)
#[local] Instance zero_bytes : Allocator := fill_allocator 0 ltac:(by_decide).
Lemma zero_bytes_ok n : 0 < n → is_Some (alloc n).
Proof. intros _. by eexists. Qed.
Definition one_storage : option __CFStorage * store := CFStorageCreate 4 {| nodes := ∅; next := 0 |}.
Definition two_storages : option (__CFStorage * __CFStorage * store) :=
  match one_storage with
  | (Some s1, h) => match CFStorageCreate 3 h with (Some s2, h) => Some (s1, s2, h) | _ => None end
  | _ => None
  end.
Lemma two_storages_made s1 s2 h : two_storages = Some (s1, s2, h) →
  let R := [rootNode s2; rootNode s1] in world R h ∧ holds R s1 h [] ∧ holds R s2 h [].
Proof.
  unfold two_storages. destruct one_storage as [[s|] h1] eqn:E1; [|done]. destruct (CFStorageCreate 3 h1) as [[s'|] h2] eqn:E2; [|done]. intros [= -> -> ->].
  destruct (create_made [] 4 _ s1 h1 ltac:(by_decide) E1 world_empty) as (H1 & H2 & _).
  destruct (create_made [rootNode s1] 3 h1 s2 h ltac:(by_decide) E2 H1) as (K1 & K2 & K3). split_and!; [done|by apply K3|done].
Qed.

Lemma storage_insert_witness : ∃ s1 s2 h, two_storages = Some (s1, s2, h) ∧
  wp (CFStorageInsertValues (CFRangeMake 0 5)) (λ _ st', leaves [rootNode s2; rootNode s1] s1 h (room 0 20 []) st') {| this := s1; heap := h |}.
Proof.
  eexists _, _, _. split; [reflexivity|]. destruct (two_storages_made _ _ _ eq_refl) as (H1 & H2 & _).
  exact (storage_insert zero_bytes_ok _ _ _ _ 0 5 H1 H2 ltac:(by_decide) ltac:(by_decide) ltac:(by_decide)).
Defined.

(** The first storage, with five values nobody has written yet. *)
Lemma five_values : ∃ R s h t, world R h ∧ rooted R s h t ∧ cache_valid s h t ∧ valueSize s = 4 ∧ bytes t = gap 20.
Proof.
  destruct two_storages as [[[s1 s2] h]|] eqn:E; [|done]. destruct (two_storages_made _ _ _ E) as (H1 & (t & H2 & Hb) & _).
  assert (Hv : valueSize s1 = 4) by (cbn in E; by injection E as <- _ _).
  destruct (insert_values_ok zero_bytes_ok _ s1 {| this := s1; heap := h |} t 0 5 eq_refl H1 H2) as ([] & st & _ & [H3 H4 _ (t' & H5 & H6 & H7)]);
    [done|apply zlen_nonneg|done|]. destruct (same_storage_fields _ _ H3) as (Ev & _).
  exists [rootNode s2; rootNode s1], (this st), (heap st), t'. split_and!; [done|by eapply rooted_same|done|by rewrite Ev|].
  rewrite H6, Hb, Hv. unfold room, zdrop. rewrite drop_nil, ztake_0. by rewrite app_nil_r.
Qed.
