(* ===== verification/StorageRead.v ===== *)
(** * Reading a CFStorage

    The leaf with a byte is found from the root or in the cache, and gets its
    memory; [CFStorageGetValues] gathers the bytes of a range. *)
From S2P Require Import Prelude Storage StorageSpec StorageOps StorageInsert StorageBranch StorageFrozen StorageRoot StorageGrow StorageUse.
From stdpp Require Import gmap list.
Open Scope Z_scope.

(** ** The cache as a reader needs it: the range is a place of the leaf *)

Definition placed (s : __CFStorage) (m : gmap Z CFStorageNode) (t : tree) (c : Z) : Prop :=
  ∃ off l n li, at_offset t off (TLeaf c l) ∧ m !! c = Some n ∧ info n = leaf li ∧
    location (cachedRange li) * valueSize s = off ∧
    0 ≤ range_length (cachedRange li) ∧ range_length (cachedRange li) * valueSize s ≤ zlen l.
Definition readable (s : __CFStorage) (h : store) (t : tree) : Prop := ∀ c, cacheNode s = Some c → placed s (nodes h) t c.
(** No node of the storage is shared. *)
Definition unshared (m : gmap Z CFStorageNode) (t : tree) : Prop := ∀ x, x ∈ addrs t → own m t x.

Lemma cached_placed s m t c : cached s m [t] 0 c → placed s m t c.
Proof.
  intros (off & l & n & li & (pre & u & post & o & E & -> & Hat) & Hn & Hi & H1 & H2 & H3 & _).
  destruct pre as [|v pre]; [injection E as <- <-|injection E as _ E; by destruct pre]. exists o, l, n, li. split_and!; try done; lia.
Qed.
Lemma valid_readable s h t : cache_valid s h t → readable s h t.
Proof. intros H c Hc. by apply cached_placed, H. Qed.
Lemma at_offset_in t off u : at_offset t off u → addr u ∈ addrs t.
Proof.
  induction 1 as [t|a pre u post off x _ IH]; [apply addr_addrs|]. apply addrs_node. right. exists u. split; [apply elem_of_app; right; left|done].
Qed.
Lemma placed_cached s m t c : unshared m t → placed s m t c → cached s m [t] 0 c.
Proof.
  intros Hu (off & l & n & li & Hat & Hn & Hi & H1 & H2 & H3). exists off, l, n, li. split_and!; try done.
  - exists [], t, [], off. done.
  - intros _. exists t. split; [left|]. apply Hu. by apply (at_offset_in t off (TLeaf c l)).
Qed.

(** The bytes of a part of a tree. *)
Lemma at_offset_bytes t off u : at_offset t off u → 0 ≤ off ∧ ∃ pre post, bytes t = pre ++ bytes u ++ post ∧ zlen pre = off.
Proof.
  induction 1 as [t|a pre u post off x _ [IH0 (p & q & E & L)]].
  - split; [done|]. exists [], []. by rewrite app_nil_r.
  - split; [pose proof (zlen_nonneg (all_bytes pre)); lia|]. exists (all_bytes pre ++ p), (q ++ all_bytes post).
    split; [|rewrite zlen_app; lia]. cbn [bytes]. change (concat (map bytes (pre ++ u :: post))) with (all_bytes (pre ++ u :: post)).
    rewrite all_bytes_app, all_bytes_cons, E. by rewrite <- !app_assoc.
Qed.
Lemma at_offset_every (P : tree → Prop) t off u : every P t → at_offset t off u → every P u.
Proof.
  intros H Hat. induction Hat as [t|a pre u post off x _ IH]; [done|]. apply every_node in H as [_ H]. apply IH.
  apply (proj1 (Forall_forall _ _) H). apply elem_of_app. right. left.
Qed.

Section reading.
Context `{Al : Allocator} (Hal : ∀ n, 0 < n → is_Some (alloc n)).
Context (s0 : __CFStorage) (Hs0 : storage_ok s0).

Definition leaf_found (t : tree) (byteNum base : Z) (r : Z * Z * CFRange) (st st' : state) : Prop :=
  ∃ c l o n li, r = (c, byteNum - o, CFRangeMake (base + o) (zlen l)) ∧ at_offset t o (TLeaf c l) ∧ 0 ≤ byteNum - o < zlen l ∧
    nodes (heap st) !! c = Some n ∧ info n = leaf li ∧ grown c n li (zlen l) st st'.

Lemma find_byte_ok fuel : ∀ t byteNum base st, (height t ≤ fuel)%nat → same_storage s0 (this st) → fine s0 (nodes (heap st)) t →
  0 ≤ byteNum < zlen (bytes t) →
  wp (__CFStorageFindByte fuel (addr t) byteNum base false) (λ r st', leaf_found t byteNum base r st st') st.
Proof.
  induction fuel as [|fuel IH]; intros t byteNum base st Hf Hthis Hfine Hb; [destruct t; cbn in Hf; lia|].
  pose proof (every_here _ _ (fine_sound _ _ _ Hfine)) as [(n & Hn & Hok) _]. cbn [__CFStorageFindByte]. apply wp_bind.
  eapply wp_load; [exact Hn|]. destruct (same_storage_fields _ _ Hthis) as (_ & _ & _ & Em & _). pose proof (so_max s0 Hs0).
  destruct t as [c l|a ts].
  - destruct Hok as (Hnb & li & Hi & Hm). pose proof (every_here _ _ (fine_fits _ _ _ Hfine)) as [Hl _]. cbn [bytes] in Hb.
    unfold isLeaf. rewrite Hi. apply wp_bind. rewrite Hnb. eapply wp_mono; [eapply (alloc_leaf_ok Hal); [exact Hn|exact Hi|exact Hm|..]; rewrite Em; lia|].
    intros [] st' Hg. apply wp_ret. exists c, l, 0, n, li. rewrite Z.sub_0_r, Z.add_0_r. split_and!; try done; [constructor|lia|lia].
  - destruct Hok as (Hi & _ & Hlen). unfold isLeaf. rewrite Hi. pose proof (fine_children _ _ _ _ Hfine) as Hk. cbn [addr] in Hn. apply wp_bind.
    eapply wp_mono; [apply (find_child_ok n ts byteNum false st Hi Hlen)|].
    + eapply Forall_impl; [exact Hk|]. by intros u [Hu _ _].
    + lia.
    + apply Hb.
    + intros r st' [-> (i & u & -> & Hu & Hrel)]. cbv beta iota zeta in Hrel |- *. destruct Hrel as [Hr1 Hr2]. pose proof (list_elem_of_lookup_2 _ _ _ Hu) as Hin.
      assert (Hfu : fine s0 (nodes (heap st)) u) by (by apply (proj1 (Forall_forall _ _) Hk)).
      destruct (sound_bytes _ _ (fine_sound _ _ _ Hfu)) as (nu & Hnu & _). apply wp_bind. eapply wp_load; [exact Hnu|]. cbn [andb]. apply wp_bind, wp_ret.
      eapply wp_mono; [apply IH; [|done|done|by split]|].
      * pose proof (height_kid a ts u Hin). lia.
      * intros r st' (c & l & o & n' & li & -> & Hat & Ho & H1 & H2 & H3).
        exists c, l, (zlen (all_bytes (take i ts)) + o), n', li. split_and!; try done; [f_equal; [f_equal; lia|f_equal; lia]| |lia|lia].
        rewrite <- (take_drop_middle ts i u Hu) at 1. by constructor.
Qed.

(** ** Changes of a leaf that are not seen *)
Lemma grown_alike c n li l st st' : info n = leaf li → leaf_ok n l → grown c n li (zlen l) st st' →
  ∃ li' m, st' = with_heap st (put c (set_info (leaf li') n) (heap st)) ∧ memory li' = Some m ∧ below l m ∧
    alike n (set_info (leaf li') n) ∧ cachedRange li' = cachedRange li.
Proof.
  intros Hi (Hb & li0 & E & Hm) (li' & m & -> & Hok & Hr & Hm' & Hz). rewrite Hi in E. injection E as <-. exists li', m.
  pose proof (Hok l ltac:(lia) Hm) as Hm2. unfold memory_ok in Hm2. rewrite Hm' in Hm2. split_and!; try done; [apply Hm2|].
  split_and!; try done.
  - intros l' (Hb' & li1 & E1 & Hm1). rewrite Hi in E1. injection E1 as <-. split; [done|]. exists li'. split; [done|]. apply Hok; [lia|done].
  - intros _. unfold has_memory. cbn. by rewrite Hm'.
  - intros k. by rewrite Hi.
Qed.
Lemma range_alike n li r : info n = leaf li →
  alike n (set_info (leaf {| capacityInBytes := capacityInBytes li; memory := memory li; cachedRange := r |}) n).
Proof.
  intros Hi. split_and!; try done.
  - intros l (Hb & li0 & E & Hm). rewrite Hi in E. injection E as <-. split; [done|]. eexists. split; [done|]. exact Hm.
  - unfold has_memory. by rewrite Hi.
  - intros k. by rewrite Hi.
Qed.
Lemma alike_trans n1 n2 n3 : alike n1 n2 → alike n2 n3 → alike n1 n3.
Proof.
  intros (A1 & A2 & A3 & A4 & A5) (B1 & B2 & B3 & B4 & B5). split_and!; [auto|auto| |congruence|auto].
  intros c Hc. destruct (A3 c Hc) as [Hc' E]. destruct (B3 c Hc') as [? ?]. split; [done|congruence].
Qed.
Lemma touched_world R h c n li : world R h → nodes h !! c = Some n → isLeaf n = true → world R (put c (set_info (leaf li) n) h).
Proof.
  intros Hw Hn Hl. eapply (inv_put R [] none_held none_held h c n); [done|done| |done|..].
  - right. unfold slots. unfold isLeaf in Hl. by destruct (info n).
  - intros x. cbn. case_decide; unfold none_held; lia.
  - done.
  - intros Hr Ho. by apply (inv_pos _ _ _ _ Hw c n).
Qed.
Lemma touched_evolves (Rch : Z → Prop) h0 h c n li : evolves nowhere nowhere Rch h0 h → nodes h !! c = Some n → isLeaf n = true →
  alike n (set_info (leaf li) n) → Rch c → evolves nowhere nowhere Rch h0 (put c (set_info (leaf li) n) h).
Proof.
  intros Hev Hn Hl (A1 & A2 & A3 & A4 & A5) Hc. eapply evolves_put; [done|exact Hn|]. right. split; [done|]. right. split; [|by right].
  by split_and!.
Qed.
Lemma alike_rooted R s h c n n' t : rooted R s h t → nodes h !! c = Some n → alike n n' → rooted R s (put c n' h) t.
Proof.
  intros (H1 & H2 & H3 & H4) Hn Ha. pose proof (alike_put _ c n n' Hn Ha) as Hall. split_and!; try done.
  destruct H4 as [H4|(a & -> & H4)]; [left; by eapply alike_fine|right]. exists a. split; [done|]. revert H4. apply every_impl. intros u. by apply alike_sound.
Qed.
(** ** A value found *)

(** The pointer is to value [idx] of [t], among the values of a leaf that are cached. *)
Definition points_to (t : tree) (idx : Z) (p : value_ptr) (st : state) : Prop :=
  ∃ c l first k n li m, p = (c, (idx - first) * valueSize s0, CFRangeMake first k) ∧ at_offset t (first * valueSize s0) (TLeaf c l) ∧
    first ≤ idx < first + k ∧ k * valueSize s0 ≤ zlen l ∧ nodes (heap st) !! c = Some n ∧ info n = leaf li ∧ memory li = Some m ∧ below l m.

(** Nothing but leaves of [t] changed, and their bytes are the same. *)
Record touched (R : list Z) (h : store) (t : tree) (st : state) : Prop := {
  tc_this : same_storage s0 (this st);
  tc_world : world R (heap st);
  tc_rooted : rooted R s0 (heap st) t;
  tc_evolves : evolves nowhere nowhere (.∈ addrs t) h (heap st);
  tc_readable : readable (this st) (heap st) t;
  tc_own x : own (nodes h) t x → own (nodes (heap st)) t x;
}.

Lemma touch_leaf R h t st c n li s' : touched R h t st → nodes (heap st) !! c = Some n → isLeaf n = true → c ∈ addrs t →
  alike n (set_info (leaf li) n) → same_storage s0 s' →
  readable s' (put c (set_info (leaf li) n) (heap st)) t →
  touched R h t {| this := s'; heap := put c (set_info (leaf li) n) (heap st) |}.
Proof.
  intros [H1 H2 H3 H4 H5 H6] Hn Hl Hc Ha Hs' Hrd. split; cbn; try done.
  - by apply touched_world.
  - by eapply alike_rooted.
  - by apply touched_evolves.
  - intros x Hx. eapply alike_own; [by apply (alike_put _ c n)|]. by apply H6.
Qed.

Lemma leaf_node R h t off c l : rooted R s0 h t → at_offset t off (TLeaf c l) →
  ∃ n li, nodes h !! c = Some n ∧ info n = leaf li ∧ leaf_ok n l ∧ zlen l ≤ maxLeafCapacity s0.
Proof.
  intros (_ & _ & _ & Hin) Hat. pose proof (at_offset_every _ _ _ _ (intact_sound _ _ _ Hin) Hat) as Hl. apply every_leaf in Hl as [(n & Hn & Hok) _].
  pose proof Hok as (_ & li & Hi & _). exists n, li. split_and!; try done. destruct Hin as [[_ Hf _]|(a & -> & _)].
  - pose proof (at_offset_every _ _ _ _ Hf Hat) as Hl. apply every_leaf in Hl as [? _]. lia.
  - inversion Hat; subst. pose proof (so_max s0 Hs0). rewrite zlen_nil. lia.
Qed.
Lemma in_leaf_pos t off c l R h st : touched R h t st → at_offset t off (TLeaf c l) →
  c ∈ addrs t ∧ (∀ off' l', at_offset t off' (TLeaf c l') → zlen l' = zlen l).
Proof.
  intros Ht Hat. split; [by apply (at_offset_in t off (TLeaf c l))|]. intros off' l' Hat'.
  destruct (leaf_node _ _ _ _ _ _ (tc_rooted _ _ _ _ Ht) Hat) as (n & _ & Hn & _ & [E _] & _).
  destruct (leaf_node _ _ _ _ _ _ (tc_rooted _ _ _ _ Ht) Hat') as (n' & _ & Hn' & _ & [E' _] & _). rewrite Hn in Hn'. injection Hn' as <-. lia.
Qed.

(** The cache gives the value, if it has it. *)
Lemma get_from_cache_ok R h t idx req st : touched R h t st → 0 ≤ idx →
  wp (__CFStorageGetFromCache idx req)
    (λ r st', touched R h t st' ∧ match r with None => True | Some p => points_to t idx p st' ∧ cacheNode (this st') = Some (fst (fst p)) ∧
      cacheNode (this st) = Some (fst (fst p)) ∧ (req = true → ∃ n, nodes (heap st) !! fst (fst p) = Some n ∧ isFrozen n = false) end) st.
Proof.
  intros Ht Hidx. unfold __CFStorageGetFromCache. apply wp_bind, wp_self. destruct (cacheNode (this st)) as [c|] eqn:Ec; [|by apply wp_ret].
  destruct (tc_readable _ _ _ _ Ht c Ec) as (off & l & n & li & Hat & Hn & Hi & Hoff & Hk0 & Hkl).
  pose proof (tc_this _ _ _ _ Ht) as Hthis. destruct (same_storage_fields _ _ Hthis) as (Ev & _ & _ & Em & _). pose proof (so_max s0 Hs0).
  pose proof (so_size s0 Hs0) as Hsz. rewrite Ev in Hoff, Hkl.
  destruct (leaf_node _ _ _ _ _ _ (tc_rooted _ _ _ _ Ht) Hat) as (n0 & li0 & Hn0 & Hi0 & Hok & Hmax). rewrite Hn in Hn0. injection Hn0 as <-.
  destruct (in_leaf_pos _ _ _ _ _ _ _ Ht Hat) as [Hc Hlen]. apply wp_bind. eapply wp_load; [exact Hn|].
  destruct (req && isFrozen n) eqn:Efz; [by apply wp_ret|]. apply wp_bind. eapply wp_leaf_of; [exact Hi|]. apply wp_bind.
  assert (Hmem : wp (match memory li with None => __CFStorageAllocLeafNodeMemory c (numBytes n) false | Some _ => mret () end)
    (λ _ st', touched R h t st' ∧ this st' = this st ∧ (0 < zlen l → ∃ n' li' m, nodes (heap st') !! c = Some n' ∧ info n' = leaf li' ∧ memory li' = Some m ∧ below l m)) st).
  { pose proof Hok as (Hb & li1 & E1 & Hm). rewrite Hi in E1. injection E1 as <-. destruct (memory li) as [m|] eqn:Em'.
    - apply wp_ret. split_and!; [done|done|]. intros _. exists n, li, m. split_and!; try done. unfold memory_ok in Hm. rewrite Em' in Hm. apply Hm.
    - rewrite Hb. destruct (decide (zlen l = 0)) as [E0|E0].
      { rewrite E0. unfold __CFStorageAllocLeafNodeMemory. apply wp_bind, wp_self, wp_bind. eapply wp_load; [exact Hn|].
        apply wp_bind. eapply wp_leaf_of; [exact Hi|]. unfold memory_ok in Hm. rewrite Em' in Hm. destruct Hm as [-> _]. apply wp_ret.
        split_and!; [done|done|lia]. }
      pose proof (zlen_nonneg l). eapply wp_mono; [eapply (alloc_leaf_ok Hal); [exact Hn|exact Hi|exact Hm|..]; rewrite Em; lia|].
      intros [] st' Hg. destruct (grown_alike c n li l st st' Hi Hok Hg) as (li' & m & -> & Hm' & Hbl & Hal' & Hr'). split_and!; [|done|].
      + eapply (touch_leaf R h t st c n); try done; [unfold isLeaf; by rewrite Hi|].
        intros c' Ec'. rewrite Ec in Ec'. injection Ec' as <-. exists off, l, (set_info (leaf li') n), li'. cbn. rewrite Hr', Ev.
        split_and!; try done. by rewrite lookup_insert_eq.
      + intros _. exists (set_info (leaf li') n), li', m. cbn. rewrite lookup_insert_eq. done. }
  eapply wp_mono; [exact Hmem|]. intros [] st' (Ht' & Hthis' & Hm').
  destruct (_ || _) eqn:Er; [by apply wp_ret|]. apply orb_false_iff in Er as [Er1 Er2]. zbool. apply wp_ret. split; [done|]. cbn [fst]. rewrite Hthis'.
  split_and!; [|done|done|intros ->; exists n; by rewrite Hn]. destruct Hm' as (n' & li' & m & H1 & H2 & H3 & H4); [nia|].
  rewrite value_to_byte by (by eapply same_storage_ok). rewrite Ev. exists c, l, (location (cachedRange li)), (range_length (cachedRange li)), n', li', m.
  rewrite Hoff. split_and!; try done; lia.
Qed.

(** Values do not straddle leaves. *)
Lemma offset_divides t off u : every (leaf_fits s0) t → at_offset t off u → (valueSize s0 | off).
Proof.
  intros H Hat. induction Hat as [t|a pre u post off x _ IH]; [by exists 0|]. apply every_node in H as [_ H]. apply Forall_app in H as [H1 H2].
  apply Forall_cons in H2 as [H2 _]. apply Z.divide_add_r; [by apply all_bytes_divides|by apply IH].
Qed.
Lemma value_in_bytes idx len : 0 ≤ idx → (valueSize s0 | len) → idx < len / valueSize s0 → 0 ≤ idx * valueSize s0 < len.
Proof.
  intros H0 [q ->] Hlt. pose proof (so_size s0 Hs0). rewrite Z.div_mul in Hlt by lia. nia.
Qed.

(** The leaf that was found becomes the cache. *)
Lemma set_cache_found R h t st c l off n li m : touched R h t st → at_offset t off (TLeaf c l) → (valueSize s0 | off) →
  nodes (heap st) !! c = Some n → info n = leaf li → leaf_ok n l → memory li = Some m → below l m →
  wp (__CFStorageSetCache (Some c) off) (λ _ st', touched R h t st' ∧ cacheNode (this st') = Some c ∧ ∃ n' li', nodes (heap st') !! c = Some n' ∧ info n' = leaf li' ∧ memory li' = Some m) st.
Proof.
  intros Ht Hat Hdiv Hn Hi [Hb Hok] Hm Hbl. unfold __CFStorageSetCache. apply wp_bind, wp_self, wp_bind, wp_bind. eapply wp_load; [exact Hn|].
  apply wp_bind. eapply wp_leaf_of; [exact Hi|]. eapply wp_put; [exact Hn|]. eexists _, _. split; [done|].
  pose proof (tc_this _ _ _ _ Ht) as Hthis. destruct (same_storage_fields _ _ Hthis) as (Ev & _). pose proof (so_size s0 Hs0).
  set (li' := {| cachedRange := __CFStorageConvertBytesToValueRange _ _ _ |}). set (n' := set_info _ n). split; [|split; [done|]].
  - eapply (touch_leaf R h t st c n li'); try done.
    + unfold isLeaf. by rewrite Hi.
    + by eapply in_leaf_pos.
    + by apply range_alike.
    + destruct (at_offset_bytes _ _ _ Hat) as [Hoff _]. pose proof (zlen_nonneg l).
      assert (Hr : cachedRange li' = CFRangeMake (off / valueSize s0) (zlen l / valueSize s0)).
      { unfold li'. cbn [cachedRange]. rewrite bytes_to_range by (lia || by eapply same_storage_ok). by rewrite Ev, Hb. }
      intros c' [= <-]. exists off, l, n', li'. rewrite Hr. cbn [location range_length]. change (valueSize (set_cacheNode _ _)) with (valueSize (this st)).
      rewrite Ev. split_and!; [done|cbn; apply lookup_insert_eq|done|destruct Hdiv as [q ->]; by rewrite Z.div_mul by lia|apply Z.div_pos; lia|].
      rewrite Z.mul_comm. apply Z.mul_div_le. lia.
  - exists n', li'. cbn. rewrite lookup_insert_eq. by split_and!.
Qed.

Lemma get_value_ok R h t idx st : touched R h t st → 0 ≤ idx < zlen (bytes t) / valueSize s0 →
  wp (__CFStorageGetValueAtIndex idx false) (λ p st', touched R h t st' ∧ points_to t idx p st') st.
Proof.
  intros Ht Hidx. unfold __CFStorageGetValueAtIndex. apply wp_bind. eapply wp_mono; [apply (get_from_cache_ok R h t idx false st); [done|lia]|].
  intros [p|] st1 [Ht1 Hp]; [apply wp_ret; split; [done|apply Hp]|]. clear Hp Ht st. pose proof (tc_rooted _ _ _ _ Ht1) as Hroot. pose proof (tc_this _ _ _ _ Ht1) as Hthis.
  destruct (same_storage_fields _ _ Hthis) as (Ev & _ & _ & _ & Er). pose proof Hroot as (_ & _ & Ea & Hin). pose proof (so_size s0 Hs0).
  assert (Hfine : fine s0 (nodes (heap st1)) t).
  { destruct Hin as [|(a & -> & _)]; [done|]. cbn in Hidx. change (zlen (@nil (option Z))) with 0 in Hidx. rewrite Z.div_0_l in Hidx; lia. }
  pose proof (fits_divides s0 t ltac:(lia) (fine_fits _ _ _ Hfine)) as Hdiv. pose proof (value_in_bytes idx _ (proj1 Hidx) Hdiv (proj2 Hidx)) as Hbyte.
  apply wp_bind, wp_self, wp_bind, wp_depth. rewrite Er, <- Ea, value_to_byte, Ev by (by eapply same_storage_ok).
  apply wp_bind. eapply wp_mono; [apply find_byte_ok; try done|].
  { pose proof (height_size _ t (fine_linked _ _ _ Hfine)). lia. }
  intros r st2 (c & l & off & n & li & -> & Hat & Hoff & Hn & Hi & Hg). cbv beta iota. rewrite Z.add_0_l. cbn [location range_length].
  destruct (leaf_node _ _ _ _ _ _ Hroot Hat) as (n0 & li0 & Hn0 & _ & Hok & _). rewrite Hn in Hn0. injection Hn0 as <-.
  destruct (grown_alike c n li l st1 st2 Hi Hok Hg) as (li' & m & -> & Hm & Hbl & Hal' & Hr). set (n' := set_info (leaf li') n) in *.
  destruct (in_leaf_pos _ _ _ _ _ _ _ Ht1 Hat) as [Hc Hlen]. assert (Hl : isLeaf n = true) by (unfold isLeaf; by rewrite Hi).
  assert (Ht2 : touched R h t (with_heap st1 (put c n' (heap st1)))).
  { eapply (touch_leaf R h t st1 c n li'); try done. intros c' Ec'. destruct (tc_readable _ _ _ _ Ht1 c' Ec') as (off' & l' & k & lk & P1 & P2 & P3 & P4 & P5 & P6).
    destruct (decide (c' = c)) as [->|Hne]; [|exists off', l', k, lk; cbn; rewrite lookup_insert_ne by done; by split_and!].
    rewrite Hn in P2. injection P2 as <-. rewrite Hi in P3. injection P3 as <-. exists off', l', n', li'. cbn. rewrite lookup_insert_eq, Hr. by split_and!. }
  pose proof (offset_divides t off _ (fine_fits _ _ _ Hfine) Hat) as Hdo.
  apply wp_bind. eapply wp_mono; [eapply (set_cache_found R h t _ c l off n' li' m); try done; [cbn; apply lookup_insert_eq|by destruct Hal' as (A & _); apply A]|].
  intros [] st3 (Ht3 & _ & n3 & li3 & H3n & H3i & H3m). apply wp_ret. split; [done|].
  pose proof (at_offset_every _ _ _ _ (fine_fits _ _ _ Hfine) Hat) as Hv. apply every_leaf in Hv as [_ Hvl]. destruct (at_offset_bytes _ _ _ Hat) as [Hoff0 _].
  rewrite bytes_to_range by (lia || by eapply same_storage_ok). rewrite Ev. destruct Hdo as [q ->], Hvl as [w Hw]. rewrite Hw, !Z.div_mul by lia.
  exists c, l, q, w, n3, li3, m. split_and!; try done; nia || (f_equal; f_equal; lia).
Qed.

(** ** Parts of a sequence *)
Lemma slice_within {A} (pre l post : list A) x y : zlen pre ≤ x → 0 ≤ y → x + y ≤ zlen pre + zlen l →
  ztake y (zdrop x (pre ++ l ++ post)) = ztake y (zdrop (x - zlen pre) l).
Proof.
  intros Hx Hy Hle. unfold ztake, zdrop, zlen in *. rewrite drop_app_ge by lia. rewrite drop_app_le by lia.
  rewrite take_app_le by (rewrite length_drop; lia). do 2 f_equal. lia.
Qed.
Lemma slice_more {A} (l : list A) x y z : 0 ≤ x → 0 ≤ y → 0 ≤ z →
  ztake (y + z) (zdrop x l) = ztake y (zdrop x l) ++ ztake z (zdrop (x + y) l).
Proof.
  intros Hx Hy Hz. unfold ztake, zdrop. rewrite !Z2Nat.inj_add by lia.
  rewrite <- drop_drop. generalize (drop (Z.to_nat x) l) as k. intros k. by rewrite take_take_drop.
Qed.

Lemma read_found t idx cnt p st : points_to t idx p st → 0 < cnt → idx + cnt ≤ location (snd p) + range_length (snd p) →
  wp (read_bytes (fst (fst p)) (snd (fst p)) (cnt * valueSize s0))
    (λ b st', st' = st ∧ Forall2 cover (ztake (cnt * valueSize s0) (zdrop (idx * valueSize s0) (bytes t))) b) st.
Proof.
  intros (c & l & first & k & n & li & m & -> & Hat & Hidx & Hk & Hn & Hi & Hm & Hb) Hcnt Hle. cbn [fst snd location range_length] in *.
  pose proof (so_size s0 Hs0). unfold read_bytes. destruct (Z.eqb_spec (cnt * valueSize s0) 0); [nia|].
  unfold memory_of. apply wp_bind, wp_bind. eapply wp_load; [exact Hn|]. apply wp_bind. eapply wp_leaf_of; [exact Hi|]. apply wp_ret, wp_bind.
  eapply wp_lift; [exact Hm|]. pose proof (below_len _ _ Hb) as Hlm.
  eapply wp_lift; [apply zsub_some; nia|]. split; [done|]. destruct (at_offset_bytes _ _ _ Hat) as [_ (pre & post & E & L)]. rewrite E. cbn [bytes] in *.
  rewrite slice_within by nia. rewrite L. replace (idx * valueSize s0 - first * valueSize s0) with ((idx - first) * valueSize s0) by lia.
  assert (Hz : zlen (ztake (cnt * valueSize s0) (zdrop ((idx - first) * valueSize s0) l)) = cnt * valueSize s0).
  { rewrite zlen_ztake; [done|]. rewrite zlen_zdrop by nia. nia. }
  apply below_sub; [nia| |done]. apply below_ztake, below_zdrop; [nia|done].
Qed.

Lemma get_values_loop_ok R h t fuel : ∀ loc len vals st, touched R h t st → 0 ≤ loc → 0 ≤ len ≤ Z.of_nat fuel → (loc + len) * valueSize s0 ≤ zlen (bytes t) →
  wp (get_values_loop fuel loc len vals) (λ r st', touched R h t st' ∧ ∃ b, r = vals ++ b ∧
    Forall2 cover (ztake (len * valueSize s0) (zdrop (loc * valueSize s0) (bytes t))) b) st.
Proof.
  pose proof (so_size s0 Hs0) as Hsz.
  assert (Hend : ∀ k loc vals st, touched R h t st → wp (get_values_loop k loc 0 vals) (λ r st', touched R h t st' ∧ ∃ b, r = vals ++ b ∧
    Forall2 cover (ztake (0 * valueSize s0) (zdrop (loc * valueSize s0) (bytes t))) b) st).
  { intros k loc vals st Ht. exists vals, st. split; [by destruct k|]. split; [done|]. exists []. split; [by rewrite app_nil_r|by constructor]. }
  induction fuel as [|fuel IH]; intros loc len vals st Ht Hloc Hlen Hle; [assert (len = 0) as -> by lia; by apply Hend|].
  destruct (decide (len = 0)) as [->|Hne]; [by apply Hend|]. cbn [get_values_loop]. rewrite (proj2 (Z.ltb_lt 0 len)) by lia. apply wp_bind, wp_self, wp_bind.
  pose proof (tc_this _ _ _ _ Ht) as Hthis. destruct (same_storage_fields _ _ Hthis) as (Ev & _).
  eapply wp_mono; [apply (get_value_ok R h t loc st); [done|split; [done|]]|].
  { apply Z.lt_le_trans with (loc + len); [lia|]. apply Z.div_le_lower_bound; lia. }
  intros p st1 [Ht1 Hp]. pose proof Hp as (c & l & first & k & n & li & m & E & _ & Hidx & _). rewrite E. cbv beta iota. cbn [location range_length].
  rewrite value_to_byte, Ev by (by eapply same_storage_ok). set (cnt := Z.min len (k - (loc - first))).
  assert (Hcnt : 0 < cnt ≤ len ∧ cnt ≤ k - (loc - first)) by lia. pose proof (read_found t loc cnt p st1 Hp ltac:(lia)) as Hr.
  rewrite E in Hr. cbn [fst snd location range_length] in Hr. apply wp_bind. eapply wp_mono; [apply Hr; lia|]. intros b st2 [-> Hb].
  eapply wp_mono; [apply IH; [done|lia|lia|nia]|]. intros r st2 [Ht2 (b' & -> & Hb')]. split; [done|]. exists (b ++ b'). split; [by rewrite app_assoc|].
  replace (len * valueSize s0) with (cnt * valueSize s0 + (len - cnt) * valueSize s0) by lia. rewrite slice_more by nia.
  apply Forall2_app; [done|]. by replace (loc * valueSize s0 + cnt * valueSize s0) with ((loc + cnt) * valueSize s0) by lia.
Qed.
End reading.

Lemma get_values_ok `{Al : Allocator} (Hal : ∀ n, 0 < n → is_Some (alloc n)) R s t pos n st :
  storage_ok s → same_storage s (this st) → world R (heap st) → rooted R s (heap st) t → readable (this st) (heap st) t →
  0 ≤ pos → 0 ≤ n → (pos + n) * valueSize s ≤ zlen (bytes t) →
  wp (CFStorageGetValues (CFRangeMake pos n)) (λ b st', touched s R (heap st) t st' ∧
    Forall2 cover (ztake (n * valueSize s) (zdrop (pos * valueSize s) (bytes t))) b) st.
Proof.
  intros Hs Hthis Hw Hroot Hrd Hp Hn Hle. unfold CFStorageGetValues. cbn [location range_length].
  assert (Ht : touched s R (heap st) t st) by (split; try done; apply evolves_refl).
  eapply wp_mono; [apply (get_values_loop_ok Hal s Hs R (heap st) t _ pos n [] _ Ht); lia|].
  intros b st' [Ht' (b' & -> & Hb)]. done.
Qed.

(** C20. [CFStorageGetValues] gives the bytes of the range, those that were
    written as they were; no bytes change, and the cache stays good for reading,
    and for writing when no node of the storage is shared. *)
Theorem storage_read `{Al : Allocator} (Hal : ∀ n, 0 < n → is_Some (alloc n)) R s h t pos n :
  world R h → rooted R s h t → readable s h t → 0 ≤ pos → 0 ≤ n → (pos + n) * valueSize s ≤ zlen (bytes t) →
  wp (CFStorageGetValues (CFRangeMake pos n)) (λ b st',
    Forall2 cover (ztake (n * valueSize s) (zdrop (pos * valueSize s) (bytes t))) b ∧
    same_storage s (this st') ∧ world R (heap st') ∧ spares R s h (heap st') ∧
    rooted R s (heap st') t ∧ readable (this st') (heap st') t ∧
    (unshared (nodes h) t → cache_valid (this st') (heap st') t)) {| this := s; heap := h |}.
Proof.
  intros Hw Hroot Hrd Hp Hn Hle. pose proof Hroot as (Hs & _).
  eapply wp_mono; [by apply (get_values_ok Hal R s t pos n {| this := s; heap := h |})|].
  intros b st' [[H1 H2 H3 H4 H5 H6] Hb]. split_and!; try done.
  - by eapply (apart_spares R s nowhere).
  - intros Hu c Hc. apply placed_cached; [intros x Hx; by apply H6, Hu|by apply H5].
Qed.

#[local] Existing Instance zero_bytes.
Lemma storage_read_witness : ∃ R s h t, bytes t = gap 20 ∧ wp (CFStorageGetValues (CFRangeMake 1 3)) (λ b st', zlen b = 12 ∧ readable (this st') (heap st') t) {| this := s; heap := h |} ∧ world R h.
Proof.
  destruct five_values as (R & s & h & t & H1 & H2 & H3 & Hv & Hb). exists R, s, h, t. split_and!; [done| |done].
  eapply wp_mono; [apply (storage_read zero_bytes_ok R s h t 1 3 H1 H2 (valid_readable _ _ _ H3)); [done|done|by rewrite Hv, Hb]|].
  rewrite Hv, Hb. intros b st' (Hc & _ & _ & _ & _ & Hr & _). split; [|done]. apply Forall2_length in Hc. unfold zlen. by rewrite <- Hc.
Defined.
