(* ===== verification/StorageCopy.v ===== *)
(** * Copies of the nodes of a CFStorage

    [__CFStorageCopyNode] makes a node with the bytes of a frozen one, which
    shares its children; a branch changes one of its frozen children for such a
    copy before anything below is changed. *)
From S2P Require Import Prelude Storage StorageSpec StorageOps StorageInsert StorageBranch StorageFrozen StorageRoot StorageGrow.
From stdpp Require Import gmap list.
Open Scope Z_scope.

(** The node [b] is a copy of the root of [u]; no node of [u] but [b] is the copy's own. *)
Record copied (R O : list Z) (ext : Z → Z) (s0 : __CFStorage) (u : tree) (st0 : state) (b : Z) (st : state) : Prop := {
  cd_new : b = next (heap st0);
  cd_this : this st = this st0;
  cd_inv : inv R O (ext ⊕ one b) (heap st);
  cd_ev : evolves nowhere nowhere (.∈ addrs u) (heap st0) (heap st);
  cd_kept : nodes (heap st) !! addr u = nodes (heap st0) !! addr u;
  cd_fine : fine s0 (nodes (heap st)) (with_addr b u);
  cd_own x : own (nodes (heap st)) (with_addr b u) x → x = b;
  cd_single : ∃ k, nodes (heap st) !! b = Some k ∧ refCount k = 1;
}.

(** ** Leaves *)
Section leaf_copy.
Context `{Al : Allocator} (Hal : ∀ n, 0 < n → is_Some (alloc n)).
Context (R O : list Z) (ext : Z → Z) (s0 : __CFStorage) (Hs0 : storage_ok s0).

Lemma copy_leaf_ok c l n li m st : same_storage s0 (this st) → inv R O ext (heap st) → fine s0 (nodes (heap st)) (TLeaf c l) →
  nodes (heap st) !! c = Some n → info n = leaf li → memory li = Some m →
  wp (__CFStorageCopyNode c) (copied R O ext s0 (TLeaf c l) st) st.
Proof.
  intros Hthis Hinv Hfine Hn Hi Hm. pose proof (every_here _ _ (fine_sound _ _ _ Hfine)) as [(n' & Hn' & Hok) _].
  cbn [addr] in Hn'. rewrite Hn in Hn'. injection Hn' as <-. destruct Hok as (Hb & li' & E & Hmem). rewrite Hi in E. injection E as <-.
  unfold memory_ok in Hmem. rewrite Hm in Hmem. destruct Hmem as [_ Hbl]. pose proof (every_here _ _ (fine_fits _ _ _ Hfine)) as [Hl Hv].
  assert (Hdom : c < next (heap st)) by (by apply (inv_dom _ _ _ _ Hinv c n)). set (b := next (heap st)) in *.
  unfold __CFStorageCopyNode. apply wp_bind. eapply wp_load; [exact Hn|]. unfold isLeaf. rewrite Hi, Hm, Hb. apply wp_bind.
  eapply (create_node_ok Hal R nowhere nowhere (.∈ addrs (TLeaf c l)) s0 (heap st) O ext); [by apply ok_refl|]. intros b' st1 -> -> Hok1. fold b in Hok1 |- *.
  apply wp_bind, wp_bind. eapply (alloc_ok Hal R nowhere nowhere _ s0 (heap st) Hs0 O _ _ b _ empty_leaf []);
    [exact Hok1|lk|done|by apply memory_ok_none|lia|by left; left|]. intros li1 m1 st2 -> Hok2 Hkeep _ Hm1 Hz1.
  eapply (copy_ok R nowhere nowhere _ s0 (heap st) O _ _ (Some m) m l 0 b _ li1 m1 []); [exact Hok2|done|done|lk|done|done|..].
  { by constructor. }
  1-4: rewrite ?zlen_nil; lia.
  { by left. }
  intros m2 st3 -> Hok3 Hb2 Hz2. rewrite app_nil_l, zdrop_0, ztake_all in Hb2 by lia. apply wp_ret.
  assert (Hc : capacityInBytes li1 ≤ zlen m1).
  { specialize (Hkeep [] ltac:(rewrite zlen_nil; lia) ltac:(by apply memory_ok_none)). unfold memory_ok in Hkeep. rewrite Hm1 in Hkeep. apply Hkeep. }
  split; [done|done|apply (ok_inv _ _ _ _ _ _ _ _ _ Hok3)|apply (ok_ev _ _ _ _ _ _ _ _ _ Hok3)|lk|..].
  - eapply (fine_leaf s0 _ b l); [cbn; apply lookup_insert_eq| |done|done|done]. split; [done|]. eexists. split; [done|]. unfold memory_ok. cbn. split; [lia|done].
  - intros x Ho. apply own_addrs in Ho. by apply addrs_leaf in Ho.
  - eexists. split; [cbn; apply lookup_insert_eq|done].
Qed.
End leaf_copy.

(** ** Branches *)
Section branch_copy.
Context `{Al : Allocator} (Hal : ∀ n, 0 < n → is_Some (alloc n)).
Context (R O : list Z) (ext : Z → Z) (s0 : __CFStorage) (c : Z) (vs : list tree) (n : CFStorageNode) (st0 : state).
Abbreviation b := (next (heap st0)).
Context (Hext : ∀ x, 0 ≤ ext x) (Hinv : inv R O ext (heap st0)) (Hn : nodes (heap st0) !! c = Some n).
Context (Hfine : fine s0 (nodes (heap st0)) (TNode c vs)) (HO : ∀ x, x ∈ addrs (TNode c vs) → x ∉ O).
Definition among (x : Z) : Prop := ∃ v, v ∈ vs ∧ x = addr v.
Definition copy_slots (k : nat) : list (option Z) := take k (pad vs) ++ replicate (3 - k) None.

Record copying (k : nat) (st : state) : Prop := {
  cy_this : this st = this st0;
  cy_inv : inv R (b :: O) (ext ⊕ one b ⊕ kids_ext (take k vs)) (heap st);
  cy_ev : evolves nowhere among among (heap st0) (heap st);
  cy_node : nodes (heap st) !! b = Some (set_info (notLeaf (copy_slots k)) (new_node (this st0) false (numBytes n)));
  cy_live v : v ∈ vs → is_Some (nodes (heap st) !! addr v);
  cy_count v : v ∈ take k vs → ∃ n, nodes (heap st) !! addr v = Some n ∧ 1 < refCount n;
}.

Lemma copy_facts : info n = notLeaf (pad vs) ∧ numBytes n = zlen (all_bytes vs) ∧ (2 ≤ length vs ≤ 3)%nat.
Proof.
  pose proof (every_here _ _ (fine_sound _ _ _ Hfine)) as [(n' & Hn' & Hok) _]. cbn [addr] in Hn'. rewrite Hn in Hn'. by injection Hn' as <-.
Qed.
Lemma copy_kid v : v ∈ vs → is_Some (nodes (heap st0) !! addr v) ∧ addr v ∉ R ∧ addr v ∉ O ∧ addr v < b ∧ addr v ≠ c ∧ addr v ∈ addrs (TNode c vs).
Proof.
  intros Hv. destruct copy_facts as (Hi & _). assert (Hin : addr v ∈ addrs (TNode c vs)) by (apply addrs_node; right; exists v; split; [done|apply addr_addrs]).
  assert (HcO : c ∉ O) by (apply HO, addrs_node; by left).
  assert (Hl : is_Some (nodes (heap st0) !! addr v)) by (by eapply kid_live). destruct Hl as [k Hk]. split_and!.
  - by exists k.
  - intros Hr. destruct (inv_root _ _ _ _ Hinv _ Hr) as (H0 & _). pose proof (pointed O _ c n (addr v) Hn HcO) as Hp.
    rewrite (slots_pad n vs Hi) in Hp. pose proof (occ_kid _ vs v Hv eq_refl). lia.
  - by apply HO.
  - by apply (inv_dom _ _ _ _ Hinv _ k).
  - intros E. apply (no_cycle _ c vs v (fine_linked _ _ _ Hfine) Hv). rewrite <- E. apply addr_addrs.
  - done.
Qed.
Lemma copy_slots_set k : (k < 3)%nat → (length vs ≤ 3)%nat → <[k := default None (pad vs !! k)]> (copy_slots k) = copy_slots (S k).
Proof.
  intros Hk Hl. pose proof (pad_length vs Hl) as Hp. unfold copy_slots. destruct (pad vs) as [|p0 [|p1 [|p2 [|]]]]; try done.
  by destruct k as [|[|[|]]]; try lia.
Qed.

Lemma copy_child_ok k st : copying k st → (k < 3)%nat → wp (copy_child n b k) (λ _ st', copying (S k) st') st.
Proof.
  intros [H1 H2 H3 H4 H5 H6] Hk. destruct copy_facts as (Hi & _ & Hlen). unfold copy_child. apply wp_bind. eapply (wp_pad n vs k); [done|lia|lia|].
  pose proof (copy_slots_set k Hk ltac:(lia)) as Hset. destruct (vs !! k) as [v|] eqn:E; cbn [fmap option_fmap option_map].
  - pose proof (list_elem_of_lookup_2 _ _ _ E) as Hv. destruct (copy_kid v Hv) as (_ & HR & HvO & Hb & Hc & Hin). destruct (H5 v Hv) as [nv Hnv].
    assert (Hpos : 0 < refCount nv) by (apply (inv_pos _ _ _ _ H2 (addr v) nv Hnv HR); intros [?|?]%elem_of_cons; [lia|done]).
    unfold __CFStorageRetainNode. apply wp_bind, wp_bind. eapply wp_load; [exact Hnv|]. rewrite (proj2 (Z.ltb_lt _ _)) by done.
    apply wp_bind. eapply wp_put; [exact Hnv|]. apply wp_ret. unfold __CFStorageSetChild. apply wp_bind. eapply wp_load; [lk|]. cbn [info set_info].
    eapply wp_put; [lk|]. set (nv' := set_refCount (refCount nv + 1) nv).
    assert (Hslots : <[k := Some (addr v)]> (copy_slots k) = copy_slots (S k)).
    { rewrite <- Hset. f_equal. unfold pad. rewrite lookup_app_l by (rewrite length_fmap; by eapply lookup_lt_Some). rewrite list_lookup_fmap, E. done. }
    rewrite Hslots. unfold put. cbn [heap nodes next with_heap this]. split; cbn [heap nodes next with_heap this].
    + done.
    + assert (HE : inv R (b :: O) (ext ⊕ one b ⊕ kids_ext (take (S k) vs)) (put (addr v) nv' (heap st))).
      { eapply (inv_put R (b :: O) _ _ _ (addr v) nv nv' H2 Hnv); [by right|done| | |intros _ _; cbn; lia].
        - intros x. unfold eplus. rewrite (take_S_r vs k v E), kids_ext_app, kids_ext_cons. unfold one. change (kids_ext [] x) with 0.
          repeat case_decide; cbn; try congruence; lia.
        - unfold eplus. pose proof (Hext (addr v)). pose proof (kids_ext_nonneg (take (S k) vs) (addr v)). unfold one. case_decide; lia. }
      eapply (inv_put _ _ _ _ _ b _ _ HE); [cbn; rewrite lookup_insert_ne by lia; exact H4|left; left|done| | |].
      * intros x. case_decide; cbn; lia.
      * apply (inv_ext _ _ _ _ HE).
      * intros _ Hnb. destruct Hnb. left.
    + eapply (evolves_put nowhere among among (heap st0) (put (addr v) nv' (heap st)) b); [|cbn; rewrite lookup_insert_ne by lia; exact H4|left; lia].
      eapply (evolves_put nowhere among among (heap st0) (heap st) (addr v) nv nv'); [done|done|]. right. split; [by exists v|]. right.
      split; [by split_and!|left; by exists v].
    + apply lookup_insert_eq.
    + intros w Hw. pose proof (copy_kid w Hw) as (_ & _ & _ & Hwb & _). rewrite lookup_insert_ne by lia.
      destruct (decide (addr w = addr v)) as [->|Hne]; [exists nv'; apply lookup_insert_eq|]. rewrite lookup_insert_ne by done. by apply H5.
    + intros w Hw. rewrite (take_S_r vs k v E) in Hw. assert (Hwb : addr w < b).
      { apply elem_of_app in Hw as [Hw|Hw]; [|apply list_elem_of_singleton in Hw as ->; done]. apply copy_kid. by apply (subseteq_take k vs). }
      rewrite lookup_insert_ne by lia. destruct (decide (addr w = addr v)) as [->|Hne].
      { exists nv'. rewrite lookup_insert_eq. split; [done|cbn; lia]. }
      rewrite lookup_insert_ne by done. apply H6. apply elem_of_app in Hw as [Hw|Hw]; [done|]. by apply list_elem_of_singleton in Hw as ->.
  - assert (Hk0 : k ≠ 0%nat) by (apply lookup_ge_None in E; lia). rewrite decide_False by done. apply wp_ret.
    assert (Ht : take (S k) vs = take k vs) by (apply lookup_ge_None in E; by rewrite !take_ge by lia).
    assert (Hs : copy_slots (S k) = copy_slots k).
    { rewrite <- Hset. unfold pad. rewrite lookup_app_r by (rewrite length_fmap; by apply lookup_ge_None in E).
      rewrite length_fmap. rewrite lookup_replicate_2 by (apply lookup_ge_None in E; lia). cbn. apply list_insert_id.
      unfold copy_slots. rewrite lookup_app_r; rewrite length_take, pad_length by lia; [|lia]. apply lookup_replicate_2. lia. }
    split; rewrite ?Ht, ?Hs; done.
Qed.

Record freezing (k : nat) (st : state) : Prop := {
  fz_copy : copying 3 st;
  fz_frozen v : v ∈ take k vs → frozen_at (nodes (heap st)) (addr v);
}.
Lemma freeze_child_ok k st : freezing k st → (k < 3)%nat → wp (freeze_child n k) (λ _ st', freezing (S k) st') st.
Proof.
  intros [[H1 H2 H3 H4 H5 H6] H7] Hk. destruct copy_facts as (Hi & _ & Hlen). unfold freeze_child. apply wp_bind. eapply (wp_pad n vs k); [done|lia|lia|].
  destruct (vs !! k) as [v|] eqn:E; cbn [fmap option_fmap option_map]; last first.
  { assert (k ≠ 0%nat) by (apply lookup_ge_None in E; lia). rewrite decide_False by done. apply wp_ret.
    split; [done|]. assert (Ht : take (S k) vs = take k vs) by (apply lookup_ge_None in E; by rewrite !take_ge by lia). by rewrite Ht. }
  pose proof (list_elem_of_lookup_2 _ _ _ E) as Hv. destruct (copy_kid v Hv) as (_ & HR & HvO & Hb & Hc & Hin). destruct (H5 v Hv) as [nv Hnv].
  unfold __CFStorageFreezeNode. eapply wp_put; [exact Hnv|]. set (nv' := set_isFrozen true nv).
  assert (Hkeep : ∀ (P : CFStorageNode → Prop) x, (∃ y, nodes (heap st) !! x = Some y ∧ P y) → (P nv → P nv') →
    ∃ y, <[addr v := nv']> (nodes (heap st)) !! x = Some y ∧ P y).
  { intros P x (y & Hy & Hp) Hpp. destruct (decide (x = addr v)) as [->|Hne]; [|exists y; by rewrite lookup_insert_ne].
    exists nv'. rewrite lookup_insert_eq. split; [done|]. rewrite Hnv in Hy. injection Hy as <-. auto. }
  split; [split|]; cbn [heap nodes next with_heap this put].
  - done.
  - eapply (inv_put R (b :: O) _ _ _ (addr v) nv nv' H2 Hnv); [by right|done| |apply (inv_ext _ _ _ _ H2)|intros Hr Ho; by apply (inv_pos _ _ _ _ H2 _ _ Hnv)].
    intros x. case_decide; cbn; lia.
  - eapply (evolves_put nowhere among among (heap st0) (heap st) (addr v) nv nv'); [done|done|]. right. split; [by exists v|]. right.
    split; [by split_and!|left; by exists v].
  - by rewrite lookup_insert_ne by lia.
  - intros w Hw. destruct (Hkeep (λ _, True) (addr w)) as (y & Hy & _); [|done|by exists y]. destruct (H5 w Hw) as [y Hy]. by exists y.
  - intros w Hw. apply (Hkeep (λ y, 1 < refCount y)); [by apply H6|done].
  - intros w Hw. rewrite (take_S_r vs k v E) in Hw. apply elem_of_app in Hw as [Hw|Hw].
    + apply (Hkeep (λ y, isFrozen y = true)); [by apply H7|done].
    + apply list_elem_of_singleton in Hw as ->. exists nv'. by rewrite lookup_insert_eq.
Qed.

Lemma take_three : take 3 vs = vs.
Proof. destruct copy_facts as (_ & _ & Hlen). apply take_ge. lia. Qed.
Lemma copy_slots_all : copy_slots 3 = pad vs.
Proof. destruct copy_facts as (_ & _ & Hlen). unfold copy_slots. rewrite take_ge by (rewrite pad_length; lia). apply app_nil_r. Qed.

Lemma copied_branch st : every (backed (nodes (heap st0))) (TNode c vs) → freezing 3 st → copied R O ext s0 (TNode c vs) st0 b st.
Proof.
  intros Hback [[H1 H2 H3 H4 H5 H6] H7]. destruct copy_facts as (Hi & Hb & Hlen). rewrite take_three in *. rewrite copy_slots_all in *.
  set (k := set_info _ _) in H4. pose proof (fine_children _ _ _ _ Hfine) as Hk. rewrite Forall_forall in Hk.
  assert (Hev : evolves nowhere nowhere among (heap st0) (heap st)).
  { eapply evolves_guarded; [exact H3|]. intros x _ (v & Hv & ->) n' Hn'. destruct (H7 v Hv) as (y & Hy & Hf). rewrite Hn' in Hy. by injection Hy as <-. }
  assert (HbO : b ∉ O) by (intros Hx; pose proof (inv_opened _ _ _ _ Hinv _ Hx); lia).
  assert (HbR : b ∉ R).
  { intros Hx. destruct (inv_root _ _ _ _ Hinv _ Hx) as (_ & _ & y & Hy & _). pose proof (inv_dom _ _ _ _ Hinv _ _ Hy). lia. }
  assert (Hocc : ∀ x, occ x (slots k) = kids_ext vs x) by (intros x; rewrite (slots_pad k vs eq_refl); by rewrite occ_pad).
  assert (Hinv' : inv R O (ext ⊕ one b) (heap st)).
  { refine (inv_same _ _ _ _ _ _ (inv_close R O _ _ b k H2 H4 HbO _ _)).
    - intros x. unfold eplus, eminus. rewrite Hocc. lia.
    - intros x. unfold eplus. rewrite Hocc. specialize (Hext x). unfold one. case_decide; lia.
    - by intros _. }
  assert (Hlive : ∀ v, v ∈ vs → is_Some (nodes (heap st) !! addr v)) by done.
  assert (Hapart : ∀ v x, v ∈ vs → x ∈ addrs v → x ∈ addrs (TNode c vs) ∧ x ≠ c ∧ x < b).
  { intros v x Hv Hx. assert (Hxc : x ∈ addrs (TNode c vs)) by (apply addrs_node; right; by exists v). split_and!; [done| |].
    - intros ->. by apply (no_cycle _ c vs v (fine_linked _ _ _ Hfine) Hv).
    - by apply (linked_dom R O ext (heap st0) (TNode c vs) x Hinv (fine_linked _ _ _ Hfine)). }
  assert (Hfk : ∀ v, v ∈ vs → fine s0 (nodes (heap st)) v).
  { intros v Hv. pose proof (Hk v Hv) as [F1 F2 F3]. assert (Hs : every (sound (nodes (heap st))) v).
    { eapply (frame_sound R); [exact Hev|exact Hinv|exact Hinv'|done| |by apply Hlive].
      intros x Hx. split_and!; [by intros []|by right; intros []|apply HO; by apply (Hapart v)]. }
    split; [done|done|]. apply ready_backed. eapply frame_backed; [exact Hev|by apply sound_every_linked| |].
    - intros x Hx. split; [by apply (Hapart v)|by intros []].
    - apply every_node in Hback as [_ Hback]. by apply (proj1 (Forall_forall _ _) Hback). }
  split; [done|done|done| | | | |].
  - eapply evolves_weaken; [exact Hev|by intros ? []..|]. intros x (v & Hv & ->). by apply copy_kid.
  - apply (ev_out _ _ _ _ _ Hev); [by apply (inv_dom _ _ _ _ Hinv c n)|]. intros (v & Hv & E). by apply (copy_kid v Hv).
  - cbn [with_addr]. eapply (fine_node s0 _ b vs k); [exact H4|done|done|exact Hb|done|by apply Forall_forall|].
    apply Forall_forall. intros v Hv. by apply frozen_guarded, H7.
  - intros x Ho. cbn [with_addr] in Ho. inversion Ho as [? y Hy Hc|? ? v y ? Hy Hc Hv Hov]; subst; [done|].
    destruct (H6 v Hv) as (z & Hz & Hcz). by destruct (own_shared _ _ _ x Hz Hcz).
  - exists k. done.
Qed.

Lemma copy_branch_ok : same_storage s0 (this st0) → isFrozen n = true → every (backed (nodes (heap st0))) (TNode c vs) →
  wp (__CFStorageCopyNode c) (copied R O ext s0 (TNode c vs) st0) st0.
Proof.
  intros Hthis Hfz Hback. destruct copy_facts as (Hi & Hb & Hlen). unfold __CFStorageCopyNode. apply wp_bind. eapply wp_load; [exact Hn|].
  unfold isLeaf. rewrite Hi, Hfz. apply wp_bind.
  eapply (create_node_ok Hal R nowhere among among s0 (heap st0) O ext); [by apply ok_refl|]. intros b' st1 -> -> Hok.
  assert (HbO : b ∉ O) by (intros Hx; pose proof (inv_opened _ _ _ _ Hinv _ Hx); lia).
  eapply ok_open_empty in Hok; [|cbn; apply lookup_insert_eq|done|done].
  assert (H0 : copying 0 (with_new st0 (new_node (this st0) false (numBytes n)))).
  { split; [done| |apply (ok_ev _ _ _ _ _ _ _ _ _ Hok)|cbn; apply lookup_insert_eq| |by intros v ?%elem_of_nil].
    - refine (inv_same _ _ _ _ _ _ (ok_inv _ _ _ _ _ _ _ _ _ Hok)). intros x. unfold eplus. change (kids_ext (take 0 vs) x) with 0. lia.
    - intros v Hv. destruct (copy_kid v Hv) as ([y Hy] & _ & _ & Hlt & _). exists y. cbn. by rewrite lookup_insert_ne by lia. }
  apply wp_bind, wp_bind. eapply wp_mono; [apply (copy_child_ok 0 _ H0); lia|]. intros [] st2 H2.
  apply wp_bind. eapply wp_mono; [apply (copy_child_ok 1 _ H2); lia|]. intros [] st3 H3.
  apply wp_bind. eapply wp_mono; [apply (copy_child_ok 2 _ H3); lia|]. intros [] st4 H4.
  assert (F0 : freezing 0 st4) by (split; [done|by intros v ?%elem_of_nil]).
  apply wp_bind. eapply wp_mono; [apply (freeze_child_ok 0 _ F0); lia|]. intros [] st5 F1.
  apply wp_bind. eapply wp_mono; [apply (freeze_child_ok 1 _ F1); lia|]. intros [] st6 F2.
  eapply wp_mono; [apply (freeze_child_ok 2 _ F2); lia|]. intros [] st7 F3. apply wp_ret. by apply copied_branch.
Qed.
End branch_copy.
