(* ===== verification/StorageWrite.v ===== *)
(** * Writing in a CFStorage

    [__CFStorageFindByte] with unfreezing puts copies in place of the frozen
    nodes on its way; [CFStorageReplaceValues] then changes bytes that belong to
    one storage only. *)
From S2P Require Import Prelude Storage StorageSpec StorageOps StorageInsert StorageBranch StorageFrozen StorageRoot StorageGrow StorageUse StorageRead StorageCopy.
From stdpp Require Import gmap list.
Open Scope Z_scope.

Section unfreezing.
Context `{Al : Allocator} (Hal : ∀ n, 0 < n → is_Some (alloc n)).

(** The child to go on with: itself, or a copy in its place. *)
Definition unfreeze_child (node : Z) (childNum : nat) (c : Z) (cn : CFStorageNode) : M Z :=
  if true && isFrozen cn then
    thawed ← __CFStorageThawNodeDuringMutation c;
    if (thawed : bool) then mret c
    else
      unfrozenReplacement ← __CFStorageCopyNode c;
      __CFStorageSetChild node childNum (Some unfrozenReplacement);;
      __CFStorageReleaseNode c;;
      mret unfrozenReplacement
  else mret c.

Context (R O : list Z) (ext : Z → Z) (s0 : __CFStorage) (Hs0 : storage_ok s0) (a : Z) (ts : list tree) (i : nat) (u : tree) (st0 : state) (na cn : CFStorageNode).
Abbreviation h0 := (heap st0).
Context (Hext : ∀ x, 0 ≤ ext x) (Hthis : same_storage s0 (this st0)) (Hinv : inv R (a :: O) (ext ⊕ kids_ext ts) h0).
Context (Hfine : fine s0 (nodes h0) (TNode a ts)) (HO : ∀ x, x ∈ addrs (TNode a ts) → x ∉ O).
Context (Hi : ts !! i = Some u) (Hna : nodes h0 !! a = Some na) (Hcn : nodes h0 !! addr u = Some cn).
Abbreviation Dn := (λ x, x = a ∨ own (nodes h0) u x).
Abbreviation Rn := (λ x, x = a ∨ x ∈ addrs u).

(** The tree [u'] of the child is the code's own at its root. *)
Record freed (r : Z) (st : state) (u' : tree) : Prop := {
  fr_result : r = addr u';
  fr_ok : ok R (a :: O) (ext ⊕ kids_ext (row ts i [u'])) Dn nowhere Rn s0 h0 st;
  fr_node : ∃ n', nodes (heap st) !! a = Some n' ∧ info n' = notLeaf (pad (row ts i [u'])) ∧ numBytes n' = numBytes na ∧ refCount n' = refCount na;
  fr_fine : Forall (fine s0 (nodes (heap st))) (row ts i [u']);
  fr_guarded : Forall (λ v, guarded_at (nodes (heap st)) (addr v)) (row ts i [u']);
  fr_bytes : bytes u' = bytes u;
  fr_height : height u' = height u;
  fr_where x : x ∈ addrs u' → x ∈ addrs u ∨ next h0 ≤ x;
  fr_single : single (nodes (heap st)) (addr u');
  fr_own x : own (nodes (heap st)) u' x → x < next h0 → own (nodes h0) u x;
}.

Lemma child_facts : u ∈ ts ∧ info na = notLeaf (pad ts) ∧ (2 ≤ length ts ≤ 3)%nat ∧ Forall (fine s0 (nodes h0)) ts ∧
  Forall (λ v, guarded_at (nodes h0) (addr v)) ts ∧ addr u ∉ R ∧ addr u ∉ a :: O ∧ addr u ≠ a ∧ 0 < refCount cn ∧ a < next h0 ∧ row ts i [u] = ts.
Proof.
  pose proof (list_elem_of_lookup_2 _ _ _ Hi) as Hu. pose proof (fine_sound _ _ _ Hfine) as Hsound.
  pose proof (every_here _ _ Hsound) as [(n & Hn & Hni & _ & Hl) Hg]. cbn [addr] in Hn. rewrite Hna in Hn. injection Hn as <-.
  assert (HR : addr u ∉ R) by (eapply (kid_not_root R O ext); [done|exact Hinv|done]).
  assert (Huo : addr u ∉ a :: O) by (eapply open_apart; [exact Hsound|done|exact Hu|apply addr_addrs]).
  split_and!; try done; try lia.
  - by eapply fine_children.
  - intros E. apply Huo. rewrite E. left.
  - by apply (inv_pos _ _ _ _ Hinv (addr u) cn).
  - by apply (inv_dom _ _ _ _ Hinv a na).
  - unfold row. cbn. by apply take_drop_middle.
Qed.

(** The child stays; perhaps it is no longer frozen. *)
Lemma freed_same n' : alike cn n' → info n' = info cn → numBytes n' = numBytes cn → refCount cn = 1 →
  freed (addr u) (with_heap st0 (put (addr u) n' h0)) u.
Proof.
  intros Ha Hin Hnb Hc. destruct child_facts as (Hu & Hni & Hlen & Hf & Hg & HR & HuO & Hne & Hpos & Hdom & Hrow).
  pose proof (alike_put _ _ _ _ Hcn Ha) as Hall. pose proof Ha as (_ & _ & _ & Hrc & Hgu). rewrite <- Hrow in *. split; rewrite ?Hrow in *; cbn [heap with_heap put nodes].
  - done.
  - split; [done| |].
    + eapply (inv_put R (a :: O) _ _ h0 (addr u) cn n' Hinv Hcn); [right; unfold slots; by rewrite Hin|done| |apply (inv_ext _ _ _ _ Hinv)|intros _ _; lia].
      intros x. case_decide; lia.
    + eapply evolves_put; [apply evolves_refl|exact Hcn|]. right. split; [right; apply addr_addrs|]. left. right. apply (own_here _ u cn); [done|lia].
  - exists na. rewrite lookup_insert_ne by done. done.
  - eapply Forall_impl; [exact Hf|]. intros v. by apply alike_fine.
  - eapply Forall_impl; [exact Hg|]. intros v Hv k Hk. apply lookup_insert_Some in Hk as [[E <-]|[_ Hk]]; [|by apply Hv]. apply Hgu. rewrite E in Hcn. by apply Hv.
  - done.
  - done.
  - by left.
  - exists n'. rewrite lookup_insert_eq. split; [done|lia].
  - intros x Ho _. revert Ho. apply own_same. intros y k Hk. apply lookup_insert_Some in Hk as [[<- <-]|[_ Hk]]; [by exists cn|by exists k].
Qed.

Lemma row_insert u' : row ts i [u'] = <[i := u']> ts.
Proof. unfold row. cbn. symmetry. apply insert_take_drop. by eapply lookup_lt_Some. Qed.
Lemma pad_row u' : pad (row ts i [u']) = <[i := Some (addr u')]> (pad ts).
Proof.
  rewrite row_insert. unfold pad. rewrite length_insert, list_fmap_insert, insert_app_l; [done|]. rewrite length_fmap. by eapply lookup_lt_Some.
Qed.
Lemma height_with b t : height (with_addr b t) = height t.
Proof. by destruct t. Qed.
Lemma addrs_with b t x : x ∈ addrs (with_addr b t) → x = b ∨ ∃ v, v ∈ kids t ∧ x ∈ addrs v.
Proof. destruct t as [c l|c vs]; cbn [with_addr]; [intros H; left; by apply addrs_leaf in H|by intros H%addrs_node]. Qed.
Lemma own_single m t x : own m t x → single m x.
Proof. by induction 1 as [t n Hn Hc|]; [exists n|]. Qed.

(** The copy in its place. *)
Section copy.
Context (b : Z) (st1 : state) (Hcopy : copied R (a :: O) (ext ⊕ kids_ext ts) s0 u st0 b st1) (Hshared : 1 < refCount cn).
Abbreviation u' := (with_addr b u).
Abbreviation cn' := (set_refCount (refCount cn - 1) cn).
Abbreviation na' := (set_info (notLeaf (pad (row ts i [u']))) na).
Abbreviation h2 := (put (addr u) cn' (heap st1)).

Lemma copy_below x : x ∈ addrs u' → x = b ∨ (x ∈ addrs u ∧ x ≠ addr u).
Proof.
  intros [->|(v & Hv & Hx)]%addrs_with; [by left|right]. destruct child_facts as (Hu & _ & _ & Hf & _). rewrite Forall_forall in Hf.
  pose proof (fine_linked _ _ _ (Hf u Hu)) as Hl. destruct u as [c l|c vs]; [by apply elem_of_nil in Hv|]. split; [apply addrs_node; right; by exists v|].
  intros ->. by apply (no_cycle _ c vs v Hl Hv).
Qed.
Lemma copied_facts : nodes (heap st1) !! addr u = Some cn ∧ nodes (heap st1) !! a = Some na ∧ b ≠ a ∧ b ≠ addr u ∧ addr u < b ∧ a ∉ addrs u'.
Proof.
  destruct Hcopy as [Hb _ _ Hev Hk _ _ _]. destruct child_facts as (Hu & _ & _ & Hf & _ & _ & _ & Hne & _ & Hdom & _).
  assert (Hau : a ∉ addrs u) by (apply (no_cycle _ a ts u (fine_linked _ _ _ Hfine) Hu)).
  assert (Hub : addr u < next h0) by (by apply (inv_dom _ _ _ _ Hinv _ cn)). split_and!; try lia.
  - by rewrite Hk.
  - by rewrite (ev_out _ _ _ _ _ Hev).
  - intros [E|[H _]]%copy_below; [lia|done].
Qed.
Lemma swapped_inv : inv R (a :: O) (ext ⊕ kids_ext (row ts i [u'])) h2.
Proof.
  destruct child_facts as (Hu & _). destruct copied_facts as (Hc & _ & _ & _ & _ & _). pose proof (cd_inv _ _ _ _ _ _ _ _ Hcopy) as H1.
  assert (Hk : ∀ x, kids_ext (row ts i [u']) x = kids_ext ts x - one (addr u) x + one b x).
  { intros x. unfold row. rewrite (kids_ext_split ts i u [u'] x Hi), kids_ext_cons, addr_with. change (kids_ext [] x) with 0. lia. }
  eapply (inv_put R (a :: O) _ _ _ (addr u) cn cn' H1 Hc); [by right|by intros ?; destruct child_facts as (_ & _ & _ & _ & _ & ? & _)| | |].
  - intros x. unfold eplus. rewrite Hk. unfold one. repeat case_decide; simplify_eq; cbn; lia.
  - unfold eplus. specialize (Hext (addr u)). pose proof (kids_ext_nonneg (row ts i [u']) (addr u)). lia.
  - intros _ _. cbn. lia.
Qed.
Lemma swapped_evolves : isFrozen cn = true → evolves nowhere nowhere (.∈ addrs u) h0 h2.
Proof.
  intros Hf. destruct copied_facts as (Hc & _). eapply evolves_put; [apply (cd_ev _ _ _ _ _ _ _ _ Hcopy)|exact Hc|]. right. split; [apply addr_addrs|].
  right. split; [by apply same_shape_put|]. right. by intros _ H; cbn in H; rewrite Hf in H.
Qed.
Lemma swapped_fine : isFrozen cn = true → Forall (λ v, fine s0 (nodes h2) v ∧ guarded_at (nodes h2) (addr v)) (row ts i [u']).
Proof.
  intros Hfz. destruct child_facts as (Hu & _ & _ & Hf & Hg & _). rewrite Forall_forall in Hf. apply Forall_forall.
  destruct copied_facts as (Hc & _ & _ & Hbu & _). intros v [Hv|(j & Hj & Hv)]%row_cases.
  - apply list_elem_of_singleton in Hv as ->. split.
    + eapply agree_fine; [|apply (cd_fine _ _ _ _ _ _ _ _ Hcopy)]. intros x [->|[_ Hx]]%copy_below; cbn; by rewrite lookup_insert_ne.
    + destruct (cd_single _ _ _ _ _ _ _ _ Hcopy) as (k & Hk & Hck). rewrite addr_with. intros y Hy _. cbn in Hy. rewrite lookup_insert_ne in Hy by done.
      rewrite Hk in Hy. injection Hy as <-. lia.
  - pose proof (list_elem_of_lookup_2 _ _ _ Hv) as Hvt.
    eapply (siblings_fine R O ext s0 h0 a ts Hext Hinv (fine_sound _ _ _ Hfine) HO nowhere nowhere (.∈ addrs u) _ _ i u j v);
      [by apply Hf|done|done|done|by apply swapped_evolves|apply swapped_inv| |by intros ? []|by intros ? []|done].
    unfold eplus. specialize (Hext (addr v)). assert (Hin : v ∈ row ts i [u']).
    { unfold row. pose proof (other_kid ts i j u v Hi Hv (not_eq_sym Hj)) as H. rewrite !elem_of_app in *. tauto. }
    pose proof (kids_ext_elem _ _ Hin). lia.
Qed.

Lemma freed_copy st2 : isFrozen cn = true → this st2 = this st1 → heap st2 = put (addr u) cn' (put a na' (heap st1)) → freed b st2 u'.
Proof.
  intros Hfz Ht Hh. destruct copied_facts as (Hc & Ha & Hba & Hbu & Hub & Hau). destruct child_facts as (Hu & Hni & Hlen & Hf & Hg & HR & HuO & Hne & Hpos & Hdom & _).
  assert (Hh2 : heap st2 = put a na' h2) by (rewrite Hh; unfold put; cbn; by rewrite insert_insert_ne).
  assert (Hout : outside (row ts i [u']) a).
  { intros v [Hv|(j & Hj & Hv)]%row_cases; [by apply list_elem_of_singleton in Hv as ->|].
    apply (no_cycle _ a ts v (fine_linked _ _ _ Hfine)). by eapply list_elem_of_lookup_2. }
  assert (Ha2 : nodes h2 !! a = Some na) by (cbn; by rewrite lookup_insert_ne).
  pose proof (swapped_fine Hfz) as Hrow. apply Forall_and in Hrow as [Hrf Hrg]. split; rewrite ?Hh2; cbn [heap put nodes].
  - by rewrite addr_with.
  - split; [by rewrite Ht, (cd_this _ _ _ _ _ _ _ _ Hcopy)| |]; rewrite Hh2.
    + eapply (inv_put R (a :: O) _ _ h2 a na na' swapped_inv Ha2); [left; left|done| |apply (inv_ext _ _ _ _ swapped_inv)|by intros _ []; left].
      intros x. case_decide; cbn; lia.
    + eapply (evolves_put Dn nowhere Rn h0 h2 a na); [|exact Ha2|right; split; [by left|by left; left]].
      eapply evolves_weaken; [by apply swapped_evolves|by intros ? []|done|by right].
  - exists na'. by rewrite lookup_insert_eq.
  - by apply row_fine.
  - by apply row_guarded.
  - apply bytes_with.
  - apply height_with.
  - intros x [->|[H _]]%copy_below; [right|by left]. by rewrite (cd_new _ _ _ _ _ _ _ _ Hcopy).
  - destruct (cd_single _ _ _ _ _ _ _ _ Hcopy) as (k & Hk & Hck). exists k. rewrite addr_with, !lookup_insert_ne by done. split; [done|lia].
  - intros x Ho Hx. exfalso. assert (x = b); [|pose proof (cd_new _ _ _ _ _ _ _ _ Hcopy); lia].
    apply (cd_own _ _ _ _ _ _ _ _ Hcopy). revert Ho. apply frame_own. intros y Hy%own_addrs.
    rewrite !lookup_insert_ne; [done|intros <-; apply copy_below in Hy as [?|[_ ?]]; congruence|by intros <-].
Qed.
End copy.

Lemma copy_node_ok : isFrozen cn = true → 1 < refCount cn → wp (__CFStorageCopyNode (addr u)) (copied R (a :: O) (ext ⊕ kids_ext ts) s0 u st0) st0.
Proof.
  intros Hfz Hc. destruct child_facts as (Hu & _ & _ & Hf & _). rewrite Forall_forall in Hf. pose proof (Hf u Hu) as Hfu.
  pose proof (ready_shared _ _ _ (fine_ready _ _ _ Hfu) Hcn Hc) as Hback. pose proof (fine_sound _ _ _ Hfine) as Hsound.
  assert (HuO : ∀ x, x ∈ addrs u → x ∉ a :: O) by (intros x; by eapply open_apart).
  destruct u as [c l|c vs] eqn:Eu.
  - destruct (backed_memory _ c l Hback (fine_sound _ _ _ Hfu)) as (n & li & m & Hn & Hni & Hm). cbn [addr] in *. rewrite Hcn in Hn. injection Hn as <-.
    by eapply (copy_leaf_ok Hal R (a :: O) (ext ⊕ kids_ext ts) s0 Hs0 c l cn li m st0).
  - eapply (copy_branch_ok Hal R (a :: O) (ext ⊕ kids_ext ts) s0 c vs cn st0); try done.
    intros x. unfold eplus. specialize (Hext x). pose proof (kids_ext_nonneg ts x). lia.
Qed.
Lemma unfreeze_child_ok : wp (unfreeze_child a i (addr u) cn) (λ r st, ∃ u', freed r st u') st0.
Proof.
  destruct child_facts as (Hu & Hni & Hlen & Hf & Hg & HR & HuO & Hne & Hpos & Hdom & Hrow). unfold unfreeze_child. cbn [andb].
  assert (Hsame : refCount cn = 1 → freed (addr u) st0 u).
  { intros Hc. pose proof (freed_same cn (alike_refl cn) eq_refl eq_refl Hc) as H. by rewrite with_heap_put in H. }
  destruct (isFrozen cn) eqn:Hfz; last first.
  { apply wp_ret. exists u. apply Hsame. assert (refCount cn ≤ 1); [|lia]. rewrite Forall_forall in Hg. by apply (Hg u Hu cn). }
  unfold __CFStorageThawNodeDuringMutation. apply wp_bind, wp_bind. eapply wp_load; [exact Hcn|]. destruct (Z.eqb_spec (refCount cn) 1) as [E|E].
  - apply wp_bind. eapply wp_put; [exact Hcn|]. apply wp_ret, wp_ret. exists u. apply freed_same; try done. split_and!; try done. intros _ _. cbn. lia.
  - apply wp_ret, wp_bind. assert (Hc : 1 < refCount cn) by lia. eapply wp_mono; [by apply copy_node_ok|]. intros b st1 Hcd.
    assert (Hb : b = next h0) by apply (cd_new _ _ _ _ _ _ _ _ Hcd). destruct (copied_facts b st1 Hcd) as (H1 & H2 & _).
    unfold __CFStorageSetChild. apply wp_bind, wp_bind. eapply wp_load; [exact H2|]. rewrite Hni. eapply wp_put; [exact H2|].
    unfold __CFStorageReleaseNode. apply wp_bind, wp_bind, wp_depth. cbn [release_node]. apply wp_bind. eapply wp_load; [cbn; rewrite lookup_insert_ne by done; exact H1|].
    rewrite (proj2 (Z.ltb_lt _ _)) by lia. apply wp_bind. eapply wp_put; [cbn; rewrite lookup_insert_ne by done; exact H1|].
    rewrite (proj2 (Z.eqb_neq (refCount cn - 1) 0)) by lia. apply wp_ret, wp_ret. exists (with_addr b u).
    eapply freed_copy; try done. cbn [heap with_heap]. by rewrite (pad_row (with_addr b u)), addr_with.
Qed.
End unfreezing.

(** ** The way to a byte *)

(** The leaf with the byte, in a tree with the same bytes, is reached through nodes that are not shared. *)
Record unfrozen (R O : list Z) (ext : Z → Z) (s0 : __CFStorage) (h0 : store) (t : tree) (byteNum base : Z) (r : Z * Z * CFRange) (st : state) (t' : tree) : Prop := {
  uf_ok : ok R O ext (own (nodes h0) t) nowhere (.∈ addrs t) s0 h0 st;
  uf_addr : addr t' = addr t;
  uf_fine : fine s0 (nodes (heap st)) t';
  uf_bytes : bytes t' = bytes t;
  uf_where x : x ∈ addrs t' → x ∈ addrs t ∨ next h0 ≤ x;
  uf_guarded : guarded_at (nodes (heap st)) (addr t');
  uf_leaf : ∃ c l o n li m, r = (c, byteNum - o, CFRangeMake (base + o) (zlen l)) ∧ at_offset t' o (TLeaf c l) ∧ 0 ≤ byteNum - o < zlen l ∧
    nodes (heap st) !! c = Some n ∧ info n = leaf li ∧ memory li = Some m ∧ own (nodes (heap st)) t' c;
}.

Section finding.
Context `{Al : Allocator} (Hal : ∀ n, 0 < n → is_Some (alloc n)).
Context (s0 : __CFStorage) (Hs0 : storage_ok s0).

Lemma find_leaf_unfrozen R O ext c l n byteNum base st fuel : same_storage s0 (this st) → inv R O ext (heap st) → fine s0 (nodes (heap st)) (TLeaf c l) →
  c ∉ O → nodes (heap st) !! c = Some n → refCount n ≤ 1 → 0 ≤ byteNum < zlen l →
  wp (__CFStorageFindByte (S fuel) c byteNum base true) (λ r st', ∃ t', unfrozen R O ext s0 (heap st) (TLeaf c l) byteNum base r st' t') st.
Proof.
  intros Hthis Hinv Hfine HcO Hn Hc Hb. pose proof (every_here _ _ (fine_sound _ _ _ Hfine)) as [(n' & Hn' & Hok) _]. cbn [addr] in Hn'.
  rewrite Hn in Hn'. injection Hn' as <-. pose proof Hok as (Hnb & li & Hi & Hm). pose proof (every_here _ _ (fine_fits _ _ _ Hfine)) as [Hl _].
  destruct (same_storage_fields _ _ Hthis) as (_ & _ & _ & Em & _). pose proof (so_max s0 Hs0). cbn [__CFStorageFindByte]. apply wp_bind. eapply wp_load; [exact Hn|].
  unfold isLeaf. rewrite Hi. apply wp_bind. rewrite Hnb. eapply wp_mono; [eapply (alloc_leaf_ok Hal); [exact Hn|exact Hi|exact Hm|..]; rewrite Em; lia|].
  intros [] st' Hg. apply wp_ret. destruct (grown_alike c n li l st st' Hi Hok Hg) as (li' & m & -> & Hm' & Hbl & Ha & _). set (k := set_info _ _) in *.
  assert (Hown : own (nodes (heap st)) (TLeaf c l) c) by (by apply (own_here _ (TLeaf c l) n)).
  exists (TLeaf c l). split; cbn [heap with_heap put nodes].
  - eapply ok_put; [by apply ok_refl|exact Hn|right; unfold slots; by rewrite Hi|done|left; right; split; [by apply addrs_leaf|done]].
  - done.
  - eapply alike_fine; [by apply (alike_put _ c n)|done].
  - done.
  - by left.
  - intros y Hy _. cbn in Hy. rewrite lookup_insert_eq in Hy. injection Hy as <-. done.
  - exists c, l, 0, k, li', m. rewrite Z.sub_0_r, Z.add_0_r, lookup_insert_eq. split_and!; try done; [constructor|lia|lia|].
    apply (own_here _ (TLeaf c l) k); [cbn; by rewrite lookup_insert_eq|done].
Qed.

(** What is known of the branch once its child may be changed. *)
Lemma freed_fine R O ext a ts i u st0 na r st u' : nodes (heap st0) !! a = Some na → ts !! i = Some u → numBytes na = zlen (all_bytes ts) → (2 ≤ length ts ≤ 3)%nat → refCount na ≤ 1 →
  freed R O ext s0 a ts i u st0 na r st u' →
  fine s0 (nodes (heap st)) (TNode a (row ts i [u'])) ∧ all_bytes (row ts i [u']) = all_bytes ts ∧ row ts i [u'] !! i = Some u' ∧ length (row ts i [u']) = length ts.
Proof.
  intros Hna Hi Hb Hl Hc Hfr. pose proof (fr_node _ _ _ _ _ _ _ _ _ _ _ _ _ Hfr) as (n' & Hn' & Hni & Hnb & Hrc).
  assert (Hbytes : all_bytes (row ts i [u']) = all_bytes ts).
  { unfold row. rewrite <- (take_drop_middle ts i u Hi) at 3. rewrite !all_bytes_app, !all_bytes_cons, (fr_bytes _ _ _ _ _ _ _ _ _ _ _ _ _ Hfr).
    change (all_bytes []) with (@nil (option Z)). by rewrite app_nil_r. }
  assert (Hins : row ts i [u'] = <[i := u']> ts) by (by eapply row_insert). assert (Hlt : (i < length ts)%nat) by (by eapply lookup_lt_Some).
  assert (Hlen : length (row ts i [u']) = length ts) by (by rewrite Hins, length_insert). split_and!; [|done|by rewrite Hins, list_lookup_insert_eq|done].
  eapply fine_node; [exact Hn'|lia|exact Hni|by rewrite Hbytes, Hnb|lia|apply (fr_fine _ _ _ _ _ _ _ _ _ _ _ _ _ Hfr)|apply (fr_guarded _ _ _ _ _ _ _ _ _ _ _ _ _ Hfr)].
Qed.

(** The child in the result, below its branch again. *)
Section back.
Context (R O : list Z) (ext : Z → Z) (a : Z) (ts : list tree) (i : nat) (u : tree) (st0 : state) (na : CFStorageNode).
Context (Hext : ∀ x, 0 ≤ ext x) (Hna : nodes (heap st0) !! a = Some na) (Hi : ts !! i = Some u) (Hinv : inv R O ext (heap st0)).
Context (Hfine : fine s0 (nodes (heap st0)) (TNode a ts)) (HO : ∀ x, x ∈ addrs (TNode a ts) → x ∉ O) (Hc : refCount na ≤ 1).
Context (r1 : Z) (st1 : state) (u1 : tree) (Hfr : freed R O ext s0 a ts i u st0 na r1 st1 u1).
Context (byteNum base : Z) (r : Z * Z * CFRange) (st2 : state) (u2 : tree).
Abbreviation ts1 := (row ts i [u1]).
Abbreviation ts2 := (row ts1 i [u2]).
Context (Huf : unfrozen R (a :: O) (ext ⊕ kids_ext ts1) s0 (heap st1) u1 byteNum base r st2 u2).

Lemma branch_of : info na = notLeaf (pad ts) ∧ numBytes na = zlen (all_bytes ts) ∧ (2 ≤ length ts ≤ 3)%nat ∧ a ∉ O.
Proof.
  pose proof (every_here _ _ (fine_sound _ _ _ Hfine)) as [(n & Hn & H1 & H2 & H3) _]. cbn [addr] in Hn. rewrite Hna in Hn. injection Hn as <-.
  split_and!; try done; try lia. apply HO, addrs_node. by left.
Qed.
Lemma freed_inv : inv R (a :: O) (ext ⊕ kids_ext ts1) (heap st1).
Proof. apply (ok_inv _ _ _ _ _ _ _ _ _ (fr_ok _ _ _ _ _ _ _ _ _ _ _ _ _ Hfr)). Qed.
Lemma freed_row : fine s0 (nodes (heap st1)) (TNode a ts1) ∧ all_bytes ts1 = all_bytes ts ∧ ts1 !! i = Some u1 ∧ length ts1 = length ts.
Proof. destruct branch_of as (_ & Hb & Hl & _). by eapply (freed_fine R O ext). Qed.
Lemma freed_apart x : x ∈ addrs (TNode a ts1) → x ∉ O.
Proof.
  intros [->|(v & [Hv|(j & _ & Hv)]%row_cases & Hx)]%addrs_node.
  - apply branch_of.
  - apply list_elem_of_singleton in Hv as ->. destruct (fr_where _ _ _ _ _ _ _ _ _ _ _ _ _ Hfr x Hx) as [H|H].
    + apply HO, addrs_node. right. exists u. split; [by eapply list_elem_of_lookup_2|done].
    + intros H'. pose proof (inv_opened _ _ _ _ Hinv x H'). lia.
  - apply HO, addrs_node. right. exists v. split; [by eapply list_elem_of_lookup_2|done].
Qed.
Lemma child_open x : x ∈ addrs u1 → x ∉ a :: O.
Proof.
  destruct freed_row as (Hf1 & _ & Hu1 & _). apply (open_apart O (heap st1) a ts1 (fine_sound _ _ _ Hf1) freed_apart u1). by eapply list_elem_of_lookup_2.
Qed.

Lemma back_row v : v ∈ ts2 → fine s0 (nodes (heap st2)) v ∧ guarded_at (nodes (heap st2)) (addr v).
Proof.
  destruct freed_row as (Hf1 & _ & Hu1 & _). intros [Hv|(j & Hj & Hv)]%row_cases.
  - apply list_elem_of_singleton in Hv as ->. split; [apply (uf_fine _ _ _ _ _ _ _ _ _ _ _ Huf)|apply (uf_guarded _ _ _ _ _ _ _ _ _ _ _ Huf)].
  - pose proof (list_elem_of_lookup_2 _ _ _ Hv) as Hin. pose proof (uf_ok _ _ _ _ _ _ _ _ _ _ _ Huf) as [_ Hinv2 Hev2].
    pose proof (fine_children _ _ _ _ Hf1) as Hk. rewrite Forall_forall in Hk.
    eapply (siblings_fine R O ext s0 (heap st1) a ts1 Hext freed_inv (fine_sound _ _ _ Hf1) freed_apart _ _ _ _ _ i u1 j v);
      [by apply Hk|done|done|done|exact Hev2|exact Hinv2| |done|by intros ? []|done].
    unfold eplus. specialize (Hext (addr v)). pose proof (kids_ext_elem _ _ Hin). lia.
Qed.
Lemma back_node : ∃ n2, nodes (heap st2) !! a = Some n2 ∧ info n2 = notLeaf (pad ts2) ∧ numBytes n2 = numBytes na ∧ refCount n2 = refCount na.
Proof.
  destruct (fr_node _ _ _ _ _ _ _ _ _ _ _ _ _ Hfr) as (n1 & Hn1 & E1 & E2 & E3). destruct freed_row as (Hf1 & _ & Hu1 & _).
  exists n1. split_and!; [|rewrite E1|done|done].
  - rewrite (ev_out _ _ _ _ _ (ok_ev _ _ _ _ _ _ _ _ _ (uf_ok _ _ _ _ _ _ _ _ _ _ _ Huf))); [done|by apply (inv_dom _ _ _ _ freed_inv a n1)|].
    intros H. apply (child_open a H). left.
  - rewrite (pad_row ts1 i u1 Hu1 u2), (uf_addr _ _ _ _ _ _ _ _ _ _ _ Huf). f_equal. symmetry. apply list_insert_id.
    unfold pad. rewrite lookup_app_l by (rewrite length_fmap; by eapply lookup_lt_Some). rewrite list_lookup_fmap, Hu1. done.
Qed.
Lemma back_bytes : all_bytes ts2 = all_bytes ts ∧ length ts2 = length ts.
Proof.
  destruct freed_row as (_ & E & Hu1 & El). rewrite <- E, <- El. split; [|by rewrite (row_insert ts1 i u1 Hu1), length_insert].
  unfold row at 1. rewrite <- (take_drop_middle ts1 i u1 Hu1) at 3. rewrite !all_bytes_app, !all_bytes_cons, (uf_bytes _ _ _ _ _ _ _ _ _ _ _ Huf).
  change (all_bytes []) with (@nil (option Z)). by rewrite app_nil_r.
Qed.
Lemma back_evolves : evolves (own (nodes (heap st0)) (TNode a ts)) nowhere (.∈ addrs (TNode a ts)) (heap st0) (heap st2).
Proof.
  pose proof (list_elem_of_lookup_2 _ _ _ Hi) as Hu.
  assert (Hown : ∀ x, own (nodes (heap st0)) u x → own (nodes (heap st0)) (TNode a ts) x) by (intros x; by apply (own_kid _ a ts u na)).
  assert (Hin : ∀ x, x ∈ addrs u → x ∈ addrs (TNode a ts)) by (intros x Hx; apply addrs_node; right; by exists u).
  eapply evolves_trans; [apply (ok_ev _ _ _ _ _ _ _ _ _ (fr_ok _ _ _ _ _ _ _ _ _ _ _ _ _ Hfr))|apply (ok_ev _ _ _ _ _ _ _ _ _ (uf_ok _ _ _ _ _ _ _ _ _ _ _ Huf))|..].
  - intros x Hx [[->|H]|H]; [by apply (own_here _ (TNode a ts) na)|by apply Hown|]. by apply Hown, (fr_own _ _ _ _ _ _ _ _ _ _ _ _ _ Hfr).
  - by intros x _ [[]|[]].
  - intros x Hx [[->|H]|H]; [apply addrs_node; by left|by apply Hin|]. destruct (fr_where _ _ _ _ _ _ _ _ _ _ _ _ _ Hfr x H) as [H'|H']; [by apply Hin|lia].
Qed.

Lemma found_back : unfrozen R O ext s0 (heap st0) (TNode a ts) (zlen (all_bytes (take i ts)) + byteNum) (base - zlen (all_bytes (take i ts))) r st2 (TNode a ts2).
Proof.
  destruct back_node as (n2 & Hn2 & E1 & E2 & E3). destruct back_bytes as [Eb El]. destruct branch_of as (_ & Hb & Hl & HaO). destruct freed_row as (_ & _ & Hu1 & _).
  assert (Hf2 : fine s0 (nodes (heap st2)) (TNode a ts2)).
  { eapply fine_node; [exact Hn2|lia|exact E1|by rewrite E2, Eb|lia|apply Forall_forall; intros v Hv; by apply back_row..]. }
  split; [split|done|done|exact Eb| | |].
  - apply (ok_this _ _ _ _ _ _ _ _ _ (uf_ok _ _ _ _ _ _ _ _ _ _ _ Huf)).
  - assert (Hok : ok R (a :: O) (ext ⊕ kids_ext ts2) (own (nodes (heap st1)) u1) nowhere (.∈ addrs u1) s0 (heap st1) st2).
    { eapply ok_same; [apply (uf_ok _ _ _ _ _ _ _ _ _ _ _ Huf)|]. intros x. unfold eplus. f_equal. unfold row at 2.
      rewrite (kids_ext_split ts1 i u1 [u2] x Hu1), kids_ext_cons, (uf_addr _ _ _ _ _ _ _ _ _ _ _ Huf). change (kids_ext [] x) with 0. lia. }
    eapply ok_close in Hok; [by apply (ok_inv _ _ _ _ _ _ _ _ _ Hok)|exact Hn2|exact E1|exact HaO|exact Hext|].
    intros HR. rewrite E3. by apply (inv_pos _ _ _ _ Hinv a na).
  - apply back_evolves.
  - intros x [->|(v & [Hv|(j & Hj & Hv)]%row_cases & Hx)]%addrs_node.
    + left. apply addrs_node. by left.
    + apply list_elem_of_singleton in Hv as ->. pose proof (ev_next _ _ _ _ _ (ok_ev _ _ _ _ _ _ _ _ _ (fr_ok _ _ _ _ _ _ _ _ _ _ _ _ _ Hfr))).
      destruct (uf_where _ _ _ _ _ _ _ _ _ _ _ Huf x Hx) as [H'|H']; [|right; lia].
      destruct (fr_where _ _ _ _ _ _ _ _ _ _ _ _ _ Hfr x H') as [H''|H'']; [left|by right]. apply addrs_node. right. exists u. split; [by eapply list_elem_of_lookup_2|done].
    + left. apply addrs_node. right. exists v. split; [|done]. rewrite (row_insert ts i u Hi), list_lookup_insert_ne in Hv by done. by eapply list_elem_of_lookup_2.
  - intros y Hy _. cbn [addr] in Hy. rewrite Hn2 in Hy. injection Hy as <-. lia.
  - destruct (uf_leaf _ _ _ _ _ _ _ _ _ _ _ Huf) as (c & l & o & n & li & m & -> & Hat & Ho & H1 & H2 & H3 & H4).
    assert (Ets : take i ts1 = take i ts).
    { rewrite (row_insert ts i u Hi). apply take_insert_ge. lia. }
    exists c, l, (zlen (all_bytes (take i ts)) + o), n, li, m. split_and!; try done; [f_equal; [f_equal; lia|f_equal; lia]| |lia|lia|].
    + rewrite <- Ets. unfold row at 1. by constructor.
    + apply (own_kid _ a ts2 u2 n2); [done|lia| |done]. unfold row at 1. apply elem_of_app. right. left.
Qed.
End back.

Lemma find_unfrozen_ok fuel : ∀ R O ext t n byteNum base st, (height t ≤ fuel)%nat → same_storage s0 (this st) → inv R O ext (heap st) →
  fine s0 (nodes (heap st)) t → (∀ x, x ∈ addrs t → x ∉ O) → nodes (heap st) !! addr t = Some n → refCount n ≤ 1 → 0 ≤ byteNum < zlen (bytes t) →
  wp (__CFStorageFindByte fuel (addr t) byteNum base true) (λ r st', ∃ t', unfrozen R O ext s0 (heap st) t byteNum base r st' t') st.
Proof.
  induction fuel as [|fuel IH]; intros R O ext t n byteNum base st Hf Hthis Hinv Hfine HO Hn Hc Hb; [destruct t; cbn in Hf; lia|].
  destruct t as [c l|a ts]; [eapply find_leaf_unfrozen; try done; apply HO; by apply addrs_leaf|]. cbn [addr] in Hn |- *.
  pose proof (inv_ext _ _ _ _ Hinv) as Hext. assert (Hbr := branch_of O a ts st n Hn Hfine HO). destruct Hbr as (Hi & Hnb & Hlen & HaO).
  pose proof (fine_children _ _ _ _ Hfine) as Hk. cbn [__CFStorageFindByte]. apply wp_bind. eapply wp_load; [exact Hn|]. unfold isLeaf. rewrite Hi. apply wp_bind.
  eapply wp_mono; [apply (find_child_ok n ts byteNum false st Hi Hlen); [eapply Forall_impl; [exact Hk|by intros u [Hu _ _]]|lia|apply Hb]|].
  intros r st' [-> (i & u & -> & Hu & Hr1 & Hr2)]. cbv beta iota. rewrite Forall_forall in Hk. pose proof (list_elem_of_lookup_2 _ _ _ Hu) as Hin.
  destruct (sound_bytes _ _ (fine_sound _ _ _ (Hk u Hin))) as (cn & Hcn & _). apply wp_bind. eapply wp_load; [exact Hcn|].
  assert (Hopen : inv R (a :: O) (ext ⊕ kids_ext ts) (heap st)).
  { apply (ok_inv R (a :: O) _ nowhere nowhere nowhere s0 (heap st) st). eapply ok_open; [by apply ok_refl|exact Hn|exact Hi|done]. }
  apply wp_bind. eapply wp_mono; [eapply (unfreeze_child_ok Hal R O ext s0 Hs0 a ts i u st n cn); try done|]. intros r st1 (u1 & Hfr).
  rewrite (fr_result _ _ _ _ _ _ _ _ _ _ _ _ _ Hfr). destruct (fr_single _ _ _ _ _ _ _ _ _ _ _ _ _ Hfr) as (k & Hk1 & Hck).
  set (off := zlen (all_bytes (take i ts))) in *.
  eapply wp_mono; [eapply (IH R (a :: O) (ext ⊕ kids_ext (row ts i [u1])) u1 k); try done|].
  - rewrite (fr_height _ _ _ _ _ _ _ _ _ _ _ _ _ Hfr). pose proof (height_kid a ts u Hin). lia.
  - apply (ok_this _ _ _ _ _ _ _ _ _ (fr_ok _ _ _ _ _ _ _ _ _ _ _ _ _ Hfr)).
  - apply (ok_inv _ _ _ _ _ _ _ _ _ (fr_ok _ _ _ _ _ _ _ _ _ _ _ _ _ Hfr)).
  - pose proof (fr_fine _ _ _ _ _ _ _ _ _ _ _ _ _ Hfr) as Hff. rewrite Forall_forall in Hff. apply Hff. unfold row. apply elem_of_app. right. left.
  - intros x. eapply (child_open R O ext a ts i u st n); done.
  - rewrite (fr_bytes _ _ _ _ _ _ _ _ _ _ _ _ _ Hfr). done.
  - intros r2 st2 (u2 & Huf). exists (TNode a (row (row ts i [u1]) i [u2])).
    replace byteNum with (off + (byteNum - off)) by lia. replace base with (base + (byteNum - (byteNum - off)) - off) by lia.
    eapply (found_back R O ext a ts i u st n); done.
Qed.
End finding.

(** ** Values written *)
Section writing.
Context `{Al : Allocator} (Hal : ∀ n, 0 < n → is_Some (alloc n)).
Context (R : list Z) (s0 : __CFStorage) (Hs0 : storage_ok s0) (h : store).

(** The storage has the bytes of [t], and the code may go on. *)
Record writable (t : tree) (st : state) : Prop := {
  wr_this : same_storage s0 (this st);
  wr_world : world R (heap st);
  wr_rooted : rooted R s0 (heap st) t;
  wr_spares : spares R s0 h (heap st);
  wr_cache : cache_valid (this st) (heap st) t;
}.
(** The value is in a leaf that no other storage has. *)
Definition value_own (t : tree) (idx : Z) (p : value_ptr) (st : state) : Prop :=
  points_to s0 t idx p st ∧ own (nodes (heap st)) t (fst (fst p)).

Lemma placed_own s m t c : placed s m t c → own m t c → cached s m [t] 0 c.
Proof.
  intros (off & l & n & li & Hat & Hn & Hi & H1 & H2 & H3) Ho. exists off, l, n, li. split_and!; try done; [by exists [], t, [], off|].
  intros _. exists t. split; [left|done].
Qed.
Lemma touched_spares t st st' : writable t st → touched s0 R (heap st) t st' → spares R s0 h (heap st').
Proof.
  intros [H1 H2 H3 H4 _] [K1 K2 K3 K4 _ _]. apply (spares_trans R s0 s0 _ (heap st)); [done|done|].
  by eapply (apart_spares R s0 nowhere _ _ t).
Qed.
Lemma touched_refl t st : same_storage s0 (this st) → world R (heap st) → rooted R s0 (heap st) t → readable (this st) (heap st) t → touched s0 R (heap st) t st.
Proof. intros. split; try done. apply evolves_refl. Qed.

Lemma cache_hit t idx st : writable t st → 0 ≤ idx →
  wp (__CFStorageGetFromCache idx true)
    (λ r st', match r with None => touched s0 R (heap st) t st' | Some p => writable t st' ∧ value_own t idx p st' end) st.
Proof.
  intros Hw Hidx. pose proof Hw as [H1 H2 H3 H4 H5]. pose proof (touched_refl t st H1 H2 H3 (valid_readable _ _ _ H5)) as Ht.
  eapply wp_mono; [by apply (get_from_cache_ok Hal s0 Hs0 R (heap st) t idx true st)|]. intros [p|] st' [Ht' Hp]; [|done].
  destruct Hp as (Hp & Hc & Hc0 & Hf). destruct (Hf eq_refl) as (n & Hn & Hfz).
  assert (Ho : own (nodes (heap st)) t (fst (fst p))).
  { destruct (H5 _ Hc0) as (off & l & n' & li & _ & Hn' & _ & _ & _ & _ & Hown). rewrite Hn in Hn'. injection Hn' as <-.
    destruct (Hown Hfz) as (u & Hu & Hou). by apply list_elem_of_singleton in Hu as ->. }
  pose proof Ht' as [K1 K2 K3 K4 K5 K6]. split; [|split; [done|by apply K6]]. split; try done; [by eapply touched_spares|].
  intros c Hc'. rewrite Hc in Hc'. injection Hc' as <-. apply placed_own; [by apply K5|by apply K6].
Qed.

(** What the cache was does not matter when it is set. *)
Definition no_cache (st : state) : state := {| this := set_cacheNode None (this st); heap := heap st |}.
Lemma set_cache_anew c loc Q st : wp (__CFStorageSetCache (Some c) loc) Q (no_cache st) → wp (__CFStorageSetCache (Some c) loc) Q st.
Proof.
  unfold __CFStorageSetCache, mbind, M_bind, wp, self, set_self, load, update, no_cache. cbn. intros (x & st' & H & HQ). exists x, st'. split; [|done].
  rewrite <- H. destruct (nodes (heap st) !! c) as [n|]; [|done]. unfold leaf_of, fail, mret, M_ret, put_nodes. destruct (info n) as [l|c0]; cbn; [|done]. destruct (nodes (heap st) !! c); cbn; [|done]. done.
Qed.

Lemma cache_miss t idx st : same_storage s0 (this st) → world R (heap st) → rooted R s0 (heap st) t → spares R s0 h (heap st) →
  0 ≤ idx < zlen (bytes t) / valueSize s0 →
  wp (fuel ← depth;
      '(node, offset, rangeInBytes) ← __CFStorageFindByte fuel (rootNode s0) (idx * valueSize s0) 0 true;
      __CFStorageSetCache (Some node) (location rangeInBytes);;
      mret (node, offset, __CFStorageConvertBytesToValueRange (this st) (location rangeInBytes) (range_length rangeInBytes)))
    (λ p st', ∃ t', writable t' st' ∧ bytes t' = bytes t ∧ value_own t' idx p st') st.
Proof.
  intros Hthis Hw Hroot Hsp Hidx. pose proof Hroot as (_ & Hr & Ea & Hin). pose proof (so_size s0 Hs0). destruct (same_storage_fields _ _ Hthis) as (Ev & _).
  assert (Hfine : fine s0 (nodes (heap st)) t).
  { destruct Hin as [|(a & -> & _)]; [done|]. cbn in Hidx. change (zlen (@nil (option Z))) with 0 in Hidx. rewrite Z.div_0_l in Hidx; lia. }
  pose proof (fits_divides s0 t ltac:(lia) (fine_fits _ _ _ Hfine)) as Hdiv. pose proof (value_in_bytes s0 Hs0 idx _ (proj1 Hidx) Hdiv (proj2 Hidx)) as Hbyte.
  destruct (root_node R s0 _ _ Hw Hroot) as (n & Hn & Hc & _). apply wp_bind, wp_depth. rewrite <- Ea. apply wp_bind.
  eapply wp_mono; [eapply (find_unfrozen_ok Hal s0 Hs0 _ R [] none_held t n); try done|].
  { pose proof (height_size _ t (fine_linked _ _ _ Hfine)). lia. } { by intros x _ ?%elem_of_nil. } { lia. }
  intros r st2 (t' & [Hok Ha' Hf' Hb' _ _ (c & l & off & k & li & m & -> & Hat & Hoff & Hk & Hi & Hm & Hown)]). cbv beta iota. rewrite Z.add_0_l. cbn [location range_length].
  destruct Hok as [K1 K2 K3]. assert (Hroot' : rooted R s0 (heap st2) t') by (split_and!; [done|done|congruence|by left]).
  assert (Ht2 : touched s0 R (heap st2) t' (no_cache st2)) by (split; try done; apply evolves_refl).
  destruct (leaf_node s0 Hs0 _ _ _ _ _ _ Hroot' Hat) as (k' & li' & Hk' & Hi' & Hlok & _). rewrite Hk in Hk'. injection Hk' as <-.
  assert (Hbl : below l m). { destruct Hlok as (_ & li1 & E1 & Hm1). rewrite Hi in E1. injection E1 as <-. unfold memory_ok in Hm1. rewrite Hm in Hm1. apply Hm1. }
  pose proof (offset_divides s0 Hs0 t' off _ (fine_fits _ _ _ Hf') Hat) as Hdo. apply wp_bind, set_cache_anew.
  eapply wp_mono; [by eapply (set_cache_found s0 Hs0 R (heap st2) t' (no_cache st2) c l off k li m)|].
  intros [] st3 (Ht3 & Hc3 & n3 & li3 & H3n & H3i & H3m). apply wp_ret. exists t'. pose proof Ht3 as [L1 L2 L3 L4 L5 L6]. split_and!; [|done|].
  - split; [done|done|done| |].
    + apply (spares_trans R s0 s0 _ (heap st)); [done|done|]. apply (spares_trans R s0 s0 _ (heap st2)); [done| |].
      * by eapply (apart_spares R s0 (own (nodes (heap st)) t)).
      * by eapply (apart_spares R s0 nowhere).
    + intros c' Hc'. rewrite Hc3 in Hc'. injection Hc' as <-. apply placed_own; [by apply L5|by apply L6].
  - split; [|cbn [fst]; by apply L6]. pose proof (at_offset_every _ _ _ _ (fine_fits _ _ _ Hf') Hat) as Hv. apply every_leaf in Hv as [_ Hvl].
    destruct (at_offset_bytes _ _ _ Hat) as [Hoff0 _]. rewrite bytes_to_range by (lia || by eapply same_storage_ok). rewrite Ev.
    destruct Hdo as [q ->], Hvl as [w Hw']. rewrite Hw', !Z.div_mul by lia.
    exists c, l, q, w, n3, li3, m. split_and!; try done; nia || (f_equal; f_equal; lia).
Qed.
Lemma get_value_own t idx st : writable t st → 0 ≤ idx < zlen (bytes t) / valueSize s0 →
  wp (__CFStorageGetValueAtIndex idx true) (λ p st', ∃ t', writable t' st' ∧ bytes t' = bytes t ∧ value_own t' idx p st') st.
Proof.
  intros Hw Hidx. unfold __CFStorageGetValueAtIndex. apply wp_bind. eapply wp_mono; [by apply (cache_hit t idx st); [|lia]|].
  intros [p|] st1 Ht1; [apply wp_ret; exists t; tauto|]. pose proof (touched_spares t st st1 Hw Ht1) as Hsp. pose proof Ht1 as [H1 H2 H3 _ _ _].
  apply wp_bind, wp_self. destruct (same_storage_fields _ _ H1) as (Ev & _ & _ & _ & Er).
  rewrite Er, value_to_byte, Ev by (by eapply same_storage_ok). by apply cache_miss.
Qed.
End writing.
