(* ===== verification/StoragePut.v ===== *)
(** * CFStorageReplaceValues

    Bytes of a leaf that no other storage has are changed in place. *)
From S2P Require Import Prelude Storage StorageSpec StorageOps StorageInsert StorageBranch StorageFrozen StorageRoot StorageGrow StorageShare StorageUse StorageRead StorageCopy StorageWrite.
From stdpp Require Import gmap list.
Open Scope Z_scope.

(** [b] put over the bytes from [pos] on. *)
Definition overwrite (pos : Z) (b : list Z) (v : list (option Z)) : list (option Z) :=
  ztake pos v ++ (Some <$> b) ++ zdrop (pos + zlen b) v.

(** The tree with other bytes in leaf [c]. *)
Fixpoint subst (c : Z) (l' : list (option Z)) (t : tree) : tree :=
  match t with
  | TLeaf a l => if decide (a = c) then TLeaf a l' else TLeaf a l
  | TNode a ts => TNode a (map (subst c l') ts)
  end.

Lemma zlen_overwrite pos b v : 0 ≤ pos → pos + zlen b ≤ zlen v → zlen (overwrite pos b v) = zlen v.
Proof. intros Hp Hl. pose proof (zlen_nonneg b). unfold overwrite. rewrite !zlen_app, zlen_ztake, zlen_fmap, zlen_zdrop; lia. Qed.
Lemma overwrite_within pre l post pos b : 0 ≤ pos → pos + zlen b ≤ zlen l →
  overwrite (zlen pre + pos) b (pre ++ l ++ post) = pre ++ overwrite pos b l ++ post.
Proof.
  intros Hp Hl. pose proof (zlen_nonneg b). unfold overwrite, ztake, zdrop, zlen in *.
  rewrite take_app_ge by lia. rewrite take_app_le by lia. rewrite drop_app_ge by lia. rewrite drop_app_le by lia.
  rewrite <- !app_assoc. repeat f_equal; lia.
Qed.
Lemma overwrite_more pos b1 b2 v : 0 ≤ pos → pos + zlen b1 + zlen b2 ≤ zlen v →
  overwrite (pos + zlen b1) b2 (overwrite pos b1 v) = overwrite pos (b1 ++ b2) v.
Proof.
  intros Hp Hl. pose proof (zlen_nonneg b1). pose proof (zlen_nonneg b2).
  assert (E : Z.to_nat (pos + zlen b1) = length (ztake pos v ++ (Some <$> b1))).
  { pose proof (zlen_ztake pos v ltac:(lia)) as H1. rewrite length_app, length_fmap. unfold zlen in *. lia. }
  assert (Ha : overwrite pos b1 v = (ztake pos v ++ (Some <$> b1)) ++ zdrop (pos + zlen b1) v) by (unfold overwrite; by rewrite <- app_assoc).
  assert (Hd : zdrop (pos + zlen b1 + zlen b2) (overwrite pos b1 v) = zdrop (pos + zlen (b1 ++ b2)) v).
  { rewrite Ha, zlen_app. unfold zdrop. rewrite drop_app_ge by (unfold zlen in *; lia). rewrite <- E, drop_drop. f_equal. unfold zlen in *. lia. }
  unfold overwrite at 1. rewrite Hd. rewrite Ha. unfold ztake at 1. rewrite E, take_app_length. unfold overwrite. by rewrite fmap_app, <- !app_assoc.
Qed.

Lemma addr_subst c l' t : addr (subst c l' t) = addr t.
Proof. destruct t as [a l|a ts]; cbn; [|done]. by case_decide. Qed.
Lemma pad_subst c l' ts : pad (map (subst c l') ts) = pad ts.
Proof.
  unfold pad. rewrite length_map. f_equal. induction ts as [|t ts IH]; cbn; [done|]. by rewrite addr_subst, IH.
Qed.

Section substituted.
Context (m : gmap Z CFStorageNode) (c : Z) (l' : list (option Z)) (n n' : CFStorageNode).
Context (Hn : m !! c = Some n) (Hok : leaf_ok n' l') (Hlen : numBytes n = zlen l') (Hc : refCount n' = refCount n) (Hf : isFrozen n' = isFrozen n).
Context (Hmem : has_memory n') (Hleaf : isLeaf n = true).
Abbreviation m' := (<[c := n']> m).

Lemma zlen_subst t : every (sound m) t → zlen (bytes (subst c l' t)) = zlen (bytes t).
Proof.
  induction t as [a l|a ts IH] using tree_induction; intros Ht.
  - apply every_leaf in Ht as [(k & Hk & Hb & _) _]. cbn in Hk |- *. case_decide as E; [|done]. subst. rewrite Hn in Hk. injection Hk as <-. cbn. lia.
  - apply every_node in Ht as [_ Ht]. cbn [subst bytes]. induction ts as [|u ts IHts]; [done|]. apply Forall_cons in IH as [I1 I2], Ht as [T1 T2].
    cbn [map concat]. rewrite !zlen_app, I1 by done. f_equal. by apply IHts.
Qed.
Lemma kept_node x k : m !! x = Some k → ∃ k', m' !! x = Some k' ∧ refCount k' = refCount k ∧ isFrozen k' = isFrozen k.
Proof.
  intros Hk. destruct (decide (x = c)) as [->|Hx]; [|exists k; by rewrite lookup_insert_ne]. rewrite Hn in Hk. injection Hk as <-.
  exists n'. by rewrite lookup_insert_eq.
Qed.
Lemma subst_sound t : every (sound m) t → every (sound m') (subst c l' t).
Proof.
  induction t as [a l|a ts IH] using tree_induction; intros Ht.
  - apply every_leaf in Ht as [(k & Hk & Hl) _]. cbn in Hk |- *. case_decide as E; apply every_leaf; (split; [|apply Forall_nil_2]).
    + subst. exists n'. by rewrite lookup_insert_eq.
    + exists k. by rewrite lookup_insert_ne.
  - pose proof (zlen_subst _ Ht) as Hz. apply every_node in Ht as [[(k & Hk & Hi & Hb & Hl) Hg] Ht]. cbn [subst]. cbn in Hk.
    assert (Hac : a ≠ c). { intros ->. rewrite Hn in Hk. injection Hk as <-. unfold isLeaf in Hleaf. by rewrite Hi in Hleaf. }
    apply every_node. split; [split|].
    + exists k. cbn [addr]. rewrite lookup_insert_ne by done. rewrite pad_subst, length_map. split_and!; try done; try lia.
      rewrite Hb. symmetry. exact Hz.
    + cbn [kids] in *. rewrite Forall_forall in Hg |- *. intros w [u [-> Hu]]%list_elem_of_fmap k' Hk' Hfk. rewrite addr_subst in Hk'.
      apply lookup_insert_Some in Hk' as [[E <-]|[_ Hk']]; [|by apply (Hg u Hu)]. rewrite Hc. apply (Hg u Hu); [by rewrite <- E|congruence].
    + rewrite Forall_forall in IH, Ht |- *. intros w [u [-> Hu]]%list_elem_of_fmap. by apply IH, Ht.
Qed.
Lemma subst_fits s t : every (sound m) t → every (leaf_fits s) t → every (leaf_fits s) (subst c l' t).
Proof.
  induction t as [a l|a ts IH] using tree_induction; intros Ht Hft.
  - apply every_leaf in Ht as [(k & Hk & Hb & _) _], Hft as [H1 H2]. cbn in Hk |- *. case_decide as E; apply every_leaf; [|done]. subst.
    rewrite Hn in Hk. injection Hk as <-. unfold leaf_fits. by rewrite <- Hlen, Hb.
  - apply every_node in Ht as [_ Ht], Hft as [_ Hft]. apply every_node. split; [done|]. rewrite Forall_forall in IH, Ht, Hft |- *.
    intros w [u [-> Hu]]%list_elem_of_fmap. by apply IH; [|apply Ht|apply Hft].
Qed.
Lemma subst_backed t : every (backed m) t → every (backed m') (subst c l' t).
Proof.
  induction t as [a l|a ts IH] using tree_induction; intros Ht.
  - apply every_leaf in Ht as (k & Hk & Hb). cbn. case_decide as E; apply every_leaf; [exists n'; subst; by rewrite lookup_insert_eq|].
    exists k. by rewrite lookup_insert_ne.
  - apply every_node in Ht as [_ Ht]. apply every_node. split; [done|]. rewrite Forall_forall in IH, Ht |- *.
    intros w [u [-> Hu]]%list_elem_of_fmap. by apply IH, Ht.
Qed.
Lemma subst_ready t : ready m t → ready m' (subst c l' t).
Proof.
  assert (Hs : ∀ x, single m x → single m' x) by (intros x (k & Hk & Hck); destruct (kept_node x k Hk) as (k' & ? & E & _); exists k'; split; [done|lia]).
  induction t as [a l|a ts IH] using tree_induction; intros Hr; inversion Hr as [? Hb|? ? H1|? ? H1 H2]; subst.
  - apply ready_backed. by apply subst_backed.
  - cbn. case_decide; by apply ready_leaf, Hs.
  - apply ready_backed. by apply subst_backed.
  - cbn. apply ready_node; [by apply Hs|]. rewrite Forall_forall in IH, H2 |- *. intros w [u [-> Hu]]%list_elem_of_fmap. by apply IH, H2.
Qed.
Lemma subst_fine s t : fine s m t → fine s m' (subst c l' t).
Proof. intros [H1 H2 H3]. split; [by apply subst_sound|by apply subst_fits|by apply subst_ready]. Qed.
Lemma subst_own t x : own m t x → own m' (subst c l' t) x.
Proof.
  induction 1 as [t k Hk Hck|a ts u k x Hk Hck Hu _ IH]; destruct (kept_node _ _ Hk) as (k' & Hk' & E & _).
  - rewrite <- (addr_subst c l' t) in *. apply (own_here _ _ k'); [done|lia].
  - cbn. apply (own_kid _ a _ (subst c l' u) k'); [done|lia| |done]. by apply list_elem_of_fmap_2.
Qed.
Lemma subst_at t off u : every (sound m) t → at_offset t off u → at_offset (subst c l' t) off (subst c l' u).
Proof.
  intros Ht Hat. induction Hat as [t|a pre u post off x Hat IH]; [constructor|]. apply every_node in Ht as [_ Ht]. apply Forall_app in Ht as [H1 H2].
  apply Forall_cons in H2 as [H2 _]. cbn [subst]. rewrite map_app. cbn [map].
  assert (E : zlen (all_bytes pre) = zlen (all_bytes (map (subst c l') pre))).
  { clear -H1 Hn Hlen. induction pre as [|v pre IH]; [done|]. apply Forall_cons in H1 as [V1 V2]. cbn [map]. rewrite !all_bytes_cons, !zlen_app, zlen_subst by done. by rewrite IH. }
  rewrite E. constructor. by apply IH.
Qed.
End substituted.

(** ** A leaf of one's own occurs once *)
Lemma subst_absent c l' t : c ∉ addrs t → subst c l' t = t.
Proof.
  induction t as [a l|a ts IH] using tree_induction; intros Hc; cbn.
  - rewrite decide_False; [done|]. intros ->. apply Hc. by apply addrs_leaf.
  - f_equal. rewrite <- (map_id ts) at 2. apply map_ext_in. intros u Hu%list_elem_of_In. rewrite Forall_forall in IH. apply IH; [done|].
    intros Hx. apply Hc, addrs_node. right. by exists u.
Qed.
Lemma subst_bytes c l' l t off : at_offset t off (TLeaf c l) → ∀ R O ext h, inv R O ext h → every (sound (nodes h)) t → (∀ x, x ∈ addrs t → x ∉ O) →
  own (nodes h) t c → ∃ p q, bytes t = p ++ l ++ q ∧ zlen p = off ∧ bytes (subst c l' t) = p ++ l' ++ q.
Proof.
  remember (TLeaf c l) as x eqn:Ex. induction 1 as [t|a pre u post off x Hat IH]; intros R O ext h Hinv Hs HO Hown; subst.
  { exists [], []. cbn. rewrite decide_True by done. by rewrite !app_nil_r. }
  set (ts := pre ++ u :: post). pose proof (at_offset_in u off _ Hat) as Hcu. cbn [addr] in Hcu.
  pose proof (every_here _ _ Hs) as [(n & Hn & Hi & _) _]. cbn [addr] in Hn. assert (HaO : a ∉ O) by (apply HO, addrs_node; by left).
  pose proof (inv_ext _ _ _ _ Hinv) as Hext.
  assert (Hopen : inv R (a :: O) (ext ⊕ kids_ext ts) h).
  { refine (inv_same _ _ _ _ _ _ (inv_open R O ext h a n Hinv Hn HaO)). intros y. unfold eplus. by rewrite (slots_pad n ts Hi), occ_pad. }
  assert (Hu : ts !! length pre = Some u) by (unfold ts; by rewrite lookup_app_r, Nat.sub_diag by lia).
  assert (Hinv0 : ∃ j v, ts !! j = Some v ∧ own (nodes h) v c).
  { inversion Hown as [? k Hk Hck|? ? v k ? Hk Hck Hv Ho]; subst.
    - destruct (no_cycle (nodes h) a ts u (sound_every_linked _ _ Hs)); [apply elem_of_app; right; left|done].
    - apply list_elem_of_lookup in Hv as [j Hj]. by exists j, v. }
  destruct Hinv0 as (j & v & Hj & Ho). destruct (decide (j = length pre)) as [->|Hne]; [|by destruct (kids_apart R O ext h a ts Hext Hopen Hs HO j (length pre) v u c Hj Hu Hne Ho)].
  rewrite Hu in Hj. injection Hj as <-.
  assert (Hother : ∀ w, w ∈ pre ∨ w ∈ post → subst c l' w = w).
  { intros w Hw. apply subst_absent. assert (∃ k, k ≠ length pre ∧ ts !! k = Some w) as (k & Hk & Hkw).
    { unfold ts. destruct Hw as [Hw|Hw]; apply list_elem_of_lookup in Hw as [k Hk].
      - exists k. pose proof (lookup_lt_Some _ _ _ Hk). split; [lia|]. by rewrite lookup_app_l by lia.
      - exists (length pre + S k)%nat. split; [lia|]. rewrite lookup_app_r by lia. by replace (length pre + S k - length pre)%nat with (S k) by lia. }
    by apply (kids_apart R O ext h a ts Hext Hopen Hs HO (length pre) k u w c Hu Hkw (not_eq_sym Hk)). }
  assert (Hmap : ∀ ws, (∀ w, w ∈ ws → subst c l' w = w) → map (subst c l') ws = ws).
  { intros ws Hws. rewrite <- (map_id ws) at 2. apply map_ext_in. intros w Hw%list_elem_of_In. by apply Hws. }
  destruct (IH eq_refl R (a :: O) (ext ⊕ kids_ext ts) h Hopen) as (p & q & E1 & E2 & E3); [| |done|].
  - apply every_node in Hs as [_ Hs]. apply (proj1 (Forall_forall _ _) Hs). apply elem_of_app. right. left.
  - intros y. apply (open_apart O h a ts Hs HO u). apply elem_of_app. right. left.
  - exists (all_bytes pre ++ p), (q ++ all_bytes post). assert (Em : map (subst c l') ts = pre ++ subst c l' u :: post).
    { unfold ts. rewrite map_app. cbn [map]. f_equal; [|f_equal]; apply Hmap; intros; apply Hother; tauto. }
    change (bytes (subst c l' (TNode a ts))) with (all_bytes (map (subst c l') ts)). change (bytes (TNode a ts)) with (all_bytes ts). rewrite Em. unfold ts.
    rewrite !all_bytes_app, !all_bytes_cons, zlen_app, E1, E3, <- !app_assoc. split_and!; [done|lia|done].
Qed.

(** ** The loop of [CFStorageReplaceValues] *)
Section replacing.
Context `{Al : Allocator} (Hal : ∀ n, 0 < n → is_Some (alloc n)).
Context (R : list Z) (s0 : __CFStorage) (Hs0 : storage_ok s0) (h : store).

Lemma below_overwrite off b l m : below l m → 0 ≤ off → off + zlen b ≤ zlen l →
  below (overwrite off b l) (ztake off m ++ b ++ zdrop (off + zlen b) m).
Proof.
  intros Hb Ho Hle. pose proof (below_len _ _ Hb). pose proof (zlen_nonneg b). unfold overwrite. apply below_app.
  assert (Ht : length (ztake off l) = length (ztake off m)).
  { pose proof (zlen_ztake off l ltac:(lia)) as E1. pose proof (zlen_ztake off m ltac:(lia)) as E2. unfold zlen in *. lia. }
  split; [apply below_more; apply below_less; [by apply below_ztake|rewrite zlen_ztake; lia]|]. rewrite Ht, drop_app_length. apply below_app. split.
  - apply below_more, below_cover. clear. induction b; cbn; constructor; [by right|done].
  - rewrite length_fmap, drop_app_length. apply below_zdrop; [lia|done].
Qed.

(** The storage with the other bytes in the leaf. *)
Lemma written_ok t st c l l' off n li li' : writable R s0 h t st → at_offset t off (TLeaf c l) → own (nodes (heap st)) t c →
  nodes (heap st) !! c = Some n → info n = leaf li → memory li' ≠ None → cachedRange li' = cachedRange li →
  leaf_ok (set_info (leaf li') n) l' → 0 < zlen l → zlen l' = zlen l →
  writable R s0 h (subst c l' t) (with_heap st (put c (set_info (leaf li') n) (heap st))).
Proof.
  intros [H1 H2 H3 H4 H5] Hat Hown Hn Hi Hm Hr Hok Hl Hz. pose proof H3 as (_ & Hroot & Ea & Hin). set (n' := set_info (leaf li') n) in *.
  destruct (leaf_node s0 Hs0 _ _ _ _ _ _ H3 Hat) as (n0 & _ & Hn0 & _ & [Hnb _] & _). rewrite Hn in Hn0. injection Hn0 as <-.
  assert (Hleaf : isLeaf n = true) by (unfold isLeaf; by rewrite Hi). assert (Hlen : numBytes n = zlen l') by lia. pose proof (at_offset_in t off _ Hat) as Hct. cbn [addr] in Hct.
  assert (Hfine : fine s0 (nodes (heap st)) t).
  { destruct Hin as [|(a & -> & _)]; [done|]. inversion Hat; subst. done. }
  pose proof (fine_sound _ _ _ Hfine) as Hsound. assert (Hw' : world R (put c n' (heap st))) by (by apply touched_world). split; cbn [this heap with_heap].
  - done.
  - done.
  - split_and!; [done|done|by rewrite addr_subst|left]. by apply (subst_fine _ c l' n n').
  - apply (spares_trans R s0 s0 _ (heap st)); [done|done|]. apply (apart_spares R s0 (λ x, x = c) _ _ t); [done|done| |by intros x ->|done].
    apply (evolves_put _ _ _ _ (heap st) c n n'); [apply evolves_refl|done|]. right. split; [done|by left].
  - intros c0 Hc0. destruct (H5 c0 Hc0) as (o & l0 & k & lk & Hrow & Hk & Hik & P1 & P2 & P3 & P4).
    assert (Hat0 : at_offset t o (TLeaf c0 l0)).
    { destruct Hrow as (pre & u & post & o' & E & -> & Ho). destruct pre as [|v pre]; [by injection E as <- <-|injection E as _ E; by destruct pre]. }
    pose proof (subst_at _ c l' n Hn Hlen t o _ Hsound Hat0) as Hat'. cbn [subst] in Hat'.
    assert (Hbase : ∀ z, own (nodes (heap st)) t z → own (nodes (put c n' (heap st))) (subst c l' t) z) by (intros z; by apply (subst_own _ c l' n n')).
    assert (Hself : ∀ z, (∃ u, u ∈ [t] ∧ own (nodes (heap st)) u z) → ∃ u, u ∈ [subst c l' t] ∧ own (nodes (put c n' (heap st))) u z).
    { intros z (u & Hu & Ho). apply list_elem_of_singleton in Hu as ->. exists (subst c l' t). split; [left|by apply Hbase]. }
    destruct (decide (c0 = c)) as [->|Hne].
    + rewrite Hn in Hk. injection Hk as <-. rewrite Hi in Hik. injection Hik as <-. exists o, l', n', li'. cbn [nodes put]. rewrite lookup_insert_eq, Hr.
      split_and!; try done; [by exists [], (subst c l' t), [], o| |intros Hf; by apply Hself, P4].
      destruct (leaf_node s0 Hs0 _ _ _ _ _ _ H3 Hat0) as (n0 & _ & Hn0 & _ & [Hnb0 _] & _). rewrite Hn in Hn0. injection Hn0 as <-. lia.
    + exists o, l0, k, lk. cbn [nodes put]. rewrite lookup_insert_ne by done. split_and!; try done; [by exists [], (subst c l' t), [], o|].
      intros Hf. by apply Hself, P4.
Qed.

Lemma write_found t idx cnt p vals st : writable R s0 h t st → value_own s0 t idx p st → 0 < cnt → idx + cnt ≤ location (snd p) + range_length (snd p) →
  0 ≤ idx → cnt * valueSize s0 ≤ zlen vals →
  wp (COPYMEM (Some vals) 0 (fst (fst p)) (snd (fst p)) (cnt * valueSize s0))
    (λ _ st', ∃ t', writable R s0 h t' st' ∧ bytes t' = overwrite (idx * valueSize s0) (ztake (cnt * valueSize s0) vals) (bytes t)) st.
Proof.
  intros Hw [Hp Hown] Hcnt Hle Hidx Hv. destruct Hp as (c & l & first & k & n & li & m & -> & Hat & Hfst & Hk & Hn & Hi & Hm & Hb).
  cbn [fst snd location range_length] in *. pose proof (so_size s0 Hs0). pose proof Hw as [H1 H2 H3 H4 H5]. pose proof H3 as (_ & Hr & Ea & Hin).
  set (off := (idx - first) * valueSize s0) in *. set (b := ztake (cnt * valueSize s0) vals).
  assert (Hzb : zlen b = cnt * valueSize s0) by (apply zlen_ztake; nia). assert (Hoff : 0 ≤ off ∧ off + zlen b ≤ zlen l) by (rewrite Hzb; unfold off; nia).
  pose proof (below_len _ _ Hb) as Hlm. destruct (leaf_node s0 Hs0 _ _ _ _ _ _ H3 Hat) as (n0 & li0 & Hn0 & Hi0 & Hlok & _).
  rewrite Hn in Hn0. injection Hn0 as <-. rewrite Hi in Hi0. injection Hi0 as <-. pose proof Hlok as (Hnb & li1 & E1 & Hmem). rewrite Hi in E1. injection E1 as <-.
  unfold COPYMEM. destruct (Z.eqb_spec (cnt * valueSize s0) 0); [nia|]. apply wp_bind. eapply wp_lift; [done|]. apply wp_bind.
  eapply wp_lift; [rewrite zsub_some by nia; done|]. rewrite zdrop_0. fold b. apply wp_bind. eapply wp_load; [exact Hn|]. apply wp_bind. eapply wp_leaf_of; [exact Hi|].
  apply wp_bind. eapply wp_lift; [exact Hm|]. apply wp_bind. eapply wp_lift; [apply zwrite_some; lia|]. set (m' := ztake off m ++ _).
  eapply wp_put; [exact Hn|]. set (li' := {| memory := Some m' |}). set (n' := set_info (leaf li') n).
  pose proof (below_overwrite off b l m Hb ltac:(lia) ltac:(lia)) as Hbw. fold m' in Hbw.
  assert (Hzm : zlen m' = zlen m) by (unfold m'; rewrite !zlen_app, zlen_ztake, zlen_zdrop by lia; lia).
  assert (Hzo : zlen (overwrite off b l) = zlen l) by (apply zlen_overwrite; lia).
  assert (Hok' : leaf_ok n' (overwrite off b l)).
  { split; [cbn; lia|]. exists li'. split; [done|]. unfold memory_ok in Hmem |- *. rewrite Hm in Hmem. cbn. split; [lia|done]. }
  assert (Hmem' : memory li' ≠ None) by done.
  exists (subst c (overwrite off b l) t). split; [eapply (written_ok t st c l); try done; lia|].
  destruct (subst_bytes c (overwrite off b l) l t _ Hat R [] none_held (heap st) H2 (intact_sound _ _ _ Hin)) as (p & q & E & L & ->);
    [by intros x _ ?%elem_of_nil|done|].
  rewrite E, <- overwrite_within by lia. f_equal. rewrite L. unfold off. lia.
Qed.

Lemma replace_loop_ok fuel : ∀ loc len vals t st, writable R s0 h t st → 0 ≤ loc → 0 ≤ len ≤ Z.of_nat fuel → (loc + len) * valueSize s0 ≤ zlen (bytes t) →
  len * valueSize s0 ≤ zlen vals →
  wp (replace_values_loop fuel loc len vals) (λ _ st', ∃ t', writable R s0 h t' st' ∧
    bytes t' = overwrite (loc * valueSize s0) (ztake (len * valueSize s0) vals) (bytes t)) st.
Proof.
  pose proof (so_size s0 Hs0) as Hsz.
  assert (Hend : ∀ k loc vals t st, writable R s0 h t st → wp (replace_values_loop k loc 0 vals) (λ _ st', ∃ t', writable R s0 h t' st' ∧
    bytes t' = overwrite (loc * valueSize s0) (ztake (0 * valueSize s0) vals) (bytes t)) st).
  { intros k loc vals t st Ht. exists (), st. split; [by destruct k|]. exists t. split; [done|]. cbn [Z.mul]. rewrite ztake_0. unfold overwrite.
    rewrite zlen_nil, Z.add_0_r. cbn. by rewrite ztake_zdrop. }
  induction fuel as [|fuel IH]; intros loc len vals t st Ht Hloc Hlen Hle Hv; [assert (len = 0) as -> by lia; by apply Hend|].
  destruct (decide (len = 0)) as [->|Hne]; [by apply Hend|]. cbn [replace_values_loop]. rewrite (proj2 (Z.ltb_lt 0 len)) by lia. apply wp_bind, wp_self.
  pose proof (wr_this _ _ _ _ _ Ht) as Hthis. destruct (same_storage_fields _ _ Hthis) as (Ev & _).
  assert (Hidx : 0 ≤ loc < zlen (bytes t) / valueSize s0) by (split; [done|]; apply Z.lt_le_trans with (loc + len); [lia|]; apply Z.div_le_lower_bound; lia).
  apply wp_bind. eapply wp_mono; [by apply (get_value_own Hal R s0 Hs0 h t loc st)|].
  intros p st1 (t1 & Ht1 & Hb1 & Hp). pose proof Hp as [(c & l & first & k & n & li & m & E & _ & Hi & _) _]. rewrite E. cbv beta iota. cbn [location range_length].
  rewrite value_to_byte, Ev by (by eapply same_storage_ok). set (cnt := Z.min len (k - (loc - first))).
  assert (Hcnt : 0 < cnt ≤ len ∧ cnt ≤ k - (loc - first)) by lia.
  pose proof (write_found t1 loc cnt p vals st1 Ht1 Hp) as Hr. rewrite E in Hr. cbn [fst snd location range_length] in Hr.
  apply wp_bind. eapply wp_mono; [apply Hr; nia|]. intros [] st2 (t2 & Ht2 & Hb2). rewrite Hb1 in Hb2.
  set (b1 := ztake (cnt * valueSize s0) vals) in *. assert (Hz1 : zlen b1 = cnt * valueSize s0) by (apply zlen_ztake; nia).
  assert (Hz2 : zlen (bytes t2) = zlen (bytes t)) by (rewrite Hb2; apply zlen_overwrite; nia).
  eapply wp_mono; [apply (IH (loc + cnt) (len - cnt) _ t2 st2 Ht2); [lia|lia|nia|]|].
  { change (drop (Z.to_nat (cnt * valueSize s0)) vals) with (zdrop (cnt * valueSize s0) vals). rewrite zlen_zdrop; nia. }
  intros [] st3 (t3 & Ht3 & Hb3). exists t3. split; [done|]. rewrite Hb3, Hb2.
  change (drop (Z.to_nat (cnt * valueSize s0)) vals) with (zdrop (cnt * valueSize s0) vals).
  replace ((loc + cnt) * valueSize s0) with (loc * valueSize s0 + zlen b1) by lia.
  rewrite overwrite_more; [|nia|rewrite zlen_ztake; [nia|rewrite zlen_zdrop; nia]]. f_equal.
  replace (len * valueSize s0) with (cnt * valueSize s0 + (len - cnt) * valueSize s0) by lia.
  pose proof (slice_more vals 0 (cnt * valueSize s0) ((len - cnt) * valueSize s0) ltac:(lia) ltac:(nia) ltac:(nia)) as E2. by rewrite zdrop_0, Z.add_0_l in E2.
Qed.
End replacing.

Lemma replace_values_ok `{Al : Allocator} (Hal : ∀ n, 0 < n → is_Some (alloc n)) R s h t pos n values st :
  storage_ok s → writable R s h t st → 0 ≤ pos → 0 ≤ n → (pos + n) * valueSize s ≤ zlen (bytes t) → n * valueSize s ≤ zlen values →
  wp (CFStorageReplaceValues (CFRangeMake pos n) values)
    (λ _ st', leaves R s h (overwrite (pos * valueSize s) (ztake (n * valueSize s) values) (bytes t)) st') st.
Proof.
  intros Hs Hw Hp Hn Hle Hv. unfold CFStorageReplaceValues. cbn [location range_length].
  eapply wp_mono; [apply (replace_loop_ok Hal R s Hs h _ pos n values t st Hw); lia|].
  intros [] st' (t' & [H1 H2 H3 H4 H5] & Hb). split; [done|done|done|]. by exists t'.
Qed.


Lemma six_overwritten :
  overwrite (1 * SIZE) (ztake (2 * SIZE) (values [98; 99])) six_values = Some <$> values [10; 98; 99; 13; 14; 15].
Proof. by_decide. Qed.

(** Two storages share all leaves of six values: two values written in the first,
    whose cached leaf is one of them, are in the first and not in the second. *)
#[local] Existing Instance zeroes.
