(* ===== verification/StorageProgram.v ===== *)
(** * Programs on a CFStorage

    The clearing of a storage, and a program that inserts, writes, counts and
    reads; runs of the operations on a storage next to another. *)
From S2P Require Import Prelude Storage StorageSpec StorageOps StorageInsert StorageBranch StorageFrozen StorageRoot StorageGrow StorageUse StorageRead StorageCopy StorageWrite StoragePut.
From stdpp Require Import gmap list.
Open Scope Z_scope.

(** ** The end of a storage *)

Lemma empty_root_sound (m : gmap Z CFStorageNode) r n : m !! r = Some n → numBytes n = 0 → info n = leaf empty_leaf → every (sound m) (TLeaf r []).
Proof.
  intros Hn Hb Hi. apply every_leaf. split; [|apply Forall_nil_2]. exists n. split; [done|]. split; [by rewrite Hb|]. by exists empty_leaf.
Qed.

(** The root is an empty leaf after its children went. *)
Definition clear_node (n : CFStorageNode) : CFStorageNode := set_info (leaf empty_leaf) (set_numBytes 0 n).
Lemma cleared R s h t n h' : storage_ok s → rootNode s ∈ R → addr t = rootNode s → world R h → intact s (nodes h) t → nodes h !! addr t = Some n → refCount n = 0 →
  inv R [addr t] none_held h' → evolves nowhere nowhere (.∈ addrs t) h h' → nodes h' !! addr t = Some n →
  world R (put (addr t) (clear_node n) h') ∧ spares R s h (put (addr t) (clear_node n) h') ∧ holds R s (put (addr t) (clear_node n) h') [].
Proof.
  intros Hs Hr Ea Hw Hin Hn Hc Hinv' Hev Hn'.
  assert (Hw' : world R (put (addr t) (clear_node n) h')).
  { assert (H1 : inv R [addr t] none_held (put (addr t) (clear_node n) h')).
    { eapply (inv_put R [addr t] none_held none_held h' (addr t) n); [done|done|left; left|done| |done|by intros _ []; left].
      intros x. case_decide; unfold none_held; cbn; lia. }
    refine (inv_same _ _ _ _ _ _ (inv_close R [] none_held _ (addr t) (clear_node n) H1 _ _ _ _)).
    - intros x. unfold eminus, none_held. by cbn.
    - cbn. apply lookup_insert_eq.
    - by intros ?%elem_of_nil.
    - intros x. cbn. done.
    - intros H. by rewrite Ea in H. }
  split_and!; [done| |].
  - apply (apart_spares R s (λ x, x = addr t) _ _ t); [done|done| | |done].
    + eapply (evolves_put _ _ _ _ h' (addr t) n); [eapply evolves_weaken; [exact Hev|by intros ? []|done|done]|done|]. right. split; [apply addr_addrs|by left].
    + intros x ->. apply (own_here _ t n); [done|lia].
  - exists (TLeaf (addr t) []). split; [|done]. split_and!; [done|done|done|]. right. exists (addr t). split; [done|].
    eapply empty_root_sound; [cbn; apply lookup_insert_eq|done|done].
Qed.

Lemma clear_root_ok `{Al : Allocator} R s h t : world R h → rooted R s h t →
  wp __CFStorageClearRootNode (λ _ st', this st' = s ∧ world R (heap st') ∧ spares R s h (heap st') ∧ holds R s (heap st') []) {| this := s; heap := h |}.
Proof.
  intros Hw Hroot. pose proof Hroot as (Hs & Hr & Ea & Hin). destruct (root_node R s h t Hw Hroot) as (n & Hn & Hc & _).
  pose proof (intact_sound _ _ _ Hin) as Hsound. pose proof (sound_every_linked _ _ Hsound) as Hl.
  unfold __CFStorageClearRootNode. apply wp_bind, wp_self. cbn [this]. rewrite <- Ea. apply wp_bind. eapply wp_load; [exact Hn|]. apply wp_bind.
  pose proof (every_here _ _ Hsound) as [(n' & Hn' & Hok) _]. rewrite Hn in Hn'. injection Hn' as <-.
  assert (Hopen : inv R [addr t] (none_held ⊕ λ x, occ x (slots n)) h) by (apply inv_open; [done|done|by intros ?%elem_of_nil]).
  destruct t as [a l|a ts]; cbn [addr] in *.
  - destruct Hok as (_ & li & Hi & _). unfold isLeaf. rewrite Hi. apply wp_ret. eapply wp_put; [exact Hn|].
    destruct (cleared R s h (TLeaf a l) n h) as (H1 & H2 & H3); try done; [|apply evolves_refl].
    refine (inv_same _ _ _ _ _ _ Hopen). intros x. unfold eplus, slots. rewrite Hi. cbn. unfold none_held. done.
  - destruct Hok as (Hi & Hb & Hlen). unfold isLeaf. rewrite Hi.
    assert (Hopen' : inv R [a] (none_held ⊕ kids_ext ts) h) by (refine (inv_same _ _ _ _ _ _ Hopen); intros x; unfold eplus; by rewrite (slots_pad n ts Hi), occ_pad).
    change (wp (release_children __CFStorageReleaseNode n) ?Q ?st) with (wp (release_children __CFStorageReleaseNode n) Q st).
    eapply wp_mono; [eapply (release_children_ok _ R [a] none_held ts (λ x, x ∈ addrs (TNode a ts) ∧ x ≠ a) _ n); [done|lia|exact Hopen'| |..]|].
    + by apply every_node in Hl as [_ Hl].
    + apply Forall_forall. intros u _. apply release_ok.
    + intros u Hu. assert (Hcyc := no_cycle _ a ts u Hl Hu). split.
      * intros Hur. destruct (inv_root _ _ _ _ Hopen' _ Hur) as (_ & H & _). unfold eplus, none_held in H. pose proof (kids_ext_elem ts u Hu). lia.
      * intros x Hx. assert (x ≠ a) by (by intros ->). split_and!; [by intros ->%list_elem_of_singleton|apply addrs_node; right; by exists u|done].
    + done.
    + intros [] st' [Ht' Hinv' Hsh _]. assert (Hn2 : nodes (heap st') !! a = Some n) by (rewrite (sh_out _ _ _ Hsh); [done|by intros []]).
      eapply wp_put; [exact Hn2|]. destruct (cleared R s h (TNode a ts) n (heap st')) as (H1 & H2 & H3); try done.
      eapply evolves_weaken; [by apply shrinks_evolves|done|done|by intros x []].
Qed.

(** C22. [__CFStorageDeallocate] leaves an empty root, gives up the nodes of the
    storage, and leaves the others their bytes. *)
Theorem storage_end `{Al : Allocator} R s h v : world R h → holds R s h v →
  wp __CFStorageDeallocate (λ _ st', this st' = s ∧ world R (heap st') ∧ spares R s h (heap st') ∧ holds R s (heap st') []) {| this := s; heap := h |}.
Proof. intros Hw (t & Hroot & _). by apply (clear_root_ok R s h t). Qed.

(** ** A program *)
Section program.
Context `{Al : Allocator} (Hal : ∀ n, 0 < n → is_Some (alloc n)).

(** Inserts values, and returns the new count and the values read again. *)
Definition store_and_load (pos n : Z) (values : list Z) : M (Z * list Z) :=
  CFStorageInsertValues (CFRangeMake pos n);;
  CFStorageReplaceValues (CFRangeMake pos n) values;;
  c ← CFStorageGetCount;
  b ← CFStorageGetValues (CFRangeMake pos n);
  mret (c, b).

Lemma cover_values (l b : list Z) : Forall2 cover (Some <$> l) b → b = l.
Proof.
  revert b. induction l as [|x l IH]; intros b H; inversion H as [|? y ? b' Hxy Hb]; subst; [done|].
  destruct Hxy as [|[= ->]]; [done|]. f_equal. by apply IH.
Qed.
Lemma fill_room pos b v : 0 ≤ pos ≤ zlen v → overwrite pos b (room pos (zlen b) v) = ztake pos v ++ (Some <$> b) ++ zdrop pos v.
Proof.
  intros Hp. pose proof (zlen_nonneg b). unfold room.
  replace pos with (zlen (ztake pos v) + 0) at 1 by (rewrite zlen_ztake; lia). rewrite overwrite_within; [|done|rewrite zlen_gap; lia].
  f_equal. f_equal. unfold overwrite. rewrite Z.add_0_l, ztake_0, zdrop_all by (rewrite zlen_gap; lia). by rewrite app_nil_r.
Qed.
Lemma slice_filled pos (b : list Z) v : 0 ≤ pos ≤ zlen v → ztake (zlen b) (zdrop pos (ztake pos v ++ (Some <$> b) ++ zdrop pos v)) = Some <$> b.
Proof.
  intros Hp. pose proof (zlen_nonneg b). pose proof (zlen_ztake pos v Hp) as E. rewrite slice_within by (rewrite ?zlen_fmap; lia).
  rewrite E, Z.sub_diag, zdrop_0. apply ztake_all. by rewrite zlen_fmap.
Qed.
Lemma count_ok R s st t : storage_ok s → same_storage s (this st) → world R (heap st) → rooted R s (heap st) t →
  wp CFStorageGetCount (λ c st', c = zlen (bytes t) / valueSize s ∧ st' = st) st.
Proof.
  intros Hs Hthis Hw Hroot. destruct (root_node R s _ t Hw Hroot) as (n & Hn & _ & Hb). pose proof Hroot as (_ & _ & Ea & _).
  destruct (same_storage_fields _ _ Hthis) as (Ev & _ & _ & _ & Er). unfold CFStorageGetCount, __CFStorageGetCount.
  apply wp_bind, wp_self. rewrite Er, <- Ea. apply wp_bind. eapply wp_load; [exact Hn|]. apply wp_ret. split; [|done].
  pose proof (zlen_nonneg (bytes t)). rewrite byte_to_value by (lia || by eapply same_storage_ok). by rewrite Ev, Hb.
Qed.

(** C18. Values inserted in a storage and written there are counted and read again;
    they stand between the bytes that were before and after their place, and the
    other storages keep their bytes. *)
Theorem values_come_back R s h v pos n values : world R h → holds R s h v → 0 ≤ pos → pos * valueSize s ≤ zlen v → 0 < n → zlen values = n * valueSize s →
  wp (store_and_load pos n values) (λ r st', r = (zlen v / valueSize s + n, values) ∧ same_storage s (this st') ∧ world R (heap st') ∧ spares R s h (heap st') ∧
    holds R s (heap st') (ztake (pos * valueSize s) v ++ (Some <$> values) ++ zdrop (pos * valueSize s) v)) {| this := s; heap := h |}.
Proof.
  intros Hw (t & Hroot & <-) Hp Hle Hn Hz. pose proof Hroot as (Hs & _). pose proof (so_size s Hs). set (p := pos * valueSize s) in *.
  assert (Hpos : 0 ≤ p) by (unfold p; nia). set (w := ztake p (bytes t) ++ (Some <$> values) ++ zdrop p (bytes t)).
  assert (Hw3 : zlen w = zlen (bytes t) + n * valueSize s) by (unfold w; rewrite !zlen_app, zlen_ztake, zlen_zdrop, zlen_fmap by lia; lia).
  unfold store_and_load. apply wp_bind. eapply wp_mono; [by apply (insert_values_ok Hal R s {| this := s; heap := h |} t)|].
  intros [] st1 [A1 A2 A3 (t1 & A4 & A5 & A6)]. cbn [heap] in A3.
  assert (Hl1 : zlen (bytes t1) = zlen (bytes t) + n * valueSize s) by (rewrite A5; apply zlen_room; nia).
  apply wp_bind. eapply wp_mono; [apply (replace_values_ok Hal R s h t1 pos n values st1); try done; nia|].
  intros [] st2 [B1 B2 B3 (t2 & B4 & B5 & B6)]. rewrite <- Hz, (ztake_all (zlen values)), A5, <- Hz in B5 by lia. fold p in B5. rewrite fill_room in B5 by lia. fold w in B5.
  apply wp_bind. eapply wp_mono; [by eapply count_ok|]. intros c st3 [-> ->]. rewrite B5, Hw3, Z.div_add by lia.
  apply wp_bind. eapply wp_mono; [apply (get_values_ok Hal R s t2 pos n st2); try done; [by apply valid_readable|lia|rewrite B5; nia]|].
  intros b st3 [Ht3 Hb]. apply wp_ret. fold p in Hb. rewrite B5, <- Hz in Hb. unfold w in Hb. rewrite slice_filled in Hb by lia.
  apply cover_values in Hb as ->. pose proof Ht3 as [C1 C2 C3 C4 _ _]. split_and!; try done.
  - apply (spares_trans R s s h (heap st2)); [done|done|]. by eapply (apart_spares R s nowhere _ _ t2).
  - by exists t2.
Qed.
End program.

(** ** Runs with two storages *)
#[local] Existing Instance zero_bytes.

(** Five values of four bytes. *)
Definition twenty : list Z := seqZ 1 20.
Lemma values_come_back_witness : ∃ s1 s2 h, two_storages = Some (s1, s2, h) ∧
  wp (store_and_load 0 5 twenty) (λ r st', r = (5, twenty) ∧ same_storage s1 (this st') ∧ world [rootNode s2; rootNode s1] (heap st') ∧
    spares [rootNode s2; rootNode s1] s1 h (heap st') ∧ holds [rootNode s2; rootNode s1] s1 (heap st') (Some <$> twenty)) {| this := s1; heap := h |}.
Proof.
  eexists _, _, _. split; [reflexivity|]. destruct (two_storages_made _ _ _ eq_refl) as (H1 & H2 & _).
  exact (values_come_back zero_bytes_ok _ _ _ _ 0 5 twenty H1 H2 ltac:(by_decide) ltac:(by_decide) ltac:(by_decide) eq_refl).
Defined.

Lemma storage_end_witness : ∃ R s h, holds R s h (gap 20) ∧ wp __CFStorageDeallocate (λ _ st', holds R s (heap st') []) {| this := s; heap := h |}.
Proof.
  destruct five_values as (R & s & h & t & H1 & H2 & _ & _ & Hb). exists R, s, h. assert (Hh : holds R s h (gap 20)) by (by exists t).
  split; [done|]. eapply wp_mono; [exact (storage_end R s h (gap 20) H1 Hh)|]. by intros [] st' (_ & _ & _ & H).
Defined.
