(* ===== verification/StorageBugs.v ===== *)
(** * Where CFStorage goes wrong

    Runs of the functions of Storage.v, on storages of values of 4096 bytes of
    which a leaf holds three, in which the code crashes or changes or misreads
    the bytes of a storage that shares nodes with another. *)
From S2P Require Import Prelude Storage StorageSpec StorageOps StorageInsert StorageBranch StorageFrozen StorageRoot StorageGrow StorageShare.
From stdpp Require Import gmap list.
Open Scope Z_scope.

#[local] Existing Instance zeroes.

(** The first byte of each of [n] values. *)
Fixpoint firsts (n : nat) (l : list Z) : list Z :=
  match n, l with S n, x :: _ => x :: firsts n (drop (Z.to_nat SIZE) l) | _, _ => [] end.

Definition read (i n : Z) : M (list Z) :=
  b ← CFStorageGetValues (CFRangeMake i n); mret (firsts (Z.to_nat n) b).

(** Six values that were never written are shared; an insertion between them
    copies from the memory of a frozen leaf that has none, where an insertion
    at the front succeeds. *)
Lemma insertion_in_unwritten_leaf_crashes :
  let w := st ← made (room_for 6); shared (CFRangeMake 0 6) st in
  (w ← w; on_second (CFStorageInsertValues (CFRangeMake 1 1)) w) = None ∧
  ('(_, w) ← (w ← w; on_second (CFStorageInsertValues (CFRangeMake 0 1)) w);
   '(n, _) ← on_second CFStorageGetCount w; Some n) = Some 7.
Proof. vm_compute. done. Qed.

(** Twenty-one values are shared.  The first storage deletes twelve, which
    leaves a branch that is shared; its children are retained but not frozen, and
    a value written in the first storage appears in the second. *)
Definition delete_then_write : option (list Z * list Z) :=
  st ← made (numbered 21); w ← shared (CFRangeMake 0 21) st;
  '(_, w) ← on_first (CFStorageDeleteValues (CFRangeMake 0 12)) w;
  '(old, w) ← on_second (read 12 3) w;
  '(_, w) ← on_first (CFStorageReplaceValues (CFRangeMake 0 1) (value 99)) w;
  '(new, _) ← on_second (read 12 3) w; Some (old, new).
Lemma deletion_exposes_shared_leaves : delete_then_write = Some ([22; 23; 24], [99; 23; 24]).
Proof. vm_compute. done. Qed.

(** A leaf that was read before its storage was shared stays in the cache; the
    branch above it is frozen, the leaf is not, and a value written to the first
    storage through the cache appears in the second. *)
Definition share_then_write (before : M ()) : option (list Z) :=
  st ← made (numbered 21;; before); w ← shared (CFRangeMake 0 21) st;
  '(_, w) ← on_first (CFStorageReplaceValues (CFRangeMake 0 1) (value 99)) w;
  '(new, _) ← on_second (read 0 3) w; Some new.
Lemma cache_writes_shared_leaf :
  share_then_write (mret ()) = Some [10; 11; 12] ∧ share_then_write (read 0 1;; mret ()) = Some [99; 11; 12].
Proof. vm_compute. done. Qed.

(** The range of the cached leaf is kept in the leaf: when another storage, in
    which the shared leaf begins elsewhere, reads from it, the first storage
    reads the wrong value. *)
Definition read_twice : option (list Z * list Z) :=
  st ← made (numbered 6); w ← shared (CFRangeMake 1 5) st;
  '(x, w) ← on_first (read 3 1) w; '(_, w) ← on_second (read 2 1) w;
  '(y, _) ← on_first (read 3 1) w; Some (x, y).
Lemma cache_reads_wrong_value : read_twice = Some ([13], [14]).
Proof. vm_compute. done. Qed.

(** A storage of values larger than a leaf: the capacity of a leaf, a multiple of
    the size of a value, is zero. *)
Definition oversized : option state :=
  let (s, h) := CFStorageCreate 12289 {| nodes := ∅; next := 0 |} in s ← s; Some {| this := s; heap := h |}.
(** A round of the loop with a chunk of no bytes. *)
Definition empty_round (root : Z) : M () :=
  d ← depth; newNodes ← __CFStorageInsertUnfrozen (__CFStorageInsert d) root 0 0 0;
  match sibling newNodes with None => mret () | Some newNode => grow_root newNode end.
Lemma no_chunk fuel st st' n : 0 < n → maxLeafCapacity (this st) = 0 → empty_round (rootNode (this st)) st = Some ((), st') →
  insert_values_loop (S fuel) 0 n st = insert_values_loop fuel 0 n st'.
Proof.
  intros Hn Hm. cbn [insert_values_loop]. rewrite (proj2 (Z.ltb_lt 0 n)) by done. unfold empty_round, self, depth, mbind, M_bind.
  rewrite Hm, Z.min_r, Z.sub_0_r by lia. cbn [Z.add].
  destruct (__CFStorageInsertUnfrozen _ _ _ _ _ st) as [[r st1]|]; [|done]. destruct (sibling r); [|by intros [= <-]].
  destruct (grow_root _ st1) as [[[] st2]|]; [by intros [= <-]|done].
Qed.

(** An insertion in a storage of values larger than a leaf never ends: its
    rounds insert nothing and come back to the same state. *)
Lemma large_values_are_never_inserted n : 0 < n →
  ∃ st st', oversized = Some st ∧
    (∀ fuel, insert_values_loop (S fuel) 0 (n * 12289) st = insert_values_loop fuel 0 (n * 12289) st') ∧
    (∀ fuel, insert_values_loop (S fuel) 0 (n * 12289) st' = insert_values_loop fuel 0 (n * 12289) st') ∧
    (∀ fuel, insert_values_loop fuel 0 (n * 12289) st = None).
Proof.
  intros Hn. pose (st := ltac:(let x := eval vm_compute in oversized in match x with Some ?y => exact y end) : state).
  set (st' := {| this := set_cacheNode (Some 0) (this st); heap := heap st |}). exists st, st'.
  assert (E0 : empty_round 0 st = Some ((), st')) by (vm_compute; reflexivity).
  assert (E1 : empty_round 0 st' = Some ((), st')) by (vm_compute; reflexivity).
  assert (H0 : ∀ fuel, insert_values_loop (S fuel) 0 (n * 12289) st = insert_values_loop fuel 0 (n * 12289) st')
    by (intros fuel; apply no_chunk; [lia|done|exact E0]).
  assert (H1 : ∀ fuel, insert_values_loop (S fuel) 0 (n * 12289) st' = insert_values_loop fuel 0 (n * 12289) st')
    by (intros fuel; apply no_chunk; [lia|done|exact E1]).
  assert (Hz : ∀ x, insert_values_loop 0 0 (n * 12289) x = None) by (intros x; cbn; by rewrite (proj2 (Z.ltb_lt 0 _)) by lia).
  split_and!; [by vm_compute|exact H0|exact H1|]. intros [|fuel]; [apply Hz|]. rewrite H0. clear H0. induction fuel as [|fuel IH]; [apply Hz|]. by rewrite H1.
Qed.
Lemma large_values_are_never_inserted_witness : ∃ st, oversized = Some st ∧ ∀ fuel, insert_values_loop fuel 0 12289 st = None.
Proof. destruct (large_values_are_never_inserted 1 eq_refl) as (st & _ & H & _ & _ & Hf). exists st. split; [exact H|exact Hf]. Defined.
