(* ===== verification/Kernel.v ===== *)
(** * What libdispatch relies on of the kernel

    The interfaces against which the synchronisation code is verified, each
    with an instance, and the bit arithmetic of the state words it shares. *)
From S2P Require Import Prelude.
From stdpp Require Import list.
From Stdlib Require Import Zbitwise.
Open Scope Z_scope.

(** ** The kernel semaphore

    What the code relies on: a signal adds a token, a wait takes one or blocks
    when there is none. *)
Class Sema4 := {
  sema4 : Type;
  sema4_new : sema4;
  sema4_signal : sema4 → sema4;
  sema4_take : sema4 → option sema4;
  sema4_tokens : sema4 → Z;
  sema4_new_tokens : sema4_tokens sema4_new = 0;
  sema4_tokens_nonneg k : 0 ≤ sema4_tokens k;
  sema4_signal_tokens k : sema4_tokens (sema4_signal k) = sema4_tokens k + 1;
  sema4_take_tokens k k' : sema4_take k = Some k' → sema4_tokens k' = sema4_tokens k - 1;
  sema4_take_blocks k : sema4_take k = None → sema4_tokens k = 0;
}.

(** A counter is such a semaphore. *)
#[export] Program Instance counting_sema4 : Sema4 := {|
  sema4 := nat; sema4_new := 0%nat; sema4_signal := S;
  sema4_take k := match k with O => None | S k => Some k end;
  sema4_tokens := Z.of_nat;
|}.
Next Obligation. done. Qed.
Next Obligation. intros k. cbn. lia. Qed.
Next Obligation. intros k. cbn. lia. Qed.
Next Obligation. intros [|k] k'; [done|]. intros [= ->]. cbn. lia. Qed.
Next Obligation. intros [|k]; done. Qed.

(** ** The kernel's wait on an address

    What the code relies on: a thread put to sleep stays so until it is woken,
    and a wake reaches every sleeper.  Timeouts and spurious returns are events
    of the system below. *)
Class Futex := {
  futex : Type;
  futex_new : futex;
  futex_sleep : nat → futex → futex;
  futex_cancel : nat → futex → futex;
  futex_wake_all : futex → futex;
  asleep : nat → futex → bool;
  asleep_new i : asleep i futex_new = false;
  asleep_sleep i j f : asleep i (futex_sleep j f) = if decide (i = j) then true else asleep i f;
  asleep_cancel i j f : asleep i (futex_cancel j f) = if decide (i = j) then false else asleep i f;
  asleep_wake_all i f : asleep i (futex_wake_all f) = false;
}.

(** The sleepers as a predicate. *)
#[export] Program Instance predicate_futex : Futex := {|
  futex := nat → bool;
  futex_new _ := false;
  futex_sleep j f i := if decide (i = j) then true else f i;
  futex_cancel j f i := if decide (i = j) then false else f i;
  futex_wake_all _ _ := false;
  asleep i f := f i;
|}.
Solve All Obligations with done.

(** ** State words *)

(** A field of [n] bits at bit [m]. *)
Lemma land_shifted s n m :
  0 ≤ n → 0 ≤ m → Z.land s (Z.shiftl (Z.ones n) m) = 2 ^ m * (s / 2 ^ m mod 2 ^ n).
Proof.
  intros Hn Hm. rewrite <- Z.land_ones, <- Z.shiftr_div_pow2, Z.mul_comm, <- Z.shiftl_mul_pow2 by done.
  apply Z.bits_inj'. intros k Hk. rewrite Z.land_spec, !Z.shiftl_spec, Z.land_spec by done.
  destruct (Z.ltb_spec k m).
  - rewrite !(Z.testbit_neg_r _ (k - m)) by lia. by rewrite andb_false_r.
  - rewrite Z.shiftr_spec by lia. f_equal. f_equal. lia.
Qed.

Lemma lor_flag s flag : Z.lor s flag = s - Z.land s flag + flag.
Proof. pose proof (Z.add_lor_land s flag). lia. Qed.
