(* ===== verification/Semaphore.v ===== *)
(** * Dispatch semaphores (libdispatch semaphore.c)

    Each atomic operation on [dsema_value], and each call on the kernel
    semaphore, is one step of one thread; a system of threads interleaves them.
    [dsema_value] is a 64-bit [long]. *)
From S2P Require Import Prelude Kernel.
From stdpp Require Import list.
Open Scope Z_scope.

Definition LONG_MIN : Z := - 2 ^ 63.
Definition DSEMA4_TIMEOUT : Z := -1.

(** Where a thread is: outside, or about to do the next atomic step of
    [_dispatch_semaphore_wait_slow] or [_dispatch_semaphore_signal_slow]. *)
Inductive pc :=
  | Outside
  | Timedwait            (** [_dispatch_sema4_timedwait] *)
  | UndoLoad             (** [orig = dsema->dsema_value] *)
  | Undo (orig : Z)      (** the compare-exchange loop *)
  | Drain                (** [_dispatch_sema4_wait] *)
  | SignalSlow.          (** [_dispatch_sema4_signal] *)

Inductive outcome := Goto (p : pc) | Return (r : Z) | Crash.

Section semaphore.
Context `{Sema4}.

Record dispatch_semaphore_s := { dsema_value : Z; dsema_orig : Z; dsema_sema : sema4 }.
Implicit Types dsema : dispatch_semaphore_s.

Definition with_value dsema (v : Z) :=
  {| dsema_value := v; dsema_orig := dsema_orig dsema; dsema_sema := dsema_sema dsema |}.
Definition with_sema dsema (k : sema4) :=
  {| dsema_value := dsema_value dsema; dsema_orig := dsema_orig dsema; dsema_sema := k |}.

(** ** The operations *)

(** [None]: [DISPATCH_BAD_INPUT]. *)
Definition dispatch_semaphore_create (value : Z) : option dispatch_semaphore_s :=
  if value <? 0 then None
  else Some {| dsema_value := value; dsema_orig := value; dsema_sema := sema4_new |}.

(** [false] is the crash of a semaphore deallocated while in use. *)
Definition _dispatch_semaphore_dispose dsema : bool := negb (dsema_value dsema <? dsema_orig dsema).

Definition dispatch_semaphore_signal dsema : dispatch_semaphore_s * outcome :=
  let value := sint 64 (dsema_value dsema + 1) in
  let dsema := with_value dsema value in
  if 0 <? value then (dsema, Return 0)
  else if value =? LONG_MIN then (dsema, Crash)
  else (dsema, Goto SignalSlow).

(** The [switch] of [_dispatch_semaphore_wait_slow]. *)
Definition wait_slow_entry (timeout : dispatch_time_t) : pc :=
  match timeout with
  | DISPATCH_TIME_AT => Timedwait
  | DISPATCH_TIME_NOW => UndoLoad
  | DISPATCH_TIME_FOREVER => Drain
  end.

Definition dispatch_semaphore_wait dsema (timeout : dispatch_time_t) : dispatch_semaphore_s * outcome :=
  let value := sint 64 (dsema_value dsema - 1) in
  let dsema := with_value dsema value in
  if 0 <=? value then (dsema, Return 0) else (dsema, Goto (wait_slow_entry timeout)).

(** The step at [p]; [None] while the thread is blocked.  [timed_out] is the
    answer of a timed wait. *)
Definition continue (p : pc) (timed_out : bool) dsema : option (dispatch_semaphore_s * outcome) :=
  match p with
  | Outside => None
  | Timedwait =>
      if timed_out then Some (dsema, Goto UndoLoad)
      else k ← sema4_take (dsema_sema dsema); Some (with_sema dsema k, Return 0)
  | UndoLoad => Some (dsema, Goto (Undo (dsema_value dsema)))
  | Undo orig =>
      if orig <? 0 then
        if dsema_value dsema =? orig
        then Some (with_value dsema (sint 64 (orig + 1)), Return DSEMA4_TIMEOUT)
        else Some (dsema, Goto (Undo (dsema_value dsema)))
      else Some (dsema, Goto Drain)
  | Drain => k ← sema4_take (dsema_sema dsema); Some (with_sema dsema k, Return 0)
  | SignalSlow => Some (with_sema dsema (sema4_signal (dsema_sema dsema)), Return 1)
  end.

(** ** Threads

    [acquired] counts the waits that returned 0, [signaled] the signals begun. *)
Record system := {
  dsema : dispatch_semaphore_s; threads : list pc; acquired : Z; signaled : Z; crashed : bool }.

Inductive action :=
  | StartWait (i : nat) (timeout : dispatch_time_t)
  | StartSignal (i : nat)
  | Continue (i : nat) (timed_out : bool).

Definition finish (st : system) (i : nat) (s : dispatch_semaphore_s) (out : outcome) (a g : Z) : system :=
  {| dsema := s;
     threads := <[i := match out with Goto p => p | _ => Outside end]> (threads st);
     acquired := acquired st + a; signaled := signaled st + g;
     crashed := match out with Crash => true | _ => false end |}.

(** 1 for a wait that returns 0. *)
Definition success (out : outcome) : Z := match out with Return 0 => 1 | _ => 0 end.

Definition act (a : action) (st : system) : option system :=
  if crashed st then None
  else match a with
  | StartWait i timeout =>
      match threads st !! i with
      | Some Outside => let '(s, out) := dispatch_semaphore_wait (dsema st) timeout in
                        Some (finish st i s out (success out) 0)
      | _ => None
      end
  | StartSignal i =>
      match threads st !! i with
      | Some Outside => let '(s, out) := dispatch_semaphore_signal (dsema st) in
                        Some (finish st i s out 0 1)
      | _ => None
      end
  | Continue i timed_out =>
      p ← threads st !! i; '(s, out) ← continue p timed_out (dsema st);
      Some (finish st i s out (success out) 0)
  end.

Definition initial (s : dispatch_semaphore_s) (n : nat) : system :=
  {| dsema := s; threads := replicate n Outside; acquired := 0; signaled := 0; crashed := false |}.

(** ** The invariant *)

Definition waits (p : pc) : Z := match p with Outside | SignalSlow => 0 | _ => 1 end.
Definition signals (p : pc) : Z := match p with SignalSlow => 1 | _ => 0 end.

Definition waiting (st : system) : Z := zsum waits (threads st).
(** Wake-ups granted and not yet taken. *)
Definition wakeups (st : system) : Z :=
  sema4_tokens (dsema_sema (dsema st)) + zsum signals (threads st).

Record inv (orig : Z) (n : nat) (st : system) : Prop := {
  inv_orig : dsema_orig (dsema st) = orig;
  inv_threads : length (threads st) = n;
  inv_range : - 2 ^ 63 < dsema_value (dsema st) < 2 ^ 63;
  inv_waiting : waiting st = Z.max 0 (- dsema_value (dsema st)) + wakeups st;
  inv_permits : orig + signaled st = acquired st + Z.max 0 (dsema_value (dsema st)) + wakeups st;
}.

Lemma waits_range p : 0 ≤ waits p ≤ 1.
Proof. destruct p; cbn; lia. Qed.
Lemma signals_nonneg p : 0 ≤ signals p.
Proof. destruct p; cbn; lia. Qed.

Lemma wakeups_nonneg st : 0 ≤ wakeups st.
Proof.
  unfold wakeups. pose proof (sema4_tokens_nonneg (dsema_sema (dsema st))).
  pose proof (zsum_nonneg signals (threads st) signals_nonneg). lia.
Qed.
Lemma waiting_bound orig n st : inv orig n st → 0 ≤ waiting st ≤ Z.of_nat n.
Proof.
  intros [_ Hn _ _ _]. unfold waiting. split.
  - apply zsum_nonneg. intros p. by destruct (waits_range p).
  - rewrite <- Hn. apply (zsum_le_len waits). intros p. by destruct (waits_range p).
Qed.

Lemma semaphore_initial_inv orig n s :
  orig < 2 ^ 63 → dispatch_semaphore_create orig = Some s → inv orig n (initial s n).
Proof.
  unfold dispatch_semaphore_create. intros Ho. destruct (Z.ltb_spec orig 0); [done|]. intros [= <-].
  assert (Hz : ∀ f : pc → Z, f Outside = 0 → zsum f (replicate n Outside) = 0).
  { intros f Hf. apply zsum_0. intros i p Hi. apply lookup_replicate in Hi as [-> _]. done. }
  split; unfold waiting, wakeups, initial; cbn [dsema threads acquired signaled dsema_value dsema_orig dsema_sema];
    rewrite ?sema4_new_tokens, ?Hz by done; try done; try lia. by rewrite length_replicate.
Qed.

(** The threads after a step of thread [i]: its weight is replaced. *)
Lemma finish_sum st i s out a g p f :
  threads st !! i = Some p →
  zsum f (threads (finish st i s out a g))
    = zsum f (threads st) - f p + f (match out with Goto p => p | _ => Outside end).
Proof. intros Hi. cbn [finish threads]. by apply zsum_insert. Qed.

Ltac finish_inv Hi :=
  split; unfold waiting, wakeups; rewrite ?(finish_sum _ _ _ _ _ _ _ _ Hi);
  cbn [finish dsema threads acquired signaled dsema_value dsema_orig dsema_sema
       with_value with_sema waits signals success wait_slow_entry DSEMA4_TIMEOUT]; rewrite ?length_insert; try done; try lia.

Lemma wait_inv orig n st i timeout s out :
  inv orig n st → Z.of_nat n < 2 ^ 63 → threads st !! i = Some Outside →
  dispatch_semaphore_wait (dsema st) timeout = (s, out) →
  out ≠ Crash ∧ inv orig n (finish st i s out (success out) 0).
Proof.
  intros Hinv Hn Hi. pose proof (waiting_bound orig n st Hinv) as Hb. destruct Hinv as [Ho Hl Hr Hw Hp].
  pose proof (wakeups_nonneg st) as Hwk.
  assert (Hb' : waiting st < Z.of_nat n).
  { pose proof (zsum_le_len waits (<[i := Drain]> (threads st)) (λ p, proj2 (waits_range p))) as Hle.
    rewrite (zsum_insert waits _ _ _ _ Hi) in Hle. unfold zlen in Hle. rewrite length_insert, Hl in Hle.
    unfold waiting. cbn [waits] in Hle. lia. }
  unfold dispatch_semaphore_wait.
  assert (Hv : sint 64 (dsema_value (dsema st) - 1) = dsema_value (dsema st) - 1)
    by (apply sint_id; lia).
  rewrite Hv. unfold waiting, wakeups in *.
  destruct (Z.leb_spec 0 (dsema_value (dsema st) - 1)); intros [= <- <-]; split; try done.
  - finish_inv Hi.
  - destruct timeout; finish_inv Hi.
Qed.

Lemma signal_inv orig n st i s out :
  inv orig n st → threads st !! i = Some Outside →
  dispatch_semaphore_signal (dsema st) = (s, out) →
  (out = Crash → 2 ^ 63 ≤ orig + signaled st + 1 - acquired st) ∧
  (out ≠ Crash → inv orig n (finish st i s out 0 1)).
Proof.
  intros [Ho Hl Hr Hw Hp] Hi. pose proof (wakeups_nonneg st) as Hwk.
  unfold dispatch_semaphore_signal, LONG_MIN.
  destruct (Z.eqb_spec (dsema_value (dsema st)) (2 ^ 63 - 1)) as [E|E].
  - rewrite E. change (sint 64 (2 ^ 63 - 1 + 1)) with (- 2 ^ 63). cbn [Z.ltb Z.eqb]. intros [= <- <-].
    split; [intros _; lia|done].
  - rewrite sint_id by lia. unfold waiting, wakeups in *.
    destruct (Z.ltb_spec 0 (dsema_value (dsema st) + 1));
      [|destruct (Z.eqb_spec (dsema_value (dsema st) + 1) (- 2 ^ 63)); [lia|]]; intros [= <- <-];
      (split; [done|intros _]); finish_inv Hi.
Qed.

Lemma continue_inv orig n st i p timed_out s out :
  inv orig n st → threads st !! i = Some p → continue p timed_out (dsema st) = Some (s, out) →
  out ≠ Crash ∧ inv orig n (finish st i s out (success out) 0).
Proof.
  intros [Ho Hl Hr Hw Hp] Hi. pose proof (wakeups_nonneg st) as Hwk. unfold waiting, wakeups in *.
  assert (Htake : ∀ k, sema4_take (dsema_sema (dsema st)) = Some k → waits p = 1 → signals p = 0 →
    inv orig n (finish st i (with_sema (dsema st) k) (Return 0) 1 0)).
  { intros k Hk Hwp Hsp. apply sema4_take_tokens in Hk. finish_inv Hi. }
  destruct p; cbn [continue]; [done|destruct timed_out| | | |].
  - intros [= <- <-]. split; [done|]. finish_inv Hi.
  - destruct (sema4_take _) as [k|] eqn:Hk; [|done]. intros [= <- <-]. split; [done|]. by apply Htake.
  - intros [= <- <-]. split; [done|]. finish_inv Hi.
  - destruct (Z.ltb_spec orig0 0); [destruct (Z.eqb_spec (dsema_value (dsema st)) orig0)|].
    + intros [= <- <-]. split; [done|]. rewrite sint_id by lia. finish_inv Hi.
    + intros [= <- <-]. split; [done|]. finish_inv Hi.
    + intros [= <- <-]. split; [done|]. finish_inv Hi.
  - destruct (sema4_take _) as [k|] eqn:Hk; [|done]. intros [= <- <-]. split; [done|]. by apply Htake.
  - intros [= <- <-]. split; [done|]. pose proof (sema4_signal_tokens (dsema_sema (dsema st))).
    finish_inv Hi.
Qed.

(** What holds of a crashed system: the overflow that [dispatch_semaphore_signal]
    detects. *)
Definition safe (orig : Z) (n : nat) (st : system) : Prop :=
  if crashed st then 2 ^ 63 ≤ orig + signaled st - acquired st else inv orig n st.

Lemma step_safe orig n a st st' :
  Z.of_nat n < 2 ^ 63 → safe orig n st → act a st = Some st' → safe orig n st'.
Proof.
  intros Hn Hs Ha. unfold act in Ha. unfold safe in Hs |- *. destruct (crashed st); [done|].
  destruct a as [i t|i|i b]; cbn in Ha.
  - destruct (threads st !! i) as [[]|] eqn:Hi; try done.
    destruct (dispatch_semaphore_wait (dsema st) t) as [s out] eqn:Hw. injection Ha as <-.
    destruct (wait_inv _ _ _ _ _ _ _ Hs Hn Hi Hw) as [Hc Hinv]. by destruct out.
  - destruct (threads st !! i) as [[]|] eqn:Hi; try done.
    destruct (dispatch_semaphore_signal (dsema st)) as [s out] eqn:Hw. injection Ha as <-.
    destruct (signal_inv _ _ _ _ _ _ Hs Hi Hw) as [Hc Hinv].
    destruct out; cbn [finish crashed]; [by apply Hinv|by apply Hinv|].
    unfold finish; cbn [signaled acquired]. specialize (Hc eq_refl). lia.
  - destruct (threads st !! i) as [p|] eqn:Hi; [|done]. cbn in Ha.
    destruct (continue p b (dsema st)) as [[s out]|] eqn:Hw; [|done]. injection Ha as <-.
    destruct (continue_inv _ _ _ _ _ _ _ _ Hs Hi Hw) as [Hc Hinv]. by destruct out.
Qed.

Definition reachable (orig : Z) (n : nat) (st : system) : Prop :=
  ∃ s, dispatch_semaphore_create orig = Some s ∧ rtc (steps_to act) (initial s n) st.

Lemma reachable_safe orig n st :
  orig < 2 ^ 63 → Z.of_nat n < 2 ^ 63 → reachable orig n st → safe orig n st.
Proof.
  intros Ho Hn (s & Hs & Hrtc). revert Hrtc. apply steps_invariant.
  - intros a st1 st2. by apply step_safe.
  - exact (semaphore_initial_inv orig n s Ho Hs).
Qed.

(** No step is possible but the start of an operation or the end of a timeout. *)
Definition quiescent (st : system) : Prop :=
  ∀ i p, threads st !! i = Some p → p = Outside ∨ continue p false (dsema st) = None.

Lemma semaphore_quiescent_pc st i p :
  quiescent st → threads st !! i = Some p →
  signals p = 0 ∧ (waits p = 0 ∨ sema4_tokens (dsema_sema (dsema st)) = 0).
Proof.
  intros Hq Hi. destruct (Hq i p Hi) as [->|Hc]; [cbn; auto|].
  destruct p; cbn in *; try done; auto.
  - destruct (sema4_take _) eqn:Ht; [done|]. by apply sema4_take_blocks in Ht; auto.
  - by destruct (orig <? 0), (dsema_value (dsema st) =? orig).
  - destruct (sema4_take _) eqn:Ht; [done|]. by apply sema4_take_blocks in Ht; auto.
Qed.
End semaphore.

(** C24. In every interleaving of waits, with any timeout, and signals by up to
    2^63 - 1 threads, the permits are conserved: the waits that succeeded and
    the permits that are left (in the value or as wake-ups under way) add up to
    the initial value and the signals, so no more waits succeed than there are
    permits; the waiting threads are those the negative value counts and those a
    wake-up is granted to; a timed out wait takes nothing.  The only crash is
    the overflow of the value. *)
Theorem semaphore_conserves_permits `{Sema4} orig n st :
  orig < 2 ^ 63 → Z.of_nat n < 2 ^ 63 → reachable orig n st →
  let v := dsema_value (dsema st) in
  (crashed st = false →
     acquired st + Z.max 0 v + wakeups st = orig + signaled st ∧ 0 ≤ wakeups st ∧
     waiting st = Z.max 0 (- v) + wakeups st ∧ - 2 ^ 63 < v < 2 ^ 63) ∧
  (crashed st = true → 2 ^ 63 ≤ orig + signaled st - acquired st).
Proof.
  intros Ho Hn Hr. pose proof (reachable_safe orig n st Ho Hn Hr) as Hs. unfold safe in Hs.
  split; intros Hc; rewrite Hc in Hs; [|done]. pose proof (wakeups_nonneg st).
  destruct Hs. split_and!; lia.
Qed.

(** C37. No wake-up is lost: when the threads inside are all blocked in the
    kernel, either nobody waits or every permit was acquired, and the value is
    the count of permits left, or of the waiting threads; with nobody waiting,
    disposing of the semaphore crashes exactly when more waits succeeded than
    signals were sent. *)
Theorem semaphore_loses_no_wakeup `{Sema4} orig n st :
  orig < 2 ^ 63 → Z.of_nat n < 2 ^ 63 → reachable orig n st → crashed st = false → quiescent st →
  let v := dsema_value (dsema st) in
  (0 < waiting st → acquired st = orig + signaled st ∧ v = - waiting st ∧ wakeups st = 0) ∧
  (waiting st = 0 → v = orig + signaled st - acquired st ∧ wakeups st = 0 ∧
     (_dispatch_semaphore_dispose (dsema st) = false ↔ signaled st < acquired st)).
Proof.
  intros Ho Hn Hr Hc Hq v. pose proof (reachable_safe orig n st Ho Hn Hr) as Hs.
  unfold safe in Hs. rewrite Hc in Hs. pose proof (wakeups_nonneg st) as Hwk.
  destruct Hs as [Horig Hl Hrange Hw Hp].
  assert (Hsig : zsum signals (threads st) = 0)
    by (apply zsum_0; intros i p Hi; by destruct (semaphore_quiescent_pc st i p Hq Hi)).
  split.
  - intros Hpos. destruct (zsum_pos waits (threads st) Hpos) as (i & p & Hi & Hwp).
    destruct (semaphore_quiescent_pc st i p Hq Hi) as [_ [|Ht]]; [lia|].
    unfold wakeups in *. subst v. lia.
  - intros H0. subst v. split_and!; [lia|lia|]. unfold _dispatch_semaphore_dispose.
    rewrite negb_false_iff, Z.ltb_lt, Horig. lia.
Qed.

(** ** A concrete system: two threads on an empty semaphore *)

(** Thread 0 gives up waiting just as thread 1 signals: it finds the value
    raised, and takes the wake-up meant for it. *)
Definition race : list action :=
  [StartWait 0 DISPATCH_TIME_AT; Continue 0 true; Continue 0 true; StartSignal 1; Continue 0 true;
   Continue 0 true].
Definition empty_semaphore : dispatch_semaphore_s :=
  {| dsema_value := 0; dsema_orig := 0; dsema_sema := sema4_new |}.
Definition race_state : system :=
  {| dsema := empty_semaphore; threads := [Drain; SignalSlow]; acquired := 0; signaled := 1; crashed := false |}.
Definition waiting_state : system :=
  {| dsema := {| dsema_value := -1; dsema_orig := 0; dsema_sema := sema4_new |};
     threads := [Drain; Outside]; acquired := 0; signaled := 0; crashed := false |}.

Lemma semaphore_conserves_permits_witness : waiting race_state = 1 ∧ wakeups race_state = 1.
Proof.
  assert (Hr : reachable 0 2 race_state).
  { exists empty_semaphore. split; [done|]. by apply (run_reaches act race). }
  destruct (semaphore_conserves_permits 0 2 race_state) as [H _]; [lia|lia|exact Hr|].
  destruct (H eq_refl) as (Ha & _ & Hw & _). split; [rewrite Hw|]; by vm_compute.
Defined.
Lemma semaphore_loses_no_wakeup_witness : waiting waiting_state = 1 ∧ wakeups waiting_state = 0.
Proof.
  assert (Hr : reachable 0 2 waiting_state).
  { exists empty_semaphore. split; [done|]. by apply (run_reaches act [StartWait 0 DISPATCH_TIME_FOREVER]). }
  destruct (semaphore_loses_no_wakeup 0 2 waiting_state) as [H _]; [lia|lia|exact Hr|done| |].
  - intros [|[|i]] p; cbn; intros [= <-]; auto.
  - split; [done|]. by destruct H as (_ & _ & ?); [vm_compute|].
Defined.
