(* ===== verification/Group.v ===== *)
(** * Dispatch groups (libdispatch semaphore.c)

    The group's 64-bit state holds a generation, the count of enters not yet
    left (negated, on 30 bits) and two flags.  Each atomic operation on it, and
    each call on the wait queue of its address or on a queue, is one step of one
    thread; a system of threads interleaves them.  A thread that wakes the group
    takes the list of notifications as a whole and then submits them one by one,
    while others may go on with theirs. *)
From S2P Require Import Prelude Kernel.
From stdpp Require Import list.
From Stdlib Require Import Zbitwise.
Open Scope Z_scope.

(** ** The state word (semaphore_internal.h) *)

Definition DISPATCH_GROUP_VALUE_MASK : Z := 4294967292. (* 0x00000000fffffffc *)
Definition DISPATCH_GROUP_VALUE_INTERVAL : Z := 4.
Definition DISPATCH_GROUP_VALUE_1 : Z := DISPATCH_GROUP_VALUE_MASK.
Definition DISPATCH_GROUP_VALUE_MAX : Z := DISPATCH_GROUP_VALUE_INTERVAL.
Definition DISPATCH_GROUP_HAS_NOTIFS : Z := 2.
Definition DISPATCH_GROUP_HAS_WAITERS : Z := 1.

Definition _dg_state_value (dg_state : Z) : Z :=
  Z.shiftr (u32 (- Z.land (u32 dg_state) DISPATCH_GROUP_VALUE_MASK)) 2.
Definition _dg_state_gen (dg_state : Z) : Z := u32 (Z.shiftr dg_state 32).

(** A test of a flag, and clearing one with [&= ~flag]. *)
Definition has (dg_state flag : Z) : bool := negb (Z.land dg_state flag =? 0).
Definition clear (dg_state flag : Z) : Z := Z.land dg_state (u64 (Z.lnot flag)).

Definition DSEMA4_TIMEOUT : Z := -1.

(** A notification: the queue and the continuation. *)
Definition notification : Type := Z * Z.

(** Where a thread is: outside, or about to do the next step of an operation.  In
    the loop of [_dispatch_group_wake], [dc] is the continuation at hand and
    [next_dc] what follows it in the captured list, of which [snap] is the number. *)
Inductive pc :=
  | Outside
  | EnterRetain                                       (** [_dispatch_retain] of [dispatch_group_enter] *)
  | LeaveLoop (old_state : Z)                         (** the compare-exchange loop of [dispatch_group_leave] *)
  | WakeNotifs (dg_state refs : Z)                    (** [_dispatch_group_wake] *)
  | Submit (snap : nat) (dc : notification) (next_dc : list notification) (dg_state refs : Z)
  | SubmitRelease (snap : nat) (next_dc : list notification) (dg_state refs : Z)
  | WakeWaiters (dg_state refs : Z)
  | WakeRelease (refs : Z)
  | NotifyRetain                                      (** [_dispatch_group_notify] after its push *)
  | NotifySet
  | WaitAddress (gen : Z) (timeout : dispatch_time_t) (** [_dispatch_group_wait_slow] *)
  | Asleep (gen : Z) (timeout : dispatch_time_t)
  | WaitCheck (gen : Z) (timeout : dispatch_time_t) (timed_out : bool).

Inductive outcome := Goto (p : pc) | Return (r : Z) | Crash.

(** How a sleep ends. *)
Inductive event := Woken | Spurious | TimedOut.

(** What the loop of [dispatch_group_leave] stores. *)
Definition leave_new_state (old_state : Z) : Z :=
  if Z.land old_state DISPATCH_GROUP_VALUE_MASK =? 0
  then clear (clear old_state DISPATCH_GROUP_HAS_WAITERS) DISPATCH_GROUP_HAS_NOTIFS
  else clear old_state DISPATCH_GROUP_HAS_NOTIFS.

Section group.
Context `{Futex}.

(** [dg_refs] and [dq_refs] count the references the group code holds on the
    group and on the queues; [captured] are the lists taken so far and [submitted]
    the calls of [_dispatch_continuation_async] made so far, each with the number
    of its list.  A push is its exchange of the list's tail together with the link
    to the element, for which a thread that walks the list waits. *)
Record dispatch_group_s := {
  dg_state : Z; dg_notify : list notification; dg_refs : Z; dq_refs : Z; dg_address : futex;
  captured : list (list notification); submitted : list (nat * notification) }.
Implicit Types dg : dispatch_group_s.

Definition set_state dg (s : Z) :=
  {| dg_state := s; dg_notify := dg_notify dg; dg_refs := dg_refs dg; dq_refs := dq_refs dg;
     dg_address := dg_address dg; captured := captured dg; submitted := submitted dg |}.
Definition set_address dg (f : futex) :=
  {| dg_state := dg_state dg; dg_notify := dg_notify dg; dg_refs := dg_refs dg; dq_refs := dq_refs dg;
     dg_address := f; captured := captured dg; submitted := submitted dg |}.
Definition add_refs dg (n : Z) :=
  {| dg_state := dg_state dg; dg_notify := dg_notify dg; dg_refs := dg_refs dg + n; dq_refs := dq_refs dg;
     dg_address := dg_address dg; captured := captured dg; submitted := submitted dg |}.
Definition push_notify dg (x : notification) :=
  {| dg_state := dg_state dg; dg_notify := dg_notify dg ++ [x]; dg_refs := dg_refs dg;
     dq_refs := dq_refs dg + 1; dg_address := dg_address dg; captured := captured dg; submitted := submitted dg |}.
(** [os_mpsc_capture_snapshot], [_dispatch_continuation_async] and
    [_dispatch_release] of its queue. *)
Definition capture_snapshot dg :=
  {| dg_state := dg_state dg; dg_notify := []; dg_refs := dg_refs dg; dq_refs := dq_refs dg;
     dg_address := dg_address dg; captured := captured dg ++ [dg_notify dg]; submitted := submitted dg |}.
Definition continuation_async dg (snap : nat) (dc : notification) :=
  {| dg_state := dg_state dg; dg_notify := dg_notify dg; dg_refs := dg_refs dg; dq_refs := dq_refs dg;
     dg_address := dg_address dg; captured := captured dg; submitted := submitted dg ++ [(snap, dc)] |}.
Definition release_queue dg :=
  {| dg_state := dg_state dg; dg_notify := dg_notify dg; dg_refs := dg_refs dg; dq_refs := dq_refs dg - 1;
     dg_address := dg_address dg; captured := captured dg; submitted := submitted dg |}.

(** ** The operations *)

Definition _dispatch_group_create_with_count (n : Z) : dispatch_group_s :=
  {| dg_state := if n =? 0 then 0 else u32 (u32 (- n) * DISPATCH_GROUP_VALUE_INTERVAL);
     dg_notify := []; dg_refs := if n =? 0 then 0 else 1; dq_refs := 0;
     dg_address := futex_new; captured := []; submitted := [] |}.
Definition dispatch_group_create : dispatch_group_s := _dispatch_group_create_with_count 0.
Definition _dispatch_group_create_and_enter : dispatch_group_s := _dispatch_group_create_with_count 1.

(** [false] is the crash of a group deallocated while in use. *)
Definition _dispatch_group_dispose dg : bool := u32 (dg_state dg) =? 0.

Definition dispatch_group_enter dg : dispatch_group_s * outcome :=
  let old_bits := u32 (dg_state dg) in
  let dg := set_state dg (dg_state dg - old_bits + u32 (old_bits - DISPATCH_GROUP_VALUE_INTERVAL)) in
  let old_value := Z.land old_bits DISPATCH_GROUP_VALUE_MASK in
  if old_value =? 0 then (dg, Goto EnterRetain)
  else if old_value =? DISPATCH_GROUP_VALUE_MAX then (dg, Crash)
  else (dg, Return 0).

Definition dispatch_group_leave dg : dispatch_group_s * outcome :=
  let old_state := dg_state dg in
  let dg := set_state dg (u64 (old_state + DISPATCH_GROUP_VALUE_INTERVAL)) in
  let old_value := u32 (Z.land old_state DISPATCH_GROUP_VALUE_MASK) in
  if old_value =? DISPATCH_GROUP_VALUE_1
  then (dg, Goto (LeaveLoop (u64 (old_state + DISPATCH_GROUP_VALUE_INTERVAL))))
  else if old_value =? 0 then (dg, Crash)
  else (dg, Return 0).

(** [_dispatch_group_wake] starts with the references it will release. *)
Definition _dispatch_group_wake (dg_state : Z) (needs_release : bool) : pc :=
  WakeNotifs dg_state (if needs_release then 1 else 0).

(** One turn of the loop of [dispatch_group_leave]. *)
Definition leave_loop dg (old_state : Z) : dispatch_group_s * outcome :=
  let new_state := leave_new_state old_state in
  if old_state =? new_state then (dg, Goto (_dispatch_group_wake old_state true))
  else if dg_state dg =? old_state
  then (set_state dg new_state, Goto (_dispatch_group_wake old_state true))
  else (dg, Goto (LeaveLoop (dg_state dg))).

(** The atomic loop of [dispatch_group_wait], as of its last turn. *)
Definition dispatch_group_wait dg (timeout : dispatch_time_t) : dispatch_group_s * outcome :=
  let old_state := dg_state dg in
  if Z.land old_state DISPATCH_GROUP_VALUE_MASK =? 0 then (dg, Return 0)
  else match timeout with
  | DISPATCH_TIME_NOW => (dg, Return DSEMA4_TIMEOUT)
  | _ =>
      let new_state := Z.lor old_state DISPATCH_GROUP_HAS_WAITERS in
      (set_state dg new_state, Goto (WaitAddress (_dg_state_gen new_state) timeout))
  end.

(** [_dispatch_group_notify] up to its push, and the atomic loop at its end. *)
Definition dispatch_group_notify dg (dq dsn : Z) : dispatch_group_s * outcome :=
  let was_empty := match dg_notify dg with [] => true | _ => false end in
  (push_notify dg (dq, dsn), if was_empty then Goto NotifyRetain else Return 0).
Definition notify_set dg : dispatch_group_s * outcome :=
  let old_state := dg_state dg in
  let new_state := Z.lor old_state DISPATCH_GROUP_HAS_NOTIFS in
  if u32 old_state =? 0 then (dg, Goto (_dispatch_group_wake new_state false))
  else (set_state dg new_state, Return 0).

(** The parts of [_dispatch_group_wake].  Capturing the list waits for a first
    element; the loop submits each element and releases its queue. *)
Definition wake_notifs dg (dg_state refs : Z) : option (dispatch_group_s * outcome) :=
  if has dg_state DISPATCH_GROUP_HAS_NOTIFS then
    match dg_notify dg with
    | [] => None
    | dc :: next_dc =>
        Some (capture_snapshot dg, Goto (Submit (length (captured dg)) dc next_dc dg_state refs))
    end
  else Some (dg, Goto (WakeWaiters dg_state refs)).
Definition submit_release dg (snap : nat) (next_dc : list notification) (dg_state refs : Z)
    : dispatch_group_s * outcome :=
  (release_queue dg,
   Goto match next_dc with
        | dc :: next_dc => Submit snap dc next_dc dg_state refs
        | [] => WakeWaiters dg_state (refs + 1)
        end).
Definition wake_waiters dg (dg_state refs : Z) : dispatch_group_s * outcome :=
  (if has dg_state DISPATCH_GROUP_HAS_WAITERS then set_address dg (futex_wake_all (dg_address dg)) else dg,
   if refs =? 0 then Return 0 else Goto (WakeRelease refs)).

(** The loop of [_dispatch_group_wait_slow]: [_dispatch_wait_on_address] sleeps
    only while the generation is [gen]. *)
Definition wait_address dg (i : nat) (gen : Z) (timeout : dispatch_time_t) : dispatch_group_s * outcome :=
  if gen =? _dg_state_gen (dg_state dg)
  then (set_address dg (futex_sleep i (dg_address dg)), Goto (Asleep gen timeout))
  else (dg, Goto (WaitCheck gen timeout false)).
Definition sleeping dg (i : nat) (gen : Z) (timeout : dispatch_time_t) (ev : event)
    : option (dispatch_group_s * outcome) :=
  match ev, timeout with
  | Woken, _ => if asleep i (dg_address dg) then None else Some (dg, Goto (WaitCheck gen timeout false))
  | Spurious, _ =>
      Some (set_address dg (futex_cancel i (dg_address dg)), Goto (WaitCheck gen timeout false))
  | TimedOut, DISPATCH_TIME_AT =>
      Some (set_address dg (futex_cancel i (dg_address dg)), Goto (WaitCheck gen timeout true))
  | TimedOut, _ => None
  end.
Definition wait_check dg (gen : Z) (timeout : dispatch_time_t) (timed_out : bool) : outcome :=
  if negb (gen =? _dg_state_gen (dg_state dg)) then Return 0
  else if timed_out then Return DSEMA4_TIMEOUT
  else Goto (WaitAddress gen timeout).

(** The step of thread [i] at [p]; [None] while it is blocked. *)
Definition continue (i : nat) (p : pc) (ev : event) dg : option (dispatch_group_s * outcome) :=
  match p with
  | Outside => None
  | EnterRetain => Some (add_refs dg 1, Return 0)
  | LeaveLoop old_state => Some (leave_loop dg old_state)
  | WakeNotifs dg_state refs => wake_notifs dg dg_state refs
  | Submit snap dc next_dc dg_state refs =>
      Some (continuation_async dg snap dc, Goto (SubmitRelease snap next_dc dg_state refs))
  | SubmitRelease snap next_dc dg_state refs => Some (submit_release dg snap next_dc dg_state refs)
  | WakeWaiters dg_state refs => Some (wake_waiters dg dg_state refs)
  | WakeRelease refs => Some (add_refs dg (- refs), Return 0)
  | NotifyRetain => Some (add_refs dg 1, Goto NotifySet)
  | NotifySet => Some (notify_set dg)
  | WaitAddress gen timeout => Some (wait_address dg i gen timeout)
  | Asleep gen timeout => sleeping dg i gen timeout ev
  | WaitCheck gen timeout timed_out => Some (dg, wait_check dg gen timeout timed_out)
  end.

(** ** Threads

    [since] is, for each thread, the number of times the group had become empty
    when its last wait began; [entered] and [left] count the operations, [zeros]
    the times the group became empty, [pushed] the notifications in order. *)
Record system := {
  dg : dispatch_group_s; threads : list pc; since : nat → Z;
  entered : Z; left : Z; zeros : Z; pushed : list notification; crashed : bool }.

Inductive action :=
  | StartEnter (i : nat)
  | StartLeave (i : nat)
  | StartWait (i : nat) (timeout : dispatch_time_t)
  | StartNotify (i : nat) (dq dsn : Z)
  | Continue (i : nat) (ev : event).

Definition next (out : outcome) : pc := match out with Goto p => p | _ => Outside end.
Definition crash (out : outcome) : bool := match out with Crash => true | _ => false end.

Definition act (a : action) (st : system) : option system :=
  let starts i := match threads st !! i with Some Outside => true | _ => false end in
  if crashed st then None
  else match a with
  | StartEnter i =>
      if starts i then
        let '(d, out) := dispatch_group_enter (dg st) in
        Some {| dg := d; threads := <[i := next out]> (threads st); since := since st;
                entered := entered st + 1; left := left st; zeros := zeros st;
                pushed := pushed st; crashed := crash out |}
      else None
  | StartLeave i =>
      if starts i then
        let '(d, out) := dispatch_group_leave (dg st) in
        Some {| dg := d; threads := <[i := next out]> (threads st); since := since st;
                entered := entered st; left := left st + 1;
                zeros := zeros st + match out with Goto _ => 1 | _ => 0 end;
                pushed := pushed st; crashed := crash out |}
      else None
  | StartWait i timeout =>
      if starts i then
        let '(d, out) := dispatch_group_wait (dg st) timeout in
        Some {| dg := d; threads := <[i := next out]> (threads st);
                since := λ j, if decide (j = i) then zeros st else since st j;
                entered := entered st; left := left st; zeros := zeros st;
                pushed := pushed st; crashed := crash out |}
      else None
  | StartNotify i dq dsn =>
      if starts i then
        let '(d, out) := dispatch_group_notify (dg st) dq dsn in
        Some {| dg := d; threads := <[i := next out]> (threads st); since := since st;
                entered := entered st; left := left st; zeros := zeros st;
                pushed := pushed st ++ [(dq, dsn)]; crashed := crash out |}
      else None
  | Continue i ev =>
      p ← threads st !! i; '(d, out) ← continue i p ev (dg st);
      Some {| dg := d; threads := <[i := next out]> (threads st); since := since st;
              entered := entered st; left := left st; zeros := zeros st;
              pushed := pushed st; crashed := crash out |}
  end.

Definition initial (count : Z) (n : nat) : system :=
  {| dg := _dispatch_group_create_with_count count; threads := replicate n Outside; since := λ _, 0;
     entered := count; left := 0; zeros := 0; pushed := []; crashed := false |}.
Definition reachable (count : Z) (n : nat) (st : system) : Prop := rtc (steps_to act) (initial count n) st.
End group.

(** ** The parts of a state word *)

(** The two flags, as 0 or 1. *)
Definition wbit (s : Z) : Z := s mod 2.
Definition nbit (s : Z) : Z := s / 2 mod 2.

Definition is_word (s : Z) : Prop := 0 ≤ s < 2 ^ 64.

Lemma land_mask s : Z.land s DISPATCH_GROUP_VALUE_MASK = s mod 2 ^ 32 - s mod 4.
Proof.
  change DISPATCH_GROUP_VALUE_MASK with (Z.shiftl (Z.ones 30) 2).
  rewrite land_shifted by done. change (2 ^ 2) with 4. zdiv.
Qed.
Lemma land_waiters s : Z.land s DISPATCH_GROUP_HAS_WAITERS = wbit s.
Proof. unfold wbit. change DISPATCH_GROUP_HAS_WAITERS with (Z.ones 1). by rewrite Z.land_ones. Qed.
Lemma land_notifs s : Z.land s DISPATCH_GROUP_HAS_NOTIFS = 2 * nbit s.
Proof. change DISPATCH_GROUP_HAS_NOTIFS with (Z.shiftl (Z.ones 1) 1). by rewrite land_shifted. Qed.

Lemma clear_flag s flag : is_word s → 0 ≤ flag → clear s flag = s - Z.land s flag.
Proof.
  intros Hs Hf. unfold clear, u64. rewrite <- Z.land_ones by lia.
  rewrite Z.land_assoc, <- Z.sub_land_same_l, Z.land_ones by lia.
  apply Z.mod_small. unfold is_word in Hs.
  pose proof (Z.land_nonneg s flag) as [_ Hl]. specialize (Hl ltac:(auto)).
  assert (Z.land s flag ≤ s).
  { pose proof (Z.sub_land_same_l s flag). pose proof (proj2 (Z.land_nonneg s (Z.lnot flag)) ltac:(left; lia)). lia. }
  lia.
Qed.

Lemma bits_range s : 0 ≤ wbit s ≤ 1 ∧ 0 ≤ nbit s ≤ 1.
Proof. unfold wbit, nbit. zdiv. Qed.

Lemma has_notifs s : has s DISPATCH_GROUP_HAS_NOTIFS = (nbit s =? 1).
Proof. unfold has. rewrite land_notifs. pose proof (bits_range s). zcases. Qed.
Lemma has_waiters s : has s DISPATCH_GROUP_HAS_WAITERS = (wbit s =? 1).
Proof. unfold has. rewrite land_waiters. pose proof (bits_range s). zcases. Qed.

Lemma value_eq s : _dg_state_value s = - (s / 4) mod 2 ^ 30.
Proof.
  unfold _dg_state_value. rewrite land_mask, Z.shiftr_div_pow2 by lia. unfold u32.
  change (2 ^ 2) with 4. zdiv.
Qed.
Lemma value_range s : 0 ≤ _dg_state_value s < 2 ^ 30.
Proof. rewrite value_eq. apply Z.mod_pos_bound. lia. Qed.
Lemma gen_eq s : is_word s → _dg_state_gen s = s / 2 ^ 32.
Proof.
  unfold is_word, _dg_state_gen, u32. intros. rewrite Z.shiftr_div_pow2 by lia. apply Z.mod_small. zdiv.
Qed.

(** The tests of the value field. *)
Lemma value_field s :
  Z.land s DISPATCH_GROUP_VALUE_MASK = if decide (_dg_state_value s = 0) then 0 else 2 ^ 32 - 4 * _dg_state_value s.
Proof. rewrite land_mask, value_eq. case_decide; zdiv. Qed.
Lemma u32_field s : u32 (Z.land s DISPATCH_GROUP_VALUE_MASK) = Z.land s DISPATCH_GROUP_VALUE_MASK.
Proof. rewrite land_mask. unfold u32. apply Z.mod_small. zdiv. Qed.
Lemma field_of_bits s : Z.land (u32 s) DISPATCH_GROUP_VALUE_MASK = Z.land s DISPATCH_GROUP_VALUE_MASK.
Proof. rewrite !land_mask. unfold u32. zdiv. Qed.
Lemma value_is_0 s : (Z.land s DISPATCH_GROUP_VALUE_MASK =? 0) = (_dg_state_value s =? 0).
Proof. rewrite value_field. pose proof (value_range s). case_decide; zcases. Qed.
Lemma bits_zero s : u32 s = 0 ↔ _dg_state_value s = 0 ∧ wbit s = 0 ∧ nbit s = 0.
Proof. rewrite value_eq. unfold u32, wbit, nbit. zdiv. Qed.

(** A word whose parts are those given. *)
Record parts (s gen value w n : Z) : Prop := {
  parts_word : is_word s;
  parts_gen : _dg_state_gen s = gen;
  parts_value : _dg_state_value s = value;
  parts_wbit : wbit s = w;
  parts_nbit : nbit s = n;
}.
Lemma parts_self s : is_word s → parts s (_dg_state_gen s) (_dg_state_value s) (wbit s) (nbit s).
Proof. done. Qed.

Ltac parts_arith :=
  split; [|rewrite !gen_eq; [|try done..]|rewrite !value_eq| |]; unfold is_word, wbit, nbit, u32, u64 in *; try zdiv.

Lemma enter_parts s g v w n :
  parts s g v w n → v < 2 ^ 30 - 1 → parts (s - u32 s + u32 (u32 s - 4)) g (v + 1) w n.
Proof.
  intros [Hw Hg Hv Hwb Hnb] Hlt. subst. rewrite value_eq in Hlt |- *.
  parts_arith.
Qed.
Lemma leave_parts s g v w n :
  parts s g v w n → 1 ≤ v →
  parts (u64 (s + 4)) (if decide (v = 1) then u32 (g + 1) else g) (v - 1) w n.
Proof.
  intros [Hw Hg Hv Hwb Hnb] Hlt. subst. rewrite value_eq, gen_eq in * by done.
  assert (is_word (u64 (s + 4))) by (unfold is_word, u64; apply Z.mod_pos_bound; lia).
  split; [done|rewrite gen_eq by done|rewrite value_eq| |]; unfold is_word, wbit, nbit, u32, u64 in *;
    try case_decide; zdiv.
Qed.
Lemma set_waiters_parts s g v w n :
  parts s g v w n → parts (Z.lor s DISPATCH_GROUP_HAS_WAITERS) g v 1 n.
Proof.
  intros [Hw Hg Hv Hwb Hnb]. rewrite lor_flag, land_waiters. unfold DISPATCH_GROUP_HAS_WAITERS.
  subst. rewrite value_eq, gen_eq by done. unfold wbit.
  assert (is_word (s - s mod 2 + 1)) by (unfold is_word in *; zdiv).
  split; [done|rewrite gen_eq by done|rewrite value_eq| |]; unfold is_word, wbit, nbit in *; zdiv.
Qed.
Lemma set_notifs_parts s g v w n :
  parts s g v w n → parts (Z.lor s DISPATCH_GROUP_HAS_NOTIFS) g v w 1.
Proof.
  intros [Hw Hg Hv Hwb Hnb]. rewrite lor_flag, land_notifs. unfold DISPATCH_GROUP_HAS_NOTIFS.
  subst. rewrite value_eq, gen_eq by done. unfold nbit.
  assert (is_word (s - 2 * (s / 2 mod 2) + 2)) by (unfold is_word in *; zdiv).
  split; [done|rewrite gen_eq by done|rewrite value_eq| |]; unfold is_word, wbit, nbit in *; zdiv.
Qed.
Lemma clear_waiters_parts s g v w n :
  parts s g v w n → parts (clear s DISPATCH_GROUP_HAS_WAITERS) g v 0 n.
Proof.
  intros [Hw Hg Hv Hwb Hnb]. rewrite clear_flag, land_waiters by done.
  subst. rewrite value_eq, gen_eq by done. unfold wbit.
  assert (is_word (s - s mod 2)) by (unfold is_word in *; zdiv).
  split; [done|rewrite gen_eq by done|rewrite value_eq| |]; unfold is_word, wbit, nbit in *; zdiv.
Qed.
Lemma clear_notifs_parts s g v w n :
  parts s g v w n → parts (clear s DISPATCH_GROUP_HAS_NOTIFS) g v w 0.
Proof.
  intros [Hw Hg Hv Hwb Hnb]. rewrite clear_flag, land_notifs by done.
  subst. rewrite value_eq, gen_eq by done. unfold nbit.
  assert (is_word (s - 2 * (s / 2 mod 2))) by (unfold is_word in *; zdiv).
  split; [done|rewrite gen_eq by done|rewrite value_eq| |]; unfold is_word, wbit, nbit in *; zdiv.
Qed.

(** Equal parts, equal words. *)
Lemma parts_inj s t g v w n : parts s g v w n → parts t g v w n → s = t.
Proof.
  intros [Hs Hgs Hvs Hws Hns] [Ht Hgt Hvt Hwt Hnt]. rewrite gen_eq, value_eq in * by done.
  unfold is_word, wbit, nbit in *. zdiv.
Qed.

Lemma leave_new_parts s g v w n :
  parts s g v w n → parts (leave_new_state s) g v (if decide (v = 0) then 0 else w) 0.
Proof.
  intros Hp. unfold leave_new_state. rewrite value_is_0. pose proof Hp as [_ _ -> _ _].
  destruct (Z.eqb_spec v 0) as [->|Hv].
  - rewrite decide_True by done. by eapply clear_notifs_parts, clear_waiters_parts.
  - rewrite decide_False by done. by eapply clear_notifs_parts.
Qed.
Lemma leave_settled s :
  is_word s → s = leave_new_state s ↔ nbit s = 0 ∧ (_dg_state_value s = 0 → wbit s = 0).
Proof.
  intros Hs. pose proof (leave_new_parts s _ _ _ _ (parts_self s Hs)) as Hn. split.
  - intros E. rewrite <- E in Hn. destruct Hn as [_ _ _ Hw Hn]. split; [done|].
    intros H0. by rewrite H0, decide_True in Hw.
  - intros [Hn0 Hw0]. apply (parts_inj _ _ _ _ _ _ (parts_self s Hs)).
    rewrite Hn0. case_decide as E; [rewrite (Hw0 E)|]; done.
Qed.

(** ** The invariant *)

(** The references a thread at [p] will take, negative, or release. *)
Definition owed (p : pc) : Z :=
  match p with
  | EnterRetain | NotifyRetain => -1
  | LeaveLoop _ => 1
  | WakeNotifs _ refs | WakeWaiters _ refs | WakeRelease refs => refs
  | Submit _ _ _ _ refs | SubmitRelease _ _ _ refs => refs + 1
  | _ => 0
  end.
(** The references on queues it will release. *)
Definition queue_owed (p : pc) : Z :=
  match p with Submit _ _ l _ _ | SubmitRelease _ l _ _ => 1 + zlen l | _ => 0 end.
(** The captured list at hand, and what is still to be submitted of it. *)
Definition snapshot (p : pc) : option nat :=
  match p with Submit k _ _ _ _ | SubmitRelease k _ _ _ => Some k | _ => None end.
Definition held (p : pc) : list notification :=
  match p with Submit _ x l _ _ => x :: l | SubmitRelease _ l _ _ => l | _ => [] end.
(** The thread has to see that the notifications are submitted. *)
Definition in_charge (p : pc) : Z :=
  match p with NotifyRetain | NotifySet => 1 | WakeNotifs s _ => nbit s | _ => 0 end.
(** The thread is going to wake the waiters; it will if its exchange succeeds;
    its loop will turn again if the word it expects is no longer there. *)
Definition wakes (p : pc) : Z :=
  match p with
  | WakeNotifs s _ | Submit _ _ _ s _ | SubmitRelease _ _ s _ | WakeWaiters s _ => wbit s
  | _ => 0
  end.
Definition will_wake (p : pc) : Z := match p with LeaveLoop s => wbit s | _ => 0 end.
Definition unsettled (p : pc) : Z :=
  match p with LeaveLoop s => if s =? leave_new_state s then 0 else 1 | _ => 0 end.
(** The generation a waiting thread holds. *)
Definition waited_gen (p : pc) : option Z :=
  match p with WaitAddress g _ | Asleep g _ | WaitCheck g _ _ => Some g | _ => None end.

Definition nonempty {A} (l : list A) : Z := match l with [] => 0 | _ => 1 end.
Definition positive (n : Z) : Z := if n =? 0 then 0 else 1.

(** What was submitted of captured list [k], in order. *)
Definition of_snapshot (k : nat) (l : list (nat * notification)) : list notification :=
  (filter (λ x, x.1 = k) l).*2.

Lemma of_snapshot_app k l1 l2 : of_snapshot k (l1 ++ l2) = of_snapshot k l1 ++ of_snapshot k l2.
Proof. unfold of_snapshot. by rewrite filter_app, fmap_app. Qed.
Lemma of_snapshot_one k j x : of_snapshot k [(j, x)] = if decide (j = k) then [x] else [].
Proof. unfold of_snapshot. cbn. by case_decide. Qed.

Lemma of_snapshot_none k l : (∀ x, (k, x) ∉ l) → of_snapshot k l = [].
Proof.
  induction l as [|[j x] l IH]; intros Hl; [done|]. change ((j, x) :: l) with ([(j, x)] ++ l).
  rewrite of_snapshot_app, of_snapshot_one, decide_False, IH; [done|intros y Hy; apply (Hl y); by right|].
  intros ->. apply (Hl x). left.
Qed.

Lemma bind_nothing {A B} (f : A → list B) l : (∀ i x, l !! i = Some x → f x = []) → l ≫= f = [].
Proof.
  induction l as [|x l IH]; intros Hf; [done|]. cbn. rewrite (Hf 0%nat x) by done. apply IH. intros i. apply (Hf (S i)).
Qed.
(** What all threads hold, after one of them moved. *)
Lemma bind_insert {A B} (f : A → list B) l i x y :
  l !! i = Some x → (<[i := y]> l ≫= f) ++ f x ≡ₚ (l ≫= f) ++ f y.
Proof.
  revert i. induction l as [|z l IH]; intros [|i]; intros Hi; try done.
  - injection Hi as ->. change (<[0%nat := y]> (x :: l)) with (y :: l). cbn. rewrite <- !app_assoc.
    rewrite (Permutation_app_comm (f y)), (Permutation_app_comm (f x) (_ ++ f y)), <- !app_assoc.
    apply Permutation_app_head, Permutation_app_comm.
  - change (<[S i := y]> (z :: l)) with (z :: <[i := y]> l). cbn. rewrite <- !app_assoc. by apply Permutation_app_head, IH.
Qed.

Section invariant.
Context `{Futex}.
Implicit Types st : system.

Definition count st : Z := entered st - left st.
Definition word st : Z := dg_state (dg st).

(** A thread at [p] that waits holds the generation of its start, and while that
    generation lasts the group is not empty and the waiters flag is set. *)
Definition wait_ok st (i : nat) (p : pc) : Prop :=
  ∀ g, waited_gen p = Some g →
    g = u32 (since st i) ∧ 0 ≤ since st i ≤ zeros st ∧ (since st i = zeros st → wbit (word st) = 1 ∧ count st ≠ 0).

Definition wake_pending st : Prop :=
  0 < zsum wakes (threads st) ∨ (wbit (word st) = 1 ∧ 0 < zsum will_wake (threads st)).

Definition sleeper st (i : nat) : Prop :=
  (∃ g timeout, threads st !! i = Some (Asleep g timeout)) ∧ asleep i (dg_address (dg st)) = true.

(** Each captured list is what was submitted of it followed by what one thread
    holds of it, or all submitted. *)
Record snapshots_ok st : Prop := {
  snap_held i p k : threads st !! i = Some p → snapshot p = Some k →
    captured (dg st) !! k = Some (of_snapshot k (submitted (dg st)) ++ held p);
  snap_done k l : captured (dg st) !! k = Some l →
    of_snapshot k (submitted (dg st)) = l ∨ ∃ i p, threads st !! i = Some p ∧ snapshot p = Some k;
  snap_one i j p q k : threads st !! i = Some p → threads st !! j = Some q →
    snapshot p = Some k → snapshot q = Some k → i = j;
  snap_once : concat (captured (dg st)) ≡ₚ (submitted (dg st)).*2 ++ (threads st ≫= held);
  snap_number k x : (k, x) ∈ submitted (dg st) → (k < length (captured (dg st)))%nat;
}.

Record inv (n : nat) st : Prop := {
  inv_threads : length (threads st) = n;
  inv_zeros : 0 ≤ zeros st;
  inv_word : parts (word st) (u32 (zeros st)) (count st) (wbit (word st)) (nbit (word st));
  inv_pushed : pushed st = concat (captured (dg st)) ++ dg_notify (dg st);
  inv_queues : dq_refs (dg st) = zlen (dg_notify (dg st)) + zsum queue_owed (threads st);
  inv_refs : dg_refs (dg st) = positive (count st) + nonempty (dg_notify (dg st)) + zsum owed (threads st);
  inv_notify : nbit (word st) + zsum in_charge (threads st) = nonempty (dg_notify (dg st));
  inv_loops : ∀ i s, threads st !! i = Some (LeaveLoop s) → is_word s;
  inv_wait : ∀ i p, threads st !! i = Some p → wait_ok st i p;
  inv_wake : zeros st < 2 ^ 32 → ∀ i, sleeper st i → since st i < zeros st → wake_pending st;
  inv_live : count st = 0 → wbit (word st) = 1 ∨ nbit (word st) = 1 → 0 < zsum unsettled (threads st);
  inv_snapshots : snapshots_ok st;
}.

Lemma weights_nonneg p : 0 ≤ in_charge p ∧ 0 ≤ wakes p ∧ 0 ≤ will_wake p ∧ 0 ≤ unsettled p.
Proof.
  destruct p; cbn; try lia; try (pose proof (bits_range dg_state0); lia).
  pose proof (bits_range old_state). destruct (old_state =? _); lia.
Qed.
Lemma in_charge_nonneg p : 0 ≤ in_charge p. Proof. apply weights_nonneg. Qed.
Lemma wakes_nonneg p : 0 ≤ wakes p. Proof. apply weights_nonneg. Qed.
Lemma will_wake_nonneg p : 0 ≤ will_wake p. Proof. apply weights_nonneg. Qed.
Lemma unsettled_nonneg p : 0 ≤ unsettled p. Proof. apply weights_nonneg. Qed.

(** The weights of thread [i] are part of the sums. *)
Lemma thread_weights st i p :
  threads st !! i = Some p →
  in_charge p ≤ zsum in_charge (threads st) ∧ wakes p ≤ zsum wakes (threads st) ∧
  will_wake p ≤ zsum will_wake (threads st) ∧ unsettled p ≤ zsum unsettled (threads st).
Proof.
  intros Hi. split_and!; apply (zsum_elem _ _ i); auto using in_charge_nonneg, wakes_nonneg,
    will_wake_nonneg, unsettled_nonneg.
Qed.

(** What a step of thread [i] from [p] to [p'] must show to keep the invariant:
    the equations of the shared state, with the weights of [p] replaced by those
    of [p'], and that it takes nothing from the other threads. *)
Record step_ok (i : nat) (p p' : pc) st st' : Prop := {
  ok_threads : threads st' = <[i := p']> (threads st);
  ok_since : ∀ j, j ≠ i → since st' j = since st j;
  ok_zeros : zeros st ≤ zeros st';
  ok_word : parts (word st') (u32 (zeros st')) (count st') (wbit (word st')) (nbit (word st'));
  ok_pushed : pushed st' = concat (captured (dg st')) ++ dg_notify (dg st');
  ok_queues : dq_refs (dg st') - zlen (dg_notify (dg st')) - queue_owed p'
              = dq_refs (dg st) - zlen (dg_notify (dg st)) - queue_owed p;
  ok_refs : dg_refs (dg st') - positive (count st') - nonempty (dg_notify (dg st')) - owed p'
            = dg_refs (dg st) - positive (count st) - nonempty (dg_notify (dg st)) - owed p;
  ok_notify : nbit (word st') - nonempty (dg_notify (dg st')) + in_charge p'
              = nbit (word st) - nonempty (dg_notify (dg st)) + in_charge p;
  ok_loop : ∀ s, p' = LeaveLoop s → is_word s;
  ok_wait : wait_ok st' i p';
  ok_others : zeros st' = zeros st → wbit (word st) = 1 → count st ≠ 0 →
              wbit (word st') = 1 ∧ count st' ≠ 0;
  ok_asleep : ∀ j, j ≠ i → asleep j (dg_address (dg st')) = true → asleep j (dg_address (dg st)) = true;
  ok_sleep : zeros st' < 2 ^ 32 → (∃ g timeout, p' = Asleep g timeout) → since st' i = zeros st';
  ok_wake : (∃ j, asleep j (dg_address (dg st')) = true) →
            wake_pending st ∨ (zeros st < zeros st' ∧ wbit (word st) = 1) → wake_pending st';
  ok_live : count st' = 0 → wbit (word st') = 1 ∨ nbit (word st') = 1 →
            0 < zsum unsettled (threads st) - unsettled p + unsettled p';
  ok_snapshots : snapshots_ok st → snapshots_ok st';
}.

Lemma step_inv n i p p' st st' :
  inv n st → threads st !! i = Some p → step_ok i p p' st st' → inv n st'.
Proof.
  intros Hinv Hi Hok. destruct Hok as [Ht Hsi Hz Hw Hpu Hq Hr Hno Hlo Hwa Hot Has Hsl Hwk Hli Hsn].
  assert (Hsum : ∀ f, zsum f (threads st') = zsum f (threads st) - f p + f p')
    by (intros f; rewrite Ht; by apply zsum_insert).
  destruct Hinv as [Iln Izr Iw Ip Iq Ir In Il Iwa Iwk Ili Isn]. split.
  - by rewrite Ht, length_insert.
  - lia.
  - done.
  - done.
  - rewrite Hsum. lia.
  - rewrite Hsum. lia.
  - rewrite Hsum. lia.
  - intros j s Hj. rewrite Ht in Hj.
    apply list_lookup_insert_Some in Hj as [(-> & -> & _)|[_ Hj]]; [by apply Hlo|by eapply Il].
  - intros j q Hj. rewrite Ht in Hj.
    apply list_lookup_insert_Some in Hj as [(-> & -> & _)|[Hne Hj]]; [done|].
    intros g Hg. destruct (Iwa j q Hj g Hg) as (H1 & H2 & H3). rewrite Hsi by done.
    split; [done|]. split; [lia|]. intros E. assert (Ez : zeros st' = zeros st) by lia.
    apply Hot; [done|..]; apply H3; lia.
  - intros Hzb j [(g & t & Hj) Hja] Hlt. pose proof Hj as Hj0. rewrite Ht in Hj.
    apply list_lookup_insert_Some in Hj as [(-> & E & _)|[Hne Hj]].
    { exfalso. rewrite Hsl in Hlt; [lia|done|]. exists g, t. congruence. }
    rewrite Hsi in Hlt by done. apply Hwk; [by eauto|].
    destruct (decide (since st j < zeros st)) as [Hlt'|Hge].
    + left. apply (Iwk ltac:(lia) j); [|done]. split; [by eauto|]. by apply Has.
    + right. destruct (Iwa j _ Hj g eq_refl) as (_ & H2 & H3). split; [lia|]. apply H3. lia.
  - intros Hc Hb. rewrite Hsum. by apply Hli.
  - auto.
Qed.

(** A step that submits nothing and leaves what the thread holds of a captured
    list, or ends with it. *)
Lemma snapshots_same st st' i p p' :
  threads st !! i = Some p → threads st' = <[i := p']> (threads st) →
  captured (dg st') = captured (dg st) → submitted (dg st') = submitted (dg st) →
  snapshot p' = snapshot p ∧ held p' = held p ∨ snapshot p' = None ∧ held p = [] →
  snapshots_ok st → snapshots_ok st'.
Proof.
  intros Hi Ht Hca Hsu Hp [Hh Hd Ho Hp1 Hn].
  assert (Hat : ∀ j q k, threads st' !! j = Some q → snapshot q = Some k →
    ∃ q0, threads st !! j = Some q0 ∧ snapshot q0 = Some k ∧ held q0 = held q).
  { intros j q k Hj Hq. rewrite Ht in Hj. apply list_lookup_insert_Some in Hj as [(<- & <- & _)|[_ Hj]]; [|by exists q].
    destruct Hp as [[E1 E2]|[E _]]; [|congruence]. exists p. by rewrite <- E1, <- E2. }
  split; rewrite ?Hca, ?Hsu; [| | | |done].
  - intros j q k Hj Hq. destruct (Hat j q k Hj Hq) as (q0 & Hj0 & Hq0 & <-). by apply (Hh j).
  - intros k l Hl. destruct (Hd k l Hl) as [E|(j & q & Hj & Hq)]; [by left|].
    destruct (decide (j = i)) as [->|Hne].
    + assert (q = p) as -> by congruence. destruct Hp as [[E1 _]|[_ E]].
      * right. exists i, p'. rewrite Ht, list_lookup_insert_eq by (by eapply lookup_lt_Some). by rewrite E1.
      * left. specialize (Hh i p k Hi Hq). rewrite E, app_nil_r in Hh. congruence.
    + right. exists j, q. by rewrite Ht, list_lookup_insert_ne.
  - intros j1 j2 q1 q2 k H1 H2 Hq1 Hq2. destruct (Hat _ _ _ H1 Hq1) as (r1 & H1' & Hr1 & _), (Hat _ _ _ H2 Hq2) as (r2 & H2' & Hr2 & _).
    by apply (Ho j1 j2 r1 r2 k).
  - rewrite Hp1. apply Permutation_app_head. pose proof (bind_insert held _ _ _ p' Hi) as Hb. rewrite <- Ht in Hb.
    assert (E : held p' = held p).
    { destruct Hp as [[_ E]|[E1 E2]]; [done|]. rewrite E2. by destruct p'. }
    rewrite E in Hb. by apply Permutation_app_inv_r in Hb.
Qed.

Lemma without_snapshot p : snapshot p = None → queue_owed p = 0 ∧ held p = [].
Proof. by destruct p. Qed.
Lemma snapshots_apart st st' i p p' :
  threads st !! i = Some p → threads st' = <[i := p']> (threads st) →
  captured (dg st') = captured (dg st) → submitted (dg st') = submitted (dg st) →
  snapshot p = None → snapshot p' = None → snapshots_ok st → snapshots_ok st'.
Proof.
  intros Hi Ht Hca Hsu Hp Hp'. eapply snapshots_same; eauto. left.
  destruct (without_snapshot p Hp) as [_ ->], (without_snapshot p' Hp') as [_ ->]. split; congruence.
Qed.

(** Capturing the list. *)
Lemma snapshots_capture st st' i p p' l :
  threads st !! i = Some p → threads st' = <[i := p']> (threads st) → snapshot p = None →
  snapshot p' = Some (length (captured (dg st))) → held p' = l →
  captured (dg st') = captured (dg st) ++ [l] → submitted (dg st') = submitted (dg st) →
  snapshots_ok st → snapshots_ok st'.
Proof.
  intros Hi Ht Hp Hp' Hl Hca Hsu [Hh Hd Ho Hp1 Hn]. set (m := length (captured (dg st))) in *.
  assert (Hnew : of_snapshot m (submitted (dg st)) = []).
  { apply of_snapshot_none. intros x Hx%Hn. lia. }
  assert (Hold : ∀ j q k, threads st !! j = Some q → snapshot q = Some k → (k < m)%nat).
  { intros j q k Hj Hq. by apply (Hh j) in Hq; [apply lookup_lt_Some in Hq|]. }
  split; rewrite ?Hca, ?Hsu.
  - intros j q k Hj Hq. rewrite Ht in Hj. apply list_lookup_insert_Some in Hj as [(<- & <- & _)|[_ Hj]].
    + rewrite Hp' in Hq. injection Hq as <-. by rewrite Hnew, Hl, list_lookup_middle by done.
    + rewrite lookup_app_l by (by eapply Hold). by apply (Hh j).
  - intros k l' [Hk|[Hge [Ek El]%list_lookup_singleton_Some]]%lookup_app_Some.
    + destruct (Hd k l' Hk) as [|(j & q & Hj & Hq)]; [by left|]. right. exists j, q. rewrite Ht.
      rewrite list_lookup_insert_ne; [done|]. intros ->. congruence.
    + right. exists i, p'. rewrite Ht, list_lookup_insert_eq by (by eapply lookup_lt_Some).
      split; [done|]. rewrite Hp'. f_equal. fold m in Ek, Hge. lia.
  - intros j1 j2 q1 q2 k H1 H2 Hq1 Hq2. rewrite Ht in H1, H2.
    apply list_lookup_insert_Some in H1 as [(<- & <- & _)|[_ H1]], H2 as [(<- & <- & _)|[_ H2]]; [done| | |by apply (Ho j1 j2 q1 q2 k)];
      [pose proof (Hold _ _ _ H2 Hq2)|pose proof (Hold _ _ _ H1 Hq1)]; exfalso; simplify_eq; lia.
  - rewrite concat_app, Hp1. cbn [concat]. rewrite app_nil_r, <- app_assoc. apply Permutation_app_head.
    pose proof (bind_insert held _ _ _ p' Hi) as Hb. rewrite <- Ht, Hl in Hb.
    destruct (without_snapshot p Hp) as [_ E]. by rewrite E, app_nil_r in Hb.
  - intros k x Hx%Hn. rewrite length_app. cbn. lia.
Qed.

(** Submitting the continuation at hand. *)
Lemma snapshots_submit st st' i p p' k x :
  threads st !! i = Some p → threads st' = <[i := p']> (threads st) →
  snapshot p = Some k → snapshot p' = Some k → held p = x :: held p' →
  captured (dg st') = captured (dg st) → submitted (dg st') = submitted (dg st) ++ [(k, x)] →
  snapshots_ok st → snapshots_ok st'.
Proof.
  intros Hi Ht Hp Hp' Hx Hca Hsu [Hh Hd Ho Hp1 Hn].
  assert (Hother : ∀ j, j ≠ k → of_snapshot j (submitted (dg st')) = of_snapshot j (submitted (dg st))).
  { intros j Hj. rewrite Hsu, of_snapshot_app, of_snapshot_one, decide_False by done. by rewrite app_nil_r. }
  split; rewrite ?Hca.
  - intros j q k' Hj Hq. rewrite Ht in Hj. apply list_lookup_insert_Some in Hj as [(<- & <- & _)|[Hne Hj]].
    + rewrite Hp' in Hq. injection Hq as <-. rewrite Hsu, of_snapshot_app, of_snapshot_one, decide_True by done.
      rewrite (Hh i p k Hi Hp), Hx, <- app_assoc. done.
    + rewrite Hother; [by apply (Hh j)|]. intros ->. by apply Hne, (Ho i j p q k).
  - intros k' l Hl. destruct (decide (k' = k)) as [->|Hne].
    + right. exists i, p'. by rewrite Ht, list_lookup_insert_eq by (by eapply lookup_lt_Some).
    + rewrite Hother by done. destruct (Hd k' l Hl) as [|(j & q & Hj & Hq)]; [by left|]. right. exists j, q. rewrite Ht.
      rewrite list_lookup_insert_ne; [done|]. intros ->. congruence.
  - intros j1 j2 q1 q2 k' H1 H2 Hq1 Hq2. rewrite Ht in H1, H2.
    apply list_lookup_insert_Some in H1 as [(<- & <- & _)|[_ H1]], H2 as [(<- & <- & _)|[_ H2]]; [done| | |by apply (Ho j1 j2 q1 q2 k')];
      [apply (Ho i j2 p q2 k)|apply (Ho j1 i q1 p k)]; auto; congruence.
  - rewrite Hp1, Hsu, fmap_app, <- app_assoc. apply Permutation_app_head. cbn.
    pose proof (bind_insert held _ _ _ p' Hi) as Hb. rewrite <- Ht, Hx in Hb.
    rewrite <- Permutation_middle in Hb. apply (Permutation_app_inv_r (held p')). cbn. by rewrite Hb.
  - intros k' y. rewrite Hsu. intros [Hy%Hn|[= -> ->]%list_elem_of_singleton]%elem_of_app; [done|].
    specialize (Hh i p k Hi Hp). by apply lookup_lt_Some in Hh.
Qed.

(** The state after a step inside an operation. *)
Definition continued st (i : nat) (p' : pc) (d : dispatch_group_s) : system :=
  {| dg := d; threads := <[i := p']> (threads st); since := since st; entered := entered st;
     left := left st; zeros := zeros st; pushed := pushed st; crashed := false |}.

(** Sums over the threads after thread [i] moved. *)
Lemma pending_mono st st' i p p' :
  threads st !! i = Some p → threads st' = <[i := p']> (threads st) →
  wakes p ≤ wakes p' → will_wake p ≤ will_wake p' ∨ 0 < wakes p' →
  (wbit (word st) = 1 → wbit (word st') = 1) → wake_pending st → wake_pending st'.
Proof.
  intros Hi Ht Hw Hl Hb. unfold wake_pending. rewrite Ht, !(zsum_insert _ _ _ _ _ Hi).
  destruct (thread_weights st i p Hi) as (_ & Hws & Hls & _). pose proof (wakes_nonneg p').
  pose proof (will_wake_nonneg p'). intros [Hp|[Hp Hq]]; [left; lia|].
  destruct Hl as [Hl|Hl]; [right|left]; [split; [auto|]|]; lia.
Qed.

(** A step that leaves the state word and the list of notifications alone. *)
Lemma calm_ok n st i p p' d :
  inv n st → threads st !! i = Some p →
  dg_state d = word st → dg_notify d = dg_notify (dg st) → captured d = captured (dg st) →
  dq_refs d - queue_owed p' = dq_refs (dg st) - queue_owed p → dg_refs d - owed p' = dg_refs (dg st) - owed p →
  in_charge p' = in_charge p → (∀ s, p' = LeaveLoop s → is_word s) →
  (∀ g, waited_gen p' = Some g → waited_gen p = Some g) →
  (∀ j, j ≠ i → asleep j (dg_address d) = true → asleep j (dg_address (dg st)) = true) →
  (zeros st < 2 ^ 32 → (∃ g timeout, p' = Asleep g timeout) → since st i = zeros st) →
  ((∃ j, asleep j (dg_address d) = true) → wake_pending st → wake_pending (continued st i p' d)) →
  (count st = 0 → wbit (word st) = 1 ∨ nbit (word st) = 1 →
    0 < zsum unsettled (threads st) → 0 < zsum unsettled (threads st) - unsettled p + unsettled p') →
  (snapshots_ok st → snapshots_ok (continued st i p' d)) →
  step_ok i p p' st (continued st i p' d).
Proof.
  intros Hinv Hi Hs Hl Hca Hq Hr Hc Hlo Hg Has Hsl Hwk Hli Hsn.
  pose proof Hinv as [_ _ Iw Ip Iq _ _ _ Iwa _ Ili _].
  unfold continued in *.
  split; unfold wait_ok, word, count in *; cbn [dg threads since entered left zeros pushed] in *;
    rewrite ?Hs, ?Hl, ?Hca; auto; try lia.
  - intros g Hg'. by apply (Iwa i p Hi), Hg.
  - intros Hj [Hp|[? _]]; [by apply Hwk|lia].
Qed.

(** One whose thread has no captured list, before and after. *)
Lemma quiet_ok n st i p p' d :
  inv n st → threads st !! i = Some p →
  dg_state d = word st → dg_notify d = dg_notify (dg st) → captured d = captured (dg st) →
  submitted d = submitted (dg st) → snapshot p = None → snapshot p' = None →
  dq_refs d = dq_refs (dg st) → dg_refs d - owed p' = dg_refs (dg st) - owed p →
  in_charge p' = in_charge p → (∀ s, p' = LeaveLoop s → is_word s) →
  (∀ g, waited_gen p' = Some g → waited_gen p = Some g) →
  (∀ j, j ≠ i → asleep j (dg_address d) = true → asleep j (dg_address (dg st)) = true) →
  (zeros st < 2 ^ 32 → (∃ g timeout, p' = Asleep g timeout) → since st i = zeros st) →
  ((∃ j, asleep j (dg_address d) = true) → wake_pending st → wake_pending (continued st i p' d)) →
  (count st = 0 → wbit (word st) = 1 ∨ nbit (word st) = 1 →
    0 < zsum unsettled (threads st) → 0 < zsum unsettled (threads st) - unsettled p + unsettled p') →
  step_ok i p p' st (continued st i p' d).
Proof.
  intros Hinv Hi Hs Hl Hca Hsu Hp Hp' Hq. intros.
  destruct (without_snapshot p Hp) as [E1 E2], (without_snapshot p' Hp') as [E3 E4].
  eapply calm_ok; eauto; try lia. by eapply snapshots_apart.
Qed.

Lemma quiet_pending st i p p' d :
  threads st !! i = Some p → dg_state d = word st → wakes p ≤ wakes p' →
  will_wake p ≤ will_wake p' ∨ 0 < wakes p' → wake_pending st → wake_pending (continued st i p' d).
Proof.
  intros Hi Hs Hw Hl. apply (pending_mono _ (continued st i p' d) i p p' Hi eq_refl Hw Hl).
  unfold word, continued. cbn [dg]. by rewrite Hs.
Qed.

(** Steps whose thread carries no duty towards others. *)
Definition dutiless (p : pc) : Prop := wakes p = 0 ∧ will_wake p = 0 ∧ unsettled p = 0 ∧ ∀ s, p ≠ LeaveLoop s.

Lemma dutiless_ok n st i p p' d :
  inv n st → threads st !! i = Some p → dutiless p → dutiless p' →
  dg_state d = word st → dg_notify d = dg_notify (dg st) → captured d = captured (dg st) →
  submitted d = submitted (dg st) → snapshot p = None → snapshot p' = None →
  dq_refs d = dq_refs (dg st) → dg_refs d - owed p' = dg_refs (dg st) - owed p →
  in_charge p' = in_charge p →
  (∀ g, waited_gen p' = Some g → waited_gen p = Some g) →
  (∀ j, j ≠ i → asleep j (dg_address d) = true → asleep j (dg_address (dg st)) = true) →
  (zeros st < 2 ^ 32 → (∃ g timeout, p' = Asleep g timeout) → since st i = zeros st) →
  step_ok i p p' st (continued st i p' d).
Proof.
  intros Hinv Hi (Hd1 & Hd2 & Hd3 & _) (Hd1' & Hd2' & Hd3' & Hd4') Hs Hl Hca Hsub Hp Hp' Hq Hr Hc Hg Has Hsl.
  eapply quiet_ok; eauto; try lia.
  - intros s E. by destruct (Hd4' s).
  - intros _. apply (quiet_pending _ i p); auto; lia.
Qed.

Ltac dutiless := done || (split_and!; cbn; auto; discriminate).

Lemma enter_retain_ok n st i :
  inv n st → threads st !! i = Some EnterRetain →
  step_ok i EnterRetain Outside st (continued st i Outside (add_refs (dg st) 1)).
Proof. intros Hinv Hi. eapply dutiless_ok; eauto; try dutiless; cbn; try lia; try done. by intros _ (g & t & E). Qed.

Lemma wake_release_ok n st i refs :
  inv n st → threads st !! i = Some (WakeRelease refs) →
  step_ok i (WakeRelease refs) Outside st (continued st i Outside (add_refs (dg st) (- refs))).
Proof. intros Hinv Hi. eapply dutiless_ok; eauto; try dutiless; cbn; try lia; try done. by intros _ (g & t & E). Qed.

Lemma notify_retain_ok n st i :
  inv n st → threads st !! i = Some NotifyRetain →
  step_ok i NotifyRetain NotifySet st (continued st i NotifySet (add_refs (dg st) 1)).
Proof. intros Hinv Hi. eapply dutiless_ok; eauto; try dutiless; cbn; try lia; try done. by intros _ (g & t & E). Qed.

Lemma wait_check_ok n st i g timeout b :
  inv n st → threads st !! i = Some (WaitCheck g timeout b) →
  let p' := next (wait_check (dg st) g timeout b) in
  wait_check (dg st) g timeout b ≠ Crash ∧
  step_ok i (WaitCheck g timeout b) p' st (continued st i p' (dg st)).
Proof.
  intros Hinv Hi. unfold wait_check.
  destruct (negb _); [|destruct b]; (split; [done|]); cbn [next];
    eapply dutiless_ok; eauto; try dutiless; cbn; try lia; try done; by intros _ (g' & t & E).
Qed.

Lemma sleeping_ok n st i g timeout ev d out :
  inv n st → threads st !! i = Some (Asleep g timeout) →
  sleeping (dg st) i g timeout ev = Some (d, out) →
  out ≠ Crash ∧ step_ok i (Asleep g timeout) (next out) st (continued st i (next out) d).
Proof.
  intros Hinv Hi Hs.
  assert (Hd : out ≠ Crash ∧ (∃ b, next out = WaitCheck g timeout b) ∧
    (d = dg st ∨ d = set_address (dg st) (futex_cancel i (dg_address (dg st))))).
  { unfold sleeping in Hs. destruct ev, timeout; try destruct (asleep _ _); try discriminate;
      injection Hs as <- <-; split_and!; cbn; eauto; discriminate. }
  destruct Hd as (Hc & (b & ->) & Hd). split; [done|].
  destruct Hd as [-> | ->]; eapply dutiless_ok; eauto; try dutiless; cbn; try lia; try done;
    try (by intros _ (g' & t & E)).
  intros j Hj. rewrite asleep_cancel, decide_False by done. done.
Qed.

Lemma wait_address_ok n st i g timeout d out :
  inv n st → threads st !! i = Some (WaitAddress g timeout) →
  wait_address (dg st) i g timeout = (d, out) →
  out ≠ Crash ∧ step_ok i (WaitAddress g timeout) (next out) st (continued st i (next out) d).
Proof.
  intros Hinv Hi. unfold wait_address.
  destruct (Z.eqb_spec g (_dg_state_gen (dg_state (dg st)))) as [E|E]; intros [= <- <-]; (split; [done|]);
    eapply dutiless_ok; eauto; try dutiless; cbn; try lia; try done.
  - intros j Hj. rewrite asleep_sleep, decide_False by done. done.
  - intros Hz _. destruct Hinv as [_ Hz0 [_ Hg _ _ _] _ _ _ _ _ Hw _ _].
    destruct (Hw i _ Hi g eq_refl) as (H1 & H2 & _). unfold word in Hg.
    rewrite Hg, H1 in E. unfold u32 in E. rewrite !Z.mod_small in E by lia. done.
  - by intros _ (g0 & t & E0).
Qed.

Lemma wake_waiters_ok n st i s refs d out :
  inv n st → threads st !! i = Some (WakeWaiters s refs) →
  wake_waiters (dg st) s refs = (d, out) →
  out ≠ Crash ∧ step_ok i (WakeWaiters s refs) (next out) st (continued st i (next out) d).
Proof.
  intros Hinv Hi. unfold wake_waiters. rewrite has_waiters.
  set (p' := next (if refs =? 0 then Return 0 else Goto (WakeRelease refs))).
  assert (Hp : dutiless p' ∧ owed p' = refs ∧ in_charge p' = 0 ∧ waited_gen p' = None).
  { subst p'. destruct (Z.eqb_spec refs 0); cbn; split_and!; auto; try dutiless. }
  intros [= <- <-]. fold p'. destruct Hp as ((Hp1 & Hp2 & Hp3 & Hp4) & Ho & Hc & Hg).
  split; [by destruct (refs =? 0)|].
  assert (Hs' : snapshot p' = None) by (subst p'; by destruct (refs =? 0)).
  eapply quiet_ok; eauto; try (by destruct (wbit s =? 1)).
  - destruct (wbit s =? 1); cbn; lia.
  - intros s' E. by destruct (Hp4 s').
  - by rewrite Hg.
  - intros j Hj. destruct (wbit s =? 1); [|done]. cbn. by rewrite asleep_wake_all.
  - intros _ (g & t & E). by rewrite E in Hg.
  - intros [j Hj]. destruct (Z.eqb_spec (wbit s) 1) as [E|E].
    + cbn in Hj. by rewrite asleep_wake_all in Hj.
    + apply (quiet_pending _ i (WakeWaiters s refs)); auto; cbn [wakes will_wake _dispatch_group_wake]; try lia.
      pose proof (bits_range s). lia.
  - cbn. lia.
Qed.

Lemma wake_notifs_ok n st i s refs d out :
  inv n st → threads st !! i = Some (WakeNotifs s refs) →
  wake_notifs (dg st) s refs = Some (d, out) →
  out ≠ Crash ∧ step_ok i (WakeNotifs s refs) (next out) st (continued st i (next out) d).
Proof.
  intros Hinv Hi. unfold wake_notifs. rewrite has_notifs. pose proof (bits_range s) as Hbs.
  destruct (Z.eqb_spec (nbit s) 1) as [E|E].
  - destruct (dg_notify (dg st)) as [|x l] eqn:Hl; [done|]. intros [= <- <-]. split; [done|]. cbn [next].
    pose proof Hinv as [_ _ Iw Ip Iq Ir In _ _ _ Ili].
    destruct (thread_weights st i _ Hi) as (Hc & _ & _ & _). cbn [in_charge] in Hc.
    set (p' := Submit _ _ _ _ _). set (d := capture_snapshot _).
    unfold continued. split; cbn [dg threads since entered left zeros pushed]; auto.
    + lia.
    + unfold d, capture_snapshot. cbn [captured dg_notify]. rewrite Ip, Hl, concat_app. cbn [concat]. by rewrite !app_nil_r.
    + unfold d, p', capture_snapshot. cbn [dq_refs dg_notify queue_owed]. rewrite Hl. unfold zlen. cbn. lia.
    + unfold d, capture_snapshot, count. cbn [dg_refs dg_notify nonempty owed entered left]. rewrite Hl. cbn [nonempty p' owed]. lia.
    + unfold word, d, capture_snapshot. cbn [dg_state dg_notify nonempty in_charge dg]. rewrite Hl in *. cbn [nonempty p' in_charge] in *.
      unfold word in *. lia.
    + done.
    + done.
    + by intros _ (g & t & E').
    + intros _ [Hp|[? _]]; [|lia]. apply (pending_mono st _ i (WakeNotifs s refs) p');
        auto; cbn [p' wakes will_wake _dispatch_group_wake]; try lia.
    + intros Hc0 Hb. cbn [unsettled]. rewrite Z.sub_0_r, Z.add_0_r. by apply Ili.
    + apply (snapshots_capture _ _ i (WakeNotifs s refs) p' (x :: l)); try done. cbn. by rewrite Hl.
  - intros [= <- <-]. split; [done|]. cbn [next]. eapply quiet_ok; eauto; cbn; try lia; try done.
    + by intros _ (g & t & E').
    + intros _. apply (quiet_pending _ i (WakeNotifs s refs)); auto; cbn [wakes will_wake _dispatch_group_wake]; lia.
Qed.

(** The steps of the loop leave everything to others as it is. *)
Lemma submitting_ok n st i p p' d :
  inv n st → threads st !! i = Some p → is_Some (snapshot p) →
  dg_state d = word st → dg_notify d = dg_notify (dg st) → captured d = captured (dg st) →
  dg_address d = dg_address (dg st) →
  dq_refs d - queue_owed p' = dq_refs (dg st) - queue_owed p → dg_refs d - owed p' = dg_refs (dg st) - owed p →
  in_charge p' = 0 → wakes p' = wakes p → will_wake p' = 0 → unsettled p' = 0 → waited_gen p' = None →
  (∀ s, p' ≠ LeaveLoop s) → (snapshots_ok st → snapshots_ok (continued st i p' d)) →
  step_ok i p p' st (continued st i p' d).
Proof.
  intros Hinv Hi Hp Hs Hl Hca Had Hq Hr Hc Hw Hww Hu Hg Hlo Hsn.
  assert (Hown : in_charge p = 0 ∧ will_wake p = 0 ∧ unsettled p = 0) by (destruct p; by destruct Hp).
  destruct Hown as (E1 & E2 & E3). eapply calm_ok; eauto; try congruence.
  - intros _ (g & t & E). by rewrite E in Hg.
  - intros _. apply (quiet_pending _ i p); auto; lia.
  - lia.
Qed.

Lemma submit_ok n st i k x l s refs :
  inv n st → threads st !! i = Some (Submit k x l s refs) →
  step_ok i (Submit k x l s refs) (SubmitRelease k l s refs) st
    (continued st i (SubmitRelease k l s refs) (continuation_async (dg st) k x)).
Proof.
  intros Hinv Hi. eapply submitting_ok; eauto; try done.
  by apply (snapshots_submit _ (continued _ _ _ _) i (Submit k x l s refs) (SubmitRelease k l s refs) k x).
Qed.

Lemma submit_release_ok n st i k l s refs d out :
  inv n st → threads st !! i = Some (SubmitRelease k l s refs) → submit_release (dg st) k l s refs = (d, out) →
  out ≠ Crash ∧ step_ok i (SubmitRelease k l s refs) (next out) st (continued st i (next out) d).
Proof.
  intros Hinv Hi [= <- <-]. split; [done|]. cbn [next].
  eapply submitting_ok; eauto; try (by destruct l); [destruct l; cbn; unfold zlen; cbn; lia|].
  eapply (snapshots_same _ _ i (SubmitRelease k l s refs)); try done. destruct l; [right|left]; done.
Qed.

Lemma unsettled_live s : is_word s → _dg_state_value s = 0 → wbit s = 1 ∨ nbit s = 1 → unsettled (LeaveLoop s) = 1.
Proof.
  intros Hs H0 Hb. cbn. destruct (Z.eqb_spec s (leave_new_state s)) as [E|]; [|done].
  apply leave_settled in E as [Hn Hw]; [|done]. specialize (Hw H0). lia.
Qed.

Lemma leave_loop_ok n st i s d out :
  inv n st → threads st !! i = Some (LeaveLoop s) → leave_loop (dg st) s = (d, out) →
  out ≠ Crash ∧ step_ok i (LeaveLoop s) (next out) st (continued st i (next out) d).
Proof.
  intros Hinv Hi. unfold leave_loop. pose proof Hinv as [_ _ Iw Ip Iq Ir In Il Iwa _ Ili].
  pose proof (Il i s Hi) as Hs. pose proof (bits_range s) as Hbs.
  destruct (Z.eqb_spec s (leave_new_state s)) as [E|E]; [|destruct (Z.eqb_spec (dg_state (dg st)) s) as [E2|E2]];
    intros [= <- <-]; (split; [done|]); cbn [next]; unfold _dispatch_group_wake.
  - (* nothing to clear *)
    pose proof E as [Hn0 Hw0]%leave_settled; [|done].
    eapply quiet_ok; eauto; cbn; try lia; try done; try (by intros _ (g & t & E')).
    + intros _. apply (quiet_pending _ i (LeaveLoop s)); auto; cbn [wakes will_wake _dispatch_group_wake]; lia.
    + rewrite (proj2 (Z.eqb_eq _ _) E). lia.
  - (* exchanged *)
    pose proof (leave_new_parts _ _ _ _ _ Iw) as Hp. unfold word in Hp at 1. rewrite E2 in Hp.
    unfold continued. split; cbn [dg threads since entered left zeros pushed]; auto; try done.
    + unfold word, count. cbn [dg set_state dg_state entered left zeros].
      destruct Hp as [H1 H2 H3 H4 H5]. split; done.
    + unfold word. cbn [dg set_state dg_state dg_notify in_charge]. destruct Hp as [_ _ _ _ ->]. rewrite E2. lia.
    + intros _ Hw Hc. unfold word, count. cbn [dg set_state dg_state entered left].
      destruct Hp as [_ _ _ Hpw _]. rewrite Hpw, decide_False by done. done.
    + by intros _ (g & t & E').
    + intros _ [[Hw|[Hw Hl]]|[? _]]; [| |lia]; left; cbn [threads];
        rewrite (zsum_insert _ _ _ _ _ Hi); cbn [wakes _dispatch_group_wake]; [lia|].
      unfold word in Hw. rewrite E2 in Hw. destruct (thread_weights st i _ Hi) as (_ & Hws & _). cbn in Hws. lia.
    + unfold word, count. cbn [dg set_state dg_state entered left]. destruct Hp as [_ _ _ Hpw ->].
      rewrite Hpw. unfold count. intros ->. rewrite decide_True by done. lia.
    + by eapply snapshots_apart.
  - (* another thread changed the word *)
    destruct (thread_weights st i _ Hi) as (_ & _ & Hls & _). cbn [will_wake] in Hls.
    pose proof Iw as [Hwd _ Hv _ _].
    unfold continued. split; cbn [dg threads since entered left zeros pushed]; auto; try done.
    + intros s' [= <-]. exact Hwd.
    + by intros _ (g & t & E').
    + intros _ [[Hw|[Hw Hl]]|[? _]]; [left|right|lia]; cbn [threads];
        rewrite (zsum_insert _ _ _ _ _ Hi); cbn [wakes will_wake _dispatch_group_wake]; [lia|].
      split; [done|]. fold (word st). lia.
    + intros Hc Hb. unfold count, word in Hc, Hb. cbn [dg entered left] in Hc, Hb.
      rewrite (unsettled_live (dg_state (dg st))); [|done|by rewrite <- Hc|done].
      destruct (thread_weights st i _ Hi) as (_ & _ & _ & Hu). lia.
    + by eapply snapshots_apart.
Qed.

Lemma notify_set_ok n st i d out :
  inv n st → threads st !! i = Some NotifySet → notify_set (dg st) = (d, out) →
  out ≠ Crash ∧ step_ok i NotifySet (next out) st (continued st i (next out) d).
Proof.
  intros Hinv Hi. unfold notify_set. pose proof Hinv as [_ _ Iw Ip Iq Ir In Il Iwa _ Ili].
  pose proof (set_notifs_parts _ _ _ _ _ Iw) as Hp. unfold word in Hp at 1.
  pose proof (zsum_elem in_charge _ _ _ in_charge_nonneg Hi) as Hch. cbn [in_charge] in Hch.
  pose proof (bits_range (word st)) as Hbs.
  assert (Hne : nbit (word st) = 0) by (destruct (dg_notify (dg st)); cbn [nonempty] in *; lia).
  destruct (Z.eqb_spec (u32 (dg_state (dg st))) 0) as [E|E]; intros [= <- <-]; (split; [done|]);
    cbn [next]; unfold _dispatch_group_wake.
  - eapply quiet_ok; eauto; cbn; try lia; try done; try (by intros _ (g & t & E')).
    + by destruct Hp as [_ _ _ _ ->].
    + intros _. apply (quiet_pending _ i NotifySet); auto; cbn [wakes will_wake _dispatch_group_wake]; try lia.
      destruct Hp as [_ _ _ -> _]. lia.
  - unfold continued. split; cbn [dg threads since entered left zeros pushed]; auto; try done.
    + unfold word, count. cbn [dg set_state dg_state entered left zeros]. destruct Hp as [H1 H2 H3 H4 H5].
      split; done.
    + unfold word in *. cbn [dg set_state dg_state dg_notify in_charge]. destruct Hp as [_ _ _ _ ->]. lia.
    + unfold word. cbn [dg set_state dg_state]. destruct Hp as [_ _ _ -> _]. done.
    + by intros _ (g & t & E').
    + intros _ [Hw|[? _]]; [|lia]. apply (pending_mono st _ i NotifySet Outside); auto; cbn [wakes will_wake _dispatch_group_wake]; try lia.
      unfold word. cbn [dg set_state dg_state]. by destruct Hp as [_ _ _ -> _].
    + intros Hc _. cbn [unsettled]. rewrite Z.sub_0_r, Z.add_0_r. apply Ili; [done|].
      destruct (decide (u32 (word st) = 0)) as [E0|E0]; [done|]. rewrite bits_zero in E0.
      destruct Iw as [_ _ Hv _ _]. rewrite Hv in E0. unfold count in *. cbn in Hc. lia.
    + by eapply snapshots_apart.
Qed.

(** *** The first steps of the operations *)

Lemma old_value_0 s : (Z.land (u32 s) DISPATCH_GROUP_VALUE_MASK =? 0) = (_dg_state_value s =? 0).
Proof. by rewrite field_of_bits, value_is_0. Qed.
Lemma old_value_max s :
  (Z.land (u32 s) DISPATCH_GROUP_VALUE_MASK =? DISPATCH_GROUP_VALUE_MAX) = (_dg_state_value s =? 2 ^ 30 - 1).
Proof.
  rewrite field_of_bits, value_field. unfold DISPATCH_GROUP_VALUE_MAX, DISPATCH_GROUP_VALUE_INTERVAL.
  pose proof (value_range s). case_decide; zcases.
Qed.
Lemma old_value_1 s :
  (u32 (Z.land s DISPATCH_GROUP_VALUE_MASK) =? DISPATCH_GROUP_VALUE_1) = (_dg_state_value s =? 1).
Proof.
  rewrite u32_field, value_field. unfold DISPATCH_GROUP_VALUE_1, DISPATCH_GROUP_VALUE_MASK.
  pose proof (value_range s). case_decide; zcases.
Qed.

(** An operation begins on the state word: it keeps the waiters flag, and when it
    empties the group its thread goes to the loop that clears the flags. *)
Lemma start_ok n st st' i p' :
  inv n st → threads st !! i = Some Outside →
  threads st' = <[i := p']> (threads st) → (∀ j, j ≠ i → since st' j = since st j) → zeros st ≤ zeros st' →
  dg_address (dg st') = dg_address (dg st) →
  parts (word st') (u32 (zeros st')) (count st') (wbit (word st')) (nbit (word st')) →
  captured (dg st') = captured (dg st) → submitted (dg st') = submitted (dg st) → snapshot p' = None →
  pushed st' = concat (captured (dg st')) ++ dg_notify (dg st') →
  dq_refs (dg st') - zlen (dg_notify (dg st')) = dq_refs (dg st) - zlen (dg_notify (dg st)) →
  dg_refs (dg st') - positive (count st') - nonempty (dg_notify (dg st')) - owed p'
    = dg_refs (dg st) - positive (count st) - nonempty (dg_notify (dg st)) →
  nbit (word st') - nonempty (dg_notify (dg st')) + in_charge p' = nbit (word st) - nonempty (dg_notify (dg st)) →
  (∀ s, p' = LeaveLoop s → is_word s) → wait_ok st' i p' →
  (zeros st' = zeros st → count st ≠ 0 → count st' ≠ 0) → (∀ g t, p' ≠ Asleep g t) →
  (wbit (word st) = 1 → wbit (word st') = 1) →
  (zeros st < zeros st' → p' = LeaveLoop (word st')) →
  (count st' = 0 → zeros st < zeros st' ∨ count st = 0 ∧ word st' = word st) →
  step_ok i Outside p' st st'.
Proof.
  intros Hinv Hi Ht Hsi Hz Had Hp Hca Hsu Hsp Hpu Hq Hr Hno Hlo Hwa Hot Hsl Hw Hz' Hli.
  pose proof Hinv as [_ _ Iw Ip Iq Ir In Il Iwa _ Ili]. destruct (without_snapshot p' Hsp) as [Hqo _].
  split; auto; try (cbn; lia); try by rewrite Had.
  - intros _ (g & t & E). by destruct (Hsl g t).
  - intros _ [Hpend|[Hlt Hwb]].
    + apply (pending_mono st _ i Outside p'); auto; apply weights_nonneg || (left; apply weights_nonneg).
    + right. split; [auto|]. rewrite Ht, (zsum_insert _ _ _ _ _ Hi), (Hz' Hlt). cbn [will_wake].
      rewrite Hw by done. pose proof (zsum_nonneg will_wake (threads st) will_wake_nonneg). lia.
  - intros Hc Hb. pose proof (unsettled_nonneg p'). cbn [unsettled]. destruct (Hli Hc) as [Hlt|[Hc0 Hww]].
    + rewrite (Hz' Hlt) in *. destruct Hp as [Hwd _ Hv _ _]. rewrite unsettled_live; [|done|congruence|done].
      pose proof (zsum_nonneg unsettled (threads st) unsettled_nonneg). lia.
    + rewrite Hww in Hb. specialize (Ili Hc0 Hb). lia.
  - by eapply snapshots_apart.
Qed.

Lemma enter_ok n st i d out :
  inv n st → threads st !! i = Some Outside → dispatch_group_enter (dg st) = (d, out) → out ≠ Crash →
  step_ok i Outside (next out) st
    {| dg := d; threads := <[i := next out]> (threads st); since := since st; entered := entered st + 1;
       left := left st; zeros := zeros st; pushed := pushed st; crashed := crash out |}.
Proof.
  intros Hinv Hi. unfold dispatch_group_enter. rewrite old_value_0, old_value_max.
  pose proof Hinv as [_ _ Iw Ip Iq Ir In Il Iwa _ Ili]. pose proof Iw as [Hwd _ Hv _ _].
  fold (word st) in *. rewrite Hv. pose proof (value_range (word st)) as Hr. rewrite Hv in Hr.
  intros Hout Hc. assert (Hlt : count st < 2 ^ 30 - 1).
  { destruct (Z.eqb_spec (count st) 0), (Z.eqb_spec (count st) (2 ^ 30 - 1)); try lia; congruence. }
  pose proof (enter_parts _ _ _ _ _ Iw Hlt) as Hp.
  replace (count st =? 2 ^ 30 - 1) with false in Hout by zcases. pose proof Hp as [_ _ _ Hpw Hpn].
  assert (Hd : d = set_state (dg st) (word st - u32 (word st) + u32 (u32 (word st) - 4)) ∧
    next out = if count st =? 0 then EnterRetain else Outside).
  { destruct (count st =? 0); injection Hout as <- <-; done. }
  destruct Hd as [-> ->]. set (st' := Build_system _ _ _ _ _ _ _ _).
  assert (Hcnt : count st' = count st + 1) by (unfold count; cbn; lia).
  apply (start_ok n); auto; rewrite ?Hcnt; try done; try lia.
  - unfold word. cbn [st' dg set_state dg_state]. by rewrite Hpw, Hpn.
  - by destruct (count st =? 0).
  - change (dg_refs (dg st')) with (dg_refs (dg st)). change (dg_notify (dg st')) with (dg_notify (dg st)).
    unfold positive. destruct (Z.eqb_spec (count st) 0), (Z.eqb_spec (count st + 1) 0); cbn; lia.
  - change (dg_notify (dg st')) with (dg_notify (dg st)). unfold word at 1. cbn [st' dg set_state dg_state].
    rewrite Hpn. destruct (count st =? 0); cbn; lia.
  - intros s. by destruct (count st =? 0).
  - intros g. by destruct (count st =? 0).
  - intros g t. by destruct (count st =? 0).
  - intros Hw. unfold word. cbn [st' dg set_state dg_state]. by rewrite Hpw.
  - intros Hlt'. cbn in Hlt'. lia.
Qed.

Lemma leave_ok n st i d out :
  inv n st → threads st !! i = Some Outside → dispatch_group_leave (dg st) = (d, out) → out ≠ Crash →
  step_ok i Outside (next out) st
    {| dg := d; threads := <[i := next out]> (threads st); since := since st; entered := entered st;
       left := left st + 1; zeros := zeros st + match out with Goto _ => 1 | _ => 0 end;
       pushed := pushed st; crashed := crash out |}.
Proof.
  intros Hinv Hi. unfold dispatch_group_leave. rewrite old_value_1, u32_field, value_is_0.
  pose proof Hinv as [_ Hz0 Iw Ip Iq Ir In Il Iwa _ Ili]. pose proof Iw as [Hwd _ Hv _ _].
  fold (word st) in *. rewrite Hv. pose proof (value_range (word st)) as Hr. rewrite Hv in Hr.
  intros Hout Hc. assert (Hge : 1 ≤ count st).
  { destruct (Z.eqb_spec (count st) 1), (Z.eqb_spec (count st) 0); try lia; congruence. }
  pose proof (leave_parts _ _ _ _ _ Iw Hge) as Hp.
  replace (count st =? 0) with false in Hout by zcases.
  set (w := u64 (word st + 4)) in *. change (u64 (word st + DISPATCH_GROUP_VALUE_INTERVAL)) with w in Hout.
  pose proof Hp as [Hwd' _ _ Hpw Hpn].
  assert (Hd : d = set_state (dg st) w ∧ next out = (if count st =? 1 then LeaveLoop w else Outside) ∧
    match out with Goto _ => 1 | _ => 0 end = if count st =? 1 then 1 else 0).
  { destruct (count st =? 1); injection Hout as <- <-; done. }
  destruct Hd as (-> & -> & ->). set (st' := Build_system _ _ _ _ _ _ _ _).
  assert (Hcnt : count st' = count st - 1) by (unfold count; cbn; lia).
  assert (Hz : zeros st' = zeros st + if count st =? 1 then 1 else 0) by done.
  assert (Hgen : u32 (zeros st') = if decide (count st = 1) then u32 (u32 (zeros st) + 1) else u32 (zeros st)).
  { rewrite Hz. destruct (Z.eqb_spec (count st) 1) as [E|E].
    - rewrite decide_True by done. unfold u32. by rewrite Zplus_mod_idemp_l.
    - rewrite decide_False by done. by rewrite Z.add_0_r. }
  apply (start_ok n); auto; rewrite ?Hcnt; try done.
  - rewrite Hz. destruct (count st =? 1); lia.
  - rewrite Hgen. change (word st') with w. by rewrite Hpw, Hpn.
  - by destruct (count st =? 1).
  - change (dg_refs (dg st')) with (dg_refs (dg st)). change (dg_notify (dg st')) with (dg_notify (dg st)).
    unfold positive. destruct (Z.eqb_spec (count st) 1), (Z.eqb_spec (count st) 0), (Z.eqb_spec (count st - 1) 0);
      cbn; lia.
  - change (dg_notify (dg st')) with (dg_notify (dg st)). change (word st') with w. rewrite Hpn.
    destruct (count st =? 1); cbn; lia.
  - intros s. destruct (count st =? 1); [|done]. by intros [= <-].
  - intros g. by destruct (count st =? 1).
  - rewrite Hz. destruct (Z.eqb_spec (count st) 1); lia.
  - intros g t. by destruct (count st =? 1).
  - intros Hw. change (word st') with w. by rewrite Hpw.
  - rewrite Hz. destruct (count st =? 1); [done|lia].
  - rewrite Hz. intros H0. destruct (Z.eqb_spec (count st) 1); [|lia]. by left; lia.
Qed.

Lemma wait_start_ok n st i timeout d out :
  inv n st → threads st !! i = Some Outside → dispatch_group_wait (dg st) timeout = (d, out) →
  out ≠ Crash ∧ step_ok i Outside (next out) st
    {| dg := d; threads := <[i := next out]> (threads st);
       since := λ j, if decide (j = i) then zeros st else since st j; entered := entered st;
       left := left st; zeros := zeros st; pushed := pushed st; crashed := crash out |}.
Proof.
  intros Hinv Hi. unfold dispatch_group_wait. rewrite value_is_0.
  pose proof Hinv as [_ Hz0 Iw Ip Iq Ir In Il Iwa _ Ili]. pose proof Iw as [Hwd _ Hv _ _].
  fold (word st) in *. rewrite Hv. pose proof (set_waiters_parts _ _ _ _ _ Iw) as Hp.
  set (w := Z.lor (word st) DISPATCH_GROUP_HAS_WAITERS) in *.
  intros Hout.
  assert (Hd : out ≠ Crash ∧ ((d = dg st ∧ next out = Outside) ∨
     (count st ≠ 0 ∧ d = set_state (dg st) w ∧ next out = WaitAddress (u32 (zeros st)) timeout))).
  { destruct Hp as [_ Hpg _ _ _]. destruct (Z.eqb_spec (count st) 0); [injection Hout as <- <-; eauto|].
    destruct timeout; injection Hout as <- <-; cbn [next]; rewrite ?Hpg; (split; [done|]); eauto. }
  destruct Hd as (Hc & Hd). split; [done|].
  destruct Hd as [[-> ->]|(Hne & -> & ->)]; set (st' := Build_system _ _ _ _ _ _ _ _);
    apply (start_ok n); auto; try done; try lia; change (count st') with (count st); auto;
    try (intros j Hj; cbn; by rewrite decide_False).
  - apply Z.sub_0_r.
  - apply Z.add_0_r.
  - intros Hlt. cbn in Hlt. lia.
  - change (word st') with w. pose proof Hp as [_ _ _ E1 E2]. rewrite E1, E2. exact Hp.
  - change (dg_refs (dg st')) with (dg_refs (dg st)). change (dg_notify (dg st')) with (dg_notify (dg st)).
    cbn [owed]. lia.
  - change (word st') with w. destruct Hp as [_ _ _ _ ->]. change (dg_notify (dg st')) with (dg_notify (dg st)).
    cbn [in_charge]. lia.
  - intros g [= <-]. cbn [st' since]. rewrite decide_True by done. split; [done|]. split; [cbn; lia|]. intros _.
    change (word st') with w. destruct Hp as [_ _ _ -> _]. done.
  - intros _. change (word st') with w. by destruct Hp as [_ _ _ -> _].
  - intros Hlt. cbn in Hlt. lia.
Qed.

Lemma notify_ok n st i dq dsn d out :
  inv n st → threads st !! i = Some Outside → dispatch_group_notify (dg st) dq dsn = (d, out) →
  out ≠ Crash ∧ step_ok i Outside (next out) st
    {| dg := d; threads := <[i := next out]> (threads st); since := since st; entered := entered st;
       left := left st; zeros := zeros st; pushed := pushed st ++ [(dq, dsn)]; crashed := crash out |}.
Proof.
  intros Hinv Hi. unfold dispatch_group_notify.
  pose proof Hinv as [_ Hz0 Iw Ip Iq Ir In Il Iwa _ Ili]. intros [= <- <-]. split; [by destruct (dg_notify (dg st))|].
  set (st' := Build_system _ _ _ _ _ _ _ _).
  apply (start_ok n); auto; try done; try lia; change (count st') with (count st); auto.
  - by destruct (dg_notify (dg st)).
  - cbn. by rewrite Ip, app_assoc.
  - cbn. rewrite zlen_app. change (zlen [(dq, dsn)]) with 1. lia.
  - change (dg_refs (dg st')) with (dg_refs (dg st)).
    change (dg_notify (dg st')) with (dg_notify (dg st) ++ [(dq, dsn)]).
    destruct (dg_notify (dg st)); cbn; lia.
  - change (word st') with (word st). change (dg_notify (dg st')) with (dg_notify (dg st) ++ [(dq, dsn)]).
    destruct (dg_notify (dg st)); cbn; lia.
  - intros s. by destruct (dg_notify (dg st)).
  - intros g. by destruct (dg_notify (dg st)).
  - intros g t. by destruct (dg_notify (dg st)).
  - intros Hlt. cbn in Hlt. lia.
Qed.

(** *** The invariant holds in every reachable system *)

Lemma create_parts n :
  0 ≤ n < 2 ^ 30 → parts (dg_state (_dispatch_group_create_with_count n)) 0 n 0 0.
Proof.
  intros Hn. cbn [_dispatch_group_create_with_count dg_state]. destruct (Z.eqb_spec n 0) as [->|H0]; [done|].
  unfold DISPATCH_GROUP_VALUE_INTERVAL. assert (Hw : is_word (u32 (u32 (- n) * 4))) by (unfold is_word, u32; zdiv).
  split; [done|rewrite gen_eq by done|rewrite value_eq| |]; unfold wbit, nbit, u32; zdiv.
Qed.

Lemma initial_inv n k : 0 ≤ k < 2 ^ 30 → inv n (initial k n).
Proof.
  intros Hc. pose proof (create_parts k Hc) as Hp.
  assert (Hz : ∀ f : pc → Z, f Outside = 0 → zsum f (replicate n Outside) = 0).
  { intros f Hf. apply zsum_0. intros i p Hi. apply lookup_replicate in Hi as [-> _]. done. }
  pose proof Hp as [Hw Hg Hv Hwb Hnb]. split; unfold word, count, initial; cbn [dg threads zeros entered left].
  - apply length_replicate.
  - done.
  - rewrite Hwb, Hnb, Z.sub_0_r. exact Hp.
  - done.
  - by rewrite Hz by done.
  - rewrite Hz, Z.sub_0_r by done. cbn [_dispatch_group_create_with_count dg_refs dg_notify nonempty].
    unfold positive. by destruct (k =? 0).
  - rewrite Hz, Hnb by done. done.
  - intros i s Hi. apply lookup_replicate in Hi as [E _]. done.
  - intros i p Hi g Hg'. apply lookup_replicate in Hi as [-> _]. done.
  - intros _ i [(g & t & Hi) _]. cbn in Hi. apply lookup_replicate in Hi as [E _]. done.
  - rewrite Hwb, Hnb. intros _ [|]; done.
  - assert (Hout : ∀ i p, replicate n Outside !! i = Some p → p = Outside) by (by intros i p [-> _]%lookup_replicate).
    split; cbn; try done.
    + by intros i p k' ->%Hout.
    + by intros i j p q k' ->%Hout.
    + clear. induction n; [done|]. exact IHn.
    + by intros k' x ?%elem_of_nil.
Qed.

Lemma continue_ok n st i p ev d out :
  inv n st → threads st !! i = Some p → continue i p ev (dg st) = Some (d, out) →
  out ≠ Crash ∧ step_ok i p (next out) st (continued st i (next out) d).
Proof.
  intros Hinv Hi. destruct p; cbn [continue]; intros Hs; try discriminate;
    try (injection Hs as Hs || injection Hs as <- <-); subst.
  - split; [done|]. by eapply enter_retain_ok.
  - by eapply leave_loop_ok.
  - by eapply wake_notifs_ok.
  - split; [done|]. by eapply submit_ok.
  - by eapply submit_release_ok.
  - by eapply wake_waiters_ok.
  - split; [done|]. by eapply wake_release_ok.
  - split; [done|]. by eapply notify_retain_ok.
  - by eapply notify_set_ok.
  - by eapply wait_address_ok.
  - by eapply sleeping_ok.
  - by eapply wait_check_ok.
Qed.

Lemma act_inv n a st st' :
  inv n st → act a st = Some st' → crashed st' = false → inv n st'.
Proof.
  intros Hinv Ha Hc. unfold act in Ha. destruct (crashed st); [done|].
  assert (Hout : ∀ out, crash out = false → out ≠ Crash) by (by intros []).
  destruct a as [i|i|i timeout|i dq dsn|i ev].
  1-4: destruct (threads st !! i) as [[]|] eqn:Hi; try discriminate.
  - destruct (dispatch_group_enter (dg st)) as [d out] eqn:Hs. injection Ha as <-. cbn in Hc.
    eapply step_inv, enter_ok; eauto.
  - destruct (dispatch_group_leave (dg st)) as [d out] eqn:Hs. injection Ha as <-. cbn in Hc.
    eapply step_inv, leave_ok; eauto.
  - destruct (dispatch_group_wait (dg st) timeout) as [d out] eqn:Hs. injection Ha as <-.
    eapply step_inv, wait_start_ok; eauto.
  - destruct (dispatch_group_notify (dg st) dq dsn) as [d out] eqn:Hs. injection Ha as <-.
    eapply step_inv, notify_ok; eauto.
  - destruct (threads st !! i) as [p|] eqn:Hi; [|done]. cbn in Ha.
    destruct (continue i p ev (dg st)) as [[d out]|] eqn:Hs; [|done]. injection Ha as <-. cbn in Hc.
    destruct (continue_ok n st i p ev d out Hinv Hi Hs) as [_ Hok].
    eapply (step_inv n i p (next out) st); eauto. unfold continued in Hok. by rewrite Hc.
Qed.

Lemma act_uncrashed a st st' : act a st = Some st' → crashed st = false.
Proof. unfold act. by destruct (crashed st). Qed.

Lemma reachable_inv n k st :
  0 ≤ k < 2 ^ 30 → reachable k n st → crashed st = false → inv n st.
Proof.
  intros Hk Hr. revert Hr. unfold reachable. apply (steps_invariant act (λ st, crashed st = false → inv n st)).
  - intros a st1 st2 Hinv Ha. apply (act_inv n a st1); [|done]. by apply Hinv, (act_uncrashed a _ st2).
  - intros _. by apply initial_inv.
Qed.
End invariant.

(** ** Theorems *)

Section theorems.
Context `{Futex}.
Implicit Types st : system.

Lemma wake_notifs_progress n st i s refs :
  inv n st → threads st !! i = Some (WakeNotifs s refs) → wake_notifs (dg st) s refs ≠ None.
Proof.
  intros Hinv Hi. destruct (thread_weights st i _ Hi) as (Hc & _). cbn [in_charge] in Hc.
  destruct Hinv as [_ _ _ _ _ _ In _ _ _ _]. unfold wake_notifs. rewrite has_notifs.
  destruct (Z.eqb_spec (nbit s) 1) as [E|]; [|done].
  destruct (dg_notify (dg st)); [|done]. cbn [nonempty] in In. pose proof (bits_range (word st)). lia.
Qed.

(** Only sleeping threads are inside. *)
Definition quiescent st : Prop :=
  ∀ i p, threads st !! i = Some p → p = Outside ∨ continue i p Woken (dg st) = None.

Lemma quiescent_pc n st i p :
  inv n st → quiescent st → threads st !! i = Some p →
  p = Outside ∨ (∃ g timeout, p = Asleep g timeout) ∧ sleeper st i.
Proof.
  intros Hinv Hq Hi. destruct (Hq i p Hi) as [|Hc]; [by left|].
  destruct p; cbn [continue] in Hc; try discriminate; auto.
  - by destruct (wake_notifs_progress n st i _ _ Hinv Hi).
  - right. split; [by eauto|]. split; [by eauto|]. cbn in Hc. by destruct (asleep i _).
Qed.

Lemma quiescent_sum n st f :
  inv n st → quiescent st → f Outside = 0 → (∀ g t, f (Asleep g t) = 0) → zsum f (threads st) = 0.
Proof.
  intros Hinv Hq Ho Hs. apply zsum_0. intros i p Hi.
  destruct (quiescent_pc n st i p Hinv Hq Hi) as [->|[(g & t & ->) _]]; auto.
Qed.

Lemma quiescent_sleeper n st i :
  inv n st → quiescent st → zeros st < 2 ^ 32 → sleeper st i → since st i = zeros st ∧ count st ≠ 0.
Proof.
  intros Hinv Hq Hz Hs. pose proof (quiescent_sum n st wakes Hinv Hq eq_refl (λ _ _, eq_refl)) as H1.
  pose proof (quiescent_sum n st will_wake Hinv Hq eq_refl (λ _ _, eq_refl)) as H2.
  destruct Hinv as [_ _ _ _ _ _ _ _ Iwa Iwk _]. pose proof Hs as [(g & t & Hi) _].
  destruct (Iwa i _ Hi g eq_refl) as (_ & Hle & Hok).
  destruct (decide (since st i = zeros st)) as [E|E]; [split; [done|]; by apply Hok|].
  destruct (Iwk Hz i Hs ltac:(lia)) as [|[_ ?]]; lia.
Qed.

(** The steps a thread running alone still has to do. *)
Definition remaining st (p : pc) : nat :=
  match p with
  | Outside | Asleep _ _ => 0
  | EnterRetain | WakeRelease _ => 1
  | WakeWaiters _ _ => 2
  | SubmitRelease _ l _ _ => 3 + 2 * length l
  | Submit _ _ l _ _ => 4 + 2 * length l
  | WakeNotifs _ _ => 3 + 2 * length (dg_notify (dg st))
  | LeaveLoop s => (if (s =? leave_new_state s) || (word st =? s) then 4 else 5) + 2 * length (dg_notify (dg st))
  | NotifySet => 4 + 2 * length (dg_notify (dg st))
  | NotifyRetain => 5 + 2 * length (dg_notify (dg st))
  | WaitAddress g _ => if g =? _dg_state_gen (word st) then 1 else 2
  | WaitCheck g _ _ => if g =? _dg_state_gen (word st) then 2 else 1
  end.

Lemma solo_step n st i p :
  inv n st → threads st !! i = Some p → remaining st p ≠ 0%nat →
  ∃ d out, continue i p Woken (dg st) = Some (d, out) ∧
    (remaining (continued st i (next out) d) (next out) < remaining st p)%nat.
Proof.
  intros Hinv Hi Hne.
  destruct p; cbn [remaining] in Hne; try done; cbn [continue];
    try (eexists _, _; split; [done|]; cbn; lia).
  - unfold leave_loop. cbn [remaining]. fold (word st).
    destruct (Z.eqb_spec old_state (leave_new_state old_state)) as [E|E]; cbn [orb];
      [|destruct (Z.eqb_spec (word st) old_state)].
    + eexists _, _. split; [done|]. cbn. lia.
    + eexists _, _. split; [done|]. cbn. lia.
    + eexists _, _. split; [done|]. cbn [next remaining].
      change (word (continued st i _ (dg st))) with (word st). rewrite Z.eqb_refl, orb_true_r. cbn [continued dg]. lia.
  - pose proof (wake_notifs_progress n st i _ _ Hinv Hi) as Hp. unfold wake_notifs in *.
    destruct (has _ _); [destruct (dg_notify (dg st)) eqn:E; [done|]|];
      (eexists _, _; split; [done|]; cbn; rewrite ?E; cbn; lia).
  - unfold submit_release. eexists _, _. split; [done|]. destruct next_dc; cbn; lia.
  - unfold wake_waiters. eexists _, _. split; [done|]. destruct (refs =? 0); cbn; lia.
  - unfold notify_set. destruct (u32 _ =? 0); (eexists _, _; split; [done|]; cbn; lia).
  - unfold wait_address. cbn [remaining]. fold (word st). destruct (Z.eqb_spec gen (_dg_state_gen (word st))) as [E|E].
    + eexists _, _. split; [done|]. cbn. lia.
    + eexists _, _. split; [done|]. cbn [next remaining]. change (word (continued st i _ (dg st))) with (word st).
      rewrite (proj2 (Z.eqb_neq _ _) E). lia.
  - unfold wait_check. cbn [remaining]. fold (word st). destruct (Z.eqb_spec gen (_dg_state_gen (word st))) as [E|E];
      cbn [negb]; [destruct timed_out|]; (eexists _, _; split; [done|]); cbn [next remaining]; try lia.
    change (word (continued st i _ (dg st))) with (word st). rewrite (proj2 (Z.eqb_eq _ _) E). lia.
Qed.

Lemma solo_run n st i p k :
  inv n st → crashed st = false → threads st !! i = Some p → (remaining st p ≤ k)%nat →
  ∃ j st', (j ≤ k)%nat ∧ run act (replicate j (Continue i Woken)) st = Some st' ∧ crashed st' = false ∧
    ∃ p', threads st' !! i = Some p' ∧ remaining st' p' = 0%nat.
Proof.
  revert st p. induction k as [|k IH]; intros st p Hinv Hc Hi Hk.
  { exists 0%nat, st. split_and!; auto. exists p. split; [done|lia]. }
  destruct (decide (remaining st p = 0%nat)) as [H0|H0].
  { exists 0%nat, st. split_and!; auto with lia. by exists p. }
  destruct (solo_step n st i p Hinv Hi H0) as (d & out & Hs & Hlt).
  destruct (continue_ok n st i p Woken d out Hinv Hi Hs) as [Hout Hok].
  assert (Ha : act (Continue i Woken) st = Some (continued st i (next out) d)).
  { unfold act. rewrite Hc, Hi. cbn. rewrite Hs. cbn. by destruct out. }
  destruct (IH (continued st i (next out) d) (next out)) as (j & st' & Hj & Hr & Hc' & Hp').
  - by eapply step_inv.
  - done.
  - cbn. apply list_lookup_insert_eq. by eapply lookup_lt_Some.
  - lia.
  - exists (S j), st'. split_and!; [lia| |done|done]. cbn [replicate run]. by rewrite Ha.
Qed.
End theorems.

(** C3. Whatever the interleaving of enters, leaves, waits and notifications, the
    state word counts the enters not yet left and the times the group became
    empty.  Every notification is submitted once, held by one thread or still
    listed: the list is taken as a whole, in the order of the calls, and each list
    taken is submitted in order, by one thread.  Every reference taken on the group
    or a queue is owed by the count, the list or one thread; and a thread that goes
    to submit the list never finds it empty. *)
Theorem group_accounts_for_everything `{Futex} k n st :
  0 ≤ k < 2 ^ 30 → reachable k n st → crashed st = false →
  _dg_state_value (word st) = entered st - left st ∧
  _dg_state_gen (word st) = u32 (zeros st) ∧
  pushed st ≡ₚ (submitted (dg st)).*2 ++ (threads st ≫= held) ++ dg_notify (dg st) ∧
  pushed st = concat (captured (dg st)) ++ dg_notify (dg st) ∧
  (∀ j l, captured (dg st) !! j = Some l → of_snapshot j (submitted (dg st)) = l ∨
     ∃ i p, threads st !! i = Some p ∧ snapshot p = Some j ∧ l = of_snapshot j (submitted (dg st)) ++ held p) ∧
  dq_refs (dg st) = zlen (dg_notify (dg st)) + zsum queue_owed (threads st) ∧
  dg_refs (dg st) = positive (count st) + nonempty (dg_notify (dg st)) + zsum owed (threads st) ∧
  (∀ i s refs, threads st !! i = Some (WakeNotifs s refs) → wake_notifs (dg st) s refs ≠ None).
Proof.
  intros Hk Hr Hc. pose proof (reachable_inv n k st Hk Hr Hc) as Hinv.
  pose proof Hinv as [_ _ [_ Hg Hv _ _] Hp Hq Hrefs _ _ _ _ _ [Hh Hd _ Ho _]]. split_and!; auto.
  - by rewrite Hp, Ho, <- app_assoc.
  - intros j l Hj. destruct (Hd j l Hj) as [|(i & p & Hi & Hs)]; [by left|right].
    exists i, p. split_and!; [done|done|]. pose proof (Hh i p j Hi Hs). congruence.
  - intros i s refs Hi. by apply (wake_notifs_progress n st i s refs).
Qed.

(** C36. A wait returns success only when the group is empty or became empty since
    the wait began; a wait that polls a group that is not empty times out; and,
    short of 2^32 generations, a waiter that looks after the group became empty
    does return success. *)
Theorem group_wait_is_sound `{Futex} k n st :
  0 ≤ k < 2 ^ 30 → reachable k n st → crashed st = false →
  (∀ timeout d, dispatch_group_wait (dg st) timeout = (d, Return 0) → count st = 0) ∧
  (count st ≠ 0 → dispatch_group_wait (dg st) DISPATCH_TIME_NOW = (dg st, Return DSEMA4_TIMEOUT)) ∧
  (∀ i g timeout b, threads st !! i = Some (WaitCheck g timeout b) →
     (wait_check (dg st) g timeout b = Return 0 → since st i < zeros st) ∧
     (zeros st < 2 ^ 32 → since st i < zeros st → wait_check (dg st) g timeout b = Return 0)).
Proof.
  intros Hk Hr Hc. destruct (reachable_inv n k st Hk Hr Hc) as [_ _ [_ Hg Hv _ _] _ _ _ _ _ Hw _ _].
  unfold dispatch_group_wait. rewrite value_is_0. fold (word st). rewrite Hv. split_and!.
  - intros timeout d. destruct (Z.eqb_spec (count st) 0); [done|]. by destruct timeout.
  - intros Hne. by destruct (Z.eqb_spec (count st) 0).
  - intros i g timeout b Hi. destruct (Hw i _ Hi g eq_refl) as (-> & Hle & _).
    unfold wait_check. fold (word st). rewrite Hg. split.
    + intros Hret. assert (since st i ≠ zeros st); [|lia]. intros E. rewrite E, Z.eqb_refl in Hret. by destruct b.
    + intros Hz Hlt. unfold u32. rewrite !Z.mod_small by lia. destruct (Z.eqb_spec (since st i) (zeros st)); [lia|done].
Qed.

(** C23. No wake-up is lost.  Short of 2^32 generations, when the threads inside
    are all asleep, each of them waits for a group that has not become empty
    since its wait began; so if the group is empty nobody is inside, every
    notification was submitted, each captured list in order, no reference is held,
    and the group can be disposed of. *)
Theorem group_loses_no_wakeup `{Futex} k n st :
  0 ≤ k < 2 ^ 30 → reachable k n st → crashed st = false → quiescent st → zeros st < 2 ^ 32 →
  (∀ i, sleeper st i → since st i = zeros st ∧ count st ≠ 0) ∧
  (count st = 0 →
     (∀ i p, threads st !! i = Some p → p = Outside) ∧ (submitted (dg st)).*2 ≡ₚ pushed st ∧
     concat (captured (dg st)) = pushed st ∧
     (∀ j l, captured (dg st) !! j = Some l → of_snapshot j (submitted (dg st)) = l) ∧
     dg_refs (dg st) = 0 ∧ dq_refs (dg st) = 0 ∧ _dispatch_group_dispose (dg st) = true).
Proof.
  intros Hk Hr Hc Hq Hz. pose proof (reachable_inv n k st Hk Hr Hc) as Hinv.
  assert (Hsleep : ∀ i, sleeper st i → since st i = zeros st ∧ count st ≠ 0)
    by (intros i; by eapply quiescent_sleeper).
  split; [done|]. intros H0.
  pose proof (quiescent_sum n st in_charge Hinv Hq eq_refl (λ _ _, eq_refl)) as Hch.
  pose proof (quiescent_sum n st owed Hinv Hq eq_refl (λ _ _, eq_refl)) as How.
  pose proof (quiescent_sum n st unsettled Hinv Hq eq_refl (λ _ _, eq_refl)) as Hun.
  pose proof (quiescent_sum n st queue_owed Hinv Hq eq_refl (λ _ _, eq_refl)) as Hqu.
  pose proof (bits_range (word st)) as Hb. pose proof Hinv as [_ _ [_ _ Hv _ _] Hp Hqr Hrefs Hno _ _ _ Hli [_ Hd _ Ho _]].
  specialize (Hli H0). assert (wbit (word st) = 0 ∧ nbit (word st) = 0) as [Hw0 Hn0] by lia.
  assert (Hl : dg_notify (dg st) = []) by (destruct (dg_notify (dg st)); [done|cbn [nonempty] in Hno; lia]).
  assert (Hout : ∀ i p, threads st !! i = Some p → p = Outside).
  { intros i p Hi. destruct (quiescent_pc n st i p Hinv Hq Hi) as [|[_ Hs]]; [done|]. by destruct (Hsleep i Hs). }
  rewrite Hl in *. rewrite H0 in *. rewrite app_nil_r in Hp. split_and!; [done| |done| | | |].
  - rewrite Hp, Ho, bind_nothing, app_nil_r; [done|]. by intros i p ->%Hout.
  - intros j l Hj. destruct (Hd j l Hj) as [|(i & p & ->%Hout & [=])]; done.
  - rewrite Hrefs, How. done.
  - rewrite Hqr, Hqu. done.
  - unfold _dispatch_group_dispose. fold (word st). apply Z.eqb_eq, bits_zero. by rewrite Hv.
Qed.

(** A thread inside an operation that runs alone finishes it, or falls asleep
    waiting, within five steps and two for each notification it holds or may take:
    the compare-exchange loops end. *)
Theorem group_operations_finish `{Futex} k n st i p :
  0 ≤ k < 2 ^ 30 → reachable k n st → crashed st = false → threads st !! i = Some p →
  ∃ j st', (j ≤ 5 + 2 * length (held p ++ dg_notify (dg st)))%nat ∧
    run act (replicate j (Continue i Woken)) st = Some st' ∧ crashed st' = false ∧
    (threads st' !! i = Some Outside ∨ ∃ g timeout, threads st' !! i = Some (Asleep g timeout)).
Proof.
  intros Hk Hr Hc Hi. pose proof (reachable_inv n k st Hk Hr Hc) as Hinv.
  set (m := (5 + 2 * length (held p ++ dg_notify (dg st)))%nat). assert (Hle : (remaining st p ≤ m)%nat).
  { subst m. rewrite length_app. destruct p; cbn; repeat case_match; lia. }
  destruct (solo_run n st i p m Hinv Hc Hi Hle) as (j & st' & Hj & Hrun & Hc' & p' & Hi' & Hrem).
  exists j, st'. split_and!; [done..|].
  destruct p'; cbn [remaining] in Hrem; try discriminate; eauto; repeat case_match; discriminate.
Qed.

(** ** Concrete systems *)

(** Thread 0 enters, thread 1 waits, thread 0 leaves and is about to clear the
    flags when thread 2 enters. *)
Definition entered_again : list action :=
  [StartEnter 0; Continue 0 Woken; StartWait 1 DISPATCH_TIME_AT; StartLeave 0; StartEnter 2; Continue 2 Woken].
(** Thread 3 now adds a notification, and thread 0 resumes. *)
Definition notified_early : list action :=
  [StartNotify 3 1 5; Continue 3 Woken; Continue 3 Woken] ++ replicate 4 (Continue 0 Woken).

(** A notification can be submitted while the group is not empty.  Thread 3
    adds it after thread 2 entered; thread 0, still clearing the flags of its own
    leave, finds the notifications flag and submits it, though nobody has left
    since it was added. *)
Theorem group_notifies_too_early :
  ∃ st1 st2,
    run act entered_again (initial 0 4) = Some st1 ∧ count st1 = 1 ∧ pushed st1 = [] ∧
    run act notified_early st1 = Some st2 ∧ crashed st2 = false ∧ count st2 = 1 ∧
    left st2 = left st1 ∧ zeros st2 = zeros st1 ∧ pushed st2 = [(1, 5)] ∧ (submitted (dg st2)).*2 = [(1, 5)].
Proof.
  pose (st1 := default (initial 0 4) (run act entered_again (initial 0 4))).
  exists st1, (default st1 (run act notified_early st1)). split_and!; vm_compute; reflexivity.
Qed.

(** A group with a waiter asleep, and the same group left and quiescent. *)
Definition one_asleep : list action :=
  [StartEnter 0; Continue 0 Woken; StartWait 1 DISPATCH_TIME_FOREVER; Continue 1 Woken].
Definition all_done : list action :=
  one_asleep ++ [StartNotify 2 1 5; Continue 2 Woken; Continue 2 Woken; StartLeave 0]
  ++ replicate 6 (Continue 0 Woken) ++ [Continue 1 Woken; Continue 1 Woken].

(** Two notifications, of which thread 0 has submitted the first. *)
Definition half_submitted : list action :=
  [StartEnter 0; Continue 0 Woken; StartNotify 2 1 5; Continue 2 Woken; Continue 2 Woken; StartNotify 2 1 6; StartLeave 0]
  ++ replicate 3 (Continue 0 Woken).

Definition state_after (acts : list action) : system :=
  match run act acts (initial 0 3) with Some st => st | None => initial 0 3 end.
Lemma state_after_reachable acts :
  bool_decide (is_Some (run act acts (initial 0 3))) = true → reachable 0 3 (state_after acts).
Proof.
  intros [st Hr]%bool_decide_eq_true. unfold state_after. rewrite Hr. by apply (run_reaches act acts).
Qed.

Lemma group_accounts_for_everything_witness :
  let st := state_after half_submitted in
  _dg_state_value (word (state_after one_asleep)) = 1 ∧
  (submitted (dg st)).*2 = [(1, 5)] ∧ threads st ≫= held = [(1, 6)] ∧
  pushed st ≡ₚ (submitted (dg st)).*2 ++ (threads st ≫= held) ++ dg_notify (dg st).
Proof.
  destruct (group_accounts_for_everything 0 3 (state_after one_asleep)) as (H & _);
    [lia|apply state_after_reachable; vm_compute; reflexivity|vm_compute; reflexivity|].
  destruct (group_accounts_for_everything 0 3 (state_after half_submitted)) as (_ & _ & H' & _);
    [lia|apply state_after_reachable; vm_compute; reflexivity|vm_compute; reflexivity|].
  split; [rewrite H; by vm_compute|]. split; [by vm_compute|]. split; [by vm_compute|]. exact H'.
Defined.
Lemma group_wait_is_sound_witness :
  dispatch_group_wait (dg (state_after one_asleep)) DISPATCH_TIME_NOW
    = (dg (state_after one_asleep), Return DSEMA4_TIMEOUT).
Proof.
  destruct (group_wait_is_sound 0 3 (state_after one_asleep)) as (_ & H & _);
    [lia|apply state_after_reachable; vm_compute; reflexivity|vm_compute; reflexivity|]. apply H. by vm_compute.
Defined.
Lemma group_loses_no_wakeup_witness :
  count (state_after one_asleep) = 1 ∧ _dispatch_group_dispose (dg (state_after all_done)) = true.
Proof.
  assert (Hr1 : reachable 0 3 (state_after one_asleep)) by (apply state_after_reachable; vm_compute; reflexivity).
  assert (Hr2 : reachable 0 3 (state_after all_done)) by (apply state_after_reachable; vm_compute; reflexivity).
  split; [by vm_compute|].
  destruct (group_loses_no_wakeup 0 3 (state_after all_done)) as (_ & H); [lia|exact Hr2|vm_compute; reflexivity| |vm_compute; reflexivity|].
  - assert (Ht : threads (state_after all_done) = [Outside; Outside; Outside]) by (vm_compute; reflexivity).
    intros i p. rewrite Ht. destruct i as [|[|[|i]]]; intros [= <-]; left; reflexivity.
  - destruct H as (_ & _ & _ & _ & _ & _ & H'); [vm_compute; reflexivity|exact H'].
Defined.
Lemma group_operations_finish_witness :
  ∃ j st', (j ≤ 5 + 2 * 0)%nat ∧ run act (replicate j (Continue 1 Woken)) (state_after (take 3 one_asleep)) = Some st'.
Proof.
  destruct (group_operations_finish 0 3 (state_after (take 3 one_asleep)) 1 (WaitAddress 0 DISPATCH_TIME_FOREVER))
    as (j & st' & Hj & Hr & _); [lia|apply state_after_reachable; vm_compute; reflexivity|vm_compute; reflexivity|done|].
  exists j, st'. split; assumption.
Defined.
