(* ===== verification/Lock.v ===== *)
(** * Lock words (libdispatch shims/lock.h)

    A [dispatch_lock] is 32 bits: the thread that owns the lock, and two flags
    in the bits that thread names do not use.  The encoding is that of macOS. *)
From S2P Require Import Prelude Kernel.
From stdpp Require Import list.
Open Scope Z_scope.

Definition DLOCK_OWNER_MASK : Z := 4294967292. (* 0xfffffffc *)
Definition DLOCK_WAITERS_BIT : Z := 1.
Definition DLOCK_FAILED_TRYLOCK_BIT : Z := 2.
Definition DLOCK_OWNER_NULL : Z := 0.

(** The names the kernel gives to its threads: words that are not null and that
    differ above the two low bits. *)
Class Threads := {
  thread_count : nat;
  _dispatch_tid_self : nat → Z;
  tid_owner i : Z.land (_dispatch_tid_self i) DLOCK_OWNER_MASK ≠ 0;
  tid_inj i j : (i < thread_count)%nat → (j < thread_count)%nat →
    Z.land (_dispatch_tid_self i) DLOCK_OWNER_MASK = Z.land (_dispatch_tid_self j) DLOCK_OWNER_MASK → i = j;
}.

(** ** The operations *)

Definition _dispatch_lock_owner (lock_value : Z) : Z :=
  if negb (Z.land lock_value DLOCK_OWNER_MASK =? 0)
  then Z.lor (Z.lor lock_value DLOCK_WAITERS_BIT) DLOCK_FAILED_TRYLOCK_BIT
  else DLOCK_OWNER_NULL.
Definition _dispatch_lock_value_from_tid (tid : Z) : Z := Z.land tid DLOCK_OWNER_MASK.
Definition _dispatch_lock_value_for_self `{Threads} (i : nat) : Z := _dispatch_lock_value_from_tid (_dispatch_tid_self i).
Definition _dispatch_lock_is_locked (lock_value : Z) : bool := negb (Z.land lock_value DLOCK_OWNER_MASK =? 0).
Definition _dispatch_lock_is_locked_by (lock_value tid : Z) : bool := Z.land (Z.lxor lock_value tid) DLOCK_OWNER_MASK =? 0.
Definition _dispatch_lock_is_locked_by_self `{Threads} (i : nat) (lock_value : Z) : bool :=
  Z.land (Z.lxor lock_value (_dispatch_tid_self i)) DLOCK_OWNER_MASK =? 0.
Definition _dispatch_lock_has_waiters (lock_value : Z) : bool := negb (Z.land lock_value DLOCK_WAITERS_BIT =? 0).
Definition _dispatch_lock_has_failed_trylock (lock_value : Z) : bool :=
  negb (Z.land lock_value DLOCK_FAILED_TRYLOCK_BIT =? 0).

(** ** Words *)

Lemma land_owner s : Z.land s DLOCK_OWNER_MASK = s mod 2 ^ 32 - s mod 4.
Proof.
  change DLOCK_OWNER_MASK with (Z.shiftl (Z.ones 30) 2).
  rewrite land_shifted by done. change (2 ^ 2) with 4. zdiv.
Qed.
Lemma land_waiters_bit s : Z.land s DLOCK_WAITERS_BIT = s mod 2.
Proof. change DLOCK_WAITERS_BIT with (Z.ones 1). by rewrite Z.land_ones. Qed.
Lemma land_trylock_bit s : Z.land s DLOCK_FAILED_TRYLOCK_BIT = 2 * (s / 2 mod 2).
Proof. change DLOCK_FAILED_TRYLOCK_BIT with (Z.shiftl (Z.ones 1) 1). by rewrite land_shifted. Qed.

Lemma land_lxor a b m : Z.land (Z.lxor a b) m = Z.lxor (Z.land a m) (Z.land b m).
Proof.
  apply Z.bits_inj'. intros k Hk. rewrite Z.land_spec, !Z.lxor_spec, !Z.land_spec.
  by destruct (Z.testbit a k), (Z.testbit b k), (Z.testbit m k).
Qed.

(** Owners are compared without the flags. *)
Lemma locked_by_eq s t : _dispatch_lock_is_locked_by s t = (Z.land s DLOCK_OWNER_MASK =? Z.land t DLOCK_OWNER_MASK).
Proof.
  unfold _dispatch_lock_is_locked_by. rewrite land_lxor.
  destruct (Z.eqb_spec (Z.lxor (Z.land s DLOCK_OWNER_MASK) (Z.land t DLOCK_OWNER_MASK)) 0) as [E|E].
  - by rewrite (proj2 (Z.eqb_eq _ _) (Z.lxor_eq _ _ E)).
  - symmetry. apply Z.eqb_neq. intros Heq. apply E. by rewrite Heq, Z.lxor_nilpotent.
Qed.

Section words.
Context `{Threads}.

(** The word of a lock that thread [o] owns, with the flags [b]. *)
Definition owned (o : nat) (b : Z) : Z := _dispatch_lock_value_for_self o + b.

Lemma self_range o : 4 ≤ _dispatch_lock_value_for_self o < 2 ^ 32 ∧ _dispatch_lock_value_for_self o mod 4 = 0.
Proof.
  unfold _dispatch_lock_value_for_self, _dispatch_lock_value_from_tid. pose proof (tid_owner o) as Ho.
  revert Ho. rewrite land_owner. zdiv.
Qed.
Lemma self_inj o i : (o < thread_count)%nat → (i < thread_count)%nat →
  _dispatch_lock_value_for_self o = _dispatch_lock_value_for_self i → o = i.
Proof. apply tid_inj. Qed.

Lemma owned_owner o b : 0 ≤ b < 4 → Z.land (owned o b) DLOCK_OWNER_MASK = _dispatch_lock_value_for_self o.
Proof. intros Hb. destruct (self_range o). rewrite land_owner. unfold owned. zdiv. Qed.

Lemma owned_locked_by o b i : 0 ≤ b < 4 → (o < thread_count)%nat → (i < thread_count)%nat →
  _dispatch_lock_is_locked_by (owned o b) (_dispatch_lock_value_for_self i) = bool_decide (o = i).
Proof.
  intros Hb Ho Hi. rewrite locked_by_eq, owned_owner by done. pose proof (owned_owner i 0) as E.
  unfold owned in E. rewrite Z.add_0_r in E. rewrite E by lia. case_bool_decide as Eoi; [subst; apply Z.eqb_refl|].
  apply Z.eqb_neq. intros ?%self_inj; done.
Qed.
Lemma owned_locked_by_self o b i : 0 ≤ b < 4 → (o < thread_count)%nat → (i < thread_count)%nat →
  _dispatch_lock_is_locked_by_self i (owned o b) = bool_decide (o = i).
Proof.
  intros Hb Ho Hi. change (_dispatch_lock_is_locked_by (owned o b) (_dispatch_tid_self i) = bool_decide (o = i)).
  rewrite <- (owned_locked_by o b i Hb Ho Hi), !locked_by_eq. f_equal.
  unfold _dispatch_lock_value_for_self, _dispatch_lock_value_from_tid. by rewrite <- Z.land_assoc, Z.land_diag.
Qed.
Lemma owned_is_locked o b : 0 ≤ b < 4 → _dispatch_lock_is_locked (owned o b) = true.
Proof.
  intros Hb. unfold _dispatch_lock_is_locked. rewrite owned_owner by done. destruct (self_range o).
  by rewrite (proj2 (Z.eqb_neq _ 0)) by lia.
Qed.

Lemma owned_range o b : 0 ≤ b < 4 → 4 ≤ owned o b < 2 ^ 32.
Proof. intros Hb. destruct (self_range o). unfold owned. zdiv. Qed.
Lemma owned_waiters o b : 0 ≤ b < 4 → Z.lor (owned o b) DLOCK_WAITERS_BIT = owned o (b - b mod 2 + 1).
Proof. intros Hb. destruct (self_range o). rewrite lor_flag, land_waiters_bit. unfold owned, DLOCK_WAITERS_BIT. zdiv. Qed.
Lemma owned_has_waiters o b : 0 ≤ b < 4 → _dispatch_lock_has_waiters (owned o b) = (b mod 2 =? 1).
Proof.
  intros Hb. destruct (self_range o). unfold _dispatch_lock_has_waiters. rewrite land_waiters_bit. unfold owned.
  destruct (Z.eqb_spec (b mod 2) 1), (Z.eqb_spec ((_dispatch_lock_value_for_self o + b) mod 2) 0); cbn; try done; zdiv.
Qed.
End words.

(** A thousand threads, named as Mach ports are. *)
#[export] Program Instance mach_threads : Threads := {|
  thread_count := 1000;
  _dispatch_tid_self i := 4 * (Z.of_nat i mod 1000 + 1) + 3;
|}.
Next Obligation. intros i. rewrite land_owner. zdiv. Qed.
Next Obligation. intros i j Hi Hj. rewrite !land_owner, !(Z.mod_small (Z.of_nat _) 1000) by lia. zdiv. Qed.
