(* ===== verification/Once.v ===== *)
(** * dispatch_once (libdispatch once.c, shims/lock.h, shims/lock.c)

    The gate of a [dispatch_once_t] is one 64-bit word: null, the lock word of
    the thread that runs the function, or all ones.  Each atomic operation on
    it, each call of the function and each call on the kernel's wait queue is
    one step of one thread; a system of threads interleaves them.  The function
    may call [dispatch_once] again.  This is the build without the quiescent
    counter (x86). *)
From S2P Require Import Prelude Kernel Lock.
From stdpp Require Import list.
Open Scope Z_scope.

(** ** What [dispatch_once] promises

    The state of a gate, and what a thread that calls [dispatch_once_f] may do:
    enter and run the function, pass, or (with [None]) only wait. *)
Inductive once_state := OnceNew | OnceRunning (o : nat) | OnceDone.
Definition once_enter (i : nat) (s : once_state) : option (once_state * bool) :=
  match s with
  | OnceNew => Some (OnceRunning i, true)
  | OnceRunning _ => None
  | OnceDone => Some (OnceDone, false)
  end.
Definition once_leave (i : nat) (s : once_state) : option once_state :=
  match s with OnceRunning o => if decide (o = i) then Some OnceDone else None | _ => None end.

(** ** The program *)

Definition DLOCK_ONCE_UNLOCKED : Z := 0.
Definition DLOCK_ONCE_DONE : Z := 2 ^ 64 - 1.

(** A call of [dispatch_once_f] at its next atomic step. *)
Inductive frame :=
  | Load                         (** the inline test of the word *)
  | TryEnter                     (** [_dispatch_once_gate_tryenter] *)
  | Callout                      (** [_dispatch_client_callout] *)
  | Broadcast                    (** [_dispatch_once_gate_broadcast] *)
  | BroadcastSlow (cur : Z)      (** [_dispatch_gate_broadcast_slow] *)
  | WaitLoop                     (** the atomic loop of [_dispatch_once_wait] *)
  | WaitCheck (old_v new_v : Z)  (** its test for recursion *)
  | WaitAddress (val : Z)        (** [_dispatch_unfair_lock_wait] *)
  | Asleep.
#[export] Instance frame_eq_dec : EqDecision frame.
Proof. solve_decision. Defined.

Inductive outcome := Goto (f : frame) | Return | Crash.

Section once.
Context `{Futex, Threads}.

Record dispatch_once_gate_s := { dgo_once : Z; dgo_address : futex }.
Implicit Types l : dispatch_once_gate_s.

Definition with_once l (v : Z) := {| dgo_once := v; dgo_address := dgo_address l |}.
Definition with_address l (f : futex) := {| dgo_once := dgo_once l; dgo_address := f |}.

Definition _dispatch_once_gate_tryenter l (i : nat) : dispatch_once_gate_s * bool :=
  if dgo_once l =? DLOCK_ONCE_UNLOCKED then (with_once l (_dispatch_lock_value_for_self i), true) else (l, false).

(** [_dispatch_once_mark_done], and whether there may be waiters. *)
Definition _dispatch_once_gate_broadcast l (i : nat) : dispatch_once_gate_s * outcome :=
  let v := dgo_once l in
  (with_once l DLOCK_ONCE_DONE,
   if u32 v =? _dispatch_lock_value_for_self i then Return else Goto (BroadcastSlow (u32 v))).

Definition _dispatch_gate_broadcast_slow l (i : nat) (cur : Z) : dispatch_once_gate_s * outcome :=
  if negb (_dispatch_lock_is_locked_by_self i cur) then (l, Crash)
  else (with_address l (futex_wake_all (dgo_address l)), Return).

(** One turn of the loop of [_dispatch_once_wait], in four steps: the atomic
    loop as of its last turn, the test, going to sleep while the low half of the
    word is [val], and waking up. *)
Definition wait_loop l : dispatch_once_gate_s * outcome :=
  let old_v := dgo_once l in
  if old_v =? DLOCK_ONCE_DONE then (l, Return)
  else
    let new_v := Z.lor old_v DLOCK_WAITERS_BIT in
    (if new_v =? old_v then l else with_once l new_v, Goto (WaitCheck old_v new_v)).
Definition wait_check (i : nat) (old_v new_v : Z) : outcome :=
  if _dispatch_lock_is_locked_by (u32 old_v) (_dispatch_lock_value_for_self i) then Crash
  else Goto (WaitAddress (u32 new_v)).
Definition wait_address l (i : nat) (val : Z) : dispatch_once_gate_s * outcome :=
  if u32 (dgo_once l) =? val then (with_address l (futex_sleep i (dgo_address l)), Goto Asleep)
  else (l, Goto WaitLoop).
Definition sleeping l (i : nat) (spurious : bool) : option (dispatch_once_gate_s * outcome) :=
  if spurious then Some (with_address l (futex_cancel i (dgo_address l)), Goto WaitLoop)
  else if asleep i (dgo_address l) then None else Some (l, Goto WaitLoop).

(** The next step of [dispatch_once_f]; [None] while the thread is blocked. *)
Definition continue (i : nat) (f : frame) (spurious : bool) l : option (dispatch_once_gate_s * outcome) :=
  match f with
  | Load => Some (l, if dgo_once l =? DLOCK_ONCE_DONE then Return else Goto TryEnter)
  | TryEnter =>
      let '(l, entered) := _dispatch_once_gate_tryenter l i in
      Some (l, Goto (if entered then Callout else WaitLoop))
  | Callout => Some (l, Goto Broadcast)
  | Broadcast => Some (_dispatch_once_gate_broadcast l i)
  | BroadcastSlow cur => Some (_dispatch_gate_broadcast_slow l i cur)
  | WaitLoop => Some (wait_loop l)
  | WaitCheck old_v new_v => Some (l, wait_check i old_v new_v)
  | WaitAddress val => Some (wait_address l i val)
  | Asleep => sleeping l i spurious
  end.

(** ** Threads

    The stack of a thread holds its calls, innermost first.  [begun] and
    [ended] count the calls of the function, [returned] the calls of
    [dispatch_once_f] that returned. *)
Record system := {
  gate : dispatch_once_gate_s; stacks : list (list frame);
  begun : Z; ended : Z; returned : Z; crashed : bool }.

Inductive action := Call (i : nat) | Continue (i : nat) (spurious : bool).

Definition next (out : outcome) (f : frame) (k : list frame) : list frame :=
  match out with Goto g => g :: k | Return => k | Crash => f :: k end.

Definition act (a : action) (st : system) : option system :=
  if crashed st then None
  else match a with
  | Call i =>
      match stacks st !! i with
      | Some ([] as k) | Some ((Callout :: _) as k) =>
          Some {| gate := gate st; stacks := <[i := Load :: k]> (stacks st);
                  begun := begun st; ended := ended st; returned := returned st; crashed := false |}
      | _ => None
      end
  | Continue i spurious =>
      match stacks st !! i with
      | Some (f :: k) =>
          '(l, out) ← continue i f spurious (gate st);
          Some {| gate := l; stacks := <[i := next out f k]> (stacks st);
                  begun := begun st + match out with Goto Callout => 1 | _ => 0 end;
                  ended := ended st + match f with Callout => 1 | _ => 0 end;
                  returned := returned st + match out with Return => 1 | _ => 0 end;
                  crashed := match out with Crash => true | _ => false end |}
      | _ => None
      end
  end.

Definition initial (n : nat) : system :=
  {| gate := {| dgo_once := 0; dgo_address := futex_new |}; stacks := replicate n [];
     begun := 0; ended := 0; returned := 0; crashed := false |}.
Definition reachable (n : nat) (st : system) : Prop := rtc (steps_to act) (initial n) st.

(** ** The invariant *)

(** The gate, and whether the thread inside knows of waiters. *)
Inductive gate_state := Closed | Held (o : nat) (b : Z) | Opened.
#[export] Instance gate_state_eq_dec : EqDecision gate_state.
Proof. solve_decision. Defined.
Definition word (g : gate_state) : Z :=
  match g with Closed => 0 | Held o b => owned o b | Opened => DLOCK_ONCE_DONE end.

Definition held_ok (n : nat) (g : gate_state) : Prop :=
  match g with Held o b => (o < n)%nat ∧ 0 ≤ b < 2 | _ => True end.

(** What a thread that waits remembers of the word. *)
Definition seen (g : gate_state) (n o : nat) : Prop := (o < n)%nat ∧ (g = Held o 1 ∨ g = Opened).

Definition frame_ok (g : gate_state) (n i : nat) (f : frame) : Prop :=
  match f with
  | Load | TryEnter => True
  | WaitLoop => g ≠ Closed
  | WaitCheck old_v new_v => ∃ o b, 0 ≤ b < 2 ∧ old_v = owned o b ∧ new_v = owned o 1 ∧ o ≠ i ∧ seen g n o
  | WaitAddress val => ∃ o, val = owned o 1 ∧ seen g n o
  | Asleep => ∃ o, seen g n o
  | _ => False
  end.
(** A call from within the function. *)
Definition nested_ok (g : gate_state) (i : nat) (f : frame) : Prop :=
  match f with
  | Load | TryEnter | WaitLoop => True
  | WaitCheck old_v new_v => ∃ b, 0 ≤ b < 2 ∧ old_v = owned i b
  | _ => False
  end.
Definition holds (g : gate_state) (i : nat) : bool := match g with Held o _ => bool_decide (o = i) | _ => false end.
Definition stack_ok (g : gate_state) (n i : nat) (k : list frame) : Prop :=
  if holds g i then k = [Callout] ∨ k = [Broadcast] ∨ ∃ f, k = [f; Callout] ∧ nested_ok g i f
  else k = [] ∨ (∃ f, k = [f] ∧ frame_ok g n i f) ∨ (g = Opened ∧ (i < n)%nat ∧ k = [BroadcastSlow (owned i 1)]).

Definition counts_ok (g : gate_state) (st : system) : Prop :=
  match g with
  | Closed => begun st = 0 ∧ ended st = 0 ∧ returned st = 0
  | Held o _ => begun st = 1 ∧ returned st = 0 ∧
      ended st = if decide (stacks st !! o = Some [Broadcast]) then 1 else 0
  | Opened => begun st = 1 ∧ ended st = 1
  end.

Record inv (n : nat) (g : gate_state) (st : system) : Prop := {
  i_word : dgo_once (gate st) = word g;
  i_len : length (stacks st) = n;
  i_held : held_ok n g;
  i_stack i k : stacks st !! i = Some k → stack_ok g n i k;
  i_counts : counts_ok g st;
  i_asleep j : asleep j (dgo_address (gate st)) = true → stacks st !! j = Some [Asleep];
  i_awake j : g ≠ Opened → stacks st !! j = Some [Asleep] → asleep j (dgo_address (gate st)) = true;
  i_duty j : g = Opened → asleep j (dgo_address (gate st)) = true → ∃ i v, stacks st !! i = Some [BroadcastSlow v];
}.

Lemma once_initial_inv n : inv n Closed (initial n).
Proof.
  assert (Hk : ∀ i k, replicate n ([] : list frame) !! i = Some k → k = []) by (intros i k [-> _]%lookup_replicate; done).
  split; cbn [initial gate dgo_once dgo_address stacks counts_ok begun ended returned]; try done.
  - apply length_replicate.
  - intros i k ->%Hk. by left.
  - intros j. by rewrite asleep_new.
  - intros j _ [=]%Hk.
Qed.

(** The state after a step of thread [i] that leaves it with the stack [k]. *)
Definition put (st : system) (i : nat) (k : list frame) (l : dispatch_once_gate_s) (b e r : Z) : system :=
  {| gate := l; stacks := <[i := k]> (stacks st); begun := begun st + b; ended := ended st + e;
     returned := returned st + r; crashed := false |}.

Lemma once_put_inv n g g' st i k k' l b e r :
  inv n g st → stacks st !! i = Some k → dgo_once l = word g' →
  held_ok n g' →
  (∀ j kj, j ≠ i → stack_ok g n j kj → stack_ok g' n j kj) → stack_ok g' n i k' →
  counts_ok g' (put st i k' l b e r) →
  (∀ j, j ≠ i → asleep j (dgo_address l) = asleep j (dgo_address (gate st))) →
  (asleep i (dgo_address l) = true → k' = [Asleep]) → (g' ≠ Opened → k' = [Asleep] → asleep i (dgo_address l) = true) →
  (g' ≠ Opened → g ≠ Opened) →
  (g' = Opened → k' ≠ [Asleep] ∧ ((∃ v, k' = [BroadcastSlow v]) ∨ (g = Opened ∧ (∀ v, k ≠ [BroadcastSlow v])) ∨
     ∀ j, j ≠ i → asleep j (dgo_address (gate st)) = false)) →
  inv n g' (put st i k' l b e r).
Proof.
  intros Hinv Hk Hw Hheld Hothers Hown Hcounts Hsame Hsleep Hawake Hopen Hduty.
  split; cbn [put gate stacks]; try done.
  - rewrite length_insert. apply Hinv.
  - intros j kj. rewrite (lookup_step _ _ _ _ _ Hk). case_decide as E; [subst j; by intros [= <-]|].
    intros Hj. by apply Hothers, (i_stack _ _ _ Hinv).
  - intros j. rewrite (lookup_step _ _ _ _ _ Hk). case_decide as E; [subst j; by intros ->%Hsleep|].
    rewrite Hsame by done. apply Hinv.
  - intros j Hg. rewrite (lookup_step _ _ _ _ _ Hk). case_decide as E; [subst j; intros [= Hk']; auto|].
    rewrite Hsame by done. apply Hinv. auto.
  - intros j Hg Hj. destruct (Hduty Hg) as [Hna Hcase].
    assert (Hji : j ≠ i) by (intros ->; auto). rewrite Hsame in Hj by done.
    destruct Hcase as [[v ->]|[[Hg0 Hv]|Hno]]; [| |by rewrite Hno in Hj].
    + exists i, v. rewrite (lookup_step _ _ _ _ _ Hk). by rewrite decide_True.
    + destruct (i_duty _ _ _ Hinv j Hg0 Hj) as (i' & v & Hi'). exists i', v. rewrite (lookup_step _ _ _ _ _ Hk).
      rewrite decide_False; [done|]. intros ->. rewrite Hk in Hi'. injection Hi' as ->. by apply (Hv v).
Qed.

(** A step that leaves the wait queue alone, of a thread that neither sleeps nor
    wakes others. *)
Lemma put_quiet n g g' st i k k' v b e r :
  inv n g st → stacks st !! i = Some k → k ≠ [Asleep] → (∀ v, k ≠ [BroadcastSlow v]) → k' ≠ [Asleep] →
  v = word g' → held_ok n g' →
  (∀ j kj, j ≠ i → stack_ok g n j kj → stack_ok g' n j kj) → stack_ok g' n i k' →
  counts_ok g' (put st i k' (with_once (gate st) v) b e r) → (g' = Opened ↔ g = Opened) →
  inv n g' (put st i k' (with_once (gate st) v) b e r).
Proof.
  intros Hinv Hk Hka Hkb Hk'a Hw Hheld Hothers Hown Hcounts Hop.
  eapply once_put_inv; try done; cbn [with_once dgo_address].
  - intros Ha%(i_asleep _ _ _ Hinv). rewrite Hk in Ha. by injection Ha as ->.
  - intros Hg Hg0. apply Hg, Hop, Hg0.
  - intros Hg. split; [done|]. right. left. split; [by apply Hop|done].
Qed.

(** ** The steps *)

Lemma holds_true g i : holds g i = true → ∃ b, g = Held i b.
Proof. destruct g as [|o b|]; try done. cbn. intros ->%bool_decide_eq_true. by exists b. Qed.

Lemma word_zero n g : held_ok n g → (word g =? DLOCK_ONCE_UNLOCKED) = bool_decide (g = Closed).
Proof.
  intros Hg. destruct g as [|o b|]; [done| |done]. destruct Hg as [_ Hb]. pose proof (owned_range o b ltac:(lia)).
  cbn. apply Z.eqb_neq. unfold DLOCK_ONCE_UNLOCKED. lia.
Qed.
Lemma word_done n g : held_ok n g → (word g =? DLOCK_ONCE_DONE) = bool_decide (g = Opened).
Proof.
  intros Hg. destruct g as [|o b|]; [done| |done]. destruct Hg as [_ Hb]. pose proof (owned_range o b ltac:(lia)).
  cbn. apply Z.eqb_neq. unfold DLOCK_ONCE_DONE. lia.
Qed.
Lemma owned_u32 o b : 0 ≤ b < 4 → u32 (owned o b) = owned o b.
Proof. intros Hb. pose proof (owned_range o b Hb). apply Z.mod_small. lia. Qed.

Lemma frame_mono g g' n i f : (g' = Closed → g = Closed) → (∀ o, seen g n o → seen g' n o) → frame_ok g n i f → frame_ok g' n i f.
Proof.
  intros Hc Hs. destruct f; cbn; try done; [tauto|intros (o & b & Hb & E1 & E2 & Hne & Ho)|intros (o & E & Ho)|intros (o & Ho)];
    [exists o, b; auto 8|exists o; auto|exists o; auto].
Qed.
Lemma frame_closed n i f : frame_ok Closed n i f → f = Load ∨ f = TryEnter.
Proof.
  destruct f; cbn; auto; try done.
  - by intros (o & b & _ & _ & _ & _ & _ & [?|?]).
  - by intros (o & _ & _ & [?|?]).
  - by intros (o & _ & [?|?]).
Qed.
Lemma stack_mono g g' n i k : holds g i = false → holds g' i = false → (g' = Closed → g = Closed) →
  (∀ o, seen g n o → seen g' n o) → (g = Opened → g' = Opened) → stack_ok g n i k → stack_ok g' n i k.
Proof.
  intros H1 H2 Hc Hs Ho. unfold stack_ok. rewrite H1, H2. intros [?|[(f & -> & Hf)|(E & Hi & ->)]]; [by left| |].
  - right. left. exists f. split; [done|]. by eapply frame_mono.
  - right. right. auto.
Qed.

(** What a step may do to the gate. *)
Definition once_of (g : gate_state) : once_state :=
  match g with Closed => OnceNew | Held o _ => OnceRunning o | Opened => OnceDone end.
Definition moves (i : nat) (f : frame) (out : outcome) (g g' : gate_state) : Prop :=
  (once_of g' = once_of g ∧ out ≠ Goto Callout ∨
   once_enter i (once_of g) = Some (once_of g', true) ∧ out = Goto Callout ∨
   once_leave i (once_of g) = Some (once_of g') ∧ f = Broadcast) ∧
  (out = Return → g' = Opened) ∧ out ≠ Crash.

(** Stepping thread [i] at frame [f] over the stack [k]. *)
Definition stepped (st : system) (i : nat) (f : frame) (k : list frame) (l : dispatch_once_gate_s) (out : outcome) : system :=
  put st i (next out f k) l (match out with Goto Callout => 1 | _ => 0 end) (match f with Callout => 1 | _ => 0 end)
    (match out with Return => 1 | _ => 0 end).

(** How many steps a frame is from its return at most, before and after the gate
    opens. *)
Definition weight (opened : bool) (f : frame) : Z :=
  match f with
  | Load => if opened then 1 else 9
  | TryEnter => if opened then 2 else 8
  | WaitLoop => if opened then 1 else 7
  | WaitCheck _ _ => if opened then 4 else 6
  | WaitAddress _ => if opened then 3 else 5
  | Asleep => if opened then 2 else 4
  | Callout => 3 | Broadcast => 2 | BroadcastSlow _ => 1
  end.
Lemma weights_mono k : zsum (weight true) k ≤ zsum (weight false) k.
Proof. induction k as [|f k IH]; cbn; [done|]. destruct f; cbn; lia. Qed.
Lemma weight_nonneg b f : 0 ≤ weight b f.
Proof. by destruct b, f. Qed.

Section steps.
Context (n : nat) (g : gate_state) (st : system) (i : nat).
Context (Hn : (n ≤ thread_count)%nat) (Hinv : inv n g st).

Let Hheld : held_ok n g := i_held _ _ _ Hinv.

Lemma stack_index k : stacks st !! i = Some k → (i < n)%nat.
Proof. intros Hk%lookup_lt_Some. by rewrite (i_len _ _ _ Hinv) in Hk. Qed.

Lemma counts_put g' k k' l b e r : counts_ok g st → stacks st !! i = Some k → k ≠ [Broadcast] → k' ≠ [Broadcast] →
  b = 0 → e = 0 → (r = 0 ∨ g = Opened) → once_of g' = once_of g → counts_ok g' (put st i k' l b e r).
Proof.
  intros Hc Hk Hb Hb' -> -> Hr Hg. destruct g as [|o c|], g' as [|o' c'|]; try done; cbn in Hg |- *.
  - destruct Hc as (-> & -> & ->). destruct Hr as [->|]; [lia|done].
  - injection Hg as ->. destruct Hc as (-> & -> & ->). destruct Hr as [->|]; [|done]. split_and!; [lia|lia|].
    rewrite (lookup_step _ _ _ _ _ Hk), Z.add_0_r. destruct (decide (o = i)) as [->|]; [|done].
    by rewrite Hk, !decide_False by congruence.
  - destruct Hc as [-> ->]. lia.
Qed.

(** A step that changes only the stack of the thread. *)
Lemma local_step f k out : stacks st !! i = Some (f :: k) → f ≠ Asleep → f ≠ Callout → f ≠ Broadcast →
  (∀ v, f ≠ BroadcastSlow v) → next out f k ≠ [Asleep] → next out f k ≠ [Broadcast] → out ≠ Goto Callout → out ≠ Crash →
  (out = Return → g = Opened) → stack_ok g n i (next out f k) →
  ∃ g', inv n g' (stepped st i f k (gate st) out) ∧ moves i f out g g'.
Proof.
  intros Hk Hf1 Hf2 Hf3 Hf4 Hk' Hk'' Hout Hnc Hret Hok. exists g. split; [|split; [by left|done]].
  replace (gate st) with (with_once (gate st) (word g)) by (rewrite <- (i_word _ _ _ Hinv); by destruct (gate st)).
  unfold stepped. eapply put_quiet; try done; try congruence.
  - eapply counts_put; try done; try congruence; [apply Hinv|by destruct out as [[]| |]|by destruct f|].
    destruct out; auto.
Qed.

(** The stacks a thread may have, by the frame on top. *)
Lemma stack_cases f k : stacks st !! i = Some (f :: k) →
  (holds g i = false ∧ k = [] ∧ (frame_ok g n i f ∨ (g = Opened ∧ (i < n)%nat ∧ f = BroadcastSlow (owned i 1)))) ∨
  (∃ b, g = Held i b ∧ ((k = [] ∧ (f = Callout ∨ f = Broadcast)) ∨ (k = [Callout] ∧ nested_ok g i f))).
Proof.
  intros Hk. pose proof (i_stack _ _ _ Hinv i _ Hk) as Hok. unfold stack_ok in Hok.
  destruct (holds g i) eqn:Hh.
  - right. destruct (holds_true _ _ Hh) as [b Hb]. exists b. split; [done|].
    destruct Hok as [[= -> ->]|[[= -> ->]|(f' & [= -> ->] & Hf)]]; auto.
  - left. split; [done|]. destruct Hok as [?|[(f' & [= -> ->] & Hf)|(Ho & Hi & [= -> ->])]]; auto. done.
Qed.

Lemma stack_single f : holds g i = false → frame_ok g n i f → stack_ok g n i [f].
Proof. intros Hh Hf. unfold stack_ok. rewrite Hh. eauto. Qed.
Lemma stack_empty : holds g i = false → stack_ok g n i [].
Proof. intros Hh. unfold stack_ok. rewrite Hh. by left. Qed.
Lemma stack_nested f b : g = Held i b → nested_ok g i f → stack_ok g n i [f; Callout].
Proof.
  intros Hg Hf. unfold stack_ok. replace (holds g i) with true; [by eauto|]. rewrite Hg. cbn.
  by rewrite bool_decide_true.
Qed.

Lemma load_ok k : stacks st !! i = Some (Load :: k) →
  let out := if dgo_once (gate st) =? DLOCK_ONCE_DONE then Return else Goto TryEnter in
  ∃ g', inv n g' (stepped st i Load k (gate st) out) ∧ moves i Load out g g'.
Proof.
  intros Hk out. subst out. rewrite (i_word _ _ _ Hinv), (word_done n) by done.
  destruct (stack_cases _ _ Hk) as [(Hh & -> & _)|(b & Hg & [[_ [?|?]]|[-> _]])]; try done.
  - case_bool_decide as Hop; apply local_step; try done.
    + by apply stack_empty.
    + by apply stack_single.
  - rewrite bool_decide_false by congruence. apply local_step; try done. by eapply stack_nested.
Qed.

Lemma once_wait_check_ok k old_v new_v : stacks st !! i = Some (WaitCheck old_v new_v :: k) →
  let out := wait_check i old_v new_v in
  (out = Crash ∧ k = [Callout]) ∨
  ∃ g', inv n g' (stepped st i (WaitCheck old_v new_v) k (gate st) out) ∧ moves i (WaitCheck old_v new_v) out g g'.
Proof.
  intros Hk out. subst out. unfold wait_check. pose proof (stack_index _ Hk) as Hi.
  destruct (stack_cases _ _ Hk) as [(Hh & -> & [(o & b & Hb & -> & -> & Hne & Ho & Hs)|(_ & _ & ?)])|(b & Hg & [[_ [?|?]]|[-> (c & Hc & ->)]])];
    try done; rewrite owned_u32, owned_locked_by by lia.
  - right. rewrite bool_decide_false, owned_u32 by lia. apply local_step; try done.
    apply stack_single; [done|]. exists o. by split_and!.
  - left. by rewrite bool_decide_true.
Qed.

Lemma try_enter_ok k : stacks st !! i = Some (TryEnter :: k) →
  let '(l, entered) := _dispatch_once_gate_tryenter (gate st) i in
  let out := Goto (if entered : bool then Callout else WaitLoop) in
  ∃ g', inv n g' (stepped st i TryEnter k l out) ∧ moves i TryEnter out g g'.
Proof.
  intros Hk. pose proof (stack_index _ Hk) as Hi. unfold _dispatch_once_gate_tryenter.
  rewrite (i_word _ _ _ Hinv), (word_zero n) by done. case_bool_decide as Hc.
  - destruct (stack_cases _ _ Hk) as [(Hh & -> & _)|(b & Hg & _)]; [|congruence].
    exists (Held i 0). split; [|split; [right; left; by rewrite Hc|done]].
    replace (_dispatch_lock_value_for_self i) with (word (Held i 0)) by apply Z.add_0_r.
    pose proof (i_counts _ _ _ Hinv) as Hcounts. rewrite Hc in Hcounts. destruct Hcounts as (B & E & R).
    eapply put_quiet; try done; [| | |by rewrite Hc].
    + intros j kj Hj. rewrite Hc. unfold stack_ok. cbn. rewrite bool_decide_false by done.
      intros [->|[(f & -> & Hf)|[? _]]]; [by left| |done]. right. left. exists f. split; [done|].
      by destruct (frame_closed _ _ _ Hf) as [-> | ->].
    + unfold stack_ok. cbn. rewrite bool_decide_true by done. by left.
    + cbn. rewrite B, E, R, (lookup_step_eq _ _ _ _ Hk). by rewrite decide_False.
  - destruct (stack_cases _ _ Hk) as [(Hh & -> & _)|(b & Hg & [[_ [?|?]]|[-> _]])]; try done; apply local_step; try done.
    + by apply stack_single.
    + by eapply stack_nested.
Qed.

Lemma callout_ok k : stacks st !! i = Some (Callout :: k) →
  ∃ g', inv n g' (stepped st i Callout k (gate st) (Goto Broadcast)) ∧ moves i Callout (Goto Broadcast) g g'.
Proof.
  intros Hk. destruct (stack_cases _ _ Hk) as [(Hh & -> & [Hf|(_ & _ & ?)])|(b & Hg & [[-> _]|[_ Hf]])]; [by destruct Hf|done| |by destruct Hf].
  exists g. split; [|split; [by left|done]].
  replace (gate st) with (with_once (gate st) (word g)) by (rewrite <- (i_word _ _ _ Hinv); by destruct (gate st)).
  pose proof (i_counts _ _ _ Hinv) as Hcounts. rewrite Hg in Hcounts. destruct Hcounts as (B & R & E).
  rewrite Hk, decide_False in E by done. eapply put_quiet; try done.
  - unfold stack_ok. rewrite Hg. cbn. rewrite bool_decide_true by done. by auto.
  - rewrite Hg. cbn. rewrite B, E, R, (lookup_step_eq _ _ _ _ Hk). by rewrite decide_True.
Qed.

(** Nobody sleeps unless the word says so. *)
Lemma sleepers_noted o b j : g = Held o b → asleep j (dgo_address (gate st)) = true → b = 1.
Proof.
  intros Hg Hj%(i_asleep _ _ _ Hinv). pose proof (i_stack _ _ _ Hinv j _ Hj) as Hok. unfold stack_ok in Hok.
  destruct (holds g j); [by destruct Hok as [?|[?|(f & ? & _)]]|].
  destruct Hok as [?|[(f & [= <-] & o' & _ & [Hs|Hs])|(? & _)]]; [done| |congruence|congruence]. congruence.
Qed.

Lemma broadcast_ok k : stacks st !! i = Some (Broadcast :: k) →
  let '(l, out) := _dispatch_once_gate_broadcast (gate st) i in
  ∃ g', inv n g' (stepped st i Broadcast k l out) ∧ moves i Broadcast out g g'.
Proof.
  intros Hk. pose proof (stack_index _ Hk) as Hi. unfold _dispatch_once_gate_broadcast.
  destruct (stack_cases _ _ Hk) as [(Hh & -> & [Hf|(_ & _ & ?)])|(b & Hg & [[-> _]|[_ Hf]])]; [by destruct Hf|done| |by destruct Hf].
  pose proof Hheld as Hb. rewrite Hg in Hb. destruct Hb as [_ Hb].
  rewrite (i_word _ _ _ Hinv), Hg. cbn [word]. rewrite owned_u32 by lia.
  exists Opened. split; [|split; [right; right; cbn; by rewrite decide_True|split; [done|by case_match]]].
  pose proof (i_counts _ _ _ Hinv) as Hcounts. rewrite Hg in Hcounts. destruct Hcounts as (B & R & E).
  rewrite Hk, decide_True in E by done.
  assert (Hmono : ∀ j kj, j ≠ i → stack_ok g n j kj → stack_ok Opened n j kj).
  { intros j kj Hj. apply stack_mono; try done; [rewrite Hg; cbn; by rewrite bool_decide_false|].
    intros o [Ho _]. split; [done|by right]. }
  assert (Hna : asleep i (dgo_address (gate st)) = true → False).
  { intros Ha%(i_asleep _ _ _ Hinv). rewrite Hk in Ha. congruence. }
  destruct (Z.eqb_spec (owned i b) (_dispatch_lock_value_for_self i)) as [E0|E0].
  - assert (b = 0) as -> by (unfold owned in E0; lia).
    eapply once_put_inv; try done.
    + by left.
    + cbn. lia.
    + intros _. split; [done|]. right. right. intros j Hj. apply not_true_is_false. intros Ha.
      by pose proof (sleepers_noted i 0 j Hg Ha).
  - assert (b = 1) as -> by (unfold owned in E0; lia).
    eapply once_put_inv; try done.
    + unfold stack_ok. cbn. by auto.
    + cbn. lia.
    + intros _. split; [done|]. left. by eexists.
Qed.

Lemma broadcast_slow_ok k cur : stacks st !! i = Some (BroadcastSlow cur :: k) →
  let '(l, out) := _dispatch_gate_broadcast_slow (gate st) i cur in
  ∃ g', inv n g' (stepped st i (BroadcastSlow cur) k l out) ∧ moves i (BroadcastSlow cur) out g g'.
Proof.
  intros Hk. pose proof (stack_index _ Hk) as Hi. unfold _dispatch_gate_broadcast_slow.
  destruct (stack_cases _ _ Hk) as [(Hh & -> & [Hf|(Hg & _ & [= ->])])|(b & Hg & [[_ [?|?]]|[_ Hf]])];
    [by destruct Hf| |done|done|by destruct Hf].
  rewrite owned_locked_by_self by lia. rewrite bool_decide_true by done. cbn [negb].
  exists g. split; [|split; [by left|done]].
  pose proof (i_counts _ _ _ Hinv) as Hcounts. rewrite Hg in Hcounts. destruct Hcounts as [B E].
  split; cbn [stepped put next gate stacks with_address dgo_once dgo_address].
  - apply Hinv.
  - rewrite length_insert. apply Hinv.
  - by rewrite Hg.
  - intros j kj. rewrite (lookup_step _ _ _ _ _ Hk). case_decide as Ej; [subst j; intros [= <-]; by apply stack_empty|].
    apply (i_stack _ _ _ Hinv).
  - rewrite Hg. cbn. lia.
  - intros j. by rewrite asleep_wake_all.
  - done.
  - intros j. by rewrite asleep_wake_all.
Qed.

Lemma wait_loop_ok k : stacks st !! i = Some (WaitLoop :: k) →
  let '(l, out) := wait_loop (gate st) in
  ∃ g', inv n g' (stepped st i WaitLoop k l out) ∧ moves i WaitLoop out g g'.
Proof.
  intros Hk. unfold wait_loop. rewrite (i_word _ _ _ Hinv), (word_done n) by done. case_bool_decide as Hop.
  { destruct (stack_cases _ _ Hk) as [(Hh & -> & _)|(b & Hg & _)]; [|congruence].
    apply local_step; try done. by apply stack_empty. }
  assert (Hg : ∃ o b, g = Held o b).
  { destruct (stack_cases _ _ Hk) as [(Hh & _ & [Hf|(? & _)])|(b & Hg & _)]; [|done|eauto].
    cbn in Hf. destruct g; [done|eauto|done]. }
  destruct Hg as (o & b & Hg). pose proof Hheld as Hb. rewrite Hg in Hb. destruct Hb as [Ho Hb].
  assert (Hwait : word g = owned o b) by (by rewrite Hg). rewrite Hwait, owned_waiters by lia.
  replace (b - b mod 2 + 1) with 1 by zdiv.
  replace (if owned o 1 =? owned o b then gate st else with_once (gate st) (owned o 1))
    with (with_once (gate st) (word (Held o 1))).
  2: { destruct (Z.eqb_spec (owned o 1) (owned o b)) as [E|]; [|done]. rewrite <- Hwait in E. cbn [word]. rewrite E.
       rewrite <- (i_word _ _ _ Hinv). by destruct (gate st). }
  exists (Held o 1). split; [|split; [left; by rewrite Hg|done]].
  eapply put_quiet; try done.
  - intros j kj Hj. rewrite Hg. destruct (decide (o = j)) as [<-|Hne].
    + unfold stack_ok. cbn. rewrite bool_decide_true by done. done.
    + apply stack_mono; try done; [cbn; by rewrite bool_decide_false..|].
      intros o' [Ho' [[= -> ->]|?]]; [by split; [|left]|done].
  - destruct (stack_cases _ _ Hk) as [(Hh & -> & _)|(c & Hg' & [[_ [?|?]]|[-> _]])]; try done; unfold stack_ok.
    + rewrite Hg in Hh. cbn in Hh |- *. rewrite Hh. right. left. eexists. split; [done|].
      apply bool_decide_eq_false in Hh. exists o, b. split_and!; [lia|lia|done|done|done|]. split; [done|by left].
    + rewrite Hg in Hg'. injection Hg' as -> ->. cbn. rewrite bool_decide_true by done. right. right.
      eexists. split; [done|]. cbn. eauto.
  - eapply counts_put; try done; [apply Hinv|by left|by rewrite Hg].
Qed.

Lemma once_wait_address_ok k val : stacks st !! i = Some (WaitAddress val :: k) →
  let '(l, out) := wait_address (gate st) i val in
  ∃ g', inv n g' (stepped st i (WaitAddress val) k l out) ∧ moves i (WaitAddress val) out g g'.
Proof.
  intros Hk. destruct (stack_cases _ _ Hk) as [(Hh & -> & [(o & -> & Ho & Hs)|(_ & _ & ?)])|(c & Hg & [[_ [?|?]]|[_ Hf]])];
    [|done|done|done|by destruct Hf].
  unfold wait_address. rewrite (i_word _ _ _ Hinv). destruct Hs as [Hg|Hg].
  - rewrite Hg. cbn [word]. rewrite owned_u32, Z.eqb_refl by lia. exists g. split; [|split; [left; by rewrite Hg|done]].
    eapply once_put_inv; try done; cbn [with_address dgo_once dgo_address].
    + apply Hinv.
    + apply stack_single; [done|]. exists o. split; [done|by left].
    + eapply counts_put; try done; [apply Hinv|by left].
    + intros j Hj. by rewrite asleep_sleep, decide_False.
    + intros _ _. by rewrite asleep_sleep, decide_True.
    + intros. congruence.
  - assert (E : (u32 (word g) =? owned o 1) = false).
    { apply Z.eqb_neq. rewrite Hg. destruct (self_range o) as [_ Hm]. change (u32 (word Opened)) with (2 ^ 32 - 1).
      unfold owned. zdiv. }
    rewrite E. apply local_step; try done. apply stack_single; [done|]. cbn. congruence.
Qed.

Lemma once_sleeping_ok k spurious l out : stacks st !! i = Some (Asleep :: k) → sleeping (gate st) i spurious = Some (l, out) →
  ∃ g', inv n g' (stepped st i Asleep k l out) ∧ moves i Asleep out g g'.
Proof.
  intros Hk. destruct (stack_cases _ _ Hk) as [(Hh & -> & [(o & Ho & Hs)|(_ & _ & ?)])|(c & Hg & [[_ [?|?]]|[_ Hf]])];
    [|done|done|done|by destruct Hf].
  assert (Hc : g ≠ Closed) by (by destruct Hs as [-> | ->]).
  assert (Hcl : ∀ l', counts_ok g (stepped st i Asleep [] l' (Goto WaitLoop)))
    by (intros l'; eapply counts_put; try done; [apply Hinv|by left]).
  unfold sleeping. destruct spurious; [|destruct (asleep i _) eqn:Ha; [done|]]; intros [= <- <-];
    (exists g; split; [|split; [by left|done]]); (eapply once_put_inv; try done; cbn [with_address dgo_once dgo_address]);
    try (by apply stack_single); try apply Hinv; try exact (Hcl _).
  - intros j Hj. by rewrite asleep_cancel, decide_False.
  - by rewrite asleep_cancel, decide_True.
  - intros Hg. split; [done|]. right. left. by split.
  - by rewrite Ha.
  - intros Hg. split; [done|]. right. left. by split.
Qed.

Lemma broadcast_ended k : stacks st !! i = Some (Broadcast :: k) → ended st = 1.
Proof.
  intros Hk.
  destruct (stack_cases _ _ Hk) as [(_ & -> & [Hf|(_ & _ & ?)])|(b & Hg & [[-> _]|[_ Hf]])]; [by destruct Hf|done| |by destruct Hf].
  pose proof (i_counts _ _ _ Hinv) as Hcounts. rewrite Hg in Hcounts. destruct Hcounts as (_ & _ & ->). by rewrite decide_True.
Qed.

Lemma once_continue_ok f k spurious l out : stacks st !! i = Some (f :: k) → continue i f spurious (gate st) = Some (l, out) →
  (out = Crash ∧ ∃ old_v new_v, f = WaitCheck old_v new_v ∧ k = [Callout]) ∨
  ∃ g', inv n g' (stepped st i f k l out) ∧ moves i f out g g'.
Proof.
  intros Hk. destruct f; cbn [continue].
  - intros [= <- <-]. right. by apply load_ok.
  - pose proof (try_enter_ok k Hk) as Ht. destruct (_dispatch_once_gate_tryenter _ _) as [l' e]. intros [= <- <-]. by right.
  - intros [= <- <-]. right. by apply callout_ok.
  - pose proof (broadcast_ok k Hk) as Ht. destruct (_dispatch_once_gate_broadcast _ _) as [l' e]. intros [= <- <-]. by right.
  - pose proof (broadcast_slow_ok k cur Hk) as Ht. destruct (_dispatch_gate_broadcast_slow _ _ _) as [l' e].
    intros [= <- <-]. by right.
  - pose proof (wait_loop_ok k Hk) as Ht. destruct (wait_loop _) as [l' e]. intros [= <- <-]. by right.
  - intros [= <- <-]. destruct (once_wait_check_ok k _ _ Hk) as [[-> ->]|?]; [left; eauto|by right].
  - pose proof (once_wait_address_ok k val Hk) as Ht. destruct (wait_address _ _ _) as [l' e]. intros [= <- <-]. by right.
  - intros Hs. right. by apply once_sleeping_ok with spurious.
Qed.

(** A step of a thread that is not woken for nothing is progress. *)
Lemma continue_weight f k l out : stacks st !! i = Some (f :: k) → continue i f false (gate st) = Some (l, out) →
  out ≠ Crash →
  zsum (weight (dgo_once l =? DLOCK_ONCE_DONE)) (next out f k) <
    zsum (weight (dgo_once (gate st) =? DLOCK_ONCE_DONE)) (f :: k) ∧
  ((dgo_once (gate st) =? DLOCK_ONCE_DONE) = true → (dgo_once l =? DLOCK_ONCE_DONE) = true).
Proof.
  intros Hk Hc Hnc. pose proof (stack_index _ Hk) as Hi.
  destruct f; cbn [continue] in Hc.
  - injection Hc as <- <-. destruct (_ =? _); cbn; split; auto; lia.
  - unfold _dispatch_once_gate_tryenter in Hc. destruct (Z.eqb_spec (dgo_once (gate st)) DLOCK_ONCE_UNLOCKED) as [E|E];
      injection Hc as <- <-; cbn [with_once dgo_once].
    + rewrite E. replace (_dispatch_lock_value_for_self i) with (word (Held i 0)) by apply Z.add_0_r.
      rewrite (word_done n), bool_decide_false by done. change (DLOCK_ONCE_UNLOCKED =? DLOCK_ONCE_DONE) with false.
      cbn. split; [lia|done].
    + destruct (_ =? _); cbn; split; auto; lia.
  - injection Hc as <- <-. destruct (_ =? _); cbn; split; auto; lia.
  - unfold _dispatch_once_gate_broadcast in Hc. injection Hc as <- <-. cbn [with_once dgo_once]. rewrite Z.eqb_refl.
    split; [|done]. pose proof (weights_mono k) as Hm. destruct (_ =? _), (dgo_once (gate st) =? _); cbn; lia.
  - unfold _dispatch_gate_broadcast_slow in Hc. destruct (negb _); injection Hc as <- <-; [done|].
    destruct (dgo_once (gate st) =? _) eqn:E; cbn [with_address dgo_once]; rewrite E; cbn; split; auto; lia.
  - pose proof (wait_loop_ok k Hk) as Hw. unfold wait_loop in Hw, Hc.
    destruct (dgo_once (gate st) =? DLOCK_ONCE_DONE) eqn:E; injection Hc as <- <-.
    + rewrite E. cbn. split; auto; lia.
    + destruct Hw as (g' & Hinv' & Hm). pose proof (i_word _ _ _ Hinv') as Hw. cbn [stepped put gate] in Hw.
      rewrite Hw, (word_done n) by apply Hinv'. rewrite (i_word _ _ _ Hinv), (word_done n) in E by done.
      destruct Hm as [[[Ho _]|[[_ ?]|[_ ?]]] _]; [|done|done]. cbn [next]. split; [|done].
      rewrite bool_decide_false; [cbn; lia|]. intros ->. apply bool_decide_eq_false in E. by destruct g.
  - unfold wait_check in Hc. destruct (_dispatch_lock_is_locked_by _ _); injection Hc as <- <-; [done|].
    destruct (_ =? _); cbn; split; auto; lia.
  - destruct (stack_cases _ _ Hk) as [(Hh & -> & [(o & -> & Ho & Hs)|(_ & _ & ?)])|(c & Hg & [[_ [?|?]]|[_ Hf]])];
      [|done|done|done|by destruct Hf].
    unfold wait_address in Hc. destruct Hs as [Hg|Hg]; rewrite (i_word _ _ _ Hinv), Hg in Hc.
    + cbn [word] in Hc. rewrite owned_u32, Z.eqb_refl in Hc by lia. injection Hc as <- <-. cbn [with_address dgo_once].
      destruct (_ =? _); cbn; split; auto; lia.
    + destruct (_ =? _); injection Hc as <- <-; cbn [with_address dgo_once];
        rewrite (i_word _ _ _ Hinv), Hg; change (word Opened =? DLOCK_ONCE_DONE) with true; cbn; split; auto; lia.
  - unfold sleeping in Hc. destruct (asleep i _) eqn:Ha; [done|]. injection Hc as <- <-. split; [|done].
    destruct (stack_cases _ _ Hk) as [(Hh & -> & _)|(c & Hg & [[_ [?|?]]|[_ Hf]])]; [|done|done|by destruct Hf].
    rewrite (i_word _ _ _ Hinv), (word_done n) by done. case_bool_decide as Hop; [cbn; lia|].
    by rewrite (i_awake _ _ _ Hinv i Hop Hk) in Ha.
Qed.

Lemma call_ok k : stacks st !! i = Some k → k = [] ∨ (∃ k', k = Callout :: k') →
  inv n g (put st i (Load :: k) (gate st) 0 0 0).
Proof.
  intros Hk Hcase.
  replace (gate st) with (with_once (gate st) (word g)) by (rewrite <- (i_word _ _ _ Hinv); by destruct (gate st)).
  eapply put_quiet; try done.
  - by destruct Hcase as [-> | [? ->]].
  - intros v ->. by destruct Hcase as [?|[? ?]].
  - destruct Hcase as [-> | [k' ->]].
    + apply stack_single; [|done]. pose proof (i_stack _ _ _ Hinv i _ Hk) as Hok. unfold stack_ok in Hok.
      destruct (holds g i); [|done]. by destruct Hok as [?|[?|(f & ? & _)]].
    + destruct (stack_cases _ _ Hk) as [(Hh & -> & [Hf|(_ & _ & ?)])|(b & Hg & [[-> _]|[_ Hf]])]; [by destruct Hf|done| |by destruct Hf].
      by eapply stack_nested.
  - eapply counts_put; try done; [apply Hinv| |by left].
    by destruct Hcase as [-> | [? ->]].
Qed.
End steps.

(** A crashed system: a function that calls [dispatch_once] again on its gate. *)
Definition recursive (st : system) : Prop := ∃ i old_v new_v, stacks st !! i = Some [WaitCheck old_v new_v; Callout].
Definition safe (n : nat) (st : system) : Prop := if crashed st then recursive st else ∃ g, inv n g st.

Definition actor (a : action) : nat := match a with Call i | Continue i _ => i end.

(** One step, as the gate sees it. *)
Lemma act_ok n g a st st' : (n ≤ thread_count)%nat → inv n g st → act a st = Some st' →
  (crashed st' = true ∧ recursive st') ∨
  (crashed st' = false ∧ ∃ g' f out, inv n g' st' ∧ moves (actor a) f out g g' ∧
     begun st' = begun st + match out with Goto Callout => 1 | _ => 0 end ∧
     returned st' = returned st + match out with Return => 1 | _ => 0 end ∧ (f = Broadcast → ended st = 1)).
Proof.
  intros Hn Hinv. unfold act. destruct (crashed st); [done|]. destruct a as [i|i spurious].
  - intros Ha. right.
    assert (Hk : ∃ k, stacks st !! i = Some k ∧ (k = [] ∨ ∃ k', k = Callout :: k') ∧ st' = put st i (Load :: k) (gate st) 0 0 0).
    { destruct (stacks st !! i) as [[|[] k]|]; try done; injection Ha as <-; eexists;
        (split; [done|split; [eauto|unfold put; by rewrite !Z.add_0_r]]). }
    destruct Hk as (k & Hk & Hcase & ->). split; [done|]. exists g, Load, (Goto Load). split; [by apply call_ok|].
    split; [by split; [left|]|]. done.
  - destruct (stacks st !! i) as [[|f k]|] eqn:Hk; try done. cbn [mbind option_bind].
    destruct (continue i f spurious (gate st)) as [[l out]|] eqn:Hc; [|done]. intros [= <-].
    destruct (once_continue_ok n g st i Hn Hinv f k spurious l out Hk Hc) as [[-> (ov & nv & -> & ->)]|(g' & Hinv' & Hm)].
    + left. split; [done|]. exists i, ov, nv. cbn. by apply (lookup_step_eq _ _ _ _ Hk).
    + right. assert (Hnc : out ≠ Crash) by apply Hm.
      split; [by destruct out|]. exists g', f, out. split; [by destruct out|]. split; [exact Hm|].
      split; [done|]. split; [done|]. intros ->. by eapply broadcast_ended.
Qed.

Lemma act_safe n a st st' : (n ≤ thread_count)%nat → safe n st → act a st = Some st' → safe n st'.
Proof.
  intros Hn Hs Ha. unfold safe in *. destruct (crashed st) eqn:Hc; [unfold act in Ha; by rewrite Hc in Ha|].
  destruct Hs as [g Hinv]. destruct (act_ok n g a st st' Hn Hinv Ha) as [[-> ?]|(-> & g' & ? & ? & ? & _)]; [done|by exists g'].
Qed.
Lemma once_reachable_safe n st : (n ≤ thread_count)%nat → reachable n st → safe n st.
Proof.
  intros Hn. apply steps_invariant; [by intros a st1 st2; apply act_safe|]. exists Closed. apply once_initial_inv.
Qed.

(** ** The properties *)

(** The state of the gate, as [dispatch_once] promises it: who runs the function
    and how often it was run. *)
Definition gate_is (st : system) (s : once_state) : Prop :=
  match s with
  | OnceNew => dgo_once (gate st) = DLOCK_ONCE_UNLOCKED ∧ begun st = 0 ∧ ended st = 0
  | OnceRunning o => _dispatch_lock_is_locked_by_self o (dgo_once (gate st)) = true ∧ dgo_once (gate st) ≠ DLOCK_ONCE_DONE ∧
      begun st = 1 ∧ ended st ≤ 1 ∧ ∃ k, stacks st !! o = Some k ∧ (Callout ∈ k ∨ ended st = 1)
  | OnceDone => dgo_once (gate st) = DLOCK_ONCE_DONE ∧ begun st = 1 ∧ ended st = 1
  end.

Lemma inv_gate n g st : (n ≤ thread_count)%nat → inv n g st → gate_is st (once_of g).
Proof.
  intros Hn Hinv. pose proof (i_word _ _ _ Hinv) as Hw. pose proof (i_counts _ _ _ Hinv) as Hc.
  pose proof (i_held _ _ _ Hinv) as Hh. destruct g as [|o b|]; cbn in *.
  - split_and!; [exact Hw|lia|lia].
  - destruct Hh as [Ho Hb], Hc as (B & R & E). rewrite Hw. split_and!.
    + rewrite owned_locked_by_self by lia. by apply bool_decide_true.
    + pose proof (owned_range o b ltac:(lia)). unfold DLOCK_ONCE_DONE. lia.
    + done.
    + rewrite E. case_decide; lia.
    + destruct (lookup_lt_is_Some_2 (stacks st) o) as [k Hk]; [by rewrite (i_len _ _ _ Hinv)|]. exists k. split; [done|].
      pose proof (i_stack _ _ _ Hinv o k Hk) as Hok. unfold stack_ok in Hok. cbn in Hok. rewrite bool_decide_true in Hok by done.
      rewrite Hk in E. destruct Hok as [-> |[-> |(f & -> & _)]]; [left; by left| |left; right; by left].
      right. rewrite E. by rewrite decide_True.
  - destruct Hc. by split_and!.
Qed.

Lemma act_call st i k : crashed st = false → stacks st !! i = Some (Callout :: k) →
  act (Call i) st = Some (put st i (Load :: Callout :: k) (gate st) 0 0 0).
Proof. intros Hcr Hk. unfold act, put. by rewrite Hcr, Hk, !Z.add_0_r. Qed.
Lemma act_continue st i f k l out : crashed st = false → stacks st !! i = Some (f :: k) →
  continue i f false (gate st) = Some (l, Goto out) → act (Continue i false) st = Some (stepped st i f k l (Goto out)).
Proof. intros Hcr Hk Hc. unfold act. by rewrite Hcr, Hk; cbn [mbind option_bind]; rewrite Hc. Qed.

(** The pending steps of the system, at most. *)
Definition work (st : system) : Z :=
  if crashed st then 0 else 1 + zsum (zsum (weight (dgo_once (gate st) =? DLOCK_ONCE_DONE))) (stacks st).

Lemma once_work_nonneg st : 0 ≤ work st.
Proof.
  unfold work. destruct (crashed st); [done|].
  pose proof (zsum_nonneg (zsum (weight (dgo_once (gate st) =? DLOCK_ONCE_DONE))) (stacks st)
    (λ k, zsum_nonneg _ k (weight_nonneg _))). lia.
Qed.

Lemma step_works n st i st' : (n ≤ thread_count)%nat → safe n st → act (Continue i false) st = Some st' → work st' < work st.
Proof.
  intros Hn Hs. unfold act, safe in *. destruct (crashed st) eqn:Hcr; [done|]. destruct Hs as [g Hinv].
  destruct (stacks st !! i) as [[|f k]|] eqn:Hk; try done. cbn [mbind option_bind].
  destruct (continue i f false (gate st)) as [[l out]|] eqn:Hc; [|done]. intros [= <-].
  unfold work. rewrite Hcr. cbn [crashed gate stacks].
  assert (Hnc : out = Crash ∨ out ≠ Crash) by (destruct out; auto). destruct Hnc as [-> |Hnc].
  { pose proof (once_work_nonneg st) as Hw. unfold work in Hw. rewrite Hcr in Hw.
    pose proof (zsum_nonneg (zsum (weight (dgo_once (gate st) =? DLOCK_ONCE_DONE))) (stacks st)
      (λ k, zsum_nonneg _ k (weight_nonneg _))). lia. }
  destruct (continue_weight n g st i Hn Hinv f k l out Hk Hc Hnc) as [Hlt Hmono].
  replace (match out with Crash => true | _ => false end) with false by (by destruct out).
  rewrite (zsum_insert _ _ _ _ _ Hk).
  assert (zsum (zsum (weight (dgo_once l =? DLOCK_ONCE_DONE))) (stacks st) - zsum (weight (dgo_once l =? DLOCK_ONCE_DONE)) (f :: k)
    ≤ zsum (zsum (weight (dgo_once (gate st) =? DLOCK_ONCE_DONE))) (stacks st) - zsum (weight (dgo_once (gate st) =? DLOCK_ONCE_DONE)) (f :: k)); [|lia].
  destruct (dgo_once (gate st) =? DLOCK_ONCE_DONE); [by rewrite Hmono|].
  destruct (dgo_once l =? DLOCK_ONCE_DONE); [|done].
  pose proof (zsum_insert (zsum (weight true)) (stacks st) i (f :: k) [] Hk).
  pose proof (zsum_insert (zsum (weight false)) (stacks st) i (f :: k) [] Hk).
  pose proof (zsum_le _ _ (<[i := []]> (stacks st)) weights_mono). cbn [zsum] in *. lia.
Qed.

(** C19. The gate goes from new over one running thread to done, in this order: the
    function is run by one thread, once, the gate opens after it has ended, and
    no call returns before; threads only pass an open gate.  The only crash is a
    call on the gate from within its function. *)
Theorem once_refines n st a st' :
  (n ≤ thread_count)%nat → reachable n st → act a st = Some st' →
  (crashed st' = true → recursive st') ∧
  (crashed st' = false → ∃ s s', gate_is st s ∧ gate_is st' s' ∧
     ((s' = s ∧ begun st' = begun st) ∨
      (once_enter (actor a) s = Some (s', true) ∧ begun st' = begun st + 1) ∨
      (once_leave (actor a) s = Some s' ∧ begun st' = begun st ∧ ended st = 1)) ∧
     (returned st' ≠ returned st → s' = OnceDone)).
Proof.
  intros Hn Hr Ha. pose proof (once_reachable_safe n st Hn Hr) as Hs. unfold safe in Hs.
  destruct (crashed st) eqn:Hcr; [unfold act in Ha; by rewrite Hcr in Ha|]. destruct Hs as [g Hinv].
  destruct (act_ok n g a st st' Hn Hinv Ha) as [[-> Hrec]|(-> & g' & f & out & Hinv' & (Hm & Hret & Hnc) & Hb & Hrt & He)];
    [by split|]. split; [done|]. intros _.
  exists (once_of g), (once_of g'). split; [by eapply inv_gate|]. split; [by eapply inv_gate|]. split.
  - destruct Hm as [[Hg Ho]|[[Hg ->]|[Hg ->]]]; [left|right; left|right; right].
    + split; [done|]. rewrite Hb. by destruct out as [[]| |]; rewrite ?Z.add_0_r.
    + by split.
    + split; [done|]. split; [|by apply He]. rewrite Hb.
      destruct g as [|o b|]; try done. cbn in Hg. destruct (decide (o = actor a)); [|done]. injection Hg as Hg.
      destruct g'; try done. pose proof (i_counts _ _ _ Hinv). pose proof (i_counts _ _ _ Hinv'). cbn in *. lia.
  - rewrite Hrt. intros Hne. rewrite (Hret ltac:(destruct out; [lia|done|lia])). done.
Qed.

(** C14. Every call returns: while no new calls are made, and no thread is woken for
    nothing, only so many steps are possible, and when none is, every call has
    returned, so no waiter was left asleep; or the function has called back. *)
Theorem once_terminates n st :
  (n ≤ thread_count)%nat → reachable n st →
  (∀ threads st', run act ((λ i, Continue i false) <$> threads) st = Some st' → zlen threads ≤ work st) ∧
  ((∀ i, act (Continue i false) st = None) → recursive st ∨ ∀ i k, stacks st !! i = Some k → k = []).
Proof.
  intros Hn Hr. pose proof (once_reachable_safe n st Hn Hr) as Hs. split.
  - intros threads st'. clear Hr. revert st Hs. induction threads as [|i threads IH]; intros st Hs; cbn [fmap list_fmap run].
    + intros _. apply once_work_nonneg.
    + destruct (act (Continue i false) st) as [st1|] eqn:Ha; [|done]. cbn. intros Hrun.
      pose proof (step_works n st i st1 Hn Hs Ha). specialize (IH st1 ltac:(by eapply act_safe) Hrun).
      rewrite zlen_cons. lia.
  - intros Hq. unfold safe in Hs. destruct (crashed st) eqn:Hcr; [by left|]. right. destruct Hs as [g Hinv].
    assert (Hstop : ∀ j f k, stacks st !! j = Some (f :: k) → k = [] ∧ f = Asleep ∧ asleep j (dgo_address (gate st)) = true).
    { intros j f k Hj. specialize (Hq j). unfold act in Hq. rewrite Hcr, Hj in Hq. cbn [mbind option_bind] in Hq.
      destruct (continue j f false (gate st)) as [[l out]|] eqn:Hc; [done|].
      destruct f; cbn in Hc; try done; [by destruct (_dispatch_once_gate_tryenter _ _)|]. unfold sleeping in Hc.
      destruct (asleep j _) eqn:Hs; [|done]. split; [|done].
      pose proof (i_asleep _ _ _ Hinv j Hs) as E. rewrite Hj in E. by injection E. }
    intros i [|f k] Hi; [done|]. exfalso. destruct (Hstop i f k Hi) as (-> & -> & Hsl).
    pose proof (i_stack _ _ _ Hinv i _ Hi) as Hok. unfold stack_ok in Hok.
    destruct (holds g i); [by destruct Hok as [?|[?|(f & ? & _)]]|].
    destruct Hok as [?|[(f & [= <-] & o & Ho & Hseen)|(_ & _ & ?)]]; [done| |done].
    destruct Hseen as [Hg|Hg].
    + destruct (lookup_lt_is_Some_2 (stacks st) o) as [k Hk]; [by rewrite (i_len _ _ _ Hinv)|].
      pose proof (i_stack _ _ _ Hinv o k Hk) as Hok. unfold stack_ok in Hok. rewrite Hg in Hok. cbn in Hok.
      rewrite bool_decide_true in Hok by done.
      destruct Hok as [-> |[-> |(f & -> & _)]]; by destruct (Hstop o _ _ Hk) as (? & ? & _).
    + destruct (i_duty _ _ _ Hinv i Hg Hsl) as (j & v & Hj). by destruct (Hstop j _ _ Hj) as (_ & ? & _).
Qed.

(** A function that calls [dispatch_once] on its own gate crashes, it does not
    deadlock. *)
Theorem once_recursion_crashes n st i :
  (n ≤ thread_count)%nat → reachable n st → crashed st = false → stacks st !! i = Some [Callout] →
  ∃ st', run act (Call i :: replicate 4 (Continue i false)) st = Some st' ∧ crashed st' = true.
Proof.
  intros Hn Hr Hcr Hk. pose proof (once_reachable_safe n st Hn Hr) as Hs. unfold safe in Hs. rewrite Hcr in Hs.
  destruct Hs as [g Hinv]. pose proof (stack_index n g st i Hinv _ Hk) as Hi.
  destruct (stack_cases n g st i Hinv _ _ Hk) as [(_ & _ & [Hf|(_ & _ & ?)])|(b & Hg & _)]; [by destruct Hf|done|].
  pose proof (i_held _ _ _ Hinv) as Hb. pose proof (i_word _ _ _ Hinv) as Hw.
  pose proof (word_zero n g Hb) as Hz. pose proof (word_done n g Hb) as Hd. rewrite <- Hw, Hg in Hz, Hd.
  rewrite bool_decide_false in Hz, Hd by done. rewrite Hg in Hb, Hw. destruct Hb as [_ Hb]. cbn [word] in Hw.
  cbn [replicate run]. rewrite (act_call st i [] Hcr Hk). cbn [mbind option_bind].
  rewrite (act_continue _ i Load [Callout] (gate st) TryEnter); [|done|by eapply lookup_step_eq|cbn; by rewrite Hd].
  cbn [mbind option_bind].
  rewrite (act_continue _ i TryEnter [Callout] (gate st) WaitLoop);
    [|done|by do 2 eapply lookup_step_eq|cbn; unfold _dispatch_once_gate_tryenter; by rewrite Hz].
  cbn [mbind option_bind].
  erewrite (act_continue _ i WaitLoop [Callout] _ (WaitCheck (owned i b) (owned i 1)));
    [|done|by do 3 eapply lookup_step_eq|].
  2: { cbn. unfold wait_loop. rewrite Hd, Hw, owned_waiters by lia. by replace (b - b mod 2 + 1) with 1 by zdiv. }
  cbn [mbind option_bind]. unfold act. cbn [stepped put crashed stacks next].
  erewrite lookup_step_eq by (by do 3 eapply lookup_step_eq). cbn [continue mbind option_bind]. unfold wait_check.
  rewrite owned_u32, owned_locked_by, bool_decide_true by lia. by eexists.
Qed.
End once.

(** ** Two threads: the first runs the function, the second falls asleep *)

Definition one_inside : list action := Call 0 :: replicate 2 (Continue 0 false) ++ Call 1 :: replicate 5 (Continue 1 false).
Definition inside : system := default (initial 2) (run act one_inside (initial 2)).

Lemma inside_reachable : reachable 2 inside.
Proof. apply (run_reaches act one_inside). vm_compute. reflexivity. Qed.

Example inside_stacks : stacks inside = [[Callout]; [Asleep]].
Proof. vm_compute. reflexivity. Qed.

Lemma once_refines_witness :
  crashed (default inside (act (Continue 0 false) inside)) = false ∧
  ∃ s s', gate_is inside s ∧ gate_is (default inside (act (Continue 0 false) inside)) s' ∧ s' ≠ OnceNew.
Proof.
  split; [vm_compute; reflexivity|].
  destruct (once_refines 2 inside (Continue 0 false) (default inside (act (Continue 0 false) inside))) as [_ H].
  - apply Nat.leb_le. reflexivity.
  - apply inside_reachable.
  - vm_compute. reflexivity.
  - destruct H as (s & s' & Hs & Hs' & _); [vm_compute; reflexivity|]. exists s, s'. split; [exact Hs|split; [exact Hs'|]].
    intros ->. destruct Hs' as (_ & Hb & _). vm_compute in Hb. discriminate Hb.
Defined.

(** Five more steps at most lead to the end: the function, the broadcast, waking
    the second thread, which finds the gate open. *)
Lemma once_terminates_witness :
  let finish := [0; 0; 0; 1; 1]%nat in
  zlen finish ≤ work inside ∧
  stacks (default inside (run act ((λ i, Continue i false) <$> finish) inside)) = [[]; []].
Proof.
  split; [|vm_compute; reflexivity].
  destruct (once_terminates 2 inside) as [H _]; [apply Nat.leb_le; reflexivity|apply inside_reachable|].
  apply (H _ (default inside (run act ((λ i, Continue i false) <$> [0; 0; 0; 1; 1]%nat) inside))). vm_compute. reflexivity.
Defined.

Lemma once_recursion_crashes_witness :
  ∃ st', run act (Call 0 :: replicate 4 (Continue 0 false)) inside = Some st' ∧ crashed st' = true.
Proof.
  apply (once_recursion_crashes 2 inside 0).
  - apply Nat.leb_le. reflexivity.
  - apply inside_reachable.
  - vm_compute. reflexivity.
  - vm_compute. reflexivity.
Defined.
