(* ===== verification/Apply.v ===== *)
(** * dispatch_apply (libdispatch apply.c)

    The threads of one [dispatch_apply]: the caller, thread 0, and a worker for
    each continuation [_dispatch_apply_f] pushed, which starts when the queue
    runs it, if ever before the others are done.  Each atomic operation on the
    counters of [dispatch_apply_s], each call of the block and each passage of a
    [da_once_gates] is one step of one thread.  A gate is what Once.v proves of
    [dispatch_once_f]: its steps are [once_enter] and [once_leave]. *)
From S2P Require Import Prelude Once.
From stdpp Require Import list.
From Stdlib Require Import Permutation.
Open Scope Z_scope.

(** Where a thread is in [_dispatch_apply_invoke2], with its worker index. *)
Inductive pc :=
  | Start                     (** before [os_atomic_inc_orig(&da->da_worker_index)] *)
  | Gate (w : nat)            (** [dispatch_once_f(&da->da_once_gates[w], ...)] *)
  | First (w : nat)           (** the first [os_atomic_inc_orig(&da->da_index)] *)
  | Callout (w : nat) (idx : Z)
  | Next (w : nat)            (** the one in the loop *)
  | Leave (w : nat)           (** the end of [dispatch_once_f] *)
  | WaitGate (w i : nat)      (** the loop over the gates of the others *)
  | WaitLeave (w i : nat)     (** after its [_dispatch_no_op] *)
  | Decrement (w : nat)       (** [os_atomic_dec(&da->da_thr_cnt)] *)
  | Done (w : nat).
#[export] Instance pc_eq_dec : EqDecision pc.
Proof. solve_decision. Defined.

Inductive outcome := Goto (p : pc) | Crash.

(** The object, and what the block was called with, in the order the calls ended.
    [da_freed] is set by [_dispatch_apply_destroy]. *)
Record dispatch_apply_s := {
  da_index : Z; da_iterations : Z; da_once_gates : list once_state; da_thr_cnt : Z;
  da_final_thr_cnt : Z; da_worker_index : Z; da_freed : bool; finished : list Z }.
Implicit Types da : dispatch_apply_s.

Definition with_index da (v : Z) := {| da_index := v; da_iterations := da_iterations da;
  da_once_gates := da_once_gates da; da_thr_cnt := da_thr_cnt da; da_final_thr_cnt := da_final_thr_cnt da;
  da_worker_index := da_worker_index da; da_freed := da_freed da; finished := finished da |}.
Definition with_worker_index da (v : Z) := {| da_index := da_index da; da_iterations := da_iterations da;
  da_once_gates := da_once_gates da; da_thr_cnt := da_thr_cnt da; da_final_thr_cnt := da_final_thr_cnt da;
  da_worker_index := v; da_freed := da_freed da; finished := finished da |}.
Definition with_gate da (w : nat) (s : once_state) := {| da_index := da_index da; da_iterations := da_iterations da;
  da_once_gates := <[w := s]> (da_once_gates da); da_thr_cnt := da_thr_cnt da; da_final_thr_cnt := da_final_thr_cnt da;
  da_worker_index := da_worker_index da; da_freed := da_freed da; finished := finished da |}.
Definition with_thr_cnt da (v : Z) (freed : bool) := {| da_index := da_index da; da_iterations := da_iterations da;
  da_once_gates := da_once_gates da; da_thr_cnt := v; da_final_thr_cnt := da_final_thr_cnt da;
  da_worker_index := da_worker_index da; da_freed := freed; finished := finished da |}.
Definition with_finished da (idx : Z) := {| da_index := da_index da; da_iterations := da_iterations da;
  da_once_gates := da_once_gates da; da_thr_cnt := da_thr_cnt da; da_final_thr_cnt := da_final_thr_cnt da;
  da_worker_index := da_worker_index da; da_freed := da_freed da; finished := finished da ++ [idx] |}.

(** ** The steps *)

(** [_dispatch_apply_invoke3]: take an index.  Its first turn reads [da_dc], which
    lives on the caller's stack. *)
Definition take_index da (w : nat) : dispatch_apply_s * outcome :=
  let idx := da_index da in
  (with_index da (u64 (idx + 1)), Goto (if idx <? da_iterations da then Callout w idx else Leave w)).
Definition first_index da (w : nat) (caller_returned : bool) : dispatch_apply_s * outcome :=
  let idx := da_index da in
  (with_index da (u64 (idx + 1)),
   if idx <? da_iterations da then (if caller_returned then Crash else Goto (Callout w idx)) else Goto (Leave w)).

(** After [dispatch_once_f]: only the caller waits, [DISPATCH_APPLY_INVOKE_WAIT]. *)
Definition after_gate (t w : nat) : pc := if decide (t = 0%nat) then WaitGate w 0 else Decrement w.

(** The step of thread [t] at [p]; [None] while it waits. *)
Definition invoke2 (t : nat) (p : pc) (caller_returned : bool) da : option (dispatch_apply_s * outcome) :=
  match p with
  | Done _ => None
  | _ =>
  if da_freed da then Some (da, Crash)
  else match p with
  | Start =>
      let worker_index := da_worker_index da in
      Some (with_worker_index da (u32 (worker_index + 1)),
            if worker_index <? u32 (da_final_thr_cnt da) then Goto (Gate (Z.to_nat worker_index)) else Crash)
  | Gate w =>
      match da_once_gates da !! w with
      | None => Some (da, Crash)
      | Some s => '(s, run) ← once_enter t s; Some (with_gate da w s, Goto (if run : bool then First w else after_gate t w))
      end
  | First w => Some (first_index da w caller_returned)
  | Callout w idx => Some (with_finished da idx, if caller_returned then Crash else Goto (Next w))
  | Next w => Some (take_index da w)
  | Leave w => s ← da_once_gates da !! w; s ← once_leave t s; Some (with_gate da w s, Goto (after_gate t w))
  | WaitGate w i =>
      if Z.of_nat i <? da_final_thr_cnt da then
        if decide (i = w) then Some (da, Goto (WaitGate w (S i)))
        else match da_once_gates da !! i with
        | None => Some (da, Crash)
        | Some s => '(s, run) ← once_enter t s;
                    Some (with_gate da i s, Goto (if run : bool then WaitLeave w i else WaitGate w (S i)))
        end
      else Some (da, Goto (Decrement w))
  | WaitLeave w i => s ← da_once_gates da !! i; s ← once_leave t s; Some (with_gate da i s, Goto (WaitGate w (S i)))
  | Decrement w =>
      let cnt := sint 32 (da_thr_cnt da - 1) in
      Some (with_thr_cnt da cnt (cnt =? 0), Goto (Done w))
  | Done _ => None
  end end.

(** ** The threads *)
Record system := { da : dispatch_apply_s; threads : list pc; crashed : bool }.

(** The caller has returned: the block and [da_dc] are gone. *)
Definition caller_returned (st : system) : bool := match threads st !! 0%nat with Some (Done _) => true | _ => false end.

Definition act (t : nat) (st : system) : option system :=
  if crashed st then None
  else
    p ← threads st !! t;
    '(d, out) ← invoke2 t p (caller_returned st) (da st);
    Some (match out with
          | Goto p => {| da := d; threads := <[t := p]> (threads st); crashed := false |}
          | Crash => {| da := d; threads := threads st; crashed := true |}
          end).

(** [_dispatch_apply_with_attr_f] and [_dispatch_apply_f] up to the push: [n]
    threads for [iterations] calls. *)
Definition initial (iterations : Z) (n : nat) : system :=
  {| da := {| da_index := 0; da_iterations := iterations; da_once_gates := replicate n OnceNew;
              da_thr_cnt := Z.of_nat n; da_final_thr_cnt := Z.of_nat n; da_worker_index := 0;
              da_freed := false; finished := [] |};
     threads := replicate n Start; crashed := false |}.
Definition reachable (iterations : Z) (n : nat) (st : system) : Prop := rtc (steps_to act) (initial iterations n) st.

(** ** The invariant *)

Definition worker (p : pc) : option nat :=
  match p with
  | Start => None
  | Gate w | First w | Callout w _ | Next w | Leave w | WaitGate w _ | WaitLeave w _ | Decrement w | Done w => Some w
  end.
(** The gate a thread is inside of. *)
Definition inside (p : pc) : option nat :=
  match p with First w | Callout w _ | Next w | Leave w => Some w | WaitLeave _ i => Some i | _ => None end.
(** The gates the caller has waited for. *)
Definition passed (p : pc) (v : nat) : Prop :=
  match p with WaitGate w i | WaitLeave w i => v = w ∨ (v < i)%nat | Decrement _ | Done _ => True | _ => False end.
Definition waits (p : pc) : bool := match p with WaitGate _ _ | WaitLeave _ _ => true | _ => false end.
(** The thread has found the indexes used up. *)
Definition exhausted (p : pc) : bool :=
  match p with Leave _ | WaitGate _ _ | WaitLeave _ _ | Decrement _ | Done _ => true | _ => false end.
Definition started (p : pc) : Z := match p with Start => 0 | _ => 1 end.
Definition overshot (p : pc) : Z := if exhausted p then 1 else 0.
Definition over (p : pc) : Z := match p with Done _ => 1 | _ => 0 end.
(** The index of the call under way. *)
Definition current (p : pc) : list Z := match p with Callout _ idx => [idx] | _ => [] end.

Record inv (iterations : Z) (n : nat) (st : system) : Prop := {
  a_threads : length (threads st) = n;
  a_gates : length (da_once_gates (da st)) = n;
  a_final : da_final_thr_cnt (da st) = Z.of_nat n;
  a_iterations : da_iterations (da st) = iterations;
  a_workers : da_worker_index (da st) = zsum started (threads st);
  a_worker t p w : threads st !! t = Some p → worker p = Some w → Z.of_nat w < da_worker_index (da st);
  a_inj t p t' p' w : threads st !! t = Some p → threads st !! t' = Some p' → worker p = Some w → worker p' = Some w → t = t';
  a_inside t p w : threads st !! t = Some p → inside p = Some w → da_once_gates (da st) !! w = Some (OnceRunning t);
  a_running w t : da_once_gates (da st) !! w = Some (OnceRunning t) → ∃ p, threads st !! t = Some p ∧ inside p = Some w;
  a_new w t p : da_once_gates (da st) !! w = Some OnceNew → threads st !! t = Some p → worker p = Some w → p = Gate w;
  a_done w : da_once_gates (da st) !! w = Some OnceDone → iterations ≤ da_index (da st);
  a_passed p v : threads st !! 0%nat = Some p → passed p v → (v < n)%nat → da_once_gates (da st) !! v = Some OnceDone;
  a_waits t p : threads st !! t = Some p → waits p = true → t = 0%nat;
  a_exhausted t p : threads st !! t = Some p → exhausted p = true → iterations ≤ da_index (da st);
  a_index : 0 ≤ da_index (da st) ≤ iterations + zsum overshot (threads st);
  a_calls : finished (da st) ++ mjoin (current <$> threads st) ≡ₚ seqZ 0 (Z.min (da_index (da st)) iterations);
  a_count : da_thr_cnt (da st) = Z.of_nat n - zsum over (threads st);
  a_freed : da_freed (da st) = (da_thr_cnt (da st) =? 0);
}.

Lemma apply_initial_inv iterations n : 0 ≤ iterations → (0 < n)%nat → inv iterations n (initial iterations n).
Proof.
  intros Hi Hn.
  assert (Hz : ∀ f : pc → Z, f Start = 0 → zsum f (replicate n Start) = 0).
  { intros f Hf. apply zsum_0. intros t p [-> _]%lookup_replicate. done. }
  assert (Ht : ∀ t p, replicate n Start !! t = Some p → p = Start) by (by intros t p [-> _]%lookup_replicate).
  assert (Hg : ∀ w s, replicate n OnceNew !! w = Some s → s = OnceNew) by (by intros w s [-> _]%lookup_replicate).
  split; cbn [initial da threads da_index da_iterations da_once_gates da_thr_cnt da_final_thr_cnt da_worker_index da_freed finished];
    try (by rewrite length_replicate); try done; try (by intros t p w ->%Ht).
  - by rewrite Hz.
  - by intros t p t' p' w ->%Ht.
  - by intros w t ?%Hg.
  - by intros w t p _ ->%Ht.
  - by intros w ?%Hg.
  - by intros p v ->%Ht.
  - by intros t p ->%Ht.
  - by intros t p ->%Ht.
  - rewrite Hz by done. lia.
  - rewrite Z.min_l by lia. rewrite fmap_replicate. cbn. clear. by induction n.
  - rewrite Hz by done. lia.
  - symmetry. apply Z.eqb_neq. lia.
Qed.

Lemma current_insert l t p p' : l !! t = Some p →
  current p ++ mjoin (current <$> <[t := p']> l) ≡ₚ current p' ++ mjoin (current <$> l).
Proof.
  revert t. induction l as [|q l IH]; intros [|t] Ht; try discriminate.
  - injection Ht as ->. cbn. rewrite !app_assoc. apply Permutation_app_tail, Permutation_app_comm.
  - change (<[S t := p']> (q :: l)) with (q :: <[t := p']> l). cbn. specialize (IH t Ht).
    rewrite !(Permutation_app_swap_app _ (current q)). by apply Permutation_app_head.
Qed.

(** What a step of thread [t] from [p] to [p'] does to the gate [g]. *)
Definition gate_move (t : nat) (p p' : pc) (g : nat) (s s' : once_state) : Prop :=
  (s' = s ∧ inside p' = inside p) ∨
  (s = OnceNew ∧ s' = OnceRunning t ∧ inside p = None ∧ inside p' = Some g) ∨
  (s = OnceRunning t ∧ s' = OnceDone ∧ inside p = Some g ∧ inside p' = None).

Section put.
Context (iterations : Z) (n : nat) (st : system) (t : nat) (p p' : pc) (d : dispatch_apply_s).
Context (Hinv : inv iterations n st) (Hp : threads st !! t = Some p).

Definition put : system := {| da := d; threads := <[t := p']> (threads st); crashed := false |}.

Lemma put_lookup t' : threads put !! t' = if decide (t' = t) then Some p' else threads st !! t'.
Proof. cbn. by apply (lookup_step _ _ p). Qed.

Lemma apply_put_inv w g s s' new :
  worker p = Some w → worker p' = Some w → da_final_thr_cnt d = da_final_thr_cnt (da st) →
  da_iterations d = iterations → da_worker_index d = da_worker_index (da st) →
  da_once_gates (da st) !! g = Some s → da_once_gates d = <[g := s']> (da_once_gates (da st)) →
  gate_move t p p' g s s' → (p = Gate w → g = w ∧ s' ≠ OnceNew) →
  (t = 0%nat → ∀ v, passed p' v → passed p v ∨ (v = g ∧ s' = OnceDone) ∨ da_once_gates d !! v = Some OnceDone ∨ (n ≤ v)%nat) →
  (waits p' = true → t = 0%nat) → da_index (da st) ≤ da_index d →
  ((exhausted p' = true ∨ s' = OnceDone) → iterations ≤ da_index d) →
  da_index d ≤ iterations + zsum overshot (threads st) - overshot p + overshot p' →
  seqZ 0 (Z.min (da_index d) iterations) = seqZ 0 (Z.min (da_index (da st)) iterations) ++ new →
  finished d ++ current p' ≡ₚ finished (da st) ++ current p ++ new →
  da_thr_cnt d = da_thr_cnt (da st) + over p - over p' → da_freed d = (da_thr_cnt d =? 0) →
  inv iterations n put.
Proof.
  intros Hw Hw' Hfinal Hiter Hwi Hs Hgates Hmove Hgate Hpassed Hwaits Hidx Hex Hover Hseq Hfin Hcnt Hfreed.
  assert (Hlook : ∀ v, da_once_gates d !! v = if decide (v = g) then Some s' else da_once_gates (da st) !! v)
    by (intros v; rewrite Hgates; by apply (lookup_step _ _ s)).
  assert (Hnew : ∀ v, da_once_gates d !! v = Some OnceNew → da_once_gates (da st) !! v = Some OnceNew).
  { intros v. rewrite Hlook. case_decide; [subst v|done]. intros [= ->]. destruct Hmove as [[-> _]|[[_ [? _]]|[_ [? _]]]]; done. }
  assert (Hkeep : ∀ v, da_once_gates (da st) !! v = Some OnceDone → da_once_gates d !! v = Some OnceDone).
  { intros v Hv. rewrite Hlook. case_decide; [subst v|done]. rewrite Hs in Hv. injection Hv as ->.
    by destruct Hmove as [[-> _]|[[? _]|[? _]]]. }
  split; cbn [put da]; try done.
  - cbn. rewrite length_insert. apply Hinv.
  - rewrite Hgates, length_insert. apply Hinv.
  - rewrite Hfinal. apply Hinv.
  - rewrite Hwi, (a_workers _ _ _ Hinv). cbn. rewrite (zsum_insert _ _ _ _ _ Hp).
    assert (started p = started p') as -> by (by destruct p, p'). lia.
  - intros t' q v. rewrite put_lookup, Hwi. case_decide as E; [subst t'; intros [= <-]; rewrite Hw'|by apply Hinv].
    intros [= <-]. by apply (a_worker _ _ _ Hinv t p).
  - intros t1 q1 t2 q2 v. rewrite !put_lookup. intros H1 H2 V1 V2.
    destruct (decide (t1 = t)) as [->|], (decide (t2 = t)) as [->|]; try done.
    + injection H1 as <-. apply (a_inj _ _ _ Hinv t p t2 q2 v); congruence.
    + injection H2 as <-. apply (a_inj _ _ _ Hinv t1 q1 t p v); congruence.
    + by apply (a_inj _ _ _ Hinv t1 q1 t2 q2 v).
  - intros t' q v. rewrite put_lookup, Hlook. case_decide as E.
    + subst t'. intros [= <-] Hv. destruct Hmove as [[-> Hin]|[(-> & -> & Hin & Hin')|(-> & -> & Hin & Hin')]]; [| |congruence].
      * rewrite Hin in Hv. pose proof (a_inside _ _ _ Hinv t p v Hp Hv) as Hv'. case_decide; [subst v; congruence|done].
      * rewrite Hin' in Hv. injection Hv as <-. by rewrite decide_True.
    + intros Hq Hv. pose proof (a_inside _ _ _ Hinv t' q v Hq Hv) as Hv'. case_decide; [subst v|done].
      rewrite Hs in Hv'. injection Hv' as ->. destruct Hmove as [[-> _]|[[? _]|([= ->] & _)]]; done.
  - intros v t' Hv. rewrite put_lookup. destruct (decide (v = g)) as [->|Hvg].
    + rewrite Hlook, decide_True in Hv by done. injection Hv as ->.
      destruct Hmove as [[<- Hin]|[(_ & [= ->] & _ & Hin')|(_ & ? & _)]]; [| |done].
      * destruct (a_running _ _ _ Hinv g t' Hs) as (q & Hq & Hinq). destruct (decide (t' = t)) as [->|]; [|by exists q].
        exists p'. split; [done|]. congruence.
      * exists p'. by rewrite decide_True.
    + rewrite Hlook, decide_False in Hv by done. destruct (a_running _ _ _ Hinv v t' Hv) as (q & Hq & Hinq).
      destruct (decide (t' = t)) as [->|]; [|by exists q]. exists p'. split; [done|].
      rewrite Hp in Hq. injection Hq as <-. destruct Hmove as [[_ ->]|[(_ & _ & ? & _)|(_ & _ & ? & _)]]; congruence.
  - intros v t' q Hv. rewrite put_lookup. case_decide as E; [subst t'; intros [= <-]|by apply (a_new _ _ _ Hinv), Hnew].
    rewrite Hw'. intros [= <-]. exfalso. pose proof (a_new _ _ _ Hinv w t p (Hnew w Hv) Hp Hw) as Hpg.
    destruct (Hgate Hpg) as [-> Hs']. rewrite Hlook, decide_True in Hv by done. congruence.
  - intros v. rewrite Hlook. case_decide; [subst v; intros [= ->]; auto|]. intros ?%(a_done _ _ _ Hinv). lia.
  - intros q v. rewrite put_lookup. case_decide as E; [|intros Hq Hv Hvn; by apply Hkeep, (a_passed _ _ _ Hinv q)].
    intros [= <-] Hv Hvn. destruct (Hpassed ltac:(done) v Hv) as [Hv'|[[-> ->]|[?|?]]]; [| |done|lia].
    + apply Hkeep, (a_passed _ _ _ Hinv p); [by rewrite E|done|done].
    + by rewrite Hlook, decide_True.
  - intros t' q. rewrite put_lookup. case_decide as E; [subst t'; intros [= <-]; auto|apply (a_waits _ _ _ Hinv)].
  - intros t' q. rewrite put_lookup. case_decide as E; [subst t'; intros [= <-]; auto|].
    intros Hq Hq'. pose proof (a_exhausted _ _ _ Hinv t' q Hq Hq'). lia.
  - cbn. rewrite (zsum_insert _ _ _ _ _ Hp). pose proof (a_index _ _ _ Hinv). lia.
  - rewrite Hseq. rewrite <- (a_calls _ _ _ Hinv). pose proof (current_insert _ _ _ p' Hp) as Hc. cbn.
    apply (Permutation_app_inv_l (current p)). rewrite (Permutation_app_swap_app (current p)), Hc.
    rewrite (app_assoc (finished d)), Hfin, <- !app_assoc, (Permutation_app_swap_app (current p) (finished (da st))).
    apply Permutation_app_head, Permutation_app_head, Permutation_app_comm.
  - rewrite Hcnt, (a_count _ _ _ Hinv). cbn. rewrite (zsum_insert _ _ _ _ _ Hp). lia.
Qed.
End put.

Section steps.
Context (iterations : Z) (n : nat) (st : system) (t : nat).
Context (Hn : Z.of_nat n < 2 ^ 31) (Hi : 0 ≤ iterations) (Hbound : iterations + Z.of_nat n < 2 ^ 64).
Context (Hinv : inv iterations n st).

Lemma started_bound p : threads st !! t = Some p →
  da_worker_index (da st) + 1 - started p ≤ Z.of_nat n.
Proof.
  intros Hp. rewrite (a_workers _ _ _ Hinv).
  pose proof (zsum_le_len started (<[t := Done 0]> (threads st)) ltac:(intros []; cbn; lia)) as Hle.
  rewrite (zsum_insert _ _ _ _ _ Hp) in Hle. unfold zlen in Hle. rewrite length_insert, (a_threads _ _ _ Hinv) in Hle.
  cbn in Hle. lia.
Qed.
Lemma overshot_bound p : threads st !! t = Some p → exhausted p = false → zsum overshot (threads st) + 1 ≤ Z.of_nat n.
Proof.
  intros Hp He.
  pose proof (zsum_le_len overshot (<[t := Done 0]> (threads st)) ltac:(intros []; cbn; lia)) as Hle.
  rewrite (zsum_insert _ _ _ _ _ Hp) in Hle. unfold zlen in Hle. rewrite length_insert, (a_threads _ _ _ Hinv) in Hle.
  unfold overshot at 2 3 in Hle. rewrite He in Hle. cbn in Hle. lia.
Qed.
Lemma over_bound p : threads st !! t = Some p → over p = 0 → 0 ≤ zsum over (threads st) < Z.of_nat n.
Proof.
  intros Hp Ho. split; [apply zsum_nonneg; by intros []|].
  pose proof (zsum_le_len over (<[t := Done 0]> (threads st)) ltac:(intros []; cbn; lia)) as Hle.
  rewrite (zsum_insert _ _ _ _ _ Hp) in Hle. unfold zlen in Hle. rewrite length_insert, (a_threads _ _ _ Hinv), Ho in Hle.
  cbn in Hle. lia.
Qed.

(** The object is not freed while a thread is under way. *)
Lemma not_freed p : threads st !! t = Some p → over p = 0 → da_freed (da st) = false.
Proof.
  intros Hp Ho. destruct (over_bound p Hp Ho). rewrite (a_freed _ _ _ Hinv), (a_count _ _ _ Hinv). apply Z.eqb_neq. lia.
Qed.
(** The caller has not returned while a thread is inside its gate. *)
Lemma caller_there p w : threads st !! t = Some p → inside p = Some w → worker p = Some w → caller_returned st = false.
Proof.
  intros Hp Hin Hw. unfold caller_returned. destruct (threads st !! 0%nat) as [[]|] eqn:H0; try done.
  pose proof (a_worker _ _ _ Hinv t p w Hp Hw). pose proof (started_bound p Hp).
  pose proof (a_inside _ _ _ Hinv t p w Hp Hin) as Hr.
  rewrite (a_passed _ _ _ Hinv _ w H0 ltac:(done)) in Hr; [done|]. destruct p; cbn in *; try done; lia.
Qed.
Lemma own_gate p w : threads st !! t = Some p → worker p = Some w → ∃ s, da_once_gates (da st) !! w = Some s.
Proof.
  intros Hp Hw. apply lookup_lt_is_Some_2. rewrite (a_gates _ _ _ Hinv).
  pose proof (a_worker _ _ _ Hinv t p w Hp Hw). pose proof (started_bound p Hp). destruct p; cbn in *; try done; lia.
Qed.

Lemma start_inv : threads st !! t = Some Start →
  da_worker_index (da st) < Z.of_nat n ∧
  inv iterations n (put st t (Gate (Z.to_nat (da_worker_index (da st))))
    (with_worker_index (da st) (u32 (da_worker_index (da st) + 1)))).
Proof.
  intros Hp. pose proof (started_bound Start Hp) as Hb. cbn in Hb. split; [lia|].
  assert (H0 : 0 ≤ da_worker_index (da st)) by (rewrite (a_workers _ _ _ Hinv); apply zsum_nonneg; by intros []).
  assert (Hu : u32 (da_worker_index (da st) + 1) = da_worker_index (da st) + 1) by (apply Z.mod_small; lia). rewrite Hu.
  set (w := Z.to_nat (da_worker_index (da st))).
  assert (Hfresh : ∀ t' p' , threads st !! t' = Some p' → worker p' = Some w → False).
  { intros t' p' Hp' Hw. pose proof (a_worker _ _ _ Hinv t' p' w Hp' Hw). lia. }
  assert (Hlook : ∀ t', threads (put st t (Gate w) (with_worker_index (da st) (da_worker_index (da st) + 1))) !! t' =
    if decide (t' = t) then Some (Gate w) else threads st !! t') by (intros; by apply put_lookup with Start).
  destruct Hinv as [A1 A2 A3 A4 A5 A6 A7 A8 A9 A10 A11 A12 A13 A14 A15 A16 A17 A18].
  split; cbn [put da with_worker_index da_once_gates da_final_thr_cnt da_iterations da_worker_index da_index da_thr_cnt
    da_freed finished]; try done.
  - cbn. by rewrite length_insert.
  - cbn. rewrite (zsum_insert _ _ _ _ _ Hp), A5. cbn. lia.
  - intros t' q v. rewrite Hlook. case_decide; [intros [= <-] [= <-]; lia|]. intros Hq Hv. specialize (A6 t' q v Hq Hv). lia.
  - intros t1 q1 t2 q2 v. rewrite !Hlook. intros H1 H2 V1 V2.
    destruct (decide (t1 = t)) as [->|], (decide (t2 = t)) as [->|]; try done.
    + injection H1 as <-. injection V1 as <-. by destruct (Hfresh t2 q2).
    + injection H2 as <-. injection V2 as <-. by destruct (Hfresh t1 q1).
    + by apply (A7 t1 q1 t2 q2 v).
  - intros t' q v. rewrite Hlook. case_decide; [by intros [= <-]|apply A8].
  - intros v t' Hv. destruct (A9 v t' Hv) as (q & Hq & Hin). exists q. split; [|done]. rewrite Hlook.
    rewrite decide_False; [done|]. intros ->. rewrite Hp in Hq. by injection Hq as <-.
  - intros v t' q Hv. rewrite Hlook. case_decide; [by intros [= <-] [= <-]|by apply A10].
  - intros q v. rewrite Hlook. case_decide; [by intros [= <-]|apply A12].
  - intros t' q. rewrite Hlook. case_decide; [by intros [= <-]|apply A13].
  - intros t' q. rewrite Hlook. case_decide; [by intros [= <-]|apply A14].
  - cbn. rewrite (zsum_insert _ _ _ _ _ Hp). cbn. lia.
  - cbn. rewrite <- A16. by rewrite <- (current_insert _ _ _ (Gate w) Hp).
  - cbn. rewrite (zsum_insert _ _ _ _ _ Hp). cbn. lia.
Qed.

Lemma index_word p : threads st !! t = Some p → exhausted p = false → u64 (da_index (da st) + 1) = da_index (da st) + 1.
Proof.
  intros Hp He. pose proof (overshot_bound p Hp He). pose proof (a_index _ _ _ Hinv). apply Z.mod_small. lia.
Qed.

(** The gate of a thread that stays inside or outside. *)
Lemma same_gate w : ∀ s, da_once_gates (da st) !! w = Some s → da_once_gates (da st) = <[w := s]> (da_once_gates (da st)).
Proof. intros s Hs. by rewrite list_insert_id. Qed.

Lemma index_inv p w : threads st !! t = Some p → p = First w ∨ p = Next w →
  inv iterations n (put st t (if da_index (da st) <? da_iterations (da st) then Callout w (da_index (da st)) else Leave w)
    (with_index (da st) (u64 (da_index (da st) + 1)))).
Proof.
  intros Hp Hcase.
  assert (Hf : worker p = Some w ∧ inside p = Some w ∧ exhausted p = false ∧ current p = [] ∧ over p = 0 ∧ p ≠ Gate w)
    by (by destruct Hcase as [-> | ->]).
  destruct Hf as (Hw & Hin & Hex & Hcur & Hov & Hng). destruct (own_gate p w Hp Hw) as [s Hs].
  pose proof (overshot_bound p Hp Hex) as Hb. pose proof (a_index _ _ _ Hinv) as Hidx.
  rewrite (index_word p Hp Hex).
  rewrite (a_iterations _ _ _ Hinv). pose proof (not_freed p Hp Hov) as Hnf.
  eapply (apply_put_inv iterations n st t p _ _ Hinv Hp w w s s (if da_index (da st) <? iterations then [da_index (da st)] else []));
    cbn [with_index da_final_thr_cnt da_iterations da_worker_index da_once_gates da_index da_thr_cnt da_freed finished];
    try done; try exact (a_iterations _ _ _ Hinv); try exact (a_freed _ _ _ Hinv).
  - by case_match.
  - by apply same_gate.
  - left. rewrite Hin. by case_match.
  - intros _ v. by case_match.
  - by case_match.
  - lia.
  - intros [He|He]; [destruct (Z.ltb_spec (da_index (da st)) iterations); [done|lia]|].
    subst s. pose proof (a_done _ _ _ Hinv w Hs). lia.
  - assert (overshot p = 0) as -> by (unfold overshot; by rewrite Hex).
    pose proof (zsum_nonneg overshot (threads st) ltac:(intros []; cbn; lia)).
    destruct (Z.ltb_spec (da_index (da st)) iterations); [change (overshot (Callout w (da_index (da st)))) with 0|change (overshot (Leave w)) with 1]; lia.
  - destruct (Z.ltb_spec (da_index (da st)) iterations).
    + rewrite !Z.min_l by lia. rewrite seqZ_app by lia. by rewrite Z.add_0_l.
    + rewrite !Z.min_r by lia. by rewrite app_nil_r.
  - rewrite Hcur. by destruct (Z.ltb_spec (da_index (da st)) iterations).
  - rewrite Hov. destruct (Z.ltb_spec (da_index (da st)) iterations); cbn; lia.
Qed.

(** A step that leaves the index, the calls and the count alone. *)
Lemma local_inv p p' w g s s' : threads st !! t = Some p → worker p = Some w → worker p' = Some w →
  da_once_gates (da st) !! g = Some s → gate_move t p p' g s s' → (p = Gate w → g = w ∧ s' ≠ OnceNew) →
  (t = 0%nat → ∀ v, passed p' v → passed p v ∨ (v = g ∧ s' = OnceDone) ∨ da_once_gates (da st) !! v = Some OnceDone ∨ (n ≤ v)%nat) →
  (waits p' = true → t = 0%nat) → ((exhausted p' = true ∨ s' = OnceDone) → iterations ≤ da_index (da st)) →
  (exhausted p = true → exhausted p' = true) → current p = [] → current p' = [] → over p = 0 → over p' = 0 →
  inv iterations n (put st t p' (with_gate (da st) g s')).
Proof.
  intros Hp Hw Hw' Hs Hmove Hgate Hpassed Hwaits Hex Hmono Hc Hc' Ho Ho'.
  pose proof (a_index _ _ _ Hinv) as Hidx.
  eapply (apply_put_inv iterations n st t p p' _ Hinv Hp w g s s' []);
    cbn [with_gate da_final_thr_cnt da_iterations da_worker_index da_once_gates da_index da_thr_cnt da_freed finished];
    try done; try exact (a_iterations _ _ _ Hinv); try exact (a_freed _ _ _ Hinv).
  - intros Ht v Hv. destruct (Hpassed Ht v Hv) as [?|[?|[Hd|?]]]; auto. destruct (decide (v = g)) as [->|].
    + right. left. split; [done|]. rewrite Hs in Hd. injection Hd as ->.
      by destruct Hmove as [[-> _]|[[? _]|[? _]]].
    + right. right. left. by rewrite list_lookup_insert_ne.
  - assert (overshot p ≤ overshot p'); [|lia]. unfold overshot.
    destruct (exhausted p); [by rewrite Hmono|by destruct (exhausted p')].
  - by rewrite app_nil_r.
  - by rewrite Hc, Hc'.
  - lia.
Qed.

Lemma callout_inv w idx : threads st !! t = Some (Callout w idx) → inv iterations n (put st t (Next w) (with_finished (da st) idx)).
Proof.
  intros Hp. destruct (own_gate _ w Hp eq_refl) as [s Hs].
  pose proof (a_inside _ _ _ Hinv t _ w Hp eq_refl) as Hr. pose proof (a_index _ _ _ Hinv).
  eapply (apply_put_inv iterations n st t _ (Next w) _ Hinv Hp w w s s []);
    cbn [with_finished da_final_thr_cnt da_iterations da_worker_index da_once_gates da_index da_thr_cnt da_freed finished];
    try done; try exact (a_iterations _ _ _ Hinv); try exact (a_freed _ _ _ Hinv).
  - by apply same_gate.
  - by left.
  - intros [?|?]; [done|congruence].
  - change (overshot (Callout w idx)) with 0. change (overshot (Next w)) with 0. lia.
  - by rewrite app_nil_r.
  - cbn. by rewrite !app_nil_r.
  - cbn. lia.
Qed.

(** Once the loop of the caller is past the last gate. *)
Lemma wait_end_inv w i : threads st !! t = Some (WaitGate w i) → (n ≤ i)%nat → inv iterations n (put st t (Decrement w) (da st)).
Proof.
  intros Hp Hin. destruct (own_gate _ w Hp eq_refl) as [s Hs].
  replace (da st) with (with_gate (da st) w s)
    by (unfold with_gate; rewrite list_insert_id by done; by destruct (da st)).
  eapply local_inv; try done; [by left| |].
  - intros _ v _. destruct (decide (n ≤ v)%nat); [by right; right; right|]. left. cbn. right. lia.
  - intros _. by apply (a_exhausted _ _ _ Hinv t _ Hp).
Qed.
Lemma wait_own_inv w : threads st !! t = Some (WaitGate w w) → inv iterations n (put st t (WaitGate w (S w)) (da st)).
Proof.
  intros Hp. destruct (own_gate _ w Hp eq_refl) as [s Hs].
  replace (da st) with (with_gate (da st) w s)
    by (unfold with_gate; rewrite list_insert_id by done; by destruct (da st)).
  eapply local_inv; try done; [by left| | |].
  - intros _ v [->|Hv]; left; cbn; [by left|]. destruct (decide (v = w)); [by left|right; lia].
  - by intros _; apply (a_waits _ _ _ Hinv t _ Hp).
  - intros _. by apply (a_exhausted _ _ _ Hinv t _ Hp).
Qed.

Lemma decrement_inv w : threads st !! t = Some (Decrement w) →
  let cnt := sint 32 (da_thr_cnt (da st) - 1) in inv iterations n (put st t (Done w) (with_thr_cnt (da st) cnt (cnt =? 0))).
Proof.
  intros Hp cnt. subst cnt. destruct (own_gate _ w Hp eq_refl) as [s Hs].
  destruct (over_bound _ Hp eq_refl). pose proof (a_count _ _ _ Hinv) as Hc. pose proof (a_index _ _ _ Hinv).
  rewrite sint_id by lia.
  eapply (apply_put_inv iterations n st t _ (Done w) _ Hinv Hp w w s s []);
    cbn [with_thr_cnt da_final_thr_cnt da_iterations da_worker_index da_once_gates da_index da_thr_cnt da_freed finished];
    try done; try exact (a_iterations _ _ _ Hinv).
  - by apply same_gate.
  - by left.
  - intros _ v _. by left.
  - intros _. by apply (a_exhausted _ _ _ Hinv t _ Hp).
  - change (overshot (Decrement w)) with 1. change (overshot (Done w)) with 1. lia.
  - by rewrite app_nil_r.
  - cbn. lia.
Qed.

(** Entering, leaving and passing gates. *)
Lemma gate_inv w s s' run : threads st !! t = Some (Gate w) → da_once_gates (da st) !! w = Some s →
  once_enter t s = Some (s', run) → inv iterations n (put st t (if run then First w else after_gate t w) (with_gate (da st) w s')).
Proof.
  intros Hp Hs. destruct s; cbn; try done; intros [= <- <-].
  - eapply local_inv; try done; [right; left; by split_and!|by intros [?|?]].
  - assert (Hdone : iterations ≤ da_index (da st)) by by apply (a_done _ _ _ Hinv w).
    unfold after_gate. case_decide; (eapply local_inv; try done; [by left|..]).
    intros _ v [->|?]; [by right; left|lia].
Qed.
Lemma leave_inv w : threads st !! t = Some (Leave w) →
  da_once_gates (da st) !! w = Some (OnceRunning t) ∧ inv iterations n (put st t (after_gate t w) (with_gate (da st) w OnceDone)).
Proof.
  intros Hp. pose proof (a_inside _ _ _ Hinv t _ w Hp eq_refl) as Hs. split; [done|].
  pose proof (a_exhausted _ _ _ Hinv t _ Hp eq_refl) as Hex.
  unfold after_gate. case_decide; (eapply local_inv; try done; [by right; right|..]).
  intros _ v [->|?]; [by right; left|lia].
Qed.
Lemma wait_gate_inv w i s s' run : threads st !! t = Some (WaitGate w i) → i ≠ w → da_once_gates (da st) !! i = Some s →
  once_enter t s = Some (s', run) → inv iterations n (put st t (if run then WaitLeave w i else WaitGate w (S i)) (with_gate (da st) i s')).
Proof.
  intros Hp Hne Hs. pose proof (a_exhausted _ _ _ Hinv t _ Hp eq_refl) as Hex. pose proof (a_waits _ _ _ Hinv t _ Hp eq_refl).
  destruct s; cbn; try done; intros [= <- <-].
  - eapply local_inv; try done; [right; left; by split_and!|]. intros _ v Hv. by left.
  - eapply local_inv; try done; [by left|]. intros _ v [->|Hv]; [left; by left|].
    destruct (decide (v = i)) as [->|]; [by right; left|left; right; lia].
Qed.
Lemma wait_leave_inv w i : threads st !! t = Some (WaitLeave w i) →
  da_once_gates (da st) !! i = Some (OnceRunning t) ∧ inv iterations n (put st t (WaitGate w (S i)) (with_gate (da st) i OnceDone)).
Proof.
  intros Hp. pose proof (a_inside _ _ _ Hinv t _ i Hp eq_refl) as Hs. split; [done|].
  pose proof (a_exhausted _ _ _ Hinv t _ Hp eq_refl) as Hex. pose proof (a_waits _ _ _ Hinv t _ Hp eq_refl).
  eapply local_inv; try done; [by right; right|]. intros _ v [->|Hv]; [left; by left|].
  destruct (decide (v = i)) as [->|]; [by right; left|left; right; lia].
Qed.

Lemma apply_act_inv st' : crashed st = false → act t st = Some st' → crashed st' = false ∧ inv iterations n st'.
Proof.
  intros Hcr. unfold act. rewrite Hcr. destruct (threads st !! t) as [p|] eqn:Hp; [|done]. cbn [mbind option_bind].
  destruct (invoke2 t p (caller_returned st) (da st)) as [[d out]|] eqn:Hstep; [|done]. cbn [mbind option_bind].
  assert (Hgoal : (∃ p', out = Goto p' ∧ inv iterations n (put st t p' d)) →
    Some (match out with Goto p => {| da := d; threads := <[t := p]> (threads st); crashed := false |}
          | Crash => {| da := d; threads := threads st; crashed := true |} end) = Some st' → crashed st' = false ∧ inv iterations n st').
  { intros (p' & -> & H). by intros [= <-]. }
  apply Hgoal. clear Hgoal st'. unfold invoke2 in Hstep.
  destruct (decide (over p = 0)) as [Ho|Ho]; [rewrite (not_freed p Hp Ho) in Hstep|by destruct p].
  destruct p; [| | | | | | | | |done].
  - destruct (start_inv Hp) as [Hlt Hok]. rewrite (a_final _ _ _ Hinv) in Hstep.
    assert (0 ≤ da_worker_index (da st)) by (rewrite (a_workers _ _ _ Hinv); apply zsum_nonneg; by intros []).
    unfold u32 at 2 in Hstep. rewrite (Z.mod_small (Z.of_nat n)), (proj2 (Z.ltb_lt _ _) Hlt) in Hstep by lia.
    injection Hstep as <- <-. eauto.
  - destruct (own_gate _ w Hp eq_refl) as [s Hs]. rewrite Hs in Hstep.
    destruct (once_enter t s) as [[s' run]|] eqn:He; [|done]. injection Hstep as <- <-. eexists. split; [done|]. by eapply gate_inv.
  - rewrite (caller_there _ w Hp eq_refl eq_refl) in Hstep. unfold first_index in Hstep. injection Hstep as <- <-.
    pose proof (index_inv _ w Hp (or_introl eq_refl)) as Hok. case_match; eauto.
  - rewrite (caller_there _ w Hp eq_refl eq_refl) in Hstep. injection Hstep as <- <-. eexists. split; [done|]. by apply callout_inv.
  - injection Hstep as <- <-. eexists. split; [done|]. apply (index_inv (Next w) w); [done|by right].
  - destruct (leave_inv w Hp) as [Hs Hok]. rewrite Hs in Hstep. cbn in Hstep. rewrite decide_True in Hstep by done.
    injection Hstep as <- <-. eauto.
  - rewrite (a_final _ _ _ Hinv) in Hstep. destruct (Z.ltb_spec (Z.of_nat i) (Z.of_nat n)).
    + destruct (decide (i = w)) as [->|Hne]; [injection Hstep as <- <-; eexists; split; [done|]; by apply wait_own_inv|].
      destruct (lookup_lt_is_Some_2 (da_once_gates (da st)) i) as [s Hs]; [rewrite (a_gates _ _ _ Hinv); lia|].
      rewrite Hs in Hstep. destruct (once_enter t s) as [[s' run]|] eqn:He; [|done]. injection Hstep as <- <-.
      eexists. split; [done|]. by eapply wait_gate_inv.
    + injection Hstep as <- <-. eexists. split; [done|]. apply wait_end_inv with i; [done|lia].
  - destruct (wait_leave_inv w i Hp) as [Hs Hok]. rewrite Hs in Hstep. cbn in Hstep. rewrite decide_True in Hstep by done.
    injection Hstep as <- <-. eauto.
  - injection Hstep as <- <-. eexists. split; [done|]. by apply decrement_inv.
Qed.
End steps.

(** ** The properties *)

(** An upper bound on the steps left. *)
Definition weight (n : nat) (p : pc) : Z :=
  let n := Z.of_nat n in
  match p with
  | Start => 2 * n + 8 | Gate _ => 2 * n + 7 | First _ | Callout _ _ => 2 * n + 6 | Next _ => 2 * n + 5 | Leave _ => 2 * n + 4
  | WaitGate _ i => 2 * Z.max 0 (n - Z.of_nat i) + 2 | WaitLeave _ i => 2 * Z.max 0 (n - Z.of_nat i) + 1
  | Decrement _ => 1 | Done _ => 0
  end.
Definition work (iterations : Z) (n : nat) (st : system) : Z :=
  3 * Z.max 0 (iterations - da_index (da st)) + zsum (weight n) (threads st).

Lemma apply_work_nonneg iterations n st : 0 ≤ work iterations n st.
Proof.
  unfold work. pose proof (zsum_nonneg (weight n) (threads st)) as H.
  assert (∀ p, 0 ≤ weight n p) by (intros []; cbn; lia). specialize (H H0). lia.
Qed.

Section properties.
Context (iterations : Z) (n : nat).
Context (Hpos : (0 < n)%nat) (Hn : Z.of_nat n < 2 ^ 31) (Hi : 0 ≤ iterations) (Hbound : iterations + Z.of_nat n < 2 ^ 64).

Lemma apply_reachable_inv st : reachable iterations n st → crashed st = false ∧ inv iterations n st.
Proof.
  apply (steps_invariant act (λ st, crashed st = false ∧ inv iterations n st)).
  - intros t st1 st2 [Hcr Hinv]. by apply apply_act_inv.
  - split; [done|]. by apply apply_initial_inv.
Qed.

Lemma step_weight st t p p' d : inv iterations n st → threads st !! t = Some p →
  invoke2 t p (caller_returned st) (da st) = Some (d, Goto p') →
  3 * Z.max 0 (iterations - da_index d) + weight n p' < 3 * Z.max 0 (iterations - da_index (da st)) + weight n p.
Proof.
  intros Hinv Hp. pose proof (a_final _ _ _ Hinv) as Hf. pose proof (a_iterations _ _ _ Hinv) as Hit.
  unfold invoke2. destruct p; destruct (da_freed (da st)); try done.
  - case_match; [|done]. intros [= <- <-]. cbn. lia.
  - destruct (da_once_gates (da st) !! w) as [s|]; [|done]. destruct (once_enter t s) as [[s' run]|]; [|done].
    intros [= <- <-]. unfold after_gate. destruct run; [|case_decide]; cbn; lia.
  - unfold first_index. rewrite (index_word _ _ st t Hbound Hinv _ Hp eq_refl), Hit.
    destruct (Z.ltb_spec (da_index (da st)) iterations); [destruct (caller_returned st)|]; intros [= <- <-]; cbn; lia.
  - destruct (caller_returned st); intros [= <- <-]. cbn. lia.
  - unfold take_index. rewrite (index_word _ _ st t Hbound Hinv _ Hp eq_refl), Hit.
    destruct (Z.ltb_spec (da_index (da st)) iterations); intros [= <- <-]; cbn; lia.
  - destruct (da_once_gates (da st) !! w) as [s|]; [|done]. cbn. destruct (once_leave t s); [|done].
    intros [= <- <-]. unfold after_gate. case_decide; cbn; lia.
  - rewrite Hf. destruct (Z.ltb_spec (Z.of_nat i) (Z.of_nat n)).
    + case_decide; [intros [= <- <-]; cbn; lia|]. destruct (da_once_gates (da st) !! i) as [s|]; [|done].
      destruct (once_enter t s) as [[s' run]|]; [|done]. intros [= <- <-]. destruct run; cbn; lia.
    + intros [= <- <-]. cbn. lia.
  - destruct (da_once_gates (da st) !! i) as [s|] eqn:Hg; [|done]. cbn. destruct (once_leave t s); [|done].
    apply lookup_lt_Some in Hg. rewrite (a_gates _ _ _ Hinv) in Hg. intros [= <- <-]. cbn. lia.
  - intros [= <- <-]. cbn. lia.
Qed.

Lemma act_works st t st' : inv iterations n st → act t st = Some st' → crashed st' = false →
  work iterations n st' < work iterations n st.
Proof.
  intros Hinv. unfold act. destruct (crashed st); [done|]. destruct (threads st !! t) as [p|] eqn:Hp; [|done].
  cbn [mbind option_bind]. destruct (invoke2 t p _ _) as [[d [p'|]]|] eqn:Hs; [|by intros [= <-]|done].
  intros [= <-] _. unfold work. cbn [da threads]. rewrite (zsum_insert _ _ _ _ _ Hp).
  pose proof (step_weight st t p p' d Hinv Hp Hs). lia.
Qed.

(** A thread inside a gate can always go on. *)
Lemma inside_moves st t p w : inv iterations n st → threads st !! t = Some p → inside p = Some w →
  invoke2 t p (caller_returned st) (da st) ≠ None.
Proof.
  intros Hinv Hp Hin. pose proof (a_inside _ _ _ Hinv t p w Hp Hin) as Hg. unfold invoke2.
  destruct p; cbn in Hin; try done; injection Hin as <-; destruct (da_freed (da st)); try done;
    rewrite Hg; cbn; by rewrite decide_True.
Qed.

(** A thread that cannot go on waits for one that can. *)
Lemma blocked_by st t p : inv iterations n st → threads st !! t = Some p → over p = 0 →
  invoke2 t p (caller_returned st) (da st) = None →
  ∃ t' p', threads st !! t' = Some p' ∧ p' ≠ Start ∧ invoke2 t' p' (caller_returned st) (da st) ≠ None.
Proof.
  intros Hinv Hp Ho Hnone.
  assert (Hgate : ∀ g s, da_once_gates (da st) !! g = Some s → once_enter t s = None →
    ∃ t' p', threads st !! t' = Some p' ∧ p' ≠ Start ∧ invoke2 t' p' (caller_returned st) (da st) ≠ None).
  { intros g [|o|] Hg; try done. intros _. destruct (a_running _ _ _ Hinv g o Hg) as (q & Hq & Hin). exists o, q.
    split; [done|]. split; [by intros ->|by eapply inside_moves]. }
  destruct (inside p) as [w|] eqn:Hin; [by destruct (inside_moves st t p w Hinv Hp Hin)|].
  unfold invoke2 in Hnone. destruct p; try done; destruct (da_freed (da st)); try done.
  - destruct (da_once_gates (da st) !! w) as [s|] eqn:Hg; [|done]. destruct (once_enter t s) as [[??]|] eqn:He; [done|eauto].
  - destruct (_ <? _); [|done]. case_decide; [done|]. destruct (da_once_gates (da st) !! i) as [s|] eqn:Hg; [|done].
    destruct (once_enter t s) as [[??]|] eqn:He; [done|eauto].
Qed.

Lemma act_none st t p : crashed st = false → threads st !! t = Some p →
  act t st = None ↔ invoke2 t p (caller_returned st) (da st) = None.
Proof. intros Hcr Hp. unfold act. rewrite Hcr, Hp. cbn. by destruct (invoke2 _ _ _ _) as [[??]|]. Qed.

Lemma quiet_over st : reachable iterations n st → (∀ t, threads st !! t ≠ Some Start → act t st = None) →
  ∀ t p, threads st !! t = Some p → p = Start ∨ over p = 1.
Proof.
  intros Hr Hq t p Hp. destruct (apply_reachable_inv st Hr) as [Hcr Hinv].
  destruct (decide (p = Start)) as [?|Hs]; [by left|]. right. destruct (decide (over p = 0)) as [Ho|]; [|by destruct p].
  assert (Hno : invoke2 t p (caller_returned st) (da st) = None) by (apply act_none; [done..|apply Hq; congruence]).
  destruct (blocked_by st t p Hinv Hp Ho Hno) as (t' & p' & Hp' & Hs' & Hm). destruct Hm.
  apply act_none; [done..|]. apply Hq. congruence.
Qed.
End properties.
