(* ===== verification/ApplyEntry.v ===== *)
(** * How dispatch_apply chooses its threads (libdispatch apply.c)

    The number of threads of a call, from the attribute, the nesting and what
    the system offers; the way the call takes; the width it reserves on the
    queues between the one it was given and their root; the serial loop.  The
    threads themselves are in Apply.v. *)
From S2P Require Import Prelude Kernel.
From stdpp Require Import list.
Open Scope Z_scope.

(** What the system offers: [_dispatch_qos_max_parallelism] and
    [_dispatch_cluster_max_parallelism]. *)
Class Parallelism := {
  _dispatch_qos_max_parallelism : Z → bool → Z;
  _dispatch_cluster_max_parallelism : Z → Z;
  qos_max_range qos active : 0 ≤ _dispatch_qos_max_parallelism qos active < 2 ^ 31;
  cluster_max_range qos : 0 ≤ _dispatch_cluster_max_parallelism qos < 2 ^ 32;
}.

Definition SIZE_MAX : Z := 2 ^ 64 - 1.
Definition DISPATCH_APPLY_MAX : Z := 65535.

(** ** Attributes *)

Definition DISPATCH_APPLY_ATTR_SIG : Z := 2702880768. (* 0xA11AB000 *)
Record dispatch_apply_attr_s := { sig : Z; flags : Z; per_cluster_parallelism : Z; guard : Z }.
Inductive entity := DISPATCH_APPLY_ATTR_ENTITY_CPU | DISPATCH_APPLY_ATTR_ENTITY_CLUSTER.

(** An attribute knows the address it was initialised at. *)
Definition _dispatch_attr_is_initialized (address : Z) (attr : dispatch_apply_attr_s) : bool :=
  (sig attr =? DISPATCH_APPLY_ATTR_SIG) && (u64 (Z.lnot (guard attr)) =? address).
Definition dispatch_apply_attr_init (address : Z) : dispatch_apply_attr_s :=
  {| sig := DISPATCH_APPLY_ATTR_SIG; flags := 0; per_cluster_parallelism := 0; guard := u64 (Z.lnot address) |}.
Definition dispatch_apply_attr_destroy : dispatch_apply_attr_s :=
  {| sig := 0; flags := 0; per_cluster_parallelism := 0; guard := 0 |}.
Definition _dispatch_apply_da_copy_attr (dst : Z) (src : option dispatch_apply_attr_s) : option dispatch_apply_attr_s :=
  src ← src;
  let attr := dispatch_apply_attr_init dst in
  Some {| sig := sig attr; flags := flags src; per_cluster_parallelism := per_cluster_parallelism src; guard := guard attr |}.

(** [None] is a crash of the client. *)
Definition dispatch_apply_attr_set_per_cluster_parallelism (address : Z) (attr : dispatch_apply_attr_s) (threads_per_cluster : Z)
    : option dispatch_apply_attr_s :=
  if threads_per_cluster =? 0 then None
  else if 1 <? threads_per_cluster then None
  else if negb (_dispatch_attr_is_initialized address attr) then None
  else Some {| sig := sig attr; flags := flags attr; per_cluster_parallelism := threads_per_cluster; guard := guard attr |}.
Definition dispatch_apply_attr_set_parallelism (address : Z) (attr : dispatch_apply_attr_s) (e : entity) (threads_per_entity : Z)
    : option dispatch_apply_attr_s :=
  match e with
  | DISPATCH_APPLY_ATTR_ENTITY_CPU => if negb (threads_per_entity =? 1) then None else Some attr
  | DISPATCH_APPLY_ATTR_ENTITY_CLUSTER => dispatch_apply_attr_set_per_cluster_parallelism address attr threads_per_entity
  end.

(** ** The number of threads *)
Section threads.
Context `{Parallelism}.

Definition _dispatch_apply_calc_thread_count_for_cluster (attr : option dispatch_apply_attr_s) (qos : Z) : Z :=
  match attr with
  | Some attr =>
      if 0 <? per_cluster_parallelism attr then
        let rc := _dispatch_cluster_max_parallelism qos in
        if 0 <? rc then u32 (rc * u32 (per_cluster_parallelism attr)) else 0
      else SIZE_MAX
  | None => SIZE_MAX
  end.

(** An attribute comes with its address. *)
Definition _dispatch_apply_calc_thread_count (attr : option (Z * dispatch_apply_attr_s)) (nested qos : Z) (active : bool) : option Z :=
  match attr with
  | None =>
      let thr_cnt := _dispatch_qos_max_parallelism qos active in
      Some (if negb (nested =? 0) then (if nested <? thr_cnt then thr_cnt / nested else 1) else thr_cnt)
  | Some (address, a) =>
      if negb (_dispatch_attr_is_initialized address a) then None
      else if negb (nested =? 0) then Some 1
      else Some (Z.min (_dispatch_qos_max_parallelism qos active) (_dispatch_apply_calc_thread_count_for_cluster (Some a) qos))
  end.

Definition new_nested (attr : bool) (nested iterations : Z) : Z :=
  if attr then DISPATCH_APPLY_MAX
  else if nested =? 0 then iterations
  else if (nested <? DISPATCH_APPLY_MAX) && (iterations <? DISPATCH_APPLY_MAX) then u64 (nested * iterations) else DISPATCH_APPLY_MAX.

(** What a query answers. *)
Inductive query := DISPATCH_APPLY_ATTR_QUERY_VALID | DISPATCH_APPLY_ATTR_QUERY_LIKELY_WORKERS | DISPATCH_APPLY_ATTR_QUERY_MAXIMUM_WORKERS.
Definition DISPATCH_QOS_USER_INTERACTIVE : Z := 6.
Definition query_maximum (attr : option (Z * dispatch_apply_attr_s)) (current_scope : bool) (current_nested current_qos : Z) : option Z :=
  if current_scope then _dispatch_apply_calc_thread_count attr current_nested current_qos true
  else _dispatch_apply_calc_thread_count attr 0 DISPATCH_QOS_USER_INTERACTIVE false.
Definition dispatch_apply_attr_query (attr : option (Z * dispatch_apply_attr_s)) (which : query) (current_scope : bool)
    (current_nested current_qos : Z) : option Z :=
  match which with
  | DISPATCH_APPLY_ATTR_QUERY_VALID =>
      n ← query_maximum attr current_scope current_nested current_qos; Some (if n =? 0 then 0 else 1)
  | DISPATCH_APPLY_ATTR_QUERY_LIKELY_WORKERS => _dispatch_apply_calc_thread_count attr current_nested current_qos true
  | DISPATCH_APPLY_ATTR_QUERY_MAXIMUM_WORKERS => query_maximum attr current_scope current_nested current_qos
  end.

(** ** The way of a call *)

(** What the code asks of the queue. *)
Record queue_facts := {
  priority_qos : Z;            (** [_dispatch_priority_qos] or the fallback *)
  dq_width : Z;
  do_targetq : bool;           (** not a root queue *)
  custom_pri_workloop : bool;
  drain_locked_by_self : bool;
  is_current : bool            (** [dq == old_dq] *)
}.

Inductive route :=
  | Return                     (** nothing to do *)
  | ClientCrash
  | Serial                     (** [_dispatch_apply_serial] in place *)
  | AsyncAndWaitSerial
  | SyncSerial
  | SyncRedirect (thr_cnt nested : Z)
  | Wide (thr_cnt nested : Z). (** [_dispatch_apply_f] *)

Definition _dispatch_apply_with_attr_f (iterations : Z) (attr : option (Z * dispatch_apply_attr_s)) (dq : queue_facts)
    (nested current_qos : Z) : route :=
  let uninitialized := match attr with Some (address, a) => negb (_dispatch_attr_is_initialized address a) | None => false end in
  if iterations =? 0 then Return
  else if uninitialized then ClientCrash
  else
  let qos := if do_targetq dq then current_qos else priority_qos dq in
  match _dispatch_apply_calc_thread_count attr nested qos true with
  | None => ClientCrash
  | Some thr_cnt =>
      if thr_cnt =? 0 then ClientCrash
      else
        let new_nested := new_nested (bool_decide (is_Some attr)) nested iterations in
        let thr_cnt := if iterations <? thr_cnt then iterations else thr_cnt in
        if custom_pri_workloop dq then (if drain_locked_by_self dq then Serial else AsyncAndWaitSerial)
        else if (dq_width dq =? 1) || (thr_cnt <=? 1) then SyncSerial
        else if do_targetq dq then (if is_current dq then SyncSerial else SyncRedirect (sint 32 thr_cnt) new_nested)
        else Wide (sint 32 thr_cnt) new_nested
  end.
End threads.

(** ** The serial loop *)

(** The indexes called, in order. *)
Fixpoint serial_loop (fuel : nat) (idx iter : Z) : option (list Z) :=
  match fuel with
  | O => None
  | S fuel =>
      let next := u64 (idx + 1) in
      calls ← (if next <? iter then serial_loop fuel next iter else Some []); Some (idx :: calls)
  end.
Definition _dispatch_apply_serial (fuel : nat) (iter : Z) : option (list Z) := serial_loop fuel 0 iter.

(** ** The width of queues *)

Definition DISPATCH_QUEUE_WIDTH_FULL : Z := 4096. (* 0x1000 *)
Definition DISPATCH_QUEUE_WIDTH_FULL_BIT : Z := 9007199254740992. (* 0x0020000000000000 *)
Definition DISPATCH_QUEUE_WIDTH_MASK : Z := 18012199486226432. (* 0x003ffe0000000000 *)
Definition DISPATCH_QUEUE_WIDTH_INTERVAL : Z := 2199023255552. (* 0x0000020000000000 *)
Definition DISPATCH_QUEUE_WIDTH_SHIFT : Z := 41.

Definition _dq_state_extract_width_bits (dq_state : Z) : Z :=
  Z.shiftr (Z.land dq_state DISPATCH_QUEUE_WIDTH_MASK) DISPATCH_QUEUE_WIDTH_SHIFT.
Definition _dq_state_available_width (dq_state : Z) : Z :=
  if Z.land dq_state DISPATCH_QUEUE_WIDTH_FULL_BIT =? 0
  then DISPATCH_QUEUE_WIDTH_FULL - _dq_state_extract_width_bits dq_state else 0.

(** A queue that is not a root: its width and its state word. *)
Record queue := { q_width : Z; dq_state : Z }.
Definition set_dq_state (q : queue) (s : Z) : queue := {| q_width := q_width q; dq_state := s |}.

(** The atomic loop as of its last turn. *)
Definition _dispatch_queue_try_reserve_apply_width (dq : queue) (da_width : Z) : queue * Z :=
  if q_width dq =? 1 then (dq, 0)
  else
    let width := _dq_state_available_width (dq_state dq) in
    if width =? 0 then (dq, 0)
    else
      let width := if da_width <? width then da_width else width in
      (set_dq_state dq (u64 (dq_state dq + width * DISPATCH_QUEUE_WIDTH_INTERVAL)), width).

(** On the queues from the top one down to the one where it stops. *)
Definition _dispatch_queue_relinquish_width (queues : list queue) (da_width : Z) : list queue :=
  (λ dq, set_dq_state dq (u64 (dq_state dq - da_width * DISPATCH_QUEUE_WIDTH_INTERVAL))) <$> queues.

(** The loop of [_dispatch_apply_redirect]: [above] are the queues done, [below]
    those to come, down to the root.  It ends with the width and the thread count
    for [_dispatch_apply_f], or with [None] for the serial loop. *)
Fixpoint redirect_loop (above below : list queue) (da_width da_thr_cnt : Z) : list queue * option (Z * Z) :=
  match below with
  | [] => (above, Some (da_width, da_thr_cnt))
  | dq :: below =>
      let '(dq, width) := _dispatch_queue_try_reserve_apply_width dq da_width in
      if width <? da_width then
        let excess := da_width - width in
        let above := _dispatch_queue_relinquish_width above excess in
        if width =? 0 then (above ++ dq :: below, None)
        else redirect_loop (above ++ [dq]) below width (da_thr_cnt - excess)
      else redirect_loop (above ++ [dq]) below da_width da_thr_cnt
  end.

(** What [_dispatch_apply_redirect] does: the queues while the threads run and
    the threads, or [None] for the serial loop; and the queues afterwards. *)
Definition _dispatch_apply_redirect (queues : list queue) (da_thr_cnt : Z) : option (list queue * Z) * list queue :=
  match redirect_loop [] queues (da_thr_cnt - 1) da_thr_cnt with
  | (held, Some (da_width, da_thr_cnt)) => (Some (held, da_thr_cnt), _dispatch_queue_relinquish_width held da_width)
  | (queues, None) => (None, queues)
  end.

(** ** Attributes and threads *)

Lemma initialized address a : 0 ≤ address < 2 ^ 64 → sig a = DISPATCH_APPLY_ATTR_SIG → guard a = u64 (Z.lnot address) →
  _dispatch_attr_is_initialized address a = true.
Proof.
  intros Ha Hs Hg. unfold _dispatch_attr_is_initialized. rewrite Hs, Hg, Z.eqb_refl. apply Z.eqb_eq.
  rewrite <- (Z.mod_small address (2 ^ 64) Ha) at 2. unfold u64, Z.lnot. zdiv.
Qed.
Lemma u64_lnot address : 0 ≤ address < 2 ^ 64 → u64 (Z.lnot (u64 (Z.lnot address))) = address.
Proof. intros Ha. rewrite <- (Z.mod_small address (2 ^ 64) Ha) at 2. unfold u64, Z.lnot. zdiv. Qed.

Lemma calc_range `{Parallelism} attr nested qos active thr :
  0 ≤ nested → _dispatch_apply_calc_thread_count attr nested qos active = Some thr →
  0 ≤ thr ≤ Z.max 1 (_dispatch_qos_max_parallelism qos active) ∧ (nested ≠ 0 → thr = 1 ∨ thr * nested ≤ _dispatch_qos_max_parallelism qos active).
Proof.
  intros Hn. pose proof (qos_max_range qos active) as Hq. unfold _dispatch_apply_calc_thread_count. destruct attr as [[address a]|].
  - destruct (negb _); [done|].
    assert (Hcl : 0 ≤ _dispatch_apply_calc_thread_count_for_cluster (Some a) qos).
    { unfold _dispatch_apply_calc_thread_count_for_cluster. repeat case_match; unfold SIZE_MAX, u32; try lia.
      apply Z.mod_pos_bound. lia. }
    revert Hcl. generalize (_dispatch_apply_calc_thread_count_for_cluster (Some a) qos). intros cl Hcl.
    destruct (Z.eqb_spec nested 0); cbn [negb]; intros [= <-]; (split; [lia|auto]). done.
  - destruct (Z.eqb_spec nested 0); cbn [negb]; [intros [= <-]; split; [lia|done]|].
    destruct (Z.ltb_spec nested (_dispatch_qos_max_parallelism qos active)); intros [= <-]; [|split; [lia|auto]].
    set (m := _dispatch_qos_max_parallelism qos active) in *. pose proof (Z.mul_div_le m nested ltac:(lia)).
    assert (0 ≤ m / nested) by (apply Z.div_pos; lia). split; [nia|]. intros _. right. lia.
Qed.

(** The route of a call: nothing for no iterations, a crash for an attribute that
    was not initialised where it is, and otherwise threads that Apply.v can run:
    at least two, no more than the iterations or the system's parallelism, and
    divided among nested calls; a nested call with an attribute is serial; the
    nesting handed down does not overflow. *)
Theorem apply_routes `{Parallelism} iterations attr dq nested current_qos :
  0 ≤ iterations < 2 ^ 64 → 0 ≤ nested < 2 ^ 64 →
  let r := _dispatch_apply_with_attr_f iterations attr dq nested current_qos in
  let m := _dispatch_qos_max_parallelism (if do_targetq dq then current_qos else priority_qos dq) true in
  (iterations = 0 ↔ r = Return) ∧
  (∀ address a, attr = Some (address, a) → iterations ≠ 0 → _dispatch_attr_is_initialized address a = false → r = ClientCrash) ∧
  (∀ thr_cnt down, r = Wide thr_cnt down ∨ r = SyncRedirect thr_cnt down →
     2 ≤ thr_cnt ≤ Z.min iterations m ∧ thr_cnt < 2 ^ 31 ∧ (nested ≠ 0 → attr = None ∧ thr_cnt * nested ≤ m) ∧
     0 < down < 2 ^ 64 ∧ (attr = None → down = iterations * Z.max 1 nested ∨ down = DISPATCH_APPLY_MAX)).
Proof.
  intros Hi Hn r m. pose proof (qos_max_range (if do_targetq dq then current_qos else priority_qos dq) true) as Hm. fold m in Hm.
  unfold _dispatch_apply_with_attr_f in r. destruct (Z.eqb_spec iterations 0) as [E|E].
  { subst r. split; [done|]. split; [done|]. by intros ? ? [?|?]. }
  destruct (match attr with Some (address, a) => negb (_dispatch_attr_is_initialized address a) | None => false end) eqn:Hu.
  { subst r. split; [done|]. split; [done|]. by intros ? ? [?|?]. }
  assert (Hinit : ∀ address a, attr = Some (address, a) → iterations ≠ 0 → _dispatch_attr_is_initialized address a = false → r = ClientCrash).
  { intros address a -> _ Hf. by rewrite Hf in Hu. }
  destruct (_dispatch_apply_calc_thread_count attr nested _ true) as [thr|] eqn:Hc;
    [|subst r; split; [done|]; split; [done|]; by intros ? ? [?|?]].
  destruct (calc_range attr nested _ true thr (proj1 Hn) Hc) as [Hr Hdiv]. fold m in Hr, Hdiv.
  assert (Hattr : nested ≠ 0 → attr ≠ None → thr = 1).
  { intros Hne Ha. destruct attr as [[address a]|]; [|done]. unfold _dispatch_apply_calc_thread_count in Hc. cbn in Hu.
    rewrite Hu, (proj2 (Z.eqb_neq nested 0) Hne) in Hc. by injection Hc. }
  assert (Hdown : 0 < new_nested (bool_decide (is_Some attr)) nested iterations < 2 ^ 64 ∧
    (attr = None → new_nested (bool_decide (is_Some attr)) nested iterations = iterations * Z.max 1 nested ∨
                   new_nested (bool_decide (is_Some attr)) nested iterations = DISPATCH_APPLY_MAX)).
  { unfold new_nested, DISPATCH_APPLY_MAX. case_bool_decide as Ha; [split; [lia|intros ->; by destruct Ha]|].
    destruct (Z.eqb_spec nested 0); [split; [lia|intros _; left; lia]|].
    destruct (Z.ltb_spec nested 65535), (Z.ltb_spec iterations 65535); cbn [andb]; try (split; [lia|by right]).
    unfold u64. rewrite Z.mod_small by nia. split; [nia|]. intros _. left. rewrite Z.max_r by lia. lia. }
  destruct (Z.eqb_spec thr 0) as [E0|E0]; [subst r; split; [done|]; split; [done|]; by intros ? ? [?|?]|].
  set (thr' := if iterations <? thr then iterations else thr) in *.
  assert (Hthr : thr' = Z.min iterations thr) by (subst thr'; destruct (Z.ltb_spec iterations thr); lia).
  assert (Hwide : 2 ≤ thr' → sint 32 thr' = thr') by (intros; apply sint_id; lia).
  assert (Hgoal : 2 ≤ thr' → 2 ≤ thr' ≤ Z.min iterations m ∧ thr' < 2 ^ 31 ∧ (nested ≠ 0 → attr = None ∧ thr' * nested ≤ m)).
  { intros H2. split; [lia|]. split; [lia|]. intros Hne. destruct (Hdiv Hne) as [?|Hd]; [lia|].
    split; [|nia]. destruct attr; [|done]. pose proof (Hattr Hne ltac:(done)). lia. }
  clearbody thr' m. destruct (custom_pri_workloop dq);
    [destruct (drain_locked_by_self dq); subst r; (split; [done|]); (split; [done|]); by intros ? ? [?|?]|].
  destruct ((dq_width dq =? 1) || (thr' <=? 1)) eqn:Hs; [subst r; split; [done|]; split; [done|]; by intros ? ? [?|?]|].
  apply orb_false_iff in Hs as [_ Hs]. apply Z.leb_gt in Hs.
  destruct (do_targetq dq); [destruct (is_current dq)|]; subst r; (split; [done|]); (split; [done|]);
    intros t d [Hr'|Hr']; try done; injection Hr' as <- <-; rewrite Hwide by lia; destruct Hgoal as (? & ? & ?); [lia| |lia|];
    destruct Hdown; auto.
Qed.

(** ** Serial calls *)

Lemma serial_loop_ok fuel idx iter :
  0 ≤ idx < iter → iter < 2 ^ 64 → iter - idx ≤ Z.of_nat fuel → serial_loop fuel idx iter = Some (seqZ idx (iter - idx)).
Proof.
  revert idx. induction fuel as [|fuel IH]; intros idx Hi Hb Hf; [lia|]. cbn [serial_loop]. unfold u64.
  rewrite Z.mod_small by lia. rewrite (seqZ_cons idx) by lia. destruct (Z.ltb_spec (idx + 1) iter).
  - rewrite IH by lia. cbn. do 3 f_equal; lia.
  - cbn. by replace (iter - idx) with 1 by lia.
Qed.

(** ** Reserved width *)

Definition width_bits (s : Z) : Z := s / 2 ^ 41 mod 2 ^ 13.
Definition is_word (s : Z) : Prop := 0 ≤ s < 2 ^ 64.

Lemma extract_width s : is_word s → _dq_state_extract_width_bits s = width_bits s.
Proof.
  intros Hs. unfold _dq_state_extract_width_bits, DISPATCH_QUEUE_WIDTH_SHIFT.
  change DISPATCH_QUEUE_WIDTH_MASK with (Z.shiftl (Z.ones 13) 41). rewrite land_shifted by lia.
  rewrite Z.shiftr_div_pow2 by lia. rewrite Z.mul_comm, Z.div_mul by lia. done.
Qed.
Lemma available_width s : is_word s → _dq_state_available_width s = Z.max 0 (DISPATCH_QUEUE_WIDTH_FULL - width_bits s).
Proof.
  intros Hs. unfold _dq_state_available_width. rewrite (extract_width s Hs). unfold DISPATCH_QUEUE_WIDTH_FULL, width_bits.
  change DISPATCH_QUEUE_WIDTH_FULL_BIT with (Z.shiftl (Z.ones 1) 53). rewrite land_shifted by lia.
  destruct (Z.eqb_spec (2 ^ 53 * (s / 2 ^ 53 mod 2 ^ 1)) 0); zdiv.
Qed.

(** What a queue can give, and the queue with [w] more of its width in use. *)
Definition capacity (q : queue) : Z := if q_width q =? 1 then 0 else Z.max 0 (DISPATCH_QUEUE_WIDTH_FULL - width_bits (dq_state q)).
Definition raise (w : Z) (q : queue) : queue := set_dq_state q (dq_state q + w * DISPATCH_QUEUE_WIDTH_INTERVAL).
Definition valid (q : queue) : Prop := is_word (dq_state q).

Lemma capacity_nonneg q : 0 ≤ capacity q.
Proof. unfold capacity. case_match; lia. Qed.
Lemma raise_0 q : raise 0 q = q.
Proof. destruct q. unfold raise, set_dq_state. cbn. by rewrite Z.add_0_r. Qed.
Lemma raise_range w q : valid q → 0 ≤ w ≤ capacity q → 0 ≤ dq_state q + w * DISPATCH_QUEUE_WIDTH_INTERVAL < 2 ^ 64.
Proof.
  unfold valid, is_word, capacity, width_bits, DISPATCH_QUEUE_WIDTH_FULL, DISPATCH_QUEUE_WIDTH_INTERVAL.
  intros Hs Hw. destruct (q_width q =? 1); [lia|]. zdiv.
Qed.
Lemma raise_used w q : valid q → 0 ≤ w ≤ capacity q → width_bits (dq_state (raise w q)) = width_bits (dq_state q) + w.
Proof.
  unfold valid, is_word, capacity, width_bits, DISPATCH_QUEUE_WIDTH_FULL, DISPATCH_QUEUE_WIDTH_INTERVAL. cbn.
  intros Hs Hw. unfold DISPATCH_QUEUE_WIDTH_INTERVAL. destruct (q_width q =? 1).
  - replace w with 0 by lia. by rewrite Z.add_0_r, Z.add_0_r.
  - zdiv.
Qed.

Lemma try_reserve q w : valid q → 1 ≤ w →
  _dispatch_queue_try_reserve_apply_width q w = (raise (Z.min w (capacity q)) q, Z.min w (capacity q)).
Proof.
  intros Hv Hw. unfold _dispatch_queue_try_reserve_apply_width, capacity.
  destruct (q_width q =? 1) eqn:E1; [by rewrite Z.min_r, raise_0 by lia|].
  rewrite available_width by done. set (c := Z.max 0 _).
  assert (Hc : capacity q = c) by (unfold capacity; by rewrite E1).
  destruct (Z.eqb_spec c 0) as [->|]; [by rewrite Z.min_r, raise_0 by lia|].
  replace (if w <? c then w else c) with (Z.min w c) by (destruct (Z.ltb_spec w c); lia).
  pose proof (raise_range (Z.min w c) q Hv ltac:(lia)). unfold u64. rewrite Z.mod_small by lia. done.
Qed.

Lemma relinquish queues w v : Forall valid queues → (∀ q, q ∈ queues → w ≤ capacity q) → 0 ≤ v ≤ w →
  _dispatch_queue_relinquish_width (raise w <$> queues) v = raise (w - v) <$> queues.
Proof.
  intros Hv Hw Hvw. unfold _dispatch_queue_relinquish_width. rewrite <- list_fmap_compose. apply list_fmap_ext.
  intros i q Hq. apply list_elem_of_lookup_2 in Hq. rewrite Forall_forall in Hv.
  pose proof (raise_range (w - v) q (Hv q Hq) ltac:(specialize (Hw q Hq); lia)).
  unfold raise, set_dq_state. cbn. f_equal. unfold u64. rewrite <- (Z.mod_small (_ + (w - v) * _) (2 ^ 64)) by done.
  f_equal. lia.
Qed.

(** The width all queues can give. *)
Definition granted (queues : list queue) (w : Z) : Z := foldl (λ w q, Z.min w (capacity q)) w queues.

Lemma granted_range queues w : 0 ≤ w → 0 ≤ granted queues w ≤ w ∧ ∀ q, q ∈ queues → granted queues w ≤ capacity q.
Proof.
  revert w. induction queues as [|q queues IH]; intros w Hw; [split; [cbn; lia|by intros q ?%not_elem_of_nil]|].
  cbn. pose proof (capacity_nonneg q). destruct (IH (Z.min w (capacity q)) ltac:(lia)) as [H1 H2]. unfold granted in *.
  split; [lia|]. intros q' [->|Hq]%elem_of_cons; [lia|by apply H2].
Qed.

Lemma redirect_loop_ok above below w thr :
  Forall valid above → Forall valid below → (∀ q, q ∈ above → w ≤ capacity q) → 1 ≤ w →
  redirect_loop (raise w <$> above) below w thr =
    if granted below w =? 0 then (above ++ below, None)
    else (raise (granted below w) <$> above ++ below, Some (granted below w, thr - (w - granted below w))).
Proof.
  revert above w thr. induction below as [|q below IH]; intros above w thr Ha Hb Hw H1.
  { cbn. rewrite (proj2 (Z.eqb_neq w 0)), app_nil_r by lia. do 3 f_equal. lia. }
  apply Forall_cons in Hb as [Hq Hb]. cbn [redirect_loop]. rewrite (try_reserve q w Hq H1). pose proof (capacity_nonneg q).
  change (granted (q :: below) w) with (granted below (Z.min w (capacity q))).
  set (c := Z.min w (capacity q)) in *. destruct (granted_range below c ltac:(lia)) as [Hg _].
  assert (Hnext : 1 ≤ c → ∀ thr, redirect_loop ((raise c <$> above) ++ [raise c q]) below c thr =
    if granted below c =? 0 then (above ++ q :: below, None)
    else (raise (granted below c) <$> above ++ q :: below, Some (granted below c, thr - (c - granted below c)))).
  { intros Hc thr'. change [raise c q] with (raise c <$> [q]). rewrite <- fmap_app. rewrite (IH (above ++ [q]) c thr').
    - by rewrite <- !app_assoc.
    - apply Forall_app. split; [done|by constructor].
    - done.
    - intros q' [Hq'|Hq']%elem_of_app; [specialize (Hw q' Hq'); lia|]. apply list_elem_of_singleton in Hq' as ->. lia.
    - done. }
  destruct (Z.ltb_spec c w).
  - rewrite (relinquish above w (w - c)) by (done || lia). replace (w - (w - c)) with c by lia.
    destruct (Z.eqb_spec c 0) as [E|E].
    + rewrite E in *. replace (granted below 0) with 0 by lia. cbn [Z.eqb].
      rewrite raise_0. f_equal. f_equal. clear. induction above as [|x l IHl]; [done|]. cbn. by rewrite raise_0, IHl.
    + rewrite Hnext by lia. destruct (granted below c =? 0); [done|]. do 3 f_equal. lia.
  - replace c with w in * by lia. by rewrite Hnext by lia.
Qed.

(** [_dispatch_apply_redirect]: the threads beyond the caller take one unit of
    width each from every queue on the way to the root, as many as all of them
    can give; while the threads run that much more of each width is in use, and
    afterwards every queue is as it was.  When some queue can give nothing, no
    width stays reserved and the calls are made in order by the caller alone. *)
Theorem redirect_returns_width queues thr_cnt iter fuel :
  Forall valid queues → 2 ≤ thr_cnt → 0 < iter < 2 ^ 64 → iter ≤ Z.of_nat fuel →
  let w := granted queues (thr_cnt - 1) in
  (_dispatch_apply_redirect queues thr_cnt).2 = queues ∧
  (w = 0 → (_dispatch_apply_redirect queues thr_cnt).1 = None ∧ _dispatch_apply_serial fuel iter = Some (seqZ 0 iter)) ∧
  (w ≠ 0 → ∃ held, (_dispatch_apply_redirect queues thr_cnt).1 = Some (held, w + 1) ∧ 1 ≤ w ≤ thr_cnt - 1 ∧
     held = raise w <$> queues ∧
     ∀ q, q ∈ queues → w ≤ capacity q ∧ width_bits (dq_state (raise w q)) = width_bits (dq_state q) + w).
Proof.
  intros Hv Ht Hi Hf w. unfold _dispatch_apply_redirect.
  pose proof (redirect_loop_ok [] queues (thr_cnt - 1) thr_cnt ltac:(constructor) Hv ltac:(by intros q ?%not_elem_of_nil) ltac:(lia)) as Hl.
  change (raise (thr_cnt - 1) <$> []) with (@nil queue) in Hl. rewrite Hl. cbn [app]. fold w.
  destruct (granted_range queues (thr_cnt - 1) ltac:(lia)) as [Hg Hcap]. fold w in Hg, Hcap.
  destruct (Z.eqb_spec w 0) as [E|E]; cbn [fst snd].
  - split; [done|]. split; [|done]. intros _. split; [done|]. unfold _dispatch_apply_serial.
    rewrite serial_loop_ok by lia. by rewrite Z.sub_0_r.
  - split; [|split; [done|]].
    + rewrite (relinquish queues w w) by (done || lia). rewrite Z.sub_diag. clear. induction queues as [|x l IHl]; [done|].
      cbn. by rewrite raise_0, IHl.
    + intros _. eexists. split; [do 3 f_equal; lia|]. split; [lia|]. split; [done|]. intros q Hq. split; [by apply Hcap|].
      rewrite Forall_forall in Hv. apply raise_used; [by apply Hv|]. specialize (Hcap q Hq). lia.
Qed.

(** ** Witnesses *)

#[export] Program Instance eight_cores : Parallelism := {|
  _dispatch_qos_max_parallelism _ _ := 8; _dispatch_cluster_max_parallelism _ := 2 |}.
Solve All Obligations with done.

Definition root_queue : queue_facts :=
  {| priority_qos := 4; dq_width := 4095; do_targetq := false; custom_pri_workloop := false;
     drain_locked_by_self := false; is_current := false |}.

(** A call nested in one of three iterations runs on two threads. *)
Lemma apply_routes_witness :
  _dispatch_apply_with_attr_f 1000 None root_queue 3 4 = Wide 2 3000 ∧ 2 * 3 ≤ 8.
Proof.
  destruct (apply_routes 1000 None root_queue 3 4 ltac:(lia) ltac:(lia)) as (_ & _ & H).
  split; [reflexivity|]. destruct (H 2 3000 (or_introl eq_refl)) as (_ & _ & Hn & _). by apply Hn.
Defined.

(** A queue of width 4 (three of it left) above one of width 3, all free: of
    eight threads three remain. *)
Definition two_queues : list queue :=
  [{| q_width := 4; dq_state := (4096 - 4 + 1) * DISPATCH_QUEUE_WIDTH_INTERVAL |};
   {| q_width := 3; dq_state := (4096 - 3) * DISPATCH_QUEUE_WIDTH_INTERVAL + 5 |}].
Lemma redirect_returns_width_witness :
  (_dispatch_apply_redirect two_queues 8).2 = two_queues ∧
  ∃ held, (_dispatch_apply_redirect two_queues 8).1 = Some (held, 4).
Proof.
  destruct (redirect_returns_width two_queues 8 10 10) as (H1 & _ & H3).
  - repeat constructor; by_decide.
  - lia.
  - lia.
  - lia.
  - split; [exact H1|]. destruct H3 as (held & E & _); [vm_compute; discriminate|]. by exists held.
Defined.
