(* ===== verification/Sort.v ===== *)
(** * Sorting (CoreFoundation CFSortFunctions.c)

    The stable merge sort of an array of indexes, in place with a scratch
    buffer, and the array sorts built on it.  A comparator is a function to the
    integers of which the code reads the sign; an access outside an array is
    [None]. *)
From S2P Require Import Prelude.
From stdpp Require Import list sorting.
From Stdlib Require Import Permutation Sorted.
Open Scope Z_scope.

Section sort.
Context (cmp : Z → Z → Z).
Implicit Types listp tmp : list Z.

(** [while (idx--) listp[idx] = tmp[idx]], in the array that starts at [base]. *)
Fixpoint copy_back (idx : nat) (base : Z) listp tmp : option (list Z) :=
  match idx with
  | O => Some listp
  | S idx =>
      v ← tmp.[Z.of_nat idx];
      listp ← listp.[base + Z.of_nat idx := v];
      copy_back idx base listp tmp
  end.

(** [for (t = cnt1 + cnt2 - 1; idx <= t; t--) listp[t] = listp[t - cnt2]], for
    [n] turns from [t]. *)
Fixpoint move_up (n : nat) (t cnt2 base : Z) listp : option (list Z) :=
  match n with
  | O => Some listp
  | S n =>
      v ← listp.[base + (t - cnt2)];
      listp ← listp.[base + t := v];
      move_up n (t - 1) cnt2 base listp
  end.

(** The loop of [__CFSimpleMerge]; [None] also when [fuel] runs out. *)
Fixpoint merge_loop (fuel : nat) (base cnt1 cnt2 idx idx1 idx2 : Z) listp tmp
    : option (list Z * list Z) :=
  match fuel with
  | O => None
  | S fuel =>
      if cnt1 <=? idx1 then
        listp ← copy_back (Z.to_nat idx) base listp tmp; Some (listp, tmp)
      else if cnt1 + cnt2 <=? idx2 then
        let t := cnt1 + cnt2 - 1 in
        listp ← move_up (Z.to_nat (t + 1 - idx)) t cnt2 base listp;
        listp ← copy_back (Z.to_nat idx) base listp tmp; Some (listp, tmp)
      else
        v1 ← listp.[base + idx1];
        v2 ← listp.[base + idx2];
        if cmp v1 v2 <=? 0 then
          tmp ← tmp.[idx := v1];
          merge_loop fuel base cnt1 cnt2 (idx + 1) (idx1 + 1) idx2 listp tmp
        else
          tmp ← tmp.[idx := v2];
          merge_loop fuel base cnt1 cnt2 (idx + 1) idx1 (idx2 + 1) listp tmp
  end.

Definition __CFSimpleMerge (base cnt1 cnt2 : Z) listp tmp : option (list Z * list Z) :=
  if (cnt1 <=? 0) || (cnt2 <=? 0) then Some (listp, tmp)
  else
    ordered ←
      (if 16 <? cnt1 + cnt2 then
         v1 ← listp.[base + (cnt1 - 1)]; v2 ← listp.[base + cnt1]; Some (cmp v1 v2 <=? 0)
       else Some false);
    if (ordered : bool) then Some (listp, tmp)
    else merge_loop (Z.to_nat (cnt1 + cnt2 + 1)) base cnt1 cnt2 0 0 cnt1 listp tmp.

(** The case of two elements. *)
Definition sort_two (base : Z) listp tmp : option (list Z * list Z) :=
  v0 ← listp.[base]; v1 ← listp.[base + 1];
  if 0 <? cmp v0 v1 then
    listp ← listp.[base := v1]; listp ← listp.[base + 1 := v0]; Some (listp, tmp)
  else Some (listp, tmp).

(** The case of three. *)
Definition sort_three (base : Z) listp tmp : option (list Z * list Z) :=
  v0 ← listp.[base]; v1 ← listp.[base + 1]; v2 ← listp.[base + 2];
  let '(v0, v1) := if 0 <? cmp v0 v1 then (v1, v0) else (v0, v1) in
  let '(v0, v1, v2) :=
    if 0 <? cmp v1 v2 then
      let '(v1, v2) := (v2, v1) in
      let '(v0, v1) := if 0 <? cmp v0 v1 then (v1, v0) else (v0, v1) in (v0, v1, v2)
    else (v0, v1, v2) in
  listp ← listp.[base := v0]; listp ← listp.[base + 1 := v1]; listp ← listp.[base + 2 := v2];
  Some (listp, tmp).

Fixpoint __CFSimpleMergeSort (fuel : nat) (base cnt : Z) listp tmp : option (list Z * list Z) :=
  if cnt <? 2 then Some (listp, tmp)
  else if 2 =? cnt then sort_two base listp tmp
  else if 3 =? cnt then sort_three base listp tmp
  else
    match fuel with
    | O => None
    | S fuel =>
        let half_cnt := cnt ÷ 2 in
        '(listp, tmp) ← __CFSimpleMergeSort fuel base half_cnt listp tmp;
        '(listp, tmp) ← __CFSimpleMergeSort fuel (base + half_cnt) (cnt - half_cnt) listp tmp;
        __CFSimpleMerge base half_cnt (cnt - half_cnt) listp tmp
    end.
End sort.

(** ** What the merge writes *)

(** Equality of concatenations. *)
Ltac app_eq := repeat first [rewrite <- app_assoc | progress cbn [app]]; done.

Lemma zget_at {A} (l : list A) i x l2 : zlen l = i → (l ++ x :: l2).[i] = Some x.
Proof. intros <-. apply zget_middle. Qed.
Lemma zset_at {A} (l : list A) i x l2 y : zlen l = i → (l ++ x :: l2).[i := y] = Some (l ++ y :: l2).
Proof. intros <-. apply zset_middle. Qed.

Lemma copy_back_ok pre old out post rest :
  length old = length out →
  copy_back (length out) (zlen pre) (pre ++ old ++ post) (out ++ rest) = Some (pre ++ out ++ post).
Proof.
  revert old post rest. induction out as [|v out IH] using rev_ind; intros old post rest Hl.
  { destruct old; [done|]. cbn in Hl. lia. }
  destruct old as [|w old _] using rev_ind; rewrite !length_app in Hl; cbn in Hl; [lia|].
  rewrite length_app, Nat.add_1_r. cbn [copy_back]. rewrite <- !app_assoc. cbn [app].
  rewrite zget_at by done. cbn.
  rewrite app_assoc, zset_at by (rewrite zlen_app; unfold zlen; lia). cbn.
  rewrite <- app_assoc, IH by lia. app_eq.
Qed.

Lemma move_up_ok b pre X Y post t cnt2 base :
  0 < zlen Y → zlen Y = cnt2 → zlen pre = base → t = zlen X + zlen b + zlen Y - 1 →
  ∃ junk, zlen junk = zlen X + zlen Y ∧
    move_up (length b) t cnt2 base (pre ++ X ++ b ++ Y ++ post) = Some (pre ++ junk ++ b ++ post).
Proof.
  intros HY Hc Hb. revert Y post t HY Hc. induction b as [|v b IH] using rev_ind; intros Y post t HY Hc Ht.
  { exists (X ++ Y). rewrite zlen_app. split; [done|]. cbn. app_eq. }
  rewrite length_app, Nat.add_1_r. cbn [move_up].
  rewrite zlen_app, zlen_cons in Ht. change (zlen (@nil Z)) with 0 in Ht.
  destruct Y as [|y Y _] using rev_ind; [done|]. rewrite zlen_app, zlen_cons in Hc, Ht.
  change (zlen (@nil Z)) with 0 in Hc, Ht.
  replace (pre ++ X ++ (b ++ [v]) ++ (Y ++ [y]) ++ post)
    with ((pre ++ X ++ b) ++ v :: Y ++ y :: post) by app_eq.
  rewrite zget_at by (rewrite !zlen_app; lia). cbn.
  replace ((pre ++ X ++ b) ++ v :: Y ++ y :: post)
    with ((pre ++ X ++ b ++ v :: Y) ++ y :: post) by app_eq.
  rewrite zset_at by (rewrite !zlen_app, zlen_cons; lia). cbn.
  destruct (IH (v :: Y) (v :: post) (t - 1)) as (junk & Hj & Hm); [rewrite zlen_cons; pose proof (zlen_nonneg Y); lia| | |].
  - rewrite zlen_cons. lia.
  - rewrite zlen_cons. lia.
  - exists junk. split; [rewrite Hj, zlen_cons, zlen_app, zlen_cons; change (zlen (@nil Z)) with 0; lia|].
    replace ((pre ++ X ++ b ++ v :: Y) ++ v :: post) with (pre ++ X ++ b ++ (v :: Y) ++ v :: post)
      by app_eq.
    rewrite Hm. app_eq.
Qed.

(** What a comparator must be for its order to make sense: reversing the
    arguments reverses the sign, and not being greater is transitive. *)
Record comparator {A} (cmp : A → A → Z) : Prop := {
  cmp_flip x y : 0 < cmp x y ↔ cmp y x < 0;
  cmp_trans x y z : cmp x y ≤ 0 → cmp y z ≤ 0 → cmp x z ≤ 0;
}.
Arguments cmp_flip {A cmp} _ x y.
Arguments cmp_trans {A cmp} _ x y z.

Section correctness.
Context (cmp : Z → Z → Z).

Definition not_greater (x y : Z) : Prop := cmp x y ≤ 0.
#[export] Instance not_greater_dec x y : Decision (not_greater x y).
Proof. unfold not_greater. apply _. Defined.
#[local] Abbreviation merge := (list_merge not_greater).

(** The order of a stable sort of indexes: equal ones keep their order. *)
Definition before (x y : Z) : Prop := cmp x y < 0 ∨ cmp x y = 0 ∧ x < y.

Lemma merge_loop_ok fuel pre a1 b1 a2 b2 post out rest base cnt1 cnt2 idx idx1 idx2 :
  (length b1 + length b2 < fuel)%nat →
  zlen pre = base → zlen (a1 ++ b1) = cnt1 → zlen (a2 ++ b2) = cnt2 → 0 < cnt2 →
  zlen a1 = idx1 → cnt1 + zlen a2 = idx2 → zlen a1 + zlen a2 = idx → zlen out = idx →
  zlen b1 + zlen b2 ≤ zlen rest →
  ∃ tmp, merge_loop cmp fuel base cnt1 cnt2 idx idx1 idx2 (pre ++ (a1 ++ b1) ++ (a2 ++ b2) ++ post) (out ++ rest)
           = Some (pre ++ (out ++ merge b1 b2) ++ post, tmp) ∧ zlen tmp = zlen (out ++ rest).
Proof.
  revert a1 b1 a2 b2 out rest idx idx1 idx2.
  induction fuel as [|fuel IH]; intros a1 b1 a2 b2 out rest idx idx1 idx2 Hf Hb H1 H2 Hc H3 H4 H5 H6 Hr; [lia|].
  cbn [merge_loop]. rewrite zlen_app in H1, H2.
  destruct b1 as [|v1 b1].
  - (* the first list is exhausted *)
    change (zlen (@nil Z)) with 0 in *. replace (cnt1 <=? idx1) with true by zcases.
    rewrite list_merge_nil_l, app_nil_r. replace (Z.to_nat idx) with (length out) by (unfold zlen in *; lia).
    replace (pre ++ a1 ++ (a2 ++ b2) ++ post) with (pre ++ (a1 ++ a2) ++ b2 ++ post) by app_eq.
    rewrite <- Hb, copy_back_ok by (rewrite length_app; unfold zlen in *; lia). cbn.
    exists (out ++ rest). split; [|done]. app_eq.
  - rewrite zlen_cons in *. pose proof (zlen_nonneg b1). replace (cnt1 <=? idx1) with false by zcases.
    destruct b2 as [|v2 b2].
    + (* the second *)
      change (zlen (@nil Z)) with 0 in *. replace (cnt1 + cnt2 <=? idx2) with true by zcases.
      rewrite list_merge_nil_r, app_nil_r.
      replace (Z.to_nat (cnt1 + cnt2 - 1 + 1 - idx)) with (length (v1 :: b1)) by (cbn [length]; unfold zlen in *; lia).
      destruct (move_up_ok (v1 :: b1) pre a1 a2 post (cnt1 + cnt2 - 1) cnt2 base) as (junk & Hj & Hm);
        [lia|lia|lia|rewrite zlen_cons; lia|].
      rewrite <- (app_assoc a1), Hm. cbn [mbind option_bind].
      replace (Z.to_nat idx) with (length out) by (unfold zlen in *; lia).
      rewrite <- Hb, copy_back_ok by (unfold zlen in *; lia). cbn.
      exists (out ++ rest). split; [|done]. app_eq.
    + rewrite zlen_cons in *. pose proof (zlen_nonneg b2). replace (cnt1 + cnt2 <=? idx2) with false by zcases.
      set (listp := pre ++ (a1 ++ v1 :: b1) ++ (a2 ++ v2 :: b2) ++ post).
      assert (E1 : listp.[base + idx1] = Some v1).
      { subst listp. replace (pre ++ _) with ((pre ++ a1) ++ v1 :: b1 ++ (a2 ++ v2 :: b2) ++ post) by app_eq.
        apply zget_at. rewrite zlen_app. lia. }
      assert (E2 : listp.[base + idx2] = Some v2).
      { subst listp. replace (pre ++ _) with ((pre ++ a1 ++ v1 :: b1 ++ a2) ++ v2 :: b2 ++ post) by app_eq.
        apply zget_at. rewrite !zlen_app, zlen_cons, zlen_app. lia. }
      rewrite E1, E2. cbn [mbind option_bind]. subst listp.
      destruct rest as [|r rest]; [change (zlen (@nil Z)) with 0 in Hr; lia|]. rewrite zlen_cons in Hr.
      rewrite !zset_at by lia. cbn [mbind option_bind]. rewrite list_merge_cons. cbn [length] in Hf.
      assert (Hcmp : (cmp v1 v2 <=? 0) = bool_decide (not_greater v1 v2))
        by (unfold not_greater; case_bool_decide; zcases).
      rewrite Hcmp. case_bool_decide as Hle.
      * rewrite decide_True by done.
        destruct (IH (a1 ++ [v1]) b1 a2 (v2 :: b2) (out ++ [v1]) rest (idx + 1) (idx1 + 1) idx2)
          as (tmp & Ht & Hl); rewrite ?zlen_app, ?zlen_cons; change (zlen (@nil Z)) with 0; cbn [length]; try lia.
        exists tmp. split; [|rewrite Hl, !zlen_app, !zlen_cons; change (zlen (@nil Z)) with 0; lia].
        etrans; [|etrans; [exact Ht|]]; [f_equal; app_eq|app_eq].
      * rewrite decide_False by done.
        destruct (IH a1 (v1 :: b1) (a2 ++ [v2]) b2 (out ++ [v2]) rest (idx + 1) idx1 (idx2 + 1))
          as (tmp & Ht & Hl); rewrite ?zlen_app, ?zlen_cons; change (zlen (@nil Z)) with 0; cbn [length]; try lia.
        exists tmp. split; [|rewrite Hl, !zlen_app, !zlen_cons; change (zlen (@nil Z)) with 0; lia].
        etrans; [|etrans; [exact Ht|]]; [f_equal; app_eq|app_eq].
Qed.

Lemma cmp_zero x y : comparator cmp → cmp x y = 0 → cmp y x = 0.
Proof. intros Hc. pose proof (cmp_flip Hc x y). pose proof (cmp_flip Hc y x). lia. Qed.

Lemma before_trans x y z : comparator cmp → before x y → before y z → before x z.
Proof.
  unfold before. intros Hc Hxy Hyz. pose proof (cmp_trans Hc x y z). pose proof (cmp_trans Hc z x y).
  pose proof (cmp_trans Hc y z x). pose proof (cmp_flip Hc x y). pose proof (cmp_flip Hc y x).
  pose proof (cmp_flip Hc y z). pose proof (cmp_flip Hc z y). pose proof (cmp_flip Hc x z).
  pose proof (cmp_flip Hc z x). lia.
Qed.
Lemma before_le x y : (cmp x y = 0 → x < y) → cmp x y ≤ 0 → before x y.
Proof. unfold before. lia. Qed.
Lemma before_gt x y : comparator cmp → 0 < cmp x y → before y x.
Proof. intros Hc Hxy. left. by apply (cmp_flip Hc). Qed.
Lemma before_irrefl x y : comparator cmp → before x y → before y x → x = y.
Proof. unfold before. intros Hc. pose proof (cmp_flip Hc x y). pose proof (cmp_flip Hc y x). lia. Qed.

(** Where elements of [l1] and [l2] are equal, the index in [l1] is smaller. *)
Definition ties_in_order (l1 l2 : list Z) : Prop := ∀ x y, x ∈ l1 → y ∈ l2 → cmp x y = 0 → x < y.

#[local] Instance ties_in_order_proper : Proper (Permutation ==> Permutation ==> iff) ties_in_order.
Proof. intros l1 l1' E1 l2 l2' E2. unfold ties_in_order. by setoid_rewrite E1; setoid_rewrite E2. Qed.

Lemma merge_sorted l1 l2 :
  comparator cmp → ties_in_order l1 l2 → StronglySorted before l1 → StronglySorted before l2 →
  StronglySorted before (merge l1 l2).
Proof.
  intros Hc. revert l2. induction l1 as [|x l1 IH1]; intros l2 Hlt H1 H2; [by rewrite list_merge_nil_l|].
  induction l2 as [|y l2 IH2]; [by rewrite list_merge_nil_r|].
  rewrite list_merge_cons. inversion_clear H1 as [|? ? Hs1 Hf1]. inversion_clear H2 as [|? ? Hs2 Hf2].
  rewrite List.Forall_forall in Hf1, Hf2.
  assert (Hxy : cmp x y = 0 → x < y) by (apply Hlt; left).
  case_decide as Hle.
  - constructor.
    + apply IH1; [|done|by constructor; [|apply List.Forall_forall]]. intros a b Ha Hb. apply Hlt; [by right|done].
    + apply List.Forall_forall. intros z Hz%list_elem_of_In. rewrite merge_Permutation in Hz.
      pose proof (before_le x y Hxy Hle) as Hb.
      apply elem_of_app in Hz as [Hz|Hz]; [by apply Hf1, list_elem_of_In|].
      apply elem_of_cons in Hz as [-> |Hz]; [done|]. eapply before_trans; [done|done|]. by apply Hf2, list_elem_of_In.
  - assert (Hb : before y x) by (apply before_gt; [done|unfold not_greater in Hle; lia]). constructor.
    + apply IH2; [|done]. intros a b Ha Hb'. apply Hlt; [done|by right].
    + apply List.Forall_forall. intros z Hz%list_elem_of_In. rewrite merge_Permutation in Hz.
      apply elem_of_app in Hz as [Hz|Hz]; [|by apply Hf2, list_elem_of_In].
      apply elem_of_cons in Hz as [-> |Hz]; [done|]. eapply before_trans; [done|done|]. by apply Hf1, list_elem_of_In.
Qed.

(** A list has one stable order. *)
Lemma stable_unique l1 l2 :
  comparator cmp → StronglySorted before l1 → StronglySorted before l2 → l1 ≡ₚ l2 → l1 = l2.
Proof.
  intros Hc H1 H2 Hp. eapply StronglySorted_unique_strong; [|exact H1|exact H2|exact Hp].
  intros x y _ _ Hxy Hyx. by apply before_irrefl.
Qed.

(** Two sorted lists whose ends are in order are sorted as they stand. *)
Lemma ordered_sorted l1 u v l2 :
  comparator cmp → ties_in_order (l1 ++ [u]) (v :: l2) → StronglySorted before (l1 ++ [u]) →
  StronglySorted before (v :: l2) → cmp u v ≤ 0 → StronglySorted before ((l1 ++ [u]) ++ v :: l2).
Proof.
  intros Hc Hlt Hs1 Hs2 Hle. apply StronglySorted_app_2; [|done|done].
  assert (Huv : before u v).
  { apply before_le; [|done]. apply Hlt; [apply elem_of_app; right|]; by left. }
  assert (Hto : ∀ x, x ∈ l1 ++ [u] → x = u ∨ before x u).
  { intros x [Hx|Hx]%elem_of_app; [right|left; by apply list_elem_of_singleton in Hx].
    apply (StronglySorted_app_1_elem_of before l1 [u]); [done|done|by left]. }
  assert (Hfrom : ∀ y, y ∈ v :: l2 → y = v ∨ before v y).
  { intros y [-> |Hy]%elem_of_cons; [by left|right].
    by apply (StronglySorted_app_1_elem_of before [v] l2); [|left|]. }
  intros x y Hx Hy. destruct (Hto x Hx) as [-> |Hxu], (Hfrom y Hy) as [-> |Hvy]; eauto using before_trans.
Qed.

(** A step on the slice [L] of the array gives a permutation of it, sorted when
    the comparator is one and the indexes of the slice were as [ok] says. *)
Definition sorts (ok : Prop) (pre L post tmp : list Z) (out : option (list Z * list Z)) : Prop :=
  ∃ l tmp', out = Some (pre ++ l ++ post, tmp') ∧ zlen tmp' = zlen tmp ∧ l ≡ₚ L ∧
    (comparator cmp → ok → StronglySorted before l).

Lemma zlen_zero {A} (l : list A) : zlen l = 0 → l = [].
Proof. destruct l; [done|]. rewrite zlen_cons. pose proof (zlen_nonneg l). lia. Qed.

Lemma SimpleMerge_ok pre l1 l2 post tmp base cnt1 cnt2 :
  zlen pre = base → zlen l1 = cnt1 → zlen l2 = cnt2 → cnt1 + cnt2 ≤ zlen tmp →
  sorts (ties_in_order l1 l2 ∧ StronglySorted before l1 ∧ StronglySorted before l2) pre (l1 ++ l2) post tmp
    (__CFSimpleMerge cmp base cnt1 cnt2 (pre ++ (l1 ++ l2) ++ post) tmp).
Proof.
  intros Hb H1 H2 Ht. unfold __CFSimpleMerge. pose proof (zlen_nonneg l1). pose proof (zlen_nonneg l2).
  destruct ((cnt1 <=? 0) || (cnt2 <=? 0)) eqn:E0.
  { exists (l1 ++ l2), tmp. split_and!; auto. intros _ (_ & Hs1 & Hs2).
    apply orb_true_iff in E0 as [E0%Z.leb_le|E0%Z.leb_le].
    - by rewrite (zlen_zero l1) by lia.
    - rewrite (zlen_zero l2) by lia. by rewrite app_nil_r. }
  zbool.
  assert (Hmerge : sorts (ties_in_order l1 l2 ∧ StronglySorted before l1 ∧ StronglySorted before l2) pre (l1 ++ l2) post
    tmp (merge_loop cmp (Z.to_nat (cnt1 + cnt2 + 1)) base cnt1 cnt2 0 0 cnt1 (pre ++ (l1 ++ l2) ++ post) tmp)).
  { destruct (merge_loop_ok (Z.to_nat (cnt1 + cnt2 + 1)) pre [] l1 [] l2 post [] tmp base cnt1 cnt2 0 0 cnt1)
      as (tmp' & Hm & Hl); cbn [app]; change (zlen (@nil Z)) with 0; try (unfold zlen in *; lia).
    exists (merge l1 l2), tmp'. cbn [app] in Hm, Hl. rewrite <- app_assoc. split_and!; [done|done|apply merge_Permutation|].
    intros Hc (Hlt & Hs1 & Hs2). by apply merge_sorted. }
  destruct (16 <? cnt1 + cnt2); [|exact Hmerge].
  destruct l1 as [|u l1 _] using rev_ind; [change (zlen (@nil Z)) with 0 in *; lia|].
  destruct l2 as [|v l2]; [change (zlen (@nil Z)) with 0 in *; lia|].
  rewrite zlen_app, zlen_cons in H1. change (zlen (@nil Z)) with 0 in H1.
  assert (E1 : (pre ++ ((l1 ++ [u]) ++ v :: l2) ++ post).[base + (cnt1 - 1)] = Some u).
  { replace (pre ++ _) with ((pre ++ l1) ++ u :: v :: l2 ++ post) by app_eq. apply zget_at. rewrite zlen_app. lia. }
  assert (E2 : (pre ++ ((l1 ++ [u]) ++ v :: l2) ++ post).[base + cnt1] = Some v).
  { replace (pre ++ _) with ((pre ++ l1 ++ [u]) ++ v :: l2 ++ post) by app_eq. apply zget_at.
    rewrite !zlen_app, zlen_cons. change (zlen (@nil Z)) with 0. lia. }
  rewrite E1, E2. cbn [mbind option_bind]. destruct (Z.leb_spec (cmp u v) 0) as [Hle|]; [|exact Hmerge].
  exists ((l1 ++ [u]) ++ v :: l2), tmp. split_and!; [done..|]. intros Hc (Hlt & Hs1 & Hs2). by apply ordered_sorted.
Qed.

Lemma list_length_2 {A} (l : list A) : zlen l = 2 → ∃ x y, l = [x; y].
Proof.
  destruct l as [|x [|y [|]]]; rewrite ?zlen_cons; change (zlen (@nil A)) with 0; try lia; eauto.
  pose proof (zlen_nonneg l). lia.
Qed.
Lemma list_length_3 {A} (l : list A) : zlen l = 3 → ∃ x y z, l = [x; y; z].
Proof.
  destruct l as [|x [|y [|z [|]]]]; rewrite ?zlen_cons; change (zlen (@nil A)) with 0; try lia; eauto.
  pose proof (zlen_nonneg l). lia.
Qed.

Lemma increasing_pair x y l : StronglySorted Z.lt (x :: y :: l) → x < y ∧ StronglySorted Z.lt (y :: l).
Proof. inversion_clear 1 as [|? ? Hs Hf]. inversion_clear Hf. done. Qed.

Lemma sorted_2 x y : before x y → StronglySorted before [x; y].
Proof. intros. constructor; [constructor; [constructor|done]|]. by apply list.Forall_singleton. Qed.
Lemma sorted_3 x y z : comparator cmp → before x y → before y z → StronglySorted before [x; y; z].
Proof.
  intros. constructor; [by apply sorted_2|]. apply list.Forall_cons. split; [done|].
  apply list.Forall_singleton. by eapply before_trans.
Qed.

(** The three elements in each order. *)
Lemma perm_3 (x y z : Z) :
  [x; y; z] ≡ₚ [x; y; z] ∧ [y; x; z] ≡ₚ [x; y; z] ∧ [x; z; y] ≡ₚ [x; y; z] ∧
  [z; x; y] ≡ₚ [x; y; z] ∧ [y; z; x] ≡ₚ [x; y; z] ∧ [z; y; x] ≡ₚ [x; y; z].
Proof.
  assert (H1 : [z; x; y] ≡ₚ [x; y; z]) by apply (Permutation_cons_append [x; y] z).
  assert (H2 : [y; z; x] ≡ₚ [x; y; z]) by (symmetry; apply (Permutation_cons_append [y; z] x)).
  split_and!; [done|apply perm_swap|apply perm_skip, perm_swap|exact H1|exact H2|].
  etrans; [apply perm_swap|exact H2].
Qed.

Lemma write_3 (pre : list Z) x y z post x' y' z' base :
  zlen pre = base →
  (listp ← (pre ++ [x; y; z] ++ post).[base := x']; listp ← listp.[base + 1 := y'];
   listp.[base + 2 := z']) = Some (pre ++ [x'; y'; z'] ++ post).
Proof.
  intros Hb. cbn [app]. rewrite zset_at by done. cbn [mbind option_bind].
  replace (pre ++ x' :: y :: z :: post) with ((pre ++ [x']) ++ y :: z :: post) by app_eq.
  rewrite zset_at by (rewrite zlen_app; unfold zlen in *; cbn; lia). cbn [mbind option_bind].
  replace ((pre ++ [x']) ++ y' :: z :: post) with ((pre ++ [x'; y']) ++ z :: post) by app_eq.
  rewrite zset_at by (rewrite zlen_app; unfold zlen in *; cbn; lia). f_equal. app_eq.
Qed.

Lemma sort_two_ok pre x y post tmp base :
  zlen pre = base →
  sorts (StronglySorted Z.lt [x; y]) pre [x; y] post tmp (sort_two cmp base (pre ++ [x; y] ++ post) tmp).
Proof.
  intros Hb. unfold sort_two. cbn [app]. rewrite (zget_at pre base) by done. cbn [mbind option_bind].
  assert (E : (pre ++ x :: y :: post).[base + 1] = Some y).
  { replace (pre ++ x :: y :: post) with ((pre ++ [x]) ++ y :: post) by app_eq.
    apply zget_at. rewrite zlen_app. unfold zlen in *. cbn. lia. }
  rewrite E. cbn [mbind option_bind]. destruct (Z.ltb_spec 0 (cmp x y)) as [Hgt|Hle].
  - rewrite zset_at by done. cbn [mbind option_bind].
    replace (pre ++ y :: y :: post) with ((pre ++ [y]) ++ y :: post) by app_eq.
    rewrite zset_at by (rewrite zlen_app; unfold zlen in *; cbn; lia). cbn [mbind option_bind].
    exists [y; x], tmp. split_and!; [f_equal; f_equal; app_eq|done|apply perm_swap|].
    intros Hc _. by apply sorted_2, before_gt.
  - exists [x; y], tmp. split_and!; auto. intros Hc [Hxy _]%increasing_pair. by apply sorted_2, before_le.
Qed.

(** Any order of the three that [before] agrees with is a correct result. *)
Lemma put_three pre x y z post tmp base x' y' z' :
  zlen pre = base → [x'; y'; z'] ≡ₚ [x; y; z] →
  (comparator cmp → StronglySorted Z.lt [x; y; z] → before x' y' ∧ before y' z') →
  sorts (StronglySorted Z.lt [x; y; z]) pre [x; y; z] post tmp
    (listp ← (pre ++ [x; y; z] ++ post).[base := x']; listp ← listp.[base + 1 := y'];
     listp ← listp.[base + 2 := z']; Some (listp, tmp)).
Proof.
  intros Hb Hp Hs. pose proof (write_3 pre x y z post x' y' z' base Hb) as Hw.
  exists [x'; y'; z'], tmp. split_and!; [|done|done|].
  - destruct ((pre ++ [x; y; z] ++ post).[base := x']) as [l1|]; cbn [mbind option_bind] in *; [|done].
    destruct (l1.[base + 1 := y']) as [l2|]; cbn [mbind option_bind] in *; [|done]. by rewrite Hw.
  - intros Hc Hlt. destruct (Hs Hc Hlt). by apply sorted_3.
Qed.

Lemma sort_three_ok pre x y z post tmp base :
  zlen pre = base →
  sorts (StronglySorted Z.lt [x; y; z]) pre [x; y; z] post tmp
    (sort_three cmp base (pre ++ [x; y; z] ++ post) tmp).
Proof.
  intros Hb. unfold sort_three.
  assert (E : (pre ++ [x; y; z] ++ post).[base + 1] = Some y).
  { replace (pre ++ [x; y; z] ++ post) with ((pre ++ [x]) ++ y :: z :: post) by app_eq.
    apply zget_at. rewrite zlen_app. unfold zlen in *. cbn. lia. }
  assert (E' : (pre ++ [x; y; z] ++ post).[base + 2] = Some z).
  { replace (pre ++ [x; y; z] ++ post) with ((pre ++ [x; y]) ++ z :: post) by app_eq.
    apply zget_at. rewrite zlen_app. unfold zlen in *. cbn. lia. }
  assert (E0 : (pre ++ [x; y; z] ++ post).[base] = Some x) by (by apply (zget_at pre base x ([y; z] ++ post))).
  rewrite E0, E, E'. cbn [mbind option_bind].
  destruct (perm_3 x y z) as (P1 & P2 & P3 & P4 & P5 & P6).
  assert (Hlt : StronglySorted Z.lt [x; y; z] → x < y ∧ y < z ∧ x < z).
  { intros [Hxy Hyz]%increasing_pair. apply increasing_pair in Hyz as [Hyz _]. lia. }
  destruct (Z.ltb_spec 0 (cmp x y)) as [G1|G1];
    [destruct (Z.ltb_spec 0 (cmp x z)) as [G2|G2]|destruct (Z.ltb_spec 0 (cmp y z)) as [G2|G2]];
    [destruct (Z.ltb_spec 0 (cmp y z)) as [G3|G3]| |destruct (Z.ltb_spec 0 (cmp x z)) as [G3|G3]|];
    apply put_three; auto; intros Hc (Hxy & Hyz & Hxz)%Hlt; split;
    first [by apply before_gt | apply before_le; lia].
Qed.

Lemma SimpleMergeSort_ok fuel pre L post tmp base cnt :
  zlen pre = base → zlen L = cnt → cnt ≤ zlen tmp → cnt ≤ Z.of_nat fuel →
  sorts (StronglySorted Z.lt L) pre L post tmp (__CFSimpleMergeSort cmp fuel base cnt (pre ++ L ++ post) tmp).
Proof.
  revert pre L post tmp base cnt. induction fuel as [|fuel IH]; intros pre L post tmp base cnt Hb Hl Ht Hf.
  { exists L, tmp. rewrite (zlen_zero L) in * by (pose proof (zlen_nonneg L); lia).
    change (zlen (@nil Z)) with 0 in Hl. subst cnt. cbn. split_and!; auto. intros. constructor. }
  cbn [__CFSimpleMergeSort]. destruct (Z.ltb_spec cnt 2) as [H2|H2].
  { exists L, tmp. split_and!; auto. intros _ _. destruct L as [|x [|y L]]; [constructor|by repeat constructor|].
    rewrite !zlen_cons in Hl. pose proof (zlen_nonneg L). lia. }
  destruct (Z.eqb_spec 2 cnt) as [E2|E2].
  { destruct (list_length_2 L) as (x & y & ->); [lia|]. by apply sort_two_ok. }
  destruct (Z.eqb_spec 3 cnt) as [E3|E3].
  { destruct (list_length_3 L) as (x & y & z & ->); [lia|]. by apply sort_three_ok. }
  (* four or more: sort the halves and merge *)
  set (half := cnt ÷ 2). assert (Hh : half = cnt / 2) by (apply Z.quot_div_nonneg; lia).
  assert (Hhalf : 0 < half < cnt) by (rewrite Hh; zdiv).
  set (L1 := take (Z.to_nat half) L). set (L2 := drop (Z.to_nat half) L).
  assert (HL : L = L1 ++ L2) by (symmetry; apply take_drop).
  assert (Hl1 : zlen L1 = half) by (unfold L1; rewrite zlen_take; lia).
  assert (Hl2 : zlen L2 = cnt - half) by (unfold L2; rewrite zlen_drop; lia).
  rewrite HL.
  destruct (IH pre L1 (L2 ++ post) tmp base half) as (l1 & tmp1 & E1 & Ht1 & P1 & S1); [done|done|lia|lia|].
  replace (pre ++ (L1 ++ L2) ++ post) with (pre ++ L1 ++ L2 ++ post) by app_eq.
  rewrite E1. cbn [mbind option_bind].
  assert (Hl1' : zlen l1 = half) by (rewrite <- Hl1; unfold zlen; by rewrite P1).
  destruct (IH (pre ++ l1) L2 post tmp1 (base + half) (cnt - half)) as (l2 & tmp2 & E2' & Ht2 & P2 & S2);
    [rewrite zlen_app; lia|done|lia|lia|].
  replace (pre ++ l1 ++ L2 ++ post) with ((pre ++ l1) ++ L2 ++ post) by app_eq.
  rewrite E2'. cbn [mbind option_bind].
  assert (Hl2' : zlen l2 = cnt - half) by (rewrite <- Hl2; unfold zlen; by rewrite P2).
  destruct (SimpleMerge_ok pre l1 l2 post tmp2 base half (cnt - half)) as (l & tmp3 & E3' & Ht3 & P3 & S3);
    [done|done|done|lia|].
  replace ((pre ++ l1) ++ l2 ++ post) with (pre ++ (l1 ++ l2) ++ post) by app_eq.
  exists l, tmp3. split_and!; [done|lia|by rewrite P3, P1, P2|].
  intros Hc Hlt. pose proof (StronglySorted_app_1_l _ _ _ Hlt). pose proof (StronglySorted_app_1_r _ _ _ Hlt).
  apply S3; [done|]. split_and!; [|by apply S1|by apply S2]. rewrite P1, P2. intros u v Hu Hv _.
  by apply (StronglySorted_app_1_elem_of Z.lt L1 L2).
Qed.
End correctness.
