(* ===== verification/SortBlocks.v ===== *)
(** * The concurrent sort (CFSortFunctions.c, [__CFSortIndexesN])

    The array is cut into blocks that are sorted on their own; then phases of
    odd-even merging exchange elements between neighbouring blocks.  The
    iterations of a [dispatch_apply] run in any order. *)
From S2P Require Import Prelude Sort.
From stdpp Require Import list sorting.
From Stdlib Require Import Permutation Sorted.
Open Scope Z_scope.

(** ** Interfaces *)

(** What [dispatch_apply] promises: the block is run once for each index below
    the bound, in an order it chooses. *)
Class DispatchApply := {
  apply_order : Z → list Z;
  apply_order_all n : apply_order n ≡ₚ seqZ 0 n;
}.

Definition dispatch_apply `{DispatchApply} {St} (n : Z) (block : Z → St → option St) (s : St) : option St :=
  foldl (λ s i, s ← s; block i s) (Some s) (apply_order n).

(** Room for [n] words, on the stack or from [malloc]; its contents are
    unspecified. *)
Class Scratch := {
  scratch : Z → option (list Z);
  scratch_len n b : scratch n = Some b → 0 ≤ n → zlen b = n;
}.

(** An instance of each: the iterations from the last to the first, and storage
    that is never refused. *)
Definition backwards : DispatchApply := {|
  apply_order n := reverse (seqZ 0 n);
  apply_order_all n := reverse_Permutation (seqZ 0 n);
|}.
Program Definition plenty (junk : Z) : Scratch := {| scratch n := Some (replicate (Z.to_nat n) junk) |}.
Next Obligation. intros junk n b [= <-] ?. rewrite zlen_replicate. lia. Qed.

(** ** The program *)
Section blocks.
Context `{!DispatchApply, !Scratch} (cmp : Z → Z → Z).
Implicit Types listp tmp : list Z.

(** The loop of [__CFSortIndexesNMerge] when [!right], for [n] turns: the
    pointers are indexes into the arrays [src1] and [src2] and the output [tmp]. *)
Fixpoint merge_left (n : nat) (src1 : list Z) (p1 end1 : Z) (src2 : list Z) (p2 end2 : Z) tmp (t : Z)
    : option (list Z) :=
  match n with
  | O => Some tmp
  | S n =>
      if end2 <=? p2 then
        v ← src1.[p1]; tmp ← tmp.[t := v]; merge_left n src1 (p1 + 1) end1 src2 p2 end2 tmp (t + 1)
      else if end1 <=? p1 then
        v ← src2.[p2]; tmp ← tmp.[t := v]; merge_left n src1 p1 end1 src2 (p2 + 1) end2 tmp (t + 1)
      else
        v1 ← src1.[p1]; v2 ← src2.[p2];
        if cmp v1 v2 <=? 0 then
          tmp ← tmp.[t := v1]; merge_left n src1 (p1 + 1) end1 src2 p2 end2 tmp (t + 1)
        else
          tmp ← tmp.[t := v2]; merge_left n src1 p1 end1 src2 (p2 + 1) end2 tmp (t + 1)
  end.

(** The loop when [right]: the pointers go down to [end1], [end2]. *)
Fixpoint merge_right (n : nat) (src1 : list Z) (p1 end1 : Z) (src2 : list Z) (p2 end2 : Z) tmp (t : Z)
    : option (list Z) :=
  match n with
  | O => Some tmp
  | S n =>
      let t := t - 1 in
      if p2 <? end2 then
        v ← src1.[p1 - 1]; tmp ← tmp.[t := v]; merge_right n src1 (p1 - 1) end1 src2 p2 end2 tmp t
      else if p1 <? end1 then
        v ← src2.[p2 - 1]; tmp ← tmp.[t := v]; merge_right n src1 p1 end1 src2 (p2 - 1) end2 tmp t
      else
        v1 ← src1.[p1]; v2 ← src2.[p2];
        if cmp v1 v2 <=? 0 then
          tmp ← tmp.[t := v2]; merge_right n src1 p1 end1 src2 (p2 - 1) end2 tmp t
        else
          tmp ← tmp.[t := v1]; merge_right n src1 (p1 - 1) end1 src2 p2 end2 tmp t
  end.

Definition __CFSortIndexesNMerge (src1 : list Z) (listp1 cnt1 : Z) (src2 : list Z) (listp2 cnt2 : Z)
    (out : list Z) (tmp : Z) (right : bool) : option (list Z) :=
  ordered ←
    (if 16 <? cnt1 + cnt2 then
       v1 ← src1.[listp1 + (cnt1 - 1)]; v2 ← src2.[listp2]; Some (cmp v1 v2 <=? 0)
     else Some false);
  if (ordered : bool) then
    s ← (if right then zsub src2 listp2 cnt2 else zsub src1 listp1 cnt1); zwrite out tmp s
  else if right then
    merge_right (Z.to_nat cnt2) src1 (listp1 + (cnt1 - 1)) listp1 src2 (listp2 + (cnt2 - 1)) listp2
      out (tmp + cnt2)
  else
    merge_left (Z.to_nat cnt1) src1 listp1 (listp1 + cnt1) src2 listp2 (listp2 + cnt2) out tmp.

(** The shape of the division into blocks. *)
Definition block_size (count ncores : Z) : Z := (((count + ncores - 1) ÷ ncores + 15) ÷ 16) * 16.

(** [malloc] of [n] blocks. *)
Fixpoint malloc_tmps (n : nat) (sz : Z) : option (list (list Z)) :=
  match n with
  | O => Some []
  | S n => b ← scratch sz; tmps ← malloc_tmps n sz; Some (b :: tmps)
  end.

(** A step of each phase: the block of one iteration. *)
Definition sort_section (sz num_sect last_sect_len sect : Z) (st : list Z * list (list Z))
    : option (list Z * list (list Z)) :=
  let '(listp, tmps) := st in
  let sect_len := if sect <? num_sect - 1 then sz else last_sect_len in
  tmp ← tmps.[sect];
  '(listp, tmp) ← __CFSimpleMergeSort cmp (Z.to_nat sect_len) (sect * sz) sect_len listp tmp;
  tmps ← tmps.[sect := tmp];
  Some (listp, tmps).

Definition merge_even (sz num_sect last_sect_len : Z) listp (sect : Z) (tmps : list (list Z))
    : option (list (list Z)) :=
  let right := Z.odd sect in
  let left_base := sect * sz - (if right then sz else 0) in
  let right_base := sect * sz + (if right then 0 else sz) in
  let sect2_len := if sect + 1 + (if right then 0 else 1) =? num_sect then last_sect_len else sz in
  tmp ← tmps.[sect];
  tmp ← __CFSortIndexesNMerge listp left_base sz listp right_base sect2_len tmp 0 right;
  tmps.[sect := tmp].

Definition merge_odd (sz num_sect last_sect_len : Z) (tmps : list (list Z)) (sect : Z) listp
    : option (list Z) :=
  let right := Z.odd sect in
  left_base ← tmps.[sect + (if right then 0 else 1)];
  right_base ← tmps.[sect + (if right then 1 else 2)];
  let sect2_len := if sect + 1 + (if right then 1 else 2) =? num_sect then last_sect_len else sz in
  __CFSortIndexesNMerge left_base 0 sz right_base 0 sect2_len listp (sect * sz + sz) right.

(** One turn of the loop over the phases. *)
Definition merge_phases (sz num_sect last_sect_len : Z) (st : list Z * list (list Z))
    : option (list Z * list (list Z)) :=
  let '(listp, tmps) := st in
  let even_phase_cnt := num_sect ÷ 2 * 2 in
  let odd_phase_cnt := (num_sect - 1) ÷ 2 * 2 in
  tmps ← dispatch_apply even_phase_cnt (merge_even sz num_sect last_sect_len listp) tmps;
  tmps ← (if Z.odd num_sect then
            tmp ← tmps.[num_sect - 1];
            s ← zsub listp ((num_sect - 1) * sz) last_sect_len;
            tmp ← zwrite tmp 0 s; tmps.[num_sect - 1 := tmp]
          else Some tmps);
  listp ← dispatch_apply odd_phase_cnt (merge_odd sz num_sect last_sect_len tmps) listp;
  tmp ← tmps.[0]; s ← zsub tmp 0 sz; listp ← zwrite listp 0 s;
  listp ← (if negb (Z.odd num_sect) then
             tmp ← tmps.[num_sect - 1]; s ← zsub tmp 0 last_sect_len;
             zwrite listp ((num_sect - 1) * sz) s
           else Some listp);
  Some (listp, tmps).

Fixpoint phases (n : nat) (sz num_sect last_sect_len : Z) (st : list Z * list (list Z))
    : option (list Z * list (list Z)) :=
  match n with
  | O => Some st
  | S n => st ← merge_phases sz num_sect last_sect_len st; phases n sz num_sect last_sect_len st
  end.

Definition __CFSortIndexesN listp (count ncores : Z) : option (list Z) :=
  let sz := block_size count ncores in
  let num_sect := (count + sz - 1) ÷ sz in
  let last_sect_len := count + sz - sz * num_sect in
  tmps ← malloc_tmps (Z.to_nat num_sect) sz;
  st ← dispatch_apply num_sect (sort_section sz num_sect last_sect_len) (listp, tmps);
  '(listp, _) ← phases (Z.to_nat ((num_sect + 1) ÷ 2)) sz num_sect last_sect_len st;
  Some listp.
End blocks.

(** ** The two merges *)

(** [l] stands in the array [src] from index [p] on. *)
Definition stands (l src : list Z) (p : Z) : Prop := ∃ pre post, src = pre ++ l ++ post ∧ zlen pre = p.

Lemma stands_head x l src p : stands (x :: l) src p → src.[p] = Some x ∧ stands l src (p + 1).
Proof.
  intros (pre & post & -> & <-). split; [apply (zget_middle pre x (l ++ post))|].
  exists (pre ++ [x]), post. rewrite zlen_app. split; [app_eq|done].
Qed.
Lemma stands_last x l src p : stands (l ++ [x]) src p → src.[p + zlen l] = Some x ∧ stands l src p.
Proof.
  intros (pre & post & -> & <-). split; [|exists pre, ([x] ++ post); split; [app_eq|done]].
  replace (pre ++ (l ++ [x]) ++ post) with ((pre ++ l) ++ x :: post) by app_eq.
  apply zget_at. by rewrite zlen_app.
Qed.
Lemma stands_zsub l src p n : stands l src p → zlen l = n → zsub src p n = Some l.
Proof. intros (pre & post & -> & <-) <-. apply zsub_app. Qed.
Lemma zwrite_over (pre old post s : list Z) t :
  zlen pre = t → zlen old = zlen s → zwrite (pre ++ old ++ post) t s = Some (pre ++ s ++ post).
Proof.
  intros <- Hs. unfold zwrite. pose proof (zlen_nonneg pre). pose proof (zlen_nonneg post).
  rewrite decide_True by (rewrite !zlen_app; lia). unfold zlen in *. rewrite Nat2Z.id, take_app_length.
  replace (length pre + length s)%nat with (length (pre ++ old)) by (rewrite length_app; lia).
  by rewrite (app_assoc pre old), drop_app_length.
Qed.

Section merging.
Context (cmp : Z → Z → Z).
#[local] Abbreviation merge := (list_merge (not_greater cmp)).

Lemma greater_decided x y : (cmp x y <=? 0) = bool_decide (not_greater cmp x y).
Proof. unfold not_greater. case_bool_decide; zcases. Qed.

Lemma length_merge l1 l2 : length (merge l1 l2) = (length l1 + length l2)%nat.
Proof. by rewrite (merge_Permutation (not_greater cmp) l1 l2), length_app. Qed.

Lemma merge_left_ok n src1 p1 end1 l1 src2 p2 end2 l2 pre old post t :
  stands l1 src1 p1 → end1 = p1 + zlen l1 → stands l2 src2 p2 → end2 = p2 + zlen l2 →
  zlen pre = t → length old = n → (n ≤ length l1 + length l2)%nat →
  merge_left cmp n src1 p1 end1 src2 p2 end2 (pre ++ old ++ post) t
    = Some (pre ++ take n (merge l1 l2) ++ post).
Proof.
  revert p1 l1 p2 l2 pre old t. induction n as [|n IH]; intros p1 l1 p2 l2 pre old t H1 E1 H2 E2 Ht Ho Hn.
  { destruct old; [done|discriminate]. }
  destruct old as [|o old]; [discriminate|]. injection Ho as Ho. cbn [merge_left].
  pose proof (zlen_nonneg l1). pose proof (zlen_nonneg l2).
  assert (Hset : ∀ v, (pre ++ (o :: old) ++ post).[t := v] = Some ((pre ++ [v]) ++ old ++ post)).
  { intros v. cbn [app]. rewrite zset_at by done. f_equal. app_eq. }
  assert (Ht' : ∀ v, zlen (pre ++ [v]) = t + 1) by (intros; rewrite zlen_app; unfold zlen in *; cbn; lia).
  destruct l2 as [|y l2].
  - change (zlen (@nil Z)) with 0 in *. replace (end2 <=? p2) with true by zcases.
    destruct l1 as [|x l1]; [cbn in Hn; lia|]. apply stands_head in H1 as [Hx H1]. rewrite Hx. cbn [mbind option_bind].
    rewrite Hset. cbn [mbind option_bind]. rewrite zlen_cons in E1. cbn [length] in Hn.
    rewrite (IH (p1 + 1) l1 p2 [] (pre ++ [x]) old (t + 1)); auto; [|lia|cbn; lia].
    rewrite !list_merge_nil_r. cbn [firstn]. f_equal. app_eq.
  - rewrite zlen_cons in *. pose proof (zlen_nonneg l2). replace (end2 <=? p2) with false by zcases.
    pose proof (stands_head _ _ _ _ H2) as [Hy H2']. cbn [length] in Hn. destruct l1 as [|x l1].
    + change (zlen (@nil Z)) with 0 in *. replace (end1 <=? p1) with true by zcases.
      rewrite Hy. cbn [mbind option_bind]. rewrite Hset. cbn [mbind option_bind].
      rewrite (IH p1 [] (p2 + 1) l2 (pre ++ [y]) old (t + 1)); auto; [|lia|cbn in *; lia].
      rewrite !list_merge_nil_l. cbn [firstn]. f_equal. app_eq.
    + rewrite zlen_cons in *. pose proof (zlen_nonneg l1). replace (end1 <=? p1) with false by zcases.
      pose proof (stands_head _ _ _ _ H1) as [Hx H1']. rewrite Hx, Hy. cbn [mbind option_bind length] in *.
      rewrite greater_decided, list_merge_cons. case_bool_decide as Hle.
      * rewrite decide_True by done. rewrite Hset. cbn [mbind option_bind].
        rewrite (IH (p1 + 1) l1 p2 (y :: l2) (pre ++ [x]) old (t + 1)); auto; [|lia|rewrite zlen_cons; lia|cbn; lia].
        cbn [firstn]. f_equal. app_eq.
      * rewrite decide_False by done. rewrite Hset. cbn [mbind option_bind].
        rewrite (IH p1 (x :: l1) (p2 + 1) l2 (pre ++ [y]) old (t + 1)); auto; [|rewrite zlen_cons; lia|lia|cbn; lia].
        cbn [firstn]. f_equal. app_eq.
Qed.

(** Sorted lists whose ties are in order. *)
Definition mergeable (l1 l2 : list Z) : Prop :=
  ties_in_order cmp l1 l2 ∧ StronglySorted (before cmp) l1 ∧ StronglySorted (before cmp) l2.

Lemma merge_mergeable l1 l2 : comparator cmp → mergeable l1 l2 → StronglySorted (before cmp) (merge l1 l2).
Proof. intros Hc (Ht & H1 & H2). by apply merge_sorted. Qed.

Lemma merge_is l1 l2 l :
  comparator cmp → mergeable l1 l2 → StronglySorted (before cmp) l → l ≡ₚ l1 ++ l2 → l = merge l1 l2.
Proof.
  intros Hc Hm Hs Hp. apply (stable_unique cmp); [done..|by apply merge_mergeable|].
  by rewrite merge_Permutation.
Qed.

Lemma mergeable_init_l l1 x l2 : mergeable (l1 ++ [x]) l2 → mergeable l1 l2.
Proof.
  intros (Ht & H1 & H2). split_and!; [|by eapply StronglySorted_app_1_l|done].
  intros a b Ha Hb. apply Ht; [|done]. apply elem_of_app. by left.
Qed.
Lemma mergeable_init_r l1 l2 y : mergeable l1 (l2 ++ [y]) → mergeable l1 l2.
Proof.
  intros (Ht & H1 & H2). split_and!; [|done|by eapply StronglySorted_app_1_l].
  intros a b Ha Hb. apply Ht; [done|]. apply elem_of_app. by left.
Qed.

(** The last element of a sorted list is after the others. *)
Lemma before_last l x y : StronglySorted (before cmp) (l ++ [x]) → y ∈ l → before cmp y x.
Proof. intros Hs Hy. apply (StronglySorted_app_1_elem_of _ l [x]); [done|done|by left]. Qed.

Lemma sorted_snoc l x :
  StronglySorted (before cmp) l → (∀ y, y ∈ l → before cmp y x) → StronglySorted (before cmp) (l ++ [x]).
Proof.
  intros Hs Hl. apply StronglySorted_app_2; [|done|repeat constructor].
  intros a b Ha -> %list_elem_of_singleton. by apply Hl.
Qed.

(** The last element of a merge is the last of the list the code reads. *)
Lemma merge_last l1 x l2 y :
  comparator cmp → mergeable (l1 ++ [x]) (l2 ++ [y]) →
  merge (l1 ++ [x]) (l2 ++ [y]) =
    if decide (not_greater cmp x y) then merge (l1 ++ [x]) l2 ++ [y] else merge l1 (l2 ++ [y]) ++ [x].
Proof.
  intros Hc Hm. symmetry. pose proof Hm as (Ht & H1 & H2). case_decide as Hle; apply merge_is; auto.
  - assert (Hxy : before cmp x y).
    { apply before_le; [|done]. apply Ht; apply elem_of_app; right; by left. }
    apply sorted_snoc; [by eapply merge_mergeable, mergeable_init_r|]. intros z. rewrite merge_Permutation.
    intros [[Hz| ->%list_elem_of_singleton]%elem_of_app|Hz]%elem_of_app; [|done|by apply (before_last l2)].
    eapply before_trans; [done|by apply (before_last l1)|done].
  - by rewrite merge_Permutation, <- app_assoc.
  - assert (Hyx : before cmp y x) by (apply before_gt; [done|unfold not_greater in Hle; lia]).
    apply sorted_snoc; [by eapply merge_mergeable, mergeable_init_l|]. intros z. rewrite merge_Permutation.
    intros [Hz|[Hz| ->%list_elem_of_singleton]%elem_of_app]%elem_of_app; [by apply (before_last l1)| |done].
    eapply before_trans; [done|by apply (before_last l2)|done].
  - rewrite merge_Permutation, <- app_assoc, (Permutation_app_comm (l2 ++ [y]) [x]), app_assoc. done.
Qed.

Lemma merge_right_ok n src1 p1 end1 l1 src2 p2 end2 l2 pre old post t :
  comparator cmp → mergeable l1 l2 → stands l1 src1 end1 → stands l2 src2 end2 →
  p1 = end1 + zlen l1 - 1 → p2 = end2 + zlen l2 - 1 → (n ≤ length l1)%nat → (n ≤ length l2)%nat →
  t = zlen pre + zlen old → length old = n →
  merge_right cmp n src1 p1 end1 src2 p2 end2 (pre ++ old ++ post) t
    = Some (pre ++ drop (length l1 + length l2 - n) (merge l1 l2) ++ post).
Proof.
  intros Hc. revert p1 l1 p2 l2 old post t.
  induction n as [|n IH]; intros p1 l1 p2 l2 old post t Hm H1 H2 E1 E2 Hn1 Hn2 Ht Ho.
  { destruct old; [|discriminate]. rewrite Nat.sub_0_r, <- length_merge, drop_all. done. }
  destruct l1 as [|x l1 _] using rev_ind; [cbn in Hn1; lia|]. destruct l2 as [|y l2 _] using rev_ind; [cbn in Hn2; lia|].
  destruct old as [|o old _] using rev_ind; [discriminate|].
  rewrite length_app in Hn1, Hn2, Ho. cbn [length] in Hn1, Hn2, Ho.
  rewrite !zlen_app in *. change (zlen [x]) with 1 in *. change (zlen [y]) with 1 in *. change (zlen [o]) with 1 in *.
  pose proof (zlen_nonneg l1). pose proof (zlen_nonneg l2). cbn [merge_right].
  replace (p2 <? end2) with false by zcases. replace (p1 <? end1) with false by zcases.
  pose proof (stands_last _ _ _ _ H1) as [Hx H1']. pose proof (stands_last _ _ _ _ H2) as [Hy H2'].
  replace p1 with (end1 + zlen l1) by lia. replace p2 with (end2 + zlen l2) by lia.
  rewrite Hx, Hy. cbn [mbind option_bind]. rewrite greater_decided, merge_last by done.
  assert (Hset : ∀ v, (pre ++ (old ++ [o]) ++ post).[t - 1 := v] = Some (pre ++ old ++ v :: post)).
  { intros v. replace (pre ++ (old ++ [o]) ++ post) with ((pre ++ old) ++ o :: post) by app_eq.
    rewrite zset_at by (rewrite zlen_app; lia). f_equal. app_eq. }
  assert (Hfin : ∀ M v, (length (l1 ++ [x]) + length (l2 ++ [y]) - S n ≤ length M)%nat →
    drop (length (l1 ++ [x]) + length (l2 ++ [y]) - S n) (M ++ [v]) ++ post
      = drop (length (l1 ++ [x]) + length (l2 ++ [y]) - S n) M ++ v :: post).
  { intros M v HM. rewrite drop_app_le by done. app_eq. }
  case_bool_decide as Hle; [rewrite decide_True by done|rewrite decide_False by done];
    rewrite Hset; cbn [mbind option_bind]; rewrite Hfin by (rewrite length_merge, !length_app in *; cbn [length]; lia).
  - rewrite (IH _ (l1 ++ [x]) _ l2); rewrite ?length_app, ?zlen_app; cbn [length]; change (zlen [x]) with 1; try lia; auto.
    + f_equal. f_equal. f_equal. f_equal. lia.
    + by eapply mergeable_init_r.
  - rewrite (IH _ l1 _ (l2 ++ [y])); rewrite ?length_app, ?zlen_app; cbn [length]; change (zlen [y]) with 1; try lia; auto.
    + f_equal. f_equal. f_equal. f_equal. lia.
    + by eapply mergeable_init_l.
Qed.

(** The two halves of a merge: as many elements as the lists had. *)
Definition merge_half (right : bool) (l1 l2 : list Z) : list Z :=
  if right then drop (length l1) (merge l1 l2) else take (length l1) (merge l1 l2).

Lemma NMerge_ok src1 p1 cnt1 l1 src2 p2 cnt2 l2 pre old post t (right : bool) :
  comparator cmp → mergeable l1 l2 → stands l1 src1 p1 → stands l2 src2 p2 →
  zlen l1 = cnt1 → zlen l2 = cnt2 → 0 < cnt2 ≤ cnt1 → zlen pre = t →
  length old = (if right then length l2 else length l1) →
  __CFSortIndexesNMerge cmp src1 p1 cnt1 src2 p2 cnt2 (pre ++ old ++ post) t right
    = Some (pre ++ merge_half right l1 l2 ++ post).
Proof.
  intros Hc Hm H1 H2 E1 E2 Hcnt Ht Ho. unfold __CFSortIndexesNMerge, merge_half.
  assert (Hmerge : (if right then
      merge_right cmp (Z.to_nat cnt2) src1 (p1 + (cnt1 - 1)) p1 src2 (p2 + (cnt2 - 1)) p2 (pre ++ old ++ post) (t + cnt2)
    else merge_left cmp (Z.to_nat cnt1) src1 p1 (p1 + cnt1) src2 p2 (p2 + cnt2) (pre ++ old ++ post) t)
    = Some (pre ++ (if right then drop (length l1) (merge l1 l2) else take (length l1) (merge l1 l2)) ++ post)).
  { destruct right.
    - rewrite (merge_right_ok _ _ _ _ l1 _ _ _ l2); auto; try (unfold zlen in *; lia).
      do 4 f_equal. unfold zlen in *. lia.
    - rewrite (merge_left_ok _ _ _ _ l1 _ _ _ l2); auto; try (unfold zlen in *; lia).
      do 4 f_equal. unfold zlen in *. lia. }
  destruct (16 <? cnt1 + cnt2); [|exact Hmerge].
  destruct l1 as [|u l1 _] using rev_ind; [change (zlen (@nil Z)) with 0 in E1; lia|].
  destruct l2 as [|v l2]; [change (zlen (@nil Z)) with 0 in E2; lia|].
  pose proof (stands_last _ _ _ _ H1) as [Hu _]. pose proof (stands_head _ _ _ _ H2) as [Hv _].
  pose proof E1 as E1'. rewrite zlen_app in E1'. change (zlen [u]) with 1 in E1'.
  replace (cnt1 - 1) with (zlen l1) in * by lia. rewrite Hu, Hv. cbn [mbind option_bind].
  destruct (Z.leb_spec (cmp u v) 0) as [Hle|]; [|exact Hmerge].
  pose proof Hm as (Hties & S1 & S2).
  rewrite <- (merge_is (l1 ++ [u]) (v :: l2) ((l1 ++ [u]) ++ v :: l2)) by (auto using ordered_sorted).
  rewrite drop_app_length, take_app_length.
  destruct right; (erewrite stands_zsub by eassumption); cbn [mbind option_bind]; apply zwrite_over; auto;
    unfold zlen; by rewrite Ho.
Qed.

Lemma length_merge_half right l1 l2 : length (merge_half right l1 l2) = length (if right then l2 else l1).
Proof. unfold merge_half. destruct right; rewrite ?length_drop, ?length_take, length_merge; lia. Qed.
End merging.
