(* ===== verification/SortPhases.v ===== *)
(** * The phases of the concurrent sort

    Why the odd-even merging of [__CFSortIndexesN] sorts: the blocks as a
    function of the section, a phase on them, and the number of phases that is
    enough. *)
From S2P Require Import Prelude Sort SortBlocks.
From stdpp Require Import list sorting.
From Stdlib Require Import Permutation Sorted.
Open Scope Z_scope.

#[export] Instance before_dec cmp x y : Decision (before cmp x y).
Proof. unfold before. apply _. Defined.

Lemma before_total cmp x y : comparator cmp → x ≠ y → before cmp x y ∨ before cmp y x.
Proof. intros Hc ?. unfold before. pose proof (cmp_flip Hc x y). pose proof (cmp_flip Hc y x). lia. Qed.

(** ** How far the large elements have come

    In the counting argument [k] is a boundary between blocks of [sz] elements,
    [n] the number of blocks, [T] the number of elements that count as large and
    [a] is twice the number of large elements after the boundary, plus [k * sz].
    A phase that works on [k] makes it one more than the smaller neighbour. *)
Section reach.
Context (n sz T : Z) (Hsz : 0 < sz).

Definition arrived (k : Z) : Z := Z.min (2 * T + k * sz) ((2 * n - k) * sz).

Definition reach (k m a : Z) : Prop :=
  arrived k ≤ a ∨ ∃ j, Z.even (j + k + m) = true ∧ Z.max (j * sz) (2 * T - j * sz) + m * sz ≤ a.

Lemma reach_step k m a b : reach (k - 1) m a → reach (k + 1) m b → reach k (m + 1) (Z.min a b + sz).
Proof.
  unfold reach, arrived. intros Ha Hb. destruct (Z.min_spec a b) as [[_ ->]|[_ ->]].
  - destruct Ha as [Ha|(j & Hj & Ha)]; [left; lia|]. right. exists j. split; [|lia].
    replace (j + k + (m + 1)) with (j + (k - 1) + m + 2 * 1) by lia. by rewrite Z.even_add_mul_2.
  - destruct Hb as [Hb|(j & Hj & Hb)]; [left; lia|]. right. exists j. split; [|lia].
    by replace (j + k + (m + 1)) with (j + (k + 1) + m) by lia.
Qed.

(** Phases as many as blocks, less one, are enough. *)
Lemma reach_arrived k m a : n - 1 ≤ m → reach k m a → arrived k ≤ a.
Proof.
  unfold reach, arrived. intros Hm [Ha|(j & Hj & Ha)]; [done|].
  apply Z.even_spec in Hj as [h Hj]. destruct (Z.le_gt_cases (j + k) m).
  - assert ((j + k) * sz ≤ m * sz) by (apply Z.mul_le_mono_nonneg_r; lia). lia.
  - assert (2 * n * sz ≤ (j + k + m) * sz) by (apply Z.mul_le_mono_nonneg_r; lia). lia.
Qed.
End reach.

(** ** A phase on the blocks *)
Section oddeven.
Context (cmp : Z → Z → Z) (Hc : comparator cmp) (n sz last : Z).
Context (Hn : 1 ≤ n) (Hlast : 0 < last ≤ sz).
Implicit Types blk : Z → list Z.

Definition sect_length (k : Z) : Z := if k <? n - 1 then sz else last.

(** Whether phase [m] works on the boundary before block [k]. *)
Definition active (m k : Z) : bool := (1 <=? k) && (k <=? n - 1) && Z.even (m + k).

Definition phase (m : Z) blk (k : Z) : list Z :=
  if active m (k + 1) then merge_half cmp false (blk k) (blk (k + 1))
  else if active m k then merge_half cmp true (blk (k - 1)) (blk k)
  else blk k.

(** The elements of the blocks from [k] on. *)
Definition from blk (k : Z) : list Z := mjoin (blk <$> seqZ k (n - k)).

Record good blk : Prop := {
  good_len k : 0 ≤ k < n → zlen (blk k) = sect_length k;
  good_sorted k : 0 ≤ k < n → StronglySorted (before cmp) (blk k);
  good_ties i j : 0 ≤ i < j → j < n → ties_in_order cmp (blk i) (blk j);
}.

Lemma from_cons blk k : k < n → from blk k = blk k ++ from blk (k + 1).
Proof.
  intros. unfold from. rewrite seqZ_cons by lia. cbn. unfold Z.succ. by replace (Z.pred (n - k)) with (n - (k + 1)) by lia.
Qed.
Lemma from_end blk : from blk n = [].
Proof. unfold from. by rewrite Z.sub_diag. Qed.

Lemma active_spec m k : active m k = true ↔ 1 ≤ k ≤ n - 1 ∧ Z.even (m + k) = true.
Proof. unfold active. rewrite !andb_true_iff, !Z.leb_le. done. Qed.
Lemma active_next m k : active m k = true → active m (k + 1) = false.
Proof.
  rewrite active_spec. intros [_ [h Hh]%Z.even_spec]. apply not_true_iff_false. rewrite active_spec.
  intros [_ [g Hg]%Z.even_spec]. lia.
Qed.
Lemma inactive_next m k : 0 ≤ k < n - 1 → active m k = false → active m (k + 1) = true ∨ k = 0.
Proof.
  intros Hk Ha. destruct (decide (k = 0)); [by right|left]. apply active_spec. split; [lia|].
  apply not_true_iff_false in Ha. rewrite active_spec in Ha. rewrite Z.add_assoc, Z.even_add.
  destruct (Z.even (m + k)) eqn:E; [|done]. exfalso. apply Ha. split; [lia|done].
Qed.

Lemma phase_left m blk k : active m (k + 1) = true → phase m blk k = merge_half cmp false (blk k) (blk (k + 1)).
Proof. unfold phase. by intros ->. Qed.
Lemma phase_right m blk k : active m k = true → phase m blk k = merge_half cmp true (blk (k - 1)) (blk k).
Proof. unfold phase. intros Ha. by rewrite (active_next _ _ Ha), Ha. Qed.
Lemma phase_idle m blk k : active m (k + 1) = false → active m k = false → phase m blk k = blk k.
Proof. unfold phase. by intros -> ->. Qed.

Lemma halves l1 l2 : merge_half cmp false l1 l2 ++ merge_half cmp true l1 l2 = list_merge (not_greater cmp) l1 l2.
Proof. unfold merge_half. apply take_drop. Qed.

Lemma pair_perm m blk k :
  active m k = true → phase m blk (k - 1) ++ phase m blk k ≡ₚ blk (k - 1) ++ blk k.
Proof.
  intros Ha. rewrite (phase_right m blk k Ha), phase_left by (by replace (k - 1 + 1) with k by lia).
  replace (k - 1 + 1) with k by lia. rewrite halves. apply merge_Permutation.
Qed.

(** The elements after a boundary that the phase leaves alone stay. *)
Lemma from_idle m blk k : 0 ≤ k ≤ n → active m k = false → from (phase m blk) k ≡ₚ from blk k.
Proof.
  intros Hk. remember (Z.to_nat (n - k)) as d eqn:Hd. revert k Hk Hd.
  induction (lt_wf d) as [d _ IH]. intros k Hk Hd Ha.
  destruct (decide (k = n)) as [->|]; [by rewrite !from_end|].
  rewrite (from_cons _ k), (from_cons blk k) by lia.
  destruct (active m (k + 1)) eqn:Ha1.
  - pose proof (proj1 (active_spec _ _) Ha1) as [Hk1 _]. rewrite (from_cons _ (k + 1)), (from_cons blk (k + 1)), !app_assoc by lia.
    pose proof (pair_perm m blk (k + 1) Ha1) as Hp. replace (k + 1 - 1) with k in Hp by lia. rewrite Hp.
    apply Permutation_app_head. eapply (IH (Z.to_nat (n - (k + 1 + 1)))); [lia|lia|done|by apply active_next].
  - rewrite phase_idle by done. apply Permutation_app_head. by eapply (IH (Z.to_nat (n - (k + 1)))); [lia|lia| |].
Qed.

Lemma phase_perm m blk : from (phase m blk) 0 ≡ₚ from blk 0.
Proof. by apply from_idle; [lia|]. Qed.

Lemma good_mergeable blk k : good blk → 1 ≤ k ≤ n - 1 → mergeable cmp (blk (k - 1)) (blk k).
Proof. intros Hg Hk. split_and!; [apply (good_ties blk Hg)|apply (good_sorted blk Hg)..]; lia. Qed.

(** Together the two blocks of an exchange are sorted. *)
Lemma pair_sorted m blk k :
  good blk → active m k = true → StronglySorted (before cmp) (phase m blk (k - 1) ++ phase m blk k).
Proof.
  intros Hg Ha. rewrite (phase_right m blk k Ha), phase_left by (by replace (k - 1 + 1) with k by lia).
  replace (k - 1 + 1) with k by lia. rewrite halves. apply merge_mergeable; [done|].
  apply active_spec in Ha as [Hk _]. by apply good_mergeable.
Qed.

(** Where an element of a block comes from. *)
Lemma phase_origin m blk k x :
  x ∈ phase m blk k → ∃ k', x ∈ blk k' ∧
    (k' = k ∨ k' = k + 1 ∧ active m k' = true ∨ k' = k - 1 ∧ active m k = true).
Proof.
  destruct (active m (k + 1)) eqn:Ha1; [|destruct (active m k) eqn:Ha].
  - intros Hx. assert (Hp : x ∈ blk k ++ blk (k + 1)).
    { pose proof (pair_perm m blk (k + 1) Ha1) as Hp. replace (k + 1 - 1) with k in Hp by lia.
      rewrite <- Hp. apply elem_of_app. by left. }
    apply elem_of_app in Hp as [Hp|Hp]; [exists k; auto|exists (k + 1); auto].
  - intros Hx. assert (Hp : x ∈ blk (k - 1) ++ blk k).
    { rewrite <- (pair_perm m blk k Ha). apply elem_of_app. by right. }
    apply elem_of_app in Hp as [Hp|Hp]; [exists (k - 1); auto|exists k; auto].
  - rewrite phase_idle by done. exists k. auto.
Qed.

Lemma active_apart m a b : active m a = true → active m b = true → a ≠ b + 1.
Proof. intros Ha Hb ->. by rewrite (active_next _ _ Hb) in Ha. Qed.

Lemma phase_ties m blk i j : good blk → 0 ≤ i < j → j < n → ties_in_order cmp (phase m blk i) (phase m blk j).
Proof.
  intros Hg Hij Hj x y Hx Hy Hxy. destruct (decide (j = i + 1 ∧ active m j = true)) as [[-> Ha]|Hpair].
  - pose proof (pair_sorted m blk (i + 1) Hg Ha) as Hs. replace (i + 1 - 1) with i in Hs by lia.
    assert (Hb : before cmp x y) by (by eapply StronglySorted_app_1_elem_of; [exact Hs| |]).
    destruct Hb as [Hb|[_ Hb]]; lia.
  - apply phase_origin in Hx as (i' & Hx & Hi). apply phase_origin in Hy as (j' & Hy & Hj').
    assert (Hrange : 0 ≤ i' ∧ j' < n).
    { split; [destruct Hi as [->|[[-> _]|[-> Ha]]]; [lia|lia|] | destruct Hj' as [->|[[-> Ha]|[-> _]]]; [lia| |lia]];
        apply active_spec in Ha; lia. }
    apply (good_ties blk Hg i' j'); [|lia|done|done|done]. split; [lia|].
    destruct Hi as [->|[[-> Ha]|[-> Ha]]], Hj' as [->|[[-> Hb]|[-> Hb]]]; try lia.
    + (* [j - 1], not [i] *) destruct (decide (j = i + 1)) as [->|]; [by destruct Hpair|lia].
    + destruct (decide (j = i + 1)) as [->|]; [by destruct Hpair|lia].
    + destruct (decide (j = i + 1)) as [->|]; [by destruct Hpair|].
      destruct (decide (j = i + 2)) as [->|]; [|lia]. replace (i + 2) with (i + 1 + 1) in Hb by lia.
      exfalso. by apply (active_apart m (i + 1 + 1) (i + 1)).
Qed.

Lemma good_phase m blk : good blk → good (phase m blk).
Proof.
  intros Hg. split.
  - intros k Hk. pose proof (good_len blk Hg k Hk) as Hl. unfold phase.
    destruct (active m (k + 1)); [|destruct (active m k)]; unfold zlen in *; rewrite ?length_merge_half; done.
  - intros k Hk. destruct (active m (k + 1)) eqn:Ha1; [|destruct (active m k) eqn:Ha].
    + pose proof (pair_sorted m blk (k + 1) Hg Ha1) as Hs. replace (k + 1 - 1) with k in Hs by lia.
      by eapply StronglySorted_app_1_l.
    + eapply StronglySorted_app_1_r, (pair_sorted m blk k Hg Ha).
    + rewrite phase_idle by done. by apply (good_sorted blk Hg).
  - intros i j Hi Hj. by apply phase_ties.
Qed.

(** *** Counting the elements of an upward closed set *)
Section counting.
Context (P : Z → Prop) `{!∀ x, Decision (P x)} (Hup : ∀ x y, before cmp x y → P x → P y).

Definition large (l : list Z) : Z := zlen (filter P l).

Lemma large_app l1 l2 : large (l1 ++ l2) = large l1 + large l2.
Proof. unfold large. by rewrite filter_app, zlen_app. Qed.
Lemma large_perm l1 l2 : l1 ≡ₚ l2 → large l1 = large l2.
Proof. unfold large, zlen. by intros ->. Qed.
Lemma large_range l : 0 ≤ large l ≤ zlen l.
Proof. unfold large, zlen. pose proof (length_filter P l). lia. Qed.

Lemma large_all l : (∀ y, y ∈ l → P y) → large l = zlen l.
Proof.
  intros Hl. induction l as [|x l IH]; [done|]. unfold large in *.
  rewrite filter_cons_True by (apply Hl; left). rewrite !zlen_cons, IH; [done|]. intros y Hy. apply Hl. by right.
Qed.

Lemma large_elem l x : x ∈ l → P x → 1 ≤ large l.
Proof.
  intros Hx Hp. unfold large. destruct (filter P l) as [|z l'] eqn:E; [|rewrite zlen_cons; pose proof (zlen_nonneg l'); lia].
  exfalso. apply (not_elem_of_nil x). rewrite <- E. by apply list_elem_of_filter.
Qed.
Lemma large_lt l y : y ∈ l → ¬ P y → large l < zlen l.
Proof.
  intros Hy Hp. induction l as [|z l IH]; [by apply not_elem_of_nil in Hy|].
  pose proof (large_range l) as Hr. unfold large in *. rewrite zlen_cons, filter_cons.
  apply elem_of_cons in Hy as [<-|Hy]; [rewrite decide_False by done; lia|]. specialize (IH Hy).
  case_decide; rewrite ?zlen_cons; lia.
Qed.

(** At the end of a sorted list there are as many as fit. *)
Lemma large_drop i l :
  StronglySorted (before cmp) l → large (drop i l) = Z.min (zlen (drop i l)) (large l).
Proof.
  revert l. induction i as [|i IH]; intros l Hs.
  { rewrite drop_0. pose proof (large_range l). lia. }
  destruct l as [|x l]; [done|]. rewrite skipn_cons. inversion_clear Hs as [|? ? Hs' Hx]. rewrite IH by done.
  destruct (decide (P x)) as [Hp|Hp].
  - assert (Hall : large (drop i l) = zlen (drop i l)).
    { apply large_all. intros y Hy. apply (Hup x); [|done]. rewrite List.Forall_forall in Hx.
      apply Hx, list_elem_of_In. rewrite <- (take_drop i l). apply elem_of_app. by right. }
    rewrite IH in Hall by done. unfold large in *. rewrite filter_cons_True, zlen_cons by done. lia.
  - unfold large. by rewrite filter_cons_False by done.
Qed.

(** The large elements from block [k] on. *)
Definition far blk (k : Z) : Z := large (from blk k).

Lemma far_cons blk k : k < n → far blk k = large (blk k) + far blk (k + 1).
Proof. intros. unfold far. by rewrite from_cons, large_app. Qed.
Lemma far_end blk : far blk n = 0.
Proof. unfold far. by rewrite from_end. Qed.

Lemma far_idle m blk k : 0 ≤ k ≤ n → active m k = false → far (phase m blk) k = far blk k.
Proof. intros. by apply large_perm, from_idle. Qed.

Lemma far_active m blk k :
  good blk → active m k = true →
  far (phase m blk) k = Z.min (sect_length k + far blk (k + 1)) (far blk (k - 1)).
Proof.
  intros Hg Ha. pose proof (proj1 (active_spec _ _) Ha) as [Hk _].
  rewrite far_cons, (far_idle m blk (k + 1)) by (lia || by apply active_next).
  rewrite (far_cons blk (k - 1)), Z.sub_add, (far_cons blk k) by lia.
  pose proof (good_len _ (good_phase m blk Hg) k ltac:(lia)) as Hl.
  rewrite (phase_right m blk k Ha) in *. unfold merge_half in *.
  rewrite large_drop by (by apply merge_mergeable, good_mergeable). rewrite Hl.
  rewrite (large_perm _ _ (merge_Permutation _ _ _)), large_app. lia.
Qed.

Lemma far_bounds blk k : good blk → 0 ≤ k ≤ n → far blk k ≤ far blk 0 ∧ far blk 0 ≤ far blk k + k * sz.
Proof.
  intros Hg [Hk Hkn]. revert k Hk Hkn. apply (natlike_ind (λ k, k ≤ n → _)); [lia|].
  intros k Hk IH Hkn. specialize (IH ltac:(lia)). rewrite (far_cons blk k) in IH by lia. unfold Z.succ in *.
  pose proof (large_range (blk k)) as Hr. rewrite (good_len blk Hg) in Hr by lia. unfold sect_length in Hr.
  destruct (k <? n - 1); lia.
Qed.

(** The last block, filled up with large elements to the size of the others. *)
Definition padding (k : Z) : Z := if k <? n then sz - last else 0.
Definition place blk (k : Z) : Z := 2 * (far blk k + padding k) + k * sz.
Definition total blk : Z := far blk 0 + (sz - last).

Definition spread (m : Z) blk : Prop :=
  ∀ k, 0 ≤ k ≤ n →
    (Z.even (m + k) = true → reach n sz (total blk) k m (place blk k)) ∧
    (Z.even (m + k) = false → 1 ≤ m → reach n sz (total blk) k (m - 1) (place blk k)).

Lemma place_0 blk : place blk 0 = 2 * total blk.
Proof. unfold place, padding, total. rewrite (proj2 (Z.ltb_lt 0 n)) by lia. lia. Qed.
Lemma place_n blk : place blk n = n * sz.
Proof. unfold place, padding. rewrite far_end, Z.ltb_irrefl. lia. Qed.

Lemma total_bound blk : good blk → 0 ≤ total blk ≤ n * sz.
Proof.
  intros Hg. pose proof (far_bounds blk (n - 1) Hg ltac:(lia)) as [_ Hb]. rewrite (far_cons blk (n - 1)) in Hb by lia.
  rewrite Z.sub_add, far_end in Hb. pose proof (large_range (blk (n - 1))) as Hl.
  rewrite (good_len blk Hg) in Hl by lia. unfold sect_length in Hl. rewrite Z.ltb_irrefl in Hl.
  unfold total. pose proof (large_range (from blk 0)) as H0. fold (far blk 0) in H0. lia.
Qed.

Lemma reach_edge m blk k : good blk → k = 0 ∨ k = n → reach n sz (total blk) k m (place blk k).
Proof.
  intros Hg Hk. left. unfold arrived. pose proof (total_bound blk Hg).
  destruct Hk as [-> | ->]; rewrite ?place_0, ?place_n; lia.
Qed.

Lemma spread_start blk : good blk → spread 0 blk.
Proof.
  intros Hg k Hk. split; [|lia]. intros He. right. exists k. split.
  { by replace (k + k + 0) with (2 * k) by lia; rewrite Z.even_mul. }
  pose proof (far_bounds blk k Hg Hk) as Hf. pose proof (large_range (from blk k)) as Hp. fold (far blk k) in Hp.
  unfold place, padding, total. destruct (Z.ltb_spec k n) as [|]; [lia|].
  pose proof (total_bound blk Hg) as Ht. unfold total in Ht. assert (k = n) by lia. subst. lia.
Qed.

Lemma place_step m blk k :
  good blk → active m k = true → place (phase m blk) k = Z.min (place blk (k - 1)) (place blk (k + 1)) + sz.
Proof.
  intros Hg Ha. unfold place. rewrite far_active by done. apply active_spec in Ha as [Hk _].
  unfold padding, sect_length. destruct (Z.ltb_spec k (n - 1)).
  - rewrite !(proj2 (Z.ltb_lt _ n)) by lia. lia.
  - rewrite (proj2 (Z.ltb_lt k n)), (proj2 (Z.ltb_lt (k - 1) n)), (proj2 (Z.ltb_ge (k + 1) n)) by lia. lia.
Qed.

Lemma total_phase m blk : total (phase m blk) = total blk.
Proof. unfold total. by rewrite far_idle by (lia || done). Qed.

Lemma spread_step m blk : 0 ≤ m → good blk → spread m blk → spread (m + 1) (phase (m + 1) blk).
Proof.
  intros Hm Hg Hs k Hk. rewrite total_phase. pose proof (good_phase (m + 1) blk Hg) as Hg'. split.
  - intros He. destruct (decide (k = 0 ∨ k = n)) as [Hedge|].
    { rewrite <- (total_phase (m + 1)). by apply reach_edge. }
    assert (Ha : active (m + 1) k = true) by (apply active_spec; split; [lia|done]).
    rewrite place_step by done.
    apply reach_step; try lia; apply Hs; try lia.
    + by replace (m + (k - 1)) with (m + 1 + k - 2 * 1) by lia; rewrite Z.even_sub, Z.even_mul, He.
    + by replace (m + (k + 1)) with (m + 1 + k) by lia.
  - intros He _. replace (m + 1 - 1) with m by lia.
    assert (Ha : active (m + 1) k = false).
    { apply not_true_iff_false. rewrite active_spec, He. by intros [_ ?]. }
    unfold place. rewrite far_idle by done. apply Hs; [done|].
    replace (m + k) with (m + 1 + k - 1) by lia. by rewrite Z.even_sub, He.
Qed.

(** When the phases are enough the large elements are as far as they fit. *)
Lemma spread_end m blk k :
  spread m blk → n ≤ m → 0 ≤ k < n → Z.min (far blk 0) ((n - k) * sz - (sz - last)) ≤ far blk k.
Proof.
  intros Hs Hm Hk. destruct (Hs k ltac:(lia)) as [H1 H2].
  assert (Har : arrived n sz (total blk) k ≤ place blk k).
  { destruct (Z.even (m + k)); [apply (reach_arrived n sz (total blk) ltac:(lia) k m)|
      apply (reach_arrived n sz (total blk) ltac:(lia) k (m - 1))]; auto with lia. }
  unfold arrived, place, padding, total in Har. rewrite (proj2 (Z.ltb_lt k n)) in Har by lia. lia.
Qed.
End counting.

(** *** Enough phases sort *)

Fixpoint phases_from (m : nat) blk : Z → list Z :=
  match m with O => blk | S m' => phase (Z.of_nat m) (phases_from m' blk) end.

Lemma phases_good m blk : good blk → good (phases_from m blk).
Proof. intros Hg. induction m as [|m IH]; [done|]. by apply good_phase. Qed.
Lemma phases_perm m blk : from (phases_from m blk) 0 ≡ₚ from blk 0.
Proof. induction m as [|m IH]; [done|]. cbn [phases_from]. by rewrite phase_perm. Qed.

Lemma phases_spread P `{!∀ x, Decision (P x)} m blk :
  (∀ x y, before cmp x y → P x → P y) → good blk → spread P (Z.of_nat m) (phases_from m blk).
Proof.
  intros Hup Hg. induction m as [|m IH]; [by apply spread_start|]. cbn [phases_from].
  replace (Z.of_nat (S m)) with (Z.of_nat m + 1) by lia. apply spread_step; [done|lia|by apply phases_good|done].
Qed.

Lemma from_sorted blk :
  (∀ k, 0 ≤ k < n → StronglySorted (before cmp) (blk k)) →
  (∀ k x y, 0 ≤ k < n → x ∈ blk k → y ∈ from blk (k + 1) → before cmp x y) →
  StronglySorted (before cmp) (from blk 0).
Proof.
  intros Hs Hb. assert (H : ∀ d k, Z.of_nat d = n - k → 0 ≤ k → StronglySorted (before cmp) (from blk k)).
  { induction d as [|d IH]; intros k Hd Hk; [replace k with n by lia; rewrite from_end; constructor|].
    rewrite from_cons by lia. apply StronglySorted_app_2; [|apply Hs; lia|apply IH; lia].
    intros x y Hx Hy. apply (Hb k); [lia|done|done]. }
  apply (H (Z.to_nat n)); lia.
Qed.

Lemma from_len blk k : good blk → 0 ≤ k < n → zlen (from blk k) = (n - k) * sz - (sz - last).
Proof.
  intros Hg Hk. assert (H : ∀ d k, Z.of_nat d = n - 1 - k → 0 ≤ k → zlen (from blk k) = (n - k) * sz - (sz - last)).
  { clear k Hk. induction d as [|d IH]; intros k Hd Hk; rewrite from_cons, zlen_app, (good_len blk Hg) by lia;
      unfold sect_length.
    - replace (k + 1) with n by lia. replace k with (n - 1) by lia. rewrite Z.ltb_irrefl, from_end, zlen_nil. lia.
    - rewrite IH, (proj2 (Z.ltb_lt k (n - 1))) by lia. lia. }
  apply (H (Z.to_nat (n - 1 - k))); lia.
Qed.

Lemma elem_of_from blk k x : 0 ≤ k < n → x ∈ blk k → x ∈ from blk k.
Proof. intros. rewrite from_cons by lia. apply elem_of_app. by left. Qed.

Lemma nodup_disjoint blk k x :
  NoDup (from blk 0) → 0 ≤ k → k < n → x ∈ blk k → x ∉ from blk (k + 1).
Proof.
  intros Hd Hk. revert k Hk. assert (H : ∀ k, 0 ≤ k → k < n → NoDup (from blk k)).
  { apply (natlike_ind (λ k, k < n → _)); [done|]. intros k Hk IH Hkn. specialize (IH ltac:(lia)).
    rewrite from_cons in IH by lia. by apply NoDup_app in IH as (_ & _ & IH). }
  intros k Hk Hkn. specialize (H k Hk Hkn). rewrite from_cons in H by lia. apply NoDup_app in H as (_ & H & _).
  apply H.
Qed.

Lemma phases_sort m blk :
  good blk → NoDup (from blk 0) → n ≤ Z.of_nat m →
  StronglySorted (before cmp) (from (phases_from m blk) 0).
Proof.
  intros Hg Hd Hm. rewrite <- (phases_perm m) in Hd. pose proof (phases_good m blk Hg) as Hg'.
  apply from_sorted; [by apply good_sorted|]. intros k x y Hk Hx Hy.
  destruct (decide (before cmp x y)) as [|Hnot]; [done|exfalso].
  assert (Hkn : k + 1 < n).
  { destruct (decide (k + 1 = n)) as [E|]; [|lia]. rewrite E, from_end in Hy. by apply not_elem_of_nil in Hy. }
  set (P := λ z, z = x ∨ before cmp x z).
  assert (Hup : ∀ u v, before cmp u v → P u → P v).
  { intros u v Huv [-> | Hu]; right; [done|by eapply before_trans]. }
  pose proof (phases_spread P m blk Hup Hg) as Hs.
  apply (spread_end P _ _ (k + 1)) in Hs; [|lia|lia].
  set (b := phases_from m blk) in *.
  assert (H1 : 1 ≤ large P (b k)) by (apply (large_elem P _ x); [done|by left]).
  pose proof (far_bounds P b k Hg' ltac:(lia)) as [H2 _]. rewrite far_cons in H2 by lia.
  assert (Hny : ¬ P y).
  { intros [-> | ?]; [|done]. by apply (nodup_disjoint b k x); [|lia|lia| |]. }
  pose proof (large_lt P _ y Hy Hny) as H3. fold (far P b (k + 1)) in H3. rewrite from_len in H3 by (done || lia). lia.
Qed.
End oddeven.
