(* ===== verification/SortConcurrent.v ===== *)
(** * The concurrent sort is the sequential one

    The arrays of [__CFSortIndexesN] hold the blocks of SortPhases.v after each
    phase, whatever the order of the iterations of [dispatch_apply], and the
    phases it runs are enough. *)
From S2P Require Import Prelude Sort SortBlocks SortPhases.
From Stdlib Require Import Permutation Sorted.
From stdpp Require Import list sorting functions.
Open Scope Z_scope.

(** An invariant over the iterations that are done goes through in any order. *)
Lemma dispatch_apply_ok `{!DispatchApply} {St} n (block : Z → St → option St) (Inv : (Z → Prop) → St → Prop) s :
  Inv (λ _, False) s →
  (∀ done s i, Inv done s → 0 ≤ i < n → ¬ done i →
     ∃ s', block i s = Some s' ∧ Inv (λ k, k = i ∨ done k) s') →
  (∀ done done' s, (∀ i, done i ↔ done' i) → Inv done s → Inv done' s) →
  ∃ s', dispatch_apply n block s = Some s' ∧ Inv (λ i, 0 ≤ i < n) s'.
Proof.
  intros H0 Hstep Hext. unfold dispatch_apply.
  assert (Hgo : ∀ order done s, (∀ i, i ∈ order → 0 ≤ i < n ∧ ¬ done i) → NoDup order → Inv done s →
    ∃ s', foldl (λ s i, s ← s; block i s) (Some s) order = Some s' ∧ Inv (λ i, i ∈ order ∨ done i) s').
  { clear s H0. induction order as [|i order IH]; intros done s Hin Hd Hs.
    - exists s. split; [done|]. eapply Hext; [|exact Hs]. intros i. split; [by right|].
      intros [Hi|]; [by apply not_elem_of_nil in Hi|done].
    - apply list.NoDup_cons in Hd as [Hni Hd]. destruct (Hin i ltac:(left)) as [Hi Hnd].
      destruct (Hstep done s i Hs Hi Hnd) as (s' & E & Hs'). cbn [foldl mbind option_bind]. rewrite E.
      destruct (IH (λ k, k = i ∨ done k) s') as (s2 & E2 & Hs2); [|done|done|].
      + intros k Hk. destruct (Hin k ltac:(by right)) as [Hkn Hkd]. split; [done|]. intros [-> | ?]; done.
      + exists s2. split; [done|]. eapply Hext; [|exact Hs2]. intros k. rewrite elem_of_cons. tauto. }
  assert (Hall : ∀ i, i ∈ apply_order n ↔ 0 ≤ i < n) by (intros; rewrite apply_order_all, elem_of_seqZ; lia).
  destruct (Hgo (apply_order n) (λ _, False) s) as (s' & E & Hs'); [| |done|].
  - intros i Hi%Hall. auto.
  - rewrite apply_order_all. apply NoDup_seqZ.
  - exists s'. split; [done|]. eapply Hext; [|exact Hs']. intros i. cbn beta. rewrite Hall. tauto.
Qed.

Section arrays.
Context `{!DispatchApply, !Scratch} (cmp : Z → Z → Z) (Hc : comparator cmp).
Context (n sz last : Z) (Hn : 2 ≤ n) (Hlast : 0 < last ≤ sz).
Implicit Types blk : Z → list Z.
#[local] Abbreviation from := (from n).
#[local] Abbreviation len := (sect_length n sz last).

(** ** An array that holds blocks *)

Definition sized blk : Prop := ∀ k, 0 ≤ k < n → zlen (blk k) = len k.
Definition upto blk (k : Z) : list Z := mjoin (blk <$> seqZ 0 k).

Lemma upto_snoc blk k : 0 ≤ k → upto blk (k + 1) = upto blk k ++ blk k.
Proof.
  intros. unfold upto. rewrite seqZ_app by lia. rewrite fmap_app, join_app. rewrite (seqZ_cons (0 + k) 1), (seqZ_nil _ (Z.pred 1)) by lia. cbn. by rewrite app_nil_r.
Qed.

Lemma upto_from blk k : 0 ≤ k ≤ n → from blk 0 = upto blk k ++ from blk k.
Proof.
  intros [Hk Hkn]. revert k Hk Hkn. apply (natlike_ind (λ k, k ≤ n → _)); [done|]. intros k Hk IH Hkn.
  rewrite IH, from_cons by lia. unfold Z.succ. rewrite upto_snoc by lia. app_eq.
Qed.

Lemma upto_len blk k : sized blk → 0 ≤ k < n → zlen (upto blk k) = k * sz.
Proof.
  intros Hs [Hk Hkn]. revert k Hk Hkn. apply (natlike_ind (λ k, k < n → _)); [done|]. intros k Hk IH Hkn.
  unfold Z.succ. rewrite upto_snoc, zlen_app, IH, Hs by lia. unfold sect_length. rewrite (proj2 (Z.ltb_lt k _)) by lia.
  lia.
Qed.

Lemma section_split blk k : 0 ≤ k < n → from blk 0 = upto blk k ++ blk k ++ from blk (k + 1).
Proof. intros. rewrite (upto_from blk k), from_cons by lia. done. Qed.

Lemma section_write blk k l : 0 ≤ k < n → from (<[k:=l]> blk) 0 = upto blk k ++ l ++ from blk (k + 1).
Proof.
  intros Hk. rewrite (section_split (<[k:=l]> blk) k), fn_lookup_insert by lia.
  f_equal; [|f_equal]; unfold upto, from; f_equal; apply list_fmap_ext; intros i x Hi%list_elem_of_lookup_2%elem_of_seqZ;
    apply fn_lookup_insert_ne; lia.
Qed.

Lemma sized_write blk k l : sized blk → zlen l = len k → sized (<[k:=l]> blk).
Proof.
  intros Hs Hl i Hi. destruct (decide (i = k)) as [->|]; [by rewrite fn_lookup_insert|].
  rewrite fn_lookup_insert_ne by done. by apply Hs.
Qed.

Lemma section_stands blk k : sized blk → 0 ≤ k < n → stands (blk k) (from blk 0) (k * sz).
Proof.
  intros Hs Hk. exists (upto blk k), (from blk (k + 1)). split; [by apply section_split|by apply upto_len].
Qed.

(** [memmove] onto a whole section. *)
Lemma section_memmove blk k l :
  sized blk → 0 ≤ k < n → zlen l = len k → zwrite (from blk 0) (k * sz) l = Some (from (<[k:=l]> blk) 0).
Proof.
  intros Hs Hk Hl. rewrite section_write, (section_split blk k) by done.
  apply zwrite_over; [by apply upto_len|by rewrite Hs].
Qed.

(** ** The scratch blocks *)

(** The scratch block of each section in [D] starts with that section. *)
Definition tmps_hold (D : Z → Prop) blk (tmps : list (list Z)) : Prop :=
  zlen tmps = n ∧
  ∀ k, 0 ≤ k < n → ∃ t, tmps.[k] = Some t ∧ zlen t = sz ∧ (D k → ∃ rest, t = blk k ++ rest).

Lemma tmps_weaken D D' blk blk' tmps :
  tmps_hold D blk tmps → (∀ k, 0 ≤ k < n → D' k → D k ∧ blk' k = blk k) → tmps_hold D' blk' tmps.
Proof.
  intros [Hl Ht] HD. split; [done|]. intros k Hk. destruct (Ht k Hk) as (t & E & Hz & Hd). exists t. split_and!; [done..|].
  intros Hk'. destruct (HD k Hk Hk') as [Hdk ->]. auto.
Qed.

Lemma tmps_write D blk tmps k rest :
  tmps_hold D blk tmps → 0 ≤ k < n → zlen (blk k ++ rest) = sz →
  ∃ tmps', tmps.[k := blk k ++ rest] = Some tmps' ∧ tmps_hold (λ i, i = k ∨ D i) blk tmps'.
Proof.
  intros [Hl Ht] Hk Hz. exists (zupd tmps k (blk k ++ rest)). split; [apply zset_ok; lia|].
  split; [by rewrite zlen_zupd|]. intros i Hi. rewrite zget_zupd by lia. case_decide as E.
  - subst i. exists (blk k ++ rest). eauto.
  - destruct (Ht i Hi) as (t & Et & Hzt & Hd). exists t. split_and!; [done..|]. intros [->|]; [done|auto].
Qed.

(** A scratch block, cut where a section ends. *)
Lemma tmp_cut (t : list Z) k :
  zlen t = sz → 0 ≤ k < n → ∃ old rest, t = old ++ rest ∧ zlen old = len k.
Proof.
  intros Ht Hk. exists (take (Z.to_nat (len k)) t), (drop (Z.to_nat (len k)) t). split; [by rewrite take_drop|].
  rewrite zlen_take, Ht. unfold sect_length. destruct (k <? n - 1); lia.
Qed.

Lemma good_sized blk : good cmp n sz last blk → sized blk.
Proof. intros Hg k. apply Hg. Qed.
#[local] Hint Resolve good_sized : core.
Lemma good_next m blk : good cmp n sz last blk → good cmp n sz last (phase cmp n m blk).
Proof. apply good_phase; done || lia. Qed.
Lemma phase_len m blk k : good cmp n sz last blk → 0 ≤ k < n → zlen (phase cmp n m blk k) = len k.
Proof. intros Hg. by apply good_next. Qed.

(** The lengths the code passes for the right block of a pair. *)
Lemma sect2_len k : 0 ≤ k < n → (if k + 1 =? n then last else sz) = len k.
Proof. intros. unfold sect_length. zcases. Qed.
Lemma len_full k : 0 ≤ k < n - 1 → len k = sz.
Proof. intros. unfold sect_length. zcases. Qed.
Lemma len_range k : 0 < len k ≤ sz.
Proof. unfold sect_length. destruct (k <? n - 1); lia. Qed.

(** What one exchange writes, wherever the two blocks stand. *)
Lemma exchange m blk k (right : bool) src1 p1 src2 p2 cnt2 pre old post t :
  good cmp n sz last blk → active n m k = true → cnt2 = len k →
  stands (blk (k - 1)) src1 p1 → stands (blk k) src2 p2 → zlen pre = t →
  zlen old = len (if right then k else k - 1) →
  __CFSortIndexesNMerge cmp src1 p1 sz src2 p2 cnt2 (pre ++ old ++ post) t right
    = Some (pre ++ phase cmp n m blk (if right then k else k - 1) ++ post).
Proof.
  intros Hg Ha -> H1 H2 Ht Ho. pose proof (proj1 (active_spec _ _ _) Ha) as [Hk _].
  pose proof (good_len _ _ _ _ _ Hg (k - 1) ltac:(lia)) as L1. pose proof (good_len _ _ _ _ _ Hg k ltac:(lia)) as L2.
  pose proof (len_full (k - 1) ltac:(lia)) as L3. pose proof (len_range k).
  rewrite (NMerge_ok cmp src1 p1 sz (blk (k - 1)) src2 p2 (len k) (blk k)); auto; [|by eapply good_mergeable|lia|].
  - do 3 f_equal. destruct right; [by rewrite phase_right|].
    rewrite phase_left; replace (k - 1 + 1) with k by lia; done.
  - destruct right; unfold zlen in *; lia.
Qed.

(** ** The even phase *)
Lemma merge_even_ok m blk D tmps sect :
  good cmp n sz last blk → Z.even m = false → 0 ≤ sect < n ÷ 2 * 2 →
  tmps_hold D (phase cmp n m blk) tmps →
  ∃ tmps', merge_even cmp sz n last (from blk 0) sect tmps = Some tmps' ∧
    tmps_hold (λ k, k = sect ∨ D k) (phase cmp n m blk) tmps'.
Proof.
  intros Hg Hm Hs Ht. unfold merge_even. rewrite Z.quot_div_nonneg in Hs by lia.
  assert (Hsn : 0 ≤ sect < n) by zdiv. pose proof Ht as [Hl Hget].
  destruct (Hget sect Hsn) as (t & -> & Hz & _). cbn [mbind option_bind].
  destruct (tmp_cut t sect Hz Hsn) as (old & rest & -> & Hold).
  set (k := if Z.odd sect then sect else sect + 1).
  assert (Ha : active n m k = true).
  { apply active_spec. unfold k. destruct (Z.odd sect) eqn:Hodd.
    - split; [apply Z.odd_spec in Hodd as [h ->]; lia|]. by rewrite Z.even_add, Hm, <- Z.negb_odd, Hodd.
    - split; [|by rewrite Z.add_assoc, !Z.even_add, Hm, <- Z.negb_odd, Hodd].
      assert (Z.even sect = true) as [h ->]%Z.even_spec by (by rewrite <- Z.negb_odd, Hodd). zdiv. }
  pose proof (proj1 (active_spec _ _ _) Ha) as [Hk _].
  rewrite <- (app_nil_l (old ++ rest)).
  rewrite (exchange m blk k (Z.odd sect)); auto; cbn [mbind option_bind app].
  - replace (if Z.odd sect then k else k - 1) with sect by (unfold k; destruct (Z.odd sect); lia).
    apply tmps_write; [done|done|]. rewrite zlen_app in *.
    rewrite phase_len by done. lia.
  - rewrite <- sect2_len by lia. unfold k. destruct (Z.odd sect); [by rewrite Z.add_0_r|done].
  - replace (sect * sz - (if Z.odd sect then sz else 0)) with ((k - 1) * sz) by (unfold k; destruct (Z.odd sect); lia).
    apply section_stands; [auto|lia].
  - replace (sect * sz + (if Z.odd sect then 0 else sz)) with (k * sz) by (unfold k; destruct (Z.odd sect); lia).
    apply section_stands; [auto|lia].
  - rewrite Hold. f_equal. unfold k. destruct (Z.odd sect); lia.
Qed.

(** ** The odd phase *)

(** The array holds blocks, those in [D] being the ones of [blk]. *)
Definition array_holds (D : Z → Prop) blk (listp : list Z) : Prop :=
  ∃ blk', listp = from blk' 0 ∧ sized blk' ∧ ∀ k, 0 ≤ k < n → D k → blk' k = blk k.

Lemma array_write D blk listp k :
  array_holds D blk listp → 0 ≤ k < n → zlen (blk k) = len k →
  ∃ listp', zwrite listp (k * sz) (blk k) = Some listp' ∧ array_holds (λ i, i = k ∨ D i) blk listp'.
Proof.
  intros (b & -> & Hs & Hb) Hk Hl. exists (from (<[k:=blk k]> b) 0). split; [by apply section_memmove|].
  exists (<[k:=blk k]> b). split_and!; [done|by apply sized_write|]. intros i Hi Hd.
  destruct (decide (i = k)) as [->|]; [by rewrite fn_lookup_insert|]. rewrite fn_lookup_insert_ne by done.
  destruct Hd; [done|auto].
Qed.

Lemma array_full blk listp : array_holds (λ _, True) blk listp → listp = from blk 0.
Proof.
  intros (b & -> & _ & Hb). unfold from. f_equal. apply list_fmap_ext.
  intros i k Hk%list_elem_of_lookup_2%elem_of_seqZ. apply Hb; [lia|done].
Qed.

Lemma tmps_stands D blk tmps k :
  tmps_hold D blk tmps → 0 ≤ k < n → D k → ∃ t, tmps.[k] = Some t ∧ stands (blk k) t 0.
Proof.
  intros [_ Ht] Hk Hd. destruct (Ht k Hk) as (t & E & _ & Hr). exists t. split; [done|].
  destruct (Hr Hd) as [rest ->]. by exists [], rest.
Qed.

Lemma merge_odd_ok m blk D tmps sect listp :
  good cmp n sz last blk → Z.even m = true → 0 ≤ sect < (n - 1) ÷ 2 * 2 →
  tmps_hold (λ _, True) blk tmps → array_holds D (phase cmp n m blk) listp →
  ∃ listp', merge_odd cmp sz n last tmps sect listp = Some listp' ∧
    array_holds (λ k, k = sect + 1 ∨ D k) (phase cmp n m blk) listp'.
Proof.
  intros Hg Hm Hs Ht (b & -> & Hb & Hbd). unfold merge_odd. rewrite Z.quot_div_nonneg in Hs by lia.
  assert (Hsn : 0 ≤ sect < n - 1) by zdiv.
  set (k := if Z.odd sect then sect + 1 else sect + 2).
  replace (sect + (if Z.odd sect then 0 else 1)) with (k - 1) by (unfold k; destruct (Z.odd sect); lia).
  replace (sect + (if Z.odd sect then 1 else 2)) with k by (unfold k; destruct (Z.odd sect); lia).
  replace (sect + 1 + (if Z.odd sect then 1 else 2)) with (k + 1) by (unfold k; destruct (Z.odd sect); lia).
  assert (Hkn : 1 ≤ k ≤ n - 1).
  { unfold k. destruct (Z.odd sect) eqn:Hodd; [lia|].
    assert (Z.even sect = true) as [h ->]%Z.even_spec by (by rewrite <- Z.negb_odd, Hodd). zdiv. }
  assert (Ha : active n m k = true).
  { apply active_spec. split; [done|]. unfold k.
    destruct (Z.odd sect) eqn:Hodd; by rewrite !Z.even_add, Hm, <- Z.negb_odd, Hodd. }
  destruct (tmps_stands _ _ _ (k - 1) Ht) as (t1 & -> & S1); [lia|done|].
  destruct (tmps_stands _ _ _ k Ht) as (t2 & -> & S2); [lia|done|]. cbn [mbind option_bind].
  rewrite (section_split b (sect + 1)) by lia.
  rewrite (exchange m blk k (Z.odd sect)); auto.
  - replace (if Z.odd sect then k else k - 1) with (sect + 1) by (unfold k; destruct (Z.odd sect); lia).
    rewrite <- section_write by lia. eexists. split; [done|].
    exists (<[sect + 1 := phase cmp n m blk (sect + 1)]> b). split_and!; [done| |].
    { apply sized_write; [done|]. apply phase_len; [done|lia]. }
    intros i Hi Hd. destruct (decide (i = sect + 1)) as [->|]; [by rewrite fn_lookup_insert|].
    rewrite fn_lookup_insert_ne by done. destruct Hd; [done|auto].
  - apply sect2_len. lia.
  - rewrite upto_len by (done || lia). lia.
  - rewrite Hb by lia. f_equal. unfold k. destruct (Z.odd sect); lia.
Qed.

(** ** A turn of the loop: two phases *)

Lemma last_len : len (n - 1) = last.
Proof. unfold sect_length. by rewrite Z.ltb_irrefl. Qed.

(** The phase leaves out the last block of an odd number: the code copies it. *)
Lemma copy_last_block m blk tmps :
  good cmp n sz last blk → Z.even m = false →
  tmps_hold (λ k, 0 ≤ k < n ÷ 2 * 2) (phase cmp n m blk) tmps →
  ∃ tmps', (if Z.odd n then
      tmp ← tmps.[n - 1]; s ← zsub (from blk 0) ((n - 1) * sz) last; tmp ← zwrite tmp 0 s; tmps.[n - 1 := tmp]
    else Some tmps) = Some tmps' ∧ tmps_hold (λ _, True) (phase cmp n m blk) tmps'.
Proof.
  intros Hg Hm Ht. rewrite Z.quot_div_nonneg in Ht by lia. destruct (Z.odd n) eqn:Hodd.
  - pose proof Ht as [_ Hget]. destruct (Hget (n - 1) ltac:(lia)) as (t & -> & Hz & _). cbn [mbind option_bind].
    pose proof last_len as Hll.
    assert (Hl : zlen (blk (n - 1)) = last) by (rewrite (good_sized blk Hg) by lia; done).
    rewrite (stands_zsub (blk (n - 1))) by (done || (apply section_stands; [auto|lia])). cbn [mbind option_bind].
    destruct (tmp_cut t (n - 1) Hz ltac:(lia)) as (old & rest & -> & Hold).
    pose proof (zwrite_over [] old rest (blk (n - 1)) 0 ltac:(done) ltac:(lia)) as Hw. cbn [app] in Hw. rewrite Hw.
    cbn [mbind option_bind].
    assert (Hidle : phase cmp n m blk (n - 1) = blk (n - 1)).
    { apply phase_idle; apply not_true_iff_false; rewrite active_spec; [lia|].
      intros [_ He]. rewrite Z.even_add, Z.even_sub, Hm, <- (Z.negb_odd n), Hodd in He. done. }
    rewrite <- Hidle in *. destruct (tmps_write _ (phase cmp n m blk) _ (n - 1) rest Ht) as (tmps2 & E & Ht2); [lia| |].
    { rewrite zlen_app in *. lia. }
    exists tmps2. split; [done|]. eapply tmps_weaken; [exact Ht2|]. intros k Hk _. split; [|done].
    apply Z.odd_spec in Hodd as [h Hh]. cbn beta. zdiv.
  - exists tmps. split; [done|]. eapply tmps_weaken; [exact Ht|]. intros k Hk _. split; [|done].
    assert (Z.even n = true) as [h Hh]%Z.even_spec by (by rewrite <- Z.negb_odd, Hodd). zdiv.
Qed.

(** A block of the scratch buffers, copied to its place in the array. *)
Lemma copy_back_block D blk blk' tmps listp k :
  tmps_hold (λ _, True) blk tmps → array_holds D blk' listp → 0 ≤ k < n → blk' k = blk k → zlen (blk k) = len k →
  ∃ listp', (tmp ← tmps.[k]; s ← zsub tmp 0 (len k); zwrite listp (k * sz) s) = Some listp' ∧
    array_holds (λ i, i = k ∨ D i) blk' listp'.
Proof.
  intros Ht Hl Hk Hb Hlen. destruct (tmps_stands _ _ _ k Ht Hk I) as (t & -> & St). cbn [mbind option_bind].
  rewrite (stands_zsub (blk k)) by done. cbn [mbind option_bind]. rewrite <- Hb in *. by apply array_write.
Qed.

(** The blocks the odd phase leaves out: the first, and the last of an even
    number. *)
Lemma copy_idle_blocks m blk tmps listp :
  good cmp n sz last blk → Z.even m = true → tmps_hold (λ _, True) blk tmps →
  array_holds (λ k, 0 ≤ k - 1 < (n - 1) ÷ 2 * 2) (phase cmp n m blk) listp →
  (tmp ← tmps.[0]; s ← zsub tmp 0 sz; listp ← zwrite listp 0 s;
   if negb (Z.odd n) then
     tmp ← tmps.[n - 1]; s ← zsub tmp 0 last; zwrite listp ((n - 1) * sz) s
   else Some listp) = Some (from (phase cmp n m blk) 0).
Proof.
  intros Hg Hm Ht Hl. rewrite Z.quot_div_nonneg in Hl by lia.
  destruct (copy_back_block _ _ _ _ _ 0 Ht Hl) as (l1 & E1 & H1); [lia| |by apply good_sized; [|lia]|].
  { apply phase_idle; apply not_true_iff_false; rewrite active_spec; [|lia].
    intros [_ He]. rewrite Z.even_add, Hm in He. done. }
  rewrite len_full in E1 by lia. change (0 * sz) with 0 in E1.
  destruct (tmps.[0]) as [t0|]; [|done]. cbn [mbind option_bind] in E1 |- *.
  destruct (zsub t0 0 sz) as [s0|]; [|done]. cbn [mbind option_bind] in E1 |- *. rewrite E1. cbn [mbind option_bind].
  destruct (Z.odd n) eqn:Hodd; cbn [negb].
  - f_equal. apply array_full. destruct H1 as (b & -> & Hb & Hbd). exists b. split_and!; [done..|].
    intros k Hk _. apply Hbd; [done|]. apply Z.odd_spec in Hodd as [h Hh]. zdiv.
  - destruct (copy_back_block _ _ _ _ _ (n - 1) Ht H1) as (l2 & E2 & H2); [lia| |apply good_sized; [done|lia]|].
    { apply phase_idle; apply not_true_iff_false; rewrite active_spec; [lia|].
      intros [_ He]. rewrite Z.even_add, Z.even_sub, Hm, <- (Z.negb_odd n), Hodd in He. done. }
    rewrite last_len in E2. rewrite E2. f_equal. apply array_full. destruct H2 as (b & -> & Hb & Hbd).
    exists b. split_and!; [done..|]. intros k Hk _. apply Hbd; [done|].
    assert (Z.even n = true) as [h Hh]%Z.even_spec by (by rewrite <- Z.negb_odd, Hodd). zdiv.
Qed.

Lemma merge_phases_ok m blk tmps :
  good cmp n sz last blk → Z.even m = false → tmps_hold (λ _, False) blk tmps →
  let blk2 := phase cmp n (m + 1) (phase cmp n m blk) in
  ∃ tmps', merge_phases cmp sz n last (from blk 0, tmps) = Some (from blk2 0, tmps') ∧
    tmps_hold (λ _, False) blk2 tmps'.
Proof.
  intros Hg Hm Ht blk2. unfold merge_phases. assert (Hm1 : Z.even (m + 1) = true) by (by rewrite Z.even_add, Hm).
  pose proof (good_next m blk Hg) as Hg1.
  destruct (dispatch_apply_ok (n ÷ 2 * 2) (merge_even cmp sz n last (from blk 0))
    (λ D, tmps_hold D (phase cmp n m blk)) tmps) as (tmps1 & -> & Ht1).
  { by eapply tmps_weaken. }
  { intros D t sect Ht' Hs _. by apply merge_even_ok. }
  { intros D D' t HD Ht'. eapply tmps_weaken; [exact Ht'|]. intros k _ Hk. by apply HD in Hk. }
  cbn [mbind option_bind].
  destruct (copy_last_block m blk tmps1 Hg Hm Ht1) as (tmps2 & -> & Ht2). cbn [mbind option_bind].
  destruct (dispatch_apply_ok ((n - 1) ÷ 2 * 2) (merge_odd cmp sz n last tmps2)
    (λ D, array_holds (λ k, D (k - 1)) blk2) (from blk 0)) as (listp1 & -> & Hl1).
  { exists blk. split_and!; auto. done. }
  { intros D l sect Hl Hs _. destruct (merge_odd_ok (m + 1) _ (λ k, D (k - 1)) tmps2 sect l Hg1 Hm1 Hs Ht2 Hl)
      as (l' & E & (b & -> & Hb & Hbd)).
    eexists. split; [exact E|]. exists b. split_and!; [done..|]. intros k Hk Hd. apply Hbd; [done|].
    destruct Hd; [left; lia|by right]. }
  { intros D D' l HD (b & -> & Hb & Hbd). exists b. split_and!; [done..|]. intros k Hk Hd. apply Hbd, HD; done. }
  cbn [mbind option_bind].
  pose proof (copy_idle_blocks (m + 1) _ tmps2 listp1 Hg1 Hm1 Ht2 Hl1) as Hcopy.
  exists tmps2. split; [|by eapply tmps_weaken].
  destruct (tmps2.[0]) as [t0|]; [|done]. cbn [mbind option_bind] in Hcopy |- *.
  destruct (zsub t0 0 sz) as [s0|]; [|done]. cbn [mbind option_bind] in Hcopy |- *.
  destruct (zwrite listp1 0 s0) as [l1|]; [|done]. cbn [mbind option_bind] in Hcopy |- *. by rewrite Hcopy.
Qed.

Lemma phases_ok f j blk tmps :
  good cmp n sz last blk → tmps_hold (λ _, False) (phases_from cmp n (2 * j) blk) tmps →
  ∃ tmps', phases cmp f sz n last (from (phases_from cmp n (2 * j) blk) 0, tmps)
    = Some (from (phases_from cmp n (2 * (j + f)) blk) 0, tmps').
Proof.
  intros Hg. revert j tmps. induction f as [|f IH]; intros j tmps Ht; [rewrite Nat.add_0_r; by exists tmps|].
  assert (Hgj : good cmp n sz last (phases_from cmp n (2 * j) blk)) by (apply phases_good; done || lia).
  assert (Hm : Z.even (Z.of_nat (S (2 * j))) = false).
  { replace (Z.of_nat (S (2 * j))) with (1 + 2 * Z.of_nat j) by lia. by rewrite Z.even_add_mul_2. }
  destruct (merge_phases_ok (Z.of_nat (S (2 * j))) _ tmps Hgj Hm Ht) as (tmps1 & E & Ht1).
  cbn [phases]. rewrite E. cbn [mbind option_bind].
  assert (Enext : phase cmp n (Z.of_nat (S (2 * j)) + 1) (phase cmp n (Z.of_nat (S (2 * j))) (phases_from cmp n (2 * j) blk))
    = phases_from cmp n (2 * S j) blk).
  { replace (2 * S j)%nat with (S (S (2 * j))) by lia. cbn [phases_from]. f_equal. lia. }
  rewrite Enext in *. destruct (IH (S j) tmps1 Ht1) as [tmps' E']. exists tmps'. rewrite E'. do 4 f_equal. lia.
Qed.

(** ** Sorting each section *)

(** The indexes of a section. *)
Definition indexes (k : Z) : list Z := seqZ (k * sz) (len k).

Lemma from_indexes : from indexes 0 = seqZ 0 ((n - 1) * sz + last).
Proof.
  assert (Hall : ∀ d k, Z.of_nat d = n - 1 - k → 0 ≤ k → from indexes k = seqZ (k * sz) ((n - 1 - k) * sz + last)).
  { induction d as [|d IH]; intros k Hd Hk; rewrite from_cons by lia; unfold indexes at 1.
    - replace k with (n - 1) by lia. rewrite Z.sub_add, from_end, last_len, app_nil_r, Z.sub_diag. done.
    - rewrite IH, len_full by lia. replace ((k + 1) * sz) with (k * sz + sz) by lia.
      rewrite <- seqZ_app by (nia || lia). f_equal. lia. }
  rewrite (Hall (Z.to_nat (n - 1)) 0) by lia. f_equal. lia.
Qed.

Lemma seqZ_increasing m d : StronglySorted Z.lt (seqZ m d).
Proof.
  revert m. destruct (Z.le_gt_cases d 0) as [|Hd]; [intros; rewrite seqZ_nil by lia; constructor|].
  assert (Hall : ∀ k m, StronglySorted Z.lt (seqZ m (Z.of_nat k))).
  { induction k as [|k IH]; intros m; [constructor|]. rewrite seqZ_cons by lia.
    replace (Z.pred (Z.of_nat (S k))) with (Z.of_nat k) by lia. constructor; [done|].
    apply List.Forall_forall. intros x Hx%list_elem_of_In%elem_of_seqZ. lia. }
  intros m. replace d with (Z.of_nat (Z.to_nat d)) by lia. apply Hall.
Qed.

(** Blocks that hold the indexes of their section, in order where [D] says. *)
Definition sections (D : Z → Prop) blk : Prop :=
  ∀ k, 0 ≤ k < n → blk k ≡ₚ indexes k ∧ (D k → StronglySorted (before cmp) (blk k)) ∧ (¬ D k → blk k = indexes k).

Lemma sections_sized D blk : sections D blk → sized blk.
Proof.
  intros Hs k Hk. destruct (Hs k Hk) as [Hp _]. unfold zlen. rewrite Hp. unfold indexes. rewrite length_seqZ.
  pose proof (len_range k). lia.
Qed.

Lemma sections_good D blk : (∀ k, 0 ≤ k < n → D k) → sections D blk → good cmp n sz last blk.
Proof.
  intros HD Hs. split; [by eapply sections_sized|intros k Hk; by apply Hs, HD|].
  intros i j Hi Hj x y Hx Hy _. destruct (Hs i) as [Hpi _]; [lia|]. destruct (Hs j) as [Hpj _]; [lia|].
  rewrite Hpi in Hx. rewrite Hpj in Hy. unfold indexes in *. apply elem_of_seqZ in Hx, Hy.
  rewrite len_full in Hx by lia. assert ((i + 1) * sz ≤ j * sz) by (apply Z.mul_le_mono_nonneg_r; lia). lia.
Qed.

Lemma sections_perm D blk : sections D blk → from blk 0 ≡ₚ from indexes 0.
Proof.
  intros Hs. assert (Hall : ∀ d k, Z.of_nat d = n - k → 0 ≤ k → from blk k ≡ₚ from indexes k).
  { induction d as [|d IH]; intros k Hd Hk; [replace k with n by lia; by rewrite !from_end|].
    rewrite (from_cons _ blk), (from_cons _ indexes), IH by lia. apply Permutation_app_tail, Hs; lia. }
  apply (Hall (Z.to_nat n)); lia.
Qed.

Definition sorting (D : Z → Prop) (st : list Z * list (list Z)) : Prop :=
  (∃ blk, st.1 = from blk 0 ∧ sections D blk) ∧ tmps_hold (λ _, False) indexes st.2.

Lemma sort_section_ok D st sect :
  sorting D st → 0 ≤ sect < n → ¬ D sect →
  ∃ st', sort_section cmp sz n last sect st = Some st' ∧ sorting (λ k, k = sect ∨ D k) st'.
Proof.
  intros [(blk & El & Hs) Ht] Hk Hd. destruct st as [listp tmps]. cbn [fst snd] in *. subst listp.
  unfold sort_section. fold (len sect). pose proof Ht as [Htl Hget].
  destruct (Hget sect Hk) as (t & -> & Hz & _). cbn [mbind option_bind].
  pose proof (sections_sized D blk Hs) as Hsz. pose proof (len_range sect) as Hr.
  rewrite (section_split blk sect Hk).
  destruct (SimpleMergeSort_ok cmp (Z.to_nat (len sect)) (upto blk sect) (blk sect) (from blk (sect + 1)) t (sect * sz)
    (len sect)) as (l & t' & E & Ht' & Hp & Hsort); [by apply upto_len|by apply Hsz|lia|lia|].
  rewrite E. cbn [mbind option_bind]. rewrite zset_ok by lia. cbn [mbind option_bind].
  eexists. split; [done|]. rewrite <- section_write by done. split; cbn [fst snd].
  - exists (<[sect := l]> blk). split; [done|]. intros k Hkn. destruct (decide (k = sect)) as [->|Hne].
    + rewrite fn_lookup_insert. destruct (Hs sect Hk) as (Hp' & _ & Hi). split_and!; [by rewrite Hp| |tauto].
      intros _. apply Hsort; [done|]. rewrite Hi by done. apply seqZ_increasing.
    + rewrite fn_lookup_insert_ne by done. destruct (Hs k Hkn) as (Hp' & H1 & H2). split_and!; [done|tauto|tauto].
  - split; [by rewrite zlen_zupd|]. intros k Hkn. rewrite zget_zupd by lia. case_decide; [|by apply Hget].
    exists t'. split_and!; [done|lia|done].
Qed.
End arrays.

(** ** The whole of [__CFSortIndexesN] *)
Section concurrent.
Context `{Da : DispatchApply, Sc : Scratch} (cmp : Z → Z → Z).

Lemma malloc_tmps_ok n sz :
  (∀ k, 0 ≤ k → is_Some (scratch k)) → 0 ≤ sz →
  ∃ tmps, malloc_tmps n sz = Some tmps ∧ length tmps = n ∧ ∀ k t, tmps !! k = Some t → zlen t = sz.
Proof.
  intros Hs Hsz. induction n as [|n (tmps & E & Hl & Ht)]; [by exists []|].
  destruct (Hs sz Hsz) as [b Hb]. exists (b :: tmps). cbn [malloc_tmps]. rewrite Hb, E. cbn. split_and!; [done|lia|].
  intros [|k] t Hk; cbn in Hk; [injection Hk as <-; by eapply scratch_len|by eapply Ht].
Qed.

(** The division into blocks. *)
Lemma block_size_ok count ncores :
  160 ≤ count → 2 ≤ ncores →
  let sz := block_size count ncores in let n := (count + sz - 1) ÷ sz in
  0 < sz ∧ 2 ≤ n ∧ 0 < count + sz - sz * n ≤ sz.
Proof.
  intros Hcount Hn. cbn zeta. assert (Hsz : 0 < block_size count ncores < count).
  { unfold block_size. rewrite (Z.quot_div_nonneg (count + ncores - 1)) by lia.
    assert (0 ≤ (count + ncores - 1) / ncores) by (apply Z.div_pos; lia).
    assert (1 ≤ (count + ncores - 1) / ncores) by (apply Z.div_le_lower_bound; lia).
    assert (2 * ((count + ncores - 1) / ncores) ≤ count + 1).
    { pose proof (Z.mul_div_le (count + ncores - 1) ncores ltac:(lia)). nia. }
    rewrite Z.quot_div_nonneg by lia. zdiv. }
  set (sz := block_size count ncores) in *. rewrite Z.quot_div_nonneg by lia.
  pose proof (Z.div_mod (count + sz - 1) sz ltac:(lia)). pose proof (Z.mod_pos_bound (count + sz - 1) sz ltac:(lia)).
  split_and!; [lia|apply Z.div_le_lower_bound; lia|lia|lia].
Qed.

Lemma SortIndexesN_ok count ncores :
  comparator cmp → (∀ k, 0 ≤ k → is_Some (scratch k)) → 160 ≤ count → 2 ≤ ncores →
  ∃ l, __CFSortIndexesN cmp (seqZ 0 count) count ncores = Some l ∧
    l ≡ₚ seqZ 0 count ∧ StronglySorted (before cmp) l.
Proof.
  intros Hc Hs Hcount Hnc. destruct (block_size_ok count ncores Hcount Hnc) as (Hsz & Hn & Hlast).
  unfold __CFSortIndexesN. set (sz := block_size count ncores) in *. set (n := (count + sz - 1) ÷ sz) in *.
  set (last := count + sz - sz * n) in *.
  destruct (malloc_tmps_ok (Z.to_nat n) sz Hs ltac:(lia)) as (tmps & -> & Htl & Ht). cbn [mbind option_bind].
  assert (Hidx : seqZ 0 count = from n (indexes n sz last) 0).
  { rewrite from_indexes by done. f_equal. unfold last. lia. }
  destruct (dispatch_apply_ok n (sort_section cmp sz n last) (sorting cmp n sz last) (seqZ 0 count, tmps))
    as ([listp tmps1] & -> & [(blk & El & Hb) Ht1]).
  { split; cbn [fst snd].
    - exists (indexes n sz last). split; [done|]. intros k Hk. by split_and!.
    - split; [unfold zlen; lia|]. intros k Hk. destruct (zget_is_Some tmps k) as [t E]; [unfold zlen; lia|].
      exists t. split_and!; [done| |done]. unfold zget in E. case_decide; [|done]. by eapply Ht. }
  { intros D st sect Hst Hk Hd. by apply sort_section_ok. }
  { intros D D' st HD [(b & E & Hb) Ht']. split; [|done]. exists b. split; [done|]. intros k Hk.
    rewrite <- HD. by apply Hb. }
  cbn [mbind option_bind fst snd] in *. subst listp.
  pose proof (sections_good cmp n sz last Hlast _ blk (λ k H, H) Hb) as Hg.
  destruct (phases_ok cmp Hc n sz last Hn Hlast (Z.to_nat ((n + 1) ÷ 2)) 0 blk tmps1 Hg) as [tmps2 E].
  { eapply tmps_weaken; [exact Ht1|]. done. }
  cbn in E. rewrite E. cbn [mbind option_bind].
  assert (Hp : from n blk 0 ≡ₚ seqZ 0 count) by (rewrite Hidx; by eapply sections_perm).
  eexists. split; [done|]. split.
  - rewrite phases_perm by lia. done.
  - apply (phases_sort cmp Hc n sz last); [lia|done|done|rewrite Hp; apply NoDup_seqZ|].
    rewrite Z.quot_div_nonneg by lia. zdiv.
Qed.
End concurrent.
