(* ===== verification/SortArray.v ===== *)
(** * Sorting indexes and arrays (CFSortFunctions.c, the public functions)

    [CFSortIndexes] fills an array with indexes and sorts it, on its own or
    concurrently; [CFQSortArray] and [CFMergeSortArray] sort the indexes of an
    array of elements and gather the elements. *)
From S2P Require Import Prelude Sort SortBlocks SortPhases SortConcurrent.
From stdpp Require Import list sorting.
From Stdlib Require Import Permutation Sorted.
Open Scope Z_scope.

Definition kCFSortConcurrent : Z := Z.shiftl 1 0.
Definition kCFSortStable : Z := Z.shiftl 1 4.
Definition INTPTR_MAX : Z := 2 ^ 63 - 1.

(** ** The program *)
Section program.
Context `{Da : DispatchApply, Sc : Scratch}.
(** [__CFActiveProcessorCount()] *)
Context (active_processors : Z).

(** The options and the number of cores [CFSortIndexes] goes on with. *)
Definition choose_cores (count opts : Z) : Z * Z :=
  if Z.land opts kCFSortConcurrent =? 0 then (opts, 0)
  else
    let ncores := active_processors in
    let '(opts, ncores) :=
      if (count <? 160) || (ncores <? 2) then (Z.land opts (Z.lnot kCFSortConcurrent), ncores)
      else if (count <? 640) && (2 <? ncores) then (opts, 2)
      else if (count <? 3200) && (4 <? ncores) then (opts, 4)
      else if (count <? 16000) && (8 <? ncores) then (opts, 8)
      else (opts, ncores) in
    (opts, if 16 <? ncores then 16 else ncores).

(** [for (; idx < lim; idx++) indexBuffer[idx] = idx], [n] turns. *)
Fixpoint fill (n : nat) (idx : Z) (indexBuffer : list Z) : option (list Z) :=
  match n with
  | O => Some indexBuffer
  | S n => indexBuffer ← indexBuffer.[idx := idx]; fill n (idx + 1) indexBuffer
  end.

Definition fill_section (sz count n : Z) (indexBuffer : list Z) : option (list Z) :=
  let idx := n * sz in
  let lim := Z.min (idx + sz) count in
  fill (Z.to_nat (lim - idx)) idx indexBuffer.

Definition fill_indexes (indexBuffer : list Z) (count : Z) : option (list Z) :=
  if count <=? 65536 then fill (Z.to_nat count) 0 indexBuffer
  else
    let sz := ((count + 15) ÷ 16 * 16) ÷ 8 in
    dispatch_apply 8 (fill_section sz count) indexBuffer.

Definition CFSortIndexes (cmp : Z → Z → Z) (indexBuffer : list Z) (count opts : Z) : option (list Z) :=
  if count <? 1 then Some indexBuffer
  else if INTPTR_MAX ÷ 8 <? count then Some indexBuffer
  else
    let '(opts, ncores) := choose_cores count opts in
    indexBuffer ← fill_indexes indexBuffer count;
    if negb (Z.land opts kCFSortConcurrent =? 0) then __CFSortIndexesN cmp indexBuffer count ncores
    else
      tmp ← scratch count;
      '(indexBuffer, _) ← __CFSimpleMergeSort cmp (Z.to_nat count) 0 count indexBuffer tmp;
      Some indexBuffer.

(** The bytes of element [a], which the comparator is passed the address of. *)
Definition element (elementSize : Z) (l : list Z) (a : Z) : list Z :=
  take (Z.to_nat elementSize) (drop (Z.to_nat (a * elementSize)) l).

(** The loop that gathers the elements, [n] turns from [idx]. *)
Fixpoint gather (n : nat) (idx elementSize : Z) (l indexes store : list Z) : option (list Z) :=
  match n with
  | O => Some store
  | S n =>
      i ← indexes.[idx];
      x ← zsub l (i * elementSize) elementSize;
      store ← zwrite store (idx * elementSize) x;
      gather n (idx + 1) elementSize l indexes store
  end.

Definition sort_array (opts : Z) (comparator : list Z → list Z → Z) (l : list Z) (count elementSize : Z)
    : option (list Z) :=
  if (count <? 2) || (elementSize <? 1) then Some l
  else
    indexes ← scratch count;
    indexes ← CFSortIndexes (λ a b, comparator (element elementSize l a) (element elementSize l b)) indexes count opts;
    store ← scratch (count * elementSize);
    store ← gather (Z.to_nat count) 0 elementSize l indexes store;
    s ← zsub store 0 (count * elementSize);
    zwrite l 0 s.

Definition CFQSortArray (l : list Z) (count elementSize : Z) (comparator : list Z → list Z → Z) : option (list Z) :=
  sort_array 0 comparator l count elementSize.
Definition CFMergeSortArray (l : list Z) (count elementSize : Z) (comparator : list Z → list Z → Z) : option (list Z) :=
  sort_array kCFSortStable comparator l count elementSize.
End program.

(** ** Filling with indexes *)

Lemma identity_fill_ok n idx (b : list Z) :
  0 ≤ idx → idx + Z.of_nat n ≤ zlen b →
  ∃ b', fill n idx b = Some b' ∧ zlen b' = zlen b ∧
    ∀ i, b'.[i] = if decide (idx ≤ i < idx + Z.of_nat n) then Some i else b.[i].
Proof.
  revert idx b. induction n as [|n IH]; intros idx b Hi Hn; cbn [fill].
  { exists b. split_and!; [done..|]. intros i. by rewrite decide_False by lia. }
  rewrite zset_ok by lia. cbn [mbind option_bind].
  destruct (IH (idx + 1) (zupd b idx idx)) as (b' & E & Hl & Hg); [lia|rewrite zlen_zupd; lia|].
  exists b'. rewrite zlen_zupd in Hl. split_and!; [done|done|]. intros i. rewrite Hg, zget_zupd by lia.
  repeat case_decide; subst; try done; lia.
Qed.

Lemma identity_array (b : list Z) count :
  zlen b = count → (∀ i, 0 ≤ i < count → b.[i] = Some i) → b = seqZ 0 count.
Proof.
  intros Hl Hb. pose proof (zlen_nonneg b). apply zget_ext; [unfold zlen at 2; rewrite length_seqZ; lia|].
  intros i Hi. rewrite Hb by lia. symmetry. unfold zget. rewrite decide_True, lookup_seqZ_lt by lia. f_equal. lia.
Qed.

Lemma fill_indexes_ok `{Da : DispatchApply} b count :
  1 ≤ count → zlen b = count → fill_indexes b count = Some (seqZ 0 count).
Proof.
  intros Hc Hb. unfold fill_indexes. destruct (Z.leb_spec count 65536).
  { destruct (identity_fill_ok (Z.to_nat count) 0 b) as (b' & -> & Hl & Hg); [lia|lia|]. f_equal.
    apply identity_array; [lia|]. intros i Hi. by rewrite Hg, decide_True by lia. }
  set (sz := ((count + 15) ÷ 16 * 16) ÷ 8).
  assert (Hsz : 0 < sz ∧ count ≤ 8 * sz).
  { unfold sz. rewrite !Z.quot_div_nonneg by (rewrite ?Z.quot_div_nonneg; zdiv). zdiv. }
  destruct (dispatch_apply_ok 8 (fill_section sz count)
    (λ D b, zlen b = count ∧ ∀ k i, 0 ≤ k < 8 → D k → k * sz ≤ i < Z.min (k * sz + sz) count → b.[i] = Some i) b)
    as (b' & -> & Hl & Hg).
  - done.
  - intros D b1 k [Hl Hg] Hk _. unfold fill_section.
    destruct (Z.le_gt_cases (Z.min (k * sz + sz) count) (k * sz)) as [Hle|Hgt].
    + replace (Z.to_nat _) with 0%nat by lia. eexists. split; [done|]. split; [done|].
      intros k' i Hk' [-> |Hd] Hi; [lia|by apply (Hg k')].
    + destruct (identity_fill_ok (Z.to_nat (Z.min (k * sz + sz) count - k * sz)) (k * sz) b1) as (b' & E & Hl' & Hg'); [lia|lia|].
      exists b'. split; [done|]. split; [lia|]. intros k' i Hk' Hd Hi. rewrite Hg'. case_decide as Hin; [done|].
      destruct Hd as [-> |Hd]; [lia|by apply (Hg k')].
  - intros D D' b1 HD [Hl Hg]. split; [done|]. intros k i Hk Hd. apply Hg; [done|by apply HD].
  - f_equal. apply identity_array; [done|]. intros i Hi.
    assert (0 ≤ i / sz < 8) by (split; [apply Z.div_pos; lia|apply Z.div_lt_upper_bound; lia]).
    pose proof (Z.div_mod i sz ltac:(lia)). pose proof (Z.mod_pos_bound i sz ltac:(lia)).
    apply (Hg (i / sz)); [done|done|lia].
Qed.

(** ** [CFSortIndexes] *)
Section indexes.
Context `{Da : DispatchApply, Sc : Scratch} (active_processors : Z).

Lemma choose_cores_ok count opts :
  let '(opts', ncores) := choose_cores active_processors count opts in
  Z.land opts' kCFSortConcurrent ≠ 0 → Z.land opts kCFSortConcurrent ≠ 0 ∧ 160 ≤ count ∧ 2 ≤ ncores.
Proof.
  unfold choose_cores. destruct (Z.eqb_spec (Z.land opts kCFSortConcurrent) 0) as [|Hne]; [done|].
  destruct ((count <? 160) || (active_processors <? 2)) eqn:E.
  { rewrite <- Z.land_assoc. change (Z.land (Z.lnot kCFSortConcurrent) kCFSortConcurrent) with 0.
    by rewrite Z.land_0_r. }
  zbool. destruct (count <? 640), (count <? 3200), (count <? 16000); cbn [andb];
    repeat match goal with |- context [if ?a <? ?b then _ else _] => destruct (Z.ltb_spec a b) end; auto with lia.
Qed.

(** Without concurrency: any function in place of the comparator. *)
Lemma sort_sequential cmp count :
  is_Some (scratch count) → 1 ≤ count →
  ∃ l, (tmp ← scratch count; '(b, _) ← __CFSimpleMergeSort cmp (Z.to_nat count) 0 count (seqZ 0 count) tmp; Some b)
    = Some l ∧ l ≡ₚ seqZ 0 count ∧ (comparator cmp → StronglySorted (before cmp) l).
Proof.
  intros [tmp Ht] Hc. rewrite Ht. cbn [mbind option_bind]. pose proof (scratch_len _ _ Ht ltac:(lia)).
  destruct (SimpleMergeSort_ok cmp (Z.to_nat count) [] (seqZ 0 count) [] tmp 0 count)
    as (l & tmp' & E & _ & Hp & Hs); [done|unfold zlen; rewrite length_seqZ; lia|lia|lia|].
  cbn [app] in E. rewrite app_nil_r in E. rewrite E. cbn [mbind option_bind]. rewrite app_nil_r.
  exists l. split_and!; [done|done|]. intros Hcmp. apply Hs; [done|apply seqZ_increasing].
Qed.

Lemma SortIndexes_ok cmp b count opts :
  comparator cmp → (∀ k, 0 ≤ k → is_Some (scratch k)) → 1 ≤ count ≤ INTPTR_MAX ÷ 8 → zlen b = count →
  ∃ l, CFSortIndexes active_processors cmp b count opts = Some l ∧
    l ≡ₚ seqZ 0 count ∧ StronglySorted (before cmp) l.
Proof.
  intros Hcmp Hs Hc Hb. unfold CFSortIndexes. rewrite (proj2 (Z.ltb_ge count 1)), (proj2 (Z.ltb_ge _ count)) by lia.
  pose proof (choose_cores_ok count opts) as Hcores. destruct (choose_cores active_processors count opts) as [opts' ncores].
  rewrite fill_indexes_ok by lia. cbn [mbind option_bind].
  destruct (Z.eqb_spec (Z.land opts' kCFSortConcurrent) 0) as [|Hne]; cbn [negb].
  - destruct (sort_sequential cmp count) as (l & E & Hp & Hl); [apply Hs; lia|lia|]. eauto.
  - destruct (Hcores Hne) as (_ & H160 & Hn). by apply SortIndexesN_ok.
Qed.
End indexes.

Lemma map_element_all es (l : list Z) count :
  0 ≤ es → zlen l = count * es → 0 ≤ count → mjoin (element es l <$> seqZ 0 count) = l.
Proof.
  intros Hes Hl Hc. revert l Hl. pattern count. apply natlike_ind; [| |done]; clear count Hc.
  { intros l Hl. rewrite seqZ_nil by lia. symmetry. apply zlen_zero. lia. }
  intros count Hc IH l Hl. replace (Z.succ count) with (count + 1) in * by lia.
  rewrite seqZ_app, fmap_app, join_app by lia.
  rewrite <- (take_drop (Z.to_nat (count * es)) l) at 3. f_equal.
  - rewrite <- (IH (take (Z.to_nat (count * es)) l)) by (rewrite zlen_take; lia).
    f_equal. apply list_fmap_ext. intros i x Hx%list_elem_of_lookup_2%elem_of_seqZ. unfold element.
    rewrite List.skipn_firstn_comm, take_take. f_equal. nia.
  - rewrite (seqZ_cons (0 + count) 1), (seqZ_nil _ (Z.pred 1)) by lia. cbn. rewrite app_nil_r. unfold element.
    apply take_ge. unfold zlen in Hl. rewrite length_drop. lia.
Qed.

(** ** Gathering the elements *)

Lemma element_read es (l : list Z) i :
  0 ≤ es → 0 ≤ i → (i + 1) * es ≤ zlen l → zsub l (i * es) es = Some (element es l i) ∧ zlen (element es l i) = es.
Proof.
  intros Hes Hi Hl. unfold zsub, element. rewrite decide_True by nia. split; [done|].
  rewrite zlen_take, zlen_drop. nia.
Qed.

Lemma gather_ok es l ixs ip ipost pre old post idx :
  0 ≤ es → zlen ip = idx → zlen pre = idx * es → zlen old = zlen ixs * es →
  (∀ i, i ∈ ixs → 0 ≤ i ∧ (i + 1) * es ≤ zlen l) →
  gather (length ixs) idx es l (ip ++ ixs ++ ipost) (pre ++ old ++ post)
    = Some (pre ++ mjoin (element es l <$> ixs) ++ post).
Proof.
  intros Hes. revert ip pre old idx. induction ixs as [|i ixs IH]; intros ip pre old idx Hip Hpre Hold Hin.
  { cbn. rewrite (zlen_zero old) by (rewrite Hold; done). done. }
  cbn [gather length]. rewrite zlen_cons in Hold. pose proof (zlen_nonneg ixs).
  cbn [app]. rewrite (zget_at ip idx) by done. cbn [mbind option_bind].
  destruct (Hin i ltac:(left)) as [Hi Hil]. destruct (element_read es l i Hes Hi Hil) as [E El].
  rewrite E. cbn [mbind option_bind].
  assert (Hold' : ∃ o1 o2, old = o1 ++ o2 ∧ zlen o1 = es).
  { exists (take (Z.to_nat es) old), (drop (Z.to_nat es) old). rewrite take_drop, zlen_take. split; [done|nia]. }
  destruct Hold' as (o1 & o2 & -> & Ho1). rewrite zlen_app in Hold. rewrite <- (app_assoc o1).
  rewrite zwrite_over by lia. cbn [mbind option_bind].
  replace (ip ++ i :: ixs ++ ipost) with ((ip ++ [i]) ++ ixs ++ ipost) by app_eq.
  rewrite (app_assoc pre), (IH (ip ++ [i]) (pre ++ element es l i) o2 (idx + 1)).
  - cbn. f_equal. app_eq.
  - rewrite zlen_app. change (zlen [i]) with 1. lia.
  - rewrite zlen_app. lia.
  - lia.
  - intros j Hj. apply Hin. by right.
Qed.

Section arrays.
Context `{Da : DispatchApply, Sc : Scratch} (active_processors : Z).

(** The comparator on the indexes of an array. *)
Definition index_cmp (es : Z) (cmp : list Z → list Z → Z) (l : list Z) (a b : Z) : Z :=
  cmp (element es l a) (element es l b).

Lemma index_comparator es cmp l : comparator cmp → comparator (index_cmp es cmp l).
Proof. intros Hc. split; unfold index_cmp; intros; [apply (cmp_flip Hc)|by eapply (cmp_trans Hc)]. Qed.

Lemma sort_array_ok opts cmp l count es :
  comparator cmp → (∀ k, 0 ≤ k → is_Some (scratch k)) → 0 ≤ count ≤ INTPTR_MAX ÷ 8 → 1 ≤ es →
  zlen l = count * es →
  ∃ idx, sort_array active_processors opts cmp l count es = Some (mjoin (element es l <$> idx)) ∧
    idx ≡ₚ seqZ 0 count ∧ StronglySorted (before (index_cmp es cmp l)) idx.
Proof.
  intros Hcmp Hs Hc Hes Hl. unfold sort_array.
  destruct ((count <? 2) || (es <? 1)) eqn:E.
  { exists (seqZ 0 count). rewrite (map_element_all es l count) by lia. split_and!; [done|done|].
    apply orb_true_iff in E as [E%Z.ltb_lt|E%Z.ltb_lt]; [|lia].
    assert (count = 0 ∨ count = 1) as [-> | ->] by lia; repeat constructor. }
  zbool. destruct (Hs count ltac:(lia)) as [b Hb]. rewrite Hb. cbn [mbind option_bind].
  destruct (SortIndexes_ok active_processors (index_cmp es cmp l) b count opts) as (idx & Ei & Hp & Hsort);
    [by apply index_comparator|done|lia|by eapply scratch_len; [|lia]|].
  unfold index_cmp in Ei. rewrite Ei. cbn [mbind option_bind].
  destruct (Hs (count * es) ltac:(lia)) as [st Hst]. rewrite Hst. cbn [mbind option_bind].
  pose proof (scratch_len _ _ Hst ltac:(lia)) as Hstl.
  assert (Hil : zlen idx = count) by (unfold zlen; rewrite Hp, length_seqZ; lia).
  pose proof (gather_ok es l idx [] [] [] st [] 0) as Hg. cbn [app] in Hg. rewrite !app_nil_r in Hg.
  replace (Z.to_nat count) with (length idx) by (unfold zlen in Hil; lia).
  assert (Hin : ∀ i, i ∈ idx → 0 ≤ i ∧ (i + 1) * es ≤ zlen l).
  { intros i. rewrite Hp, elem_of_seqZ. nia. }
  rewrite Hg by (done || lia || nia). cbn [mbind option_bind].
  assert (Hjl : zlen (mjoin (element es l <$> idx)) = count * es).
  { pose proof (map_element_all es l count ltac:(lia) Hl ltac:(lia)) as Ha.
    apply (f_equal zlen) in Ha. rewrite <- Hl, <- Ha. unfold zlen. by rewrite Hp. }
  pose proof (zsub_app [] (mjoin (element es l <$> idx)) []) as Hz. rewrite Hjl in Hz. cbn [app] in Hz.
  change (zlen (@nil Z)) with 0 in Hz. rewrite app_nil_r in Hz. rewrite Hz. cbn [mbind option_bind].
  exists idx. split_and!; [|done|done].
  pose proof (zwrite_over [] l [] (mjoin (element es l <$> idx)) 0 ltac:(done) ltac:(lia)) as Hw. cbn [app] in Hw.
  by rewrite !app_nil_r in Hw.
Qed.
End arrays.

(** ** The properties *)
Section properties.
Context `{Da : DispatchApply, Sc : Scratch} (active_processors : Z).

(** C16. Whatever the options, the number of processors and the order in which the
    iterations of the concurrent sort run, [CFSortIndexes] gives the stable
    order of the indexes, and there is only one: it is a permutation of them in
    which [i] precedes [j] when element [i] is smaller, or equal with [i < j]. *)
Theorem sort_indexes_is_stable_order cmp indexBuffer count opts :
  comparator cmp → (∀ k, 0 ≤ k → is_Some (scratch k)) →
  1 ≤ count ≤ INTPTR_MAX ÷ 8 → zlen indexBuffer = count →
  ∃ l, CFSortIndexes active_processors cmp indexBuffer count opts = Some l ∧
    l ≡ₚ seqZ 0 count ∧ StronglySorted (before cmp) l ∧
    ∀ l', l' ≡ₚ seqZ 0 count → StronglySorted (before cmp) l' → l' = l.
Proof.
  intros Hc Hs Hcount Hb. destruct (SortIndexes_ok active_processors cmp indexBuffer count opts) as (l & E & Hp & Hl);
    [done..|]. exists l. split_and!; [done..|]. intros l' Hp' Hl'. apply (stable_unique cmp); [done..|]. by rewrite Hp, Hp'.
Qed.

(** With any function in place of the comparator, even an inconsistent one, the
    sort that is not concurrent stays within its arrays and gives a permutation
    of the indexes; a count that is not positive or too large is refused and the
    buffer left as it was. *)
Theorem sort_indexes_any_function cmp indexBuffer count opts :
  is_Some (scratch count) → zlen indexBuffer = count →
  Z.land opts kCFSortConcurrent = 0 ∨ count < 160 ∨ active_processors < 2 →
  ∃ l, CFSortIndexes active_processors cmp indexBuffer count opts = Some l ∧
    (1 ≤ count ≤ INTPTR_MAX ÷ 8 → l ≡ₚ seqZ 0 count) ∧
    (¬ (1 ≤ count ≤ INTPTR_MAX ÷ 8) → l = indexBuffer).
Proof.
  intros Hs Hb Hopts. unfold CFSortIndexes. destruct (Z.ltb_spec count 1).
  { exists indexBuffer. split_and!; [done|lia|done]. }
  destruct (Z.ltb_spec (INTPTR_MAX ÷ 8) count).
  { exists indexBuffer. split_and!; [done|lia|done]. }
  pose proof (choose_cores_ok active_processors count opts) as Hcores.
  destruct (choose_cores active_processors count opts) as [opts' ncores] eqn:Ec.
  assert (Hoff : Z.land opts' kCFSortConcurrent = 0).
  { unfold choose_cores in Ec. destruct (Z.eqb_spec (Z.land opts kCFSortConcurrent) 0) as [E|]; [by injection Ec as <- _|].
    destruct Hopts as [|Hopts]; [done|].
    replace ((count <? 160) || (active_processors <? 2)) with true in Ec by (symmetry; apply orb_true_iff; lia).
    injection Ec as <- _. rewrite <- Z.land_assoc.
    change (Z.land (Z.lnot kCFSortConcurrent) kCFSortConcurrent) with 0. apply Z.land_0_r. }
  rewrite fill_indexes_ok by lia. cbn [mbind option_bind]. rewrite Hoff. cbn [Z.eqb negb].
  destruct (sort_sequential cmp count) as (l & E & Hp & _); [done|lia|]. exists l. split_and!; [done|done|lia].
Qed.

(** [CFQSortArray] and [CFMergeSortArray] give the same array: its elements in
    the stable order of the comparator. *)
Theorem arrays_are_sorted cmp l count elementSize :
  comparator cmp → (∀ k, 0 ≤ k → is_Some (scratch k)) →
  0 ≤ count ≤ INTPTR_MAX ÷ 8 → 1 ≤ elementSize → zlen l = count * elementSize →
  ∃ idx, CFMergeSortArray active_processors l count elementSize cmp = Some (mjoin (element elementSize l <$> idx)) ∧
    CFQSortArray active_processors l count elementSize cmp = Some (mjoin (element elementSize l <$> idx)) ∧
    idx ≡ₚ seqZ 0 count ∧ StronglySorted (before (index_cmp elementSize cmp l)) idx.
Proof.
  intros Hc Hs Hcount Hes Hl.
  destruct (sort_array_ok active_processors kCFSortStable cmp l count elementSize) as (idx & E & Hp & Hsort); [done..|].
  destruct (sort_array_ok active_processors 0 cmp l count elementSize) as (idx' & E' & Hp' & Hsort'); [done..|].
  exists idx. split_and!; [done| |done|done]. unfold CFQSortArray. rewrite E'. do 3 f_equal.
  apply (stable_unique (index_cmp elementSize cmp l)); [by apply index_comparator|done|done|by rewrite Hp, Hp'].
Qed.
End properties.

(** ** Witnesses *)

Lemma difference_comparator {A} (f : A → Z) : comparator (λ x y, f x - f y).
Proof. split; intros; lia. Qed.

(** Two hundred elements on three processors, and on one. *)
Lemma sort_indexes_is_stable_order_witness :
  let cmp a b := a mod 7 - b mod 7 in let buffer := replicate 200 (-1) in
  (let _ := backwards in let _ := plenty (-1) in
   CFSortIndexes 3 cmp buffer 200 kCFSortConcurrent = CFSortIndexes 1 cmp buffer 200 kCFSortConcurrent) ∧
  (let _ := backwards in let _ := plenty (-1) in
   ∃ l, CFSortIndexes 3 cmp buffer 200 kCFSortConcurrent = Some l ∧ l ≡ₚ seqZ 0 200 ∧ StronglySorted (before cmp) l ∧
    ∀ l', l' ≡ₚ seqZ 0 200 → StronglySorted (before cmp) l' → l' = l).
Proof.
  split; [vm_compute; reflexivity|].
  apply (@sort_indexes_is_stable_order backwards (plenty (-1)) 3 (λ a b, a mod 7 - b mod 7)).
  - apply (difference_comparator (λ x, x mod 7)).
  - intros k Hk. by eexists.
  - by_decide.
  - reflexivity.
Defined.

(** A comparator that always answers greater. *)
Lemma sort_indexes_any_function_witness :
  let _ := backwards in let _ := plenty 0 in
  (∃ l, CFSortIndexes 1 (λ _ _, 1) [7; 7; 7; 7] 4 0 = Some l ∧
    (1 ≤ 4 ≤ INTPTR_MAX ÷ 8 → l ≡ₚ seqZ 0 4) ∧ (¬ (1 ≤ 4 ≤ INTPTR_MAX ÷ 8) → l = [7; 7; 7; 7])) ∧
  CFSortIndexes 1 (λ _ _, 1) [7; 7; 7; 7] 4 0 = Some [3; 2; 1; 0].
Proof.
  split; [|vm_compute; reflexivity].
  apply (@sort_indexes_any_function backwards (plenty 0) 1 (λ _ _, 1) [7; 7; 7; 7] 4 0).
  - by eexists.
  - reflexivity.
  - left. reflexivity.
Defined.

(** Four pairs of bytes, by their first byte: equal ones keep their order. *)
Lemma arrays_are_sorted_witness :
  let _ := backwards in let _ := plenty 0 in
  let cmp x y := default 0 (head x) - default 0 (head y) in
  (∃ idx, CFMergeSortArray 1 [3; 1; 2; 9; 3; 0; 2; 8] 4 2 cmp = Some (mjoin (element 2 [3; 1; 2; 9; 3; 0; 2; 8] <$> idx)) ∧
    CFQSortArray 1 [3; 1; 2; 9; 3; 0; 2; 8] 4 2 cmp = Some (mjoin (element 2 [3; 1; 2; 9; 3; 0; 2; 8] <$> idx)) ∧
    idx ≡ₚ seqZ 0 4 ∧ StronglySorted (before (index_cmp 2 cmp [3; 1; 2; 9; 3; 0; 2; 8])) idx) ∧
  CFMergeSortArray 1 [3; 1; 2; 9; 3; 0; 2; 8] 4 2 cmp = Some [2; 9; 2; 8; 3; 1; 3; 0].
Proof.
  split; [|vm_compute; reflexivity].
  apply (@arrays_are_sorted backwards (plenty 0) 1 (λ x y, default 0 (head x) - default 0 (head y))
    [3; 1; 2; 9; 3; 0; 2; 8] 4 2).
  - apply (difference_comparator (λ x, default 0 (head x))).
  - intros k Hk. by eexists.
  - by_decide.
  - by_decide.
  - reflexivity.
Defined.
