(* ===== verification/ApplyUse.v ===== *)
(** * What dispatch_apply promises

    The properties of the threads of Apply.v, and [dispatch_apply] as the
    interface [DispatchApply] of the concurrent sort: whatever the scheduler
    does, a run serves every index once. *)
From S2P Require Import Prelude Once Apply Sort SortBlocks SortArray.
From stdpp Require Import list.
From Stdlib Require Import Permutation.
Open Scope Z_scope.

(** The calls going on, and whether a thread can make a step. *)
Definition calls_running (st : system) : list Z := mjoin (current <$> threads st).
Definition moves (st : system) (t : nat) : bool := match act t st with Some _ => true | None => false end.

Lemma not_moving st t : moves st t = false → act t st = None.
Proof. unfold moves. by destruct (act t st). Qed.

Section properties.
Context (iterations : Z) (n : nat).
Context (Hpos : (0 < n)%nat) (Hn : Z.of_nat n < 2 ^ 31) (Hi : 0 ≤ iterations) (Hbound : iterations + Z.of_nat n < 2 ^ 64).

Lemma caller_over st p : threads st !! 0%nat = Some p → caller_returned st = bool_decide (over p = 1).
Proof. unfold caller_returned. intros ->. by destruct p. Qed.

Lemma no_calls_left st : inv iterations n st → caller_returned st = true → mjoin (current <$> threads st) = [].
Proof.
  intros Hinv Hret.
  assert (Hc : ∀ t p, threads st !! t = Some p → current p = []).
  { intros t p Hp. destruct p as [| | |w idx| | | | | |]; try done.
    by rewrite (caller_there iterations n st t Hinv _ w Hp eq_refl eq_refl) in Hret. }
  revert Hc. generalize (threads st). intros l Hc. induction l as [|p l IH]; [done|].
  cbn. rewrite (Hc 0%nat p eq_refl). apply IH. intros t. apply (Hc (S t)).
Qed.

Lemma freed_over st : inv iterations n st → da_freed (da st) = true ↔ ∀ t p, threads st !! t = Some p → over p = 1.
Proof.
  intros Hinv. rewrite (a_freed _ _ _ Hinv), Z.eqb_eq, (a_count _ _ _ Hinv), <- (a_threads _ _ _ Hinv).
  generalize (threads st). intros l. fold (zlen l). split.
  - intros Hz t p Hp. pose proof (zsum_insert over l t p (Done 0) Hp) as Hs.
    pose proof (zsum_le_len over (<[t := Done 0]> l) ltac:(intros []; cbn; lia)) as Hle. unfold zlen in *.
    rewrite length_insert in Hle. destruct p; cbn in *; lia.
  - intros Hall. enough (zsum over l = zlen l) by lia. induction l as [|p l IH]; [done|].
    rewrite zlen_cons. cbn. rewrite (Hall 0%nat p eq_refl), IH; [lia|]. intros t. apply (Hall (S t)).
Qed.

Lemma returned_all st : inv iterations n st → caller_returned st = true → finished (da st) ≡ₚ seqZ 0 iterations.
Proof.
  intros Hinv Hret. pose proof (a_calls _ _ _ Hinv) as Hcalls. rewrite (no_calls_left st Hinv Hret), app_nil_r in Hcalls.
  rewrite Hcalls, Z.min_r; [done|]. unfold caller_returned in Hret.
  destruct (threads st !! 0%nat) as [[]|] eqn:H0; try done. by apply (a_exhausted _ _ _ Hinv _ _ H0).
Qed.

(** When nothing moves, every thread is through. *)
Lemma stuck_over st : reachable iterations n st → (∀ t, act t st = None) → ∀ t p, threads st !! t = Some p → over p = 1.
Proof.
  intros Hr Hq t p Hp. destruct (apply_reachable_inv iterations n Hpos Hn Hi Hbound st Hr) as [Hcr Hinv].
  destruct (quiet_over iterations n Hpos Hn Hi Hbound st Hr (λ t _, Hq t) t p Hp) as [->|]; [|done].
  exfalso. pose proof (Hq t) as Hno. apply (act_none st t _ Hcr Hp) in Hno. unfold invoke2 in Hno.
  destruct (da_freed (da st)); done.
Qed.
Lemma stuck_returned st : reachable iterations n st → (∀ t, act t st = None) → caller_returned st = true.
Proof.
  intros Hr Hq. destruct (apply_reachable_inv iterations n Hpos Hn Hi Hbound st Hr) as [Hcr Hinv].
  destruct (lookup_lt_is_Some_2 (threads st) 0) as [p Hp]; [by rewrite (a_threads _ _ _ Hinv)|].
  rewrite (caller_over st p Hp). by apply bool_decide_true, (stuck_over st Hr Hq 0%nat p).
Qed.

(** C5. In every interleaving no thread touches what is gone, the object after its
    last user or the block after [dispatch_apply] returned; the calls made are
    those of the first indexes, each once; threads never share a worker index;
    when the caller returns the calls for all indexes have ended; and the object
    is freed exactly when the last thread is through. *)
Theorem apply_calls_each_index_once st :
  reachable iterations n st →
  crashed st = false ∧
  (∃ k, 0 ≤ k ≤ iterations ∧ finished (da st) ++ calls_running st ≡ₚ seqZ 0 k) ∧
  (∀ t t' p p' w, threads st !! t = Some p → threads st !! t' = Some p' → worker p = Some w → worker p' = Some w →
     t = t' ∧ (w < n)%nat) ∧
  (caller_returned st = true → finished (da st) ≡ₚ seqZ 0 iterations ∧ calls_running st = []) ∧
  (da_freed (da st) = true ↔ ∀ t p, threads st !! t = Some p → over p = 1).
Proof.
  intros Hr. destruct (apply_reachable_inv iterations n Hpos Hn Hi Hbound st Hr) as [Hcr Hinv]. split; [done|]. unfold calls_running.
  pose proof (a_index _ _ _ Hinv) as Hidx. pose proof (a_calls _ _ _ Hinv) as Hcalls. split; [|split; [|split]].
  - exists (Z.min (da_index (da st)) iterations). split; [lia|done].
  - intros t t' p p' w Hp Hp' Hw Hw'. split; [by apply (a_inj _ _ _ Hinv t p t' p' w)|].
    pose proof (a_worker _ _ _ Hinv t p w Hp Hw). pose proof (started_bound iterations n st t Hinv p Hp).
    destruct p; cbn in *; try done; lia.
  - intros Hret. split; [by apply returned_all|by apply no_calls_left].
  - by apply freed_over.
Qed.

(** C38. Only so many steps are possible, and the caller needs no worker to start: when
    the threads that have started can do no more, they are through, the caller
    among them; when all have, the object is freed. *)
Theorem apply_terminates st :
  reachable iterations n st →
  (∀ ts st', run act ts st = Some st' → zlen ts ≤ work iterations n st) ∧
  ((∀ t, threads st !! t ≠ Some Start → moves st t = false) → threads st !! 0%nat ≠ Some Start → caller_returned st = true) ∧
  ((∀ t, moves st t = false) → da_freed (da st) = true).
Proof.
  intros Hr. destruct (apply_reachable_inv iterations n Hpos Hn Hi Hbound st Hr) as [Hcr Hinv]. split; [|split].
  - clear Hr. intros ts st'. revert st Hcr Hinv. induction ts as [|t ts IH]; intros st Hcr Hinv; [intros _; apply apply_work_nonneg|].
    cbn [run]. destruct (act t st) as [st1|] eqn:Ha; [|done]. cbn. intros Hrun.
    destruct (apply_act_inv iterations n st t Hn Hbound Hinv st1 Hcr Ha) as [Hcr1 Hinv1].
    pose proof (act_works iterations n Hpos Hbound st t st1 Hinv Ha Hcr1). specialize (IH st1 Hcr1 Hinv1 Hrun). rewrite zlen_cons. lia.
  - intros Hq H0. destruct (lookup_lt_is_Some_2 (threads st) 0) as [p Hp]; [by rewrite (a_threads _ _ _ Hinv)|].
    rewrite (caller_over st p Hp). apply bool_decide_true.
    by destruct (quiet_over iterations n Hpos Hn Hi Hbound st Hr (λ t Ht, not_moving st t (Hq t Ht)) 0%nat p Hp) as [->|].
  - intros Hq. apply (freed_over st Hinv), stuck_over; [done|]. intros t. apply not_moving, Hq.
Qed.
End properties.

(** ** As the interface of the sort

    A scheduler picks a thread; when that thread waits, the first that does not
    goes on instead. *)
Definition first_moving (st : system) : nat := default 0%nat (List.find (moves st) (seq 0 (length (threads st)))).

Fixpoint scheduled (pick : system → nat) (fuel : nat) (st : system) : system :=
  match fuel with
  | O => st
  | S fuel =>
      let t := if moves st (pick st) then pick st else first_moving st in
      match act t st with Some st' => scheduled pick fuel st' | None => st end
  end.

Section scheduled.
Context (iterations : Z) (n : nat).
Context (Hpos : (0 < n)%nat) (Hn : Z.of_nat n < 2 ^ 31) (Hi : 0 ≤ iterations) (Hbound : iterations + Z.of_nat n < 2 ^ 64).

Lemma none_moves st : moves st (first_moving st) = false → ∀ t, act t st = None.
Proof.
  intros Hno t. destruct (act t st) as [st'|] eqn:Ha; [|done]. exfalso.
  assert (Ht : In t (seq 0 (length (threads st)))).
  { apply List.in_seq. split; [lia|]. apply lookup_lt_is_Some. unfold act in Ha. destruct (crashed st), (threads st !! t); try done. }
  unfold first_moving in Hno. destruct (List.find (moves st) _) as [t'|] eqn:Hf.
  - apply List.find_some in Hf as [_ Hf]. cbn in Hno. congruence.
  - pose proof (List.find_none _ _ Hf t Ht) as Hm. unfold moves in Hm. by rewrite Ha in Hm.
Qed.

(** Every scheduler brings every call of [dispatch_apply] to its end. *)
Lemma scheduled_ends pick fuel st : reachable iterations n st → work iterations n st ≤ Z.of_nat fuel →
  finished (da (scheduled pick fuel st)) ≡ₚ seqZ 0 iterations.
Proof.
  revert st. induction fuel as [|fuel IH]; intros st Hr Hw; cbn [scheduled];
    destruct (apply_reachable_inv iterations n Hpos Hn Hi Hbound st Hr) as [Hcr Hinv].
  - apply (returned_all iterations n); [done|]. apply (stuck_returned iterations n Hpos Hn Hi Hbound); [done|]. intros t. destruct (act t st) as [st'|] eqn:Ha; [|done].
    destruct (apply_act_inv iterations n st t Hn Hbound Hinv st' Hcr Ha) as [Hcr' _].
    pose proof (act_works iterations n Hpos Hbound st t st' Hinv Ha Hcr'). pose proof (apply_work_nonneg iterations n st'). lia.
  - set (t := if moves st (pick st) then pick st else first_moving st).
    destruct (act t st) as [st'|] eqn:Ha.
    + destruct (apply_act_inv iterations n st t Hn Hbound Hinv st' Hcr Ha) as [Hcr' _].
      pose proof (act_works iterations n Hpos Hbound st t st' Hinv Ha Hcr').
      apply IH; [|lia]. by eapply rtc_r; [|exists t].
    + apply (returned_all iterations n); [done|]. apply (stuck_returned iterations n Hpos Hn Hi Hbound); [done|]. apply none_moves.
      subst t. destruct (moves st (pick st)) eqn:Hm; unfold moves in *; by rewrite Ha in *.
Qed.
End scheduled.

(** [dispatch_apply] on [workers] threads: the calls in the order they end, up to
    2^63 of them (beyond, the interface is served in order). *)
Program Definition scheduled_apply (pick : system → nat) (workers : nat) (Hw : (0 < workers)%nat ∧ Z.of_nat workers < 2 ^ 31) :
    DispatchApply := {|
  apply_order k :=
    if decide (0 ≤ k < 2 ^ 63)
    then finished (da (scheduled pick (Z.to_nat (work k workers (initial k workers))) (initial k workers)))
    else seqZ 0 k
|}.
Next Obligation.
  intros pick workers [H1 H2] k. cbn. case_decide; [|done].
  pose proof (apply_work_nonneg k workers (initial k workers)). apply (scheduled_ends k workers); [lia..|apply rtc_refl|lia].
Qed.

(** ** Three threads for five calls *)

(** A scheduler that goes round the threads as indexes are taken and calls end. *)
Definition rotating (st : system) : nat := Z.to_nat ((2 * da_index (da st) + zlen (finished (da st))) `mod` 3).

Example rotating_order : finished (da (scheduled rotating 100 (initial 5 3))) = [0; 2; 1; 3; 4].
Proof. vm_compute. reflexivity. Qed.

(** The sort on this [dispatch_apply]. *)
Example sort_on_dispatch_apply :
  let _ := scheduled_apply rotating 3 ltac:(lia) in let _ := plenty 0 in
  CFSortIndexes 3 (λ a b, b - a) (replicate 100 0) 100 kCFSortConcurrent = Some (reverse (seqZ 0 100)).
Proof. vm_compute. reflexivity. Qed.

(** The caller alone: it serves all five indexes and returns while the workers
    have not started; the last of them frees the object. *)
Definition alone : system := default (initial 5 3) (run act (replicate 21 0%nat) (initial 5 3)).

Lemma alone_reachable : reachable 5 3 alone.
Proof. apply (run_reaches act (replicate 21 0%nat)). vm_compute. reflexivity. Qed.

Example late_workers : let st := default alone (run act [1; 2; 1; 1; 2; 2]%nat alone) in
  threads st = [Done 0; Done 1; Done 2] ∧ da_freed (da st) = true.
Proof. vm_compute. by split. Qed.

Lemma apply_calls_each_index_once_witness :
  threads alone = [Done 0; Start; Start] ∧ finished (da alone) ≡ₚ [0; 1; 2; 3; 4] ∧ da_freed (da alone) = false.
Proof.
  split; [vm_compute; reflexivity|].
  destruct (apply_calls_each_index_once 5 3 ltac:(lia) ltac:(lia) ltac:(lia) ltac:(lia) alone alone_reachable)
    as (_ & _ & _ & Hret & Hfreed).
  split.
  - apply Hret. vm_compute. reflexivity.
  - apply not_true_is_false. intros E.
    discriminate (proj1 Hfreed E 1%nat Start ltac:(vm_compute; reflexivity)).
Defined.

Lemma apply_terminates_witness :
  zlen (replicate 21 0%nat) ≤ work 5 3 (initial 5 3) ∧ caller_returned alone = true.
Proof.
  split.
  - apply (apply_terminates 5 3 ltac:(lia) ltac:(lia) ltac:(lia) ltac:(lia) (initial 5 3)) with (st' := alone).
    + apply rtc_refl.
    + vm_compute. reflexivity.
  - apply (apply_terminates 5 3 ltac:(lia) ltac:(lia) ltac:(lia) ltac:(lia) alone alone_reachable).
    + intros [|[|[|t]]] Ht; [vm_compute; reflexivity|by destruct Ht|by destruct Ht|vm_compute; reflexivity].
    + vm_compute. discriminate.
Defined.
