(* ===== verification/Tree.v ===== *)
(** * CFTree (CoreFoundation CFTree.c)

    Trees of reference counted nodes, linked by pointers to the parent, the next
    sibling and the first and last child.  Nodes live in a store, a finite map
    from addresses; a pointer is an address or [NULL], which is [None].  The
    calls of the client's callbacks are logged, newest first.  An operation
    gives [None] when it follows a pointer that is [NULL] or to freed memory,
    when it halts, or when a loop runs out of its fuel.  Assertions, which only
    log in a release build, and garbage collection are left out. *)
From S2P Require Import Prelude Sort SortBlocks SortArray.
From Stdlib Require Import Permutation Sorted.
From stdpp Require Import gmap list sorting.
Open Scope Z_scope.

(** [struct __CFTreeCallBacks]: function pointers. *)
Record callbacks := { retain : option Z; release : option Z; copyDescription : option Z }.
#[export] Instance callbacks_eq_dec : EqDecision callbacks.
Proof. solve_decision. Defined.

Record CFTreeContext := { version : Z; info : Z; context_callbacks : callbacks }.

(** [struct __CFTree], with bits 0 and 1 of its info bits and its reference count. *)
Record __CFTree := {
  _parent : option Z; _sibling : option Z; _child : option Z; _rightmostChild : option Z;
  _info : Z; _callbacks : option callbacks; cfinfo : Z; retain_count : Z }.

Definition __kCFTreeHasNullCallBacks : Z := 0.
Definition __kCFTreeHasCFTypeCallBacks : Z := 1.
Definition __kCFTreeHasCustomCallBacks : Z := 3.

(** A call of the client's code. *)
Inductive call := Called (fn info : Z).

Record heap := { nodes : gmap Z __CFTree; calls : list call }.

(** The addresses of [CFRetain], [CFRelease] and [CFCopyDescription], and what a
    retain callback gives for an info pointer. *)
Class Client := {
  CFRetain_fn : Z; CFRelease_fn : Z; CFCopyDescription_fn : Z;
  invoke_retain : Z → Z → Z;
}.

(** ** Assignments through a pointer *)

Definition modify (t : Z) (f : __CFTree → __CFTree) (s : heap) : option heap :=
  n ← nodes s !! t; Some {| nodes := <[t := f n]> (nodes s); calls := calls s |}.
Definition log (fn x : Z) (s : heap) : heap := {| nodes := nodes s; calls := Called fn x :: calls s |}.

Definition set_parent p n := {| _parent := p; _sibling := _sibling n; _child := _child n;
  _rightmostChild := _rightmostChild n; _info := _info n; _callbacks := _callbacks n; cfinfo := cfinfo n;
  retain_count := retain_count n |}.
Definition set_sibling p n := {| _parent := _parent n; _sibling := p; _child := _child n;
  _rightmostChild := _rightmostChild n; _info := _info n; _callbacks := _callbacks n; cfinfo := cfinfo n;
  retain_count := retain_count n |}.
Definition set_child p n := {| _parent := _parent n; _sibling := _sibling n; _child := p;
  _rightmostChild := _rightmostChild n; _info := _info n; _callbacks := _callbacks n; cfinfo := cfinfo n;
  retain_count := retain_count n |}.
Definition set_rightmostChild p n := {| _parent := _parent n; _sibling := _sibling n; _child := _child n;
  _rightmostChild := p; _info := _info n; _callbacks := _callbacks n; cfinfo := cfinfo n;
  retain_count := retain_count n |}.
Definition set_info i n := {| _parent := _parent n; _sibling := _sibling n; _child := _child n;
  _rightmostChild := _rightmostChild n; _info := i; _callbacks := _callbacks n; cfinfo := cfinfo n;
  retain_count := retain_count n |}.
Definition set_callbacks c n := {| _parent := _parent n; _sibling := _sibling n; _child := _child n;
  _rightmostChild := _rightmostChild n; _info := _info n; _callbacks := c; cfinfo := cfinfo n;
  retain_count := retain_count n |}.
Definition set_cfinfo b n := {| _parent := _parent n; _sibling := _sibling n; _child := _child n;
  _rightmostChild := _rightmostChild n; _info := _info n; _callbacks := _callbacks n; cfinfo := b;
  retain_count := retain_count n |}.
Definition set_retain_count c n := {| _parent := _parent n; _sibling := _sibling n; _child := _child n;
  _rightmostChild := _rightmostChild n; _info := _info n; _callbacks := _callbacks n; cfinfo := cfinfo n;
  retain_count := c |}.

(** ** The context *)
Section program.
Context `{Cl : Client}.

Definition __CFTreeGetCallBacksType (n : __CFTree) : Z := cfinfo n.

Definition __kCFNullTreeCallBacks : callbacks := {| retain := None; release := None; copyDescription := None |}.
Definition __kCFTypeTreeCallBacks : callbacks :=
  {| retain := Some CFRetain_fn; release := Some CFRelease_fn; copyDescription := Some CFCopyDescription_fn |}.

Definition __CFTreeGetCallBacks (n : __CFTree) : option callbacks :=
  if __CFTreeGetCallBacksType n =? __kCFTreeHasNullCallBacks then Some __kCFNullTreeCallBacks
  else if __CFTreeGetCallBacksType n =? __kCFTreeHasCFTypeCallBacks then Some __kCFTypeTreeCallBacks
  else _callbacks n.

Definition __CFTreeCallBacksMatchNull (c : CFTreeContext) : bool :=
  bool_decide (context_callbacks c = __kCFNullTreeCallBacks).
Definition __CFTreeCallBacksMatchCFType (c : CFTreeContext) : bool :=
  bool_decide (context_callbacks c = __kCFTypeTreeCallBacks).

Definition CFTreeSetContext (tree : Z) (context : CFTreeContext) (s : heap) : option heap :=
  n ← nodes s !! tree;
  let oldtype := __CFTreeGetCallBacksType n in
  oldcb ← __CFTreeGetCallBacks n;
  let oldinfo := _info n in
  '(newtype, s) ←
    (if __CFTreeCallBacksMatchNull context then Some (__kCFTreeHasNullCallBacks, s)
     else if __CFTreeCallBacksMatchCFType context then Some (__kCFTreeHasCFTypeCallBacks, s)
     else s ← modify tree (set_callbacks (Some (context_callbacks context))) s;
          Some (__kCFTreeHasCustomCallBacks, s));
  s ← modify tree (set_cfinfo newtype) s;
  n ← nodes s !! tree;
  newcb ← __CFTreeGetCallBacks n;
  s ← match retain newcb with
      | Some fn => modify tree (set_info (invoke_retain fn (info context))) (log fn (info context) s)
      | None => modify tree (set_info (info context)) s
      end;
  match release oldcb with
  | Some fn => Some (log fn oldinfo s)
  | None => Some s
  end.

(** [memory] is what the runtime's allocation answers. *)
Definition CFTreeCreate (memory : option Z) (context : CFTreeContext) (s : heap) : option (option Z * heap) :=
  match memory with
  | None => Some (None, s)
  | Some t =>
      let n := {| _parent := None; _sibling := None; _child := None; _rightmostChild := None;
                  _info := 0; _callbacks := None; cfinfo := __kCFTreeHasNullCallBacks; retain_count := 1 |} in
      s ← CFTreeSetContext t context {| nodes := <[t := n]> (nodes s); calls := calls s |};
      Some (Some t, s)
  end.

Definition CFTreeGetContext (tree : Z) (s : heap) : option CFTreeContext :=
  n ← nodes s !! tree;
  cb ← __CFTreeGetCallBacks n;
  Some {| version := 0; info := _info n; context_callbacks := cb |}.

(** ** Reading the tree *)

Definition CFTreeGetParent (tree : Z) (s : heap) : option (option Z) := n ← nodes s !! tree; Some (_parent n).
Definition CFTreeGetNextSibling (tree : Z) (s : heap) : option (option Z) := n ← nodes s !! tree; Some (_sibling n).
Definition CFTreeGetFirstChild (tree : Z) (s : heap) : option (option Z) := n ← nodes s !! tree; Some (_child n).

Fixpoint count_loop (fuel : nat) (tree : option Z) (cnt : Z) (s : heap) : option Z :=
  match fuel, tree with
  | _, None => Some cnt
  | O, _ => None
  | S fuel, Some t => n ← nodes s !! t; count_loop fuel (_sibling n) (sint 32 (cnt + 1)) s
  end.
Definition CFTreeGetChildCount (fuel : nat) (tree : Z) (s : heap) : option Z :=
  n ← nodes s !! tree; count_loop fuel (_child n) 0 s.

Fixpoint CFTreeFindRoot (fuel : nat) (tree : Z) (s : heap) : option Z :=
  match fuel with
  | O => None
  | S fuel =>
      n ← nodes s !! tree;
      match _parent n with None => Some tree | Some p => CFTreeFindRoot fuel p s end
  end.

Fixpoint child_loop (fuel : nat) (tree : option Z) (idx : Z) (s : heap) : option (option Z) :=
  match fuel, tree with
  | _, None => Some None
  | O, _ => None
  | S fuel, Some t => if 0 =? idx then Some (Some t) else n ← nodes s !! t; child_loop fuel (_sibling n) (idx - 1) s
  end.
Definition CFTreeGetChildAtIndex (fuel : nat) (tree idx : Z) (s : heap) : option (option Z) :=
  n ← nodes s !! tree; child_loop fuel (_child n) idx s.

(** [*children++ = tree]: the array of the caller, from index [i] on. *)
Fixpoint children_loop (fuel : nat) (tree : option Z) (i : Z) (children : list Z) (s : heap) : option (list Z) :=
  match fuel, tree with
  | _, None => Some children
  | O, _ => None
  | S fuel, Some t =>
      children ← children.[i := t];
      n ← nodes s !! t; children_loop fuel (_sibling n) (i + 1) children s
  end.
Definition CFTreeGetChildren (fuel : nat) (tree : Z) (children : list Z) (s : heap) : option (list Z) :=
  n ← nodes s !! tree; children_loop fuel (_child n) 0 children s.

(** The applier works on the heap and on the client's state; the sibling is read
    after its call. *)
Fixpoint apply_loop {A} (applier : Z → heap * A → option (heap * A)) (fuel : nat) (tree : option Z) (s : heap * A)
    : option (heap * A) :=
  match fuel, tree with
  | _, None => Some s
  | O, _ => None
  | S fuel, Some t =>
      s ← applier t s;
      n ← nodes s.1 !! t; apply_loop applier fuel (_sibling n) s
  end.
Definition CFTreeApplyFunctionToChildren {A} (fuel : nat) (tree : Z) (applier : Z → heap * A → option (heap * A))
    (s : heap * A) : option (heap * A) :=
  n ← nodes s.1 !! tree; apply_loop applier fuel (_child n) s.

(** ** Reference counts and deallocation *)

(** [CFRetain] of CFRuntime.c, for one thread; a count of zero marks a constant,
    and the count has 32 bits. *)
Definition CFRetain (t : Z) (s : heap) : option heap :=
  n ← nodes s !! t;
  if retain_count n =? 0 then Some s else modify t (set_retain_count ((retain_count n + 1) mod 2 ^ 32)) s.

(** The loop of [CFTreeRemoveAllChildren], with the [CFRelease] it calls. *)
Fixpoint remove_loop (CFRelease : Z → heap → option heap) (fuel : nat) (nextChild : option Z) (s : heap)
    : option heap :=
  match fuel, nextChild with
  | _, None => Some s
  | O, _ => None
  | S fuel, Some c =>
      n ← nodes s !! c;
      let nextSibling := _sibling n in
      s ← modify c (set_parent None) s;
      s ← modify c (set_sibling None) s;
      s ← CFRelease c s;
      remove_loop CFRelease fuel nextSibling s
  end.

Definition remove_all (CFRelease : Z → heap → option heap) (fuel : nat) (tree : Z) (s : heap) : option heap :=
  n ← nodes s !! tree;
  let nextChild := _child n in
  s ← modify tree (set_child None) s;
  s ← modify tree (set_rightmostChild None) s;
  remove_loop CFRelease fuel nextChild s.

Definition deallocate (CFRelease : Z → heap → option heap) (fuel : nat) (tree : Z) (s : heap) : option heap :=
  s ← remove_all CFRelease fuel tree s;
  n ← nodes s !! tree;
  cb ← __CFTreeGetCallBacks n;
  match release cb with Some fn => Some (log fn (_info n) s) | None => Some s end.

(** [CFRelease] of CFRuntime.c, for one thread: the last reference runs the
    finalizer, here [__CFTreeDeallocate], and frees the memory unless the
    finalizer changed the count. *)
Fixpoint CFRelease (fuel : nat) (t : Z) (s : heap) : option heap :=
  match fuel with
  | O => None
  | S fuel =>
      n ← nodes s !! t;
      if retain_count n =? 0 then Some s
      else if retain_count n =? 1 then
        s ← deallocate (CFRelease fuel) fuel t s;
        n ← nodes s !! t;
        if retain_count n =? 1 then Some {| nodes := delete t (nodes s); calls := calls s |}
        else CFRelease fuel t s
      else modify t (set_retain_count (retain_count n - 1)) s
  end.

Definition CFTreeRemoveAllChildren (fuel : nat) : Z → heap → option heap := remove_all (CFRelease fuel) fuel.
Definition __CFTreeDeallocate (fuel : nat) : Z → heap → option heap := deallocate (CFRelease fuel) fuel.

(** ** Changing the tree *)

Definition CFTreePrependChild (tree newChild : Z) (s : heap) : option heap :=
  s ← CFRetain newChild s;
  s ← modify newChild (set_parent (Some tree)) s;
  n ← nodes s !! tree;
  s ← modify newChild (set_sibling (_child n)) s;
  n ← nodes s !! tree;
  s ← (if decide (_child n = None) then modify tree (set_rightmostChild (Some newChild)) s else Some s);
  modify tree (set_child (Some newChild)) s.

Definition CFTreeAppendChild (tree newChild : Z) (s : heap) : option heap :=
  n ← nodes s !! newChild;
  if decide (_parent n ≠ None) then None
  else
    s ← CFRetain newChild s;
    s ← modify newChild (set_parent (Some tree)) s;
    s ← modify newChild (set_sibling None) s;
    n ← nodes s !! tree;
    s ← (if decide (_child n = None) then modify tree (set_child (Some newChild)) s
         else r ← _rightmostChild n; modify r (set_sibling (Some newChild)) s);
    modify tree (set_rightmostChild (Some newChild)) s.

Definition CFTreeInsertSibling (tree newSibling : Z) (s : heap) : option heap :=
  s ← CFRetain newSibling s;
  n ← nodes s !! tree;
  s ← modify newSibling (set_parent (_parent n)) s;
  n ← nodes s !! tree;
  s ← modify newSibling (set_sibling (_sibling n)) s;
  s ← modify tree (set_sibling (Some newSibling)) s;
  n ← nodes s !! tree;
  match _parent n with
  | None => Some s
  | Some p =>
      m ← nodes s !! p;
      if decide (_rightmostChild m = Some tree) then modify p (set_rightmostChild (Some newSibling)) s else Some s
  end.

(** The search for the previous sibling in [CFTreeRemove], from [prevSibling] on. *)
Fixpoint unlink_loop (fuel : nat) (p tree : Z) (prevSibling : option Z) (s : heap) : option heap :=
  match fuel, prevSibling with
  | _, None => Some s
  | O, _ => None
  | S fuel, Some b =>
      m ← nodes s !! b;
      if decide (_sibling m = Some tree) then
        n ← nodes s !! tree;
        s ← modify b (set_sibling (_sibling n)) s;
        q ← nodes s !! p;
        if decide (_rightmostChild q = Some tree) then modify p (set_rightmostChild (Some b)) s else Some s
      else unlink_loop fuel p tree (_sibling m) s
  end.

Definition CFTreeRemove (fuel : nat) (tree : Z) (s : heap) : option heap :=
  n ← nodes s !! tree;
  match _parent n with
  | None => Some s
  | Some p =>
      m ← nodes s !! p;
      s ← (if decide (_child m = Some tree) then
             s ← modify p (set_child (_sibling n)) s;
             n ← nodes s !! tree;
             if decide (_sibling n = None) then modify p (set_rightmostChild None) s else Some s
           else unlink_loop fuel p tree (_child m) s);
      s ← modify tree (set_parent None) s;
      s ← modify tree (set_sibling None) s;
      CFRelease fuel tree s
  end.

(** ** Sorting the children *)

(** [for (idx = 0; NULL != nextChild; idx++) list[idx] = nextChild]: as the loop
    of [CFTreeGetChildren]. *)
Fixpoint link_loop (l : list Z) (s : heap) : option heap :=
  match l with
  | b :: (c :: _) as l => s ← modify b (set_sibling (Some c)) s; link_loop l s
  | [b] => modify b (set_sibling None) s
  | [] => Some s
  end.

(** [func] is called on the two children the pointers point to. *)
Definition __CFTreeCompareValues (func : Z → Z → Z) (v1 v2 : list Z) : Z := func (hd 0 v1) (hd 0 v2).

(** The array is of pointers, so the size of an element is one cell. *)
Definition CFTreeSortChildren `{DispatchApply, Scratch} (fuel : nat) (tree : Z) (comparator : Z → Z → Z) (s : heap)
    : option heap :=
  children ← CFTreeGetChildCount fuel tree s;
  if 1 <? children then
    l ← scratch children;
    n ← nodes s !! tree;
    l ← children_loop fuel (_child n) 0 l s;
    l ← CFQSortArray 1 l children 1 (__CFTreeCompareValues comparator);
    s ← modify tree (set_child (head l)) s;
    s ← link_loop l s;
    modify tree (set_rightmostChild (last l)) s
  else Some s.
End program.
