(* ===== verification/TreeSpec.v ===== *)
(** * What a CFTree is: a forest of nodes with lists of children

    The abstract state of Tree.v: each node has the list of its children, a
    reference count and its context.  The heap represents a forest when its
    pointers are those of the lists.  The lemmas say how the elementary changes
    of the pointers change the forest. *)
From S2P Require Import Prelude Tree.
From Stdlib Require Import Permutation Sorted.
From stdpp Require Import gmap list sorting.
Open Scope Z_scope.

Record entry := { children : list Z; count : Z; content : Z * option callbacks * Z }.
Definition set_children l e := {| children := l; count := count e; content := content e |}.
Definition set_count c e := {| children := children e; count := c; content := content e |}.
Abbreviation forest := (gmap Z entry).

Implicit Types (F G : forest) (L : list Z).

Definition child_of F (p c : Z) : Prop := ∃ e, F !! p = Some e ∧ c ∈ children e.

(** [x] is [t] or below it. *)
Definition below F : Z → Z → Prop := rtc (child_of F).

(** Where the pointers of a node put it. *)
Definition placed F (c : Z) (parent sibling : option Z) : Prop :=
  match parent with
  | None => sibling = None ∧ ∀ p, ¬ child_of F p c
  | Some p => (∃ e l1 l2, F !! p = Some e ∧ children e = l1 ++ c :: l2 ∧ sibling = head l2) ∧
      ∀ q, child_of F q c → q = p
  end.

Definition same (n : __CFTree) (e : entry) : Prop :=
  _child n = head (children e) ∧ _rightmostChild n = last (children e) ∧
  (_info n, _callbacks n, cfinfo n) = content e ∧ retain_count n = count e.

(** Custom callbacks are there. *)
Definition content_ok (c : Z * option callbacks * Z) : Prop :=
  let '(_, cb, bits) := c in
  bits = __kCFTreeHasNullCallBacks ∨ bits = __kCFTreeHasCFTypeCallBacks ∨ is_Some cb.

Definition acyclic F : Prop :=
  ∃ (rank : Z → nat) (top : nat), (∀ p c, child_of F p c → (rank c < rank p)%nat) ∧ ∀ x, (rank x ≤ top)%nat.

(** The nodes of [L] are between two places: a call that has unlinked them has
    not yet reset their pointers. *)
Record represents L (m : gmap Z __CFTree) F : Prop := {
  r_same x : option_Forall2 same (m !! x) (F !! x);
  r_placed x n : m !! x = Some n → x ∉ L → placed F x (_parent n) (_sibling n);
  r_child p c : child_of F p c → is_Some (m !! c) ∧ c ∉ L;
  r_nodup p e : F !! p = Some e → NoDup (children e);
  r_count p e : F !! p = Some e → 1 ≤ count e;
  r_content p e : F !! p = Some e → content_ok (content e);
  r_limbo x : x ∈ L → is_Some (m !! x);
  r_acyclic : acyclic F;
}.

(** An element splits a list without duplicates in one way. *)
Lemma nodup_split (l1 l2 k1 k2 : list Z) c :
  NoDup (l1 ++ c :: l2) → l1 ++ c :: l2 = k1 ++ c :: k2 → l1 = k1 ∧ l2 = k2.
Proof.
  revert k1. induction l1 as [|x l1 IH]; intros [|y k1] Hd; cbn; intros E.
  - by injection E as ->.
  - injection E as -> ->. apply list.NoDup_cons in Hd as [Hd _]. set_solver.
  - injection E as -> E. apply list.NoDup_cons in Hd as [Hd _]. destruct Hd. apply elem_of_app. right. by left.
  - injection E as -> E2. apply list.NoDup_cons in Hd as [_ Hd]. by destruct (IH k1 Hd E2) as [-> ->].
Qed.

Section represents.
Context L (m : gmap Z __CFTree) F (Hr : represents L m F).

Lemma r_node x e : F !! x = Some e → ∃ n, m !! x = Some n ∧ same n e.
Proof. intros He. pose proof (r_same _ _ _ Hr x) as Hs. rewrite He in Hs. inversion_clear Hs. eauto. Qed.
Lemma r_entry x n : m !! x = Some n → ∃ e, F !! x = Some e ∧ same n e.
Proof. intros He. pose proof (r_same _ _ _ Hr x) as Hs. rewrite He in Hs. inversion_clear Hs. eauto. Qed.

Lemma r_parent p c n : child_of F p c → m !! c = Some n → _parent n = Some p.
Proof.
  intros Hc Hn. destruct (r_child _ _ _ Hr p c Hc) as [_ HL]. pose proof (r_placed _ _ _ Hr c n Hn HL) as Hp.
  unfold placed in Hp. destruct (_parent n) as [q|].
  - destruct Hp as [_ Hu]. by rewrite (Hu p Hc).
  - destruct Hp as [_ Hno]. by destruct (Hno p).
Qed.

Lemma r_root c n : m !! c = Some n → c ∉ L → _parent n = None → ∀ p, ¬ child_of F p c.
Proof. intros Hn HL Hp. pose proof (r_placed _ _ _ Hr c n Hn HL) as Hpl. rewrite Hp in Hpl. apply Hpl. Qed.

Lemma r_unique p q c : child_of F p c → child_of F q c → p = q.
Proof.
  intros Hp Hq. destruct (r_child _ _ _ Hr p c Hp) as [[n Hn] _].
  pose proof (r_parent p c n Hp Hn). pose proof (r_parent q c n Hq Hn). congruence.
Qed.

(** The sibling of a child is the next one of the list. *)
Lemma r_next p e l1 c l2 n :
  F !! p = Some e → children e = l1 ++ c :: l2 → m !! c = Some n → _parent n = Some p ∧ _sibling n = head l2.
Proof.
  intros He Hl Hn. assert (Hc : child_of F p c) by (exists e; split; [done|rewrite Hl; set_solver]).
  pose proof (r_parent p c n Hc Hn) as Hp. split; [done|].
  destruct (r_child _ _ _ Hr p c Hc) as [_ HL]. pose proof (r_placed _ _ _ Hr c n Hn HL) as Hpl.
  rewrite Hp in Hpl. destruct Hpl as [(e' & k1 & k2 & He' & Hl' & ->) _]. assert (e' = e) as -> by congruence.
  pose proof (r_nodup _ _ _ Hr p e He) as Hd. rewrite Hl in Hl', Hd.
  f_equal. by destruct (nodup_split l1 l2 k1 k2 c Hd Hl').
Qed.

Lemma child_irrefl t : ¬ child_of F t t.
Proof. intros Ht. destruct (r_acyclic _ _ _ Hr) as (rank & top & Hrank & _). specialize (Hrank t t Ht). lia. Qed.

(** The nodes above [t]: a list closed under parents. *)
Lemma ancestors t :
  ∃ A : list Z, t ∈ A ∧ (∀ x p, x ∈ A → child_of F p x → p ∈ A) ∧ ∀ x, x ∈ A → below F x t.
Proof.
  destruct (r_acyclic _ _ _ Hr) as (rank & top & Hrank & Htop).
  remember (top - rank t)%nat as d eqn:Hd. revert t Hd. induction (lt_wf d) as [d _ IH]. intros t Hd.
  assert (Hstop : (∀ p, ¬ child_of F p t) →
    ∃ A : list Z, t ∈ A ∧ (∀ x p, x ∈ A → child_of F p x → p ∈ A) ∧ ∀ x, x ∈ A → below F x t).
  { intros Hno. exists [t]. split_and!; [by left| |].
    - intros x p ->%list_elem_of_singleton Hp. by destruct (Hno p).
    - intros x ->%list_elem_of_singleton. constructor. }
  destruct (m !! t) as [n|] eqn:Hn; [|apply Hstop; intros p Hp; destruct (r_child _ _ _ Hr p t Hp) as [[? ?] _]; congruence].
  destruct (decide (t ∈ L)) as [HL|HL]; [apply Hstop; intros p Hp; by destruct (r_child _ _ _ Hr p t Hp)|].
  destruct (_parent n) as [p|] eqn:Hp; [|by apply Hstop, (r_root t n)].
  pose proof (r_placed _ _ _ Hr t n Hn HL) as Hpl. rewrite Hp in Hpl. destruct Hpl as [(e & l1 & l2 & He & Hl & _) _].
  assert (Hc : child_of F p t) by (exists e; split; [done|rewrite Hl; set_solver]).
  pose proof (Hrank p t Hc). pose proof (Htop p).
  destruct (IH (top - rank p)%nat ltac:(lia) p eq_refl) as (A & HpA & Hup & Hbelow).
  exists (t :: A). split_and!; [by left| |].
  - intros x q [-> |Hx]%elem_of_cons Hq; right; [by rewrite (r_unique q p t)|by eapply Hup].
  - intros x [-> |Hx]%elem_of_cons; [constructor|]. specialize (Hbelow x Hx). clear -Hbelow Hc.
    by eapply rtc_r.
Qed.
End represents.

(** *** Putting a node among the children of another *)

Definition insert_child F (tree : Z) (l1 : list Z) (c : Z) (l2 : list Z) : forest :=
  alter (λ e, set_count (count e + 1) e) c (alter (set_children (l1 ++ c :: l2)) tree F).

(** The pointers that change. *)
Definition inserted (tree : Z) (l1 : list Z) (c : Z) (l2 : list Z) (x : Z) (n : __CFTree) : __CFTree :=
  let n := if decide (Some x = last l1) then set_sibling (Some c) n else n in
  let n := if decide (x = c) then
    set_retain_count (retain_count n + 1) (set_sibling (head l2) (set_parent (Some tree) n)) else n in
  if decide (x = tree) then set_rightmostChild (last (l1 ++ c :: l2)) (set_child (head (l1 ++ c :: l2)) n) else n.

Lemma not_below_ne F c t : ¬ below F c t → t ≠ c.
Proof. intros Hb ->. apply Hb. constructor. Qed.

Section insert.
Context L (m : gmap Z __CFTree) F (Hr : represents L m F).
Context (tree c : Z) (e : entry) (l1 l2 : list Z) (nc : __CFTree).
Context (He : F !! tree = Some e) (Hl : children e = l1 ++ l2).
Context (Hc : m !! c = Some nc) (Hroot : _parent nc = None) (HcL : c ∉ L) (Hcyc : ¬ below F c tree).

Let insert_ne : tree ≠ c := not_below_ne F c tree Hcyc.

Lemma insert_lookup x :
  insert_child F tree l1 c l2 !! x =
    (if decide (x = c) then λ e, set_count (count e + 1) e else if decide (x = tree) then set_children (l1 ++ c :: l2)
     else id) <$> F !! x.
Proof.
  pose proof insert_ne. unfold insert_child. rewrite !lookup_alter. repeat case_decide; subst; try done; by rewrite ?option_fmap_id.
Qed.

Lemma insert_child_of p x : child_of (insert_child F tree l1 c l2) p x ↔ child_of F p x ∨ p = tree ∧ x = c.
Proof.
  pose proof insert_ne. unfold child_of. setoid_rewrite insert_lookup. split.
  - intros (e' & E & Hx). destruct (F !! p) as [e0|] eqn:Ep; [|done]. injection E as <-.
    repeat case_decide; subst; cbn in *; try (left; by exists e0).
    rewrite elem_of_app, elem_of_cons in Hx. destruct (decide (x = c)) as [->|]; [by right|].
    left. exists e. split; [congruence|]. rewrite Hl, elem_of_app. tauto.
  - intros [(e0 & Ep & Hx)|[-> ->]].
    + rewrite Ep. eexists. split; [done|]. repeat case_decide; subst; cbn; try done.
      assert (e0 = e) as -> by congruence. rewrite Hl, elem_of_app in Hx. rewrite elem_of_app, elem_of_cons. tauto.
    + rewrite He, decide_False, decide_True by done. eexists. split; [done|]. cbn. rewrite elem_of_app, elem_of_cons. tauto.
Qed.

Lemma insert_acyclic : acyclic (insert_child F tree l1 c l2).
Proof.
  destruct (ancestors L m F Hr tree) as (A & HtA & Hup & Hbelow).
  destruct (r_acyclic _ _ _ Hr) as (rank & top & Hrank & Htop).
  exists (λ x, if decide (x ∈ A) then rank x + top + 1 else rank x)%nat, (top + top + 1)%nat. split.
  - intros p x [Hpx|[-> ->]]%insert_child_of.
    + specialize (Hrank p x Hpx). pose proof (Htop p). pose proof (Htop x). destruct (decide (x ∈ A)) as [Hx|Hx].
      * rewrite decide_True by (by eapply Hup). lia.
      * case_decide; lia.
    + rewrite decide_False by (intros Hx; by apply Hcyc, Hbelow). rewrite decide_True by done.
      pose proof (Htop c). lia.
  - intros x. specialize (Htop x). case_decide; lia.
Qed.

Lemma inserted_parent x n : _parent (inserted tree l1 c l2 x n) = if decide (x = c) then Some tree else _parent n.
Proof. unfold inserted. by repeat case_decide. Qed.
Lemma inserted_sibling x n :
  _sibling (inserted tree l1 c l2 x n) =
    if decide (x = c) then head l2 else if decide (Some x = last l1) then Some c else _sibling n.
Proof. unfold inserted. by repeat case_decide. Qed.

(** The children of the nodes that are not [tree] are unchanged. *)
Lemma insert_children p e0 : F !! p = Some e0 → ∃ e', insert_child F tree l1 c l2 !! p = Some e' ∧
  children e' = if decide (p = tree) then l1 ++ c :: l2 else children e0.
Proof.
  intros Hp. pose proof insert_ne. rewrite insert_lookup, Hp. eexists. split; [done|].
  repeat case_decide; subst; done.
Qed.

Lemma insert_placed x n0 :
  m !! x = Some n0 → x ∉ L → c ∉ l1 ++ l2 → (∀ p, ¬ child_of F p c) →
  placed (insert_child F tree l1 c l2) x (if decide (x = c) then Some tree else _parent n0)
    (if decide (x = c) then head l2 else if decide (Some x = last l1) then Some c else _sibling n0).
Proof.
  intros E0 Hx Hnot Hnoc. pose proof (r_placed _ _ _ Hr x n0 E0 Hx) as Hpl.
  destruct (insert_children tree e He) as (et & Eet & Hct). rewrite decide_True in Hct by done.
  destruct (decide (x = c)) as [->|Hxc].
  { split; [by exists et, l1, l2|]. intros q [Hq|[-> _]]%insert_child_of; [by destruct (Hnoc q)|done]. }
  assert (Hu : ∀ p, child_of F p x → ∀ q, child_of (insert_child F tree l1 c l2) q x → q = p).
  { intros p Hp q [Hq|[-> ->]]%insert_child_of; [|done]. by eapply r_unique. }
  case_decide as Hlast.
  - (* the node before [c] *)
    symmetry in Hlast. apply last_Some in Hlast as [k Hk].
    assert (Hxt : child_of F tree x).
    { exists e. split; [done|]. rewrite Hl, Hk, !elem_of_app. left. right. by left. }
    rewrite (r_parent L m F Hr tree x n0 Hxt E0). split; [|by apply Hu].
    exists et, k, (c :: l2). split_and!; [done| |done]. rewrite Hct, Hk. by rewrite <- app_assoc.
  - destruct (_parent n0) as [p|] eqn:Ep.
    + destruct Hpl as [(e0 & k1 & k2 & He0 & Hk & Hs) _].
      assert (Hxp : child_of F p x) by (exists e0; split; [done|rewrite Hk, elem_of_app; right; by left]).
      split; [|by apply Hu]. destruct (insert_children p e0 He0) as (e' & Ee' & Hc').
      destruct (decide (p = tree)) as [->|]; [|exists e', k1, k2; split_and!; [done|by rewrite Hc'|done]].
      assert (e0 = e) as -> by congruence. rewrite Hl in Hk.
      apply app_eq_inv in Hk as [(k & El1 & Hk)|(k & -> & El2)]; [destruct k as [|y k]; cbn in Hk; [|injection Hk as <- Hk]|].
      * exists e', (l1 ++ [c]), k2. split_and!; [done|rewrite Hc', <- app_assoc; cbn; congruence|done].
      * exists e', k1, (k ++ c :: l2). split_and!; [done|rewrite Hc', El1, <- app_assoc; cbn; congruence|].
        destruct k as [|z k]; [|by subst k2]. exfalso. apply Hlast. rewrite El1, last_snoc. congruence.
      * exists e', (l1 ++ c :: k), k2. split_and!; [done|rewrite Hc', El2, <- app_assoc; done|done].
    + destruct Hpl as [Hs Hno]. split; [done|]. intros p [Hp|[_ Hp]]%insert_child_of; [by destruct (Hno p)|done].
Qed.

Lemma insert_represents m' :
  (∀ x, m' !! x = inserted tree l1 c l2 x <$> m !! x) → represents L m' (insert_child F tree l1 c l2).
Proof.
  intros Hm. pose proof insert_ne as Hne.
  assert (Hnoc : ∀ p, ¬ child_of F p c) by (by apply (r_root L m F Hr c nc)).
  assert (Hnot : c ∉ l1 ++ l2) by (intros Hin; apply (Hnoc tree); exists e; by rewrite Hl).
  assert (Hd : NoDup (l1 ++ l2)) by (rewrite <- Hl; by eapply r_nodup).
  split.
  - intros x. rewrite Hm, insert_lookup. pose proof (r_same _ _ _ Hr x) as Hs.
    inversion Hs as [n e0 (H1 & H2 & H3 & H4) E1 E2|E1 E2]; cbn; [|constructor]. constructor.
    unfold inserted. repeat case_decide; subst; try done; split_and!; cbn in *; try done; lia.
  - intros x n Hn Hx. rewrite Hm in Hn. destruct (m !! x) as [n0|] eqn:E0; [|done]. injection Hn as <-.
    rewrite inserted_parent, inserted_sibling. by apply insert_placed.
  - intros p x [Hp|[-> ->]]%insert_child_of; rewrite Hm.
    + destruct (r_child _ _ _ Hr p x Hp) as [[n ->] HL]. split; [by eexists|done].
    + rewrite Hc. split; [by eexists|done].
  - intros p e'. rewrite insert_lookup. destruct (F !! p) as [e0|] eqn:Ep; [|done]. intros [= <-].
    pose proof (r_nodup _ _ _ Hr p e0 Ep). repeat case_decide; subst; cbn; try done.
    apply NoDup_app. apply NoDup_app in Hd as (H1 & H2 & H3). rewrite elem_of_app in Hnot. split_and!; [done| |].
    + intros x Hx [-> |Hx2]%elem_of_cons; [tauto|by apply (H2 x)].
    + apply list.NoDup_cons. tauto.
  - intros p e'. rewrite insert_lookup. destruct (F !! p) as [e0|] eqn:Ep; [|done]. intros [= <-].
    pose proof (r_count _ _ _ Hr p e0 Ep). repeat case_decide; subst; cbn; try done; lia.
  - intros p e'. rewrite insert_lookup. destruct (F !! p) as [e0|] eqn:Ep; [|done]. intros [= <-].
    pose proof (r_content _ _ _ Hr p e0 Ep). by repeat case_decide.
  - intros x Hx. rewrite Hm. destruct (r_limbo _ _ _ Hr x Hx) as [n ->]. by eexists.
  - apply insert_acyclic.
Qed.
End insert.

(** *** Keeping some of the children of a node *)
Section rechild.
Context L L' (m m' : gmap Z __CFTree) F (Hr : represents L m F).
Context (tree : Z) (e : entry) (l' : list Z).
Context (He : F !! tree = Some e) (Hnd : NoDup l') (Hsub : ∀ x, x ∈ l' → x ∈ children e).
(** Everything but the links stays. *)
Context (Hkeep : ∀ x, option_Forall2 (λ n n',
  (_info n', _callbacks n', cfinfo n') = (_info n, _callbacks n, cfinfo n) ∧ retain_count n' = retain_count n ∧
  (if decide (x = tree) then _child n' = head l' ∧ _rightmostChild n' = last l'
   else _child n' = _child n ∧ _rightmostChild n' = _rightmostChild n)) (m !! x) (m' !! x)).
(** The children kept are linked as the list says; the others are roots, or in
    limbo; the other nodes do not move. *)
Context (Hkept : ∀ k1 x k2 n', l' = k1 ++ x :: k2 → m' !! x = Some n' → _parent n' = Some tree ∧ _sibling n' = head k2).
Context (Hgone : ∀ x n', x ∈ children e → x ∉ l' → x ∉ L' → m' !! x = Some n' → _parent n' = None ∧ _sibling n' = None).
Context (Hothers : ∀ x n n', x ∉ children e → m !! x = Some n → m' !! x = Some n' →
  _parent n' = _parent n ∧ _sibling n' = _sibling n).
Context (HL' : ∀ x, x ∈ L' → x ∈ L ∨ x ∈ children e ∧ x ∉ l') (HL : ∀ x, x ∈ L → x ∈ L').

Abbreviation F' := (alter (set_children l') tree F).

Lemma rechild_child_of p x : child_of F' p x ↔ child_of F p x ∧ (p = tree → x ∈ l').
Proof.
  unfold child_of. setoid_rewrite lookup_alter. split.
  - intros (e' & E & Hx). case_decide as Ht; [|by split; [eauto|]]. subst p. rewrite He in E. injection E as <-.
    cbn in Hx. split; [|done]. exists e. auto.
  - intros [(e' & E & Hx) Hl]. case_decide as Ht; [|by exists e']. subst p. rewrite He.
    exists (set_children l' e). split; [done|]. by apply Hl.
Qed.

Lemma rechild_dom x : is_Some (m !! x) ↔ is_Some (m' !! x).
Proof. destruct (Hkeep x); split; intros [? ?]; by eexists. Qed.

Lemma rechild_placed x n' : m' !! x = Some n' → x ∉ L' → placed F' x (_parent n') (_sibling n').
Proof.
  intros Hn' HxL'. assert (HxL : x ∉ L) by (intros ?; by apply HxL', HL).
  destruct (m !! x) as [n|] eqn:Hn; [|destruct (rechild_dom x) as [_ [? ?]]; [by eexists|congruence]].
  destruct (decide (x ∈ l')) as [Hin|Hout].
  - apply list_elem_of_split in Hin as (k1 & k2 & Hk). destruct (Hkept k1 x k2 n' Hk Hn') as [-> ->].
    split.
    + exists (set_children l' e), k1, k2. rewrite lookup_alter, decide_True, He by done. split_and!; done.
    + intros q [Hq _]%rechild_child_of. eapply (r_unique L m F Hr); [exact Hq|]. exists e. split; [done|].
      apply Hsub. rewrite Hk, elem_of_app. right. by left.
  - destruct (decide (x ∈ children e)) as [Hc|Hc].
    + destruct (Hgone x n' Hc Hout HxL' Hn') as [-> ->]. split; [done|]. intros p [Hp Hl]%rechild_child_of.
      apply Hout, Hl. apply (r_unique L m F Hr _ _ x); [done|by exists e].
    + destruct (Hothers x n n' Hc Hn Hn') as [-> ->]. pose proof (r_placed _ _ _ Hr x n Hn HxL) as Hpl.
      unfold placed in *. destruct (_parent n) as [p|].
      * destruct Hpl as [(e0 & k1 & k2 & E0 & Hk & Hs) Hu]. split.
        { exists e0, k1, k2. split_and!; [|done|done]. rewrite lookup_alter, decide_False; [done|]. intros <-.
          apply Hc. assert (e0 = e) as <- by congruence. rewrite Hk, elem_of_app. right. by left. }
        intros q [Hq _]%rechild_child_of. by apply Hu.
      * destruct Hpl as [Hs Hno]. split; [done|]. intros p [Hp _]%rechild_child_of. by apply (Hno p).
Qed.

Lemma rechild_represents : represents L' m' F'.
Proof.
  split.
  - intros x. pose proof (r_same _ _ _ Hr x) as Hs. pose proof (Hkeep x) as Hk. rewrite lookup_alter.
    destruct (m !! x) as [n|], (F !! x) as [e0|] eqn:E0; try by inversion Hs.
    + inversion Hs as [? ? (S1 & S2 & S3 & S4)|]; subst. inversion Hk as [? n' (K1 & K2 & K3)|]; subst.
      destruct (decide (x = tree)) as [Ht|Hne]; destruct K3 as [K3 K4].
      * rewrite decide_True by done. rewrite <- Ht, E0. constructor. split_and!; cbn; congruence.
      * rewrite decide_False by done. constructor. split_and!; congruence.
    + inversion_clear Hk. case_decide; [subst; congruence|constructor].
  - intros x n' Hn' Hx. by apply rechild_placed.
  - intros p x [Hp Hl]%rechild_child_of. destruct (r_child _ _ _ Hr p x Hp) as [Hm HxL]. split; [by apply rechild_dom|].
    intros [?|[Hc Hn]]%HL'; [done|]. apply Hn, Hl. apply (r_unique L m F Hr _ _ x); [done|by exists e].
  - intros p e'. rewrite lookup_alter. case_decide as Ht; [subst p; rewrite He; intros [= <-]; done|by eapply r_nodup].
  - intros p e'. rewrite lookup_alter. case_decide as Ht; [subst p; rewrite He; intros [= <-]|]; [|by eapply r_count].
    cbn. by eapply r_count.
  - intros p e'. rewrite lookup_alter. case_decide as Ht; [subst p; rewrite He; intros [= <-]|]; [|by eapply r_content].
    apply (r_content _ _ _ Hr _ _ He).
  - intros x [Hx|[Hx _]]%HL'; apply rechild_dom; [by eapply r_limbo|]. eapply (r_child _ _ _ Hr tree). by exists e.
  - destruct (r_acyclic _ _ _ Hr) as (rank & top & H1 & H2). exists rank, top. split; [|done].
    intros p x [Hp _]%rechild_child_of. by apply H1.
Qed.
End rechild.

(** *** Nodes on their own *)

Lemma adopt_represents L L' m F x n :
  represents L m F → m !! x = Some n → x ∈ L → (∀ y, y ∈ L' ↔ y ∈ L ∧ y ≠ x) →
  represents L' (<[x := set_sibling None (set_parent None n)]> m) F.
Proof.
  intros Hr Hn Hx HL'. split.
  - intros y. rewrite lookup_insert. case_decide; [subst y|apply Hr]. pose proof (r_same _ _ _ Hr x) as Hs.
    rewrite Hn in Hs. inversion_clear Hs as [? e0 H|]. by constructor.
  - intros y ny. rewrite lookup_insert. case_decide as E; intros Hy HyL.
    + injection Hy as <-. subst y. split; [done|]. intros p Hp. by destruct (r_child _ _ _ Hr p x Hp).
    + eapply r_placed; [done|done|]. rewrite HL' in HyL. intros ?. by apply HyL.
  - intros p c Hp. destruct (r_child _ _ _ Hr p c Hp) as [Hc HcL]. split; [|rewrite HL'; tauto].
    rewrite lookup_insert. case_decide; [by eexists|done].
  - by eapply r_nodup.
  - by eapply r_count.
  - by eapply r_content.
  - intros y [Hy _]%HL'. rewrite lookup_insert. case_decide; [by eexists|by eapply r_limbo].
  - apply Hr.
Qed.

(** Changing what a node holds, and not its links. *)
Section redata.
Context L (m : gmap Z __CFTree) F (Hr : represents L m F).
Context (x : Z) (n n' : __CFTree) (e : entry) (f : entry → entry).
Context (Hn : m !! x = Some n) (He : F !! x = Some e).
Context (Hlinks : _parent n' = _parent n ∧ _sibling n' = _sibling n) (Hchildren : children (f e) = children e).

Lemma redata_child_of p c : child_of (alter f x F) p c ↔ child_of F p c.
Proof.
  unfold child_of. setoid_rewrite lookup_alter. case_decide; [|done]. subst p. rewrite He.
  split; [intros (e' & [= <-] & Hc); exists e; by rewrite <- Hchildren|].
  intros (e' & E & Hc). assert (e' = e) as -> by congruence. exists (f e). by rewrite Hchildren.
Qed.

Lemma redata_represents :
  same n' (f e) → 1 ≤ count (f e) → content_ok (content (f e)) → represents L (<[x := n']> m) (alter f x F).
Proof.
  intros Hs Hk Hc. destruct Hlinks as [Hp Hsib]. split.
  - intros y. rewrite lookup_insert, lookup_alter. case_decide; [subst y; rewrite He; by constructor|apply Hr].
  - intros y ny Hy HyL. assert (Hpl : ∃ n0, m !! y = Some n0 ∧ _parent ny = _parent n0 ∧ _sibling ny = _sibling n0).
    { rewrite lookup_insert in Hy. case_decide; [|by exists ny]. injection Hy as <-. subst y. by exists n. }
    destruct Hpl as (n0 & Hn0 & -> & ->). pose proof (r_placed _ _ _ Hr y n0 Hn0 HyL) as Hpl.
    unfold placed in *. destruct (_parent n0) as [p|]; setoid_rewrite redata_child_of; [|done].
    destruct Hpl as [(e0 & l1 & l2 & E0 & Hl & Hsl) Hu]. split; [|done].
    rewrite lookup_alter. case_decide; [subst p|exists e0, l1, l2; by split_and!].
    assert (e0 = e) as -> by congruence. rewrite E0. exists (f e), l1, l2. rewrite Hchildren. by split_and!.
  - intros p c Hpc%redata_child_of. destruct (r_child _ _ _ Hr p c Hpc) as [Hm HcL]. split; [|done].
    rewrite lookup_insert. case_decide; [by eexists|done].
  - intros p e'. rewrite lookup_alter. case_decide; [subst p; rewrite He; intros [= <-]; rewrite Hchildren|]; by eapply r_nodup.
  - intros p e'. rewrite lookup_alter. case_decide; [subst p; rewrite He; by intros [= <-]|by eapply r_count].
  - intros p e'. rewrite lookup_alter. case_decide; [subst p; rewrite He; by intros [= <-]|by eapply r_content].
  - intros y Hy. rewrite lookup_insert. case_decide; [by eexists|by eapply r_limbo].
  - destruct (r_acyclic _ _ _ Hr) as (rank & top & R1 & R2). exists rank, top. split; [|done].
    intros p c Hpc%redata_child_of. by apply R1.
Qed.
End redata.

Lemma recount_represents L m F x n k :
  represents L m F → m !! x = Some n → 1 ≤ k →
  represents L (<[x := set_retain_count k n]> m) (alter (set_count k) x F).
Proof.
  intros Hr Hn Hk. destruct (r_entry L m F Hr x n Hn) as (e & He & H1 & H2 & H3 & H4).
  eapply redata_represents; eauto; [by split_and!|apply (r_content _ _ _ Hr x e He)].
Qed.

(** A new node, on its own. *)
Lemma new_represents m F x n e :
  represents [] m F → m !! x = None → same n e → _parent n = None → _sibling n = None → children e = [] →
  1 ≤ count e → content_ok (content e) → represents [] (<[x := n]> m) (<[x := e]> F).
Proof.
  intros Hr Hx Hs Hp Hsib Hl Hc Hok. assert (HF : F !! x = None).
  { pose proof (r_same _ _ _ Hr x) as H. rewrite Hx in H. by inversion H. }
  assert (Hchild : ∀ p c, child_of (<[x := e]> F) p c ↔ child_of F p c).
  { intros p c. unfold child_of. setoid_rewrite lookup_insert. case_decide; [subst p|done]. rewrite HF.
    split; [intros (? & [= <-] & Hin); rewrite Hl in Hin; by apply not_elem_of_nil in Hin|by intros (? & ? & _)]. }
  split.
  - intros y. rewrite !lookup_insert. case_decide; [by constructor|apply Hr].
  - intros y ny. rewrite lookup_insert. case_decide as E; intros Hy HyL.
    + injection Hy as <-. subst y. rewrite Hp. split; [done|]. intros p Hpc%Hchild.
      destruct (r_child _ _ _ Hr p x Hpc) as [[? ?] _]. congruence.
    + pose proof (r_placed _ _ _ Hr y ny Hy HyL) as Hpl. unfold placed in *.
      destruct (_parent ny) as [p|]; setoid_rewrite Hchild; [|done].
      destruct Hpl as [(e0 & l1 & l2 & E0 & Hl0 & Hsl) Hu]. split; [|done]. exists e0, l1, l2.
      rewrite lookup_insert_ne; [done|]. congruence.
  - intros p c Hpc%Hchild. destruct (r_child _ _ _ Hr p c Hpc) as [Hm HcL]. split; [|done].
    rewrite lookup_insert. case_decide; [by eexists|done].
  - intros p e'. rewrite lookup_insert. case_decide; [intros [= <-]; rewrite Hl; constructor|by eapply r_nodup].
  - intros p e'. rewrite lookup_insert. case_decide; [by intros [= <-]|by eapply r_count].
  - intros p e'. rewrite lookup_insert. case_decide; [by intros [= <-]|by eapply r_content].
  - by intros y Hy%not_elem_of_nil.
  - destruct (r_acyclic _ _ _ Hr) as (rank & top & R1 & R2). exists rank, top. split; [|done].
    intros p c Hpc%Hchild. by apply R1.
Qed.

Lemma free_represents L m F x e n :
  represents L m F → F !! x = Some e → children e = [] → m !! x = Some n → _parent n = None → x ∉ L →
  represents L (delete x m) (delete x F).
Proof.
  intros Hr He Hl Hn Hp HxL. pose proof (r_root L m F Hr x n Hn HxL Hp) as Hroot.
  assert (Hchild : ∀ p c, child_of (delete x F) p c ↔ child_of F p c).
  { intros p c. unfold child_of. setoid_rewrite lookup_delete. case_decide; [subst p|done].
    split; [by intros (? & ? & _)|]. intros (e' & E & Hc). assert (e' = e) as -> by congruence. rewrite Hl in Hc.
    by apply not_elem_of_nil in Hc. }
  split.
  - intros y. rewrite !lookup_delete. case_decide; [constructor|apply Hr].
  - intros y ny. rewrite lookup_delete. case_decide; [done|]. intros Hy HyL. pose proof (r_placed _ _ _ Hr y ny Hy HyL) as Hpl.
    unfold placed in *. destruct (_parent ny) as [p|]; setoid_rewrite Hchild; [|done].
    destruct Hpl as [(e0 & l1 & l2 & E0 & Hl0 & Hs) Hu]. split; [|done]. exists e0, l1, l2.
    rewrite lookup_delete, decide_False; [done|]. intros ->. assert (e0 = e) as -> by congruence. rewrite Hl in Hl0.
    by destruct l1.
  - intros p c Hc%Hchild. destruct (r_child _ _ _ Hr p c Hc) as [Hm HL]. split; [|done].
    rewrite lookup_delete, decide_False; [done|]. intros ->. by apply (Hroot p).
  - intros p e'. rewrite lookup_delete. case_decide; [done|]. by eapply r_nodup.
  - intros p e'. rewrite lookup_delete. case_decide; [done|]. by eapply r_count.
  - intros p e'. rewrite lookup_delete. case_decide; [done|]. by eapply r_content.
  - intros y Hy. rewrite lookup_delete, decide_False; [by eapply r_limbo|]. by intros ->.
  - destruct (r_acyclic _ _ _ Hr) as (rank & top & R1 & R2). exists rank, top. split; [|done].
    intros p c Hc%Hchild. by apply R1.
Qed.
