(* ===== verification/TreeOps.v ===== *)
(** * The operations of CFTree on forests

    Each operation of Tree.v on a heap that represents a forest, as an operation
    on the forest: the children put in and taken out, sorted, counted and
    visited, and the nodes freed when the last reference goes. *)
From S2P Require Import Prelude Sort SortBlocks SortArray Tree TreeSpec.
From Stdlib Require Import Permutation Sorted.
From stdpp Require Import gmap list sorting.
Open Scope Z_scope.

Implicit Types (F G : forest) (L : list Z) (s : heap).

(** A node without a parent. *)
Definition is_root F c : Prop := is_Some (F !! c) ∧ ∀ p, ¬ child_of F p c.

(** A node can be held once more. *)
Definition has_room F c : Prop := ∀ e, F !! c = Some e → count e < 2 ^ 32 - 1.

Lemma modify_ok t f s n :
  nodes s !! t = Some n → modify t f s = Some {| nodes := <[t := f n]> (nodes s); calls := calls s |}.
Proof. unfold modify. by intros ->. Qed.

Lemma root_parent L m F c n :
  represents L m F → m !! c = Some n → c ∉ L → (∀ p, ¬ child_of F p c) → _parent n = None ∧ _sibling n = None.
Proof.
  intros Hr Hn HL Hno. pose proof (r_placed _ _ _ Hr c n Hn HL) as Hp. unfold placed in Hp.
  destruct (_parent n) as [p|]; [|by destruct Hp]. destruct Hp as [(e & l1 & l2 & He & Hl & _) _].
  destruct (Hno p). exists e. split; [done|]. rewrite Hl, elem_of_app. right. by left.
Qed.

(** Follow the assignments of a function: read and write known nodes. *)
Ltac heap_read :=
  cbn [nodes calls]; rewrite ?lookup_insert_eq; repeat (rewrite lookup_insert_ne by done); rewrite ?lookup_insert_eq.
Ltac heap_write := cbn [mbind option_bind]; erewrite modify_ok by (heap_read; try eassumption; reflexivity); cbn [mbind option_bind nodes calls].

(** Equal nodes, field by field. *)
Ltac node_eq :=
  unfold set_parent, set_sibling, set_child, set_rightmostChild, set_retain_count; cbn; f_equal; try done; try congruence.

(** Compare the heap after assignments with what it should be, node by node. *)
Ltac heap_compare :=
  intros; cbn [nodes]; rewrite ?lookup_insert; try unfold inserted; rewrite ?last_snoc;
  repeat case_decide; subst; try done; try congruence;
  repeat match goal with H : nodes _ !! _ = Some _ |- _ => rewrite H end; cbn [fmap option_fmap option_map];
  rewrite ?option_fmap_id; try done; f_equal;
  repeat match goal with n : __CFTree |- _ => destruct n end; cbn in *; simplify_eq; node_eq.

Section insert.
Context (s : heap) F (Hr : represents [] (nodes s) F).
Context (tree c : Z) (e : entry) (He : F !! tree = Some e) (Hc : is_root F c) (Hcyc : ¬ below F c tree) (Hroom : has_room F c).

Lemma CFTreePrependChild_ok :
  ∃ s', CFTreePrependChild tree c s = Some s' ∧ calls s' = calls s ∧
    represents [] (nodes s') (insert_child F tree [] c (children e)).
Proof.
  destruct Hc as [[ec Hec] Hno]. pose proof (not_below_ne F c tree Hcyc) as Hne.
  destruct (r_node _ _ _ Hr tree e He) as (n & Hn & S1 & S2 & S3 & S4).
  destruct (r_node _ _ _ Hr c ec Hec) as (nc & Hnc & C1 & C2 & C3 & C4).
  destruct (root_parent _ _ _ c nc Hr Hnc ltac:(set_solver) Hno) as [Hpar Hsib].
  pose proof (r_count _ _ _ Hr c ec Hec) as Hcount. pose proof (Hroom ec Hec).
  unfold CFTreePrependChild, CFRetain. rewrite Hnc. cbn [mbind option_bind].
  rewrite (proj2 (Z.eqb_neq _ 0)), Z.mod_small by lia.
  heap_write. heap_write. heap_read. rewrite Hn. cbn [mbind option_bind]. heap_write. heap_read.
  rewrite Hn. cbn [mbind option_bind].
  assert (Hins : ∀ m', (∀ x, m' !! x = inserted tree [] c (children e) x <$> nodes s !! x) →
    represents [] m' (insert_child F tree [] c (children e))).
  { eapply insert_represents; eauto. set_solver. }
  rewrite S1. case_decide as Hchild; [heap_write; heap_write|heap_write]; (eexists; split; [reflexivity|]; split; [reflexivity|]); apply Hins.
  - apply head_None in Hchild. heap_compare. by rewrite Hchild.
  - rewrite head_None in Hchild. heap_compare. rewrite last_cons.
    by destruct (last (children e)) eqn:El; [|apply last_None in El].
Qed.

Lemma CFTreeAppendChild_ok :
  ∃ s', CFTreeAppendChild tree c s = Some s' ∧ calls s' = calls s ∧
    represents [] (nodes s') (insert_child F tree (children e) c []).
Proof.
  destruct Hc as [[ec Hec] Hno]. pose proof (not_below_ne F c tree Hcyc) as Hne.
  destruct (r_node _ _ _ Hr tree e He) as (n & Hn & S1 & S2 & S3 & S4).
  destruct (r_node _ _ _ Hr c ec Hec) as (nc & Hnc & C1 & C2 & C3 & C4).
  destruct (root_parent _ _ _ c nc Hr Hnc ltac:(set_solver) Hno) as [Hpar Hsib].
  pose proof (r_count _ _ _ Hr c ec Hec) as Hcount. pose proof (Hroom ec Hec).
  unfold CFTreeAppendChild, CFRetain. rewrite Hnc. cbn [mbind option_bind].
  rewrite decide_False by tauto. rewrite (proj2 (Z.eqb_neq _ 0)), Z.mod_small by lia.
  heap_write. heap_write. heap_write. heap_read. rewrite Hn. cbn [mbind option_bind].
  assert (Hins : ∀ m', (∀ x, m' !! x = inserted tree (children e) c [] x <$> nodes s !! x) →
    represents [] m' (insert_child F tree (children e) c [])).
  { eapply insert_represents; eauto; [by rewrite app_nil_r|set_solver]. }
  rewrite S1. destruct (last (children e)) as [b|] eqn:Elast.
  - apply last_Some in Elast as [k Hk]. rewrite Hk in *.
    assert (Hb : child_of F tree b) by (exists e; split; [done|rewrite Hk, elem_of_app; right; by left]).
    assert (b ≠ c) by (intros ->; by apply (Hno tree)).
    assert (b ≠ tree) by (intros ->; by apply (child_irrefl _ _ _ Hr tree)).
    destruct (r_child _ _ _ Hr _ _ Hb) as [[nb Hnb] _].
    rewrite decide_False by (by destruct k). rewrite S2. cbn [mbind option_bind].
    heap_write. heap_write. (eexists; split; [reflexivity|]; split; [reflexivity|]); apply Hins. clear Hins.
    assert (head ((k ++ [b]) ++ [c]) = head (k ++ [b])) by (by destruct k). heap_compare.
  - apply last_None in Elast. rewrite Elast in *. rewrite decide_True by done.
    heap_write. heap_write. (eexists; split; [reflexivity|]; split; [reflexivity|]); apply Hins. heap_compare.
Qed.
End insert.

Lemma CFTreeInsertSibling_ok s F (Hr : represents [] (nodes s) F) t c p e l1 l2 :
  F !! p = Some e → children e = l1 ++ t :: l2 → is_root F c → ¬ below F c p → has_room F c →
  ∃ s', CFTreeInsertSibling t c s = Some s' ∧ calls s' = calls s ∧
    represents [] (nodes s') (insert_child F p (l1 ++ [t]) c l2).
Proof.
  intros He Hl [[ec Hec] Hno] Hcyc Hroom. pose proof (not_below_ne F c p Hcyc) as Hne.
  assert (Htp : child_of F p t) by (exists e; split; [done|rewrite Hl, elem_of_app; right; by left]).
  assert (Hct : c ≠ t) by (intros ->; by apply (Hno p)).
  assert (Hpt : t ≠ p) by (intros ->; by apply (child_irrefl _ _ _ Hr p)).
  destruct (r_node _ _ _ Hr p e He) as (n & Hn & S1 & S2 & S3 & S4).
  destruct (r_node _ _ _ Hr c ec Hec) as (nc & Hnc & C1 & C2 & C3 & C4).
  destruct (r_child _ _ _ Hr p t Htp) as [[nt Hnt] _].
  destruct (r_next _ _ _ Hr p e l1 t l2 nt He Hl Hnt) as [Tp Ts].
  destruct (root_parent _ _ _ c nc Hr Hnc ltac:(set_solver) Hno) as [Hpar Hsib].
  pose proof (r_count _ _ _ Hr c ec Hec) as Hcount. pose proof (Hroom ec Hec).
  assert (Hins : ∀ m', (∀ x, m' !! x = inserted p (l1 ++ [t]) c l2 x <$> nodes s !! x) →
    represents [] m' (insert_child F p (l1 ++ [t]) c l2)).
  { eapply insert_represents; eauto; [by rewrite <- app_assoc|set_solver]. }
  assert (Hd : t ∉ l2).
  { pose proof (r_nodup _ _ _ Hr p e He) as Hd. rewrite Hl in Hd. apply NoDup_app in Hd as (_ & _ & Hd).
    by apply list.NoDup_cons in Hd as [Hd _]. }
  assert (Hhead : head ((l1 ++ [t]) ++ c :: l2) = head (children e)) by (rewrite Hl; by destruct l1).
  assert (Hlast : ∀ y, last ((l1 ++ [t]) ++ y :: l2) = Some (default y (last l2))).
  { intros y. rewrite last_app, last_cons. by destruct (last l2). }
  assert (HlastE : last (children e) = Some (default t (last l2))).
  { rewrite Hl, last_app, last_cons. by destruct (last l2). }
  unfold CFTreeInsertSibling, CFRetain. rewrite Hnc. cbn [mbind option_bind].
  rewrite (proj2 (Z.eqb_neq _ 0)), Z.mod_small by lia.
  heap_write. heap_read. rewrite Hnt. cbn [mbind option_bind]. rewrite Tp.
  heap_write. heap_read. rewrite Hnt. cbn [mbind option_bind]. heap_write. heap_write. heap_read.
  cbn [mbind option_bind]. change (Tree._parent (set_sibling (Some c) nt)) with (Tree._parent nt). rewrite Tp.
  heap_read. rewrite Hn. cbn [mbind option_bind]. rewrite S2, HlastE.
  destruct (last l2) as [z|] eqn:Ez; cbn [from_option id] in *.
  - assert (z ≠ t).
    { intros ->. apply Hd. apply last_Some in Ez as [k ->]. rewrite elem_of_app. right. by left. }
    rewrite decide_False by congruence. (eexists; split; [reflexivity|]; split; [reflexivity|]); apply Hins. clear Hins.
    specialize (Hlast c). heap_compare.
  - apply last_None in Ez as ->. rewrite decide_True by done. heap_write.
    (eexists; split; [reflexivity|]; split; [reflexivity|]); apply Hins. clear Hins. specialize (Hlast c). heap_compare.
Qed.
