(* ===== verification/TreeRelease.v ===== *)
(** * The last reference to a tree

    What [CFRelease] does to a forest when it drops a reference to a root: the
    root is freed when the reference was the last, then its children lose the
    reference their parent held, and so on; a node somebody else holds stays,
    and becomes a root. *)
From S2P Require Import Prelude Tree TreeSpec TreeOps.
From Stdlib Require Import Permutation.
From stdpp Require Import gmap list.
Open Scope Z_scope.

Implicit Types (F G : forest) (L D K P : list Z) (s : heap).

(** Dropping a reference to [t] frees [x]. *)
Inductive freed F : Z → Z → Prop :=
  | freed_self t e : F !! t = Some e → count e = 1 → freed F t t
  | freed_child t e c x : F !! t = Some e → count e = 1 → c ∈ children e → freed F c x → freed F t x.

(** Dropping a reference to [t] drops one to [x], which stays. *)
Inductive dropped F : Z → Z → Prop :=
  | dropped_self t e : F !! t = Some e → 1 < count e → dropped F t t
  | dropped_child t e c x : F !! t = Some e → count e = 1 → c ∈ children e → dropped F c x → dropped F t x.

(** The forest when [D] is freed and [K] has lost a reference each. *)
Definition after F D K F' : Prop :=
  ∀ x, F' !! x = if decide (x ∈ D) then None
                 else (if decide (x ∈ K) then λ e, set_count (count e - 1) e else id) <$> F !! x.

Lemma freed_below F t x : freed F t x → below F t x.
Proof. induction 1 as [|t e c x He _ Hc _ IH]; [done|]. eapply rtc_l; [by exists e|done]. Qed.
Lemma dropped_below F t x : dropped F t x → below F t x.
Proof. induction 1 as [|t e c x He _ Hc _ IH]; [done|]. eapply rtc_l; [by exists e|done]. Qed.

Section agree.
Context F G (c : Z) (Hag : ∀ y, below F c y → G !! y = F !! y).

Lemma freed_agree x : freed G c x ↔ freed F c x.
Proof.
  split; intros Hf.
  - induction Hf as [t e He H1|t e c x He H1 Hc _ IH].
    + eapply freed_self; [|exact H1]. by rewrite <- Hag.
    + rewrite Hag in He by done. eapply freed_child; [done..|]. apply IH. intros y Hy. apply Hag.
      eapply rtc_l; [by exists e|done].
  - induction Hf as [t e He H1|t e c x He H1 Hc _ IH].
    + eapply freed_self; [|exact H1]. by rewrite Hag.
    + eapply freed_child; [by rewrite Hag|done..|]. apply IH. intros y Hy. apply Hag.
      eapply rtc_l; [by exists e|done].
Qed.
Lemma dropped_agree x : dropped G c x ↔ dropped F c x.
Proof.
  split; intros Hf.
  - induction Hf as [t e He H1|t e c x He H1 Hc _ IH].
    + eapply dropped_self; [|exact H1]. by rewrite <- Hag.
    + rewrite Hag in He by done. eapply dropped_child; [done..|]. apply IH. intros y Hy. apply Hag.
      eapply rtc_l; [by exists e|done].
  - induction Hf as [t e He H1|t e c x He H1 Hc _ IH].
    + eapply dropped_self; [|exact H1]. by rewrite Hag.
    + eapply dropped_child; [by rewrite Hag|done..|]. apply IH. intros y Hy. apply Hag.
      eapply rtc_l; [by exists e|done].
Qed.
End agree.

(** Two nodes without parents have nothing below them in common. *)
Lemma roots_apart L m F r r' x :
  represents L m F → (∀ p, ¬ child_of F p r) → (∀ p, ¬ child_of F p r') → below F r x → below F r' x → r = r'.
Proof.
  intros Hr H1 H2 Hb. revert x Hb. refine (rtc_ind_r _ _ _ _).
  - intros Hb. apply rtc_inv_r in Hb as [->|(p & _ & Hp)]; [done|by destruct (H1 p)].
  - intros y x Hy Hyx IH Hb. apply rtc_inv_r in Hb as [<-|(p & Hp & Hpx)]; [by destruct (H2 y)|].
    apply IH. by rewrite (r_unique _ _ _ Hr y p x).
Qed.

(** The rank falls below a node. *)
Lemma below_rank F (rank : Z → nat) t x :
  (∀ p c, child_of F p c → (rank c < rank p)%nat) → below F t x → x = t ∨ (rank x < rank t)%nat.
Proof. intros Hrank. induction 1 as [|t c x Hc _ [->|IH]]; [by left|right; by apply Hrank|right]. specialize (Hrank t c Hc). lia. Qed.

Section release.
Context `{Cl : Client}.

(** The callbacks in force for a context. *)
Definition content_callbacks (c : Z * option callbacks * Z) : option callbacks :=
  let '(_, cb, bits) := c in
  if bits =? __kCFTreeHasNullCallBacks then Some __kCFNullTreeCallBacks
  else if bits =? __kCFTreeHasCFTypeCallBacks then Some __kCFTypeTreeCallBacks else cb.

Lemma get_callbacks n e : same n e → __CFTreeGetCallBacks n = content_callbacks (content e).
Proof. intros (_ & _ & <- & _). done. Qed.
Lemma content_callbacks_ok c : content_ok c → is_Some (content_callbacks c).
Proof.
  destruct c as [[i cb] bits]. unfold content_ok, content_callbacks. intros [->|[->|Hcb]]; [by eexists..|].
  destruct (bits =? _); [by eexists|]. by destruct (bits =? _); [eexists|].
Qed.

(** The release callback of a node. *)
Definition release_call F (x : Z) : list call :=
  match F !! x with
  | Some e => match content_callbacks (content e) with
              | Some cb => match release cb with Some fn => [Called fn (content e).1.1] | None => [] end
              | None => []
              end
  | None => []
  end.

(** The effect of a call that drops the references that [fz] and [dr] describe. *)
Definition drops (fz dr : Z → Prop) L s F s' F' : Prop :=
  ∃ D K, NoDup D ∧ (∀ x, x ∈ D ↔ fz x) ∧ (∀ x, x ∈ K ↔ dr x) ∧ after F D K F' ∧
    represents L (nodes s') F' ∧ (∀ x, x ∈ L → nodes s' !! x = nodes s !! x) ∧
    calls s' = (D ≫= release_call F) ++ calls s.

Lemma after_refl F : after F [] [] F.
Proof. intros x. rewrite !decide_False by apply not_elem_of_nil. by rewrite option_fmap_id. Qed.

Lemma after_trans F D1 K1 F1 D2 K2 F2 :
  after F D1 K1 F1 → after F1 D2 K2 F2 → (∀ x, x ∈ K1 → x ∉ K2) → after F (D2 ++ D1) (K2 ++ K1) F2.
Proof.
  intros H1 H2 Hdis x. rewrite H2, H1. specialize (Hdis x).
  destruct (decide (x ∈ D2)), (decide (x ∈ D1)), (decide (x ∈ K2)), (decide (x ∈ K1));
    rewrite ?(decide_True (P := x ∈ D2 ++ D1)), ?(decide_False (P := x ∈ D2 ++ D1)) by (rewrite elem_of_app; tauto);
    rewrite ?(decide_True (P := x ∈ K2 ++ K1)), ?(decide_False (P := x ∈ K2 ++ K1)) by (rewrite elem_of_app; tauto);
    try done; try tauto; by rewrite ?option_fmap_id.
Qed.

Lemma after_child F D K F' p c : after F D K F' → child_of F' p c → child_of F p c.
Proof.
  intros Ha (e & He & Hc). rewrite Ha in He. case_decide; [done|]. destruct (F !! p) as [e0|] eqn:E0; [|done].
  exists e0. split; [done|]. case_decide; injection He as <-; done.
Qed.

Lemma after_same F D K F' x : after F D K F' → x ∉ D → x ∉ K → F' !! x = F !! x.
Proof. intros Ha HD HK. rewrite Ha, !decide_False by done. by rewrite option_fmap_id. Qed.

(** ** The induction on the height of the node *)

Definition decreasing (rank : Z → nat) F : Prop := ∀ p c, child_of F p c → (rank c < rank p)%nat.

(** Releasing a node of rank below [k] drops what it should. *)
Definition releases (rank : Z → nat) (k : nat) : Prop :=
  ∀ L s F t, represents L (nodes s) F → decreasing rank F → (rank t < k)%nat →
    is_Some (F !! t) → t ∉ L → (∀ p, ¬ child_of F p t) →
    ∃ s' F' fuel0, (∀ fuel, (fuel0 ≤ fuel)%nat → CFRelease fuel t s = Some s') ∧
      drops (freed F t) (dropped F t) L s F s' F'.

(** The links of nodes in limbo, from the first on. *)
Definition chained (m : gmap Z __CFTree) P : Prop :=
  ∀ k1 c k2, P = k1 ++ c :: k2 → ∃ n, m !! c = Some n ∧ _sibling n = head k2.

Lemma chained_tail m c P : chained m (c :: P) → chained m P.
Proof. intros Hc k1 x k2 ->. by apply (Hc (c :: k1)). Qed.
Lemma chained_same m m' P : chained m P → (∀ x, x ∈ P → m' !! x = m !! x) → chained m' P.
Proof.
  intros Hc Hs k1 x k2 ->. destruct (Hc k1 x k2 eq_refl) as (n & Hn & ?). exists n. split; [|done].
  rewrite Hs; [done|]. rewrite elem_of_app. right. by left.
Qed.

Lemma drops_refl (fz dr : Z → Prop) L s F :
  represents L (nodes s) F → (∀ x, ¬ fz x) → (∀ x, ¬ dr x) → drops fz dr L s F s F.
Proof.
  intros Hr Hf Hd. exists [], []. split; [constructor|]. split; [|split; [|split; [apply after_refl|done]]].
  - intros x. specialize (Hf x). split; [by intros ?%not_elem_of_nil|done].
  - intros x. specialize (Hd x). split; [by intros ?%not_elem_of_nil|done].
Qed.

Lemma remove_loop_ok rank k L P s F :
  releases rank k → represents (P ++ L) (nodes s) F → decreasing rank F → NoDup P →
  (∀ x, x ∈ P → (rank x < k)%nat ∧ x ∉ L) → chained (nodes s) P →
  ∃ s' F' fuel0, (∀ f1 f2, (fuel0 ≤ f1)%nat → (fuel0 ≤ f2)%nat → remove_loop (CFRelease f1) f2 (head P) s = Some s') ∧
    drops (λ x, ∃ c, c ∈ P ∧ freed F c x) (λ x, ∃ c, c ∈ P ∧ dropped F c x) L s F s' F'.
Proof.
  intros Hrel. revert s F. induction P as [|c P IH]; intros s F Hr Hdec Hd HP Hch.
  { exists s, F, 0%nat. split; [by intros ? [|]|]. apply drops_refl; [done|..];
      intros x (? & ?%not_elem_of_nil & _); done. }
  apply list.NoDup_cons in Hd as [HcP Hd]. destruct (HP c ltac:(left)) as [Hck HcL].
  destruct (Hch [] c P eq_refl) as (n & Hn & Hsib).
  (* unlink the first *)
  set (m1 := <[c := set_sibling None (set_parent None n)]> (nodes s)).
  set (s1 := {| nodes := m1; calls := calls s |}).
  assert (Hr1 : represents (P ++ L) (nodes s1) F).
  { eapply adopt_represents; [exact Hr|exact Hn|by left|]. intros y. cbn. rewrite elem_of_cons, elem_of_app.
    split; [|intros [[?|?] ?]; tauto]. intros Hy. split; [tauto|]. intros ->. tauto. }
  assert (Hroots : ∀ x, x ∈ c :: P → ∀ p, ¬ child_of F p x).
  { intros x Hx p Hp. destruct (r_child _ _ _ Hr p x Hp) as [_ Hn']. apply Hn'. rewrite elem_of_app. by left. }
  destruct (Hrel (P ++ L) s1 F c Hr1 Hdec Hck) as (s2 & F2 & f0 & E2 & D1 & K1 & Hd1 & HD1 & HK1 & Ha1 & Hr2 & Hs2 & Hc2).
  { destruct (r_entry _ _ _ Hr c n Hn) as (e & He & _). by eexists. }
  { rewrite elem_of_app. tauto. }
  { apply Hroots. by left. }
  assert (Hsame2 : ∀ x, x ∈ P ++ L → nodes s2 !! x = nodes s !! x).
  { intros x Hx. rewrite Hs2 by done. cbn. unfold m1. rewrite lookup_insert_ne; [done|]. intros <-.
    rewrite elem_of_app in Hx. tauto. }
  (* the others are as they were *)
  assert (Hag : ∀ c' x, c' ∈ P → below F c' x → x ∉ D1 ∧ x ∉ K1 ∧ F2 !! x = F !! x).
  { intros c' x Hc' Hb. assert (Hne : ¬ below F c x).
    { intros Hb'. assert (c = c') as ->; [|done]. eapply roots_apart; [exact Hr|apply Hroots; by left| |done|done].
      apply Hroots. by right. }
    assert (HxD : x ∉ D1) by (rewrite HD1; intros Hf; by apply Hne, freed_below).
    assert (HxK : x ∉ K1) by (rewrite HK1; intros Hf; by apply Hne, dropped_below).
    split_and!; [done..|]. by eapply after_same. }
  destruct (IH s2 F2 Hr2) as (s' & F' & f1 & E' & D2 & K2 & Hd2 & HD2 & HK2 & Ha2 & Hr' & Hs' & Hc').
  { intros p x Hp. by apply Hdec, (after_child F D1 K1 F2). }
  { done. }
  { intros x Hx. apply HP. by right. }
  { eapply chained_same; [by eapply chained_tail|]. intros x Hx. apply Hsame2. rewrite elem_of_app. by left. }
  assert (Hf2 : ∀ c' x, c' ∈ P → freed F2 c' x ↔ freed F c' x).
  { intros c' x Hc''. apply freed_agree. intros y Hy. by apply (Hag c'). }
  assert (Hk2 : ∀ c' x, c' ∈ P → dropped F2 c' x ↔ dropped F c' x).
  { intros c' x Hc''. apply dropped_agree. intros y Hy. by apply (Hag c'). }
  exists s', F', (S (f0 + f1))%nat. split.
  { intros g1 [|g2] Hg1 Hg2; [lia|]. cbn [remove_loop head]. rewrite Hn. cbn [mbind option_bind].
    rewrite (modify_ok c _ s n Hn). cbn [mbind option_bind]. erewrite modify_ok by (cbn; by rewrite lookup_insert_eq).
    cbn [mbind option_bind nodes calls]. rewrite insert_insert_eq. fold m1 s1. rewrite E2 by lia. cbn [mbind option_bind].
    rewrite Hsib. apply E'; lia. }
  assert (Hsplit : ∀ (Q : Z → Z → Prop) x, (∃ c', c' ∈ c :: P ∧ Q c' x) ↔ (∃ c', c' ∈ P ∧ Q c' x) ∨ Q c x).
  { intros Q x. setoid_rewrite elem_of_cons. split; [intros (c' & [->|?] & ?); eauto|intros [(c' & ? & ?)|?]; eauto]. }
  assert (HD2' : ∀ x, x ∈ D2 ↔ ∃ c', c' ∈ P ∧ freed F c' x).
  { intros x. rewrite HD2. split; intros (c' & Hin & Hf); exists c'; (split; [done|]); by apply Hf2. }
  assert (HK2' : ∀ x, x ∈ K2 ↔ ∃ c', c' ∈ P ∧ dropped F c' x).
  { intros x. rewrite HK2. split; intros (c' & Hin & Hf); exists c'; (split; [done|]); by apply Hk2. }
  exists (D2 ++ D1), (K2 ++ K1). split_and!.
  - apply NoDup_app. split_and!; [done| |done]. intros x (c' & Hin & Hf)%HD2'. by apply (Hag c' x Hin), freed_below.
  - intros x. by rewrite elem_of_app, Hsplit, HD2', HD1.
  - intros x. by rewrite elem_of_app, Hsplit, HK2', HK1.
  - eapply after_trans; [done..|]. intros x Hx (c' & Hin & Hf)%HK2'. by destruct (Hag c' x Hin (dropped_below _ _ _ Hf)) as (_ & ? & _).
  - done.
  - intros x Hx. rewrite Hs' by done. apply Hsame2. rewrite elem_of_app. by right.
  - rewrite Hc', Hc2, bind_app, app_assoc. cbn [calls s1]. f_equal. f_equal.
    apply Forall_bind_ext, list.Forall_forall. intros x (c' & Hin & Hf)%HD2'. unfold release_call.
    by destruct (Hag c' x Hin (freed_below _ _ _ Hf)) as (_ & _ & ->).
Qed.

(** A reference that is not the last. *)
Lemma release_shared L s F t e :
  represents L (nodes s) F → F !! t = Some e → 1 < count e →
  ∃ s' F', (∀ fuel, (1 ≤ fuel)%nat → CFRelease fuel t s = Some s') ∧
    (t ∉ L → drops (freed F t) (dropped F t) L s F s' F').
Proof.
  intros Hr He Hc. destruct (r_node _ _ _ Hr t e He) as (n & Hn & S1 & S2 & S3 & S4).
  exists {| nodes := <[t := set_retain_count (count e - 1) n]> (nodes s); calls := calls s |},
    (alter (set_count (count e - 1)) t F). split.
  - intros [|fuel] Hf; [lia|]. cbn [CFRelease]. rewrite Hn. cbn [mbind option_bind].
    rewrite !(proj2 (Z.eqb_neq _ _)) by lia. by rewrite (modify_ok t _ s n Hn), S4.
  - intros HtL. exists [], [t]. split; [constructor|]. split; [|split; [|split; [|split; [|split]]]].
    + intros x. split; [by intros ?%not_elem_of_nil|]. inversion 1; simplify_eq; lia.
    + intros x. rewrite list_elem_of_singleton. split; [intros ->; by eapply dropped_self|].
      inversion 1; simplify_eq; [done|lia].
    + intros x. rewrite lookup_alter, (decide_False (P := x ∈ [])) by apply not_elem_of_nil.
      case_decide as E1; case_decide as E2; subst; rewrite ?list_elem_of_singleton in *; try congruence.
      * rewrite He. done.
      * by rewrite option_fmap_id.
    + cbn. apply recount_represents; [done|done|lia].
    + intros x Hx. cbn. rewrite lookup_insert_ne; [done|]. by intros ->.
    + done.
Qed.

(** Unlinking all the children of a node: they are in limbo. *)
Lemma unlink_children L s F t e n :
  represents L (nodes s) F → F !! t = Some e → nodes s !! t = Some n →
  represents (children e ++ L) (<[t := set_rightmostChild None (set_child None n)]> (nodes s))
    (alter (set_children []) t F) ∧
  chained (<[t := set_rightmostChild None (set_child None n)]> (nodes s)) (children e) ∧ _child n = head (children e).
Proof.
  intros Hr He Hn. destruct (r_node _ _ _ Hr t e He) as (n' & Hn' & S1 & S2 & S3 & S4). assert (n' = n) as -> by congruence.
  assert (Ht : t ∉ children e) by (intros Ht; apply (child_irrefl _ _ _ Hr t); by exists e).
  split; [|split; [|done]].
  - eapply (rechild_represents L (children e ++ L)); [done|done|constructor|by intros x ?%not_elem_of_nil|..].
    + intros x. rewrite lookup_insert. destruct (decide (t = x)) as [<-|Hne].
      * rewrite Hn. constructor. by rewrite decide_True.
      * destruct (nodes s !! x); constructor. by rewrite decide_False by done.
    + intros k1 x k2 n' Hk. by destruct k1.
    + intros x n' Hx _ Hnot. rewrite elem_of_app in Hnot. tauto.
    + intros x m m' Hx Hm. rewrite lookup_insert. case_decide; [subst x; intros [= <-]|intros Hm']; by simplify_eq.
    + intros x [Hx|Hx]%elem_of_app; [right; split; [done|apply not_elem_of_nil]|by left].
    + intros x Hx. rewrite elem_of_app. by right.
  - intros k1 c k2 Hk. assert (Hc : child_of F t c) by (exists e; split; [done|rewrite Hk, elem_of_app; right; by left]).
    destruct (r_child _ _ _ Hr t c Hc) as [[nc Hnc] _]. exists nc.
    rewrite lookup_insert_ne by (intros ->; apply Ht; rewrite Hk, elem_of_app; right; by left).
    split; [done|]. by eapply r_next.
Qed.

Lemma below_child_agree rank F t e c y :
  decreasing rank F → F !! t = Some e → c ∈ children e → below F c y → alter (set_children []) t F !! y = F !! y.
Proof.
  intros Hdec He Hc Hb. rewrite lookup_alter_ne; [done|]. intros ->.
  pose proof (Hdec y c ltac:(by exists e)). destruct (below_rank F rank c y Hdec Hb) as [->|]; lia.
Qed.

(** All the children of [t] released, [t] keeping its place. *)
Lemma remove_all_ok rank k L s F t e :
  releases rank k → represents L (nodes s) F → decreasing rank F → F !! t = Some e → t ∉ L → (rank t ≤ k)%nat →
  ∃ s' F' fuel0, (∀ f1 f2, (fuel0 ≤ f1)%nat → (fuel0 ≤ f2)%nat → remove_all (CFRelease f1) f2 t s = Some s') ∧
    drops (λ x, ∃ c, c ∈ children e ∧ freed F c x) (λ x, ∃ c, c ∈ children e ∧ dropped F c x) L s
      (alter (set_children []) t F) s' F'.
Proof.
  intros Hrel Hr Hdec He HtL Hk. destruct (r_node _ _ _ Hr t e He) as (n & Hn & S1 & S2 & S3 & S4).
  destruct (unlink_children L s F t e n Hr He Hn) as (Hr1 & Hch & Hfirst).
  set (s1 := {| nodes := <[t := set_rightmostChild None (set_child None n)]> (nodes s); calls := calls s |}) in *.
  destruct (remove_loop_ok rank k L (children e) s1 (alter (set_children []) t F) Hrel Hr1)
    as (s' & F' & f0 & E & D & K & Hd & HD & HK & Ha & Hr' & Hs' & Hc').
  { intros p c (e0 & E0 & Hc). rewrite lookup_alter in E0. case_decide; [|by apply Hdec; exists e0].
    subst p. rewrite He in E0. injection E0 as <-. by apply not_elem_of_nil in Hc. }
  { exact (r_nodup _ _ _ Hr t e He). }
  { intros x Hx. assert (Hc : child_of F t x) by (by exists e). split; [specialize (Hdec t x Hc); lia|].
    by destruct (r_child _ _ _ Hr t x Hc). }
  { exact Hch. }
  exists s', F', f0. split.
  { intros f1 f2 H1 H2. unfold remove_all. rewrite Hn. cbn [mbind option_bind]. rewrite (modify_ok t _ s n Hn).
    cbn [mbind option_bind]. erewrite modify_ok by (cbn; by rewrite lookup_insert_eq). cbn [mbind option_bind nodes calls].
    rewrite insert_insert_eq. fold s1. rewrite Hfirst. by apply E. }
  exists D, K. split; [done|]. split; [|split; [|split; [done|split; [done|split]]]].
  - intros x. rewrite HD. split; intros (c & Hc & Hf); exists c; (split; [done|]);
      by apply (freed_agree F (alter (set_children []) t F) c (λ y, below_child_agree rank F t e c y Hdec He Hc)).
  - intros x. rewrite HK. split; intros (c & Hc & Hf); exists c; (split; [done|]);
      by apply (dropped_agree F (alter (set_children []) t F) c (λ y, below_child_agree rank F t e c y Hdec He Hc)).
  - intros x Hx. rewrite Hs' by done. cbn. rewrite lookup_insert_ne; [done|]. by intros ->.
  - done.
Qed.

(** The last reference to a root. *)
Lemma last_release_frees rank k L s F t e :
  releases rank k → represents L (nodes s) F → decreasing rank F → F !! t = Some e → count e = 1 → t ∉ L →
  (∀ p, ¬ child_of F p t) → (rank t ≤ k)%nat →
  ∃ s' F' fuel0, (∀ fuel, (fuel0 ≤ fuel)%nat → CFRelease fuel t s = Some s') ∧
    drops (freed F t) (dropped F t) L s F s' F'.
Proof.
  intros Hrel Hr Hdec He H1 HtL Hroot Hk.
  destruct (remove_all_ok rank k L s F t e Hrel Hr Hdec He HtL Hk)
    as (s2 & F2 & f0 & E & D & K & Hd & HD & HK & Ha & Hr2 & Hs2 & Hc2).
  assert (Hnb : ∀ c, c ∈ children e → ¬ below F c t).
  { intros c Hc Hb. pose proof (Hdec t c ltac:(by exists e)). destruct (below_rank F rank c t Hdec Hb) as [->|]; lia. }
  assert (HtD : t ∉ D) by (rewrite HD; intros (c & Hc & Hf); by apply (Hnb c Hc), freed_below).
  assert (HtK : t ∉ K) by (rewrite HK; intros (c & Hc & Hf); by apply (Hnb c Hc), dropped_below).
  assert (He2 : F2 !! t = Some (set_children [] e)).
  { by rewrite (after_same _ _ _ _ t Ha), lookup_alter_eq, He. }
  destruct (r_node _ _ _ Hr2 t _ He2) as (n2 & Hn2 & Hsame). pose proof Hsame as (_ & _ & Hcont & Hcnt).
  destruct (content_callbacks_ok _ (r_content _ _ _ Hr2 t _ He2)) as [cb Hcb].
  set (cl := match release cb with Some fn => [Called fn (_info n2)] | None => [] end).
  set (s' := {| nodes := delete t (nodes s2); calls := cl ++ calls s2 |}).
  exists s', (delete t F2), (S f0). split.
  { intros [|fuel] Hf; [lia|]. cbn [CFRelease]. destruct (r_node _ _ _ Hr t e He) as (n & Hn & _ & _ & _ & Hcn).
    rewrite Hn. cbn [mbind option_bind]. rewrite Hcn, H1. cbn [Z.eqb Pos.eqb]. unfold deallocate. rewrite E by lia.
    cbn [mbind option_bind]. rewrite Hn2. cbn [mbind option_bind]. rewrite (get_callbacks n2 _ Hsame), Hcb.
    cbn [mbind option_bind]. unfold s', cl.
    destruct (release cb) as [fn|]; cbn [mbind option_bind log nodes]; rewrite Hn2; cbn [mbind option_bind];
      rewrite Hcnt; cbn [count set_children]; by rewrite H1. }
  assert (Hroot2 : ∀ p, ¬ child_of F2 p t).
  { intros p Hp%(after_child _ _ _ _ _ _ Ha). destruct Hp as (e0 & E0 & Hc). rewrite lookup_alter in E0.
    case_decide; [|by apply (Hroot p); exists e0]. subst p. rewrite He in E0. injection E0 as <-.
    by apply not_elem_of_nil in Hc. }
  exists (t :: D), K. split; [by apply list.NoDup_cons|]. split; [|split; [|split; [|split; [|split]]]].
  - intros x. rewrite elem_of_cons, HD. split.
    + intros [->|(c & Hc & Hf)]; [by eapply freed_self|by eapply freed_child].
    + inversion 1; simplify_eq; eauto.
  - intros x. rewrite HK. split; [intros (c & Hc & Hf); by eapply dropped_child|].
    inversion 1; simplify_eq; [lia|eauto].
  - intros x. rewrite lookup_delete. destruct (decide (t = x)) as [<-|Hne].
    { by rewrite decide_True by left. }
    rewrite Ha, lookup_alter_ne by done. assert (x ∈ t :: D ↔ x ∈ D) as Hiff by (rewrite elem_of_cons; split; [by intros [->|?]|by right]).
    destruct (decide (x ∈ D)); [rewrite (decide_True (P := x ∈ t :: D)) by tauto|rewrite (decide_False (P := x ∈ t :: D)) by tauto]; done.
  - destruct (root_parent _ _ _ t n2 Hr2 Hn2 HtL Hroot2) as [Hp _]. by eapply (free_represents L _ F2 t).
  - intros x Hx. cbn. rewrite lookup_delete_ne by (by intros ->). by apply Hs2.
  - cbn [calls s']. rewrite bind_cons, Hc2. rewrite app_assoc. f_equal. f_equal.
    + unfold release_call, cl. rewrite He. change (content e) with (content (set_children [] e)). rewrite Hcb, <- Hcont. done.
    + apply Forall_bind_ext, list.Forall_forall. intros x Hx. unfold release_call. rewrite lookup_alter_ne; [done|]. by intros ->.
Qed.

Lemma releases_all rank k : releases rank k.
Proof.
  induction k as [|k IH]; intros L s F t Hr Hdec Hk [e He] HtL Hroot; [lia|].
  pose proof (r_count _ _ _ Hr t e He). destruct (decide (count e = 1)) as [H1|H1].
  - eapply last_release_frees; eauto. lia.
  - destruct (release_shared L s F t e Hr He ltac:(lia)) as (s' & F' & E & Hd). exists s', F', 1%nat. auto.
Qed.

(** Dropping a reference of the client's: the node is a root, or its parent
    holds another. *)
Lemma CFRelease_ok s F t e :
  represents [] (nodes s) F → F !! t = Some e → 1 < count e ∨ (∀ p, ¬ child_of F p t) →
  ∃ s' F' fuel0, (∀ fuel, (fuel0 ≤ fuel)%nat → CFRelease fuel t s = Some s') ∧
    drops (freed F t) (dropped F t) [] s F s' F'.
Proof.
  intros Hr He Hown. destruct (r_acyclic _ _ _ Hr) as (rank & top & Hrank & _).
  destruct Hown as [Hc|Hroot].
  - destruct (release_shared [] s F t e Hr He Hc) as (s' & F' & E & Hd). exists s', F', 1%nat.
    split; [exact E|]. apply Hd, not_elem_of_nil.
  - apply (releases_all rank (S (rank t)) [] s F t); [done|done|lia|by eexists|apply not_elem_of_nil|done].
Qed.
End release.
