(* ===== verification/TreeUse.v ===== *)
(** * The functions of CFTree.c on a forest

    Reading, removing and sorting children, contexts, and the properties of the
    whole component. *)
From S2P Require Import Prelude Sort SortBlocks SortArray Tree TreeSpec TreeOps TreeRelease.
From Stdlib Require Import Permutation Sorted.
From stdpp Require Import gmap list sorting.
Open Scope Z_scope.

Implicit Types (F G : forest) (L D K P : list Z) (s : heap).

(** ** Walks along the children *)

Lemma children_chained L s F t e : represents L (nodes s) F → F !! t = Some e → chained (nodes s) (children e).
Proof.
  intros Hr He k1 c k2 Hk. assert (Hc : child_of F t c) by (exists e; split; [done|rewrite Hk, elem_of_app; right; by left]).
  destruct (r_child _ _ _ Hr t c Hc) as [[nc Hnc] _]. exists nc. split; [done|]. by eapply r_next.
Qed.

Lemma chained_head m c P : chained m (c :: P) → ∃ n, m !! c = Some n ∧ _sibling n = head P.
Proof. intros Hc. by apply (Hc []). Qed.

Section walks.
Context `{Cl : Client}.

Lemma sint_next n x : 0 < n → sint n (sint n x + 1) = sint n (x + 1).
Proof.
  intros Hn. unfold sint.
  replace ((x + 2 ^ (n - 1)) mod 2 ^ n - 2 ^ (n - 1) + 1 + 2 ^ (n - 1)) with ((x + 2 ^ (n - 1)) mod 2 ^ n + 1) by lia.
  rewrite Zplus_mod_idemp_l. do 2 f_equal. lia.
Qed.

Lemma count_loop_ok fuel P s x :
  chained (nodes s) P → (length P ≤ fuel)%nat → count_loop fuel (head P) (sint 32 x) s = Some (sint 32 (x + zlen P)).
Proof.
  revert fuel x. induction P as [|c P IH]; intros fuel x Hch Hf.
  { rewrite Z.add_0_r. by destruct fuel. }
  destruct fuel as [|fuel]; [cbn in Hf; lia|]. destruct (chained_head _ _ _ Hch) as (n & Hn & Hs).
  cbn [count_loop head]. rewrite Hn. cbn [mbind option_bind]. rewrite Hs, sint_next, IH by first [by eapply chained_tail | cbn in *; lia].
  do 2 f_equal. rewrite zlen_cons. lia.
Qed.

Lemma child_loop_ok fuel P s i : chained (nodes s) P → (length P ≤ fuel)%nat → child_loop fuel (head P) i s = Some (P.[i]).
Proof.
  revert fuel i. induction P as [|c P IH]; intros fuel i Hch Hf.
  { destruct fuel; cbn; unfold zget; case_decide; done. }
  destruct fuel as [|fuel]; [cbn in Hf; lia|]. destruct (chained_head _ _ _ Hch) as (n & Hn & Hs).
  cbn [child_loop head]. destruct (Z.eqb_spec 0 i) as [<-|Hi]; [done|]. rewrite Hn. cbn [mbind option_bind].
  rewrite Hs, IH by first [by eapply chained_tail | cbn in *; lia]. f_equal. change (c :: P) with ([c] ++ P).
  destruct (Z.lt_ge_cases i 0).
  - unfold zget. by rewrite !decide_False by lia.
  - rewrite zget_app_r by (change (zlen [c]) with 1; lia). done.
Qed.

Lemma children_loop_ok fuel P s pre old post i :
  chained (nodes s) P → (length P ≤ fuel)%nat → zlen pre = i → length old = length P →
  children_loop fuel (head P) i (pre ++ old ++ post) s = Some (pre ++ P ++ post).
Proof.
  revert fuel pre old i. induction P as [|c P IH]; intros fuel pre old i Hch Hf Hi Ho.
  { destruct old; [|done]. by destruct fuel. }
  destruct old as [|o old]; [done|]. injection Ho as Ho.
  destruct fuel as [|fuel]; [cbn in Hf; lia|]. destruct (chained_head _ _ _ Hch) as (n & Hn & Hs).
  cbn [children_loop head app]. rewrite zset_at by done. cbn [mbind option_bind]. rewrite Hn. cbn [mbind option_bind].
  rewrite Hs. replace (pre ++ c :: old ++ post) with ((pre ++ [c]) ++ old ++ post) by app_eq.
  rewrite IH; [f_equal; app_eq|by eapply chained_tail|cbn in *; lia| |done].
  rewrite zlen_app. change (zlen [c]) with 1. lia.
Qed.

(** An array that is too short is overrun. *)
Lemma children_loop_short fuel P s b i :
  chained (nodes s) P → 0 ≤ i ≤ zlen b → zlen b < i + zlen P → children_loop fuel (head P) i b s = None.
Proof.
  revert fuel b i. induction P as [|c P IH]; intros fuel b i Hch Hi Hb; [change (zlen (@nil Z)) with 0 in Hb; lia|].
  destruct fuel as [|fuel]; [done|]. destruct (chained_head _ _ _ Hch) as (n & Hn & Hs). rewrite zlen_cons in Hb.
  cbn [children_loop head]. destruct (decide (i < zlen b)).
  - rewrite zset_ok by lia. cbn [mbind option_bind]. rewrite Hn. cbn [mbind option_bind]. rewrite Hs.
    apply IH; [by eapply chained_tail|rewrite zlen_zupd; lia..].
  - unfold zset. by rewrite decide_False by lia.
Qed.

(** An applier that works on the client's state only. *)
Definition on_client {A} (f : Z → A → option A) (t : Z) (sa : heap * A) : option (heap * A) :=
  a ← f t sa.2; Some (sa.1, a).

Lemma apply_loop_ok {A} (f : Z → A → option A) fuel P s a :
  chained (nodes s) P → (length P ≤ fuel)%nat →
  apply_loop (on_client f) fuel (head P) (s, a) = (a ← foldl (λ a c, a ← a; f c a) (Some a) P; Some (s, a)).
Proof.
  revert fuel a. induction P as [|c P IH]; intros fuel a Hch Hf; [by destruct fuel|].
  destruct fuel as [|fuel]; [cbn in Hf; lia|]. destruct (chained_head _ _ _ Hch) as (n & Hn & Hs).
  cbn [apply_loop head foldl]. change (on_client f c (s, a)) with (a' ← f c a; Some (s, a')).
  change (Some a ≫= (λ a0, f c a0)) with (f c a). destruct (f c a) as [a'|]; cbn [mbind option_bind].
  - cbn [fst]. rewrite Hn. cbn [mbind option_bind]. rewrite Hs. apply IH; [by eapply chained_tail|cbn in *; lia].
  - clear. by induction P.
Qed.

(** The parents end at a root. *)
Lemma CFTreeFindRoot_ok s F t :
  represents [] (nodes s) F → is_Some (F !! t) →
  ∃ r fuel0, below F r t ∧ is_root F r ∧ ∀ fuel, (fuel0 ≤ fuel)%nat → CFTreeFindRoot fuel t s = Some r.
Proof.
  intros Hr. destruct (r_acyclic _ _ _ Hr) as (rank & top & Hrank & Htop).
  remember (top - rank t)%nat as d eqn:Hd. revert t Hd. induction (lt_wf d) as [d _ IH]. intros t Hd [e He].
  destruct (r_node _ _ _ Hr t e He) as (n & Hn & _). pose proof (r_placed _ _ _ Hr t n Hn ltac:(apply not_elem_of_nil)) as Hpl.
  destruct (_parent n) as [p|] eqn:Hp.
  - destruct Hpl as [(ep & l1 & l2 & Ep & Hl & _) _].
    assert (Hc : child_of F p t) by (exists ep; split; [done|rewrite Hl, elem_of_app; right; by left]).
    pose proof (Hrank p t Hc). pose proof (Htop p).
    destruct (IH (top - rank p)%nat ltac:(lia) p eq_refl ltac:(by eexists)) as (r & f0 & Hb & Hroot & Hf).
    exists r, (S f0). split; [by eapply rtc_r|]. split; [done|]. intros [|fuel] Hle; [lia|].
    cbn [CFTreeFindRoot]. rewrite Hn. cbn [mbind option_bind]. rewrite Hp. apply Hf. lia.
  - destruct Hpl as [_ Hno]. exists t, 1%nat. split; [done|]. split; [split; [by eexists|done]|].
    intros [|fuel] Hle; [lia|]. cbn [CFTreeFindRoot]. rewrite Hn. cbn [mbind option_bind]. by rewrite Hp.
Qed.
End walks.

(** ** Removing a child *)
Section removal.
Context `{Cl : Client}.

(** The pointers when [t] is taken out between [l1] and [l2]. *)
Definition unlinked (p : Z) l1 (t : Z) l2 (x : Z) (n : __CFTree) : __CFTree :=
  let n := if decide (Some x = last l1) then set_sibling (head l2) n else n in
  let n := if decide (x = t) then set_sibling None (set_parent None n) else n in
  if decide (x = p) then set_rightmostChild (last (l1 ++ l2)) (set_child (head (l1 ++ l2)) n) else n.

(** The next sibling of a child that stays. *)
Lemma unlinked_next L s F p e l1 t l2 k1 x k2 n :
  represents L (nodes s) F → F !! p = Some e → children e = l1 ++ t :: l2 → l1 ++ l2 = k1 ++ x :: k2 →
  nodes s !! x = Some n →
  _parent n = Some p ∧ (if decide (Some x = last l1) then head l2 else _sibling n) = head k2.
Proof.
  intros Hr He Hl Hk Hn. pose proof (r_nodup _ _ _ Hr p e He) as Hd. rewrite Hl in Hd.
  assert (Hout : x ∈ l2 → Some x ≠ last l1).
  { intros Hx2 Hx. symmetry in Hx. apply last_Some in Hx as [k Hk1]. apply NoDup_app in Hd as (_ & Hd & _).
    apply (Hd x); [rewrite Hk1, elem_of_app|]; right; [by left|done]. }
  apply app_eq_inv in Hk as [(k & El1 & Hk)|(k & -> & El2)]; [destruct k as [|y k]; cbn in Hk; [|injection Hk as <- ->]|].
  - destruct (r_next _ _ _ Hr p e (l1 ++ [t]) x k2 n He) as [Hp Hs]; [by rewrite Hl, <- app_assoc, Hk|done|].
    rewrite decide_False; [done|]. apply Hout. rewrite <- Hk. by left.
  - destruct (r_next _ _ _ Hr p e k1 x (k ++ t :: l2) n He) as [Hp Hs]; [by rewrite Hl, El1, <- app_assoc|done|].
    split; [done|]. destruct k as [|z k].
    + rewrite decide_True; [done|]. by rewrite El1, last_snoc.
    + rewrite decide_False; [by rewrite Hs|]. rewrite El1. intros Hx. symmetry in Hx.
      apply NoDup_app in Hd as (Hd & _ & _). rewrite El1 in Hd. apply NoDup_app in Hd as (_ & _ & Hd).
      apply list.NoDup_cons in Hd as [Hd _]. rewrite last_app_cons, last_cons_cons in Hx.
      apply last_Some in Hx as [q Hq]. apply Hd. rewrite Hq, elem_of_app. right. by left.
  - destruct (r_next _ _ _ Hr p e (l1 ++ t :: k) x k2 n He) as [Hp Hs]; [by rewrite Hl, El2, <- app_assoc|done|].
    rewrite decide_False; [done|]. apply Hout. rewrite El2, elem_of_app. right. by left.
Qed.

Lemma unlinked_represents s F p e l1 t l2 m' :
  represents [] (nodes s) F → F !! p = Some e → children e = l1 ++ t :: l2 →
  (∀ x, m' !! x = unlinked p l1 t l2 x <$> nodes s !! x) → represents [] m' (alter (set_children (l1 ++ l2)) p F).
Proof.
  intros Hr He Hl Hm. pose proof (r_nodup _ _ _ Hr p e He) as Hd. rewrite Hl in Hd.
  assert (Htp : child_of F p t) by (exists e; split; [done|rewrite Hl, elem_of_app; right; by left]).
  assert (Hp : ∀ x, x ∈ children e → x ≠ p) by (intros x Hx ->; apply (child_irrefl _ _ _ Hr p); by exists e).
  assert (Hin : ∀ x, x ∈ l1 ++ l2 → x ∈ children e ∧ x ≠ t).
  { intros x Hx. apply NoDup_app in Hd as (_ & Hd1 & Hd2). apply list.NoDup_cons in Hd2 as [Hd2 _].
    rewrite Hl. apply elem_of_app in Hx as [Hx|Hx]; (split; [rewrite elem_of_app, elem_of_cons; tauto|]); intros ->; [|done].
    apply (Hd1 t Hx). by left. }
  assert (Hlast : ∀ x, Some x = last l1 → x ∈ l1).
  { intros x Hx. symmetry in Hx. apply last_Some in Hx as [k ->]. rewrite elem_of_app. right. by left. }
  assert (Hparent : ∀ x n, _parent (unlinked p l1 t l2 x n) = if decide (x = t) then None else _parent n)
    by (intros; unfold unlinked; by repeat case_decide).
  assert (Hsibling : ∀ x n, _sibling (unlinked p l1 t l2 x n) =
      if decide (x = t) then None else if decide (Some x = last l1) then head l2 else _sibling n)
    by (intros; unfold unlinked; by repeat case_decide).
  eapply (rechild_represents [] [] (nodes s)); [done|done| | |..].
  - apply NoDup_app in Hd as (H1 & H2 & H3). apply list.NoDup_cons in H3 as [H3 H4]. apply NoDup_app. split_and!; [done| |done].
    intros x Hx Hx2. apply (H2 x Hx). by right.
  - intros x Hx. by apply Hin.
  - intros x. rewrite Hm. destruct (nodes s !! x) as [n|]; constructor. unfold unlinked. by repeat case_decide.
  - intros k1 x k2 n' Hk. rewrite Hm. destruct (nodes s !! x) as [n|] eqn:Hn; [|done]. intros [= <-].
    destruct (Hin x) as [Hxc Hxt]; [rewrite Hk, elem_of_app; right; by left|].
    rewrite Hparent, Hsibling, !(decide_False (P := x = t)) by done. by eapply unlinked_next.
  - intros x n' Hx Hout _. rewrite Hm. destruct (nodes s !! x) as [n|]; [|done]. intros [= <-].
    assert (x = t) as ->.
    { rewrite Hl, elem_of_app, elem_of_cons in Hx. rewrite elem_of_app in Hout. tauto. }
    by rewrite Hparent, Hsibling, !decide_True.
  - intros x n n' Hx Hn. rewrite Hm, Hn. intros [= <-]. rewrite Hparent, Hsibling.
    rewrite !(decide_False (P := x = t)) by (intros ->; apply Hx; rewrite Hl, elem_of_app; right; by left).
    rewrite decide_False; [done|]. intros Hx'%Hlast. apply Hx. rewrite Hl, elem_of_app. by left.
  - intros x Hx%not_elem_of_nil. done.
  - intros x Hx%not_elem_of_nil. done.
Qed.

(** The search for the previous sibling finds the last of [l1]. *)
Lemma unlink_loop_ok fuel s p t r b l2 n q :
  chained (nodes s) ((r ++ [b]) ++ t :: l2) → NoDup ((r ++ [b]) ++ t :: l2) → (length r < fuel)%nat →
  nodes s !! t = Some n → nodes s !! p = Some q → b ≠ p →
  unlink_loop fuel p t (head (r ++ [b])) s =
    (s ← modify b (set_sibling (_sibling n)) s;
     if decide (_rightmostChild q = Some t) then modify p (set_rightmostChild (Some b)) s else Some s).
Proof.
  revert fuel. induction r as [|x r IH]; intros [|fuel] Hch Hd Hf Hn Hq Hb; cbn in Hf; try lia.
  - destruct (Hch [] b (t :: l2) eq_refl) as (nb & Hnb & Hs). cbn [unlink_loop app head]. rewrite Hnb. cbn [mbind option_bind].
    rewrite Hs, decide_True by done. rewrite Hn. cbn [mbind option_bind]. rewrite (modify_ok b _ s nb Hnb).
    cbn [mbind option_bind nodes]. rewrite lookup_insert_ne, Hq by done. done.
  - destruct (Hch [] x ((r ++ [b]) ++ t :: l2) eq_refl) as (nx & Hnx & Hs). cbn [unlink_loop app head].
    rewrite Hnx. cbn [mbind option_bind]. cbn [app] in Hd. apply list.NoDup_cons in Hd as [_ Hd].
    rewrite Hs, decide_False.
    + rewrite <- (IH fuel); [|exact (chained_tail _ x _ Hch)|done|lia|done..]. by destruct r.
    + pose proof Hd as Hd'. apply NoDup_app in Hd' as (_ & Hd' & _). intros Hh. apply (Hd' t); [|by left].
      destruct r; cbn in Hh; injection Hh as ->; cbn; by left.
Qed.

(** [CFTreeRemove] up to its release of the node. *)
Lemma unlink_ok s F p e l1 t l2 :
  represents [] (nodes s) F → F !! p = Some e → children e = l1 ++ t :: l2 →
  ∃ s1, represents [] (nodes s1) (alter (set_children (l1 ++ l2)) p F) ∧ calls s1 = calls s ∧
    ∀ fuel, (length l1 ≤ fuel)%nat → CFTreeRemove fuel t s = CFRelease fuel t s1.
Proof.
  intros Hr He Hl. destruct (r_node _ _ _ Hr p e He) as (q & Hq & S1 & S2 & S3 & S4).
  assert (Htp : child_of F p t) by (exists e; split; [done|rewrite Hl, elem_of_app; right; by left]).
  destruct (r_child _ _ _ Hr p t Htp) as [[n Hn] _].
  destruct (r_next _ _ _ Hr p e l1 t l2 n He Hl Hn) as [Hp Hs].
  assert (Hpt : p ≠ t) by (intros ->; by apply (child_irrefl _ _ _ Hr t)).
  pose proof (r_nodup _ _ _ Hr p e He) as Hd. rewrite Hl in Hd. rewrite Hl in S1, S2.
  pose proof (children_chained [] s F p e Hr He) as Hch. rewrite Hl in Hch.
  assert (Hrep : ∀ m', (∀ x, m' !! x = unlinked p l1 t l2 x <$> nodes s !! x) →
    represents [] m' (alter (set_children (l1 ++ l2)) p F)) by (by intros; eapply unlinked_represents).
  destruct (last l1) as [b|] eqn:Elast.
  - pose proof Elast as Hl1. apply last_Some in Hl1 as [k ->].
    assert (Hbc : child_of F p b) by (exists e; split; [done|rewrite Hl, !elem_of_app; left; right; by left]).
    assert (Hbp : b ≠ p) by (intros ->; by apply (child_irrefl _ _ _ Hr p)).
    assert (Hbt : b ≠ t).
    { intros ->. apply NoDup_app in Hd as (_ & Hd & _). apply (Hd t); [rewrite elem_of_app; right|]; by left. }
    destruct (r_child _ _ _ Hr p b Hbc) as [[nb Hnb] _].
    assert (Hhead : head ((k ++ [b]) ++ t :: l2) = head (k ++ [b])) by (by destruct k).
    assert (Hhead2 : head ((k ++ [b]) ++ l2) = head (k ++ [b])) by (by destruct k).
    assert (Hlast : ∀ y, last ((k ++ [b]) ++ y :: l2) = Some (default y (last l2)))
      by (intros; rewrite last_app_cons, last_cons; by destruct (last l2)).
    assert (Hlast2 : last ((k ++ [b]) ++ l2) = Some (default b (last l2)))
      by (rewrite <- app_assoc; cbn; rewrite last_app_cons, last_cons; by destruct (last l2)).
    rewrite Hlast in S2. rewrite Hhead in S1.
    set (m1 := <[b := set_sibling (head l2) nb]> (nodes s)).
    set (m2 := if decide (_rightmostChild q = Some t) then <[p := set_rightmostChild (Some b) q]> m1 else m1).
    exists {| nodes := <[t := set_sibling None (set_parent None n)]> m2; calls := calls s |}. split; [|split; [done|]].
    + apply Hrep. cbn [nodes]. unfold m2, m1. rewrite S2. unfold unlinked. rewrite Hlast2, Hhead2.
      destruct (last l2) as [z|] eqn:Ez; cbn [from_option id] in *.
      * assert (z ≠ t).
        { intros ->. apply NoDup_app in Hd as (_ & _ & Hd). apply list.NoDup_cons in Hd as [Hd _]. apply Hd.
          apply last_Some in Ez as [k2 ->]. rewrite elem_of_app. right. by left. }
        rewrite decide_False by congruence. heap_compare.
      * rewrite decide_True by done. heap_compare.
    + intros fuel Hf. unfold CFTreeRemove. rewrite Hn. cbn [mbind option_bind]. rewrite Hp, Hq. cbn [mbind option_bind].
      rewrite S1, decide_False.
      2: { intros Hh. apply NoDup_app in Hd as (_ & Hd & _). apply (Hd t); [|by left].
           destruct k; injection Hh as ->; cbn; by left. }
      rewrite (unlink_loop_ok fuel s p t k b l2 n q); [|done|done|rewrite length_app in Hf; cbn in Hf; lia|done..].
      rewrite (modify_ok b _ s nb Hnb). cbn [mbind option_bind]. rewrite Hs. unfold m2, m1.
      case_decide.
      * heap_write. heap_write. heap_write. by rewrite insert_insert_eq.
      * heap_write. heap_write. by rewrite insert_insert_eq.
  - apply last_None in Elast as ->. cbn [app head last] in *.
    assert (HlastE : last (t :: l2) = Some (default t (last l2))) by (rewrite last_cons; by destruct (last l2)).
    set (q' := set_child (head l2) q).
    set (m1 := if decide (head l2 = None) then <[p := set_rightmostChild None q']> (nodes s) else <[p := q']> (nodes s)).
    exists {| nodes := <[t := set_sibling None (set_parent None n)]> m1; calls := calls s |}. split; [|split; [done|]].
    + apply Hrep. cbn [nodes]. unfold m1, q', unlinked. cbn [last app]. destruct l2 as [|z l2]; cbn [head].
      * rewrite decide_True by done. heap_compare.
      * rewrite decide_False by done. rewrite last_cons_cons in S2. heap_compare.
    + intros fuel _. unfold CFTreeRemove. rewrite Hn. cbn [mbind option_bind]. rewrite Hp, Hq. cbn [mbind option_bind].
      rewrite S1, decide_True by done. rewrite (modify_ok p _ s q Hq). cbn [mbind option_bind nodes].
      rewrite lookup_insert_ne, Hn by done. cbn [mbind option_bind]. rewrite Hs. fold q'. unfold m1.
      case_decide; heap_write.
      * heap_write. heap_write. by rewrite !insert_insert_eq.
      * heap_write. by rewrite insert_insert_eq.
Qed.

(** Removing a child drops the reference its parent held. *)
Lemma CFTreeRemove_ok s F p e l1 t l2 :
  represents [] (nodes s) F → F !! p = Some e → children e = l1 ++ t :: l2 →
  ∃ s' F' fuel0, (∀ fuel, (fuel0 ≤ fuel)%nat → CFTreeRemove fuel t s = Some s') ∧
    drops (freed F t) (dropped F t) [] s (alter (set_children (l1 ++ l2)) p F) s' F'.
Proof.
  intros Hr He Hl. destruct (unlink_ok s F p e l1 t l2 Hr He Hl) as (s1 & Hr1 & Hc1 & Hrem).
  assert (Htp : child_of F p t) by (exists e; split; [done|rewrite Hl, elem_of_app; right; by left]).
  assert (Hpt : p ≠ t) by (intros ->; by apply (child_irrefl _ _ _ Hr t)).
  destruct (r_child _ _ _ Hr p t Htp) as [[n Hn] _]. destruct (r_entry _ _ _ Hr t n Hn) as (et & Het & _).
  pose proof (r_nodup _ _ _ Hr p e He) as Hd. rewrite Hl in Hd.
  set (F1 := alter (set_children (l1 ++ l2)) p F) in *.
  assert (Hsub : ∀ q c, child_of F1 q c → child_of F q c ∧ (q = p → c ∈ l1 ++ l2)).
  { intros q c (e0 & E0 & Hc). unfold F1 in E0. rewrite lookup_alter in E0. case_decide; [|split; [by exists e0|by intros <-]].
    subst q. rewrite He in E0. injection E0 as <-. cbn in Hc. split; [|done]. exists e. split; [done|].
    rewrite Hl, elem_of_app, elem_of_cons. apply elem_of_app in Hc. tauto. }
  assert (Hroot : ∀ q, ¬ child_of F1 q t).
  { intros q [Hq Hin]%Hsub. assert (q = p) as -> by exact (r_unique _ _ _ Hr q p t Hq Htp). specialize (Hin eq_refl).
    apply NoDup_app in Hd as (_ & Hd1 & Hd2). apply list.NoDup_cons in Hd2 as [Hd2 _].
    apply elem_of_app in Hin as [Hin|Hin]; [|done]. apply (Hd1 t Hin). by left. }
  assert (Het1 : F1 !! t = Some et) by (unfold F1; by rewrite lookup_alter_ne).
  destruct (CFRelease_ok s1 F1 t et Hr1 Het1 (or_intror Hroot)) as (s' & F' & f0 & E & D & K & Hd' & HD & HK & Ha & Hr' & Hs' & Hc').
  exists s', F', (f0 + length l1)%nat. split.
  { intros fuel Hf. rewrite Hrem by lia. apply E. lia. }
  assert (Hag : ∀ y, below F t y → F1 !! y = F !! y).
  { destruct (r_acyclic _ _ _ Hr) as (rank & top & Hrank & _). intros y Hy. unfold F1. rewrite lookup_alter_ne; [done|].
    intros <-. pose proof (Hrank p t Htp). destruct (below_rank F rank t p Hrank Hy) as [->|]; [done|lia]. }
  exists D, K. split; [done|]. split; [|split; [|split; [done|split; [done|split]]]].
  - intros x. rewrite HD. apply (freed_agree F F1 t Hag).
  - intros x. rewrite HK. apply (dropped_agree F F1 t Hag).
  - by intros x Hx%not_elem_of_nil.
  - by rewrite Hc', Hc1.
Qed.
End removal.

(** ** Sorting the children *)
Section sorting.
Context `{Cl : Client, Da : DispatchApply, Sc : Scratch}.

Lemma link_loop_ok l s :
  NoDup l → (∀ x, x ∈ l → is_Some (nodes s !! x)) →
  ∃ s', link_loop l s = Some s' ∧ calls s' = calls s ∧ (∀ x, x ∉ l → nodes s' !! x = nodes s !! x) ∧
    ∀ k1 x k2, l = k1 ++ x :: k2 → nodes s' !! x = set_sibling (head k2) <$> nodes s !! x.
Proof.
  revert s. induction l as [|b l IH]; intros s Hd Hin.
  { exists s. split_and!; try done. intros [] ? ? ?; done. }
  destruct (Hin b ltac:(left)) as [nb Hnb]. apply list.NoDup_cons in Hd as [Hb Hd]. destruct l as [|c l].
  - cbn [link_loop]. rewrite (modify_ok b _ s nb Hnb). eexists. split; [done|]. split; [done|]. cbn [nodes]. split.
    + intros x Hx. rewrite lookup_insert_ne; [done|]. intros ->. apply Hx. by left.
    + intros [|y [|]] x k2 Hk; try done. injection Hk as -> <-. by rewrite lookup_insert_eq, Hnb.
  - change (link_loop (b :: c :: l) s) with (s ← modify b (set_sibling (Some c)) s; link_loop (c :: l) s).
    rewrite (modify_ok b _ s nb Hnb). cbn [mbind option_bind].
    set (s1 := {| nodes := <[b := set_sibling (Some c) nb]> (nodes s); calls := calls s |}).
    destruct (IH s1) as (s' & E & Hc & Hout & Hl); [done| |].
    { intros x Hx. cbn. rewrite lookup_insert_ne by (intros ->; done). apply Hin. by right. }
    exists s'. split; [done|]. split; [done|]. split.
    + intros x Hx. rewrite elem_of_cons in Hx. rewrite Hout by tauto. cbn. rewrite lookup_insert_ne; [done|]. tauto || (intros ->; tauto).
    + intros [|y k1] x k2 Hk; cbn in Hk.
      * injection Hk as -> <-. rewrite Hout by done. cbn. by rewrite lookup_insert_eq, Hnb.
      * injection Hk as -> Hk. rewrite (Hl k1 x k2 Hk). cbn. rewrite lookup_insert_ne; [done|]. intros ->. apply Hb.
        rewrite Hk, elem_of_app. right. by left.
Qed.

(** The child an index of the array stands for. *)
Definition child_at (l : list Z) (i : Z) : Z := default 0 (l.[i]).

Lemma element_one l i : 0 ≤ i < zlen l → element 1 l i = [child_at l i].
Proof.
  intros Hi. unfold element, child_at. destruct (zget_is_Some l i Hi) as [x Hx]. rewrite Hx. cbn [from_option id].
  unfold zget in Hx. rewrite decide_True in Hx by lia. rewrite Z.mul_1_r. change (Z.to_nat 1) with 1%nat.
  by rewrite (drop_S l x (Z.to_nat i) Hx).
Qed.

Lemma gathered l idx : (∀ i, i ∈ idx → 0 ≤ i < zlen l) → mjoin (element 1 l <$> idx) = child_at l <$> idx.
Proof.
  induction idx as [|i idx IH]; intros Hin; [done|]. cbn. rewrite element_one by (apply Hin; by left). cbn. f_equal.
  apply IH. intros j Hj. apply Hin. by right.
Qed.

Lemma child_at_all l : child_at l <$> seqZ 0 (zlen l) = l.
Proof.
  rewrite <- gathered by (intros i Hi%elem_of_seqZ; lia). apply map_element_all; [lia|lia|apply zlen_nonneg].
Qed.

Lemma sorted_ext (R R' : Z → Z → Prop) l :
  (∀ x y, x ∈ l → y ∈ l → R x y → R' x y) → StronglySorted R l → StronglySorted R' l.
Proof.
  induction l as [|x l IH]; intros HR Hs; [constructor|]. inversion_clear Hs as [|? ? Hs' Hx]. constructor.
  - apply IH; [|done]. intros a b Ha Hb. apply HR; by right.
  - rewrite List.Forall_forall in Hx |- *. intros y Hy. apply HR; [by left|by right; apply list_elem_of_In|by apply Hx].
Qed.

(** The children relinked in another order. *)
Lemma relink_ok s F t e l' :
  represents [] (nodes s) F → F !! t = Some e → l' ≡ₚ children e →
  ∃ s', (s ← modify t (set_child (head l')) s; s ← link_loop l' s; modify t (set_rightmostChild (last l')) s) = Some s' ∧
    calls s' = calls s ∧ represents [] (nodes s') (alter (set_children l') t F).
Proof.
  intros Hr He Hp. destruct (r_node _ _ _ Hr t e He) as (n & Hn & S1 & S2 & S3 & S4).
  assert (Hd : NoDup l') by (rewrite Hp; exact (r_nodup _ _ _ Hr t e He)).
  assert (Hchild : ∀ x, x ∈ l' → child_of F t x) by (intros x Hx; exists e; by rewrite Hp in Hx).
  assert (Ht : t ∉ l') by (intros Ht; by apply (child_irrefl _ _ _ Hr t), Hchild).
  rewrite (modify_ok t _ s n Hn). cbn [mbind option_bind].
  set (s1 := {| nodes := <[t := set_child (head l') n]> (nodes s); calls := calls s |}).
  destruct (link_loop_ok l' s1 Hd) as (s2 & -> & Hc2 & Hout & Hl).
  { intros x Hx. destruct (r_child _ _ _ Hr t x (Hchild x Hx)) as [Hm _]. cbn. rewrite lookup_insert_ne; [done|]. by intros ->. }
  cbn [mbind option_bind]. assert (Ht2 : nodes s2 !! t = Some (set_child (head l') n)).
  { rewrite Hout by done. cbn. by rewrite lookup_insert_eq. }
  rewrite (modify_ok t _ s2 _ Ht2). eexists. split; [done|]. split; [done|]. cbn [nodes].
  assert (Hin : ∀ x, x ≠ t → nodes s1 !! x = nodes s !! x) by (intros x Hx; cbn; by rewrite lookup_insert_ne).
  eapply (rechild_represents [] [] (nodes s)); [done|done|done|by intros x Hx; rewrite Hp in Hx|..].
  - intros x. destruct (decide (x = t)) as [->|Hx]; [rewrite lookup_insert_eq, Hn; by constructor|].
    rewrite lookup_insert_ne by done. destruct (decide (x ∈ l')) as [Hx'|Hx'].
    + apply list_elem_of_split in Hx' as (k1 & k2 & Hk). rewrite (Hl k1 x k2 Hk), Hin by done.
      destruct (nodes s !! x); by constructor.
    + rewrite Hout, Hin by done. destruct (nodes s !! x); by constructor.
  - intros k1 x k2 n' Hk. assert (Hx : x ∈ l') by (rewrite Hk, elem_of_app; right; by left).
    rewrite lookup_insert_ne by (intros ->; done). rewrite (Hl k1 x k2 Hk), Hin by (intros ->; done).
    destruct (nodes s !! x) as [nx|] eqn:Ex; [|done]. intros [= <-]. cbn. split; [|done]. eapply (r_parent _ _ _ Hr t x nx); auto.
  - intros x n' Hx Hx'. by rewrite Hp in Hx'.
  - intros x nx n' Hx Hnx. rewrite <- Hp in Hx. destruct (decide (x = t)) as [->|Hne].
    + rewrite lookup_insert_eq. intros [= <-]. by simplify_eq.
    + rewrite lookup_insert_ne, Hout, Hin by done. intros Hn'. by simplify_eq.
  - by intros x Hx%not_elem_of_nil.
  - by intros x Hx%not_elem_of_nil.
Qed.

Lemma CFTreeSortChildren_ok s F t e cmp fuel :
  represents [] (nodes s) F → F !! t = Some e → comparator cmp → (∀ k, 0 ≤ k → is_Some (scratch k)) →
  zlen (children e) < 2 ^ 31 → (length (children e) ≤ fuel)%nat →
  ∃ s' idx, CFTreeSortChildren fuel t cmp s = Some s' ∧ calls s' = calls s ∧
    represents [] (nodes s') (alter (set_children (child_at (children e) <$> idx)) t F) ∧
    idx ≡ₚ seqZ 0 (zlen (children e)) ∧
    StronglySorted (before (λ i j, cmp (child_at (children e) i) (child_at (children e) j))) idx.
Proof.
  intros Hr He Hcmp Hs Hlen Hf. destruct (r_node _ _ _ Hr t e He) as (n & Hn & S1 & S2 & S3 & S4).
  set (l := children e) in *. pose proof (children_chained [] s F t e Hr He) as Hch. fold l in Hch.
  pose proof (zlen_nonneg l) as Hl0.
  assert (Hcount : CFTreeGetChildCount fuel t s = Some (zlen l)).
  { unfold CFTreeGetChildCount. rewrite Hn. cbn [mbind option_bind]. rewrite S1.
    change 0 with (sint 32 0). rewrite count_loop_ok by done. by rewrite Z.add_0_l, sint_id by lia. }
  unfold CFTreeSortChildren. rewrite Hcount. cbn [mbind option_bind].
  destruct (Z.ltb_spec 1 (zlen l)) as [H1|H1].
  2: { exists s, (seqZ 0 (zlen l)). split; [done|]. split; [done|]. split; [|split; [done|]].
       - rewrite child_at_all, alter_id; [done|]. intros e' He'. assert (e' = e) as -> by congruence. by destruct e.
       - assert (zlen l = 0 ∨ zlen l = 1) as [-> | ->] by lia; repeat constructor. }
  destruct (Hs (zlen l) Hl0) as [b Hb]. rewrite Hb. cbn [mbind option_bind]. rewrite Hn. cbn [mbind option_bind].
  pose proof (scratch_len _ _ Hb Hl0) as Hbl. rewrite S1.
  pose proof (children_loop_ok fuel l s [] b [] 0 Hch Hf eq_refl ltac:(unfold zlen in *; lia)) as Hfill.
  cbn [app] in Hfill. rewrite !app_nil_r in Hfill. rewrite Hfill. cbn [mbind option_bind].
  destruct (sort_array_ok 1 0 (__CFTreeCompareValues cmp) l (zlen l) 1) as (idx & E & Hp & Hsort); try done; [|..].
  { split; intros; [apply (cmp_flip Hcmp)|by eapply (cmp_trans Hcmp)]. }
  { unfold INTPTR_MAX. split; [lia|]. change ((2 ^ 63 - 1) ÷ 8) with (2 ^ 60 - 1). lia. }
  { lia. }
  unfold CFQSortArray. rewrite E. cbn [mbind option_bind].
  assert (Hidx : ∀ i, i ∈ idx → 0 ≤ i < zlen l) by (intros i; rewrite Hp, elem_of_seqZ; lia).
  rewrite gathered by done.
  destruct (relink_ok s F t e (child_at l <$> idx) Hr He) as (s' & E' & Hc' & Hr').
  { fold l. rewrite Hp. by rewrite child_at_all. }
  exists s', idx. split; [exact E'|]. split; [done|]. split; [done|]. split; [done|].
  eapply sorted_ext; [|exact Hsort]. intros i j Hi Hj. unfold before, index_cmp, __CFTreeCompareValues.
  by rewrite !element_one by auto.
Qed.
End sorting.

(** ** Contexts *)
Section contexts.
Context `{Cl : Client}.

Definition set_content c e := {| children := children e; count := count e; content := c |}.

(** The info pointer a node keeps for a context, and the calls that takes. *)
Definition kept_info (cb : callbacks) (i : Z) : Z := match retain cb with Some fn => invoke_retain fn i | None => i end.
Definition retain_call (cb : callbacks) (i : Z) : list call := match retain cb with Some fn => [Called fn i] | None => [] end.

Lemma CFTreeSetContext_ok L s F t e context :
  represents L (nodes s) F → F !! t = Some e →
  ∃ s' c, CFTreeSetContext t context s = Some s' ∧ represents L (nodes s') (alter (set_content c) t F) ∧
    content_callbacks c = Some (context_callbacks context) ∧
    c.1.1 = kept_info (context_callbacks context) (info context) ∧
    calls s' = release_call F t ++ retain_call (context_callbacks context) (info context) ++ calls s ∧
    ∀ x, x ≠ t → nodes s' !! x = nodes s !! x.
Proof.
  intros Hr He. destruct (r_node _ _ _ Hr t e He) as (n & Hn & Hsame). pose proof Hsame as (S1 & S2 & S3 & S4).
  destruct (content_callbacks_ok _ (r_content _ _ _ Hr t e He)) as [ob Hob].
  set (cb := context_callbacks context).
  set (bits := if __CFTreeCallBacksMatchNull context then __kCFTreeHasNullCallBacks
               else if __CFTreeCallBacksMatchCFType context then __kCFTreeHasCFTypeCallBacks else __kCFTreeHasCustomCallBacks).
  set (n1 := if __CFTreeCallBacksMatchNull context then n
             else if __CFTreeCallBacksMatchCFType context then n else set_callbacks (Some cb) n).
  set (n2 := set_cfinfo bits n1). set (n3 := set_info (kept_info cb (info context)) n2).
  assert (Hcb : __CFTreeGetCallBacks n2 = Some cb).
  { unfold n2, bits, n1, __CFTreeCallBacksMatchNull, __CFTreeCallBacksMatchCFType. fold cb.
    case_bool_decide as E1; [by rewrite E1|]. case_bool_decide as E2; [by rewrite E2|]. done. }
  set (s3 := {| nodes := <[t := n3]> (nodes s);
    calls := match release ob with Some fn => [Called fn (_info n)] | None => [] end ++
      retain_call cb (info context) ++ calls s |}).
  assert (E : CFTreeSetContext t context s = Some s3).
  { unfold CFTreeSetContext. rewrite Hn. cbn [mbind option_bind]. rewrite (get_callbacks n e Hsame), Hob.
    cbn [mbind option_bind]. fold cb. revert Hcb. unfold s3, n3, n2, n1, bits, kept_info, retain_call.
    destruct (__CFTreeCallBacksMatchNull context); [|destruct (__CFTreeCallBacksMatchCFType context); [|heap_write]];
      intros Hcb; heap_write; heap_read; cbn [mbind option_bind]; rewrite Hcb; cbn [mbind option_bind];
      (destruct (retain cb); unfold log; heap_write; destruct (release ob); cbn [nodes calls app];
       by rewrite !insert_insert_eq). }
  assert (Hcont : ∃ c, c = (_info n3, _callbacks n3, cfinfo n3)) by eauto. destruct Hcont as [c Ec].
  assert (Hcc : content_callbacks c = Some cb) by (rewrite Ec; exact Hcb).
  exists s3, c. split; [done|]. split; [|split; [done|split; [by rewrite Ec|split]]].
  - cbn [nodes s3]. eapply redata_represents; [exact Hr|exact Hn|exact He| |done|..].
    + unfold n3, n2, n1. by repeat case_match.
    + rewrite Ec. unfold n3, n2, n1. split_and!; by repeat case_match.
    + cbn. by eapply r_count.
    + cbn. rewrite Ec. unfold content_ok. unfold content_callbacks in Hcc. rewrite Ec in Hcc.
      destruct (Z.eqb_spec (cfinfo n3) __kCFTreeHasNullCallBacks); [by left|].
      destruct (Z.eqb_spec (cfinfo n3) __kCFTreeHasCFTypeCallBacks); [by right; left|right; right; by eexists].
  - cbn [calls s3]. unfold release_call. rewrite He, Hob. f_equal. by rewrite <- S3.
  - intros x Hx. cbn [nodes s3]. by rewrite lookup_insert_ne.
Qed.

(** A new tree: one node, that the caller holds. *)
Lemma CFTreeCreate_ok s F t context :
  represents [] (nodes s) F → nodes s !! t = None →
  ∃ s' c, CFTreeCreate (Some t) context s = Some (Some t, s') ∧
    represents [] (nodes s') (<[t := {| children := []; count := 1; content := c |}]> F) ∧
    content_callbacks c = Some (context_callbacks context) ∧
    c.1.1 = kept_info (context_callbacks context) (info context) ∧
    calls s' = retain_call (context_callbacks context) (info context) ++ calls s.
Proof.
  intros Hr Ht. unfold CFTreeCreate.
  set (n := {| _parent := None; _sibling := None; _child := None; _rightmostChild := None;
               _info := 0; _callbacks := None; cfinfo := __kCFTreeHasNullCallBacks; retain_count := 1 |}).
  set (e := {| children := []; count := 1; content := (0, None, __kCFTreeHasNullCallBacks) |}).
  set (s1 := {| nodes := <[t := n]> (nodes s); calls := calls s |}).
  assert (Hr1 : represents [] (nodes s1) (<[t := e]> F)).
  { apply new_represents; try done. by left. }
  destruct (CFTreeSetContext_ok [] s1 (<[t := e]> F) t e context Hr1) as (s' & c & E & Hr' & Hc & Hi & Hcalls & _);
    [by rewrite lookup_insert_eq|].
  exists s', c. rewrite E. cbn [mbind option_bind]. split; [done|]. split; [|split; [done|split; [done|]]].
  - assert (EF : alter (set_content c) t (<[t := e]> F) = <[t := {| children := []; count := 1; content := c |}]> F).
    { apply map_eq. intros x. rewrite lookup_alter, !lookup_insert. by repeat case_decide. }
    by rewrite <- EF.
  - rewrite Hcalls. unfold release_call. by rewrite lookup_insert_eq.
Qed.
End contexts.

(** ** The properties *)

(** With enough fuel the call ends in [s']. *)
Definition ends_in (f : nat → option heap) (s' : heap) : Prop := ∃ fuel0, ∀ fuel, (fuel0 ≤ fuel)%nat → f fuel = Some s'.

(** The operation turns the forest into [F'] without calling the client. *)
Definition makes (op : heap → option heap) (s : heap) (F' : forest) : Prop :=
  ∃ s', op s = Some s' ∧ calls s' = calls s ∧ represents [] (nodes s') F'.

Section properties.
Context `{Cl : Client}.

(** C21. Prepending, appending and inserting after a sibling put a root among the
    children of a node where they say, with one more reference, and change
    nothing else; a node is not put below itself, nor held more often than its
    32-bit count can tell.  Appending a node that has a
    parent halts. *)
Theorem tree_insertions s F tree newChild e :
  represents [] (nodes s) F → F !! tree = Some e → is_root F newChild → ¬ below F newChild tree →
  has_room F newChild →
  makes (CFTreePrependChild tree newChild) s (insert_child F tree [] newChild (children e)) ∧
  makes (CFTreeAppendChild tree newChild) s (insert_child F tree (children e) newChild []) ∧
  (∀ l1 t l2, children e = l1 ++ t :: l2 →
     makes (CFTreeInsertSibling t newChild) s (insert_child F tree (l1 ++ [t]) newChild l2)) ∧
  (∀ p c, child_of F p c → CFTreeAppendChild tree c s = None).
Proof.
  intros Hr He Hc Hcyc Hroom. split; [|split; [|split]].
  - by apply CFTreePrependChild_ok.
  - by apply CFTreeAppendChild_ok.
  - intros l1 t l2 Hl. by eapply CFTreeInsertSibling_ok.
  - intros p c Hpc. destruct (r_child _ _ _ Hr p c Hpc) as [[n Hn] _]. unfold CFTreeAppendChild. rewrite Hn.
    cbn [mbind option_bind]. rewrite decide_True; [done|]. by rewrite (r_parent _ _ _ Hr p c n Hpc Hn).
Qed.

(** C17. Releasing a node, removing a child and removing all children drop
    references: exactly the nodes whose last reference that is are freed, each
    once and with one call of its release callback; the children of freed nodes
    that somebody else holds stay, with one reference less, as roots; nothing
    freed is used. *)
Theorem tree_frees_what_nobody_holds s F :
  represents [] (nodes s) F →
  (∀ t e, F !! t = Some e → 1 < count e ∨ (∀ p, ¬ child_of F p t) →
     ∃ s' F', ends_in (λ fuel, CFRelease fuel t s) s' ∧ drops (freed F t) (dropped F t) [] s F s' F') ∧
  (∀ p e l1 t l2, F !! p = Some e → children e = l1 ++ t :: l2 →
     ∃ s' F', ends_in (λ fuel, CFTreeRemove fuel t s) s' ∧
       drops (freed F t) (dropped F t) [] s (alter (set_children (l1 ++ l2)) p F) s' F') ∧
  (∀ t e, F !! t = Some e →
     ∃ s' F', ends_in (λ fuel, CFTreeRemoveAllChildren fuel t s) s' ∧
       drops (λ x, ∃ c, c ∈ children e ∧ freed F c x) (λ x, ∃ c, c ∈ children e ∧ dropped F c x) [] s
         (alter (set_children []) t F) s' F') ∧
  (∀ t fuel, is_root F t → CFTreeRemove fuel t s = Some s).
Proof.
  intros Hr. split; [|split; [|split]].
  - intros t e He Hown. edestruct CFRelease_ok as (s' & F' & f0 & E & Hd); [done..|]. exists s', F'. split; [by exists f0|done].
  - intros p e l1 t l2 He Hl. edestruct CFTreeRemove_ok as (s' & F' & f0 & E & Hd); [done..|].
    exists s', F'. split; [by exists f0|done].
  - intros t e He. destruct (r_acyclic _ _ _ Hr) as (rank & top & Hrank & _).
    destruct (remove_all_ok rank (rank t) [] s F t e (releases_all rank _) Hr Hrank He (not_elem_of_nil t) (le_n _))
      as (s' & F' & f0 & E & Hd). exists s', F'. split; [|done]. exists f0. intros fuel Hf. by apply E.
  - intros t fuel [[e He] Hno]. destruct (r_node _ _ _ Hr t e He) as (n & Hn & _).
    destruct (root_parent _ _ _ t n Hr Hn (not_elem_of_nil t) Hno) as [Hp _]. unfold CFTreeRemove. rewrite Hn.
    cbn [mbind option_bind]. by rewrite Hp.
Qed.

(** The reading functions: the parent, the number of children on 32 bits, the
    child at an index or none, the children in order written to an array that
    has room for them and overrun when it has not, one call of the applier for
    each in order, and the root. *)
Theorem tree_reads s F t e :
  represents [] (nodes s) F → F !! t = Some e →
  (∀ p, child_of F p t → CFTreeGetParent t s = Some (Some p)) ∧
  (is_root F t → CFTreeGetParent t s = Some None) ∧
  CFTreeGetFirstChild t s = Some (head (children e)) ∧
  (∀ l1 c l2, children e = l1 ++ c :: l2 → CFTreeGetNextSibling c s = Some (head l2)) ∧
  (∀ fuel, (length (children e) ≤ fuel)%nat →
     CFTreeGetChildCount fuel t s = Some (sint 32 (zlen (children e))) ∧
     (∀ i, CFTreeGetChildAtIndex fuel t i s = Some ((children e).[i])) ∧
     (∀ old rest, zlen old = zlen (children e) →
        CFTreeGetChildren fuel t (old ++ rest) s = Some (children e ++ rest)) ∧
     (∀ short, zlen short < zlen (children e) → CFTreeGetChildren fuel t short s = None) ∧
     (∀ A (f : Z → A → option A) a,
        CFTreeApplyFunctionToChildren fuel t (on_client f) (s, a) =
          (a ← foldl (λ a c, a ← a; f c a) (Some a) (children e); Some (s, a)))) ∧
  ∃ r fuel0, below F r t ∧ is_root F r ∧ ∀ fuel, (fuel0 ≤ fuel)%nat → CFTreeFindRoot fuel t s = Some r.
Proof.
  intros Hr He. destruct (r_node _ _ _ Hr t e He) as (n & Hn & S1 & S2 & S3 & S4).
  pose proof (children_chained _ _ _ _ _ Hr He) as Hch.
  split; [|split; [|split; [|split; [|split]]]].
  - intros p Hp. unfold CFTreeGetParent. rewrite Hn. cbn. by rewrite (r_parent _ _ _ Hr p t n Hp Hn).
  - intros [_ Hno]. unfold CFTreeGetParent. rewrite Hn. cbn.
    by destruct (root_parent _ _ _ t n Hr Hn (not_elem_of_nil t) Hno) as [-> _].
  - unfold CFTreeGetFirstChild. rewrite Hn. cbn. by rewrite S1.
  - intros l1 c l2 Hl. destruct (Hch l1 c l2 Hl) as (nc & Hnc & Hs). unfold CFTreeGetNextSibling. rewrite Hnc. cbn. by rewrite Hs.
  - intros fuel Hf. unfold CFTreeGetChildCount, CFTreeGetChildAtIndex, CFTreeGetChildren, CFTreeApplyFunctionToChildren.
    cbn [fst]. rewrite Hn. cbn [mbind option_bind]. rewrite S1. split; [|split; [|split; [|split]]].
    + change 0 with (sint 32 0). by rewrite count_loop_ok.
    + intros i. by apply child_loop_ok.
    + intros old rest Ho. apply (children_loop_ok fuel (children e) s []); [done|done|done|unfold zlen in Ho; lia].
    + intros short Hs. apply children_loop_short; [done|pose proof (zlen_nonneg short); lia|lia].
    + intros A f a. by apply apply_loop_ok.
  - apply (CFTreeFindRoot_ok s F t Hr). by eexists.
Qed.

(** Sorting the children puts them in the stable order of the comparator, and
    relinks them, up to the 2^31 children their number on 32 bits can count. *)
Theorem tree_sort_children `{Da : DispatchApply, Sc : Scratch} s F t e comparator fuel :
  represents [] (nodes s) F → F !! t = Some e → Sort.comparator comparator → (∀ k, 0 ≤ k → is_Some (scratch k)) →
  zlen (children e) < 2 ^ 31 → (length (children e) ≤ fuel)%nat →
  ∃ s' idx, CFTreeSortChildren fuel t comparator s = Some s' ∧ calls s' = calls s ∧
    represents [] (nodes s') (alter (set_children (child_at (children e) <$> idx)) t F) ∧
    idx ≡ₚ seqZ 0 (zlen (children e)) ∧
    StronglySorted (before (λ i j, comparator (child_at (children e) i) (child_at (children e) j))) idx.
Proof. apply CFTreeSortChildren_ok. Qed.

(** A new tree is one node that its creator holds; setting a context retains the
    new info pointer, then releases the old one, and is what is read back. *)
Theorem tree_contexts s F context :
  represents [] (nodes s) F →
  (∀ t, nodes s !! t = None → ∃ s' c, CFTreeCreate (Some t) context s = Some (Some t, s') ∧
     represents [] (nodes s') (<[t := {| children := []; count := 1; content := c |}]> F) ∧
     calls s' = retain_call (context_callbacks context) (info context) ++ calls s ∧
     CFTreeGetContext t s' = Some {| version := 0; info := kept_info (context_callbacks context) (info context);
                                     context_callbacks := context_callbacks context |}) ∧
  (∀ t e, F !! t = Some e → ∃ s' c, CFTreeSetContext t context s = Some s' ∧
     represents [] (nodes s') (alter (set_content c) t F) ∧
     calls s' = release_call F t ++ retain_call (context_callbacks context) (info context) ++ calls s ∧
     CFTreeGetContext t s' = Some {| version := 0; info := kept_info (context_callbacks context) (info context);
                                     context_callbacks := context_callbacks context |}) ∧
  CFTreeCreate None context s = Some (None, s).
Proof.
  intros Hr.
  assert (Hget : ∀ s' G t e', represents [] (nodes s') G → G !! t = Some e' →
    content_callbacks (content e') = Some (context_callbacks context) →
    (content e').1.1 = kept_info (context_callbacks context) (info context) →
    CFTreeGetContext t s' = Some {| version := 0; info := kept_info (context_callbacks context) (info context);
                                    context_callbacks := context_callbacks context |}).
  { intros s' G t e' Hr' He' Hcb Hi. destruct (r_node _ _ _ Hr' t e' He') as (n & Hn & Hs).
    unfold CFTreeGetContext. rewrite Hn. cbn [mbind option_bind]. rewrite (get_callbacks n e' Hs), Hcb.
    cbn [mbind option_bind]. destruct Hs as (_ & _ & S3 & _). by rewrite <- Hi, <- S3. }
  split; [|split; [|done]].
  - intros t Ht. destruct (CFTreeCreate_ok s F t context Hr Ht) as (s' & c & E & Hr' & Hcb & Hi & Hcalls).
    exists s', c. split; [done|]. split; [done|]. split; [done|]. eapply Hget; [done|apply lookup_insert_eq|done|done].
  - intros t e He. destruct (CFTreeSetContext_ok [] s F t e context Hr He) as (s' & c & E & Hr' & Hcb & Hi & Hcalls & _).
    exists s', c. split; [done|]. split; [done|]. split; [done|].
    eapply Hget; [done|by rewrite lookup_alter_eq, He|done|done].
Qed.
End properties.

(** ** Four nodes, the first with the second and third as children *)
Section demo.
#[local] Instance demo_client : Client :=
  {| CFRetain_fn := 100; CFRelease_fn := 101; CFCopyDescription_fn := 102; invoke_retain _ i := i |}.

Definition demo_callbacks : callbacks := {| retain := Some 7; release := Some 8; copyDescription := None |}.
Definition lone (i : Z) : __CFTree :=
  {| _parent := None; _sibling := None; _child := None; _rightmostChild := None; _info := i;
     _callbacks := Some demo_callbacks; cfinfo := __kCFTreeHasCustomCallBacks; retain_count := 1 |}.
Definition lone_entry (i : Z) : entry :=
  {| children := []; count := 1; content := (i, Some demo_callbacks, __kCFTreeHasCustomCallBacks) |}.

Definition demo0 : heap := {| nodes := <[4 := lone 40]> (<[3 := lone 30]> (<[2 := lone 20]> (<[1 := lone 10]> ∅))); calls := [] |}.
Definition forest0 : forest := <[4 := lone_entry 40]> (<[3 := lone_entry 30]> (<[2 := lone_entry 20]> (<[1 := lone_entry 10]> ∅))).

Lemma empty_represents : represents [] ∅ ∅.
Proof.
  assert (Hno : ∀ p c, ¬ child_of ∅ p c) by (intros p c (e & E & _); by rewrite lookup_empty in E).
  split; try (intros *; by rewrite lookup_empty).
  - intros x. rewrite !lookup_empty. constructor.
  - intros p c H. by apply Hno in H.
  - by intros x H%not_elem_of_nil.
  - exists (λ _, O), O. split; [intros p c H; by apply Hno in H|lia].
Qed.

Lemma demo0_represents : represents [] (nodes demo0) forest0.
Proof.
  repeat (apply new_represents; [|reflexivity|repeat split|done|done|done|cbn; lia|cbn; eauto]).
  apply empty_represents.
Qed.

Lemma not_below_leaf F c t e : F !! c = Some e → children e = [] → t ≠ c → ¬ below F c t.
Proof.
  intros He Hl Hne Hb. inversion Hb as [|? y ? (e' & E & Hin) _]; subst; [done|].
  rewrite He in E. injection E as <-. rewrite Hl in Hin. by apply not_elem_of_nil in Hin.
Qed.

(** A node without parent: the child lists of the forest are a finite check. *)
Lemma is_root_decide F c : is_Some (F !! c) → map_Forall (λ _ e, c ∉ children e) F → is_root F c.
Proof. intros Hc Hall. split; [done|]. intros p (e & E & Hin). by apply (Hall p e E). Qed.

Ltac root_decide := apply is_root_decide; [by eexists|by_decide].

Definition demo1 : heap := default demo0 (CFTreeAppendChild 1 2 demo0).
Definition forest1 : forest := insert_child forest0 1 [] 2 [].
Definition demo2 : heap := default demo1 (CFTreeAppendChild 1 3 demo1).
Definition forest2 : forest := insert_child forest1 1 [2] 3 [].

Lemma demo1_represents : represents [] (nodes demo1) forest1.
Proof.
  destruct (CFTreeAppendChild_ok demo0 forest0 demo0_represents 1 2 (lone_entry 10)) as (s' & E & _ & R).
  - reflexivity.
  - root_decide.
  - by eapply not_below_leaf.
  - by intros e [= <-].
  - unfold demo1. by rewrite E.
Qed.

Lemma demo2_represents : represents [] (nodes demo2) forest2.
Proof.
  destruct (CFTreeAppendChild_ok demo1 forest1 demo1_represents 1 3 (set_children [2] (lone_entry 10))) as (s' & E & _ & R).
  - reflexivity.
  - root_decide.
  - by eapply not_below_leaf.
  - by intros e [= <-].
  - unfold demo2. by rewrite E.
Qed.

Example demo2_children : CFTreeGetChildren 2 1 [0; 0; 9] demo2 = Some [2; 3; 9].
Proof. reflexivity. Qed.

(** 4 put before and between the children of 1. *)
Lemma tree_insertions_witness :
  (∃ s', CFTreePrependChild 1 4 demo2 = Some s' ∧ represents [] (nodes s') (insert_child forest2 1 [] 4 [2; 3])) ∧
  (s' ← CFTreePrependChild 1 4 demo2; CFTreeGetChildren 3 1 [0; 0; 0] s') = Some [4; 2; 3] ∧
  (∃ s', CFTreeInsertSibling 2 4 demo2 = Some s' ∧ represents [] (nodes s') (insert_child forest2 1 [2] 4 [3])) ∧
  (s' ← CFTreeInsertSibling 2 4 demo2; CFTreeGetChildren 3 1 [0; 0; 0] s') = Some [2; 4; 3] ∧
  CFTreeAppendChild 1 3 demo2 = None.
Proof.
  assert (H4 : is_root forest2 4) by root_decide. assert (Hb : ¬ below forest2 4 1) by (by eapply not_below_leaf).
  assert (Hroom : has_room forest2 4) by (by intros e [= <-]).
  destruct (tree_insertions demo2 forest2 1 4 (set_children [2; 3] (lone_entry 10)) demo2_represents eq_refl H4 Hb Hroom)
    as ((s1 & E1 & _ & R1) & _ & Hs & Hno).
  split_and!.
  - exists s1. split; [exact E1|exact R1].
  - vm_compute. reflexivity.
  - destruct (Hs [] 2 [3] eq_refl) as (s2 & E2 & _ & R2). exists s2. split; [exact E2|exact R2].
  - vm_compute. reflexivity.
  - apply (Hno 1 3). eexists. split; [reflexivity|]. by_decide.
Defined.

(** Nobody else holds the children once their creator let go of them: releasing 1
    frees all three; removing 2 frees it alone. *)
Lemma tree_frees_what_nobody_holds_witness :
  (∃ s' F', ends_in (λ fuel, CFRelease fuel 1 demo2) s' ∧ drops (freed forest2 1) (dropped forest2 1) [] demo2 forest2 s' F') ∧
  (∃ s' F', ends_in (λ fuel, CFTreeRemove fuel 2 demo2) s' ∧
     drops (freed forest2 2) (dropped forest2 2) [] demo2 (alter (set_children [3]) 1 forest2) s' F') ∧
  CFTreeRemove 0 4 demo2 = Some demo2.
Proof.
  destruct (tree_frees_what_nobody_holds demo2 forest2 demo2_represents) as (H1 & H2 & _ & H4).
  assert (Hroot : is_root forest2 1) by root_decide.
  split; [|split].
  - apply (H1 1 (set_children [2; 3] (lone_entry 10))); [reflexivity|right; apply Hroot].
  - apply (H2 1 (set_children [2; 3] (lone_entry 10)) [] 2 [3]); reflexivity.
  - apply H4. root_decide.
Defined.

(** The creator of 2 lets go of it, and not that of 3: releasing 1 calls the
    release callback for 1 and 2, and 3 stays, as a root. *)
Example demo_release : (s ← CFRelease 1 2 demo2; CFRelease 5 1 s) =
  Some {| nodes := <[4 := lone 40]> {[3 := lone 30]}; calls := [Called 8 10; Called 8 20] |}.
Proof. vm_compute. reflexivity. Qed.

Lemma tree_reads_witness :
  CFTreeGetParent 3 demo2 = Some (Some 1) ∧ CFTreeGetChildCount 2 1 demo2 = Some 2 ∧
  CFTreeGetChildAtIndex 2 1 1 demo2 = Some (Some 3) ∧ CFTreeGetChildren 2 1 [0; 0; 9] demo2 = Some [2; 3; 9] ∧
  CFTreeGetChildren 2 1 [0] demo2 = None.
Proof.
  destruct (tree_reads demo2 forest2 1 (set_children [2; 3] (lone_entry 10)) demo2_represents eq_refl)
    as (_ & _ & _ & _ & Hf & _).
  destruct (tree_reads demo2 forest2 3 (set_count 2 (lone_entry 30)) demo2_represents eq_refl) as (Hp & _).
  destruct (Hf 2%nat (le_n _)) as (H1 & H2 & H3 & H4 & _). split_and!.
  - apply Hp. eexists. split; [reflexivity|]. by_decide.
  - exact H1.
  - exact (H2 1).
  - exact (H3 [0; 0] [9] eq_refl).
  - apply (H4 [0]). reflexivity.
Defined.

(** Descending addresses: a comparator. *)
Definition downwards (a b : Z) : Z := b - a.

Lemma tree_sort_children_witness :
  let _ := backwards in let _ := plenty 0 in
  (∃ s' idx, CFTreeSortChildren 2 1 downwards demo2 = Some s' ∧ calls s' = [] ∧
     represents [] (nodes s') (alter (set_children (child_at [2; 3] <$> idx)) 1 forest2) ∧ idx ≡ₚ [0; 1] ∧
     StronglySorted (before (λ i j, downwards (child_at [2; 3] i) (child_at [2; 3] j))) idx) ∧
  (s' ← CFTreeSortChildren 2 1 downwards demo2; CFTreeGetChildren 2 1 [0; 0] s') = Some [3; 2].
Proof.
  split; [|vm_compute; reflexivity].
  apply (tree_sort_children (Da := backwards) (Sc := plenty 0) demo2 forest2 1 (set_children [2; 3] (lone_entry 10)) downwards 2).
  - apply demo2_represents.
  - reflexivity.
  - split; unfold downwards; lia.
  - intros k _. by eexists.
  - reflexivity.
  - exact (le_n _).
Defined.

(** A fifth node; then the context of the second is replaced, its callbacks by
    those of CF objects. *)
Lemma tree_contexts_witness :
  (∃ s' c, CFTreeCreate (Some 5) {| version := 0; info := 50; context_callbacks := demo_callbacks |} demo2 = Some (Some 5, s') ∧
     represents [] (nodes s') (<[5 := {| children := []; count := 1; content := c |}]> forest2) ∧ calls s' = [Called 7 50]) ∧
  (∃ s', CFTreeSetContext 2 {| version := 0; info := 60; context_callbacks := __kCFTypeTreeCallBacks |} demo2 = Some s' ∧
     calls s' = [Called 8 20; Called 100 60] ∧
     CFTreeGetContext 2 s' = Some {| version := 0; info := 60; context_callbacks := __kCFTypeTreeCallBacks |}).
Proof.
  split.
  - destruct (tree_contexts demo2 forest2 {| version := 0; info := 50; context_callbacks := demo_callbacks |}
      demo2_represents) as (H & _). destruct (H 5 eq_refl) as (s' & c & E & R & Hc & _). exists s', c.
    split; [exact E|]. split; [exact R|exact Hc].
  - destruct (tree_contexts demo2 forest2 {| version := 0; info := 60; context_callbacks := __kCFTypeTreeCallBacks |}
      demo2_represents) as (_ & H & _). destruct (H 2 _ eq_refl) as (s' & c & E & _ & Hc & Hg). exists s'.
    split; [exact E|]. split; [exact Hc|exact Hg].
Defined.
End demo.
