(* ===== verification/BasicHash.v ===== *)
(** * CFBasicHash (SourceCode/CFRunLoopRef/CFBasicHash.c, CFBasicHash.h, CFBasicHashFindBucket.m)

    The hash table behind CFDictionary, CFSet and CFBag: open addressing in
    parallel arrays of values, keys, counts and hash codes.  A bucket is empty
    when its word is 0, deleted when it is all ones; the two words are stored
    as two substitutes, which no client may pass.

    [None] is a [HALT] or an access outside an array.  The callbacks are
    functions of the table; the words they return when retaining and those they
    are given when releasing are recorded in [events], newest first.  The
    garbage collector (write barriers, strong and weak memory) is off; its bits
    are kept for the checks of [CFBasicHashCreate].  Arrays that the table does
    not have are empty lists. *)
From S2P Require Import Prelude.
Open Scope Z_scope.

(** ** Constants *)

Definition TableSizes : list Z :=
  [0; 3; 7; 13; 23; 41; 71; 127; 191; 251; 383; 631; 1087; 1723;
   2803; 4523; 7351; 11959; 19447; 31231; 50683; 81919; 132607;
   214519; 346607; 561109; 907759; 1468927; 2376191; 3845119;
   6221311; 10066421; 16287743; 26354171; 42641881; 68996069;
   111638519; 180634607; 292272623; 472907251;
   765180413; 1238087663; 2003267557; 3241355263; 5244622819].

Definition TableCapacities : list Z :=
  [0; 3; 6; 11; 19; 32; 52; 85; 118; 155; 237; 390; 672; 1065;
   1732; 2795; 4543; 7391; 12019; 19302; 31324; 50629; 81956;
   132580; 214215; 346784; 561026; 907847; 1468567; 2376414;
   3844982; 6221390; 10066379; 16287773; 26354132; 42641916;
   68996399; 111638327; 180634415; 292272755;
   472907503; 765180257; 1238087439; 2003267722; 3241355160].

Definition PrimitiveRoots : list Z :=
  [0; 2; 3; 2; 5; 6; 7; 3; 19; 6; 5; 3; 3; 3;
   2; 5; 6; 3; 3; 6; 2; 3; 3;
   3; 5; 10; 3; 3; 22; 3;
   3; 3; 5; 2; 22; 2;
   11; 5; 5; 2;
   3; 10; 2; 3; 10;
   2; 3; 5; 3;
   3; 2; 7; 2;
   3; 3; 3; 2;
   3; 5; 5;
   2; 3; 2].

(** The C arrays have 64 elements, of which those without an initialiser are 0. *)
Definition __CFBasicHashTableSizes (i : Z) : Z := default 0 (TableSizes.[i]).
Definition __CFBasicHashTableCapacities (i : Z) : Z := default 0 (TableCapacities.[i]).
Definition __CFBasicHashPrimitiveRoots (i : Z) : Z := default 0 (PrimitiveRoots.[i]).

Definition __CFBasicHashSubABZero : Z := 0xa7baadb1.
Definition __CFBasicHashSubABOne : Z := 0xa5baadb9.

(** [~0UL] *)
Definition all_ones : Z := 2 ^ 64 - 1.
Definition LONG_MAX : Z := 2 ^ 63 - 1.

Definition __kCFBasicHashLinearHashingValue : Z := 1.
Definition __kCFBasicHashDoubleHashingValue : Z := 2.
Definition __kCFBasicHashExponentialHashingValue : Z := 3.

Definition kCFBasicHashHasKeys : Z := 2 ^ 0.
Definition kCFBasicHashHasCounts : Z := 2 ^ 1.
Definition kCFBasicHashHasHashCache : Z := 2 ^ 2.
Definition kCFBasicHashIntegerValues : Z := 2 ^ 6.
Definition kCFBasicHashIntegerKeys : Z := 2 ^ 7.
Definition kCFBasicHashStrongValues : Z := 2 ^ 8.
Definition kCFBasicHashStrongKeys : Z := 2 ^ 9.
Definition kCFBasicHashWeakValues : Z := 2 ^ 10.
Definition kCFBasicHashWeakKeys : Z := 2 ^ 11.
Definition kCFBasicHashIndirectKeys : Z := 2 ^ 12.
Definition kCFBasicHashLinearHashing : Z := 1 * 2 ^ 13.
Definition kCFBasicHashDoubleHashing : Z := 2 * 2 ^ 13.
Definition kCFBasicHashExponentialHashing : Z := 3 * 2 ^ 13.
Definition kCFBasicHashAggressiveGrowth : Z := 2 ^ 15.

(** ** Data *)

(** The callbacks; a release callback has no result, so that it is there or not. *)
Record CFBasicHashCallbacks := {
  retainValue : option (Z → Z);
  retainKey : option (Z → Z);
  releaseValue : bool;
  releaseKey : bool;
  equateValues : option (Z → Z → bool);
  equateKeys : option (Z → Z → bool);
  hashKey : option (Z → Z);
  getIndirectKey : option (Z → Z);
}.

Inductive event :=
  | RetainedValue (v : Z) | RetainedKey (k : Z)
  | ReleasedValue (v : Z) | ReleasedKey (k : Z).

(** What [CFBasicHashCreate] fixes.  An offset is the place of an array among
    the pointers of the table: here, whether there is such an array. *)
Record config := {
  hash_style : Z;
  keys_offset : bool;
  counts_offset : bool;
  hashes_offset : bool;
  strong_values : bool; strong_keys : bool;
  weak_values : bool; weak_keys : bool;
  int_values : bool; int_keys : bool;
  indirect_keys : bool;
  fast_grow : bool;
  callbacks : CFBasicHashCallbacks;
}.

Record CFBasicHash := {
  conf : config;
  immutable : bool;
  null_rc : bool;
  finalized : bool;
  mutations : Z;
  counts_width : Z;
  used_buckets : Z;
  deleted : Z;
  num_buckets_idx : Z;
  values : list Z;
  keys : list Z;
  counts : list Z;
  hashes : list Z;
  events : list event;
}.

Record CFBasicHashBucket := { idx : Z; weak_key : Z; weak_value : Z; count : Z }.

(** A bucket without an element; the C code leaves the words out or sets them to 0. *)
Definition no_element (i : Z) : CFBasicHashBucket :=
  {| idx := i; weak_key := 0; weak_value := 0; count := 0 |}.

(** Assignments to the fields. *)
Definition set_immutable (ht : CFBasicHash) (x : bool) : CFBasicHash :=
  {| conf := conf ht; immutable := x; null_rc := null_rc ht; finalized := finalized ht;
     mutations := mutations ht; counts_width := counts_width ht;
     used_buckets := used_buckets ht; deleted := deleted ht;
     num_buckets_idx := num_buckets_idx ht; values := values ht; keys := keys ht;
     counts := counts ht; hashes := hashes ht; events := events ht |}.
Definition set_null_rc (ht : CFBasicHash) (x : bool) : CFBasicHash :=
  {| conf := conf ht; immutable := immutable ht; null_rc := x; finalized := finalized ht;
     mutations := mutations ht; counts_width := counts_width ht;
     used_buckets := used_buckets ht; deleted := deleted ht;
     num_buckets_idx := num_buckets_idx ht; values := values ht; keys := keys ht;
     counts := counts ht; hashes := hashes ht; events := events ht |}.
Definition set_finalized (ht : CFBasicHash) (x : bool) : CFBasicHash :=
  {| conf := conf ht; immutable := immutable ht; null_rc := null_rc ht; finalized := x;
     mutations := mutations ht; counts_width := counts_width ht;
     used_buckets := used_buckets ht; deleted := deleted ht;
     num_buckets_idx := num_buckets_idx ht; values := values ht; keys := keys ht;
     counts := counts ht; hashes := hashes ht; events := events ht |}.
Definition set_mutations (ht : CFBasicHash) (x : Z) : CFBasicHash :=
  {| conf := conf ht; immutable := immutable ht; null_rc := null_rc ht;
     finalized := finalized ht; mutations := x; counts_width := counts_width ht;
     used_buckets := used_buckets ht; deleted := deleted ht;
     num_buckets_idx := num_buckets_idx ht; values := values ht; keys := keys ht;
     counts := counts ht; hashes := hashes ht; events := events ht |}.
Definition set_counts_width (ht : CFBasicHash) (x : Z) : CFBasicHash :=
  {| conf := conf ht; immutable := immutable ht; null_rc := null_rc ht;
     finalized := finalized ht; mutations := mutations ht; counts_width := x;
     used_buckets := used_buckets ht; deleted := deleted ht;
     num_buckets_idx := num_buckets_idx ht; values := values ht; keys := keys ht;
     counts := counts ht; hashes := hashes ht; events := events ht |}.
Definition set_used_buckets (ht : CFBasicHash) (x : Z) : CFBasicHash :=
  {| conf := conf ht; immutable := immutable ht; null_rc := null_rc ht;
     finalized := finalized ht; mutations := mutations ht; counts_width := counts_width ht;
     used_buckets := x; deleted := deleted ht; num_buckets_idx := num_buckets_idx ht;
     values := values ht; keys := keys ht; counts := counts ht; hashes := hashes ht;
     events := events ht |}.
Definition set_deleted (ht : CFBasicHash) (x : Z) : CFBasicHash :=
  {| conf := conf ht; immutable := immutable ht; null_rc := null_rc ht;
     finalized := finalized ht; mutations := mutations ht; counts_width := counts_width ht;
     used_buckets := used_buckets ht; deleted := x; num_buckets_idx := num_buckets_idx ht;
     values := values ht; keys := keys ht; counts := counts ht; hashes := hashes ht;
     events := events ht |}.
Definition set_num_buckets_idx (ht : CFBasicHash) (x : Z) : CFBasicHash :=
  {| conf := conf ht; immutable := immutable ht; null_rc := null_rc ht;
     finalized := finalized ht; mutations := mutations ht; counts_width := counts_width ht;
     used_buckets := used_buckets ht; deleted := deleted ht; num_buckets_idx := x;
     values := values ht; keys := keys ht; counts := counts ht; hashes := hashes ht;
     events := events ht |}.
Definition set_values (ht : CFBasicHash) (x : list Z) : CFBasicHash :=
  {| conf := conf ht; immutable := immutable ht; null_rc := null_rc ht;
     finalized := finalized ht; mutations := mutations ht; counts_width := counts_width ht;
     used_buckets := used_buckets ht; deleted := deleted ht;
     num_buckets_idx := num_buckets_idx ht; values := x; keys := keys ht; counts := counts ht;
     hashes := hashes ht; events := events ht |}.
Definition set_keys (ht : CFBasicHash) (x : list Z) : CFBasicHash :=
  {| conf := conf ht; immutable := immutable ht; null_rc := null_rc ht;
     finalized := finalized ht; mutations := mutations ht; counts_width := counts_width ht;
     used_buckets := used_buckets ht; deleted := deleted ht;
     num_buckets_idx := num_buckets_idx ht; values := values ht; keys := x;
     counts := counts ht; hashes := hashes ht; events := events ht |}.
Definition set_counts (ht : CFBasicHash) (x : list Z) : CFBasicHash :=
  {| conf := conf ht; immutable := immutable ht; null_rc := null_rc ht;
     finalized := finalized ht; mutations := mutations ht; counts_width := counts_width ht;
     used_buckets := used_buckets ht; deleted := deleted ht;
     num_buckets_idx := num_buckets_idx ht; values := values ht; keys := keys ht; counts := x;
     hashes := hashes ht; events := events ht |}.
Definition set_hashes (ht : CFBasicHash) (x : list Z) : CFBasicHash :=
  {| conf := conf ht; immutable := immutable ht; null_rc := null_rc ht;
     finalized := finalized ht; mutations := mutations ht; counts_width := counts_width ht;
     used_buckets := used_buckets ht; deleted := deleted ht;
     num_buckets_idx := num_buckets_idx ht; values := values ht; keys := keys ht;
     counts := counts ht; hashes := x; events := events ht |}.
Definition set_events (ht : CFBasicHash) (x : list event) : CFBasicHash :=
  {| conf := conf ht; immutable := immutable ht; null_rc := null_rc ht;
     finalized := finalized ht; mutations := mutations ht; counts_width := counts_width ht;
     used_buckets := used_buckets ht; deleted := deleted ht;
     num_buckets_idx := num_buckets_idx ht; values := values ht; keys := keys ht;
     counts := counts ht; hashes := hashes ht; events := x |}.

Definition mutated (ht : CFBasicHash) : CFBasicHash := set_mutations ht (u16 (mutations ht + 1)).
Definition log (ht : CFBasicHash) (e : event) : CFBasicHash := set_events ht (e :: events ht).

(** ** Callbacks *)

Definition __CFBasicHashHasHashCache (ht : CFBasicHash) : bool := hashes_offset (conf ht).

Definition __CFBasicHashImportValue (ht : CFBasicHash) (stack_value : Z) : Z * CFBasicHash :=
  match retainValue (callbacks (conf ht)) with
  | Some func =>
      if null_rc ht then (stack_value, ht)
      else (func stack_value, log ht (RetainedValue (func stack_value)))
  | None => (stack_value, ht)
  end.

Definition __CFBasicHashImportKey (ht : CFBasicHash) (stack_key : Z) : Z * CFBasicHash :=
  match retainKey (callbacks (conf ht)) with
  | Some func =>
      if null_rc ht then (stack_key, ht)
      else (func stack_key, log ht (RetainedKey (func stack_key)))
  | None => (stack_key, ht)
  end.

Definition __CFBasicHashEjectValue (ht : CFBasicHash) (stack_value : Z) : CFBasicHash :=
  if negb (releaseValue (callbacks (conf ht))) || null_rc ht then ht
  else log ht (ReleasedValue stack_value).

Definition __CFBasicHashEjectKey (ht : CFBasicHash) (stack_key : Z) : CFBasicHash :=
  if negb (releaseKey (callbacks (conf ht))) || null_rc ht then ht
  else log ht (ReleasedKey stack_key).

Definition __CFBasicHashTestEqualValue (c : config) (stack_value_a stack_value_b : Z) : bool :=
  match equateValues (callbacks c) with
  | None => stack_value_a =? stack_value_b
  | Some func => func stack_value_a stack_value_b
  end.

Definition __CFBasicHashTestEqualKey (c : config) (in_coll_key stack_key : Z) : bool :=
  match equateKeys (callbacks c) with
  | None => in_coll_key =? stack_key
  | Some func => func in_coll_key stack_key
  end.

Definition __CFBasicHashHashKey (c : config) (stack_key : Z) : Z :=
  match hashKey (callbacks c) with None => stack_key | Some func => func stack_key end.

Definition __CFBasicHashGetIndirectKey (c : config) (coll_key : Z) : Z :=
  match getIndirectKey (callbacks c) with None => coll_key | Some func => func coll_key end.

(** ** Words of a bucket *)

(** The two tests that turn a stored word into the client's. *)
Definition decode (w : Z) : Z :=
  if w =? __CFBasicHashSubABZero then 0 else if w =? __CFBasicHashSubABOne then all_ones else w.

Definition encode (w : Z) : Z :=
  if w =? 0 then __CFBasicHashSubABZero else if w =? all_ones then __CFBasicHashSubABOne else w.

(** Neither empty nor deleted. *)
Definition occupied (w : Z) : bool := negb ((w =? 0) || (w =? all_ones)).

Definition __CFBasicHashGetKeys (ht : CFBasicHash) : list Z :=
  if keys_offset (conf ht) then keys ht else values ht.

Definition __CFBasicHashGetValue (ht : CFBasicHash) (i : Z) : option Z :=
  val ← (values ht).[i]; Some (decode val).

Definition __CFBasicHashSetValue (ht : CFBasicHash) (i stack_value : Z) (ignoreOld literal : bool)
    : option CFBasicHash :=
  old_value ← (if ignoreOld then Some 0 else (values ht).[i]);
  vs ← (values ht).[i := if literal then stack_value else encode stack_value];
  let ht := set_values ht vs in
  Some (if negb ignoreOld && occupied old_value then __CFBasicHashEjectValue ht (decode old_value)
        else ht).

Definition __CFBasicHashGetKey (ht : CFBasicHash) (i : Z) : option Z :=
  if keys_offset (conf ht) then key ← (keys ht).[i]; Some (decode key)
  else if indirect_keys (conf ht) then
    stack_value ← __CFBasicHashGetValue ht i;
    Some (__CFBasicHashGetIndirectKey (conf ht) stack_value)
  else __CFBasicHashGetValue ht i.

Definition __CFBasicHashSetKey (ht : CFBasicHash) (i stack_key : Z) (ignoreOld literal : bool)
    : option CFBasicHash :=
  if negb (keys_offset (conf ht)) then None else
  old_key ← (if ignoreOld then Some 0 else (keys ht).[i]);
  ks ← (keys ht).[i := if literal then stack_key else encode stack_key];
  let ht := set_keys ht ks in
  Some (if negb ignoreOld && occupied old_key then __CFBasicHashEjectKey ht (decode old_key)
        else ht).

Definition __CFBasicHashIsEmptyOrDeleted (ht : CFBasicHash) (i : Z) : option bool :=
  stack_value ← (values ht).[i]; Some ((0 =? stack_value) || (all_ones =? stack_value)).

Definition __CFBasicHashIsDeleted (ht : CFBasicHash) (i : Z) : option bool :=
  stack_value ← (values ht).[i]; Some (all_ones =? stack_value).

(** ** Counts *)

Definition __CFBasicHashGetSlotCount (ht : CFBasicHash) (i : Z) : option Z := (counts ht).[i].

(** The element type of the counts: [uint8_t], [uint16_t], [uint32_t], [uint64_t]. *)
Definition count_bits (width : Z) : Z := 8 * 2 ^ width.

(** [INT8_MAX], [INT16_MAX], [INT32_MAX], [INT64_MAX] *)
Definition count_max (width : Z) : Z := 2 ^ (count_bits width - 1) - 1.

Section allocation.
Context `{Allocator}.

(** Memory for [n] elements, filled by [memset] or by the caller. *)
Definition __CFBasicHashAllocateMemory (n elem_size : Z) : option (list Z) :=
  _ ← alloc (n * elem_size); Some (replicate (Z.to_nat n) 0).

(** A wider array takes the counts over. *)
Definition __CFBasicHashBumpCounts (ht : CFBasicHash) : option CFBasicHash :=
  if 3 <=? counts_width ht then None else
  let num_buckets := __CFBasicHashTableSizes (num_buckets_idx ht) in
  let width := counts_width ht + 1 in
  _ ← __CFBasicHashAllocateMemory num_buckets (2 ^ width);
  new_counts ← zsub (counts ht) 0 num_buckets;
  Some (set_counts (set_counts_width ht width) new_counts).

(** The function calls itself after [__CFBasicHashBumpCounts], which stops at
    the width 3: [fuel] is the number of widths left. *)
Fixpoint inc_slot_count (ht : CFBasicHash) (i : Z) (fuel : nat) : option CFBasicHash :=
  val ← (counts ht).[i];
  if val <? count_max (counts_width ht) then
    cs ← (counts ht).[i := val + 1]; Some (set_counts ht cs)
  else match fuel with
  | O => None
  | S fuel => ht ← __CFBasicHashBumpCounts ht; inc_slot_count ht i fuel
  end.

Definition __CFBasicHashIncSlotCount (ht : CFBasicHash) (i : Z) : option CFBasicHash :=
  inc_slot_count ht i 4.

End allocation.

Definition __CFBasicHashDecSlotCount (ht : CFBasicHash) (i : Z) : option CFBasicHash :=
  val ← (counts ht).[i];
  cs ← (counts ht).[i := (val - 1) mod 2 ^ count_bits (counts_width ht)];
  Some (set_counts ht cs).

(** ** Capacity *)

Definition __CFBasicHashGetCapacityForNumBuckets (i : Z) : Z := __CFBasicHashTableCapacities i.

(** [for (idx = 0; idx < 64; idx++)] *)
Fixpoint index_for_capacity (capacity i : Z) (n : nat) : option Z :=
  match n with
  | O => None
  | S n =>
      if capacity <=? __CFBasicHashGetCapacityForNumBuckets i then Some i
      else index_for_capacity capacity (i + 1) n
  end.

Definition __CFBasicHashGetNumBucketsIndexForCapacity (capacity : Z) : option Z :=
  index_for_capacity capacity 0 64.

Definition CFBasicHashGetNumBuckets (ht : CFBasicHash) : Z :=
  __CFBasicHashTableSizes (num_buckets_idx ht).

Definition CFBasicHashGetCapacity (ht : CFBasicHash) : Z :=
  __CFBasicHashGetCapacityForNumBuckets (num_buckets_idx ht).

Definition CFBasicHashGetBucket (ht : CFBasicHash) (i : Z) : option CFBasicHashBucket :=
  e ← __CFBasicHashIsEmptyOrDeleted ht i;
  if (e : bool) then Some (no_element i) else
  c ← (if counts_offset (conf ht) then __CFBasicHashGetSlotCount ht i else Some 1);
  v ← __CFBasicHashGetValue ht i;
  k ← __CFBasicHashGetKey ht i;
  Some {| idx := i; weak_key := k; weak_value := v; count := c |}.

(** ** Probing (CFBasicHashFindBucket.m) *)

(** [h1], [h2] and the root of the probe sequence of a hash code. *)
Definition probe_h1 (num_buckets hash_code : Z) : Z := hash_code mod num_buckets.
Definition probe_h2 (num_buckets hash_code : Z) : Z :=
  let h2 := hash_code / num_buckets mod num_buckets in
  if 0 =? h2 then num_buckets - 1 else h2.

(** The end of an iteration: the next values of [probe] and [acc]. *)
Definition next_probe (style num_buckets h1 h2 pr probe acc : Z) : Z * Z :=
  if style =? __kCFBasicHashLinearHashingValue then
    let probe := u64 (probe + 1) in
    (if num_buckets <=? probe then probe - num_buckets else probe, acc)
  else if style =? __kCFBasicHashDoubleHashingValue then
    let probe := u64 (probe + h2) in
    (if num_buckets <=? probe then probe - num_buckets else probe, acc)
  else
    let probe := u64 (h1 + h2 * acc) in
    let probe := if num_buckets <=? probe then probe mod num_buckets else probe in
    let acc := u64 (acc * pr) in
    (probe, if num_buckets <=? acc then acc mod num_buckets else acc).

Section probing.
Context (ht : CFBasicHash) (style num_buckets h1 h2 pr : Z).

(** [curr_key == stack_key || ((!hashes || hashes[probe] == hash_code) && equal)] *)
Definition bucket_matches (curr_key stack_key hash_code probe : Z) : option bool :=
  if curr_key =? stack_key then Some true
  else if __CFBasicHashHasHashCache ht then
    h ← (hashes ht).[probe];
    Some ((h =? hash_code) && __CFBasicHashTestEqualKey (conf ht) curr_key stack_key)
  else Some (__CFBasicHashTestEqualKey (conf ht) curr_key stack_key).

(** The loop of the search; [n] is the number of iterations left. *)
Fixpoint find_loop (stack_key hash_code deleted_idx probe acc : Z) (n : nat)
    : option CFBasicHashBucket :=
  match n with
  | O => Some (no_element deleted_idx)
  | S n =>
      curr_key ← (__CFBasicHashGetKeys ht).[probe];
      let (probe', acc') := next_probe style num_buckets h1 h2 pr probe acc in
      if curr_key =? 0 then
        Some (no_element (if kCFNotFound =? deleted_idx then probe else deleted_idx))
      else if curr_key =? all_ones then
        find_loop stack_key hash_code (if kCFNotFound =? deleted_idx then probe else deleted_idx)
          probe' acc' n
      else
        let curr_key := decode curr_key in
        let curr_key := if indirect_keys (conf ht)
                        then __CFBasicHashGetIndirectKey (conf ht) curr_key else curr_key in
        m ← bucket_matches curr_key stack_key hash_code probe;
        if (m : bool) then
          v ← __CFBasicHashGetValue ht probe;
          c ← (if counts_offset (conf ht) then __CFBasicHashGetSlotCount ht probe else Some 1);
          Some {| idx := probe; weak_key := curr_key; weak_value := v; count := c |}
        else find_loop stack_key hash_code deleted_idx probe' acc' n
  end.

(** The loop for rehashing: the first empty bucket. *)
Fixpoint find_empty_loop (probe acc : Z) (n : nat) : option Z :=
  match n with
  | O => Some kCFNotFound
  | S n =>
      curr_key ← (__CFBasicHashGetKeys ht).[probe];
      let (probe', acc') := next_probe style num_buckets h1 h2 pr probe acc in
      if curr_key =? 0 then Some probe else find_empty_loop probe' acc' n
  end.
End probing.

(** The twelve functions the file is included for: [hash_style] is the
    [FIND_BUCKET_HASH_STYLE], [indirect_keys] the [FIND_BUCKET_FOR_INDIRECT_KEY]. *)
Definition ___CFBasicHashFindBucket (ht : CFBasicHash) (stack_key : Z) : option CFBasicHashBucket :=
  let num_buckets := __CFBasicHashTableSizes (num_buckets_idx ht) in
  let hash_code := __CFBasicHashHashKey (conf ht) stack_key in
  let h1 := probe_h1 num_buckets hash_code in
  let h2 := probe_h2 num_buckets hash_code in
  let pr := __CFBasicHashPrimitiveRoots (num_buckets_idx ht) in
  find_loop ht (hash_style (conf ht)) num_buckets h1 h2 pr stack_key hash_code kCFNotFound h1 pr
    (Z.to_nat num_buckets).

Definition ___CFBasicHashFindBucket_NoCollision (ht : CFBasicHash) (stack_key key_hash : Z)
    : option Z :=
  let num_buckets := __CFBasicHashTableSizes (num_buckets_idx ht) in
  let hash_code := if key_hash =? 0 then __CFBasicHashHashKey (conf ht) stack_key else key_hash in
  let h1 := probe_h1 num_buckets hash_code in
  let h2 := probe_h2 num_buckets hash_code in
  let pr := __CFBasicHashPrimitiveRoots (num_buckets_idx ht) in
  find_empty_loop ht (hash_style (conf ht)) num_buckets h1 h2 pr h1 pr (Z.to_nat num_buckets).

(** The [switch] on the style, which halts on another value. *)
Definition known_style (style : Z) : bool :=
  (style =? __kCFBasicHashLinearHashingValue) || (style =? __kCFBasicHashDoubleHashingValue)
  || (style =? __kCFBasicHashExponentialHashingValue).

Definition __CFBasicHashFindBucket (ht : CFBasicHash) (stack_key : Z) : option CFBasicHashBucket :=
  if 0 =? num_buckets_idx ht then Some (no_element kCFNotFound)
  else if known_style (hash_style (conf ht)) then ___CFBasicHashFindBucket ht stack_key
  else None.

Definition __CFBasicHashFindBucket_NoCollision (ht : CFBasicHash) (stack_key key_hash : Z)
    : option Z :=
  if 0 =? num_buckets_idx ht then Some kCFNotFound
  else if known_style (hash_style (conf ht)) then
    ___CFBasicHashFindBucket_NoCollision ht stack_key key_hash
  else None.

Definition is_substitute (w : Z) : bool :=
  (__CFBasicHashSubABZero =? w) || (__CFBasicHashSubABOne =? w).

Definition CFBasicHashFindBucket (ht : CFBasicHash) (stack_key : Z) : option CFBasicHashBucket :=
  if is_substitute stack_key then Some (no_element kCFNotFound)
  else __CFBasicHashFindBucket ht stack_key.

Definition CFBasicHashSuppressRC (ht : CFBasicHash) : CFBasicHash := set_null_rc ht true.
Definition CFBasicHashUnsuppressRC (ht : CFBasicHash) : CFBasicHash := set_null_rc ht false.
Definition CFBasicHashIsMutable (ht : CFBasicHash) : bool := negb (immutable ht).
Definition CFBasicHashMakeImmutable (ht : CFBasicHash) : CFBasicHash := set_immutable ht true.

Definition flag (b : bool) (f : Z) : Z := if b then f else 0.

Definition CFBasicHashGetFlags (ht : CFBasicHash) : Z :=
  let c := conf ht in
  let flags := Z.shiftl (hash_style c) 13 in
  let flags := Z.lor flags (flag (strong_values c) kCFBasicHashStrongValues) in
  let flags := Z.lor flags (flag (strong_keys c) kCFBasicHashStrongKeys) in
  let flags := Z.lor flags (flag (fast_grow c) kCFBasicHashAggressiveGrowth) in
  let flags := Z.lor flags (flag (keys_offset c) kCFBasicHashHasKeys) in
  let flags := Z.lor flags (flag (counts_offset c) kCFBasicHashHasCounts) in
  Z.lor flags (flag (hashes_offset c) kCFBasicHashHasHashCache).

(** ** Reading *)

(** The sum of the counts; the sum of [CFIndex] wraps. *)
Fixpoint total_loop (ht : CFBasicHash) (i total : Z) (n : nat) : option Z :=
  match n with
  | O => Some total
  | S n => c ← __CFBasicHashGetSlotCount ht i; total_loop ht (i + 1) (sint 64 (total + c)) n
  end.

Definition CFBasicHashGetCount (ht : CFBasicHash) : option Z :=
  if counts_offset (conf ht) then
    total_loop ht 0 0 (Z.to_nat (__CFBasicHashTableSizes (num_buckets_idx ht)))
  else Some (used_buckets ht).

Definition CFBasicHashGetCountOfKey (ht : CFBasicHash) (stack_key : Z) : option Z :=
  if is_substitute stack_key then Some 0
  else if 0 =? used_buckets ht then Some 0
  else b ← __CFBasicHashFindBucket ht stack_key; Some (count b).

(** The block of [CFBasicHashApply] threads a state of its own; its Boolean
    tells whether to go on. *)
Section apply.
Context {S : Type} (ht : CFBasicHash) (block : CFBasicHashBucket → S → option (bool * S)).

Fixpoint apply_loop (used i : Z) (s : S) (n : nat) : option S :=
  match n with
  | O => Some s
  | Datatypes.S n =>
      if 0 <? used then
        bkt ← CFBasicHashGetBucket ht i;
        if 0 <? count bkt then
          '(go, s) ← block bkt s;
          if (go : bool) then apply_loop (used - 1) (i + 1) s n else Some s
        else apply_loop used (i + 1) s n
      else Some s
  end.

Definition CFBasicHashApply (s : S) : option S :=
  apply_loop (used_buckets ht) 0 s (Z.to_nat (__CFBasicHashTableSizes (num_buckets_idx ht))).

Fixpoint apply_indexed_loop (i : Z) (s : S) (n : nat) : option S :=
  match n with
  | O => Some s
  | Datatypes.S n =>
      bkt ← CFBasicHashGetBucket ht i;
      if 0 <? count bkt then
        '(go, s) ← block bkt s;
        if (go : bool) then apply_indexed_loop (i + 1) s n else Some s
      else apply_indexed_loop (i + 1) s n
  end.

Definition CFBasicHashApplyIndexed (range : CFRange) (s : S) : option S :=
  if range_length range <? 0 then None
  else if range_length range =? 0 then Some s
  else if __CFBasicHashTableSizes (num_buckets_idx ht) <? location range + range_length range
  then None
  else apply_indexed_loop (location range) s (Z.to_nat (range_length range)).
End apply.

Definition CFBasicHashGetCountOfValue (ht : CFBasicHash) (stack_value : Z) : option Z :=
  if __CFBasicHashSubABZero =? stack_value then Some 0
  else if 0 =? used_buckets ht then Some 0
  else if negb (keys_offset (conf ht)) then
    b ← __CFBasicHashFindBucket ht stack_value; Some (count b)
  else
    CFBasicHashApply ht (λ bkt total,
      Some (true,
        if (stack_value =? weak_value bkt)
           || __CFBasicHashTestEqualValue (conf ht) (weak_value bkt) stack_value
        then sint 64 (total + count bkt) else total)) 0.

Definition CFBasicHashesAreEqual (ht1 ht2 : CFBasicHash) : option bool :=
  cnt1 ← CFBasicHashGetCount ht1;
  cnt2 ← CFBasicHashGetCount ht2;
  if negb (cnt1 =? cnt2) then Some false
  else if 0 =? cnt1 then Some true
  else
    CFBasicHashApply ht1 (λ bkt1 equal,
      bkt2 ← __CFBasicHashFindBucket ht2 (weak_key bkt1);
      if negb (count bkt1 =? count bkt2) then Some (false, false)
      else if keys_offset (conf ht1) && negb (weak_value bkt1 =? weak_value bkt2)
              && negb (__CFBasicHashTestEqualValue (conf ht1) (weak_value bkt1) (weak_value bkt2))
      then Some (false, false)
      else Some (true, equal)) true.

(** [for (CFIndex cnt = bkt.count; cnt-- && offset < bufferslen;)]: a buffer
    is written when there is one. *)
Definition store (buf : option (list Z)) (offset w : Z) : option (option (list Z)) :=
  match buf with
  | None => Some None
  | Some b => b ← b.[offset := w]; Some (Some b)
  end.

Fixpoint copies_loop (bkt : CFBasicHashBucket) (bufferslen offset : Z)
    (weak_values weak_keys : option (list Z)) (cnt : nat)
    : option (Z * option (list Z) * option (list Z)) :=
  match cnt with
  | O => Some (offset, weak_values, weak_keys)
  | S cnt =>
      if offset <? bufferslen then
        weak_values ← store weak_values offset (weak_value bkt);
        weak_keys ← store weak_keys offset (weak_key bkt);
        copies_loop bkt bufferslen (offset + 1) weak_values weak_keys cnt
      else Some (offset, weak_values, weak_keys)
  end.

Fixpoint elements_loop (ht : CFBasicHash) (bufferslen used i offset : Z)
    (weak_values weak_keys : option (list Z)) (n : nat)
    : option (option (list Z) * option (list Z)) :=
  match n with
  | O => Some (weak_values, weak_keys)
  | S n =>
      if (0 <? used) && (offset <? bufferslen) then
        bkt ← CFBasicHashGetBucket ht i;
        if 0 <? count bkt then
          '(offset, weak_values, weak_keys) ←
            copies_loop bkt bufferslen offset weak_values weak_keys (Z.to_nat (count bkt));
          elements_loop ht bufferslen (used - 1) (i + 1) offset weak_values weak_keys n
        else elements_loop ht bufferslen used (i + 1) offset weak_values weak_keys n
      else Some (weak_values, weak_keys)
  end.

Definition CFBasicHashGetElements (ht : CFBasicHash) (bufferslen : Z)
    (weak_values weak_keys : option (list Z)) : option (option (list Z) * option (list Z)) :=
  elements_loop ht bufferslen (used_buckets ht) 0 0 weak_values weak_keys
    (Z.to_nat (__CFBasicHashTableSizes (num_buckets_idx ht))).

(** The state of an enumeration is the next bucket; the results are the number
    of keys put in the buffer, the state and the buffer. *)
Fixpoint enumeration_loop (ht : CFBasicHash) (cap used i cntx state : Z) (buffer : list Z) (n : nat)
    : option (Z * Z * list Z) :=
  match n with
  | O => Some (cntx, state, buffer)
  | S n =>
      if (0 <? used) && (cntx <? cap) then
        bkt ← CFBasicHashGetBucket ht i;
        if 0 <? count bkt then
          buffer ← buffer.[cntx := weak_key bkt];
          enumeration_loop ht cap (used - 1) (i + 1) (cntx + 1) (state + 1) buffer n
        else enumeration_loop ht cap used (i + 1) cntx (state + 1) buffer n
      else Some (cntx, state, buffer)
  end.

Definition __CFBasicHashFastEnumeration (ht : CFBasicHash) (state : Z) (stackbuffer : list Z)
    (count : Z) : option (Z * Z * list Z) :=
  enumeration_loop ht count (used_buckets ht) state 0 state stackbuffer
    (Z.to_nat (__CFBasicHashTableSizes (num_buckets_idx ht) - state)).

(** ** Changing *)

(** The loop of [__CFBasicHashDrain]: the elements of the old arrays are released. *)
Fixpoint drain_loop (ht : CFBasicHash) (old_values old_keys : list Z) (i : Z) (n : nat)
    : option CFBasicHash :=
  match n with
  | O => Some ht
  | S n =>
      stack_value ← old_values.[i];
      if occupied stack_value then
        let ht := __CFBasicHashEjectValue ht (decode stack_value) in
        ht ← (if keys_offset (conf ht) then
                old_key ← old_keys.[i]; Some (__CFBasicHashEjectKey ht (decode old_key))
              else Some ht);
        drain_loop ht old_values old_keys (i + 1) n
      else drain_loop ht old_values old_keys (i + 1) n
  end.

(** Without the collector, [nullify] is true whatever [forFinalization] is. *)
Definition __CFBasicHashDrain (ht : CFBasicHash) : option CFBasicHash :=
  let old_num_buckets := __CFBasicHashTableSizes (num_buckets_idx ht) in
  let old_values := values ht in
  let old_keys := keys ht in
  let ht := set_values ht [] in
  let ht := if keys_offset (conf ht) then set_keys ht [] else ht in
  let ht := if counts_offset (conf ht) then set_counts ht [] else ht in
  let ht := if __CFBasicHashHasHashCache ht then set_hashes ht [] else ht in
  let ht := set_deleted (set_used_buckets (set_num_buckets_idx (mutated ht) 0) 0) 0 in
  drain_loop ht old_values old_keys 0 (Z.to_nat old_num_buckets).

Section changes.
Context `{Allocator}.

(** The new arrays; [HALT] when there is no memory. *)
Definition new_array (has : bool) (num_buckets elem_size : Z) : option (list Z) :=
  if has && (0 <? num_buckets) then __CFBasicHashAllocateMemory num_buckets elem_size else Some [].

(** The body of the loop of [__CFBasicHashRehash]: bucket [i] of the old arrays
    goes to the table. *)
Definition move_bucket (old_values old_keys old_counts old_hashes : list Z) (ht : CFBasicHash)
    (i : Z) : option CFBasicHash :=
  stack_value ← old_values.[i];
  if negb (occupied stack_value) then Some ht else
  let stack_value := decode stack_value in
  stack_key ← (if keys_offset (conf ht) then key ← old_keys.[i]; Some (decode key)
               else Some stack_value);
  let stack_key := if indirect_keys (conf ht)
                   then __CFBasicHashGetIndirectKey (conf ht) stack_value else stack_key in
  key_hash ← (if __CFBasicHashHasHashCache ht then old_hashes.[i] else Some 0);
  bkt_idx ← __CFBasicHashFindBucket_NoCollision ht stack_key key_hash;
  ht ← __CFBasicHashSetValue ht bkt_idx stack_value false false;
  ht ← (if keys_offset (conf ht) then __CFBasicHashSetKey ht bkt_idx stack_key false false
        else Some ht);
  ht ← (if counts_offset (conf ht) then
          c ← old_counts.[i]; cs ← (counts ht).[bkt_idx := c]; Some (set_counts ht cs)
        else Some ht);
  if __CFBasicHashHasHashCache ht then
    hs ← (hashes ht).[bkt_idx := key_hash]; Some (set_hashes ht hs)
  else Some ht.

Fixpoint rehash_loop (old_values old_keys old_counts old_hashes : list Z) (ht : CFBasicHash)
    (i : Z) (n : nat) : option CFBasicHash :=
  match n with
  | O => Some ht
  | S n =>
      ht ← move_bucket old_values old_keys old_counts old_hashes ht i;
      rehash_loop old_values old_keys old_counts old_hashes ht (i + 1) n
  end.

Definition new_index (ht : CFBasicHash) (newItemCount : Z) : option Z :=
  if negb (0 =? newItemCount) then
    let newItemCount := if newItemCount <? 0 then 0 else newItemCount in
    i ← __CFBasicHashGetNumBucketsIndexForCapacity (used_buckets ht + newItemCount);
    Some (if (1 =? newItemCount) && fast_grow (conf ht) then i + 1 else i)
  else Some (num_buckets_idx ht).

Definition __CFBasicHashRehash (ht : CFBasicHash) (newItemCount : Z) : option CFBasicHash :=
  new_num_buckets_idx ← new_index ht newItemCount;
  let new_num_buckets := __CFBasicHashTableSizes new_num_buckets_idx in
  let old_num_buckets := __CFBasicHashTableSizes (num_buckets_idx ht) in
  new_values ← new_array true new_num_buckets 8;
  new_keys ← new_array (keys_offset (conf ht)) new_num_buckets 8;
  new_counts ← new_array (counts_offset (conf ht)) new_num_buckets (2 ^ counts_width ht);
  new_hashes ← new_array (__CFBasicHashHasHashCache ht) new_num_buckets 8;
  let old_values := values ht in
  let old_keys := keys ht in
  let old_counts := counts ht in
  let old_hashes := hashes ht in
  let ht := set_deleted (set_num_buckets_idx ht new_num_buckets_idx) 0 in
  let ht := set_values ht new_values in
  let ht := if keys_offset (conf ht) then set_keys ht new_keys else ht in
  let ht := if counts_offset (conf ht) then set_counts ht new_counts else ht in
  let ht := if __CFBasicHashHasHashCache ht then set_hashes ht new_hashes else ht in
  rehash_loop old_values old_keys old_counts old_hashes ht 0 (Z.to_nat old_num_buckets).

Definition CFBasicHashSetCapacity (ht : CFBasicHash) (capacity : Z) : option CFBasicHash :=
  if negb (CFBasicHashIsMutable ht) then None
  else if used_buckets ht <? capacity then
    __CFBasicHashRehash (mutated ht) (capacity - used_buckets ht)
  else Some ht.

Definition __CFBasicHashAddValue (ht : CFBasicHash) (bkt_idx stack_key stack_value : Z)
    : option CFBasicHash :=
  let ht := mutated ht in
  '(ht, bkt_idx) ←
    (if CFBasicHashGetCapacity ht <? used_buckets ht + 1 then
       ht ← __CFBasicHashRehash ht 1;
       bkt_idx ← __CFBasicHashFindBucket_NoCollision ht stack_key 0;
       Some (ht, bkt_idx)
     else
       d ← __CFBasicHashIsDeleted ht bkt_idx;
       Some (if (d : bool) then set_deleted ht (u16 (deleted ht - 1)) else ht, bkt_idx));
  let key_hash := if __CFBasicHashHasHashCache ht then __CFBasicHashHashKey (conf ht) stack_key
                  else 0 in
  let (stack_value, ht) := __CFBasicHashImportValue ht stack_value in
  let (stack_key, ht) := if keys_offset (conf ht) then __CFBasicHashImportKey ht stack_key
                         else (stack_key, ht) in
  ht ← __CFBasicHashSetValue ht bkt_idx stack_value false false;
  ht ← (if keys_offset (conf ht) then __CFBasicHashSetKey ht bkt_idx stack_key false false
        else Some ht);
  ht ← (if counts_offset (conf ht) then __CFBasicHashIncSlotCount ht bkt_idx else Some ht);
  ht ← (if __CFBasicHashHasHashCache ht then
          hs ← (hashes ht).[bkt_idx := key_hash]; Some (set_hashes ht hs)
        else Some ht);
  Some (set_used_buckets ht (u32 (used_buckets ht + 1))).

Definition __CFBasicHashReplaceValue (ht : CFBasicHash) (bkt_idx stack_key stack_value : Z)
    : option CFBasicHash :=
  let ht := mutated ht in
  let (stack_value, ht) := __CFBasicHashImportValue ht stack_value in
  let (stack_key, ht) := if keys_offset (conf ht) then __CFBasicHashImportKey ht stack_key
                         else (stack_key, ht) in
  ht ← __CFBasicHashSetValue ht bkt_idx stack_value false false;
  if keys_offset (conf ht) then __CFBasicHashSetKey ht bkt_idx stack_key false false else Some ht.

(** Shrinking, or getting rid of the deleted buckets. *)
Definition settle (ht : CFBasicHash) : option CFBasicHash :=
  let i := num_buckets_idx ht in
  let do_shrink :=
    if fast_grow (conf ht)
    then (5 <? i) && (used_buckets ht <? __CFBasicHashGetCapacityForNumBuckets (i - 5))
    else (2 <? i) && (used_buckets ht <? __CFBasicHashGetCapacityForNumBuckets (i - 2)) in
  if do_shrink then __CFBasicHashRehash ht (-1) else
  let num_buckets := __CFBasicHashTableSizes i in
  let do_shrink := (0 =? deleted ht) || ((20 <=? num_buckets) && (num_buckets / 4 <=? deleted ht)) in
  if do_shrink then __CFBasicHashRehash ht 0 else Some ht.

(** The writes of [__CFBasicHashRemoveValue] to the bucket. *)
Definition empty_bucket (ht : CFBasicHash) (bkt_idx : Z) : option CFBasicHash :=
  let ht := mutated ht in
  ht ← __CFBasicHashSetValue ht bkt_idx all_ones false true;
  ht ← (if keys_offset (conf ht) then __CFBasicHashSetKey ht bkt_idx all_ones false true
        else Some ht);
  ht ← (if counts_offset (conf ht) then __CFBasicHashDecSlotCount ht bkt_idx else Some ht);
  if __CFBasicHashHasHashCache ht then
    hs ← (hashes ht).[bkt_idx := 0]; Some (set_hashes ht hs)
  else Some ht.

Definition __CFBasicHashRemoveValue (ht : CFBasicHash) (bkt_idx : Z) : option CFBasicHash :=
  ht ← empty_bucket ht bkt_idx;
  let ht := set_used_buckets ht (u32 (used_buckets ht - 1)) in
  settle (set_deleted ht (u16 (deleted ht + 1))).

(** The checks that start the operations which add. *)
Definition refused (ht : CFBasicHash) (stack_key stack_value : Z) : bool :=
  negb (CFBasicHashIsMutable ht) || is_substitute stack_key || is_substitute stack_value.

Definition CFBasicHashAddValue (ht : CFBasicHash) (stack_key stack_value : Z)
    : option (bool * CFBasicHash) :=
  if refused ht stack_key stack_value then None else
  bkt ← __CFBasicHashFindBucket ht stack_key;
  if 0 <? count bkt then
    let ht := mutated ht in
    if counts_offset (conf ht) && (count bkt <? LONG_MAX) then
      ht ← __CFBasicHashIncSlotCount ht (idx bkt); Some (true, ht)
    else Some (false, ht)
  else
    ht ← __CFBasicHashAddValue ht (idx bkt) stack_key stack_value; Some (true, ht).

Definition CFBasicHashReplaceValue (ht : CFBasicHash) (stack_key stack_value : Z)
    : option CFBasicHash :=
  if refused ht stack_key stack_value then None else
  bkt ← __CFBasicHashFindBucket ht stack_key;
  if 0 <? count bkt then __CFBasicHashReplaceValue ht (idx bkt) stack_key stack_value
  else Some ht.

Definition CFBasicHashSetValue (ht : CFBasicHash) (stack_key stack_value : Z)
    : option CFBasicHash :=
  if refused ht stack_key stack_value then None else
  bkt ← __CFBasicHashFindBucket ht stack_key;
  if 0 <? count bkt then __CFBasicHashReplaceValue ht (idx bkt) stack_key stack_value
  else __CFBasicHashAddValue ht (idx bkt) stack_key stack_value.

(** What [CFBasicHashRemoveValue] and [CFBasicHashRemoveValueAtIndex] do with a bucket. *)
Definition remove_bucket (ht : CFBasicHash) (bkt : CFBasicHashBucket) : option (Z * CFBasicHash) :=
  ht ← (if 1 <? count bkt then
          let ht := mutated ht in
          if counts_offset (conf ht) && (count bkt <? LONG_MAX)
          then __CFBasicHashDecSlotCount ht (idx bkt) else Some ht
        else if 0 <? count bkt then __CFBasicHashRemoveValue ht (idx bkt)
        else Some ht);
  Some (count bkt, ht).

Definition CFBasicHashRemoveValue (ht : CFBasicHash) (stack_key : Z) : option (Z * CFBasicHash) :=
  if negb (CFBasicHashIsMutable ht) then None
  else if is_substitute stack_key then Some (0, ht)
  else bkt ← __CFBasicHashFindBucket ht stack_key; remove_bucket ht bkt.

Definition CFBasicHashRemoveValueAtIndex (ht : CFBasicHash) (i : Z) : option (Z * CFBasicHash) :=
  if negb (CFBasicHashIsMutable ht) then None
  else bkt ← CFBasicHashGetBucket ht i; remove_bucket ht bkt.

Definition CFBasicHashRemoveAllValues (ht : CFBasicHash) : option CFBasicHash :=
  if negb (CFBasicHashIsMutable ht) then None
  else if 0 =? num_buckets_idx ht then Some ht
  else __CFBasicHashDrain ht.
End changes.

(** ** Integer values, kept numbered from 1 up *)

(** The renumbering loops; the [uintptr_t] arithmetic wraps. *)
Fixpoint inc_loop (ht : CFBasicHash) (int_value i : Z) (n : nat) : option CFBasicHash :=
  match n with
  | O => Some ht
  | S n =>
      e ← __CFBasicHashIsEmptyOrDeleted ht i;
      if negb e then
        stack_value ← __CFBasicHashGetValue ht i;
        if int_value <=? stack_value then
          ht ← __CFBasicHashSetValue ht i (u64 (stack_value + 1)) true false;
          inc_loop (mutated ht) int_value (i + 1) n
        else inc_loop ht int_value (i + 1) n
      else inc_loop ht int_value (i + 1) n
  end.

Fixpoint dec_loop (ht : CFBasicHash) (int_value bkt_idx i : Z) (n : nat)
    : option (Z * CFBasicHash) :=
  match n with
  | O => Some (bkt_idx, ht)
  | S n =>
      e ← __CFBasicHashIsEmptyOrDeleted ht i;
      if negb e then
        stack_value ← __CFBasicHashGetValue ht i;
        let bkt_idx := if int_value =? stack_value then i else bkt_idx in
        if int_value <? stack_value then
          ht ← __CFBasicHashSetValue ht i (u64 (stack_value - 1)) true false;
          dec_loop (mutated ht) int_value bkt_idx (i + 1) n
        else dec_loop ht int_value bkt_idx (i + 1) n
      else dec_loop ht int_value bkt_idx (i + 1) n
  end.

Section integers.
Context `{Allocator}.

Definition CFBasicHashAddIntValueAndInc (ht : CFBasicHash) (stack_key int_value : Z)
    : option (bool * CFBasicHash) :=
  if refused ht stack_key int_value then None else
  bkt ← __CFBasicHashFindBucket ht stack_key;
  if 0 <? count bkt then Some (false, mutated ht) else
  '(ht, i) ←
    (if CFBasicHashGetCapacity ht <? used_buckets ht + 1 then
       ht ← __CFBasicHashRehash ht 1;
       i ← __CFBasicHashFindBucket_NoCollision ht stack_key 0;
       Some (ht, i)
     else Some (ht, idx bkt));
  ht ← inc_loop ht int_value 0 (Z.to_nat (__CFBasicHashTableSizes (num_buckets_idx ht)));
  ht ← __CFBasicHashAddValue ht i stack_key int_value;
  Some (true, ht).

(** An index of all ones is outside the arrays. *)
Definition CFBasicHashRemoveIntValueAndDec (ht : CFBasicHash) (int_value : Z)
    : option CFBasicHash :=
  if negb (CFBasicHashIsMutable ht) || is_substitute int_value then None else
  '(bkt_idx, ht) ← dec_loop ht int_value all_ones 0
    (Z.to_nat (__CFBasicHashTableSizes (num_buckets_idx ht)));
  __CFBasicHashRemoveValue ht bkt_idx.

(** ** Making and ending *)

Definition flag_set (flags f : Z) : bool := negb (Z.land flags f =? 0).

Definition config_of_flags (flags : Z) (cb : CFBasicHashCallbacks) : config := {|
  hash_style := Z.land (Z.shiftr flags 13) 0x3;
  keys_offset := flag_set flags kCFBasicHashHasKeys;
  counts_offset := flag_set flags kCFBasicHashHasCounts;
  hashes_offset := flag_set flags kCFBasicHashHasHashCache;
  strong_values := flag_set flags kCFBasicHashStrongValues;
  strong_keys := flag_set flags kCFBasicHashStrongKeys;
  weak_values := flag_set flags kCFBasicHashWeakValues;
  weak_keys := flag_set flags kCFBasicHashWeakKeys;
  int_values := flag_set flags kCFBasicHashIntegerValues;
  int_keys := flag_set flags kCFBasicHashIntegerKeys;
  indirect_keys := flag_set flags kCFBasicHashIndirectKeys;
  fast_grow := flag_set flags kCFBasicHashAggressiveGrowth;
  callbacks := cb;
|}.

(** The combinations that halt. *)
Definition bad_config (c : config) : bool :=
  (strong_values c && weak_values c) || (strong_values c && int_values c)
  || (strong_keys c && weak_keys c) || (strong_keys c && int_keys c)
  || (weak_values c && int_values c) || (weak_keys c && int_keys c)
  || (indirect_keys c && strong_keys c) || (indirect_keys c && weak_keys c)
  || (indirect_keys c && int_keys c).

Definition empty_table (c : config) : CFBasicHash := {|
  conf := c; immutable := false; null_rc := false; finalized := false;
  mutations := 1; counts_width := 0; used_buckets := 0; deleted := 0; num_buckets_idx := 0;
  values := []; keys := []; counts := []; hashes := []; events := [];
|}.

(** [sizeof(struct __CFBasicHash)] *)
Definition sizeof_CFBasicHash : Z := 48.

Definition instance_size (c : config) : Z :=
  sizeof_CFBasicHash + flag (keys_offset c) 8 + flag (counts_offset c) 8 + flag (hashes_offset c) 8.

(** [Some None] is the result [NULL], without memory for the instance. *)
Definition CFBasicHashCreate (flags : Z) (cb : CFBasicHashCallbacks)
    : option (option CFBasicHash) :=
  let c := config_of_flags flags cb in
  if negb (instance_ok (instance_size c)) then Some None
  else if bad_config c then None
  else Some (Some (empty_table c)).

(** The loop of [CFBasicHashCreateCopy]: a bucket with an element is copied
    through the retain callbacks, another as it is. *)
Fixpoint copy_loop (ht : CFBasicHash) (old_values old_keys : list Z) (i : Z) (n : nat)
    : option CFBasicHash :=
  match n with
  | O => Some ht
  | S n =>
      stack_value ← old_values.[i];
      ht ← (if occupied stack_value then
              let (v, ht) := __CFBasicHashImportValue ht (decode stack_value) in
              ht ← __CFBasicHashSetValue ht i v true false;
              if keys_offset (conf ht) then
                old_key ← old_keys.[i];
                let (k, ht) := __CFBasicHashImportKey ht (decode old_key) in
                __CFBasicHashSetKey ht i k true false
              else Some ht
            else
              ht ← __CFBasicHashSetValue ht i stack_value true true;
              if keys_offset (conf ht) then __CFBasicHashSetKey ht i stack_value true true
              else Some ht);
      copy_loop ht old_values old_keys (i + 1) n
  end.

(** The arrays of the copy, [None] when there is no memory for one. *)
Definition copy_arrays (src_ht : CFBasicHash) : option (list Z * list Z) :=
  let n := __CFBasicHashTableSizes (num_buckets_idx src_ht) in
  vs ← new_array true n 8;
  ks ← new_array (keys_offset (conf src_ht)) n 8;
  _ ← new_array (counts_offset (conf src_ht)) n (2 ^ counts_width src_ht);
  _ ← new_array (__CFBasicHashHasHashCache src_ht) n 8;
  Some (vs, ks).

(** The bits of [src_ht] in a new instance, which is mutable. *)
Definition copied_bits (src_ht : CFBasicHash) (vs ks : list Z) : CFBasicHash := {|
  conf := conf src_ht; immutable := false; null_rc := null_rc src_ht; finalized := false;
  mutations := 1; counts_width := counts_width src_ht; used_buckets := used_buckets src_ht;
  deleted := deleted src_ht; num_buckets_idx := num_buckets_idx src_ht;
  values := vs; keys := ks; counts := []; hashes := []; events := [];
|}.

(** The events of the copy are its own. *)
Definition CFBasicHashCreateCopy (src_ht : CFBasicHash) : option (option CFBasicHash) :=
  match copy_arrays src_ht with
  | None => Some None
  | Some (vs, ks) =>
      if negb (instance_ok (instance_size (conf src_ht))) then Some None else
      let ht := copied_bits src_ht vs ks in
      let n := __CFBasicHashTableSizes (num_buckets_idx src_ht) in
      if 0 =? n then Some (Some ht) else
      ht ← copy_loop ht (values src_ht) (keys src_ht) 0 (Z.to_nat n);
      cs ← (if counts_offset (conf ht) then zsub (counts src_ht) 0 n else Some []);
      hs ← (if __CFBasicHashHasHashCache ht then zsub (hashes src_ht) 0 n else Some []);
      Some (Some (set_hashes (set_counts ht cs) hs))
  end.
End integers.

Definition __CFBasicHashEqual (cf1 cf2 : CFBasicHash) : option bool := CFBasicHashesAreEqual cf1 cf2.
Definition __CFBasicHashHash (cf : CFBasicHash) : option Z := CFBasicHashGetCount cf.

Definition __CFBasicHashDeallocate (ht : CFBasicHash) : option CFBasicHash :=
  if finalized ht then None else __CFBasicHashDrain (set_finalized ht true).

(** The registry of callbacks, one thread at a time: the place of a pointer. *)
Fixpoint find_pointer (ptrs : list Z) (ptr i : Z) : option Z :=
  match ptrs with
  | [] => None
  | p :: ptrs => if p =? ptr then Some i else find_pointer ptrs ptr (i + 1)
  end.

Definition CFBasicHashGetPtrIndex (ptrs : list Z) (ptr : Z) : option (Z * list Z) :=
  match find_pointer ptrs ptr 0 with
  | Some i => Some (i, ptrs)
  | None => if 1000 <? zlen ptrs then None else Some (zlen ptrs, ptrs ++ [ptr])
  end.
