(* ===== verification/HashPrimes.v ===== *)
(** * The tables of CFBasicHash.c: primes, primitive roots, capacities

    The comments of CFBasicHash.c and CFBasicHashFindBucket.m claim that the
    sizes are primes and the roots primitive.  Both are checked here by
    computation: trial division for the primes, and for a root [r] of [p] that
    no power [r ^ ((p - 1) / q)] is 1, for the prime factors [q] of [p - 1]. *)
From S2P Require Import Prelude BasicHash.
From Stdlib Require Import Zdivisibility Zcong Zpow_facts.
Open Scope Z_scope.

(** ** Trial division *)

(** No divisor of [n] from [d] up to its square root. *)
Fixpoint no_divisor (n d : Z) (fuel : nat) : bool :=
  if n <? d * d then true else
  match fuel with
  | O => false
  | S fuel => if n mod d =? 0 then false else no_divisor n (d + 1) fuel
  end.

Definition prime_check (n : Z) : bool := (1 <? n) && no_divisor n 2 (Z.to_nat (Z.sqrt n)).

Lemma no_divisor_ok n d fuel : 0 ≤ d → no_divisor n d fuel = true →
  ∀ a, d ≤ a → a * a ≤ n → ¬ (a | n).
Proof.
  revert d. induction fuel as [|fuel IH]; intros d Hd0; cbn [no_divisor];
    destruct (Z.ltb_spec n (d * d)) as [Hlt|Hge]; try (intros _ a Ha Haa; exfalso; nia); [done|].
  destruct (Z.eqb_spec (n mod d) 0) as [|Hd]; [done|]. intros Hn a Ha Han.
  destruct (decide (a = d)) as [->|]; [|apply (IH (d + 1)); [lia|done|lia|done]].
  intros Hdiv. apply Hd. by apply Z.mod0_divide.
Qed.

Lemma prime_check_ok n : prime_check n = true → Z.prime n.
Proof.
  unfold prime_check. intros H. zbool. split; [done|].
  intros a Ha [b ->]. assert (0 < b) by nia.
  destruct (Z.le_ge_cases a b).
  - apply (no_divisor_ok _ 2 _ ltac:(lia) H0 a); [lia|nia|]. by exists b.
  - apply (no_divisor_ok _ 2 _ ltac:(lia) H0 b); [nia|nia|]. exists a. lia.
Qed.

Lemma prime_divides_product q l : Z.prime q → Forall Z.prime l →
  (q | fold_right Z.mul 1 l) → q ∈ l.
Proof.
  intros Hq. pose proof (Z.prime_ge_2 q Hq).
  induction 1 as [|x l Hx _ IH]; cbn [fold_right]; intros Hd.
  - apply Z.divide_1_r_nonneg in Hd; lia.
  - apply (proj1 (Z.divide_prime_mul _ _ _ Hq)) in Hd as [Hd|Hd]; [|set_solver].
    apply Z.divide_prime_prime in Hd as ->; [set_solver|done..].
Qed.

(** A number above 1 has a prime divisor. *)
Lemma prime_divisor n : 1 < n → ∃ q, Z.prime q ∧ (q | n).
Proof.
  intros Hn. apply (Zlt_lower_bound_ind (λ n, ∃ q, Z.prime q ∧ (q | n)) 2); [|lia].
  clear n Hn. intros n IH Hn.
  destruct (decide (Exists (λ d, n mod d = 0) (seqZ 2 (n - 2)))) as [He|He].
  - apply Exists_exists in He as (d & Hd%elem_of_seqZ & Hdn).
    destruct (IH d) as (q & Hq & Hqd); [lia|].
    exists q. split; [done|]. apply Z.divide_trans with d; [done|]. apply Z.mod_divide; [lia|done].
  - exists n. split; [|apply Z.divide_refl]. split; [lia|]. intros d Hd Hdn. apply He.
    apply Exists_exists. exists d. split; [apply elem_of_seqZ; lia|]. by apply Z.mod0_divide.
Qed.

(** ** Powers modulo [p] *)

(** The least positive exponent that gives 1 is not smaller than [p - 1]. *)
Definition primitive_root (r p : Z) : Prop := ∀ d, 0 < d < p - 1 → r ^ d mod p ≠ 1.

Definition root_check (p r : Z) (factors : list Z) : bool :=
  forallb prime_check factors && (fold_right Z.mul 1 factors =? p - 1)
  && (Zpow_mod r (p - 1) p =? 1)
  && forallb (λ q, negb (Zpow_mod r ((p - 1) / q) p =? 1)) factors.

Section powers.
Context (p r : Z) (Hp : 1 < p).

Lemma pow_mod_add a b : 0 ≤ a → 0 ≤ b → r ^ a mod p = 1 → r ^ (a + b) mod p = r ^ b mod p.
Proof.
  intros Ha Hb H1. rewrite Z.pow_add_r, Z.mul_mod, H1, Z.mul_1_l, Z.mod_mod by lia. done.
Qed.

Lemma pow_mod_mul a n : 0 ≤ a → 0 ≤ n → r ^ a mod p = 1 → r ^ (a * n) mod p = 1.
Proof.
  intros Ha Hn H1. apply (natlike_ind (λ n, r ^ (a * n) mod p = 1)); [| |done].
  - rewrite Z.mul_0_r, Z.pow_0_r. by apply Z.mod_small.
  - intros m Hm IH. replace (a * Z.succ m) with (a + a * m) by lia. by rewrite pow_mod_add by nia.
Qed.

(** Euclid's algorithm on the exponents. *)
Lemma pow_mod_gcd a b : 0 ≤ a → 0 ≤ b → r ^ a mod p = 1 → r ^ b mod p = 1 →
  r ^ Z.gcd a b mod p = 1.
Proof.
  intros Ha. revert b. pattern a. apply Z_lt_induction; [|done]. clear a Ha.
  intros a IH b Hb H1 H2. destruct (decide (a ≤ 0)) as [Ha|Ha].
  - destruct (decide (a = 0)) as [->|]; [by rewrite Z.gcd_0_l, Z.abs_eq by done|].
    rewrite Z.pow_neg_r, Z.mod_0_l in H1 by lia. lia.
  - pose proof (Z.mod_pos_bound b a). rewrite Z.gcd_comm, <- Z.gcd_mod_l.
    apply IH; [lia|lia| |done].
    assert (0 ≤ b / a) by (apply Z.div_pos; lia).
    rewrite <- (pow_mod_add (a * (b / a))), <- Z.div_mod by (lia || nia || by apply pow_mod_mul; lia).
    done.
Qed.
End powers.

Lemma root_check_ok p r factors : 1 < p → root_check p r factors = true → primitive_root r p.
Proof.
  unfold root_check. intros Hp H. zbool. rewrite Zpow_mod_correct in H1 by lia.
  intros d Hd Hrd. set (g := Z.gcd d (p - 1)).
  assert (r ^ g mod p = 1) as Hrg by (apply pow_mod_gcd; [done|lia|lia|done|done]).
  assert (Hgd : (g | d)) by apply Z.gcd_divide_l.
  destruct (Z.gcd_divide_r d (p - 1)) as [m Hm]. fold g in Hm.
  assert (0 ≤ g) by apply Z.gcd_nonneg. assert (g ≤ d) by (apply Z.divide_pos_le; [lia|done]).
  assert (1 < m) as Hm1 by nia.
  destruct (prime_divisor m Hm1) as (q & Hq & [n Hn]). pose proof (Z.prime_ge_2 q Hq).
  assert (q ∈ factors) as Hqf.
  { apply (prime_divides_product q); [done| |].
    - apply Forall_forall. intros x Hx%list_elem_of_In. rewrite forallb_forall in H.
      by apply prime_check_ok, H.
    - rewrite H2. rewrite Hm, Hn. exists (n * g). lia. }
  rewrite forallb_forall in H0. specialize (H0 q (proj1 (list_elem_of_In _ _) Hqf)). zbool.
  rewrite Zpow_mod_correct in H0 by lia. apply H0.
  replace ((p - 1) / q) with (g * n); [apply pow_mod_mul; [done|done|nia|done]|].
  apply Z.div_unique_exact; lia.
Qed.

(** The prime factors of the sizes less one, from the index 1. *)
Definition factors : list (list Z) :=
  [[2]; [2; 3]; [2; 2; 3]; [2; 11]; [2; 2; 2; 5]; [2; 5; 7]; [2; 3; 3; 7]; [2; 5; 19];
   [2; 5; 5; 5]; [2; 191]; [2; 3; 3; 5; 7]; [2; 3; 181]; [2; 3; 7; 41]; [2; 3; 467];
   [2; 7; 17; 19]; [2; 3; 5; 5; 7; 7]; [2; 3; 1993]; [2; 3; 7; 463]; [2; 3; 3; 5; 347];
   [2; 3; 8447]; [2; 3; 3; 3; 37; 41]; [2; 3; 3; 53; 139]; [2; 3; 35753]; [2; 13; 13331];
   [2; 2; 3; 19; 23; 107]; [2; 3; 3; 29; 37; 47]; [2; 3; 3; 79; 1033]; [2; 5; 237619];
   [2; 3; 640853]; [2; 3; 5; 207377]; [2; 2; 5; 7; 13; 5531]; [2; 41; 139; 1429];
   [2; 5; 179; 14723]; [2; 2; 2; 3; 5; 269; 1321]; [2; 2; 19; 907843]; [2; 55819259];
   [2; 79; 1143257]; [2; 239; 611449]; [2; 3; 3; 5; 5; 5; 101; 2081]; [2; 2; 79; 449; 5393];
   [2; 7; 17; 29; 179381]; [2; 2; 3; 3; 17; 71; 46103]; [2; 3; 540225877]; [2; 3; 874103803]].

(** The indices of tables with buckets. *)
Definition size_index (i : Z) : Prop := 1 ≤ i ≤ 44.

Definition row_check (i : Z) : bool :=
  let p := __CFBasicHashTableSizes i in
  prime_check p && root_check p (__CFBasicHashPrimitiveRoots i) (default [] (factors.[i - 1]))
  && (1 <? __CFBasicHashPrimitiveRoots i) && (__CFBasicHashPrimitiveRoots i <? p)
  && (__CFBasicHashTableCapacities i <=? p) && (p <? 2 ^ 33)
  && (__CFBasicHashTableCapacities (i - 1) <? __CFBasicHashTableCapacities i).

Lemma rows_checked : forallb row_check (seqZ 1 (45 - 1)) = true.
Proof. vm_compute. reflexivity. Qed.

Lemma row_checked i : size_index i → row_check i = true.
Proof. intros Hi. apply (forall_range row_check 1 45); [apply rows_checked|]. unfold size_index in Hi. lia. Qed.


(** The facts of a row. *)
Lemma size_row i : size_index i →
  let p := __CFBasicHashTableSizes i in
  let r := __CFBasicHashPrimitiveRoots i in
  Z.prime p ∧ 1 < r < p ∧ primitive_root r p
  ∧ __CFBasicHashTableCapacities (i - 1) < __CFBasicHashTableCapacities i ≤ p ∧ p < 2 ^ 33.
Proof.
  intros Hi. cbv zeta. pose proof (row_checked i Hi) as H. unfold row_check in H.
  cbv zeta in H. zbool. pose proof (prime_check_ok _ H) as Hp.
  split; [done|]. split; [done|]. split; [|done].
  by apply (root_check_ok _ _ _ (proj1 Hp) H5).
Qed.

(** Each size of a table is a prime, its root is primitive modulo the size,
    a table is never asked to hold more elements than it has buckets, and the
    capacities grow with the index. *)
Theorem size_tables_correct i : size_index i →
  let p := __CFBasicHashTableSizes i in
  let r := __CFBasicHashPrimitiveRoots i in
  Z.prime p ∧ 1 < r < p ∧ primitive_root r p
  ∧ __CFBasicHashTableCapacities (i - 1) < __CFBasicHashTableCapacities i ≤ p.
Proof. intros Hi. destruct (size_row i Hi) as (? & ? & ? & ? & _). done. Qed.

Lemma size_tables_correct_witness :
  size_index 44 ∧ Z.prime 5244622819 ∧ primitive_root 10 5244622819.
Proof.
  assert (size_index 44) as H by (unfold size_index; lia).
  split; [done|]. destruct (size_tables_correct 44 H) as (Hp & _ & Hr & _). split; assumption.
Defined.
