(* ===== verification/HashProbe.v ===== *)
(** * The probe sequences of CFBasicHashFindBucket.m

    Each of the three styles visits every bucket of a table exactly once in as
    many probes as the table has buckets. *)
From S2P Require Import Prelude BasicHash HashPrimes.
From Stdlib Require Import Zdivisibility Zcong.
Open Scope Z_scope.

(** The values of [probe] and [acc] at the start of iteration [n]. *)
Fixpoint probe_state (style p h1 h2 pr : Z) (n : nat) : Z * Z :=
  match n with
  | O => (h1, pr)
  | S n => let (probe, acc) := probe_state style p h1 h2 pr n in
           next_probe style p h1 h2 pr probe acc
  end.

(** How far probe [n] is from the first one, before the reduction. *)
Definition probe_offset (style h2 pr n : Z) : Z :=
  if style =? __kCFBasicHashLinearHashingValue then n
  else if style =? __kCFBasicHashDoubleHashingValue then n * h2
  else if n =? 0 then 0 else h2 * pr ^ n.

(** The sizes for which a style computes without overflow: the product in
    exponential hashing is below [2 ^ 64]. *)
Definition fits (style p : Z) : Prop :=
  style = __kCFBasicHashExponentialHashingValue → p < 2 ^ 32.

Lemma known_style_cases style : known_style style = true →
  style = __kCFBasicHashLinearHashingValue ∨ style = __kCFBasicHashDoubleHashingValue
  ∨ style = __kCFBasicHashExponentialHashingValue.
Proof. unfold known_style. intros [[?|?]%orb_true_iff|?]%orb_true_iff; zbool; auto. Qed.

Lemma u64_small x : 0 ≤ x < 2 ^ 64 → u64 x = x.
Proof. intros. by apply Z.mod_small. Qed.

(** A conditional subtraction or division is a reduction. *)
Lemma reduce_sub p x : 0 ≤ x < 2 * p → (if p <=? x then x - p else x) = x mod p.
Proof.
  intros Hx. destruct (Z.leb_spec p x).
  - apply (Z.mod_unique_pos _ _ 1); lia.
  - symmetry. apply Z.mod_small. lia.
Qed.

Lemma reduce_mod p x : 0 ≤ x → (if p <=? x then x mod p else x) = x mod p.
Proof. intros Hx. destruct (Z.leb_spec p x); [done|]. symmetry. apply Z.mod_small. lia. Qed.

Section probes.
Context (style p h1 h2 pr : Z).
Context (Hstyle : known_style style = true) (Hp : Z.prime p) (Hp33 : p < 2 ^ 33)
  (Hfits : fits style p) (Hh1 : 0 ≤ h1 < p) (Hh2 : 1 ≤ h2 < p) (Hpr : 1 < pr < p)
  (Hroot : primitive_root pr p).

Lemma probe_closed n :
  probe_state style p h1 h2 pr n =
    ((h1 + probe_offset style h2 pr (Z.of_nat n)) mod p,
     if style =? __kCFBasicHashExponentialHashingValue then pr ^ (Z.of_nat n + 1) mod p else pr).
Proof.
  destruct (known_style_cases style Hstyle) as [Hs|[Hs|Hs]]; rewrite Hs in *;
    unfold probe_offset; cbn [Z.eqb __kCFBasicHashLinearHashingValue
      __kCFBasicHashDoubleHashingValue __kCFBasicHashExponentialHashingValue Pos.eqb];
    (induction n as [|n IH]; cbn [probe_state]; [|rewrite IH; unfold next_probe;
      cbn [Z.eqb __kCFBasicHashLinearHashingValue
      __kCFBasicHashDoubleHashingValue __kCFBasicHashExponentialHashingValue Pos.eqb]]).
  - f_equal. rewrite Z.mod_small; lia.
  - pose proof (Z.mod_pos_bound (h1 + Z.of_nat n) p). f_equal.
    rewrite u64_small, reduce_sub, Zplus_mod_idemp_l by lia. f_equal. lia.
  - f_equal. rewrite Z.mod_small; lia.
  - pose proof (Z.mod_pos_bound (h1 + Z.of_nat n * h2) p). f_equal.
    rewrite u64_small, reduce_sub, Zplus_mod_idemp_l by lia. f_equal. lia.
  - change (Z.of_nat 0) with 0. cbn [Z.eqb]. by rewrite Z.add_0_r, Z.pow_1_r, !Z.mod_small by lia.
  - specialize (Hfits eq_refl).
    pose proof (Z.mod_pos_bound (pr ^ (Z.of_nat n + 1)) p ltac:(lia)).
    rewrite (proj2 (Z.eqb_neq (Z.of_nat (S n)) 0)) by lia.
    replace (Z.of_nat (S n)) with (Z.of_nat n + 1) by lia.
    rewrite !u64_small, !reduce_mod by nia. f_equal.
    + rewrite <- Zplus_mod_idemp_r, Zmult_mod_idemp_r, Zplus_mod_idemp_r. done.
    + rewrite Zmult_mod_idemp_l, (Z.pow_add_r _ (Z.of_nat n + 1)), Z.pow_1_r by lia. done.
Qed.

Lemma probe_range n : 0 ≤ (probe_state style p h1 h2 pr n).1 < p.
Proof. rewrite probe_closed. apply Z.mod_pos_bound. lia. Qed.

(** A product that vanishes modulo a prime has a factor that does. *)
Lemma mod_prime_mul a b : (a * b) mod p = 0 → a mod p = 0 ∨ b mod p = 0.
Proof.
  assert (p ≠ 0) by lia. intros H0. apply Z.mod_divide in H0; [|done].
  apply (proj1 (Z.divide_prime_mul _ _ _ Hp)) in H0 as [|];
    [left|right]; by apply Z.mod_divide.
Qed.

Lemma power_nonzero n : 0 ≤ n → pr ^ n mod p ≠ 0.
Proof.
  intros Hn. apply (natlike_ind (λ n, pr ^ n mod p ≠ 0)); [| |done].
  - rewrite Z.pow_0_r, Z.mod_small; lia.
  - intros m Hm IH. rewrite Z.pow_succ_r by done. intros [H|H]%mod_prime_mul; [|done].
    rewrite Z.mod_small in H; lia.
Qed.

Lemma probe_offset_inj n m : 0 ≤ n < m → m < p →
  (probe_offset style h2 pr m - probe_offset style h2 pr n) mod p ≠ 0.
Proof.
  intros Hn Hm. assert (Hh : h2 mod p ≠ 0) by (rewrite Z.mod_small; lia).
  assert (Hd : (m - n) mod p ≠ 0) by (rewrite Z.mod_small; lia). unfold probe_offset.
  destruct (style =? _); [done|]. destruct (style =? _).
  { rewrite <- Z.mul_sub_distr_r. by intros [|]%mod_prime_mul. }
  rewrite (proj2 (Z.eqb_neq m 0)) by lia. destruct (Z.eqb_spec n 0) as [->|Hn0].
  { rewrite Z.sub_0_r. intros [|]%mod_prime_mul; [done|]. by apply (power_nonzero m); [lia|]. }
  assert (∃ k, m = n + k ∧ 0 < k < p - 1) as (k & -> & Hk) by (exists (m - n); lia).
  rewrite Z.pow_add_r, Z.mul_assoc by lia.
  intros H0. rewrite <- (Z.mul_1_r (h2 * pr ^ n)) in H0 at 2. rewrite <- Z.mul_sub_distr_l in H0.
  apply mod_prime_mul in H0 as [[|]%mod_prime_mul|H0]; [done| |].
  - by apply (power_nonzero n); [lia|].
  - apply (Hroot k); [done|]. rewrite Zminus_mod, (Z.mod_small 1) in H0 by lia.
    pose proof (Z.mod_pos_bound (pr ^ k) p ltac:(lia)) as Hb.
    apply Z.mod_divide in H0 as [j Hj]; [|lia].
    assert (j = 0) as -> by (set (x := pr ^ k mod p) in *; nia). lia.
Qed.

(** No bucket is probed twice. *)
Lemma probe_inj n m : (n < Z.to_nat p)%nat → (m < Z.to_nat p)%nat →
  (probe_state style p h1 h2 pr n).1 = (probe_state style p h1 h2 pr m).1 → n = m.
Proof.
  assert (∀ n m, (n < m)%nat → (m < Z.to_nat p)%nat →
    (probe_state style p h1 h2 pr n).1 ≠ (probe_state style p h1 h2 pr m).1) as Hlt.
  { clear n m. intros n m Hnm Hm He. rewrite !probe_closed in He. cbn [fst] in He.
    apply (probe_offset_inj (Z.of_nat n) (Z.of_nat m)); [lia|lia|].
    apply (f_equal (λ x, (x - (h1 + probe_offset style h2 pr (Z.of_nat n))) mod p)) in He.
    rewrite !Zminus_mod_idemp_l, Z.sub_diag, Z.mod_0_l in He by lia.
    rewrite He. f_equal. lia. }
  intros Hn Hm He. destruct (lt_eq_lt_dec n m) as [[|]|]; [|done|].
  - by destruct (Hlt n m).
  - by destruct (Hlt m n).
Qed.

(** Every bucket is probed. *)
Lemma probes_permute :
  (λ n, (probe_state style p h1 h2 pr n).1) <$> seq 0 (Z.to_nat p) ≡ₚ seqZ 0 p.
Proof.
  apply submseteq_length_Permutation; [apply NoDup_submseteq|].
  - apply NoDup_fmap_2_strong; [|apply NoDup_seq].
    intros n m Hn%elem_of_seq Hm%elem_of_seq. apply probe_inj; lia.
  - intros x (n & -> & _)%list_elem_of_fmap. apply elem_of_seqZ.
    pose proof (probe_range n). lia.
  - rewrite length_fmap, length_seq, length_seqZ. lia.
Qed.

Lemma probe_onto i : 0 ≤ i < p →
  ∃ n, (n < Z.to_nat p)%nat ∧ (probe_state style p h1 h2 pr n).1 = i.
Proof.
  intros Hi. assert (i ∈ seqZ 0 p) as Hil by (apply elem_of_seqZ; lia).
  rewrite <- probes_permute in Hil.
  apply list_elem_of_fmap in Hil as (n & Hn & Hin%elem_of_seq).
  exists n. split; [lia|done].
Qed.
End probes.

(** ** The sequences of the tables *)

(** The indices at which a style computes without overflow. *)
Definition style_index (style i : Z) : Prop :=
  size_index i ∧ (style = __kCFBasicHashExponentialHashingValue → i ≤ 43).

(** What the lemmas above ask of a table. *)
Ltac row_facts i :=
  let Hp := fresh "Hp" in
  match goal with H : style_index _ i |- _ =>
    destruct (size_row i (proj1 H)) as (Hp & ? & ? & _ & ?); pose proof (proj1 Hp) end.

(** The bucket of probe [n] for a hash code in a table of index [i]. *)
Definition probe_of (style i hash_code : Z) (n : nat) : Z :=
  let p := __CFBasicHashTableSizes i in
  (probe_state style p (probe_h1 p hash_code) (probe_h2 p hash_code)
     (__CFBasicHashPrimitiveRoots i) n).1.

Lemma probe_h1_range p h : 1 < p → 0 ≤ probe_h1 p h < p.
Proof. intros. apply Z.mod_pos_bound. lia. Qed.

Lemma probe_h2_range p h : 1 < p → 1 ≤ probe_h2 p h < p.
Proof.
  intros. unfold probe_h2. pose proof (Z.mod_pos_bound (h / p) p).
  destruct (Z.eqb_spec 0 (h / p mod p)); lia.
Qed.

Lemma size_fits style i : style_index style i → fits style (__CFBasicHashTableSizes i).
Proof.
  intros [Hi Hs] He. specialize (Hs He). unfold size_index in Hi.
  assert (forallb (λ i, __CFBasicHashTableSizes i <? 2 ^ 32) (seqZ 1 (44 - 1)) = true) as Hf
    by (vm_compute; reflexivity).
  pose proof (forall_range _ 1 44 Hf i ltac:(lia)) as Hlt. cbv beta in Hlt. by zbool.
Qed.

Section sequences.
Context (style i hash_code : Z) (Hstyle : known_style style = true) (Hi : style_index style i).

Lemma probe_of_range n : 0 ≤ probe_of style i hash_code n < __CFBasicHashTableSizes i.
Proof.
  row_facts i.
  apply probe_range;
    auto using size_fits, probe_h1_range, probe_h2_range.
Qed.

Lemma probe_of_inj n m : (n < Z.to_nat (__CFBasicHashTableSizes i))%nat →
  (m < Z.to_nat (__CFBasicHashTableSizes i))%nat →
  probe_of style i hash_code n = probe_of style i hash_code m → n = m.
Proof.
  row_facts i.
  apply probe_inj;
    auto using size_fits, probe_h1_range, probe_h2_range.
Qed.

Lemma probe_of_onto b : 0 ≤ b < __CFBasicHashTableSizes i →
  ∃ n, (n < Z.to_nat (__CFBasicHashTableSizes i))%nat ∧ probe_of style i hash_code n = b.
Proof.
  row_facts i.
  apply probe_onto;
    auto using size_fits, probe_h1_range, probe_h2_range.
Qed.

(** C6. In as many probes as a table has buckets, linear, double and exponential
    probing visit every bucket exactly once, whatever the hash code, so that a
    search that fails has seen the whole table and an addition finds a free
    bucket when there is one.  (Exponential probing up to the index 43: see below.) *)
Theorem probing_visits_every_bucket :
  probe_of style i hash_code <$> seq 0 (Z.to_nat (__CFBasicHashTableSizes i))
    ≡ₚ seqZ 0 (__CFBasicHashTableSizes i).
Proof.
  row_facts i.
  apply (probes_permute style (__CFBasicHashTableSizes i));
    auto using size_fits, probe_h1_range, probe_h2_range.
Qed.
End sequences.

Lemma probing_visits_every_bucket_witness :
  map (probe_of 3 3 1000) (seq 0 13) = [12; 8; 4; 9; 6; 0; 1; 3; 7; 2; 5; 11; 10]
  ∧ probe_of 3 3 1000 <$> seq 0 (Z.to_nat (__CFBasicHashTableSizes 3)) ≡ₚ seqZ 0 13.
Proof.
  split; [vm_compute; reflexivity|].
  apply (probing_visits_every_bucket 3 3 1000 eq_refl). split; [split; lia|lia].
Defined.

(** The largest table has more than [2 ^ 32] buckets, and the product of
    exponential hashing overflows there: for the hash code 0 probe 10 is not the
    [(h1(k) + pr(k)^i * h2(k)) mod num_buckets] that the comment documents. *)
Theorem exponential_probing_overflows :
  let p := __CFBasicHashTableSizes 44 in
  probe_of __kCFBasicHashExponentialHashingValue 44 0 10
  ≠ (probe_h1 p 0 + __CFBasicHashPrimitiveRoots 44 ^ 10 * probe_h2 p 0) mod p.
Proof. vm_compute. discriminate. Qed.
