(* ===== verification/HashSpec.v ===== *)
(** * What a CFBasicHash represents

    A table is a list of slots, of which its arrays are images; its abstract
    value is the list of its entries, up to order.  This file has the laws the
    callbacks must obey, the invariant of a table, and the search. *)
From S2P Require Import Prelude BasicHash HashPrimes HashProbe.
Open Scope Z_scope.

(** ** Entries and slots *)

Record entry := { ekey : Z; evalue : Z; ecount : Z }.

Inductive slot := Empty | Deleted | Full (e : entry).

#[export] Instance entry_eq_dec : EqDecision entry.
Proof. solve_decision. Defined.
#[export] Instance slot_eq_dec : EqDecision slot.
Proof. solve_decision. Defined.

Definition full (s : slot) : option entry := match s with Full e => Some e | _ => None end.
Definition entries (ss : list slot) : list entry := omap full ss.

(** ** Words *)

Definition word (w : Z) : Prop := 0 ≤ w < 2 ^ 64.

(** What a client may pass: a word that is not a substitute. *)
Definition valid (w : Z) : Prop := word w ∧ is_substitute w = false.
#[export] Instance valid_dec w : Decision (valid w).
Proof. unfold valid, word. apply _. Defined.

Lemma decode_encode w : valid w → decode (encode w) = w.
Proof.
  intros [Hw Hs]. unfold is_substitute, decode, encode, all_ones, __CFBasicHashSubABZero,
    __CFBasicHashSubABOne in *. zbool. unfold word in Hw.
  destruct (Z.eqb_spec w 0) as [->|]; [done|].
  destruct (Z.eqb_spec w (2 ^ 64 - 1)) as [->|]; [done|].
  rewrite (proj2 (Z.eqb_neq w _)), (proj2 (Z.eqb_neq w _)) by lia. done.
Qed.

Lemma encode_live w : encode w ≠ 0 ∧ encode w ≠ all_ones.
Proof.
  unfold encode, all_ones, __CFBasicHashSubABZero, __CFBasicHashSubABOne.
  destruct (Z.eqb_spec w 0); [lia|]. destruct (Z.eqb_spec w (2 ^ 64 - 1)); lia.
Qed.

Lemma encode_occupied w : occupied (encode w) = true.
Proof. destruct (encode_live w). unfold occupied. zcases. Qed.

(** ** The laws of the callbacks *)

(** The key of a value in a table without keys. *)
Definition value_key (c : config) (v : Z) : Z :=
  if indirect_keys c then __CFBasicHashGetIndirectKey c v else v.

(** What the retain callbacks store. *)
Definition imported (f : option (Z → Z)) (nullrc : bool) (w : Z) : Z :=
  match f with Some f => if nullrc then w else f w | None => w end.

(** Equality of keys is an equivalence that the hash code respects, and an
    element is stored under a key equal to the one given (CFDictionary.h: "if
    two values are equal, their hash codes must be equal"). *)
Class Lawful (c : config) : Prop := {
  equal_refl k : __CFBasicHashTestEqualKey c k k = true;
  equal_sym a b : __CFBasicHashTestEqualKey c a b = true → __CFBasicHashTestEqualKey c b a = true;
  equal_trans x y z : __CFBasicHashTestEqualKey c x y = true →
    __CFBasicHashTestEqualKey c y z = true → __CFBasicHashTestEqualKey c x z = true;
  equal_hash a b : __CFBasicHashTestEqualKey c a b = true →
    __CFBasicHashHashKey c a = __CFBasicHashHashKey c b;
  retained_value_valid v b : valid v → valid (imported (retainValue (callbacks c)) b v);
  retained_key_valid k b : valid k → valid (imported (retainKey (callbacks c)) b k);
  retained_key_equal k b : keys_offset c = true → valid k →
    __CFBasicHashTestEqualKey c (imported (retainKey (callbacks c)) b k) k = true;
  retained_value_equal v b : keys_offset c = false → valid v →
    __CFBasicHashTestEqualKey c (value_key c (imported (retainValue (callbacks c)) b v))
      (value_key c v) = true;
  keys_are_direct : keys_offset c = true → indirect_keys c = false;
  style_is_known : known_style (hash_style c) = true;
}.

(** ** The invariant *)

Definition raw_value (s : slot) : Z :=
  match s with Empty => 0 | Deleted => all_ones | Full e => encode (evalue e) end.
Definition raw_key (s : slot) : Z :=
  match s with Empty => 0 | Deleted => all_ones | Full e => encode (ekey e) end.
Definition raw_count (s : slot) : Z := match s with Full e => ecount e | _ => 0 end.
Definition raw_hash (c : config) (s : slot) : Z :=
  match s with Full e => __CFBasicHashHashKey c (ekey e) | _ => 0 end.

Definition entry_ok (c : config) (width : Z) (e : entry) : Prop :=
  valid (evalue e)
  ∧ (if keys_offset c then valid (ekey e) else ekey e = value_key c (evalue e))
  ∧ (if counts_offset c then 1 ≤ ecount e ≤ count_max width else ecount e = 1).

(** An index that [num_buckets_idx] may have. *)
Definition good_index (c : config) (i : Z) : Prop := i = 0 ∨ style_index (hash_style c) i.

(** The bucket of probe [n] for the key [k] in a table of index [i]. *)
Definition probe_key (c : config) (i k : Z) (n : nat) : Z :=
  probe_of (hash_style c) i (__CFBasicHashHashKey c k) n.

(** Probe [n] for the key [k] is the bucket [b], and no bucket before is empty. *)
Definition leads (c : config) (i : Z) (ss : list slot) (k : Z) (n : nat) (b : Z) : Prop :=
  (n < Z.to_nat (__CFBasicHashTableSizes i))%nat ∧ probe_key c i k n = b
  ∧ ∀ m, (m < n)%nat → ss.[probe_key c i k m] ≠ Some Empty.

(** No two entries have equal keys. *)
Definition distinct (c : config) (es : list entry) : Prop :=
  ∀ a b r, es ≡ₚ a :: b :: r → __CFBasicHashTestEqualKey c (ekey a) (ekey b) = false.

(** The arrays are images of the slots, and every entry is on the way of the
    probes for its key. *)
Record shaped (ht : CFBasicHash) (ss : list slot) : Prop := {
  shape_index : good_index (conf ht) (num_buckets_idx ht);
  shape_width : 0 ≤ counts_width ht ≤ 3;
  shape_len : zlen ss = __CFBasicHashTableSizes (num_buckets_idx ht);
  shape_values : values ht = raw_value <$> ss;
  shape_keys : keys ht = if keys_offset (conf ht) then raw_key <$> ss else [];
  shape_counts : counts ht = if counts_offset (conf ht) then raw_count <$> ss else [];
  shape_hashes : hashes ht = if hashes_offset (conf ht) then raw_hash (conf ht) <$> ss else [];
  shape_ok : Forall (entry_ok (conf ht) (counts_width ht)) (entries ss);
  shape_distinct : distinct (conf ht) (entries ss);
  shape_leads b e : ss.[b] = Some (Full e) →
    ∃ n, leads (conf ht) (num_buckets_idx ht) ss (ekey e) n b;
}.

(** With the numbers the table keeps. *)
Record table (ht : CFBasicHash) (ss : list slot) : Prop := {
  table_shaped :> shaped ht ss;
  table_used : used_buckets ht = zlen (entries ss);
  table_deleted : deleted ht = Z.of_nat (length (filter (Deleted =.) ss));
  table_few_deleted : deleted ht < 2 ^ 16;
  table_capacity : used_buckets ht ≤ CFBasicHashGetCapacity ht;
}.

(** The table has these entries, in some order. *)
Definition holds (ht : CFBasicHash) (es : list entry) : Prop :=
  ∃ ss, table ht ss ∧ entries ss ≡ₚ es.

(** ** Lists of entries *)

Lemma entries_app l1 l2 : entries (l1 ++ l2) = entries l1 ++ entries l2.
Proof. apply omap_app. Qed.

(** What a change of one slot does to the entries. *)
Lemma entries_zupd ss i s : ss.[i] = Some s →
  ∃ r, entries ss ≡ₚ option_list (full s) ++ r
    ∧ ∀ s', entries (zupd ss i s') ≡ₚ option_list (full s') ++ r.
Proof.
  intros Hi. destruct (zget_split _ _ _ Hi) as (l1 & l2 & -> & _ & Hu).
  exists (entries l1 ++ entries l2).
  assert (∀ s', entries (l1 ++ s' :: l2)
    ≡ₚ option_list (full s') ++ entries l1 ++ entries l2) as Hp.
  { intros s'. rewrite entries_app. destruct s'; cbn; [done..|].
    symmetry. apply Permutation_middle. }
  split; [apply Hp|]. intros s'. rewrite Hu. apply Hp.
Qed.

Lemma elem_of_entries ss e : e ∈ entries ss ↔ ∃ i, ss.[i] = Some (Full e).
Proof.
  split.
  - intros (s & Hs & He)%list_elem_of_omap.
    destruct s; [done..|]. injection He as ->.
    apply list_elem_of_lookup in Hs as [i Hi]. exists (Z.of_nat i).
    unfold zget. by rewrite decide_True, Nat2Z.id by lia.
  - intros [i Hi]. destruct (entries_zupd _ _ _ Hi) as (r & -> & _). set_solver.
Qed.

Section distinct.
Context (c : config) `{Hc : Lawful c}.

Lemma distinct_perm l l' : l ≡ₚ l' → distinct c l → distinct c l'.
Proof. intros Hp Hd a b r Hr. apply (Hd a b r). by rewrite Hp. Qed.

Lemma equal_sym_false a b : __CFBasicHashTestEqualKey c a b = false →
  __CFBasicHashTestEqualKey c b a = false.
Proof. rewrite <- !not_true_iff_false. intros H H'. by apply H, equal_sym. Qed.

Lemma distinct_cons e l : distinct c (e :: l) ↔
  distinct c l ∧ ∀ a, a ∈ l → __CFBasicHashTestEqualKey c (ekey e) (ekey a) = false.
Proof.
  split.
  - intros Hd. split.
    + intros a b r Hr. apply (Hd a b (e :: r)). rewrite Hr.
      rewrite (Permutation_swap e b), (Permutation_swap e a). done.
    + intros a [r Hr]%elem_of_Permutation. apply (Hd e a r). by rewrite Hr.
  - intros [Hd He] a b r Hr. assert (e ∈ a :: b :: r) as Hin by (rewrite <- Hr; set_solver).
    rewrite !elem_of_cons in Hin. destruct Hin as [Hea|[Heb|Her]].
    + subst a. apply He. apply Permutation_cons_inv in Hr. rewrite Hr. set_solver.
    + subst b. rewrite (Permutation_swap e a) in Hr. apply Permutation_cons_inv in Hr.
      apply equal_sym_false, He. rewrite Hr. set_solver.
    + apply elem_of_Permutation in Her as [r' Hr']. apply (Hd a b r').
      rewrite Hr' in Hr. rewrite (Permutation_swap e b), (Permutation_swap e a) in Hr.
      by apply Permutation_cons_inv in Hr.
Qed.

Lemma distinct_app_l l1 l2 : distinct c (l1 ++ l2) → distinct c l1.
Proof.
  intros Hd a b r Hr. apply (Hd a b (r ++ l2)). rewrite Hr. done.
Qed.

(** Slots with equal keys are one slot. *)
Lemma distinct_slots ss i j a b : distinct c (entries ss) →
  ss.[i] = Some (Full a) → ss.[j] = Some (Full b) →
  __CFBasicHashTestEqualKey c (ekey a) (ekey b) = true → i = j.
Proof.
  intros Hd Hi Hj He. destruct (decide (i = j)) as [|Hij]; [done|].
  destruct (entries_zupd _ _ _ Hi) as (r & Hr & Hu). specialize (Hu Empty). cbn in Hr, Hu.
  assert (b ∈ r) as Hb.
  { rewrite <- Hu. apply elem_of_entries. exists j.
    pose proof (zget_Some _ _ _ Hi). rewrite zget_zupd by lia. by rewrite decide_False by done. }
  apply elem_of_Permutation in Hb as [r' Hr']. rewrite (Hd a b r') in He; [done|].
  by rewrite Hr, Hr'.
Qed.
End distinct.
