(* ===== verification/HashFind.v ===== *)
(** * Reading and searching a CFBasicHash

    The reads of one bucket, the search for a key and the search for an empty
    bucket, on a table that has the invariant of HashSpec.v. *)
From S2P Require Import Prelude BasicHash HashPrimes HashProbe HashSpec.
Open Scope Z_scope.

(** The word the probes look at. *)
Definition raw_probe (c : config) (s : slot) : Z := if keys_offset c then raw_key s else raw_value s.

Section reads.
Context (ht : CFBasicHash) (ss : list slot) `{Hc : !Lawful (conf ht)} (Hs : shaped ht ss).

Lemma probe_array : __CFBasicHashGetKeys ht = raw_probe (conf ht) <$> ss.
Proof.
  unfold __CFBasicHashGetKeys, raw_probe. rewrite (shape_keys _ _ Hs), (shape_values _ _ Hs).
  by destruct (keys_offset (conf ht)).
Qed.

Lemma read_entry_ok b e : ss.[b] = Some (Full e) → entry_ok (conf ht) (counts_width ht) e.
Proof.
  intros He. pose proof (shape_ok _ _ Hs) as Hok. rewrite Forall_forall in Hok.
  apply Hok, elem_of_entries. by exists b.
Qed.

Lemma read_value b e : ss.[b] = Some (Full e) → __CFBasicHashGetValue ht b = Some (evalue e).
Proof.
  intros He. destruct (read_entry_ok b e He) as (Hv & _).
  unfold __CFBasicHashGetValue. rewrite (shape_values _ _ Hs), zget_fmap, He. cbn.
  by rewrite decode_encode.
Qed.

(** What [find_loop] does with the word it read. *)
Lemma read_probe b e : ss.[b] = Some (Full e) →
  let w := decode (raw_probe (conf ht) (Full e)) in
  (if indirect_keys (conf ht) then __CFBasicHashGetIndirectKey (conf ht) w else w) = ekey e.
Proof.
  intros He. destruct (read_entry_ok b e He) as (Hv & Hk & _). cbv zeta.
  unfold raw_probe. destruct (keys_offset (conf ht)) eqn:Hko; cbn.
  - by rewrite decode_encode, keys_are_direct.
  - rewrite decode_encode by done. by rewrite Hk.
Qed.

Lemma read_key b e : ss.[b] = Some (Full e) → __CFBasicHashGetKey ht b = Some (ekey e).
Proof.
  intros He. destruct (read_entry_ok b e He) as (Hv & Hk & _).
  unfold __CFBasicHashGetKey. rewrite (read_value b e He).
  destruct (keys_offset (conf ht)) eqn:Hko.
  - rewrite (shape_keys _ _ Hs), Hko, zget_fmap, He. cbn. by rewrite decode_encode.
  - rewrite Hk. unfold value_key. by destruct (indirect_keys (conf ht)).
Qed.

Lemma read_count b e : ss.[b] = Some (Full e) →
  (if counts_offset (conf ht) then __CFBasicHashGetSlotCount ht b else Some 1) = Some (ecount e).
Proof.
  intros He. destruct (read_entry_ok b e He) as (_ & _ & Hn).
  unfold __CFBasicHashGetSlotCount. rewrite (shape_counts _ _ Hs).
  destruct (counts_offset (conf ht)); [by rewrite zget_fmap, He|by rewrite Hn].
Qed.

Lemma raw_probe_empty c s : raw_probe c s = 0 ↔ s = Empty.
Proof.
  unfold raw_probe. split; [|by intros ->; destruct (keys_offset c)].
  destruct s as [| |e]; [done| |]; destruct (keys_offset c); cbn; try done;
    by destruct (encode_live (ekey e)), (encode_live (evalue e)).
Qed.

Lemma raw_probe_deleted c s : raw_probe c s = all_ones ↔ s = Deleted.
Proof.
  unfold raw_probe. split; [|by intros ->; destruct (keys_offset c)].
  destruct s as [| |e]; [|done|]; destruct (keys_offset c); cbn; try done;
    by destruct (encode_live (ekey e)), (encode_live (evalue e)).
Qed.

Lemma read_free b s : ss.[b] = Some s → full s = None →
  __CFBasicHashIsEmptyOrDeleted ht b = Some true.
Proof.
  intros Hb Hf. unfold __CFBasicHashIsEmptyOrDeleted.
  rewrite (shape_values _ _ Hs), zget_fmap, Hb. by destruct s.
Qed.

Lemma read_deleted b s : ss.[b] = Some s →
  __CFBasicHashIsDeleted ht b = Some (bool_decide (s = Deleted)).
Proof.
  intros Hb. unfold __CFBasicHashIsDeleted. rewrite (shape_values _ _ Hs), zget_fmap, Hb. cbn.
  destruct s as [| |e]; [done|done|]. cbn. destruct (encode_live (evalue e)).
  by rewrite (proj2 (Z.eqb_neq _ _)) by done.
Qed.

Lemma read_occupied b e : ss.[b] = Some (Full e) →
  __CFBasicHashIsEmptyOrDeleted ht b = Some false.
Proof.
  intros Hb. unfold __CFBasicHashIsEmptyOrDeleted. rewrite (shape_values _ _ Hs), zget_fmap, Hb.
  cbn [mbind option_bind fmap option_fmap option_map raw_value].
  pose proof (encode_occupied (evalue e)) as Ho. unfold occupied in Ho.
  apply negb_true_iff in Ho. by rewrite (Z.eqb_sym 0), (Z.eqb_sym all_ones), Ho.
Qed.

(** The bucket that shows an entry. *)
Definition bucket_of (b : Z) (e : entry) : CFBasicHashBucket :=
  {| idx := b; weak_key := ekey e; weak_value := evalue e; count := ecount e |}.

Lemma get_bucket_full b e : ss.[b] = Some (Full e) →
  CFBasicHashGetBucket ht b = Some (bucket_of b e).
Proof.
  intros He. unfold CFBasicHashGetBucket. rewrite (read_occupied b e He). cbn [mbind option_bind].
  rewrite (read_count b e He). cbn [mbind option_bind].
  by rewrite (read_value b e He), (read_key b e He).
Qed.

Lemma get_bucket_free b s : ss.[b] = Some s → full s = None →
  CFBasicHashGetBucket ht b = Some (no_element b).
Proof. intros Hb Hf. unfold CFBasicHashGetBucket. by rewrite (read_free b s Hb Hf). Qed.

Lemma entry_count_pos b e : ss.[b] = Some (Full e) → 0 < ecount e.
Proof. intros He. destruct (read_entry_ok b e He) as (_ & _ & Hn). destruct (counts_offset (conf ht)); lia. Qed.

(** The cached hash code decides nothing: equal keys have equal hash codes. *)
Lemma matches_equal b e k : ss.[b] = Some (Full e) →
  bucket_matches ht (ekey e) k (__CFBasicHashHashKey (conf ht) k) b
  = Some (__CFBasicHashTestEqualKey (conf ht) (ekey e) k).
Proof.
  intros He. unfold bucket_matches. destruct (Z.eqb_spec (ekey e) k) as [<-|_].
  { by rewrite equal_refl. }
  unfold __CFBasicHashHasHashCache. rewrite (shape_hashes _ _ Hs).
  destruct (hashes_offset (conf ht)); [|done]. rewrite zget_fmap, He. cbn. f_equal.
  destruct (__CFBasicHashTestEqualKey (conf ht) (ekey e) k) eqn:Ht; [|by rewrite andb_false_r].
  by rewrite (equal_hash _ _ Ht), Z.eqb_refl.
Qed.
End reads.

(** ** The search *)

(** The bucket [b] may take an entry for the key [k]. *)
Definition free_for (c : config) (i : Z) (ss : list slot) (k b : Z) : Prop :=
  ∃ n s, leads c i ss k n b ∧ ss.[b] = Some s ∧ full s = None.

(** No entry for the key [k]. *)
Definition absent (c : config) (ss : list slot) (k : Z) : Prop :=
  ∀ b e, ss.[b] = Some (Full e) → __CFBasicHashTestEqualKey c (ekey e) k = false.

(** Every bucket has an entry. *)
Definition all_full (ss : list slot) : Prop := ∀ b s, ss.[b] = Some s → full s ≠ None.

Inductive found (c : config) (i : Z) (ss : list slot) (k : Z) : CFBasicHashBucket → Prop :=
  | found_entry b e : ss.[b] = Some (Full e) → __CFBasicHashTestEqualKey c (ekey e) k = true →
      found c i ss k (bucket_of b e)
  | found_free b : absent c ss k → free_for c i ss k b → found c i ss k (no_element b)
  | found_nothing : absent c ss k → all_full ss → found c i ss k (no_element kCFNotFound).

Section search.
Context (ht : CFBasicHash) (ss : list slot) `{Hc : !Lawful (conf ht)} (Hs : shaped ht ss).
Context (k : Z) (Hi : style_index (hash_style (conf ht)) (num_buckets_idx ht)).

#[local] Abbreviation p := (__CFBasicHashTableSizes (num_buckets_idx ht)).
#[local] Abbreviation probe := (probe_key (conf ht) (num_buckets_idx ht) k).
#[local] Abbreviation equal := (__CFBasicHashTestEqualKey (conf ht)).

Lemma probe_slot n : ∃ s, ss.[probe n] = Some s.
Proof.
  apply zget_is_Some. rewrite (shape_len _ _ Hs). apply probe_of_range; [|done].
  apply style_is_known.
Qed.

(** What the probes before [n] have seen. *)
Definition passed (n : nat) : Prop := ∀ m, (m < n)%nat →
  ∃ s, ss.[probe m] = Some s ∧ s ≠ Empty ∧ ∀ e, s = Full e → equal (ekey e) k = false.

Definition first_deleted (n : nat) (d : Z) : Prop :=
  (d = kCFNotFound ∧ ∀ m, (m < n)%nat → ss.[probe m] ≠ Some Deleted)
  ∨ ∃ m, (m < n)%nat ∧ probe m = d ∧ ss.[d] = Some Deleted.

Lemma passed_S n s : passed n → ss.[probe n] = Some s → s ≠ Empty →
  (∀ e, s = Full e → equal (ekey e) k = false) → passed (S n).
Proof.
  intros Hn Hp Hne He m Hm. destruct (decide (m = n)) as [->|]; [by exists s|]. apply Hn. lia.
Qed.

Lemma passed_absent n : passed n → (n < Z.to_nat p)%nat → ss.[probe n] = Some Empty →
  absent (conf ht) ss k.
Proof.
  intros Hn Hlt Hp b e Hb. destruct (equal (ekey e) k) eqn:He; [|done].
  destruct (shape_leads _ _ Hs b e Hb) as (m & Hm & Hmb & Hbefore).
  unfold probe_key in Hmb, Hbefore. rewrite (equal_hash _ _ He) in Hmb, Hbefore.
  destruct (lt_eq_lt_dec n m) as [[Hnm|<-]|Hmn].
  - by destruct (Hbefore n).
  - fold (probe n) in Hmb. rewrite Hmb, Hb in Hp. done.
  - destruct (Hn m Hmn) as (s & Hps & _ & Hse). unfold probe_key in Hps. rewrite Hmb, Hb in Hps.
    injection Hps as <-. by rewrite (Hse e) in He.
Qed.

Lemma passed_all_absent : passed (Z.to_nat p) → absent (conf ht) ss k.
Proof.
  intros Hn b e Hb. destruct (equal (ekey e) k) eqn:He; [|done].
  destruct (shape_leads _ _ Hs b e Hb) as (m & Hm & Hmb & _).
  unfold probe_key in Hmb. rewrite (equal_hash _ _ He) in Hmb.
  destruct (Hn m Hm) as (s & Hps & _ & Hse). unfold probe_key in Hps. rewrite Hmb, Hb in Hps.
  injection Hps as <-. by rewrite (Hse e) in He.
Qed.

Lemma first_deleted_free n d : passed n → (n ≤ Z.to_nat p)%nat → first_deleted n d →
  d ≠ kCFNotFound → free_for (conf ht) (num_buckets_idx ht) ss k d.
Proof.
  intros Hn Hle [[-> _]|(m & Hm & <- & Hd)] Hne; [done|].
  exists m, Deleted. split; [|done]. split; [lia|]. split; [done|].
  intros m' Hm'. destruct (Hn m') as (s & -> & Hs' & _); [lia|]. congruence.
Qed.

Lemma empty_free n : passed n → (n < Z.to_nat p)%nat → ss.[probe n] = Some Empty →
  free_for (conf ht) (num_buckets_idx ht) ss k (probe n).
Proof.
  intros Hn Hlt He. exists n, Empty. split; [|done]. split; [done|]. split; [done|].
  intros m Hm. destruct (Hn m Hm) as (s & -> & Hs' & _). congruence.
Qed.

(** The bucket the search gives when it meets an empty one. *)
Lemma stop_at_empty n d : passed n → (n < Z.to_nat p)%nat → first_deleted n d →
  ss.[probe n] = Some Empty →
  found (conf ht) (num_buckets_idx ht) ss k
    (no_element (if kCFNotFound =? d then probe n else d)).
Proof.
  intros Hn Hlt Hd He. apply found_free; [by apply (passed_absent n)|].
  destruct (Z.eqb_spec kCFNotFound d); [by apply empty_free|].
  apply (first_deleted_free n); auto with lia.
Qed.

Lemma stop_at_end d : passed (Z.to_nat p) → first_deleted (Z.to_nat p) d →
  found (conf ht) (num_buckets_idx ht) ss k (no_element d).
Proof.
  intros Hn Hd. pose proof (passed_all_absent Hn) as Ha.
  destruct (decide (d = kCFNotFound)) as [->|Hne].
  2: { apply found_free; [done|]. by apply (first_deleted_free (Z.to_nat p)). }
  apply found_nothing; [done|]. intros b s Hb Hf.
  assert (0 ≤ b < p) as Hbp by (rewrite <- (shape_len _ _ Hs); by apply zget_Some in Hb).
  destruct (probe_of_onto (hash_style (conf ht)) (num_buckets_idx ht)
    (__CFBasicHashHashKey (conf ht) k) style_is_known Hi b Hbp) as (m & Hm & Hmb).
  destruct (Hn m Hm) as (s' & Hs' & Hne & _). unfold probe_key in Hs'. rewrite Hmb, Hb in Hs'.
  injection Hs' as <-. destruct s as [| |]; [done| |done].
  destruct Hd as [[_ Hd]|(m' & _ & Hm' & Hd)].
  - apply (Hd m Hm). unfold probe_key. by rewrite Hmb.
  - unfold kCFNotFound in *. apply zget_Some in Hd. lia.
Qed.

(** ** The loops *)

#[local] Abbreviation hash := (__CFBasicHashHashKey (conf ht) k).
#[local] Abbreviation h1 := (probe_h1 p hash).
#[local] Abbreviation h2 := (probe_h2 p hash).
#[local] Abbreviation pr := (__CFBasicHashPrimitiveRoots (num_buckets_idx ht)).
#[local] Abbreviation state := (probe_state (hash_style (conf ht)) p h1 h2 pr).

Lemma find_loop_found n d r : passed n → (n + r = Z.to_nat p)%nat → first_deleted n d →
  ∃ bkt, find_loop ht (hash_style (conf ht)) p h1 h2 pr k hash d (state n).1 (state n).2 r
         = Some bkt ∧ found (conf ht) (num_buckets_idx ht) ss k bkt.
Proof.
  revert n d. induction r as [|r IH]; intros n d Hn Hr Hd; cbn [find_loop].
  { exists (no_element d). split; [done|]. replace n with (Z.to_nat p) in * by lia.
    by apply stop_at_end. }
  change (state n).1 with (probe n). destruct (probe_slot n) as [s Hps].
  rewrite (probe_array _ _ Hs), zget_fmap, Hps. cbn [fmap option_fmap option_map mbind option_bind].
  assert (next_probe (hash_style (conf ht)) p h1 h2 pr (probe n) (state n).2 = state (S n)) as ->.
  { cbn [probe_state]. unfold probe_key, probe_of. by destruct (state n). }
  rewrite (surjective_pairing (state (S n))).
  destruct (Z.eqb_spec (raw_probe (conf ht) s) 0) as [->%raw_probe_empty|Hne].
  { eexists. split; [done|]. apply (stop_at_empty n); [done|lia|done|done]. }
  rewrite raw_probe_empty in Hne.
  destruct (Z.eqb_spec (raw_probe (conf ht) s) all_ones) as [->%raw_probe_deleted|Hnd].
  { apply IH; [by apply (passed_S n Deleted)|lia|]. right.
    destruct (Z.eqb_spec kCFNotFound d) as [<-|Hdn].
    - exists n. split; [lia|done].
    - destruct Hd as [[-> _]|(m & Hm & Hd)]; [done|]. exists m. split; [lia|done]. }
  rewrite raw_probe_deleted in Hnd. destruct s as [| |e]; [done..|].
  pose proof (read_probe _ _ Hs _ e Hps) as Hk. cbv zeta in Hk |- *. rewrite Hk.
  rewrite (matches_equal _ _ Hs _ _ k Hps). cbn [mbind option_bind].
  destruct (equal (ekey e) k) eqn:He.
  - rewrite (read_value _ _ Hs _ _ Hps), (read_count _ _ Hs _ _ Hps). cbn [mbind option_bind].
    exists (bucket_of (probe n) e). split; [done|]. by apply found_entry.
  - apply IH; [|lia|].
    + apply (passed_S n (Full e)); [done|done|done|]. by intros e' [= <-].
    + destruct Hd as [[-> Hd]|(m & Hm & Hd)]; [left|right; exists m; split; [lia|done]].
      split; [done|]. intros m Hm. destruct (decide (m = n)) as [->|]; [congruence|].
      apply Hd. lia.
Qed.

(** The search for an empty bucket, on a table without deleted ones. *)
Lemma find_empty_loop_found n r :
  passed n → (n + r = Z.to_nat p)%nat → (∃ b, ss.[b] = Some Empty) →
  absent (conf ht) ss k → (∀ b, ss.[b] ≠ Some Deleted) →
  ∃ b, find_empty_loop ht (hash_style (conf ht)) p h1 h2 pr (state n).1 (state n).2 r = Some b
    ∧ free_for (conf ht) (num_buckets_idx ht) ss k b ∧ ss.[b] = Some Empty.
Proof.
  intros Hn Hr Hempty Habs Hnd. revert n Hn Hr.
  induction r as [|r IH]; intros n Hn Hr; cbn [find_empty_loop].
  { exfalso. replace n with (Z.to_nat p) in * by lia. destruct Hempty as [b Hb].
    assert (0 ≤ b < p) as Hbp by (rewrite <- (shape_len _ _ Hs); by apply zget_Some in Hb).
    destruct (probe_of_onto (hash_style (conf ht)) (num_buckets_idx ht) hash
      style_is_known Hi b Hbp) as (m & Hm & Hmb).
    destruct (Hn m Hm) as (s & Hps & Hne & _). unfold probe_key in Hps.
    rewrite Hmb, Hb in Hps. congruence. }
  change (state n).1 with (probe n). destruct (probe_slot n) as [s Hps].
  rewrite (probe_array _ _ Hs), zget_fmap, Hps. cbn [fmap option_fmap option_map mbind option_bind].
  assert (next_probe (hash_style (conf ht)) p h1 h2 pr (probe n) (state n).2 = state (S n)) as ->.
  { cbn [probe_state]. unfold probe_key, probe_of. by destruct (state n). }
  rewrite (surjective_pairing (state (S n))).
  destruct (Z.eqb_spec (raw_probe (conf ht) s) 0) as [->%raw_probe_empty|Hne].
  { exists (probe n). split; [done|]. split; [|done]. apply empty_free; [done|lia|done]. }
  rewrite raw_probe_empty in Hne. apply IH; [|lia].
  apply (passed_S n s); [done|done|done|]. intros e ->. by apply (Habs (probe n)).
Qed.
End search.

(** ** The functions *)

Section functions.
Context (ht : CFBasicHash) (ss : list slot) `{Hc : !Lawful (conf ht)} (Hs : shaped ht ss).

Lemma find_bucket_found k : ∃ bkt, __CFBasicHashFindBucket ht k = Some bkt
  ∧ found (conf ht) (num_buckets_idx ht) ss k bkt.
Proof.
  unfold __CFBasicHashFindBucket. destruct (Z.eqb_spec 0 (num_buckets_idx ht)) as [H0|H0].
  { exists (no_element kCFNotFound). split; [done|].
    pose proof (shape_len _ _ Hs) as Hl. rewrite <- H0 in Hl. change (zlen ss = 0) in Hl.
    apply found_nothing; intros b s Hb; apply zget_Some in Hb; lia. }
  rewrite style_is_known. destruct (shape_index _ _ Hs) as [|Hi]; [lia|].
  apply (find_loop_found ht ss Hs k Hi 0); [|done|].
  - intros m Hm. lia.
  - left. split; [done|]. intros m Hm. lia.
Qed.

Lemma find_no_collision_found k h : num_buckets_idx ht ≠ 0 →
  h = 0 ∨ h = __CFBasicHashHashKey (conf ht) k → (∃ b, ss.[b] = Some Empty) →
  absent (conf ht) ss k → (∀ b, ss.[b] ≠ Some Deleted) →
  ∃ b, __CFBasicHashFindBucket_NoCollision ht k h = Some b
    ∧ free_for (conf ht) (num_buckets_idx ht) ss k b ∧ ss.[b] = Some Empty.
Proof.
  intros H0 Hh Hempty Habs Hnd. unfold __CFBasicHashFindBucket_NoCollision.
  rewrite (proj2 (Z.eqb_neq 0 _)), style_is_known by done.
  destruct (shape_index _ _ Hs) as [|Hi]; [lia|].
  unfold ___CFBasicHashFindBucket_NoCollision.
  assert ((if h =? 0 then __CFBasicHashHashKey (conf ht) k else h)
          = __CFBasicHashHashKey (conf ht) k) as ->.
  { destruct (Z.eqb_spec h 0); [done|]. by destruct Hh. }
  apply (find_empty_loop_found ht ss Hs k Hi 0); [|done..]. intros m Hm. lia.
Qed.
End functions.
