(* ===== verification/HashOps.v ===== *)
(** * The operations of a CFBasicHash on its slots

    Writing a bucket, rehashing, adding, replacing and removing, against the
    invariant of HashSpec.v. *)
From S2P Require Import Prelude BasicHash HashPrimes HashProbe HashSpec HashFind.
Open Scope Z_scope.

(** A table without its arrays: what an operation on the arrays keeps. *)
Definition rest (ht : CFBasicHash) : CFBasicHash :=
  set_values (set_keys (set_counts (set_hashes ht []) []) []) [].

Lemma rest_conf a b : rest a = rest b → conf a = conf b.
Proof. exact (λ H, f_equal conf H). Qed.
Lemma rest_width a b : rest a = rest b → counts_width a = counts_width b.
Proof. exact (λ H, f_equal counts_width H). Qed.
Lemma rest_index a b : rest a = rest b → num_buckets_idx a = num_buckets_idx b.
Proof. exact (λ H, f_equal num_buckets_idx H). Qed.

(** The arrays of [ht] are images of [ss]. *)
Record imaged (ht : CFBasicHash) (ss : list slot) : Prop := {
  image_values : values ht = raw_value <$> ss;
  image_keys : keys ht = if keys_offset (conf ht) then raw_key <$> ss else [];
  image_counts : counts ht = if counts_offset (conf ht) then raw_count <$> ss else [];
  image_hashes : hashes ht = if hashes_offset (conf ht) then raw_hash (conf ht) <$> ss else [];
}.

Lemma shaped_imaged ht ss : shaped ht ss → imaged ht ss.
Proof. by intros []. Qed.

(** ** Changing one slot *)

(** What is asked of the new contents of a slot. *)
Record may_put (ht : CFBasicHash) (ss : list slot) (b : Z) (s' : slot) : Prop := {
  put_empty : s' = Empty → ss.[b] = Some Empty;
  put_ok e : s' = Full e → entry_ok (conf ht) (counts_width ht) e;
  put_distinct : distinct (conf ht) (entries (zupd ss b s'));
  put_leads e : s' = Full e → ∃ n, leads (conf ht) (num_buckets_idx ht) ss (ekey e) n b;
}.

Lemma leads_zupd c i ss k n b b' s' : 0 ≤ b < zlen ss → (s' = Empty → ss.[b] = Some Empty) →
  leads c i ss k n b' → leads c i (zupd ss b s') k n b'.
Proof.
  intros Hb Hs' (Hn & Hp & Hbefore). split; [done|]. split; [done|]. intros m Hm.
  rewrite zget_zupd by done. case_decide as Hd; [|by apply Hbefore].
  intros [= ->]. apply (Hbefore m Hm). rewrite Hd. by apply Hs'.
Qed.

Lemma shaped_put ht ht' ss b s' : shaped ht ss → 0 ≤ b < zlen ss → may_put ht ss b s' →
  conf ht' = conf ht → counts_width ht' = counts_width ht →
  num_buckets_idx ht' = num_buckets_idx ht →
  imaged ht' (zupd ss b s') → shaped ht' (zupd ss b s').
Proof.
  intros Hs Hb [He Hok Hd Hl] Hcf Hw Hi [Hv Hk Hc Hh].
  constructor; rewrite ?Hcf, ?Hw, ?Hi in *; try done.
  - apply (shape_index _ _ Hs).
  - apply (shape_width _ _ Hs).
  - rewrite zlen_zupd. by apply shape_len.
  - apply Forall_forall. intros e [i Hie]%elem_of_entries. rewrite zget_zupd in Hie by done.
    case_decide; [injection Hie as ->; by apply Hok|]. by apply (read_entry_ok _ _ Hs i).
  - intros i e Hie. rewrite zget_zupd in Hie by done. case_decide as Hd'.
    + injection Hie as ->. subst i. destruct (Hl e eq_refl) as [n Hn]. exists n.
      by apply leads_zupd.
    + destruct (shape_leads _ _ Hs i e Hie) as [n Hn]. exists n. by apply leads_zupd.
Qed.

(** A key equal to another one has the same probes. *)
Lemma leads_equal `{Hc : Lawful c} i ss k k' n b : __CFBasicHashTestEqualKey c k k' = true →
  leads c i ss k n b → leads c i ss k' n b.
Proof. intros He. unfold leads, probe_key. by rewrite (equal_hash _ _ He). Qed.

(** ** Writing the arrays *)

(** The events of keeping and of letting go. *)
Definition value_retained (ht : CFBasicHash) (v : Z) : list event :=
  match retainValue (callbacks (conf ht)) with
  | Some f => if null_rc ht then [] else [RetainedValue (f v)]
  | None => []
  end.
Definition key_retained (ht : CFBasicHash) (k : Z) : list event :=
  match retainKey (callbacks (conf ht)) with
  | Some f => if null_rc ht then [] else [RetainedKey (f k)]
  | None => []
  end.
Definition value_released (ht : CFBasicHash) (s : slot) : list event :=
  match s with
  | Full e => if releaseValue (callbacks (conf ht)) && negb (null_rc ht)
              then [ReleasedValue (evalue e)] else []
  | _ => []
  end.
Definition key_released (ht : CFBasicHash) (s : slot) : list event :=
  match s with
  | Full e => if keys_offset (conf ht) && (releaseKey (callbacks (conf ht)) && negb (null_rc ht))
              then [ReleasedKey (ekey e)] else []
  | _ => []
  end.

Definition add_events (ht : CFBasicHash) (es : list event) : CFBasicHash :=
  set_events ht (es ++ events ht).

Lemma add_events_nil ht : add_events ht [] = ht.
Proof. by destruct ht. Qed.

Lemma import_value_ok ht v : __CFBasicHashImportValue ht v =
  (imported (retainValue (callbacks (conf ht))) (null_rc ht) v, add_events ht (value_retained ht v)).
Proof.
  unfold __CFBasicHashImportValue, imported, value_retained.
  destruct (retainValue _); [destruct (null_rc ht)|]; by rewrite ?add_events_nil.
Qed.

Lemma import_key_ok ht k : __CFBasicHashImportKey ht k =
  (imported (retainKey (callbacks (conf ht))) (null_rc ht) k, add_events ht (key_retained ht k)).
Proof.
  unfold __CFBasicHashImportKey, imported, key_retained.
  destruct (retainKey _); [destruct (null_rc ht)|]; by rewrite ?add_events_nil.
Qed.

(** Arrays that the table has become images of [ss]. *)
Definition with_values (ht : CFBasicHash) (ss : list slot) : CFBasicHash :=
  set_values ht (raw_value <$> ss).
Definition with_keys (ht : CFBasicHash) (ss : list slot) : CFBasicHash :=
  set_keys ht (if keys_offset (conf ht) then raw_key <$> ss else []).
Definition with_counts (ht : CFBasicHash) (ss : list slot) : CFBasicHash :=
  set_counts ht (if counts_offset (conf ht) then raw_count <$> ss else []).
Definition with_hashes (ht : CFBasicHash) (ss : list slot) : CFBasicHash :=
  set_hashes ht (if hashes_offset (conf ht) then raw_hash (conf ht) <$> ss else []).

(** All of them. *)
Definition with_slots (ht : CFBasicHash) (ss : list slot) : CFBasicHash :=
  with_hashes (with_counts (with_keys (with_values ht ss) ss) ss) ss.

Lemma with_slots_imaged ht ss : imaged (with_slots ht ss) ss.
Proof. done. Qed.

Lemma imaged_with_slots ht ss : imaged ht ss → with_slots ht ss = ht.
Proof.
  intros [Hv Hk Hc Hh]. unfold with_slots, with_hashes, with_counts, with_keys, with_values.
  cbn [conf set_values set_keys set_counts]. rewrite <- Hv, <- Hk, <- Hc, <- Hh. by destruct ht.
Qed.

Section stages.
Context (ht : CFBasicHash) (ss : list slot) (b : Z) (s s' : slot) (Hb : ss.[b] = Some s).

Lemma write_value w (lit : bool) : values ht = raw_value <$> ss → (∀ e, s = Full e → valid (evalue e)) →
  raw_value s' = (if lit then w else encode w) →
  __CFBasicHashSetValue ht b w false lit
  = Some (add_events (with_values ht (zupd ss b s')) (value_released ht s)).
Proof.
  intros Hv Hok Hw. unfold __CFBasicHashSetValue. pose proof (zget_Some _ _ _ Hb) as Hr.
  rewrite <- Hw, zset_ok by (rewrite Hv, zlen_fmap; done).
  rewrite Hv, zget_fmap, Hb, (zupd_fmap raw_value).
  cbn [fmap option_fmap option_map mbind option_bind negb andb].
  destruct s as [| |e]; [done..|].
  cbn [raw_value]. rewrite encode_occupied, decode_encode by (by apply Hok).
  unfold __CFBasicHashEjectValue, value_released. cbn [conf null_rc set_values].
  by destruct (releaseValue _), (null_rc _).
Qed.

Lemma write_key w (lit : bool) : keys ht = (if keys_offset (conf ht) then raw_key <$> ss else []) →
  (∀ e, s = Full e → keys_offset (conf ht) = true → valid (ekey e)) →
  (keys_offset (conf ht) = true → raw_key s' = if lit then w else encode w) →
  (if keys_offset (conf ht) then __CFBasicHashSetKey ht b w false lit else Some ht)
  = Some (add_events (with_keys ht (zupd ss b s')) (key_released ht s)).
Proof.
  intros Hv Hok Hw. unfold __CFBasicHashSetKey, with_keys. pose proof (zget_Some _ _ _ Hb) as Hr.
  unfold key_released.
  destruct (keys_offset (conf ht)) eqn:Hko; [|by rewrite <- Hv; destruct ht, s].
  cbn [negb]. rewrite <- Hw, zset_ok by (done || rewrite Hv, zlen_fmap; done).
  rewrite Hv, zget_fmap, Hb, (zupd_fmap raw_key).
  cbn [fmap option_fmap option_map mbind option_bind negb andb].
  destruct s as [| |e]; [done..|].
  cbn [raw_key]. rewrite encode_occupied, decode_encode by (by apply Hok).
  unfold __CFBasicHashEjectKey. cbn [conf null_rc set_keys].
  by destruct (releaseKey _), (null_rc _).
Qed.

Lemma write_count n : counts ht = (if counts_offset (conf ht) then raw_count <$> ss else []) →
  (counts_offset (conf ht) = true → raw_count s' = n) →
  (if counts_offset (conf ht) then cs ← (counts ht).[b := n]; Some (set_counts ht cs) else Some ht)
  = Some (with_counts ht (zupd ss b s')).
Proof.
  intros Hv Hw. unfold with_counts. pose proof (zget_Some _ _ _ Hb) as Hr.
  destruct (counts_offset (conf ht)); [|by rewrite <- Hv; destruct ht].
  rewrite <- Hw, zset_ok by (done || rewrite Hv, zlen_fmap; done).
  by rewrite Hv, (zupd_fmap raw_count).
Qed.

Lemma write_hash h : hashes ht = (if hashes_offset (conf ht) then raw_hash (conf ht) <$> ss else []) →
  (hashes_offset (conf ht) = true → raw_hash (conf ht) s' = h) →
  (if __CFBasicHashHasHashCache ht then hs ← (hashes ht).[b := h]; Some (set_hashes ht hs) else Some ht)
  = Some (with_hashes ht (zupd ss b s')).
Proof.
  intros Hv Hw. unfold with_hashes, __CFBasicHashHasHashCache. pose proof (zget_Some _ _ _ Hb) as Hr.
  destruct (hashes_offset (conf ht)); [|by rewrite <- Hv; destruct ht].
  rewrite <- Hw, zset_ok by (done || rewrite Hv, zlen_fmap; done).
  by rewrite Hv, (zupd_fmap (raw_hash (conf ht))).
Qed.
End stages.

Lemma count_max_pos width : 0 ≤ width ≤ 3 → 127 ≤ count_max width.
Proof.
  intros Hw. unfold count_max, count_bits.
  assert (width = 0 ∨ width = 1 ∨ width = 2 ∨ width = 3) as [->|[->|[->| ->]]] by lia; lia.
Qed.

(** ** Rehashing *)

(** The images of the slots of a table before its arrays are replaced. *)
Record old_arrays (c : config) (os : list slot) (ov ok oc oh : list Z) : Prop := {
  old_values_are : ov = raw_value <$> os;
  old_keys_are : ok = if keys_offset c then raw_key <$> os else [];
  old_counts_are : oc = if counts_offset c then raw_count <$> os else [];
  old_hashes_are : oh = if hashes_offset c then raw_hash c <$> os else [];
}.

Lemma imaged_old ht os : imaged ht os →
  old_arrays (conf ht) os (values ht) (keys ht) (counts ht) (hashes ht).
Proof. by intros []. Qed.

Lemma may_fill ht ss b s e : Lawful (conf ht) → shaped ht ss → ss.[b] = Some s → full s = None →
  entry_ok (conf ht) (counts_width ht) e → absent (conf ht) ss (ekey e) →
  (∃ n, leads (conf ht) (num_buckets_idx ht) ss (ekey e) n b) → may_put ht ss b (Full e).
Proof.
  intros Hc Hs Hb Hf Hok Habs Hl. constructor; [done|by intros e' [= <-]| |by intros e' [= <-]].
  destruct (entries_zupd _ _ _ Hb) as (r & Hr & Hu). rewrite Hf in Hr. cbn in Hr.
  eapply distinct_perm; [symmetry; apply Hu|]. cbn. apply distinct_cons; [done|]. split.
  - by apply (distinct_perm _ _ _ Hr), (shape_distinct _ _ Hs).
  - intros a Ha. rewrite <- Hr in Ha. apply elem_of_entries in Ha as [i Hi].
    apply equal_sym_false; [done|]. by apply (Habs i).
Qed.

Section rehash.
Context `{Al : Allocator} (Hal : ∀ n, 0 < n → is_Some (alloc n)).

Lemma new_array_ok has n w : 0 ≤ n → 0 < w →
  new_array has n w = Some (if has then replicate (Z.to_nat n) 0 else []).
Proof.
  intros Hn Hw. unfold new_array, __CFBasicHashAllocateMemory. destruct has; [|done]. cbn [andb].
  destruct (Z.ltb_spec 0 n) as [H0|H0]; [|by replace n with 0 by lia].
  destruct (Hal (n * w)) as [m Hm]; [nia|]. by rewrite Hm.
Qed.

(** One entry moves to the empty bucket that the probes for its key find. *)
Lemma move_bucket_full os ov ok oc oh ht ss i e :
  old_arrays (conf ht) os ov ok oc oh → Lawful (conf ht) → shaped ht ss →
  os.[i] = Some (Full e) → entry_ok (conf ht) (counts_width ht) e →
  absent (conf ht) ss (ekey e) → (∀ b, ss.[b] ≠ Some Deleted) → (∃ b, ss.[b] = Some Empty) →
  ∃ ht' b, move_bucket ov ok oc oh ht i = Some ht' ∧ ss.[b] = Some Empty
    ∧ rest ht' = rest ht ∧ shaped ht' (zupd ss b (Full e)).
Proof.
  intros [-> -> -> ->] Hc Hs Hi Hok Habs Hnd Hempty. pose proof Hok as (Hv & Hk & Hn).
  unfold move_bucket. rewrite zget_fmap, Hi.
  cbn [fmap option_fmap option_map mbind option_bind raw_value].
  rewrite encode_occupied, decode_encode by done. cbn [negb].
  assert (num_buckets_idx ht ≠ 0) as H0.
  { destruct Hempty as [b Hb]. apply zget_Some in Hb. intros Hz.
    rewrite (shape_len _ _ Hs), Hz in Hb. change (0 ≤ b < 0) in Hb. lia. }
  set (kh := if hashes_offset (conf ht) then __CFBasicHashHashKey (conf ht) (ekey e) else 0).
  destruct (find_no_collision_found ht ss Hs (ekey e) kh H0) as (b & Hfind & (n & s & Hl & _) & Hb);
    [unfold kh; destruct (hashes_offset _); auto|done..|].
  assert ((if keys_offset (conf ht)
    then key ← (if keys_offset (conf ht) then raw_key <$> os else []).[i]; Some (decode key)
    else Some (evalue e)) = Some (if keys_offset (conf ht) then ekey e else evalue e)) as ->.
  { destruct (keys_offset (conf ht)); [|done]. rewrite zget_fmap, Hi. cbn. by rewrite decode_encode. }
  assert ((if __CFBasicHashHasHashCache ht
    then (if hashes_offset (conf ht) then raw_hash (conf ht) <$> os else []).[i] else Some 0)
    = Some kh) as ->.
  { unfold kh, __CFBasicHashHasHashCache.
    destruct (hashes_offset (conf ht)); [by rewrite zget_fmap, Hi|done]. }
  assert ((if indirect_keys (conf ht) then __CFBasicHashGetIndirectKey (conf ht) (evalue e)
    else if keys_offset (conf ht) then ekey e else evalue e) = ekey e) as Hkey.
  { destruct (keys_offset (conf ht)) eqn:Hko; [by rewrite keys_are_direct|]. rewrite Hk.
    unfold value_key. by destruct (indirect_keys (conf ht)). }
  cbn [mbind option_bind]. rewrite Hkey, Hfind. cbn [mbind option_bind].
  destruct (shaped_imaged _ _ Hs) as [Iv Ik Ic Ih].
  rewrite (write_value ht ss b Empty (Full e) Hb) by done. cbn [mbind option_bind].
  rewrite (write_key _ ss b Empty (Full e) Hb) by done. cbn [mbind option_bind].
  match goal with |- context [counts_offset (conf ?h)] => set (ht1 := h) end.
  assert ((if counts_offset (conf ht1) then
      c ← (if counts_offset (conf ht) then raw_count <$> os else []).[i];
      cs ← (counts ht1).[b := c]; Some (set_counts ht1 cs) else Some ht1)
    = if counts_offset (conf ht1) then
      cs ← (counts ht1).[b := ecount e]; Some (set_counts ht1 cs) else Some ht1) as ->.
  { change (conf ht1) with (conf ht).
    destruct (counts_offset (conf ht)); [by rewrite zget_fmap, Hi|done]. }
  rewrite (write_count ht1 ss b Empty (Full e) Hb) by done. cbn [mbind option_bind].
  rewrite (write_hash (with_counts ht1 _) ss b Empty (Full e) Hb kh); [|done|].
  2: { cbn. unfold kh. by intros ->. }
  eexists _, b. split; [done|]. split; [done|]. split; [done|].
  apply (shaped_put ht); [done|by apply zget_Some in Hb| |done..].
  apply (may_fill ht ss b Empty); eauto.
Qed.

Lemma move_bucket_free os ov ok oc oh ht i s : ov = raw_value <$> os → os.[i] = Some s →
  full s = None → move_bucket ov ok oc oh ht i = Some ht.
Proof.
  intros -> Hi Hf. unfold move_bucket. rewrite zget_fmap, Hi. by destruct s.
Qed.

(** There is an empty bucket where there are fewer entries than buckets. *)
Lemma some_empty ss : (∀ b, ss.[b] ≠ Some Deleted) → zlen (entries ss) < zlen ss →
  ∃ b, ss.[b] = Some Empty.
Proof.
  induction ss as [|s ss IH]; cbn; intros Hnd Hlt; [done|].
  destruct s as [| |e]; [by exists 0|by destruct (Hnd 0)|].
  cbn in Hlt. rewrite !zlen_cons in Hlt. destruct IH as [b Hb]; [|unfold entries; lia|].
  - intros b Hb. apply (Hnd (b + 1)). pose proof (zget_Some _ _ _ Hb).
    by rewrite zget_cons_S by lia.
  - exists (b + 1). pose proof (zget_Some _ _ _ Hb). by rewrite zget_cons_S by lia.
Qed.

Lemma entries_fill ss b s e : ss.[b] = Some s → full s = None →
  entries (zupd ss b (Full e)) ≡ₚ e :: entries ss.
Proof.
  intros Hb Hf. destruct (entries_zupd _ _ _ Hb) as (r & Hr & Hu).
  rewrite Hf in Hr. cbn in Hr. by rewrite Hu, Hr.
Qed.

(** The entry [e] moves when it is distinct from those moved before. *)
Lemma move_step os ov ok oc oh ht ss i e :
  old_arrays (conf ht) os ov ok oc oh → Lawful (conf ht) → shaped ht ss →
  os.[i] = Some (Full e) → entry_ok (conf ht) (counts_width ht) e →
  distinct (conf ht) (e :: entries ss) → zlen (entries ss) < zlen ss →
  (∀ b, ss.[b] ≠ Some Deleted) →
  ∃ ht' ss', move_bucket ov ok oc oh ht i = Some ht' ∧ rest ht' = rest ht
    ∧ shaped ht' ss' ∧ entries ss' ≡ₚ e :: entries ss ∧ zlen ss' = zlen ss
    ∧ (∀ b, ss'.[b] ≠ Some Deleted).
Proof.
  intros Ho Hc Hs Hi Hok [_ He]%distinct_cons Hlen Hnd; [|done].
  destruct (move_bucket_full os ov ok oc oh ht ss i e Ho Hc Hs Hi Hok)
    as (ht1 & b & Hm & Hb & Hr & Hs1); [|done|by apply some_empty|].
  { intros j a Ha. apply equal_sym_false; [done|]. apply He, elem_of_entries. by exists j. }
  exists ht1, (zupd ss b (Full e)). split; [done|]. split; [done|]. split; [done|].
  split; [by apply (entries_fill ss b Empty)|]. split; [apply zlen_zupd|].
  intros j. rewrite zget_zupd by (by apply zget_Some in Hb). by case_decide.
Qed.

(** The entries of the old arrays from [i] on join those already moved. *)
Lemma rehash_loop_ok os ov ok oc oh ht ss i n :
  old_arrays (conf ht) os ov ok oc oh → Lawful (conf ht) → shaped ht ss →
  (i + n = length os)%nat → Forall (entry_ok (conf ht) (counts_width ht)) (entries os) →
  distinct (conf ht) (entries ss ++ entries (drop i os)) →
  zlen (entries ss ++ entries (drop i os)) ≤ zlen ss → (∀ b, ss.[b] ≠ Some Deleted) →
  ∃ ht' ss', rehash_loop ov ok oc oh ht (Z.of_nat i) n = Some ht' ∧ rest ht' = rest ht
    ∧ shaped ht' ss' ∧ entries ss' ≡ₚ entries ss ++ entries (drop i os)
    ∧ (∀ b, ss'.[b] ≠ Some Deleted).
Proof.
  intros Ho Hc. revert ht ss i Ho Hc. induction n as [|n IH];
    intros ht ss i Ho Hc Hs Hin Hoks Hd Hlen Hnd; cbn [rehash_loop].
  { exists ht, ss. rewrite drop_ge, app_nil_r by lia. done. }
  destruct (lookup_lt_is_Some_2 os i) as [s Hsi]; [lia|].
  assert (Hzi : os.[Z.of_nat i] = Some s) by (unfold zget; by rewrite decide_True, Nat2Z.id by lia).
  rewrite (drop_S _ _ _ Hsi) in Hd, Hlen |- *.
  replace (Z.of_nat i + 1) with (Z.of_nat (S i)) by lia.
  destruct s as [| |e].
  1,2: rewrite (move_bucket_free os _ _ _ _ _ _ _ (old_values_are _ _ _ _ _ _ Ho) Hzi eq_refl);
    apply IH; [done|done|done|lia|done..].
  cbn in Hd, Hlen |- *. change (omap full (drop (S i) os)) with (entries (drop (S i) os)) in *.
  rewrite zlen_app, zlen_cons in Hlen. pose proof (zlen_nonneg (entries (drop (S i) os))).
  assert (Hd' : distinct (conf ht) ((e :: entries ss) ++ entries (drop (S i) os)))
    by (eapply distinct_perm; [symmetry; apply Permutation_middle|exact Hd]).
  destruct (move_step os ov ok oc oh ht ss (Z.of_nat i) e Ho Hc Hs Hzi)
    as (ht1 & ss1 & -> & Hr & Hs1 & Hp & Hl & Hnd1); [|by eapply distinct_app_l|lia|done|].
  { rewrite Forall_forall in Hoks. apply Hoks, elem_of_entries. by exists (Z.of_nat i). }
  cbn [mbind option_bind].
  destruct (IH ht1 ss1 (S i)) as (ht' & ss' & Hloop & Hr' & Hs' & He' & Hnd');
    rewrite ?(rest_conf _ _ Hr), ?(rest_width _ _ Hr); [done|done|done|lia|done| | |done|].
  - eapply distinct_perm; [|exact Hd']. by rewrite Hp.
  - rewrite zlen_app, Hl. unfold zlen at 1. rewrite Hp. cbn [length]. unfold zlen in *. lia.
  - exists ht', ss'. split; [done|]. split; [congruence|]. split; [done|]. split; [|done].
    rewrite He', Hp. cbn. apply Permutation_middle.
Qed.

(** A table whose arrays are all zeros. *)
Lemma shaped_zeros ht n : good_index (conf ht) (num_buckets_idx ht) → 0 ≤ counts_width ht ≤ 3 →
  Z.of_nat n = __CFBasicHashTableSizes (num_buckets_idx ht) →
  shaped (with_slots ht (replicate n Empty)) (replicate n Empty).
Proof.
  intros Hi Hw Hn. assert (He : entries (replicate n Empty) = []) by (clear; by induction n).
  constructor; try done.
  - by rewrite zlen_replicate.
  - by rewrite He.
  - rewrite He. intros a b r Hr. by apply Permutation_nil_l in Hr.
  - intros b e Hb. assert (e ∈ entries (replicate n Empty)) as Hin
      by (apply elem_of_entries; by exists b). rewrite He in Hin. by apply elem_of_nil in Hin.
Qed.

Lemma size_nonneg i : 0 ≤ __CFBasicHashTableSizes i.
Proof.
  unfold __CFBasicHashTableSizes. destruct (TableSizes.[i]) as [p|] eqn:Hp; [|done]. cbn.
  assert (Forall (λ p, 0 ≤ p) TableSizes) as Hf by by_decide.
  rewrite Forall_zget in Hf. by apply (Hf i).
Qed.

Lemma capacity_fits c i : good_index c i → __CFBasicHashTableCapacities i ≤ __CFBasicHashTableSizes i.
Proof.
  intros [->|[Hi _]]; [done|]. destruct (size_row i Hi) as (_ & _ & _ & [_ H] & _). done.
Qed.

Lemma zeros_images {A} (f : slot → A) z n : f Empty = z → f <$> replicate n Empty = replicate n z.
Proof. intros <-. apply fmap_replicate. Qed.

Lemma rehash_ok ht ss n i : Lawful (conf ht) → shaped ht ss → new_index ht n = Some i →
  good_index (conf ht) i → zlen (entries ss) ≤ __CFBasicHashTableCapacities i →
  ∃ ht' ss', __CFBasicHashRehash ht n = Some ht'
    ∧ rest ht' = rest (set_deleted (set_num_buckets_idx ht i) 0)
    ∧ shaped ht' ss' ∧ entries ss' ≡ₚ entries ss ∧ (∀ b, ss'.[b] ≠ Some Deleted).
Proof.
  intros Hc Hs Hi Hgood Hcap. pose proof (capacity_fits _ _ Hgood) as Hfit.
  pose proof (size_nonneg i) as Hsz. pose proof (shape_width _ _ Hs) as Hw.
  unfold __CFBasicHashRehash. rewrite Hi. cbn [mbind option_bind].
  rewrite !new_array_ok by (done || lia). cbn [mbind option_bind].
  set (m := Z.to_nat (__CFBasicHashTableSizes i)) in *.
  match goal with |- context [rehash_loop _ _ _ _ ?h] =>
    assert (h = with_slots (set_deleted (set_num_buckets_idx ht i) 0) (replicate m Empty)) as -> end.
  { destruct (shaped_imaged _ _ Hs) as [_ Hk Hcn Hh].
    unfold with_slots, with_values, with_keys, with_counts, with_hashes, __CFBasicHashHasHashCache.
    cbn [conf set_values set_keys set_counts set_deleted set_num_buckets_idx].
    rewrite !(zeros_images _ 0) by done.
    clear Hi Hs. destruct ht; cbn in *. destruct (keys_offset conf); cbn in *;
      (destruct (counts_offset conf); cbn in * ); destruct (hashes_offset conf); by subst. }
  replace (Z.to_nat (__CFBasicHashTableSizes (num_buckets_idx ht))) with (length ss)
    by (rewrite <- (shape_len _ _ Hs); unfold zlen; lia).
  set (ht0 := with_slots _ _).
  assert (Hs0 : shaped ht0 (replicate m Empty)) by (apply shaped_zeros; [done|done|cbn; lia]).
  assert (He : entries (replicate m Empty) = []) by (clear; by induction m).
  destruct (rehash_loop_ok ss (values ht) (keys ht) (counts ht) (hashes ht) ht0
    (replicate m Empty) 0 (length ss)) as (ht' & ss' & Hl & Hr & Hs' & Hp & Hnd);
    rewrite ?He, ?drop_0; cbn [app].
  - exact (imaged_old ht ss (shaped_imaged _ _ Hs)).
  - done.
  - done.
  - done.
  - apply (shape_ok _ _ Hs).
  - apply (shape_distinct _ _ Hs).
  - rewrite zlen_replicate. lia.
  - intros b Hb. pose proof (zget_Some _ _ _ Hb) as Hb'. unfold zget in Hb.
    rewrite decide_True in Hb by lia. by apply lookup_replicate in Hb as [? _].
  - exists ht', ss'. rewrite He, drop_0 in Hp. done.
Qed.
End rehash.
