(* ===== verification/HashChange.v ===== *)
(** * Adding, replacing and removing in a CFBasicHash

    The functions of CFBasicHash.c that work on a bucket already found, each
    shown to change the list of entries as it should and to keep the invariant
    of HashSpec.v; rehashing makes room or gets rid of deleted buckets on the
    way. *)
From S2P Require Import Prelude BasicHash HashPrimes HashProbe HashSpec HashFind HashOps.
Open Scope Z_scope.

(** ** Capacities *)

(** The number of entries up to which every operation is shown to work: the
    capacity of the index 42, which leaves room for the extra step of fast
    growth below the indices where exponential probing overflows. *)
Definition max_entries : Z := 1238087439.

Lemma index_for_capacity_ok x i n m : x ≤ __CFBasicHashTableCapacities (i + Z.of_nat m) → (m < n)%nat →
  ∃ j, index_for_capacity x i n = Some j ∧ i ≤ j ≤ i + Z.of_nat m
    ∧ x ≤ __CFBasicHashTableCapacities j.
Proof.
  revert i m. induction n as [|n IH]; intros i m Hx Hm; [lia|]. cbn [index_for_capacity].
  unfold __CFBasicHashGetCapacityForNumBuckets.
  destruct (Z.leb_spec x (__CFBasicHashTableCapacities i)); [exists i; split; [done|lia]|].
  destruct m as [|m]; [rewrite Z.add_0_r in Hx; lia|].
  destruct (IH (i + 1) m) as (j & Hj & Hij & Hxj); [|lia|].
  - replace (i + 1 + Z.of_nat m) with (i + Z.of_nat (S m)) by lia. done.
  - exists j. split; [done|]. split; [lia|done].
Qed.

Lemma capacity_index x : x ≤ max_entries →
  ∃ j, __CFBasicHashGetNumBucketsIndexForCapacity x = Some j ∧ 0 ≤ j ≤ 42
    ∧ x ≤ __CFBasicHashTableCapacities j.
Proof. intros Hx. apply (index_for_capacity_ok x 0 64 42); [exact Hx|lia]. Qed.

Lemma good_small c i : 0 ≤ i ≤ 43 → good_index c i.
Proof.
  intros Hi. destruct (decide (i = 0)) as [|H0]; [by left|]. right. unfold style_index, size_index. lia.
Qed.

Lemma capacity_mono i j : 0 ≤ i ≤ j → j ≤ 44 →
  __CFBasicHashTableCapacities i ≤ __CFBasicHashTableCapacities j.
Proof.
  intros Hi. assert (∃ d, j = i + d ∧ 0 ≤ d) as (d & -> & Hd) by (exists (j - i); lia).
  apply (natlike_ind (λ d, i + d ≤ 44 →
    __CFBasicHashTableCapacities i ≤ __CFBasicHashTableCapacities (i + d))); [| |done].
  - intros _. by rewrite Z.add_0_r.
  - intros x Hx IH Hle. destruct (size_row (i + Z.succ x)) as (_ & _ & _ & [H _] & _).
    { unfold size_index. lia. }
    replace (i + Z.succ x - 1) with (i + x) in H by lia. specialize (IH ltac:(lia)). lia.
Qed.

(** The index of the new arrays holds the entries and one more, if asked. *)
Lemma new_index_grow ht : 0 ≤ used_buckets ht < max_entries →
  ∃ i, new_index ht 1 = Some i ∧ good_index (conf ht) i ∧ i ≠ 0
    ∧ used_buckets ht + 1 ≤ __CFBasicHashTableCapacities i.
Proof.
  intros Hu. unfold new_index. cbn [negb Z.eqb Z.ltb Z.compare Pos.eqb].
  destruct (capacity_index (used_buckets ht + 1)) as (j & -> & Hj & Hcap); [lia|].
  cbn [mbind option_bind]. assert (j ≠ 0) by (intros ->; change (__CFBasicHashTableCapacities 0) with 0 in Hcap; lia).
  eexists. split; [done|]. cbn [andb]. destruct (fast_grow (conf ht)).
  - split; [apply good_small; lia|]. split; [lia|].
    pose proof (capacity_mono j (j + 1)). lia.
  - split; [apply good_small; lia|]. done.
Qed.

Lemma new_index_shrink ht : 0 ≤ used_buckets ht ≤ max_entries →
  ∃ i, new_index ht (-1) = Some i ∧ good_index (conf ht) i
    ∧ used_buckets ht ≤ __CFBasicHashTableCapacities i.
Proof.
  intros Hu. unfold new_index. cbn [negb Z.eqb Z.ltb Z.compare Pos.eqb andb]. rewrite Z.add_0_r.
  destruct (capacity_index (used_buckets ht)) as (j & -> & Hj & Hcap); [lia|].
  exists j. split; [done|]. split; [apply good_small; lia|done].
Qed.

(** ** Numbers of slots *)

Definition deleted_slots (ss : list slot) : Z := Z.of_nat (length (filter (Deleted =.) ss)).

Lemma deleted_slots_zupd ss b s s' : ss.[b] = Some s →
  deleted_slots (zupd ss b s') + Z.b2z (bool_decide (s = Deleted))
  = deleted_slots ss + Z.b2z (bool_decide (s' = Deleted)).
Proof.
  intros Hb. destruct (zget_split _ _ _ Hb) as (l1 & l2 & -> & _ & Hu). rewrite Hu.
  unfold deleted_slots. rewrite !filter_app, !filter_cons, !length_app.
  repeat case_decide; repeat case_bool_decide; subst; try done; cbn; lia.
Qed.

Lemma deleted_slots_0 ss : (∀ b, ss.[b] ≠ Some Deleted) → deleted_slots ss = 0.
Proof.
  intros H. unfold deleted_slots. destruct (filter (Deleted =.) ss) as [|s l] eqn:Hf; [done|].
  assert (s ∈ filter (Deleted =.) ss) as [<- [i Hi]%list_elem_of_lookup]%list_elem_of_filter
    by (rewrite Hf; set_solver).
  exfalso. apply (H (Z.of_nat i)). unfold zget. by rewrite decide_True, Nat2Z.id by lia.
Qed.

Lemma entries_and_deleted ss : zlen (entries ss) + deleted_slots ss ≤ zlen ss.
Proof.
  unfold deleted_slots. induction ss as [|s ss IH]; [done|].
  rewrite filter_cons, zlen_cons. change (entries (s :: ss)) with (entries ([s] ++ ss)).
  rewrite entries_app, zlen_app. destruct s as [| |e]; case_decide; try done;
    [change (entries [Empty]) with (@nil entry)|change (entries [Deleted]) with (@nil entry)
    |change (entries [Full e]) with [e]]; rewrite ?zlen_cons, zlen_nil; cbn [length]; lia.
Qed.

(** Fewer entries than buckets: not all buckets are full. *)
Lemma not_all_full ss : zlen (entries ss) < zlen ss → ¬ all_full ss.
Proof.
  intros Hlt Hall. assert (zlen (entries ss) = zlen ss); [|lia]. clear Hlt.
  induction ss as [|s ss IH]; [done|]. pose proof (Hall 0 s eq_refl) as Hs.
  destruct s as [| |e]; [done..|]. change (entries (Full e :: ss)) with (e :: entries ss).
  rewrite !zlen_cons. f_equal. apply IH. intros b s Hb. apply (Hall (b + 1)).
  pose proof (zget_Some _ _ _ Hb). by rewrite zget_cons_S by lia.
Qed.

(** ** Adding *)

(** What no operation on elements changes. *)
Definition kept (ht ht' : CFBasicHash) : Prop :=
  conf ht' = conf ht ∧ immutable ht' = immutable ht ∧ null_rc ht' = null_rc ht
  ∧ finalized ht' = finalized ht.

(** The entry that is stored for a key and a value. *)
Definition stored_value (ht : CFBasicHash) (v : Z) : Z :=
  imported (retainValue (callbacks (conf ht))) (null_rc ht) v.
Definition stored_key (ht : CFBasicHash) (k v : Z) : Z :=
  if keys_offset (conf ht) then imported (retainKey (callbacks (conf ht))) (null_rc ht) k
  else value_key (conf ht) (stored_value ht v).

Definition stored (ht : CFBasicHash) (k v n : Z) : entry :=
  {| ekey := stored_key ht k v; evalue := stored_value ht v; ecount := n |}.

(** The events of storing. *)
Definition retained (ht : CFBasicHash) (k v : Z) : list event :=
  (if keys_offset (conf ht) then key_retained ht k else []) ++ value_retained ht v.

(** In a table without keys, the key that comes with a value is its own. *)
Definition fitting (c : config) (k v : Z) : Prop :=
  valid v ∧ (if keys_offset c then valid k
             else __CFBasicHashTestEqualKey c k (value_key c v) = true).

Lemma stored_equal ht k v `{Hc : Lawful (conf ht)} : fitting (conf ht) k v →
  __CFBasicHashTestEqualKey (conf ht) (stored_key ht k v) k = true.
Proof.
  intros [Hv Hk]. unfold stored_key, stored_value. destruct (keys_offset (conf ht)) eqn:Hko.
  - by apply retained_key_equal.
  - eapply equal_trans; [by apply retained_value_equal|by apply equal_sym].
Qed.

Lemma stored_ok ht k v n `{Hc : Lawful (conf ht)} : fitting (conf ht) k v →
  (if counts_offset (conf ht) then 1 ≤ n ≤ count_max (counts_width ht) else n = 1) →
  entry_ok (conf ht) (counts_width ht) (stored ht k v n).
Proof.
  intros [Hv Hk] Hn. split; [by apply retained_value_valid|]. split; [|done].
  cbn. unfold stored_key. destruct (keys_offset (conf ht)); [by apply retained_key_valid|done].
Qed.

(** Equal keys are looked for alike. *)
Lemma absent_equal c ss k k' `{Hc : Lawful c} : __CFBasicHashTestEqualKey c k' k = true →
  absent c ss k → absent c ss k'.
Proof.
  intros He Ha b e Hb. apply not_true_iff_false. intros H.
  pose proof (Ha b e Hb) as Hf. apply not_true_iff_false in Hf. apply Hf.
  by apply equal_trans with k'.
Qed.

Section add.
Context `{Al : Allocator} (Hal : ∀ n, 0 < n → is_Some (alloc n)).

(** The first half of [__CFBasicHashAddValue]: a bucket for the new entry. *)
Definition make_room (ht : CFBasicHash) (bkt_idx stack_key : Z) : option (CFBasicHash * Z) :=
  if CFBasicHashGetCapacity ht <? used_buckets ht + 1 then
    ht ← __CFBasicHashRehash ht 1;
    bkt_idx ← __CFBasicHashFindBucket_NoCollision ht stack_key 0;
    Some (ht, bkt_idx)
  else
    d ← __CFBasicHashIsDeleted ht bkt_idx;
    Some (if (d : bool) then set_deleted ht (u16 (deleted ht - 1)) else ht, bkt_idx).

(** What it gives. *)
Record room (ht : CFBasicHash) (es : list entry) (k : Z) (ht' : CFBasicHash) (ss' : list slot)
    (b : Z) (s : slot) : Prop := {
  room_kept : kept ht ht';
  room_events : events ht' = events ht;
  room_used : used_buckets ht' = used_buckets ht;
  room_shaped : shaped ht' ss';
  room_entries : entries ss' ≡ₚ es;
  room_slot : ss'.[b] = Some s;
  room_free : full s = None;
  room_leads : ∃ n, leads (conf ht') (num_buckets_idx ht') ss' k n b;
  room_deleted e : deleted ht' = deleted_slots (zupd ss' b (Full e));
  room_few : deleted ht' < 2 ^ 16;
  room_capacity : used_buckets ht' + 1 ≤ CFBasicHashGetCapacity ht';
}.

Lemma u16_small x : 0 ≤ x < 2 ^ 16 → u16 x = x.
Proof. intros. by apply Z.mod_small. Qed.

Lemma absent_perm c ss ss' k : entries ss' ≡ₚ entries ss → absent c ss k → absent c ss' k.
Proof.
  intros Hp Ha b e Hb. assert (e ∈ entries ss) as [i Hi]%elem_of_entries; [|by apply (Ha i)].
  rewrite <- Hp. apply elem_of_entries. by exists b.
Qed.

Lemma make_room_rehashed ht ss b k : Lawful (conf ht) → table ht ss → absent (conf ht) ss k →
  used_buckets ht < max_entries → CFBasicHashGetCapacity ht < used_buckets ht + 1 →
  ∃ ht' ss' b' s, make_room ht b k = Some (ht', b') ∧ room ht (entries ss) k ht' ss' b' s.
Proof.
  intros Hc [Hs Hu Hd Hfew Hcap] Ha Hmax Hfull. unfold make_room.
  rewrite (proj2 (Z.ltb_lt _ _)) by done. pose proof (zlen_nonneg (entries ss)).
  destruct (new_index_grow ht) as (i & Hi & Hg & Hi0 & Hicap); [lia|].
  destruct (rehash_ok Hal ht ss 1 i Hc Hs Hi Hg) as (ht' & ss' & -> & Hr & Hs' & Hp & Hnd); [lia|].
  cbn [mbind option_bind]. pose proof (rest_index _ _ Hr) as Hidx. cbn in Hidx.
  pose proof (rest_conf _ _ Hr) as Hcf. cbn in Hcf.
  pose proof (f_equal used_buckets Hr) as Hus. cbn in Hus.
  pose proof (f_equal deleted Hr) as Hdel. cbn in Hdel.
  assert (Hlen : zlen (entries ss') < zlen ss').
  { rewrite (shape_len _ _ Hs'), Hidx. pose proof (capacity_fits _ _ Hg).
    unfold zlen at 1. rewrite Hp. fold (zlen (entries ss)). lia. }
  assert (Hc' : Lawful (conf ht')) by by rewrite Hcf.
  destruct (find_no_collision_found ht' ss' Hs' k 0) as (b' & -> & (n & s & Hl & Hb & Hf) & Hb');
    [by rewrite Hidx|by left|by apply some_empty|rewrite Hcf; by apply (absent_perm _ ss)|done|].
  cbn [mbind option_bind]. exists ht', ss', b', s. split; [done|]. constructor; try done.
  - split; [done|]. split; [exact (f_equal immutable Hr)|].
    split; [exact (f_equal null_rc Hr)|exact (f_equal finalized Hr)].
  - exact (f_equal events Hr).
  - by exists n.
  - intros e. rewrite Hdel. symmetry. apply deleted_slots_0. intros j.
    rewrite zget_zupd by (by apply zget_Some in Hb). by case_decide.
  - by rewrite Hdel.
  - unfold CFBasicHashGetCapacity, __CFBasicHashGetCapacityForNumBuckets. rewrite Hidx. lia.
Qed.

Lemma make_room_there ht ss b k : Lawful (conf ht) → table ht ss →
  found (conf ht) (num_buckets_idx ht) ss k (no_element b) →
  used_buckets ht + 1 ≤ CFBasicHashGetCapacity ht →
  ∃ ht' ss' b' s, make_room ht b k = Some (ht', b') ∧ room ht (entries ss) k ht' ss' b' s.
Proof.
  intros Hc Ht Hfound Hroom. pose proof Ht as [Hs Hu Hd Hfew Hcap]. unfold make_room.
  rewrite (proj2 (Z.ltb_ge _ _)) by done.
  assert (∃ n s, leads (conf ht) (num_buckets_idx ht) ss k n b ∧ ss.[b] = Some s
    ∧ full s = None) as (n & s & Hl & Hb & Hf).
  { inversion Hfound as [b' e He Hk [Hbe]|b' Ha Hf Hb|Ha Hall Hb].
    - pose proof (entry_count_pos _ _ Hs _ _ He). lia.
    - by subst.
    - exfalso. apply (not_all_full ss); [|done]. rewrite (shape_len _ _ Hs).
      pose proof (capacity_fits _ _ (shape_index _ _ Hs)).
      unfold CFBasicHashGetCapacity, __CFBasicHashGetCapacityForNumBuckets in Hroom. lia. }
  rewrite (read_deleted _ _ Hs _ _ Hb). cbn [mbind option_bind].
  pose proof (deleted_slots_zupd ss b s) as Hz. fold (deleted_slots ss) in Hd.
  assert (Hd0 : ∀ ss, 0 ≤ deleted_slots ss) by (intros; unfold deleted_slots; lia).
  assert (Hdel : ∀ e, deleted_slots (zupd ss b (Full e))
    = deleted ht - Z.b2z (bool_decide (s = Deleted))).
  { intros e. specialize (Hz (Full e) Hb).
    rewrite (bool_decide_eq_false_2 (Full e = Deleted)) in Hz by done. cbn in Hz. lia. }
  eexists _, ss, b, s. split; [done|].
  case_bool_decide as Hsd; cbn in Hdel.
  - assert (0 ≤ deleted ht - 1) by (rewrite <- (Hdel {| ekey := 0; evalue := 0; ecount := 0 |}); done).
    constructor; try done; cbn; rewrite ?u16_small by lia; try lia.
    + by destruct Hs.
    + by exists n.
    + intros e. by rewrite Hdel.
  - constructor; try done; [by exists n|]. intros e. rewrite Hdel. lia.
Qed.

(** The count of a new entry. *)
Lemma inc_fresh ht ss b s s' : counts ht = (if counts_offset (conf ht) then raw_count <$> ss else []) →
  0 ≤ counts_width ht ≤ 3 → ss.[b] = Some s → full s = None → raw_count s' = 1 →
  (if counts_offset (conf ht) then __CFBasicHashIncSlotCount ht b else Some ht)
  = Some (with_counts ht (zupd ss b s')).
Proof.
  intros Hcn Hw Hb Hf Hs'. rewrite <- (write_count ht ss b s s' Hb 1 Hcn) by done.
  destruct (counts_offset (conf ht)) eqn:Hco; [|done].
  unfold __CFBasicHashIncSlotCount. cbn [inc_slot_count].
  rewrite Hcn at 1. rewrite zget_fmap, Hb. cbn [fmap option_fmap option_map mbind option_bind].
  replace (raw_count s) with 0 by (by destruct s). pose proof (count_max_pos _ Hw).
  by rewrite (proj2 (Z.ltb_lt _ _)) by lia.
Qed.

(** The second half: the entry is written to the bucket. *)
Definition fill_bucket (ht : CFBasicHash) (bkt_idx stack_key stack_value : Z) : option CFBasicHash :=
  let key_hash := if __CFBasicHashHasHashCache ht then __CFBasicHashHashKey (conf ht) stack_key
                  else 0 in
  let (stack_value, ht) := __CFBasicHashImportValue ht stack_value in
  let (stack_key, ht) := if keys_offset (conf ht) then __CFBasicHashImportKey ht stack_key
                         else (stack_key, ht) in
  ht ← __CFBasicHashSetValue ht bkt_idx stack_value false false;
  ht ← (if keys_offset (conf ht) then __CFBasicHashSetKey ht bkt_idx stack_key false false
        else Some ht);
  ht ← (if counts_offset (conf ht) then __CFBasicHashIncSlotCount ht bkt_idx else Some ht);
  ht ← (if __CFBasicHashHasHashCache ht then
          hs ← (hashes ht).[bkt_idx := key_hash]; Some (set_hashes ht hs)
        else Some ht);
  Some (set_used_buckets ht (u32 (used_buckets ht + 1))).

Lemma import_both ht k v :
  (let (stack_value, ht) := __CFBasicHashImportValue ht v in
   let (stack_key, ht) := if keys_offset (conf ht) then __CFBasicHashImportKey ht k else (k, ht) in
   (stack_value, stack_key, ht))
  = (stored_value ht v, if keys_offset (conf ht) then stored_key ht k v else k,
     add_events ht (retained ht k v)).
Proof.
  rewrite import_value_ok. cbn [conf add_events set_events]. unfold retained, stored_key, stored_value.
  destruct (keys_offset (conf ht)) eqn:Hko; [|done].
  rewrite import_key_ok. cbn [conf null_rc add_events set_events]. f_equal.
  unfold add_events, key_retained. cbn. by rewrite app_assoc.
Qed.

Lemma fill_bucket_ok ht ss b s k v : Lawful (conf ht) → shaped ht ss → ss.[b] = Some s →
  full s = None → fitting (conf ht) k v →
  fill_bucket ht b k v
  = Some (set_used_buckets (with_slots (add_events ht (retained ht k v))
            (zupd ss b (Full (stored ht k v 1)))) (u32 (used_buckets ht + 1))).
Proof.
  intros Hc Hs Hb Hf Hfit. destruct (shaped_imaged _ _ Hs) as [Iv Ik Ic Ih].
  pose proof (stored_equal ht k v Hfit) as Hke. unfold fill_bucket.
  pose proof (import_both ht k v) as Himp.
  destruct (__CFBasicHashImportValue ht v) as [v' ht1].
  destruct (if keys_offset (conf ht1) then __CFBasicHashImportKey ht1 k else (k, ht1)) as [k' ht2].
  injection Himp as -> -> ->. set (s' := Full (stored ht k v 1)).
  assert (Hnf : ∀ e, s = Full e → False) by (by intros e ->).
  rewrite (write_value _ ss b s s' Hb) by (done || by intros e He; destruct (Hnf e He)).
  cbn [mbind option_bind].
  rewrite (write_key _ ss b s s' Hb);
    [|done|by intros e He; destruct (Hnf e He)|cbn; by intros ->]. cbn [mbind option_bind].
  rewrite (inc_fresh _ ss b s s') by (done || apply (shape_width _ _ Hs)). cbn [mbind option_bind].
  rewrite (write_hash _ ss b s s' Hb); [|done|].
  2: { cbn. unfold __CFBasicHashHasHashCache. intros ->. by apply equal_hash. }
  cbn [mbind option_bind]. f_equal. by destruct s.
Qed.

Lemma u32_small x : 0 ≤ x < 2 ^ 32 → u32 x = x.
Proof. intros. by apply Z.mod_small. Qed.

Lemma fill_in_room ht es k v ht1 ss1 b s : Lawful (conf ht) → room ht es k ht1 ss1 b s →
  used_buckets ht = zlen es → used_buckets ht < max_entries → absent (conf ht) ss1 k →
  fitting (conf ht) k v →
  ∃ ht' ss', fill_bucket ht1 b k v = Some ht' ∧ table ht' ss'
    ∧ entries ss' ≡ₚ stored ht k v 1 :: es ∧ kept ht ht'
    ∧ events ht' = retained ht k v ++ events ht.
Proof.
  intros Hc [(Hcf & Him & Hrc & Hfin) Hev Hus Hs1 Hp Hb Hf (n & Hl) Hdel Hfew Hcap] Hu Hmax Ha Hfit.
  assert (Hst : stored ht1 k v 1 = stored ht k v 1)
    by (unfold stored, stored_key, stored_value; by rewrite Hcf, Hrc).
  assert (Hre : retained ht1 k v = retained ht k v)
    by (unfold retained, key_retained, value_retained; by rewrite Hcf, Hrc).
  pose proof (zlen_nonneg es). unfold max_entries in Hmax. rewrite <- Hcf in Hc, Hfit, Ha.
  eexists _, (zupd ss1 b (Full (stored ht1 k v 1))).
  split; [by apply (fill_bucket_ok ht1 ss1 b s)|].
  assert (Hpe : entries (zupd ss1 b (Full (stored ht1 k v 1))) ≡ₚ stored ht k v 1 :: es)
    by (rewrite (entries_fill ss1 b s _ Hb Hf), Hp, Hst; done).
  split; [|split; [done|split; [done|cbn; by rewrite Hev, Hre]]].
  pose proof (stored_equal ht1 k v Hfit) as Hke.
  constructor; cbn; rewrite ?u32_small by lia;
    [|unfold zlen; rewrite Hpe; unfold zlen in Hu; cbn; lia|apply Hdel|done|exact Hcap].
  apply (shaped_put ht1); [done|by apply zget_Some in Hb| |done..].
  apply (may_fill ht1 ss1 b s); [done..| | |].
  - apply (stored_ok ht1 k v 1 Hfit). pose proof (count_max_pos _ (shape_width _ _ Hs1)).
    destruct (counts_offset _); [lia|done].
  - by refine (absent_equal _ _ k _ _ _).
  - exists n. by refine (leads_equal _ _ k _ _ _ (equal_sym _ _ Hke) _).
Qed.

(** Adding an entry for a key that has none. *)
Lemma hash_add_ok ht ss b k v : Lawful (conf ht) → table ht ss → absent (conf ht) ss k →
  found (conf ht) (num_buckets_idx ht) ss k (no_element b) → fitting (conf ht) k v →
  used_buckets ht < max_entries →
  ∃ ht' ss', __CFBasicHashAddValue ht b k v = Some ht' ∧ table ht' ss'
    ∧ entries ss' ≡ₚ stored ht k v 1 :: entries ss ∧ kept ht ht'
    ∧ events ht' = retained ht k v ++ events ht.
Proof.
  intros Hc Ht Ha Hfound Hfit Hmax.
  assert (Htm : table (mutated ht) ss) by (destruct Ht as [[] ? ? ? ?]; by constructor).
  assert (∃ ht1 ss1 b1 s, make_room (mutated ht) b k = Some (ht1, b1)
    ∧ room (mutated ht) (entries ss) k ht1 ss1 b1 s) as (ht1 & ss1 & b1 & s & Hmr & Hroom).
  { destruct (Z.lt_ge_cases (CFBasicHashGetCapacity ht) (used_buckets ht + 1)).
    - by apply make_room_rehashed.
    - by apply make_room_there. }
  destruct (fill_in_room (mutated ht) (entries ss) k v ht1 ss1 b1 s) as (ht' & ss' & Hfill & Ht' & Hrest);
    [done|done|apply (table_used _ _ Ht)|done| |done|].
  { apply (absent_perm _ ss); [by apply (room_entries _ _ _ _ _ _ _ Hroom)|done]. }
  exists ht', ss'. split; [|done].
  transitivity ('(ht1, b1) ← make_room (mutated ht) b k; fill_bucket ht1 b1 k v); [done|].
  rewrite Hmr. exact Hfill.
Qed.
End add.

(** ** Replacing *)

(** A change of an entry that keeps the place of its key. *)
Lemma may_replace ht ss b e e' : Lawful (conf ht) → shaped ht ss → ss.[b] = Some (Full e) →
  __CFBasicHashTestEqualKey (conf ht) (ekey e') (ekey e) = true →
  entry_ok (conf ht) (counts_width ht) e' → may_put ht ss b (Full e').
Proof.
  intros Hc Hs Hb He Hok. constructor; [done|by intros ? [= <-]| |].
  - destruct (entries_zupd _ _ _ Hb) as (r & Hr & Hu). cbn in Hr.
    pose proof (proj1 (distinct_cons _ _ _) (distinct_perm _ _ _ Hr (shape_distinct _ _ Hs)))
      as [Hd Ha].
    eapply distinct_perm; [symmetry; apply Hu|]. cbn. apply distinct_cons; [done|].
    split; [done|]. intros a Har. apply not_true_iff_false. intros H.
    specialize (Ha a Har). apply not_true_iff_false in Ha. apply Ha.
    apply equal_trans with (ekey e'); [by apply equal_sym|done].
  - intros ? [= <-]. destruct (shape_leads _ _ Hs b e Hb) as [n Hn]. exists n.
    by refine (leads_equal _ _ (ekey e) _ _ _ (equal_sym _ _ He) _).
Qed.

(** What a change of one entry does to the list. *)
Definition changed (ss ss' : list slot) (e e' : entry) : Prop :=
  ∃ r, entries ss ≡ₚ e :: r ∧ entries ss' ≡ₚ e' :: r.

Lemma changed_zupd ss b e e' : ss.[b] = Some (Full e) → changed ss (zupd ss b (Full e')) e e'.
Proof. intros Hb. destruct (entries_zupd _ _ _ Hb) as (r & Hr & Hu). exists r. split; [done|apply Hu]. Qed.

(** The same table, after writes that keep its numbers. *)
Lemma table_put ht ht' ss b e e' : table ht ss → ss.[b] = Some (Full e) →
  may_put ht ss b (Full e') → conf ht' = conf ht → counts_width ht' = counts_width ht →
  num_buckets_idx ht' = num_buckets_idx ht → used_buckets ht' = used_buckets ht →
  deleted ht' = deleted ht → imaged ht' (zupd ss b (Full e')) → table ht' (zupd ss b (Full e')).
Proof.
  intros [Hs Hu Hd Hfew Hcap] Hb Hput Hcf Hw Hi Hu' Hd' Him.
  destruct (changed_zupd ss b e e' Hb) as (r & Hr & Hr').
  constructor.
  - apply (shaped_put ht); [done|by apply zget_Some in Hb|done..].
  - rewrite Hu', Hu. unfold zlen. by rewrite Hr, Hr'.
  - pose proof (deleted_slots_zupd ss b (Full e) (Full e') Hb) as Hz.
    rewrite !bool_decide_eq_false_2 in Hz by done. unfold deleted_slots in Hz. cbn in Hz. lia.
  - lia.
  - unfold CFBasicHashGetCapacity in *. by rewrite Hi, Hu'.
Qed.

Lemma same_image {A} (f : slot → A) ss b s s' : ss.[b] = Some s → f s' = f s →
  f <$> zupd ss b s' = f <$> ss.
Proof. intros Hb Hf. rewrite <- zupd_fmap, Hf. apply zupd_id. by rewrite zget_fmap, Hb. Qed.

Lemma replace_value_ok ht ss b e k v : Lawful (conf ht) → table ht ss → ss.[b] = Some (Full e) →
  __CFBasicHashTestEqualKey (conf ht) (ekey e) k = true → fitting (conf ht) k v →
  ∃ ht', __CFBasicHashReplaceValue ht b k v = Some ht'
    ∧ table ht' (zupd ss b (Full (stored ht k v (ecount e)))) ∧ kept ht ht'
    ∧ events ht' = key_released ht (Full e) ++ value_released ht (Full e)
                   ++ retained ht k v ++ events ht.
Proof.
  intros Hc Ht Hb He Hfit. pose proof (table_shaped _ _ Ht) as Hs.
  destruct (shaped_imaged _ _ Hs) as [Iv Ik Ic Ih]. unfold __CFBasicHashReplaceValue.
  pose proof (import_both (mutated ht) k v) as Himp.
  destruct (__CFBasicHashImportValue (mutated ht) v) as [v' ht1].
  destruct (if keys_offset (conf ht1) then __CFBasicHashImportKey ht1 k else (k, ht1)) as [k' ht2].
  injection Himp as -> -> ->. set (s' := Full (stored ht k v (ecount e))).
  destruct (read_entry_ok _ _ Hs _ _ Hb) as (Hev & Hek & Hn).
  pose proof (stored_equal ht k v Hfit) as Hke.
  assert (Heq : __CFBasicHashTestEqualKey (conf ht) (ekey (stored ht k v (ecount e))) (ekey e) = true)
    by (apply equal_trans with k; [done|by apply equal_sym]).
  rewrite (write_value _ ss b (Full e) s' Hb) by (done || by intros ? [= <-]).
  cbn [mbind option_bind].
  rewrite (write_key _ ss b (Full e) s' Hb);
    [|done|intros ? [= <-]; cbn; intros Hko; by rewrite Hko in Hek|cbn; by intros ->].
  eexists. split; [done|]. split; [|split; [done|by cbn; rewrite <- ?app_assoc]].
  apply (table_put ht _ ss b e); [done|done| |done..|].
  - apply (may_replace ht ss b e); [done..|]. by apply stored_ok.
  - constructor; cbn; [done|done| |].
    + rewrite Ic. destruct (counts_offset (conf ht)); [|done]. symmetry.
      by apply (same_image _ ss b (Full e)).
    + rewrite Ih. destruct (hashes_offset (conf ht)); [|done]. symmetry.
      apply (same_image _ ss b (Full e)); [done|]. cbn. by apply equal_hash.
Qed.

(** ** Counting *)

Lemma count_max_mono w w' : 0 ≤ w ≤ w' → count_max w ≤ count_max w'.
Proof.
  intros Hw. unfold count_max, count_bits.
  assert (2 ^ w ≤ 2 ^ w') by (apply Z.pow_le_mono_r; lia).
  assert (0 < 2 ^ w) by (apply Z.pow_pos_nonneg; lia).
  enough (2 ^ (8 * 2 ^ w - 1) ≤ 2 ^ (8 * 2 ^ w' - 1)) by lia. apply Z.pow_le_mono_r; lia.
Qed.

(** An entry with another count. *)
Definition counted (e : entry) (n : Z) : entry :=
  {| ekey := ekey e; evalue := evalue e; ecount := n |}.

Lemma raw_count_read ht ss b e : shaped ht ss → counts_offset (conf ht) = true →
  ss.[b] = Some (Full e) → (counts ht).[b] = Some (ecount e).
Proof. intros Hs Hco Hb. by rewrite (shape_counts _ _ Hs), Hco, zget_fmap, Hb. Qed.

Lemma write_counted ht ss b e n : Lawful (conf ht) → table ht ss → ss.[b] = Some (Full e) →
  counts_offset (conf ht) = true → 1 ≤ n ≤ count_max (counts_width ht) →
  ∃ cs, (counts ht).[b := n] = Some cs
    ∧ table (set_counts ht cs) (zupd ss b (Full (counted e n))).
Proof.
  intros Hc Ht Hb Hco Hn. pose proof (table_shaped _ _ Ht) as Hs.
  destruct (shaped_imaged _ _ Hs) as [Iv Ik Ic Ih]. rewrite Hco in Ic.
  destruct (read_entry_ok _ _ Hs _ _ Hb) as (Hev & Hek & _).
  rewrite zset_ok by (rewrite Ic, zlen_fmap; by apply zget_Some in Hb).
  eexists. split; [done|]. apply (table_put ht _ ss b e); [done|done| |done..|].
  - apply (may_replace ht ss b e); [done..|apply equal_refl|]. split; [done|]. split; [done|].
    by rewrite Hco.
  - constructor; cbn; rewrite ?Hco, ?Ic, ?Iv, ?Ik, ?Ih.
    + symmetry. by apply (same_image _ ss b (Full e)).
    + destruct (keys_offset _); [|done]. symmetry. by apply (same_image _ ss b (Full e)).
    + by rewrite <- (zupd_fmap raw_count).
    + destruct (hashes_offset _); [|done]. symmetry. by apply (same_image _ ss b (Full e)).
Qed.

Lemma dec_count_ok ht ss b e : Lawful (conf ht) → table ht ss → ss.[b] = Some (Full e) →
  counts_offset (conf ht) = true → 1 < ecount e →
  ∃ ht', __CFBasicHashDecSlotCount ht b = Some ht'
    ∧ table ht' (zupd ss b (Full (counted e (ecount e - 1)))) ∧ rest ht' = rest ht.
Proof.
  intros Hc Ht Hb Hco Hn. pose proof (table_shaped _ _ Ht) as Hs.
  destruct (read_entry_ok _ _ Hs _ _ Hb) as (_ & _ & Hok). rewrite Hco in Hok.
  destruct (write_counted ht ss b e (ecount e - 1)) as (cs & Hcs & Ht'); [done..|lia|].
  unfold __CFBasicHashDecSlotCount. rewrite (raw_count_read ht ss b e) by done.
  cbn [mbind option_bind].
  rewrite Z.mod_small, Hcs; [by exists (set_counts ht cs)|].
  pose proof (shape_width _ _ Hs) as Hw. unfold count_max in Hok. split; [lia|].
  eapply Z.lt_le_trans; [|apply (Z.pow_le_mono_r 2 (count_bits (counts_width ht) - 1)); lia]. lia.
Qed.

Section counts.
Context `{Al : Allocator} (Hal : ∀ n, 0 < n → is_Some (alloc n)).

(** The counts move to wider cells. *)
Lemma bump_ok ht ss : Lawful (conf ht) → table ht ss → counts_offset (conf ht) = true →
  num_buckets_idx ht ≠ 0 → counts_width ht < 3 →
  __CFBasicHashBumpCounts ht = Some (set_counts_width ht (counts_width ht + 1))
  ∧ table (set_counts_width ht (counts_width ht + 1)) ss.
Proof.
  intros Hc Ht Hco H0 Hw3. pose proof (table_shaped _ _ Ht) as Hs.
  pose proof (shape_width _ _ Hs) as Hw. pose proof (shape_len _ _ Hs) as Hlen.
  assert (0 < __CFBasicHashTableSizes (num_buckets_idx ht)) as Hpos.
  { destruct (shape_index _ _ Hs) as [|Hi]; [done|].
    destruct (size_row _ (proj1 Hi)) as ([H1 _] & _). lia. }
  split.
  - unfold __CFBasicHashBumpCounts, __CFBasicHashAllocateMemory.
    rewrite (proj2 (Z.leb_gt _ _)) by lia.
    destruct (Hal (__CFBasicHashTableSizes (num_buckets_idx ht) * 2 ^ (counts_width ht + 1)))
      as [m ->]; [apply Z.mul_pos_pos; [lia|apply Z.pow_pos_nonneg; lia]|].
    cbn [mbind option_bind]. rewrite (shape_counts _ _ Hs), Hco. unfold zsub.
    rewrite decide_True by (rewrite zlen_fmap; lia). cbn [mbind option_bind].
    rewrite drop_0, take_ge by (rewrite length_fmap; unfold zlen in Hlen; lia).
    pose proof (shape_counts _ _ Hs) as Hcn. rewrite Hco in Hcn.
    destruct ht; cbn in *. by rewrite <- Hcn.
  - destruct Ht as [[Hi _ Hl Hv Hk Hcn Hh Hok Hd Hle] Hu Hdel Hfew Hcap].
    constructor; [constructor; cbn; try done; [lia|]|done..].
    eapply Forall_impl; [exact Hok|]. intros e (He & He' & Hen). split; [done|]. split; [done|].
    rewrite Hco in Hen |- *. pose proof (count_max_mono (counts_width ht) (counts_width ht + 1)). lia.
Qed.

Lemma inc_count_loop_ok ht ss b e fuel : Lawful (conf ht) → table ht ss →
  ss.[b] = Some (Full e) → counts_offset (conf ht) = true → ecount e < LONG_MAX →
  3 - counts_width ht ≤ Z.of_nat fuel →
  ∃ ht' w cs, inc_slot_count ht b fuel = Some ht'
    ∧ table ht' (zupd ss b (Full (counted e (ecount e + 1))))
    ∧ ht' = set_counts (set_counts_width ht w) cs.
Proof.
  intros Hc Ht Hb Hco Hmax. revert ht Hc Ht Hco. induction fuel as [|fuel IH];
    intros ht Hc Ht Hco Hfuel; pose proof (table_shaped _ _ Ht) as Hs;
    pose proof (shape_width _ _ Hs) as Hw; destruct (read_entry_ok _ _ Hs _ _ Hb) as (_ & _ & Hn);
    rewrite Hco in Hn; cbn [inc_slot_count]; rewrite (raw_count_read ht ss b e) by done; cbn [mbind option_bind];
    (destruct (Z.ltb_spec (ecount e) (count_max (counts_width ht))) as [Hlt|Hge];
      [destruct (write_counted ht ss b e (ecount e + 1)) as (cs & -> & Ht'); [done..|lia|];
       exists (set_counts ht cs), (counts_width ht), cs; split; [done|]; split; [done|];
       by destruct ht|]).
  - replace (counts_width ht) with 3 in Hge by lia. unfold LONG_MAX in Hmax.
    change (count_max 3) with (2 ^ 63 - 1) in Hge. lia.
  - assert (counts_width ht ≠ 3).
    { intros H3. rewrite H3 in Hge. change (count_max 3) with (2 ^ 63 - 1) in Hge.
      unfold LONG_MAX in Hmax. lia. }
    assert (num_buckets_idx ht ≠ 0) as H0.
    { intros H0. apply zget_Some in Hb. rewrite (shape_len _ _ Hs), H0 in Hb.
      change (0 ≤ b < 0) in Hb. lia. }
    destruct (bump_ok ht ss Hc Ht Hco H0) as [-> Ht1]; [lia|]. cbn [mbind option_bind].
    destruct (IH (set_counts_width ht (counts_width ht + 1))) as (ht' & w & cs & -> & Ht' & ->);
      [done|done|done|cbn; lia|].
    by exists (set_counts (set_counts_width (set_counts_width ht (counts_width ht + 1)) w) cs), w, cs.
Qed.

Lemma inc_count_ok ht ss b e : Lawful (conf ht) → table ht ss →
  ss.[b] = Some (Full e) → counts_offset (conf ht) = true → ecount e < LONG_MAX →
  ∃ ht', __CFBasicHashIncSlotCount ht b = Some ht'
    ∧ table ht' (zupd ss b (Full (counted e (ecount e + 1)))) ∧ kept ht ht'
    ∧ events ht' = events ht.
Proof.
  intros Hc Ht Hb Hco Hmax. pose proof (shape_width _ _ (table_shaped _ _ Ht)).
  destruct (inc_count_loop_ok ht ss b e 4) as (ht' & w & cs & Hi & Ht' & ->); [done..|lia|].
  eexists. split; [exact Hi|]. done.
Qed.
End counts.

(** ** Removing *)

Lemma distinct_cons_tail c e l `{Hc : Lawful c} : distinct c (e :: l) → distinct c l.
Proof. by intros [H _]%distinct_cons. Qed.

Lemma may_delete ht ss b e : Lawful (conf ht) → shaped ht ss → ss.[b] = Some (Full e) →
  may_put ht ss b Deleted.
Proof.
  intros Hc Hs Hb. constructor; [done|done| |done].
  destruct (entries_zupd _ _ _ Hb) as (r & Hr & Hu).
  apply (distinct_perm _ r); [symmetry; apply Hu|].
  refine (distinct_cons_tail _ e _ _). exact (distinct_perm _ _ _ Hr (shape_distinct _ _ Hs)).
Qed.

Lemma empty_bucket_ok ht ss b e : Lawful (conf ht) → shaped ht ss → ss.[b] = Some (Full e) →
  ecount e = 1 →
  empty_bucket ht b
  = Some (with_slots (add_events (mutated ht) (key_released ht (Full e) ++ value_released ht (Full e)))
            (zupd ss b Deleted)).
Proof.
  intros Hc Hs Hb He1. destruct (shaped_imaged _ _ Hs) as [Iv Ik Ic Ih].
  destruct (read_entry_ok _ _ Hs _ _ Hb) as (Hev & Hek & Hn). unfold empty_bucket.
  rewrite (write_value _ ss b (Full e) Deleted Hb) by (done || by intros ? [= <-]).
  cbn [mbind option_bind].
  rewrite (write_key _ ss b (Full e) Deleted Hb);
    [|done|intros ? [= <-]; cbn; intros Hko; by rewrite Hko in Hek|done]. cbn [mbind option_bind].
  match goal with |- context [counts_offset (conf ?h)] => set (ht1 := h) end.
  assert ((if counts_offset (conf ht1) then __CFBasicHashDecSlotCount ht1 b else Some ht1)
    = if counts_offset (conf ht1) then cs ← (counts ht1).[b := 0]; Some (set_counts ht1 cs)
      else Some ht1) as ->.
  { change (conf ht1) with (conf ht). destruct (counts_offset (conf ht)) eqn:Hco; [|done].
    unfold __CFBasicHashDecSlotCount. change (counts ht1) with (counts ht).
    rewrite (raw_count_read ht ss b e) by done. cbn [mbind option_bind]. by rewrite He1. }
  rewrite (write_count ht1 ss b (Full e) Deleted Hb) by done. cbn [mbind option_bind].
  rewrite (write_hash _ ss b (Full e) Deleted Hb) by done.
  unfold ht1, with_slots, add_events. cbn. by rewrite <- app_assoc.
Qed.

Section remove.
Context `{Al : Allocator} (Hal : ∀ n, 0 < n → is_Some (alloc n)).

(** A table but for the number of deleted slots, which may have rolled over. *)
Record unsettled (ht : CFBasicHash) (ss : list slot) : Prop := {
  unsettled_shaped : shaped ht ss;
  unsettled_used : used_buckets ht = zlen (entries ss);
  unsettled_deleted : deleted ht = u16 (deleted_slots ss);
  unsettled_few : deleted_slots ss ≤ 2 ^ 16;
  unsettled_capacity : used_buckets ht ≤ CFBasicHashGetCapacity ht;
}.

(** What resizing keeps. *)
Definition resized (ht ht' : CFBasicHash) : Prop :=
  kept ht ht' ∧ events ht' = events ht ∧ used_buckets ht' = used_buckets ht.

Lemma rehash_table ht ss n i : Lawful (conf ht) → shaped ht ss →
  used_buckets ht = zlen (entries ss) → new_index ht n = Some i → good_index (conf ht) i →
  used_buckets ht ≤ __CFBasicHashTableCapacities i →
  ∃ ht' ss', __CFBasicHashRehash ht n = Some ht' ∧ table ht' ss'
    ∧ entries ss' ≡ₚ entries ss ∧ resized ht ht'.
Proof.
  intros Hc Hs Hu Hi Hg Hcap.
  destruct (rehash_ok Hal ht ss n i Hc Hs Hi Hg) as (ht' & ss' & Hre & Hr & Hs' & Hp & Hnd); [lia|].
  pose proof (f_equal used_buckets Hr) as Hus. pose proof (f_equal deleted Hr) as Hdel.
  pose proof (rest_index _ _ Hr) as Hidx. cbn in Hus, Hdel, Hidx.
  exists ht', ss'. split; [done|]. split; [|split; [done|]].
  - constructor; [done| | | |].
    + rewrite Hus, Hu. unfold zlen. by rewrite Hp.
    + rewrite Hdel. symmetry. by apply deleted_slots_0.
    + lia.
    + unfold CFBasicHashGetCapacity, __CFBasicHashGetCapacityForNumBuckets. rewrite Hidx. lia.
  - split; [|split; [exact (f_equal events Hr)|done]].
    split; [exact (f_equal conf Hr)|]. split; [exact (f_equal immutable Hr)|].
    split; [exact (f_equal null_rc Hr)|exact (f_equal finalized Hr)].
Qed.

(** A table is shrunk only while a smaller one holds its entries. *)
Lemma shrinking_fits ht d : 0 < d → good_index (conf ht) (num_buckets_idx ht) →
  2 ≤ d → used_buckets ht < __CFBasicHashTableCapacities (num_buckets_idx ht - d) →
  used_buckets ht ≤ max_entries.
Proof.
  intros Hd Hg H2 Hu. unfold max_entries.
  destruct (Z.lt_ge_cases (num_buckets_idx ht - d) 0).
  { assert (__CFBasicHashTableCapacities (num_buckets_idx ht - d) = 0); [|lia].
    unfold __CFBasicHashTableCapacities. by rewrite (proj2 (zget_None _ _)) by lia. }
  assert (num_buckets_idx ht ≤ 44) by (destruct Hg as [|[[_ ?] _]]; lia).
  pose proof (capacity_mono (num_buckets_idx ht - d) 42) as Hm.
  change (__CFBasicHashTableCapacities 42) with 1238087439 in Hm. lia.
Qed.

Lemma settle_ok ht ss : Lawful (conf ht) → unsettled ht ss →
  ∃ ht' ss', settle ht = Some ht' ∧ table ht' ss' ∧ entries ss' ≡ₚ entries ss ∧ resized ht ht'.
Proof.
  intros Hc [Hs Hu Hd Hfew Hcap]. pose proof (zlen_nonneg (entries ss)).
  pose proof (shape_index _ _ Hs) as Hg. unfold settle.
  match goal with |- context [if ?x then __CFBasicHashRehash _ (-1) else _] =>
    destruct x eqn:Hshrink end.
  { assert (used_buckets ht ≤ max_entries) as Hmax.
    { destruct (fast_grow (conf ht)); zbool;
        [apply (shrinking_fits ht 5)|apply (shrinking_fits ht 2)]; lia || done. }
    destruct (new_index_shrink ht) as (i & Hi & Hgi & Hci); [lia|].
    by apply (rehash_table ht ss (-1) i). }
  match goal with |- context [if ?x then __CFBasicHashRehash _ 0 else _] =>
    destruct x eqn:Hpurge end.
  { by apply (rehash_table ht ss 0 (num_buckets_idx ht)). }
  zbool. exists ht, ss. split; [done|]. split; [|done]. constructor; try done.
  - assert (deleted_slots ss ≠ 2 ^ 16) by (intros Hx; rewrite Hx in Hd; done).
    rewrite Hd. apply Z.mod_small. unfold deleted_slots in *. lia.
  - rewrite Hd. apply Z.mod_pos_bound. lia.
Qed.

Lemma remove_value_ok ht ss b e : Lawful (conf ht) → table ht ss → ss.[b] = Some (Full e) →
  ecount e = 1 →
  ∃ ht' ss', __CFBasicHashRemoveValue ht b = Some ht' ∧ table ht' ss'
    ∧ entries ss ≡ₚ e :: entries ss' ∧ kept ht ht'
    ∧ events ht' = key_released ht (Full e) ++ value_released ht (Full e) ++ events ht.
Proof.
  intros Hc [Hs Hu Hd Hfew Hcap] Hb He1.
  pose proof (empty_bucket_ok ht ss b e Hc Hs Hb He1) as Hwrite.
  set (ht1 := with_slots _ _) in Hwrite.
  destruct (entries_zupd _ _ _ Hb) as (r & Hr & Hu'). cbn in Hr. specialize (Hu' Deleted). cbn in Hu'.
  assert (Hlen : zlen (entries ss) = zlen r + 1) by (unfold zlen; rewrite Hr; cbn [length]; lia).
  pose proof (zlen_nonneg r). fold (deleted_slots ss) in Hd.
  pose proof (deleted_slots_zupd ss b (Full e) Deleted Hb) as Hz. cbn in Hz.
  rewrite bool_decide_eq_false_2, bool_decide_eq_true_2 in Hz by done. cbn in Hz.
  assert (0 ≤ deleted_slots ss) by (unfold deleted_slots; lia).
  pose proof (capacity_fits _ _ (shape_index _ _ Hs)) as Hfit.
  assert (used_buckets ht < 2 ^ 32) as H32.
  { unfold CFBasicHashGetCapacity, __CFBasicHashGetCapacityForNumBuckets in Hcap.
    destruct (shape_index _ _ Hs) as [Hz0|[Hi _]].
    - rewrite Hz0 in Hcap. change (__CFBasicHashTableCapacities 0) with 0 in Hcap. lia.
    - pose proof (capacity_mono (num_buckets_idx ht) 44) as Hm. unfold size_index in Hi.
      change (__CFBasicHashTableCapacities 44) with 3241355160 in Hm. lia. }
  set (ht2 := set_deleted (set_used_buckets ht1 (u32 (used_buckets ht1 - 1))) (u16 (deleted ht1 + 1))).
  destruct (settle_ok ht2 (zupd ss b Deleted)) as (ht' & ss' & Hset & Ht' & Hp & (Hk & He & _)); [done| |].
  - constructor; cbn.
    + apply (shaped_put ht); [done|by apply zget_Some in Hb|by apply (may_delete ht ss b e)|done..].
    + rewrite u32_small by lia. unfold zlen at 1. rewrite Hu'. fold (zlen r). lia.
    + rewrite Hd. f_equal. lia.
    + lia.
    + rewrite u32_small by lia. change (CFBasicHashGetCapacity ht2) with (CFBasicHashGetCapacity ht). lia.
  - exists ht', ss'. split; [|split; [done|split; [by rewrite Hp, Hu'|split; [done|]]]].
    + unfold __CFBasicHashRemoveValue. rewrite Hwrite. exact Hset.
    + rewrite He. cbn. by rewrite <- app_assoc.
Qed.
End remove.
