(* ===== verification/HashUse.v ===== *)
(** * The operations of a CFBasicHash on its entries

    What the public functions of CFBasicHash.c do with the list of entries of a
    table: the search finds the entry of a key, adding, replacing, setting and
    removing change that entry and no other, and what has been retained is what
    was released or is still held. *)
From S2P Require Import Prelude BasicHash HashPrimes HashProbe HashSpec HashFind HashOps HashChange.
Open Scope Z_scope.

(** ** The abstract table: entries without order *)

(** The entries of a key, and the others. *)
Definition at_key (c : config) (k : Z) (es : list entry) : list entry :=
  filter (λ e, __CFBasicHashTestEqualKey c (ekey e) k = true) es.
Definition without (c : config) (k : Z) (es : list entry) : list entry :=
  filter (λ e, __CFBasicHashTestEqualKey c (ekey e) k = false) es.

(** The entry of a key. *)
Definition lookup_key (c : config) (k : Z) (es : list entry) : option entry := head (at_key c k es).

Section lists.
Context (c : config) `{Hc : Lawful c}.

Lemma at_key_cons k e es : at_key c k (e :: es)
  = if __CFBasicHashTestEqualKey c (ekey e) k then e :: at_key c k es else at_key c k es.
Proof. unfold at_key. rewrite filter_cons. by destruct (__CFBasicHashTestEqualKey _ _ _). Qed.

Lemma without_cons k e es : without c k (e :: es)
  = if __CFBasicHashTestEqualKey c (ekey e) k then without c k es else e :: without c k es.
Proof. unfold without. rewrite filter_cons. by destruct (__CFBasicHashTestEqualKey _ _ _). Qed.

#[export] Instance at_key_perm k : Proper ((≡ₚ) ==> (≡ₚ)) (at_key c k).
Proof. intros l l' Hl. unfold at_key. by rewrite Hl. Qed.
#[export] Instance without_perm k : Proper ((≡ₚ) ==> (≡ₚ)) (without c k).
Proof. intros l l' Hl. unfold without. by rewrite Hl. Qed.

(** No entry has a key equal to [k]. *)
Lemma at_key_none k es : (∀ e, e ∈ es → __CFBasicHashTestEqualKey c (ekey e) k = false) →
  at_key c k es = [] ∧ without c k es = es.
Proof.
  induction es as [|e es IH]; intros H; [done|]. rewrite at_key_cons, without_cons.
  rewrite (H e) by set_solver. destruct IH as [-> ->]; [|done]. intros e' He'. apply H. set_solver.
Qed.

(** The entry of a key in a list of distinct entries. *)
Lemma at_key_some k es e r : distinct c es → es ≡ₚ e :: r →
  __CFBasicHashTestEqualKey c (ekey e) k = true → at_key c k es = [e] ∧ without c k es ≡ₚ r.
Proof.
  intros Hd Hp He. pose proof (distinct_perm _ _ _ Hp Hd) as [Hdr Hr]%distinct_cons; [|done].
  destruct (at_key_none k r) as [Hat Hwo].
  { intros a Ha. apply not_true_iff_false. intros H. specialize (Hr a Ha).
    apply not_true_iff_false in Hr. apply Hr. apply equal_trans with k; [done|by apply equal_sym]. }
  split.
  - apply Permutation_singleton_r. rewrite Hp, at_key_cons, He, Hat. done.
  - by rewrite Hp, without_cons, He, Hwo.
Qed.
End lists.

(** ** Accounting *)

Definition retained_values (ev : list event) : list Z :=
  omap (λ e, match e with RetainedValue v => Some v | _ => None end) ev.
Definition released_values (ev : list event) : list Z :=
  omap (λ e, match e with ReleasedValue v => Some v | _ => None end) ev.
Definition retained_keys (ev : list event) : list Z :=
  omap (λ e, match e with RetainedKey v => Some v | _ => None end) ev.
Definition released_keys (ev : list event) : list Z :=
  omap (λ e, match e with ReleasedKey v => Some v | _ => None end) ev.

(** While retaining is not suppressed: what the retain callbacks gave has been
    passed to the release callbacks or is in the table. *)
Definition accounted (ht : CFBasicHash) (es : list entry) : Prop :=
  null_rc ht = false →
  (is_Some (retainValue (callbacks (conf ht))) → releaseValue (callbacks (conf ht)) = true →
     retained_values (events ht) ≡ₚ released_values (events ht) ++ (evalue <$> es))
  ∧ (keys_offset (conf ht) = true → is_Some (retainKey (callbacks (conf ht))) →
     releaseKey (callbacks (conf ht)) = true →
     retained_keys (events ht) ≡ₚ released_keys (events ht) ++ (ekey <$> es)).

Section accounting.
Context (ht ht' : CFBasicHash) (Hk : kept ht ht').

Lemma accounted_same es es' : events ht' = events ht → es ≡ₚ es' →
  accounted ht es → accounted ht' es'.
Proof.
  destruct Hk as (Hcf & _ & Hrc & _). intros He Hp. unfold accounted. rewrite Hcf, Hrc, He.
  intros H Hn. destruct (H Hn) as [Hv Hky]. split; intros; rewrite <- Hp; auto.
Qed.

Lemma accounted_add es es' k v n : events ht' = retained ht k v ++ events ht →
  es' ≡ₚ stored ht k v n :: es → accounted ht es → accounted ht' es'.
Proof.
  destruct Hk as (Hcf & _ & Hrc & _). intros He Hp. unfold accounted. rewrite Hcf, Hrc, He.
  intros H Hn. destruct (H Hn) as [Hv Hky].
  unfold retained, key_retained, value_retained, stored, stored_key, stored_value in *.
  split.
  - intros [f Hf] Hrel. specialize (Hv (ex_intro _ f Hf) Hrel).
    unfold retained_values, released_values in *. rewrite !omap_app, Hp, Hf, Hn. cbn.
    rewrite Hf, Hn in *. unfold imported.
    destruct (keys_offset _); [|cbn; rewrite Hv; apply Permutation_middle].
    destruct (retainKey _); cbn; rewrite Hv; apply Permutation_middle.
  - intros Hko [f Hf] Hrel. specialize (Hky Hko (ex_intro _ f Hf) Hrel).
    unfold retained_keys, released_keys in *. rewrite Hko, Hf, Hn in *.
    rewrite !omap_app, Hp. cbn. unfold imported.
    destruct (retainValue _); cbn; rewrite Hky; apply Permutation_middle.
Qed.

Lemma accounted_remove es es' e : 
  events ht' = key_released ht (Full e) ++ value_released ht (Full e) ++ events ht →
  es ≡ₚ e :: es' → accounted ht es → accounted ht' es'.
Proof.
  destruct Hk as (Hcf & _ & Hrc & _). intros He Hp. unfold accounted. rewrite Hcf, Hrc, He.
  intros H Hn. destruct (H Hn) as [Hv Hky].
  unfold key_released, value_released. rewrite Hn. cbn [negb]. rewrite !andb_true_r.
  split.
  - intros Hret Hrel. specialize (Hv Hret Hrel). rewrite Hp in Hv. rewrite Hrel.
    unfold retained_values, released_values in *. rewrite !omap_app. cbn.
    destruct (_ && _)%bool; cbn; rewrite Hv; cbn; symmetry; apply Permutation_middle.
  - intros Hko Hret Hrel. specialize (Hky Hko Hret Hrel). rewrite Hp in Hky. rewrite Hko, Hrel.
    unfold retained_keys, released_keys in *. rewrite !omap_app. cbn.
    destruct (releaseValue _); cbn; rewrite Hky; cbn; symmetry; apply Permutation_middle.
Qed.
End accounting.

Lemma accounted_replace ht ht' es es' r e k v n : kept ht ht' →
  events ht' = key_released ht (Full e) ++ value_released ht (Full e)
               ++ retained ht k v ++ events ht →
  es ≡ₚ e :: r → es' ≡ₚ stored ht k v n :: r → accounted ht es → accounted ht' es'.
Proof.
  intros Hk He Hp Hp' Ha. set (ht1 := add_events ht (retained ht k v)).
  apply (accounted_remove ht1 ht' Hk (stored ht k v n :: es) es' e); [exact He| |].
  - rewrite Hp, Hp'. apply Permutation_swap.
  - by apply (accounted_add ht ht1 ltac:(done) es _ k v n).
Qed.

(** ** The functions *)

(** An operation ends with the entries [es'] in a table of the same kind. *)
Definition becomes (ht : CFBasicHash) (es : list entry) (ht' : CFBasicHash) (es' : list entry) : Prop :=
  kept ht ht' ∧ holds ht' es' ∧ (accounted ht es → accounted ht' es').

Lemma becomes_same ht es : holds ht es → becomes ht es (mutated ht) es.
Proof.
  intros (ss & [[] ? ? ? ?] & Hp). split; [done|]. split; [|by apply accounted_same].
  exists ss. split; [|done]. by constructor.
Qed.

Section functions.
Context (ht : CFBasicHash) (es : list entry) `{Hc : !Lawful (conf ht)}.

(** The result of the search, in terms of the entries. *)
Lemma found_lookup ss k bkt : table ht ss → entries ss ≡ₚ es →
  found (conf ht) (num_buckets_idx ht) ss k bkt →
  match lookup_key (conf ht) k es with
  | Some e => ∃ b, ss.[b] = Some (Full e) ∧ bkt = bucket_of b e
      ∧ __CFBasicHashTestEqualKey (conf ht) (ekey e) k = true
      ∧ es ≡ₚ e :: without (conf ht) k es
  | None => absent (conf ht) ss k ∧ (∃ b, bkt = no_element b) ∧ without (conf ht) k es = es
  end.
Proof.
  intros Ht Hp Hf. pose proof (table_shaped _ _ Ht) as Hs.
  pose proof (distinct_perm _ _ _ Hp (shape_distinct _ _ Hs)) as Hd. unfold lookup_key.
  assert (Habs : absent (conf ht) ss k →
    at_key (conf ht) k es = [] ∧ without (conf ht) k es = es).
  { intros Ha. refine (at_key_none _ _ _ _). intros e He. rewrite <- Hp in He.
    apply elem_of_entries in He as [b Hb]. by apply (Ha b). }
  destruct Hf as [b e Hb He|b Ha _|Ha _].
  - destruct (entries_zupd _ _ _ Hb) as (r & Hr & _). rewrite Hp in Hr. cbn in Hr.
    destruct (at_key_some _ _ _ _ _ Hd Hr He) as [-> Hwo]. cbn. exists b.
    split; [done|]. split; [done|]. split; [done|]. by rewrite Hwo.
  - destruct (Habs Ha) as [-> ->]. cbn. by eauto.
  - destruct (Habs Ha) as [-> ->]. cbn. by eauto.
Qed.

(** [CFBasicHashFindBucket] shows the entry of the key. *)
Lemma find_shows k : holds ht es → valid k →
  ∃ bkt, CFBasicHashFindBucket ht k = Some bkt
    ∧ match lookup_key (conf ht) k es with
      | Some e => bkt = bucket_of (idx bkt) e
      | None => count bkt = 0
      end.
Proof.
  intros (ss & Ht & Hp) [_ Hsub]. unfold CFBasicHashFindBucket. rewrite Hsub.
  destruct (find_bucket_found ht ss (table_shaped _ _ Ht) k) as (bkt & -> & Hf).
  exists bkt. split; [done|]. pose proof (found_lookup ss k bkt Ht Hp Hf) as H.
  destruct (lookup_key _ _ _).
  - by destruct H as (b & _ & -> & _).
  - by destruct H as (_ & [b ->] & _).
Qed.

Section changes.
Context `{Al : Allocator} (Hal : ∀ n, 0 < n → is_Some (alloc n)).
Context (Hh : holds ht es) (Hmut : immutable ht = false).

(** The count of the entry of a key. *)
Definition count_at (k : Z) : Z :=
  match lookup_key (conf ht) k es with Some e => ecount e | None => 0 end.

Lemma not_refused k v : fitting (conf ht) k v → valid k → refused ht k v = false.
Proof.
  intros [[_ Hv] _] [_ Hk]. unfold refused, CFBasicHashIsMutable. by rewrite Hmut, Hk, Hv.
Qed.

(** What all the operations that add start with. *)
Lemma entry_counts ss b e : table ht ss → ss.[b] = Some (Full e) → 0 < ecount e.
Proof. intros Ht Hb. by apply (entry_count_pos _ _ (table_shaped _ _ Ht) b). Qed.

Lemma used_is_length ss : table ht ss → entries ss ≡ₚ es → used_buckets ht = zlen es.
Proof. intros Ht Hp. rewrite (table_used _ _ Ht). unfold zlen. by rewrite Hp. Qed.

Lemma add_new ss b k v : table ht ss → entries ss ≡ₚ es → absent (conf ht) ss k →
  found (conf ht) (num_buckets_idx ht) ss k (no_element b) → fitting (conf ht) k v →
  zlen es < max_entries →
  ∃ ht', __CFBasicHashAddValue ht b k v = Some ht' ∧ becomes ht es ht' (stored ht k v 1 :: es).
Proof.
  intros Ht Hp Ha Hf Hfit Hmax. pose proof (used_is_length ss Ht Hp) as Hu.
  destruct (hash_add_ok Hal ht ss b k v Hc Ht Ha Hf Hfit) as (ht' & ss' & -> & Ht' & Hp' & Hk & He);
    [lia|].
  exists ht'. split; [done|]. split; [done|]. split; [exists ss'; by rewrite Hp', Hp|].
  by apply (accounted_add ht ht' Hk es _ k v 1).
Qed.

Lemma replace_there ss b e k v : table ht ss → entries ss ≡ₚ es → ss.[b] = Some (Full e) →
  __CFBasicHashTestEqualKey (conf ht) (ekey e) k = true → es ≡ₚ e :: without (conf ht) k es →
  fitting (conf ht) k v →
  ∃ ht', __CFBasicHashReplaceValue ht b k v = Some ht'
    ∧ becomes ht es ht' (stored ht k v (ecount e) :: without (conf ht) k es).
Proof.
  intros Ht Hp Hb He Hwo Hfit.
  destruct (replace_value_ok ht ss b e k v Hc Ht Hb He Hfit) as (ht' & -> & Ht' & Hk & Hev).
  exists ht'. split; [done|]. split; [done|]. split.
  - exists (zupd ss b (Full (stored ht k v (ecount e)))). split; [done|].
    destruct (changed_zupd ss b e (stored ht k v (ecount e)) Hb) as (r & Hr & Hr').
    rewrite Hr'. constructor. apply (Permutation_cons_inv (a := e)). by rewrite <- Hr, Hp, <- Hwo.
  - by apply (accounted_replace ht ht' es _ (without (conf ht) k es) e k v (ecount e) Hk Hev).
Qed.

(** [CFBasicHashSetValue] *)
Lemma set_value_becomes k v : fitting (conf ht) k v → valid k → zlen es < max_entries →
  ∃ ht', CFBasicHashSetValue ht k v = Some ht'
    ∧ becomes ht es ht' (stored ht k v (Z.max 1 (count_at k)) :: without (conf ht) k es).
Proof.
  intros Hfit Hk Hmax. unfold CFBasicHashSetValue, count_at. rewrite not_refused by done.
  destruct Hh as (ss & Ht & Hp).
  destruct (find_bucket_found ht ss (table_shaped _ _ Ht) k) as (bkt & -> & Hf).
  cbn [mbind option_bind]. pose proof (found_lookup ss k bkt Ht Hp Hf) as H.
  destruct (lookup_key _ _ _) as [e|].
  - destruct H as (b & Hb & -> & He & Hwo). pose proof (entry_counts _ _ _ Ht Hb) as Hpos. cbn.
    rewrite (proj2 (Z.ltb_lt _ _)) by done.
    replace (Z.max 1 (ecount e)) with (ecount e) by lia. by apply (replace_there ss b e).
  - destruct H as (Ha & [b ->] & ->). cbn. by apply (add_new ss b).
Qed.

(** [CFBasicHashReplaceValue] *)
Lemma replace_value_becomes k v : fitting (conf ht) k v → valid k →
  ∃ ht', CFBasicHashReplaceValue ht k v = Some ht'
    ∧ becomes ht es ht'
        (match lookup_key (conf ht) k es with
         | Some e => stored ht k v (ecount e) :: without (conf ht) k es
         | None => es
         end).
Proof.
  intros Hfit Hk. unfold CFBasicHashReplaceValue. rewrite not_refused by done.
  destruct Hh as (ss & Ht & Hp).
  destruct (find_bucket_found ht ss (table_shaped _ _ Ht) k) as (bkt & -> & Hf).
  cbn [mbind option_bind]. pose proof (found_lookup ss k bkt Ht Hp Hf) as H.
  destruct (lookup_key _ _ _) as [e|].
  - destruct H as (b & Hb & -> & He & Hwo). pose proof (entry_counts _ _ _ Ht Hb) as Hpos. cbn.
    rewrite (proj2 (Z.ltb_lt _ _)) by done. by apply (replace_there ss b e).
  - destruct H as (Ha & [b ->] & Hwo). exists ht. split; [done|]. split; [done|]. split; [|done].
    by exists ss.
Qed.

Lemma without_of ss b e k s' : table ht ss → entries ss ≡ₚ es → ss.[b] = Some (Full e) →
  es ≡ₚ e :: without (conf ht) k es →
  entries (zupd ss b s') ≡ₚ option_list (full s') ++ without (conf ht) k es.
Proof.
  intros Ht Hp Hb Hwo. destruct (entries_zupd _ _ _ Hb) as (r & Hr & ->).
  f_equiv. apply (Permutation_cons_inv (a := e)). cbn in Hr. by rewrite <- Hr, Hp, <- Hwo.
Qed.

(** Counting changes nothing that is held. *)
Lemma becomes_counted ht' ss b e k n : table ht ss → entries ss ≡ₚ es →
  ss.[b] = Some (Full e) → es ≡ₚ e :: without (conf ht) k es → kept ht ht' →
  events ht' = events ht → table ht' (zupd ss b (Full (counted e n))) →
  becomes ht es ht' (counted e n :: without (conf ht) k es).
Proof.
  intros Ht Hp Hb Hwo Hk He Ht'. split; [done|]. split.
  - eexists. split; [done|]. by apply (without_of ss b e k).
  - intros Ha Hn. destruct (accounted_same ht ht' Hk es _ He Hwo Ha Hn) as [Hv Hkey].
    split; [exact Hv|exact Hkey].
Qed.

(** [CFBasicHashAddValue] *)
Definition added (k v : Z) : bool * list entry :=
  match lookup_key (conf ht) k es with
  | Some e => if counts_offset (conf ht) && (ecount e <? LONG_MAX)
              then (true, counted e (ecount e + 1) :: without (conf ht) k es) else (false, es)
  | None => (true, stored ht k v 1 :: es)
  end.

Lemma add_value_becomes k v : fitting (conf ht) k v → valid k → zlen es < max_entries →
  ∃ ht', CFBasicHashAddValue ht k v = Some ((added k v).1, ht') ∧ becomes ht es ht' (added k v).2.
Proof.
  intros Hfit Hk Hmax. unfold CFBasicHashAddValue, added. rewrite not_refused by done.
  destruct Hh as (ss & Ht & Hp).
  destruct (find_bucket_found ht ss (table_shaped _ _ Ht) k) as (bkt & -> & Hf).
  cbn [mbind option_bind]. pose proof (found_lookup ss k bkt Ht Hp Hf) as H.
  destruct (lookup_key _ _ _) as [e|].
  - destruct H as (b & Hb & -> & He & Hwo). pose proof (entry_counts _ _ _ Ht Hb) as Hpos.
    cbn [count bucket_of idx]. rewrite (proj2 (Z.ltb_lt _ _)) by done.
    change (conf (mutated ht)) with (conf ht).
    destruct (counts_offset (conf ht) && (ecount e <? LONG_MAX)) eqn:Hcnt; zbool.
    + assert (Htm : table (mutated ht) ss) by (destruct Ht as [[] ? ? ? ?]; by constructor).
      destruct (inc_count_ok Hal (mutated ht) ss b e) as (ht' & -> & Ht' & Hkept & Hev); [done..|].
      exists ht'. split; [done|]. by apply (becomes_counted ht' ss b).
    + exists (mutated ht). split; [done|]. by apply becomes_same.
  - destruct H as (Ha & [b ->] & Hwo). cbn.
    destruct (add_new ss b k v) as (ht' & -> & Hb); [done..|]. by exists ht'.
Qed.

(** [CFBasicHashRemoveValue] *)
Definition removed (k : Z) : Z * list entry :=
  match lookup_key (conf ht) k es with
  | Some e =>
      (ecount e,
       if 1 <? ecount e then
         if ecount e <? LONG_MAX then counted e (ecount e - 1) :: without (conf ht) k es else es
       else without (conf ht) k es)
  | None => (0, es)
  end.

Lemma remove_bucket_becomes ss b e k : table ht ss → entries ss ≡ₚ es →
  ss.[b] = Some (Full e) → es ≡ₚ e :: without (conf ht) k es →
  lookup_key (conf ht) k es = Some e →
  ∃ ht', remove_bucket ht (bucket_of b e) = Some ((removed k).1, ht')
    ∧ becomes ht es ht' (removed k).2.
Proof.
  intros Ht Hp Hb Hwo Hl. unfold remove_bucket, removed. rewrite Hl. cbn [count bucket_of idx].
  destruct (read_entry_ok _ _ (table_shaped _ _ Ht) _ _ Hb) as (_ & _ & Hn).
  pose proof (entry_counts _ _ _ Ht Hb) as Hpos. destruct (Z.ltb_spec 1 (ecount e)) as [H1|H1].
  - change (conf (mutated ht)) with (conf ht).
    destruct (counts_offset (conf ht)) eqn:Hco; [|lia]. cbn [andb].
    destruct (ecount e <? LONG_MAX).
    + assert (Htm : table (mutated ht) ss) by (destruct Ht as [[] ? ? ? ?]; by constructor).
      destruct (dec_count_ok (mutated ht) ss b e) as (ht' & -> & Ht' & Hr); [done..|].
      exists ht'. split; [done|]. apply (becomes_counted ht' ss b); try done.
      * split; [exact (f_equal conf Hr)|]. split; [exact (f_equal immutable Hr)|].
        split; [exact (f_equal null_rc Hr)|exact (f_equal finalized Hr)].
      * exact (f_equal events Hr).
    + exists (mutated ht). split; [done|]. by apply becomes_same.
  - rewrite (proj2 (Z.ltb_lt _ _)) by done.
    destruct (remove_value_ok Hal ht ss b e) as (ht' & ss' & -> & Ht' & Hp' & Hk & Hev); [done..|lia|].
    assert (Hes : without (conf ht) k es ≡ₚ entries ss').
    { apply (Permutation_cons_inv (a := e)). by rewrite <- Hp', Hp, <- Hwo. }
    exists ht'. split; [done|]. split; [done|]. split; [by exists ss'|].
    by apply (accounted_remove ht ht' Hk es _ e).
Qed.

Lemma remove_value_becomes k : valid k →
  ∃ ht', CFBasicHashRemoveValue ht k = Some ((removed k).1, ht') ∧ becomes ht es ht' (removed k).2.
Proof.
  intros [_ Hsub]. unfold CFBasicHashRemoveValue, CFBasicHashIsMutable. rewrite Hmut, Hsub. cbn [negb].
  destruct Hh as (ss & Ht & Hp).
  destruct (find_bucket_found ht ss (table_shaped _ _ Ht) k) as (bkt & -> & Hf).
  cbn [mbind option_bind]. pose proof (found_lookup ss k bkt Ht Hp Hf) as H.
  destruct (lookup_key _ _ _) as [e|] eqn:Hl.
  - destruct H as (b & Hb & -> & He & Hwo). by apply (remove_bucket_becomes ss).
  - destruct H as (Ha & [b ->] & Hwo). unfold removed. rewrite Hl. exists ht. split; [done|].
    split; [done|]. split; [by exists ss|done].
Qed.
End changes.
End functions.
