(* ===== verification/HashProgram.v ===== *)
(** * A CFBasicHash from its creation to its end

    Emptying a table, and the theorems on sequences of operations: every
    program on a table computes what it computes on a list of entries, and at
    the end what was retained has been released. *)
From S2P Require Import Prelude BasicHash HashPrimes HashProbe HashSpec HashFind HashOps HashChange.
From S2P Require Import HashUse.
Open Scope Z_scope.

(** ** Emptying *)

Lemma eject_both ht e : entry_ok (conf ht) (counts_width ht) e →
  (let ht := __CFBasicHashEjectValue ht (evalue e) in
   if keys_offset (conf ht) then __CFBasicHashEjectKey ht (ekey e) else ht)
  = add_events ht (key_released ht (Full e) ++ value_released ht (Full e)).
Proof.
  intros _. unfold __CFBasicHashEjectValue, __CFBasicHashEjectKey, key_released, value_released.
  destruct (releaseValue (callbacks (conf ht))) eqn:Hv; cbn [negb orb andb];
    destruct (null_rc ht) eqn:Hn; cbn [negb orb andb]; rewrite ?andb_false_r;
    destruct (keys_offset (conf ht)) eqn:Hko; cbn; rewrite ?Hko; cbn; rewrite ?Hn;
    destruct (releaseKey (callbacks (conf ht))); cbn; rewrite ?add_events_nil; done.
Qed.

Lemma drain_loop_ok ht ov ok ss i n : ov = raw_value <$> ss →
  ok = (if keys_offset (conf ht) then raw_key <$> ss else []) → (i + n = length ss)%nat →
  Forall (entry_ok (conf ht) (counts_width ht)) (entries ss) →
  ∃ ht', drain_loop ht ov ok (Z.of_nat i) n = Some ht' ∧ ht' = set_events ht (events ht')
    ∧ (accounted ht (entries (drop i ss)) → accounted ht' []).
Proof.
  intros -> Hok Hin Hall. revert ht i Hok Hin Hall. induction n as [|n IH]; intros ht i Hok Hin Hall;
    cbn [drain_loop].
  { exists ht. rewrite drop_ge by lia. split; [done|]. split; [by destruct ht|done]. }
  destruct (lookup_lt_is_Some_2 ss i) as [s Hsi]; [lia|].
  assert (Hzi : ss.[Z.of_nat i] = Some s) by (unfold zget; by rewrite decide_True, Nat2Z.id by lia).
  rewrite zget_fmap, Hzi, (drop_S _ _ _ Hsi). cbn [fmap option_fmap option_map mbind option_bind].
  replace (Z.of_nat i + 1) with (Z.of_nat (S i)) by lia.
  destruct s as [| |e]; [apply IH; [done|lia|done]|apply IH; [done|lia|done]|].
  cbn [raw_value]. rewrite encode_occupied.
  assert (Hoke : entry_ok (conf ht) (counts_width ht) e).
  { rewrite Forall_forall in Hall. apply Hall, elem_of_entries. by eexists. }
  pose proof Hoke as (Hv & Hk & _). rewrite decode_encode by done.
  pose proof (eject_both ht e Hoke) as Hej. cbv zeta in Hej.
  set (ht1 := __CFBasicHashEjectValue ht (evalue e)) in *.
  assert (conf ht1 = conf ht) as Hcf by (unfold ht1, __CFBasicHashEjectValue; by destruct (_ || _)%bool).
  assert ((if keys_offset (conf ht1) then
      old_key ← ok.[Z.of_nat i]; Some (__CFBasicHashEjectKey ht1 (decode old_key)) else Some ht1)
    = Some (add_events ht (key_released ht (Full e) ++ value_released ht (Full e)))) as ->.
  { rewrite <- Hej, Hcf, Hok. destruct (keys_offset (conf ht)) eqn:Hko; [|done].
    rewrite zget_fmap, Hzi. cbn. by rewrite decode_encode. }
  cbn [mbind option_bind]. set (ht2 := add_events _ _).
  destruct (IH ht2 (S i)) as (ht' & Hd & He & Ha); [done|lia|done|].
  exists ht'. split; [done|]. split; [by rewrite He|].
  intros Hacc. apply Ha. apply (accounted_remove ht ht2 ltac:(done) (entries (Full e :: drop (S i) ss)) _ e);
    [|done|exact Hacc].
  unfold ht2, add_events. cbn. by rewrite <- app_assoc.
Qed.

Lemma holds_nothing ht : values ht = [] → keys ht = [] → counts ht = [] → hashes ht = [] →
  0 ≤ counts_width ht ≤ 3 → num_buckets_idx ht = 0 → used_buckets ht = 0 → deleted ht = 0 →
  holds ht [].
Proof.
  intros Hv Hk Hc Hh Hw Hi Hu Hd. exists []. split; [|done].
  constructor; [constructor|..]; unfold CFBasicHashGetCapacity; cbn;
    rewrite ?Hv, ?Hk, ?Hc, ?Hh, ?Hi, ?Hu, ?Hd; try done.
  - by left.
  - by destruct (keys_offset _).
  - by destruct (counts_offset _).
  - by destruct (hashes_offset _).
  - intros a b r Hr. by apply Permutation_nil_l in Hr.
  - intros b e Hb. apply zget_Some in Hb. change (zlen (@nil slot)) with 0 in Hb. lia.
Qed.

Lemma drain_becomes ht es : holds ht es →
  ∃ ht', __CFBasicHashDrain ht = Some ht' ∧ becomes ht es ht' [].
Proof.
  intros (ss & Ht & Hp). pose proof (table_shaped _ _ Ht) as Hs.
  destruct (shaped_imaged _ _ Hs) as [Iv Ik Ic Ih]. unfold __CFBasicHashDrain.
  match goal with |- context [drain_loop ?h] => set (ht0 := h) end.
  assert (Hcf : kept ht ht0 ∧ counts_width ht0 = counts_width ht ∧ events ht0 = events ht
    ∧ holds ht0 []).
  { assert (H : kept ht ht0 ∧ counts_width ht0 = counts_width ht ∧ events ht0 = events ht
      ∧ values ht0 = [] ∧ keys ht0 = [] ∧ counts ht0 = [] ∧ hashes ht0 = []
      ∧ num_buckets_idx ht0 = 0 ∧ used_buckets ht0 = 0 ∧ deleted ht0 = 0).
    { unfold ht0, kept, __CFBasicHashHasHashCache. clear - Ik Ic Ih. destruct ht; cbn in *.
      destruct (keys_offset conf) eqn:H1; cbn; rewrite ?H1; destruct (counts_offset conf) eqn:H2;
        cbn; rewrite ?H2; destruct (hashes_offset conf) eqn:H3; cbn; by rewrite ?H3. }
    destruct H as (? & Hw & ? & ? & ? & ? & ? & ? & ? & ?). repeat (split; [done|]).
    apply holds_nothing; try done. rewrite Hw. apply (shape_width _ _ Hs). }
  destruct Hcf as (Hk & Hw & He & Hh).
  destruct (drain_loop_ok ht0 (values ht) (keys ht) ss 0
    (Z.to_nat (__CFBasicHashTableSizes (num_buckets_idx ht)))) as (ht' & Hdr & Heq & Ha).
  { done. }
  { destruct Hk as (-> & _). done. }
  { rewrite <- (shape_len _ _ Hs). unfold zlen. lia. }
  { destruct Hk as (-> & _). rewrite Hw. apply (shape_ok _ _ Hs). }
  exists ht'. split; [exact Hdr|].
  assert (Hk' : kept ht ht') by by rewrite Heq.
  split; [done|]. split.
  - rewrite Heq. destruct Hh as (ss0 & [[] ? ? ? ?] & Hp0). exists ss0. split; [|done].
    by constructor.
  - intros Hacc. apply Ha. rewrite drop_0. by apply (accounted_same ht ht0 Hk es).
Qed.

(** ** Programs *)

Inductive operation :=
  | OpAdd (k v : Z) | OpReplace (k v : Z) | OpSet (k v : Z)
  | OpRemove (k : Z) | OpRemoveAll | OpFind (k : Z) | OpCountOfKey (k : Z).

Inductive result := NoResult | Bool (b : bool) | Count (n : Z) | Shown (e : option entry).

(** The entry a bucket shows. *)
Definition shown (b : CFBasicHashBucket) : option entry :=
  if 0 <? count b then Some {| ekey := weak_key b; evalue := weak_value b; ecount := count b |}
  else None.

Section programs.
Context `{Al : Allocator}.

Definition run_operation (ht : CFBasicHash) (op : operation) : option (result * CFBasicHash) :=
  match op with
  | OpAdd k v => '(b, ht) ← CFBasicHashAddValue ht k v; Some (Bool b, ht)
  | OpReplace k v => ht ← CFBasicHashReplaceValue ht k v; Some (NoResult, ht)
  | OpSet k v => ht ← CFBasicHashSetValue ht k v; Some (NoResult, ht)
  | OpRemove k => '(n, ht) ← CFBasicHashRemoveValue ht k; Some (Count n, ht)
  | OpRemoveAll => ht ← CFBasicHashRemoveAllValues ht; Some (NoResult, ht)
  | OpFind k => b ← CFBasicHashFindBucket ht k; Some (Shown (shown b), ht)
  | OpCountOfKey k => n ← CFBasicHashGetCountOfKey ht k; Some (Count n, ht)
  end.

Fixpoint run_program (ht : CFBasicHash) (ops : list operation) : option (list result * CFBasicHash) :=
  match ops with
  | [] => Some ([], ht)
  | op :: ops =>
      '(r, ht) ← run_operation ht op;
      '(rs, ht) ← run_program ht ops;
      Some (r :: rs, ht)
  end.
End programs.

(** The same on a list of entries: [ht] gives the callbacks. *)
Definition spec_operation (ht : CFBasicHash) (es : list entry) (op : operation)
    : result * list entry :=
  let c := conf ht in
  match op with
  | OpAdd k v => (Bool (added ht es k v).1, (added ht es k v).2)
  | OpReplace k v =>
      (NoResult, match lookup_key c k es with
                 | Some e => stored ht k v (ecount e) :: without c k es
                 | None => es
                 end)
  | OpSet k v => (NoResult, stored ht k v (Z.max 1 (count_at ht es k)) :: without c k es)
  | OpRemove k => (Count (removed ht es k).1, (removed ht es k).2)
  | OpRemoveAll => (NoResult, [])
  | OpFind k => (Shown (lookup_key c k es), es)
  | OpCountOfKey k => (Count (count_at ht es k), es)
  end.

Fixpoint spec_program (ht : CFBasicHash) (es : list entry) (ops : list operation)
    : list result * list entry :=
  match ops with
  | [] => ([], es)
  | op :: ops =>
      let (r, es) := spec_operation ht es op in
      let (rs, es) := spec_program ht es ops in
      (r :: rs, es)
  end.

(** What a client may ask. *)
Definition admissible (c : config) (op : operation) : Prop :=
  match op with
  | OpAdd k v | OpReplace k v | OpSet k v => fitting c k v ∧ valid k
  | OpRemove k | OpFind k | OpCountOfKey k => valid k
  | OpRemoveAll => True
  end.

Lemma spec_operation_kept ht ht' es op : kept ht ht' → spec_operation ht' es op = spec_operation ht es op.
Proof.
  intros (Hcf & _ & Hrc & _). unfold spec_operation, added, removed, count_at, stored, stored_key,
    stored_value. by rewrite Hcf, Hrc.
Qed.

Lemma spec_program_kept ht ht' es ops : kept ht ht' → spec_program ht' es ops = spec_program ht es ops.
Proof.
  intros Hk. revert es. induction ops as [|op ops IH]; intros es; [done|]. cbn [spec_program].
  rewrite (spec_operation_kept ht) by done. destruct (spec_operation ht es op). by rewrite IH.
Qed.

Lemma kept_trans a b c : kept a b → kept b c → kept a c.
Proof. intros (? & ? & ? & ?) (? & ? & ? & ?). repeat split; congruence. Qed.

Lemma becomes_trans a es b es' c es'' : becomes a es b es' → becomes b es' c es'' →
  becomes a es c es''.
Proof. intros (Hk & _ & Ha) (Hk' & Hh & Ha'). split; [by eapply kept_trans|]. split; auto. Qed.

(** An operation adds one entry at most. *)
Lemma spec_operation_length ht es op : zlen (spec_operation ht es op).2 ≤ zlen es + 1.
Proof.
  assert (Hw : ∀ k, zlen (without (conf ht) k es) ≤ zlen es).
  { intros k. unfold zlen, without. apply Nat2Z.inj_le, length_filter. }
  pose proof (zlen_nonneg es).
  destruct op as [k v|k v|k v|k| |k|k]; cbn; unfold added, removed; try pose proof (Hw k);
    try destruct (lookup_key _ _ _); cbn;
    repeat match goal with |- context [if ?x then _ else _] => destruct x end; cbn;
    rewrite ?zlen_cons, ?zlen_nil; lia.
Qed.

Section refinement.
Context `{Al : Allocator} (Hal : ∀ n, 0 < n → is_Some (alloc n)).

Lemma becomes_refl ht es : holds ht es → becomes ht es ht es.
Proof. done. Qed.

Lemma lookup_positive ht es k e : holds ht es → lookup_key (conf ht) k es = Some e → 0 < ecount e.
Proof.
  intros (ss & Ht & Hp) Hl. assert (e ∈ es) as He.
  { unfold lookup_key in Hl. destruct (at_key _ _ _) as [|e' r] eqn:Hat; [done|].
    injection Hl as ->. assert (e ∈ at_key (conf ht) k es) as Hin by (rewrite Hat; set_solver).
    by apply list_elem_of_filter in Hin as [_ ?]. }
  rewrite <- Hp in He. apply elem_of_entries in He as [b Hb].
  by apply (entry_count_pos _ _ (table_shaped _ _ Ht) b).
Qed.

Lemma shown_entry b e : 0 < ecount e → shown (bucket_of b e) = Some e.
Proof. intros He. unfold shown. cbn. rewrite (proj2 (Z.ltb_lt _ _)) by done. by destruct e. Qed.

Lemma remove_all_becomes ht es : holds ht es → immutable ht = false →
  ∃ ht', CFBasicHashRemoveAllValues ht = Some ht' ∧ becomes ht es ht' [].
Proof.
  intros Hh Hm. unfold CFBasicHashRemoveAllValues, CFBasicHashIsMutable. rewrite Hm. cbn [negb].
  destruct (Z.eqb_spec 0 (num_buckets_idx ht)) as [H0|]; [|by apply drain_becomes].
  exists ht. split; [done|]. destruct Hh as (ss & Ht & Hp).
  pose proof (shape_len _ _ (table_shaped _ _ Ht)) as Hl. rewrite <- H0 in Hl.
  destruct ss as [|s ss]; [|rewrite zlen_cons in Hl; pose proof (zlen_nonneg ss);
    change (__CFBasicHashTableSizes 0) with 0 in Hl; lia].
  assert (es = []) as -> by (symmetry; by apply Permutation_nil_l). apply becomes_refl. exists [].
  split; [exact Ht|done].
Qed.

Lemma count_of_key_ok ht es k `{Hc : !Lawful (conf ht)} : holds ht es → valid k →
  CFBasicHashGetCountOfKey ht k = Some (count_at ht es k).
Proof.
  intros Hh Hk. unfold CFBasicHashGetCountOfKey, count_at.
  pose proof (find_shows ht es k Hh Hk) as (bkt & Hb & H). destruct Hk as [_ Hsub].
  unfold CFBasicHashFindBucket in Hb. rewrite Hsub in Hb |- *. rewrite Hb. cbn [mbind option_bind].
  destruct (Z.eqb_spec 0 (used_buckets ht)) as [H0|].
  - destruct Hh as (ss & Ht & Hp). pose proof (used_is_length ht es ss Ht Hp) as Hu.
    destruct es as [|e es]; [done|]. rewrite zlen_cons in Hu. pose proof (zlen_nonneg es). lia.
  - destruct (lookup_key _ _ _); [by rewrite H|by rewrite H].
Qed.

Lemma run_operation_becomes ht es op `{Hc : !Lawful (conf ht)} : holds ht es →
  immutable ht = false → admissible (conf ht) op → zlen es < max_entries →
  ∃ ht', run_operation ht op = Some ((spec_operation ht es op).1, ht')
    ∧ becomes ht es ht' (spec_operation ht es op).2.
Proof.
  intros Hh Hm Hop Hmax. destruct op as [k v|k v|k v|k| |k|k]; cbn in Hop |- *.
  - destruct Hop as [Hfit Hk].
    destruct (add_value_becomes ht es Hal Hh Hm k v) as (ht' & -> & Hb); [done..|]. by exists ht'.
  - destruct Hop as [Hfit Hk].
    destruct (replace_value_becomes ht es Hh Hm k v) as (ht' & -> & Hb); [done..|]. by exists ht'.
  - destruct Hop as [Hfit Hk].
    destruct (set_value_becomes ht es Hal Hh Hm k v) as (ht' & -> & Hb); [done..|]. by exists ht'.
  - destruct (remove_value_becomes ht es Hal Hh Hm k) as (ht' & -> & Hb); [done..|]. by exists ht'.
  - destruct (remove_all_becomes ht es Hh Hm) as (ht' & -> & Hb). by exists ht'.
  - destruct (find_shows ht es k Hh Hop) as (bkt & -> & H). exists ht. split; [|by apply becomes_refl].
    cbn. destruct (lookup_key _ _ _) as [e|] eqn:Hl.
    + rewrite H. by rewrite shown_entry by (by apply (lookup_positive ht es k)).
    + unfold shown. by rewrite H.
  - rewrite (count_of_key_ok ht es k) by done. exists ht. split; [done|by apply becomes_refl].
Qed.

Lemma program_becomes ht es ops `{Hc : !Lawful (conf ht)} : holds ht es → immutable ht = false →
  Forall (admissible (conf ht)) ops → zlen es + zlen ops ≤ max_entries →
  ∃ ht', run_program ht ops = Some ((spec_program ht es ops).1, ht')
    ∧ becomes ht es ht' (spec_program ht es ops).2.
Proof.
  revert ht es Hc. induction ops as [|op ops IH]; intros ht es Hc Hh Hm Hops Hmax.
  { exists ht. split; [done|by apply becomes_refl]. }
  cbn [run_program spec_program]. apply Forall_cons in Hops as [Hop Hops].
  rewrite zlen_cons in Hmax. pose proof (zlen_nonneg ops).
  destruct (run_operation_becomes ht es op) as (ht1 & -> & Hb); [done..|lia|].
  pose proof Hb as ((Hcf & Him & Hrc & Hfin) & Hh1 & _).
  destruct (spec_operation ht es op) as [r es1] eqn:Hspec. cbn [fst snd mbind option_bind] in *.
  pose proof (spec_operation_length ht es op) as Hlen. rewrite Hspec in Hlen. cbn in Hlen.
  destruct (IH ht1 es1) as (ht' & -> & Hb'); [by rewrite Hcf|done|congruence|by rewrite Hcf|lia|].
  assert (Hk : kept ht ht1) by done. rewrite (spec_program_kept ht ht1) in Hb' |- * by done.
  destruct (spec_program ht es1 ops) as [rs es2]. exists ht'. split; [done|].
  by apply (becomes_trans ht es ht1 es1).
Qed.
End refinement.

(** ** From creation to the end *)

Lemma create_holds `{Al : Allocator} flags cb : bad_config (config_of_flags flags cb) = false →
  instance_ok (instance_size (config_of_flags flags cb)) = true →
  CFBasicHashCreate flags cb = Some (Some (empty_table (config_of_flags flags cb)))
  ∧ holds (empty_table (config_of_flags flags cb)) [].
Proof.
  intros Hbad Hok. unfold CFBasicHashCreate. rewrite Hok, Hbad. split; [done|].
  by apply holds_nothing.
Qed.

Lemma empty_accounted c : accounted (empty_table c) [].
Proof. by intros _. Qed.

(** C1. Every sequence of operations on a new table (dictionary, set or bag,
    with any probing, hash cache and growth) succeeds and gives the results that
    the same operations give on a list of entries, and leaves a table with those
    entries: each key is there once, under the last key and value stored for it,
    with its count, whatever rehashing, shrinking and reuse of deleted buckets
    went on.  The callbacks must be lawful and memory available. *)
Theorem hash_programs `{Al : Allocator} (Hal : ∀ n, 0 < n → is_Some (alloc n)) flags cb ops
    (Hc : Lawful (config_of_flags flags cb)) (Hbad : bad_config (config_of_flags flags cb) = false)
    (Hok : instance_ok (instance_size (config_of_flags flags cb)) = true)
    (Hops : Forall (admissible (config_of_flags flags cb)) ops) (Hlen : zlen ops ≤ max_entries) :
  ∃ ht0 ht', CFBasicHashCreate flags cb = Some (Some ht0)
    ∧ run_program ht0 ops = Some ((spec_program ht0 [] ops).1, ht')
    ∧ holds ht' (spec_program ht0 [] ops).2.
Proof.
  destruct (create_holds flags cb Hbad Hok) as [Hcreate Hh].
  set (ht0 := empty_table _) in *. exists ht0.
  destruct (program_becomes Hal ht0 [] ops) as (ht' & Hrun & _ & Hh' & _); [done..|].
  by exists ht'.
Qed.

(** C4. When a table is deallocated after any sequence of operations, every
    value and every key that the retain callbacks gave has been passed to the
    release callbacks, each as often. *)
Theorem hash_releases_everything `{Al : Allocator} (Hal : ∀ n, 0 < n → is_Some (alloc n)) c ops
    (Hc : Lawful c) (Hops : Forall (admissible c) ops) (Hlen : zlen ops ≤ max_entries)
    (Hrv : is_Some (retainValue (callbacks c))) (Hlv : releaseValue (callbacks c) = true)
    (Hrk : is_Some (retainKey (callbacks c))) (Hlk : releaseKey (callbacks c) = true) :
  ∃ rs ht' ht'', run_program (empty_table c) ops = Some (rs, ht')
    ∧ __CFBasicHashDeallocate ht' = Some ht''
    ∧ retained_values (events ht'') ≡ₚ released_values (events ht'')
    ∧ (keys_offset c = true → retained_keys (events ht'') ≡ₚ released_keys (events ht'')).
Proof.
  assert (Hh : holds (empty_table c) []) by by apply holds_nothing.
  destruct (program_becomes Hal (empty_table c) [] ops) as (ht' & Hrun & (Hcf & Him & Hrc & Hfin) & (ss & Ht & Hp) & Ha);
    [done..|].
  specialize (Ha (empty_accounted c)). set (es := (spec_program _ _ _).2) in *.
  assert (Hh' : holds (set_finalized ht' true) es).
  { exists ss. split; [|done]. destruct Ht as [[] ? ? ? ?]. by constructor. }
  destruct (drain_becomes _ _ Hh') as (ht'' & Hd & (Hcf' & _ & Hrc' & _) & _ & Ha'').
  eexists _, ht', ht''. split; [exact Hrun|]. split.
  { unfold __CFBasicHashDeallocate. rewrite Hfin. exact Hd. }
  cbn in Hcf, Hrc, Hcf', Hrc'. specialize (Ha'' Ha).
  destruct (Ha'') as [Hv Hk]; [congruence|]. rewrite Hcf', Hcf in Hv, Hk.
  cbn in Hv, Hk. rewrite app_nil_r in Hv. split; [auto|]. intros Hko.
  specialize (Hk Hko Hrk Hlk). by rewrite app_nil_r in Hk.
Qed.

(** ** Lawful callbacks *)

(** Keys compared through a function [g], hashed through it. *)
Lemma lawful_through c g h : known_style (hash_style c) = true → indirect_keys c = false →
  equateKeys (callbacks c) = Some (λ a b, g a =? g b) →
  hashKey (callbacks c) = Some (λ k, h (g k)) →
  (∀ f, retainValue (callbacks c) = Some f → f = id) →
  (∀ f, retainKey (callbacks c) = Some f → f = id) → Lawful c.
Proof.
  intros Hs Hi He Hh Hv Hk.
  assert (Himp : ∀ r b w, (∀ f, r = Some f → f = id) → imported r b w = w).
  { intros [f|] b w Hf; [|done]. rewrite (Hf f eq_refl). by destruct b. }
  constructor; unfold __CFBasicHashTestEqualKey, __CFBasicHashHashKey; rewrite ?He, ?Hh; try done.
  - intros k. apply Z.eqb_refl.
  - intros a b ->%Z.eqb_eq. apply Z.eqb_refl.
  - intros x y z ->%Z.eqb_eq ->%Z.eqb_eq. apply Z.eqb_refl.
  - by intros a b ->%Z.eqb_eq.
  - intros v b Hvv. by rewrite Himp.
  - intros k b Hkk. by rewrite Himp.
  - intros k b _ _. rewrite Himp by done. apply Z.eqb_refl.
  - intros v b _ _. rewrite Himp by done. apply Z.eqb_refl.
Qed.

(** Keys that are equal when their halves are, with few hash codes. *)
Definition half_callbacks : CFBasicHashCallbacks := {|
  retainValue := Some id; retainKey := Some id; releaseValue := true; releaseKey := true;
  equateValues := None; equateKeys := Some (λ a b, a / 2 =? b / 2);
  hashKey := Some (λ k, (k / 2) mod 3); getIndirectKey := None;
|}.

(** A dictionary with counts, a hash cache and double hashing. *)
Definition half_flags : Z := kCFBasicHashHasKeys + kCFBasicHashHasCounts + kCFBasicHashHasHashCache
  + kCFBasicHashDoubleHashing.

Lemma half_lawful : Lawful (config_of_flags half_flags half_callbacks).
Proof.
  apply (lawful_through _ (λ k, k / 2) (λ k, k mod 3)); try done; by intros f [= <-].
Qed.

#[local] Instance zero_memory : Allocator := fill_allocator 0 ltac:(by_decide).

Lemma memory_there n : 0 < n → is_Some (@alloc zero_memory n).
Proof. by eexists. Qed.

(** Equal keys are added twice, one is replaced under another key, one is
    removed, and one more is looked up than there are. *)
Definition sample_program : list operation :=
  [OpAdd 10 100; OpAdd 11 101; OpSet 4 104; OpSet 16 0; OpReplace 5 105; OpAdd 22 122;
   OpRemove 16; OpFind 4; OpFind 17; OpCountOfKey 10; OpRemove 11; OpCountOfKey 10].

Lemma sample_admissible : Forall (admissible (config_of_flags half_flags half_callbacks)) sample_program.
Proof. repeat constructor; unfold word; cbn; lia || done. Qed.

Lemma hash_programs_witness :
  (∃ ht0 ht', CFBasicHashCreate half_flags half_callbacks = Some (Some ht0)
    ∧ run_program ht0 sample_program = Some ((spec_program ht0 [] sample_program).1, ht')
    ∧ holds ht' (spec_program ht0 [] sample_program).2)
  ∧ (spec_program (empty_table (config_of_flags half_flags half_callbacks)) [] sample_program).1
    = [Bool true; Bool true; NoResult; NoResult; NoResult; Bool true; Count 1;
       Shown (Some {| ekey := 5; evalue := 105; ecount := 1 |}); Shown None; Count 2; Count 2; Count 1].
Proof.
  split; [|vm_compute; reflexivity].
  apply (hash_programs memory_there half_flags half_callbacks sample_program half_lawful
    eq_refl eq_refl sample_admissible).
  vm_compute. discriminate.
Defined.

Lemma hash_releases_everything_witness :
  ∃ rs ht' ht'',
    run_program (empty_table (config_of_flags half_flags half_callbacks)) sample_program = Some (rs, ht')
    ∧ __CFBasicHashDeallocate ht' = Some ht''
    ∧ retained_values (events ht'') ≡ₚ released_values (events ht'')
    ∧ (true = true → retained_keys (events ht'') ≡ₚ released_keys (events ht'')).
Proof.
  apply (hash_releases_everything memory_there (config_of_flags half_flags half_callbacks)
    sample_program half_lawful sample_admissible); try reflexivity; try (eexists; reflexivity).
  vm_compute. discriminate.
Defined.
