(* ===== verification/HashTypes.v ===== *)
(** * The fields of a CFBasicHash fit their C types

    The structure of CFBasicHash.c packs its numbers in bit fields, and the
    counts of a bag in integers of a width that grows with them.  The count of
    mutations is followed through the functions themselves, the other fields are
    in range by the invariant of the table. *)
From S2P Require Import Prelude BasicHash HashPrimes HashProbe HashSpec HashFind HashOps HashChange.
From S2P Require Import HashUse HashProgram.
Open Scope Z_scope.

(** [uint16_t mutations], [uint64_t deleted:16], [uint64_t num_buckets_idx:8] (an index of the tables,
    of 64 elements), [uint8_t counts_width:2], [uint8_t hash_style:2],
    [uint32_t used_buckets], and the elements of the arrays. *)
Record well_typed (ht : CFBasicHash) : Prop := {
  typed_mutations : 0 ≤ mutations ht < 2 ^ 16;
  typed_deleted : 0 ≤ deleted ht < 2 ^ 16;
  typed_index : 0 ≤ num_buckets_idx ht < 64;
  typed_width : 0 ≤ counts_width ht < 2 ^ 2;
  typed_style : 0 ≤ hash_style (conf ht) < 2 ^ 2;
  typed_used : 0 ≤ used_buckets ht < 2 ^ 32;
  typed_values : Forall word (values ht);
  typed_keys : Forall word (keys ht);
  typed_counts : Forall (λ n, 0 ≤ n < 2 ^ count_bits (counts_width ht)) (counts ht);
  typed_hashes : Forall word (hashes ht);
}.

Lemma encode_word w : word w → word (encode w).
Proof.
  unfold word, encode, all_ones, __CFBasicHashSubABZero, __CFBasicHashSubABOne. intros Hw.
  destruct (w =? 0); [lia|]. destruct (w =? 2 ^ 64 - 1); lia.
Qed.

Section typed.
Context (ht : CFBasicHash) (ss : list slot) `{Hc : !Lawful (conf ht)} (Ht : table ht ss).
Context (Hkey : ∀ v, word v → word (value_key (conf ht) v)).
Context (Hhash : ∀ k, word k → word (__CFBasicHashHashKey (conf ht) k)).

Lemma slot_words (f : slot → Z) : word (f Empty) → word (f Deleted) →
  (∀ e, entry_ok (conf ht) (counts_width ht) e → word (f (Full e))) → Forall word (f <$> ss).
Proof.
  intros He Hd Hf. pose proof (table_shaped _ _ Ht) as Hs. apply Forall_fmap, Forall_zget.
  intros b [| |e] Hb; [done|done|]. apply Hf. by apply (read_entry_ok _ _ Hs b).
Qed.

Lemma index_at_most_44 : 0 ≤ num_buckets_idx ht ≤ 44.
Proof.
  destruct (shape_index _ _ (table_shaped _ _ Ht)) as [->|[Hi _]]; [lia|]. unfold size_index in Hi. lia.
Qed.

Lemma used_is_small : 0 ≤ used_buckets ht < 2 ^ 32.
Proof.
  pose proof (table_used _ _ Ht) as Hu. pose proof (table_capacity _ _ Ht) as Hcap.
  pose proof (zlen_nonneg (entries ss)). unfold CFBasicHashGetCapacity, __CFBasicHashGetCapacityForNumBuckets in Hcap.
  pose proof index_at_most_44. pose proof (capacity_mono (num_buckets_idx ht) 44) as Hm.
  change (__CFBasicHashTableCapacities 44) with 3241355160 in Hm. lia.
Qed.

Lemma entry_key_word e : entry_ok (conf ht) (counts_width ht) e → word (ekey e).
Proof.
  intros ([Hv _] & Hk & _). destruct (keys_offset (conf ht)); [by destruct Hk|]. rewrite Hk. by apply Hkey.
Qed.

Lemma table_well_typed : 0 ≤ mutations ht < 2 ^ 16 → well_typed ht.
Proof.
  intros Hmut.
  pose proof (table_shaped _ _ Ht) as Hs. pose proof (shape_width _ _ Hs) as Hw.
  assert (H0 : word 0) by (unfold word; lia). assert (H1 : word all_ones) by (unfold word, all_ones; lia).
  constructor.
  - exact Hmut.
  - rewrite (table_deleted _ _ Ht) at 1. pose proof (table_few_deleted _ _ Ht). lia.
  - pose proof index_at_most_44. lia.
  - lia.
  - pose proof (style_is_known (c := conf ht)) as Hk. unfold known_style, __kCFBasicHashLinearHashingValue,
      __kCFBasicHashDoubleHashingValue, __kCFBasicHashExponentialHashingValue in Hk. zbool. lia.
  - apply used_is_small.
  - rewrite (shape_values _ _ Hs). apply slot_words; [done..|]. intros e ([Hv _] & _). by apply encode_word.
  - rewrite (shape_keys _ _ Hs). destruct (keys_offset (conf ht)) eqn:Hk; [|done].
    apply slot_words; [done..|]. intros e (_ & Hke & _). rewrite Hk in Hke. destruct Hke. by apply encode_word.
  - rewrite (shape_counts _ _ Hs). destruct (counts_offset (conf ht)) eqn:Hco; [|done].
    apply Forall_fmap, Forall_zget. intros b s Hb.
    assert (Hpow : count_max (counts_width ht) < 2 ^ count_bits (counts_width ht)).
    { unfold count_max. pose proof (Z.pow_pos_nonneg 2 (counts_width ht)).
      assert (0 < count_bits (counts_width ht)) by (unfold count_bits; lia).
      pose proof (Z.pow_lt_mono_r 2 (count_bits (counts_width ht) - 1) (count_bits (counts_width ht))). lia. }
    pose proof (count_max_pos _ Hw). destruct s as [| |e]; cbn; [lia|lia|].
    destruct (read_entry_ok _ _ Hs b e Hb) as (_ & _ & Hn). rewrite Hco in Hn. lia.
  - rewrite (shape_hashes _ _ Hs). destruct (hashes_offset (conf ht)); [|done].
    apply slot_words; [done..|]. intros e He. by apply Hhash, entry_key_word.
Qed.
End typed.

(** ** The count of mutations

    Every change of a table adds one to it, modulo 2^16; what a function does
    besides leaves it alone. *)

(** Every conditional of the goal. *)
Ltac split_ifs := repeat match goal with |- context [if ?b then _ else _] => destruct b end.
(** Follows a computation that succeeds to its end. *)
Ltac follow H := repeat first
  [ discriminate H
  | progress cbn [mbind option_bind] in H
  | match type of H with
    | (match ?x with _ => _ end) = Some _ => destruct x eqn:?
    | mbind _ ?x = Some _ => destruct x eqn:?
    end ].

Lemma import_value_mutations ht v : mutations (__CFBasicHashImportValue ht v).2 = mutations ht.
Proof. unfold __CFBasicHashImportValue. by repeat case_match. Qed.
Lemma import_key_mutations ht k : mutations (__CFBasicHashImportKey ht k).2 = mutations ht.
Proof. unfold __CFBasicHashImportKey. by repeat case_match. Qed.
Lemma eject_value_mutations ht v : mutations (__CFBasicHashEjectValue ht v) = mutations ht.
Proof. unfold __CFBasicHashEjectValue. by case_match. Qed.
Lemma eject_key_mutations ht k : mutations (__CFBasicHashEjectKey ht k) = mutations ht.
Proof. unfold __CFBasicHashEjectKey. by case_match. Qed.

Lemma set_value_mutations ht i v b l ht' : __CFBasicHashSetValue ht i v b l = Some ht' → mutations ht' = mutations ht.
Proof.
  unfold __CFBasicHashSetValue. intros H. follow H; injection H as <-; destruct (negb b && _); rewrite ?eject_value_mutations; done.
Qed.
Lemma set_key_mutations ht i k b l ht' : __CFBasicHashSetKey ht i k b l = Some ht' → mutations ht' = mutations ht.
Proof.
  unfold __CFBasicHashSetKey. intros H. follow H; injection H as <-; destruct (negb b && _); rewrite ?eject_key_mutations; done.
Qed.
Lemma dec_count_mutations ht i ht' : __CFBasicHashDecSlotCount ht i = Some ht' → mutations ht' = mutations ht.
Proof. unfold __CFBasicHashDecSlotCount. intros H. follow H. by injection H as <-. Qed.
Lemma set_key_if_mutations (b : bool) ht i k o l ht' :
  (if b then __CFBasicHashSetKey ht i k o l else Some ht) = Some ht' → mutations ht' = mutations ht.
Proof. destruct b; [apply set_key_mutations|by intros [= <-]]. Qed.
Lemma set_hashes_if_mutations (b : bool) ht i h ht' :
  (if b then hs ← (hashes ht).[i := h]; Some (set_hashes ht hs) else Some ht) = Some ht' → mutations ht' = mutations ht.
Proof. intros H. follow H; by injection H as <-. Qed.

Section mutations.
Context `{Al : Allocator}.

Lemma inc_count_mutations fuel : ∀ ht i ht', inc_slot_count ht i fuel = Some ht' → mutations ht' = mutations ht.
Proof.
  induction fuel as [|fuel IH]; intros ht i ht' H; cbn [inc_slot_count] in H; follow H; try (by injection H as <-).
  rewrite (IH _ _ _ H). match goal with E : __CFBasicHashBumpCounts _ = _ |- _ => unfold __CFBasicHashBumpCounts in E; follow E; by injection E as <- end.
Qed.

Lemma move_bucket_mutations ov ok oc oh ht i ht' : move_bucket ov ok oc oh ht i = Some ht' → mutations ht' = mutations ht.
Proof.
  unfold move_bucket. intros H. destruct (ov.[i]) as [w|]; [|done]. cbn [mbind option_bind] in H.
  destruct (negb _); [by injection H as <-|]. 
  destruct (if keys_offset (conf ht) then _ else _) as [k|]; [|done]. cbn [mbind option_bind] in H.
  destruct (if __CFBasicHashHasHashCache ht then _ else _) as [h|]; [|done]. cbn [mbind option_bind] in H.
  destruct (__CFBasicHashFindBucket_NoCollision _ _ _) as [b|]; [|done]. cbn [mbind option_bind] in H.
  destruct (__CFBasicHashSetValue _ _ _ _ _) as [ht1|] eqn:E1; [|done]. cbn [mbind option_bind] in H.
  destruct (if keys_offset (conf ht1) then _ else _) as [ht2|] eqn:E2; [|done]. cbn [mbind option_bind] in H.
  apply set_value_mutations in E1. apply set_key_if_mutations in E2. rewrite <- E1, <- E2.
  destruct (if counts_offset (conf ht2) then _ else _) as [ht3|] eqn:E3; [|done]. cbn [mbind option_bind] in H.
  apply set_hashes_if_mutations in H. rewrite H. follow E3; by injection E3 as <-.
Qed.
Lemma rehash_loop_mutations ov ok oc oh n : ∀ ht i ht', rehash_loop ov ok oc oh ht i n = Some ht' → mutations ht' = mutations ht.
Proof.
  induction n as [|n IH]; intros ht i ht' H; cbn [rehash_loop] in H; [by injection H as <-|].
  destruct (move_bucket _ _ _ _ _ _) as [ht1|] eqn:E; [|done]. rewrite (IH _ _ _ H). by eapply move_bucket_mutations.
Qed.
Lemma rehash_mutations ht n ht' : __CFBasicHashRehash ht n = Some ht' → mutations ht' = mutations ht.
Proof.
  unfold __CFBasicHashRehash. intros H. destruct (new_index ht n) as [i|]; [|done]. cbn [mbind option_bind] in H.
  do 4 (match type of H with mbind _ ?x = _ => destruct x; [|done] end; cbn [mbind option_bind] in H).
  apply rehash_loop_mutations in H. rewrite H.
  by split_ifs.
Qed.

Lemma add_at_mutations ht i k v ht' : __CFBasicHashAddValue ht i k v = Some ht' → mutations ht' = mutations (mutated ht).
Proof.
  unfold __CFBasicHashAddValue. intros H.
  destruct (if CFBasicHashGetCapacity _ <? _ then _ else _) as [[ht1 i1]|] eqn:E; [|done]. cbn [mbind option_bind] in H.
  assert (E1 : mutations ht1 = mutations (mutated ht)).
  { follow E; injection E as <- <-; try done; [by eapply rehash_mutations|by split_ifs]. }
  rewrite <- E1. clear E E1. destruct (__CFBasicHashImportValue ht1 v) as [v' ht2] eqn:E.
  pose proof (import_value_mutations ht1 v) as <-. rewrite E. clear E. cbn [snd].
  destruct (if keys_offset (conf ht2) then _ else _) as [k' ht3] eqn:E.
  assert (E3 : mutations ht3 = mutations ht2).
  { destruct (keys_offset _); [|by injection E as _ <-]. pose proof (import_key_mutations ht2 k) as E'. by rewrite E in E'. }
  rewrite <- E3. clear E E3.
  destruct (__CFBasicHashSetValue _ _ _ _ _) as [ht4|] eqn:E1; [|done]. cbn [mbind option_bind] in H.
  destruct (if keys_offset (conf ht4) then _ else _) as [ht5|] eqn:E2; [|done]. cbn [mbind option_bind] in H.
  apply set_value_mutations in E1. apply set_key_if_mutations in E2. rewrite <- E1, <- E2.
  destruct (if counts_offset (conf ht5) then _ else _) as [ht6|] eqn:E3; [|done]. cbn [mbind option_bind] in H.
  destruct (if __CFBasicHashHasHashCache ht6 then _ else _) as [ht7|] eqn:E4; [|done]. injection H as <-. cbn.
  apply set_hashes_if_mutations in E4. rewrite E4. destruct (counts_offset _); [by apply inc_count_mutations in E3|by injection E3 as <-].
Qed.

Lemma replace_at_mutations ht i k v ht' : __CFBasicHashReplaceValue ht i k v = Some ht' → mutations ht' = mutations (mutated ht).
Proof.
  unfold __CFBasicHashReplaceValue. intros H. set (ht0 := mutated ht) in *.
  destruct (__CFBasicHashImportValue ht0 v) as [v' ht2] eqn:E.
  pose proof (import_value_mutations ht0 v) as <-. rewrite E. clear E. cbn [snd].
  destruct (if keys_offset (conf ht2) then _ else _) as [k' ht3] eqn:E.
  assert (E3 : mutations ht3 = mutations ht2).
  { destruct (keys_offset _); [|by injection E as _ <-]. pose proof (import_key_mutations ht2 k) as E'. by rewrite E in E'. }
  rewrite <- E3. destruct (__CFBasicHashSetValue _ _ _ _ _) as [ht4|] eqn:E1; [|done]. cbn [mbind option_bind] in H.
  apply set_value_mutations in E1. apply set_key_if_mutations in H. congruence.
Qed.

Lemma settle_mutations ht ht' : settle ht = Some ht' → mutations ht' = mutations ht.
Proof. unfold settle. intros H. destruct (if fast_grow _ then _ else _); [by eapply rehash_mutations|]. destruct (_ || _)%bool; [by eapply rehash_mutations|by injection H as <-]. Qed.

Lemma remove_at_mutations ht i ht' : __CFBasicHashRemoveValue ht i = Some ht' → mutations ht' = mutations (mutated ht).
Proof.
  unfold __CFBasicHashRemoveValue, empty_bucket. set (ht0 := mutated ht). intros H.
  destruct (__CFBasicHashSetValue _ _ _ _ _) as [ht1|] eqn:E1; [|done]. cbn [mbind option_bind] in H.
  destruct (if keys_offset (conf ht1) then _ else _) as [ht2|] eqn:E2; [|done]. cbn [mbind option_bind] in H.
  apply set_value_mutations in E1. apply set_key_if_mutations in E2. rewrite <- E1, <- E2.
  destruct (if counts_offset (conf ht2) then _ else _) as [ht3|] eqn:E3; [|done]. cbn [mbind option_bind] in H.
  destruct (if __CFBasicHashHasHashCache ht3 then _ else _) as [ht4|] eqn:E4; [|done]. cbn [mbind option_bind] in H.
  apply set_hashes_if_mutations in E4. apply settle_mutations in H. rewrite H. cbn. rewrite E4.
  destruct (counts_offset _); [by apply dec_count_mutations in E3|by injection E3 as <-].
Qed.

Lemma drain_loop_mutations ov ok n : ∀ ht i ht', drain_loop ht ov ok i n = Some ht' → mutations ht' = mutations ht.
Proof.
  induction n as [|n IH]; intros ht i ht' H; cbn [drain_loop] in H; [by injection H as <-|].
  destruct (ov.[i]) as [w|]; [|done]. cbn [mbind option_bind] in H. destruct (occupied w); [|by eapply IH].
  destruct (if keys_offset _ then _ else _) as [ht1|] eqn:E; [|done]. cbn [mbind option_bind] in H.
  rewrite (IH _ _ _ H). follow E; injection E as <-; by rewrite ?eject_key_mutations, eject_value_mutations.
Qed.
Lemma drain_mutations ht ht' : __CFBasicHashDrain ht = Some ht' → mutations ht' = mutations (mutated ht).
Proof.
  unfold __CFBasicHashDrain. intros ->%drain_loop_mutations. cbn.
  by split_ifs.
Qed.

Lemma mutated_range ht : 0 ≤ mutations (mutated ht) < 2 ^ 16.
Proof. apply Z.mod_pos_bound. lia. Qed.

Lemma add_value_mutations ht k v b ht' : CFBasicHashAddValue ht k v = Some (b, ht') → mutations ht' = mutations (mutated ht).
Proof.
  unfold CFBasicHashAddValue. intros H. follow H; injection H as _ <-; [by eapply inc_count_mutations|done|by eapply add_at_mutations].
Qed.

Lemma remove_bucket_mutations ht b n ht' : remove_bucket ht b = Some (n, ht') → mutations ht' = mutations (mutated ht) ∨ ht' = ht.
Proof.
  unfold remove_bucket. intros H.
  destruct (if 1 <? count b then _ else _) as [ht1|] eqn:E; [|done]. injection H as _ <-.
  follow E; try (injection E as <-); auto; left; [by eapply dec_count_mutations|by eapply remove_at_mutations].
Qed.

Lemma operation_mutations ht op r ht' : run_operation ht op = Some (r, ht') → 0 ≤ mutations ht < 2 ^ 16 → 0 ≤ mutations ht' < 2 ^ 16.
Proof.
  intros H Hm. assert (Hcase : mutations ht' = mutations (mutated ht) ∨ ht' = ht); [|destruct Hcase as [->| ->]; [apply mutated_range|done]].
  destruct op as [k v|k v|k v|k| |k|k]; cbn [run_operation] in H.
  - destruct (CFBasicHashAddValue _ _ _) as [[b ht1]|] eqn:E; [|done]. injection H as _ <-. left. by eapply add_value_mutations.
  - destruct (CFBasicHashReplaceValue _ _ _) as [ht1|] eqn:E; [|done]. injection H as _ <-.
    unfold CFBasicHashReplaceValue in E. follow E; [left|right; congruence]. by eapply replace_at_mutations.
  - destruct (CFBasicHashSetValue _ _ _) as [ht1|] eqn:E; [|done]. injection H as _ <-.
    unfold CFBasicHashSetValue in E. follow E; left; [by eapply replace_at_mutations|by eapply add_at_mutations].
  - destruct (CFBasicHashRemoveValue _ _) as [[n ht1]|] eqn:E; [|done]. injection H as _ <-.
    unfold CFBasicHashRemoveValue in E. follow E; [right; congruence|]. by eapply remove_bucket_mutations.
  - destruct (CFBasicHashRemoveAllValues _) as [ht1|] eqn:E; [|done]. injection H as _ <-.
    unfold CFBasicHashRemoveAllValues in E. follow E; [right; congruence|left]. by eapply drain_mutations.
  - follow H. injection H as _ <-. by right.
  - follow H. injection H as _ <-. by right.
Qed.

Lemma program_mutations ops : ∀ ht rs ht', run_program ht ops = Some (rs, ht') → 0 ≤ mutations ht < 2 ^ 16 → 0 ≤ mutations ht' < 2 ^ 16.
Proof.
  induction ops as [|op ops IH]; intros ht rs ht' H Hm; cbn [run_program] in H; [by injection H as _ <-|].
  destruct (run_operation ht op) as [[r ht1]|] eqn:E; [|done]. cbn [mbind option_bind] in H.
  destruct (run_program ht1 ops) as [[rs1 ht2]|] eqn:E2; [|done]. injection H as _ <-.
  eapply IH; [done|]. by eapply operation_mutations.
Qed.
End mutations.

(** A table without a callback for hash codes takes the keys for them. *)
Lemma identity_hash_words c : hashKey (callbacks c) = None → ∀ k, word k → word (__CFBasicHashHashKey c k).
Proof. intros Hc k Hk. unfold __CFBasicHashHashKey. by rewrite Hc. Qed.

(** C11. After every sequence of operations on a new table, whose callbacks give
    words for words, each number it keeps is in the range of its bit field and each
    element of its arrays in that of the element type, the counts in that of the
    width they have at the moment. *)
Theorem programs_are_well_typed `{Al : Allocator} (Hal : ∀ n, 0 < n → is_Some (alloc n)) c ops
    (Hc : Lawful c) (Hkey : ∀ v, word v → word (value_key c v))
    (Hhash : ∀ k, word k → word (__CFBasicHashHashKey c k))
    (Hops : Forall (admissible c) ops) (Hlen : zlen ops ≤ max_entries) :
  ∃ rs ht, run_program (empty_table c) ops = Some (rs, ht) ∧ well_typed ht.
Proof.
  assert (Hh : holds (empty_table c) []) by by apply holds_nothing.
  destruct (program_becomes Hal (empty_table c) [] ops) as (ht & Hrun & (Hcf & _) & (ss & Ht & _) & _); [done..|].
  cbn in Hcf. eexists _, ht. split; [exact Hrun|].
  assert (Hc' : Lawful (conf ht)) by (by rewrite Hcf).
  apply (table_well_typed ht ss Ht); [by rewrite Hcf..|]. by eapply program_mutations.
Qed.

Lemma half_hash k : word k → word (__CFBasicHashHashKey (config_of_flags half_flags half_callbacks) k).
Proof.
  intros _. change (word (k / 2 mod 3)). unfold word. pose proof (Z.mod_pos_bound (k / 2) 3). lia.
Qed.

Lemma programs_are_well_typed_witness : ∃ rs ht,
  @run_program (fill_allocator 0 ltac:(by_decide)) (empty_table (config_of_flags half_flags half_callbacks))
    sample_program = Some (rs, ht) ∧ well_typed ht.
Proof.
  refine (programs_are_well_typed _ _ sample_program half_lawful (λ v Hv, Hv) half_hash sample_admissible _);
    [by eexists|vm_compute; discriminate].
Defined.
