(* ===== verification/HashRead.v ===== *)
(** * Counting, visiting, comparing and copying a CFBasicHash

    The functions of CFBasicHash.c that go through all buckets, on the entries
    of the table. *)
From S2P Require Import Prelude BasicHash HashPrimes HashProbe HashSpec HashFind HashOps HashChange.
From S2P Require Import HashUse HashProgram.
Open Scope Z_scope.

(** ** Counting *)

(** The number of elements. *)
Definition total (es : list entry) : Z := zsum ecount es.

Lemma total_perm es es' : es ≡ₚ es' → total es = total es'.
Proof. unfold total. induction 1; cbn; lia. Qed.

Lemma total_entries_app l1 l2 : total (l1 ++ l2) = total l1 + total l2.
Proof. unfold total. induction l1 as [|e l IH]; cbn; [done|]. lia. Qed.

Lemma total_entries_nonneg es : Forall (λ e, 0 < ecount e) es → 0 ≤ total es.
Proof. unfold total. induction 1; cbn; lia. Qed.

Section table.
Context (ht : CFBasicHash) (ss : list slot) `{Hc : !Lawful (conf ht)} (Ht : table ht ss).

Lemma positive : Forall (λ e, 0 < ecount e) (entries ss).
Proof.
  apply Forall_forall. intros e [b Hb]%elem_of_entries.
  by apply (entry_count_pos _ _ (table_shaped _ _ Ht) b).
Qed.

Lemma positive_part l : sublist l ss → Forall (λ e, 0 < ecount e) (entries l).
Proof.
  intros Hl. pose proof positive as Hp. rewrite Forall_forall in Hp. apply Forall_forall.
  intros e (s & Hs & He)%list_elem_of_omap. apply Hp, list_elem_of_omap. exists s. split; [|done].
  by eapply elem_of_submseteq, sublist_submseteq.
Qed.

Lemma total_loop_ok l1 l2 : ss = l1 ++ l2 → counts_offset (conf ht) = true → total (entries ss) < 2 ^ 63 →
  total_loop ht (zlen l1) (total (entries l1)) (length l2) = Some (total (entries ss)).
Proof.
  intros Hss Hco Hmax. revert l1 Hss. induction l2 as [|s l2 IH]; intros l1 Hss; cbn [total_loop length].
  { by rewrite Hss, app_nil_r. }
  assert (__CFBasicHashGetSlotCount ht (zlen l1) = Some (raw_count s)) as ->.
  { unfold __CFBasicHashGetSlotCount. rewrite (shape_counts _ _ (table_shaped _ _ Ht)), Hco, zget_fmap, Hss.
    by rewrite zget_middle. }
  cbn [mbind option_bind]. specialize (IH (l1 ++ [s])). rewrite <- app_assoc in IH. specialize (IH Hss).
  assert (Hs : total (entries (l1 ++ [s])) = total (entries l1) + raw_count s).
  { rewrite entries_app, total_entries_app. f_equal. unfold total. destruct s; cbn; lia. }
  rewrite Hs, zlen_app in IH. rewrite sint_id; [exact IH|lia|].
  assert (Hsum : total (entries ss) = total (entries l1) + raw_count s + total (entries l2)).
  { rewrite <- Hs, <- total_entries_app, <- entries_app, <- app_assoc. by rewrite Hss. }
  assert (0 ≤ total (entries l2)).
  { apply total_entries_nonneg, positive_part. rewrite Hss. apply sublist_inserts_l, sublist_cons. done. }
  assert (0 ≤ total (entries (l1 ++ [s]))).
  { apply total_entries_nonneg, positive_part. rewrite Hss. change (s :: l2) with ([s] ++ l2).
    rewrite app_assoc. by apply sublist_inserts_r. }
  lia.
Qed.

Lemma get_count_ok : total (entries ss) < 2 ^ 63 → CFBasicHashGetCount ht = Some (total (entries ss)).
Proof.
  intros Hmax. unfold CFBasicHashGetCount. pose proof (table_shaped _ _ Ht) as Hs.
  destruct (counts_offset (conf ht)) eqn:Hco.
  - replace (Z.to_nat _) with (length ss) by (rewrite <- (shape_len _ _ Hs); unfold zlen; lia).
    by apply (total_loop_ok [] ss).
  - f_equal. rewrite (table_used _ _ Ht). pose proof (shape_ok _ _ Hs) as Hok.
    clear Hmax. induction Hok as [|e es (_ & _ & He) _ IH]; [done|]. rewrite Hco in He.
    rewrite zlen_cons, IH. unfold total. cbn. lia.
Qed.
End table.

(** ** Visiting *)

(** The buckets with an entry, in order from the index [i]. *)
Fixpoint visits (i : Z) (ss : list slot) : list CFBasicHashBucket :=
  match ss with
  | [] => []
  | Full e :: ss => bucket_of i e :: visits (i + 1) ss
  | _ :: ss => visits (i + 1) ss
  end.

Definition entry_of (b : CFBasicHashBucket) : entry :=
  {| ekey := weak_key b; evalue := weak_value b; ecount := count b |}.

Lemma visits_entries i ss : entry_of <$> visits i ss = entries ss.
Proof.
  revert i. induction ss as [|s ss IH]; intros i; [done|]. destruct s as [| |e]; cbn; [apply IH..|].
  change (omap full ss) with (entries ss). rewrite <- (IH (i + 1)). by destruct e.
Qed.

Lemma visits_zlen i ss : zlen (visits i ss) = zlen (entries ss).
Proof. rewrite <- (visits_entries i), zlen_fmap. done. Qed.

(** A block run on buckets until it asks to stop. *)
Fixpoint run_block {S} (block : CFBasicHashBucket → S → option (bool * S))
    (bs : list CFBasicHashBucket) (s : S) : option S :=
  match bs with
  | [] => Some s
  | b :: bs => '(go, s) ← block b s; if (go : bool) then run_block block bs s else Some s
  end.

Section visiting.
Context (ht : CFBasicHash) (ss : list slot) `{Hc : !Lawful (conf ht)} (Ht : table ht ss).

Lemma bucket_at l1 s l2 : ss = l1 ++ s :: l2 →
  CFBasicHashGetBucket ht (zlen l1)
  = Some (match s with Full e => bucket_of (zlen l1) e | _ => no_element (zlen l1) end).
Proof.
  intros Hss. pose proof (table_shaped _ _ Ht) as Hs.
  assert (Hb : ss.[zlen l1] = Some s) by (rewrite Hss; apply zget_middle).
  destruct s as [| |e]; [by apply (get_bucket_free _ _ Hs _ Empty)
    |by apply (get_bucket_free _ _ Hs _ Deleted)|by apply (get_bucket_full _ _ Hs)].
Qed.

Lemma entry_pos_at l1 e l2 : ss = l1 ++ Full e :: l2 → (0 <? ecount e) = true.
Proof.
  intros Hss. apply Z.ltb_lt, (entry_count_pos _ _ (table_shaped _ _ Ht) (zlen l1)).
  rewrite Hss. apply zget_middle.
Qed.

Lemma apply_loop_visits {S} (block : CFBasicHashBucket → S → option (bool * S)) l1 l2 s :
  ss = l1 ++ l2 →
  apply_loop ht block (zlen (entries l2)) (zlen l1) s (length l2)
  = run_block block (visits (zlen l1) l2) s.
Proof.
  revert l1 s. induction l2 as [|x l2 IH]; intros l1 s Hss; cbn [apply_loop length]; [done|].
  pose proof (bucket_at l1 x l2 Hss) as Hb. specialize (IH (l1 ++ [x])).
  rewrite zlen_app in IH. change (zlen [x]) with 1 in IH. rewrite <- app_assoc in IH.
  specialize (λ s, IH s Hss).
  destruct (Z.ltb_spec 0 (zlen (entries (x :: l2)))) as [Hpos|Hnone].
  - rewrite Hb. cbn [mbind option_bind]. destruct x as [| |e]; [apply IH..|].
    change (entries (Full e :: l2)) with (e :: entries l2). cbn [count bucket_of visits run_block].
    rewrite (entry_pos_at l1 e l2 Hss). destruct (block (bucket_of (zlen l1) e) s) as [[go s']|]; [|done].
    cbn [mbind option_bind]. rewrite zlen_cons. replace (zlen (entries l2) + 1 - 1) with (zlen (entries l2)) by lia.
    destruct go; [apply IH|done].
  - destruct (visits (zlen l1) (x :: l2)) as [|b bs] eqn:Hv; [done|].
    pose proof (visits_zlen (zlen l1) (x :: l2)) as Hz. rewrite Hv, zlen_cons in Hz.
    pose proof (zlen_nonneg bs). lia.
Qed.

Lemma visits_buckets l1 l2 : ss = l1 ++ l2 →
  Forall (λ b, CFBasicHashGetBucket ht (idx b) = Some b) (visits (zlen l1) l2).
Proof.
  revert l1. induction l2 as [|x l2 IH]; intros l1 Hss; [by constructor|].
  pose proof (bucket_at l1 x l2 Hss) as Hb. specialize (IH (l1 ++ [x])).
  rewrite zlen_app, <- app_assoc in IH. specialize (IH Hss).
  destruct x as [| |e]; [exact IH..|]. by constructor.
Qed.

Lemma apply_visits {S} (block : CFBasicHashBucket → S → option (bool * S)) s :
  CFBasicHashApply ht block s = run_block block (visits 0 ss) s.
Proof.
  unfold CFBasicHashApply. rewrite (table_used _ _ Ht).
  replace (Z.to_nat _) with (length ss)
    by (rewrite <- (shape_len _ _ (table_shaped _ _ Ht)); unfold zlen; lia).
  by apply (apply_loop_visits block [] ss).
Qed.
End visiting.

(** [CFBasicHashApply] calls its block on every entry exactly once, as long as
    the block asks to go on. *)
Theorem apply_visits_every_entry {S} ht es (block : CFBasicHashBucket → S → option (bool * S)) s
    `{Hc : !Lawful (conf ht)} : holds ht es →
  ∃ bs, CFBasicHashApply ht block s = run_block block bs s ∧ entry_of <$> bs ≡ₚ es
    ∧ Forall (λ b, CFBasicHashGetBucket ht (idx b) = Some b) bs.
Proof.
  intros (ss & Ht & Hp). exists (visits 0 ss). split; [by apply apply_visits|].
  split; [by rewrite visits_entries|]. by apply (visits_buckets ht ss Ht [] ss).
Qed.

(** ** Listing *)

(** Every entry as often as it counts. *)
Definition expand (es : list entry) : list (Z * Z) :=
  es ≫= λ e, replicate (Z.to_nat (ecount e)) (ekey e, evalue e).

#[export] Instance expand_perm : Proper ((≡ₚ) ==> (≡ₚ)) expand.
Proof. intros l l' Hl. unfold expand. by rewrite Hl. Qed.

Lemma expand_length es : Forall (λ e, 0 < ecount e) es → zlen (expand es) = total es.
Proof.
  induction 1 as [|e es He _ IH]; [done|]. unfold expand, total in *. cbn [mbind list_bind zsum].
  rewrite zlen_app, zlen_replicate, IH. lia.
Qed.

(** A buffer that begins with what was written to it. *)
Definition written (buf : option (list Z)) (w : list Z) : option (list Z) :=
  (λ b, w ++ drop (length w) b) <$> buf.

(** Each buffer there is has [n] cells. *)
Definition sized (n : Z) (buf : option (list Z)) : Prop :=
  match buf with Some b => zlen b = n | None => True end.

Lemma store_next buf n w x : sized n buf → zlen w < n →
  store (written buf w) (zlen w) x = Some (written buf (w ++ [x])).
Proof.
  destruct buf as [b|]; [|done]. cbn. intros Hn Hw.
  destruct (lookup_lt_is_Some_2 b (length w)) as [y Hy]; [unfold zlen in *; lia|].
  rewrite (drop_S _ _ _ Hy), zset_middle. cbn [mbind option_bind]. f_equal. f_equal.
  rewrite length_app, <- app_assoc, Nat.add_1_r. done.
Qed.

Section listing.
Context (ht : CFBasicHash) (ss : list slot) `{Hc : !Lawful (conf ht)} (Ht : table ht ss).
Context (n : Z) (bv bk : option (list Z)) (Hbv : sized n bv) (Hbk : sized n bk).

Lemma copies_loop_ok b e w cnt : zlen w + Z.of_nat cnt ≤ n →
  copies_loop (bucket_of b e) n (zlen w) (written bv w.*2) (written bk w.*1) cnt
  = let w' := w ++ replicate cnt (ekey e, evalue e) in
    Some (zlen w', written bv w'.*2, written bk w'.*1).
Proof.
  revert w. induction cnt as [|cnt IH]; intros w Hw; cbn [copies_loop replicate].
  { cbv zeta. by rewrite app_nil_r. }
  rewrite (proj2 (Z.ltb_lt _ _)) by lia.
  replace (zlen w) with (zlen w.*2) at 1 by apply zlen_fmap.
  rewrite (store_next bv n) by (done || rewrite zlen_fmap; lia). cbn [mbind option_bind].
  replace (zlen w) with (zlen w.*1) at 1 by apply zlen_fmap.
  rewrite (store_next bk n) by (done || rewrite zlen_fmap; lia). cbn [mbind option_bind].
  replace (zlen w + 1) with (zlen (w ++ [(ekey e, evalue e)])) by (by rewrite zlen_app).
  replace (w.*2 ++ [weak_value (bucket_of b e)]) with (w ++ [(ekey e, evalue e)]).*2
    by (by rewrite fmap_app).
  replace (w.*1 ++ [weak_key (bucket_of b e)]) with (w ++ [(ekey e, evalue e)]).*1
    by (by rewrite fmap_app).
  rewrite IH by (rewrite zlen_app; change (zlen [(ekey e, evalue e)]) with 1; lia).
  cbv zeta. by rewrite <- app_assoc.
Qed.

Lemma elements_loop_ok l1 l2 w : ss = l1 ++ l2 → zlen w + total (entries l2) ≤ n →
  elements_loop ht n (zlen (entries l2)) (zlen l1) (zlen w) (written bv w.*2) (written bk w.*1)
    (length l2)
  = let w' := w ++ expand (entries l2) in Some (written bv w'.*2, written bk w'.*1).
Proof.
  revert l1 w. induction l2 as [|x l2 IH]; intros l1 w Hss Hn; cbn [elements_loop length].
  { cbv zeta. by rewrite app_nil_r. }
  pose proof (bucket_at ht ss Ht l1 x l2 Hss) as Hb. specialize (IH (l1 ++ [x])).
  rewrite zlen_app in IH. change (zlen [x]) with 1 in IH. rewrite <- app_assoc in IH.
  specialize (λ w, IH w Hss). pose proof (positive_part ht ss Ht (x :: l2)) as Hpos.
  assert (Hsub : sublist (x :: l2) ss) by (rewrite Hss; by apply sublist_inserts_l).
  specialize (Hpos Hsub). destruct x as [| |e].
  1,2: change (entries (_ :: l2)) with (entries l2) in *;
    destruct ((0 <? zlen (entries l2)) && (zlen w <? n)) eqn:Hgo;
    [rewrite Hb; cbn [mbind option_bind count no_element]; apply IH; done|];
    assert (entries l2 = []) as ->; [|by cbv zeta; rewrite app_nil_r];
    apply andb_false_iff in Hgo as [Hz%Z.ltb_ge|Hz%Z.ltb_ge];
    destruct (entries l2) as [|e es]; try done; apply Forall_cons in Hpos as [He Hes];
    pose proof (zlen_nonneg es); pose proof (total_entries_nonneg es Hes);
    rewrite ?zlen_cons in *; unfold total in *; cbn in Hn; lia.
  change (entries (Full e :: l2)) with (e :: entries l2) in *.
  apply Forall_cons in Hpos as [He Hes]. pose proof (total_entries_nonneg _ Hes).
  assert (total (e :: entries l2) = ecount e + total (entries l2)) as Htot by done.
  pose proof (zlen_nonneg (entries l2)). rewrite zlen_cons.
  rewrite (proj2 (Z.ltb_lt 0 _)), (proj2 (Z.ltb_lt (zlen w) _)) by lia. cbn [andb].
  rewrite Hb. cbn [mbind option_bind count bucket_of]. rewrite (proj2 (Z.ltb_lt _ _)) by done.
  change {| idx := zlen l1; weak_key := ekey e; weak_value := evalue e; count := ecount e |}
    with (bucket_of (zlen l1) e).
  rewrite copies_loop_ok by lia. cbv zeta. cbn [mbind option_bind].
  rewrite Z.add_simpl_r, IH.
  - cbv zeta. by rewrite <- app_assoc.
  - rewrite zlen_app, zlen_replicate. lia.
Qed.
End listing.

(** [CFBasicHashGetElements], with buffers of as many cells as the table has
    elements, fills them with the keys and the values of all entries, each
    entry as often as its count, the key and the value at the same place. *)
Theorem get_elements_lists ht es bv bk `{Hc : !Lawful (conf ht)} : holds ht es →
  sized (total es) bv → sized (total es) bk →
  ∃ l, CFBasicHashGetElements ht (total es) bv bk = Some ((λ _, l.*2) <$> bv, (λ _, l.*1) <$> bk)
    ∧ l ≡ₚ expand es.
Proof.
  intros (ss & Ht & Hp) Hbv Hbk. exists (expand (entries ss)). split; [|by rewrite Hp].
  rewrite <- (total_perm _ _ Hp) in *. unfold CFBasicHashGetElements. rewrite (table_used _ _ Ht).
  replace (Z.to_nat _) with (length ss)
    by (rewrite <- (shape_len _ _ (table_shaped _ _ Ht)); unfold zlen; lia).
  pose proof (elements_loop_ok ht ss Ht _ bv bk Hbv Hbk [] ss [] eq_refl) as Hl.
  assert (Hw : ∀ buf, written buf [] = buf) by (by intros [|]).
  cbn [fmap list_fmap app length] in Hl. rewrite !Hw in Hl.
  change (zlen (@nil slot)) with 0 in Hl. change (zlen (@nil (Z * Z))) with 0 in Hl. rewrite Hl by (unfold zlen; cbn; lia).
  cbv zeta. pose proof (expand_length _ (positive ht ss Ht)) as Hlen.
  assert (Hfull : ∀ buf w, sized (total (entries ss)) buf → zlen w = total (entries ss) →
    written buf w = (λ _, w) <$> buf).
  { intros [b|] w Hb Hwl; [|done]. cbn in Hb |- *. f_equal. rewrite drop_ge, app_nil_r; [done|].
    unfold zlen in *. lia. }
  by rewrite !Hfull by (done || rewrite zlen_fmap; done).
Qed.

(** ** Comparing *)

(** [CFBasicHashesAreEqual] compares the entries [a] and [b] so. *)
Definition same_value (c : config) (a b : entry) : bool :=
  (evalue a =? evalue b) || __CFBasicHashTestEqualValue c (evalue a) (evalue b).
Definition same_entry (c : config) (a b : entry) : Prop :=
  __CFBasicHashTestEqualKey c (ekey b) (ekey a) = true ∧ ecount a = ecount b
  ∧ (keys_offset c = true → same_value c a b = true).

(** What its block finds for one entry. *)
Definition matched (c : config) (es2 : list entry) (a : entry) : bool :=
  match lookup_key c (ekey a) es2 with
  | Some b => (ecount a =? ecount b) && (negb (keys_offset c) || same_value c a b)
  | None => false
  end.

Section comparing.
Context (c : config) `{Hc : Lawful c}.

(** A match is the only entry of its key. *)
Lemma matched_split es2 a : distinct c es2 → matched c es2 a = true →
  ∃ b, same_entry c a b ∧ es2 ≡ₚ b :: without c (ekey a) es2.
Proof.
  intros Hd. unfold matched, lookup_key. destruct (at_key c (ekey a) es2) as [|b r] eqn:Hat; [done|].
  cbn. intros [Hn%Z.eqb_eq Hv]%andb_true_iff.
  assert (b ∈ at_key c (ekey a) es2) as [Hb Hin]%list_elem_of_filter by (rewrite Hat; set_solver).
  exists b. split.
  - split; [done|]. split; [done|]. intros Hk. by rewrite Hk in Hv.
  - apply elem_of_Permutation in Hin as [r' Hr'].
    destruct (at_key_some c (ekey a) es2 b r' Hd Hr' Hb) as [_ ->]. done.
Qed.

Lemma same_matched es2 a b : distinct c es2 → b ∈ es2 → same_entry c a b → matched c es2 a = true.
Proof.
  intros Hd [r Hr]%elem_of_Permutation (Hk & Hn & Hv). unfold matched, lookup_key.
  destruct (at_key_some c (ekey a) es2 b r Hd Hr Hk) as [-> _]. cbn.
  rewrite Hn, Z.eqb_refl. destruct (keys_offset c); [by apply Hv|done].
Qed.

Lemma split_at_key k es : es ≡ₚ at_key c k es ++ without c k es.
Proof.
  induction es as [|e es IH]; [done|]. rewrite at_key_cons, without_cons.
  destruct (__CFBasicHashTestEqualKey _ _ _); cbn; rewrite <- ?Permutation_middle; by rewrite <- IH.
Qed.

Lemma distinct_without k es : distinct c es → distinct c (without c k es).
Proof.
  intros Hd. apply (distinct_app_l c _ (at_key c k es)). refine (distinct_perm c _ _ _ Hd).
  rewrite split_at_key at 1. apply Permutation_app_comm.
Qed.

(** An entry of another key keeps its match when this one is taken out. *)
Lemma matched_without es2 a a' : distinct c es2 →
  __CFBasicHashTestEqualKey c (ekey a) (ekey a') = false → matched c es2 a' = true →
  matched c (without c (ekey a) es2) a' = true.
Proof.
  intros Hd Hne Hm. destruct (matched_split es2 a' Hd Hm) as (b & Hs & Hp).
  apply (same_matched _ a' b); [by apply distinct_without| |done].
  apply list_elem_of_filter. split; [|rewrite Hp; set_solver].
  apply not_true_iff_false. intros Hb. apply not_true_iff_false in Hne. apply Hne.
  destruct Hs as (Hk & _). apply equal_trans with (ekey b); [by apply equal_sym|done].
Qed.

(** All entries have matches, and there are as many elements: the tables have
    the same entries. *)
Lemma all_matched es1 es2 : distinct c es1 → distinct c es2 →
  Forall (λ e, 0 < ecount e) es2 →
  total es1 = total es2 → forallb (matched c es2) es1 = true →
  ∃ es', es2 ≡ₚ es' ∧ Forall2 (same_entry c) es1 es'.
Proof.
  revert es2. induction es1 as [|a es1 IH]; intros es2 Hd1 Hd2 Hpos Htot Hm.
  { exists []. destruct es2 as [|b es2]; [by split|]. apply Forall_cons in Hpos as [Hb Hpos].
    pose proof (total_entries_nonneg _ Hpos). unfold total in *. cbn in Htot. lia. }
  cbn in Hm. apply andb_true_iff in Hm as [Ha Hm].
  apply distinct_cons in Hd1 as [Hd1 Hne]; [|done].
  destruct (matched_split es2 a Hd2 Ha) as (b & Hs & Hp).
  destruct (IH (without c (ekey a) es2)) as (es' & Hp' & Hf); [done|by apply distinct_without|..].
  - rewrite Hp in Hpos. by apply Forall_cons in Hpos as [_ ?].
  - rewrite (total_perm _ _ Hp) in Htot. destruct Hs as (_ & Hn & _). unfold total in *. cbn in Htot. lia.
  - apply forallb_forall. intros a' Hin. pose proof (proj1 (forallb_forall _ _) Hm a' Hin) as Ha'.
    apply matched_without; [done| |done]. by apply Hne, list_elem_of_In.
  - exists (b :: es'). split; [by rewrite Hp, Hp' at 1|by constructor].
Qed.

Lemma all_same es1 es2 es' : distinct c es2 → es2 ≡ₚ es' → Forall2 (same_entry c) es1 es' →
  total es1 = total es2 ∧ forallb (matched c es2) es1 = true.
Proof.
  intros Hd Hp Hf. split.
  - rewrite (total_perm _ _ Hp). unfold total. clear Hp.
    induction Hf as [|a b l l' (_ & Hn & _) _ IH]; cbn; lia.
  - apply forallb_forall. intros a Ha%list_elem_of_In. apply list_elem_of_lookup in Ha as [i Hi].
    destruct (Forall2_lookup_l _ _ _ _ _ Hf Hi) as (b & Hb & Hs).
    apply (same_matched es2 a b); [done| |done]. rewrite Hp. by eapply list_elem_of_lookup_2.
Qed.
End comparing.

(** The block of [CFBasicHashesAreEqual] goes through the matches. *)
Lemma run_matched {B} (f : CFBasicHashBucket → B → option (bool * B)) (g : entry → bool) bs (t e : B) :
  Forall (λ b, f b t = Some (if g (entry_of b) then (true, t) else (false, e))) bs →
  run_block f bs t = Some (if forallb g (entry_of <$> bs) then t else e).
Proof.
  induction 1 as [|b bs Hb _ IH]; [done|]. cbn. rewrite Hb. by destruct (g _).
Qed.

Lemma forallb_perm {B} (f : B → bool) l l' : l ≡ₚ l' → forallb f l = forallb f l'.
Proof.
  induction 1 as [|x l l' _ IH|x y l|l l' l'' _ IH _ IH']; cbn; [done|by rewrite IH| |congruence].
  destruct (f x), (f y); done.
Qed.

Lemma compare_block ht1 ht2 ss2 es2 bs (Hc : Lawful (conf ht2)) : conf ht2 = conf ht1 →
  table ht2 ss2 → entries ss2 ≡ₚ es2 → Forall (λ b, 0 < ecount (entry_of b)) bs →
  Forall (λ b,
    (bkt2 ← __CFBasicHashFindBucket ht2 (weak_key b);
     if negb (count b =? count bkt2) then Some (false, false)
     else if keys_offset (conf ht1) && negb (weak_value b =? weak_value bkt2)
             && negb (__CFBasicHashTestEqualValue (conf ht1) (weak_value b) (weak_value bkt2))
     then Some (false, false) else Some (true, true))
    = Some (if matched (conf ht1) es2 (entry_of b) then (true, true) else (false, false))) bs.
Proof.
  intros Hcf Ht Hp Hpos. apply (Forall_impl _ _ _ Hpos). intros b Hb.
  destruct (find_bucket_found ht2 ss2 (table_shaped _ _ Ht) (weak_key b)) as (bkt & -> & Hf).
  cbn [mbind option_bind]. pose proof (found_lookup ht2 es2 ss2 _ bkt Ht Hp Hf) as H.
  unfold matched. rewrite <- Hcf. change (ekey (entry_of b)) with (weak_key b).
  destruct (lookup_key _ _ _) as [e|].
  - destruct H as (i & _ & -> & _). cbn. unfold same_value. cbn.
    destruct (count b =? ecount e), (keys_offset _), (weak_value b =? evalue e),
      (__CFBasicHashTestEqualValue _ _ _); done.
  - destruct H as (_ & [i ->] & _). cbn in Hb |- *. by rewrite (proj2 (Z.eqb_neq _ _)) by lia.
Qed.

(** C12. [CFBasicHashesAreEqual] says whether two tables have the same entries in
    some order: keys that the callbacks hold equal, equal counts, and values that
    the callbacks hold equal. *)
Theorem equality_compares_entries ht1 ht2 es1 es2 (Hc : Lawful (conf ht1)) :
  conf ht2 = conf ht1 → holds ht1 es1 → holds ht2 es2 → total es1 < 2 ^ 63 → total es2 < 2 ^ 63 →
  ∃ b, CFBasicHashesAreEqual ht1 ht2 = Some b
    ∧ (b = true ↔ ∃ es', es2 ≡ₚ es' ∧ Forall2 (same_entry (conf ht1)) es1 es').
Proof.
  intros Hcf (ss1 & Ht1 & Hp1) (ss2 & Ht2 & Hp2) Hm1 Hm2.
  assert (Hc2 : Lawful (conf ht2)) by (by rewrite Hcf).
  pose proof (positive ht2 ss2 Ht2) as Hpos2. pose proof (positive ht1 ss1 Ht1) as Hpos1.
  rewrite Hp1 in Hpos1. rewrite Hp2 in Hpos2.
  assert (Hd1 : distinct (conf ht1) es1) by (apply (distinct_perm _ _ _ Hp1), Ht1).
  assert (Hd2 : distinct (conf ht1) es2) by (rewrite <- Hcf; apply (distinct_perm _ _ _ Hp2), Ht2).
  unfold CFBasicHashesAreEqual.
  rewrite (get_count_ok ht1 ss1), (get_count_ok ht2 ss2) by (done || by rewrite (total_perm _ _ Hp1) || by rewrite (total_perm _ _ Hp2)).
  rewrite (total_perm _ _ Hp1), (total_perm _ _ Hp2). cbn [mbind option_bind].
  assert (Hiff : (total es1 = total es2 ∧ forallb (matched (conf ht1) es2) es1 = true)
    ↔ ∃ es', es2 ≡ₚ es' ∧ Forall2 (same_entry (conf ht1)) es1 es').
  { split; [intros []; by apply all_matched|]. intros (es' & ? & ?). by apply (all_same _ es1 es2 es'). }
  destruct (Z.eqb_spec (total es1) (total es2)) as [He|He]; cbn [negb].
  2: { exists false. split; [done|]. rewrite <- Hiff. split; [done|by intros []]. }
  destruct (Z.eqb_spec 0 (total es1)) as [H0|H0].
  { exists true. split; [done|]. split; [|done]. intros _. apply Hiff. split; [done|].
    destruct es1 as [|a es1]; [done|]. apply Forall_cons in Hpos1 as [Ha Hpos1].
    pose proof (total_entries_nonneg _ Hpos1). unfold total in *. cbn in H0. lia. }
  exists (forallb (matched (conf ht1) es2) es1). split; [|rewrite <- Hiff; tauto].
  rewrite (apply_visits ht1 ss1 Ht1), (run_matched _ (matched (conf ht1) es2) _ true false).
  - rewrite visits_entries, (forallb_perm _ _ _ Hp1). by destruct (forallb _ es1).
  - apply (compare_block ht1 ht2 ss2 es2); [done..|].
    apply (proj1 (Forall_fmap entry_of (λ e, 0 < ecount e) _)). rewrite visits_entries. exact (positive ht1 ss1 Ht1).
Qed.

(** ** Tables made by programs *)

Definition half_config : config := config_of_flags half_flags half_callbacks.

(** The table after a program on a new one. *)
Definition built (ops : list operation) : CFBasicHash :=
  match @run_program zero_memory (empty_table half_config) ops with
  | Some (_, ht) => ht
  | None => empty_table half_config
  end.

Lemma built_holds ops : Forall (admissible half_config) ops → zlen ops ≤ max_entries →
  holds (built ops) (spec_program (empty_table half_config) [] ops).2 ∧ conf (built ops) = half_config.
Proof.
  intros Hops Hlen.
  pose proof half_lawful as Hl.
  destruct (program_becomes memory_there (empty_table half_config) [] ops)
    as (ht' & Hrun & (Hcf & _) & Hh & _); [by apply holds_nothing|done..|].
  unfold built. by rewrite Hrun.
Qed.

(** The same dictionary made in two orders, with equal keys. *)
Definition first_order : list operation := [OpAdd 10 100; OpAdd 10 100; OpAdd 20 200; OpRemove 11].
Definition second_order : list operation := [OpSet 21 200; OpRemove 4; OpAdd 11 100].

Lemma first_holds : holds (built first_order)
  [{| ekey := 10; evalue := 100; ecount := 1 |}; {| ekey := 20; evalue := 200; ecount := 1 |}].
Proof. apply (built_holds first_order); [repeat constructor; unfold word; cbn; lia || done|done]. Qed.

Lemma second_holds : holds (built second_order)
  [{| ekey := 11; evalue := 100; ecount := 1 |}; {| ekey := 21; evalue := 200; ecount := 1 |}].
Proof. apply (built_holds second_order); [repeat constructor; unfold word; cbn; lia || done|done]. Qed.

Lemma built_lawful ops : conf (built ops) = half_config → Lawful (conf (built ops)).
Proof. intros ->. exact half_lawful. Qed.

Lemma apply_visits_every_entry_witness : ∃ bs,
  CFBasicHashApply (built first_order) (λ b l, Some (true, weak_key b :: l)) []
    = run_block (λ b l, Some (true, weak_key b :: l)) bs []
  ∧ entry_of <$> bs ≡ₚ
      [{| ekey := 10; evalue := 100; ecount := 1 |}; {| ekey := 20; evalue := 200; ecount := 1 |}]
  ∧ Forall (λ b, CFBasicHashGetBucket (built first_order) (idx b) = Some b) bs.
Proof.
  assert (Lawful (conf (built first_order))) by (apply built_lawful; vm_compute; reflexivity).
  apply (apply_visits_every_entry (built first_order) _ _ _ first_holds).
Defined.

Lemma get_elements_lists_witness : ∃ l,
  CFBasicHashGetElements (built first_order) 2 (Some [0; 0]) None = Some (Some l.*2, None)
  ∧ l ≡ₚ [(10, 100); (20, 200)].
Proof.
  assert (Lawful (conf (built first_order))) by (apply built_lawful; vm_compute; reflexivity).
  apply (get_elements_lists (built first_order) _ (Some [0; 0]) None first_holds); done.
Defined.

Lemma equality_compares_entries_witness :
  ∃ b, CFBasicHashesAreEqual (built first_order) (built second_order) = Some b
    ∧ (b = true ↔ ∃ es',
         [{| ekey := 11; evalue := 100; ecount := 1 |}; {| ekey := 21; evalue := 200; ecount := 1 |}] ≡ₚ es'
         ∧ Forall2 (same_entry (conf (built first_order)))
             [{| ekey := 10; evalue := 100; ecount := 1 |}; {| ekey := 20; evalue := 200; ecount := 1 |}] es').
Proof.
  refine (equality_compares_entries _ _ _ _ _ _ first_holds second_holds _ _);
    [apply built_lawful; vm_compute; reflexivity|vm_compute; reflexivity|done|done].
Defined.
