(* ===== verification/HashCopy.v ===== *)
(** * Copying a CFBasicHash

    [CFBasicHashCreateCopy] goes through the buckets of the source and retains
    every value and key again; counts and hash codes are copied as they are. *)
From S2P Require Import Prelude BasicHash HashPrimes HashProbe HashSpec HashFind HashOps HashChange.
From S2P Require Import HashUse HashProgram HashRead.
Open Scope Z_scope.

(** What the copy has of an entry and of a slot. *)
Definition restored (ht : CFBasicHash) (e : entry) : entry :=
  stored ht (ekey e) (evalue e) (ecount e).
Definition copied (ht : CFBasicHash) (s : slot) : slot :=
  match s with Full e => Full (restored ht e) | s => s end.

(** The events of copying the slots, the last first. *)
Fixpoint copy_events (ht : CFBasicHash) (ss : list slot) : list event :=
  match ss with
  | [] => []
  | Full e :: ss => copy_events ht ss ++ retained ht (ekey e) (evalue e)
  | _ :: ss => copy_events ht ss
  end.

Lemma copied_entries ht ss : entries (copied ht <$> ss) = restored ht <$> entries ss.
Proof.
  induction ss as [|s ss IH]; [done|]. unfold entries in *. destruct s; cbn; by rewrite IH.
Qed.

Lemma copied_counts ht (ss : list slot) : raw_count <$> (copied ht <$> ss) = raw_count <$> ss.
Proof. rewrite <- list_fmap_compose. apply list_fmap_ext. by intros _ [] _. Qed.

(** ** The entries of the copy *)

Section copied.
Context (ht : CFBasicHash) (ss : list slot) `{Hc : !Lawful (conf ht)} (Hs : shaped ht ss).

Lemma entry_fitting e : entry_ok (conf ht) (counts_width ht) e → fitting (conf ht) (ekey e) (evalue e).
Proof.
  intros (Hv & Hk & _). split; [done|]. destruct (keys_offset _); [done|]. rewrite Hk. apply equal_refl.
Qed.

Lemma restored_equal e : entry_ok (conf ht) (counts_width ht) e →
  __CFBasicHashTestEqualKey (conf ht) (ekey (restored ht e)) (ekey e) = true.
Proof. intros He. by apply stored_equal, entry_fitting. Qed.

Lemma restored_ok e : entry_ok (conf ht) (counts_width ht) e →
  entry_ok (conf ht) (counts_width ht) (restored ht e).
Proof. intros He. apply stored_ok; [done|by apply entry_fitting|by destruct He as (_ & _ & ?)]. Qed.

Lemma copied_hashes l : Forall (entry_ok (conf ht) (counts_width ht)) (entries l) →
  raw_hash (conf ht) <$> (copied ht <$> l) = raw_hash (conf ht) <$> l.
Proof.
  induction l as [|s l IH]; [done|]. intros Hok. cbn. destruct s as [| |e]; cbn in *.
  1,2: f_equal; by apply IH.
  apply Forall_cons in Hok as [He Hok]. f_equal; [|by apply IH].
  by apply equal_hash, restored_equal.
Qed.

Lemma restored_distinct es : Forall (entry_ok (conf ht) (counts_width ht)) es →
  distinct (conf ht) es → distinct (conf ht) (restored ht <$> es).
Proof.
  induction 1 as [|e es He Hok IH]; [done|]. cbn. intros [Hd Hne]%distinct_cons; [|done].
  apply distinct_cons; [done|]. split; [by apply IH|].
  intros b (a & -> & Ha)%list_elem_of_fmap. apply not_true_iff_false. intros Heq.
  specialize (Hne a Ha). apply not_true_iff_false in Hne. apply Hne.
  rewrite Forall_forall in Hok. pose proof (restored_equal a (Hok a Ha)) as Hra.
  pose proof (restored_equal e He) as Hre.
  apply equal_trans with (ekey (restored ht e)); [by apply equal_sym|].
  by apply equal_trans with (ekey (restored ht a)).
Qed.

Lemma copied_leads k n b : leads (conf ht) (num_buckets_idx ht) ss k n b →
  leads (conf ht) (num_buckets_idx ht) (copied ht <$> ss) k n b.
Proof.
  intros (Hn & Hp & Hbefore). split; [done|]. split; [done|]. intros m Hm.
  rewrite zget_fmap. specialize (Hbefore m Hm).
  destruct (ss.[probe_key (conf ht) (num_buckets_idx ht) k m]) as [[]|]; cbn; done || congruence.
Qed.

Lemma copied_deleted : length (filter (Deleted =.) (copied ht <$> ss)) = length (filter (Deleted =.) ss).
Proof.
  clear Hs. induction ss as [|s l IH]; [done|]. cbn [fmap list_fmap]. rewrite !filter_cons.
  destruct s; cbn; repeat case_decide; cbn; congruence.
Qed.

Lemma shaped_copied ht' : conf ht' = conf ht → counts_width ht' = counts_width ht →
  num_buckets_idx ht' = num_buckets_idx ht → imaged ht' (copied ht <$> ss) →
  shaped ht' (copied ht <$> ss).
Proof.
  intros Hcf Hw Hi [Hv Hk Hco Hh]. pose proof (shape_ok _ _ Hs) as Hok.
  constructor; rewrite ?Hcf, ?Hw, ?Hi in *; try done.
  - apply (shape_index _ _ Hs).
  - apply (shape_width _ _ Hs).
  - rewrite zlen_fmap. by apply shape_len.
  - rewrite copied_entries. apply Forall_fmap. apply (Forall_impl _ _ _ Hok). intros e. apply restored_ok.
  - rewrite copied_entries. apply restored_distinct; [done|apply (shape_distinct _ _ Hs)].
  - intros b e. rewrite zget_fmap. destruct (ss.[b]) as [[| |a]|] eqn:Hb; cbn; try done.
    intros [= <-]. destruct (shape_leads _ _ Hs b a Hb) as [n Hn]. exists n.
    apply (leads_equal _ _ (ekey a)); [|by apply copied_leads].
    apply equal_sym, restored_equal, (read_entry_ok _ _ Hs b), Hb.
Qed.
End copied.

(** ** The loop *)

(** A copy in the making. *)
Definition making (base : CFBasicHash) (vs ks : list Z) (ev : list event) : CFBasicHash :=
  set_events (set_keys (set_values base vs) ks) ev.

(** The cells of an array after [l] slots, with [r] for the others. *)
Definition cells (has : bool) (raw : slot → Z) (l : list slot) (r : list Z) : list Z :=
  if has then (raw <$> l) ++ r else [].

Section loop.
Context (src base : CFBasicHash) (ss : list slot) `{Hc : !Lawful (conf src)} (Hs : shaped src ss).
Context (Hcf : conf base = conf src) (Hrc : null_rc base = null_rc src).

Lemma fresh_value l vs v0 ks ev s' w (lit : bool) : raw_value s' = (if lit then w else encode w) →
  __CFBasicHashSetValue (making base (cells true raw_value l (v0 :: vs)) ks ev) (zlen l) w true lit
  = Some (making base (cells true raw_value (l ++ [s']) vs) ks ev).
Proof.
  intros Hw. unfold __CFBasicHashSetValue, cells. cbn [making values set_events set_keys set_values mbind option_bind].
  rewrite <- Hw. replace (zlen l) with (zlen (raw_value <$> l)) by apply zlen_fmap.
  rewrite zset_middle, fmap_app, <- app_assoc. done.
Qed.

Lemma fresh_key l vs ks k0 ev s' w (lit : bool) :
  (keys_offset (conf src) = true → raw_key s' = if lit then w else encode w) →
  let ht := making base vs (cells (keys_offset (conf src)) raw_key l (k0 :: ks)) ev in
  (if keys_offset (conf ht) then __CFBasicHashSetKey ht (zlen l) w true lit else Some ht)
  = Some (making base vs (cells (keys_offset (conf src)) raw_key (l ++ [s']) ks) ev).
Proof.
  cbv zeta. intros Hw. unfold __CFBasicHashSetKey, cells.
  cbn [making conf keys set_events set_keys set_values mbind option_bind]. rewrite Hcf.
  destruct (keys_offset (conf src)); [|done]. cbn [negb mbind option_bind]. rewrite <- Hw by done.
  replace (zlen l) with (zlen (raw_key <$> l)) by apply zlen_fmap.
  rewrite zset_middle, fmap_app, <- app_assoc. done.
Qed.

Lemma making_value vs ks ev v : __CFBasicHashImportValue (making base vs ks ev) v
  = (stored_value src v, making base vs ks (value_retained src v ++ ev)).
Proof.
  rewrite import_value_ok. unfold stored_value, value_retained, add_events.
  cbn [making conf null_rc set_events set_keys set_values events]. by rewrite Hcf, Hrc.
Qed.

Lemma making_key vs ks ev k : __CFBasicHashImportKey (making base vs ks ev) k
  = (imported (retainKey (callbacks (conf src))) (null_rc src) k,
     making base vs ks (key_retained src k ++ ev)).
Proof.
  rewrite import_key_ok. unfold key_retained, add_events.
  cbn [making conf null_rc set_events set_keys set_values events]. by rewrite Hcf, Hrc.
Qed.

(** One turn of the loop. *)
Lemma copy_step l vs v0 ks k0 ev s : ss.[zlen l] = Some s →
  let ht := making base (cells true raw_value (copied src <$> l) (v0 :: vs))
              (cells (keys_offset (conf src)) raw_key (copied src <$> l) (k0 :: ks)) ev in
  (stack_value ← (values src).[zlen l];
   if occupied stack_value then
     let (v, ht) := __CFBasicHashImportValue ht (decode stack_value) in
     ht ← __CFBasicHashSetValue ht (zlen l) v true false;
     if keys_offset (conf ht) then
       old_key ← (keys src).[zlen l];
       let (k, ht) := __CFBasicHashImportKey ht (decode old_key) in
       __CFBasicHashSetKey ht (zlen l) k true false
     else Some ht
   else
     ht ← __CFBasicHashSetValue ht (zlen l) stack_value true true;
     if keys_offset (conf ht) then __CFBasicHashSetKey ht (zlen l) stack_value true true else Some ht)
  = Some (making base (cells true raw_value (copied src <$> l ++ [s]) vs)
            (cells (keys_offset (conf src)) raw_key (copied src <$> l ++ [s]) ks)
            (copy_events src [s] ++ ev)).
Proof.
  intros Hb ht. rewrite fmap_app. cbn [fmap list_fmap].
  replace (zlen l) with (zlen (copied src <$> l)) in * by apply zlen_fmap.
  rewrite (shape_values _ _ Hs), zget_fmap, Hb. cbn [mbind option_bind fmap option_fmap option_map].
  destruct s as [| |e].
  1,2: unfold ht; erewrite fresh_value by done; cbn [mbind option_bind]; by apply fresh_key.
  destruct (read_entry_ok _ _ Hs _ _ Hb) as (Hv & Hk & _).
  cbn [raw_value]. rewrite encode_occupied, decode_encode by done.
  unfold ht. rewrite making_value.
  rewrite (fresh_value _ _ _ _ _ (Full (restored src e))) by done. cbn [mbind option_bind copy_events app].
  unfold retained. cbn [conf making set_events set_keys set_values]. rewrite Hcf, <- app_assoc.
  destruct (keys_offset (conf src)) eqn:Hko; [|by unfold cells].
  rewrite (shape_keys _ _ Hs), Hko, zget_fmap, Hb. cbn [mbind option_bind fmap option_fmap option_map raw_key].
  rewrite decode_encode, making_key by done.
  pose proof (fresh_key (copied src <$> l) (cells true raw_value ((copied src <$> l) ++ [Full (restored src e)]) vs)
    ks k0 (key_retained src (ekey e) ++ value_retained src (evalue e) ++ ev) (Full (restored src e))
    (imported (retainKey (callbacks (conf src))) (null_rc src) (ekey e)) false) as Hfk.
  cbv zeta in Hfk. cbn [conf making set_events set_keys set_values] in Hfk. rewrite Hcf, Hko in Hfk.
  rewrite app_assoc in Hfk |- *. apply Hfk. intros _. cbn. unfold stored_key. by rewrite Hko.
Qed.

Lemma copy_events_cons s l : copy_events src (s :: l) = copy_events src l ++ copy_events src [s].
Proof. destruct s; cbn; by rewrite ?app_nil_r. Qed.

Lemma copy_loop_ok l1 l2 vs ks ev : ss = l1 ++ l2 → length vs = length l2 → length ks = length l2 →
  copy_loop (making base (cells true raw_value (copied src <$> l1) vs)
               (cells (keys_offset (conf src)) raw_key (copied src <$> l1) ks) ev)
    (values src) (keys src) (zlen l1) (length l2)
  = Some (making base (cells true raw_value (copied src <$> ss) [])
            (cells (keys_offset (conf src)) raw_key (copied src <$> ss) [])
            (copy_events src l2 ++ ev)).
Proof.
  revert l1 vs ks ev. induction l2 as [|s l2 IH]; intros l1 vs ks ev Hss Hvs Hks.
  { destruct vs, ks; [|done..]. by rewrite Hss, app_nil_r. }
  destruct vs as [|v0 vs]; [done|]. destruct ks as [|k0 ks]; [done|].
  injection Hvs as Hvs. injection Hks as Hks.
  assert (Hb : ss.[zlen l1] = Some s) by (rewrite Hss; apply zget_middle).
  pose proof (copy_step l1 vs v0 ks k0 ev s Hb) as Hstep. cbv zeta in Hstep.
  rewrite copy_events_cons, <- app_assoc.
  specialize (IH (l1 ++ [s]) vs ks (copy_events src [s] ++ ev)).
  rewrite <- IH by (done || by rewrite <- app_assoc). clear IH.
  rewrite zlen_app. change (zlen [s]) with 1. cbn [copy_loop length].
  destruct ((values src).[zlen l1]) as [w|]; [|done]. cbn [mbind option_bind] in Hstep |- *.
  rewrite Hstep. done.
Qed.
End loop.

(** ** The copy *)

Lemma zsub_whole {A} (l : list A) : zsub l 0 (zlen l) = Some l.
Proof. pose proof (zsub_app (@nil A) l []) as H. by rewrite app_nil_r in H. Qed.

Lemma copy_retained_values ht l : null_rc ht = false → is_Some (retainValue (callbacks (conf ht))) →
  retained_values (copy_events ht l) ≡ₚ evalue <$> (restored ht <$> entries l)
  ∧ released_values (copy_events ht l) = [].
Proof.
  intros Hn [f Hf]. induction l as [|s l IH]; [done|]. destruct IH as [IHr IHl].
  unfold retained_values, released_values in *. destruct s as [| |e]; [done..|].
  change (entries (Full e :: l)) with (e :: entries l). cbn [copy_events]. rewrite !omap_app, IHl.
  cbn [app]. unfold retained, key_retained, value_retained. rewrite Hf, Hn.
  cbn. unfold stored_value, imported. rewrite Hf, Hn.
  destruct (keys_offset _); [destruct (retainKey _)|]; cbn; rewrite ?IHr; split; try done;
    symmetry; apply Permutation_cons_append.
Qed.

Lemma copy_retained_keys ht l : null_rc ht = false → keys_offset (conf ht) = true →
  is_Some (retainKey (callbacks (conf ht))) →
  retained_keys (copy_events ht l) ≡ₚ ekey <$> (restored ht <$> entries l)
  ∧ released_keys (copy_events ht l) = [].
Proof.
  intros Hn Hk [f Hf]. induction l as [|s l IH]; [done|]. destruct IH as [IHr IHl].
  unfold retained_keys, released_keys in *. destruct s as [| |e]; [done..|].
  change (entries (Full e :: l)) with (e :: entries l). cbn [copy_events]. rewrite !omap_app, IHl.
  cbn [app]. unfold retained, key_retained, value_retained. rewrite Hf, Hn, Hk.
  cbn. unfold stored_key, imported. rewrite Hf, Hn, Hk.
  destruct (retainValue _); cbn; rewrite ?IHr; split; try done;
    symmetry; apply Permutation_cons_append.
Qed.

Lemma copy_accounted ht ht' ss : conf ht' = conf ht → null_rc ht' = null_rc ht →
  events ht' = copy_events ht ss → accounted ht' (restored ht <$> entries ss).
Proof.
  intros Hcf Hrc Hev Hn. rewrite Hcf, Hev. rewrite Hrc in Hn. split.
  - intros Hv _. destruct (copy_retained_values ht ss Hn Hv) as [-> ->]. done.
  - intros Hk Hv _. destruct (copy_retained_keys ht ss Hn Hk Hv) as [-> ->]. done.
Qed.

Section copy.
Context `{Al : Allocator} (Hal : ∀ n, 0 < n → is_Some (alloc n)).
Context (ht : CFBasicHash) (ss : list slot) `{Hc : !Lawful (conf ht)} (Ht : table ht ss).

Lemma copy_arrays_ok :
  copy_arrays ht = Some (replicate (length ss) 0, if keys_offset (conf ht) then replicate (length ss) 0 else []).
Proof.
  pose proof (table_shaped _ _ Ht) as Hs. pose proof (shape_width _ _ Hs).
  unfold copy_arrays. rewrite <- (shape_len _ _ Hs). pose proof (zlen_nonneg ss).
  assert (Hw : 0 < 2 ^ counts_width ht) by (apply Z.pow_pos_nonneg; lia).
  rewrite !new_array_ok by (done || lia). cbn [mbind option_bind]. unfold zlen. by rewrite Nat2Z.id.
Qed.

Lemma create_copy_ok : instance_ok (instance_size (conf ht)) = true →
  ∃ ht', CFBasicHashCreateCopy ht = Some (Some ht') ∧ table ht' (copied ht <$> ss)
    ∧ conf ht' = conf ht ∧ null_rc ht' = null_rc ht ∧ immutable ht' = false ∧ finalized ht' = false
    ∧ events ht' = copy_events ht ss.
Proof.
  intros Hok. pose proof (table_shaped _ _ Ht) as Hs. unfold CFBasicHashCreateCopy.
  rewrite copy_arrays_ok, Hok. cbn [negb]. rewrite <- (shape_len _ _ Hs).
  assert (Htable : ∀ ht', conf ht' = conf ht → counts_width ht' = counts_width ht →
    num_buckets_idx ht' = num_buckets_idx ht → used_buckets ht' = used_buckets ht →
    deleted ht' = deleted ht → imaged ht' (copied ht <$> ss) → table ht' (copied ht <$> ss)).
  { intros ht' Hcf Hw Hi Hu Hd Him. destruct Ht as [_ Hused Hdel Hfew Hcap]. constructor.
    - by apply shaped_copied.
    - rewrite Hu, Hused, copied_entries, zlen_fmap. done.
    - by rewrite Hd, Hdel, copied_deleted.
    - by rewrite Hd.
    - unfold CFBasicHashGetCapacity in *. by rewrite Hu, Hi. }
  destruct (Z.eqb_spec 0 (zlen ss)) as [H0|H0].
  { destruct ss; [|rewrite zlen_cons in H0; pose proof (zlen_nonneg l); lia].
    eexists. split; [reflexivity|]. split; [|done]. apply Htable; try done.
    constructor; cbn; by repeat case_match. }
  replace (Z.to_nat (zlen ss)) with (length ss) by (unfold zlen; lia).
  set (base := copied_bits ht [] []).
  pose proof (copy_loop_ok ht base ss Hs eq_refl eq_refl [] ss (replicate (length ss) 0)
    (replicate (length ss) 0) [] eq_refl (length_replicate _ _) (length_replicate _ _)) as Hloop.
  change (zlen (@nil slot)) with 0 in Hloop.
  replace (copied_bits ht _ _) with (making base (cells true raw_value (copied ht <$> []) (replicate (length ss) 0))
    (cells (keys_offset (conf ht)) raw_key (copied ht <$> []) (replicate (length ss) 0)) []) by done.
  rewrite Hloop. cbn [mbind option_bind]. unfold __CFBasicHashHasHashCache.
  cbn [conf making set_events set_keys set_values base copied_bits].
  assert (Hcs : (if counts_offset (conf ht) then zsub (counts ht) 0 (zlen ss) else Some [])
    = Some (if counts_offset (conf ht) then raw_count <$> (copied ht <$> ss) else [])).
  { rewrite (shape_counts _ _ Hs), copied_counts. destruct (counts_offset _); [|done].
    rewrite <- (zlen_fmap raw_count ss). apply zsub_whole. }
  assert (Hhs : (if hashes_offset (conf ht) then zsub (hashes ht) 0 (zlen ss) else Some [])
    = Some (if hashes_offset (conf ht) then raw_hash (conf ht) <$> (copied ht <$> ss) else [])).
  { rewrite (shape_hashes _ _ Hs), copied_hashes by (done || apply (shape_ok _ _ Hs)).
    destruct (hashes_offset _); [|done].
    rewrite <- (zlen_fmap (raw_hash (conf ht)) ss). apply zsub_whole. }
  rewrite Hcs. cbn [mbind option_bind]. rewrite Hhs. cbn [mbind option_bind].
  eexists. split; [reflexivity|]. split; [|by rewrite app_nil_r].
  apply Htable; try done. constructor; cbn; rewrite ?app_nil_r; try done.
  unfold cells. by rewrite app_nil_r.
Qed.
End copy.

(** C10. [CFBasicHashCreateCopy] makes a mutable table of the same kind whose
    entries are those of the source with their keys and values retained again:
    the copy holds exactly what its own retain callbacks gave, with the counts of
    the source. *)
Theorem copy_holds_the_same `{Al : Allocator} (Hal : ∀ n, 0 < n → is_Some (alloc n)) ht es
    (Hc : Lawful (conf ht)) : holds ht es → instance_ok (instance_size (conf ht)) = true →
  ∃ ht', CFBasicHashCreateCopy ht = Some (Some ht') ∧ conf ht' = conf ht ∧ immutable ht' = false
    ∧ holds ht' (restored ht <$> es) ∧ accounted ht' (restored ht <$> es).
Proof.
  intros (ss & Ht & Hp) Hok.
  destruct (create_copy_ok Hal ht ss Ht Hok) as (ht' & Hcopy & Ht' & Hcf & Hrc & Him & _ & Hev).
  exists ht'. split; [done|]. split; [done|]. split; [done|]. split.
  - exists (copied ht <$> ss). split; [done|]. by rewrite copied_entries, Hp.
  - intros Hn. rewrite <- Hp. by apply (copy_accounted ht ht' ss).
Qed.

Lemma copy_holds_the_same_witness : ∃ ht',
  @CFBasicHashCreateCopy (fill_allocator 0 ltac:(by_decide)) (built first_order) = Some (Some ht')
  ∧ conf ht' = conf (built first_order) ∧ immutable ht' = false
  ∧ holds ht' (restored (built first_order) <$>
      [{| ekey := 10; evalue := 100; ecount := 1 |}; {| ekey := 20; evalue := 200; ecount := 1 |}])
  ∧ accounted ht' (restored (built first_order) <$>
      [{| ekey := 10; evalue := 100; ecount := 1 |}; {| ekey := 20; evalue := 200; ecount := 1 |}]).
Proof.
  refine (copy_holds_the_same _ _ _ _ first_holds _).
  - by eexists.
  - apply built_lawful. vm_compute. reflexivity.
  - vm_compute. reflexivity.
Defined.
