(* ===== verification/Collections.v ===== *)
(** * CFDictionary, CFSet and CFBag (CFDictionary.c, CFSet.c, CFBag.c)

    The three files are one template over CFBasicHash, compiled with one of the
    macros [CFDictionary], [CFSet] and [CFBag] as 1; the macro is [kind] below.
    The objects are tables of BasicHash.v.  A call on an Objective-C object goes
    to its class and is not modelled; an assertion does nothing in a release
    build, and the log of a mutation of an immutable object is left out. *)
From S2P Require Import Prelude BasicHash.
Open Scope Z_scope.

Inductive collection := CFDictionary | CFSet | CFBag.

(** The client's structures of functions; for a release function it is only
    modelled whether there is one, as in [CFBasicHashCallbacks]. *)
Record CFHashKeyCallBacks := {
  key_retain : option (Z → Z); key_release : bool;
  key_equal : option (Z → Z → bool); key_hash : option (Z → Z);
}.
Record CFHashValueCallBacks := {
  value_retain : option (Z → Z); value_release : bool; value_equal : option (Z → Z → bool);
}.

(** ** Creation *)

Section template.
Context (kind : collection).

Definition has_keys : bool := match kind with CFDictionary => true | _ => false end.
Definition has_counts : bool := match kind with CFBag => true | _ => false end.

Definition generic_flags : Z :=
  Z.lor kCFBasicHashLinearHashing
    (Z.lor (if has_keys then kCFBasicHashHasKeys else 0)
           (if has_counts then kCFBasicHashHasCounts else 0)).

Definition generic_callbacks (keyCallBacks : option CFHashKeyCallBacks)
    (valueCallBacks : option CFHashValueCallBacks) (useValueCB : bool) : CFBasicHashCallbacks := {|
  retainKey := keyCallBacks ≫= key_retain;
  releaseKey := default false (key_release <$> keyCallBacks);
  equateKeys := keyCallBacks ≫= key_equal;
  hashKey := keyCallBacks ≫= key_hash;
  getIndirectKey := None;
  retainValue := if useValueCB then valueCallBacks ≫= value_retain else keyCallBacks ≫= key_retain;
  releaseValue := if useValueCB then default false (value_release <$> valueCallBacks)
                  else default false (key_release <$> keyCallBacks);
  equateValues := if useValueCB then valueCallBacks ≫= value_equal else keyCallBacks ≫= key_equal;
|}.

Section memory.
Context `{Allocator}.

(** Without the garbage collector. *)
Definition CreateGeneric (keyCallBacks : option CFHashKeyCallBacks)
    (valueCallBacks : option CFHashValueCallBacks) (useValueCB : bool)
    : option (option CFBasicHash) :=
  CFBasicHashCreate generic_flags (generic_callbacks keyCallBacks valueCallBacks useValueCB).

(** [for (CFIndex idx = 0; idx < numValues; idx++) CFBasicHashAddValue(...)] *)
Fixpoint add_loop (ht : CFBasicHash) (klist vlist : list Z) (i : Z) (n : nat) : option CFBasicHash :=
  match n with
  | O => Some ht
  | S n =>
      k ← klist.[i];
      v ← vlist.[i];
      '(_, ht) ← CFBasicHashAddValue ht k v;
      add_loop ht klist vlist (i + 1) n
  end.

(** The table filled with the lists. *)
Definition fill (ht : CFBasicHash) (klist vlist : list Z) (numValues : Z) : option CFBasicHash :=
  ht ← (if 0 <? numValues then CFBasicHashSetCapacity ht numValues else Some ht);
  add_loop ht klist vlist 0 (Z.to_nat numValues).

(** [kCFTypeDictionaryKeyCallBacks] and [kCFTypeDictionaryValueCallBacks] call
    the functions of the classes of the objects, and are arguments. *)
Definition CreateTransfer (typeKeyCallBacks : CFHashKeyCallBacks)
    (typeValueCallBacks : CFHashValueCallBacks) (klist vlist : list Z) (numValues : Z)
    : option CFBasicHash :=
  r ← CreateGeneric (Some typeKeyCallBacks) (Some typeValueCallBacks) has_keys;
  ht ← r;
  ht ← fill (CFBasicHashSuppressRC ht) klist vlist numValues;
  Some (CFBasicHashMakeImmutable (CFBasicHashUnsuppressRC ht)).

(** [Some None] is the result [NULL]. *)
Definition Create (klist vlist : list Z) (numValues : Z) (keyCallBacks : option CFHashKeyCallBacks)
    (valueCallBacks : option CFHashValueCallBacks) : option (option CFBasicHash) :=
  r ← CreateGeneric keyCallBacks valueCallBacks has_keys;
  match r with
  | None => Some None
  | Some ht => ht ← fill ht klist vlist numValues; Some (Some (CFBasicHashMakeImmutable ht))
  end.

Definition CreateMutable (keyCallBacks : option CFHashKeyCallBacks)
    (valueCallBacks : option CFHashValueCallBacks) : option (option CFBasicHash) :=
  CreateGeneric keyCallBacks valueCallBacks has_keys.

Definition CreateCopy (other : CFBasicHash) : option (option CFBasicHash) :=
  r ← CFBasicHashCreateCopy other;
  Some (match r with Some ht => Some (CFBasicHashMakeImmutable ht) | None => None end).

Definition CreateMutableCopy (other : CFBasicHash) : option (option CFBasicHash) :=
  CFBasicHashCreateCopy other.
End memory.

(** ** Reading *)

Definition ContainsKey (hc : CFBasicHash) (key : Z) : option bool :=
  n ← CFBasicHashGetCountOfKey hc key; Some (0 <? n).

Definition GetValue (hc : CFBasicHash) (key : Z) : option Z :=
  bkt ← CFBasicHashFindBucket hc key; Some (if 0 <? count bkt then weak_value bkt else 0).

(** The Boolean is [true] when a value was stored through the pointer. *)
Definition GetValueIfPresent (hc : CFBasicHash) (key : Z) : option (option Z) :=
  bkt ← CFBasicHashFindBucket hc key; Some (if 0 <? count bkt then Some (weak_value bkt) else None).

Definition GetKeyIfPresent (hc : CFBasicHash) (key : Z) : option (option Z) :=
  bkt ← CFBasicHashFindBucket hc key; Some (if 0 <? count bkt then Some (weak_key bkt) else None).

Definition GetKeysAndValues (hc : CFBasicHash) (keybuf valuebuf : option (list Z))
    : option (option (list Z) * option (list Z)) :=
  n ← CFBasicHashGetCount hc; CFBasicHashGetElements hc n valuebuf keybuf.

Section applier.
Context {S : Type} (applier : Z → Z → S → option S).

(** [for (CFIndex cnt = bkt.count; cnt--;)] *)
Fixpoint applier_loop (v : Z) (s : S) (cnt : nat) : option S :=
  match cnt with
  | O => Some s
  | Datatypes.S cnt => s ← applier v v s; applier_loop v s cnt
  end.

(** The function has a state of its own; for sets and bags it is given the
    value only, which is also its first argument here. *)
Definition ApplyFunction (hc : CFBasicHash) (s : S) : option S :=
  CFBasicHashApply hc (λ bkt s,
    s ← match kind with
        | CFDictionary => applier (weak_key bkt) (weak_value bkt) s
        | CFSet => applier (weak_value bkt) (weak_value bkt) s
        | CFBag => applier_loop (weak_value bkt) s (Z.to_nat (count bkt))
        end;
    Some (true, s)) s.
End applier.

(** ** Changing *)

Section changing.
Context `{Allocator}.

(** In a set or a bag, the value is the key. *)
Definition AddValue (hc : CFBasicHash) (key value : Z) : option CFBasicHash :=
  '(_, hc) ← CFBasicHashAddValue hc key (if has_keys then value else key); Some hc.

Definition ReplaceValue (hc : CFBasicHash) (key value : Z) : option CFBasicHash :=
  CFBasicHashReplaceValue hc key (if has_keys then value else key).

Definition SetValue (hc : CFBasicHash) (key value : Z) : option CFBasicHash :=
  CFBasicHashSetValue hc key (if has_keys then value else key).

Definition RemoveValue (hc : CFBasicHash) (key : Z) : option CFBasicHash :=
  '(_, hc) ← CFBasicHashRemoveValue hc key; Some hc.

Definition RemoveAllValues (hc : CFBasicHash) : option CFBasicHash := CFBasicHashRemoveAllValues hc.

Definition SetCapacity (hc : CFBasicHash) (cap : Z) : option CFBasicHash := CFBasicHashSetCapacity hc cap.
End changing.
End template.

(** ** CFDictionary.c *)

Definition CFDictionaryCreate `{Allocator} (klist vlist : list Z) (numValues : Z)
    (keyCallBacks : option CFHashKeyCallBacks) (valueCallBacks : option CFHashValueCallBacks)
    : option (option CFBasicHash) := Create CFDictionary klist vlist numValues keyCallBacks valueCallBacks.
Definition CFDictionaryCreateMutable `{Allocator} (keyCallBacks : option CFHashKeyCallBacks)
    (valueCallBacks : option CFHashValueCallBacks) : option (option CFBasicHash) :=
  CreateMutable CFDictionary keyCallBacks valueCallBacks.
Definition __CFDictionaryCreateTransfer `{Allocator} (typeKeyCallBacks : CFHashKeyCallBacks)
    (typeValueCallBacks : CFHashValueCallBacks) (klist vlist : list Z) (numValues : Z)
    : option CFBasicHash :=
  CreateTransfer CFDictionary typeKeyCallBacks typeValueCallBacks klist vlist numValues.
Definition CFDictionaryCreateCopy `{Allocator} (other : CFBasicHash) : option (option CFBasicHash) := CreateCopy other.
Definition CFDictionaryCreateMutableCopy `{Allocator} (other : CFBasicHash) : option (option CFBasicHash) :=
  CreateMutableCopy other.
Definition CFDictionaryGetCount (hc : CFBasicHash) : option Z := CFBasicHashGetCount hc.
Definition CFDictionaryGetCountOfKey (hc : CFBasicHash) (key : Z) : option Z := CFBasicHashGetCountOfKey hc key.
Definition CFDictionaryContainsKey (hc : CFBasicHash) (key : Z) : option bool := ContainsKey hc key.
Definition CFDictionaryGetValue (hc : CFBasicHash) (key : Z) : option Z := GetValue hc key.
Definition CFDictionaryGetValueIfPresent (hc : CFBasicHash) (key : Z) : option (option Z) := GetValueIfPresent hc key.
Definition CFDictionaryGetCountOfValue (hc : CFBasicHash) (value : Z) : option Z :=
  CFBasicHashGetCountOfValue hc value.
Definition CFDictionaryContainsValue (hc : CFBasicHash) (value : Z) : option bool :=
  n ← CFBasicHashGetCountOfValue hc value; Some (0 <? n).
Definition CFDictionaryGetKeyIfPresent (hc : CFBasicHash) (key : Z) : option (option Z) := GetKeyIfPresent hc key.
Definition CFDictionaryGetKeysAndValues (hc : CFBasicHash) (keybuf valuebuf : option (list Z))
    : option (option (list Z) * option (list Z)) := GetKeysAndValues hc keybuf valuebuf.
Definition CFDictionaryApplyFunction {S} (hc : CFBasicHash) (applier : Z → Z → S → option S) (s : S)
    : option S := ApplyFunction CFDictionary applier hc s.
Definition _CFDictionaryFastEnumeration (hc : CFBasicHash) (state : Z) (stackbuffer : list Z) (count : Z)
    : option (Z * Z * list Z) := __CFBasicHashFastEnumeration hc state stackbuffer count.
Definition _CFDictionaryIsMutable (hc : CFBasicHash) : bool := CFBasicHashIsMutable hc.
Definition _CFDictionarySetCapacity `{Allocator} (hc : CFBasicHash) (cap : Z) : option CFBasicHash := SetCapacity hc cap.
Definition CFDictionaryAddValue `{Allocator} (hc : CFBasicHash) (key value : Z) : option CFBasicHash :=
  AddValue CFDictionary hc key value.
Definition CFDictionaryReplaceValue `{Allocator} (hc : CFBasicHash) (key value : Z) : option CFBasicHash :=
  ReplaceValue CFDictionary hc key value.
Definition CFDictionarySetValue `{Allocator} (hc : CFBasicHash) (key value : Z) : option CFBasicHash :=
  SetValue CFDictionary hc key value.
Definition CFDictionaryRemoveValue `{Allocator} (hc : CFBasicHash) (key : Z) : option CFBasicHash := RemoveValue hc key.
Definition CFDictionaryRemoveAllValues (hc : CFBasicHash) : option CFBasicHash := RemoveAllValues hc.
Definition __CFDictionaryEqual (cf1 cf2 : CFBasicHash) : option bool := __CFBasicHashEqual cf1 cf2.
Definition __CFDictionaryHash (cf : CFBasicHash) : option Z := __CFBasicHashHash cf.
Definition __CFDictionaryDeallocate (cf : CFBasicHash) : option CFBasicHash := __CFBasicHashDeallocate cf.

(** ** CFSet.c *)

Definition CFSetCreate `{Allocator} (klist : list Z) (numValues : Z)
    (keyCallBacks : option CFHashKeyCallBacks) : option (option CFBasicHash) :=
  Create CFSet klist klist numValues keyCallBacks None.
Definition CFSetCreateMutable `{Allocator} (keyCallBacks : option CFHashKeyCallBacks)
    : option (option CFBasicHash) := CreateMutable CFSet keyCallBacks None.
Definition __CFSetCreateTransfer `{Allocator} (typeKeyCallBacks : CFHashKeyCallBacks)
    (typeValueCallBacks : CFHashValueCallBacks) (klist : list Z) (numValues : Z)
    : option CFBasicHash :=
  CreateTransfer CFSet typeKeyCallBacks typeValueCallBacks klist klist numValues.
Definition CFSetCreateCopy `{Allocator} (other : CFBasicHash) : option (option CFBasicHash) := CreateCopy other.
Definition CFSetCreateMutableCopy `{Allocator} (other : CFBasicHash) : option (option CFBasicHash) :=
  CreateMutableCopy other.
Definition CFSetGetCount (hc : CFBasicHash) : option Z := CFBasicHashGetCount hc.
Definition CFSetGetCountOfValue (hc : CFBasicHash) (key : Z) : option Z := CFBasicHashGetCountOfKey hc key.
Definition CFSetContainsValue (hc : CFBasicHash) (key : Z) : option bool := ContainsKey hc key.
Definition CFSetGetValue (hc : CFBasicHash) (key : Z) : option Z := GetValue hc key.
Definition CFSetGetValueIfPresent (hc : CFBasicHash) (key : Z) : option (option Z) := GetValueIfPresent hc key.
Definition CFSetGetValues (hc : CFBasicHash) (keybuf : list Z) : option (option (list Z)) :=
  '(_, keybuf) ← GetKeysAndValues hc (Some keybuf) None; Some keybuf.
Definition CFSetApplyFunction {S} (hc : CFBasicHash) (applier : Z → S → option S) (s : S)
    : option S := ApplyFunction CFSet (λ _, applier) hc s.
Definition _CFSetFastEnumeration (hc : CFBasicHash) (state : Z) (stackbuffer : list Z) (count : Z)
    : option (Z * Z * list Z) := __CFBasicHashFastEnumeration hc state stackbuffer count.
Definition _CFSetIsMutable (hc : CFBasicHash) : bool := CFBasicHashIsMutable hc.
Definition _CFSetSetCapacity `{Allocator} (hc : CFBasicHash) (cap : Z) : option CFBasicHash := SetCapacity hc cap.
Definition CFSetAddValue `{Allocator} (hc : CFBasicHash) (key : Z) : option CFBasicHash :=
  AddValue CFSet hc key key.
Definition CFSetReplaceValue `{Allocator} (hc : CFBasicHash) (key : Z) : option CFBasicHash :=
  ReplaceValue CFSet hc key key.
Definition CFSetSetValue `{Allocator} (hc : CFBasicHash) (key : Z) : option CFBasicHash :=
  SetValue CFSet hc key key.
Definition CFSetRemoveValue `{Allocator} (hc : CFBasicHash) (key : Z) : option CFBasicHash := RemoveValue hc key.
Definition CFSetRemoveAllValues (hc : CFBasicHash) : option CFBasicHash := RemoveAllValues hc.
Definition __CFSetEqual (cf1 cf2 : CFBasicHash) : option bool := __CFBasicHashEqual cf1 cf2.
Definition __CFSetHash (cf : CFBasicHash) : option Z := __CFBasicHashHash cf.
Definition __CFSetDeallocate (cf : CFBasicHash) : option CFBasicHash := __CFBasicHashDeallocate cf.

(** ** CFBag.c *)

Definition CFBagCreate `{Allocator} (klist : list Z) (numValues : Z)
    (keyCallBacks : option CFHashKeyCallBacks) : option (option CFBasicHash) :=
  Create CFBag klist klist numValues keyCallBacks None.
Definition CFBagCreateMutable `{Allocator} (keyCallBacks : option CFHashKeyCallBacks)
    : option (option CFBasicHash) := CreateMutable CFBag keyCallBacks None.
Definition __CFBagCreateTransfer `{Allocator} (typeKeyCallBacks : CFHashKeyCallBacks)
    (typeValueCallBacks : CFHashValueCallBacks) (klist : list Z) (numValues : Z)
    : option CFBasicHash :=
  CreateTransfer CFBag typeKeyCallBacks typeValueCallBacks klist klist numValues.
Definition CFBagCreateCopy `{Allocator} (other : CFBasicHash) : option (option CFBasicHash) := CreateCopy other.
Definition CFBagCreateMutableCopy `{Allocator} (other : CFBasicHash) : option (option CFBasicHash) :=
  CreateMutableCopy other.
Definition CFBagGetCount (hc : CFBasicHash) : option Z := CFBasicHashGetCount hc.
Definition CFBagGetCountOfValue (hc : CFBasicHash) (key : Z) : option Z := CFBasicHashGetCountOfKey hc key.
Definition CFBagContainsValue (hc : CFBasicHash) (key : Z) : option bool := ContainsKey hc key.
Definition CFBagGetValue (hc : CFBasicHash) (key : Z) : option Z := GetValue hc key.
Definition CFBagGetValueIfPresent (hc : CFBasicHash) (key : Z) : option (option Z) := GetValueIfPresent hc key.
Definition CFBagGetValues (hc : CFBasicHash) (keybuf : list Z) : option (option (list Z)) :=
  '(_, keybuf) ← GetKeysAndValues hc (Some keybuf) None; Some keybuf.
Definition CFBagApplyFunction {S} (hc : CFBasicHash) (applier : Z → S → option S) (s : S)
    : option S := ApplyFunction CFBag (λ _, applier) hc s.
Definition _CFBagFastEnumeration (hc : CFBasicHash) (state : Z) (stackbuffer : list Z) (count : Z)
    : option (Z * Z * list Z) := __CFBasicHashFastEnumeration hc state stackbuffer count.
Definition _CFBagIsMutable (hc : CFBasicHash) : bool := CFBasicHashIsMutable hc.
Definition _CFBagSetCapacity `{Allocator} (hc : CFBasicHash) (cap : Z) : option CFBasicHash := SetCapacity hc cap.
Definition CFBagAddValue `{Allocator} (hc : CFBasicHash) (key : Z) : option CFBasicHash :=
  AddValue CFBag hc key key.
Definition CFBagReplaceValue `{Allocator} (hc : CFBasicHash) (key : Z) : option CFBasicHash :=
  ReplaceValue CFBag hc key key.
Definition CFBagSetValue `{Allocator} (hc : CFBasicHash) (key : Z) : option CFBasicHash :=
  SetValue CFBag hc key key.
Definition CFBagRemoveValue `{Allocator} (hc : CFBasicHash) (key : Z) : option CFBasicHash := RemoveValue hc key.
Definition CFBagRemoveAllValues (hc : CFBasicHash) : option CFBasicHash := RemoveAllValues hc.
Definition __CFBagEqual (cf1 cf2 : CFBasicHash) : option bool := __CFBasicHashEqual cf1 cf2.
Definition __CFBagHash (cf : CFBasicHash) : option Z := __CFBasicHashHash cf.
Definition __CFBagDeallocate (cf : CFBasicHash) : option CFBasicHash := __CFBasicHashDeallocate cf.
