(* ===== verification/CollectionsUse.v ===== *)
(** * What dictionaries, sets and bags do

    Without callbacks, keys are compared as pointers and the three collections
    are finite maps from keys to a value and a count.  With lawful callbacks, a
    new collection has what its lists say. *)
From stdpp Require Import gmap.
From S2P Require Import Prelude BasicHash HashPrimes HashProbe HashSpec HashFind HashOps HashChange.
From S2P Require Import HashUse HashProgram HashRead.
From S2P Require Import Collections.
Open Scope Z_scope.

(** ** The abstract collection *)

(** A key has a value and a count. *)
Abbreviation contents := (gmap Z (Z * Z)).

Definition entry_for (p : Z * (Z * Z)) : entry :=
  {| ekey := p.1; evalue := p.2.1; ecount := p.2.2 |}.
Definition entries_of (m : contents) : list entry := entry_for <$> map_to_list m.

(** The number of elements. *)
Definition size_of (m : contents) : Z := total (entries_of m).

Definition models (ht : CFBasicHash) (m : contents) : Prop := holds ht (entries_of m).

Lemma entries_insert m k p : m !! k = None → entries_of (<[k:=p]> m) ≡ₚ entry_for (k, p) :: entries_of m.
Proof. intros Hk. unfold entries_of. by rewrite map_to_list_insert by done. Qed.

Lemma entries_split m k p : m !! k = Some p → entries_of m ≡ₚ entry_for (k, p) :: entries_of (delete k m).
Proof. intros Hk. rewrite <- entries_insert by apply lookup_delete_eq. by rewrite insert_delete_id. Qed.

Lemma entries_put m k p q : m !! k = Some p →
  entries_of (<[k:=q]> m) ≡ₚ entry_for (k, q) :: entries_of (delete k m).
Proof. intros _. rewrite <- insert_delete_eq. apply entries_insert, lookup_delete_eq. Qed.

Lemma elem_of_entries_of m e : e ∈ entries_of m ↔ m !! ekey e = Some (evalue e, ecount e).
Proof.
  unfold entries_of. rewrite list_elem_of_fmap. split.
  - intros ([k [v n]] & -> & Hk%elem_of_map_to_list). exact Hk.
  - intros Hk%elem_of_map_to_list. eexists. split; [|exact Hk]. by destruct e.
Qed.

Lemma holds_perm ht es es' : es ≡ₚ es' → holds ht es → holds ht es'.
Proof. intros Hp (ss & Ht & Hs). exists ss. split; [done|]. by rewrite Hs. Qed.

Lemma total_cons e es : total (e :: es) = ecount e + total es.
Proof. done. Qed.

(** ** A table that compares keys as words *)

Section words.
Context (c : config) (Hc : Lawful c) (Heq : equateKeys (callbacks c) = None).

Lemma equal_words a b : __CFBasicHashTestEqualKey c a b = (a =? b).
Proof. unfold __CFBasicHashTestEqualKey. by rewrite Heq. Qed.

Lemma distinct_of m : distinct c (entries_of m).
Proof.
  induction m as [|k p m Hk IH] using map_ind.
  { intros a b r Hr. unfold entries_of in Hr. rewrite map_to_list_empty in Hr.
    by apply Permutation_nil_l in Hr. }
  apply (distinct_perm c (entry_for (k, p) :: entries_of m)); [by rewrite entries_insert|].
  apply distinct_cons; [done|]. split; [done|]. intros e He%elem_of_entries_of.
  rewrite equal_words. apply Z.eqb_neq. intros Heqk. cbn in Heqk. congruence.
Qed.

Lemma lookup_of m k :
  match m !! k with
  | Some p => lookup_key c k (entries_of m) = Some (entry_for (k, p))
              ∧ without c k (entries_of m) ≡ₚ entries_of (delete k m)
  | None => lookup_key c k (entries_of m) = None
  end.
Proof.
  unfold lookup_key. destruct (m !! k) as [p|] eqn:Hk.
  - destruct (at_key_some c k (entries_of m) (entry_for (k, p)) (entries_of (delete k m)))
      as [-> Hw]; [apply distinct_of|by apply entries_split|rewrite equal_words; apply Z.eqb_refl|].
    done.
  - destruct (at_key_none c k (entries_of m)) as [-> _]; [|done].
    intros e He%elem_of_entries_of. rewrite equal_words. apply Z.eqb_neq. congruence.
Qed.
End words.

(** ** Programs without callbacks *)

Inductive request :=
  | Add (k v : Z) | Replace (k v : Z) | Put (k v : Z) | Remove (k : Z) | RemoveAll
  | GetCount | GetCountOf (k : Z) | Contains (k : Z) | Get (k : Z) | GetIfPresent (k : Z).

Inductive response := Done | Number (n : Z) | Truth (b : bool) | Word (w : Z) | Perhaps (w : option Z).

(** The value under the key [k]; that of a set or a bag is the key. *)
Definition value_for (kind : collection) (k v : Z) : Z := if has_keys kind then v else k.

(** What a request does to the abstract collection: only a bag counts. *)
Definition answer (kind : collection) (m : contents) (r : request) : response * contents :=
  match r with
  | Add k v => (Done, match m !! k with
                      | None => <[k := (value_for kind k v, 1)]> m
                      | Some (w, n) => if has_counts kind then <[k := (w, n + 1)]> m else m
                      end)
  | Replace k v => (Done, match m !! k with
                          | None => m
                          | Some (_, n) => <[k := (value_for kind k v, n)]> m
                          end)
  | Put k v => (Done, match m !! k with
                      | None => <[k := (value_for kind k v, 1)]> m
                      | Some (_, n) => <[k := (value_for kind k v, n)]> m
                      end)
  | Remove k => (Done, match m !! k with
                       | Some (w, n) => if 1 <? n then <[k := (w, n - 1)]> m else delete k m
                       | None => m
                       end)
  | RemoveAll => (Done, ∅)
  | GetCount => (Number (size_of m), m)
  | GetCountOf k => (Number (default 0 (snd <$> m !! k)), m)
  | Contains k => (Truth (bool_decide (is_Some (m !! k))), m)
  | Get k => (Word (default 0 (fst <$> m !! k)), m)
  | GetIfPresent k => (Perhaps (fst <$> m !! k), m)
  end.

Fixpoint answers (kind : collection) (m : contents) (rs : list request) : list response * contents :=
  match rs with
  | [] => ([], m)
  | r :: rs => let (a, m) := answer kind m r in
               let (l, m) := answers kind m rs in (a :: l, m)
  end.

(** The client passes words that are not the two reserved ones. *)
Definition proper (r : request) : Prop :=
  match r with
  | Add k v | Replace k v | Put k v => valid k ∧ valid v
  | Remove k | GetCountOf k | Contains k | Get k | GetIfPresent k => valid k
  | _ => True
  end.

Section requests.
Context `{Al : Allocator} (kind : collection).

(** The call of the collection's own function. *)
Definition perform (ht : CFBasicHash) (r : request) : option (response * CFBasicHash) :=
  match r with
  | Add k v => ht ← match kind with
                    | CFDictionary => CFDictionaryAddValue ht k v
                    | CFSet => CFSetAddValue ht k
                    | CFBag => CFBagAddValue ht k
                    end; Some (Done, ht)
  | Replace k v => ht ← match kind with
                        | CFDictionary => CFDictionaryReplaceValue ht k v
                        | CFSet => CFSetReplaceValue ht k
                        | CFBag => CFBagReplaceValue ht k
                        end; Some (Done, ht)
  | Put k v => ht ← match kind with
                    | CFDictionary => CFDictionarySetValue ht k v
                    | CFSet => CFSetSetValue ht k
                    | CFBag => CFBagSetValue ht k
                    end; Some (Done, ht)
  | Remove k => ht ← match kind with
                     | CFDictionary => CFDictionaryRemoveValue ht k
                     | CFSet => CFSetRemoveValue ht k
                     | CFBag => CFBagRemoveValue ht k
                     end; Some (Done, ht)
  | RemoveAll => ht ← match kind with
                      | CFDictionary => CFDictionaryRemoveAllValues ht
                      | CFSet => CFSetRemoveAllValues ht
                      | CFBag => CFBagRemoveAllValues ht
                      end; Some (Done, ht)
  | GetCount => n ← match kind with
                    | CFDictionary => CFDictionaryGetCount ht
                    | CFSet => CFSetGetCount ht
                    | CFBag => CFBagGetCount ht
                    end; Some (Number n, ht)
  | GetCountOf k => n ← match kind with
                        | CFDictionary => CFDictionaryGetCountOfKey ht k
                        | CFSet => CFSetGetCountOfValue ht k
                        | CFBag => CFBagGetCountOfValue ht k
                        end; Some (Number n, ht)
  | Contains k => b ← match kind with
                      | CFDictionary => CFDictionaryContainsKey ht k
                      | CFSet => CFSetContainsValue ht k
                      | CFBag => CFBagContainsValue ht k
                      end; Some (Truth b, ht)
  | Get k => w ← match kind with
                 | CFDictionary => CFDictionaryGetValue ht k
                 | CFSet => CFSetGetValue ht k
                 | CFBag => CFBagGetValue ht k
                 end; Some (Word w, ht)
  | GetIfPresent k => w ← match kind with
                          | CFDictionary => CFDictionaryGetValueIfPresent ht k
                          | CFSet => CFSetGetValueIfPresent ht k
                          | CFBag => CFBagGetValueIfPresent ht k
                          end; Some (Perhaps w, ht)
  end.

Fixpoint perform_all (ht : CFBasicHash) (rs : list request) : option (list response * CFBasicHash) :=
  match rs with
  | [] => Some ([], ht)
  | r :: rs => '(a, ht) ← perform ht r; '(l, ht) ← perform_all ht rs; Some (a :: l, ht)
  end.

End requests.

(** The table of a collection without callbacks. *)
Definition plain_config (kind : collection) : config :=
  config_of_flags (generic_flags kind) (generic_callbacks None None (has_keys kind)).

Lemma plain_lawful kind : Lawful (plain_config kind).
Proof.
  assert (He : ∀ a b, __CFBasicHashTestEqualKey (plain_config kind) a b = (a =? b)) by (by destruct kind).
  constructor; intros; rewrite ?He in *; try (by destruct kind).
  - apply Z.eqb_refl.
  - by rewrite Z.eqb_sym.
  - apply Z.eqb_eq. etrans; by apply Z.eqb_eq.
  - f_equal. by apply Z.eqb_eq.
  - destruct kind; apply Z.eqb_refl.
  - destruct kind; apply Z.eqb_refl.
Qed.

Lemma plain_stored kind ht k v n : conf ht = plain_config kind →
  stored ht k (value_for kind k v) n = entry_for (k, (value_for kind k v, n)).
Proof. unfold stored, stored_key, stored_value, value_key, value_for. intros ->. by destruct kind. Qed.

Lemma plain_fitting kind k v : valid k → valid v → fitting (plain_config kind) k (value_for kind k v).
Proof.
  intros Hk Hv. unfold fitting, value_for, value_key. destruct kind; cbn; [done|..];
    (split; [done|apply Z.eqb_refl]).
Qed.

Lemma plain_counts kind : counts_offset (plain_config kind) = has_counts kind.
Proof. by destruct kind. Qed.

Section steps.
Context `{Al : Allocator} (Hal : ∀ n, 0 < n → is_Some (alloc n)).
Context (kind : collection) (ht : CFBasicHash) (m : contents).
Context (Hcf : conf ht = plain_config kind) (Hmut : immutable ht = false) (Hm : models ht m).
Context (Hsize : size_of m < max_entries).

#[local] Instance step_lawful : Lawful (conf ht).
Proof. rewrite Hcf. apply plain_lawful. Qed.

Lemma compares_words : equateKeys (callbacks (conf ht)) = None.
Proof. rewrite Hcf. by destruct kind. Qed.

Lemma counts_pos : Forall (λ e, 0 < ecount e) (entries_of m).
Proof. destruct Hm as (ss & Ht & Hp). rewrite <- Hp. by apply (positive ht). Qed.

Lemma size_bounds : zlen (entries_of m) ≤ size_of m.
Proof.
  unfold size_of. pose proof counts_pos as Hpos. induction Hpos as [|e es He _ IH]; [done|].
  rewrite zlen_cons, total_cons. lia.
Qed.

Lemma count_bounds k w n : m !! k = Some (w, n) → 0 < n ≤ size_of m.
Proof.
  intros Hk. pose proof counts_pos as Hpos. pose proof (entries_split m k _ Hk) as Hs.
  rewrite Hs in Hpos. apply Forall_cons in Hpos as [Hn Hpos]. cbn in Hn.
  unfold size_of. rewrite (total_perm _ _ Hs), total_cons. pose proof (total_entries_nonneg _ Hpos). cbn. lia.
Qed.

(** What is known of the entries of a key. *)
Lemma step_lookup k :
  match m !! k with
  | Some p => lookup_key (conf ht) k (entries_of m) = Some (entry_for (k, p))
              ∧ without (conf ht) k (entries_of m) ≡ₚ entries_of (delete k m)
  | None => lookup_key (conf ht) k (entries_of m) = None
  end.
Proof. apply (lookup_of _ step_lawful compares_words). Qed.

(** An operation that ends with entries [es'], up to order those of [m']. *)
Lemma became ht' es' m' : becomes ht (entries_of m) ht' es' → es' ≡ₚ entries_of m' →
  models ht' m' ∧ kept ht ht'.
Proof. intros (Hk & Hh & _) Hp. split; [|done]. by apply (holds_perm _ es'). Qed.

Lemma step_add k v : valid k → valid v →
  ∃ ht', perform kind ht (Add k v) = Some (Done, ht')
    ∧ models ht' (answer kind m (Add k v)).2 ∧ kept ht ht'.
Proof.
  intros Hk Hv. pose proof size_bounds.
  destruct (add_value_becomes ht (entries_of m) Hal Hm Hmut k (value_for kind k v)) as (ht' & Hadd & Hb);
    [rewrite Hcf; by apply plain_fitting|done|lia|].
  exists ht'. split.
  { unfold value_for in Hadd. clear - Hadd. destruct kind; cbn in Hadd |- *;
      unfold CFDictionaryAddValue, CFSetAddValue, CFBagAddValue, AddValue; cbn; by rewrite Hadd. }
  apply (became ht' _ _ Hb). unfold added. pose proof (step_lookup k) as Hl. cbn.
  destruct (m !! k) as [[w n]|] eqn:Hmk.
  - destruct Hl as [-> Hw]. pose proof (count_bounds k w n Hmk). rewrite Hcf, plain_counts at 1. cbn.
    unfold max_entries, LONG_MAX in *. rewrite (proj2 (Z.ltb_lt n _)) by lia. rewrite andb_true_r.
    destruct (has_counts kind); [|done]. cbn. rewrite Hw. symmetry. by apply (entries_put m k (w, n)).
  - rewrite Hl. cbn. rewrite (plain_stored kind) by done. by rewrite entries_insert.
Qed.

Lemma step_replace k v : valid k → valid v →
  ∃ ht', perform kind ht (Replace k v) = Some (Done, ht')
    ∧ models ht' (answer kind m (Replace k v)).2 ∧ kept ht ht'.
Proof.
  intros Hk Hv.
  destruct (replace_value_becomes ht (entries_of m) Hm Hmut k (value_for kind k v)) as (ht' & Hr & Hb);
    [rewrite Hcf; by apply plain_fitting|done|].
  exists ht'. split.
  { unfold value_for in Hr. clear - Hr. destruct kind; cbn in Hr |- *;
      unfold CFDictionaryReplaceValue, CFSetReplaceValue, CFBagReplaceValue, ReplaceValue; cbn; by rewrite Hr. }
  apply (became ht' _ _ Hb). pose proof (step_lookup k) as Hl. cbn.
  destruct (m !! k) as [[w n]|] eqn:Hmk; [|by rewrite Hl].
  destruct Hl as [-> Hw]. rewrite (plain_stored kind), Hw by done. symmetry.
  by apply (entries_put m k (w, n)).
Qed.

Lemma step_put k v : valid k → valid v →
  ∃ ht', perform kind ht (Put k v) = Some (Done, ht')
    ∧ models ht' (answer kind m (Put k v)).2 ∧ kept ht ht'.
Proof.
  intros Hk Hv. pose proof size_bounds.
  destruct (set_value_becomes ht (entries_of m) Hal Hm Hmut k (value_for kind k v)) as (ht' & Hr & Hb);
    [rewrite Hcf; by apply plain_fitting|done|lia|].
  exists ht'. split.
  { unfold value_for in Hr. clear - Hr. destruct kind; cbn in Hr |- *;
      unfold CFDictionarySetValue, CFSetSetValue, CFBagSetValue, SetValue; cbn; by rewrite Hr. }
  apply (became ht' _ _ Hb). pose proof (step_lookup k) as Hl. unfold count_at. cbn.
  rewrite (plain_stored kind) by done.
  destruct (m !! k) as [[w n]|] eqn:Hmk.
  - destruct Hl as [-> Hw]. pose proof (count_bounds k w n Hmk). rewrite Hw. cbn.
    replace (Z.max 1 n) with n by lia. symmetry. by apply (entries_put m k (w, n)).
  - rewrite Hl, entries_insert by done. cbn. constructor.
    destruct (at_key_none (conf ht) k (entries_of m)) as [_ ->]; [|done].
    intros e He%elem_of_entries_of. rewrite (equal_words _ compares_words). apply Z.eqb_neq. congruence.
Qed.

Lemma step_remove k : valid k →
  ∃ ht', perform kind ht (Remove k) = Some (Done, ht')
    ∧ models ht' (answer kind m (Remove k)).2 ∧ kept ht ht'.
Proof.
  intros Hk.
  destruct (remove_value_becomes ht (entries_of m) Hal Hm Hmut k) as (ht' & Hr & Hb); [done|].
  exists ht'. split; [by destruct kind; cbn; unfold CFDictionaryRemoveValue, CFSetRemoveValue, CFBagRemoveValue, RemoveValue; rewrite Hr|].
  apply (became ht' _ _ Hb). unfold removed. pose proof (step_lookup k) as Hl. cbn.
  destruct (m !! k) as [[w n]|] eqn:Hmk; [|by rewrite Hl].
  destruct Hl as [-> Hw]. pose proof (count_bounds k w n Hmk). cbn.
  destruct (1 <? n); [|by rewrite Hw]. unfold max_entries, LONG_MAX in *.
  rewrite (proj2 (Z.ltb_lt n _)), Hw by lia. symmetry. by apply (entries_put m k (w, n)).
Qed.
Lemma step_remove_all :
  ∃ ht', perform kind ht RemoveAll = Some (Done, ht') ∧ models ht' ∅ ∧ kept ht ht'.
Proof.
  destruct (remove_all_becomes ht (entries_of m) Hm Hmut) as (ht' & Hr & Hb).
  exists ht'. split; [by destruct kind; cbn; unfold CFDictionaryRemoveAllValues, CFSetRemoveAllValues,
    CFBagRemoveAllValues, RemoveAllValues; rewrite Hr|].
  by apply (became ht' _ _ Hb).
Qed.

Lemma models_same : models ht m ∧ kept ht ht.
Proof. done. Qed.

(** The bucket that is found shows the entry in the map. *)
Lemma find_word k : valid k → ∃ bkt, CFBasicHashFindBucket ht k = Some bkt
  ∧ match m !! k with
    | Some (w, n) => weak_value bkt = w ∧ (0 <? count bkt) = true
    | None => (0 <? count bkt) = false
    end.
Proof.
  intros Hk. destruct (find_shows ht (entries_of m) k Hm Hk) as (bkt & Hb & H).
  exists bkt. split; [done|]. pose proof (step_lookup k) as Hl.
  destruct (m !! k) as [[w n]|] eqn:Hmk.
  - destruct Hl as [Hl _]. rewrite Hl in H. rewrite H. split; [done|]. apply Z.ltb_lt.
    by apply (count_bounds k w n).
  - rewrite Hl in H. by rewrite H.
Qed.

Lemma step_read r : proper r → (answer kind m r).2 = m →
  match r with Add _ _ | Replace _ _ | Put _ _ | Remove _ | RemoveAll => False | _ => True end →
  perform kind ht r = Some ((answer kind m r).1, ht).
Proof.
  intros Hr _. destruct r as [k v|k v|k v|k| | |k|k|k|k]; try done; intros _; cbn in Hr |- *.
  - destruct Hm as (ss & Ht & Hp). pose proof (get_count_ok ht ss Ht) as Hg.
    rewrite (total_perm _ _ Hp) in Hg. change (total (entries_of m)) with (size_of m) in Hg.
    unfold CFDictionaryGetCount, CFSetGetCount, CFBagGetCount.
    rewrite Hg by (unfold max_entries in *; lia). by destruct kind.
  - unfold CFDictionaryGetCountOfKey, CFSetGetCountOfValue, CFBagGetCountOfValue.
    rewrite (count_of_key_ok ht (entries_of m) k Hm Hr). unfold count_at.
    pose proof (step_lookup k) as Hl. destruct (m !! k) as [[w n]|]; [destruct Hl as [-> _]|rewrite Hl];
      by destruct kind.
  - unfold CFDictionaryContainsKey, CFSetContainsValue, CFBagContainsValue, ContainsKey.
    rewrite (count_of_key_ok ht (entries_of m) k Hm Hr). unfold count_at.
    pose proof (step_lookup k) as Hl. destruct (m !! k) as [[w n]|] eqn:Hmk.
    + destruct Hl as [-> _]. pose proof (count_bounds k w n Hmk). cbn.
      rewrite (proj2 (Z.ltb_lt 0 _)) by lia. by destruct kind.
    + rewrite Hl. by destruct kind.
  - unfold CFDictionaryGetValue, CFSetGetValue, CFBagGetValue, GetValue.
    destruct (find_word k Hr) as (bkt & -> & H). cbn.
    destruct (m !! k) as [[w n]|]; [destruct H as [<- ->]|rewrite H]; by destruct kind.
  - unfold CFDictionaryGetValueIfPresent, CFSetGetValueIfPresent, CFBagGetValueIfPresent, GetValueIfPresent.
    destruct (find_word k Hr) as (bkt & -> & H). cbn.
    destruct (m !! k) as [[w n]|]; [destruct H as [<- ->]|rewrite H]; by destruct kind.
Qed.

Lemma perform_ok r : proper r →
  ∃ ht', perform kind ht r = Some ((answer kind m r).1, ht')
    ∧ models ht' (answer kind m r).2 ∧ kept ht ht'.
Proof.
  intros Hr. destruct r as [k v|k v|k v|k| | |k|k|k|k].
  - destruct Hr. by apply step_add.
  - destruct Hr. by apply step_replace.
  - destruct Hr. by apply step_put.
  - by apply step_remove.
  - apply step_remove_all.
  - exists ht. split; [by apply (step_read GetCount)|apply models_same].
  - exists ht. split; [by apply (step_read (GetCountOf k))|apply models_same].
  - exists ht. split; [by apply (step_read (Contains k))|apply models_same].
  - exists ht. split; [by apply (step_read (Get k))|apply models_same].
  - exists ht. split; [by apply (step_read (GetIfPresent k))|apply models_same].
Qed.

(** No request adds more than one element. *)
Lemma answer_size r : size_of (answer kind m r).2 ≤ size_of m + 1.
Proof.
  pose proof size_bounds. pose proof (zlen_nonneg (entries_of m)).
  assert (Hput : ∀ k w n w' n', m !! k = Some (w, n) →
    size_of (<[k:=(w', n')]> m) = size_of m - n + n').
  { intros k w n w' n' Hk. unfold size_of.
    rewrite (total_perm _ _ (entries_put m k (w, n) (w', n') Hk)), (total_perm _ _ (entries_split m k (w, n) Hk)).
    rewrite !total_cons. cbn. lia. }
  assert (Hnew : ∀ k w, m !! k = None → size_of (<[k:=(w, 1)]> m) = size_of m + 1).
  { intros k w Hk. unfold size_of. rewrite (total_perm _ _ (entries_insert m k (w, 1) Hk)), total_cons. cbn. lia. }
  destruct r as [k v|k v|k v|k| | |k|k|k|k]; cbn; try lia;
    try (destruct (m !! k) as [[w n]|] eqn:Hk; [pose proof (count_bounds k w n Hk)|]; try lia).
  - destruct (has_counts kind); [rewrite (Hput k w n) by done|]; lia.
  - rewrite (Hnew k) by done. lia.
  - rewrite (Hput k w n) by done. lia.
  - rewrite (Hput k w n) by done. lia.
  - rewrite (Hnew k) by done. lia.
  - destruct (1 <? n); [rewrite (Hput k w n) by done; lia|].
    unfold size_of in *. rewrite (total_perm _ _ (entries_split m k (w, n) Hk)), total_cons in *. cbn. lia.
  - change (size_of ∅) with 0. lia.
Qed.
End steps.

Lemma perform_all_ok `{Al : Allocator} (Hal : ∀ n, 0 < n → is_Some (alloc n)) kind ht m rs :
  conf ht = plain_config kind → immutable ht = false → models ht m → Forall proper rs →
  size_of m + zlen rs ≤ max_entries →
  ∃ ht', perform_all kind ht rs = Some ((answers kind m rs).1, ht') ∧ models ht' (answers kind m rs).2.
Proof.
  revert ht m. induction rs as [|r rs IH]; intros ht m Hcf Hmut Hm Hrs Hmax.
  { exists ht. by split. }
  apply Forall_cons in Hrs as [Hr Hrs]. rewrite zlen_cons in Hmax. pose proof (zlen_nonneg rs).
  cbn [perform_all answers].
  destruct (perform_ok Hal kind ht m Hcf Hmut Hm ltac:(lia) r Hr) as (ht1 & -> & Hm1 & (Hcf1 & Him & _)).
  pose proof (answer_size kind ht m Hm ltac:(lia) r) as Hsize.
  destruct (answer kind m r) as [a m1]. cbn [fst snd mbind option_bind] in *.
  destruct (IH ht1 m1) as (ht' & -> & Hm'); [congruence|congruence|done|done|lia|].
  destruct (answers kind m1 rs) as [l m2]. by exists ht'.
Qed.

(** C2. Every sequence of calls on a new mutable dictionary, set or bag without
    callbacks answers as a finite map from words to a value and a count does: a
    dictionary keeps the value that was added first or set last, a set keeps a
    word once, a bag counts what was added. Replacing or setting a value that is
    present leaves the count of a dictionary or a set as it is, where CFSet.h says
    of CFSetReplaceValue and CFSetSetValue that the count is increased by one. *)
Theorem collections_are_maps `{Al : Allocator} (Hal : ∀ n, 0 < n → is_Some (alloc n)) kind rs :
  instance_ok (instance_size (plain_config kind)) = true → Forall proper rs → zlen rs ≤ max_entries →
  ∃ ht0 ht', CreateMutable kind None None = Some (Some ht0)
    ∧ perform_all kind ht0 rs = Some ((answers kind ∅ rs).1, ht') ∧ models ht' (answers kind ∅ rs).2.
Proof.
  intros Hok Hrs Hlen.
  destruct (create_holds (generic_flags kind) (generic_callbacks None None (has_keys kind)))
    as [Hc Hh]; [by destruct kind|done|].
  destruct (perform_all_ok Hal kind (empty_table (plain_config kind)) ∅ rs) as (ht' & Hp & Hm);
    [done|done|done|done|exact Hlen|].
  by exists (empty_table (plain_config kind)), ht'.
Qed.

(** Twice the same word, a value replaced and one set, removals, and readings. *)
Definition sample_requests : list request :=
  [Add 1 10; Add 2 20; Add 1 11; Replace 2 21; Put 3 30; Remove 1; GetCountOf 1; Contains 2;
   Get 3; GetIfPresent 4; GetCount; RemoveAll; GetCount].

Lemma collections_are_maps_witness :
  (∃ ht0 ht', @CreateMutable CFBag (fill_allocator 0 ltac:(by_decide)) None None = Some (Some ht0)
    ∧ @perform_all (fill_allocator 0 ltac:(by_decide)) CFBag ht0 sample_requests
      = Some ([Done; Done; Done; Done; Done; Done; Number 1; Truth true; Word 3; Perhaps None;
               Number 3; Done; Number 0], ht')
    ∧ models ht' ∅)
  ∧ (answers CFDictionary ∅ sample_requests).1
    = [Done; Done; Done; Done; Done; Done; Number 0; Truth true; Word 30; Perhaps None;
       Number 2; Done; Number 0].
Proof.
  split; [|vm_compute; reflexivity].
  refine (collections_are_maps _ CFBag sample_requests _ _ _); [by eexists|reflexivity| |vm_compute; discriminate].
  repeat constructor; unfold word; cbn; lia || done.
Defined.
