(* ===== verification/CollectionsCreate.v ===== *)
(** * Collections made from lists

    [CFDictionaryCreate], [CFSetCreate] and [CFBagCreate] add the members of
    their lists one after the other to a table made large enough before. *)
From S2P Require Import Prelude BasicHash HashPrimes HashProbe HashSpec HashFind HashOps HashChange.
From S2P Require Import HashUse HashProgram HashRead.
From S2P Require Import Collections.
Open Scope Z_scope.

(** ** The pairs of a key *)


Definition pairs_of (c : config) (k : Z) (l : list (Z * Z)) : list (Z * Z) :=
  filter (λ p, __CFBasicHashTestEqualKey c p.1 k = true) l.

Section filling.
Context (c : config) `{Hc : !Lawful c}.

Lemma at_key_without k k' es :
  at_key c k' (without c k es)
  = if __CFBasicHashTestEqualKey c k k' then [] else at_key c k' es.
Proof.
  induction es as [|e es IH]; [by destruct (__CFBasicHashTestEqualKey c k k')|].
  rewrite without_cons, at_key_cons.
  destruct (__CFBasicHashTestEqualKey c (ekey e) k) eqn:He; rewrite ?at_key_cons, IH;
    destruct (__CFBasicHashTestEqualKey c k k') eqn:Hk; try done;
    destruct (__CFBasicHashTestEqualKey c (ekey e) k') eqn:He'; try done; exfalso.
  - by rewrite (equal_trans k (ekey e) k') in Hk by (done || by apply equal_sym).
  - by rewrite (equal_trans (ekey e) k' k) in He by (done || by apply equal_sym).
Qed.

Lemma pairs_of_app k l l' : pairs_of c k (l ++ l') = pairs_of c k l ++ pairs_of c k l'.
Proof. apply filter_app. Qed.

Lemma equal_class k k' a : __CFBasicHashTestEqualKey c k k' = true →
  __CFBasicHashTestEqualKey c a k = __CFBasicHashTestEqualKey c a k'.
Proof.
  intros Hk. apply eq_true_iff_eq. split; intros H; eapply equal_trans; try done. by apply equal_sym.
Qed.

Lemma equal_class_l a b k : __CFBasicHashTestEqualKey c a b = true →
  __CFBasicHashTestEqualKey c a k = __CFBasicHashTestEqualKey c b k.
Proof.
  intros Hk. apply eq_true_iff_eq. split; intros H; eapply equal_trans; try done. by apply equal_sym.
Qed.

Lemma pairs_of_class k k' l : __CFBasicHashTestEqualKey c k k' = true → pairs_of c k l = pairs_of c k' l.
Proof.
  intros Hk. unfold pairs_of. apply list_filter_iff. intros p. by rewrite (equal_class k k').
Qed.

Lemma pairs_of_one k p : pairs_of c k [p] = if __CFBasicHashTestEqualKey c p.1 k then [p] else [].
Proof. unfold pairs_of. rewrite filter_cons. by destruct (__CFBasicHashTestEqualKey _ _ _). Qed.

Lemma pairs_of_length k l : zlen (pairs_of c k l) ≤ zlen l.
Proof. unfold zlen, pairs_of. apply Nat2Z.inj_le, length_filter. Qed.
End filling.

(** ** Adding a list *)

Section adding.
Context `{Al : Allocator} (Hal : ∀ n, 0 < n → is_Some (alloc n)).
Context (ht0 : CFBasicHash) `{Hc : !Lawful (conf ht0)} (Hmut : immutable ht0 = false).

(** The entry that a list of pairs of one key leaves: the first key and value,
    counted in a bag. *)
Definition first_stored (l : list (Z * Z)) : option entry :=
  match l with
  | [] => None
  | (k, v) :: _ => Some (stored ht0 k v (if counts_offset (conf ht0) then zlen l else 1))
  end.

(** The entries are what the list leaves. *)
Definition listed (l : list (Z * Z)) (es : list entry) : Prop :=
  ∀ k, lookup_key (conf ht0) k es = first_stored (pairs_of (conf ht0) k l).

Lemma lookup_equal k es e : lookup_key (conf ht0) k es = Some e →
  __CFBasicHashTestEqualKey (conf ht0) (ekey e) k = true.
Proof.
  unfold lookup_key. destruct (at_key (conf ht0) k es) as [|a r] eqn:Hat; [done|]. intros [= ->].
  assert (e ∈ at_key (conf ht0) k es) as [? _]%list_elem_of_filter by (rewrite Hat; set_solver). done.
Qed.

Lemma lookup_cons e k es : lookup_key (conf ht0) k (e :: es)
  = if __CFBasicHashTestEqualKey (conf ht0) (ekey e) k then Some e else lookup_key (conf ht0) k es.
Proof. unfold lookup_key. rewrite at_key_cons. by destruct (__CFBasicHashTestEqualKey _ _ _). Qed.

Lemma listed_add ht l es k v : kept ht0 ht → fitting (conf ht0) k v → zlen l < max_entries →
  listed l es → listed (l ++ [(k, v)]) (added ht es k v).2.
Proof.
  intros (Hcf & _ & Hrc & _) Hfit Hlen Hl k'. unfold added. rewrite Hcf, pairs_of_app, pairs_of_one. cbn [fst].
  replace (stored ht k v 1) with (stored ht0 k v 1)
    by (unfold stored, stored_key, stored_value; by rewrite Hcf, Hrc).
  pose proof (stored_equal ht0 k v Hfit) as Hst. pose proof (pairs_of_length (conf ht0) k l) as Hpl.
  rewrite (Hl k). destruct (pairs_of (conf ht0) k l) as [|[k0 v0] r] eqn:Hk; cbn [first_stored snd fst].
  - rewrite lookup_cons. change (ekey (stored ht0 k v 1)) with (stored_key ht0 k v).
    rewrite (equal_class_l (conf ht0) (stored_key ht0 k v) k k' Hst).
    destruct (__CFBasicHashTestEqualKey (conf ht0) k k') eqn:Hkk; [|by rewrite app_nil_r, Hl].
    rewrite <- (pairs_of_class (conf ht0) k k' l Hkk), Hk. cbn. by destruct (counts_offset _).
  - set (e := stored ht0 k0 v0 _). assert (He : lookup_key (conf ht0) k es = Some e) by (by rewrite Hl, Hk).
    pose proof (lookup_equal k es e He) as Hek. rewrite zlen_cons in Hpl.
    destruct (counts_offset (conf ht0)) eqn:Hco; cbn [andb].
    + change (ecount e) with (zlen ((k0, v0) :: r)) in *. rewrite zlen_cons in *.
      unfold max_entries, LONG_MAX in *. rewrite (proj2 (Z.ltb_lt _ _)) by lia. cbn [snd].
      rewrite lookup_cons. cbn [ekey counted]. rewrite (equal_class_l (conf ht0) (ekey e) k k' Hek).
      destruct (__CFBasicHashTestEqualKey (conf ht0) k k') eqn:Hkk.
      * rewrite <- (pairs_of_class (conf ht0) k k' l Hkk), Hk. cbn. rewrite Hco.
        change ((k0, v0) :: r ++ [(k, v)]) with (((k0, v0) :: r) ++ [(k, v)]). rewrite zlen_app, zlen_cons. done.
      * unfold lookup_key. rewrite at_key_without, Hkk, app_nil_r by done. apply Hl.
    + cbn [snd]. rewrite Hl. destruct (__CFBasicHashTestEqualKey (conf ht0) k k') eqn:Hkk; [|by rewrite app_nil_r].
      rewrite <- (pairs_of_class (conf ht0) k k' l Hkk), Hk. cbn. by rewrite Hco.
Qed.

Lemma add_loop_ok l1 l2 ht es : kept ht0 ht → holds ht es → zlen es ≤ zlen l1 → listed l1 es →
  Forall (λ p, fitting (conf ht0) p.1 p.2 ∧ valid p.1) l2 → zlen (l1 ++ l2) ≤ max_entries →
  ∃ ht' es', add_loop ht (l1 ++ l2).*1 (l1 ++ l2).*2 (zlen l1) (length l2) = Some ht'
    ∧ becomes ht es ht' es' ∧ listed (l1 ++ l2) es'.
Proof.
  revert l1 ht es. induction l2 as [|[k v] l2 IH]; intros l1 ht es Hk Hh Hes Hl Hf Hmax.
  { exists ht, es. rewrite app_nil_r. split; [done|]. split; [|done]. by split; [|split]. }
  apply Forall_cons in Hf as [[Hfit Hvk] Hf]. cbn [fst snd] in *. cbn [add_loop length].
  rewrite !zget_fmap, zget_middle. cbn [mbind option_bind fmap option_fmap option_map fst snd].
  rewrite zlen_app, zlen_cons in Hmax. pose proof (zlen_nonneg l2). pose proof Hk as (Hcf & Him & _).
  assert (Hc' : Lawful (conf ht)) by (by rewrite Hcf).
  destruct (add_value_becomes ht es Hal Hh ltac:(congruence) k v) as (ht1 & Hadd & Hb);
    [by rewrite Hcf|done|lia|].
  rewrite Hadd. cbn [mbind option_bind]. pose proof Hb as (Hk1 & Hh1 & _).
  pose proof (spec_operation_length ht es (OpAdd k v)) as Hlen.
  change (spec_operation ht es (OpAdd k v)).2 with (added ht es k v).2 in Hlen.
  destruct (IH (l1 ++ [(k, v)]) ht1 (added ht es k v).2) as (ht' & es' & Hloop & Hb' & Hl'); try done.
  - by apply (kept_trans _ ht).
  - rewrite zlen_app. change (zlen [(k, v)]) with 1. lia.
  - by apply listed_add; [..|lia|].
  - rewrite !zlen_app. change (zlen [(k, v)]) with 1. lia.
  - exists ht', es'. rewrite zlen_app, <- app_assoc in *. change (zlen [(k, v)]) with 1 in Hloop.
    split; [exact Hloop|].
    split; [by apply (becomes_trans ht es ht1 (added ht es k v).2)|done].
Qed.

(** [CFBasicHashSetCapacity] changes no entry. *)
Lemma set_capacity_becomes ht es cap : Lawful (conf ht) → holds ht es → immutable ht = false →
  cap ≤ max_entries → ∃ ht', CFBasicHashSetCapacity ht cap = Some ht' ∧ becomes ht es ht' es.
Proof.
  intros Hc' (ss & Ht & Hp) Him Hcap. unfold CFBasicHashSetCapacity, CFBasicHashIsMutable. rewrite Him.
  cbn [negb]. destruct (Z.ltb_spec (used_buckets ht) cap) as [Hlt|Hge].
  2: { exists ht. split; [done|]. split; [done|]. split; [by exists ss|done]. }
  assert (Hi : ∃ i, new_index (mutated ht) (cap - used_buckets ht) = Some i ∧ good_index (conf ht) i
    ∧ used_buckets ht ≤ __CFBasicHashTableCapacities i).
  { unfold new_index. rewrite (proj2 (Z.eqb_neq 0 _)), (proj2 (Z.ltb_ge _ 0)) by lia. cbn [negb].
    change (used_buckets (mutated ht)) with (used_buckets ht). rewrite Zplus_minus.
    destruct (capacity_index cap Hcap) as (j & -> & Hj & Hcj). cbn [mbind option_bind].
    eexists. split; [done|]. destruct ((1 =? _) && _).
    - split; [apply good_small; lia|]. pose proof (capacity_mono j (j + 1)). lia.
    - split; [apply good_small; lia|lia]. }
  destruct Hi as (i & Hi & Hg & Hic). pose proof (table_shaped _ _ Ht) as Hs.
  assert (Hs' : shaped (mutated ht) ss) by (destruct Hs; by constructor).
  destruct (rehash_table Hal (mutated ht) ss (cap - used_buckets ht) i Hc' Hs') as (ht' & ss' & -> & Ht' & Hp' & Hk & Hev & _);
    [apply (table_used _ _ Ht)|done..|].
  exists ht'. split; [done|]. split; [done|]. split; [exists ss'; by rewrite Hp', Hp|].
  by apply (accounted_same ht ht' Hk).
Qed.

Lemma create_fill_ok l : holds ht0 [] → Forall (λ p, fitting (conf ht0) p.1 p.2 ∧ valid p.1) l →
  zlen l ≤ max_entries →
  ∃ ht' es', fill ht0 l.*1 l.*2 (zlen l) = Some ht' ∧ becomes ht0 [] ht' es' ∧ listed l es'.
Proof.
  intros Hh Hf Hmax. unfold fill.
  assert (Hcap : ∃ ht1, (if 0 <? zlen l then CFBasicHashSetCapacity ht0 (zlen l) else Some ht0) = Some ht1
    ∧ becomes ht0 [] ht1 []).
  { destruct (0 <? zlen l); [by apply set_capacity_becomes|]. exists ht0. split; [done|].
    split; [done|]. split; done. }
  destruct Hcap as (ht1 & -> & Hb). cbn [mbind option_bind]. pose proof Hb as (Hk & Hh1 & _).
  destruct (add_loop_ok [] l ht1 []) as (ht' & es' & Hloop & Hb' & Hl); try done.
  exists ht', es'. replace (Z.to_nat (zlen l)) with (length l) by (unfold zlen; lia).
  split; [exact Hloop|]. split; [by apply (becomes_trans ht0 [] ht1 [])|done].
Qed.
End adding.

(** A table made immutable. *)
Lemma immutable_holds ht es : holds ht es → holds (CFBasicHashMakeImmutable ht) es.
Proof. intros (ss & [[] ? ? ? ?] & Hp). exists ss. split; [|done]. by constructor. Qed.

(** The configuration of a collection with its callbacks. *)
Definition collection_config (kind : collection) (keyCallBacks : option CFHashKeyCallBacks)
    (valueCallBacks : option CFHashValueCallBacks) : config :=
  config_of_flags (generic_flags kind) (generic_callbacks keyCallBacks valueCallBacks (has_keys kind)).

(** C7. An immutable collection made from a list of keys and one of values, the
    same list for a set or a bag, has for each key the first of the values given
    for it, retained; a bag counts how often the key is in the list, a dictionary
    and a set have it once. With equal keys their count is therefore smaller than
    numValues, which CFDictionary.h and CFSet.h say it will be. *)
Theorem create_keeps_the_first `{Al : Allocator} (Hal : ∀ n, 0 < n → is_Some (alloc n)) kind kcb vcb l
    (Hc : Lawful (collection_config kind kcb vcb)) :
  instance_ok (instance_size (collection_config kind kcb vcb)) = true →
  Forall (λ p, fitting (collection_config kind kcb vcb) p.1 p.2 ∧ valid p.1) l →
  zlen l ≤ max_entries →
  ∃ ht, Create kind l.*1 l.*2 (zlen l) kcb vcb = Some (Some ht) ∧ CFBasicHashIsMutable ht = false
    ∧ ∀ k, valid k →
      let found := pairs_of (collection_config kind kcb vcb) k l in
      CFBasicHashGetCountOfKey ht k = Some (if has_counts kind then zlen found else Z.min 1 (zlen found))
      ∧ GetValueIfPresent ht k
        = Some (match found with
                | [] => None
                | (_, v) :: _ => Some (imported (retainValue (callbacks (collection_config kind kcb vcb))) false v)
                end).
Proof.
  set (c := collection_config kind kcb vcb) in *. intros Hok Hf Hmax.
  assert (Hco : counts_offset c = has_counts kind) by (by destruct kind).
  destruct (create_holds (generic_flags kind) (generic_callbacks kcb vcb (has_keys kind)))
    as [Hcreate Hh]; [by destruct kind|done|].
  change (config_of_flags _ _) with c in Hcreate, Hh.
  destruct (create_fill_ok Hal (empty_table c) (Hc := Hc) eq_refl l Hh Hf Hmax) as (ht' & es & Hfill & Hb & Hl).
  exists (CFBasicHashMakeImmutable ht'). split.
  { unfold Create, CreateGeneric. rewrite Hcreate. cbn [mbind option_bind]. by rewrite Hfill. }
  split; [done|]. intros k Hk found. destruct Hb as ((Hcf & _) & Hh' & _).
  assert (Hc' : Lawful (conf (CFBasicHashMakeImmutable ht'))) by (cbn; by rewrite Hcf).
  specialize (Hl k). apply immutable_holds in Hh'. fold found in Hl.
  assert (Hl' : lookup_key (conf (CFBasicHashMakeImmutable ht')) k es = first_stored (empty_table c) found)
    by (cbn; by rewrite Hcf). cbn [first_stored] in Hl'. split.
  - rewrite (count_of_key_ok _ es k Hh' Hk). unfold count_at. rewrite Hl'. unfold first_stored.
    destruct found as [|[k0 v0] r]; [by destruct (has_counts kind)|]. cbn [stored ecount conf empty_table].
    rewrite Hco, zlen_cons. pose proof (zlen_nonneg r). destruct (has_counts kind); [done|]. f_equal. lia.
  - unfold GetValueIfPresent. destruct (find_shows _ es k Hh' Hk) as (bkt & -> & H). rewrite Hl' in H.
    cbn [mbind option_bind]. unfold first_stored in H. destruct found as [|[k0 v0] r]; [by rewrite H|].
    rewrite H. cbn [count bucket_of stored ecount weak_value evalue conf empty_table]. rewrite zlen_cons.
    pose proof (zlen_nonneg r).
    rewrite (proj2 (Z.ltb_lt 0 _)) by (destruct (counts_offset c); lia). done.
Qed.

(** Keys that are equal when their halves are, in a list with equal keys. *)
Definition half_keys : CFHashKeyCallBacks :=
  {| key_retain := Some id; key_release := true; key_equal := Some (λ a b, a / 2 =? b / 2);
     key_hash := Some (λ k, (k / 2) mod 3) |}.
Definition half_list : list (Z * Z) := [(10, 100); (11, 101); (20, 200); (10, 102)].

Lemma half_collection_lawful : Lawful (collection_config CFDictionary (Some half_keys) None).
Proof. apply (lawful_through _ (λ k, k / 2) (λ k, k mod 3)); try done; by intros f [= <-]. Qed.

Lemma create_keeps_the_first_witness : ∃ ht,
  @Create CFDictionary (fill_allocator 0 ltac:(by_decide)) half_list.*1 half_list.*2 4 (Some half_keys) None
    = Some (Some ht)
  ∧ CFBasicHashIsMutable ht = false
  ∧ ∀ k, valid k →
      let found := pairs_of (collection_config CFDictionary (Some half_keys) None) k half_list in
      CFBasicHashGetCountOfKey ht k = Some (Z.min 1 (zlen found))
      ∧ GetValueIfPresent ht k = Some (match found with [] => None | (_, v) :: _ => Some v end).
Proof.
  refine (create_keeps_the_first _ CFDictionary (Some half_keys) None half_list half_collection_lawful _ _ _);
    [by eexists|reflexivity| |vm_compute; discriminate].
  repeat constructor; unfold word; cbn; lia || done.
Defined.
