(* ===== verification/Time.v ===== *)
(** * dispatch_time_t (GCD time.c, shims/time.h)

    A time is a 64-bit word that names a clock and a value of it.  The kernel's
    clocks are read once in each function; their readings are an argument.
    Units of the clocks are nanoseconds, as on x86.  Signed sums wrap, as the
    overflow tests of the code expect. *)
From S2P Require Import Prelude.
Open Scope Z_scope.

(** ** The code *)

Inductive dispatch_clock_t := DISPATCH_CLOCK_UPTIME | DISPATCH_CLOCK_MONOTONIC | DISPATCH_CLOCK_WALL.

#[export] Instance dispatch_clock_eq_dec : EqDecision dispatch_clock_t.
Proof. solve_decision. Defined.

Definition NSEC_PER_SEC : Z := 1000000000.
Definition DISPATCH_TIME_NOW : Z := 0.
Definition DISPATCH_TIME_FOREVER : Z := 2 ^ 64 - 1.
Definition DISPATCH_WALLTIME_NOW : Z := 2 ^ 64 - 2.
Definition DISPATCH_MONOTONICTIME_NOW : Z := 2 ^ 63.

Definition DISPATCH_UP_OR_MONOTONIC_TIME_MASK : Z := 2 ^ 63.
Definition DISPATCH_WALLTIME_MASK : Z := 2 ^ 62.
Definition DISPATCH_TIME_MAX_VALUE : Z := DISPATCH_WALLTIME_MASK - 1.

(** The readings of the three clocks. *)
Record readings := {
  _dispatch_uptime : Z; _dispatch_monotonic_time : Z; _dispatch_get_nanoseconds : Z;
}.

Definition _dispatch_time_now (now : readings) (clock : dispatch_clock_t) : Z :=
  match clock with
  | DISPATCH_CLOCK_UPTIME => _dispatch_uptime now
  | DISPATCH_CLOCK_MONOTONIC => _dispatch_monotonic_time now
  | DISPATCH_CLOCK_WALL => _dispatch_get_nanoseconds now
  end.

Definition _dispatch_time_mach2nano (machtime : Z) : Z := machtime.
Definition _dispatch_time_nano2mach (nsec : Z) : Z := nsec.

(** [struct timespec] *)
Record timespec := { tv_sec : Z; tv_nsec : Z }.
Definition _dispatch_timespec_to_nano (ts : timespec) : Z :=
  u64 (u64 (tv_sec ts) * NSEC_PER_SEC + u64 (tv_nsec ts)).

Definition _dispatch_time_to_clock_and_value (now : readings) (time : Z) (allow_now : bool)
    : dispatch_clock_t * Z :=
  if allow_now && (time =? DISPATCH_TIME_NOW) then (DISPATCH_CLOCK_UPTIME, _dispatch_uptime now)
  else if allow_now && (time =? DISPATCH_MONOTONICTIME_NOW)
  then (DISPATCH_CLOCK_MONOTONIC, _dispatch_monotonic_time now)
  else if allow_now && (time =? DISPATCH_WALLTIME_NOW)
  then (DISPATCH_CLOCK_WALL, _dispatch_get_nanoseconds now)
  else
    let (clock, actual_value) :=
      if sint 64 time <? 0 then
        if negb (Z.land time DISPATCH_WALLTIME_MASK =? 0)
        then (DISPATCH_CLOCK_WALL, u64 (- time))
        else (DISPATCH_CLOCK_MONOTONIC, Z.land time (u64 (Z.lnot DISPATCH_UP_OR_MONOTONIC_TIME_MASK)))
      else (DISPATCH_CLOCK_UPTIME, time) in
    (clock, if DISPATCH_TIME_MAX_VALUE <? actual_value then DISPATCH_TIME_FOREVER else actual_value).

Definition _dispatch_clock_and_value_to_time (clock : dispatch_clock_t) (value : Z) : Z :=
  if DISPATCH_TIME_MAX_VALUE <=? value then DISPATCH_TIME_FOREVER
  else match clock with
       | DISPATCH_CLOCK_WALL => u64 (- value)
       | DISPATCH_CLOCK_UPTIME => value
       | DISPATCH_CLOCK_MONOTONIC => Z.lor value DISPATCH_UP_OR_MONOTONIC_TIME_MASK
       end.

(** The second half of [dispatch_time], by clock. *)
Definition wall_after (value delta : Z) : Z :=
  let offset := u64 delta in
  let value := u64 (value + offset) in
  if 0 <=? delta then
    if sint 64 value <=? 0 then DISPATCH_TIME_FOREVER
    else _dispatch_clock_and_value_to_time DISPATCH_CLOCK_WALL value
  else _dispatch_clock_and_value_to_time DISPATCH_CLOCK_WALL (if sint 64 value <? 1 then 2 else value).

Definition clock_after (clock : dispatch_clock_t) (value delta : Z) : Z :=
  if 0 <=? delta then
    let offset := _dispatch_time_nano2mach (u64 delta) in
    let value := u64 (value + offset) in
    if sint 64 value <=? 0 then DISPATCH_TIME_FOREVER
    else _dispatch_clock_and_value_to_time clock value
  else
    let offset := _dispatch_time_nano2mach (u64 (- delta)) in
    let value := u64 (value - offset) in
    if sint 64 value <? 1 then _dispatch_clock_and_value_to_time clock 1
    else _dispatch_clock_and_value_to_time clock value.

Definition dispatch_time (now : readings) (inval delta : Z) : Z :=
  if inval =? DISPATCH_TIME_FOREVER then DISPATCH_TIME_FOREVER
  else
    let (clock, value) := _dispatch_time_to_clock_and_value now inval true in
    if value =? DISPATCH_TIME_FOREVER then value
    else match clock with
         | DISPATCH_CLOCK_WALL => wall_after value delta
         | _ => clock_after clock value delta
         end.

Definition DISPATCH_CLOCKID_UPTIME : Z := 1.
Definition DISPATCH_CLOCKID_MONOTONIC : Z := 2.
Definition DISPATCH_CLOCKID_WALLTIME : Z := 3.

(** The result with the two words that are stored. *)
Definition dispatch_time_to_nsec (now : readings) (time : Z) : bool * Z * Z :=
  if negb (time =? DISPATCH_TIME_FOREVER) then
    let (clock, value) := _dispatch_time_to_clock_and_value now time true in
    match clock with
    | DISPATCH_CLOCK_WALL => (true, DISPATCH_CLOCKID_WALLTIME, value)
    | DISPATCH_CLOCK_UPTIME => (true, DISPATCH_CLOCKID_UPTIME, _dispatch_time_mach2nano value)
    | DISPATCH_CLOCK_MONOTONIC => (true, DISPATCH_CLOCKID_MONOTONIC, _dispatch_time_mach2nano value)
    end
  else (false, 0, 2 ^ 64 - 1).

(** Another clock reaches the end of the function without a result. *)
Definition dispatch_time_from_nsec (clock deadline : Z) : option Z :=
  let deadline := if deadline <? 2 then 2 else deadline in
  let value := _dispatch_time_nano2mach deadline in
  if clock =? DISPATCH_CLOCKID_WALLTIME
  then Some (_dispatch_clock_and_value_to_time DISPATCH_CLOCK_WALL deadline)
  else if clock =? DISPATCH_CLOCKID_MONOTONIC
  then Some (_dispatch_clock_and_value_to_time DISPATCH_CLOCK_MONOTONIC value)
  else if clock =? DISPATCH_CLOCKID_UPTIME
  then Some (_dispatch_clock_and_value_to_time DISPATCH_CLOCK_UPTIME value)
  else None.

Definition dispatch_walltime (now : readings) (inval : option timespec) (delta : Z) : Z :=
  let nsec := sint 64 (match inval with
                       | Some ts => _dispatch_timespec_to_nano ts
                       | None => _dispatch_get_nanoseconds now
                       end) in
  let nsec := sint 64 (nsec + delta) in
  if nsec <=? 1 then if 0 <=? delta then DISPATCH_TIME_FOREVER else u64 (-2)
  else u64 (- nsec).

Definition _dispatch_timeout (now : readings) (when : Z) : Z :=
  if when =? DISPATCH_TIME_FOREVER then DISPATCH_TIME_FOREVER
  else if (when =? DISPATCH_TIME_NOW) || (when =? DISPATCH_MONOTONICTIME_NOW)
          || (when =? DISPATCH_WALLTIME_NOW) then 0
  else
    let (clock, value) := _dispatch_time_to_clock_and_value now when false in
    match clock with
    | DISPATCH_CLOCK_WALL =>
        let now := _dispatch_get_nanoseconds now in
        if value <=? now then 0 else value - now
    | DISPATCH_CLOCK_UPTIME =>
        let now := _dispatch_uptime now in
        if value <=? now then 0 else _dispatch_time_mach2nano (value - now)
    | DISPATCH_CLOCK_MONOTONIC =>
        let now := _dispatch_monotonic_time now in
        if value <=? now then 0 else _dispatch_time_mach2nano (value - now)
    end.

Definition _dispatch_time_nanoseconds_since_epoch (now : readings) (when : Z) : Z :=
  if when =? DISPATCH_TIME_FOREVER then DISPATCH_TIME_FOREVER
  else if sint 64 when <? 0 then u64 (- sint 64 when)
  else u64 (_dispatch_get_nanoseconds now + _dispatch_timeout now when).

(** ** Words and clocks *)

Lemma land_bit t n : 0 ≤ n → Z.land t (2 ^ n) = if Z.testbit t n then 2 ^ n else 0.
Proof.
  intros Hn. apply Z.bits_inj'. intros i Hi. rewrite Z.land_spec, Z.pow2_bits_eqb by done.
  destruct (Z.eqb_spec n i) as [<-|Hne].
  - rewrite andb_true_r. destruct (Z.testbit t n); [by rewrite Z.pow2_bits_true|by rewrite Z.bits_0].
  - rewrite andb_false_r. destruct (Z.testbit t n); [by rewrite Z.pow2_bits_false|by rewrite Z.bits_0].
Qed.

Lemma wall_bit t : 2 ^ 63 ≤ t < 2 ^ 64 →
  Z.land t DISPATCH_WALLTIME_MASK = if 3 * 2 ^ 62 <=? t then 2 ^ 62 else 0.
Proof.
  intros Ht. unfold DISPATCH_WALLTIME_MASK. rewrite land_bit by lia.
  replace (Z.testbit t 62) with (3 * 2 ^ 62 <=? t); [done|symmetry].
  destruct (Z.leb_spec (3 * 2 ^ 62) t) as [H|H].
  - apply Z.testbit_true; [lia|]. replace (t / 2 ^ 62) with 3; [done|].
    apply (Z.div_unique_pos t (2 ^ 62) 3 (t - 3 * 2 ^ 62)); lia.
  - apply Z.testbit_false; [lia|]. replace (t / 2 ^ 62) with 2; [done|].
    apply (Z.div_unique_pos t (2 ^ 62) 2 (t - 2 * 2 ^ 62)); lia.
Qed.

Lemma clear_top t : 2 ^ 63 ≤ t < 2 ^ 64 →
  Z.land t (u64 (Z.lnot DISPATCH_UP_OR_MONOTONIC_TIME_MASK)) = t - 2 ^ 63.
Proof.
  intros Ht. change (u64 (Z.lnot DISPATCH_UP_OR_MONOTONIC_TIME_MASK)) with (Z.ones 63).
  rewrite Z.land_ones by lia. symmetry. apply (Z.mod_unique_pos t (2 ^ 63) 1); lia.
Qed.

Lemma set_top v : 0 ≤ v < 2 ^ 63 → Z.lor v DISPATCH_UP_OR_MONOTONIC_TIME_MASK = v + 2 ^ 63.
Proof.
  intros Hv. unfold DISPATCH_UP_OR_MONOTONIC_TIME_MASK.
  assert (Hl : Z.land v (2 ^ 63) = 0).
  { rewrite land_bit by lia. replace (Z.testbit v 63) with false; [done|]. symmetry.
    apply Z.testbit_false; [lia|]. by rewrite Z.div_small. }
  by rewrite Z.add_nocarry_lxor, Z.lxor_lor.
Qed.

Lemma sint_word t : 0 ≤ t < 2 ^ 64 → sint 64 t = if 2 ^ 63 <=? t then t - 2 ^ 64 else t.
Proof.
  intros Ht. unfold sint. change (64 - 1) with 63. destruct (Z.leb_spec (2 ^ 63) t).
  - enough ((t + 2 ^ 63) mod 2 ^ 64 = t - 2 ^ 63) by lia. symmetry. apply (Z.mod_unique_pos _ _ 1); lia.
  - rewrite Z.mod_small by lia. lia.
Qed.

Lemma u64_neg v : 0 < v ≤ 2 ^ 64 → u64 (- v) = 2 ^ 64 - v.
Proof. intros Hv. unfold u64. symmetry. apply (Z.mod_unique_pos _ _ (-1)); lia. Qed.

(** ** The encoding *)

(** The clock and the value a word stands for, by ranges. *)
Definition meaning (t : Z) : dispatch_clock_t * Z :=
  if t <? 2 ^ 63 then (DISPATCH_CLOCK_UPTIME, t)
  else if t <? 3 * 2 ^ 62 then (DISPATCH_CLOCK_MONOTONIC, t - 2 ^ 63)
  else (DISPATCH_CLOCK_WALL, 2 ^ 64 - t).

(** Values that are too large are for ever. *)
Definition clipped (v : Z) : Z := if 2 ^ 62 - 1 <? v then DISPATCH_TIME_FOREVER else v.

Lemma decode_meaning now t : 0 ≤ t < 2 ^ 64 →
  _dispatch_time_to_clock_and_value now t false = ((meaning t).1, clipped (meaning t).2).
Proof.
  intros Ht. unfold _dispatch_time_to_clock_and_value, meaning. cbn [andb].
  rewrite sint_word by done. destruct (Z.leb_spec (2 ^ 63) t) as [H63|H63].
  - rewrite (proj2 (Z.ltb_lt _ 0)), (proj2 (Z.ltb_ge t _)) by lia.
    rewrite wall_bit by lia. destruct (Z.leb_spec (3 * 2 ^ 62) t) as [H62|H62].
    + rewrite (proj2 (Z.ltb_ge t _)) by lia. cbn [negb Z.eqb]. by rewrite u64_neg by lia.
    + rewrite (proj2 (Z.ltb_lt t _)) by lia. cbn [negb Z.eqb]. by rewrite clear_top by lia.
  - by rewrite (proj2 (Z.ltb_ge _ 0)), (proj2 (Z.ltb_lt t _)) by lia.
Qed.

(** The three words for "now" are readings. *)
Lemma decode_now now t : 0 ≤ t < 2 ^ 64 →
  _dispatch_time_to_clock_and_value now t true =
    if t =? DISPATCH_TIME_NOW then (DISPATCH_CLOCK_UPTIME, _dispatch_uptime now)
    else if t =? DISPATCH_MONOTONICTIME_NOW then (DISPATCH_CLOCK_MONOTONIC, _dispatch_monotonic_time now)
    else if t =? DISPATCH_WALLTIME_NOW then (DISPATCH_CLOCK_WALL, _dispatch_get_nanoseconds now)
    else ((meaning t).1, clipped (meaning t).2).
Proof. intros Ht. rewrite <- (decode_meaning now) by done. done. Qed.

(** The word of a clock and a value in range. *)
Definition word_for (clock : dispatch_clock_t) (v : Z) : Z :=
  match clock with
  | DISPATCH_CLOCK_UPTIME => v
  | DISPATCH_CLOCK_MONOTONIC => v + 2 ^ 63
  | DISPATCH_CLOCK_WALL => 2 ^ 64 - v
  end.

Lemma encode_word_for clock v : 0 < v →
  _dispatch_clock_and_value_to_time clock v
  = if 2 ^ 62 - 1 <=? v then DISPATCH_TIME_FOREVER else word_for clock v.
Proof.
  intros Hv. unfold _dispatch_clock_and_value_to_time, DISPATCH_TIME_MAX_VALUE, DISPATCH_WALLTIME_MASK.
  destruct (Z.leb_spec (2 ^ 62 - 1) v); [done|].
  destruct clock; cbn [word_for]; [done|apply set_top; lia|apply u64_neg; lia].
Qed.

Lemma word_for_range clock v : 0 < v < 2 ^ 62 - 1 → 0 ≤ word_for clock v < 2 ^ 64.
Proof. destruct clock; cbn; lia. Qed.

Lemma meaning_word_for clock v : 0 < v < 2 ^ 62 - 1 → meaning (word_for clock v) = (clock, v).
Proof.
  intros Hv. unfold meaning. destruct clock; cbn [word_for].
  - by rewrite (proj2 (Z.ltb_lt _ _)) by lia.
  - rewrite (proj2 (Z.ltb_ge _ _)), (proj2 (Z.ltb_lt _ _)) by lia. f_equal. lia.
  - rewrite !(proj2 (Z.ltb_ge _ _)) by lia. f_equal. lia.
Qed.

(** Readings that occur from a moment after the start of each clock to the year 2116. *)
Definition sound (now : readings) : Prop :=
  ∀ c, 2 < _dispatch_time_now now c < 2 ^ 62 - 1.

Definition int64 (x : Z) : Prop := - 2 ^ 63 ≤ x < 2 ^ 63.

(** ** Adding *)

(** What too early a time becomes. *)
Definition earliest (clock : dispatch_clock_t) : Z :=
  match clock with DISPATCH_CLOCK_WALL => 2 | _ => 1 end.

(** The time [delta] nanoseconds after the value [v] of a clock. *)
Definition delayed (clock : dispatch_clock_t) (v delta : Z) : Z :=
  if 2 ^ 62 - 1 <=? v + delta then DISPATCH_TIME_FOREVER
  else word_for clock (if v + delta <? 1 then earliest clock else v + delta).

Lemma sint_u64 x : int64 x → sint 64 (u64 x) = x.
Proof.
  intros Hx. unfold int64 in Hx. unfold u64. rewrite sint_word by (apply Z.mod_pos_bound; lia).
  destruct (Z.lt_ge_cases x 0) as [Hn|Hn].
  - replace (x mod 2 ^ 64) with (x + 2 ^ 64) by (apply (Z.mod_unique_pos _ _ (-1)); lia).
    rewrite (proj2 (Z.leb_le _ _)) by lia. lia.
  - rewrite Z.mod_small by lia. by rewrite (proj2 (Z.leb_gt _ _)) by lia.
Qed.

Lemma u64_add_u64 a b : u64 (a + u64 b) = u64 (a + b).
Proof. unfold u64. by rewrite Zplus_mod_idemp_r. Qed.

Lemma u64_sub_u64 a b : u64 (a - u64 b) = u64 (a - b).
Proof. unfold u64. by rewrite Zminus_mod_idemp_r. Qed.

Lemma u64_same x : 0 ≤ x < 2 ^ 64 → u64 x = x.
Proof. apply Z.mod_small. Qed.

(** A sum that overflows 63 bits. *)
Lemma sint_over x : 2 ^ 63 ≤ x < 2 ^ 64 → sint 64 x ≤ 0.
Proof. intros Hx. rewrite sint_word by lia. rewrite (proj2 (Z.leb_le _ _)) by lia. lia. Qed.

Lemma wall_after_delayed v delta : 0 < v ≤ 2 ^ 62 - 1 → int64 delta →
  wall_after v delta = delayed DISPATCH_CLOCK_WALL v delta.
Proof.
  intros Hv Hd. unfold int64 in Hd. unfold wall_after, delayed. rewrite u64_add_u64.
  destruct (Z.leb_spec 0 delta) as [Hp|Hn].
  - rewrite u64_same by lia. destruct (Z.lt_ge_cases (v + delta) (2 ^ 63)) as [Hs|Hs].
    + rewrite (sint_id 64) by lia. rewrite (proj2 (Z.leb_gt _ 0)), encode_word_for by lia.
      by rewrite (proj2 (Z.ltb_ge _ 1)) by lia.
    + pose proof (sint_over (v + delta)). rewrite (proj2 (Z.leb_le _ 0)) by lia.
      by rewrite (proj2 (Z.leb_le _ _)) by lia.
  - rewrite sint_u64 by (unfold int64; lia). rewrite (proj2 (Z.leb_gt _ (v + delta))) by lia.
    destruct (Z.ltb_spec (v + delta) 1); [done|]. rewrite u64_same, encode_word_for by lia.
    by rewrite (proj2 (Z.leb_gt _ _)) by lia.
Qed.

Lemma clock_after_delayed clock v delta : clock ≠ DISPATCH_CLOCK_WALL → 0 < v ≤ 2 ^ 62 - 1 → int64 delta →
  clock_after clock v delta = delayed clock v delta.
Proof.
  intros Hc Hv Hd. unfold int64 in Hd. unfold clock_after, delayed, _dispatch_time_nano2mach.
  rewrite u64_add_u64, u64_sub_u64. destruct (Z.leb_spec 0 delta) as [Hp|Hn].
  - rewrite u64_same by lia. destruct (Z.lt_ge_cases (v + delta) (2 ^ 63)) as [Hs|Hs].
    + rewrite (sint_id 64) by lia. rewrite (proj2 (Z.leb_gt _ 0)), encode_word_for by lia.
      by rewrite (proj2 (Z.ltb_ge _ 1)) by lia.
    + pose proof (sint_over (v + delta)). rewrite (proj2 (Z.leb_le _ 0)) by lia.
      by rewrite (proj2 (Z.leb_le _ _)) by lia.
  - replace (v - - delta) with (v + delta) by lia. rewrite sint_u64 by (unfold int64; lia).
    rewrite (proj2 (Z.leb_gt _ (v + delta))) by lia. destruct (Z.ltb_spec (v + delta) 1).
    + rewrite encode_word_for by lia. by destruct clock.
    + rewrite u64_same, encode_word_for by lia. by rewrite (proj2 (Z.leb_gt _ _)) by lia.
Qed.

(** The clock and the value that a word stands for in [dispatch_time]. *)
Definition start (now : readings) (t : Z) : dispatch_clock_t * Z :=
  if t =? DISPATCH_TIME_NOW then (DISPATCH_CLOCK_UPTIME, _dispatch_uptime now)
  else if t =? DISPATCH_MONOTONICTIME_NOW then (DISPATCH_CLOCK_MONOTONIC, _dispatch_monotonic_time now)
  else if t =? DISPATCH_WALLTIME_NOW then (DISPATCH_CLOCK_WALL, _dispatch_get_nanoseconds now)
  else meaning t.

Lemma start_positive now t : sound now → 0 ≤ t < 2 ^ 64 → 0 < (start now t).2.
Proof.
  intros Hs Ht. pose proof (Hs DISPATCH_CLOCK_UPTIME). pose proof (Hs DISPATCH_CLOCK_MONOTONIC).
  pose proof (Hs DISPATCH_CLOCK_WALL). unfold start, meaning, DISPATCH_TIME_NOW,
    DISPATCH_MONOTONICTIME_NOW, DISPATCH_WALLTIME_NOW in *. cbn in *.
  repeat case_match; zbool; cbn in *; lia.
Qed.

Lemma dispatch_time_is now inval delta : sound now → 0 ≤ inval < 2 ^ 64 - 1 → int64 delta →
  let (clock, v) := start now inval in
  dispatch_time now inval delta
  = if 2 ^ 62 - 1 <? v then DISPATCH_TIME_FOREVER
    else if 2 ^ 62 - 1 <=? v + delta then DISPATCH_TIME_FOREVER
    else if v + delta <? 1 then word_for clock (earliest clock)
    else word_for clock (v + delta).
Proof.
  intros Hs Ht Hd. pose proof (start_positive now inval Hs ltac:(lia)) as Hpos.
  assert (Hstart : _dispatch_time_to_clock_and_value now inval true
    = ((start now inval).1, clipped (start now inval).2)).
  { rewrite decode_now by lia. unfold start.
    pose proof (Hs DISPATCH_CLOCK_UPTIME) as H1. pose proof (Hs DISPATCH_CLOCK_MONOTONIC) as H2.
    pose proof (Hs DISPATCH_CLOCK_WALL) as H3. cbn in H1, H2, H3. unfold clipped.
    repeat case_match; zbool; cbn in *; try done; exfalso; lia. }
  destruct (start now inval) as [clock v]. cbn [fst snd] in *. unfold dispatch_time.
  rewrite (proj2 (Z.eqb_neq inval _)) by (unfold DISPATCH_TIME_FOREVER; lia). rewrite Hstart. unfold clipped.
  destruct (Z.ltb_spec (2 ^ 62 - 1) v) as [Hbig|Hsmall]; [done|].
  rewrite (proj2 (Z.eqb_neq v _)) by (unfold DISPATCH_TIME_FOREVER; lia).
  assert (Hdel : (match clock with DISPATCH_CLOCK_WALL => wall_after v delta
                  | _ => clock_after clock v delta end) = delayed clock v delta).
  { destruct clock; [by apply clock_after_delayed|by apply clock_after_delayed|by apply wall_after_delayed]. }
  rewrite Hdel. unfold delayed. by destruct (v + delta <? 1).
Qed.

(** C15. [dispatch_time] adds to the clock that its argument names, exactly: a sum
    that is too large gives for ever, one before the start of the clock the
    earliest time.  For a wall clock the sum 1 gives for ever too. *)
Theorem dispatch_time_adds now inval delta : sound now → 0 ≤ inval < 2 ^ 64 - 1 → int64 delta →
  let (clock, v) := start now inval in
  dispatch_time now inval delta
  = if 2 ^ 62 - 1 <? v then DISPATCH_TIME_FOREVER
    else if 2 ^ 62 - 1 <=? v + delta then DISPATCH_TIME_FOREVER
    else if v + delta <? 1 then word_for clock (earliest clock)
    else word_for clock (v + delta).
Proof. apply dispatch_time_is. Qed.

Definition sample_readings : readings :=
  {| _dispatch_uptime := 1000; _dispatch_monotonic_time := 2000; _dispatch_get_nanoseconds := 3000 |}.

Lemma sample_sound : sound sample_readings.
Proof. intros []; cbn; lia. Qed.

(** Five nanoseconds before a wall time that is given. *)
Lemma dispatch_time_adds_witness :
  dispatch_time sample_readings (2 ^ 64 - 4000) (-5) = 2 ^ 64 - 3995.
Proof. exact (dispatch_time_adds sample_readings (2 ^ 64 - 4000) (-5) sample_sound ltac:(lia) ltac:(unfold int64; lia)). Defined.

(** ** Waiting *)

(** The three words for "now". *)
Definition now_word (clock : dispatch_clock_t) : Z :=
  match clock with
  | DISPATCH_CLOCK_UPTIME => DISPATCH_TIME_NOW
  | DISPATCH_CLOCK_MONOTONIC => DISPATCH_MONOTONICTIME_NOW
  | DISPATCH_CLOCK_WALL => DISPATCH_WALLTIME_NOW
  end.

Lemma start_now now clock : start now (now_word clock) = (clock, _dispatch_time_now now clock).
Proof. by destruct clock. Qed.

Lemma timeout_of_word now clock v : 2 < v < 2 ^ 62 - 1 →
  _dispatch_timeout now (word_for clock v) = Z.max 0 (v - _dispatch_time_now now clock).
Proof.
  intros Hv. unfold _dispatch_timeout. pose proof (word_for_range clock v ltac:(lia)) as Hr.
  assert (Hspecial : word_for clock v ≠ DISPATCH_TIME_FOREVER ∧ word_for clock v ≠ DISPATCH_TIME_NOW
    ∧ word_for clock v ≠ DISPATCH_MONOTONICTIME_NOW ∧ word_for clock v ≠ DISPATCH_WALLTIME_NOW).
  { unfold DISPATCH_TIME_FOREVER, DISPATCH_TIME_NOW, DISPATCH_MONOTONICTIME_NOW, DISPATCH_WALLTIME_NOW.
    destruct clock; cbn; lia. }
  destruct Hspecial as (H1 & H2 & H3 & H4). rewrite !(proj2 (Z.eqb_neq _ _)) by done. cbn [orb].
  rewrite decode_meaning, meaning_word_for by lia. cbn [fst snd]. unfold clipped.
  rewrite (proj2 (Z.ltb_ge _ v)) by lia. unfold _dispatch_time_mach2nano.
  destruct clock; cbn [_dispatch_time_now];
    match goal with |- (if ?a <=? ?b then _ else _) = _ => destruct (Z.leb_spec a b) end; lia.
Qed.

(** C9. A deadline made with [dispatch_time] from "now" on any clock is reached
    exactly [delta] nanoseconds of this clock later: at any later reading the time
    that [_dispatch_timeout] leaves is what is missing, and for ever when the
    clock cannot represent the deadline. *)
Theorem deadlines_are_exact now later clock delta : sound now → 0 ≤ delta → int64 delta →
  let r := _dispatch_time_now now clock in
  _dispatch_timeout later (dispatch_time now (now_word clock) delta)
  = if 2 ^ 62 - 1 <=? r + delta then DISPATCH_TIME_FOREVER
    else Z.max 0 (r + delta - _dispatch_time_now later clock).
Proof.
  intros Hs Hd Hi r. pose proof (Hs clock) as Hr. fold r in Hr.
  pose proof (dispatch_time_is now (now_word clock) delta Hs) as Hdt. rewrite start_now in Hdt. fold r in Hdt.
  rewrite Hdt by (done || by destruct clock). rewrite (proj2 (Z.ltb_ge _ r)) by lia.
  destruct (Z.leb_spec (2 ^ 62 - 1) (r + delta)); [done|].
  rewrite (proj2 (Z.ltb_ge _ 1)) by lia. apply timeout_of_word. lia.
Qed.

Lemma deadlines_are_exact_witness :
  _dispatch_timeout {| _dispatch_uptime := 1000; _dispatch_monotonic_time := 2300; _dispatch_get_nanoseconds := 1 |}
    (dispatch_time sample_readings DISPATCH_MONOTONICTIME_NOW 500) = 200.
Proof.
  exact (deadlines_are_exact sample_readings
    {| _dispatch_uptime := 1000; _dispatch_monotonic_time := 2300; _dispatch_get_nanoseconds := 1 |}
    DISPATCH_CLOCK_MONOTONIC 500 sample_sound ltac:(lia) ltac:(unfold int64; lia)).
Defined.

(** ** Conversion *)

Definition clock_of_id (clock : Z) : option dispatch_clock_t :=
  if clock =? DISPATCH_CLOCKID_WALLTIME then Some DISPATCH_CLOCK_WALL
  else if clock =? DISPATCH_CLOCKID_MONOTONIC then Some DISPATCH_CLOCK_MONOTONIC
  else if clock =? DISPATCH_CLOCKID_UPTIME then Some DISPATCH_CLOCK_UPTIME
  else None.

(** A deadline in nanoseconds of a clock comes back from its time, from 2 on;
    but the wall time 2 is the word for "now", and comes back as the reading of
    the clock. *)
Theorem nsec_round_trip now clock deadline c : clock_of_id clock = Some c → 0 ≤ deadline < 2 ^ 64 →
  ∃ t, dispatch_time_from_nsec clock deadline = Some t
    ∧ dispatch_time_to_nsec now t
      = if 2 ^ 62 - 1 <=? deadline then (false, 0, 2 ^ 64 - 1)
        else if bool_decide (c = DISPATCH_CLOCK_WALL) && (deadline <=? 2)
        then (true, clock, _dispatch_get_nanoseconds now)
        else (true, clock, Z.max 2 deadline).
Proof.
  intros Hc Hd. unfold dispatch_time_from_nsec, _dispatch_time_nano2mach.
  set (d := if deadline <? 2 then 2 else deadline).
  assert (Hmax : d = Z.max 2 deadline) by (unfold d; destruct (Z.ltb_spec deadline 2); lia).
  exists (_dispatch_clock_and_value_to_time c d). split.
  { revert Hc. unfold clock_of_id. repeat case_match; intros ?; by simplify_eq. }
  rewrite encode_word_for by lia. unfold dispatch_time_to_nsec.
  destruct (Z.leb_spec (2 ^ 62 - 1) deadline) as [Hbig|Hsmall].
  { by rewrite (proj2 (Z.leb_le _ d)) by lia. }
  rewrite (proj2 (Z.leb_gt _ d)) by lia. pose proof (word_for_range c d ltac:(lia)) as Hr.
  rewrite (proj2 (Z.eqb_neq _ _)) by (unfold DISPATCH_TIME_FOREVER; destruct c; cbn; lia). cbn [negb].
  rewrite decode_now, meaning_word_for by lia.
  unfold DISPATCH_TIME_NOW, DISPATCH_MONOTONICTIME_NOW, DISPATCH_WALLTIME_NOW, clipped, _dispatch_time_mach2nano.
  rewrite (proj2 (Z.eqb_neq _ 0)), (proj2 (Z.eqb_neq _ (2 ^ 63))) by (destruct c; cbn; lia).
  rewrite (proj2 (Z.ltb_ge _ (c, d).2)) by (cbn; lia).
  assert (Hid : clock = match c with DISPATCH_CLOCK_UPTIME => 1 | DISPATCH_CLOCK_MONOTONIC => 2 | _ => 3 end).
  { revert Hc. unfold clock_of_id. repeat case_match; zbool; intros ?; by simplify_eq. }
  rewrite Hid. destruct c; cbn [word_for fst snd bool_decide decide_rel andb].
  - rewrite (proj2 (Z.eqb_neq d _)) by lia. by rewrite Hmax.
  - rewrite (proj2 (Z.eqb_neq _ _)) by lia. by rewrite Hmax.
  - destruct (Z.leb_spec deadline 2) as [H2|H2].
    + by rewrite (proj2 (Z.eqb_eq _ _)) by lia.
    + rewrite (proj2 (Z.eqb_neq _ _)) by lia. by rewrite Hmax.
Qed.

Lemma nsec_round_trip_witness : ∃ t, dispatch_time_from_nsec 2 700 = Some t
  ∧ dispatch_time_to_nsec sample_readings t = (true, 2, 700).
Proof.
  exact (nsec_round_trip sample_readings 2 700 DISPATCH_CLOCK_MONOTONIC eq_refl ltac:(lia)).
Defined.

(** ** Wall time *)

(** [dispatch_walltime] by the sum of its arguments. *)
Lemma walltime_is now delta : sound now → int64 delta →
  let s := _dispatch_get_nanoseconds now + delta in
  dispatch_walltime now None delta
  = if s <=? 1 then DISPATCH_WALLTIME_NOW
    else if 2 ^ 63 <=? s then DISPATCH_TIME_FOREVER
    else 2 ^ 64 - s.
Proof.
  intros Hs Hd s. pose proof (Hs DISPATCH_CLOCK_WALL) as Hr. cbn in Hr. unfold int64 in Hd.
  unfold dispatch_walltime. rewrite (sint_id 64 (_dispatch_get_nanoseconds now)) by lia. fold s.
  assert (Hrange : - 2 ^ 63 ≤ s < 2 ^ 64) by lia.
  destruct (Z.leb_spec s 1) as [H1|H1].
  - rewrite (sint_id 64) by lia. rewrite (proj2 (Z.leb_le s 1)), (proj2 (Z.leb_gt 0 delta)) by lia. done.
  - destruct (Z.leb_spec (2 ^ 63) s) as [H63|H63].
    + pose proof (sint_over s ltac:(lia)). rewrite (proj2 (Z.leb_le _ 1)), (proj2 (Z.leb_le 0 delta)) by lia. done.
    + rewrite (sint_id 64) by lia. rewrite (proj2 (Z.leb_gt s 1)) by lia. apply u64_neg. lia.
Qed.

(** C39. [dispatch_walltime(NULL, delta)] is [dispatch_time(DISPATCH_WALLTIME_NOW, delta)],
    as dispatch/time.h says, except for a sum of 1, where the one is now and the
    other for ever, and from 2^62 - 1 to 2^63 - 1, where only the second is for
    ever. *)
Theorem walltime_is_dispatch_time now delta : sound now → int64 delta →
  let s := _dispatch_get_nanoseconds now + delta in
  dispatch_walltime now None delta = dispatch_time now DISPATCH_WALLTIME_NOW delta
  ↔ s ≠ 1 ∧ ¬ (2 ^ 62 - 1 ≤ s < 2 ^ 63).
Proof.
  intros Hs Hd s. rewrite walltime_is by done. fold s.
  pose proof (dispatch_time_is now DISPATCH_WALLTIME_NOW delta Hs) as Hdt.
  change (start now DISPATCH_WALLTIME_NOW) with (DISPATCH_CLOCK_WALL, _dispatch_get_nanoseconds now) in Hdt.
  rewrite Hdt by done. pose proof (Hs DISPATCH_CLOCK_WALL) as Hr. cbn in Hr. fold s.
  rewrite (proj2 (Z.ltb_ge _ (_dispatch_get_nanoseconds now))) by lia.
  unfold DISPATCH_WALLTIME_NOW, DISPATCH_TIME_FOREVER, int64 in *. cbn [word_for earliest].
  destruct (Z.leb_spec (2 ^ 62 - 1) s), (Z.leb_spec s 1), (Z.ltb_spec s 1), (Z.leb_spec (2 ^ 63) s); lia.
Qed.

Lemma walltime_is_dispatch_time_witness :
  dispatch_walltime sample_readings None 5 = dispatch_time sample_readings DISPATCH_WALLTIME_NOW 5
  ↔ 3000 + 5 ≠ 1 ∧ ¬ (2 ^ 62 - 1 ≤ 3000 + 5 < 2 ^ 63).
Proof. exact (walltime_is_dispatch_time sample_readings 5 sample_sound ltac:(unfold int64; lia)). Defined.

(** A wall time after the value 2^62 is taken for a time of another clock: the
    word that [dispatch_walltime] makes of it is waited for on the monotonic clock. *)
Theorem walltime_turns_monotonic now later delta : sound now → int64 delta →
  let s := _dispatch_get_nanoseconds now + delta in
  2 ^ 62 < s < 2 ^ 63 →
  _dispatch_timeout later (dispatch_walltime now None delta)
  = Z.max 0 (2 ^ 63 - s - _dispatch_monotonic_time later).
Proof.
  intros Hs Hd s Hlarge. rewrite walltime_is by done. fold s.
  rewrite (proj2 (Z.leb_gt s 1)), (proj2 (Z.leb_gt _ s)) by lia. unfold _dispatch_timeout.
  unfold DISPATCH_TIME_FOREVER, DISPATCH_TIME_NOW, DISPATCH_MONOTONICTIME_NOW, DISPATCH_WALLTIME_NOW.
  rewrite !(proj2 (Z.eqb_neq _ _)) by lia. cbn [orb]. rewrite decode_meaning by lia. unfold meaning.
  rewrite (proj2 (Z.ltb_ge _ (2 ^ 63))), (proj2 (Z.ltb_lt _ (3 * 2 ^ 62))) by lia. cbn [fst snd].
  unfold clipped. rewrite (proj2 (Z.ltb_ge _ (2 ^ 64 - s - 2 ^ 63))) by lia. unfold _dispatch_time_mach2nano.
  match goal with |- (if ?a <=? ?b then _ else _) = _ => destruct (Z.leb_spec a b) end; lia.
Qed.

(** A hundred years after a reading in 2023, waited for on a machine that has run
    for a day: it is reached in 138 years instead. *)
Lemma walltime_turns_monotonic_witness :
  let now := {| _dispatch_uptime := 86400 * 10 ^ 9; _dispatch_monotonic_time := 86400 * 10 ^ 9;
                _dispatch_get_nanoseconds := 1700000000 * 10 ^ 9 |} in
  _dispatch_timeout now (dispatch_walltime now None (36525 * 86400 * 10 ^ 9))
  = 2 ^ 63 - (1700000000 + 36525 * 86400) * 10 ^ 9 - 86400 * 10 ^ 9.
Proof.
  intros now. refine (walltime_turns_monotonic now now (36525 * 86400 * 10 ^ 9) _ _ _).
  - intros []; cbn; lia.
  - unfold int64. lia.
  - cbn. lia.
Defined.

(** ** Since the epoch *)

(** C40. [_dispatch_time_nanoseconds_since_epoch] is right for a wall time and for an
    uptime, where it adds what is left to the reading of the wall clock; for a
    monotonic time it gives a number that depends on no clock. *)
Theorem monotonic_since_epoch now clock v : sound now → 2 < v < 2 ^ 62 - 1 →
  _dispatch_time_nanoseconds_since_epoch now (word_for clock v)
  = match clock with
    | DISPATCH_CLOCK_WALL => v
    | DISPATCH_CLOCK_UPTIME => _dispatch_get_nanoseconds now + Z.max 0 (v - _dispatch_uptime now)
    | DISPATCH_CLOCK_MONOTONIC => 2 ^ 63 - v
    end.
Proof.
  intros Hs Hv. unfold _dispatch_time_nanoseconds_since_epoch. pose proof (Hs DISPATCH_CLOCK_WALL) as Hw. cbn in Hw.
  pose proof (Hs DISPATCH_CLOCK_UPTIME) as Hu. cbn in Hu.
  rewrite (proj2 (Z.eqb_neq _ _)) by (unfold DISPATCH_TIME_FOREVER; destruct clock; cbn; lia).
  rewrite timeout_of_word by lia. pose proof (word_for_range clock v ltac:(lia)) as Hr.
  rewrite sint_word by lia. destruct clock; cbn [word_for _dispatch_time_now] in *.
  - rewrite (proj2 (Z.leb_gt _ v)), (proj2 (Z.ltb_ge v 0)) by lia. apply u64_same. lia.
  - rewrite (proj2 (Z.leb_le _ (v + 2 ^ 63))), (proj2 (Z.ltb_lt _ 0)) by lia.
    rewrite u64_same by lia. lia.
  - rewrite (proj2 (Z.leb_le _ (2 ^ 64 - v))), (proj2 (Z.ltb_lt _ 0)) by lia.
    rewrite u64_same by lia. lia.
Qed.

Lemma monotonic_since_epoch_witness :
  _dispatch_time_nanoseconds_since_epoch sample_readings (word_for DISPATCH_CLOCK_MONOTONIC 2500)
  = 2 ^ 63 - 2500.
Proof. exact (monotonic_since_epoch sample_readings DISPATCH_CLOCK_MONOTONIC 2500 sample_sound ltac:(lia)). Defined.
